(* ===== verification/_CoqProject ===== *)
-Q . S2P
Prelude.v
Memory.v
Multiboot2.v
Pmm.v
Vmm.v
Paging.v
Heap.v
AddressSpace.v
CText.v
RamFs.v
RamFsSpec.v
FsHandles.v
Vfs.v
Scheduler.v
SchedulerSpec.v
KernelTasks.v
Serial.v
Syscall.v
SyscallSpec.v
ToolText.v
Json.v
JsonSpec.v
Assembler.v
AssemblerSpec.v
Linker.v
LinkerSpec.v
MachineSpec.v
Macro.v
MacroSpec.v
Sync.v
Keyboard.v
Block.v
BlockSpec.v
RamDisk.v
Bytes.v
Storage.v
StorageSpec.v
Snapshot.v
SnapshotSpec.v
Loader.v
LoaderSpec.v
Acpi.v
AcpiSpec.v
EfiImage.v
EfiImageSpec.v
EfiDisk.v
EfiBlocks.v
Efifs.v
EfifsSpec.v
EfiBoot.v
Console.v
ConsoleCmds.v
ConsoleLoop.v
ConsoleSpec.v
ConsoleFs.v
ConsoleLoopSpec.v
Pci.v
Shell.v
ShellSys.v
ShellCmds.v
ShellPkg.v
ShellLoop.v
ShellText.v
ShellFs.v
ShellRun.v
ShellPkgSpec.v
Ide.v
IdeSpec.v
UsbStorage.v
UsbStorageSpec.v
Nvme.v
NvmeSpec.v
Ahci.v
Xhci.v
XhciDevice.v
XhciSpec.v
Display.v
Framebuffer.v
Platform.v
ToolCli.v
