(* ===== verification/Prelude.v ===== *)
(** * Wirth: a verification of the kernel core and of its tool chain

    Wirth is a freestanding kernel for the PC (i386, with a smaller x86_64
    build) and the tools that go with it.  This development translates the
    parts that carry its logic into executable definitions and proves what
    makes them correct.  All names of files are relative to the repository.

    ** The program

    At boot, [kernel/boot/multiboot2.cpp] walks the information block of the
    boot loader and [kernel/boot/acpi.cpp] the tables of the firmware.  The
    memory map feeds the physical memory manager ([kernel/mm/pmm.cpp], a bitmap
    of frames); the virtual memory manager ([kernel/mm/vmm.cpp]) builds
    two-level page tables; the heap ([kernel/mm/heap.cpp]) grows by taking
    frames from the former and mapping them with the latter, and address spaces
    of processes are page directories allocated in the heap.  The scheduler
    ([kernel/task/scheduler.cpp]) keeps tables of tasks and processes, takes
    stacks from the heap and is driven by the timer interrupt; user programs
    are ELF images that [kernel/loader] maps and enters.  System calls
    ([kernel/syscall/syscall.cpp]) check user addresses
    ([kernel/user_safety.cpp]) and act on the scheduler, the serial console
    ([kernel/serial.cpp]) and, through the interface of [kernel/fs/vfs.hpp], on
    the file system in memory ([kernel/fs/ramfs.cpp]).

    Below the storage layer ([kernel/storage.cpp]: a log of packages and
    snapshots on raw sectors) are the registry of block devices with their
    partitions ([kernel/block.cpp], [kernel/block_partition.cpp]) and the
    drivers: IDE, AHCI, NVMe, and USB storage over an xHCI controller, found on
    the PCI bus.  [kernel/efifs.cpp] reads a seed file from the FAT16 boot
    volume that [tools/efiImageBuilder] builds.  Above everything are two
    command interpreters: the serial shell of the 32-bit build
    ([kernel/shell.cpp]) and the console of the 64-bit one
    ([kernel/kmain64.cpp]).

    On the host, [tools/macroBuilder/main.cpp] is a macro processor, a two-pass
    assembler, a linker and an interpreter for a small 16-bit machine, which
    exchange JSON files under one command line.

    ** Files

    Files whose name ends in [Spec] hold the theorems about the file before
    them; smaller components have both in one file.

    - [Prelude]: integers at their width ([u8] to [u64], the 32-bit operators
      [+u], [-u], [*u]), C arrays as lists ([zget], [zset]), counting loops
      ([for_up]), the tactics [zbool] and [zsolve], and lemmas on lists and
      bits shared by all components.  [Memory]: byte memory as a finite map,
      little-endian words, frame and read-back lemmas.  [Bytes]: buffers.
      [CText]: NUL-terminated text and the kernel's copies of the string
      functions.
    - [Multiboot2], [Acpi], [AcpiSpec]: boot tables, against encoders of the
      boot protocol and of the firmware's tables.
    - [Pmm]: bitmap, reservation, allocation; the abstract state is the set of
      free frames.  [Vmm]: page tables, translation, the processor's page walk.
      [Paging]: the interfaces of frame allocator and page mapper as the heap
      uses them, with the two managers as instances.  [Heap]: free list in raw
      memory, allocation, release, growth, proved against [Paging].
      [AddressSpace]: cloned page directories, and the heap theorems on the
      real managers.
    - [RamFs], [RamFsSpec]: every operation of the file system and of path
      normalisation; tree invariant, listings, contents, limits.  [Vfs]: the
      interface and its dispatch.  [FsHandles]: what a sequence of calls on an
      open file does, as the commands of the two interpreters use it.
    - [Scheduler], [SchedulerSpec]: tables, creation, timer interrupt, sleep,
      exit, over the class [KernelServices]; [KernelTasks]: the instance built
      from heap and address spaces.  [Loader], [LoaderSpec]: ELF images into
      address spaces.  [Sync]: spin locks as interleavings of steps.
    - [Serial], [Syscall], [SyscallSpec]: console output, user address checks,
      the dispatcher and all handlers over the class [FileSystem].
    - [Keyboard], [Display], [Framebuffer], [Platform]: keyboard ring, text
      screen, pixels, and the tables, interrupt controllers, timer, serial port
      registers and interrupt dispatch of both builds.
    - [Block], [BlockSpec]: devices, MBR and GPT partitions; [RamDisk]: a disk
      that is a list of sectors, the instance the theorems use.  [Storage],
      [Snapshot] with their [Spec] files: the log, its index, packages and
      snapshots.
    - [EfiImage], [EfiImageSpec], [EfiDisk]: the image builder and a FAT16
      reader on its output; [EfiBlocks], [EfiBoot]: that output through the
      kernel's partition scan and seed loader; [Efifs], [EfifsSpec].
    - [Pci], [Ide], [UsbStorage], [Nvme], [Ahci], [Xhci], [XhciDevice] with
      their [Spec] files: the drivers over classes of ports, registers and
      time; the specifications bring models of the devices from their
      documented interfaces (an ATA drive, a SCSI disk behind the bulk-only
      transport, an NVMe controller, an xHCI consumer of rings).
    - [Console], [ConsoleCmds], [ConsoleLoop], [ConsoleSpec], [ConsoleFs],
      [ConsoleLoopSpec]: the 64-bit console.  [Shell], [ShellSys], [ShellCmds],
      [ShellPkg], [ShellLoop]: the serial shell with its commands, package
      manager and line editor; [ShellText], [ShellFs], [ShellRun],
      [ShellPkgSpec]: their theorems.
    - [ToolText], [Json], [Macro], [Assembler], [Linker] with their [Spec]
      files, [MachineSpec], and [ToolCli]: namespaces [util] and [json], the
      classes [MacroProcessor], [TwoPassAssembler], [TwoPassLinker] and
      [Executor], and the command line.

    ** How code became definitions

    Globals of a component are a record passed through its operations, with
    the names of the source ([g_free_list], [g_tasks], [m_inodes], ...).  A
    pointer to an element of a table is its index, a pointer into raw memory
    an address with 0 for [nullptr].  [uintN_t] values are integers in their
    range with the wrap-around written at every operation that can leave it.
    Functions that hold a lock for their whole body are single steps.  What a
    component takes from another one is a class ([FrameAllocator],
    [PageMapper], [KernelServices], [FileSystem]) with laws; the client is
    proved against the laws and the implementation proves them.  Hardware is a
    class of accesses that return a value and the next state of the machine,
    so that nothing is assumed of it in the definitions.  The interpreters and
    the drivers use small state monads with an error or failure case.  The host
    tool throws exceptions: there a result is [Ok], [Err] with the exception,
    or [Undefined] where the C++ program has undefined behaviour (a vector
    indexed out of range, signed overflow).

    ** What is shown

    - Boot: the walkers visit exactly the encoded entries; ACPI discovery
      reads back the encoded tables; a tag of size zero makes walkers loop.
    - Memory: the frame allocator refines a set and never hands out a frame
      twice; mapping, unmapping and translation agree with the processor's
      walk; allocation returns aligned, disjoint blocks and preserves the free
      list, and refuses only when no free block fits and the heap cannot grow;
      release merges neighbours; a cloned address space translates like
      the kernel's.  Where the code falls short it is stated as well (partial
      frames freed, aligned blocks leaking their padding, user bit of a
      directory entry not raised).
    - File system: after any sequence of operations names are unique,
      normalised, and every parent is a directory; operations act on the
      abstract tree; listings contain exactly the children; what is written
      is read back; failures leave the state unchanged.
    - Scheduler: the invariant over every sequence of operations; each runnable
      task runs within a bounded number of quanta; a preempted task resumes
      with its frame; sleepers wake on time.  Critical sections under the spin
      lock exclude each other in every interleaving.
    - Loading: a well-formed image is refused or entered with every segment in
      place as seen through the page tables.
    - System calls: exactly which user ranges pass; nothing is written outside
      user memory from ring 3; refused calls change nothing.
    - Storage: requests through a partition stay inside it; the device tables
      stay well formed; what is saved in a snapshot or package is found again
      after a restart, and unpacking it puts the files back with their contents
      on the RAM file system; a built disk image is read back by an independent
      reader and mounted by the kernel; the seed file of a volume described
      independently of the loader is found and applied.
    - Drivers: sectors written are the sectors read on a modelled drive;
      commands in NVMe queues and TRBs in xHCI rings are delivered once and in
      order through wrap-around; transfer descriptors name the bytes of the
      buffer; descriptors are parsed as the device wrote them.  Deviations from
      the devices' interfaces are lemmas of their own.
    - Interpreters: a typed, edited and recalled line runs exactly the command
      of its words, which a grammar of the line gives; commands act on the file
      tree as described; installing a package happens completely or not at
      all, also when memory runs out.
    - Devices of the console: the keyboard ring is a bounded queue; the screen
      shows the end of the paper on which everything was typed; text on the
      framebuffer stays inside it; tables decode to the addresses they were
      given.
    - Tool chain: numbers and JSON read back; the two passes equal a
      reference without passes; linked images hold the addresses their symbols
      denote in relocatable mode and are not relocated at all in absolute mode;
      the interpreter executes what the assembler encoded; macro expansion
      terminates with what the relational meaning of the text gives; and
      building through files equals composing the stages.

    ** Fuel and bounds

    Walkers and list traversals that the code bounds only by its data take a
    fuel argument and return [None] without it; each theorem that claims a
    result gives the fuel that suffices: for the boot walkers a function of the
    encoded length, for the heap [heap_fuel], the number of blocks that fit in
    its range plus two.  Loops over fixed tables run over the table, polling
    loops over the source's own limit.  The JSON parser counts on the length of
    the text, which [JsonSpec] shows to be enough, the macro processor on the
    number of lines ([macro_expansion_terminates]), the interpreter on its own
    step limit.  The loops of the command interpreters run over the characters
    that arrive.

    ** Not modelled

    Assembly start-up code and the instructions that load tables or halt; the
    entry function of the 32-bit build and the start-up sequence of the 64-bit
    one, which call the parts above in order and print; the user programs under
    [userland].  Interrupts that arrive in the middle of a driver function are
    outside the model, as are page faults: memory is flat, and accesses of
    unmapped addresses are not distinguished.  The operation of the devices is
    modelled only as far as the theorems on drivers need it. *)

From stdpp Require Export base numbers list list_numbers option gmap strings.

#[global] Open Scope Z_scope.

(** ** Machine-width integers

    A [uintN_t] is a [Z] in [0, 2^N); every operation that can leave the range
    is followed by the wrap-around of its width, as the C++ standard says. *)

Definition u8 (z : Z) : Z := z mod 256.
Definition u16 (z : Z) : Z := z mod 65536.
Definition u32 (z : Z) : Z := z mod 4294967296.
Definition u64 (z : Z) : Z := z mod 18446744073709551616.

Declare Scope cint_scope.
Delimit Scope cint_scope with cint.
Notation "a +u b" := (u32 (a + b)) (at level 50, left associativity) : cint_scope.
Notation "a -u b" := (u32 (a - b)) (at level 50, left associativity) : cint_scope.
Notation "a *u b" := (u32 (a * b)) (at level 40, left associativity) : cint_scope.
#[global] Open Scope cint_scope.

(** [int32_t] view of a 32-bit word: the cast [static_cast<int>]. *)
Definition i32 (z : Z) : Z :=
  let w := u32 z in if w <? 2147483648 then w else w - 4294967296.

(** Arrays: a C array of fixed size is a list of that length, read and
    written by index.  Reading or writing out of range does not occur in the
    modelled code where an array invariant is stated; a read there yields the
    inhabitant and a write is lost. *)

Definition zget {A} `{Inhabited A} (l : list A) (i : Z) : A := l !!! Z.to_nat i.
Definition zset {A} (l : list A) (i : Z) (v : A) : list A := <[Z.to_nat i := v]> l.

(** ** Counting loops

    [for_up lo hi step body s] is [for (i = lo; i < hi; i += step) s = body(i, s)]
    over unbounded [i]; [for_up_unfold] is its loop equation. *)

Fixpoint iterate {S : Type} (n : nat) (i step : Z) (body : Z → S → S) (s : S) : S :=
  match n with
  | O => s
  | Datatypes.S n' => iterate n' (i + step) step body (body i s)
  end.

Definition trip_count (lo hi step : Z) : nat := Z.to_nat ((hi - lo + step - 1) / step).

Definition for_up {S : Type} (lo hi step : Z) (body : Z → S → S) (s : S) : S :=
  iterate (trip_count lo hi step) lo step body s.

(** [for (i = 0; i < l.size(); ++i) if (p(l[i])) return i;] *)
Fixpoint find_slot {A} (p : A → bool) (l : list A) : option nat :=
  match l with
  | [] => None
  | x :: r => if p x then Some O else S <$> find_slot p r
  end.

(** Number of elements satisfying a boolean test. *)
Definition countb {A} (p : A → bool) (l : list A) : nat := length (filter (λ x, p x = true) l).

(** ** Automation *)

Create HintDb wirth.
Create Rewrite HintDb wirth_len.

Ltac case_bool :=
  match goal with
  | |- context [if ?b then _ else _] => destruct b eqn:?
  | H : context [if ?b then _ else _] |- _ => destruct b eqn:?
  end.

(** Boolean comparisons of [Z] to propositions, everywhere. *)
Ltac zbool :=
  rewrite ?andb_true_iff, ?andb_false_iff, ?orb_true_iff, ?orb_false_iff,
    ?negb_true_iff, ?negb_false_iff, ?Z.ltb_lt, ?Z.ltb_ge, ?Z.leb_le, ?Z.leb_gt,
    ?Z.eqb_eq, ?Z.eqb_neq in *.

Ltac zsolve := repeat case_bool; zbool; try lia; try congruence; try done.

(** ** Lemmas on widths *)

Lemma u8_range z : 0 <= u8 z < 256.
Proof. apply Z.mod_pos_bound; lia. Qed.

Lemma u32_range z : 0 <= u32 z < 4294967296.
Proof. apply Z.mod_pos_bound; lia. Qed.

Lemma u32_small z : 0 <= z < 4294967296 → u32 z = z.
Proof. apply Z.mod_small. Qed.

Lemma i32_small z : 0 <= z < 2147483648 → i32 z = z.
Proof. intros. unfold i32. rewrite (u32_small z) by lia. by rewrite (proj2 (Z.ltb_lt _ _)) by lia. Qed.

Lemma u8_small z : 0 <= z < 256 → u8 z = z.
Proof. apply Z.mod_small. Qed.

Lemma u16_small z : 0 <= z < 65536 → u16 z = z.
Proof. apply Z.mod_small. Qed.

Lemma u16_range z : 0 <= u16 z < 65536.
Proof. apply Z.mod_pos_bound; lia. Qed.

#[export] Hint Resolve u8_range u16_range u32_range : wirth.

(** A 32-bit bitwise complement restricted to the word. *)
Lemma u32_testbit z b : 0 <= b < 32 → Z.testbit (u32 z) b = Z.testbit z b.
Proof.
  intros Hb. unfold u32. change 4294967296 with (2 ^ 32).
  apply Z.mod_pow2_bits_low. lia.
Qed.

Lemma testbit_mask w b :
  0 <= b → (Z.land w (Z.shiftl 1 b) =? 0) = negb (Z.testbit w b).
Proof.
  intros Hb. rewrite Z.shiftl_1_l.
  destruct (Z.testbit w b) eqn:E; simpl.
  - apply Z.eqb_neq. intros H.
    assert (Z.testbit (Z.land w (2 ^ b)) b = true) as H'.
    { rewrite Z.land_spec, E, Z.pow2_bits_true by lia. done. }
    rewrite H, Z.bits_0 in H'. done.
  - apply Z.eqb_eq. apply Z.bits_inj'. intros n Hn.
    rewrite Z.land_spec, Z.bits_0.
    destruct (decide (n = b)) as [->|]; [by rewrite E|].
    rewrite Z.pow2_bits_false by lia. apply andb_false_r.
Qed.

(** Masking with [~(a - 1)] for a power of two [a] rounds down to a multiple. *)
Lemma land_lnot_pow2 z k :
  0 <= k → Z.land z (Z.lnot (2 ^ k - 1)) = z - z mod 2 ^ k.
Proof.
  intros Hk. rewrite <- Z.ldiff_land.
  replace (2 ^ k - 1) with (Z.ones k) by (rewrite Z.ones_equiv; lia).
  rewrite Z.ldiff_ones_r by lia.
  rewrite Z.shiftl_mul_pow2, Z.shiftr_div_pow2 by lia.
  pose proof (Z.div_mod z (2 ^ k) ltac:(lia)). lia.
Qed.

Lemma land_u32_l z w : 0 <= z < 4294967296 → Z.land z (u32 w) = Z.land z w.
Proof.
  intros Hz. unfold u32. change 4294967296 with (2 ^ 32) in *.
  rewrite <- Z.land_ones by lia. rewrite (Z.land_comm w), Z.land_assoc.
  rewrite Z.land_ones by lia. rewrite Z.mod_small by lia. done.
Qed.


Lemma lor_range n a b :
  0 <= n → 0 <= a < 2 ^ n → 0 <= b < 2 ^ n → 0 <= Z.lor a b < 2 ^ n.
Proof.
  intros Hn Ha Hb.
  replace (Z.lor a b) with (Z.lor a b mod 2 ^ n); [apply Z.mod_pos_bound; lia|].
  rewrite <- Z.land_ones by lia. rewrite Z.land_lor_distr_l, !Z.land_ones by lia.
  by rewrite !Z.mod_small by lia.
Qed.

Lemma land_range n a b : 0 <= n → 0 <= a < 2 ^ n → 0 <= Z.land a b < 2 ^ n.
Proof.
  intros Hn Ha. replace (Z.land a b) with (Z.land a b mod 2 ^ n); [apply Z.mod_pos_bound; lia|].
  rewrite <- Z.land_ones by lia. rewrite (Z.land_comm a), <- Z.land_assoc.
  rewrite Z.land_ones by lia. by rewrite Z.mod_small by lia.
Qed.

(** Flags in the low bits of an aligned word. *)
Lemma lor_low_bits k p f :
  0 <= k → p mod 2 ^ k = 0 → 0 <= f < 2 ^ k → Z.lor p f = p + f.
Proof.
  intros Hk Hp Hf.
  assert (Z.land p f = 0) as H0.
  { apply Z.bits_inj'. intros n Hn. rewrite Z.land_spec, Z.bits_0.
    destruct (decide (n < k)).
    - rewrite <- (Z.mod_pow2_bits_low p k n) by lia. by rewrite Hp, Z.bits_0.
    - replace f with (f mod 2 ^ k) by (apply Z.mod_small; lia).
      rewrite (Z.mod_pow2_bits_high f) by lia. apply andb_false_r. }
  rewrite Z.add_nocarry_lxor by done. by rewrite Z.lxor_lor.
Qed.

(** Division and remainder of a word made of an aligned part and low bits. *)
Lemma aligned_split k p f :
  0 < k → p mod k = 0 → 0 <= f < k → (p + f) mod k = f ∧ (p + f) / k = p / k.
Proof.
  intros Hk Hp Hf. pose proof (Z.div_mod p k ltac:(lia)) as Hd. rewrite Hp in Hd.
  replace (p + f) with (f + p / k * k) by lia.
  rewrite Z.mod_add, Z.div_add by lia. rewrite Z.mod_small, Z.div_small by lia. lia.
Qed.

(** ** Lemmas on loops *)

Section loops.
Context {S : Type}.
Implicit Types (body : Z → S → S) (s : S).

Lemma trip_count_0 lo hi step : 0 < step → hi <= lo → trip_count lo hi step = O.
Proof.
  intros Hs H. unfold trip_count.
  assert ((hi - lo + step - 1) / step < 1) by (apply Z.div_lt_upper_bound; lia). lia.
Qed.

Lemma trip_count_S lo hi step :
  0 < step → lo < hi → trip_count lo hi step = Datatypes.S (trip_count (lo + step) hi step).
Proof.
  intros Hs H. unfold trip_count.
  replace (hi - lo + step - 1) with (hi - (lo + step) + step - 1 + 1 * step) by lia.
  rewrite Z.div_add by lia.
  assert (0 <= (hi - (lo + step) + step - 1) / step) by (apply Z.div_pos; lia). lia.
Qed.

Lemma for_up_unfold lo hi step body s :
  0 < step →
  for_up lo hi step body s
  = if lo <? hi then for_up (lo + step) hi step body (body lo s) else s.
Proof.
  intros Hs. unfold for_up. destruct (lo <? hi) eqn:E; zbool.
  - by rewrite (trip_count_S lo) by lia.
  - by rewrite trip_count_0 by lia.
Qed.

(** Invariant rule; the index stays congruent to [lo] modulo [step]. *)
Lemma for_up_inv lo hi step body (P : Z → S → Prop) s :
  0 < step →
  P lo s →
  (∀ i s, lo <= i < hi → (i - lo) mod step = 0 → P i s → P (i + step) (body i s)) →
  ∃ i, hi <= i ∧ (lo <= hi → i < hi + step) ∧ (i - lo) mod step = 0 ∧
       P i (for_up lo hi step body s).
Proof.
  intros Hs HP Hbody.
  assert (∀ n i s, n = trip_count i hi step → lo <= i → (i - lo) mod step = 0 → P i s →
    (lo <= hi → i < hi + step) →
    ∃ j, hi <= j ∧ (lo <= hi → j < hi + step) ∧ (j - lo) mod step = 0 ∧
         P j (for_up i hi step body s)) as H.
  { intros n. induction n as [|n IH]; intros i s' Hn Hi Hmod HPi Hlt;
      rewrite for_up_unfold by lia; destruct (i <? hi) eqn:E; zbool.
    - rewrite trip_count_S in Hn by lia. lia.
    - exists i. auto with lia.
    - rewrite trip_count_S in Hn by lia. apply IH; [lia|lia| | |lia].
      + replace (i + step - lo) with (i - lo + 1 * step) by lia.
        rewrite Z.mod_add by lia. done.
      + apply Hbody; auto.
    - exists i. auto with lia. }
  apply (H _ lo s eq_refl); [lia| |done|lia].
  rewrite Z.sub_diag. apply Z.mod_0_l. lia.
Qed.

(** The common case: steps of one over a non-empty interval. *)
Lemma for_up_inv1 lo hi body (P : Z → S → Prop) s :
  lo <= hi → P lo s →
  (∀ i s, lo <= i < hi → P i s → P (i + 1) (body i s)) →
  P hi (for_up lo hi 1 body s).
Proof.
  intros Hle HP Hb.
  destruct (for_up_inv lo hi 1 body P s) as (i & ? & Hi & _ & ?); [lia|done|by auto|].
  by replace i with hi in * by (specialize (Hi Hle); lia).
Qed.

Lemma for_up_preserve lo hi step body (P : S → Prop) s :
  0 < step → P s → (∀ i s, lo <= i < hi → P s → P (body i s)) →
  P (for_up lo hi step body s).
Proof.
  intros Hs HP Hb.
  destruct (for_up_inv lo hi step body (λ _, P) s) as (_ & _ & _ & _ & ?); auto.
Qed.
End loops.

(** ** Lemmas on searches and counts *)

Section slots.
Context {A : Type}.
Implicit Types (p q : A → bool) (l : list A).

Lemma find_slot_Some p l i :
  find_slot p l = Some i ↔
  (∃ x, l !! i = Some x ∧ p x = true) ∧ ∀ j x, (j < i)%nat → l !! j = Some x → p x = false.
Proof.
  revert i. induction l as [|y l IH]; intros i; simpl.
  - split; [done|]. intros [(x & Hx & _) _]. by rewrite lookup_nil in Hx.
  - destruct (p y) eqn:Hy.
    + split.
      * intros [= <-]. split; [by exists y|]. lia.
      * intros [_ H]. destruct i; [done|].
        specialize (H O y ltac:(lia) eq_refl). congruence.
    + split.
      * intros Hf. destruct (find_slot p l) as [k|]; [|done].
        injection Hf as <-. destruct (IH k) as [IH1 _].
        destruct (IH1 eq_refl) as [(x & ? & ?) Hlt].
        split; [by exists x|]. intros [|j] z ? Hz; [simplify_eq/=; congruence|].
        eapply Hlt; [|done]. lia.
      * intros [(x & Hx & Hpx) Hlt]. destruct i as [|i]; [simplify_eq/=; congruence|].
        destruct (IH i) as [_ IH2]. rewrite IH2; [done|].
        split; [by exists x|]. intros j z ? Hz. apply (Hlt (S j) z); [lia|done].
Qed.

Lemma find_slot_None p l :
  find_slot p l = None ↔ ∀ j x, l !! j = Some x → p x = false.
Proof.
  induction l as [|y l IH]; simpl; [done|].
  destruct (p y) eqn:Hy.
  - split; [done|]. intros H. specialize (H O y eq_refl). congruence.
  - rewrite fmap_None, IH. split.
    + intros H [|j] x Hx; [simplify_eq/=; congruence|eauto].
    + intros H j x Hx. by apply (H (S j)).
Qed.

Lemma find_slot_lt p l i : find_slot p l = Some i → (i < length l)%nat.
Proof. intros [(x & Hx & _) _]%find_slot_Some. by eapply lookup_lt_Some. Qed.

Lemma countb_ext p q l : (∀ x, x ∈ l → p x = q x) → countb p l = countb q l.
Proof.
  intros H. unfold countb. induction l as [|x l IH]; [done|].
  rewrite !filter_cons, (H x) by set_solver.
  case_decide; simpl; rewrite IH by set_solver; done.
Qed.

(** Two tests that differ at one element only have counts that differ by one. *)
Lemma countb_flip p q l x :
  NoDup l → x ∈ l → p x = true → q x = false → (∀ y, y ≠ x → p y = q y) →
  countb p l = S (countb q l).
Proof.
  intros Hnd Hx Hp Hq Hne. unfold countb. induction Hnd as [|y l Hy Hnd IH]; [set_solver|].
  rewrite !filter_cons. apply elem_of_cons in Hx as [<-|Hx].
  - rewrite Hp, Hq. simpl. f_equal. apply (countb_ext p q). set_solver.
  - rewrite (Hne y) by (intros ->; done).
    case_decide; simpl; rewrite IH by done; done.
Qed.

Lemma countb_pos p l : (0 < countb p l)%nat ↔ ∃ x, x ∈ l ∧ p x = true.
Proof.
  unfold countb. induction l as [|y l IH]; simpl.
  { split; [lia|]. intros (x & ?%elem_of_nil & _). done. }
  rewrite filter_cons. case_decide as E; simpl.
  - split; [|lia]. intros _. exists y. by rewrite elem_of_cons; auto.
  - rewrite IH. setoid_rewrite elem_of_cons. naive_solver.
Qed.
(** Replacing one element changes a count by what the test says of the two. *)
Lemma countb_insert p l i x y :
  l !! i = Some x →
  Z.of_nat (countb p (<[i := y]> l)) = Z.of_nat (countb p l) + Z.b2z (p y) - Z.b2z (p x).
Proof.
  unfold countb. revert i. induction l as [|z l IH]; intros [|i] Hi; simplify_eq/=.
  - rewrite !filter_cons. destruct (p x), (p y); simpl; lia.
  - specialize (IH i Hi). rewrite !filter_cons. destruct (p z); simpl; lia.
Qed.

Lemma countb_le p l : (countb p l <= length l)%nat.
Proof. apply length_filter. Qed.

Lemma countb_zero p l : (∀ i x, l !! i = Some x → p x = false) → countb p l = 0%nat.
Proof.
  intros Hp. destruct (countb p l) eqn:E; [done|]. exfalso.
  assert (0 < countb p l)%nat as (x & Hx & Hpx)%countb_pos by lia.
  apply list_elem_of_lookup in Hx as [i Hi]. rewrite (Hp i x Hi) in Hpx. done.
Qed.

Lemma countb_Forall2 p l l' : Forall2 (λ x y, p x = p y) l l' → countb p l = countb p l'.
Proof.
  unfold countb. induction 1 as [|x y l l' Hxy _ IH]; [done|].
  rewrite !filter_cons, Hxy. case_decide; simpl; congruence.
Qed.

Lemma countb_cons p x l : Z.of_nat (countb p (x :: l)) = Z.b2z (p x) + Z.of_nat (countb p l).
Proof.
  unfold countb. rewrite filter_cons. destruct (p x) eqn:E; [rewrite decide_True by done|rewrite decide_False by done];
    cbn [length Z.b2z]; lia.
Qed.
End slots.

(** ** Lemmas on arrays *)

Section arrays.
Context {A : Type} `{Inhabited A}.
Implicit Types l : list A.

Lemma zget_lookup l i :
  0 <= i < Z.of_nat (length l) → l !! Z.to_nat i = Some (zget l i).
Proof. intros Hi. unfold zget. apply list_lookup_lookup_total_lt. lia. Qed.

Lemma zget_zset_eq l i v : 0 <= i < Z.of_nat (length l) → zget (zset l i v) i = v.
Proof. intros Hi. apply list_lookup_total_insert_eq. lia. Qed.

Lemma zget_zset_ne l i j v : 0 <= i → 0 <= j → i ≠ j → zget (zset l i v) j = zget l j.
Proof. intros. apply list_lookup_total_insert_ne. lia. Qed.

Lemma length_zset l i v : length (zset l i v) = length l.
Proof. apply length_insert. Qed.
End arrays.

#[export] Hint Rewrite @length_zset @length_insert @length_replicate : wirth_len.
