(* ===== verification/Memory.v ===== *)
(** * Byte-addressed memory

    The kernel reads and writes raw memory through [reinterpret_cast]: heap
    headers, free-list nodes, Multiboot2 tags, user buffers.  Memory is a
    finite map from addresses to bytes; a cell that was never written reads as
    zero, and multi-byte accesses are little endian, as on x86. *)

From S2P Require Import Prelude.

Abbreviation memory := (gmap Z Z).

Definition load8 (m : memory) (a : Z) : Z := u8 (default 0 (m !! a)).
Definition store8 (m : memory) (a v : Z) : memory := <[a := u8 v]> m.

Fixpoint load_le (n : nat) (m : memory) (a : Z) : Z :=
  match n with
  | O => 0
  | S n' => load8 m a + 256 * load_le n' m (a + 1)
  end.

Fixpoint store_le (n : nat) (m : memory) (a v : Z) : memory :=
  match n with
  | O => m
  | S n' => store_le n' (store8 m a v) (a + 1) (v / 256)
  end.

Definition load32 (m : memory) (a : Z) : Z := load_le 4 m a.
Definition store32 (m : memory) (a v : Z) : memory := store_le 4 m a v.
Definition load64 (m : memory) (a : Z) : Z := load_le 8 m a.

(** A run of bytes copied in or out, lowest address first. *)
Fixpoint store_bytes (m : memory) (a : Z) (bs : list Z) : memory :=
  match bs with
  | [] => m
  | b :: r => store_bytes (store8 m a b) (a + 1) r
  end.

Fixpoint load_bytes (n : nat) (m : memory) (a : Z) : list Z :=
  match n with
  | O => []
  | S n' => load8 m a :: load_bytes n' m (a + 1)
  end.

(** ** Frame and read-back lemmas *)

Lemma load8_range m a : 0 <= load8 m a < 256.
Proof. apply u8_range. Qed.

Lemma load8_store8_eq m a v : load8 (store8 m a v) a = u8 v.
Proof.
  unfold load8, store8. rewrite lookup_insert_eq. simpl. apply u8_small, u8_range.
Qed.

Lemma load8_store8_ne m a b v : a ≠ b → load8 (store8 m a v) b = load8 m b.
Proof. intros. unfold load8, store8. by rewrite lookup_insert_ne. Qed.

Lemma load8_store_le n m a v b :
  b < a ∨ a + Z.of_nat n <= b → load8 (store_le n m a v) b = load8 m b.
Proof.
  revert m a v. induction n as [|n IH]; intros m a v Hb; [done|].
  cbn [store_le]. rewrite IH by lia. apply load8_store8_ne. lia.
Qed.

Lemma load_le_ext n m m' a :
  (∀ b, a <= b < a + Z.of_nat n → load8 m' b = load8 m b) → load_le n m' a = load_le n m a.
Proof.
  revert a. induction n as [|n IH]; intros a H; [done|].
  cbn [load_le]. rewrite H by lia. rewrite IH; [done|]. intros. apply H. lia.
Qed.

Lemma load_le_store_le_ne n k m a v b :
  b + Z.of_nat k <= a ∨ a + Z.of_nat n <= b → load_le k (store_le n m a v) b = load_le k m b.
Proof. intros H. apply load_le_ext. intros. apply load8_store_le. lia. Qed.

Lemma load_le_store_le_eq n m a v :
  load_le n (store_le n m a v) a = v mod 256 ^ Z.of_nat n.
Proof.
  revert m a v. induction n as [|n IH]; intros m a v.
  - simpl. by rewrite Z.mod_1_r.
  - cbn [store_le load_le]. rewrite IH, load8_store_le by lia.
    rewrite load8_store8_eq. unfold u8.
    rewrite Nat2Z.inj_succ, Z.pow_succ_r by lia.
    rewrite Z.rem_mul_r by lia. done.
Qed.

Lemma load_le_range n m a : 0 <= load_le n m a < 256 ^ Z.of_nat n.
Proof.
  revert a. induction n as [|n IH]; intros a; [simpl; lia|].
  cbn [load_le]. rewrite Nat2Z.inj_succ, Z.pow_succ_r by lia.
  pose proof (load8_range m a). specialize (IH (a + 1)). lia.
Qed.

Lemma load32_range m a : 0 <= load32 m a < 4294967296.
Proof. apply (load_le_range 4). Qed.

Lemma load32_store32_eq m a v : load32 (store32 m a v) a = u32 v.
Proof. apply load_le_store_le_eq. Qed.

Lemma load32_store32_ne m a b v :
  b + 4 <= a ∨ a + 4 <= b → load32 (store32 m a v) b = load32 m b.
Proof. apply (load_le_store_le_ne 4 4). Qed.

Lemma load8_store32_ne m a b v :
  b < a ∨ a + 4 <= b → load8 (store32 m a v) b = load8 m b.
Proof. apply (load8_store_le 4). Qed.

Lemma load8_store_bytes m a bs b :
  b < a ∨ a + Z.of_nat (length bs) <= b → load8 (store_bytes m a bs) b = load8 m b.
Proof.
  revert m a. induction bs as [|x bs IH]; intros m a H; [done|].
  cbn [store_bytes length] in *. rewrite IH by lia. apply load8_store8_ne. lia.
Qed.

Lemma load_bytes_store_bytes m a bs :
  Forall (λ b, 0 <= b < 256) bs → load_bytes (length bs) (store_bytes m a bs) a = bs.
Proof.
  intros Hbs. revert m a. induction Hbs as [|b bs Hb _ IH]; intros m a; [done|].
  cbn [store_bytes length load_bytes].
  rewrite IH, load8_store_bytes, load8_store8_eq by lia. by rewrite u8_small.
Qed.

Lemma load_bytes_ext n m m' a :
  (∀ b, a <= b < a + Z.of_nat n → load8 m' b = load8 m b) → load_bytes n m' a = load_bytes n m a.
Proof.
  revert a. induction n as [|n IH]; intros a H; [done|].
  cbn [load_bytes]. rewrite H by lia. rewrite IH; [done|]. intros. apply H. lia.
Qed.

Lemma length_load_bytes n m a : length (load_bytes n m a) = n.
Proof. revert a. induction n; intros; simpl; auto. Qed.

#[export] Hint Resolve load8_range load32_range : wirth.

(** ** Byte strings laid out in memory *)

Fixpoint le_bytes (n : nat) (v : Z) : list Z :=
  match n with
  | O => []
  | S n' => u8 v :: le_bytes n' (v / 256)
  end.

Fixpoint bytes_at (m : memory) (a : Z) (bs : list Z) : Prop :=
  match bs with
  | [] => True
  | b :: r => load8 m a = b ∧ bytes_at m (a + 1) r
  end.

Lemma length_le_bytes n v : length (le_bytes n v) = n.
Proof. revert v. induction n; intros; simpl; auto. Qed.

Lemma bytes_at_app m a xs ys :
  bytes_at m a (xs ++ ys) ↔ bytes_at m a xs ∧ bytes_at m (a + Z.of_nat (length xs)) ys.
Proof.
  revert a. induction xs as [|x xs IH]; intros a; simpl.
  - rewrite Z.add_0_r. naive_solver.
  - rewrite IH. replace (a + 1 + Z.of_nat (length xs)) with (a + Z.of_nat (S (length xs))) by lia.
    naive_solver.
Qed.

Lemma bytes_at_load_le n m a v :
  bytes_at m a (le_bytes n v) → load_le n m a = v mod 256 ^ Z.of_nat n.
Proof.
  revert a v. induction n as [|n IH]; intros a v; simpl; [by rewrite Z.mod_1_r|].
  intros [-> H]. rewrite (IH _ _ H). unfold u8.
  replace (Z.of_nat (S n)) with (Z.succ (Z.of_nat n)) by lia.
  rewrite Z.pow_succ_r, Z.rem_mul_r by lia. done.
Qed.

Lemma bytes_at_load32 m a v : bytes_at m a (le_bytes 4 v) → load32 m a = u32 v.
Proof. apply bytes_at_load_le. Qed.

Lemma bytes_at_load64 m a v : bytes_at m a (le_bytes 8 v) → load64 m a = u64 v.
Proof. apply bytes_at_load_le. Qed.

Lemma bytes_at_store_bytes m a bs :
  Forall (λ b, 0 <= b < 256) bs → bytes_at (store_bytes m a bs) a bs.
Proof.
  intros Hbs. revert m a. induction Hbs as [|b bs Hb _ IH]; intros m a; [done|].
  cbn [store_bytes bytes_at]. split; [|done].
  rewrite load8_store_bytes, load8_store8_eq by lia. by rewrite u8_small.
Qed.

#[export] Hint Rewrite length_le_bytes length_load_bytes : wirth_len.

#[global] Arguments bytes_at : simpl never.
#[global] Arguments le_bytes : simpl never.
#[global] Arguments load_le : simpl never.
#[global] Arguments store_le : simpl never.
