(* ===== verification/Multiboot2.v ===== *)
(** * Multiboot2 information block ([kernel/boot/multiboot2.cpp])

    The tag walker behind [visit_memory_map] and [visit_modules], over raw
    memory, with the 32-bit [uintptr_t] of the i386 build.  A walk takes fuel
    and returns [None] when it runs out.  The specification is the boot
    protocol's encoder: [encode_info] lays a list of tags out as bytes, and the
    walkers are shown to recover what was encoded. *)

From S2P Require Import Prelude Memory.

Record MemoryMapEntryView := {
  base_addr : Z;
  length_ : Z;
  type_ : Z;
}.

Record ModuleView := {
  start_addr : Z;
  end_addr : Z;
  string_ptr : Z;
}.

Definition kTagTypeEnd : Z := 0.
Definition kTagTypeMemoryMap : Z := 6.
Definition kTagTypeModule : Z := 3.
Definition sizeof_TagHeader : Z := 8.
Definition sizeof_MemoryMapTag : Z := 16.
Definition sizeof_MemoryMapEntry : Z := 24.
Definition sizeof_ModuleTag : Z := 16.

Definition align8 (value : Z) : Z := Z.land (value +u 7) (u32 (Z.lnot 7)).

Definition read_entry (m : memory) (a : Z) : MemoryMapEntryView :=
  {| base_addr := load64 m a; length_ := load64 m (a + 8); type_ := load32 m (a + 16) |}.

Section walk.
Context {S : Type}.

(** The inner loop over the entries of a memory-map tag. *)
Fixpoint visit_entries (fuel : nat) (m : memory) (entry_size entries_end entry_cursor : Z)
    (visitor : MemoryMapEntryView → S → S) (s : S) : option S :=
  match fuel with
  | O => None
  | Datatypes.S fuel' =>
      if (entry_cursor +u entry_size <=? entries_end) && (sizeof_MemoryMapEntry <=? entry_size)
      then visit_entries fuel' m entry_size entries_end (entry_cursor +u entry_size) visitor
             (visitor (read_entry m entry_cursor) s)
      else Some s
  end.

(** The tag loop of [visit_memory_map]. *)
Fixpoint visit_mmap_tags (fuel : nat) (m : memory) (info_end cursor : Z)
    (visitor : MemoryMapEntryView → S → S) (found : bool) (s : S) : option (bool * S) :=
  match fuel with
  | O => None
  | Datatypes.S fuel' =>
      if cursor +u sizeof_TagHeader <=? info_end then
        let tag_type := load32 m cursor in
        let tag_size := load32 m (cursor + 4) in
        if tag_type =? kTagTypeEnd then Some (found, s)
        else
          '(found', s') ←
            (if (tag_type =? kTagTypeMemoryMap) && (sizeof_MemoryMapTag <=? tag_size) then
               let entry_size := load32 m (cursor + 8) in
               let entries_begin := cursor +u sizeof_MemoryMapTag in
               let entries_end := cursor +u tag_size in
               s' ← visit_entries fuel' m entry_size entries_end entries_begin visitor s;
               Some (true, s')
             else Some (found, s));
          visit_mmap_tags fuel' m info_end (align8 (cursor +u tag_size)) visitor found' s'
      else Some (found, s)
  end.

Definition visit_memory_map (fuel : nat) (m : memory) (multiboot_info_addr : Z)
    (visitor : option (MemoryMapEntryView → S → S)) (s : S) : option (bool * S) :=
  match visitor with
  | None => Some (false, s)
  | Some visitor =>
      if multiboot_info_addr =? 0 then Some (false, s)
      else
        let total_size := load32 m multiboot_info_addr in
        let info_end := multiboot_info_addr +u total_size in
        visit_mmap_tags fuel m info_end (multiboot_info_addr +u 8) visitor false s
  end.

(** The tag loop of [visit_modules]. *)
Fixpoint visit_module_tags (fuel : nat) (m : memory) (info_end cursor : Z)
    (visitor : ModuleView → S → S) (found : bool) (s : S) : option (bool * S) :=
  match fuel with
  | O => None
  | Datatypes.S fuel' =>
      if cursor +u sizeof_TagHeader <=? info_end then
        let tag_type := load32 m cursor in
        let tag_size := load32 m (cursor + 4) in
        if tag_type =? kTagTypeEnd then Some (found, s)
        else
          let '(found', s') :=
            if (tag_type =? kTagTypeModule) && (sizeof_ModuleTag <=? tag_size) then
              (true, visitor {| start_addr := load32 m (cursor + 8);
                                end_addr := load32 m (cursor + 12);
                                string_ptr := cursor +u sizeof_ModuleTag |} s)
            else (found, s) in
          visit_module_tags fuel' m info_end (align8 (cursor +u tag_size)) visitor found' s'
      else Some (found, s)
  end.

Definition visit_modules (fuel : nat) (m : memory) (multiboot_info_addr : Z)
    (visitor : option (ModuleView → S → S)) (s : S) : option (bool * S) :=
  match visitor with
  | None => Some (false, s)
  | Some visitor =>
      if multiboot_info_addr =? 0 then Some (false, s)
      else
        let total_size := load32 m multiboot_info_addr in
        let info_end := multiboot_info_addr +u total_size in
        visit_module_tags fuel m info_end (multiboot_info_addr +u 8) visitor false s
  end.
End walk.

(** ** The protocol's encoder *)

Inductive mb_tag :=
  | TagMemoryMap (entry_size entry_version : Z) (entries : list MemoryMapEntryView)
  | TagModule (mod_start mod_end : Z) (cmdline : list Z)
  | TagOther (ty : Z) (payload : list Z).

Definition encode_entry (entry_size : Z) (e : MemoryMapEntryView) : list Z :=
  le_bytes 8 (base_addr e) ++ le_bytes 8 (length_ e) ++ le_bytes 4 (type_ e)
  ++ replicate (Z.to_nat (entry_size - 20)) 0.

Definition tag_type_of (t : mb_tag) : Z :=
  match t with
  | TagMemoryMap _ _ _ => kTagTypeMemoryMap
  | TagModule _ _ _ => kTagTypeModule
  | TagOther ty _ => ty
  end.

Definition tag_body (t : mb_tag) : list Z :=
  match t with
  | TagMemoryMap es ver entries =>
      le_bytes 4 es ++ le_bytes 4 ver ++ concat (encode_entry es <$> entries)
  | TagModule st en cmd => le_bytes 4 st ++ le_bytes 4 en ++ cmd ++ [0]
  | TagOther _ payload => payload
  end.

Definition tag_size_of (t : mb_tag) : Z := 8 + Z.of_nat (length (tag_body t)).

Definition pad8 (n : Z) : list Z := replicate (Z.to_nat ((- n) mod 8)) 0.

Definition encode_tag (t : mb_tag) : list Z :=
  le_bytes 4 (tag_type_of t) ++ le_bytes 4 (tag_size_of t) ++ tag_body t ++ pad8 (tag_size_of t).

Definition encode_tags (ts : list mb_tag) : list Z :=
  concat (encode_tag <$> ts) ++ le_bytes 4 kTagTypeEnd ++ le_bytes 4 8.

Definition encode_info (ts : list mb_tag) : list Z :=
  let body := encode_tags ts in
  le_bytes 4 (8 + Z.of_nat (length body)) ++ le_bytes 4 0 ++ body.

(** Well-formed tags: fields in range, entries at least the protocol's size,
    and the "other" tags of other types than the three the kernel knows. *)
Definition entry_ok (e : MemoryMapEntryView) : Prop :=
  0 <= base_addr e < 2 ^ 64 ∧ 0 <= length_ e < 2 ^ 64 ∧ 0 <= type_ e < 2 ^ 32.

Definition tag_ok (t : mb_tag) : Prop :=
  match t with
  | TagMemoryMap es ver entries => 24 <= es < 2 ^ 16 ∧ Forall entry_ok entries
  | TagModule st en _ => 0 <= st < 2 ^ 32 ∧ 0 <= en < 2 ^ 32
  | TagOther ty _ => 0 < ty < 2 ^ 32 ∧ ty ≠ kTagTypeMemoryMap ∧ ty ≠ kTagTypeModule
  end.

(** What the walkers should report of a list of tags laid out from [c] on. *)
Definition mmap_entries (ts : list mb_tag) : list MemoryMapEntryView :=
  concat ((λ t, match t with TagMemoryMap _ _ es => es | _ => [] end) <$> ts).

Definition is_mmap (t : mb_tag) : bool :=
  match t with TagMemoryMap _ _ _ => true | _ => false end.

Definition is_module (t : mb_tag) : bool :=
  match t with TagModule _ _ _ => true | _ => false end.

Definition padded_size (t : mb_tag) : Z := Z.of_nat (length (encode_tag t)).

Fixpoint modules_from (c : Z) (ts : list mb_tag) : list ModuleView :=
  match ts with
  | [] => []
  | TagModule st en cmd as t :: r =>
      {| start_addr := st; end_addr := en; string_ptr := c + 16 |}
      :: modules_from (c + padded_size t) r
  | t :: r => modules_from (c + padded_size t) r
  end.

#[global] Arguments encode_entry : simpl never.
#[global] Arguments encode_tag : simpl never.

(** ** Layout lemmas *)

Lemma align8_spec v : 0 <= v → v + 7 < 4294967296 → align8 v = v + (- v) mod 8.
Proof.
  intros Hv Hlt. unfold align8. rewrite (u32_small (v + 7)) by lia.
  rewrite land_u32_l by lia. change (Z.lnot 7) with (Z.lnot (2 ^ 3 - 1)).
  rewrite land_lnot_pow2 by lia. change (2 ^ 3) with 8.
  pose proof (Z.div_mod (v + 7) 8). pose proof (Z.div_mod (- v) 8).
  pose proof (Z.mod_pos_bound (v + 7) 8). pose proof (Z.mod_pos_bound (- v) 8). lia.
Qed.

Lemma padded_size_eq t : padded_size t = tag_size_of t + (- tag_size_of t) mod 8.
Proof.
  unfold padded_size, encode_tag, pad8. rewrite !length_app, !length_le_bytes, length_replicate.
  pose proof (Z.mod_pos_bound (- tag_size_of t) 8). unfold tag_size_of in *. lia.
Qed.

Lemma padded_size_mod t : padded_size t mod 8 = 0.
Proof.
  rewrite padded_size_eq. rewrite Z.add_mod_idemp_r by lia.
  replace (tag_size_of t + - tag_size_of t) with 0 by lia. done.
Qed.

Lemma padded_size_bounds t : 8 <= tag_size_of t <= padded_size t ∧ padded_size t < tag_size_of t + 8.
Proof.
  rewrite padded_size_eq. pose proof (Z.mod_pos_bound (- tag_size_of t) 8).
  unfold tag_size_of in *. lia.
Qed.

(** The cursor after a tag, as the walker computes it. *)
Lemma next_cursor c t :
  0 <= c → c mod 8 = 0 → c + padded_size t + 8 < 4294967296 →
  align8 (c +u tag_size_of t) = c + padded_size t.
Proof.
  intros Hc Hmod Hlt. pose proof (padded_size_bounds t).
  rewrite u32_small by lia. rewrite align8_spec by lia.
  rewrite padded_size_eq. rewrite Z.opp_add_distr, Z.add_mod by lia.
  rewrite (Z.mod_opp_l_z c) by lia. rewrite Z.add_0_l, Z.mod_mod by lia. lia.
Qed.

Lemma length_encode_entry es e : 24 <= es → Z.of_nat (length (encode_entry es e)) = es.
Proof.
  intros. unfold encode_entry. rewrite !length_app, !length_le_bytes, length_replicate. lia.
Qed.

Lemma read_encoded_entry m a es e :
  entry_ok e → bytes_at m a (encode_entry es e) → read_entry m a = e.
Proof.
  intros (? & ? & ?) Hb. unfold encode_entry in Hb. rewrite !bytes_at_app in Hb.
  rewrite !length_le_bytes in Hb. change (Z.of_nat 8) with 8 in Hb.
  destruct Hb as (Hb1 & Hb2 & Hb3 & _). apply bytes_at_load64 in Hb1, Hb2. apply bytes_at_load32 in Hb3. unfold read_entry.
  rewrite Hb1, Hb2. replace (a + 16) with (a + 8 + 8) by lia. rewrite Hb3.
  unfold u64, u32. rewrite !Z.mod_small by lia. by destruct e.
Qed.

Lemma visit_entries_encoded {S} (visitor : MemoryMapEntryView → S → S) m es entries :
  24 <= es < 2 ^ 16 → Forall entry_ok entries →
  ∀ fuel a s,
    (length entries < fuel)%nat → 0 <= a →
    a + es * Z.of_nat (length entries) + es < 4294967296 →
    bytes_at m a (concat (encode_entry es <$> entries)) →
    visit_entries fuel m es (a + es * Z.of_nat (length entries)) a visitor s
    = Some (foldl (λ s e, visitor e s) s entries).
Proof.
  intros Hes Hok. induction Hok as [|e entries He _ IH]; intros fuel a s Hf Ha Hlt Hb;
    destruct fuel as [|fuel]; simpl in Hf; try lia; cbn [visit_entries length].
  - rewrite u32_small by (simpl in *; lia). unfold sizeof_MemoryMapEntry. zsolve.
  - rewrite u32_small by (simpl in *; lia). unfold sizeof_MemoryMapEntry.
    rewrite fmap_cons in Hb. cbn [concat length] in Hb, Hlt.
    apply bytes_at_app in Hb as [Hb1 Hb2]. rewrite length_encode_entry in Hb2 by lia.
    rewrite (read_encoded_entry _ _ _ _ He Hb1).
    replace ((a + es <=? a + es * Z.of_nat (Datatypes.S (length entries))) && (24 <=? es))
      with true by (symmetry; rewrite andb_true_iff, !Z.leb_le; lia).
    replace (a + es * Z.of_nat (Datatypes.S (length entries)))
      with (a + es + es * Z.of_nat (length entries)) by lia.
    rewrite IH by (done || lia). done.
Qed.

(** What the walkers read of one encoded tag at [c]. *)
Lemma encoded_tag_fields m c t :
  tag_ok t → tag_size_of t < 4294967296 → bytes_at m c (encode_tag t) →
  load32 m c = tag_type_of t ∧ load32 m (c + 4) = tag_size_of t ∧ tag_type_of t ≠ 0 ∧
  bytes_at m (c + 8) (tag_body t).
Proof.
  intros Hok Hsz Hb. unfold encode_tag in Hb. rewrite !bytes_at_app in Hb.
  rewrite !length_le_bytes in Hb. change (Z.of_nat 4) with 4 in Hb.
  destruct Hb as (H1 & H2 & H3 & _).
  apply bytes_at_load32 in H1, H2. replace (c + 8) with (c + 4 + 4) by lia.
  rewrite H1, H2. pose proof (padded_size_bounds t). rewrite (u32_small (tag_size_of t)) by lia.
  assert (0 < tag_type_of t < 4294967296) by (destruct t; simpl in *; unfold kTagTypeMemoryMap, kTagTypeModule; lia).
  rewrite u32_small by lia. split_and!; [done|done|lia|done].
Qed.

Lemma mmap_tag_size es ver entries :
  24 <= es → tag_size_of (TagMemoryMap es ver entries) = 16 + es * Z.of_nat (length entries).
Proof.
  intros Hes. unfold tag_size_of. cbn [tag_body]. rewrite !length_app, !length_le_bytes.
  assert (Z.of_nat (length (concat (encode_entry es <$> entries))) = es * Z.of_nat (length entries)); [|lia].
  induction entries as [|e entries IH]; [simpl; lia|].
  rewrite fmap_cons. cbn [concat length]. rewrite length_app, Nat2Z.inj_add, length_encode_entry, IH by lia. lia.
Qed.

Lemma encode_tags_cons t ts : encode_tags (t :: ts) = encode_tag t ++ encode_tags ts.
Proof. unfold encode_tags. rewrite fmap_cons. cbn [concat]. by rewrite <- app_assoc. Qed.

Lemma length_encode_tags_pos ts : 8 <= Z.of_nat (length (encode_tags ts)).
Proof. unfold encode_tags. rewrite !length_app, !length_le_bytes. lia. Qed.

(** ** The walkers recover what was encoded *)

Section walk_proofs.
Context {S : Type} (m : memory) (info_end : Z).
Hypothesis info_end_bound : info_end + 2 ^ 16 < 4294967296.

(** One iteration of either tag loop on an encoded tag: the guard holds, the
    header fields are the tag's, and the next cursor is the next tag. *)
Lemma tag_step c t ts :
  0 <= c → c mod 8 = 0 → tag_ok t →
  info_end = c + Z.of_nat (length (encode_tags (t :: ts))) →
  bytes_at m c (encode_tags (t :: ts)) →
  (c +u sizeof_TagHeader <=? info_end) = true ∧
  load32 m c = tag_type_of t ∧ load32 m (c + 4) = tag_size_of t ∧ tag_type_of t ≠ 0 ∧
  align8 (c +u tag_size_of t) = c + padded_size t ∧
  bytes_at m (c + 8) (tag_body t) ∧ c + tag_size_of t <= info_end ∧
  bytes_at m (c + padded_size t) (encode_tags ts) ∧
  info_end = c + padded_size t + Z.of_nat (length (encode_tags ts)).
Proof.
  intros Hc Hmod Hok Hend Hb. rewrite encode_tags_cons in Hend, Hb.
  rewrite length_app, Nat2Z.inj_add in Hend. fold (padded_size t) in Hend.
  apply bytes_at_app in Hb as [Hb1 Hb2]. fold (padded_size t) in Hb2.
  pose proof (padded_size_bounds t). pose proof (length_encode_tags_pos ts).
  destruct (encoded_tag_fields m c t Hok ltac:(lia) Hb1) as (H1 & H2 & H3 & H4).
  rewrite next_cursor by lia. unfold sizeof_TagHeader. rewrite u32_small by lia.
  split_and!; auto with lia.
Qed.

Lemma end_tag_step c :
  0 <= c → info_end = c + Z.of_nat (length (encode_tags [])) →
  bytes_at m c (encode_tags []) →
  (c +u sizeof_TagHeader <=? info_end) = true ∧ load32 m c = kTagTypeEnd.
Proof.
  intros Hc Hend Hb. unfold encode_tags in *. cbn [fmap list_fmap concat app] in *.
  rewrite length_app, !length_le_bytes in Hend. apply bytes_at_app in Hb as [Hb _].
  rewrite (bytes_at_load32 _ _ _ Hb). unfold sizeof_TagHeader.
  rewrite u32_small by lia. split; [apply Z.leb_le; lia|done].
Qed.

Lemma aligned_next c t : c mod 8 = 0 → (c + padded_size t) mod 8 = 0.
Proof. intros Hc. rewrite Z.add_mod, Hc, padded_size_mod by lia. done. Qed.

Lemma fuel_step fuel t ts :
  (length (encode_tags (t :: ts)) <= fuel)%nat →
  ∃ fuel', fuel = Datatypes.S fuel' ∧ (length (encode_tags ts) <= fuel')%nat ∧
           padded_size t <= Z.of_nat fuel.
Proof.
  rewrite encode_tags_cons, length_app. pose proof (padded_size_bounds t) as Hpb.
  unfold padded_size in *. intros Hf. destruct fuel as [|fuel]; [lia|].
  exists fuel. lia.
Qed.

Lemma visit_mmap_tags_encoded (visitor : MemoryMapEntryView → S → S) ts :
  Forall tag_ok ts →
  ∀ fuel c found s,
    0 <= c → c mod 8 = 0 →
    info_end = c + Z.of_nat (length (encode_tags ts)) →
    (length (encode_tags ts) <= fuel)%nat →
    bytes_at m c (encode_tags ts) →
    visit_mmap_tags fuel m info_end c visitor found s
    = Some (found || existsb is_mmap ts, foldl (λ s e, visitor e s) s (mmap_entries ts)).
Proof.
  intros Hok. induction Hok as [|t ts Ht _ IH]; intros fuel c found s Hc Hmod Hend Hf Hb.
  - destruct fuel as [|fuel]; [pose proof (length_encode_tags_pos []); lia|].
    cbn [visit_mmap_tags]. destruct (end_tag_step c Hc Hend Hb) as [-> ->].
    unfold kTagTypeEnd. simpl. by rewrite orb_false_r.
  - destruct (tag_step c t ts Hc Hmod Ht Hend Hb)
      as (Hg & Hty & Hsz & Hnz & Hnext & Hbody & Hle & Hb' & Hend').
    destruct (fuel_step fuel t ts Hf) as (fuel' & -> & Hf' & Hpf). cbn [visit_mmap_tags].
    rewrite Hg, Hty, Hsz, Hnext. unfold kTagTypeEnd. rewrite (proj2 (Z.eqb_neq _ _) Hnz).
    pose proof (padded_size_bounds t) as Hpb. pose proof (aligned_next c t Hmod) as Hmod'.
    destruct t as [es ver entries|st en cmd|ty payload]; cbn [tag_type_of] in *.
    + destruct Ht as [Hes Hents]. rewrite mmap_tag_size in * by lia.
      cbn [tag_body] in Hbody. rewrite !bytes_at_app, !length_le_bytes in Hbody.
      destruct Hbody as (Hb1 & _ & Hb3). rewrite (bytes_at_load32 _ _ _ Hb1).
      rewrite (u32_small es) by lia. unfold sizeof_MemoryMapTag.
      rewrite !u32_small by lia. rewrite Z.eqb_refl.
      rewrite (proj2 (Z.leb_le 16 _)) by lia. cbn [andb].
      replace (c + 8 + Z.of_nat 4 + Z.of_nat 4) with (c + 16) in Hb3 by lia.
      replace (c + (16 + es * Z.of_nat (length entries)))
        with (c + 16 + es * Z.of_nat (length entries)) by lia.
      rewrite visit_entries_encoded by (done || lia || nia). cbn [mbind option_bind].
      rewrite IH by (done || lia). unfold mmap_entries. rewrite fmap_cons. cbn [concat existsb is_mmap orb].
      rewrite foldl_app, orb_true_r. done.
    + cbn. rewrite IH by (done || lia). done.
    + destruct Ht as (_ & Hne & _). rewrite (proj2 (Z.eqb_neq _ _) Hne). cbn.
      rewrite IH by (done || lia). done.
Qed.

Lemma visit_module_tags_encoded (visitor : ModuleView → S → S) ts :
  Forall tag_ok ts →
  ∀ fuel c found s,
    0 <= c → c mod 8 = 0 →
    info_end = c + Z.of_nat (length (encode_tags ts)) →
    (length (encode_tags ts) <= fuel)%nat →
    bytes_at m c (encode_tags ts) →
    visit_module_tags fuel m info_end c visitor found s
    = Some (found || existsb is_module ts, foldl (λ s e, visitor e s) s (modules_from c ts)).
Proof.
  intros Hok. induction Hok as [|t ts Ht _ IH]; intros fuel c found s Hc Hmod Hend Hf Hb.
  - destruct fuel as [|fuel]; [pose proof (length_encode_tags_pos []); lia|].
    cbn [visit_module_tags]. destruct (end_tag_step c Hc Hend Hb) as [-> ->].
    unfold kTagTypeEnd. simpl. by rewrite orb_false_r.
  - destruct (tag_step c t ts Hc Hmod Ht Hend Hb)
      as (Hg & Hty & Hsz & Hnz & Hnext & Hbody & Hle & Hb' & Hend').
    destruct (fuel_step fuel t ts Hf) as (fuel' & -> & Hf' & Hpf). cbn [visit_module_tags].
    rewrite Hg, Hty, Hsz, Hnext. unfold kTagTypeEnd. rewrite (proj2 (Z.eqb_neq _ _) Hnz).
    pose proof (padded_size_bounds t) as Hpb. pose proof (aligned_next c t Hmod) as Hmod'.
    destruct t as [es ver entries|st en cmd|ty payload]; cbn [tag_type_of] in *.
    + cbn. rewrite IH by (done || lia). done.
    + destruct Ht as [Hst Hen].
      cbn [tag_body] in Hbody. rewrite !bytes_at_app, !length_le_bytes in Hbody.
      destruct Hbody as (Hb1 & Hb2 & _). rewrite (bytes_at_load32 _ _ _ Hb1).
      change (Z.of_nat 4) with 4 in Hb2. replace (c + 8 + 4) with (c + 12) in Hb2 by lia.
      rewrite (bytes_at_load32 _ _ _ Hb2). unfold sizeof_ModuleTag.
      rewrite !u32_small by lia. rewrite Z.eqb_refl, (proj2 (Z.leb_le 16 _)).
      2:{ unfold tag_size_of. cbn [tag_body]. rewrite !length_app, !length_le_bytes. lia. }
      cbn [andb existsb is_module orb modules_from foldl]. rewrite IH by (done || lia).
      by rewrite orb_true_r.
    + destruct Ht as (_ & _ & Hne). rewrite (proj2 (Z.eqb_neq _ _) Hne). cbn.
      rewrite IH by (done || lia). done.
Qed.
End walk_proofs.

Lemma mmap_entries_ok ts e : Forall tag_ok ts → e ∈ mmap_entries ts → 0 <= base_addr e.
Proof.
  intros Hok. unfold mmap_entries. rewrite list_elem_of_In, in_concat.
  intros (l & Hl & He). apply list_elem_of_In in Hl. apply list_elem_of_In in He.
  apply list_elem_of_fmap in Hl as (t & -> & Ht).
  rewrite Forall_forall in Hok. specialize (Hok t Ht).
  destruct t as [es ver entries| |]; [|set_solver..]. destruct Hok as [_ Hents].
  rewrite Forall_forall in Hents. apply (Hents e He).
Qed.

(** ** Properties *)

Lemma encode_info_parts m addr ts :
  0 < addr → addr + Z.of_nat (length (encode_info ts)) + 2 ^ 16 < 4294967296 →
  bytes_at m addr (encode_info ts) →
  addr +u 8 = addr + 8 ∧
  addr +u load32 m addr = addr + 8 + Z.of_nat (length (encode_tags ts)) ∧
  bytes_at m (addr + 8) (encode_tags ts) ∧
  length (encode_info ts) = (8 + length (encode_tags ts))%nat.
Proof.
  intros Ha Hlt Hb. unfold encode_info in *.
  rewrite !length_app, !length_le_bytes in Hlt. rewrite !bytes_at_app, !length_le_bytes in Hb.
  destruct Hb as (H1 & _ & H2). change (Z.of_nat 4) with 4 in H2.
  replace (addr + 4 + 4) with (addr + 8) in H2 by lia.
  rewrite (bytes_at_load32 _ _ _ H1), !length_app, !length_le_bytes.
  rewrite (u32_small (addr + 8)), (u32_small (8 + _)), u32_small by lia.
  split_and!; [done|lia|done|done].
Qed.

Section decode.
Context (m : memory) (addr : Z) (ts : list mb_tag) (fuel : nat).
Context (Hok : Forall tag_ok ts) (Ha : 0 < addr) (Hmod : addr mod 8 = 0).
Context (Hlt : addr + Z.of_nat (length (encode_info ts)) + 2 ^ 16 < 4294967296).
Context (Hf : (length (encode_info ts) <= fuel)%nat).
Context (Hb : bytes_at m addr (encode_info ts)).

Lemma visit_memory_map_encoded {S} (visit : MemoryMapEntryView → S → S) s :
  visit_memory_map fuel m addr (Some visit) s
  = Some (existsb is_mmap ts, foldl (λ s e, visit e s) s (mmap_entries ts)).
Proof using Hok Ha Hmod Hlt Hf Hb.
  destruct (encode_info_parts m addr ts Ha Hlt Hb) as (H8 & Hend & Hb' & Hlen).
  unfold visit_memory_map. rewrite (proj2 (Z.eqb_neq addr 0)), H8, Hend by lia.
  assert ((addr + 8) mod 8 = 0) by (rewrite Z.add_mod, Hmod by lia; done).
  rewrite visit_mmap_tags_encoded with (ts := ts) by (done || lia). done.
Qed.

Lemma visit_modules_encoded {S} (visit : ModuleView → S → S) s :
  visit_modules fuel m addr (Some visit) s
  = Some (existsb is_module ts, foldl (λ s e, visit e s) s (modules_from (addr + 8) ts)).
Proof using Hok Ha Hmod Hlt Hf Hb.
  destruct (encode_info_parts m addr ts Ha Hlt Hb) as (H8 & Hend & Hb' & Hlen).
  unfold visit_modules. rewrite (proj2 (Z.eqb_neq addr 0)), H8, Hend by lia.
  assert ((addr + 8) mod 8 = 0) by (rewrite Z.add_mod, Hmod by lia; done).
  rewrite visit_module_tags_encoded with (ts := ts) by (done || lia). done.
Qed.
End decode.

(** C1: the memory-map walker and the module walker, run on a Multiboot2 block
    that encodes a list of well-formed tags, terminate within one iteration per
    encoded byte, report whether a tag of their kind is present, and call their
    visitor on exactly the encoded entries (modules), in order. *)
Theorem boot_walkers_decode {S T} (m : memory) (addr : Z) (ts : list mb_tag) (fuel : nat)
    (visit : MemoryMapEntryView → S → S) (s : S) (visit' : ModuleView → T → T) (t : T) :
  Forall tag_ok ts → 0 < addr → addr mod 8 = 0 →
  addr + Z.of_nat (length (encode_info ts)) + 2 ^ 16 < 4294967296 →
  (length (encode_info ts) <= fuel)%nat →
  bytes_at m addr (encode_info ts) →
  visit_memory_map fuel m addr (Some visit) s
    = Some (existsb is_mmap ts, foldl (λ s e, visit e s) s (mmap_entries ts)) ∧
  visit_modules fuel m addr (Some visit') t
    = Some (existsb is_module ts, foldl (λ s e, visit' e s) t (modules_from (addr + 8) ts)).
Proof.
  intros. split; [by apply visit_memory_map_encoded|by apply visit_modules_encoded].
Qed.

Definition sample_tags : list mb_tag :=
  [TagOther 1 [120; 0];
   TagMemoryMap 24 0 [{| base_addr := 0; length_ := 654336; type_ := 1 |};
                      {| base_addr := 1048576; length_ := 133038080; type_ := 1 |}];
   TagModule 2097152 2101248 [115; 101; 101; 100]].

Definition sample_memory : memory := store_bytes ∅ 4096 (encode_info sample_tags).

Lemma sample_memory_ok : bytes_at sample_memory 4096 (encode_info sample_tags).
Proof. apply bytes_at_store_bytes. apply (bool_decide_unpack _). vm_compute. exact I. Qed.

Lemma boot_walkers_decode_witness :
  visit_memory_map 200 sample_memory 4096 (Some (λ e n, n + length_ e)) 0 = Some (true, 133692416) ∧
  visit_modules 200 sample_memory 4096 (Some (λ v l, start_addr v :: l)) [] = Some (true, [2097152]).
Proof.
  apply (boot_walkers_decode sample_memory 4096 sample_tags 200).
  - repeat constructor; done.
  - done.
  - done.
  - vm_compute. done.
  - vm_compute. lia.
  - apply sample_memory_ok.
Defined.

(** A tag of non-zero type and size zero at an aligned cursor makes the
    memory-map walk loop on that tag: no amount of fuel is enough. *)
Lemma zero_size_tag_diverges {S} (m : memory) (info_end c : Z)
    (visit : MemoryMapEntryView → S → S) (found : bool) (s : S) (fuel : nat) :
  0 <= c → c mod 8 = 0 → c + 8 <= info_end < 4294967296 →
  load32 m c ≠ kTagTypeEnd → load32 m (c + 4) = 0 →
  visit_mmap_tags fuel m info_end c visit found s = None.
Proof.
  intros Hc Hmod Hend Hty Hsz. revert found s.
  induction fuel as [|fuel IH]; intros found s; [done|].
  cbn [visit_mmap_tags]. rewrite Hsz, (proj2 (Z.eqb_neq _ _) Hty).
  unfold sizeof_TagHeader, sizeof_MemoryMapTag. rewrite u32_small by lia.
  rewrite (proj2 (Z.leb_le (c + 8) _)) by lia. rewrite andb_false_r. cbn [mbind option_bind].
  rewrite Z.add_0_r, u32_small, align8_spec by lia.
  rewrite Z.mod_opp_l_z, Z.add_0_r by lia. apply IH.
Qed.

Lemma zero_size_tag_diverges_witness :
  visit_mmap_tags 1000 (store32 ∅ 4104 1) 8192 4104 (λ _ n, n + 1) false 0 = None.
Proof. apply zero_size_tag_diverges; vm_compute; done. Defined.
