(* ===== verification/Pmm.v ===== *)
(** * Physical memory manager ([kernel/mm/pmm.cpp])

    A bitmap with one bit per 4 KiB frame of a 4 GiB address space (set means
    taken) and a counter of free frames.  The abstract view of a state is the
    finite set of its free frames, [free_set]; every operation is shown to act
    on that set the way an allocator of frames should. *)

From S2P Require Import Prelude Memory Multiboot2.

Definition kPageSize : Z := 4096.
Definition kMaxFrames : Z := 1024 * 1024.
Definition kBitmapSize : Z := kMaxFrames / 32.
Definition kMemoryTypeAvailable : Z := 1.
Definition kLowMemoryReserveEnd : Z := 1048576.
Definition kWordFull : Z := 4294967295.

Record pmm := mk_pmm {
  g_bitmap : list Z;
  g_total_frames : Z;
  g_free_frames : Z;
}.

(** The zero-initialised globals before [init]. *)
Definition pmm_boot : pmm :=
  {| g_bitmap := replicate (Z.to_nat kBitmapSize) 0; g_total_frames := 0; g_free_frames := 0 |}.

Definition align_down (value alignment : Z) : Z := Z.land value (u32 (Z.lnot (alignment - 1))).
Definition align_up (value alignment : Z) : Z :=
  Z.land (u32 (value + alignment - 1)) (u32 (Z.lnot (alignment - 1))).

Definition frame_index_valid (frame : Z) : bool := frame <? kMaxFrames.

Definition is_set (s : pmm) (frame : Z) : bool :=
  let word := frame / 32 in
  let bit := frame mod 32 in
  negb (Z.land (zget (g_bitmap s) word) (Z.shiftl 1 bit) =? 0).

Definition set_bit (s : pmm) (frame : Z) : pmm :=
  if negb (frame_index_valid frame) then s
  else
    let word := frame / 32 in
    let bit := frame mod 32 in
    if negb (is_set s frame) then
      {| g_bitmap := zset (g_bitmap s) word (Z.lor (zget (g_bitmap s) word) (Z.shiftl 1 bit));
         g_total_frames := g_total_frames s;
         g_free_frames := if 0 <? g_free_frames s then g_free_frames s -u 1 else g_free_frames s |}
    else s.

Definition clear_bit (s : pmm) (frame : Z) : pmm :=
  if negb (frame_index_valid frame) then s
  else
    let word := frame / 32 in
    let bit := frame mod 32 in
    if is_set s frame then
      {| g_bitmap := zset (g_bitmap s) word
                       (Z.land (zget (g_bitmap s) word) (u32 (Z.lnot (Z.shiftl 1 bit))));
         g_total_frames := g_total_frames s;
         g_free_frames := g_free_frames s +u 1 |}
    else s.

(** The page-rounded interval both range operations walk, in 64-bit arithmetic. *)
Definition range_end (end_addr : Z) : Z :=
  let max_phys := kMaxFrames * kPageSize in
  let end_ := align_up end_addr kPageSize in
  if max_phys <? end_ then max_phys else end_.

Definition reserve_range (s : pmm) (start_addr end_addr : Z) : pmm :=
  for_up (align_down start_addr kPageSize) (range_end end_addr) kPageSize
    (λ addr s, set_bit s (u32 (addr / kPageSize))) s.

Definition unreserve_range (s : pmm) (start_addr end_addr : Z) : pmm :=
  for_up (align_down start_addr kPageSize) (range_end end_addr) kPageSize
    (λ addr s, clear_bit s (u32 (addr / kPageSize))) s.

Definition map_visitor (entry : MemoryMapEntryView) (s : pmm) : pmm :=
  if negb (type_ entry =? kMemoryTypeAvailable) || (length_ entry =? 0) then s
  else
    let end64 := u64 (base_addr entry + length_ entry) in
    if 4294967296 <=? base_addr entry then s
    else
      let start := u32 (base_addr entry) in
      let end_ := if 4294967296 <=? end64 then 4294963200 else u32 end64 in
      if end_ <=? start then s else unreserve_range s start end_.

(** [init] from the entries a walk of the boot information visits. *)
Definition init_fill (s : pmm) : pmm :=
  {| g_bitmap := (λ _, kWordFull) <$> g_bitmap s;
     g_total_frames := kMaxFrames; g_free_frames := 0 |}.

Definition init (fuel : nat) (m : memory) (s : pmm)
    (multiboot_info_addr kernel_start kernel_end : Z) : option pmm :=
  '(_, s') ← visit_memory_map fuel m multiboot_info_addr (Some map_visitor) (init_fill s);
  Some (reserve_range (reserve_range s' 0 kLowMemoryReserveEnd) kernel_start kernel_end).

(** The two nested loops of [alloc_frame]; [None] when the inner loop ends
    without returning. *)
Fixpoint alloc_bits (n : nat) (s : pmm) (word bit : Z) : option (Z * pmm) :=
  match n with
  | O => None
  | S n' =>
      let frame := u32 (word * 32 + bit) in
      if negb (frame_index_valid frame) then Some (0, s)
      else if negb (is_set s frame) then Some (frame *u kPageSize, set_bit s frame)
      else alloc_bits n' s word (bit + 1)
  end.

Fixpoint alloc_words (n : nat) (s : pmm) (word : Z) : Z * pmm :=
  match n with
  | O => (0, s)
  | S n' =>
      if zget (g_bitmap s) word =? kWordFull then alloc_words n' s (word + 1)
      else
        match alloc_bits 32 s word 0 with
        | Some r => r
        | None => alloc_words n' s (word + 1)
        end
  end.

Definition alloc_frame (s : pmm) : Z * pmm :=
  if g_free_frames s =? 0 then (0, s) else alloc_words (Z.to_nat kBitmapSize) s 0.

Definition free_frame (s : pmm) (phys_addr : Z) : pmm :=
  if negb (phys_addr mod kPageSize =? 0) then s else clear_bit s (phys_addr / kPageSize).

Definition total_frames (s : pmm) : Z := g_total_frames s.
Definition free_frames (s : pmm) : Z := g_free_frames s.

(** ** Abstract view and invariant *)

Definition frames : list Z := seqZ 0 kMaxFrames.

Definition free_set (s : pmm) : gset Z :=
  list_to_set (filter (λ f, is_set s f = false) frames).

Record pmm_ok (s : pmm) : Prop := {
  ok_len : Z.of_nat (length (g_bitmap s)) = kBitmapSize;
  ok_words : Forall (λ w, 0 <= w < 4294967296) (g_bitmap s);
  ok_total : g_total_frames s = kMaxFrames;
  ok_free : g_free_frames s = Z.of_nat (size (free_set s));
}.

(** ** Bit-level lemmas *)

Lemma frames_elem f : f ∈ frames ↔ 0 <= f < kMaxFrames.
Proof. unfold frames. rewrite elem_of_seqZ. lia. Qed.

Lemma elem_of_free_set s f : f ∈ free_set s ↔ 0 <= f < kMaxFrames ∧ is_set s f = false.
Proof. unfold free_set. rewrite elem_of_list_to_set, list_elem_of_filter, frames_elem. naive_solver. Qed.

Lemma size_free_set_bound s : Z.of_nat (size (free_set s)) <= kMaxFrames.
Proof.
  unfold free_set. rewrite size_list_to_set.
  - trans (Z.of_nat (length frames)); [apply inj_le, length_filter|].
    unfold frames. rewrite length_seqZ. unfold kMaxFrames. lia.
  - apply NoDup_filter. apply NoDup_seqZ.
Qed.

#[global] Opaque free_set frames.

Lemma is_set_testbit s f :
  0 <= f → is_set s f = Z.testbit (zget (g_bitmap s) (f / 32)) (f mod 32).
Proof.
  intros Hf. unfold is_set. pose proof (Z.mod_pos_bound f 32).
  rewrite testbit_mask by lia. apply negb_involutive.
Qed.

Lemma same_frame f g : f / 32 = g / 32 → f mod 32 = g mod 32 → f = g.
Proof. intros. rewrite (Z.div_mod f 32), (Z.div_mod g 32) by lia. congruence. Qed.

(** Writing word [f / 32] with a value that agrees with the old one except at
    bit [f mod 32] changes the status of frame [f] only. *)
Lemma is_set_update s t f w b :
  0 <= f < kMaxFrames → Z.of_nat (length (g_bitmap s)) = kBitmapSize →
  g_bitmap t = zset (g_bitmap s) (f / 32) w →
  (∀ i, 0 <= i < 32 →
     Z.testbit w i = if i =? f mod 32 then b else Z.testbit (zget (g_bitmap s) (f / 32)) i) →
  ∀ g, 0 <= g → is_set t g = if g =? f then b else is_set s g.
Proof.
  intros Hf Hlen Ht Hw g Hg. rewrite !is_set_testbit, Ht by lia.
  assert (0 <= f / 32 < kBitmapSize).
  { split; [apply Z.div_pos; lia|]. unfold kBitmapSize. apply Z.div_lt_upper_bound; [lia|].
    unfold kMaxFrames in *. change (1024 * 1024 / 32) with 32768. lia. }
  pose proof (Z.div_pos g 32). pose proof (Z.mod_pos_bound g 32).
  destruct (decide (g / 32 = f / 32)) as [Hd|Hd].
  - rewrite Hd, zget_zset_eq, Hw by lia.
    destruct (decide (g = f)) as [->|]; [by rewrite !Z.eqb_refl|].
    rewrite !(proj2 (Z.eqb_neq _ _)); auto. intros ?. by apply n, same_frame.
  - rewrite zget_zset_ne by lia. rewrite (proj2 (Z.eqb_neq _ _)) by congruence. done.
Qed.

Lemma set_bit_is_set s f :
  0 <= f < kMaxFrames → Z.of_nat (length (g_bitmap s)) = kBitmapSize →
  ∀ g, 0 <= g → is_set (set_bit s f) g = (g =? f) || is_set s g.
Proof.
  intros Hf Hlen g Hg. unfold set_bit. unfold frame_index_valid.
  rewrite (proj2 (Z.ltb_lt _ _)) by lia. simpl.
  destruct (is_set s f) eqn:E; simpl.
  - destruct (g =? f) eqn:Eq; zbool; subst; auto.
  - erewrite (is_set_update s _ f _ true); [by case_match|lia|done|done| |done].
    intros i Hi. rewrite Z.lor_spec, Z.shiftl_1_l, Z.pow2_bits_eqb by (apply Z.mod_pos_bound; lia).
    rewrite Z.eqb_sym. destruct (i =? f mod 32); [apply orb_true_r|apply orb_false_r].
Qed.

Lemma clear_bit_is_set s f :
  0 <= f < kMaxFrames → Z.of_nat (length (g_bitmap s)) = kBitmapSize →
  ∀ g, 0 <= g → is_set (clear_bit s f) g = negb (g =? f) && is_set s g.
Proof.
  intros Hf Hlen g Hg. unfold clear_bit. unfold frame_index_valid.
  rewrite (proj2 (Z.ltb_lt _ _)) by lia. simpl.
  destruct (is_set s f) eqn:E; simpl.
  - erewrite (is_set_update s _ f _ false); [by case_match|lia|done|done| |done].
    intros i Hi. rewrite Z.land_spec, u32_testbit, Z.lnot_spec by lia.
    rewrite Z.shiftl_1_l, Z.pow2_bits_eqb by (apply Z.mod_pos_bound; lia).
    rewrite Z.eqb_sym. destruct (i =? f mod 32); [apply andb_false_r|apply andb_true_r].
  - destruct (g =? f) eqn:Eq; zbool; subst; auto.
Qed.

(** ** The operations on the set of free frames *)

Lemma set_bit_len s f : length (g_bitmap (set_bit s f)) = length (g_bitmap s).
Proof. unfold set_bit. repeat case_match; simpl; by rewrite ?length_zset. Qed.

Lemma clear_bit_len s f : length (g_bitmap (clear_bit s f)) = length (g_bitmap s).
Proof. unfold clear_bit. repeat case_match; simpl; by rewrite ?length_zset. Qed.

Lemma word_range s w :
  Forall (λ w, 0 <= w < 4294967296) (g_bitmap s) → 0 <= zget (g_bitmap s) w < 4294967296.
Proof.
  intros H. unfold zget. destruct (decide (Z.to_nat w < length (g_bitmap s))%nat) as [Hl|Hl].
  - apply (Forall_lookup_total_1 _ _ _ H Hl).
  - rewrite list_lookup_total_alt, lookup_ge_None_2 by lia. simpl. lia.
Qed.

Lemma set_bit_words s f :
  0 <= f → Forall (λ w, 0 <= w < 4294967296) (g_bitmap s) →
  Forall (λ w, 0 <= w < 4294967296) (g_bitmap (set_bit s f)).
Proof.
  intros Hf H. unfold set_bit. destruct (negb _); [done|]. destruct (negb (is_set s f)); [|done].
  apply Forall_insert; [done|]. pose proof (word_range s (f / 32) H).
  pose proof (Z.mod_pos_bound f 32). rewrite Z.shiftl_1_l.
  apply (lor_range 32); [lia|done|]. split; [lia|apply Z.pow_lt_mono_r; lia].
Qed.

Lemma clear_bit_words s f :
  0 <= f → Forall (λ w, 0 <= w < 4294967296) (g_bitmap s) →
  Forall (λ w, 0 <= w < 4294967296) (g_bitmap (clear_bit s f)).
Proof.
  intros Hf H. unfold clear_bit. destruct (negb _); [done|]. destruct (is_set s f); [|done].
  apply Forall_insert; [done|]. pose proof (word_range s (f / 32) H).
  by apply (land_range 32).
Qed.

Section pmm_ops.
Context (s : pmm) (Hok : pmm_ok s).

Lemma set_bit_free_set f :
  0 <= f < kMaxFrames → free_set (set_bit s f) = free_set s ∖ {[f]}.
Proof using Hok.
  intros Hf. apply set_eq. intros g.
  rewrite elem_of_difference, not_elem_of_singleton, !elem_of_free_set.
  split.
  - intros [Hg Hs]. rewrite set_bit_is_set in Hs by (apply Hok || lia). zbool. naive_solver.
  - intros [[Hg Hs] Hne]. rewrite set_bit_is_set by (apply Hok || lia). zbool. auto.
Qed.

Lemma clear_bit_free_set f :
  0 <= f < kMaxFrames → free_set (clear_bit s f) = free_set s ∪ {[f]}.
Proof using Hok.
  intros Hf. apply set_eq. intros g.
  rewrite elem_of_union, elem_of_singleton, !elem_of_free_set. split.
  - intros [Hg Hs]. rewrite clear_bit_is_set in Hs by (apply Hok || lia).
    destruct (g =? f) eqn:E; simpl in Hs; zbool; auto.
  - intros H. assert (0 <= g < kMaxFrames) by naive_solver lia. split; [done|].
    rewrite clear_bit_is_set by (apply Hok || lia).
    destruct H as [[_ ->]| ->]; [apply andb_false_r|by rewrite Z.eqb_refl].
Qed.

Lemma set_bit_ok f : 0 <= f < kMaxFrames → pmm_ok (set_bit s f).
Proof using Hok.
  intros Hf. destruct Hok as [Hlen Hw Ht Hfree]. split.
  - by rewrite set_bit_len.
  - apply set_bit_words; [lia|done].
  - unfold set_bit. repeat case_match; done.
  - rewrite set_bit_free_set by done. unfold set_bit, frame_index_valid.
    rewrite (proj2 (Z.ltb_lt _ _)) by lia. simpl.
    pose proof (size_free_set_bound s). unfold kMaxFrames in *.
    destruct (is_set s f) eqn:E; simpl.
    + assert (f ∉ free_set s) as Hin by (rewrite elem_of_free_set; intros [_ ?]; congruence).
      rewrite Hfree. do 2 f_equal. set_solver.
    + assert (f ∈ free_set s) as Hin by (apply elem_of_free_set; done).
      assert (size (free_set s) ≠ 0%nat) by (intros ?%size_empty_iff; set_solver).
      rewrite size_difference, size_singleton by set_solver.
      rewrite Hfree, (proj2 (Z.ltb_lt _ _)), u32_small by lia. lia.
Qed.

Lemma clear_bit_ok f : 0 <= f < kMaxFrames → pmm_ok (clear_bit s f).
Proof using Hok.
  intros Hf. destruct Hok as [Hlen Hw Ht Hfree]. split.
  - by rewrite clear_bit_len.
  - apply clear_bit_words; [lia|done].
  - unfold clear_bit. repeat case_match; done.
  - rewrite clear_bit_free_set by done. unfold clear_bit, frame_index_valid.
    rewrite (proj2 (Z.ltb_lt _ _)) by lia. simpl.
    pose proof (size_free_set_bound s). unfold kMaxFrames in *.
    destruct (is_set s f) eqn:E; simpl.
    + assert (f ∉ free_set s) as Hin by (rewrite elem_of_free_set; intros [_ ?]; congruence).
      rewrite size_union, size_singleton by set_solver. rewrite u32_small by lia. lia.
    + assert (f ∈ free_set s) as Hin by (apply elem_of_free_set; done).
      rewrite Hfree. do 2 f_equal. set_solver.
Qed.
End pmm_ops.

(** ** Ranges *)

Lemma align_down_spec v : 0 <= v < 4294967296 → align_down v kPageSize = v - v mod 4096.
Proof.
  intros Hv. unfold align_down. rewrite land_u32_l by done.
  change (kPageSize - 1) with (2 ^ 12 - 1). rewrite land_lnot_pow2 by lia. done.
Qed.

Lemma align_up_spec v :
  0 <= v <= 4294963200 → align_up v kPageSize = v + (- v) mod 4096.
Proof.
  intros Hv. unfold align_up, kPageSize. rewrite (u32_small (v + 4096 - 1)) by lia.
  rewrite land_u32_l by lia. change (4096 - 1) with (2 ^ 12 - 1) at 1.
  rewrite land_lnot_pow2 by lia. change (2 ^ 12) with 4096.
  pose proof (Z.div_mod (v + 4096 - 1) 4096). pose proof (Z.div_mod (- v) 4096).
  pose proof (Z.mod_pos_bound (v + 4096 - 1) 4096). pose proof (Z.mod_pos_bound (- v) 4096). lia.
Qed.

(** The frames that [start, end) touches, rounded outwards to whole frames. *)
Definition frames_touching (start end_ : Z) : gset Z :=
  list_to_set (seqZ (start / 4096) ((end_ + 4095) / 4096 - start / 4096)).

Lemma elem_of_frames_touching start end_ f :
  f ∈ frames_touching start end_ ↔ start / 4096 <= f < (end_ + 4095) / 4096.
Proof. unfold frames_touching. rewrite elem_of_list_to_set, elem_of_seqZ. lia. Qed.

Lemma frames_touching_eq start end_ :
  frames_touching start end_
  = list_to_set (seqZ (start / 4096) ((end_ + 4095) / 4096 - start / 4096)).
Proof. done. Qed.

#[global] Opaque frames_touching.

(** Both range loops act on the free set with one set operation per page; the
    loop acts with the same operation on the whole range. *)
Section page_loops.
Context (op : pmm → Z → pmm) (G : gset Z → gset Z → gset Z).
Hypothesis G_empty : ∀ X, G X ∅ = X.
Hypothesis G_union : ∀ X A B, G (G X A) B = G X (A ∪ B).
Hypothesis op_spec : ∀ s f, pmm_ok s → 0 <= f < kMaxFrames →
  pmm_ok (op s f) ∧ free_set (op s f) = G (free_set s) {[f]}.

Lemma page_loop_from lo hi X n i s :
  n = Z.to_nat (hi - i) → 0 <= lo <= i → hi <= kMaxFrames → i <= hi ∨ i = lo →
  pmm_ok s → free_set s = G X (list_to_set (seqZ lo (i - lo))) →
  let s' := for_up (i * 4096) (hi * 4096) kPageSize (λ addr s, op s (u32 (addr / kPageSize))) s in
  pmm_ok s' ∧ free_set s' = G X (list_to_set (seqZ lo (hi - lo))).
Proof using G_empty G_union op_spec.
  revert i s. induction n as [|n IH]; intros i s Hn Hi Hhi Hle Hok Hfree;
    rewrite for_up_unfold by (unfold kPageSize; lia);
    destruct (i * 4096 <? hi * 4096) eqn:E; zbool; try lia.
  - split; [done|]. rewrite Hfree. f_equal. f_equal.
    destruct (decide (i = hi)) as [->|]; [done|]. rewrite !seqZ_nil by lia. done.
  - unfold kMaxFrames in *.
    assert (u32 (i * 4096 / kPageSize) = i) as Hidx
      by (unfold kPageSize; rewrite Z.div_mul by lia; apply u32_small; lia).
    cbn beta. rewrite Hidx. destruct (op_spec s i Hok ltac:(lia)) as [Hok' Hfree'].
    replace (i * 4096 + kPageSize) with ((i + 1) * 4096) by (unfold kPageSize; lia).
    apply (IH (i + 1)); [lia|lia|lia|lia|done|]. rewrite Hfree', Hfree, G_union. f_equal.
    replace (i + 1 - lo) with (i - lo + 1) by lia. rewrite seqZ_app by lia.
    rewrite list_to_set_app_L. replace (lo + (i - lo)) with i by lia.
    rewrite (seqZ_cons i 1), (seqZ_nil _ (Z.pred 1)) by lia. set_solver.
Qed.

Lemma page_loop s start_addr end_addr :
  pmm_ok s → 0 <= start_addr < 4294967296 → 0 <= end_addr <= 4294963200 →
  let s' := for_up (align_down start_addr kPageSize) (range_end end_addr) kPageSize
              (λ addr s, op s (u32 (addr / kPageSize))) s in
  pmm_ok s' ∧ free_set s' = G (free_set s) (frames_touching start_addr end_addr).
Proof using G_empty G_union op_spec.
  intros Hok Ha Hb.
  pose proof (Z.div_mod start_addr 4096). pose proof (Z.mod_pos_bound start_addr 4096).
  pose proof (Z.div_mod (end_addr + 4095) 4096). pose proof (Z.mod_pos_bound (end_addr + 4095) 4096).
  rewrite frames_touching_eq.
  set (lo := start_addr / 4096) in *. set (hi := (end_addr + 4095) / 4096) in *.
  assert (align_down start_addr kPageSize = lo * 4096) as -> by (rewrite align_down_spec by lia; lia).
  assert (range_end end_addr = hi * 4096) as ->.
  { unfold range_end. rewrite align_up_spec by lia. unfold kMaxFrames, kPageSize.
    pose proof (Z.div_mod (- end_addr) 4096). pose proof (Z.mod_pos_bound (- end_addr) 4096).
    zsolve. }
  eapply page_loop_from; [done|lia|unfold kMaxFrames; lia|lia|done|].
  rewrite Z.sub_diag, seqZ_nil by lia. symmetry. apply G_empty.
Qed.
End page_loops.

Lemma reserve_range_spec s a b :
  pmm_ok s → 0 <= a < 4294967296 → 0 <= b <= 4294963200 →
  pmm_ok (reserve_range s a b) ∧
  free_set (reserve_range s a b) = free_set s ∖ frames_touching a b.
Proof.
  intros Hok Ha Hb. apply (page_loop set_bit difference); auto; try set_solver.
  intros. auto using set_bit_ok, set_bit_free_set.
Qed.

Lemma unreserve_range_spec s a b :
  pmm_ok s → 0 <= a < 4294967296 → 0 <= b <= 4294963200 →
  pmm_ok (unreserve_range s a b) ∧
  free_set (unreserve_range s a b) = free_set s ∪ frames_touching a b.
Proof.
  intros Hok Ha Hb. apply (page_loop clear_bit union); auto; try set_solver.
  intros. auto using clear_bit_ok, clear_bit_free_set.
Qed.

(** ** Initialisation *)

(** The frames an available region contributes: those it touches below the
    last frame of the 32-bit address space. *)
Definition entry_end (e : MemoryMapEntryView) : Z :=
  let end64 := u64 (base_addr e + length_ e) in
  if 4294967296 <=? end64 then 4294963200 else end64.

Definition entry_frames (e : MemoryMapEntryView) : gset Z :=
  if (type_ e =? kMemoryTypeAvailable) && negb (length_ e =? 0)
     && (base_addr e <? 4294967296) && (base_addr e <? entry_end e)
  then frames_touching (base_addr e) (entry_end e) else ∅.

(** An entry whose (wrapped) end lies strictly inside the last frame is rounded
    up to 2^32 = 0 by [align_up]; the specification excludes it. *)
Definition entry_end_ok (e : MemoryMapEntryView) : Prop := entry_end e <= 4294963200.

Lemma map_visitor_spec e s :
  pmm_ok s → 0 <= base_addr e → entry_end_ok e →
  pmm_ok (map_visitor e s) ∧ free_set (map_visitor e s) = free_set s ∪ entry_frames e.
Proof.
  intros Hok Hb He. unfold map_visitor, entry_frames, entry_end_ok, entry_end in *.
  assert (0 <= u64 (base_addr e + length_ e)) by (apply Z.mod_pos_bound; lia).
  assert (∀ X : gset Z, X ∪ ∅ = X) as Hun by set_solver.
  destruct (type_ e =? kMemoryTypeAvailable); [|by rewrite Hun].
  destruct (length_ e =? 0); [by rewrite Hun|]. cbn [negb andb orb].
  destruct (4294967296 <=? base_addr e) eqn:Eb; zbool.
  { rewrite (proj2 (Z.ltb_ge _ _)) by lia. by rewrite Hun. }
  rewrite (proj2 (Z.ltb_lt (base_addr e) 4294967296)) by lia. rewrite (u32_small (base_addr e)) by lia.
  cbn [andb].
  set (end_ := if 4294967296 <=? u64 (base_addr e + length_ e) then 4294963200
               else u64 (base_addr e + length_ e)) in *.
  assert ((if 4294967296 <=? u64 (base_addr e + length_ e) then 4294963200
           else u32 (u64 (base_addr e + length_ e))) = end_) as ->.
  { subst end_. case_match; zbool; [done|]. apply u32_small. lia. }
  assert (0 <= end_) by (subst end_; case_match; lia).
  destruct (end_ <=? base_addr e) eqn:El; zbool.
  - rewrite (proj2 (Z.ltb_ge _ _)) by lia. by rewrite Hun.
  - rewrite (proj2 (Z.ltb_lt _ _)) by lia. apply unreserve_range_spec; auto with lia.
Qed.

Lemma visit_entries_free_set es s :
  pmm_ok s → Forall (λ e, 0 <= base_addr e ∧ entry_end_ok e) es →
  pmm_ok (foldl (λ s e, map_visitor e s) s es) ∧
  free_set (foldl (λ s e, map_visitor e s) s es) = free_set s ∪ ⋃ (entry_frames <$> es).
Proof.
  intros Hok Hes. revert s Hok. induction Hes as [|e es [Hb He] _ IH]; intros s Hok; simpl.
  - split; [done|]. set_solver.
  - destruct (map_visitor_spec e s Hok Hb He) as [Hok' Hf].
    destruct (IH _ Hok') as [Hok'' Hf']. split; [done|]. rewrite Hf', Hf. set_solver.
Qed.

Lemma init_fill_ok s :
  Z.of_nat (length (g_bitmap s)) = kBitmapSize →
  pmm_ok (init_fill s) ∧ free_set (init_fill s) = ∅.
Proof.
  intros Hlen.
  assert (∀ f, 0 <= f < kMaxFrames → is_set (init_fill s) f = true) as Hset.
  { intros f Hf. rewrite is_set_testbit by lia. unfold init_fill, zget. cbn [g_bitmap].
    pose proof (Z.mod_pos_bound f 32).
    assert (f / 32 < 32768) by (apply Z.div_lt_upper_bound; unfold kMaxFrames in *; lia).
    assert (kBitmapSize = 32768) as Hk by done. rewrite Hk in Hlen.
    rewrite list_lookup_total_fmap by (lia || apply _).
    change kWordFull with (Z.ones 32). rewrite Z.ones_spec_low; [done|lia]. }
  assert (free_set (init_fill s) = ∅) as Hempty.
  { apply set_eq. intros f. rewrite elem_of_free_set. split; [|set_solver].
    intros [Hf Hs]. rewrite Hset in Hs by done. done. }
  split; [|done]. split; cbn [g_bitmap g_total_frames g_free_frames init_fill].
  - by rewrite length_fmap.
  - apply Forall_fmap, Forall_forall. intros. simpl. unfold kWordFull. lia.
  - done.
  - rewrite Hempty, size_empty. done.
Qed.

(** ** Allocation *)

Lemma alloc_bits_spec s word n bit :
  Z.of_nat n + bit = 32 → 0 <= bit → 0 <= word < kBitmapSize →
  (∃ b, bit <= b < 32 ∧ is_set s (word * 32 + b) = false ∧
        (∀ j, bit <= j < b → is_set s (word * 32 + j) = true) ∧
        alloc_bits n s word bit = Some ((word * 32 + b) * 4096, set_bit s (word * 32 + b))) ∨
  ((∀ j, bit <= j < 32 → is_set s (word * 32 + j) = true) ∧ alloc_bits n s word bit = None).
Proof.
  change kBitmapSize with 32768.
  revert bit. induction n as [|n IH]; intros bit Hn Hb Hw; cbn [alloc_bits]; [right; split; [lia|done]|].
  unfold frame_index_valid, kMaxFrames, kPageSize. rewrite !u32_small by (rewrite ?u32_small by lia; lia).
  rewrite (proj2 (Z.ltb_lt _ _)) by lia. cbn [negb].
  destruct (is_set s (word * 32 + bit)) eqn:E; cbn [negb].
  - destruct (IH (bit + 1)) as [(b & Hb1 & Hb2 & Hb3 & ->)|[Hall ->]]; [lia|lia|done| |].
    + left. exists b. split_and!; [lia|lia|done| |done]. intros j Hj.
      destruct (decide (j = bit)) as [->|]; [done|]. apply Hb3. lia.
    + right. split; [|done]. intros j Hj.
      destruct (decide (j = bit)) as [->|]; [done|]. apply Hall. lia.
  - left. exists bit. split_and!; [lia|lia|done|intros; lia|done].
Qed.

Lemma full_word_set s word j :
  0 <= word → 0 <= j < 32 → zget (g_bitmap s) word = kWordFull → is_set s (word * 32 + j) = true.
Proof.
  intros Hw Hj Hfull. rewrite is_set_testbit by lia.
  replace ((word * 32 + j) / 32) with word by (apply Z.div_unique with j; lia).
  replace ((word * 32 + j) mod 32) with j by (apply Z.mod_unique with word; lia).
  rewrite Hfull. change kWordFull with (Z.ones 32). rewrite Z.ones_spec_low; [done|lia].
Qed.

Lemma alloc_words_spec s n word :
  Z.of_nat n + word = kBitmapSize → 0 <= word →
  (∀ f, 0 <= f < word * 32 → is_set s f = true) →
  (∃ f, 0 <= f < kMaxFrames ∧ is_set s f = false ∧ (∀ g, 0 <= g < f → is_set s g = true) ∧
        alloc_words n s word = (f * 4096, set_bit s f)) ∨
  ((∀ f, 0 <= f < kMaxFrames → is_set s f = true) ∧ alloc_words n s word = (0, s)).
Proof.
  assert (kBitmapSize = 32768 ∧ kMaxFrames = 1048576) as [Hk1 Hk2] by done.
  revert word. induction n as [|n IH]; intros word Hn Hw Hbelow; cbn [alloc_words].
  - right. split; [|done]. intros f Hf. apply Hbelow. lia.
  - assert (∀ j, word * 32 <= j < (word + 1) * 32 → ∃ b, 0 <= b < 32 ∧ j = word * 32 + b) as Hsplit.
    { intros j Hj. exists (j - word * 32). lia. }
    assert ((∀ b, 0 <= b < 32 → is_set s (word * 32 + b) = true) →
            ∀ f, 0 <= f < (word + 1) * 32 → is_set s f = true) as Hext.
    { intros H f Hf. destruct (decide (f < word * 32)); [apply Hbelow; lia|].
      destruct (Hsplit f) as (b & Hb & ->); [lia|]. by apply H. }
    destruct (zget (g_bitmap s) word =? kWordFull) eqn:E; zbool.
    + apply IH; [lia|lia|]. apply Hext. intros. apply full_word_set; auto with lia.
    + destruct (alloc_bits_spec s word 32 0) as [(b & Hb1 & Hb2 & Hb3 & ->)|[Hall ->]]; try lia.
      * left. exists (word * 32 + b). split_and!; [lia|lia|done| |done]. intros g Hg.
        destruct (decide (g < word * 32)); [apply Hbelow; lia|].
        replace g with (word * 32 + (g - word * 32)) by lia. apply Hb3. lia.
      * apply IH; [lia|lia|]. by apply Hext.
Qed.

Lemma alloc_frame_spec s :
  pmm_ok s →
  (free_set s = ∅ ∧ alloc_frame s = (0, s)) ∨
  (∃ f, f ∈ free_set s ∧ (∀ g, g ∈ free_set s → f <= g) ∧ alloc_frame s = (f * 4096, set_bit s f)).
Proof.
  intros Hok. unfold alloc_frame. destruct (g_free_frames s =? 0) eqn:E; zbool.
  - left. split; [|done]. rewrite (ok_free _ Hok) in E.
    apply leibniz_equiv, size_empty_inv. lia.
  - destruct (alloc_words_spec s (Z.to_nat kBitmapSize) 0) as [(f & Hf & Hs & Hlt & ->)|[Hall ->]];
      [rewrite Z2Nat.id by done; lia|lia|intros; lia| |].
    + right. exists f. split_and!; [by apply elem_of_free_set| |done].
      intros g [Hg Hgs]%elem_of_free_set. destruct (decide (f <= g)); [done|].
      rewrite Hlt in Hgs by lia. done.
    + exfalso. apply E. rewrite (ok_free _ Hok). replace (free_set s) with (∅ : gset Z); [done|].
      apply set_eq. intros f. rewrite elem_of_free_set. split; [set_solver|].
      intros [Hf Hs]. rewrite Hall in Hs by done. done.
Qed.

Lemma free_frame_spec s f :
  pmm_ok s → 0 <= f < kMaxFrames →
  pmm_ok (free_frame s (f * 4096)) ∧ free_set (free_frame s (f * 4096)) = free_set s ∪ {[f]}.
Proof.
  intros Hok Hf. unfold free_frame, kPageSize. rewrite Z.mod_mul, Z.div_mul by lia. simpl.
  split; [by apply clear_bit_ok|by apply clear_bit_free_set].
Qed.

(** ** Properties *)

(** The contract of a frame allocator over the set of free frames. *)
Definition spec_alloc (X : gset Z) (r : Z) (X' : gset Z) : Prop :=
  (X = ∅ ∧ r = 0 ∧ X' = ∅) ∨
  (∃ f, f ∈ X ∧ (∀ g, g ∈ X → f <= g) ∧ r = f * 4096 ∧ X' = X ∖ {[f]}).

Definition spec_free (X : gset Z) (pa : Z) (X' : gset Z) : Prop :=
  X' = if pa mod 4096 =? 0 then X ∪ {[pa / 4096]} else X.

(** C2: on a Multiboot2 block that encodes well-formed tags whose regions do not
    end inside the last frame, [init] terminates and leaves exactly the frames
    touched by an available region free, less the first MiB and the kernel
    image, with the counters right. *)
Theorem pmm_init_spec (m : memory) (s : pmm) (fuel : nat) (addr ks ke : Z) (ts : list mb_tag) :
  Z.of_nat (length (g_bitmap s)) = kBitmapSize →
  Forall tag_ok ts → Forall entry_end_ok (mmap_entries ts) →
  0 < addr → addr mod 8 = 0 →
  addr + Z.of_nat (length (encode_info ts)) + 2 ^ 16 < 4294967296 →
  (length (encode_info ts) <= fuel)%nat → bytes_at m addr (encode_info ts) →
  0 <= ks < 4294967296 → 0 <= ke <= 4294963200 →
  ∃ s', init fuel m s addr ks ke = Some s' ∧ pmm_ok s' ∧
    free_set s' = ⋃ (entry_frames <$> mmap_entries ts)
                    ∖ frames_touching 0 kLowMemoryReserveEnd ∖ frames_touching ks ke.
Proof.
  intros Hlen Hok Hend Ha Hmod Hlt Hf Hb Hks Hke. unfold init.
  rewrite (visit_memory_map_encoded m addr ts fuel) by done. cbn [mbind option_bind].
  eexists. split; [done|].
  destruct (init_fill_ok s Hlen) as [Hok0 Hf0].
  destruct (visit_entries_free_set (mmap_entries ts) (init_fill s)) as [Hok1 Hf1]; [done| |].
  { apply Forall_forall. intros e He. split; [|by eapply Forall_forall in Hend].
    apply (mmap_entries_ok ts e Hok He). }
  destruct (reserve_range_spec _ 0 kLowMemoryReserveEnd Hok1) as [Hok2 Hf2];
    [lia|unfold kLowMemoryReserveEnd; lia|].
  destruct (reserve_range_spec _ ks ke Hok2) as [Hok3 Hf3]; [done|done|].
  split; [done|]. by rewrite Hf3, Hf2, Hf1, Hf0, union_empty_l_L.
Qed.

Lemma boot_bitmap_len : Z.of_nat (length (g_bitmap pmm_boot)) = kBitmapSize.
Proof. unfold pmm_boot. cbn [g_bitmap]. rewrite length_replicate. apply Z2Nat.id. done. Qed.

Lemma pmm_init_spec_witness :
  ∃ s', init 200 sample_memory pmm_boot 4096 1048576 1310720 = Some s' ∧ pmm_ok s' ∧
    free_set s' = ⋃ (entry_frames <$> mmap_entries sample_tags)
                    ∖ frames_touching 0 kLowMemoryReserveEnd ∖ frames_touching 1048576 1310720.
Proof.
  apply (pmm_init_spec sample_memory pmm_boot 200 4096 1048576 1310720 sample_tags); try lia.
  - exact boot_bitmap_len.
  - repeat constructor; done.
  - repeat constructor; done.
  - vm_compute. done.
  - vm_compute. done.
  - vm_compute. lia.
  - apply sample_memory_ok.
Defined.

(** C3: [alloc_frame] and [free_frame] implement the abstract allocator on the
    set of free frames: allocation returns the lowest free frame's address and
    removes that frame, and returns 0 exactly when no frame is free (or frame 0
    was); freeing a page-aligned address adds its frame and any other address
    is ignored.  Both keep the invariant of bitmap and counter. *)
Theorem pmm_refines_set (s : pmm) (pa : Z) :
  pmm_ok s → 0 <= pa < 4294967296 →
  (let '(r, s') := alloc_frame s in pmm_ok s' ∧ spec_alloc (free_set s) r (free_set s')) ∧
  (let s' := free_frame s pa in pmm_ok s' ∧ spec_free (free_set s) pa (free_set s')).
Proof.
  intros Hok Hpa. split.
  - destruct (alloc_frame_spec s Hok) as [[He ->]|(f & Hf & Hmin & ->)].
    + split; [done|]. left. by rewrite He.
    + pose proof Hf as [Hr _]%elem_of_free_set. split; [by apply set_bit_ok|]. right.
      exists f. by rewrite set_bit_free_set.
  - unfold spec_free. destruct (pa mod 4096 =? 0) eqn:E; zbool.
    + assert (0 <= pa / 4096 < kMaxFrames) as Hr.
      { split; [apply Z.div_pos; lia|]. apply Z.div_lt_upper_bound; unfold kMaxFrames; lia. }
      replace pa with (pa / 4096 * 4096) at 1 2 by (pose proof (Z.div_mod pa 4096); lia).
      by apply free_frame_spec.
    + unfold free_frame, kPageSize. rewrite (proj2 (Z.eqb_neq _ _) E). done.
Qed.

Lemma boot_fill_ok : pmm_ok (init_fill pmm_boot).
Proof. apply init_fill_ok, boot_bitmap_len. Qed.

Lemma boot_pmm_ok : pmm_ok (clear_bit (init_fill pmm_boot) 300).
Proof.
  apply clear_bit_ok; [apply boot_fill_ok|unfold kMaxFrames; lia].
Qed.

Lemma demo_addr_range : 0 <= 4096 < 4294967296.
Proof. lia. Qed.

Definition demo_pmm : pmm := clear_bit (init_fill pmm_boot) 300.

Lemma pmm_refines_set_witness :
  pmm_ok demo_pmm ∧
  (let '(r, s') := alloc_frame demo_pmm in
   pmm_ok s' ∧ spec_alloc (free_set demo_pmm) r (free_set s')) ∧
  (let s' := free_frame demo_pmm 4096 in
   pmm_ok s' ∧ spec_free (free_set demo_pmm) 4096 (free_set s')).
Proof.
  split; [exact boot_pmm_ok|].
  exact (pmm_refines_set demo_pmm 4096 boot_pmm_ok demo_addr_range).
Defined.

(** Client view: the states reached from [s0] by allocating and freeing, with
    the frames handed out and not yet given back. *)
Inductive pmm_reach (s0 : pmm) : pmm → gset Z → Prop :=
  | reach_start : pmm_reach s0 s0 ∅
  | reach_alloc s H r s' :
      pmm_reach s0 s H → alloc_frame s = (r, s') →
      pmm_reach s0 s' (if r =? 0 then H else H ∪ {[r / 4096]})
  | reach_free s H pa :
      pmm_reach s0 s H → 0 <= pa < 4294967296 → pa mod 4096 = 0 →
      pmm_reach s0 (free_frame s pa) (H ∖ {[pa / 4096]}).

Lemma pmm_reach_inv s0 s H :
  pmm_ok s0 → pmm_reach s0 s H → pmm_ok s ∧ H ## free_set s.
Proof.
  intros Hok0 Hr. induction Hr as [|s H r s' _ [Hok Hd] Ha|s H pa _ [Hok Hd] Hpa Hm].
  - split; [done|]. set_solver.
  - destruct (alloc_frame_spec s Hok) as [[He Ha']|(f & Hf & Hmin & Ha')];
      rewrite Ha' in Ha; injection Ha as <- <-.
    + done.
    + pose proof Hf as [Hrange _]%elem_of_free_set. split; [by apply set_bit_ok|].
      rewrite set_bit_free_set by done.
      destruct (f * 4096 =? 0); [set_solver|]. rewrite Z.div_mul by lia. set_solver.
  - assert (0 <= pa / 4096 < kMaxFrames).
    { split; [apply Z.div_pos; lia|]. apply Z.div_lt_upper_bound; unfold kMaxFrames; lia. }
    destruct (free_frame_spec s (pa / 4096) Hok) as [Hok' Hf]; [done|].
    replace (pa / 4096 * 4096) with pa in * by (pose proof (Z.div_mod pa 4096); lia).
    split; [done|]. rewrite Hf. set_solver.
Qed.

(** No frame is handed out twice: along any sequence of allocations and
    frees from a well-formed state, a successful allocation returns a
    page-aligned frame that no client holds, and the free counter drops by one. *)
Lemma pmm_no_double_alloc (s0 s s' : pmm) (H : gset Z) (r : Z) :
  pmm_ok s0 → pmm_reach s0 s H → alloc_frame s = (r, s') → r ≠ 0 →
  r mod 4096 = 0 ∧ 0 < r < 4294967296 ∧ r / 4096 ∉ H ∧ free_frames s' = free_frames s - 1.
Proof.
  intros Hok0 Hr Ha Hnz. destruct (pmm_reach_inv s0 s H Hok0 Hr) as [Hok Hd].
  destruct (alloc_frame_spec s Hok) as [[He Ha']|(f & Hf & Hmin & Ha')];
    rewrite Ha' in Ha; injection Ha as <- <-; [done|].
  pose proof Hf as [Hrange _]%elem_of_free_set.
  rewrite Z.mod_mul, Z.div_mul by lia. unfold kMaxFrames in *.
  split_and!; [done|lia|lia|set_solver|]. unfold free_frames.
  rewrite (ok_free _ (set_bit_ok s Hok f Hrange)), (ok_free _ Hok).
  rewrite set_bit_free_set, size_difference, size_singleton by (done || set_solver).
  assert (size (free_set s) ≠ 0%nat) by (intros ?%size_empty_iff; set_solver). lia.
Qed.

Lemma demo_alloc_fst : (alloc_frame demo_pmm).1 = 1228800.
Proof. vm_compute. reflexivity. Qed.

Lemma demo_alloc : ∃ s', alloc_frame demo_pmm = (1228800, s').
Proof.
  exists (alloc_frame demo_pmm).2. rewrite <- demo_alloc_fst. apply surjective_pairing.
Qed.

Lemma pmm_no_double_alloc_witness :
  ∃ s', alloc_frame demo_pmm = (1228800, s') ∧ 1228800 / 4096 ∉ (∅ : gset Z) ∧
        free_frames s' = free_frames demo_pmm - 1.
Proof.
  destruct demo_alloc as [s' E]. exists s'. split; [exact E|].
  destruct (pmm_no_double_alloc demo_pmm demo_pmm s' ∅ 1228800 boot_pmm_ok (reach_start _) E)
    as (_ & _ & H1 & H2); [lia|]. exact (conj H1 H2).
Defined.

(** An available region that does not start on a page boundary still frees
    the frame its first byte lies in, although the bytes of that frame below
    the region belong to something else. *)
Lemma map_visitor_frees_partial_frame (e : MemoryMapEntryView) (s : pmm) :
  pmm_ok s → type_ e = kMemoryTypeAvailable → 0 <= base_addr e →
  base_addr e + length_ e <= 4294963200 → 0 < length_ e → base_addr e mod 4096 ≠ 0 →
  base_addr e / 4096 ∈ free_set (map_visitor e s) ∧ base_addr e / 4096 * 4096 < base_addr e.
Proof.
  intros Hok Hty Hb Hend Hlen Hmod.
  assert (u64 (base_addr e + length_ e) = base_addr e + length_ e) as He by (apply Z.mod_small; lia).
  pose proof (Z.div_mod (base_addr e) 4096). pose proof (Z.mod_pos_bound (base_addr e) 4096).
  split; [|lia]. destruct (map_visitor_spec e s Hok Hb) as [_ ->].
  { unfold entry_end_ok, entry_end. rewrite He. case_match; lia. }
  apply elem_of_union_r. unfold entry_frames, entry_end.
  rewrite He, Hty, Z.eqb_refl, (proj2 (Z.eqb_neq (length_ e) 0)) by lia.
  rewrite (proj2 (Z.leb_gt _ _)), !(proj2 (Z.ltb_lt _ _)) by lia. simpl.
  apply elem_of_frames_touching. split; [lia|]. apply Z.lt_le_trans with (base_addr e / 4096 + 1); [lia|].
  apply Z.div_le_lower_bound; lia.
Qed.

Definition demo_entry : MemoryMapEntryView :=
  {| base_addr := 1050624; length_ := 65536; type_ := 1 |}.

Lemma demo_entry_fields :
  type_ demo_entry = kMemoryTypeAvailable ∧ 0 <= base_addr demo_entry ∧
  base_addr demo_entry + length_ demo_entry <= 4294963200 ∧ 0 < length_ demo_entry ∧
  base_addr demo_entry mod 4096 ≠ 0.
Proof. vm_compute. split_and!; done. Qed.

Lemma map_visitor_frees_partial_frame_witness :
  base_addr demo_entry / 4096 ∈ free_set (map_visitor demo_entry (init_fill pmm_boot)) ∧
  base_addr demo_entry / 4096 * 4096 < base_addr demo_entry.
Proof.
  destruct demo_entry_fields as (H1 & H2 & H3 & H4 & H5).
  exact (map_visitor_frees_partial_frame demo_entry (init_fill pmm_boot)
           boot_fill_ok H1 H2 H3 H4 H5).
Defined.
