(* ===== verification/Vmm.v ===== *)
(** * Virtual memory manager ([kernel/mm/vmm.cpp])

    The i386 two-level page tables: one kernel page directory, a pool of 64
    page tables handed out in order, and the side table [g_table_for_dir] that
    says which pool table serves a directory slot.  [mmu_walk] is the page
    walk the processor performs on the tables the code builds; the software
    translation [virt_to_phys] is shown to agree with it. *)

From S2P Require Import Prelude.

Definition kPageSize : Z := 4096.
Definition kPageEntries : Z := 1024.
Definition kMaxTables : Z := 64.
Definition kPagePresent : Z := 1.
Definition kPageWrite : Z := 2.
Definition kPageUser : Z := 4.
Definition kPageMask : Z := 4294963200.

(** Privileged instructions the code executes, newest first. *)
Inductive hw_event :=
  | Invlpg (virt : Z)
  | LoadCr3 (v : Z)
  | LoadCr0 (v : Z).

Record vmm := mk_vmm {
  g_kernel_page_directory : list Z;
  g_page_tables : list (list Z);
  g_table_for_dir : list Z;
  g_tables_in_use : Z;
  g_paging_enabled : bool;
  g_current_page_directory : Z;
  cr3 : Z;
  cr0 : Z;
  hw_log : list hw_event;
}.

Definition invalid_table_index : Z := 65535.

(** The zero-initialised globals. *)
Definition vmm_boot (cr0_boot : Z) : vmm :=
  {| g_kernel_page_directory := replicate 1024 0;
     g_page_tables := replicate 64 (replicate 1024 0);
     g_table_for_dir := replicate 1024 0;
     g_tables_in_use := 0; g_paging_enabled := false; g_current_page_directory := 0;
     cr3 := 0; cr0 := cr0_boot; hw_log := [] |}.

Definition set_table (s : vmm) (i : Z) (table : list Z) : vmm :=
  {| g_kernel_page_directory := g_kernel_page_directory s;
     g_page_tables := zset (g_page_tables s) i table;
     g_table_for_dir := g_table_for_dir s; g_tables_in_use := g_tables_in_use s;
     g_paging_enabled := g_paging_enabled s;
     g_current_page_directory := g_current_page_directory s;
     cr3 := cr3 s; cr0 := cr0 s; hw_log := hw_log s |}.

Definition set_dir (s : vmm) (d table_index pde : Z) : vmm :=
  {| g_kernel_page_directory := zset (g_kernel_page_directory s) d pde;
     g_page_tables := g_page_tables s;
     g_table_for_dir := zset (g_table_for_dir s) d table_index;
     g_tables_in_use := g_tables_in_use s; g_paging_enabled := g_paging_enabled s;
     g_current_page_directory := g_current_page_directory s;
     cr3 := cr3 s; cr0 := cr0 s; hw_log := hw_log s |}.

(** [alloc_page_table]: the next table of the pool, cleared; the pointer it
    returns is the table's index in the pool. *)
Definition clear_page_table (table : list Z) : list Z := (λ _, 0) <$> table.

Definition alloc_page_table (s : vmm) : option (Z * vmm) :=
  if kMaxTables <=? g_tables_in_use s then None
  else
    let i := g_tables_in_use s in
    let s' := set_table s i (clear_page_table (zget (g_page_tables s) i)) in
    Some (i, {| g_kernel_page_directory := g_kernel_page_directory s';
                g_page_tables := g_page_tables s'; g_table_for_dir := g_table_for_dir s';
                g_tables_in_use := u16 (g_tables_in_use s' + 1);
                g_paging_enabled := g_paging_enabled s';
                g_current_page_directory := g_current_page_directory s';
                cr3 := cr3 s'; cr0 := cr0 s'; hw_log := hw_log s' |}).

Definition log_hw (s : vmm) (e : hw_event) : vmm :=
  {| g_kernel_page_directory := g_kernel_page_directory s; g_page_tables := g_page_tables s;
     g_table_for_dir := g_table_for_dir s; g_tables_in_use := g_tables_in_use s;
     g_paging_enabled := g_paging_enabled s;
     g_current_page_directory := g_current_page_directory s;
     cr3 := match e with LoadCr3 v => v | _ => cr3 s end;
     cr0 := match e with LoadCr0 v => v | _ => cr0 s end;
     hw_log := e :: hw_log s |}.

Definition flush_tlb_entry (s : vmm) (virt : Z) : vmm := log_hw s (Invlpg virt).
Definition flush_cr3 (s : vmm) : vmm := log_hw s (LoadCr3 (cr3 s)).

Definition dir_index (virt : Z) : Z := Z.land (Z.shiftr virt 22) 1023.
Definition tbl_index (virt : Z) : Z := Z.land (Z.shiftr virt 12) 1023.

Definition page_flags (write user : bool) : Z :=
  let f := kPagePresent in
  let f := if write then Z.lor f kPageWrite else f in
  if user then Z.lor f kPageUser else f.

Section vmm.
(** Link-time addresses of [g_page_tables] and [g_kernel_page_directory]. *)
Context (page_tables_addr page_directory_addr : Z).

Definition table_addr (i : Z) : Z := page_tables_addr + i * 4096.

Definition map_page (s : vmm) (virt phys : Z) (write user : bool) : bool * vmm :=
  let d := dir_index virt in
  let t := tbl_index virt in
  let finish (s : vmm) (table : Z) :=
    let pte := Z.lor (Z.land phys kPageMask) (page_flags write user) in
    let s := set_table s table (zset (zget (g_page_tables s) table) t pte) in
    (true, if g_paging_enabled s then flush_tlb_entry s virt else s) in
  if zget (g_table_for_dir s) d =? invalid_table_index then
    match alloc_page_table s with
    | None => (false, s)
    | Some (table, s) =>
        let table_index := u16 (g_tables_in_use s - 1) in
        finish (set_dir s d table_index
                  (Z.lor (Z.land (u32 (table_addr table)) kPageMask) (page_flags write user))) table
    end
  else finish s (zget (g_table_for_dir s) d).

Definition unmap_page (s : vmm) (virt : Z) : bool * vmm :=
  let d := dir_index virt in
  let t := tbl_index virt in
  if zget (g_table_for_dir s) d =? invalid_table_index then (false, s)
  else
    let table := zget (g_table_for_dir s) d in
    if Z.land (zget (zget (g_page_tables s) table) t) kPagePresent =? 0 then (false, s)
    else
      let s := set_table s table (zset (zget (g_page_tables s) table) t 0) in
      (true, if g_paging_enabled s then flush_tlb_entry s virt else s).

Definition virt_to_phys (s : vmm) (virt : Z) : Z :=
  let d := dir_index virt in
  let t := tbl_index virt in
  let page_offset := Z.land virt 4095 in
  if zget (g_table_for_dir s) d =? invalid_table_index then 0
  else
    let pte := zget (zget (g_page_tables s) (zget (g_table_for_dir s) d)) t in
    if Z.land pte kPagePresent =? 0 then 0
    else Z.lor (Z.land pte kPageMask) page_offset.

Definition init_reset (s : vmm) : vmm :=
  {| g_kernel_page_directory := (λ _, 0) <$> g_kernel_page_directory s;
     g_page_tables := g_page_tables s;
     g_table_for_dir := (λ _, invalid_table_index) <$> g_table_for_dir s;
     g_tables_in_use := 0; g_paging_enabled := g_paging_enabled s;
     g_current_page_directory := page_directory_addr;
     cr3 := cr3 s; cr0 := cr0 s; hw_log := hw_log s |}.

Definition init (s : vmm) : vmm :=
  for_up 0 (64 * 1024 * 1024) kPageSize (λ addr s, (map_page s addr addr true false).2) (init_reset s).

Definition enable_paging (s : vmm) : vmm :=
  let pd_phys := page_directory_addr in
  let s := log_hw s (LoadCr3 pd_phys) in
  let s := log_hw s (LoadCr0 (Z.lor (cr0 s) 2147483648)) in
  let s := {| g_kernel_page_directory := g_kernel_page_directory s;
              g_page_tables := g_page_tables s; g_table_for_dir := g_table_for_dir s;
              g_tables_in_use := g_tables_in_use s; g_paging_enabled := true;
              g_current_page_directory := page_directory_addr;
              cr3 := cr3 s; cr0 := cr0 s; hw_log := hw_log s |} in
  flush_cr3 s.

Definition paging_enabled (s : vmm) : bool := g_paging_enabled s.
Definition kernel_address_space : Z := page_directory_addr.
Definition current_address_space (s : vmm) : Z := g_current_page_directory s.

Definition switch_address_space (s : vmm) (address_space : Z) : bool * vmm :=
  if address_space =? 0 then (false, s)
  else
    let pd_phys := virt_to_phys s address_space in
    if pd_phys =? 0 then (false, s)
    else
      let s := log_hw s (LoadCr3 pd_phys) in
      (true, {| g_kernel_page_directory := g_kernel_page_directory s;
                g_page_tables := g_page_tables s; g_table_for_dir := g_table_for_dir s;
                g_tables_in_use := g_tables_in_use s; g_paging_enabled := true;
                g_current_page_directory := address_space;
                cr3 := cr3 s; cr0 := cr0 s; hw_log := hw_log s |}).

(** ** The processor's page walk over a directory [pd]

    A directory entry names a table by physical address; the low bits are
    permissions, and an access needs them in both levels. *)
Record translation := { tr_phys : Z; tr_write : bool; tr_user : bool }.

Definition mmu_walk (s : vmm) (pd : list Z) (virt : Z) : option translation :=
  let pde := zget pd (virt / 4194304) in
  if Z.testbit pde 0 then
    let table := (pde / 4096 * 4096 - page_tables_addr) / 4096 in
    let pte := zget (zget (g_page_tables s) table) (virt / 4096 mod 1024) in
    if Z.testbit pte 0 then
      Some {| tr_phys := pte / 4096 * 4096 + virt mod 4096;
              tr_write := Z.testbit pde 1 && Z.testbit pte 1;
              tr_user := Z.testbit pde 2 && Z.testbit pte 2 |}
    else None
  else None.

(** ** Invariant *)

Record vmm_ok (s : vmm) : Prop := {
  ok_dir_len : length (g_kernel_page_directory s) = 1024%nat;
  ok_tables_len : length (g_page_tables s) = 64%nat;
  ok_table_len : Forall (λ t, length t = 1024%nat) (g_page_tables s);
  ok_tfd_len : length (g_table_for_dir s) = 1024%nat;
  ok_in_use : 0 <= g_tables_in_use s <= kMaxTables;
  ok_tfd : ∀ d, 0 <= d < 1024 →
    (zget (g_table_for_dir s) d = invalid_table_index ∧ zget (g_kernel_page_directory s) d = 0) ∨
    (0 <= zget (g_table_for_dir s) d < g_tables_in_use s ∧
     ∃ w u, zget (g_kernel_page_directory s) d
            = table_addr (zget (g_table_for_dir s) d) + page_flags w u);
  ok_inj : ∀ d e, 0 <= d < 1024 → 0 <= e < 1024 →
    zget (g_table_for_dir s) d = zget (g_table_for_dir s) e →
    zget (g_table_for_dir s) d ≠ invalid_table_index → d = e;
  ok_ptes : ∀ t i, 0 <= t → 0 <= i < 1024 → 0 <= zget (zget (g_page_tables s) t) i < 4294967296;
}.

(** The page-table entry serving an address, when its directory slot has a table. *)
Definition pte_of (s : vmm) (virt : Z) : Z :=
  let t := zget (g_table_for_dir s) (dir_index virt) in
  if t =? invalid_table_index then 0 else zget (zget (g_page_tables s) t) (tbl_index virt).
End vmm.

(** ** Index and flag arithmetic *)

Lemma dir_index_spec v :
  0 <= v < 4294967296 → dir_index v = v / 4194304 ∧ 0 <= v / 4194304 < 1024.
Proof.
  intros Hv. unfold dir_index. change 1023 with (Z.ones 10).
  rewrite Z.land_ones, Z.shiftr_div_pow2 by lia. change (2 ^ 22) with 4194304.
  assert (0 <= v / 4194304 < 1024)
    by (split; [apply Z.div_pos; lia|apply Z.div_lt_upper_bound; lia]).
  split; [apply Z.mod_small|]; done.
Qed.

Lemma tbl_index_spec v : tbl_index v = v / 4096 mod 1024 ∧ 0 <= tbl_index v < 1024.
Proof.
  unfold tbl_index. change 1023 with (Z.ones 10).
  rewrite Z.land_ones, Z.shiftr_div_pow2 by lia. split; [done|]. apply Z.mod_pos_bound. lia.
Qed.

Lemma page_index v : v / 4096 = v / 4194304 * 1024 + v / 4096 mod 1024.
Proof.
  change 4194304 with (4096 * 1024). rewrite <- Z.div_div by lia.
  pose proof (Z.div_mod (v / 4096) 1024). lia.
Qed.

(** Two addresses share both indices exactly when they share the page. *)
Lemma same_page v w :
  0 <= v < 4294967296 → 0 <= w < 4294967296 →
  (dir_index v = dir_index w ∧ tbl_index v = tbl_index w ↔ v / 4096 = w / 4096).
Proof.
  intros Hv Hw. rewrite !(proj1 (tbl_index_spec _)).
  rewrite (proj1 (dir_index_spec v Hv)), (proj1 (dir_index_spec w Hw)).
  pose proof (page_index v) as Hpv. pose proof (page_index w) as Hpw. split; [lia|].
  intros E. split; [|congruence]. change 4194304 with (4096 * 1024).
  rewrite <- !Z.div_div by lia. congruence.
Qed.

Lemma page_flags_spec w u :
  1 <= page_flags w u < 8 ∧ Z.testbit (page_flags w u) 0 = true ∧
  Z.testbit (page_flags w u) 1 = w ∧ Z.testbit (page_flags w u) 2 = u.
Proof. destruct w, u; vm_compute; split_and!; done. Qed.

Lemma page_mask_spec p : 0 <= p < 4294967296 → Z.land p kPageMask = p / 4096 * 4096.
Proof.
  intros Hp. change kPageMask with (u32 (Z.lnot (2 ^ 12 - 1))). rewrite land_u32_l by done.
  rewrite land_lnot_pow2 by lia. change (2 ^ 12) with 4096.
  pose proof (Z.div_mod p 4096). lia.
Qed.

Definition mk_pte (p : Z) (w u : bool) : Z := p / 4096 * 4096 + page_flags w u.

Lemma mk_pte_spec p w u :
  0 <= p < 4294967296 → Z.lor (Z.land p kPageMask) (page_flags w u) = mk_pte p w u.
Proof.
  intros Hp. rewrite page_mask_spec by done. pose proof (page_flags_spec w u).
  rewrite (lor_low_bits 12); [done|lia|apply Z.mod_mul; lia|lia].
Qed.

Lemma pte_bits p w u i :
  0 <= p < 4294967296 → 0 <= i < 12 → Z.testbit (mk_pte p w u) i = Z.testbit (page_flags w u) i.
Proof.
  intros Hp Hi. rewrite <- (Z.mod_pow2_bits_low (mk_pte p w u) 12) by lia.
  pose proof (page_flags_spec w u).
  destruct (aligned_split 4096 (p / 4096 * 4096) (page_flags w u)) as [E _];
    [lia|apply Z.mod_mul; lia|lia|]. unfold mk_pte. change (2 ^ 12) with 4096. by rewrite E.
Qed.

Lemma mk_pte_frame p w u :
  0 <= p < 4294967296 → mk_pte p w u / 4096 = p / 4096 ∧ 0 < mk_pte p w u < 4294967296.
Proof.
  intros Hp. pose proof (page_flags_spec w u).
  destruct (aligned_split 4096 (p / 4096 * 4096) (page_flags w u)) as [_ E];
    [lia|apply Z.mod_mul; lia|lia|]. unfold mk_pte. rewrite E, Z.div_mul by lia.
  pose proof (Z.div_mod p 4096). pose proof (Z.mod_pos_bound p 4096). lia.
Qed.

Lemma present_bit e : 0 <= e → (Z.land e kPagePresent =? 0) = negb (Z.testbit e 0).
Proof. intros. change kPagePresent with (Z.shiftl 1 0). by apply testbit_mask. Qed.

(** ** Preservation *)

Section vmm_proofs.
Context (page_tables_addr page_directory_addr : Z).
Hypothesis tables_aligned : page_tables_addr mod 4096 = 0.
Hypothesis tables_range : 0 <= page_tables_addr ∧ page_tables_addr + 64 * 4096 <= 4294967296.

Abbreviation vmm_ok := (vmm_ok page_tables_addr).

Lemma table_addr_div i :
  0 <= i < 64 →
  mk_pte (u32 (table_addr page_tables_addr i)) = λ w u, table_addr page_tables_addr i + page_flags w u.
Proof using tables_aligned tables_range.
  intros Hi. unfold mk_pte, table_addr. rewrite u32_small by lia.
  assert ((page_tables_addr + i * 4096) / 4096 * 4096 = page_tables_addr + i * 4096) as ->; [|done].
  rewrite Z.div_add by lia. pose proof (Z.div_mod page_tables_addr 4096). lia.
Qed.

Lemma zget_fmap_const {A} (c : Z) (l : list A) k :
  0 <= k < Z.of_nat (length l) → zget ((λ _, c) <$> l) k = c.
Proof using Type.
  intros Hk. unfold zget. rewrite list_lookup_total_alt, list_lookup_fmap.
  destruct (lookup_lt_is_Some_2 l (Z.to_nat k)) as [x ->]; [lia|done].
Qed.

Lemma pde_bits i w u k :
  0 <= i < 64 → 0 <= k < 12 →
  Z.testbit (table_addr page_tables_addr i + page_flags w u) k = Z.testbit (page_flags w u) k.
Proof using tables_aligned tables_range.
  intros Hi Hk. pose proof (table_addr_div i Hi) as E.
  rewrite <- (pte_bits (u32 (table_addr page_tables_addr i))); [|apply u32_range|done]. by rewrite E.
Qed.

(** Flushing and register loads do not touch the tables. *)
Lemma log_hw_ok s e : vmm_ok s → vmm_ok (log_hw s e).
Proof using Type. intros [??????]. by split. Qed.

Lemma log_hw_pte s e v : pte_of (log_hw s e) v = pte_of s v.
Proof using Type. done. Qed.

Lemma zget_tables_len s t :
  vmm_ok s → 0 <= t < 64 → length (zget (g_page_tables s) t) = 1024%nat.
Proof using Type.
  intros Hok Ht. unfold zget. pose proof (ok_tables_len _ _ Hok).
  apply (Forall_lookup_total_1 _ _ _ (ok_table_len _ _ Hok)). lia.
Qed.

(** Writing one entry of the table that serves slot [d]. *)
Lemma write_pte_spec s d i e :
  vmm_ok s → 0 <= d < 1024 → 0 <= i < 1024 → 0 <= e < 4294967296 →
  zget (g_table_for_dir s) d ≠ invalid_table_index →
  let t := zget (g_table_for_dir s) d in
  let s' := set_table s t (zset (zget (g_page_tables s) t) i e) in
  vmm_ok s' ∧
  ∀ v, 0 <= v < 4294967296 →
    pte_of s' v = if (dir_index v =? d) && (tbl_index v =? i) then e else pte_of s v.
Proof using Type.
  intros Hok Hd Hi He Hne t s'. pose proof (ok_in_use _ _ Hok) as Hu. unfold kMaxTables in Hu.
  assert (0 <= t < 64) as Ht.
  { destruct (ok_tfd _ _ Hok d Hd) as [[? _]|[? _]]; [done|]. subst t. lia. }
  pose proof (zget_tables_len s t Hok Ht) as Hlen. pose proof (ok_tables_len _ _ Hok) as Hlen'.
  assert (∀ t' i', 0 <= t' → 0 <= i' → zget (zget (g_page_tables s') t') i' =
    if (t' =? t) && (i' =? i) then e else zget (zget (g_page_tables s) t') i') as Hget.
  { intros t' i' Ht' Hi'. subst s'. unfold set_table. cbn [g_page_tables].
    destruct (decide (t' = t)) as [->|].
    - rewrite Z.eqb_refl, zget_zset_eq by lia. destruct (decide (i' = i)) as [->|].
      + rewrite Z.eqb_refl, zget_zset_eq by lia. done.
      + rewrite zget_zset_ne, (proj2 (Z.eqb_neq i' i)) by lia. done.
    - rewrite zget_zset_ne, (proj2 (Z.eqb_neq t' t)) by lia. done. }
  split.
  - destruct Hok. split; try done; subst s'; unfold set_table; cbn [g_page_tables].
    + by rewrite length_zset.
    + apply Forall_insert; [done|]. by rewrite length_zset.
    + intros t' i' Ht' Hi'. unfold set_table in Hget. cbn [g_page_tables] in Hget.
      rewrite Hget by lia. case_match; auto.
  - intros v Hv. unfold pte_of. change (g_table_for_dir s') with (g_table_for_dir s).
    pose proof (dir_index_spec v Hv) as [Hdv Hdr]. rewrite <- Hdv in Hdr.
    pose proof (tbl_index_spec v) as [_ Htr].
    destruct (zget (g_table_for_dir s) (dir_index v) =? invalid_table_index) eqn:E; zbool.
    + rewrite (proj2 (Z.eqb_neq (dir_index v) d)) by congruence. done.
    + destruct (ok_tfd _ _ Hok _ Hdr) as [[? _]|[? _]]; [done|].
      rewrite Hget by lia. destruct (decide (dir_index v = d)) as [->|Hdne].
      * by rewrite !Z.eqb_refl.
      * rewrite (proj2 (Z.eqb_neq (dir_index v) d)), (proj2 (Z.eqb_neq _ t)); [done| |done].
        intros Heq. apply Hdne, (ok_inj _ _ Hok); auto.
Qed.

(** Giving a directory slot a fresh, cleared table of the pool. *)
Lemma attach_table_spec s d w u i s1 :
  vmm_ok s → 0 <= d < 1024 → zget (g_table_for_dir s) d = invalid_table_index →
  alloc_page_table s = Some (i, s1) →
  let s' := set_dir s1 d (u16 (g_tables_in_use s1 - 1))
              (Z.lor (Z.land (u32 (table_addr page_tables_addr i)) kPageMask) (page_flags w u)) in
  vmm_ok s' ∧ i = g_tables_in_use s ∧ g_tables_in_use s' = g_tables_in_use s + 1 ∧
  (∀ e, 0 <= e → zget (g_table_for_dir s') e = if e =? d then i else zget (g_table_for_dir s) e) ∧
  (∀ e, 0 <= e → zget (g_kernel_page_directory s') e =
     if e =? d then table_addr page_tables_addr i + page_flags w u
     else zget (g_kernel_page_directory s) e) ∧
  (∀ v, 0 <= v < 4294967296 → pte_of s' v = pte_of s v).
Proof using tables_aligned tables_range.
  intros Hok Hd Hinv Ha. unfold alloc_page_table in Ha.
  pose proof (ok_in_use _ _ Hok) as Hu. unfold kMaxTables in *.
  destruct (64 <=? g_tables_in_use s) eqn:E; [done|]. zbool. injection Ha as <- <-.
  set (i := g_tables_in_use s) in *. change (g_tables_in_use (set_table s i _)) with i.
  rewrite mk_pte_spec by apply u32_range. rewrite table_addr_div by lia.
  cbn [g_tables_in_use]. rewrite (u16_small (i + 1)), (u16_small (i + 1 - 1)) by lia.
  replace (i + 1 - 1) with i by lia.
  match goal with |- context [set_dir ?a ?b ?c ?e] => set (s' := set_dir a b c e) end.
  pose proof (ok_tfd_len _ _ Hok) as Hl1. pose proof (ok_dir_len _ _ Hok) as Hl2.
  pose proof (ok_tables_len _ _ Hok) as Hl3.
  assert (∀ e, 0 <= e → zget (g_table_for_dir s') e = if e =? d then i else zget (g_table_for_dir s) e) as Htfd.
  { intros e He. subst s'. cbn [g_table_for_dir set_dir set_table].
    destruct (decide (e = d)) as [->|]; [rewrite Z.eqb_refl, zget_zset_eq by lia; done|].
    rewrite (proj2 (Z.eqb_neq e d)), zget_zset_ne by lia. done. }
  assert (∀ e, 0 <= e → zget (g_kernel_page_directory s') e =
    if e =? d then table_addr page_tables_addr i + page_flags w u else zget (g_kernel_page_directory s) e) as Hdir.
  { intros e He. subst s'. cbn [g_kernel_page_directory set_dir set_table].
    destruct (decide (e = d)) as [->|]; [rewrite Z.eqb_refl, zget_zset_eq by lia; done|].
    rewrite (proj2 (Z.eqb_neq e d)), zget_zset_ne by lia. done. }
  assert (∀ t k, 0 <= t → 0 <= k < 1024 → zget (zget (g_page_tables s') t) k =
    if t =? i then 0 else zget (zget (g_page_tables s) t) k) as Htab.
  { intros t k Ht Hk. subst s'. cbn [g_page_tables set_dir set_table].
    destruct (decide (t = i)) as [->|].
    - rewrite Z.eqb_refl, zget_zset_eq by lia. apply zget_fmap_const.
      rewrite zget_tables_len; [lia|done|lia].
    - rewrite (proj2 (Z.eqb_neq t i)), zget_zset_ne by lia. done. }
  assert (∀ e, 0 <= e < 1024 → zget (g_table_for_dir s) e ≠ i) as Hfresh.
  { intros e He. destruct (ok_tfd _ _ Hok e He) as [[-> _]|[? _]]; [unfold invalid_table_index; lia|lia]. }
  assert (∀ v, 0 <= v < 4294967296 → pte_of s' v = pte_of s v) as Hpte.
  { intros v Hv. pose proof (dir_index_spec v Hv) as [Hdv Hdr]. rewrite <- Hdv in Hdr.
    pose proof (tbl_index_spec v) as [_ Htr]. unfold pte_of. rewrite Htfd by lia.
    destruct (decide (dir_index v = d)) as [->|].
    - rewrite Z.eqb_refl, Hinv, Z.eqb_refl, Htab, Z.eqb_refl by lia. by destruct (_ =? _).
    - rewrite (proj2 (Z.eqb_neq (dir_index v) d)) by done. case_match eqn:E2; [done|].
      destruct (ok_tfd _ _ Hok _ Hdr) as [[? _]|[? _]]; zbool; [done|].
      rewrite Htab, (proj2 (Z.eqb_neq _ i) (Hfresh _ Hdr)) by lia. done. }
  split; [|by auto]. pose proof Hok as Hok'. destruct Hok'. split; try done.
  - subst s'. cbn. by rewrite length_zset.
  - subst s'. cbn. by rewrite length_zset.
  - subst s'. cbn. apply Forall_insert; [done|]. unfold clear_page_table.
    rewrite length_fmap. apply (zget_tables_len s); [done|lia].
  - subst s'. cbn. by rewrite length_zset.
  - subst s'. unfold kMaxTables. cbn. lia.
  - change (g_tables_in_use s') with (i + 1). intros e He. rewrite Htfd, Hdir by lia.
    destruct (e =? d); [right; split; [lia|by eauto]|].
    destruct (ok_tfd _ _ Hok e He) as [|[??]]; [by left|right; split; [lia|done]].
  - intros e f He Hf. rewrite !Htfd by lia.
    destruct (e =? d) eqn:E1, (f =? d) eqn:E2; zbool; [lia| | |by apply ok_inj0].
    + intros Heq _. by destruct (Hfresh f Hf).
    + intros Heq _. by destruct (Hfresh e He).
  - intros t k Ht Hk. rewrite Htab by done. case_match; [lia|auto].
Qed.

(** What [map_page] does to the directory, the side table and the entries. *)
Lemma map_page_effect s v p w u :
  vmm_ok s → 0 <= v < 4294967296 → 0 <= p < 4294967296 →
  let '(ok, s') := map_page page_tables_addr s v p w u in
  let d := dir_index v in
  let fresh := zget (g_table_for_dir s) d =? invalid_table_index in
  vmm_ok s' ∧
  if ok then
    g_tables_in_use s' = g_tables_in_use s + (if fresh then 1 else 0) ∧
    (∀ e, 0 <= e → zget (g_table_for_dir s') e =
       if (e =? d) && fresh then g_tables_in_use s else zget (g_table_for_dir s) e) ∧
    (∀ e, 0 <= e → zget (g_kernel_page_directory s') e =
       if (e =? d) && fresh then table_addr page_tables_addr (g_tables_in_use s) + page_flags w u
       else zget (g_kernel_page_directory s) e) ∧
    (∀ x, 0 <= x < 4294967296 →
       pte_of s' x = if x / 4096 =? v / 4096 then mk_pte p w u else pte_of s x)
  else s' = s ∧ fresh = true ∧ g_tables_in_use s = kMaxTables.
Proof using tables_aligned tables_range.
  intros Hok Hv Hp. unfold map_page. rewrite mk_pte_spec by done.
  pose proof (dir_index_spec v Hv) as [Hdv Hdr]. rewrite <- Hdv in Hdr.
  pose proof (tbl_index_spec v) as [_ Htr]. pose proof (mk_pte_frame p w u Hp) as [_ Hpte].
  assert (∀ x, 0 <= x < 4294967296 →
    ((dir_index x =? dir_index v) && (tbl_index x =? tbl_index v)) = (x / 4096 =? v / 4096)) as Hpage.
  { intros x Hx. apply eq_true_iff_eq. zbool. by apply same_page. }
  destruct (zget (g_table_for_dir s) (dir_index v) =? invalid_table_index) eqn:E; zbool.
  - destruct (alloc_page_table s) as [[i s1]|] eqn:Ha.
    + pose proof (attach_table_spec s (dir_index v) w u i s1 Hok Hdr E Ha)
        as (Hok2 & -> & Huse & Htfd & Hdir & Hpte2).
      set (s2 := set_dir _ _ _ _) in *. pose proof (Htfd (dir_index v) ltac:(lia)) as Ht.
      rewrite Z.eqb_refl in Ht. pose proof (ok_in_use _ _ Hok) as Hu. unfold kMaxTables in Hu.
      pose proof (write_pte_spec s2 (dir_index v) (tbl_index v) (mk_pte p w u) Hok2 Hdr Htr
        ltac:(lia) ltac:(rewrite Ht; unfold invalid_table_index; lia)) as [Hok3 Hpte3].
      rewrite Ht in Hok3, Hpte3. set (s3 := set_table s2 _ _) in *.
      split; [case_match; [by apply log_hw_ok|done]|].
      split_and!.
      * by destruct (g_paging_enabled s3).
      * intros e He. rewrite andb_true_r, <- Htfd by done. by destruct (g_paging_enabled s3).
      * intros e He. rewrite andb_true_r, <- Hdir by done. by destruct (g_paging_enabled s3).
      * intros x Hx. rewrite <- Hpage, <- Hpte2, <- Hpte3 by done. by destruct (g_paging_enabled s3).
    + unfold alloc_page_table in Ha. case_match eqn:E2; [|done]. zbool.
      pose proof (ok_in_use _ _ Hok). split_and!; [done|done|done|lia].
  - pose proof (write_pte_spec s (dir_index v) (tbl_index v) (mk_pte p w u) Hok Hdr Htr
      ltac:(lia) E) as [Hok3 Hpte3]. set (s3 := set_table s _ _) in *.
    split; [case_match; [by apply log_hw_ok|done]|].
    split_and!.
    + rewrite Z.add_0_r. by destruct (g_paging_enabled s3).
    + intros e He. rewrite andb_false_r. by destruct (g_paging_enabled s3).
    + intros e He. rewrite andb_false_r. by destruct (g_paging_enabled s3).
    + intros x Hx. rewrite <- Hpage, <- Hpte3 by done. by destruct (g_paging_enabled s3).
Qed.

(** ** The walk in terms of the entry of a page *)

Abbreviation walk s v := (mmu_walk page_tables_addr s (g_kernel_page_directory s) v).

Lemma walk_spec s v :
  vmm_ok s → 0 <= v < 4294967296 →
  let pde := zget (g_kernel_page_directory s) (dir_index v) in
  let pte := pte_of s v in
  walk s v =
    if Z.testbit pte 0 then
      Some {| tr_phys := pte / 4096 * 4096 + v mod 4096;
              tr_write := Z.testbit pde 1 && Z.testbit pte 1;
              tr_user := Z.testbit pde 2 && Z.testbit pte 2 |}
    else None.
Proof using tables_aligned tables_range.
  intros Hok Hv pde pte. unfold mmu_walk. pose proof (dir_index_spec v Hv) as [Hdv Hdr].
  rewrite <- Hdv in *. rewrite <- (proj1 (tbl_index_spec v)). fold pde.
  subst pte. unfold pte_of. pose proof (ok_in_use _ _ Hok) as Hu. unfold kMaxTables in Hu.
  destruct (ok_tfd _ _ Hok _ Hdr) as [[Ht Hp]|(Ht & w & u & Hp)]; fold pde in Hp.
  - by rewrite Ht, Z.eqb_refl, Hp.
  - rewrite (proj2 (Z.eqb_neq _ invalid_table_index)) by (unfold invalid_table_index; lia).
    set (i := zget (g_table_for_dir s) (dir_index v)) in *.
    assert (0 <= u32 (table_addr page_tables_addr i) < 4294967296) as Hr by apply u32_range.
    pose proof (table_addr_div i ltac:(lia)) as Htd.
    assert (pde = mk_pte (u32 (table_addr page_tables_addr i)) w u) as Hpde by (by rewrite Htd).
    assert ((pde / 4096 * 4096 - page_tables_addr) / 4096 = i) as ->.
    { rewrite Hpde, (proj1 (mk_pte_frame _ w u Hr)). unfold table_addr.
      rewrite u32_small, Z.div_add by lia. pose proof (Z.div_mod page_tables_addr 4096).
      symmetry. apply Z.div_unique_exact; lia. }
    rewrite Hpde at 1. rewrite pte_bits by lia. by rewrite (proj1 (proj2 (page_flags_spec w u))).
Qed.

Lemma walk_new_pte s v p w u :
  vmm_ok s → 0 <= v < 4294967296 → 0 <= p < 4294967296 → pte_of s v = mk_pte p w u →
  walk s v = Some {| tr_phys := p / 4096 * 4096 + v mod 4096;
                     tr_write := Z.testbit (zget (g_kernel_page_directory s) (dir_index v)) 1 && w;
                     tr_user := Z.testbit (zget (g_kernel_page_directory s) (dir_index v)) 2 && u |}.
Proof using tables_aligned tables_range.
  intros Hok Hv Hp E. rewrite walk_spec, E by done. pose proof (page_flags_spec w u) as (_ & H0 & H1 & H2).
  rewrite !pte_bits, H0, H1, H2 by lia. by rewrite (proj1 (mk_pte_frame p w u Hp)).
Qed.

Lemma virt_to_phys_pte s v :
  virt_to_phys s v = if Z.land (pte_of s v) kPagePresent =? 0 then 0
                     else Z.lor (Z.land (pte_of s v) kPageMask) (Z.land v 4095).
Proof using Type. unfold virt_to_phys, pte_of. by case_match. Qed.

Lemma pte_of_range s v : vmm_ok s → 0 <= v < 4294967296 → 0 <= pte_of s v < 4294967296.
Proof using Type.
  intros Hok Hv. unfold pte_of. pose proof (dir_index_spec v Hv) as [Hdv Hdr]. rewrite <- Hdv in Hdr.
  case_match; [lia|]. pose proof (tbl_index_spec v) as [_ ?]. zbool.
  destruct (ok_tfd _ _ Hok _ Hdr) as [[? _]|[? _]]; [done|]. apply (ok_ptes _ _ Hok); lia.
Qed.

(** C4: [virt_to_phys] computes the physical address the processor's own page
    walk finds, and 0 exactly when the walk faults or finds address 0. *)
Theorem virt_to_phys_is_walk s v :
  vmm_ok s → 0 <= v < 4294967296 →
  virt_to_phys s v = from_option tr_phys 0 (walk s v).
Proof using tables_aligned tables_range.
  intros Hok Hv. rewrite virt_to_phys_pte, walk_spec by done.
  pose proof (pte_of_range s v Hok Hv) as Hr. rewrite present_bit by lia.
  destruct (Z.testbit (pte_of s v) 0); [|done]. cbn [negb from_option tr_phys].
  rewrite page_mask_spec by done. change 4095 with (Z.ones 12).
  rewrite Z.land_ones by lia. change (2 ^ 12) with 4096.
  pose proof (Z.mod_pos_bound v 4096). rewrite (lor_low_bits 12); [done|lia| |lia].
  apply Z.mod_mul. lia.
Qed.

(** C5: [map_page] keeps the tables well formed and changes the translation of
    one page only.  It fails, leaving everything as it was, exactly when the
    page's directory slot has no table and the pool of 64 is used up; when it
    succeeds the processor finds the new frame for every address of the page,
    writable or user-accessible as asked and as the directory slot allows
    (a slot given its table by this very call allows what is asked). *)
Theorem map_page_spec s v p w u :
  vmm_ok s → 0 <= v < 4294967296 → 0 <= p < 4294967296 →
  let '(ok, s') := map_page page_tables_addr s v p w u in
  let has_table := negb (zget (g_table_for_dir s) (dir_index v) =? invalid_table_index) in
  let pde := zget (g_kernel_page_directory s) (dir_index v) in
  vmm_ok s' ∧
  ok = has_table || (g_tables_in_use s <? kMaxTables) ∧
  (ok = false → s' = s) ∧
  (ok = true → ∀ x, 0 <= x < 4294967296 →
     walk s' x =
       if x / 4096 =? v / 4096 then
         Some {| tr_phys := p / 4096 * 4096 + x mod 4096;
                 tr_write := (if has_table then Z.testbit pde 1 else true) && w;
                 tr_user := (if has_table then Z.testbit pde 2 else true) && u |}
       else walk s x).
Proof using tables_aligned tables_range.
  intros Hok Hv Hp. pose proof (map_page_effect s v p w u Hok Hv Hp) as He.
  destruct (map_page page_tables_addr s v p w u) as [ok s']. destruct He as [Hok' He].
  intros has_table pde. split; [done|]. pose proof (ok_in_use _ _ Hok) as Hu.
  pose proof (ok_in_use _ _ Hok') as Hu'.
  set (fresh := zget (g_table_for_dir s) (dir_index v) =? invalid_table_index) in *.
  destruct ok; [|destruct He as (-> & Hf & Hfull); subst has_table; rewrite Hf, Hfull; done].
  destruct He as (Huse & Htfd & Hdir & Hpte). split_and!; [|done|].
  { subst has_table. destruct fresh; [|done]. symmetry. zbool. lia. }
  intros _ x Hx. pose proof (dir_index_spec x Hx) as [Hdv Hdr]. rewrite <- Hdv in Hdr.
  specialize (Hpte x Hx). destruct (x / 4096 =? v / 4096) eqn:Epage; zbool.
  - rewrite (walk_new_pte s' x p w u), Hdir by (done || lia).
    apply same_page in Epage as [Ed _]; [|done..]. rewrite Ed, Z.eqb_refl. subst has_table pde.
    destruct fresh; [|done]. cbn [negb andb].
    rewrite !pde_bits by (unfold kMaxTables in *; lia).
    pose proof (page_flags_spec w u) as (_ & _ & -> & ->). by destruct w, u.
  - rewrite !walk_spec, Hpte by done. destruct (Z.testbit (pte_of s x) 0) eqn:Eb; [|done].
    rewrite Hdir by lia. destruct ((dir_index x =? dir_index v) && fresh) eqn:E; [|done].
    exfalso. zbool. destruct E as [Ed Ef]. unfold pte_of in Eb.
    subst fresh. rewrite Ed, Ef in Eb. done.
Qed.

(** [unmap_page] succeeds exactly on a mapped page; afterwards the
    processor faults on that page and translates every other page as before,
    and a page that was not mapped leaves the state as it was. *)
Lemma unmap_page_spec s v :
  vmm_ok s → 0 <= v < 4294967296 →
  let '(ok, s') := unmap_page s v in
  vmm_ok s' ∧
  ok = from_option (λ _, true) false (walk s v) ∧
  (ok = false → s' = s) ∧
  (ok = true → ∀ x, 0 <= x < 4294967296 →
     walk s' x = if x / 4096 =? v / 4096 then None else walk s x).
Proof using tables_aligned tables_range.
  intros Hok Hv. pose proof (walk_spec s v Hok Hv) as Hw. pose proof (pte_of_range s v Hok Hv) as Hr.
  pose proof (dir_index_spec v Hv) as [Hdv Hdr]. rewrite <- Hdv in Hdr.
  pose proof (tbl_index_spec v) as [_ Htr]. unfold unmap_page.
  destruct (zget (g_table_for_dir s) (dir_index v) =? invalid_table_index) eqn:E.
  { unfold pte_of in Hw. rewrite E in Hw. cbn in Hw. rewrite Hw. split_and!; done. }
  assert (pte_of s v = zget (zget (g_page_tables s) (zget (g_table_for_dir s) (dir_index v)))
    (tbl_index v)) as Hpte by (unfold pte_of; by rewrite E).
  rewrite <- Hpte, present_bit by lia. zbool.
  cbv zeta in Hw. destruct (Z.testbit (pte_of s v) 0); cbn [negb]; [|rewrite Hw; split_and!; done].
  pose proof (write_pte_spec s (dir_index v) (tbl_index v) 0 Hok Hdr Htr ltac:(lia) E) as [Hok3 Hpte3].
  set (s3 := set_table s _ _) in *. cbn [negb].
  set (s' := if g_paging_enabled s3 then _ else s3).
  assert (vmm_ok s' ∧ (∀ x, pte_of s' x = pte_of s3 x) ∧
          g_kernel_page_directory s' = g_kernel_page_directory s) as (Hok' & Hp' & Hd').
  { subst s'. destruct (g_paging_enabled s3); [split_and!; [by apply log_hw_ok|done|done]|done]. }
  rewrite Hw. split_and!; [done|done|done|]. intros _ x Hx.
  rewrite !walk_spec, Hp', Hpte3, Hd' by done. 
  replace ((dir_index x =? dir_index v) && (tbl_index x =? tbl_index v)) with (x / 4096 =? v / 4096);
    [by destruct (x / 4096 =? v / 4096)|].
  apply eq_true_iff_eq. zbool. symmetry. by apply same_page.
Qed.

(** ** Initialisation *)

(** Arrays of the declared sizes holding 32-bit words: what [init] needs. *)
Record vmm_shape (s : vmm) : Prop := {
  sh_dir : length (g_kernel_page_directory s) = 1024%nat;
  sh_tables : length (g_page_tables s) = 64%nat;
  sh_table : Forall (λ t, length t = 1024%nat) (g_page_tables s);
  sh_tfd : length (g_table_for_dir s) = 1024%nat;
  sh_ptes : ∀ t i, 0 <= t → 0 <= i < 1024 → 0 <= zget (zget (g_page_tables s) t) i < 4294967296;
}.

Lemma init_reset_ok s :
  vmm_shape s →
  vmm_ok (init_reset page_directory_addr s) ∧
  ∀ d, 0 <= d < 1024 →
    zget (g_table_for_dir (init_reset page_directory_addr s)) d = invalid_table_index.
Proof using Type.
  intros []. assert (∀ d, 0 <= d < 1024 →
    zget (g_table_for_dir (init_reset page_directory_addr s)) d = invalid_table_index) as H.
  { intros d Hd. apply zget_fmap_const. lia. }
  split; [|done]. split; try done.
  - cbn. by rewrite length_fmap.
  - cbn. by rewrite length_fmap.
  - intros d Hd. left. rewrite H by done. split; [done|]. apply zget_fmap_const. lia.
  - intros d e Hd He _ Hne. by rewrite H in Hne.
Qed.

(** Loop invariant of [init]: everything below [i] is mapped to itself. *)
Record identity_below (i : Z) (s : vmm) : Prop := {
  ib_ok : vmm_ok s;
  ib_use : g_tables_in_use s = (i + 4194303) / 4194304;
  ib_tfd : ∀ d, 0 <= d < 1024 →
    zget (g_table_for_dir s) d = if d * 4194304 <? i then d else invalid_table_index;
  ib_dir : ∀ d, 0 <= d < 1024 → d * 4194304 < i →
    zget (g_kernel_page_directory s) d = table_addr page_tables_addr d + page_flags true false;
  ib_pte : ∀ x, 0 <= x < 4294967296 → pte_of s x = if x <? i then mk_pte x true false else 0;
}.

Lemma identity_below_step i s :
  0 <= i < 67108864 → i mod 4096 = 0 → identity_below i s →
  identity_below (i + 4096) (map_page page_tables_addr s i i true false).2.
Proof using tables_aligned tables_range.
  intros Hi Hmod [Hok Huse Htfd Hdir Hpte].
  pose proof (map_page_effect s i i true false Hok ltac:(lia) ltac:(lia)) as He.
  destruct (map_page page_tables_addr s i i true false) as [ok s']. destruct He as [Hok' He].
  pose proof (dir_index_spec i ltac:(lia)) as [Hdv Hdr]. rewrite Hdv in He.
  rewrite Htfd in He by done. set (d := i / 4194304) in *.
  assert (d * 4194304 <= i < d * 4194304 + 4194304) as Hd.
  { subst d. pose proof (Z.div_mod i 4194304). pose proof (Z.mod_pos_bound i 4194304). lia. }
  assert (i + 4096 <= d * 4194304 + 4194304) as Hd'.
  { pose proof (Z.div_mod i 4096). lia. }
  assert (∀ k, (if d * 4194304 <? i then d else invalid_table_index) =? invalid_table_index = k →
    k = (i =? d * 4194304)) as Hfresh.
  { intros k <-. unfold invalid_table_index. destruct (d * 4194304 <? i) eqn:E, (i =? d * 4194304) eqn:E2;
      zbool; try lia; try done. }
  rewrite (Hfresh _ eq_refl) in He.
  assert (g_tables_in_use s = if i =? d * 4194304 then d else d + 1) as Huse'.
  { rewrite Huse. destruct (i =? d * 4194304) eqn:E; zbool; symmetry;
      [apply (Z.div_unique _ _ _ 4194303)|apply (Z.div_unique _ _ _ (i - d * 4194304 - 1))]; lia. }
  destruct ok; [|exfalso; unfold kMaxTables in He; destruct (i =? d * 4194304); lia].
  destruct He as (Hu2 & Ht2 & Hd2 & Hp2). cbn [snd]. split; [done| | | |].
  - rewrite Hu2, Huse'. destruct (i =? d * 4194304) eqn:E; zbool;
      [apply (Z.div_unique _ _ _ 4095)|apply (Z.div_unique _ _ _ (i - d * 4194304 + 4095))]; lia.
  - intros e He. rewrite Ht2, Htfd, Huse' by lia.
    destruct (i =? d * 4194304) eqn:E, (e =? d) eqn:E2, (e * 4194304 <? i) eqn:E3,
      (e * 4194304 <? i + 4096) eqn:E4; cbn [andb]; zbool; lia.
  - intros e He Hlt. rewrite Hd2, Huse' by lia.
    destruct (i =? d * 4194304) eqn:E, (e =? d) eqn:E2; cbn [andb]; zbool; try (by rewrite E2);
      apply Hdir; lia.
  - intros x Hx. rewrite Hp2, Hpte by done. pose proof (Z.div_mod i 4096).
    pose proof (Z.div_mod x 4096). pose proof (Z.mod_pos_bound x 4096).
    destruct (x / 4096 =? i / 4096) eqn:E; zbool.
    + rewrite (proj2 (Z.ltb_lt x (i + 4096))) by lia. unfold mk_pte. by rewrite E.
    + destruct (x <? i) eqn:E2, (x <? i + 4096) eqn:E3; zbool; lia || done.
Qed.

Lemma init_identity_below s :
  vmm_shape s → identity_below 67108864 (init page_tables_addr page_directory_addr s).
Proof using tables_aligned tables_range.
  intros Hs. destruct (init_reset_ok s Hs) as [Hok Ht].
  destruct (for_up_inv 0 67108864 4096 (λ addr s, (map_page page_tables_addr s addr addr true false).2)
    identity_below (init_reset page_directory_addr s)) as (i & H1 & H2 & H3 & H4); [lia| | |].
  - split; [done|done| | |].
    + intros d Hd. rewrite Ht by done. case_bool; [zbool; lia|done].
    + lia.
    + intros x Hx. pose proof (dir_index_spec x Hx) as [Hdv Hdr]. rewrite <- Hdv in Hdr.
      unfold pte_of. rewrite Ht, Z.eqb_refl by done. case_bool; [zbool; lia|done].
  - intros i s' Hi Hm HP. rewrite Z.sub_0_r in Hm. by apply identity_below_step.
  - assert (i = 67108864) as -> by (rewrite Z.sub_0_r in H3; pose proof (Z.div_mod i 4096);
      specialize (H2 ltac:(lia)); lia). done.
Qed.

(** [vmm::init] leaves the kernel directory mapping exactly the first
    64 MiB, each page to itself, writable and not accessible from user mode;
    every higher address faults.  It uses sixteen of the 64 page tables. *)
Lemma vmm_init_identity s :
  vmm_shape s →
  let s' := init page_tables_addr page_directory_addr s in
  vmm_ok s' ∧ g_tables_in_use s' = 16 ∧
  ∀ v, 0 <= v < 4294967296 →
    walk s' v = if v <? 64 * 1024 * 1024
                then Some {| tr_phys := v; tr_write := true; tr_user := false |} else None.
Proof using tables_aligned tables_range.
  intros Hs s'. destruct (init_identity_below s Hs) as [Hok Huse Htfd Hdir Hpte]. fold s' in Hok, Huse, Htfd, Hdir, Hpte. clearbody s'.
  split_and!; [done|done|]. intros v Hv. change (64 * 1024 * 1024) with 67108864.
  specialize (Hpte v Hv). pose proof (dir_index_spec v Hv) as [Hdv Hdr].
  destruct (v <? 67108864) eqn:E; zbool.
  - pose proof (Z.div_mod v 4194304). pose proof (Z.mod_pos_bound v 4194304).
    rewrite (walk_new_pte s' v v true false), Hdir by (done || lia). rewrite !pde_bits by lia.
    pose proof (page_flags_spec true false) as (_ & _ & -> & ->).
    pose proof (Z.div_mod v 4096). do 2 f_equal. lia.
  - by rewrite walk_spec, Hpte by done.
Qed.

(** The access asked of [map_page] is not always the access given: in a
    directory slot that already has a table the directory entry keeps the
    flags of the slot's first mapping.  After [init], a page below 64 MiB
    mapped with [user] set is reported as mapped but stays inaccessible from
    user mode. *)
Lemma map_page_user_denied s v p w :
  vmm_shape s → 0 <= v < 64 * 1024 * 1024 → 0 <= p < 4294967296 →
  let '(ok, s') := map_page page_tables_addr (init page_tables_addr page_directory_addr s) v p w true in
  ok = true ∧
  walk s' v = Some {| tr_phys := p / 4096 * 4096 + v mod 4096; tr_write := w; tr_user := false |}.
Proof using tables_aligned tables_range.
  intros Hs Hv Hp. destruct (init_identity_below s Hs) as [Hok Huse Htfd Hdir Hpte].
  set (s0 := init _ _ s) in *. clearbody s0. pose proof (dir_index_spec v ltac:(lia)) as [Hdv Hdr].
  pose proof (map_page_effect s0 v p w true Hok ltac:(lia) Hp) as He.
  assert (v / 4194304 * 4194304 < 67108864) as Hlt
    by (pose proof (Z.div_mod v 4194304); pose proof (Z.mod_pos_bound v 4194304); lia).
  destruct (map_page page_tables_addr s0 v p w true) as [ok s']. destruct He as [Hok' He].
  rewrite Hdv, Htfd, (proj2 (Z.ltb_lt _ _) Hlt) in He by done.
  rewrite (proj2 (Z.eqb_neq (v / 4194304) invalid_table_index)) in He
    by (unfold invalid_table_index; lia).
  destruct ok; [|by destruct He as (_ & ? & _)]. destruct He as (_ & _ & Hd2 & Hp2).
  split; [done|]. specialize (Hp2 v ltac:(lia)). rewrite Z.eqb_refl in Hp2.
  rewrite (walk_new_pte s' v p w true), Hdv, Hd2, andb_false_r, Hdir by (done || lia).
  rewrite !pde_bits by lia. pose proof (page_flags_spec true false) as (_ & _ & -> & ->). done.
Qed.
End vmm_proofs.

(** ** Witnesses: a kernel whose page tables start at 2 MiB *)

Lemma vmm_boot_shape c : vmm_shape (vmm_boot c).
Proof.
  split; try (cbn [vmm_boot g_kernel_page_directory g_page_tables g_table_for_dir];
              by rewrite length_replicate).
  - apply Forall_replicate. by rewrite length_replicate.
  - intros t i Ht Hi. cbn [vmm_boot g_page_tables]. unfold zget.
    destruct (decide (t < 64)).
    + rewrite lookup_total_replicate_2 by lia. rewrite lookup_total_replicate_2 by lia. lia.
    + rewrite (list_lookup_total_alt (replicate 64 _)), lookup_ge_None_2
        by (rewrite length_replicate; lia). vm_compute. done.
Qed.

Definition reset_vmm : vmm := init_reset 3145728 (vmm_boot 17).

Lemma reset_vmm_ok : vmm_ok 2097152 reset_vmm.
Proof. apply init_reset_ok, vmm_boot_shape. Qed.

Lemma virt_to_phys_is_walk_witness :
  virt_to_phys reset_vmm 4096 = from_option tr_phys 0 (mmu_walk 2097152 reset_vmm (g_kernel_page_directory reset_vmm) 4096).
Proof.
  exact (virt_to_phys_is_walk 2097152 eq_refl ltac:(lia) reset_vmm 4096 reset_vmm_ok ltac:(lia)).
Defined.

Lemma map_page_spec_witness :
  let '(ok, s') := map_page 2097152 reset_vmm 3221225472 8192 true true in
  ok = true ∧ mmu_walk 2097152 s' (g_kernel_page_directory s') 3221225475
              = Some {| tr_phys := 8195; tr_write := true; tr_user := true |}.
Proof.
  pose proof (map_page_spec 2097152 eq_refl ltac:(lia) reset_vmm 3221225472 8192 true true
    reset_vmm_ok ltac:(lia) ltac:(lia)) as H.
  destruct (map_page 2097152 reset_vmm 3221225472 8192 true true) as [ok s'].
  destruct H as (_ & Hok & _ & H). assert (ok = true) as E by (rewrite Hok; vm_compute; reflexivity).
  split; [exact E|]. rewrite (H E 3221225475 ltac:(lia)). vm_compute. reflexivity.
Defined.

Lemma unmap_page_spec_witness :
  let '(ok, s') := unmap_page reset_vmm 4096 in ok = false ∧ s' = reset_vmm.
Proof.
  pose proof (unmap_page_spec 2097152 eq_refl ltac:(lia) reset_vmm 4096 reset_vmm_ok ltac:(lia)) as H.
  destruct (unmap_page reset_vmm 4096) as [ok s']. destruct H as (_ & Hok & H & _).
  assert (ok = false) as E by (rewrite Hok; vm_compute; reflexivity). split; [exact E|exact (H E)].
Defined.

Lemma vmm_init_identity_witness :
  mmu_walk 2097152 (init 2097152 3145728 (vmm_boot 17))
    (g_kernel_page_directory (init 2097152 3145728 (vmm_boot 17))) 753664
  = Some {| tr_phys := 753664; tr_write := true; tr_user := false |}.
Proof.
  exact (proj2 (proj2 (vmm_init_identity 2097152 3145728 eq_refl ltac:(lia) (vmm_boot 17)
    (vmm_boot_shape 17))) 753664 ltac:(lia)).
Defined.

Lemma map_page_user_denied_witness :
  let '(ok, s') := map_page 2097152 (init 2097152 3145728 (vmm_boot 17)) 4194304 8388608 true true in
  ok = true ∧ mmu_walk 2097152 s' (g_kernel_page_directory s') 4194304
              = Some {| tr_phys := 8388608 / 4096 * 4096 + 4194304 mod 4096; tr_write := true; tr_user := false |}.
Proof.
  exact (map_page_user_denied 2097152 3145728 eq_refl ltac:(lia) (vmm_boot 17) 4194304 8388608 true
    (vmm_boot_shape 17) ltac:(lia) ltac:(lia)).
Defined.
