(* ===== verification/Paging.v ===== *)
(** * What the heap asks of the frame allocator and of the page mapper

    [kernel/mm/heap.cpp] grows by taking frames from [pmm] and mapping them
    with [vmm].  Its theorems are proved against the two classes of this file;
    the physical and the virtual memory managers are their instances. *)

From S2P Require Import Prelude Pmm Vmm.

Class FrameAllocator (P : Type) := {
  frame_alloc : P → Z * P;
  frame_free : P → Z → P;
}.

Class PageMapper (V : Type) := {
  page_map : V → Z → Z → bool → bool → bool * V;
}.

(** Frames are numbered by address / 4096; an allocation returns the address
    of a frame it removes from the free set, or 0. *)
Class FrameAllocatorLaws (P : Type) `{FrameAllocator P} := {
  frames_ok : P → Prop;
  frames_free : P → gset Z;
  frame_alloc_law : ∀ p, frames_ok p →
    let '(r, p') := frame_alloc p in
    frames_ok p' ∧
    (r = 0 ∧ frames_free p' = frames_free p ∖ {[0]} ∨
     0 < r < 4294967296 ∧ r mod 4096 = 0 ∧ r / 4096 ∈ frames_free p ∧
     frames_free p' = frames_free p ∖ {[r / 4096]});
  frame_free_law : ∀ p f, frames_ok p → 0 < f < 4294967296 → f mod 4096 = 0 →
    frames_ok (frame_free p f) ∧ frames_free (frame_free p f) = frames_free p ∪ {[f / 4096]};
}.

(** A successful call maps one page to the frame; a failing one changes nothing. *)
Class PageMapperLaws (V : Type) `{PageMapper V} := {
  pages_ok : V → Prop;
  page_frame : V → Z → option Z;
  page_map_law : ∀ v a f w u, pages_ok v → 0 <= a < 4294967296 → 0 <= f < 4294967296 →
    let '(ok, v') := page_map v a f w u in
    pages_ok v' ∧ (ok = false → v' = v) ∧
    (ok = true → ∀ x, 0 <= x < 4294967296 →
       page_frame v' x = if x / 4096 =? a / 4096 then Some (f / 4096) else page_frame v x);
}.

#[export] Instance pmm_allocator : FrameAllocator pmm :=
  {| frame_alloc := alloc_frame; frame_free := free_frame |}.

#[export] Program Instance pmm_allocator_laws : FrameAllocatorLaws pmm :=
  {| frames_ok := pmm_ok; frames_free := free_set |}.
Next Obligation.
  intros p Hok. cbn [frame_alloc pmm_allocator].
  destruct (alloc_frame_spec p Hok) as [[He ->]|(f & Hf & Hmin & ->)].
  { split; [done|]. left. rewrite He. set_solver. }
  pose proof Hf as [Hr _]%elem_of_free_set. split; [by apply set_bit_ok|].
  destruct (decide (f = 0)) as [->|]; [left; split; [done|by apply set_bit_free_set]|right]. unfold kMaxFrames in *.
  rewrite Z.mod_mul, Z.div_mul by lia. split_and!; [lia|lia|done|done|].
  by apply set_bit_free_set.
Qed.
Next Obligation.
  intros p f Hok Hf Hm. cbn [frame_free pmm_allocator].
  assert (f = f / 4096 * 4096) as E by (pose proof (Z.div_mod f 4096); lia).
  rewrite E at 1 2. apply free_frame_spec; [done|]. unfold kMaxFrames.
  split; [apply Z.div_pos; lia|apply Z.div_lt_upper_bound; lia].
Qed.

(** The virtual memory manager, its page tables linked at a given address. *)
Section vmm_mapper.
Context (page_tables_addr : Z).
Hypothesis tables_aligned : page_tables_addr mod 4096 = 0.
Hypothesis tables_range : 0 <= page_tables_addr ∧ page_tables_addr + 64 * 4096 <= 4294967296.

Definition vmm_mapper : PageMapper vmm := {| page_map := map_page page_tables_addr |}.

Lemma pte_frame p x : 0 <= x < 4096 → (p / 4096 * 4096 + x) / 4096 = p / 4096.
Proof. intros. symmetry. apply Z.div_unique with x; lia. Qed.

#[local] Existing Instance vmm_mapper.

Program Definition vmm_mapper_laws : PageMapperLaws vmm :=
  {| pages_ok := vmm_ok page_tables_addr;
     page_frame s x := (λ t, tr_phys t / 4096) <$> mmu_walk page_tables_addr s (g_kernel_page_directory s) x |}.
Next Obligation.
  intros s a f w u Hok Ha Hf. cbn [page_map vmm_mapper].
  pose proof (map_page_effect page_tables_addr tables_aligned tables_range s a f w u Hok Ha Hf) as He.
  destruct (map_page page_tables_addr s a f w u) as [ok s']. destruct He as [Hok' He].
  split; [done|]. destruct ok; [|by destruct He as [-> _]].
  destruct He as (_ & _ & _ & Hp). split; [done|]. intros _ x Hx. specialize (Hp x Hx).
  destruct (x / 4096 =? a / 4096).
  - rewrite (walk_new_pte page_tables_addr tables_aligned tables_range s' x f w u) by done.
    cbn [fmap option_fmap option_map tr_phys]. f_equal. apply pte_frame, Z.mod_pos_bound. lia.
  - rewrite !walk_spec, Hp by done. by destruct (Z.testbit (pte_of s x) 0).
Qed.
End vmm_mapper.
