(* ===== verification/Heap.v ===== *)
(** * Kernel heap ([kernel/mm/heap.cpp])

    Blocks carved from a growing range of mapped pages, each behind a 16-byte
    header, with released blocks on an address-ordered free list that lives in
    the free memory itself.  The list is modelled where it is: nodes are words
    of byte memory, a pointer is an address and 0 is [nullptr]. *)

From S2P Require Import Prelude Memory Paging.

Definition kPageSize : Z := 4096.
Definition kHeapHeaderMagic : Z := 1464357445.
Definition sizeof_HeapHeader : Z := 16.
Definition sizeof_FreeBlock : Z := 8.

Definition align_up (value alignment : Z) : Z :=
  let alignment := if alignment =? 0 then 1 else alignment in
  Z.land (u32 (value + alignment - 1)) (u32 (Z.lnot (alignment - 1))).

(** Fields of a [FreeBlock] at address [b]. *)
Definition fb_size (m : memory) (b : Z) : Z := load32 m b.
Definition fb_next (m : memory) (b : Z) : Z := load32 m (b + 4).
Definition set_fb_size (m : memory) (b v : Z) : memory := store32 m b v.
Definition set_fb_next (m : memory) (b v : Z) : memory := store32 m (b + 4) v.

(** The search loop of [insert_free_block]; [None] is out of fuel. *)
Fixpoint seek (fuel : nat) (m : memory) (start prev curr : Z) : option (Z * Z) :=
  match fuel with
  | O => None
  | S fuel =>
      if negb (curr =? 0) && (curr <? start) then seek fuel m start curr (fb_next m curr)
      else Some (prev, curr)
  end.

(** Linking the new node and merging it with its neighbours. *)
Definition link_node (fl : Z) (m : memory) (start prev curr : Z) : Z * memory :=
  let node := start in
  let m := set_fb_next m node curr in
  let '(fl, m) := if prev =? 0 then (node, m) else (fl, set_fb_next m prev node) in
  let '(node, m) :=
    if negb (prev =? 0) && (prev +u fb_size m prev =? start) then
      let m := set_fb_size m prev (fb_size m prev +u fb_size m node) in
      (prev, set_fb_next m prev (fb_next m node))
    else (node, m) in
  let curr := fb_next m node in
  let m :=
    if negb (curr =? 0) && (node +u fb_size m node =? curr) then
      let m := set_fb_size m node (fb_size m node +u fb_size m curr) in
      set_fb_next m node (fb_next m curr)
    else m in
  (fl, m).

(** [insert_free_block] on the list head and memory. *)
Definition insert_free_block (fuel : nat) (fl : Z) (m : memory) (start size : Z)
    : option (Z * memory) :=
  if size <? sizeof_FreeBlock then Some (fl, m)
  else
    let m := set_fb_size m start size in
    let m := set_fb_next m start 0 in
    '(prev, curr) ← seek fuel m start 0 fl;
    Some (link_node fl m start prev curr).

Record placement := {
  pl_header : Z;
  pl_payload : Z;
  pl_end : Z;
  pl_prefix : Z;
  pl_suffix : Z;
}.

(** Body of the search in [allocate_from_free_list]: where an allocation goes
    in the free block [start, end_); [None] is [continue]. *)
Definition place (start end_ size alignment : Z) : option placement :=
  let header := align_up (start +u sizeof_HeapHeader) alignment in
  let header := if header <? start then start else header in
  let payload := align_up (header +u sizeof_HeapHeader) alignment in
  let '(header, payload) :=
    if payload <? header +u sizeof_HeapHeader then
      let payload := align_up (start +u sizeof_HeapHeader) alignment in
      (payload -u sizeof_HeapHeader, payload)
    else (header, payload) in
  if header <? start then None
  else
    let alloc_end := payload +u size in
    if end_ <? alloc_end then None
    else
      let prefix_size := header -u start in
      let suffix_size := end_ -u alloc_end in
      let fin (header payload alloc_end prefix_size suffix_size : Z) :=
        let '(alloc_end, suffix_size) :=
          if (0 <? suffix_size) && (suffix_size <? sizeof_FreeBlock) then (end_, 0)
          else (alloc_end, suffix_size) in
        Some {| pl_header := header; pl_payload := payload; pl_end := alloc_end;
                pl_prefix := prefix_size; pl_suffix := suffix_size |} in
      if (0 <? prefix_size) && (prefix_size <? sizeof_FreeBlock) then
        let header := start in
        let payload := align_up (header +u sizeof_HeapHeader) alignment in
        let alloc_end := payload +u size in
        if end_ <? alloc_end then None
        else fin header payload alloc_end 0 (end_ -u alloc_end)
      else fin header payload alloc_end prefix_size suffix_size.

Definition write_header (m : memory) (header alloc_end size : Z) : memory :=
  let m := store32 m header header in
  let m := store32 m (header + 4) (alloc_end -u header) in
  let m := store32 m (header + 8) size in
  store32 m (header + 12) kHeapHeaderMagic.

(** Unlinking the block and giving back what the allocation leaves over. *)
Definition take_block (fuel : nat) (fl : Z) (m : memory) (prev curr size : Z) (pl : placement)
    : option (Z * memory) :=
  let start := curr in
  let '(fl, m) := if prev =? 0 then (fb_next m curr, m)
                  else (fl, set_fb_next m prev (fb_next m curr)) in
  '(fl, m) ← (if sizeof_FreeBlock <=? pl_prefix pl
              then insert_free_block fuel fl m start (pl_prefix pl) else Some (fl, m));
  '(fl, m) ← (if sizeof_FreeBlock <=? pl_suffix pl
              then insert_free_block fuel fl m (pl_end pl) (pl_suffix pl) else Some (fl, m));
  Some (fl, write_header m (pl_header pl) (pl_end pl) size).

(** The search of [allocate_from_free_list]: outer [None] is out of fuel,
    inner [None] is [nullptr]. *)
Fixpoint scan (fuel : nat) (fuel0 : nat) (fl : Z) (m : memory) (prev curr size alignment : Z)
    : option (option (Z * Z * memory)) :=
  match fuel with
  | O => None
  | S fuel =>
      if curr =? 0 then Some None
      else
        match place curr (curr +u fb_size m curr) size alignment with
        | None => scan fuel fuel0 fl m curr (fb_next m curr) size alignment
        | Some pl =>
            '(fl, m) ← take_block fuel0 fl m prev curr size pl;
            Some (Some (pl_payload pl, fl, m))
        end
  end.

Section heap.
Context {P V : Type} `{FrameAllocator P} `{PageMapper V}.

Record heap := mk_heap {
  g_heap_start : Z;
  g_heap_limit : Z;
  g_heap_break : Z;
  g_heap_mapped_end : Z;
  g_free_list : Z;
  g_heap_active_bytes : Z;
  heap_mem : memory;
  heap_frames : P;
  heap_pages : V;
}.

Definition map_next_heap_page (h : heap) : bool * heap :=
  if g_heap_limit h <=? g_heap_mapped_end h then (false, h)
  else
    let '(frame, p) := frame_alloc (heap_frames h) in
    let with_state (mapped_end : Z) (p : P) (v : V) : heap :=
      {| g_heap_start := g_heap_start h; g_heap_limit := g_heap_limit h;
         g_heap_break := g_heap_break h; g_heap_mapped_end := mapped_end;
         g_free_list := g_free_list h; g_heap_active_bytes := g_heap_active_bytes h;
         heap_mem := heap_mem h; heap_frames := p; heap_pages := v |} in
    if frame =? 0 then (false, with_state (g_heap_mapped_end h) p (heap_pages h))
    else
      let '(ok, v) := page_map (heap_pages h) (g_heap_mapped_end h) frame true false in
      if ok then (true, with_state (g_heap_mapped_end h +u kPageSize) p v)
      else (false, with_state (g_heap_mapped_end h) (frame_free p frame) v).

(** [while (g_heap_mapped_end < alloc_end)]; outer [None] is out of fuel. *)
Fixpoint map_until (fuel : nat) (h : heap) (alloc_end : Z) : option (bool * heap) :=
  match fuel with
  | O => None
  | S fuel =>
      if g_heap_mapped_end h <? alloc_end then
        let '(ok, h) := map_next_heap_page h in
        if ok then map_until fuel h alloc_end else Some (false, h)
      else Some (true, h)
  end.

Definition allocate_from_free_list (fuel : nat) (h : heap) (size alignment : Z)
    : option (Z * heap) :=
  r ← scan fuel fuel (g_free_list h) (heap_mem h) 0 (g_free_list h) size alignment;
  match r with
  | None => Some (0, h)
  | Some (payload, fl, m) =>
      Some (payload,
        {| g_heap_start := g_heap_start h; g_heap_limit := g_heap_limit h;
           g_heap_break := g_heap_break h; g_heap_mapped_end := g_heap_mapped_end h;
           g_free_list := fl; g_heap_active_bytes := g_heap_active_bytes h +u size;
           heap_mem := m; heap_frames := heap_frames h; heap_pages := heap_pages h |})
  end.

(** Where [allocate_from_bump] puts the header and the payload. *)
Definition bump_place (brk alignment : Z) : Z * Z :=
  let header := align_up (brk +u sizeof_HeapHeader) alignment in
  let header := if header <? brk then brk else header in
  let payload := align_up (header +u sizeof_HeapHeader) alignment in
  if payload <? header +u sizeof_HeapHeader then
    let payload := align_up (brk +u sizeof_HeapHeader) alignment in
    (payload -u sizeof_HeapHeader, payload)
  else (header, payload).

Definition allocate_from_bump (fuel : nat) (h : heap) (size alignment : Z) : option (Z * heap) :=
  let '(header, payload) := bump_place (g_heap_break h) alignment in
  let alloc_end := payload +u size in
  if (alloc_end <? payload) || (g_heap_limit h <? alloc_end) then Some (0, h)
  else
    '(ok, h) ← map_until fuel h alloc_end;
    if negb ok : bool then Some (0, h)
    else
      Some (payload,
        {| g_heap_start := g_heap_start h; g_heap_limit := g_heap_limit h;
           g_heap_break := alloc_end; g_heap_mapped_end := g_heap_mapped_end h;
           g_free_list := g_free_list h; g_heap_active_bytes := g_heap_active_bytes h +u size;
           heap_mem := write_header (heap_mem h) header alloc_end size;
           heap_frames := heap_frames h; heap_pages := heap_pages h |}).

Definition init (h : heap) (heap_start heap_limit : Z) : heap :=
  let start := align_up heap_start kPageSize in
  let limit := align_up heap_limit kPageSize in
  let limit := if limit <=? start then start else limit in
  {| g_heap_start := start; g_heap_limit := limit; g_heap_break := start;
     g_heap_mapped_end := start; g_free_list := 0; g_heap_active_bytes := 0;
     heap_mem := heap_mem h; heap_frames := heap_frames h; heap_pages := heap_pages h |}.

Definition alloc (fuel : nat) (h : heap) (size alignment : Z) : option (Z * heap) :=
  if size =? 0 then Some (0, h)
  else
    let alignment := if alignment =? 0 then 1 else alignment in
    '(ptr, h) ← allocate_from_free_list fuel h size alignment;
    if negb (ptr =? 0) : bool then Some (ptr, h) else allocate_from_bump fuel h size alignment.

Definition free (fuel : nat) (h : heap) (ptr : Z) : option heap :=
  if ptr =? 0 then Some h
  else
    let header := ptr -u sizeof_HeapHeader in
    let m := heap_mem h in
    if negb (load32 m (header + 12) =? kHeapHeaderMagic) then Some h
    else
      let payload_size := load32 m (header + 8) in
      let active := if payload_size <=? g_heap_active_bytes h
                    then g_heap_active_bytes h -u payload_size else 0 in
      let m := store32 m (header + 12) 0 in
      '(fl, m) ← insert_free_block fuel (g_free_list h) m (load32 m header) (load32 m (header + 4));
      Some {| g_heap_start := g_heap_start h; g_heap_limit := g_heap_limit h;
              g_heap_break := g_heap_break h; g_heap_mapped_end := g_heap_mapped_end h;
              g_free_list := fl; g_heap_active_bytes := active;
              heap_mem := m; heap_frames := heap_frames h; heap_pages := heap_pages h |}.

(** [operator new] and [operator delete] in their array and sized forms. *)
Definition operator_new (fuel : nat) (h : heap) (size : Z) : option (Z * heap) := alloc fuel h size 16.
Definition operator_delete (fuel : nat) (h : heap) (ptr : Z) : option heap := free fuel h ptr.

Definition mapped_bytes (h : heap) : Z := g_heap_mapped_end h -u g_heap_start h.
Definition used_bytes (h : heap) : Z := g_heap_active_bytes h.
End heap.
Arguments heap : clear implicits.

(** ** The free list as a sequence of blocks *)

(** [lseg m p l q]: following [next] from [p] visits the blocks [l] and ends at [q]. *)
Fixpoint lseg (m : memory) (p : Z) (l : list (Z * Z)) (q : Z) : Prop :=
  match l with
  | [] => p = q
  | (s, n) :: r => p = s ∧ fb_size m s = n ∧ lseg m (fb_next m s) r q
  end.

(** Blocks in address order inside [lo, hi), at least [gap] bytes apart: with
    gap 0 they are disjoint, with gap 1 no two are adjacent. *)
Fixpoint blocks_ok (gap lo hi : Z) (l : list (Z * Z)) : Prop :=
  match l with
  | [] => True
  | (s, n) :: r => lo <= s ∧ 8 <= n ∧ s + n <= hi ∧ blocks_ok gap (s + n + gap) hi r
  end.

Fixpoint covers (l : list (Z * Z)) (a : Z) : Prop :=
  match l with
  | [] => False
  | (s, n) :: r => s <= a < s + n ∨ covers r a
  end.

Lemma covers_app l1 l2 a : covers (l1 ++ l2) a ↔ covers l1 a ∨ covers l2 a.
Proof. induction l1 as [|[s n] l1 IH]; simpl; [naive_solver|]. rewrite IH. naive_solver. Qed.

Lemma blocks_ok_range gap lo hi l a :
  0 <= gap → blocks_ok gap lo hi l → covers l a → lo <= a < hi.
Proof.
  intros Hg. revert lo. induction l as [|[s n] l IH]; intros lo; simpl; [done|].
  intros (? & ? & ? & Hl) [?|Hc]; [lia|]. specialize (IH _ Hl Hc). lia.
Qed.

Lemma blocks_ok_weaken gap lo lo' hi hi' l :
  lo' <= lo → hi <= hi' → blocks_ok gap lo hi l → blocks_ok gap lo' hi' l.
Proof.
  intros Hl Hh. revert lo lo' Hl. induction l as [|[s n] l IH]; intros lo lo' Hl; simpl; [done|].
  intros (? & ? & ? & H). split_and!; [lia|lia|lia|]. eapply IH; [|done]. lia.
Qed.

Lemma blocks_ok_gap gap gap' lo hi l :
  gap' <= gap → blocks_ok gap lo hi l → blocks_ok gap' lo hi l.
Proof.
  intros Hg. revert lo. induction l as [|[s n] l IH]; intros lo; simpl; [done|].
  intros (? & ? & ? & H). split_and!; [lia..|]. apply IH.
  eapply blocks_ok_weaken; [| |done]; lia.
Qed.

Lemma blocks_ok_cons_app gap lo hi l1 s n l2 :
  0 <= gap →
  blocks_ok gap lo hi (l1 ++ (s, n) :: l2) ↔
  blocks_ok gap lo (s - gap) l1 ∧ lo <= s ∧ 8 <= n ∧ s + n <= hi ∧
  blocks_ok gap (s + n + gap) hi l2.
Proof.
  intros Hg. revert lo. induction l1 as [|[s1 n1] l1 IH]; intros lo; simpl; [naive_solver|].
  rewrite IH. split.
  - intros (? & ? & ? & ? & ? & ? & ? & ?). split_and!; try done; lia.
  - intros ((? & ? & ? & ?) & ? & ? & ? & ?). split_and!; try done; lia.
Qed.

Lemma lseg_app m p l1 l2 q :
  lseg m p (l1 ++ l2) q ↔ ∃ r, lseg m p l1 r ∧ lseg m r l2 q.
Proof.
  revert p. induction l1 as [|[s n] l1 IH]; intros p; simpl; [naive_solver|].
  rewrite IH. naive_solver.
Qed.

Lemma lseg_cons m p s n l q :
  lseg m p ((s, n) :: l) q ↔ p = s ∧ fb_size m s = n ∧ lseg m (fb_next m s) l q.
Proof. done. Qed.

Lemma fb_size_ext m m' s :
  (∀ a, s <= a < s + 8 → load8 m' a = load8 m a) → fb_size m' s = fb_size m s.
Proof. intros H. apply load_le_ext. intros. apply H. lia. Qed.

Lemma fb_next_ext m m' s :
  (∀ a, s <= a < s + 8 → load8 m' a = load8 m a) → fb_next m' s = fb_next m s.
Proof. intros H. apply load_le_ext. intros. apply H. lia. Qed.

(** Memory outside the blocks does not matter to the list. *)
Lemma lseg_frame gap lo hi m m' p l q :
  0 <= gap → blocks_ok gap lo hi l →
  (∀ a, covers l a → load8 m' a = load8 m a) → lseg m p l q → lseg m' p l q.
Proof.
  intros Hg. revert lo p. induction l as [|[s n] l IH]; intros lo p; simpl; [done|].
  intros (? & ? & ? & Hl) Hext (-> & Hn & Hseg).
  rewrite (fb_size_ext m m'), (fb_next_ext m m') by (intros; apply Hext; lia).
  split_and!; [done|done|]. eapply IH; [done| |done]. auto.
Qed.

Lemma load8_set_fb_size m b v a : a < b ∨ b + 4 <= a → load8 (set_fb_size m b v) a = load8 m a.
Proof. apply load8_store32_ne. Qed.

Lemma load8_set_fb_next m b v a :
  a < b + 4 ∨ b + 8 <= a → load8 (set_fb_next m b v) a = load8 m a.
Proof. intros. apply load8_store32_ne. lia. Qed.

Lemma fb_size_set_size m b v : fb_size (set_fb_size m b v) b = u32 v.
Proof. apply load32_store32_eq. Qed.
Lemma fb_next_set_next m b v : fb_next (set_fb_next m b v) b = u32 v.
Proof. apply load32_store32_eq. Qed.
Lemma fb_size_set_next m b v : fb_size (set_fb_next m b v) b = fb_size m b.
Proof. apply load32_store32_ne. lia. Qed.
Lemma fb_next_set_size m b v : fb_next (set_fb_size m b v) b = fb_next m b.
Proof. apply load32_store32_ne. lia. Qed.

(** Overwriting a node's fields only disturbs that node. *)
Lemma lseg_set_next_other gap lo hi m p l q b v :
  0 <= gap → blocks_ok gap lo hi l → (∀ a, b <= a < b + 8 → ¬ covers l a) →
  lseg m p l q → lseg (set_fb_next m b v) p l q.
Proof.
  intros Hg Hok Hd. apply (lseg_frame gap lo hi); [done..|]. intros a Ha.
  apply load8_set_fb_next. destruct (decide (b <= a < b + 8)); [|lia]. by destruct (Hd a).
Qed.

Lemma lseg_set_size_other gap lo hi m p l q b v :
  0 <= gap → blocks_ok gap lo hi l → (∀ a, b <= a < b + 8 → ¬ covers l a) →
  lseg m p l q → lseg (set_fb_size m b v) p l q.
Proof.
  intros Hg Hok Hd. apply (lseg_frame gap lo hi); [done..|]. intros a Ha.
  apply load8_set_fb_size. destruct (decide (b <= a < b + 8)); [|lia]. by destruct (Hd a).
Qed.

(** The starts of the last block of a prefix and the first of a suffix. *)
Definition last_start (l : list (Z * Z)) : Z := from_option fst 0 (last l).
Definition head_start (l : list (Z * Z)) : Z := from_option fst 0 (head l).

Lemma lseg_head m p l : lseg m p l 0 → p = head_start l.
Proof. destruct l as [|[s n] l]; simpl; [done|]. by intros [-> _]. Qed.

Lemma seek_spec m start l : ∀ fuel p prev lo hi,
  0 < lo → blocks_ok 0 lo hi l → lseg m p l 0 → (length l < fuel)%nat →
  ∃ l1 l2, l = l1 ++ l2 ∧
    seek fuel m start prev p = Some (from_option fst prev (last l1), head_start l2) ∧
    Forall (λ b, b.1 < start) l1 ∧ (head_start l2 = 0 ∨ start <= head_start l2).
Proof.
  induction l as [|[s n] l IH]; intros fuel p prev lo hi Hlo Hok Hseg Hf;
    (destruct fuel as [|fuel]; [simpl in Hf; lia|]); cbn [seek].
  - simpl in Hseg. subst p. exists [], []. by auto.
  - simpl in Hok, Hseg, Hf. destruct Hok as (H1 & H2 & H3 & Hok). destruct Hseg as (-> & Hn & Hseg).
    rewrite (proj2 (Z.eqb_neq s 0)) by lia. destruct (s <? start) eqn:E; zbool; cbn [negb andb].
    + destruct (IH fuel (fb_next m s) s (s + n + 0) hi) as (l1 & l2 & -> & Hs & HF & Hh);
        [lia|done|done|lia|].
      exists ((s, n) :: l1), l2. split; [done|]. split; [|by auto].
      rewrite Hs. f_equal. f_equal. destruct l1 as [|b l1]; [done|].
      rewrite last_cons_cons. by destruct (last (b :: l1)) eqn:El; [|apply last_None in El].
    + exists [], ((s, n) :: l). by auto.
Qed.

(** Absorbing the successor [y] of a node [x] it is adjacent to. *)
Definition merge (m : memory) (x y : Z) : memory :=
  let m := set_fb_size m x (fb_size m x +u fb_size m y) in
  set_fb_next m x (fb_next m y).

Lemma merge_spec lo hi m p k1 x xn y yn k2 :
  0 < lo → hi < 4294967296 →
  blocks_ok 0 lo hi (k1 ++ (x, xn) :: (y, yn) :: k2) →
  lseg m p (k1 ++ (x, xn) :: (y, yn) :: k2) 0 → x + xn = y →
  lseg (merge m x y) p (k1 ++ (x, xn + yn) :: k2) 0 ∧
  (∀ a, a < x ∨ x + 8 <= a → load8 (merge m x y) a = load8 m a).
Proof.
  intros Hlo Hhi Hok Hseg Hadj.
  apply blocks_ok_cons_app in Hok as (Hk1 & Hx & Hxn & Hxe & Hok2); [|done].
  cbn [blocks_ok] in Hok2. destruct Hok2 as (Hy & Hyn & Hye & Hk2).
  assert (∀ a, a < x ∨ x + 8 <= a → load8 (merge m x y) a = load8 m a) as Hfr.
  { intros a Ha. unfold merge. rewrite load8_set_fb_next, load8_set_fb_size by lia. done. }
  split; [|done].
  apply lseg_app in Hseg as (r & H1 & H2). cbn [lseg] in H2.
  destruct H2 as (-> & Hsx & Hny & Hsy & Hrest). apply lseg_app. exists x. split.
  { eapply (lseg_frame 0); [done|exact Hk1| |exact H1]. intros a Ha. apply Hfr.
    pose proof (blocks_ok_range _ _ _ _ _ ltac:(done) Hk1 Ha). lia. }
  cbn [lseg]. split_and!; [done| |].
  - unfold merge. rewrite fb_size_set_next, fb_size_set_size, Hsx, Hsy.
    rewrite (u32_small (xn + yn)), u32_small by (rewrite ?u32_small; lia). lia.
  - replace (fb_next (merge m x y) x) with (fb_next m y).
    + eapply (lseg_frame 0); [done|exact Hk2| |exact Hrest]. intros a Ha. apply Hfr.
      pose proof (blocks_ok_range _ _ _ _ _ ltac:(done) Hk2 Ha). lia.
    + unfold merge. rewrite fb_next_set_next.
      rewrite (fb_next_ext m (set_fb_size m x _)) by (intros; apply load8_set_fb_size; lia).
      symmetry. apply u32_small, load32_range.
Qed.

(** Linking a filled node between a prefix and a suffix of the list. *)
Definition link_between (fl : Z) (m : memory) (start prev curr : Z) : Z * memory :=
  let m := set_fb_next m start curr in
  if prev =? 0 then (start, m) else (fl, set_fb_next m prev start).

Lemma link_between_spec lo hi fl m l1 s n l2 :
  0 < lo → hi < 4294967296 →
  blocks_ok 0 lo hi (l1 ++ (s, n) :: l2) → lseg m fl (l1 ++ l2) 0 → fb_size m s = n →
  let '(fl', m') := link_between fl m s (last_start l1) (head_start l2) in
  lseg m' fl' (l1 ++ (s, n) :: l2) 0 ∧
  ∀ a, ¬ covers (l1 ++ (s, n) :: l2) a → load8 m' a = load8 m a.
Proof.
  intros Hlo Hhi Hok Hseg Hn. pose proof Hok as Hok'.
  apply blocks_ok_cons_app in Hok' as (Hk1 & Hs & Hn8 & Hse & Hk2); [|done].
  apply lseg_app in Hseg as (r & H1 & H2). pose proof (lseg_head _ _ _ H2) as ->.
  assert (0 <= head_start l2 < 4294967296) as Hr.
  { destruct l2 as [|[s2 n2] l2]; cbn; [lia|]. simpl in Hk2. lia. }
  assert (∀ a, s <= a < s + 8 → ¬ covers l2 a) as Hd2.
  { intros a Ha Hc. pose proof (blocks_ok_range _ _ _ _ _ ltac:(done) Hk2 Hc). lia. }
  assert (∀ a, s <= a < s + 8 → ¬ covers l1 a) as Hd1.
  { intros a Ha Hc. pose proof (blocks_ok_range _ _ _ _ _ ltac:(done) Hk1 Hc). lia. }
  unfold link_between, last_start.
  assert (lseg (set_fb_next m s (head_start l2)) s ((s, n) :: l2) 0) as Hnode.
  { cbn [lseg]. split_and!; [done|by rewrite fb_size_set_next|].
    rewrite fb_next_set_next, u32_small by lia. eapply lseg_set_next_other; done. }
  destruct l1 as [|[ps pn] l1' _] using rev_ind.
  - cbn. split; [done|]. intros a Ha. apply load8_set_fb_next.
    destruct (decide (s <= a < s + n)); [by destruct Ha; left|lia].
  - rewrite last_snoc. cbn [from_option fst].
    apply blocks_ok_cons_app in Hk1 as (Hk1 & Hp & Hpn & Hpe & _); [|done].
    rewrite (proj2 (Z.eqb_neq ps 0)) by lia. split.
    + rewrite <- app_assoc in *. apply lseg_app in H1 as (r & H1 & H3). cbn [lseg] in H3.
      destruct H3 as (-> & Hpsz & Hpnx). rewrite lseg_app. exists ps.
      assert (∀ x, ¬ covers l1' x ∨ x < ps) as Hd3.
      { intros x. destruct (decide (x < ps)); [by right|left]. intros Hc.
        pose proof (blocks_ok_range _ _ _ _ _ ltac:(done) Hk1 Hc). lia. }
      split.
      { eapply (lseg_frame 0); [done|exact Hk1| |exact H1]. intros a Ha.
        destruct (Hd3 a) as [?|?]; [done|]. rewrite !load8_set_fb_next by lia. done. }
      cbn [app]. rewrite lseg_cons. split; [done|]. split.
      { rewrite fb_size_set_next. rewrite (fb_size_ext m); [done|].
        intros. apply load8_set_fb_next. lia. }
      rewrite fb_next_set_next, (u32_small s) by lia.
      apply (lseg_set_next_other 0 s hi); [done| | |done]; cbn [blocks_ok covers].
      * split_and!; [lia..|done].
      * intros a Ha [?|Hc]; [lia|].
        pose proof (blocks_ok_range _ _ _ _ _ ltac:(done) Hk2 Hc). lia.
    + intros a Ha. rewrite !covers_app in Ha. cbn [covers] in Ha.
      rewrite !load8_set_fb_next by lia. done.
Qed.

Lemma link_node_steps fl m start prev curr :
  link_node fl m start prev curr =
  let '(fl, m) := link_between fl m start prev curr in
  let '(node, m) :=
    if negb (prev =? 0) && (prev +u fb_size m prev =? start) then (prev, merge m prev start)
    else (start, m) in
  let curr := fb_next m node in
  (fl, if negb (curr =? 0) && (node +u fb_size m node =? curr) then merge m node curr else m).
Proof. unfold link_node, link_between. by destruct (prev =? 0). Qed.

(** A block placed between two runs of the list, once ordered against them. *)
Lemma insert_ordered lo hi l1 l2 s n :
  blocks_ok 1 lo hi (l1 ++ l2) → lo <= s → 8 <= n → s + n <= hi →
  Forall (λ b, b.1 < s) l1 → (head_start l2 = 0 ∨ s <= head_start l2) → 0 < lo →
  (∀ a, s <= a < s + n → ¬ covers (l1 ++ l2) a) →
  blocks_ok 1 lo s l1 ∧ blocks_ok 1 (s + n) hi l2.
Proof.
  intros Hok Hs Hn Hse HF Hh Hlo Hd. split.
  - clear Hh. revert lo Hlo Hok Hs HF Hd. induction l1 as [|[s1 n1] l1 IH];
      intros lo Hlo Hok Hs HF Hd; [done|]. cbn [app blocks_ok] in *.
    destruct Hok as (H1 & H2 & H3 & Hok). inversion HF as [|? ? Hlt HF']; subst. cbn in Hlt.
    assert (s1 + n1 <= s).
    { destruct (decide (s1 + n1 <= s)); [done|]. destruct (Hd s); [lia|left; lia]. }
    split_and!; [lia..|]. destruct l1 as [|[s2 n2] l1]; [done|].
    apply IH; [lia|done| |done|].
    + cbn [app blocks_ok] in Hok. inversion HF' as [|? ? Hlt' ?]; subst. cbn in Hlt'. lia.
    + intros a Ha Hc. apply (Hd a Ha). by right.
  - destruct l2 as [|[s2 n2] l2]; [done|]. apply blocks_ok_cons_app in Hok as (_ & H1 & H2 & H3 & H4); [|lia].
    cbn in Hh. cbn [blocks_ok]. split_and!; [|lia|lia|done].
    destruct (decide (s + n <= s2)); [done|]. destruct (Hd s2); [lia|].
    rewrite covers_app. right. left. lia.
Qed.

Lemma blocks_ok_between lo hi l1 l2 s n :
  blocks_ok 1 lo s l1 → blocks_ok 1 (s + n) hi l2 → lo <= s → 8 <= n → s + n <= hi →
  blocks_ok 0 lo hi (l1 ++ (s, n) :: l2).
Proof.
  intros H1 H2 Hs Hn Hse. apply blocks_ok_cons_app; [done|]. split_and!; [|lia..|].
  - apply (blocks_ok_gap 1); [lia|]. eapply blocks_ok_weaken; [| |exact H1]; lia.
  - apply (blocks_ok_gap 1); [lia|]. eapply blocks_ok_weaken; [| |exact H2]; lia.
Qed.

(** Merging the new node into its predecessor when they touch. *)
Lemma merge_prev lo hi fl m l1 s n l2 :
  0 < lo → hi < 4294967296 → blocks_ok 1 lo s l1 → blocks_ok 1 (s + n) hi l2 →
  lo <= s → 8 <= n → s + n <= hi → lseg m fl (l1 ++ (s, n) :: l2) 0 →
  let prev := last_start l1 in
  let '(node, m') :=
    if negb (prev =? 0) && (prev +u fb_size m prev =? s) then (prev, merge m prev s) else (s, m) in
  ∃ k1 xn, lseg m' fl (k1 ++ (node, xn) :: l2) 0 ∧
    blocks_ok 1 lo (node - 1) k1 ∧ lo <= node ∧ 8 <= xn ∧ node + xn = s + n ∧
    (length k1 <= length l1)%nat ∧
    (∀ a, covers k1 a ∨ node <= a < node + xn ↔ covers l1 a ∨ s <= a < s + n) ∧
    (∀ a, ¬ covers (l1 ++ (s, n) :: l2) a → load8 m' a = load8 m a).
Proof.
  intros Hlo Hhi H1 H2 Hs Hn Hse Hseg. pose proof (blocks_ok_between _ _ _ _ _ _ H1 H2 Hs Hn Hse) as Hok.
  unfold last_start. destruct l1 as [|[ps pn] l1' _] using rev_ind.
  - cbn. exists [], n. split_and!; try done; lia.
  - rewrite last_snoc. cbn [from_option fst]. rewrite <- app_assoc in *. cbn [app] in *.
    apply blocks_ok_cons_app in H1 as (H1 & Hp & Hpn & Hpe & _); [|lia].
    rewrite (proj2 (Z.eqb_neq ps 0)) by lia.
    assert (fb_size m ps = pn) as ->.
    { apply lseg_app in Hseg as (r & _ & Hseg). by apply lseg_cons in Hseg as (_ & ? & _). }
    rewrite u32_small by lia. cbn [negb andb]. destruct (ps + pn =? s) eqn:E; zbool.
    + destruct (merge_spec lo hi m fl l1' ps pn s n l2) as [Hseg' Hfr]; [done..|].
      exists l1', (pn + n). split_and!; try done; try lia.
      * rewrite length_app. lia.
      * intros a. rewrite covers_app. cbn [covers].
        assert (ps <= a < ps + (pn + n) ↔ ps <= a < ps + pn ∨ s <= a < s + n) by lia. tauto.
      * intros a Ha. apply Hfr. rewrite covers_app in Ha. cbn [covers] in Ha. lia.
    + exists (l1' ++ [(ps, pn)]), n. rewrite <- app_assoc. split_and!; try done; try lia.
      apply blocks_ok_cons_app; [lia|]. split_and!; try done; lia.
Qed.

(** Merging a node with its successor when they touch. *)
Lemma merge_next lo hi fl m k1 x xn l2 :
  0 < lo → hi < 4294967296 → blocks_ok 1 lo (x - 1) k1 → blocks_ok 1 (x + xn) hi l2 →
  lo <= x → 8 <= xn → x + xn <= hi → lseg m fl (k1 ++ (x, xn) :: l2) 0 →
  let curr := fb_next m x in
  let m' := if negb (curr =? 0) && (x +u fb_size m x =? curr) then merge m x curr else m in
  ∃ l', lseg m' fl l' 0 ∧ blocks_ok 1 lo hi l' ∧ (length l' <= length k1 + S (length l2))%nat ∧
    (∀ a, covers l' a ↔ covers (k1 ++ (x, xn) :: l2) a) ∧
    (∀ a, ¬ covers l' a → load8 m' a = load8 m a).
Proof.
  intros Hlo Hhi H1 H2 Hx Hxn Hxe Hseg.
  pose proof Hseg as Hseg0. apply lseg_app in Hseg0 as (r & _ & Hseg0).
  apply lseg_cons in Hseg0 as (_ & Hsz & Hnext). pose proof (lseg_head _ _ _ Hnext) as Hc.
  cbv zeta. rewrite Hsz, Hc, u32_small by lia. destruct l2 as [|[cs cn] l2].
  - exists (k1 ++ [(x, xn)]). cbn. split_and!; [done| |rewrite length_app; simpl; lia|done|done].
    apply blocks_ok_cons_app; [lia|]. split_and!; try done; lia.
  - cbn [head_start head from_option fst blocks_ok] in *. destruct H2 as (Hcs & Hcn & Hce & H2).
    rewrite (proj2 (Z.eqb_neq cs 0)) by lia. cbn [negb andb]. destruct (x + xn =? cs) eqn:E; zbool.
    + destruct (merge_spec lo hi m fl k1 x xn cs cn l2) as [Hseg' Hfr]; [done|done| |done|done|].
      { apply blocks_ok_between; [|cbn [blocks_ok]; split_and!; [lia..|done]|lia..].
        eapply blocks_ok_weaken; [| |exact H1]; lia. }
      exists (k1 ++ (x, xn + cn) :: l2). split_and!; [done| |rewrite length_app; simpl; lia| |].
      * apply blocks_ok_cons_app; [lia|]. split_and!; try done; try lia.
        eapply blocks_ok_weaken; [| |exact H2]; lia.
      * intros a. rewrite !covers_app. cbn [covers].
        assert (x <= a < x + (xn + cn) ↔ x <= a < x + xn ∨ cs <= a < cs + cn) by lia. tauto.
      * intros a Ha. apply Hfr. rewrite covers_app in Ha. cbn [covers] in Ha. lia.
    + exists (k1 ++ (x, xn) :: (cs, cn) :: l2). split_and!; [done| |rewrite length_app; simpl; lia|done|done].
      apply blocks_ok_cons_app; [lia|]. cbn [blocks_ok]. split_and!; try done; lia.
Qed.

(** [insert_free_block] adds the block to the free space; what it returns is
    the unique address-ordered list without adjacent blocks of that space. *)
Lemma insert_free_block_spec fuel lo hi fl m l s n :
  0 < lo → hi < 4294967296 → blocks_ok 1 lo hi l → lseg m fl l 0 → (length l < fuel)%nat →
  lo <= s → 8 <= n → s + n <= hi → (∀ a, s <= a < s + n → ¬ covers l a) →
  ∃ fl' m' l', insert_free_block fuel fl m s n = Some (fl', m') ∧
    lseg m' fl' l' 0 ∧ blocks_ok 1 lo hi l' ∧ (length l' <= S (length l))%nat ∧
    (∀ a, covers l' a ↔ covers l a ∨ s <= a < s + n) ∧
    (∀ a, ¬ covers l' a → load8 m' a = load8 m a).
Proof.
  intros Hlo Hhi Hok Hseg Hf Hs Hn Hse Hd. unfold insert_free_block, sizeof_FreeBlock.
  rewrite (proj2 (Z.ltb_ge n 8)) by lia. set (m1 := set_fb_next (set_fb_size m s n) s 0).
  assert (∀ a, a < s ∨ s + 8 <= a → load8 m1 a = load8 m a) as Hm1.
  { intros a Ha. subst m1. rewrite load8_set_fb_next, load8_set_fb_size by lia. done. }
  assert (lseg m1 fl l 0) as Hseg1.
  { eapply (lseg_frame 1); [lia|exact Hok| |exact Hseg]. intros a Ha. apply Hm1.
    destruct (decide (s <= a < s + n)) as [Hin|]; [by destruct (Hd a Hin)|lia]. }
  assert (fb_size m1 s = n) as Hsz.
  { subst m1. rewrite fb_size_set_next, fb_size_set_size. apply u32_small. lia. }
  destruct (seek_spec m1 s l fuel fl 0 lo hi) as (l1 & l2 & -> & -> & HF & Hh); [done| |done|done|].
  { apply (blocks_ok_gap 1); [lia|done]. }
  destruct (insert_ordered lo hi l1 l2 s n) as [H1 H2]; [done..|].
  pose proof (blocks_ok_between _ _ _ _ _ _ H1 H2 Hs Hn Hse) as Hok0. cbn [mbind option_bind].
  pose proof (link_between_spec lo hi fl m1 l1 s n l2 Hlo Hhi Hok0 Hseg1 Hsz) as Hl.
  rewrite link_node_steps. fold (last_start l1).
  destruct (link_between fl m1 s (last_start l1) (head_start l2)) as [fl2 m2]. destruct Hl as [Hseg2 Hfr2].
  pose proof (merge_prev lo hi fl2 m2 l1 s n l2 Hlo Hhi H1 H2 Hs Hn Hse Hseg2) as Hm.
  cbv zeta in Hm. destruct (if negb _ && _ then _ else _) as [x m3].
  destruct Hm as (k1 & xn & Hseg3 & Hk1 & Hx & Hxn & Hxe & Hlen & Hcov & Hfr3).
  destruct (merge_next lo hi fl2 m3 k1 x xn l2) as (l' & Hseg4 & Hok4 & Hlen4 & Hcov4 & Hfr4);
    [done|done|done|by rewrite Hxe|done|done|lia|done|].
  eexists _, _, l'. split; [done|]. rewrite length_app. split_and!; [done|done|lia| |].
  - intros a. specialize (Hcov a). rewrite Hcov4, !covers_app. cbn [covers]. tauto.
  - intros a Ha. rewrite Hfr4 by done. rewrite Hcov4, covers_app in Ha. cbn [covers] in Ha.
    specialize (Hcov a). assert (¬ covers (l1 ++ (s, n) :: l2) a) as Ha'.
    { rewrite covers_app. cbn [covers]. tauto. }
    rewrite Hfr3, Hfr2 by done. apply Hm1. rewrite covers_app in Ha'. cbn [covers] in Ha'. lia.
Qed.

(** ** Alignment and placement *)

Definition pow2_alignment (al : Z) : Prop := ∃ k, 0 <= k < 32 ∧ al = 2 ^ k.

Lemma pow2_alignment_pos al : pow2_alignment al → 0 < al < 4294967296.
Proof.
  intros (k & Hk & ->). split; [apply Z.pow_pos_nonneg; lia|].
  change 4294967296 with (2 ^ 32). apply Z.pow_lt_mono_r; lia.
Qed.

Lemma heap_align_up_spec v al :
  pow2_alignment al → 0 <= v → v + al <= 4294967296 →
  v <= align_up v al < v + al ∧ align_up v al mod al = 0.
Proof.
  intros Hal Hv Hb. pose proof (pow2_alignment_pos al Hal) as Hpos. unfold align_up.
  rewrite (proj2 (Z.eqb_neq al 0)) by lia. rewrite u32_small by lia.
  rewrite land_u32_l by lia. destruct Hal as (k & Hk & ->).
  rewrite land_lnot_pow2 by lia. pose proof (Z.mod_pos_bound (v + 2 ^ k - 1) (2 ^ k) ltac:(lia)).
  pose proof (Z.div_mod (v + 2 ^ k - 1) (2 ^ k) ltac:(lia)).
  split; [lia|]. apply Z.mod_divide; [lia|]. exists ((v + 2 ^ k - 1) / 2 ^ k). lia.
Qed.

Lemma align_up_id v al :
  pow2_alignment al → 0 <= v → v + al <= 4294967296 → v mod al = 0 → align_up v al = v.
Proof.
  intros Hal Hv Hb Hm. destruct (heap_align_up_spec v al Hal Hv Hb) as [H1 H2].
  pose proof (pow2_alignment_pos al Hal).
  apply Z.mod_divide in Hm as [x Hx]; [|lia]. apply Z.mod_divide in H2 as [y Hy]; [|lia].
  assert (y = x) by nia. lia.
Qed.

(** The least multiple of [al] from [v] on. *)
Definition next_multiple (v al : Z) : Z := (v + al - 1) / al * al.

Lemma align_up_next v al :
  pow2_alignment al → 0 <= v → v + al <= 4294967296 → align_up v al = next_multiple v al.
Proof.
  intros Hal Hv Hb. destruct (heap_align_up_spec v al Hal Hv Hb) as [H1 H2]. pose proof (pow2_alignment_pos al Hal).
  unfold next_multiple. pose proof (Z.div_mod (v + al - 1) al). pose proof (Z.mod_pos_bound (v + al - 1) al).
  apply Z.mod_divide in H2 as [y Hy]; [|lia]. assert (y = (v + al - 1) / al) by nia. lia.
Qed.

(** Header and payload of an allocation from address [a] on: a header of 16
    bytes is kept free in front of the aligned header, and the payload is the
    next aligned address behind it. *)
Definition header_at (a al : Z) : Z := next_multiple (a + 16) al.
Definition payload_at (a al : Z) : Z := next_multiple (header_at a al + 16) al.

Lemma payload_at_spec a al :
  pow2_alignment al → 0 <= a → a + 2 * al + 32 < 4294967296 →
  a + 16 <= header_at a al < a + 16 + al ∧
  header_at a al + 16 <= payload_at a al < header_at a al + 16 + al ∧
  payload_at a al mod al = 0 ∧
  (16 mod al = 0 → payload_at a al = header_at a al + 16) ∧ header_at a al mod al = 0.
Proof.
  intros Hal Ha Hb. pose proof (pow2_alignment_pos al Hal).
  destruct (heap_align_up_spec (a + 16) al) as [H1 H2]; [done|lia|lia|]. rewrite align_up_next in H1, H2 by (done || lia).
  fold (header_at a al) in *.
  destruct (heap_align_up_spec (header_at a al + 16) al) as [H3 H4]; [done|lia|lia|]. rewrite align_up_next in H3, H4 by (done || lia).
  fold (payload_at a al) in *. split_and!; try lia.
  intros H16. unfold payload_at. rewrite <- align_up_next by (done || lia). apply align_up_id; [done|lia|lia|].
  rewrite Zplus_mod, H2, H16. apply Z.mod_0_l. lia.
Qed.

(** Without wrap-around the corrective branches are not taken. *)
Lemma bump_place_spec a al :
  pow2_alignment al → 0 <= a → a + 2 * al + 32 < 4294967296 →
  bump_place a al = (header_at a al, payload_at a al).
Proof.
  intros Hal Ha Hb. destruct (payload_at_spec a al) as (H1 & H2 & _); [done..|].
  pose proof (pow2_alignment_pos al Hal). unfold bump_place, sizeof_HeapHeader.
  rewrite (u32_small (a + 16)), (align_up_next (a + 16)) by (done || lia). fold (header_at a al).
  rewrite (proj2 (Z.ltb_ge (header_at a al) a)) by lia.
  rewrite (u32_small (header_at a al + 16)), (align_up_next (header_at a al + 16)) by (done || lia).
  fold (payload_at a al). rewrite (proj2 (Z.ltb_ge (payload_at a al) _)) by lia. done.
Qed.

Definition fits (size al : Z) (b : Z * Z) : Prop := payload_at b.1 al + size <= b.1 + b.2.

Lemma place_spec start e size al :
  pow2_alignment al → 0 < start <= e → 0 <= size → e + 2 * al + 32 + size < 4294967296 →
  match place start e size al with
  | None => e < payload_at start al + size
  | Some pl =>
      pl_header pl = header_at start al ∧ pl_payload pl = payload_at start al ∧
      payload_at start al + size <= pl_end pl <= e ∧
      pl_prefix pl = pl_header pl - start ∧ 8 <= pl_prefix pl ∧
      pl_suffix pl = e - pl_end pl ∧ (pl_suffix pl = 0 ∨ 8 <= pl_suffix pl)
  end.
Proof.
  intros Hal Hs Hsz Hb. destruct (payload_at_spec start al) as (H1 & H2 & _); [done|lia|lia|].
  pose proof (pow2_alignment_pos al Hal). unfold place, sizeof_HeapHeader, sizeof_FreeBlock.
  rewrite (u32_small (start + 16)), (align_up_next (start + 16)) by (done || lia). fold (header_at start al).
  rewrite (proj2 (Z.ltb_ge (header_at start al) start)) by lia.
  rewrite (u32_small (header_at start al + 16)), (align_up_next (header_at start al + 16)) by (done || lia). fold (payload_at start al).
  rewrite (proj2 (Z.ltb_ge (payload_at start al) _)) by lia.
  rewrite (proj2 (Z.ltb_ge (header_at start al) start)) by lia.
  rewrite (u32_small (payload_at start al + size)) by lia.
  destruct (e <? payload_at start al + size) eqn:E; zbool; [done|].
  rewrite (u32_small (header_at start al - start)) by lia.
  rewrite (u32_small (e - (payload_at start al + size))) by lia.
  rewrite (proj2 (Z.ltb_ge (header_at start al - start) 8)), andb_false_r by lia.
  destruct ((0 <? e - (payload_at start al + size)) && (e - (payload_at start al + size) <? 8)) eqn:E2;
    cbn [pl_header pl_payload pl_end pl_prefix pl_suffix]; zbool; split_and!; try lia.
Qed.

(** A block released with exactly the room of its allocation cannot serve the
    next request of the same size: the search keeps at least 16 bytes in front
    of the new header. *)
Theorem freed_block_not_reused header size al :
  pow2_alignment al → 0 < header → 0 <= size → header + 2 * al + 48 + 2 * size < 4294967296 →
  place header (header + 16 + size) size al = None.
Proof.
  intros Hal Hh Hs Hb. pose proof (pow2_alignment_pos al Hal).
  pose proof (place_spec header (header + 16 + size) size al Hal ltac:(lia) Hs ltac:(lia)) as Hp.
  destruct (place _ _ _ _) as [pl|]; [|done].
  destruct (payload_at_spec header al) as (H1 & H2 & _); [done|lia|lia|]. lia.
Qed.

(** ** Taking a block off the list *)

Lemma unlink_spec lo hi fl m k1 c n k2 :
  0 < lo → hi < 4294967296 → blocks_ok 1 lo hi (k1 ++ (c, n) :: k2) →
  lseg m fl (k1 ++ (c, n) :: k2) 0 →
  let '(fl', m') := if last_start k1 =? 0 then (fb_next m c, m)
                    else (fl, set_fb_next m (last_start k1) (fb_next m c)) in
  lseg m' fl' (k1 ++ k2) 0 ∧ (∀ a, ¬ covers k1 a → load8 m' a = load8 m a).
Proof.
  intros Hlo Hhi Hok Hseg. apply blocks_ok_cons_app in Hok as (Hk1 & Hc & Hn & Hce & Hk2); [|lia].
  apply lseg_app in Hseg as (r & H1 & H2). apply lseg_cons in H2 as (-> & Hsz & H2).
  unfold last_start. destruct k1 as [|[ps pn] k1 _] using rev_ind.
  { apply (conj H2). done. }
  rewrite last_snoc. cbn [from_option fst].
  apply blocks_ok_cons_app in Hk1 as (Hk1 & Hp & Hpn & Hpe & _); [|lia].
  rewrite (proj2 (Z.eqb_neq ps 0)) by lia. apply lseg_app in H1 as (r & H1 & H3).
  apply lseg_cons in H3 as (-> & Hpsz & _). split.
  - rewrite <- app_assoc. apply lseg_app. exists ps. split.
    + eapply (lseg_set_next_other 1); [lia|exact Hk1| |exact H1]. intros a Ha Hcv.
      pose proof (blocks_ok_range 1 _ _ _ _ ltac:(lia) Hk1 Hcv). lia.
    + cbn [app]. apply lseg_cons. split_and!; [done|by rewrite fb_size_set_next|].
      rewrite fb_next_set_next, u32_small by apply load32_range.
      eapply (lseg_set_next_other 1); [lia|exact Hk2| |exact H2]. intros a Ha Hcv.
      pose proof (blocks_ok_range 1 _ _ _ _ ltac:(lia) Hk2 Hcv). lia.
  - intros a Ha. apply load8_set_fb_next. rewrite covers_app in Ha. cbn [covers] in Ha. lia.
Qed.

Lemma blocks_ok_remove lo hi k1 c n k2 :
  blocks_ok 1 lo hi (k1 ++ (c, n) :: k2) →
  blocks_ok 1 lo hi (k1 ++ k2) ∧ (∀ a, c <= a < c + n → ¬ covers (k1 ++ k2) a).
Proof.
  intros Hok. pose proof Hok as Hok'. apply blocks_ok_cons_app in Hok' as (H1 & H2 & H3 & H4 & H5); [|lia].
  split.
  - clear H1 H2 H4 H5. revert lo Hok. induction k1 as [|[s1 n1] k1 IH]; intros lo Hok; cbn [app blocks_ok] in *.
    + destruct Hok as (? & ? & ? & Hok). eapply blocks_ok_weaken; [| |exact Hok]; lia.
    + destruct Hok as (? & ? & ? & Hok). auto.
  - intros a Ha. rewrite covers_app. intros [Hc|Hc].
    + pose proof (blocks_ok_range 1 _ _ _ _ ltac:(lia) H1 Hc). lia.
    + pose proof (blocks_ok_range 1 _ _ _ _ ltac:(lia) H5 Hc). lia.
Qed.

(** The header of a live block, as [free] reads it. *)
Definition header_words (m : memory) (h e size : Z) : Prop :=
  load32 m h = h ∧ load32 m (h + 4) = e - h ∧ load32 m (h + 8) = size ∧
  load32 m (h + 12) = kHeapHeaderMagic.

Lemma write_header_spec m h e size :
  0 <= h → h <= e < 4294967296 → 0 <= size < 4294967296 →
  header_words (write_header m h e size) h e size ∧
  ∀ a, a < h ∨ h + 16 <= a → load8 (write_header m h e size) a = load8 m a.
Proof.
  intros Hh He Hs. unfold write_header, header_words. split.
  - rewrite !load32_store32_eq. repeat rewrite load32_store32_ne by lia.
    rewrite !load32_store32_eq. repeat rewrite load32_store32_ne by lia.
    rewrite !load32_store32_eq. repeat rewrite load32_store32_ne by lia.
    rewrite !load32_store32_eq. rewrite !u32_small by (rewrite ?u32_small; lia).
    rewrite ?u32_small by lia. done.
  - intros a Ha. rewrite !load8_store32_ne by lia. done.
Qed.

(** What carving [h, e) out of the free blocks [l] leaves behind. *)
Record carved (lo hi : Z) (l : list (Z * Z)) (m : memory) (h payload e size al : Z)
    (fl' : Z) (m' : memory) (l' : list (Z * Z)) : Prop := {
  cv_seg : lseg m' fl' l' 0;
  cv_ok : blocks_ok 1 lo hi l';
  cv_len : (length l' <= S (length l))%nat;
  cv_in : ∀ a, h <= a < e → covers l a;
  cv_cov : ∀ a, covers l' a ↔ covers l a ∧ ¬ (h <= a < e);
  cv_payload : h + 16 <= payload ∧ payload + size <= e ∧ payload mod al = 0 ∧
               (16 mod al = 0 → payload = h + 16) ∧ h mod al = 0;
  cv_header : header_words m' h e size;
  cv_frame : ∀ a, ¬ covers l a → load8 m' a = load8 m a;
  cv_body : ∀ a, h + 16 <= a < e → load8 m' a = load8 m a;
}.

(** Giving back a remainder that may be empty. *)
Lemma give_back_spec fuel lo hi fl m l s n :
  0 < lo → hi < 4294967296 → blocks_ok 1 lo hi l → lseg m fl l 0 → (length l < fuel)%nat →
  lo <= s → n = 0 ∨ 8 <= n → s + n <= hi → (∀ a, s <= a < s + n → ¬ covers l a) →
  ∃ fl' m' l',
    (if sizeof_FreeBlock <=? n then insert_free_block fuel fl m s n else Some (fl, m)) = Some (fl', m') ∧
    lseg m' fl' l' 0 ∧ blocks_ok 1 lo hi l' ∧ (length l' <= S (length l))%nat ∧
    (∀ a, covers l' a ↔ covers l a ∨ s <= a < s + n) ∧
    (∀ a, ¬ covers l' a → load8 m' a = load8 m a).
Proof.
  intros Hlo Hhi Hok Hseg Hf Hs Hn Hse Hd. unfold sizeof_FreeBlock. destruct (8 <=? n) eqn:E; zbool.
  - by apply insert_free_block_spec.
  - exists fl, m, l. split_and!; try done; [lia|]. intros a. split; [by left|]. intros [?|?]; [done|lia].
Qed.

Lemma take_block_spec fuel lo hi fl m k1 c n k2 size al pl :
  0 < lo → pow2_alignment al → 0 <= size → hi + 2 * al + 32 + size < 4294967296 →
  blocks_ok 1 lo hi (k1 ++ (c, n) :: k2) → lseg m fl (k1 ++ (c, n) :: k2) 0 →
  (length (k1 ++ (c, n) :: k2) < fuel)%nat → place c (c + n) size al = Some pl →
  ∃ fl' m' l', take_block fuel fl m (last_start k1) c size pl = Some (fl', m') ∧
    carved lo hi (k1 ++ (c, n) :: k2) m (pl_header pl) (pl_payload pl) (pl_end pl) size al fl' m' l'.
Proof.
  intros Hlo Hal Hsz Hb Hok Hseg Hf Hpl. pose proof (pow2_alignment_pos al Hal) as Halp.
  pose proof Hok as Hok'. apply blocks_ok_cons_app in Hok' as (Hk1 & Hc & Hn & Hce & Hk2); [|lia].
  pose proof (place_spec c (c + n) size al Hal ltac:(lia) Hsz ltac:(lia)) as Hp. rewrite Hpl in Hp.
  destruct Hp as (Hh & Hpay & Hend & Hpre & Hpre8 & Hsuf & Hsuf8).
  destruct (payload_at_spec c al) as (Ha1 & Ha2 & Ha3 & Ha4 & Ha5); [done|lia|lia|]. rewrite <- Hh, <- Hpay in *.
  destruct (blocks_ok_remove lo hi k1 c n k2 Hok) as [Hok0 Hd0].
  pose proof (unlink_spec lo hi fl m k1 c n k2 Hlo ltac:(lia) Hok Hseg) as Hu. unfold take_block.
  destruct (if last_start k1 =? 0 then _ else _) as [fl0 m0]. destruct Hu as [Hseg0 Hfr0].
  rewrite length_app in Hf. cbn [length] in Hf.
  destruct (give_back_spec fuel lo hi fl0 m0 (k1 ++ k2) c (pl_prefix pl))
    as (fl1 & m1 & l1 & -> & Hseg1 & Hok1 & Hlen1 & Hcov1 & Hfr1);
    [done|lia|done|done|rewrite length_app; lia|lia|by right|lia| |].
  { intros a Ha. apply Hd0. lia. }
  cbn [mbind option_bind]. rewrite length_app in Hlen1.
  destruct (give_back_spec fuel lo hi fl1 m1 l1 (pl_end pl) (pl_suffix pl))
    as (fl2 & m2 & l2 & -> & Hseg2 & Hok2 & Hlen2 & Hcov2 & Hfr2);
    [done|lia|done|done|lia|lia|done|lia| |].
  { intros a Ha Hcv. apply Hcov1 in Hcv as [Hcv|?]; [|lia]. apply (Hd0 a); [lia|done]. }
  cbn [mbind option_bind].
  destruct (write_header_spec m2 (pl_header pl) (pl_end pl) size) as [Hw Hfr3]; [lia..|].
  assert (∀ a, covers l2 a ↔ covers (k1 ++ (c, n) :: k2) a ∧ ¬ pl_header pl <= a < pl_end pl) as Hcov.
  { intros a. rewrite Hcov2, Hcov1. specialize (Hd0 a). rewrite !covers_app in *. cbn [covers].
    destruct (decide (c <= a < c + n)) as [Hin|Hout].
    - specialize (Hd0 Hin). split; [intros [[?|?]|?]; [tauto|split; [tauto|lia]..]|].
      intros [_ ?]. destruct (decide (a < pl_header pl)); [left; right; lia|right; lia].
    - split; [intros [[?|?]|?]; [split; [tauto|lia]|lia..]|]. intros [[?|[?|?]] _]; tauto. }
  eexists _, _, l2. split; [done|]. split; try done.
  - eapply (lseg_frame 1); [lia|exact Hok2| |exact Hseg2]. intros a Ha. apply Hfr3.
    apply Hcov in Ha as [_ Ha]. lia.
  - rewrite length_app. cbn [length]. lia.
  - intros a Ha. rewrite covers_app. cbn [covers]. right. left. lia.
  - split_and!; try done; lia.
  - intros a Ha. assert (¬ c <= a < c + n ∧ ¬ covers k1 a ∧ ¬ covers l2 a ∧ ¬ covers l1 a) as (? & ? & ? & ?).
    { pose proof (Hcov a). specialize (Hcov1 a). specialize (Hcov2 a).
      rewrite !covers_app in *. cbn [covers] in *. split_and!; tauto. }
    rewrite Hfr3, Hfr2, Hfr1, Hfr0 by (done || lia). done.
  - intros a Ha. assert (¬ covers k1 a ∧ ¬ covers l2 a ∧ ¬ covers l1 a) as (? & ? & ?).
    { pose proof (Hd0 a ltac:(lia)) as Hn0. rewrite Hcov, Hcov1.
      split_and!; [rewrite covers_app in Hn0; tauto|intros [_ ?]; lia|intros [?|?]; [done|lia]]. }
    rewrite Hfr3, Hfr2, Hfr1, Hfr0 by (done || lia). done.
Qed.

Lemma scan_spec fuel0 lo hi fl m size al :
  0 < lo → pow2_alignment al → 0 <= size → hi + 2 * al + 32 + size < 4294967296 →
  ∀ k2 fuel k1, blocks_ok 1 lo hi (k1 ++ k2) → lseg m fl (k1 ++ k2) 0 →
  (length (k1 ++ k2) < fuel0)%nat → (length k2 < fuel)%nat →
  (scan fuel fuel0 fl m (last_start k1) (head_start k2) size al = Some None ∧
   Forall (λ b, ¬ fits size al b) k2) ∨
  (∃ h payload e fl' m' l',
     scan fuel fuel0 fl m (last_start k1) (head_start k2) size al = Some (Some (payload, fl', m')) ∧
     carved lo hi (k1 ++ k2) m h payload e size al fl' m' l').
Proof.
  intros Hlo Hal Hsz Hb. induction k2 as [|[c n] k2 IH]; intros fuel k1 Hok Hseg Hf0 Hf;
    (destruct fuel as [|fuel]; [simpl in Hf; lia|]).
  { left. split; [done|constructor]. }
  pose proof Hok as Hok'. apply blocks_ok_cons_app in Hok' as (Hk1 & Hc & Hn & Hce & Hk2); [|lia].
  pose proof (pow2_alignment_pos al Hal) as Halp.
  pose proof Hseg as Hs0. apply lseg_app in Hs0 as (r & _ & Hs0). apply lseg_cons in Hs0 as (_ & Hszc & Hnx).
  cbn [scan head_start head from_option fst]. rewrite (proj2 (Z.eqb_neq c 0)), Hszc, u32_small by lia.
  pose proof (place_spec c (c + n) size al Hal ltac:(lia) Hsz ltac:(lia)) as Hp.
  destruct (place c (c + n) size al) as [pl|] eqn:Hpl.
  - right. destruct (take_block_spec fuel0 lo hi fl m k1 c n k2 size al pl)
      as (fl' & m' & l' & -> & Hcv); [done..|]. cbn [mbind option_bind].
    by eexists _, _, _, _, _, _.
  - rewrite (lseg_head _ _ _ Hnx).
    assert (last_start (k1 ++ [(c, n)]) = c) as Hlast by (unfold last_start; by rewrite last_snoc).
    specialize (IH fuel (k1 ++ [(c, n)])). rewrite Hlast, <- app_assoc in IH. cbn [app] in IH.
    destruct (IH Hok Hseg Hf0) as [[-> HF]|Hr]; [simpl in Hf; lia| |by right].
    left. split; [done|]. constructor; [|done]. unfold fits. cbn [fst snd]. lia.
Qed.

(** ** Live blocks and the heap invariant *)

Record live := { lv_header : Z; lv_payload : Z; lv_end : Z; lv_size : Z }.

Definition in_live (b : live) (a : Z) : Prop := lv_header b <= a < lv_end b.
Definition live_bytes (A : list live) : Z := foldr (λ b n, lv_size b + n) 0 A.

(** Disjoint intervals of a range are together no longer than the range. *)
Definition addresses (b : live) : gset Z := list_to_set (seqZ (lv_header b) (lv_end b - lv_header b)).

Lemma elem_of_addresses b a : a ∈ addresses b ↔ in_live b a.
Proof. unfold addresses, in_live. rewrite elem_of_list_to_set, elem_of_seqZ. lia. Qed.

Definition live_disjoint (A : list live) : Prop :=
  ∀ i j b c a, A !! i = Some b → A !! j = Some c → in_live b a → in_live c a → i = j.

Lemma live_disjoint_cons b A :
  live_disjoint (b :: A) ↔
  (∀ c a, c ∈ A → in_live b a → ¬ in_live c a) ∧ live_disjoint A.
Proof.
  split.
  - intros H. split.
    + intros c a [i Hi]%list_elem_of_lookup Hb Hc. by specialize (H O (S i) b c a eq_refl Hi Hb Hc).
    + intros i j c d a Hi Hj Hc Hd. specialize (H (S i) (S j) c d a Hi Hj Hc Hd). lia.
  - intros [H1 H2] [|i] [|j] c d a Hi Hj Hc Hd; simplify_eq/=; [done| | |].
    + by destruct (H1 d a (list_elem_of_lookup_2 _ _ _ Hj) Hc).
    + by destruct (H1 c a (list_elem_of_lookup_2 _ _ _ Hi) Hd).
    + f_equal. eauto.
Qed.

Lemma live_disjoint_delete A i : live_disjoint A → live_disjoint (delete i A).
Proof.
  intros H j k b c a Hj Hk Hb Hc.
  assert (∀ j x, delete i A !! j = Some x → ∃ j', A !! j' = Some x ∧ j' = if decide (j < i)%nat then j else S j) as Hl.
  { intros j' x Hx. case_decide.
    - rewrite list_lookup_delete_lt in Hx by done. eauto.
    - rewrite list_lookup_delete_ge in Hx by lia. eauto. }
  apply Hl in Hj as (j' & Hj & Ej), Hk as (k' & Hk & Ek).
  specialize (H j' k' b c a Hj Hk Hb Hc). repeat case_decide; lia.
Qed.

Lemma live_sizes_bounded lo hi A :
  lo <= hi → live_disjoint A →
  Forall (λ b, lo <= lv_header b ∧ lv_header b <= lv_payload b ∧ 0 <= lv_size b ∧
               lv_payload b + lv_size b <= lv_end b ∧ lv_end b <= hi) A →
  0 <= live_bytes A <= hi - lo.
Proof.
  intros Hlh Hd HF.
  assert (0 <= live_bytes A <= Z.of_nat (size (⋃ (addresses <$> A))) ∧
          ∀ a, a ∈ ⋃ (addresses <$> A) → ∃ b, b ∈ A ∧ in_live b a) as [Hle Hin].
  { induction HF as [|b A Hb HF IH]; [simpl; split; [lia|set_solver]|].
    apply live_disjoint_cons in Hd as [Hd1 Hd2]. destruct (IH Hd2) as [IH1 IH2]. cbn [fmap list_fmap union_list foldr].
    split.
    - rewrite size_union.
      + cbn [live_bytes foldr]. fold (live_bytes A). unfold addresses at 1.
        rewrite size_list_to_set by apply NoDup_seqZ. rewrite length_seqZ. lia.
      + intros a Ha1 Ha2. apply elem_of_addresses in Ha1. destruct (IH2 a Ha2) as (c & Hc1 & Hc2).
        by destruct (Hd1 c a Hc1 Ha1).
    - intros a [Ha|Ha]%elem_of_union; [exists b; by rewrite elem_of_cons, <- elem_of_addresses; auto|].
      destruct (IH2 a Ha) as (c & ? & ?). exists c. by rewrite elem_of_cons; auto. }
  split; [lia|]. etrans; [apply Hle|].
  assert (⋃ (addresses <$> A) ⊆ (list_to_set (seqZ lo (hi - lo)) : gset Z)) as Hsub.
  { intros a (b & Hb & Ha)%Hin. rewrite elem_of_list_to_set, elem_of_seqZ.
    rewrite Forall_forall in HF. specialize (HF b Hb). unfold in_live in Ha. lia. }
  apply subseteq_size in Hsub. rewrite size_list_to_set in Hsub by apply NoDup_seqZ.
  rewrite length_seqZ in Hsub. lia.
Qed.

Lemma blocks_ok_length lo hi l : lo <= hi + 1 → blocks_ok 1 lo hi l → 8 * Z.of_nat (length l) <= hi + 1 - lo.
Proof.
  revert lo. induction l as [|[s n] l IH]; intros lo Hlo; simpl; [lia|].
  intros (? & ? & ? & H). specialize (IH (s + n + 1) ltac:(lia) H). lia.
Qed.

Section heap_proofs.
Context {P V : Type} `{FrameAllocatorLaws P} `{PageMapperLaws V}.
Implicit Types h : heap P V.

Definition live_ok (m : memory) (lo hi : Z) (b : live) : Prop :=
  lo <= lv_header b ∧ lv_header b + 16 <= lv_payload b ∧ 0 < lv_size b ∧
  lv_payload b + lv_size b <= lv_end b ∧ lv_end b <= hi ∧
  header_words m (lv_header b) (lv_end b) (lv_size b).

(** [heap_ok h l A]: the free list holds the blocks [l], the live allocations
    are [A]; they are disjoint, inside the part of the heap handed out so far,
    and every page up to [g_heap_mapped_end] is mapped. *)
Record heap_ok h (l : list (Z * Z)) (A : list live) : Prop := {
  hk_bounds : 0 < g_heap_start h ∧ g_heap_start h <= g_heap_break h ∧
              g_heap_break h <= g_heap_mapped_end h ∧ g_heap_mapped_end h <= g_heap_limit h ∧
              g_heap_limit h < 4294967296;
  hk_pages_aligned : g_heap_mapped_end h mod 4096 = 0 ∧ g_heap_limit h mod 4096 = 0;
  hk_list : lseg (heap_mem h) (g_free_list h) l 0;
  hk_blocks : blocks_ok 1 (g_heap_start h) (g_heap_break h) l;
  hk_live : Forall (live_ok (heap_mem h) (g_heap_start h) (g_heap_break h)) A;
  hk_sep : ∀ b a, b ∈ A → in_live b a → ¬ covers l a;
  hk_disj : live_disjoint A;
  hk_active : g_heap_active_bytes h = live_bytes A;
  hk_frames : frames_ok (heap_frames h);
  hk_pages : pages_ok (heap_pages h);
  hk_mapped : ∀ x, g_heap_start h <= x < g_heap_mapped_end h → is_Some (page_frame (heap_pages h) x);
}.

(** Enough fuel for every loop of the heap: its free blocks and its pages. *)
Definition heap_fuel h : nat := Z.to_nat ((g_heap_limit h - g_heap_start h) / 8 + 2).

Lemma heap_ok_fuel h l A : heap_ok h l A → (length l < heap_fuel h)%nat.
Proof.
  intros []. pose proof (blocks_ok_length (g_heap_start h) (g_heap_break h) l ltac:(lia) hk_blocks0). unfold heap_fuel.
  assert (Z.of_nat (length l) <= (g_heap_limit h - g_heap_start h) / 8 + 1); [|lia].
  assert ((g_heap_limit h - g_heap_start h + 8) / 8 = (g_heap_limit h - g_heap_start h) / 8 + 1) as <-.
  { replace (g_heap_limit h - g_heap_start h + 8) with (g_heap_limit h - g_heap_start h + 1 * 8) by lia.
    by rewrite Z.div_add by lia. }
  apply Z.div_le_lower_bound; lia.
Qed.

Lemma header_words_ext m m' x e size :
  (∀ a, x <= a < x + 16 → load8 m' a = load8 m a) → header_words m x e size → header_words m' x e size.
Proof using Type.
  intros Hext (W1 & W2 & W3 & W4). unfold header_words.
  assert (∀ k, 0 <= k <= 12 → load32 m' (x + k) = load32 m (x + k)) as E.
  { intros k Hk. apply load_le_ext. intros. apply Hext. lia. }
  rewrite !E by lia. specialize (E 0). rewrite Z.add_0_r in E. rewrite E by lia. done.
Qed.

Lemma live_ok_ext m m' lo hi hi' b :
  hi <= hi' → (∀ a, in_live b a → load8 m' a = load8 m a) → live_ok m lo hi b → live_ok m' lo hi' b.
Proof using Type.
  intros Hh Hext (W1 & W2 & W3 & W4 & W5 & W6). split_and!; try done; try lia.
  eapply header_words_ext; [|done]. intros a Ha. apply Hext. unfold in_live. lia.
Qed.

Lemma heap_active_bound h l A : heap_ok h l A → 0 <= live_bytes A < 4294967296.
Proof.
  intros []. pose proof (live_sizes_bounded (g_heap_start h) (g_heap_break h) A ltac:(lia) hk_disj0) as Hb.
  assert (0 <= live_bytes A <= g_heap_break h - g_heap_start h); [apply Hb|lia].
  eapply Forall_impl; [done|]. intros b (? & ? & ? & ? & ? & _). lia.
Qed.

(** *** Growing the mapped range *)

Lemma map_next_heap_page_effect h l A :
  heap_ok h l A →
  let '(ok, h') := map_next_heap_page h in
  heap_ok h' l A ∧ heap_mem h' = heap_mem h ∧ g_heap_start h' = g_heap_start h ∧
  g_heap_limit h' = g_heap_limit h ∧ g_heap_break h' = g_heap_break h ∧
  g_free_list h' = g_free_list h ∧ g_heap_active_bytes h' = g_heap_active_bytes h ∧
  g_heap_mapped_end h' = g_heap_mapped_end h + (if ok then 4096 else 0).
Proof.
  intros Hok. pose proof Hok as Hok0. destruct Hok0. unfold map_next_heap_page.
  destruct (g_heap_limit h <=? g_heap_mapped_end h) eqn:E; zbool; [rewrite Z.add_0_r; done|].
  assert (g_heap_mapped_end h + 4096 <= g_heap_limit h) as Hroom.
  { pose proof (Z.div_mod (g_heap_mapped_end h) 4096). pose proof (Z.div_mod (g_heap_limit h) 4096). lia. }
  pose proof (frame_alloc_law (heap_frames h) hk_frames0) as Hf.
  destruct (frame_alloc (heap_frames h)) as [frame p]. destruct Hf as [Hpok Hf].
  destruct (frame =? 0) eqn:Ef; zbool; [rewrite Z.add_0_r; split; [by split|done]|].
  destruct Hf as [[? _]|(Hfr & Hfm & Hfin & Hfset)]; [done|].
  pose proof (page_map_law (heap_pages h) (g_heap_mapped_end h) frame true false hk_pages0
    ltac:(lia) ltac:(lia)) as Hp.
  destruct (page_map (heap_pages h) (g_heap_mapped_end h) frame true false) as [ok v].
  destruct Hp as (Hvok & Hfail & Hsucc). destruct ok.
  - unfold kPageSize. rewrite u32_small by lia. split; [|done]. split; try done;
      cbn [g_heap_start g_heap_limit g_heap_break g_heap_mapped_end heap_pages]; [lia| |].
    + split; [|exact (proj2 hk_pages_aligned0)]. rewrite Zplus_mod, (proj1 hk_pages_aligned0). done.
    + intros x Hx. rewrite (Hsucc eq_refl) by lia. destruct (x / 4096 =? _) eqn:Ex; [done|].
      apply hk_mapped0. zbool. destruct (decide (x < g_heap_mapped_end h)); [lia|]. exfalso. apply Ex.
      symmetry. apply Z.div_unique with (x - g_heap_mapped_end h); [lia|].
      pose proof (Z.div_mod (g_heap_mapped_end h) 4096). lia.
  - destruct (frame_free_law p frame Hpok Hfr Hfm) as [Hpok' _]. rewrite (Hfail eq_refl) in *.
    rewrite Z.add_0_r. split; [by split|done].
Qed.

(** The managers cannot provide the pages from [a] up to [e]: there is no
    frame for one of them, or it cannot be mapped. *)
Inductive cannot_back (e : Z) : P → V → Z → Prop :=
  | back_no_frame p v a p' : a < e → frame_alloc p = (0, p') → cannot_back e p v a
  | back_not_mapped p v a f p' v' : a < e → frame_alloc p = (f, p') → f ≠ 0 →
      page_map v a f true false = (false, v') → cannot_back e p v a
  | back_next p v a f p' v' : a < e → frame_alloc p = (f, p') → f ≠ 0 →
      page_map v a f true false = (true, v') → cannot_back e p' v' (a + 4096) → cannot_back e p v a.

(** Why a page could not be added below the limit, and what adding one does. *)
Lemma map_next_heap_page_back h l A e :
  heap_ok h l A → g_heap_mapped_end h < e → e <= g_heap_limit h →
  let '(ok, h') := map_next_heap_page h in
  (ok = true → cannot_back e (heap_frames h') (heap_pages h') (g_heap_mapped_end h') →
     cannot_back e (heap_frames h) (heap_pages h) (g_heap_mapped_end h)) ∧
  (ok = false → cannot_back e (heap_frames h) (heap_pages h) (g_heap_mapped_end h)).
Proof.
  intros [] He Hl. unfold map_next_heap_page. rewrite (proj2 (Z.leb_gt _ _)) by lia.
  assert (g_heap_mapped_end h + 4096 <= g_heap_limit h) as Hroom.
  { pose proof (Z.div_mod (g_heap_mapped_end h) 4096). pose proof (Z.div_mod (g_heap_limit h) 4096). lia. }
  destruct (frame_alloc (heap_frames h)) as [frame p] eqn:Ef. destruct (frame =? 0) eqn:E0; zbool.
  { subst frame. split; [done|]. intros _. by eapply back_no_frame. }
  destruct (page_map (heap_pages h) (g_heap_mapped_end h) frame true false) as [[] v] eqn:Ep.
  - split; [|done]. intros _. cbn. unfold kPageSize. rewrite u32_small by lia. by eapply back_next.
  - split; [done|]. intros _. by eapply back_not_mapped.
Qed.

Lemma map_until_spec l A e : ∀ fuel h,
  heap_ok h l A → e <= g_heap_limit h →
  e - g_heap_mapped_end h <= 4096 * Z.of_nat fuel - 4096 → (0 < fuel)%nat →
  ∃ ok h', map_until fuel h e = Some (ok, h') ∧ heap_ok h' l A ∧ heap_mem h' = heap_mem h ∧
    g_heap_start h' = g_heap_start h ∧ g_heap_limit h' = g_heap_limit h ∧
    g_heap_break h' = g_heap_break h ∧ g_free_list h' = g_free_list h ∧
    g_heap_active_bytes h' = g_heap_active_bytes h ∧
    (ok = true → e <= g_heap_mapped_end h') ∧
    (ok = false → cannot_back e (heap_frames h) (heap_pages h) (g_heap_mapped_end h)).
Proof.
  induction fuel as [|fuel IH]; intros h Hok He Hf Hf0; [lia|]. cbn [map_until].
  destruct (g_heap_mapped_end h <? e) eqn:E; zbool; [|exists true, h; split_and!; done].
  pose proof (map_next_heap_page_effect h l A Hok) as Hm. pose proof (map_next_heap_page_back h l A e Hok E He) as Hback.
  destruct (map_next_heap_page h) as [ok h1]. destruct Hm as (Hok1 & E1 & E2 & E3 & E4 & E5 & E6 & E7).
  destruct Hback as [Hnext Hfail]. destruct ok; [|exists false, h1; split_and!; auto; done].
  destruct (IH h1) as (ok & h2 & -> & Hok2 & F1 & F2 & F3 & F4 & F5 & F6 & F7 & F8); [done|lia|lia|lia|].
  exists ok, h2. split_and!; [done|done|congruence..|done|auto].
Qed.

(** *** Allocation *)

Lemma live_bytes_cons b A : live_bytes (b :: A) = lv_size b + live_bytes A.
Proof using Type. done. Qed.

(** A block carved from the free list becomes live. *)
Lemma alloc_from_list_effect fuel h l A size al :
  heap_ok h l A → pow2_alignment al → 0 < size →
  g_heap_limit h + 2 * al + 32 + size < 4294967296 → (length l < fuel)%nat →
  (allocate_from_free_list fuel h size al = Some (0, h) ∧ Forall (λ b, ¬ fits size al b) l) ∨
  (∃ b h' l', allocate_from_free_list fuel h size al = Some (lv_payload b, h') ∧
     0 < lv_payload b ∧ lv_payload b mod al = 0 ∧ lv_size b = size ∧
     (16 mod al = 0 → lv_payload b = lv_header b + 16) ∧ lv_header b mod al = 0 ∧ heap_ok h' l' (b :: A) ∧
     (∀ a, lv_header b + 16 <= a < lv_end b → load8 (heap_mem h') a = load8 (heap_mem h) a) ∧
     (∀ a, ¬ covers l a → load8 (heap_mem h') a = load8 (heap_mem h) a)).
Proof.
  intros Hok Hal Hsz Hb Hf. pose proof Hok as Hok0. destruct Hok0.
  destruct (scan_spec fuel (g_heap_start h) (g_heap_break h) (g_free_list h) (heap_mem h) size al
    ltac:(lia) Hal ltac:(lia) ltac:(lia) l fuel []) as [[Hs HF]|(x & p & e & fl' & m' & l' & Hs & Hc)];
    [done..| |]; cbn [last_start last from_option] in Hs;
    rewrite <- (lseg_head _ _ _ hk_list0) in Hs; unfold allocate_from_free_list; rewrite Hs; [by left|].
  right. cbn [app] in Hc. destruct Hc. destruct cv_payload0 as (Hp1 & Hp2 & Hp3 & Hp4 & Hp5).
  assert (g_heap_start h <= x ∧ e <= g_heap_break h) as [Hx He].
  { pose proof (blocks_ok_range 1 _ _ _ _ ltac:(lia) hk_blocks0 (cv_in0 x ltac:(lia))).
    pose proof (blocks_ok_range 1 _ _ _ _ ltac:(lia) hk_blocks0 (cv_in0 (e - 1) ltac:(lia))). lia. }
  assert (live_disjoint ({| lv_header := x; lv_payload := p; lv_end := e; lv_size := size |} :: A)) as Hd.
  { apply live_disjoint_cons. split; [|done]. intros c a Hc Ha Hca.
    exact (hk_sep0 c a Hc Hca (cv_in0 a Ha)). }
  assert (Forall (live_ok m' (g_heap_start h) (g_heap_break h))
    ({| lv_header := x; lv_payload := p; lv_end := e; lv_size := size |} :: A)) as HF.
  { constructor; [by split_and!|]. rewrite Forall_forall in hk_live0 |- *. intros b Hbin.
    apply (live_ok_ext (heap_mem h) m' _ (g_heap_break h)); [done| |by apply hk_live0]. intros a Ha. by apply cv_frame0, (hk_sep0 b). }
  pose proof (live_sizes_bounded (g_heap_start h) (g_heap_break h) _ ltac:(lia) Hd) as Hsum.
  eexists {| lv_header := x; lv_payload := p; lv_end := e; lv_size := size |}, _, l'.
  split; [done|]. split_and!; try done; [cbn; lia|]. split; try done.
  - intros b a [->|Hbin]%elem_of_cons Ha Hcv; apply cv_cov0 in Hcv as [Hcv Hn]; [done|].
    by apply (hk_sep0 b a).
  - cbn [g_heap_active_bytes]. rewrite hk_active0. rewrite live_bytes_cons in *. cbn [lv_size] in *.
    assert (0 <= size + live_bytes A <= g_heap_break h - g_heap_start h);
      [apply Hsum|rewrite u32_small by lia; lia].
    eapply Forall_impl; [exact HF|]. intros b (? & ? & ? & ? & ? & _). lia.
Qed.

(** Nothing can be cut at the break: the block would pass the limit of the
    heap, or its pages cannot be provided. *)
Definition heap_full h (size al : Z) : Prop :=
  let e := payload_at (g_heap_break h) al + size in
  g_heap_limit h < e ∨ cannot_back e (heap_frames h) (heap_pages h) (g_heap_mapped_end h).

(** A block cut at the break becomes live. *)
Lemma alloc_from_bump_effect fuel h l A size al :
  heap_ok h l A → pow2_alignment al → 0 < size →
  g_heap_limit h + 2 * al + 32 + size < 4294967296 → (heap_fuel h <= fuel)%nat →
  (∃ h', allocate_from_bump fuel h size al = Some (0, h') ∧ heap_ok h' l A ∧ heap_mem h' = heap_mem h ∧ heap_full h size al) ∨
  (∃ b h', allocate_from_bump fuel h size al = Some (lv_payload b, h') ∧
     0 < lv_payload b ∧ lv_payload b mod al = 0 ∧ lv_size b = size ∧
     (16 mod al = 0 → lv_payload b = lv_header b + 16) ∧ lv_header b mod al = 0 ∧ heap_ok h' l (b :: A) ∧
     (∀ a, lv_header b + 16 <= a < lv_end b → load8 (heap_mem h') a = load8 (heap_mem h) a) ∧
     (∀ a, a < g_heap_break h → load8 (heap_mem h') a = load8 (heap_mem h) a)).
Proof.
  intros Hok Hal Hsz Hb Hf. pose proof Hok as Hok0. destruct Hok0.
  pose proof (pow2_alignment_pos al Hal). unfold allocate_from_bump.
  destruct (payload_at_spec (g_heap_break h) al) as (Ha1 & Ha2 & Ha3 & Ha4 & Ha5); [done|lia|lia|].
  rewrite bump_place_spec by (done || lia).
  set (x := header_at (g_heap_break h) al) in *. set (p := payload_at (g_heap_break h) al) in *.
  rewrite (u32_small (p + size)) by lia. rewrite (proj2 (Z.ltb_ge (p + size) p)) by lia.
  cbn [orb]. destruct (g_heap_limit h <? p + size) eqn:E; zbool; [left; exists h; by split_and!; [..|left]|].
  destruct (map_until_spec l A (p + size) fuel h Hok) as
    (ok & h1 & -> & Hok1 & E1 & E2 & E3 & E4 & E5 & E6 & E7 & E8); [lia| | |].
  { unfold heap_fuel in Hf. pose proof (Z.div_mod (g_heap_limit h - g_heap_start h) 8).
    pose proof (Z.mod_pos_bound (g_heap_limit h - g_heap_start h) 8). lia. }
  { unfold heap_fuel in Hf. pose proof (Z.div_pos (g_heap_limit h - g_heap_start h) 8). lia. }
  cbn [mbind option_bind]. destruct ok; cbn [negb]; [|left; exists h1; split_and!; [done..|right; by apply E8]]. right. specialize (E7 eq_refl).
  set (b := {| lv_header := x; lv_payload := p; lv_end := p + size; lv_size := size |}).
  destruct (write_header_spec (heap_mem h1) x (p + size) size) as [Hw Hfr]; [lia..|].
  assert (live_disjoint (b :: A)) as Hd.
  { apply live_disjoint_cons. split; [|done]. intros c a Hc Ha Hca. rewrite Forall_forall in hk_live0.
    specialize (hk_live0 c Hc). unfold live_ok, in_live in *. cbn in Ha. lia. }
  assert (Forall (live_ok (write_header (heap_mem h1) x (p + size) size) (g_heap_start h) (p + size)) (b :: A)) as HF.
  { constructor; [split_and!; cbn; [lia|lia|done|lia|lia|done]|]. rewrite Forall_forall in hk_live0 |- *.
    intros c Hc. specialize (hk_live0 c Hc).
    apply (live_ok_ext (heap_mem h) _ _ (g_heap_break h)); [lia| |done]. intros a Ha.
    rewrite Hfr, E1; [done|]. unfold in_live, live_ok in *. lia. }
  pose proof (live_sizes_bounded (g_heap_start h) (p + size) _ ltac:(lia) Hd) as Hsum.
  exists b. eexists. split; [done|]. split_and!; [cbn; lia|done|done|done|done| | |].
  2: { cbn. intros a Ha. rewrite Hfr, E1 by lia. done. }
  2: { intros a Ha. cbn [heap_mem]. rewrite Hfr, E1 by lia. done. }
  destruct Hok1.
  split; cbn [g_heap_start g_heap_limit g_heap_break g_heap_mapped_end g_free_list
              g_heap_active_bytes heap_mem heap_frames heap_pages]; rewrite ?E2, ?E3, ?E5 in *; try done.
  - lia.
  - eapply (lseg_frame 1); [lia|exact hk_blocks0| |rewrite <- E1 in hk_list0; exact hk_list0].
    intros a Ha. apply Hfr. pose proof (blocks_ok_range 1 _ _ _ _ ltac:(lia) hk_blocks0 Ha). lia.
  - eapply blocks_ok_weaken; [| |exact hk_blocks0]; lia.
  - intros c a [->|Hc]%elem_of_cons Ha Hcv; [|by apply (hk_sep0 c a)].
    pose proof (blocks_ok_range 1 _ _ _ _ ltac:(lia) hk_blocks0 Hcv). unfold in_live in Ha. cbn in Ha. lia.
  - rewrite E6, hk_active0. rewrite live_bytes_cons in *. cbn [lv_size b] in *.
    assert (0 <= size + live_bytes A <= p + size - g_heap_start h);
      [apply Hsum|rewrite u32_small by lia; lia].
    eapply Forall_impl; [exact HF|]. intros c (? & ? & ? & ? & ? & _). lia.
Qed.

(** C6: on a well-formed heap, [alloc] returns for every power-of-two alignment
    and every size that keeps addresses below 4 GiB (the limit of the heap plus
    size, twice the alignment and two headers; beyond that
    [huge_alloc_is_accepted] shows it can go wrong).  A non-null result is an
    aligned payload of the asked size behind its header (right behind it when
    the alignment divides 16), in a block disjoint from every live allocation
    and from the free list.  A null result means that no free block was large
    enough and that nothing could be cut at the break, because the block would
    pass the limit of the heap or because the memory managers could not provide
    its pages; it changes no byte of memory.  Either way the contents of every
    live allocation stay as they were and the heap stays well formed. *)
Theorem heap_alloc_spec fuel h l A size al :
  heap_ok h l A → pow2_alignment al → 0 < size →
  g_heap_limit h + 2 * al + 32 + size < 4294967296 → (heap_fuel h <= fuel)%nat →
  ∃ p h' l', alloc fuel h size al = Some (p, h') ∧
    (∀ b a, b ∈ A → in_live b a → load8 (heap_mem h') a = load8 (heap_mem h) a) ∧
    ((p = 0 ∧ heap_ok h' l A ∧ l' = l ∧ heap_mem h' = heap_mem h ∧
      Forall (λ b, ¬ fits size al b) l ∧ heap_full h size al) ∨
     (0 < p ∧ p mod al = 0 ∧
      ∃ b, lv_payload b = p ∧ lv_size b = size ∧ (16 mod al = 0 → p = lv_header b + 16) ∧
           heap_ok h' l' (b :: A))).
Proof.
  intros Hok Hal Hsz Hb Hf. pose proof (pow2_alignment_pos al Hal).
  unfold alloc. rewrite (proj2 (Z.eqb_neq size 0)), (proj2 (Z.eqb_neq al 0)) by lia.
  pose proof (heap_ok_fuel h l A Hok).
  destruct (alloc_from_list_effect fuel h l A size al) as
    [[-> HF]|(b & h' & l' & -> & Hp & Hm & Hs & H16 & _ & Hok' & _ & Hfr)]; [done..|lia| |]; cbn [mbind option_bind].
  - destruct (alloc_from_bump_effect fuel h l A size al) as
      [(h' & -> & Hok' & Hmem & Hfull)|(b & h' & -> & Hp & Hm & Hs & H16 & _ & Hok' & _ & Hfr)]; [done..| |].
    + exists 0, h', l. split; [done|]. split; [by rewrite Hmem|by left].
    + exists (lv_payload b), h', l. split; [done|]. split; [|right; split_and!; [done..|by exists b]].
      intros c a Hc Ha. apply Hfr. pose proof (hk_live _ _ _ Hok) as HL. rewrite Forall_forall in HL.
      specialize (HL c Hc). unfold live_ok, in_live in *. lia.
  - rewrite (proj2 (Z.eqb_neq _ 0)) by lia. exists (lv_payload b), h', l'. split; [done|].
    split; [|right; split_and!; [done..|by exists b]].
    intros c a Hc Ha. apply Hfr. by apply (hk_sep _ _ _ Hok c a).
Qed.

Lemma live_bytes_delete A i b : A !! i = Some b → live_bytes A = lv_size b + live_bytes (delete i A).
Proof using Type.
  revert i. induction A as [|c A IH]; intros [|i] Hi; simplify_eq/=; [done|].
  change (live_bytes (c :: A) = lv_size b + live_bytes (c :: delete i A)).
  rewrite !live_bytes_cons, (IH i Hi). lia.
Qed.

Lemma live_bytes_nonneg m lo hi A : Forall (live_ok m lo hi) A → 0 <= live_bytes A.
Proof using Type.
  induction 1 as [|b A (? & ? & ? & _) _ IH]; [done|]. rewrite live_bytes_cons. lia.
Qed.

Lemma elem_of_delete_ne A i b c :
  live_disjoint A → A !! i = Some b → c ∈ delete i A → c ∈ A ∧ (∀ a, in_live c a → ¬ in_live b a).
Proof using Type.
  intros Hd Hi [j Hj]%list_elem_of_lookup.
  assert (∃ j', A !! j' = Some c ∧ j' ≠ i) as (j' & Hj' & Hne).
  { destruct (decide (j < i)%nat).
    - rewrite list_lookup_delete_lt in Hj by done. exists j. split; [done|lia].
    - rewrite list_lookup_delete_ge in Hj by lia. exists (S j). split; [done|lia]. }
  split; [by eapply list_elem_of_lookup_2|]. intros a Hc Hb. apply Hne. by eapply Hd.
Qed.

(** C7: freeing a live allocation whose payload follows its header returns its whole block to the free list,
    merged with the free neighbours it touches, takes its size off the bytes
    in use, and leaves the contents of every other live allocation alone. *)
Theorem heap_free_spec fuel h l A i b :
  heap_ok h l A → A !! i = Some b → lv_payload b = lv_header b + 16 → (heap_fuel h <= fuel)%nat →
  ∃ h' l', free fuel h (lv_payload b) = Some h' ∧ heap_ok h' l' (delete i A) ∧
    (∀ a, covers l' a ↔ covers l a ∨ in_live b a) ∧
    used_bytes h' = used_bytes h - lv_size b ∧
    (∀ c a, c ∈ delete i A → in_live c a → load8 (heap_mem h') a = load8 (heap_mem h) a).
Proof.
  intros Hok Hi H16 Hf. pose proof (heap_ok_fuel h l A Hok) as Hlen.
  pose proof (heap_active_bound h l A Hok) as Hact. pose proof (live_bytes_delete A i b Hi) as Hdel.
  pose proof Hok as Hok0. destruct Hok0. pose proof (list_elem_of_lookup_2 _ _ _ Hi) as Hin.
  pose proof (elem_of_delete_ne A i b) as Hother. pose proof hk_live0 as HL. rewrite Forall_forall in HL.
  destruct (HL b Hin) as (W1 & W2 & W3 & W4 & W5 & W6). destruct W6 as (V1 & V2 & V3 & V4).
  unfold free, sizeof_HeapHeader. rewrite (proj2 (Z.eqb_neq _ 0)) by lia.
  rewrite H16, u32_small by lia. replace (lv_header b + 16 - 16) with (lv_header b) by lia.
  rewrite V4, Z.eqb_refl, V3. cbn [negb]. set (m1 := store32 (heap_mem h) (lv_header b + 12) 0).
  assert (load32 m1 (lv_header b) = lv_header b ∧ load32 m1 (lv_header b + 4) = lv_end b - lv_header b) as [-> ->].
  { subst m1. rewrite !load32_store32_ne by lia. done. }
  assert (∀ a, ¬ in_live b a → load8 m1 a = load8 (heap_mem h) a) as Hm1.
  { intros a Ha. apply load8_store32_ne. unfold in_live in Ha. lia. }
  destruct (insert_free_block_spec fuel (g_heap_start h) (g_heap_break h) (g_free_list h) m1 l
    (lv_header b) (lv_end b - lv_header b)) as (fl' & m' & l' & -> & Hseg' & Hok' & Hl' & Hcov & Hfr);
    [lia|lia|done| |lia|lia|lia|lia| |].
  { eapply (lseg_frame 1); [lia|exact hk_blocks0| |exact hk_list0]. intros a Ha. apply Hm1. intros Hb.
    by apply (hk_sep0 b a). }
  { intros a Ha. apply (hk_sep0 b a Hin). unfold in_live. lia. }
  cbn [mbind option_bind]. rewrite hk_active0.
  assert (Forall (live_ok (heap_mem h) (g_heap_start h) (g_heap_break h)) (delete i A)) as HLd.
  { rewrite Forall_forall. intros c Hc. apply HL, (Hother c); done. }
  pose proof (live_bytes_nonneg _ _ _ _ HLd) as Hnn.
  rewrite (proj2 (Z.leb_le _ _)) by lia. rewrite u32_small by lia.
  assert (∀ a, covers l' a ↔ covers l a ∨ in_live b a) as Hcov'.
  { intros a. rewrite Hcov. unfold in_live. split; (intros [?|?]; [by left|right; lia]). }
  assert (∀ c a, c ∈ delete i A → in_live c a → load8 m' a = load8 (heap_mem h) a) as Hkeep.
  { intros c a Hc Ha. destruct (Hother c) as [Hc1 Hc2]; [done..|]. specialize (Hc2 a Ha).
    rewrite Hfr, Hm1; [done|done|]. rewrite Hcov'. intros [?|?]; [|done]. by apply (hk_sep0 c a). }
  eexists _, l'. split; [done|]. split_and!; [|done|unfold used_bytes; cbn; lia|done].
  split; try done.
  - cbn. rewrite Forall_forall in HLd |- *. intros c Hc.
    apply (live_ok_ext (heap_mem h) _ _ (g_heap_break h)); [done| |by apply HLd]. intros a Ha.
    by apply (Hkeep c).
  - intros c a Hc Ha Hcv. destruct (Hother c) as [Hc1 Hc2]; [done..|].
    apply Hcov' in Hcv as [?|?]; [by apply (hk_sep0 c a)|by apply (Hc2 a)].
  - by apply live_disjoint_delete.
  - cbn. lia.
Qed.

(** Growing the heap takes exactly one frame out of the free set and maps
    exactly the next page to it; when it fails no translation changes and no
    frame is lost (frame 0, which the code reads as a failure, apart). *)
Lemma map_next_heap_page_spec h l A :
  heap_ok h l A →
  let '(ok, h') := map_next_heap_page h in
  heap_ok h' l A ∧
  (ok = false → heap_pages h' = heap_pages h ∧
     frames_free (heap_frames h) ∖ {[0]} ⊆ frames_free (heap_frames h') ∧
     frames_free (heap_frames h') ⊆ frames_free (heap_frames h)) ∧
  (ok = true → ∃ f, f ∈ frames_free (heap_frames h) ∧
     frames_free (heap_frames h') = frames_free (heap_frames h) ∖ {[f]} ∧
     g_heap_mapped_end h' = g_heap_mapped_end h + 4096 ∧
     ∀ x, 0 <= x < 4294967296 →
       page_frame (heap_pages h') x
       = if x / 4096 =? g_heap_mapped_end h / 4096 then Some f else page_frame (heap_pages h) x).
Proof.
  intros Hok. pose proof (map_next_heap_page_effect h l A Hok) as He.
  pose proof Hok as Hok0. destruct Hok0. revert He. unfold map_next_heap_page.
  destruct (g_heap_limit h <=? g_heap_mapped_end h); [intros [He _]; split_and!; [done|set_solver|done]|].
  pose proof (frame_alloc_law (heap_frames h) hk_frames0) as Hf.
  destruct (frame_alloc (heap_frames h)) as [frame p]. destruct Hf as [Hpok Hf].
  destruct (frame =? 0) eqn:Ef; zbool.
  { intros [He _]. split_and!; [done| |done]. intros _.
    destruct Hf as [[_ Hfs]|(? & _)]; [cbn; set_solver|lia]. }
  destruct Hf as [[? _]|(Hfr & Hfm & Hfin & Hfset)]; [done|].
  pose proof (page_map_law (heap_pages h) (g_heap_mapped_end h) frame true false hk_pages0
    ltac:(lia) ltac:(lia)) as Hp.
  destruct (page_map (heap_pages h) (g_heap_mapped_end h) frame true false) as [ok v].
  destruct Hp as (Hvok & Hfail & Hsucc). destruct ok.
  - intros (He & _ & _ & _ & _ & _ & _ & Hme). split_and!; [done|done|]. intros _. exists (frame / 4096). auto.
  - intros [He _]. destruct (frame_free_law p frame Hpok Hfr Hfm) as [_ Hfs].
    split_and!; [done| |done]. intros _. split; [by rewrite Hfail|]. cbn. rewrite Hfs, Hfset.
    split; [|set_solver]. intros x Hx. destruct (decide (x = frame / 4096)); set_solver.
Qed.

(** [init] on page-aligned bounds gives an empty well-formed heap. *)
Lemma init_ok h start limit :
  0 < start → start <= limit → limit < 4294963200 → start mod 4096 = 0 → limit mod 4096 = 0 →
  frames_ok (heap_frames h) → pages_ok (heap_pages h) → heap_ok (init h start limit) [] [].
Proof.
  intros Hs Hl Hlim Hms Hml Hf Hp. unfold init, kPageSize.
  assert (pow2_alignment 4096) as Hal by (exists 12; split; [lia|done]).
  rewrite !align_up_id by (done || lia).
  assert ((if limit <=? start then start else limit) = limit) as -> by (case_bool; zbool; lia).
  split; cbn [g_heap_start g_heap_limit g_heap_break g_heap_mapped_end g_free_list
              g_heap_active_bytes heap_mem heap_frames heap_pages]; try (by split_and!); try lia; intros; first [lia | set_solver | done].
Qed.

(** *** Behaviour outside the guarantees *)

(** A size that wraps the payload's end is not refused by the free-list search:
    any free block satisfies it. *)
Theorem huge_alloc_is_accepted fuel h s n r size al :
  heap_ok h ((s, n) :: r) [] → pow2_alignment al →
  g_heap_limit h + 2 * al + 32 < 4294967296 → size < 4294967296 →
  4294967296 <= payload_at s al + size <= 4294967296 + s →
  (4 < fuel)%nat → (length r + 4 < fuel)%nat →
  ∀ p h', alloc fuel h size al = Some (p, h') → 0 < p.
Proof.
  intros Hok Hal Hb Hsz Hwrap Hf Hf2 p h' Ha. pose proof Hok as Hok0. destruct Hok0.
  cbn [blocks_ok] in hk_blocks0. destruct hk_blocks0 as (B1 & B2 & B3 & _).
  apply lseg_cons in hk_list0 as (L1 & L2 & _). pose proof (pow2_alignment_pos al Hal).
  destruct (payload_at_spec s al) as (A1 & A2 & _); [done|lia|lia|].
  revert Ha. unfold alloc, allocate_from_free_list. rewrite (proj2 (Z.eqb_neq size 0)), (proj2 (Z.eqb_neq al 0)) by lia.
  destruct fuel as [|fuel]; [lia|]. cbn [scan]. rewrite L1, (proj2 (Z.eqb_neq s 0)), L2, (u32_small (s + n)) by lia.
  assert (∃ pl, place s (s + n) size al = Some pl ∧ pl_payload pl = payload_at s al) as (pl & -> & Hpl).
  { unfold place, sizeof_HeapHeader, sizeof_FreeBlock.
    rewrite (u32_small (s + 16)), (align_up_next (s + 16)) by (done || lia). fold (header_at s al).
    rewrite (proj2 (Z.ltb_ge (header_at s al) s)) by lia.
    rewrite (u32_small (header_at s al + 16)), (align_up_next (header_at s al + 16)) by (done || lia). fold (payload_at s al).
    rewrite (proj2 (Z.ltb_ge (payload_at s al) _)) by lia.
    rewrite (proj2 (Z.ltb_ge (header_at s al) s)) by lia.
    assert (u32 (payload_at s al + size) = payload_at s al + size - 4294967296) as ->.
    { unfold u32. symmetry. apply Z.mod_unique with 1; lia. }
    rewrite (proj2 (Z.ltb_ge (s + n) _)) by lia.
    rewrite (u32_small (header_at s al - s)) by lia.
    rewrite (proj2 (Z.ltb_ge (header_at s al - s) 8)), andb_false_r by lia.
    destruct (_ && _); eexists; split; reflexivity. }
  destruct (take_block _ _ _ _ _ _ pl) as [[fl' m']|]; [|done]. cbn [mbind option_bind].
  rewrite Hpl, (proj2 (Z.eqb_neq (payload_at s al) 0)) by lia. intros [= <- _]. lia.
Qed.

(** Common view of a successful allocation. *)
Lemma alloc_effect fuel h l A size al p h' :
  heap_ok h l A → pow2_alignment al → 0 < size →
  g_heap_limit h + 2 * al + 32 + size < 4294967296 → (heap_fuel h <= fuel)%nat →
  alloc fuel h size al = Some (p, h') → p ≠ 0 →
  ∃ b l', lv_payload b = p ∧ lv_size b = size ∧ p mod al = 0 ∧ lv_header b mod al = 0 ∧
    heap_ok h' l' (b :: A) ∧
    ∀ a, lv_header b + 16 <= a < lv_end b → load8 (heap_mem h') a = load8 (heap_mem h) a.
Proof.
  intros Hok Hal Hsz Hb Hf. pose proof (pow2_alignment_pos al Hal). pose proof (heap_ok_fuel h l A Hok).
  unfold alloc. rewrite (proj2 (Z.eqb_neq size 0)), (proj2 (Z.eqb_neq al 0)) by lia.
  destruct (alloc_from_list_effect fuel h l A size al) as
    [[-> _]|(b & h1 & l' & -> & Hp & Hm & Hs & _ & Hh & Hok' & Hbody & _)]; [done..|lia| |]; cbn [mbind option_bind].
  - destruct (alloc_from_bump_effect fuel h l A size al) as
      [(h1 & -> & _)|(b & h1 & -> & Hp & Hm & Hs & _ & Hh & Hok' & Hbody & _)]; [done..|by intros [= <- _]|].
    intros [= <- <-] _. by exists b, l.
  - rewrite (proj2 (Z.eqb_neq _ 0)) by lia. intros [= <- <-] _. by exists b, l'.
Qed.

(** [alloc] always returns and never touches a live block. *)
Lemma alloc_total fuel h l A size al :
  heap_ok h l A → pow2_alignment al → 0 < size →
  g_heap_limit h + 2 * al + 32 + size < 4294967296 → (heap_fuel h <= fuel)%nat →
  ∃ p h', alloc fuel h size al = Some (p, h') ∧
    ∀ b a, b ∈ A → in_live b a → load8 (heap_mem h') a = load8 (heap_mem h) a.
Proof.
  intros Hok Hal Hsz Hb Hf. pose proof (pow2_alignment_pos al Hal). pose proof (heap_ok_fuel h l A Hok).
  unfold alloc. rewrite (proj2 (Z.eqb_neq size 0)), (proj2 (Z.eqb_neq al 0)) by lia.
  destruct (alloc_from_list_effect fuel h l A size al) as
    [[-> _]|(b & h1 & l' & -> & Hp & _ & _ & _ & _ & _ & _ & Hfr)]; [done..|lia| |]; cbn [mbind option_bind].
  - destruct (alloc_from_bump_effect fuel h l A size al) as
      [(h1 & -> & _ & Hmem & _)|(b & h1 & -> & _ & _ & _ & _ & _ & _ & _ & Hfr)]; [done..| |].
    + exists 0, h1. split; [done|]. by rewrite Hmem.
    + exists (lv_payload b), h1. split; [done|]. intros c a Hc Ha. apply Hfr.
      pose proof (hk_live _ _ _ Hok) as HL. rewrite Forall_forall in HL.
      specialize (HL c Hc). unfold live_ok, in_live in *. lia.
  - rewrite (proj2 (Z.eqb_neq _ 0)) by lia. exists (lv_payload b), h1. split; [done|].
    intros c a Hc Ha. apply Hfr. by apply (hk_sep _ _ _ Hok c a).
Qed.

(** Writing to memory that is neither a free block nor a live header. *)
Lemma heap_ok_set_mem h l A m :
  heap_ok h l A →
  (∀ a, covers l a ∨ (∃ b, b ∈ A ∧ lv_header b <= a < lv_header b + 16) →
        load8 m a = load8 (heap_mem h) a) →
  heap_ok {| g_heap_start := g_heap_start h; g_heap_limit := g_heap_limit h;
             g_heap_break := g_heap_break h; g_heap_mapped_end := g_heap_mapped_end h;
             g_free_list := g_free_list h; g_heap_active_bytes := g_heap_active_bytes h;
             heap_mem := m; heap_frames := heap_frames h; heap_pages := heap_pages h |} l A.
Proof.
  intros [] Hm. split; try done; cbn [heap_mem g_free_list g_heap_start g_heap_break].
  - eapply (lseg_frame 1); [lia|exact hk_blocks0| |exact hk_list0]. auto.
  - rewrite Forall_forall in hk_live0 |- *. intros b Hb.
    destruct (hk_live0 b Hb) as (? & ? & ? & ? & ? & ?). split_and!; try done.
    eapply header_words_ext; [|done]. intros a Ha. apply Hm. right. by exists b.
Qed.

(** With an alignment above 16 the payload does not follow its header, so
    [free] looks for the header in the wrong place: unless the word it finds
    there, which the allocation did not write, happens to be the magic number,
    freeing the allocation changes nothing and its block is never reused. *)
Lemma aligned_free_leaks fuel h l A size al p h' :
  heap_ok h l A → pow2_alignment al → 32 <= al → 0 < size →
  g_heap_limit h + 2 * al + 32 + size < 4294967296 → (heap_fuel h <= fuel)%nat →
  alloc fuel h size al = Some (p, h') → p ≠ 0 →
  load32 (heap_mem h) (p - 4) ≠ kHeapHeaderMagic →
  free fuel h' p = Some h'.
Proof.
  intros Hok Hal H32 Hsz Hb Hf Ha Hp Hmagic.
  destruct (alloc_effect fuel h l A size al p h') as (b & l' & <- & Hs & Hm & Hh & Hok' & Hbody); [done..|].
  pose proof (hk_live _ _ _ Hok') as HL. inversion HL as [|? ? (W1 & W2 & W3 & W4 & W5 & _) _]; subst.
  pose proof (hk_bounds _ _ _ Hok') as HB.
  assert (lv_header b + al <= lv_payload b) as Hgap.
  { apply Z.mod_divide in Hm as [x Hx]; [|lia]. apply Z.mod_divide in Hh as [y Hy]; [|lia].
    assert (y < x) by nia. nia. }
  unfold free, sizeof_HeapHeader. rewrite (proj2 (Z.eqb_neq _ 0)) by done. rewrite u32_small by lia.
  replace (lv_payload b - 16 + 12) with (lv_payload b - 4) by lia.
  rewrite (load_le_ext 4 (heap_mem h) (heap_mem h')) by (intros; apply Hbody; lia).
  fold (load32 (heap_mem h) (lv_payload b - 4)). rewrite (proj2 (Z.eqb_neq _ _) Hmagic). done.
Qed.

End heap_proofs.
