(* ===== verification/AddressSpace.v ===== *)
(** * Address spaces: the kernel heap over the real memory managers

    [vmm::create_kernel_clone_address_space] copies the kernel page directory
    into a page of the heap, so it lives above all three memory components.
    The heap's classes are instantiated here with [pmm] and [vmm], and the
    heap theorems are applied to a concrete kernel. *)

From S2P Require Import Prelude Memory Pmm Vmm Paging Heap.

Abbreviation kheap := (heap pmm vmm).

Section clone.
Context (page_tables_addr : Z).
#[local] Instance clone_mapper : PageMapper vmm := vmm_mapper page_tables_addr.

Definition copy_directory (m : memory) (clone_pd : Z) (dir : list Z) : memory :=
  for_up 0 kPageEntries 1 (λ i m, store32 m (clone_pd + 4 * i) (zget dir i)) m.

Definition with_mem (h : kheap) (m : memory) : kheap :=
  {| g_heap_start := g_heap_start h; g_heap_limit := g_heap_limit h;
     g_heap_break := g_heap_break h; g_heap_mapped_end := g_heap_mapped_end h;
     g_free_list := g_free_list h; g_heap_active_bytes := g_heap_active_bytes h;
     heap_mem := m; heap_frames := heap_frames h; heap_pages := heap_pages h |}.

Definition create_kernel_clone_address_space (fuel : nat) (h : kheap) : option (Z * kheap) :=
  '(clone_pd, h) ← alloc fuel h Vmm.kPageSize Vmm.kPageSize;
  if clone_pd =? 0 then Some (0, h)
  else Some (clone_pd, with_mem h (copy_directory (heap_mem h) clone_pd
                                     (g_kernel_page_directory (heap_pages h)))).

Lemma copy_directory_spec m pd dir :
  (∀ i, 0 <= i < 1024 → load32 (copy_directory m pd dir) (pd + 4 * i) = u32 (zget dir i)) ∧
  (∀ a, a < pd ∨ pd + 4096 <= a → load8 (copy_directory m pd dir) a = load8 m a).
Proof.
  unfold copy_directory, kPageEntries.
  pose (Inv := λ (k : Z) (m' : memory),
    (∀ i, 0 <= i < k → load32 m' (pd + 4 * i) = u32 (zget dir i)) ∧
    (∀ a, a < pd ∨ pd + 4 * k <= a → load8 m' a = load8 m a)).
  assert (Inv 1024 (for_up 0 1024 1 (λ i m, store32 m (pd + 4 * i) (zget dir i)) m)) as [H1 H2].
  { apply for_up_inv1; [lia|split; [lia|done]|]. intros k m' Hk [H1 H2]. split.
    - intros i Hi. destruct (decide (i = k)) as [->|]; [apply load32_store32_eq|].
      rewrite load32_store32_ne by lia. apply H1. lia.
    - intros a Ha. rewrite load8_store32_ne by lia. apply H2. lia. }
  split; [done|]. intros a Ha. apply H2. lia.
Qed.

Hypothesis tables_aligned : page_tables_addr mod 4096 = 0.
Hypothesis tables_range : 0 <= page_tables_addr ∧ page_tables_addr + 64 * 4096 <= 4294967296.
#[local] Instance clone_laws : PageMapperLaws vmm := vmm_mapper_laws page_tables_addr tables_aligned tables_range.

(** A cloned address space is a page-aligned page of the heap holding a
    word-for-word copy of the kernel directory as it is at that moment; the
    live allocations, the page tables and the kernel directory are untouched
    by the copy.  Failure returns null. *)
Lemma clone_is_copy fuel (h : kheap) l A :
  heap_ok h l A → g_heap_limit h + 12384 < 4294967296 → (heap_fuel h <= fuel)%nat →
  ∃ pd h', create_kernel_clone_address_space fuel h = Some (pd, h') ∧
    (∀ b a, b ∈ A → in_live b a → load8 (heap_mem h') a = load8 (heap_mem h) a) ∧
    (pd ≠ 0 → pd mod 4096 = 0 ∧ (∃ l' b, lv_payload b = pd ∧ heap_ok h' l' (b :: A)) ∧
       ∀ i, 0 <= i < 1024 →
         load32 (heap_mem h') (pd + 4 * i) = u32 (zget (g_kernel_page_directory (heap_pages h')) i)).
Proof.
  intros Hok Hb Hf. assert (pow2_alignment 4096) as Hal by (exists 12; split; [lia|done]).
  unfold create_kernel_clone_address_space, Vmm.kPageSize.
  destruct (alloc_total fuel h l A 4096 4096) as (p & h1 & Ha & Hkeep); [done|done|lia|lia|done|].
  rewrite Ha. cbn [mbind option_bind]. destruct (p =? 0) eqn:E; zbool; [by exists 0, h1|].
  destruct (alloc_effect fuel h l A 4096 4096 p h1) as (b & l' & <- & Hs & Hm & Hh & Hok' & _);
    [done|done|lia|lia|done|done|done|].
  destruct (copy_directory_spec (heap_mem h1) (lv_payload b) (g_kernel_page_directory (heap_pages h1))) as [H1 H2].
  set (m' := copy_directory _ _ _) in *.
  pose proof (hk_live _ _ _ Hok') as HL. rewrite Forall_forall in HL.
  assert (b ∈ b :: A) as Hb0 by (apply elem_of_cons; by left).
  destruct (HL b Hb0) as (W1 & W2 & W3 & W4 & W5 & W6). rewrite Hs in W4.
  pose proof (hk_disj _ _ _ Hok') as Hd. apply live_disjoint_cons in Hd as [Hd _].
  assert (∀ c a, c ∈ A → in_live c a → load8 m' a = load8 (heap_mem h1) a) as Hm'.
  { intros c a Hc Ha'. apply H2. destruct (decide (in_live b a)) as [Hi|Hi].
    - by destruct (Hd c a Hc Hi).
    - unfold in_live in Hi. lia. }
  exists (lv_payload b), (with_mem h1 m'). split; [done|]. split.
  { intros c a Hc Ha'. cbn [with_mem heap_mem]. rewrite (Hm' c) by done. by eapply Hkeep. }
  intros _. split; [done|]. split; [|done]. exists l', b. split; [done|].
  assert (heap_ok (with_mem h1 m') l' (b :: A)); [|done].
  apply heap_ok_set_mem; [done|]. intros a Ha'. apply H2.
  destruct (decide (lv_payload b <= a < lv_payload b + 4096)); [|lia]. exfalso.
  destruct Ha' as [Hc|(c & Hc & Hin)].
  - apply (hk_sep _ _ _ Hok' b a); [done|unfold in_live; lia|done].
  - apply elem_of_cons in Hc as [->|Hc]; [lia|].
    assert (in_live c a) by (destruct (HL c) as (? & ? & ? & ? & ? & _); [apply elem_of_cons; by right|unfold in_live; lia]).
    apply (Hd c a Hc); [unfold in_live; lia|done].
Qed.
End clone.

(** ** A concrete kernel: four free frames and a 16 KiB heap at 0xD0000000 *)

Definition demo_frames : pmm :=
  clear_bit (clear_bit (clear_bit (clear_bit (init_fill pmm_boot) 300) 301) 302) 303.

Lemma demo_frames_ok : pmm_ok demo_frames.
Proof. repeat (apply clear_bit_ok; [|unfold kMaxFrames; lia]). apply boot_fill_ok. Qed.

Lemma demo_tables_range : 0 <= 2097152 ∧ 2097152 + 64 * 4096 <= 4294967296.
Proof. lia. Qed.

#[local] Instance demo_mapper : PageMapper vmm := vmm_mapper 2097152.
#[local] Instance demo_laws : PageMapperLaws vmm := vmm_mapper_laws 2097152 eq_refl demo_tables_range.

Definition demo_heap : kheap :=
  init {| g_heap_start := 0; g_heap_limit := 0; g_heap_break := 0; g_heap_mapped_end := 0;
          g_free_list := 0; g_heap_active_bytes := 0; heap_mem := ∅;
          heap_frames := demo_frames; heap_pages := reset_vmm |} 3489660928 3489677312.

Lemma demo_heap_ok : heap_ok demo_heap [] [].
Proof. apply init_ok; [lia..|done|done|exact demo_frames_ok|exact reset_vmm_ok]. Qed.

Lemma demo_alignments : pow2_alignment 16 ∧ pow2_alignment 4096.
Proof. split; [by exists 4|by exists 12]. Qed.

Lemma demo_heap_limit : g_heap_limit demo_heap = 3489677312 ∧ heap_fuel demo_heap = Z.to_nat 2050.
Proof. split; vm_compute; reflexivity. Qed.

Lemma demo_fuel : (heap_fuel demo_heap <= Z.to_nat 2050)%nat.
Proof. rewrite (proj2 demo_heap_limit). apply le_n. Qed.

Lemma map_next_heap_page_spec_witness :
  let '(ok, h') := map_next_heap_page demo_heap in heap_ok h' [] [].
Proof.
  pose proof (map_next_heap_page_spec demo_heap [] [] demo_heap_ok) as H.
  destruct (map_next_heap_page demo_heap) as [ok h']. exact (proj1 H).
Defined.

Lemma clone_is_copy_witness :
  ∃ pd h', create_kernel_clone_address_space 2097152 (Z.to_nat 2050) demo_heap = Some (pd, h').
Proof.
  destruct (clone_is_copy 2097152 eq_refl demo_tables_range (Z.to_nat 2050) demo_heap [] [] demo_heap_ok)
    as (pd & h' & E & _); [rewrite (proj1 demo_heap_limit); lia|exact demo_fuel|].
  exists pd, h'. exact E.
Defined.

(** The allocations of the demonstration succeed. *)
Lemma demo_alloc_ptrs :
  fst <$> alloc (Z.to_nat 2050) demo_heap 128 16 = Some 3489660960 ∧
  fst <$> alloc (Z.to_nat 2050) demo_heap 4096 4096 = Some 3489669120.
Proof. split; vm_compute; reflexivity. Qed.

Lemma demo_allocs :
  (∃ h', alloc (Z.to_nat 2050) demo_heap 128 16 = Some (3489660960, h')) ∧
  (∃ h', alloc (Z.to_nat 2050) demo_heap 4096 4096 = Some (3489669120, h')).
Proof.
  destruct demo_alloc_ptrs as [H1 H2]. split.
  - apply fmap_Some in H1 as ([p h'] & E & Hp). exists h'. rewrite E. by rewrite Hp.
  - apply fmap_Some in H2 as ([p h'] & E & Hp). exists h'. rewrite E. by rewrite Hp.
Qed.

Lemma heap_alloc_spec_witness :
  ∃ h' l' b, alloc (Z.to_nat 2050) demo_heap 128 16 = Some (3489660960, h') ∧
    lv_payload b = 3489660960 ∧ lv_size b = 128 ∧ heap_ok h' l' [b].
Proof.
  destruct (heap_alloc_spec (Z.to_nat 2050) demo_heap [] [] 128 16 demo_heap_ok (proj1 demo_alignments))
    as (p & h' & l' & E & _ & H); [lia|rewrite (proj1 demo_heap_limit); lia|exact demo_fuel|].
  destruct (proj1 demo_allocs) as [h1 E1]. rewrite E in E1. injection E1 as -> _.
  destruct H as [[H _]|(_ & _ & b & Hp & Hs & _ & Hok)]; [discriminate|].
  exists h', l', b. exact (conj E (conj Hp (conj Hs Hok))).
Defined.

Lemma demo_live_heap :
  ∃ h' l' b, heap_ok h' l' [b] ∧ lv_payload b = lv_header b + 16 ∧ g_heap_limit h' = 3489677312.
Proof.
  destruct (alloc_from_bump_effect (Z.to_nat 2050) demo_heap [] [] 128 16 demo_heap_ok (proj1 demo_alignments))
    as [(h' & E & _)|(b & h' & E & _ & _ & _ & H16 & _ & Hok & _)];
    [lia|rewrite (proj1 demo_heap_limit); lia|exact demo_fuel| |].
  - exfalso. assert (fst <$> allocate_from_bump (Z.to_nat 2050) demo_heap 128 16 = Some 3489660960) as H
      by (vm_compute; reflexivity). rewrite E in H. done.
  - exists h', [], b. split; [done|]. split; [by apply H16|].
    assert ((λ r, g_heap_limit r.2) <$> allocate_from_bump (Z.to_nat 2050) demo_heap 128 16 = Some 3489677312) as H
      by (vm_compute; reflexivity). rewrite E in H. by injection H.
Qed.

Lemma heap_free_spec_witness :
  ∃ h l b h' l', heap_ok h l [b] ∧ free (heap_fuel h) h (lv_payload b) = Some h' ∧ heap_ok h' l' [].
Proof.
  destruct demo_live_heap as (h & l & b & Hok & H16 & _).
  destruct (heap_free_spec (heap_fuel h) h l [b] 0 b Hok eq_refl H16 (le_n _)) as (h' & l' & E & Hok' & _).
  exists h, l, b, h', l'. exact (conj Hok (conj E Hok')).
Defined.

Lemma aligned_free_leaks_witness :
  ∃ h', alloc (Z.to_nat 2050) demo_heap 4096 4096 = Some (3489669120, h') ∧
        free (Z.to_nat 2050) h' 3489669120 = Some h'.
Proof.
  destruct (proj2 demo_allocs) as [h' E]. exists h'. split; [exact E|].
  apply (aligned_free_leaks (Z.to_nat 2050) demo_heap [] [] 4096 4096 3489669120 h' demo_heap_ok
    (proj2 demo_alignments)); [lia|lia|rewrite (proj1 demo_heap_limit); lia|exact demo_fuel|exact E|lia|].
  vm_compute. discriminate.
Defined.
