(* ===== verification/CText.v ===== *)
(** * NUL-terminated text

    A [const char*] that is not null is the list of its characters up to the
    terminator; [nullptr] is [None] where a function accepts it.  A [char]
    array of fixed size holding text is that text, shorter than the array.
    The helpers are the ones the kernel's components define for themselves
    ([text_equal], [text_len], [copy_text], ...). *)

From Stdlib Require Export Ascii.
From Stdlib Require String.
From S2P Require Import Prelude.

Abbreviation text := (list ascii).

Definition txt (s : string) : text := String.list_ascii_of_string s.
#[global] Arguments txt !s /.

Definition byte_of (c : ascii) : Z := Z.of_nat (nat_of_ascii c).
Definition bytes_of (t : text) : list Z := byte_of <$> t.

Abbreviation slash := ("/"%char).

(** [while (a[i] && b[i]) if (a[i] != b[i]) return false; return a[i] == b[i];] *)
Fixpoint text_equal (a b : text) : bool :=
  match a, b with
  | x :: a', y :: b' => if Ascii.eqb x y then text_equal a' b' else false
  | [], [] => true
  | _, _ => false
  end.

Definition text_len (t : text) : Z := Z.of_nat (length t).

Fixpoint text_starts_with (t prefix : text) : bool :=
  match prefix with
  | [] => true
  | p :: prefix' =>
      match t with
      | [] => false
      | c :: t' => if Ascii.eqb c p then text_starts_with t' prefix' else false
      end
  end.

(** [while (i + 1 < max_size && src[i]) dst[i] = src[i];] and the terminator. *)
Definition copy_text (src : text) (max_size : Z) : text := take (Z.to_nat (max_size - 1)) src.

Fixpoint has_char (c : ascii) (t : text) : bool :=
  match t with
  | [] => false
  | x :: t' => if Ascii.eqb x c then true else has_char c t'
  end.

(** ** Lemmas *)

Lemma text_equal_eq a b : text_equal a b = true ↔ a = b.
Proof.
  revert b. induction a as [|x a IH]; intros [|y b]; simpl; try done.
  destruct (Ascii.eqb x y) eqn:E.
  - apply Ascii.eqb_eq in E as ->. rewrite IH. naive_solver.
  - apply Ascii.eqb_neq in E. naive_solver.
Qed.

Lemma text_equal_ne a b : text_equal a b = false ↔ a ≠ b.
Proof. rewrite <- text_equal_eq. by destruct (text_equal a b). Qed.

Lemma text_equal_refl a : text_equal a a = true.
Proof. by apply text_equal_eq. Qed.

Lemma text_starts_with_app t p : text_starts_with t p = true ↔ ∃ r, t = p ++ r.
Proof.
  revert t. induction p as [|c p IH]; intros [|x t]; simpl; try naive_solver.
  destruct (Ascii.eqb x c) eqn:E.
  - apply Ascii.eqb_eq in E as ->. rewrite IH. naive_solver.
  - apply Ascii.eqb_neq in E. naive_solver.
Qed.

Lemma has_char_elem c t : has_char c t = true ↔ c ∈ t.
Proof.
  induction t as [|x t IH]; simpl; [split; [done|by intros ?%elem_of_nil]|].
  rewrite elem_of_cons. destruct (Ascii.eqb x c) eqn:E.
  - apply Ascii.eqb_eq in E. naive_solver.
  - apply Ascii.eqb_neq in E. rewrite IH. naive_solver.
Qed.

Lemma has_char_false c t : has_char c t = false ↔ c ∉ t.
Proof. rewrite <- has_char_elem. by destruct (has_char c t). Qed.

Lemma copy_text_id t n : Z.of_nat (length t) < n → copy_text t n = t.
Proof. intros. unfold copy_text. apply take_ge. lia. Qed.

Lemma copy_text_length t n : 1 <= n → Z.of_nat (length (copy_text t n)) < n.
Proof. intros. unfold copy_text. rewrite length_take. lia. Qed.

(** ** Paths: components separated by slashes *)

Definition component_ok (c : text) : Prop := c ≠ [] ∧ slash ∉ c.

Definition render (cs : list text) : text :=
  match cs with
  | [] => [slash]
  | _ => concat ((λ c, slash :: c) <$> cs)
  end.

(** Splitting at slashes, empty pieces dropped. *)
Fixpoint split_path (t acc : text) : list text :=
  match t with
  | [] => match acc with [] => [] | _ => [acc] end
  | c :: t' =>
      if Ascii.eqb c slash then
        match acc with [] => split_path t' [] | _ => acc :: split_path t' [] end
      else split_path t' (acc ++ [c])
  end.

Definition components (t : text) : list text := split_path t [].
Definition canonical (t : text) : Prop := ∃ cs, Forall component_ok cs ∧ t = render cs.

Lemma split_path_ok t acc : slash ∉ acc → Forall component_ok (split_path t acc).
Proof.
  revert acc. induction t as [|c t IH]; intros acc Hacc; simpl.
  - destruct acc; [done|]. repeat constructor; done.
  - destruct (Ascii.eqb c slash) eqn:E.
    + destruct acc; [apply IH; set_solver|]. constructor; [by split|]. apply IH. set_solver.
    + apply Ascii.eqb_neq in E. apply IH. rewrite elem_of_app. set_solver.
Qed.

Lemma components_ok t : Forall component_ok (components t).
Proof. apply split_path_ok. set_solver. Qed.

Lemma render_cons c cs : render (c :: cs) = slash :: c ++ concat ((λ c, slash :: c) <$> cs).
Proof. done. Qed.

Lemma render_snoc cs c : render (cs ++ [c]) = concat ((λ c, slash :: c) <$> cs) ++ slash :: c.
Proof.
  destruct cs as [|d cs]; [cbn; by rewrite app_nil_r|].
  change ((d :: cs) ++ [c]) with (d :: (cs ++ [c])). unfold render. cbn [fmap list_fmap concat].
  rewrite fmap_app, concat_app. cbn [fmap list_fmap concat]. by rewrite app_nil_r, app_assoc.
Qed.

(** Reading a component back from a rendered path. *)
Lemma split_path_component c acc t :
  slash ∉ c → split_path (c ++ t) acc = split_path t (acc ++ c).
Proof.
  revert acc. induction c as [|x c IH]; intros acc Hc; simpl; [by rewrite app_nil_r|].
  rewrite (proj2 (Ascii.eqb_neq x slash)) by set_solver. rewrite IH by set_solver.
  by rewrite <- app_assoc.
Qed.

Lemma split_path_render cs acc :
  Forall component_ok cs → acc ≠ [] →
  split_path (concat ((λ c, slash :: c) <$> cs)) acc = acc :: cs.
Proof.
  intros Hcs. revert acc. induction Hcs as [|c cs [Hc1 Hc2] Hcs IH]; intros acc Hacc; cbn [fmap list_fmap concat].
  - by destruct acc.
  - cbn [app split_path Ascii.eqb]. replace (Ascii.eqb slash slash) with true by done.
    destruct acc as [|a acc]; [done|]. f_equal.
    rewrite split_path_component by done. by apply IH.
Qed.

Lemma components_render cs : Forall component_ok cs → components (render cs) = cs.
Proof.
  intros Hcs. destruct Hcs as [|c cs [Hc1 Hc2] Hcs]; [done|]. rewrite render_cons.
  unfold components. cbn [split_path]. replace (Ascii.eqb slash slash) with true by done.
  rewrite split_path_component by done. by apply split_path_render.
Qed.

Lemma render_inj cs ds : Forall component_ok cs → Forall component_ok ds → render cs = render ds → cs = ds.
Proof. intros Hc Hd E. by rewrite <- (components_render cs Hc), E, components_render. Qed.
