(* ===== verification/RamFs.v ===== *)
(** * In-memory file system ([kernel/fs/ramfs.cpp], [kernel/fs/vfs.hpp])

    A table of 64 inodes named by their full normalised path and a table of 32
    file descriptors.  Every public operation takes the file system's lock for
    its whole body, so it is one atomic step here.  An [Inode*] is an index of
    the inode table.  [operator new] is the argument [new_bytes]: the buffer it
    returns for a size, with whatever it contains, or [None] for null. *)

From S2P Require Import Prelude CText.

Definition kOpenRead : Z := 1.
Definition kOpenWrite : Z := 2.
Definition kOpenCreate : Z := 4.
Definition kOpenTruncate : Z := 8.

Definition kMaxInodes : Z := 64.
Definition kMaxFds : Z := 32.
Definition kFdOffset : Z := 3.

Record Inode := {
  in_used : bool;
  in_is_directory : bool;
  in_name : text;
  in_data : option (list Z);
  in_size : Z;
  in_capacity : Z;
}.

Record FileDescriptor := {
  fd_used : bool;
  fd_inode : option nat;
  fd_offset : Z;
  fd_flags : Z;
}.

Record DirEntry := { de_name : text; de_is_directory : bool }.

Record ramfs := mk_ramfs {
  m_inodes : list Inode;
  m_fds : list FileDescriptor;
}.

Definition blank_inode : Inode :=
  {| in_used := false; in_is_directory := false; in_name := []; in_data := None;
     in_size := 0; in_capacity := 0 |}.
Definition blank_fd : FileDescriptor :=
  {| fd_used := false; fd_inode := None; fd_offset := 0; fd_flags := 0 |}.

(** [RamFs::RamFs()] value-initialises both tables. *)
Definition RamFs_new : ramfs :=
  {| m_inodes := replicate (Z.to_nat kMaxInodes) blank_inode;
     m_fds := replicate (Z.to_nat kMaxFds) blank_fd |}.

(** How an operation can end: normally, in a loop that never ends, or with a
    write past the end of a buffer. *)
Inductive outcome (A : Type) :=
  | Done (a : A)
  | Diverges
  | Overruns.
Arguments Done {_} _.
Arguments Diverges {_}.
Arguments Overruns {_}.

Definition set_inodes (s : ramfs) (l : list Inode) : ramfs := {| m_inodes := l; m_fds := m_fds s |}.
Definition set_fds (s : ramfs) (l : list FileDescriptor) : ramfs :=
  {| m_inodes := m_inodes s; m_fds := l |}.

(** ** Paths *)

Fixpoint normalize_loop (rest out : text) (prev_slash : bool) (out_size : Z) : option text :=
  match rest with
  | [] => Some out
  | c :: rest =>
      if Ascii.eqb c slash then
        if prev_slash then normalize_loop rest out prev_slash out_size
        else if out_size <=? text_len out + 1 then None
        else normalize_loop rest (out ++ [slash]) true out_size
      else if out_size <=? text_len out + 1 then None
      else normalize_loop rest (out ++ [c]) false out_size
  end.

Definition drop_trailing_slash (out : text) : text :=
  if (1 <? text_len out) && match last out with Some c => Ascii.eqb c slash | None => false end
  then take (length out - 1) out else out.

Definition normalize_path (path : option text) (out_size : Z) : option text :=
  match path with
  | None => None
  | Some path =>
      if out_size <? 2 then None
      else
        match path with
        | c :: rest =>
            if Ascii.eqb c slash then
              drop_trailing_slash <$> normalize_loop rest [slash] true out_size
            else None
        | [] => None
        end
  end.

Definition find_inode (s : ramfs) (path : text) : option nat :=
  find_slot (λ i, in_used i && text_equal (in_name i) path) (m_inodes s).

Definition create_inode (s : ramfs) (path : text) (is_directory : bool) : option (nat * ramfs) :=
  match find_slot (λ i, negb (in_used i)) (m_inodes s) with
  | None => None
  | Some k =>
      Some (k, set_inodes s
        (<[k := {| in_used := true; in_is_directory := is_directory;
                   in_name := copy_text path 64; in_data := None;
                   in_size := 0; in_capacity := 0 |}]> (m_inodes s)))
  end.

(** [for (i = 0; i < len; ++i) if (parent[i] == '/') last_slash = i;] *)
Fixpoint last_slash_from (t : text) (i acc : Z) : Z :=
  match t with
  | [] => acc
  | c :: t => last_slash_from t (i + 1) (if Ascii.eqb c slash then i else acc)
  end.

Definition parent_of (path : text) : text :=
  let parent := copy_text path 64 in
  let last_slash := last_slash_from parent 0 (-1) in
  if last_slash <=? 0 then take 1 parent else take (Z.to_nat last_slash) parent.

Definition inode_at (s : ramfs) (k : nat) : Inode := default blank_inode (m_inodes s !! k).

Definition parent_directory_exists (s : ramfs) (normalized_path : text) : bool :=
  if text_equal normalized_path [slash] then true
  else if text_len normalized_path <? 2 then false
  else if 64 <=? text_len normalized_path then false
  else
    match find_inode s (parent_of normalized_path) with
    | Some k => in_is_directory (inode_at s k)
    | None => false
    end.

(** ** Descriptors *)

Definition alloc_fd (s : ramfs) : Z :=
  match find_slot (λ d, negb (fd_used d)) (m_fds s) with
  | Some i => Z.of_nat i
  | None => -1
  end.

Definition get_fd (s : ramfs) (fd : Z) : option (nat * FileDescriptor) :=
  let index := fd - kFdOffset in
  if (index <? 0) || (kMaxFds <=? u32 index) then None
  else
    match m_fds s !! Z.to_nat index with
    | Some d => if fd_used d then Some (Z.to_nat index, d) else None
    | None => None
    end.

(** ** File data *)

(** [while (new_capacity < required) new_capacity *= 2;] *)
Fixpoint grow (fuel : nat) (new_capacity required : Z) : option Z :=
  match fuel with
  | O => None
  | S fuel =>
      if new_capacity <? required then grow fuel (new_capacity *u 2) required
      else Some new_capacity
  end.

(** Overwriting a buffer from an offset on. *)
Definition splice (buf : list Z) (off : nat) (bs : list Z) : list Z :=
  take off buf ++ bs ++ drop (off + length bs) buf.

(** [copy_bytes(buf + off, src, len)]: [None] when it leaves the buffer. *)
Definition copy_into (buf : option (list Z)) (off : Z) (bs : list Z) : option (option (list Z)) :=
  match bs with
  | [] => Some buf
  | _ =>
      match buf with
      | None => None
      | Some b => if off + Z.of_nat (length bs) <=? Z.of_nat (length b)
                  then Some (Some (splice b (Z.to_nat off) bs)) else None
      end
  end.

Section ramfs.
Context (new_bytes : Z → option (list Z)).

Definition ensure_capacity (i : Inode) (required : Z) : outcome (option Inode) :=
  if required <=? in_capacity i then Done (Some i)
  else
    let c := if in_capacity i =? 0 then 64 else in_capacity i in
    match grow 33 c required with
    | None => Diverges
    | Some c =>
        match new_bytes c with
        | None => Done None
        | Some fresh =>
            let data := match in_data i with
                        | Some d => if 0 <? in_size i
                                    then splice fresh 0 (take (Z.to_nat (in_size i)) d) else fresh
                        | None => fresh
                        end in
            Done (Some {| in_used := in_used i; in_is_directory := in_is_directory i;
                          in_name := in_name i; in_data := Some data;
                          in_size := in_size i; in_capacity := c |})
        end
    end.

Definition set_data_size (i : Inode) (data : option (list Z)) (size : Z) : Inode :=
  {| in_used := in_used i; in_is_directory := in_is_directory i; in_name := in_name i;
     in_data := data; in_size := size; in_capacity := in_capacity i |}.

(** ** Operations *)

Definition wipe (s : ramfs) : ramfs :=
  {| m_inodes := (λ _, blank_inode) <$> m_inodes s; m_fds := (λ _, blank_fd) <$> m_fds s |}.

Definition reset (s : ramfs) : ramfs :=
  let s := wipe s in
  match create_inode s [slash] true with Some (_, s) => s | None => s end.

Definition open_truncates (flags : Z) : bool :=
  negb (Z.land flags kOpenTruncate =? 0) && negb (Z.land flags kOpenWrite =? 0).

(** The tail of [open] once the inode is known. *)
Definition open_inode (s : ramfs) (k : nat) (flags : Z) : Z * ramfs :=
  let i := inode_at s k in
  if in_is_directory i then (-1, s)
  else
    let s := if open_truncates flags
             then set_inodes s (<[k := set_data_size i (in_data i) 0]> (m_inodes s)) else s in
    let fd_index := alloc_fd s in
    if fd_index <? 0 then (-1, s)
    else (fd_index + kFdOffset,
          set_fds s (<[Z.to_nat fd_index :=
                       {| fd_used := true; fd_inode := Some k; fd_offset := 0; fd_flags := flags |}]>
                     (m_fds s))).

Definition open (s : ramfs) (path : option text) (flags : Z) : Z * ramfs :=
  match normalize_path path 64 with
  | None => (-1, s)
  | Some normalized =>
      if text_equal normalized [slash] then (-1, s)
      else
        match find_inode s normalized with
        | Some k => open_inode s k flags
        | None =>
            if Z.land flags kOpenCreate =? 0 then (-1, s)
            else if negb (parent_directory_exists s normalized) then (-1, s)
            else
              match create_inode s normalized false with
              | None => (-1, s)
              | Some (k, s) => open_inode s k flags
              end
        end
  end.

(** [read]: the bytes put in the caller's buffer come with the result. *)
Definition read (s : ramfs) (fd : Z) (buf_null : bool) (count : Z) : Z * list Z * ramfs :=
  if buf_null then (-1, [], s)
  else
    match get_fd s fd with
    | None => (-1, [], s)
    | Some (j, desc) =>
        match fd_inode desc with
        | None => (-1, [], s)
        | Some k =>
            if Z.land (fd_flags desc) kOpenRead =? 0 then (-1, [], s)
            else
              let i := inode_at s k in
              if in_size i <=? fd_offset desc then (0, [], s)
              else
                let remaining := in_size i -u fd_offset desc in
                let n := if count <? remaining then count else remaining in
                let bytes := take (Z.to_nat n) (drop (Z.to_nat (fd_offset desc)) (default [] (in_data i))) in
                (i32 n, bytes,
                 set_fds s (<[j := {| fd_used := fd_used desc; fd_inode := fd_inode desc;
                                      fd_offset := fd_offset desc +u n; fd_flags := fd_flags desc |}]>
                            (m_fds s)))
        end
    end.

(** [write]: the caller's buffer is [bs], and [count] its length. *)
Definition write (s : ramfs) (fd : Z) (bs : option (list Z)) : outcome (Z * ramfs) :=
  match bs with
  | None => Done (-1, s)
  | Some bs =>
      match get_fd s fd with
      | None => Done (-1, s)
      | Some (j, desc) =>
          match fd_inode desc with
          | None => Done (-1, s)
          | Some k =>
              if Z.land (fd_flags desc) kOpenWrite =? 0 then Done (-1, s)
              else
                let count := Z.of_nat (length bs) in
                let end_ := fd_offset desc +u count in
                match ensure_capacity (inode_at s k) end_ with
                | Diverges => Diverges
                | Overruns => Overruns
                | Done None => Done (-1, s)
                | Done (Some i) =>
                    match copy_into (in_data i) (fd_offset desc) bs with
                    | None => Overruns
                    | Some data =>
                        let size := if in_size i <? end_ then end_ else in_size i in
                        Done (i32 count,
                          {| m_inodes := <[k := set_data_size i data size]> (m_inodes s);
                             m_fds := <[j := {| fd_used := fd_used desc; fd_inode := fd_inode desc;
                                                fd_offset := end_; fd_flags := fd_flags desc |}]>
                                      (m_fds s) |})
                    end
                end
          end
      end
  end.

Definition close (s : ramfs) (fd : Z) : Z * ramfs :=
  match get_fd s fd with
  | None => (-1, s)
  | Some (j, _) => (0, set_fds s (<[j := blank_fd]> (m_fds s)))
  end.

Definition md (s : ramfs) (path : option text) : Z * ramfs :=
  match normalize_path path 64 with
  | None => (-1, s)
  | Some normalized =>
      if text_equal normalized [slash] then (0, s)
      else
        match find_inode s normalized with
        | Some k => (if in_is_directory (inode_at s k) then 0 else -1, s)
        | None =>
            if negb (parent_directory_exists s normalized) then (-1, s)
            else
              match create_inode s normalized true with
              | None => (-1, s)
              | Some (_, s) => (0, s)
              end
        end
  end.

(** The name under which [readdir] lists an inode of the directory, if it does. *)
Definition child_name (normalized : text) (i : Inode) : option text :=
  if negb (in_used i) || text_equal (in_name i) normalized then None
  else
    let child :=
      if text_equal normalized [slash] then
        match in_name i with
        | c :: d :: rest => if Ascii.eqb c slash then Some (d :: rest) else None
        | _ => None
        end
      else
        let prefix := copy_text normalized 64 in
        if 64 <=? text_len prefix + 1 then None
        else if text_starts_with (in_name i) (prefix ++ [slash])
             then Some (drop (length normalized + 1) (in_name i)) else None in
    match child with
    | Some (c :: r) => if has_char slash (c :: r) then None else Some (c :: r)
    | _ => None
    end.

Fixpoint list_dir (l : list Inode) (normalized : text) (room : nat) : list DirEntry :=
  match l, room with
  | i :: l, S room' =>
      match child_name normalized i with
      | Some name =>
          {| de_name := copy_text name 64; de_is_directory := in_is_directory i |}
            :: list_dir l normalized room'
      | None => list_dir l normalized room
      end
  | _, _ => []
  end.

Definition readdir (s : ramfs) (path : option text) (entries_null : bool) (max_entries : Z)
    : Z * list DirEntry :=
  if entries_null || (max_entries =? 0) then (-1, [])
  else
    match normalize_path path 64 with
    | None => (-1, [])
    | Some normalized =>
        match find_inode s normalized with
        | Some k =>
            if negb (in_is_directory (inode_at s k)) then (-1, [])
            else
              let out := list_dir (m_inodes s) normalized (Z.to_nat max_entries) in
              (Z.of_nat (length out), out)
        | None => (-1, [])
        end
    end.

Definition inode_in_use (s : ramfs) (k : nat) : bool :=
  existsb (λ d, fd_used d && bool_decide (fd_inode d = Some k)) (m_fds s).

Definition has_descendant (s : ramfs) (normalized prefix : text) : bool :=
  existsb (λ i, in_used i && negb (text_equal (in_name i) normalized) &&
                text_starts_with (in_name i) prefix) (m_inodes s).

Definition rd (s : ramfs) (path : option text) : Z * ramfs :=
  match normalize_path path 64 with
  | None => (-1, s)
  | Some normalized =>
      if text_equal normalized [slash] then (-1, s)
      else
        match find_inode s normalized with
        | None => (-1, s)
        | Some k =>
            if negb (in_is_directory (inode_at s k)) then (-1, s)
            else
              let prefix := copy_text normalized 64 in
              if 64 <=? text_len prefix + 1 then (-1, s)
              else if has_descendant s normalized (prefix ++ [slash]) then (-1, s)
              else if inode_in_use s k then (-1, s)
              else (0, set_inodes s (<[k := blank_inode]> (m_inodes s)))
        end
  end.

Definition unlink (s : ramfs) (path : option text) : Z * ramfs :=
  match normalize_path path 64 with
  | None => (-1, s)
  | Some normalized =>
      if text_equal normalized [slash] then (-1, s)
      else
        match find_inode s normalized with
        | None => (-1, s)
        | Some k =>
            if in_is_directory (inode_at s k) then (-1, s)
            else if inode_in_use s k then (-1, s)
            else
              let i := inode_at s k in
              (0, set_inodes s (<[k := {| in_used := false; in_is_directory := in_is_directory i;
                                          in_name := []; in_data := None; in_size := 0;
                                          in_capacity := 0 |}]> (m_inodes s)))
        end
  end.

(** ** [init]: the tree the system boots with *)

Definition kInitElf : list Z :=
  [127; 69; 76; 70; 1; 1; 1; 0; 0; 0; 0; 0;
   0; 0; 0; 0; 2; 0; 3; 0; 1; 0; 0; 0;
   84; 0; 0; 8; 52; 0; 0; 0; 0; 0; 0; 0;
   0; 0; 0; 0; 52; 0; 32; 0; 1; 0; 0; 0;
   0; 0; 0; 0; 1; 0; 0; 0; 0; 0; 0; 0;
   0; 0; 0; 8; 0; 0; 0; 8; 98; 0; 0; 0;
   98; 0; 0; 0; 5; 0; 0; 0; 0; 16; 0; 0;
   184; 2; 0; 0; 0; 187; 42; 0; 0; 0; 205; 128;
   235; 254].

Inductive seed :=
  | SeedDir (path : text)
  | SeedFile (path : text) (contents : list Z)
  | SeedHome (base : text).

Definition kHomeEntries : list text :=
  [txt "Desktop"; txt "Documents"; txt "Downloads"; txt "Images"; txt "Musics";
   txt "Templates"; txt "Videos"; txt "Workspace"; txt "Docs"].

Definition newline : text := [ascii_of_nat 10].

Definition init_seeds : list seed :=
  [SeedDir (txt "/");
   SeedFile (txt "/test.txt") (bytes_of (txt "Hello from ramfs!" ++ newline));
   SeedDir (txt "/bin"); SeedDir (txt "/home"); SeedDir (txt "/home/root"); SeedDir (txt "/root");
   SeedDir (txt "/etc"); SeedDir (txt "/usr"); SeedDir (txt "/usr/bin"); SeedDir (txt "/usr/share");
   SeedDir (txt "/usr/share/doc"); SeedDir (txt "/usr/share/doc/wirth"); SeedDir (txt "/var");
   SeedDir (txt "/var/lib"); SeedDir (txt "/var/lib/wirth"); SeedDir (txt "/var/lib/wirth/pkgdb");
   SeedDir (txt "/opt"); SeedDir (txt "/opt/demo"); SeedDir (txt "/etc/apt");
   SeedDir (txt "/etc/apt/sources.list.d");
   SeedFile (txt "/etc/passwd") (bytes_of (txt "root:x:0:0:root:/root:/bin/init.elf" ++ newline));
   SeedFile (txt "/root/.profile") [];
   SeedHome (txt "/root"); SeedHome (txt "/home/root");
   SeedFile (txt "/bin/init.elf") kInitElf].

(** The path built in the 64-byte buffer of [seed_home]. *)
Definition home_path (base entry : text) : option text :=
  let path := take 63 base in
  if (text_len path =? 0) || (64 <=? text_len path + 1) then None
  else
    let path := match last path with
                | Some c => if Ascii.eqb c slash then path else path ++ [slash]
                | None => path
                end in
    if 64 <=? text_len path + text_len entry then None else Some (path ++ entry).

Definition seed_file (s : ramfs) (path : text) (contents : list Z) : outcome (bool * ramfs) :=
  match create_inode s path false with
  | None => Done (false, s)
  | Some (k, s) =>
      match ensure_capacity (inode_at s k) (Z.of_nat (length contents)) with
      | Diverges => Diverges
      | Overruns => Overruns
      | Done None => Done (false, s)
      | Done (Some i) =>
          match copy_into (in_data i) 0 contents with
          | None => Overruns
          | Some data =>
              Done (true, set_inodes s
                (<[k := set_data_size i data (Z.of_nat (length contents))]> (m_inodes s)))
          end
      end
  end.

Definition seed_dir (s : ramfs) (path : text) : bool * ramfs :=
  match create_inode s path true with
  | None => (false, s)
  | Some (_, s) => (true, s)
  end.

Fixpoint seed_home (s : ramfs) (base : text) (entries : list text) : bool * ramfs :=
  match entries with
  | [] => (true, s)
  | e :: entries =>
      match home_path base e with
      | None => (false, s)
      | Some path =>
          let '(ok, s) := seed_dir s path in
          if ok then seed_home s base entries else (false, s)
      end
  end.

Fixpoint run_seeds (s : ramfs) (seeds : list seed) : outcome (bool * ramfs) :=
  match seeds with
  | [] => Done (true, s)
  | x :: seeds =>
      let r := match x with
               | SeedDir path => Done (seed_dir s path)
               | SeedFile path contents => seed_file s path contents
               | SeedHome base => Done (seed_home s base kHomeEntries)
               end in
      match r with
      | Done (true, s) => run_seeds s seeds
      | r => r
      end
  end.

Definition init (s : ramfs) : outcome (bool * ramfs) := run_seeds (wipe s) init_seeds.
End ramfs.

(** ** Normalisation *)

(** The output buffer after the components [cs] and a partial component [acc]. *)
Definition written (cs : list text) (acc : text) : text :=
  concat ((λ c, slash :: c) <$> cs) ++ slash :: acc.

Lemma written_snoc cs acc : acc ≠ [] → written (cs ++ [acc]) [] = written cs acc ++ [slash].
Proof.
  intros _. unfold written. rewrite fmap_app, concat_app. cbn [fmap list_fmap concat].
  by rewrite app_nil_r, <- !app_assoc.
Qed.

Lemma written_trim cs acc :
  slash ∉ acc →
  drop_trailing_slash (written cs acc) = render (cs ++ match acc with [] => [] | _ => [acc] end).
Proof.
  intros Hacc. unfold drop_trailing_slash, text_len. destruct acc as [|a acc _] using rev_ind.
  - rewrite app_nil_r. unfold written. rewrite last_snoc. cbn [Ascii.eqb].
    replace (Ascii.eqb slash slash) with true by done. rewrite andb_true_r, length_app. cbn [length].
    destruct cs as [|c cs]; [done|]. rewrite (proj2 (Z.ltb_lt _ _)) by (cbn; lia).
    replace (length (concat ((λ c0, slash :: c0) <$> c :: cs)) + 1 - 1)%nat
      with (length (concat ((λ c0, slash :: c0) <$> c :: cs))) by lia.
    rewrite take_app_length. done.
  - unfold written. rewrite app_comm_cons, app_assoc, last_snoc.
    rewrite (proj2 (Ascii.eqb_neq a slash)) by set_solver. rewrite andb_false_r.
    replace (match acc ++ [a] with [] => [] | _ => [acc ++ [a]] end) with [acc ++ [a]] by (by destruct acc).
    rewrite render_snoc. by rewrite app_comm_cons, app_assoc.
Qed.

Lemma normalize_loop_sound rest : ∀ cs acc size out,
  slash ∉ acc → text_len (written cs acc) < size →
  normalize_loop rest (written cs acc) (bool_decide (acc = [])) size = Some out →
  drop_trailing_slash out = render (cs ++ split_path rest acc) ∧ text_len out < size.
Proof.
  induction rest as [|c rest IH]; intros cs acc size out Hacc Hlen; cbn [normalize_loop split_path].
  { intros [= <-]. split; [by apply written_trim|done]. }
  destruct (Ascii.eqb c slash) eqn:E.
  - destruct acc as [|a acc]; cbn [bool_decide decide_rel].
    + rewrite bool_decide_eq_true_2 by done. intros H.
      apply (IH cs []); [done|done|]. by rewrite bool_decide_eq_true_2 by done.
    + rewrite bool_decide_eq_false_2 by done. destruct (size <=? _) eqn:E2; [done|]. zbool.
      rewrite <- written_snoc by done. intros H.
      destruct (IH (cs ++ [a :: acc]) [] size out) as [H1 H2]; [set_solver| | |].
      * rewrite written_snoc by done. unfold text_len in *. rewrite length_app. cbn [length]. lia.
      * by rewrite bool_decide_eq_true_2 by done.
      * by rewrite H1, <- app_assoc.
  - apply Ascii.eqb_neq in E. destruct (size <=? _) eqn:E2; [done|]. zbool.
    replace (written cs acc ++ [c]) with (written cs (acc ++ [c]))
      by (unfold written; by rewrite <- app_assoc).
    intros H. apply (IH cs (acc ++ [c])); [rewrite elem_of_app; set_solver| |].
    + unfold written, text_len in *. rewrite length_app in *. cbn [length] in *.
      rewrite length_app. cbn [length]. lia.
    + rewrite bool_decide_eq_false_2 by (by destruct acc). done.
Qed.

Lemma render_length_app cs ds : (length (render cs) <= length (render (cs ++ ds)))%nat.
Proof.
  destruct cs as [|c cs].
  - destruct ds; cbn; lia.
  - change ((c :: cs) ++ ds) with (c :: (cs ++ ds)). rewrite !render_cons. cbn [length].
    rewrite !length_app, fmap_app, concat_app, length_app. lia.
Qed.

Lemma split_path_length rest : ∀ cs acc,
  acc ≠ [] → (length (written cs acc) <= length (render (cs ++ split_path rest acc)))%nat.
Proof.
  induction rest as [|c rest IH]; intros cs acc Hacc; cbn [split_path].
  - destruct acc; [done|]. by rewrite render_snoc.
  - destruct (Ascii.eqb c slash).
    + destruct acc as [|a acc]; [done|]. replace (cs ++ (a :: acc) :: split_path rest [])
        with ((cs ++ [a :: acc]) ++ split_path rest []) by (by rewrite <- app_assoc).
      etrans; [|apply render_length_app]. by rewrite render_snoc.
    + etrans; [|apply IH; by destruct acc]. unfold written. rewrite !length_app. cbn [length].
      rewrite length_app. lia.
Qed.

Lemma normalize_loop_complete rest : ∀ cs acc size,
  slash ∉ acc → text_len (render (cs ++ split_path rest acc)) + 1 < size →
  is_Some (normalize_loop rest (written cs acc) (bool_decide (acc = [])) size).
Proof.
  induction rest as [|c rest IH]; intros cs acc size Hacc Hlen; cbn [normalize_loop]; [done|].
  destruct (Ascii.eqb c slash) eqn:E.
  - cbn [split_path] in Hlen. rewrite E in Hlen. destruct acc as [|a acc].
    + rewrite bool_decide_eq_true_2 by done. specialize (IH cs [] size Hacc Hlen).
      by rewrite bool_decide_eq_true_2 in IH by done.
    + rewrite bool_decide_eq_false_2 by done.
      pose proof (split_path_length [] cs (a :: acc) ltac:(done)) as Hl. cbn [split_path] in Hl.
      pose proof (render_length_app (cs ++ [a :: acc]) (split_path rest [])) as Hl2.
      rewrite <- app_assoc in Hl2. cbn [app] in Hl2. unfold text_len in *.
      rewrite (proj2 (Z.leb_gt _ _)) by lia. rewrite <- written_snoc by done.
      specialize (IH (cs ++ [a :: acc]) [] size). rewrite bool_decide_eq_true_2 in IH by done.
      apply IH; [set_solver|]. by rewrite <- app_assoc.
  - cbn [split_path] in Hlen. rewrite E in Hlen. apply Ascii.eqb_neq in E.
    pose proof (split_path_length rest cs (acc ++ [c]) ltac:(by destruct acc)) as Hl.
    assert (length (written cs (acc ++ [c])) = S (length (written cs acc))) as Hw.
    { unfold written. rewrite !length_app. cbn [length]. rewrite length_app. cbn [length]. lia. }
    unfold text_len in *. rewrite (proj2 (Z.leb_gt _ _)) by lia.
    replace (written cs acc ++ [c]) with (written cs (acc ++ [c]))
      by (unfold written; by rewrite <- app_assoc).
    specialize (IH cs (acc ++ [c]) size). rewrite bool_decide_eq_false_2 in IH by (by destruct acc).
    apply IH; [rewrite elem_of_app; set_solver|done].
Qed.

Lemma normalize_sound p size q :
  normalize_path (Some p) size = Some q →
  (∃ r, p = slash :: r) ∧ q = render (components p) ∧ canonical q ∧ text_len q < size.
Proof.
  unfold normalize_path. destruct (size <? 2) eqn:E; [done|]. zbool.
  destruct p as [|c r]; [done|]. destruct (Ascii.eqb c slash) eqn:Ec; [|done].
  apply Ascii.eqb_eq in Ec as ->. intros (out & H & ->)%fmap_Some.
  destruct (normalize_loop_sound r [] [] size out) as [H1 H2]; [set_solver|change (1 < size); lia|done|].
  rewrite H1. cbn [app]. assert (components (slash :: r) = split_path r []) as -> by done.
  split_and!; [by exists r|done| |].
  - eexists. split; [|done]. apply split_path_ok. set_solver.
  - cbn [app] in H1. rewrite <- H1. unfold drop_trailing_slash, text_len in *. case_match; [|done].
    rewrite length_take. lia.
Qed.

(** [normalize_path] computes the canonical spelling of an absolute path:
    its non-empty components, each behind one slash, or a single slash.  It
    succeeds for every absolute path whose canonical spelling leaves room for
    one more character and the terminator, fails on relative paths, and is
    idempotent. *)
Lemma normalize_path_spec (r : text) (size : Z) :
  2 <= size →
  (∀ q, normalize_path (Some (slash :: r)) size = Some q →
        q = render (components (slash :: r)) ∧ canonical q ∧ text_len q < size) ∧
  (text_len (render (components (slash :: r))) + 1 < size →
   normalize_path (Some (slash :: r)) size = Some (render (components (slash :: r))) ∧
   normalize_path (Some (render (components (slash :: r)))) size
   = Some (render (components (slash :: r)))) ∧
  (∀ c, c ≠ slash → normalize_path (Some (c :: r)) size = None) ∧
  normalize_path None size = None.
Proof.
  intros Hs.
  assert (∀ r, text_len (render (components (slash :: r))) + 1 < size →
    normalize_path (Some (slash :: r)) size = Some (render (components (slash :: r)))) as Hc.
  { intros r' Hlen. destruct (normalize_loop_complete r' [] [] size) as [out Hout]; [set_solver|done|].
    assert (normalize_path (Some (slash :: r')) size = Some (drop_trailing_slash out)) as H.
    { unfold normalize_path. rewrite (proj2 (Z.ltb_ge size 2)) by lia.
      replace (Ascii.eqb slash slash) with true by done.
      change [slash] with (written [] []). rewrite bool_decide_eq_true_2 in Hout by done. by rewrite Hout. }
    rewrite H. f_equal. by apply normalize_sound in H as (_ & -> & _). }
  split_and!; [|split; [by apply Hc|]| |done].
  - intros q Hq. by apply normalize_sound in Hq as (_ & ? & ? & ?).
  - pose proof (components_ok (slash :: r)) as Hok.
    assert (∃ r', render (components (slash :: r)) = slash :: r') as [r' E]
      by (destruct (components (slash :: r)); eexists; reflexivity).
    pose proof (components_render _ Hok) as Hcr. rewrite E in *. rewrite Hc; rewrite Hcr, E; done.
  - intros c Hcne. unfold normalize_path. rewrite (proj2 (Z.ltb_ge size 2)) by lia.
    by rewrite (proj2 (Ascii.eqb_neq c slash)) by done.
Qed.

Lemma normalize_path_spec_witness :
  normalize_path (Some (txt "//usr///share/doc/")) 64 = Some (txt "/usr/share/doc").
Proof.
  destruct (normalize_path_spec (txt "/usr///share/doc/") 64 ltac:(lia)) as (_ & H & _).
  exact (proj1 (H ltac:(reflexivity))).
Defined.

(** ** Parents *)

Lemma last_slash_from_none t i acc : slash ∉ t → last_slash_from t i acc = acc.
Proof.
  revert i acc. induction t as [|c t IH]; intros i acc Ht; cbn [last_slash_from]; [done|].
  rewrite (proj2 (Ascii.eqb_neq c slash)) by set_solver. apply IH. set_solver.
Qed.

Lemma last_slash_from_app a b i acc :
  slash ∉ b → last_slash_from (a ++ slash :: b) i acc = i + Z.of_nat (length a).
Proof.
  intros Hb. revert i acc. induction a as [|c a IH]; intros i acc; cbn [app last_slash_from length].
  - replace (Ascii.eqb slash slash) with true by done. rewrite last_slash_from_none by done. lia.
  - rewrite IH. lia.
Qed.

Lemma parent_of_render cs c :
  component_ok c → text_len (render (cs ++ [c])) < 64 → parent_of (render (cs ++ [c])) = render cs.
Proof.
  intros [Hc1 Hc2] Hlen. unfold parent_of. rewrite copy_text_id by done. rewrite render_snoc.
  rewrite last_slash_from_app by done. destruct cs as [|d cs]; [done|].
  rewrite (proj2 (Z.leb_gt _ _)) by (cbn; lia).
  rewrite Z.add_0_l, Nat2Z.id, take_app_length. done.
Qed.

(** A canonical path other than the root is a parent and a last component. *)
Lemma canonical_cases p :
  canonical p → p = [slash] ∨ ∃ cs c, Forall component_ok cs ∧ component_ok c ∧ p = render (cs ++ [c]).
Proof.
  intros (cs & Hcs & ->). destruct cs as [|c cs _] using rev_ind; [by left|right].
  apply Forall_app in Hcs as [H1 H2]. inversion H2; subst. by exists cs, c.
Qed.

Lemma root_canonical : canonical [slash].
Proof. by exists []. Qed.

Lemma parent_canonical p : canonical p → text_len p < 64 → canonical (parent_of p) ∧ (length (parent_of p) <= length p)%nat.
Proof.
  intros Hp Hlen. destruct (canonical_cases p Hp) as [->|(cs & c & Hcs & Hc & ->)]; [by split; [apply root_canonical|]|].
  rewrite parent_of_render by done. split; [by exists cs|]. apply render_length_app.
Qed.

(** ** Invariant *)

Definition capacity_ok (c : Z) : Prop := c = 0 ∨ ∃ k, 0 <= k <= 25 ∧ c = 64 * 2 ^ k.

Record inode_ok (i : Inode) : Prop := {
  io_canonical : canonical (in_name i);
  io_len : text_len (in_name i) < 64;
  io_data : match in_data i with
            | None => in_capacity i = 0 ∧ in_size i = 0
            | Some d => Z.of_nat (length d) = in_capacity i ∧ 0 <= in_size i <= in_capacity i
            end;
  io_capacity : capacity_ok (in_capacity i);
}.

(** The inode of slot [k], when it is in use. *)
Definition live_inode (s : ramfs) (k : nat) (i : Inode) : Prop :=
  m_inodes s !! k = Some i ∧ in_used i = true.

Record fs_ok (s : ramfs) : Prop := {
  fo_inodes : length (m_inodes s) = 64%nat;
  fo_fds : length (m_fds s) = 32%nat;
  fo_inode : ∀ k i, live_inode s k i → inode_ok i;
  fo_unique : ∀ k l i j, live_inode s k i → live_inode s l j → in_name i = in_name j → k = l;
  fo_root : ∃ k i, live_inode s k i ∧ in_name i = [slash] ∧ in_is_directory i = true;
  fo_parent : ∀ k i, live_inode s k i →
    ∃ l j, live_inode s l j ∧ in_name j = parent_of (in_name i) ∧ in_is_directory j = true;
  fo_open : ∀ n d, m_fds s !! n = Some d → fd_used d = true →
    0 <= fd_offset d < 4294967296 ∧
    ∃ k i, fd_inode d = Some k ∧ live_inode s k i ∧ in_is_directory i = false;
}.

(** ** The abstract file system: a tree of directories and files by path *)

Inductive node := Dir | File (contents : list Z).

#[export] Instance node_eq_dec : EqDecision node.
Proof. solve_decision. Defined.

Definition contents_of (i : Inode) : list Z := take (Z.to_nat (in_size i)) (default [] (in_data i)).
Definition node_of (i : Inode) : node := if in_is_directory i then Dir else File (contents_of i).
Definition view (s : ramfs) (p : text) : option node := (λ k, node_of (inode_at s k)) <$> find_inode s p.

Lemma find_inode_Some s p k : find_inode s p = Some k → ∃ i, live_inode s k i ∧ in_name i = p.
Proof.
  intros [(i & Hi & Hp) _]%find_slot_Some. apply andb_true_iff in Hp as [? ?%text_equal_eq]. by exists i.
Qed.

Lemma find_inode_live s p k i : fs_ok s → live_inode s k i → in_name i = p → find_inode s p = Some k.
Proof.
  intros Hok Hl Hn. destruct (find_inode s p) as [l|] eqn:E.
  - apply find_inode_Some in E as (j & Hj & Hnj). f_equal. eapply (fo_unique s Hok); [done..|congruence].
  - exfalso. destruct Hl as [Hl Hu]. unfold find_inode in E.
    pose proof (proj1 (find_slot_None _ _) E k i Hl) as Hf. cbn beta in Hf.
    rewrite Hu, (proj2 (text_equal_eq _ _) Hn) in Hf. done.
Qed.

Lemma find_inode_None s p : find_inode s p = None → ∀ k i, live_inode s k i → in_name i ≠ p.
Proof.
  intros H k i [Hl Hu] Hn. unfold find_inode in H.
  pose proof (proj1 (find_slot_None _ _) H k i Hl) as Hf. cbn beta in Hf.
  rewrite Hu, (proj2 (text_equal_eq _ _) Hn) in Hf. done.
Qed.

Lemma inode_at_live s k i : live_inode s k i → inode_at s k = i.
Proof. intros [H _]. unfold inode_at. by rewrite H. Qed.

Lemma view_Some s p n :
  fs_ok s → view s p = Some n ↔ ∃ k i, live_inode s k i ∧ in_name i = p ∧ n = node_of i.
Proof.
  intros Hok. unfold view. rewrite fmap_Some. split.
  - intros (k & Hk & ->). apply find_inode_Some in Hk as (i & Hi & Hn). exists k, i.
    by rewrite (inode_at_live s k i Hi).
  - intros (k & i & Hi & Hn & ->). exists k. split; [by eapply find_inode_live|].
    by rewrite (inode_at_live s k i Hi).
Qed.

Lemma view_None s p :
  fs_ok s → view s p = None ↔ ∀ k i, live_inode s k i → in_name i ≠ p.
Proof.
  intros Hok. unfold view. rewrite fmap_None. split; [by apply find_inode_None|].
  intros H. destruct (find_inode s p) as [k|] eqn:E; [|done].
  apply find_inode_Some in E as (i & Hi & Hn). by destruct (H k i Hi).
Qed.

(** Two states with the same answers, path by path. *)
Lemma view_ext s s' p :
  fs_ok s → fs_ok s' →
  (∀ n, (∃ k i, live_inode s k i ∧ in_name i = p ∧ n = node_of i) ↔
        (∃ k i, live_inode s' k i ∧ in_name i = p ∧ n = node_of i)) → view s p = view s' p.
Proof.
  intros Hok Hok' H. apply option_eq. intros n. rewrite !view_Some by done. apply H.
Qed.

(** ** Elementary updates and the invariant *)

Lemma live_insert s k x j i :
  (k < length (m_inodes s))%nat →
  live_inode (set_inodes s (<[k := x]> (m_inodes s))) j i ↔
  (j = k ∧ i = x ∧ in_used x = true) ∨ (j ≠ k ∧ live_inode s j i).
Proof.
  intros Hk. unfold live_inode. cbn [m_inodes set_inodes]. destruct (decide (j = k)) as [->|].
  - rewrite list_lookup_insert_eq by done. naive_solver.
  - rewrite list_lookup_insert_ne by done. naive_solver.
Qed.

(** A live inode replaced by another of the same name and kind. *)
Lemma update_inode_ok s k i x :
  fs_ok s → live_inode s k i → in_used x = true → in_name x = in_name i →
  in_is_directory x = in_is_directory i → inode_ok x →
  let s' := set_inodes s (<[k := x]> (m_inodes s)) in
  fs_ok s' ∧ ∀ q, view s' q = if text_equal q (in_name i) then Some (node_of x) else view s q.
Proof.
  intros Hok Hl Hu Hn Hd Hx s'. pose proof (lookup_lt_Some _ _ _ (proj1 Hl)) as Hk.
  pose proof (live_insert s k x) as HL. fold s' in HL.
  assert (∀ l j, live_inode s l j → ∃ j', live_inode s' l j' ∧ in_name j' = in_name j ∧
                                          in_is_directory j' = in_is_directory j) as Hkeep.
  { intros l j Hj. destruct (decide (l = k)) as [->|].
    - destruct Hl as [Hl1 Hl2], Hj as [Hj1 Hj2]. simplify_eq. exists x. rewrite HL by done. auto.
    - exists j. rewrite HL by done. auto. }
  assert (∀ l j, live_inode s' l j → ∃ j', live_inode s l j' ∧ in_name j' = in_name j) as Hback.
  { intros l j [(-> & -> & _)|[_ Hj]]%HL; [by exists i|by exists j|done]. }
  assert (fs_ok s') as Hok'.
  { pose proof Hok as Hok0. destruct Hok0. split.
    - cbn. by rewrite length_insert.
    - done.
    - intros l j [(-> & -> & _)|[_ Hj]]%HL; [done|by eapply fo_inode0|done].
    - intros l m j o (j' & Hj' & Hnj)%Hback (o' & Ho' & Hno)%Hback E.
      apply (fo_unique0 l m j' o'); [done..|congruence].
    - destruct fo_root0 as (l & j & Hj & Hnj & Hdj). destruct (Hkeep l j Hj) as (j' & Hj' & E1 & E2).
      exists l, j'. split_and!; [done|congruence..].
    - intros l j (j' & Hj' & Hnj)%Hback. destruct (fo_parent0 l j' Hj') as (m & o & Ho & Hno & Hdo).
      destruct (Hkeep m o Ho) as (o' & Ho' & E1 & E2). exists m, o'. split_and!; [done|congruence..].
    - intros n d Hd' Hud. destruct (fo_open0 n d Hd' Hud) as (? & l & j & Hfi & Hj & Hdj). split; [done|].
      destruct (Hkeep l j Hj) as (j' & Hj' & E1 & E2). exists l, j'. split_and!; [done..|congruence]. }
  split; [done|]. intros q. destruct (text_equal q (in_name i)) eqn:E.
  - apply text_equal_eq in E as ->. apply view_Some; [done|]. exists k, x. split_and!; [|done..].
    rewrite HL by done. auto.
  - apply text_equal_ne in E. apply view_ext; [done..|]. intros n. split.
    + intros (l & j & [(-> & -> & _)|[Hne Hj]]%HL & Hnj & ->); [congruence|by exists l, j|done].
    + intros (l & j & Hj & Hnj & ->). exists l, j. rewrite HL by done. split_and!; [|done..]. right.
      split; [|done]. intros ->. destruct Hl, Hj. simplify_eq.
Qed.

(** A new inode under an existing directory. *)
Lemma create_inode_ok s p d k s' :
  fs_ok s → canonical p → text_len p < 64 → find_inode s p = None →
  (∃ l j, live_inode s l j ∧ in_name j = parent_of p ∧ in_is_directory j = true) →
  create_inode s p d = Some (k, s') →
  fs_ok s' ∧ m_fds s' = m_fds s ∧
  live_inode s' k {| in_used := true; in_is_directory := d; in_name := p; in_data := None;
                     in_size := 0; in_capacity := 0 |} ∧
  ∀ q, view s' q = if text_equal q p then Some (if d then Dir else File []) else view s q.
Proof.
  intros Hok Hp Hlen Hnew (pl & pj & Hpl & Hpn & Hpd) Hc. unfold create_inode in Hc.
  destruct (find_slot _ _) as [k'|] eqn:Hf; [|done]. injection Hc as -> <-.
  apply find_slot_Some in Hf as [(o & Ho & Huo) _]. apply negb_true_iff in Huo.
  pose proof (lookup_lt_Some _ _ _ Ho) as Hk. rewrite copy_text_id by done.
  set (x := {| in_used := true |}). set (s' := set_inodes s _).
  pose proof (live_insert s k x) as HL. fold s' in HL.
  pose proof (find_inode_None s p Hnew) as Hne.
  assert (∀ l j, live_inode s l j → l ≠ k) as Hlk.
  { intros l j [Hj1 Hj2] ->. simplify_eq. congruence. }
  assert (∀ l j, live_inode s l j → live_inode s' l j) as Hkeep.
  { intros l j Hj. rewrite HL by done. right. split; [by eapply Hlk|done]. }
  assert (live_inode s' k x) as Hx by (rewrite HL by done; auto).
  assert (inode_ok x) as Hxok by (split; cbn; try done; by left).
  assert (fs_ok s') as Hok'.
  { pose proof Hok as Hok0. destruct Hok0. split.
    - cbn. by rewrite length_insert.
    - done.
    - intros l j [(-> & -> & _)|[_ Hj]]%HL; [done|by eapply fo_inode0|done].
    - intros l m j o' [(-> & -> & _)|[_ Hj]]%HL [(-> & -> & _)|[_ Ho']]%HL E; try done.
      + by destruct (Hne m o' Ho').
      + by destruct (Hne l j Hj).
      + by eapply fo_unique0.
    - destruct fo_root0 as (l & j & Hj & Hnj & Hdj). exists l, j. auto.
    - intros l j [(-> & -> & _)|[_ Hj]]%HL; [by exists pl, pj; auto| |done].
      destruct (fo_parent0 l j Hj) as (m & o' & ? & ? & ?). exists m, o'. auto.
    - intros n fd Hd' Hud. destruct (fo_open0 n fd Hd' Hud) as (? & l & j & Hfi & Hj & Hdj). split; [done|].
      exists l, j. auto. }
  split_and!; [done..|]. intros q. destruct (text_equal q p) eqn:E.
  - apply text_equal_eq in E as ->. apply view_Some; [done|]. exists k, x. split_and!; [done..|].
    unfold node_of. cbn. by destruct d.
  - apply text_equal_ne in E. apply view_ext; [done..|]. intros n. split.
    + intros (l & j & [(-> & -> & _)|[_ Hj]]%HL & Hnj & ->); [cbn in Hnj; congruence|by exists l, j|done].
    + intros (l & j & Hj & Hnj & ->). exists l, j. auto.
Qed.

(** An inode freed when nothing depends on it. *)
Lemma remove_inode_ok s k i x :
  fs_ok s → live_inode s k i → in_used x = false → in_name i ≠ [slash] →
  (∀ l j, live_inode s l j → l ≠ k → parent_of (in_name j) ≠ in_name i) →
  (∀ n d, m_fds s !! n = Some d → fd_used d = true → fd_inode d ≠ Some k) →
  let s' := set_inodes s (<[k := x]> (m_inodes s)) in
  fs_ok s' ∧ ∀ q, view s' q = if text_equal q (in_name i) then None else view s q.
Proof.
  intros Hok Hl Hx Hroot Hchild Hopen s'. pose proof (lookup_lt_Some _ _ _ (proj1 Hl)) as Hk.
  assert (∀ l j, live_inode s' l j ↔ l ≠ k ∧ live_inode s l j) as HL.
  { intros l j. unfold s'. rewrite live_insert by done. rewrite Hx. naive_solver. }
  assert (fs_ok s') as Hok'.
  { pose proof Hok as Hok0. destruct Hok0. split.
    - cbn. by rewrite length_insert.
    - done.
    - intros l j [_ Hj]%HL. by eapply fo_inode0.
    - intros l m j o [_ Hj]%HL [_ Ho]%HL. by eapply fo_unique0.
    - destruct fo_root0 as (l & j & Hj & Hnj & Hdj). exists l, j. rewrite HL. split_and!; try done.
      intros ->. destruct Hl, Hj. simplify_eq.
    - intros l j [Hlk Hj]%HL. destruct (fo_parent0 l j Hj) as (m & o & Ho & Hno & Hdo).
      exists m, o. rewrite HL. split_and!; try done. intros ->.
      apply (Hchild l j Hj Hlk). destruct Hl, Ho. simplify_eq. congruence.
    - intros n d Hd Hu. destruct (fo_open0 n d Hd Hu) as (? & l & j & Hfi & Hj & Hdj). split; [done|].
      exists l, j. rewrite HL. split_and!; try done. intros ->. by apply (Hopen n d). }
  split; [done|]. intros q. destruct (text_equal q (in_name i)) eqn:E.
  - apply text_equal_eq in E as ->. apply view_None; [done|]. intros l j [Hlk Hj]%HL Hn.
    apply Hlk. by eapply (fo_unique s Hok).
  - apply text_equal_ne in E. apply view_ext; [done..|]. intros n. setoid_rewrite HL. split.
    + intros (l & j & [_ Hj] & Hnj & ->). by exists l, j.
    + intros (l & j & Hj & Hnj & ->). exists l, j. split_and!; try done. intros ->.
      destruct Hl, Hj. simplify_eq.
Qed.

(** A descriptor replaced by one that is free or open on a file. *)
Lemma update_fd_ok s n d :
  fs_ok s →
  (fd_used d = true → 0 <= fd_offset d < 4294967296 ∧
     ∃ k i, fd_inode d = Some k ∧ live_inode s k i ∧ in_is_directory i = false) →
  fs_ok (set_fds s (<[n := d]> (m_fds s))) ∧ ∀ q, view (set_fds s (<[n := d]> (m_fds s))) q = view s q.
Proof.
  intros Hok Hd. split; [|done]. destruct Hok. split; try done.
  - cbn. by rewrite length_insert.
  - intros m e He Hu. cbn in He. destruct (decide (m = n)) as [->|].
    + destruct (decide (n < length (m_fds s))%nat).
      * rewrite list_lookup_insert_eq in He by done. simplify_eq. by apply Hd.
      * rewrite list_insert_ge in He by lia. by eapply fo_open0.
    + rewrite list_lookup_insert_ne in He by done. by eapply fo_open0.
Qed.

(** ** Operations on the tree *)

Lemma view_dir s p : fs_ok s →
  view s p = Some Dir ↔ ∃ k i, live_inode s k i ∧ in_name i = p ∧ in_is_directory i = true.
Proof.
  intros Hok. rewrite view_Some by done. unfold node_of. split.
  - intros (k & i & Hi & Hn & E). exists k, i. by destruct (in_is_directory i).
  - intros (k & i & Hi & Hn & E). exists k, i. by rewrite E.
Qed.

Lemma parent_exists_spec s p :
  fs_ok s → canonical p → text_len p < 64 → p ≠ [slash] →
  parent_directory_exists s p = bool_decide (view s (parent_of p) = Some Dir).
Proof.
  intros Hok Hp Hlen Hne. unfold parent_directory_exists.
  rewrite (proj2 (text_equal_ne _ _) Hne), (proj2 (Z.leb_gt _ _) Hlen).
  assert (2 <= text_len p) as Hlen2.
  { destruct (canonical_cases p Hp) as [->|(cs & c & _ & [Hc _] & ->)]; [done|].
    rewrite render_snoc. unfold text_len. rewrite length_app. destruct c; [done|]. cbn [length]. lia. }
  rewrite (proj2 (Z.ltb_ge _ _) Hlen2). unfold view.
  destruct (find_inode s (parent_of p)) as [k|]; cbn; [|by rewrite bool_decide_eq_false_2].
  unfold node_of. destruct (in_is_directory (inode_at s k)).
  - by rewrite bool_decide_eq_true_2.
  - by rewrite bool_decide_eq_false_2.
Qed.

Lemma parent_dir_live s p :
  fs_ok s → view s (parent_of p) = Some Dir →
  ∃ l j, live_inode s l j ∧ in_name j = parent_of p ∧ in_is_directory j = true.
Proof. intros Hok H. by apply view_dir in H. Qed.

Lemma view_root s : fs_ok s → view s [slash] = Some Dir.
Proof. intros Hok. apply view_dir; [done|]. destruct (fo_root s Hok) as (k & i & ? & ? & ?). by exists k, i. Qed.

Lemma find_view s p k : find_inode s p = Some k → view s p = Some (node_of (inode_at s k)).
Proof. intros H. unfold view. by rewrite H. Qed.

Lemma normalize_canonical path p :
  normalize_path path 64 = Some p → canonical p ∧ text_len p < 64.
Proof. destruct path as [q|]; [|done]. intros H. by apply normalize_sound in H as (_ & _ & ? & ?). Qed.

Definition table_full (s : ramfs) : Prop := ∀ k i, m_inodes s !! k = Some i → in_used i = true.

Lemma create_inode_None s p d : create_inode s p d = None → table_full s.
Proof.
  unfold create_inode. destruct (find_slot _ _) eqn:E; [done|]. intros _ k i Hk.
  pose proof (proj1 (find_slot_None _ _) E k i Hk) as H. cbn beta in H. by apply negb_false_iff in H.
Qed.

(** What making the directory [p] may do. *)
Lemma md_effect s path :
  fs_ok s →
  let '(r, s') := md s path in
  fs_ok s' ∧ m_fds s' = m_fds s ∧
  match normalize_path path 64 with
  | None => r = -1 ∧ s' = s
  | Some p =>
      match view s p with
      | Some Dir => r = 0 ∧ s' = s
      | Some (File _) => r = -1 ∧ s' = s
      | None => (r = 0 ∧ view s (parent_of p) = Some Dir ∧
                 ∀ q, view s' q = if text_equal q p then Some Dir else view s q) ∨
                (r = -1 ∧ s' = s ∧ (view s (parent_of p) ≠ Some Dir ∨ table_full s))
      end
  end.
Proof.
  intros Hok. unfold md. destruct (normalize_path path 64) as [p|] eqn:Hn; [|done].
  apply normalize_canonical in Hn as [Hp Hlen]. destruct (text_equal p [slash]) eqn:Er.
  { apply text_equal_eq in Er as ->. by rewrite view_root. }
  apply text_equal_ne in Er. destruct (find_inode s p) as [k|] eqn:Hf.
  { rewrite (find_view s p k Hf). unfold node_of. by destruct (in_is_directory (inode_at s k)). }
  assert (view s p = None) as -> by (unfold view; by rewrite Hf).
  rewrite parent_exists_spec by done. case_bool_decide as Hpar; cbn [negb]; [|split_and!; [done..|]; right; by auto].
  destruct (create_inode s p true) as [[k s']|] eqn:Hc.
  - destruct (create_inode_ok s p true k s') as (H1 & H2 & _ & H3); [done..|by apply parent_dir_live|done|].
    split_and!; [done..|by left].
  - pose proof (create_inode_None _ _ _ Hc). split_and!; [done..|right; by auto].
Qed.

Lemma existsb_false {A} (f : A → bool) l : existsb f l = false ↔ ∀ k x, l !! k = Some x → f x = false.
Proof.
  induction l as [|y l IH]; simpl; [done|]. rewrite orb_false_iff, IH. split.
  - intros [H1 H2] [|k] x Hx; simplify_eq/=; eauto.
  - intros H. split; [by apply (H 0%nat)|]. intros k x Hx. by apply (H (S k)).
Qed.

Lemma inode_in_use_false s k :
  inode_in_use s k = false ↔ ∀ n d, m_fds s !! n = Some d → fd_used d = true → fd_inode d ≠ Some k.
Proof.
  unfold inode_in_use. rewrite existsb_false. split.
  - intros H n d Hd Hu E. specialize (H n d Hd). cbn beta in H.
    by rewrite Hu, (bool_decide_eq_true_2 (fd_inode d = Some k) E) in H.
  - intros H n d Hd. destruct (fd_used d) eqn:Hu; [|done]. cbn. apply bool_decide_eq_false_2. by eapply H.
Qed.

(** A child's path extends its parent's. *)
Lemma child_prefix p q :
  canonical q → text_len q < 64 → q ≠ [slash] → parent_of q = p → p ≠ [slash] → ∃ r, q = (p ++ [slash]) ++ r.
Proof.
  intros Hq Hlen Hne Hp Hpne. destruct (canonical_cases q Hq) as [->|(cs & c & Hcs & Hc & ->)]; [done|].
  rewrite parent_of_render in Hp by done. exists c. rewrite render_snoc, <- Hp, <- app_assoc.
  destruct cs; [by destruct Hpne|done].
Qed.

Definition no_descendants (s : ramfs) (p : text) : Prop := ∀ q, view s q ≠ None → ¬ ∃ r, q = (p ++ [slash]) ++ r.

Lemma has_descendant_false s p :
  fs_ok s → has_descendant s p (p ++ [slash]) = false ↔ no_descendants s p.
Proof.
  intros Hok. unfold has_descendant, no_descendants. rewrite existsb_false. split.
  - intros H q Hq (r & ->). destruct (view s _) as [n|] eqn:Hv; [|done].
    apply view_Some in Hv as (k & i & [Hk Hu] & Hn & _); [|done].
    specialize (H k i Hk). rewrite Hu, (proj2 (text_equal_ne _ _)) in H.
    + cbn in H. rewrite (proj2 (text_starts_with_app _ _)) in H; [done|]. by exists r.
    + rewrite Hn. intros E. apply (f_equal length) in E. rewrite !length_app in E. cbn in E. lia.
  - intros H k i Hk. destruct (in_used i) eqn:Hu; [|done].
    destruct (text_equal (in_name i) p); [done|]. cbn.
    destruct (text_starts_with _ _) eqn:E; [|done]. apply text_starts_with_app in E.
    exfalso. apply (H (in_name i)); [|done]. intros Hv. rewrite view_None in Hv by done. by apply (Hv k i).
Qed.

Lemma rd_effect s path :
  fs_ok s →
  let '(r, s') := rd s path in
  fs_ok s' ∧ m_fds s' = m_fds s ∧
  ((r = 0 ∧ ∃ p, normalize_path path 64 = Some p ∧ p ≠ [slash] ∧ view s p = Some Dir ∧ no_descendants s p ∧
     ∀ q, view s' q = if text_equal q p then None else view s q) ∨
   (r = -1 ∧ s' = s ∧ ∀ p, normalize_path path 64 = Some p →
     p = [slash] ∨ view s p ≠ Some Dir ∨ ¬ no_descendants s p ∨ text_len p = 63)).
Proof.
  intros Hok. unfold rd. destruct (normalize_path path 64) as [p|] eqn:Hn; [|split_and!; [done..|right; split_and!; done]].
  apply normalize_canonical in Hn as [Hp Hlen]. destruct (text_equal p [slash]) eqn:Er.
  { apply text_equal_eq in Er. split_and!; [done..|]. right. split_and!; [done..|]. intros ? [= <-]. by left. }
  apply text_equal_ne in Er. destruct (find_inode s p) as [k|] eqn:Hf; cycle 1.
  { split_and!; [done..|]. right. split_and!; [done..|]. intros ? [= <-]. right; left. unfold view. by rewrite Hf. }
  pose proof (find_view s p k Hf) as Hv. unfold node_of in Hv.
  destruct (in_is_directory (inode_at s k)) eqn:Hd; cbn [negb]; cycle 1.
  { split_and!; [done..|]. right. split_and!; [done..|]. intros ? [= <-]. right; left. by rewrite Hv. }
  rewrite copy_text_id by done. destruct (64 <=? text_len p + 1) eqn:E; zbool.
  { split_and!; [done..|]. right. split_and!; [done..|]. intros ? [= <-]. right; right; right. lia. }
  destruct (has_descendant s p (p ++ [slash])) eqn:Hh.
  { split_and!; [done..|]. right. split_and!; [done..|]. intros ? [= <-]. right; right; left.
    rewrite <- has_descendant_false by done. congruence. }
  apply has_descendant_false in Hh; [|done].
  apply find_inode_Some in Hf as (i & Hi & Hni). rewrite (inode_at_live s k i Hi) in Hd.
  destruct (inode_in_use s k) eqn:Hu.
  { exfalso. assert (inode_in_use s k = false); [|congruence]. apply inode_in_use_false.
    intros n d Hdn Hdu E'. destruct (fo_open s Hok n d Hdn Hdu) as (_ & k' & i' & Ek & Hi' & Hd').
    destruct Hi, Hi'. simplify_eq. congruence. }
  pose proof (proj1 (inode_in_use_false s k) Hu) as Hfree.
  destruct (remove_inode_ok s k i blank_inode) as [Hok' Hview]; [done..|congruence| |done|].
  { intros l j Hj Hlk E'. rewrite Hni in E'. pose proof (fo_inode s Hok l j Hj) as [Hjc Hjl _ _].
    destruct (decide (in_name j = [slash])) as [Hr|Hr].
    { rewrite Hr in E'. by cbn in E'. }
    apply (Hh (in_name j)); [|apply child_prefix; done].
    intros Hvn. rewrite view_None in Hvn by done. by apply (Hvn l j). }
  split_and!; [done..|]. left. split; [done|]. exists p. rewrite Hni in Hview. by split_and!.
Qed.

Lemma unlink_effect s path :
  fs_ok s →
  let '(r, s') := unlink s path in
  fs_ok s' ∧ m_fds s' = m_fds s ∧
  ((r = 0 ∧ ∃ p c, normalize_path path 64 = Some p ∧ view s p = Some (File c) ∧
     ∀ q, view s' q = if text_equal q p then None else view s q) ∨
   (r = -1 ∧ s' = s ∧ ∀ p, normalize_path path 64 = Some p →
     (∀ c, view s p ≠ Some (File c)) ∨ ∃ k, find_inode s p = Some k ∧ inode_in_use s k = true)).
Proof.
  intros Hok. unfold unlink. destruct (normalize_path path 64) as [p|] eqn:Hn; [|split_and!; [done..|right; split_and!; done]].
  apply normalize_canonical in Hn as [Hp Hlen]. destruct (text_equal p [slash]) eqn:Er.
  { apply text_equal_eq in Er as ->. split_and!; [done..|]. right. split_and!; [done..|]. intros ? [= <-].
    left. by rewrite view_root. }
  apply text_equal_ne in Er. destruct (find_inode s p) as [k|] eqn:Hf; cycle 1.
  { split_and!; [done..|]. right. split_and!; [done..|]. intros ? [= <-]. left. unfold view. by rewrite Hf. }
  pose proof (find_view s p k Hf) as Hv. unfold node_of in Hv.
  destruct (in_is_directory (inode_at s k)) eqn:Hd.
  { split_and!; [done..|]. right. split_and!; [done..|]. intros ? [= <-]. left. by rewrite Hv. }
  destruct (inode_in_use s k) eqn:Hu.
  { split_and!; [done..|]. right. split_and!; [done..|]. intros ? [= <-]. right. by exists k. }
  pose proof (proj1 (inode_in_use_false s k) Hu) as Hfree.
  apply find_inode_Some in Hf as (i & Hi & Hni). rewrite (inode_at_live s k i Hi) in *.
  destruct (remove_inode_ok s k i {| in_used := false; in_is_directory := in_is_directory i; in_name := [];
    in_data := None; in_size := 0; in_capacity := 0 |}) as [Hok' Hview]; [done..|congruence| |done|].
  { intros l j Hj Hlk E'. destruct (fo_parent s Hok l j Hj) as (m & o & Ho & Hno & Hdo).
    assert (m = k) as -> by (eapply (fo_unique s Hok); [done..|congruence]).
    destruct Hi, Ho. simplify_eq. congruence. }
  rewrite Hd in Hok', Hview. split_and!; [done..|]. left. split; [done|]. exists p. eexists. rewrite Hni in Hview. by split_and!.
Qed.

(** ** Growing a file *)

Lemma grow_zero f required : 0 < required → grow f 0 required = None.
Proof.
  intros Hr. induction f as [|f IH]; [done|]. cbn [grow]. by rewrite (proj2 (Z.ltb_lt _ _) Hr).
Qed.

Lemma double_capacity k : 0 <= k < 25 → (64 * 2 ^ k) *u 2 = 64 * 2 ^ (k + 1).
Proof.
  intros Hk. rewrite Z.pow_add_r, Z.pow_1_r by lia. rewrite u32_small; [lia|].
  assert (2 ^ k <= 2 ^ 24) by (apply Z.pow_le_mono_r; lia). lia.
Qed.

Lemma grow_Some f : ∀ k required c,
  0 <= k <= 25 → 0 < required → grow f (64 * 2 ^ k) required = Some c →
  ∃ k', 0 <= k' <= 25 ∧ c = 64 * 2 ^ k' ∧ required <= c.
Proof.
  induction f as [|f IH]; intros k required c Hk Hr; [done|]. cbn [grow].
  destruct (64 * 2 ^ k <? required) eqn:E; zbool; [|intros [= <-]; by exists k].
  destruct (decide (k = 25)) as [->|].
  - change ((64 * 2 ^ 25) *u 2) with 0. by rewrite grow_zero.
  - rewrite double_capacity by lia. apply IH; lia.
Qed.

Lemma grow_reaches f : ∀ k required,
  0 <= k <= 25 → required <= 2147483648 → 25 - k < Z.of_nat f →
  is_Some (grow f (64 * 2 ^ k) required).
Proof.
  induction f as [|f IH]; intros k required Hk Hr Hf; [lia|]. cbn [grow].
  destruct (64 * 2 ^ k <? required) eqn:E; zbool; [|done].
  destruct (decide (k = 25)) as [->|]; [change (64 * 2 ^ 25) with 2147483648 in E; lia|].
  rewrite double_capacity by lia. apply IH; lia.
Qed.

(** Past 2 GiB the capacity wraps to zero before it is large enough. *)
Lemma grow_never f : ∀ k required,
  0 <= k <= 25 → 2147483648 < required → grow f (64 * 2 ^ k) required = None.
Proof.
  induction f as [|f IH]; intros k required Hk Hr; [done|]. cbn [grow].
  assert (64 * 2 ^ k <= 64 * 2 ^ 25) by (apply Z.mul_le_mono_nonneg_l; [lia|apply Z.pow_le_mono_r; lia]).
  change (64 * 2 ^ 25) with 2147483648 in *.
  rewrite (proj2 (Z.ltb_lt _ _)) by lia. destruct (decide (k = 25)) as [->|].
  - change ((64 * 2 ^ 25) *u 2) with 0. apply grow_zero. lia.
  - rewrite double_capacity by lia. apply IH; lia.
Qed.

Lemma length_splice buf off bs :
  (off + length bs <= length buf)%nat → length (splice buf off bs) = length buf.
Proof. intros. unfold splice. rewrite !length_app, length_take, length_drop. lia. Qed.

Lemma take_splice_0 buf bs : (length bs <= length buf)%nat → take (length bs) (splice buf 0 bs) = bs.
Proof. intros. change (splice buf 0 bs) with (bs ++ drop (length bs) buf). by rewrite take_app_length. Qed.

(** Writing inside or at the end of a prefix of the buffer. *)
Lemma take_splice buf off bs size :
  (off <= size)%nat → (size <= length buf)%nat → (off + length bs <= length buf)%nat →
  take (Nat.max size (off + length bs)) (splice buf off bs)
  = splice (take size buf) off bs.
Proof.
  intros H1 H2 H3. unfold splice. rewrite take_take, Nat.min_l by done.
  rewrite take_app, length_take, Nat.min_l by lia. f_equal; [rewrite take_ge; [done|rewrite length_take; lia]|].
  rewrite take_app. f_equal; [apply take_ge; lia|].
  destruct (decide (off + length bs <= size)%nat).
  - rewrite skipn_firstn_comm. f_equal. lia.
  - rewrite (drop_ge (take size buf)) by (rewrite length_take; lia).
    replace (Nat.max size (off + length bs) - off - length bs)%nat with 0%nat by lia. done.
Qed.

Section ramfs_proofs.
Context (new_bytes : Z → option (list Z)).
Hypothesis new_bytes_len : ∀ n b, 0 <= n → new_bytes n = Some b → Z.of_nat (length b) = n.

Lemma ensure_capacity_ok i required i' :
  inode_ok i → 0 <= required → ensure_capacity new_bytes i required = Done (Some i') →
  inode_ok i' ∧ in_used i' = in_used i ∧ in_name i' = in_name i ∧
  in_is_directory i' = in_is_directory i ∧ in_size i' = in_size i ∧
  contents_of i' = contents_of i ∧ required <= in_capacity i'.
Proof using new_bytes_len.
  intros Hi Hr. unfold ensure_capacity. destruct (required <=? in_capacity i) eqn:E; zbool.
  { intros [= <-]. by split_and!. }
  destruct Hi as [H1 H2 H3 H4].
  assert (∃ k, 0 <= k <= 25 ∧ (if in_capacity i =? 0 then 64 else in_capacity i) = 64 * 2 ^ k) as (k & Hk & ->).
  { destruct H4 as [->|(k & Hk & ->)]; [by exists 0|]. exists k. split; [done|].
    rewrite (proj2 (Z.eqb_neq _ 0)); [done|]. assert (0 < 2 ^ k) by (apply Z.pow_pos_nonneg; lia). lia. }
  destruct (grow 33 (64 * 2 ^ k) required) as [c|] eqn:Hg; [|done].
  assert (0 <= in_capacity i).
  { destruct (in_data i) as [d|]; [destruct H3 as [H3 _]; lia|lia]. }
  apply grow_Some in Hg as (k' & Hk' & Ec & Hrc); [|done|lia].
  destruct (new_bytes c) as [fresh|] eqn:Hn; [|done]. apply new_bytes_len in Hn; [|lia].
  set (data := match in_data i with Some d => _ | None => fresh end).
  intros [= <-]. unfold contents_of. cbn [in_used in_name in_is_directory in_size in_data in_capacity default from_option].
  assert (Z.of_nat (length data) = c ∧ take (Z.to_nat (in_size i)) data = take (Z.to_nat (in_size i)) (default [] (in_data i)))
    as [Hl Hc].
  { subst data. destruct (in_data i) as [d|].
    - destruct H3 as [H3 H5]. destruct (0 <? in_size i) eqn:E2; zbool.
      + assert (length (take (Z.to_nat (in_size i)) d) = Z.to_nat (in_size i)) as Hlt by (rewrite length_take; lia).
        rewrite length_splice by (rewrite Hlt; lia). split; [done|].
        rewrite <- Hlt at 1. rewrite take_splice_0 by lia. done.
      + assert (in_size i = 0) as -> by lia. done.
    - destruct H3 as [_ ->]. done. }
  split_and!; try done. split; cbn; try done.
  - split; [done|]. destruct (in_data i) as [d|]; [destruct H3; lia|destruct H3; lia].
  - right. exists k'. auto.
Qed.

Lemma ensure_capacity_succeeds i required :
  inode_ok i → 0 <= required <= 2147483648 → (∀ n, is_Some (new_bytes n)) →
  ∃ i', ensure_capacity new_bytes i required = Done (Some i').
Proof using Type.
  intros [H1 H2 H3 H4] Hr Ha. unfold ensure_capacity. destruct (required <=? in_capacity i); [by eexists|].
  assert (∃ k, 0 <= k <= 25 ∧ (if in_capacity i =? 0 then 64 else in_capacity i) = 64 * 2 ^ k) as (k & Hk & ->).
  { destruct H4 as [->|(k & Hk & ->)]; [by exists 0|]. exists k. split; [done|].
    rewrite (proj2 (Z.eqb_neq _ 0)); [done|]. assert (0 < 2 ^ k) by (apply Z.pow_pos_nonneg; lia). lia. }
  destruct (grow_reaches 33 k required) as [c ->]; [done|lia|lia|].
  destruct (Ha c) as [b ->]. by eexists.
Qed.

(** ** Descriptor operations *)

Lemma get_fd_Some s fd j d :
  get_fd s fd = Some (j, d) → m_fds s !! j = Some d ∧ fd_used d = true ∧ fd = Z.of_nat j + 3.
Proof using Type.
  unfold get_fd, kFdOffset, kMaxFds. destruct (_ || _) eqn:E; [done|]. zbool.
  destruct (m_fds s !! Z.to_nat (fd - 3)) as [d'|] eqn:Hd; [|done].
  destruct (fd_used d') eqn:Hu; [|done]. intros [= <- <-]. split_and!; [done..|lia].
Qed.

Lemma get_fd_lookup s j d :
  m_fds s !! j = Some d → fd_used d = true → (j < 32)%nat → get_fd s (Z.of_nat j + 3) = Some (j, d).
Proof using Type.
  intros Hd Hu Hj. unfold get_fd, kFdOffset, kMaxFds. replace (Z.of_nat j + 3 - 3) with (Z.of_nat j) by lia.
  rewrite u32_small by lia. rewrite (proj2 (Z.ltb_ge _ _)), (proj2 (Z.leb_gt _ _)) by lia. cbn [orb].
  by rewrite Nat2Z.id, Hd, Hu.
Qed.

(** The file a descriptor is open on. *)
Lemma open_file s fd j d :
  fs_ok s → get_fd s fd = Some (j, d) →
  0 <= fd_offset d < 4294967296 ∧
  ∃ k i, fd_inode d = Some k ∧ live_inode s k i ∧ in_is_directory i = false ∧ inode_ok i ∧
         view s (in_name i) = Some (File (contents_of i)).
Proof using Type.
  intros Hok Hg. apply get_fd_Some in Hg as (Hd & Hu & _).
  destruct (fo_open s Hok j d Hd Hu) as (Ho & k & i & Hk & Hi & Hdi). split; [done|].
  exists k, i. split_and!; [done..|by eapply (fo_inode s Hok)|].
  apply view_Some; [done|]. exists k, i. split_and!; [done..|]. unfold node_of. by rewrite Hdi.
Qed.

Lemma length_contents i : inode_ok i → Z.of_nat (length (contents_of i)) = in_size i.
Proof using Type.
  intros [_ _ H _]. unfold contents_of. rewrite length_take. destruct (in_data i); cbn; lia.
Qed.

Lemma read_effect s fd j d count :
  fs_ok s → get_fd s fd = Some (j, d) → 0 <= count < 2147483648 → Z.land (fd_flags d) kOpenRead ≠ 0 →
  ∃ k i, fd_inode d = Some k ∧ live_inode s k i ∧
    let bytes := take (Z.to_nat count) (drop (Z.to_nat (fd_offset d)) (contents_of i)) in
    ∃ s', read s fd false count = (Z.of_nat (length bytes), bytes, s') ∧ fs_ok s' ∧
      (∀ q, view s' q = view s q) ∧
      get_fd s' fd = Some (j, {| fd_used := true; fd_inode := Some k;
                                 fd_offset := fd_offset d + Z.of_nat (length bytes); fd_flags := fd_flags d |}).
Proof using Type.
  intros Hok Hg Hc Hf. destruct (open_file s fd j d Hok Hg) as (Ho & k & i & Hk & Hi & Hdi & Hio & Hv).
  pose proof (length_contents i Hio) as Hlen. exists k, i. split; [done|]. split; [done|]. cbv zeta.
  pose proof (get_fd_Some s fd j d Hg) as (Hd & Hu & ->).
  assert (j < 32)%nat as Hj by (rewrite <- (fo_fds s Hok); by eapply lookup_lt_Some).
  unfold read. rewrite Hg, Hk. rewrite (proj2 (Z.eqb_neq _ 0) Hf), (inode_at_live s k i Hi).
  destruct (in_size i <=? fd_offset d) eqn:E; zbool.
  - rewrite (drop_ge (contents_of i)) by lia. rewrite take_nil. cbn [length]. exists s.
    split_and!; try done. rewrite Z.add_0_r, Hg. destruct d; cbn in *; by subst.
  - assert (0 <= in_size i <= 2147483648) as Hs.
    { destruct Hio as [_ _ H3 H4]. assert (in_capacity i <= 2147483648).
      { destruct H4 as [->|(x & Hx & ->)]; [lia|]. assert (2 ^ x <= 2 ^ 25) by (apply Z.pow_le_mono_r; lia).
        change (2 ^ 25) with 33554432 in *. lia. }
      destruct (in_data i); lia. }
    rewrite (u32_small (in_size i - fd_offset d)) by lia.
    set (n := if count <? in_size i - fd_offset d then count else in_size i - fd_offset d).
    assert (0 <= n < 4294967296 ∧ n = Z.min count (in_size i - fd_offset d)) as [Hn Hmin].
    { subst n. destruct (count <? _) eqn:E2; zbool; lia. }
    assert (take (Z.to_nat n) (drop (Z.to_nat (fd_offset d)) (default [] (in_data i))) =
            take (Z.to_nat count) (drop (Z.to_nat (fd_offset d)) (contents_of i))) as ->.
    { unfold contents_of. rewrite skipn_firstn_comm, take_take. f_equal. lia. }
    set (bytes := take (Z.to_nat count) _) in *.
    assert (n = Z.of_nat (length bytes)) as Hnb by (subst bytes; rewrite length_take, length_drop; lia).
    rewrite Hnb. unfold i32. rewrite u32_small by lia.
    rewrite (proj2 (Z.ltb_lt _ _)) by lia. rewrite u32_small by lia.
    eexists. split; [done|].
    destruct (update_fd_ok s j {| fd_used := true; fd_inode := Some k;
      fd_offset := fd_offset d + Z.of_nat (length bytes); fd_flags := fd_flags d |}) as [Hok' Hv'];
      [done|intros _; cbn; split; [lia|by exists k, i]|].
    rewrite Hu. split_and!; [done..|]. apply get_fd_lookup; [|done|done]. cbn.
    apply list_lookup_insert_eq. rewrite (fo_fds s Hok). done.
Qed.

Lemma fd_after_insert s j d e :
  (j < length (m_fds s))%nat → m_fds s !! j = Some d → <[j := e]> (m_fds s) !! j = Some e.
Proof using Type. intros. by apply list_lookup_insert_eq. Qed.

(** The state a successful write leaves. *)
Lemma write_state_ok s j d k i i' data size off :
  fs_ok s → m_fds s !! j = Some d → fd_used d = true → fd_inode d = Some k → live_inode s k i →
  in_is_directory i = false → in_used i' = true → in_name i' = in_name i → in_is_directory i' = in_is_directory i →
  inode_ok (set_data_size i' data size) → 0 <= off < 4294967296 →
  let s' := {| m_inodes := <[k := set_data_size i' data size]> (m_inodes s);
               m_fds := <[j := {| fd_used := fd_used d; fd_inode := fd_inode d; fd_offset := off;
                                  fd_flags := fd_flags d |}]> (m_fds s) |} in
  fs_ok s' ∧
  ∀ q, view s' q = if text_equal q (in_name i) then Some (File (contents_of (set_data_size i' data size))) else view s q.
Proof using Type.
  intros Hok Hd Hu Hk Hi Hdir Hu' Hn Hd' Hio Hoff s'.
  destruct (update_inode_ok s k i (set_data_size i' data size)) as [Hok1 Hv1]; [done..|].
  set (s1 := set_inodes s _) in *.
  destruct (update_fd_ok s1 j {| fd_used := fd_used d; fd_inode := fd_inode d; fd_offset := off;
    fd_flags := fd_flags d |}) as [Hok2 Hv2]; [done| |].
  { intros _. cbn. split; [done|]. exists k, (set_data_size i' data size). split_and!; [done| |cbn; congruence].
    split; [|done]. cbn. apply list_lookup_insert_eq. destruct Hi as [Hi _]. by eapply lookup_lt_Some. }
  split; [done|]. intros q. change (view s' q) with (view (set_fds s1 (<[j := {| fd_used := fd_used d;
    fd_inode := fd_inode d; fd_offset := off; fd_flags := fd_flags d |}]> (m_fds s1))) q).
  rewrite Hv2, Hv1. unfold node_of. cbn. by rewrite Hd', Hdir.
Qed.

Lemma capacity_bound c : capacity_ok c → 0 <= c <= 2147483648.
Proof using Type.
  intros [->|(x & Hx & ->)]; [lia|]. assert (2 ^ x <= 2 ^ 25) by (apply Z.pow_le_mono_r; lia).
  assert (0 < 2 ^ x) by (apply Z.pow_pos_nonneg; lia). change (2 ^ 25) with 33554432 in *. lia.
Qed.

(** A completed write leaves a well-formed file system, whatever its size. *)
Lemma write_preserves s fd bs r s' :
  fs_ok s → write new_bytes s fd bs = Done (r, s') → fs_ok s'.
Proof using new_bytes_len.
  intros Hok. unfold write. destruct bs as [bs|]; [|by intros [= _ <-]].
  destruct (get_fd s fd) as [[j d]|] eqn:Hg; [|by intros [= _ <-]].
  destruct (open_file s fd j d Hok Hg) as (Ho & k & i & Hk & Hi & Hdi & Hio & _).
  pose proof (get_fd_Some s fd j d Hg) as (Hd & Hu & _). rewrite Hk.
  destruct (Z.land (fd_flags d) kOpenWrite =? 0); [by intros [= _ <-]|].
  rewrite (inode_at_live s k i Hi). set (end_ := fd_offset d +u Z.of_nat (length bs)).
  destruct (ensure_capacity new_bytes i end_) as [[i'|]| |] eqn:He; [|by intros [= _ <-]|done|done].
  assert (0 <= end_ < 4294967296) as Hend by apply u32_range.
  apply ensure_capacity_ok in He as (Hio' & E1 & E2 & E3 & E4 & E5 & Hcap); [|done|lia].
  destruct (copy_into (in_data i') (fd_offset d) bs) as [data|] eqn:Hcp; [|done].
  intros [= _ <-]. destruct Hi as [Hi Hiu].
  assert (match data with None => in_data i' = None | Some b => ∃ b', in_data i' = Some b' ∧ length b = length b' end) as Hdata.
  { unfold copy_into in Hcp. destruct bs as [|b0 bs0]; [injection Hcp as <-; destruct (in_data i'); by eauto|].
    destruct (in_data i') as [b|]; [|done]. case_match eqn:El; [|done]. zbool. injection Hcp as <-.
    exists b. split; [done|]. apply length_splice. lia. }
  destruct (write_state_ok s j d k i i' data (if in_size i' <? end_ then end_ else in_size i') end_) as [H _];
    try done; [congruence| |by rewrite Hk in H].
  destruct Hio' as [P1 P2 P3 P4]. split; cbn; try done. destruct data as [b|].
  - destruct Hdata as (b' & Hb' & Hbl). rewrite Hb' in P3. rewrite Hbl. split; [lia|].
    destruct (in_size i' <? end_) eqn:E6; zbool; lia.
  - rewrite Hdata in P3. destruct (in_size i' <? end_) eqn:E6; zbool; lia.
Qed.

(** Writing at or before the end of a file, up to 2 GiB. *)
Lemma write_effect s fd j d bs :
  fs_ok s → get_fd s fd = Some (j, d) → Z.land (fd_flags d) kOpenWrite ≠ 0 →
  (∀ n, is_Some (new_bytes n)) → fd_offset d + Z.of_nat (length bs) <= 2147483647 →
  ∃ k i, fd_inode d = Some k ∧ live_inode s k i ∧ in_is_directory i = false ∧
    (fd_offset d <= in_size i →
     ∃ s', write new_bytes s fd (Some bs) = Done (Z.of_nat (length bs), s') ∧ fs_ok s' ∧
      (∀ q, view s' q = if text_equal q (in_name i)
                        then Some (File (splice (contents_of i) (Z.to_nat (fd_offset d)) bs)) else view s q) ∧
      get_fd s' fd = Some (j, {| fd_used := true; fd_inode := Some k;
                                 fd_offset := fd_offset d + Z.of_nat (length bs); fd_flags := fd_flags d |})).
Proof using new_bytes_len.
  intros Hok Hg Hf Ha Hlen. destruct (open_file s fd j d Hok Hg) as (Ho & k & i & Hk & Hi & Hdi & Hio & _).
  exists k, i. split_and!; [done..|]. intros Hoff. pose proof (get_fd_Some s fd j d Hg) as (Hd & Hu & ->).
  assert (j < 32)%nat as Hj by (rewrite <- (fo_fds s Hok); by eapply lookup_lt_Some).
  destruct (ensure_capacity_succeeds i (fd_offset d + Z.of_nat (length bs)) Hio ltac:(lia) Ha) as [i' He].
  pose proof He as He'. apply ensure_capacity_ok in He' as (Hio' & E1 & E2 & E3 & E4 & E5 & Hcap); [|done|lia].
  pose proof Hio' as [P1 P2 P3 P4]. pose proof (length_contents i' Hio') as Hc.
  unfold write. rewrite Hg, Hk, (proj2 (Z.eqb_neq _ 0) Hf), (inode_at_live s k i Hi).
  rewrite (u32_small (fd_offset d + _)), He by lia.
  set (end_ := fd_offset d + Z.of_nat (length bs)) in *.
  set (size' := if in_size i' <? end_ then end_ else in_size i').
  assert (size' = Z.max (in_size i') end_) as Hsz by (subst size'; destruct (in_size i' <? end_) eqn:E; zbool; lia).
  assert (∃ data, copy_into (in_data i') (fd_offset d) bs = Some data ∧ inode_ok (set_data_size i' data size') ∧
    contents_of (set_data_size i' data size') = splice (contents_of i) (Z.to_nat (fd_offset d)) bs)
    as (data & -> & Hdok & Hdc).
  { unfold copy_into. destruct (in_data i') as [b|] eqn:Eb.
    - exists (Some (splice b (Z.to_nat (fd_offset d)) bs)). split.
      { destruct bs as [|b0 bs0].
        - unfold splice. cbn [app length]. rewrite Nat.add_0_r, take_drop. done.
        - rewrite (proj2 (Z.leb_le _ _)) by lia. done. }
      assert (length (splice b (Z.to_nat (fd_offset d)) bs) = length b) as Hls by (apply length_splice; lia).
      split; [split; cbn; try done; rewrite Hls; lia|].
      rewrite <- E5. unfold contents_of. cbn [set_data_size in_size in_data default from_option]. rewrite Eb. cbn [default from_option id].
      unfold id. rewrite <- (take_splice b (Z.to_nat (fd_offset d)) bs (Z.to_nat (in_size i'))) by lia. f_equal. lia.
    - destruct P3 as [P3 P5]. assert (bs = []) as ->. { destruct bs; [done|]. cbn [length] in *. lia. }
      cbn [length] in *. exists None. split; [done|]. split; [split; cbn; try done; lia|].
      rewrite <- E5. unfold contents_of. cbn. rewrite Eb. cbn. rewrite !take_nil. unfold splice. cbn.
      by rewrite drop_nil, take_nil. }
  unfold i32. rewrite u32_small by lia. rewrite (proj2 (Z.ltb_lt _ _)) by lia. eexists. split; [done|].
  destruct (write_state_ok s j d k i i' data size' end_) as [H1 H2]; try done; [destruct Hi; congruence|lia|].
  rewrite Hdc, Hk in *. split_and!; [done..|]. apply get_fd_lookup; [|done|done]. cbn. rewrite Hu.
  apply list_lookup_insert_eq. by rewrite (fo_fds s Hok).
Qed.

Lemma close_effect s fd :
  fs_ok s → let '(r, s') := close s fd in
  fs_ok s' ∧ (∀ q, view s' q = view s q) ∧ m_inodes s' = m_inodes s ∧
  r = match get_fd s fd with Some _ => 0 | None => -1 end ∧
  get_fd s' fd = None ∧ (∀ fd', fd' ≠ fd → get_fd s' fd' = get_fd s fd').
Proof using Type.
  intros Hok. unfold close. destruct (get_fd s fd) as [[j d]|] eqn:Hg; [|done].
  pose proof (get_fd_Some s fd j d Hg) as (Hd & Hu & ->).
  destruct (update_fd_ok s j blank_fd) as [H1 H2]; [done..|]. split_and!; try done.
  - unfold get_fd. cbn [set_fds m_fds]. destruct (_ || _); [done|].
    replace (Z.to_nat (Z.of_nat j + 3 - kFdOffset)) with j by (unfold kFdOffset; lia).
    rewrite list_lookup_insert_eq by (by eapply lookup_lt_Some). done.
  - intros fd' Hne. unfold get_fd. cbn [set_fds m_fds]. destruct (_ || _) eqn:E; [done|].
    rewrite list_lookup_insert_ne; [done|]. unfold kFdOffset in *. zbool. lia.
Qed.

Definition fds_full (s : ramfs) : Prop := ∀ j d, m_fds s !! j = Some d → fd_used d = true.

Lemma alloc_fd_spec s :
  length (m_fds s) = 32%nat →
  (alloc_fd s = -1 ∧ fds_full s) ∨
  (∃ j d, alloc_fd s = Z.of_nat j ∧ (j < 32)%nat ∧ m_fds s !! j = Some d ∧ fd_used d = false).
Proof using Type.
  intros Hl. unfold alloc_fd. destruct (find_slot _ _) as [j|] eqn:E.
  - right. pose proof (find_slot_lt _ _ _ E). apply find_slot_Some in E as [(d & Hd & Hu) _].
    apply negb_true_iff in Hu. exists j, d. split_and!; [done|lia|done|done].
  - left. split; [done|]. intros j d Hd. pose proof (proj1 (find_slot_None _ _) E j d Hd) as H.
    by apply negb_false_iff in H.
Qed.

Lemma get_fd_other s j e fd :
  fd ≠ Z.of_nat j + 3 → get_fd (set_fds s (<[j := e]> (m_fds s))) fd = get_fd s fd.
Proof using Type.
  intros Hne. unfold get_fd. cbn [set_fds m_fds]. destruct (_ || _) eqn:E; [done|].
  rewrite list_lookup_insert_ne; [done|]. unfold kFdOffset in *. zbool. lia.
Qed.

(** Opening a known file: truncation, then a descriptor. *)
Lemma open_inode_effect s k i flags :
  fs_ok s → live_inode s k i → in_is_directory i = false →
  let '(r, s') := open_inode s k flags in
  fs_ok s' ∧
  (∀ q, view s' q = if text_equal q (in_name i)
                    then Some (File (if open_truncates flags then [] else contents_of i)) else view s q) ∧
  ((r = -1 ∧ fds_full s ∧ m_fds s' = m_fds s) ∨
   (3 <= r < 35 ∧ get_fd s r = None ∧
    get_fd s' r = Some (Z.to_nat (r - 3), {| fd_used := true; fd_inode := Some k; fd_offset := 0; fd_flags := flags |}) ∧
    (∀ fd, fd ≠ r → get_fd s' fd = get_fd s fd) ∧ ∃ i', live_inode s' k i' ∧ in_name i' = in_name i)).
Proof using Type.
  intros Hok Hi Hd. unfold open_inode. rewrite (inode_at_live s k i Hi), Hd.
  set (s1 := if open_truncates flags then _ else s).
  set (i1 := if open_truncates flags then set_data_size i (in_data i) 0 else i).
  assert (fs_ok s1 ∧ m_fds s1 = m_fds s ∧ live_inode s1 k i1 ∧ in_name i1 = in_name i ∧ in_is_directory i1 = false ∧
    (∀ q, view s1 q = if text_equal q (in_name i)
                      then Some (File (if open_truncates flags then [] else contents_of i)) else view s q))
    as (Hok1 & Hfds & Hi1 & Hn1 & Hd1 & Hv1).
  { subst s1 i1. destruct (open_truncates flags).
    - destruct (update_inode_ok s k i (set_data_size i (in_data i) 0)) as [H1 H2]; [done|done|by destruct Hi|done|done| |].
      { destruct (fo_inode s Hok k i Hi) as [P1 P2 P3 P4]. split; cbn; try done. destruct (in_data i); lia. }
      split_and!; try done.
      + split; [|by destruct Hi]. cbn. apply list_lookup_insert_eq. destruct Hi as [Hi _]. by eapply lookup_lt_Some.
      + intros q. rewrite H2. unfold node_of, contents_of. cbn. by rewrite Hd.
    - split_and!; try done. intros q. destruct (text_equal q (in_name i)) eqn:E; [|done].
      apply text_equal_eq in E as ->. apply view_Some; [done|]. exists k, i. split_and!; [done..|].
      unfold node_of. by rewrite Hd. }
  assert (∀ fd, get_fd s1 fd = get_fd s fd) as Hg by (intros fd; unfold get_fd; by rewrite Hfds).
  destruct (alloc_fd_spec s1) as [[-> Hfull]|(j & d & -> & Hj & Hjd & Hju)]; [by rewrite Hfds, (fo_fds s Hok)| |].
  - cbn. split_and!; [done..|]. left. split_and!; [done| |done]. unfold fds_full in *. by rewrite Hfds in Hfull.
  - rewrite (proj2 (Z.ltb_ge _ _)) by lia. rewrite Nat2Z.id. unfold kFdOffset.
    destruct (update_fd_ok s1 j {| fd_used := true; fd_inode := Some k; fd_offset := 0; fd_flags := flags |}) as [H1 H2];
      [done|intros _; cbn; split; [lia|by exists k, i1]|].
    split_and!; [done|intros q; by rewrite H2|]. right. split; [lia|]. split.
    { rewrite <- Hg. unfold get_fd, kFdOffset. replace (Z.of_nat j + 3 - 3) with (Z.of_nat j) by lia.
      rewrite Nat2Z.id, Hjd, Hju. by destruct (_ || _). }
    split_and!.
    + replace (Z.to_nat (Z.of_nat j + 3 - 3)) with j by lia. apply get_fd_lookup; [|done|done].
      cbn. apply list_lookup_insert_eq. by eapply lookup_lt_Some.
    + intros fd Hne. rewrite get_fd_other by done. apply Hg.
    + by exists i1.
Qed.

(** Why [open] refuses a path before looking for a descriptor. *)
Definition open_refused (s : ramfs) (path : option text) (flags : Z) : Prop :=
  ∀ p, normalize_path path 64 = Some p →
    view s p = Some Dir ∨
    view s p = None ∧ (Z.land flags kOpenCreate = 0 ∨ view s (parent_of p) ≠ Some Dir ∨ table_full s).

(** The file [open] ends up with, if any: an existing one, or a new one. *)
Lemma open_effect s path flags :
  fs_ok s →
  let '(r, s') := open s path flags in
  fs_ok s' ∧
  ((r = -1 ∧ s' = s ∧ open_refused s path flags) ∨
   ∃ p c, normalize_path path 64 = Some p ∧
     (view s p = Some (File c) ∨
      view s p = None ∧ c = [] ∧ view s (parent_of p) = Some Dir ∧ Z.land flags kOpenCreate ≠ 0) ∧
     (∀ q, view s' q = if text_equal q p then Some (File (if open_truncates flags then [] else c)) else view s q) ∧
     ((r = -1 ∧ fds_full s ∧ m_fds s' = m_fds s) ∨
      (3 <= r < 35 ∧ get_fd s r = None ∧ (∀ fd, fd ≠ r → get_fd s' fd = get_fd s fd) ∧
       ∃ k i, get_fd s' r = Some (Z.to_nat (r - 3), {| fd_used := true; fd_inode := Some k; fd_offset := 0; fd_flags := flags |}) ∧
              live_inode s' k i ∧ in_name i = p))).
Proof using Type.
  intros Hok. unfold open, open_refused. destruct (normalize_path path 64) as [p|] eqn:Hn;
    [|by split; [|left; split_and!]].
  apply normalize_canonical in Hn as [Hp Hlen]. destruct (text_equal p [slash]) eqn:Er.
  { apply text_equal_eq in Er as ->. split; [done|]. left. split_and!; [done..|]. intros ? [= <-].
    left. by apply view_root. }
  apply text_equal_ne in Er. destruct (find_inode s p) as [k|] eqn:Hf.
  - pose proof (find_view s p k Hf) as Hv. pose proof Hf as Hf'. apply find_inode_Some in Hf' as (i & Hi & Hni).
    rewrite (inode_at_live s k i Hi) in Hv. unfold node_of in Hv. destruct (in_is_directory i) eqn:Hd.
    { unfold open_inode. rewrite (inode_at_live s k i Hi), Hd. split; [done|]. left. split_and!; [done..|].
      intros ? [= <-]. by left. }
    pose proof (open_inode_effect s k i flags Hok Hi Hd) as He. destruct (open_inode s k flags) as [r s'].
    destruct He as (H1 & H2 & H3). split; [done|]. right. exists p, (contents_of i). rewrite Hni in H2.
    split_and!; [done|by left|done|]. destruct H3 as [?|(? & ? & ? & ? & i' & Hi' & Hn')]; [by left|right].
    split; [done|]. split_and!; try done. exists k, i'. split_and!; [done..|congruence].
  - assert (view s p = None) as Hv by (unfold view; by rewrite Hf).
    assert (∀ P : Prop, P → (Z.land flags kOpenCreate = 0 ∨ view s (parent_of p) ≠ Some Dir ∨ table_full s) →
      P ∧ ((-1 = -1 ∧ s = s ∧ ∀ p', Some p = Some p' → view s p' = Some Dir ∨ view s p' = None ∧
        (Z.land flags kOpenCreate = 0 ∨ view s (parent_of p') ≠ Some Dir ∨ table_full s)))) as Hrefuse.
    { intros P HP Hr. split_and!; [done..|]. intros ? [= <-]. by right. }
    destruct (Z.land flags kOpenCreate =? 0) eqn:Hcr; zbool.
    { destruct (Hrefuse _ Hok) as [? ?]; [by left|]. split; [done|by left]. }
    rewrite parent_exists_spec by done. case_bool_decide as Hpar; cbn [negb]; cycle 1.
    { destruct (Hrefuse _ Hok) as [? ?]; [by right; left|]. split; [done|by left]. }
    destruct (create_inode s p false) as [[k s1]|] eqn:Hc; cycle 1.
    { destruct (Hrefuse _ Hok) as [? ?]; [right; right; by eapply create_inode_None|]. split; [done|by left]. }
    destruct (create_inode_ok s p false k s1) as (H1 & H2 & H3 & H4); [done..|by apply parent_dir_live|done|].
    pose proof (open_inode_effect s1 k _ flags H1 H3 eq_refl) as He. destruct (open_inode s1 k flags) as [r s'].
    destruct He as (G1 & G2 & G3). cbn in G2. split; [done|]. right. exists p, [].
    assert (∀ fd, get_fd s1 fd = get_fd s fd) as Hg by (intros fd; unfold get_fd; by rewrite H2).
    split_and!; [done|by right| |].
    + intros q. rewrite G2, H4. destruct (text_equal q p); [|done]. by destruct (open_truncates flags).
    + destruct G3 as [(? & Hfull & ?)|(? & ? & ? & Hoth & i' & Hi' & Hn')].
      * left. split_and!; [done| |congruence]. unfold fds_full in *. by rewrite H2 in Hfull.
      * right. rewrite <- Hg. split; [done|]. split_and!; try done. { intros. rewrite <- Hg. by apply Hoth. }
        by exists k, i'.
Qed.
End ramfs_proofs.
