(* ===== verification/RamFsSpec.v ===== *)
(** * The file system's guarantees

    Theorems about the operations of [RamFs]: the boot tree, the invariant
    along every sequence of operations, directories and listings, file
    contents, and what happens at the limits. *)

From S2P Require Import Prelude CText RamFs.

(** ** The tree built by [init] *)

Definition skel (i : Inode) : bool * bool * text := (in_used i, in_is_directory i, in_name i).
Definition skeleton (s : ramfs) : list (bool * bool * text) := skel <$> m_inodes s.

Definition data_ok (i : Inode) : Prop :=
  match in_data i with
  | None => in_capacity i = 0 ∧ in_size i = 0
  | Some d => Z.of_nat (length d) = in_capacity i ∧ 0 <= in_size i <= in_capacity i
  end ∧ capacity_ok (in_capacity i).

(** Checking a skeleton: canonical unique names, a root, and every parent. *)
Definition is_dir_named (l : list (bool * bool * text)) (p : text) : bool :=
  existsb (λ e, e.1.1 && e.1.2 && text_equal e.2 p) l.
Definition used_names (l : list (bool * bool * text)) : list text := snd <$> filter (λ e, e.1.1 = true) l.
Definition skeleton_ok (l : list (bool * bool * text)) : bool :=
  is_dir_named l [slash] &&
  forallb (λ e, negb e.1.1 ||
                (text_equal (render (components e.2)) e.2 && (text_len e.2 <? 64) &&
                 is_dir_named l (parent_of e.2))) l &&
  bool_decide (NoDup (used_names l)).

Lemma skeleton_lookup s k i : m_inodes s !! k = Some i → skeleton s !! k = Some (skel i).
Proof. intros H. unfold skeleton. by rewrite list_lookup_fmap, H. Qed.

Lemma is_dir_named_live s p :
  is_dir_named (skeleton s) p = true → ∃ k i, live_inode s k i ∧ in_name i = p ∧ in_is_directory i = true.
Proof.
  unfold is_dir_named. intros (e & He & Hp)%existsb_exists. apply list_elem_of_In in He.
  apply list_elem_of_lookup in He as [k Hk]. unfold skeleton in Hk. rewrite list_lookup_fmap in Hk.
  destruct (m_inodes s !! k) as [i|] eqn:Hi; [|done]. injection Hk as <-. cbn in Hp.
  apply andb_true_iff in Hp as [[Hu Hd]%andb_true_iff Hn%text_equal_eq]. by exists k, i.
Qed.

Lemma nodup_lookup_names (l : list (bool * bool * text)) k j e f :
  NoDup (used_names l) → l !! k = Some e → l !! j = Some f → e.1.1 = true → f.1.1 = true → e.2 = f.2 → k = j.
Proof.
  unfold used_names. revert k j. induction l as [|x l IH]; intros k j Hnd Hk Hj He Hf E; [done|].
  rewrite filter_cons in Hnd. 
  assert (∀ m g, l !! m = Some g → g.1.1 = true → g.2 ∈ snd <$> filter (λ e, e.1.1 = true) l) as Hin.
  { intros m g Hm Hg. apply list_elem_of_fmap. exists g. split; [done|].
    apply list_elem_of_filter. split; [done|]. by eapply list_elem_of_lookup_2. }
  destruct k as [|k], j as [|j]; cbn in Hk, Hj; simplify_eq/=; [done| | |].
  - rewrite decide_True in Hnd by done. apply NoDup_cons in Hnd as [Hnd _]. destruct Hnd. rewrite E. by eapply Hin.
  - rewrite decide_True in Hnd by done. apply NoDup_cons in Hnd as [Hnd _]. destruct Hnd. rewrite <- E. by eapply Hin.
  - f_equal. eapply IH; [|done..]. case_decide; [by apply NoDup_cons in Hnd as [_ ?]|done].
Qed.

Lemma skeleton_fs_ok s :
  length (m_inodes s) = 64%nat → length (m_fds s) = 32%nat →
  (∀ j d, m_fds s !! j = Some d → fd_used d = false) →
  (∀ k i, live_inode s k i → data_ok i) → skeleton_ok (skeleton s) = true → fs_ok s.
Proof.
  intros Hl1 Hl2 Hfd Hdata H. unfold skeleton_ok in H.
  apply andb_true_iff in H as [[Hroot Hall]%andb_true_iff Hnd%bool_decide_eq_true].
  rewrite forallb_forall in Hall.
  assert (∀ k i, live_inode s k i → canonical (in_name i) ∧ text_len (in_name i) < 64 ∧
                                   is_dir_named (skeleton s) (parent_of (in_name i)) = true) as Hlive.
  { intros k i [Hk Hu].
    assert (In (skel i) (skeleton s)) as Hin
      by (apply list_elem_of_In; eapply list_elem_of_lookup_2; by apply skeleton_lookup).
    specialize (Hall (skel i) Hin). cbn in Hall. rewrite Hu in Hall. cbn in Hall.
    apply andb_true_iff in Hall as [[Hr%text_equal_eq Hlt]%andb_true_iff Hp]. zbool.
    split_and!; [|done|done]. exists (components (in_name i)). split; [apply components_ok|done]. }
  split; try done.
  - intros k i Hi. destruct (Hlive k i Hi) as (H1 & H2 & _). destruct (Hdata k i Hi). by split.
  - intros k l i j [Hi Hui] [Hj Huj] E.
    by eapply (nodup_lookup_names (skeleton s) k l (skel i) (skel j)); [done|apply skeleton_lookup..| | |].
  - by apply is_dir_named_live.
  - intros k i Hi. destruct (Hlive k i Hi) as (_ & _ & Hp). by apply is_dir_named_live.
  - intros j d Hd Hu. rewrite (Hfd j d Hd) in Hu. done.
Qed.

(** Two runs of the seeding with different buffers build the same skeleton. *)
Record twin (s t : ramfs) : Prop := {
  tw_skel : skeleton s = skeleton t;
  tw_len : length (m_inodes s) = 64%nat;
  tw_fds : m_fds s = replicate 32 blank_fd;
  tw_data : ∀ k i, live_inode s k i → data_ok i;
}.

Lemma find_slot_fmap {A B} (f : A → B) (p : B → bool) (l : list A) :
  find_slot p (f <$> l) = find_slot (λ x, p (f x)) l.
Proof.
  induction l as [|x l IH]; [done|]. change (f <$> x :: l) with (f x :: (f <$> l)).
  cbn [find_slot]. by rewrite IH.
Qed.

Lemma twin_create s t p d :
  twin s t →
  match create_inode s p d, create_inode t p d with
  | Some (k, s'), Some (k', t') =>
      let i := {| in_used := true; in_is_directory := d; in_name := copy_text p 64;
                  in_data := None; in_size := 0; in_capacity := 0 |} in
      k = k' ∧ twin s' t' ∧ live_inode s' k i ∧ live_inode t' k i
  | None, None => True
  | _, _ => False
  end.
Proof.
  intros [Hsk Hl Hf Hd]. unfold create_inode.
  assert (find_slot (λ i, negb (in_used i)) (m_inodes s) = find_slot (λ i, negb (in_used i)) (m_inodes t)) as E.
  { pose proof (find_slot_fmap skel (λ e, negb e.1.1) (m_inodes s)) as E1.
    pose proof (find_slot_fmap skel (λ e, negb e.1.1) (m_inodes t)) as E2.
    cbn in E1, E2. rewrite <- E1, <- E2. fold (skeleton s) (skeleton t). by rewrite Hsk. }
  rewrite <- E. destruct (find_slot _ (m_inodes s)) as [k|] eqn:Hk; [|done].
  apply find_slot_lt in Hk.
  assert (length (m_inodes t) = length (m_inodes s)) as Hlt.
  { apply (f_equal length) in Hsk. unfold skeleton in Hsk. by rewrite !length_fmap in Hsk. }
  split_and!; [done| |apply live_insert; [done|by left]|apply live_insert; [by rewrite Hlt|by left]].
  split; cbn; [|by rewrite length_insert|done|].
  - unfold skeleton. cbn. rewrite !list_fmap_insert. f_equal. exact Hsk.
  - intros j i [(-> & -> & _)|[_ Hi]]%live_insert; [by split; [|left]|by eapply Hd|done].
Qed.

(** Replacing the data of an inode keeps twins twins. *)
Lemma twin_set_data s t k x y :
  twin s t → skeleton s !! k = Some (skel x) → skel x = skel y → data_ok x →
  twin (set_inodes s (<[k := x]> (m_inodes s))) (set_inodes t (<[k := y]> (m_inodes t))).
Proof.
  intros [Hsk Hl Hf Hd] Hk Hxy Hx. pose proof (lookup_lt_Some _ _ _ Hk) as Hlt.
  unfold skeleton in Hlt. rewrite length_fmap in Hlt.
  split; cbn; [|by rewrite length_insert|done|].
  - unfold skeleton. cbn. rewrite !list_fmap_insert, Hxy. f_equal. exact Hsk.
  - intros j i [(-> & -> & _)|[_ Hi]]%live_insert; [done|by eapply Hd|done].
Qed.

(** An allocator that returns buffers of the size asked. *)
Definition good_allocator (nb : Z → option (list Z)) : Prop :=
  ∀ n, ∃ b, nb n = Some b ∧ Z.of_nat (length b) = Z.max 0 n.

Definition zero_allocator (n : Z) : option (list Z) := Some (replicate (Z.to_nat n) 0).

Lemma zero_allocator_good : good_allocator zero_allocator.
Proof. intros n. eexists. split; [done|]. rewrite length_replicate. lia. Qed.

(** A buffer for an empty inode. *)
Lemma fresh_file nb i contents :
  good_allocator nb → Z.of_nat (length contents) <= 2147483648 →
  in_data i = None → in_size i = 0 → in_capacity i = 0 →
  ∃ i' data, ensure_capacity nb i (Z.of_nat (length contents)) = Done (Some i') ∧
    copy_into (in_data i') 0 contents = Some data ∧
    skel (set_data_size i' data (Z.of_nat (length contents))) = skel i ∧
    data_ok (set_data_size i' data (Z.of_nat (length contents))) ∧
    contents_of (set_data_size i' data (Z.of_nat (length contents))) = contents.
Proof.
  intros Hnb Hlen Hd Hs Hc. unfold ensure_capacity. rewrite Hc, Hd.
  destruct contents as [|x xs].
  { cbn. exists i, None. rewrite Hd. split_and!; try done; unfold data_ok; cbn; rewrite ?Hc; by split; [|left]. }
  set (bs := x :: xs) in *. assert (0 < Z.of_nat (length bs)) by (cbn; lia).
  rewrite (proj2 (Z.leb_gt _ _)) by lia. cbn [Z.eqb].
  destruct (grow_reaches 33 0 (Z.of_nat (length bs))) as [c Hg]; [lia|lia|lia|].
  change (64 * 2 ^ 0) with 64 in Hg. rewrite Hg.
  apply (grow_Some 33 0) in Hg as (k & Hk & -> & Hle); [|lia|lia].
  destruct (Hnb (64 * 2 ^ k)) as (b & -> & Hb).
  assert (0 < 2 ^ k) by (apply Z.pow_pos_nonneg; lia).
  eexists _, (Some (splice b 0 bs)). split; [done|]. cbn [in_data].
  assert (length (splice b 0 bs) = length b) as Hls by (apply length_splice; lia).
  split; [unfold copy_into; subst bs; by rewrite (proj2 (Z.leb_le _ _)) by lia|].
  split; [done|]. split.
  - unfold data_ok. cbn [set_data_size in_data in_size in_capacity]. rewrite Hls.
    split; [lia|]. right. exists k. auto.
  - unfold contents_of. cbn [set_data_size in_size in_data default from_option id].
    rewrite Nat2Z.id. apply take_splice_0. lia.
Qed.

Lemma twin_seed_file nb s t p contents :
  good_allocator nb → Z.of_nat (length contents) <= 2147483648 → twin s t →
  ∃ r s' t', seed_file nb s p contents = Done (r, s') ∧
    seed_file zero_allocator t p contents = Done (r, t') ∧ twin s' t'.
Proof.
  intros Hnb Hlen Htw. unfold seed_file. pose proof (twin_create s t p false Htw) as Hc.
  destruct (create_inode s p false) as [[k s1]|], (create_inode t p false) as [[k' t1]|]; try done; [|by exists false, s, t].
  destruct Hc as (<- & Htw1 & Hlive & Hlive'). rewrite (inode_at_live s1 k _ Hlive), (inode_at_live t1 k _ Hlive').
  set (i := {| in_used := true |}) in *.
  destruct (fresh_file nb i contents Hnb Hlen eq_refl eq_refl eq_refl) as (i1 & d1 & -> & -> & Hs1 & Hd1 & _).
  destruct (fresh_file zero_allocator i contents zero_allocator_good Hlen eq_refl eq_refl eq_refl)
    as (i2 & d2 & -> & -> & Hs2 & _ & _).
  eexists true, _, _. split; [done|]. split; [done|].
  apply twin_set_data; [done| |congruence|done]. rewrite Hs1. apply skeleton_lookup, Hlive.
Qed.

Lemma twin_seed_dir s t p :
  twin s t → (seed_dir s p).1 = (seed_dir t p).1 ∧ twin (seed_dir s p).2 (seed_dir t p).2.
Proof.
  intros Htw. unfold seed_dir. pose proof (twin_create s t p true Htw) as Hc.
  destruct (create_inode s p true) as [[k s1]|], (create_inode t p true) as [[k' t1]|]; try done.
  by destruct Hc as (_ & ? & _).
Qed.

Lemma twin_seed_home base entries : ∀ s t,
  twin s t → (seed_home s base entries).1 = (seed_home t base entries).1 ∧
             twin (seed_home s base entries).2 (seed_home t base entries).2.
Proof.
  induction entries as [|e entries IH]; intros s t Htw; cbn [seed_home]; [done|].
  destruct (home_path base e) as [p|]; [|done].
  destruct (twin_seed_dir s t p Htw) as [H1 H2].
  destruct (seed_dir s p) as [r s1], (seed_dir t p) as [r' t1]. cbn in H1, H2. subst r'.
  destruct r; [by apply IH|done].
Qed.

Definition seed_fits (x : seed) : Prop :=
  match x with SeedFile _ contents => Z.of_nat (length contents) <= 2147483648 | _ => True end.

Lemma twin_run_seeds nb seeds : good_allocator nb → Forall seed_fits seeds → ∀ s t,
  twin s t → ∃ r s' t', run_seeds nb s seeds = Done (r, s') ∧
    run_seeds zero_allocator t seeds = Done (r, t') ∧ twin s' t'.
Proof.
  intros Hnb Hfit. induction Hfit as [|x seeds Hx _ IH]; intros s t Htw; cbn [run_seeds]; [by exists true, s, t|].
  destruct x as [p|p contents|base].
  - destruct (twin_seed_dir s t p Htw) as [H1 H2].
    destruct (seed_dir s p) as [r s1], (seed_dir t p) as [r' t1]. cbn in H1, H2. subst r'.
    destruct r; [by apply IH|by exists false, s1, t1].
  - destruct (twin_seed_file nb s t p contents Hnb Hx Htw) as (r & s1 & t1 & -> & -> & Htw1).
    destruct r; [by apply IH|by exists false, s1, t1].
  - destruct (twin_seed_home base kHomeEntries s t Htw) as [H1 H2].
    destruct (seed_home s base kHomeEntries) as [r s1], (seed_home t base kHomeEntries) as [r' t1].
    cbn in H1, H2. subst r'. destruct r; [by apply IH|by exists false, s1, t1].
Qed.

Lemma wipe_new s :
  length (m_inodes s) = 64%nat → length (m_fds s) = 32%nat → wipe s = RamFs_new.
Proof.
  intros H1 H2. unfold wipe, RamFs_new. f_equal.
  - change (Z.to_nat kMaxInodes) with 64%nat. rewrite <- H1. apply list_eq. intros k.
    rewrite list_lookup_fmap. destruct (m_inodes s !! k) eqn:E; cbn.
    + symmetry. apply lookup_replicate_2. by eapply lookup_lt_Some.
    + symmetry. apply lookup_ge_None_2. rewrite length_replicate. by apply lookup_ge_None_1.
  - change (Z.to_nat kMaxFds) with 32%nat. rewrite <- H2. apply list_eq. intros k.
    rewrite list_lookup_fmap. destruct (m_fds s !! k) eqn:E; cbn.
    + symmetry. apply lookup_replicate_2. by eapply lookup_lt_Some.
    + symmetry. apply lookup_ge_None_2. rewrite length_replicate. by apply lookup_ge_None_1.
Qed.

Definition boot_fs : ramfs :=
  match init zero_allocator RamFs_new with Done (_, s) => s | _ => RamFs_new end.

Lemma boot_fs_init : init zero_allocator RamFs_new = Done (true, boot_fs).
Proof. vm_compute. reflexivity. Qed.

Lemma boot_skeleton : skeleton_ok (skeleton boot_fs) = true.
Proof. vm_compute. reflexivity. Qed.

#[global] Opaque boot_fs.

Lemma Done_pair_inj {A B} (a c : A) (b d : B) : Done (a, b) = Done (c, d) → a = c ∧ b = d.
Proof. by intros [= -> ->]. Qed.

Lemma init_twin nb s :
  good_allocator nb → length (m_inodes s) = 64%nat → length (m_fds s) = 32%nat →
  ∃ s', init nb s = Done (true, s') ∧ twin s' boot_fs.
Proof.
  intros Hnb H1 H2. unfold init. rewrite wipe_new by done.
  destruct (twin_run_seeds nb init_seeds Hnb) with (s := RamFs_new) (t := RamFs_new) as (r & s' & t' & E & E' & Htw).
  - repeat constructor; vm_compute; discriminate.
  - split; [done|done|done|]. intros k i [Hk Hu]. unfold RamFs_new in Hk. cbn in Hk.
    apply lookup_replicate in Hk as [-> _]. done.
  - pose proof boot_fs_init as Hb. unfold init in Hb. rewrite wipe_new in Hb by done.
    rewrite E' in Hb. apply Done_pair_inj in Hb as [-> ->]. exists s'. split; [exact E|exact Htw].
Qed.

Lemma ramfs_init_ok nb s :
  good_allocator nb → length (m_inodes s) = 64%nat → length (m_fds s) = 32%nat →
  ∃ s', init nb s = Done (true, s') ∧ fs_ok s'.
Proof.
  intros Hnb H1 H2. destruct (init_twin nb s Hnb H1 H2) as (s' & E & [Hsk Hl Hf Hd]).
  exists s'. split; [done|]. apply skeleton_fs_ok; [done|by rewrite Hf| |done|].
  - intros j d Hj. rewrite Hf in Hj. by apply lookup_replicate in Hj as [-> _].
  - rewrite Hsk. apply boot_skeleton.
Qed.

(** ** Every reachable state *)

(** An allocator may fail, but never returns a buffer of another size. *)
Definition sized_allocator (nb : Z → option (list Z)) : Prop :=
  ∀ n b, 0 <= n → nb n = Some b → Z.of_nat (length b) = n.

Inductive fs_reach : ramfs → Prop :=
  | fr_init nb s s' :
      good_allocator nb → length (m_inodes s) = 64%nat → length (m_fds s) = 32%nat →
      init nb s = Done (true, s') → fs_reach s'
  | fr_open s path flags : fs_reach s → fs_reach (open s path flags).2
  | fr_read s fd buf_null count :
      fs_reach s → 0 <= count < 4294967296 → fs_reach (read s fd buf_null count).2
  | fr_write s nb fd bs r s' :
      fs_reach s → sized_allocator nb → write nb s fd bs = Done (r, s') → fs_reach s'
  | fr_close s fd : fs_reach s → fs_reach (close s fd).2
  | fr_md s path : fs_reach s → fs_reach (md s path).2
  | fr_rd s path : fs_reach s → fs_reach (rd s path).2
  | fr_unlink s path : fs_reach s → fs_reach (unlink s path).2.

Lemma read_preserves s fd buf_null count : fs_ok s → fs_ok (read s fd buf_null count).2.
Proof.
  intros Hok. unfold read. destruct buf_null; [done|].
  destruct (get_fd s fd) as [[j d]|] eqn:Hg; [|done].
  destruct (open_file s fd j d Hok Hg) as (Ho & k & i & Hk & Hi & Hdi & _). rewrite Hk.
  destruct (_ =? 0); [done|]. destruct (_ <=? _); [done|]. apply update_fd_ok; [done|].
  intros _. cbn. split; [apply u32_range|by exists k, i].
Qed.

Lemma reach_ok s : fs_reach s → fs_ok s.
Proof.
  induction 1 as [nb s s' Hnb H1 H2 E|s path flags _ IH|s fd bn count _ IH Hc|s nb fd bs r s' _ IH Hnb E
                 |s fd _ IH|s path _ IH|s path _ IH|s path _ IH].
  - destruct (ramfs_init_ok nb s Hnb H1 H2) as (s1 & E1 & Hok). rewrite E1 in E. by apply Done_pair_inj in E as [_ <-].
  - pose proof (open_effect s path flags IH) as He. destruct (open s path flags). by destruct He.
  - by apply read_preserves.
  - by eapply write_preserves.
  - pose proof (close_effect s fd IH) as He. destruct (close s fd). by destruct He.
  - pose proof (md_effect s path IH) as He. destruct (md s path). by destruct He.
  - pose proof (rd_effect s path IH) as He. destruct (rd s path). by destruct He.
  - pose proof (unlink_effect s path IH) as He. destruct (unlink s path). by destruct He.
Qed.

(** C8: in every state reached from [init] by any sequence of operations, with
    allocations that may fail, the inodes in use have distinct canonical
    absolute paths shorter than 64 characters, each lies in an existing
    directory, and every open descriptor refers to an existing file. *)
Theorem fs_reachable_invariant s :
  fs_reach s →
  (∀ p n, view s p = Some n →
     canonical p ∧ text_len p < 64 ∧ view s (parent_of p) = Some Dir) ∧
  (∀ k l i j, live_inode s k i → live_inode s l j → in_name i = in_name j → k = l) ∧
  (∀ fd j d, get_fd s fd = Some (j, d) → ∃ p c, fd_inode d = find_inode s p ∧ view s p = Some (File c)).
Proof.
  intros Hr%reach_ok. split_and!.
  - intros p n (k & i & Hi & <- & ->)%view_Some; [|done]. destruct (fo_inode s Hr k i Hi).
    split_and!; [done..|]. apply view_dir; [done|]. by apply (fo_parent s Hr k i).
  - apply (fo_unique s Hr).
  - intros fd j d Hg. destruct (open_file s fd j d Hr Hg) as (_ & k & i & Hk & Hi & _ & _ & Hv).
    exists (in_name i), (contents_of i). split; [|done]. rewrite Hk. symmetry. by eapply find_inode_live.
Qed.

Lemma boot_reach : fs_reach boot_fs.
Proof. exact (fr_init zero_allocator RamFs_new boot_fs zero_allocator_good eq_refl eq_refl boot_fs_init). Qed.

Lemma fs_reachable_invariant_witness :
  view boot_fs (txt "/etc/apt/sources.list.d") = Some Dir ∧ view boot_fs (txt "/etc/apt") = Some Dir.
Proof.
  assert (view boot_fs (txt "/etc/apt/sources.list.d") = Some Dir) as H by (vm_compute; reflexivity).
  split; [exact H|].
  exact (proj2 (proj2 (proj1 (fs_reachable_invariant boot_fs boot_reach) _ _ H))).
Defined.

(** ** Directories *)

(** C9: [md], [rd] and [unlink] are the operations of a path-indexed tree.
    [md] adds a directory under an existing parent and accepts one that is
    there; [rd] removes a directory without descendants, and [unlink] a file
    no descriptor is open on; every other path keeps its node, descriptors are
    untouched, and a refused call (-1) changes nothing and has a reason. *)
Theorem ramfs_tree_ops s path p :
  fs_ok s → normalize_path path 64 = Some p →
  (let '(r, s') := md s path in
   fs_ok s' ∧ m_fds s' = m_fds s ∧
   ((r = 0 ∧ view s p = Some Dir ∧ s' = s) ∨
    (r = 0 ∧ view s p = None ∧ view s (parent_of p) = Some Dir ∧
     ∀ q, view s' q = if text_equal q p then Some Dir else view s q) ∨
    (r = -1 ∧ s' = s ∧ ((∃ c, view s p = Some (File c)) ∨
       view s p = None ∧ (view s (parent_of p) ≠ Some Dir ∨ table_full s))))) ∧
  (let '(r, s') := rd s path in
   fs_ok s' ∧ m_fds s' = m_fds s ∧
   ((r = 0 ∧ p ≠ [slash] ∧ view s p = Some Dir ∧ no_descendants s p ∧
     ∀ q, view s' q = if text_equal q p then None else view s q) ∨
    (r = -1 ∧ s' = s ∧ (p = [slash] ∨ view s p ≠ Some Dir ∨ ¬ no_descendants s p ∨ text_len p = 63)))) ∧
  (let '(r, s') := unlink s path in
   fs_ok s' ∧ m_fds s' = m_fds s ∧
   ((r = 0 ∧ (∃ c, view s p = Some (File c)) ∧
     ∀ q, view s' q = if text_equal q p then None else view s q) ∨
    (r = -1 ∧ s' = s ∧ ((∀ c, view s p ≠ Some (File c)) ∨
       ∃ k, find_inode s p = Some k ∧ inode_in_use s k = true)))).
Proof.
  intros Hok Hn. split_and!.
  - pose proof (md_effect s path Hok) as He. destruct (md s path) as [r s']. destruct He as (H1 & H2 & H3).
    rewrite Hn in H3. split_and!; [done..|]. destruct (view s p) as [[|c]|].
    + left. naive_solver.
    + right; right. destruct H3. split_and!; [done..|]. left. by exists c.
    + destruct H3 as [(? & ? & ?)|(? & ? & ?)]; [right; left; by split_and!|right; right; split_and!; [done..|by right]].
  - pose proof (rd_effect s path Hok) as He. destruct (rd s path) as [r s']. destruct He as (H1 & H2 & H3).
    split_and!; [done..|]. destruct H3 as [(? & p' & E & ? & ? & ? & ?)|(? & ? & H3)].
    + left. rewrite Hn in E. injection E as <-. by split_and!.
    + right. split_and!; [done..|]. by apply H3.
  - pose proof (unlink_effect s path Hok) as He. destruct (unlink s path) as [r s']. destruct He as (H1 & H2 & H3).
    split_and!; [done..|]. destruct H3 as [(? & p' & c & E & ? & ?)|(? & ? & H3)].
    + left. rewrite Hn in E. injection E as <-. split_and!; [done|by exists c|done].
    + right. split_and!; [done..|]. by apply H3.
Qed.

Lemma boot_ok : fs_ok boot_fs.
Proof. apply reach_ok, boot_reach. Qed.

Lemma boot_paths :
  normalize_path (Some (txt "/opt//new/")) 64 = Some (txt "/opt/new") ∧
  normalize_path (Some (txt "/etc/passwd")) 64 = Some (txt "/etc/passwd").
Proof. split; vm_compute; reflexivity. Qed.

Lemma ramfs_tree_ops_witness :
  fs_ok (md boot_fs (Some (txt "/opt//new/"))).2 ∧ fs_ok (rd boot_fs (Some (txt "/opt//new/"))).2.
Proof.
  destruct (ramfs_tree_ops boot_fs (Some (txt "/opt//new/")) (txt "/opt/new") boot_ok (proj1 boot_paths))
    as (H1 & H2 & _). revert H1 H2.
  destruct (md boot_fs (Some (txt "/opt//new/"))), (rd boot_fs (Some (txt "/opt//new/"))).
  intros [H1 _] [H2 _]. exact (conj H1 H2).
Defined.

(** ** Listings *)

Definition entry_of (p : text) (i : Inode) : option DirEntry :=
  (λ name, {| de_name := copy_text name 64; de_is_directory := in_is_directory i |}) <$> child_name p i.

Lemma list_dir_take l p room : list_dir l p room = take room (omap (entry_of p) l).
Proof.
  revert room. induction l as [|i l IH]; intros [|room]; try done.
  cbn [list_dir omap list_omap]. unfold entry_of at 1. destruct (child_name p i); cbn; by rewrite IH.
Qed.

(** The inodes [readdir] lists in [render cs] are those one component below. *)
Lemma child_name_spec cs i c :
  Forall component_ok cs → text_len (render cs) < 64 → in_used i = true → inode_ok i →
  child_name (render cs) i = Some c ↔ component_ok c ∧ in_name i = render (cs ++ [c]).
Proof.
  intros Hcs Hlen Hu [Hcan Hl _ _]. unfold child_name. rewrite Hu. cbn [negb orb].
  destruct (text_equal (in_name i) (render cs)) eqn:E.
  { apply text_equal_eq in E. split; [done|]. intros [Hc Hn]. exfalso. rewrite Hn in E.
    apply render_inj in E; [|apply Forall_app; split; [done|by constructor]|done].
    apply (f_equal length) in E. rewrite length_app in E. cbn in E. lia. }
  assert (∀ r, match r with c0 :: r0 => if has_char slash (c0 :: r0) then None else Some (c0 :: r0) | [] => None end
    = Some c ↔ r = c ∧ component_ok c) as Htail.
  { intros [|c0 r0]; [split; [done|]; by intros [<- [? _]]|].
    destruct (has_char slash (c0 :: r0)) eqn:Eh.
    - apply has_char_elem in Eh. split; [done|]. by intros [<- [_ ?]].
    - apply has_char_false in Eh. split; [intros [= <-]; by split_and!|by intros [-> _]]. }
  destruct (text_equal (render cs) [slash]) eqn:Er.
  - apply text_equal_eq in Er. assert (cs = []) as ->.
    { apply (render_inj cs []); [done|done|by rewrite Er]. }
    cbn [app]. rewrite render_cons, app_nil_r. destruct (in_name i) as [|c0 [|d rest]] eqn:Hn.
    + split; [done|]. by intros [_ ?].
    + split; [done|]. intros [[? _] [= _ <-]]. done.
    + destruct (Ascii.eqb c0 slash) eqn:Ec.
      * apply Ascii.eqb_eq in Ec as ->. rewrite (Htail (d :: rest)). naive_solver.
      * apply Ascii.eqb_neq in Ec. split; [done|]. by intros [_ [= ? _]].
  - apply text_equal_ne in Er. rewrite copy_text_id by done.
    assert (render (cs ++ [c]) = (render cs ++ [slash]) ++ c) as Hrc.
    { rewrite render_snoc, <- app_assoc. by destruct cs. }
    rewrite Hrc. destruct (64 <=? text_len (render cs) + 1) eqn:E64; zbool.
    { split; [done|]. intros [[Hc _] Hn]. rewrite Hn in Hl. unfold text_len in *. rewrite !length_app in Hl.
      destruct c; [done|]. cbn [length] in Hl. lia. }
    destruct (text_starts_with (in_name i) (render cs ++ [slash])) eqn:Es.
    + apply text_starts_with_app in Es as [r Hr]. rewrite Hr.
      replace (drop (length (render cs) + 1) ((render cs ++ [slash]) ++ r)) with r.
      * rewrite (Htail r). split; [intros [-> ?]; done|]. intros [? E2]. by apply app_inv_head in E2 as ->.
      * replace (length (render cs) + 1)%nat with (length (render cs ++ [slash])) by (rewrite length_app; cbn; lia).
        by rewrite drop_app_length.
    + split; [done|]. intros [_ Hn]. assert (text_starts_with (in_name i) (render cs ++ [slash]) = true); [|congruence].
      apply text_starts_with_app. by exists c.
Qed.

Definition is_dir (n : node) : bool := match n with Dir => true | File _ => false end.

Lemma child_name_used p i c : child_name p i = Some c → in_used i = true.
Proof. unfold child_name. by destruct (in_used i). Qed.

(** [readdir] of a directory returns, in inode order and cut at the
    caller's room, exactly one entry per node one component below it, with its
    last component as name and its kind. *)
Lemma readdir_lists_children s path cs room :
  fs_ok s → normalize_path path 64 = Some (render cs) → Forall component_ok cs →
  view s (render cs) = Some Dir → 0 < room →
  ∃ all, readdir s path false room = (Z.of_nat (length (take (Z.to_nat room) all)), take (Z.to_nat room) all) ∧
    (length all <= 64)%nat ∧ NoDup (de_name <$> all) ∧
    ∀ e, e ∈ all ↔ ∃ n, view s (render (cs ++ [de_name e])) = Some n ∧ component_ok (de_name e) ∧
                        is_dir n = de_is_directory e.
Proof.
  intros Hok Hn Hcs Hv Hroom. pose proof (normalize_canonical _ _ Hn) as [_ Hlen].
  exists (omap (entry_of (render cs)) (m_inodes s)).
  assert (∀ k i c, m_inodes s !! k = Some i → child_name (render cs) i = Some c →
    live_inode s k i ∧ component_ok c ∧ in_name i = render (cs ++ [c]) ∧ copy_text c 64 = c) as Hchild.
  { intros k i c Hk Hc. pose proof (child_name_used _ _ _ Hc) as Hu.
    pose proof (fo_inode s Hok k i (conj Hk Hu)) as Hio. apply child_name_spec in Hc as [Hc Hni]; [|done..].
    split_and!; try done. apply copy_text_id. pose proof (io_len i Hio) as Hl. rewrite Hni, render_snoc in Hl.
    unfold text_len in Hl. rewrite length_app in Hl. cbn [length] in Hl. lia. }
  split_and!.
  - unfold readdir. rewrite (proj2 (Z.eqb_neq room 0)) by lia. cbn [orb]. rewrite Hn.
    apply view_dir in Hv as (k & i & Hi & Hni & Hd); [|done].
    rewrite (find_inode_live s (render cs) k i), (inode_at_live s k i Hi), Hd by done. cbn [negb].
    by rewrite list_dir_take.
  - rewrite <- (fo_inodes s Hok). generalize (m_inodes s). clear. intros l. induction l as [|i l IH]; [done|]. cbn [omap list_omap length].
    destruct (entry_of _ i); cbn [length]; lia.
  - assert (∀ l off, (∀ k i, l !! k = Some i → m_inodes s !! (off + k)%nat = Some i) →
      NoDup (de_name <$> omap (entry_of (render cs)) l)) as Hnd; [|by apply (Hnd _ 0%nat)].
    intros l. induction l as [|i l IH]; intros off Hl; [constructor|]. cbn [omap list_omap].
    assert (∀ k j, l !! k = Some j → m_inodes s !! (S off + k)%nat = Some j) as Hl'.
    { intros k j Hk. rewrite <- (Hl (S k) j Hk). f_equal. lia. }
    unfold entry_of at 1. destruct (child_name (render cs) i) as [c|] eqn:Hc; cbn; [|by eapply IH].
    specialize (Hl 0%nat i eq_refl). rewrite Nat.add_0_r in Hl.
    destruct (Hchild off i c Hl Hc) as (Hi & Hcok & Hni & Ecopy).
    constructor; [|by eapply IH]. intros (e & Ee & He)%list_elem_of_fmap.
    apply list_elem_of_omap in He as (j & Hj & Hje). apply list_elem_of_lookup in Hj as [k Hk].
    unfold entry_of in Hje. destruct (child_name (render cs) j) as [c'|] eqn:Hc'; [|done]. injection Hje as <-.
    destruct (Hchild _ j c' (Hl' k j Hk) Hc') as (Hj & _ & Hnj & Ecopy'). cbn in Ee. rewrite Ecopy, Ecopy' in Ee.
    subst c'. assert (off = S off + k)%nat; [|lia]. eapply (fo_unique s Hok); [done..|congruence].
  - intros e. rewrite list_elem_of_omap. split.
    + intros (i & Hi & He). apply list_elem_of_lookup in Hi as [k Hk]. unfold entry_of in He.
      destruct (child_name (render cs) i) as [c|] eqn:Hc; [|done]. injection He as <-.
      destruct (Hchild k i c Hk Hc) as (Hi & Hcok & Hni & Ecopy). cbn. rewrite Ecopy.
      exists (node_of i). split_and!; [|done|unfold node_of; by destruct (in_is_directory i)].
      apply view_Some; [done|]. by exists k, i.
    + intros (n & (k & i & Hi & Hni & ->)%view_Some & Hc & Hdir); [|done]. exists i.
      split; [destruct Hi; by eapply list_elem_of_lookup_2|]. unfold entry_of.
      rewrite (proj2 (child_name_spec cs i (de_name e) Hcs Hlen (proj2 Hi) (fo_inode s Hok k i Hi)) (conj Hc Hni)).
      cbn. destruct (Hchild k i (de_name e) (proj1 Hi)) as (_ & _ & _ & ->).
      { by apply child_name_spec; [done|done|apply Hi|by eapply (fo_inode s Hok)|]. }
      unfold node_of in Hdir. destruct e as [en ed]. cbn in *. by destruct (in_is_directory i), ed.
Qed.

Lemma boot_opt :
  normalize_path (Some (txt "/opt/")) 64 = Some (render [txt "opt"]) ∧ Forall component_ok [txt "opt"] ∧
  view boot_fs (render [txt "opt"]) = Some Dir.
Proof.
  split_and!; [vm_compute; reflexivity| |vm_compute; reflexivity].
  repeat constructor; [discriminate|apply has_char_false; reflexivity].
Qed.

Lemma readdir_lists_children_witness :
  ∃ all, readdir boot_fs (Some (txt "/opt/")) false 8
         = (Z.of_nat (length (take (Z.to_nat 8) all)), take (Z.to_nat 8) all).
Proof.
  destruct boot_opt as (H1 & H2 & H3).
  destruct (readdir_lists_children boot_fs (Some (txt "/opt/")) [txt "opt"] 8 boot_ok H1 H2 H3 ltac:(lia))
    as (all & H & _). exists all. exact H.
Defined.

(** ** File contents *)

Lemma not_full_after_close s fd :
  fs_ok s → 3 <= fd < 35 → get_fd s fd = None → ¬ fds_full s.
Proof.
  intros Hok Hfd Hg Hfull. unfold get_fd, kFdOffset, kMaxFds in Hg. rewrite u32_small in Hg by lia.
  rewrite (proj2 (Z.ltb_ge _ _)), (proj2 (Z.leb_gt _ _)) in Hg by lia. cbn [orb] in Hg.
  destruct (lookup_lt_is_Some_2 (m_fds s) (Z.to_nat (fd - 3))) as [d Hd]; [rewrite (fo_fds s Hok); lia|].
  rewrite Hd, (Hfull _ _ Hd) in Hg. done.
Qed.

(** [open] succeeds on a file that is there, when a descriptor is free. *)
Lemma open_existing s path p c flags :
  fs_ok s → normalize_path path 64 = Some p → view s p = Some (File c) → ¬ fds_full s →
  ∃ r s' k i, open s path flags = (r, s') ∧ 3 <= r < 35 ∧ fs_ok s' ∧ get_fd s r = None ∧
    (∀ q, view s' q = if text_equal q p then Some (File (if open_truncates flags then [] else c)) else view s q) ∧
    get_fd s' r = Some (Z.to_nat (r - 3), {| fd_used := true; fd_inode := Some k; fd_offset := 0; fd_flags := flags |}) ∧
    live_inode s' k i ∧ in_name i = p.
Proof.
  intros Hok Hn Hv Hnf. pose proof (open_effect s path flags Hok) as He.
  destruct (open s path flags) as [r s']. destruct He as (Hok' & [(_ & _ & Href)|(p' & c' & E & Hv' & Hview & Hfd)]).
  { specialize (Href p Hn). rewrite Hv in Href. destruct Href as [?|[? _]]; done. }
  rewrite Hn in E. injection E as <-. destruct Hv' as [Hv'|[Hv' _]]; [|congruence].
  rewrite Hv in Hv'. injection Hv' as <-. destruct Hfd as [(_ & ? & _)|(Hr & Hg & _ & k & i & Hg' & Hi & Hni)]; [done|].
  by exists r, s', k, i.
Qed.

(** [open] with [kOpenCreate] makes a missing file. *)
Lemma open_missing s path p flags :
  fs_ok s → normalize_path path 64 = Some p → view s p = None → view s (parent_of p) = Some Dir →
  Z.land flags kOpenCreate ≠ 0 → ¬ fds_full s → ¬ table_full s →
  ∃ r s' k i, open s path flags = (r, s') ∧ 3 <= r < 35 ∧ fs_ok s' ∧ get_fd s r = None ∧
    (∀ q, view s' q = if text_equal q p then Some (File []) else view s q) ∧
    get_fd s' r = Some (Z.to_nat (r - 3), {| fd_used := true; fd_inode := Some k; fd_offset := 0; fd_flags := flags |}) ∧
    live_inode s' k i ∧ in_name i = p.
Proof.
  intros Hok Hn Hv Hpar Hcr Hnf Hnt. pose proof (open_effect s path flags Hok) as He.
  destruct (open s path flags) as [r s']. destruct He as (Hok' & [(_ & _ & Href)|(p' & c' & E & Hv' & Hview & Hfd)]).
  { specialize (Href p Hn). rewrite Hv in Href. destruct Href as [?|[_ [?|[?|?]]]]; done. }
  rewrite Hn in E. injection E as <-. destruct Hv' as [Hv'|(_ & -> & _)]; [congruence|].
  destruct Hfd as [(_ & ? & _)|(Hr & Hg & _ & k & i & Hg' & Hi & Hni)]; [done|].
  exists r, s', k, i. split_and!; try done; try lia. intros q. rewrite Hview. by destruct (open_truncates flags).
Qed.

Lemma good_sized nb : good_allocator nb → sized_allocator nb.
Proof. intros H n b Hn E. destruct (H n) as (b' & E' & Hl). rewrite E in E'. injection E' as ->. lia. Qed.

(** C10: what is written to a file is what a later reader gets.  Opening a
    path for writing with create and truncate, writing, closing, and opening
    and reading it again returns exactly the bytes written; the file then
    holds them and every other path is as before. *)
Theorem write_read_roundtrip s nb path p bs :
  fs_ok s → good_allocator nb → normalize_path path 64 = Some p →
  ((∃ c, view s p = Some (File c)) ∨ view s p = None ∧ view s (parent_of p) = Some Dir) →
  ¬ fds_full s → ¬ table_full s → Z.of_nat (length bs) <= 2147483647 →
  ∃ fd s1 s2 s3 fd' s4 s5,
    open s path (kOpenWrite + kOpenCreate + kOpenTruncate) = (fd, s1) ∧ 3 <= fd ∧
    write nb s1 fd (Some bs) = Done (Z.of_nat (length bs), s2) ∧
    close s2 fd = (0, s3) ∧
    open s3 path kOpenRead = (fd', s4) ∧ 3 <= fd' ∧
    read s4 fd' false (Z.of_nat (length bs)) = (Z.of_nat (length bs), bs, s5) ∧
    fs_ok s5 ∧ ∀ q, view s5 q = if text_equal q p then Some (File bs) else view s q.
Proof.
  intros Hok Hnb Hn Hv Hnf Hnt Hlen. pose proof (good_sized nb Hnb) as Hsz.
  set (fl := kOpenWrite + kOpenCreate + kOpenTruncate).
  assert (∃ r s' k i, open s path fl = (r, s') ∧ 3 <= r < 35 ∧ fs_ok s' ∧ get_fd s r = None ∧
    (∀ q, view s' q = if text_equal q p then Some (File []) else view s q) ∧
    get_fd s' r = Some (Z.to_nat (r - 3), {| fd_used := true; fd_inode := Some k; fd_offset := 0; fd_flags := fl |}) ∧
    live_inode s' k i ∧ in_name i = p) as (fd & s1 & k & i & E1 & Hr & Hok1 & _ & V1 & G1 & Hi & Hni).
  { destruct Hv as [[c Hc]|[Hv1 Hv2]]; [by apply open_existing with (c := c)|by apply open_missing]. }
  assert (∀ n, is_Some (nb n)) as Htot by (intros n; destruct (Hnb n) as (b & -> & _); done).
  destruct (write_effect nb Hsz s1 fd _ _ bs Hok1 G1) as (k' & i' & Ek & Hi' & Hd' & Hw); [done|done|cbn; lia|].
  cbn in Ek. injection Ek as <-. assert (i' = i) as -> by (destruct Hi, Hi'; congruence).
  pose proof (fo_inode s1 Hok1 k i Hi) as Hio.
  assert (contents_of i = []) as Hempty.
  { assert (view s1 p = Some (node_of i)) as Hvp by (apply view_Some; [done|]; by exists k, i).
    rewrite V1, text_equal_refl in Hvp. unfold node_of in Hvp. rewrite Hd' in Hvp. by injection Hvp. }
  destruct Hw as (s2 & E2 & Hok2 & V2 & G2).
  { cbn. destruct Hio as [_ _ Hdat _]. destruct (in_data i); lia. }
  assert (splice [] 0 bs = bs) as Hsp by (unfold splice; cbn; by rewrite drop_nil, app_nil_r).
  cbn [fd_offset] in V2. change (Z.to_nat 0) with 0%nat in V2. rewrite Hempty, Hni, Hsp in V2.
  pose proof (close_effect s2 fd Hok2) as Hc. destruct (close s2 fd) as [rc s3] eqn:E3.
  destruct Hc as (Hok3 & V3 & _ & -> & G3 & _). rewrite G2 in E3.
  assert (view s3 p = Some (File bs)) as Hv3 by (by rewrite V3, V2, text_equal_refl).
  destruct (open_existing s3 path p bs kOpenRead Hok3 Hn Hv3 (not_full_after_close s3 fd Hok3 Hr G3))
    as (fd' & s4 & k2 & i2 & E4 & Hr4 & Hok4 & _ & V4 & G4 & Hi2 & Hni2).
  destruct (read_effect s4 fd' _ _ (Z.of_nat (length bs)) Hok4 G4) as (k3 & i3 & Ek3 & Hi3 & s5 & E5 & Hok5 & V5 & _);
    [lia|done|]. cbn in Ek3. injection Ek3 as <-. assert (i3 = i2) as -> by (destruct Hi2, Hi3; congruence).
  assert (contents_of i2 = bs) as Hc2.
  { assert (view s4 p = Some (node_of i2)) as Hvp by (apply view_Some; [done|]; by exists k2, i2).
    rewrite V4, text_equal_refl in Hvp. unfold node_of in Hvp. by destruct (in_is_directory i2); [|injection Hvp]. }
  cbn in E5. rewrite Hc2, drop_0, Nat2Z.id, take_ge in E5 by lia.
  exists fd, s1, s2, s3, fd', s4, s5. split_and!; try done; try lia.
  intros q. rewrite V5, V4, V3, V2, V1. by destruct (text_equal q p).
Qed.

Lemma boot_room : ¬ fds_full boot_fs ∧ ¬ table_full boot_fs.
Proof.
  split.
  - intros H. assert (m_fds boot_fs !! 0%nat = Some blank_fd) as E by (vm_compute; reflexivity).
    specialize (H _ _ E). discriminate H.
  - intros H. assert (m_inodes boot_fs !! 63%nat = Some blank_inode) as E by (vm_compute; reflexivity).
    specialize (H _ _ E). discriminate H.
Qed.

Lemma boot_passwd : ∃ c, view boot_fs (txt "/etc/passwd") = Some (File c).
Proof. eexists. vm_compute. reflexivity. Qed.

Lemma write_read_roundtrip_witness :
  ∃ fd s1 s2 s3 fd' s4 s5,
    open boot_fs (Some (txt "/etc/passwd")) (kOpenWrite + kOpenCreate + kOpenTruncate) = (fd, s1) ∧ 3 <= fd ∧
    write zero_allocator s1 fd (Some [104; 105]) = Done (2, s2) ∧
    close s2 fd = (0, s3) ∧ open s3 (Some (txt "/etc/passwd")) kOpenRead = (fd', s4) ∧ 3 <= fd' ∧
    read s4 fd' false 2 = (2, [104; 105], s5).
Proof.
  destruct (write_read_roundtrip boot_fs zero_allocator (Some (txt "/etc/passwd")) (txt "/etc/passwd") [104; 105]
    boot_ok zero_allocator_good (proj2 boot_paths) (or_introl boot_passwd) (proj1 boot_room) (proj2 boot_room)
    ltac:(cbn; lia)) as (fd & s1 & s2 & s3 & fd' & s4 & s5 & H1 & H2 & H3 & H4 & H5 & H6 & H7 & _).
  exists fd, s1, s2, s3, fd', s4, s5. exact (conj H1 (conj H2 (conj H3 (conj H4 (conj H5 (conj H6 H7)))))).
Defined.

(** ** Errors and limits *)

(** An operation that fails leaves the file system as it was, with one
    exception: [open] with truncation empties the file (and with creation
    leaves the new file behind) before it finds that no descriptor is free. *)
Lemma failed_operations s nb path fd bs buf_null count :
  fs_ok s →
  ((md s path).1 = -1 → (md s path).2 = s) ∧ ((rd s path).1 = -1 → (rd s path).2 = s) ∧
  ((unlink s path).1 = -1 → (unlink s path).2 = s) ∧ ((close s fd).1 = -1 → (close s fd).2 = s) ∧
  (0 <= count < 2147483648 → (read s fd buf_null count).1.1 = -1 → (read s fd buf_null count).2 = s) ∧
  (∀ s', Z.of_nat (length (default [] bs)) < 2147483648 → write nb s fd bs = Done (-1, s') → s' = s) ∧
  (∀ p c, fds_full s → normalize_path path 64 = Some p → view s p = Some (File c) →
     let '(r, s') := open s path (kOpenWrite + kOpenTruncate) in r = -1 ∧ view s' p = Some (File [])).
Proof.
  intros Hok. split_and!.
  - pose proof (md_effect s path Hok) as He. destruct (md s path) as [r s']. destruct He as (_ & _ & He).
    cbn. intros ->. destruct (normalize_path path 64) as [p|]; [|by destruct He].
    destruct (view s p) as [[|c]|]; [by destruct He|by destruct He|]. by destruct He as [[? _]|(_ & ? & _)].
  - pose proof (rd_effect s path Hok) as He. destruct (rd s path) as [r s']. destruct He as (_ & _ & He).
    cbn. intros ->. by destruct He as [[? _]|(_ & ? & _)].
  - pose proof (unlink_effect s path Hok) as He. destruct (unlink s path) as [r s']. destruct He as (_ & _ & He).
    cbn. intros ->. by destruct He as [[? _]|(_ & ? & _)].
  - unfold close. by destruct (get_fd s fd) as [[j d]|].
  - intros Hc. destruct buf_null; [done|]. destruct (get_fd s fd) as [[j d]|] eqn:Hg; [|by unfold read; rewrite Hg].
    destruct (decide (Z.land (fd_flags d) kOpenRead = 0)) as [Hz|Hz].
    { unfold read. rewrite Hg, Hz. by destruct (fd_inode d). }
    destruct (read_effect s fd j d count Hok Hg Hc Hz) as (k & i & _ & _ & s' & -> & _). cbn. lia.
  - intros s' Hlen. unfold write. destruct bs as [bs|]; [|by intros [= <-]]. cbn in Hlen.
    destruct (get_fd s fd) as [[j d]|]; [|by intros [= <-]]. destruct (fd_inode d); [|by intros [= <-]].
    destruct (_ =? 0); [by intros [= <-]|]. destruct (ensure_capacity _ _ _) as [[i|]| |]; [|by intros [= <-]|done|done].
    destruct (copy_into _ _ _); [|done]. intros [= E _]. exfalso. revert E. unfold i32. unfold id in Hlen.
    rewrite u32_small by lia. rewrite (proj2 (Z.ltb_lt _ _)) by lia. lia.
  - intros p c Hfull Hn Hv. pose proof (open_effect s path (kOpenWrite + kOpenTruncate) Hok) as He.
    destruct (open s path (kOpenWrite + kOpenTruncate)) as [r s'].
    destruct He as (_ & [(_ & _ & Href)|(p' & c' & E & Hv' & Hview & Hfd)]).
    { specialize (Href p Hn). rewrite Hv in Href. destruct Href as [?|[? _]]; done. }
    rewrite Hn in E. injection E as <-. destruct Hfd as [(-> & _)|(Hr & Hg & _)].
    + split; [done|]. by rewrite Hview, text_equal_refl.
    + exfalso. by apply (not_full_after_close s r).
Qed.

Lemma boot_rd_refused : (rd boot_fs (Some (txt "/opt"))).1 = -1.
Proof. vm_compute. reflexivity. Qed.

Lemma failed_operations_witness : (rd boot_fs (Some (txt "/opt"))).2 = boot_fs.
Proof.
  exact (proj1 (proj2 (failed_operations boot_fs zero_allocator (Some (txt "/opt")) 3 None true 0 boot_ok))
           boot_rd_refused).
Defined.

(** [write] is only safe up to 2 GiB.  A write whose end lies above 2 GiB
    never returns (the doubling of the capacity wraps to zero), and one whose
    end wraps around 32 bits copies past the end of the file's buffer. *)
Lemma write_limits s nb fd j d bs :
  fs_ok s → good_allocator nb → get_fd s fd = Some (j, d) → Z.land (fd_flags d) kOpenWrite ≠ 0 →
  let end_ := fd_offset d + Z.of_nat (length bs) in
  (2147483648 < end_ < 4294967296 → write nb s fd (Some bs) = Diverges) ∧
  (4294967296 <= end_ <= 4294967296 + 2147483648 → write nb s fd (Some bs) = Overruns).
Proof.
  intros Hok Hnb Hg Hf end_. destruct (open_file s fd j d Hok Hg) as (Ho & k & i & Hk & Hi & Hdi & Hio & _).
  pose proof (capacity_bound _ (io_capacity i Hio)) as Hcap.
  split; intros Hend; unfold write; rewrite Hg, Hk, (proj2 (Z.eqb_neq _ 0) Hf), (inode_at_live s k i Hi).
  - rewrite u32_small by lia. fold end_. unfold ensure_capacity. rewrite (proj2 (Z.leb_gt _ _)) by lia.
    assert (∃ x, 0 <= x <= 25 ∧ (if in_capacity i =? 0 then 64 else in_capacity i) = 64 * 2 ^ x) as (x & Hx & ->).
    { destruct (io_capacity i Hio) as [->|(x & Hx & E)]; [by exists 0|]. exists x. split; [done|].
      rewrite (proj2 (Z.eqb_neq _ 0)); [done|]. assert (0 < 2 ^ x) by (apply Z.pow_pos_nonneg; lia). lia. }
    rewrite grow_never by lia. done.
  - fold end_. assert (u32 end_ = end_ - 4294967296) as ->.
    { unfold u32. symmetry. apply Z.mod_unique with 1; lia. }
    destruct (ensure_capacity_succeeds nb i (end_ - 4294967296) Hio ltac:(lia)) as [i' He].
    { intros n. destruct (Hnb n) as (b & -> & _). done. }
    rewrite He. apply ensure_capacity_ok in He as (Hio' & _); [|by apply good_sized|done|lia].
    pose proof (capacity_bound _ (io_capacity i' Hio')) as Hcap'. unfold copy_into.
    destruct bs as [|x xs]; [subst end_; cbn in Hend; lia|]. pose proof (io_data i' Hio') as Hd.
    destruct (in_data i') as [b|]; [|done]. rewrite (proj2 (Z.leb_gt _ _)) by lia. done.
Qed.

Lemma boot_writer :
  ∃ s' d, open boot_fs (Some (txt "/etc/passwd")) kOpenWrite = (3, s') ∧ fs_ok s' ∧
          get_fd s' 3 = Some (0%nat, d) ∧ fd_offset d = 0 ∧ fd_flags d = kOpenWrite.
Proof.
  destruct boot_passwd as [c Hc].
  destruct (open_existing boot_fs (Some (txt "/etc/passwd")) (txt "/etc/passwd") c kOpenWrite boot_ok
    (proj2 boot_paths) Hc (proj1 boot_room)) as (r & s' & k & i & E & _ & Hok' & _ & _ & Hg & _).
  assert ((open boot_fs (Some (txt "/etc/passwd")) kOpenWrite).1 = 3) as Hr by (vm_compute; reflexivity).
  rewrite E in Hr. cbn in Hr. subst r. exists s'. eexists.
  split; [exact E|]. split; [exact Hok'|]. split; [exact Hg|]. split; reflexivity.
Qed.

Lemma write_limits_witness :
  ∃ s', (open boot_fs (Some (txt "/etc/passwd")) kOpenWrite).2 = s' ∧
        write zero_allocator s' 3 (Some (replicate (Z.to_nat 3000000000) 0)) = Diverges.
Proof.
  destruct boot_writer as (s' & d & E & Hok & Hg & Ho & Hf). exists s'. split; [rewrite E; reflexivity|].
  apply (proj1 (write_limits s' zero_allocator 3 0 d (replicate (Z.to_nat 3000000000) 0) Hok
    zero_allocator_good Hg ltac:(rewrite Hf; discriminate))).
  rewrite Ho, length_replicate. lia.
Defined.
