(* ===== verification/FsHandles.v ===== *)
(** * Open files of the RAM file system by path

    A descriptor as a handle on a path: what reading, writing, opening and
    closing through it do to the tree as [view] shows it.  The console and the
    shell use these lemmas for their file commands. *)

From S2P Require Import Prelude CText RamFs RamFsSpec.

(** ** Descriptors as handles on a path *)

Definition handle (s : ramfs) (fd : Z) (p : text) (off flags : Z) : Prop :=
  ∃ j k i, get_fd s fd = Some (j, {| fd_used := true; fd_inode := Some k; fd_offset := off; fd_flags := flags |}) ∧
    live_inode s k i ∧ in_name i = p.

Lemma handle_contents s k i p data :
  fs_ok s → live_inode s k i → in_name i = p → view s p = Some (File data) → contents_of i = data.
Proof.
  intros Hok Hi Hn Hv. assert (view s p = Some (node_of i)) as E by (apply view_Some; [done|]; by exists k, i).
  rewrite Hv in E. unfold node_of in E. destruct (in_is_directory i); [done|]. by injection E.
Qed.

Lemma fd_read_frame s fd b n : let s' := (read s fd b n).2 in m_inodes s' = m_inodes s ∧ ∀ fd', fd' ≠ fd → get_fd s' fd' = get_fd s fd'.
Proof.
  cbv zeta. unfold read. destruct b; [done|]. destruct (get_fd s fd) as [[j d]|] eqn:Hg; [|done]. destruct (fd_inode d); [|done].
  destruct (_ =? 0); [done|]. destruct (_ <=? _); [done|]. cbn [snd]. split; [done|]. intros fd' Hne.
  apply get_fd_Some in Hg as (_ & _ & ->). by apply get_fd_other.
Qed.

Lemma read_handle s fd p off flags data count :
  fs_ok s → handle s fd p off flags → Z.land flags kOpenRead ≠ 0 → view s p = Some (File data) → 0 <= count < 2147483648 →
  let bytes := take (Z.to_nat count) (drop (Z.to_nat off) data) in
  ∃ s', read s fd false count = (Z.of_nat (length bytes), bytes, s') ∧ fs_ok s' ∧ (∀ q, view s' q = view s q) ∧
    handle s' fd p (off + Z.of_nat (length bytes)) flags ∧ m_inodes s' = m_inodes s ∧ ∀ fd', fd' ≠ fd → get_fd s' fd' = get_fd s fd'.
Proof.
  intros Hok (j & k & i & Hg & Hi & Hn) Hf Hv Hc. pose proof (fd_read_frame s fd false count) as [F1 F2].
  destruct (read_effect s fd _ _ count Hok Hg Hc Hf) as (k' & i' & E & Hi' & s' & Hr & Hok' & Hv' & Hg'). cbn in E. injection E as <-.
  assert (i' = i) as -> by (destruct Hi, Hi'; congruence). pose proof (handle_contents s k i p data Hok Hi Hn Hv) as Hcont.
  cbn [fd_offset fd_flags] in Hr, Hg'. rewrite Hcont in Hr, Hg'. rewrite Hr in F1, F2. cbn [snd] in F1, F2. cbv zeta. exists s'.
  split_and!; [done..| |done|done]. exists j, k, i. split_and!; [done| |done]. unfold live_inode. by rewrite F1.
Qed.

Section writing.
Context (nb : Z → option (list Z)) (nb_sized : sized_allocator nb).

Lemma fd_write_frame s fd bs r s' :
  fs_ok s → write nb s fd (Some bs) = Done (r, s') →
  (∀ fd', fd' ≠ fd → get_fd s' fd' = get_fd s fd') ∧ ∀ k i, live_inode s k i → ∃ i', live_inode s' k i' ∧ in_name i' = in_name i.
Proof using nb_sized.
  intros Hok. unfold write. destruct (get_fd s fd) as [[j d]|] eqn:Hg; [|intros [= _ <-]; eauto]. destruct (fd_inode d) as [k|] eqn:Hk; [|intros [= _ <-]; eauto].
  destruct (_ =? 0); [intros [= _ <-]; eauto|]. destruct (open_file s fd j d Hok Hg) as (Ho & k' & i & Hk' & Hi & Hdi & Hio & _).
  rewrite Hk in Hk'. injection Hk' as <-. rewrite (inode_at_live s k i Hi).
  destruct (ensure_capacity _ _ _) as [[i1|]| |] eqn:Ec; [|intros [= _ <-]; eauto|done..].
  apply (ensure_capacity_ok nb nb_sized) in Ec as (_ & E1 & E2 & _); [|done|apply u32_range].
  destruct (copy_into _ _ _) as [data|]; [|done]. intros [= _ <-]. apply get_fd_Some in Hg as (Hd & Hu & ->). split.
  - intros fd' Hne. rewrite <- (get_fd_other s j {| fd_used := fd_used d; fd_inode := Some k; fd_offset := fd_offset d +u Z.of_nat (length bs);
      fd_flags := fd_flags d |} fd' Hne). reflexivity.
  - intros l x [Hx Hxu]. destruct Hi as [Hi Hiu]. unfold live_inode. cbn [m_inodes]. destruct (decide (l = k)) as [->|Hne].
    + rewrite Hi in Hx. injection Hx as <-. eexists. split; [split; [apply list_lookup_insert_eq; by eapply lookup_lt_Some|]|]; cbn; congruence.
    + exists x. by rewrite list_lookup_insert_ne.
Qed.

Lemma write_handle_total s fd p off flags data bs :
  (∀ n, is_Some (nb n)) → fs_ok s → handle s fd p off flags → Z.land flags kOpenWrite ≠ 0 → view s p = Some (File data) →
  0 <= off <= Z.of_nat (length data) → off + Z.of_nat (length bs) <= 2147483647 →
  ∃ s', write nb s fd (Some bs) = Done (Z.of_nat (length bs), s') ∧ fs_ok s' ∧
    (∀ q, view s' q = if text_equal q p then Some (File (splice data (Z.to_nat off) bs)) else view s q) ∧
    handle s' fd p (off + Z.of_nat (length bs)) flags ∧ (∀ fd', fd' ≠ fd → get_fd s' fd' = get_fd s fd') ∧
    ∀ fd' p' off' flags', fd' ≠ fd → handle s fd' p' off' flags' → handle s' fd' p' off' flags'.
Proof using nb_sized.
  intros Htot Hok (j & k & i & Hg & Hi & Hn) Hf Hv Hoff Hlen.
  destruct (write_effect nb nb_sized s fd _ _ bs Hok Hg Hf Htot Hlen) as (k' & i' & E & Hi' & Hd & Hw). cbn in E. injection E as <-.
  assert (i' = i) as -> by (destruct Hi, Hi'; congruence). pose proof (handle_contents s k i p data Hok Hi Hn Hv) as Hcont.
  destruct Hw as (s' & Hw & Hok' & Hv' & Hg').
  { cbn. pose proof (length_contents i (fo_inode s Hok k i Hi)). rewrite Hcont in *. lia. }
  destruct (fd_write_frame s fd bs _ s' Hok Hw) as [F1 F2]. rewrite Hn, Hcont in Hv'. exists s'. split_and!; [done|done|done| |done|].
  - destruct (F2 k i Hi) as (i1 & Hi1 & Hn1). exists j, k, i1. split_and!; [done|done|congruence].
  - intros fd' p' off' flags' Hne (j' & k1 & i1 & Hg1 & Hi1 & Hn1). destruct (F2 k1 i1 Hi1) as (i2 & Hi2 & Hn2).
    exists j', k1, i2. split_and!; [by rewrite F1|done|congruence].
Qed.

End writing.

Lemma write_handle nb (nb_good : good_allocator nb) s fd p off flags data bs :
  fs_ok s → handle s fd p off flags → Z.land flags kOpenWrite ≠ 0 → view s p = Some (File data) →
  0 <= off <= Z.of_nat (length data) → off + Z.of_nat (length bs) <= 2147483647 →
  ∃ s', write nb s fd (Some bs) = Done (Z.of_nat (length bs), s') ∧ fs_ok s' ∧
    (∀ q, view s' q = if text_equal q p then Some (File (splice data (Z.to_nat off) bs)) else view s q) ∧
    handle s' fd p (off + Z.of_nat (length bs)) flags ∧ (∀ fd', fd' ≠ fd → get_fd s' fd' = get_fd s fd') ∧
    ∀ fd' p' off' flags', fd' ≠ fd → handle s fd' p' off' flags' → handle s' fd' p' off' flags'.
Proof.
  apply write_handle_total; [by apply good_sized|]. intros n. by destruct (nb_good n) as (b & -> & _).
Qed.

(** An allocator that may fail: the write fails and changes nothing, or it is
    a write with memory. *)
Definition with_memory (nb : Z → option (list Z)) (n : Z) : option (list Z) :=
  match nb n with Some b => Some b | None => zero_allocator n end.

Lemma with_memory_sized nb : sized_allocator nb → sized_allocator (with_memory nb) ∧ ∀ n, is_Some (with_memory nb n).
Proof.
  intros Hs. unfold with_memory. split.
  - intros n b Hn. destruct (nb n) eqn:E; [intros [= <-]; by eapply Hs|]. intros [= <-]. rewrite length_replicate. lia.
  - intros n. destruct (nb n); eexists; reflexivity.
Qed.

Lemma write_or_fails nb s fd bs : write nb s fd bs = Done (-1, s) ∨ write nb s fd bs = write (with_memory nb) s fd bs.
Proof.
  unfold write. destruct bs as [bs|]; [|by left]. destruct (get_fd s fd) as [[j d]|]; [|by left]. destruct (fd_inode d) as [k|]; [|by left].
  destruct (_ =? 0); [by left|]. unfold ensure_capacity, with_memory. destruct (_ <=? _); [by right|]. destruct (grow _ _ _) as [c|]; [|by right].
  destruct (nb c); [by right|by left].
Qed.

Lemma write_handle_sized nb s fd p off flags data bs :
  sized_allocator nb → fs_ok s → handle s fd p off flags → Z.land flags kOpenWrite ≠ 0 → view s p = Some (File data) →
  0 <= off <= Z.of_nat (length data) → off + Z.of_nat (length bs) <= 2147483647 →
  write nb s fd (Some bs) = Done (-1, s) ∨
  ∃ s', write nb s fd (Some bs) = Done (Z.of_nat (length bs), s') ∧ fs_ok s' ∧
    (∀ q, view s' q = if text_equal q p then Some (File (splice data (Z.to_nat off) bs)) else view s q) ∧
    ∀ fd', fd' ≠ fd → get_fd s' fd' = get_fd s fd'.
Proof.
  intros Hs Hok Hh Hf Hv Hoff Hlen. destruct (write_or_fails nb s fd (Some bs)) as [E|E]; [by left|right]. rewrite E.
  destruct (with_memory_sized nb Hs) as [Hs' Ht].
  destruct (write_handle_total _ Hs' s fd p off flags data bs Ht Hok Hh Hf Hv Hoff Hlen) as (s' & Ew & Hok' & V & _ & O & _). eauto 10.
Qed.

Definition all_closed (s : ramfs) : Prop := ∀ fd, get_fd s fd = None.
Definition closed_but (s : ramfs) (a b : Z) : Prop := ∀ fd, fd ≠ a → fd ≠ b → get_fd s fd = None.

Lemma splice_end data bs : splice data (length data) bs = data ++ bs.
Proof. unfold splice. rewrite take_ge by done. rewrite drop_ge by lia. by rewrite app_nil_r. Qed.

(** ** Copying through two descriptors *)

(** The state of a copy after [off] bytes: descriptor [a] reads [ps], [b]
    writes [pd], and no other is open. *)
Record copying (s : ramfs) (a b : Z) (ps pd : text) (rf wf : Z) (data : list Z) (off : Z) : Prop := {
  co_ok : fs_ok s;
  co_reads : handle s a ps off rf;
  co_writes : handle s b pd off wf;
  co_source : view s ps = Some (File data);
  co_target : view s pd = Some (File (take (Z.to_nat off) data));
  co_off : 0 <= off <= Z.of_nat (length data);
  co_closed : closed_but s a b;
}.

(** One turn: a chunk is read, and unless it is empty it is written. *)
Lemma copy_chunk nb s a b ps pd rf wf data off chunk :
  good_allocator nb → Z.land rf kOpenRead ≠ 0 → Z.land wf kOpenWrite ≠ 0 → a ≠ b → ps ≠ pd →
  Z.of_nat (length data) <= 2147483647 → 0 < chunk < 2147483648 →
  copying s a b ps pd rf wf data off →
  let bytes := take (Z.to_nat chunk) (drop (Z.to_nat off) data) in
  Z.of_nat (length bytes) = Z.min chunk (Z.of_nat (length data) - off) ∧
  ∃ s1, read s a false chunk = (Z.of_nat (length bytes), bytes, s1) ∧ fs_ok s1 ∧ closed_but s1 a b ∧ (∀ q, view s1 q = view s q) ∧
  ∃ s2, write nb s1 b (Some bytes) = Done (Z.of_nat (length bytes), s2) ∧
    copying s2 a b ps pd rf wf data (off + Z.of_nat (length bytes)) ∧
    ∀ q, text_equal q pd = false → view s2 q = view s q.
Proof.
  intros Hnb Hrf Hwf Hab Hpp Hlen Hch [Hok Ha Hb Hvs Hvd Hoff Hcl] bytes.
  assert (Z.of_nat (length bytes) = Z.min chunk (Z.of_nat (length data) - off)) as Hbl
    by (unfold bytes; rewrite length_take, length_drop; lia).
  split; [done|]. destruct (read_handle s a ps off rf data chunk Hok Ha Hrf Hvs ltac:(lia)) as (s1 & Er & Hok1 & V1 & Ha1 & I1 & O1).
  fold bytes in Er, Ha1. exists s1.
  assert (closed_but s1 a b) as Hcl1 by (intros fd Hfa Hfb; rewrite O1 by done; by apply Hcl).
  split_and!; [done..|].
  assert (handle s1 b pd off wf) as Hb1.
  { destruct Hb as (j & k & i & Hg & Hi & Hn). exists j, k, i. split_and!; [by rewrite O1|unfold live_inode; by rewrite I1|done]. }
  assert (view s1 pd = Some (File (take (Z.to_nat off) data))) as Hvd1 by (by rewrite V1).
  destruct (write_handle nb Hnb s1 b pd off wf _ bytes Hok1 Hb1 Hwf Hvd1) as (s2 & Ew & Hok2 & V2 & Hb2 & O2 & K2);
    [rewrite length_take; lia|lia|]. exists s2. split; [done|].
  assert (splice (take (Z.to_nat off) data) (Z.to_nat off) bytes = take (Z.to_nat (off + Z.of_nat (length bytes))) data) as Hsp.
  { rewrite <- (length_take_le data (Z.to_nat off)) at 2 by lia. rewrite splice_end. unfold bytes at 1.
    rewrite take_take_drop. destruct (Z.le_gt_cases (Z.of_nat (length data) - off) chunk).
    - rewrite (take_ge data (Z.to_nat off + _)), (take_ge data (Z.to_nat (off + _))) by lia. done.
    - f_equal. lia. }
  rewrite Hsp in V2. split; [split|].
  - done.
  - by apply K2.
  - done.
  - rewrite V2, (proj2 (text_equal_ne _ _)) by done. by rewrite V1.
  - by rewrite V2, text_equal_refl.
  - lia.
  - intros fd Hfa Hfb. rewrite O2 by done. by apply Hcl1.
  - intros q Hq. by rewrite V2, Hq, V1.
Qed.

(** Write, create and truncate. *)
Abbreviation replace_flags := (Z.lor (Z.lor kOpenWrite kOpenCreate) kOpenTruncate).

Lemma closed_not_full s : fs_ok s → all_closed s → ¬ fds_full s.
Proof. intros Hok Hc. eapply (not_full_after_close s 3); [done|lia|apply Hc]. Qed.

(** Live inodes keep their names. *)
Definition names_kept (s s' : ramfs) : Prop := ∀ k i, live_inode s k i → ∃ i', live_inode s' k i' ∧ in_name i' = in_name i.

Lemma open_inode_names s k flags : names_kept s (open_inode s k flags).2.
Proof.
  intros l i Hi. unfold open_inode. destruct (in_is_directory _); [eauto|]. set (s1 := if open_truncates flags then _ else s).
  assert (∃ i', live_inode s1 l i' ∧ in_name i' = in_name i) as H1.
  { unfold s1. destruct (open_truncates flags); [|eauto]. unfold live_inode in *. cbn [set_inodes m_inodes]. destruct (decide (l = k)) as [->|Hne].
    - exists (set_data_size i (in_data i) 0). unfold inode_at. destruct Hi as [Hi Hu]. rewrite Hi. cbn [default from_option id].
      split; [split; [apply list_lookup_insert_eq; by eapply lookup_lt_Some|done]|done].
    - exists i. by rewrite list_lookup_insert_ne. }
  clearbody s1. by destruct (_ <? 0).
Qed.

Lemma open_names s path flags : names_kept s (open s path flags).2.
Proof.
  unfold open. destruct (RamFs.normalize_path path 64) as [p|]; [|intros k i Hi; eauto]. destruct (text_equal _ _); [intros k i Hi; eauto|].
  destruct (find_inode s p); [apply open_inode_names|]. destruct (_ =? 0); [intros k i Hi; eauto|]. destruct (negb _); [intros k i Hi; eauto|].
  unfold create_inode. destruct (find_slot _ _) as [l|] eqn:El; [|intros k i Hi; eauto]. intros k i Hi.
  apply open_inode_names. unfold live_inode in *. cbn [set_inodes m_inodes]. rewrite list_lookup_insert_ne; [done|]. intros ->.
  apply find_slot_Some in El as [(x & Hx & Hu) _]. destruct Hi as [Hi Hiu]. rewrite Hi in Hx. injection Hx as <-. by rewrite Hiu in Hu.
Qed.

Lemma handle_kept s s' fd p off flags : names_kept s s' → get_fd s' fd = get_fd s fd → handle s fd p off flags → handle s' fd p off flags.
Proof.
  intros Hk Hg (j & k & i & Hf & Hi & Hn). destruct (Hk k i Hi) as (i' & Hi' & Hn'). exists j, k, i'. split_and!; [congruence|done|congruence].
Qed.

(** Opening the source and the destination of a copy. *)
Lemma open_source s src ps data :
  fs_ok s → all_closed s → RamFs.normalize_path (Some src) 64 = Some ps → view s ps = Some (File data) →
  ∃ a s', open s (Some src) kOpenRead = (a, s') ∧ 3 <= a < 35 ∧ fs_ok s' ∧ (∀ q, view s' q = view s q) ∧ handle s' a ps 0 kOpenRead ∧
    (∀ fd, fd ≠ a → get_fd s' fd = None) ∧ (table_full s' → table_full s).
Proof.
  intros Hok Hc Hn Hv. pose proof (open_effect s (Some src) kOpenRead Hok) as He.
  destruct (open s (Some src) kOpenRead) as [r s'] eqn:Eo. destruct He as (Hok' & [(_ & _ & Href)|(p' & c' & E & Hv' & Hview & Hfd)]).
  { specialize (Href ps Hn). rewrite Hv in Href. destruct Href as [?|[? _]]; done. }
  rewrite Hn in E. injection E as <-. destruct Hv' as [Hv'|[Hv' _]]; [|congruence]. rewrite Hv in Hv'. injection Hv' as <-.
  destruct Hfd as [(_ & Hfull & _)|(Hr & Hg & Ho & k & i & Hg' & Hi & Hni)]; [by apply closed_not_full in Hfull|].
  exists r, s'. split_and!; [done|lia|lia|done| |by exists (Z.to_nat (r - 3)), k, i|intros fd Hfd; by rewrite Ho|].
  - intros q. rewrite Hview. destruct (text_equal q ps) eqn:Eq; [|done]. apply text_equal_eq in Eq as ->. by rewrite Hv.
  - intros Hfull k' i' Hi'. assert (m_inodes s' = m_inodes s) as Em.
    { unfold open in Eo. rewrite Hn in Eo. destruct (text_equal ps _); [by injection Eo as <- <-|]. destruct (find_inode s ps) as [l|] eqn:El.
      - unfold open_inode in Eo. destruct (in_is_directory _); [by injection Eo as <- <-|]. change (open_truncates kOpenRead) with false in Eo.
        cbv iota in Eo. destruct (_ <? 0); by injection Eo as <- <-.
      - unfold view in Hv. by rewrite El in Hv. }
    apply (Hfull k'). by rewrite Em.
Qed.

Lemma open_target s dst pd :
  fs_ok s → RamFs.normalize_path (Some dst) 64 = Some pd →
  ((∃ c, view s pd = Some (File c)) ∨ view s pd = None ∧ view s (parent_of pd) = Some Dir) → ¬ fds_full s → ¬ table_full s →
  ∃ b s', open s (Some dst) replace_flags = (b, s') ∧ 3 <= b < 35 ∧ fs_ok s' ∧ get_fd s b = None ∧
    (∀ q, view s' q = if text_equal q pd then Some (File []) else view s q) ∧ handle s' b pd 0 replace_flags ∧
    names_kept s s' ∧ (∀ fd', fd' ≠ b → get_fd s' fd' = get_fd s fd').
Proof.
  intros Hok Hn Hv Hnf Hnt. pose proof (open_effect s (Some dst) replace_flags Hok) as He. pose proof (open_names s (Some dst) replace_flags) as Hk.
  destruct (open s (Some dst) replace_flags) as [r s'] eqn:Eo. destruct He as (Hok' & [(_ & _ & Href)|(p' & c' & E & Hv' & Hview & Hfd)]).
  { specialize (Href pd Hn). destruct Hv as [[x Hx]|[Hx1 Hx2]]; [rewrite Hx in Href; destruct Href as [?|[? _]]; done|].
    rewrite Hx1 in Href. destruct Href as [?|[_ [?|[?|?]]]]; done. }
  rewrite Hn in E. injection E as <-. destruct Hfd as [(_ & ? & _)|(Hr & Hg & Ho & k & i & Hg' & Hi & Hni)]; [done|].
  exists r, s'. split_and!; [done|lia|lia|done|done|exact Hview|by exists (Z.to_nat (r - 3)), k, i|done|done].
Qed.

(** The file system and the two paths of a copy. *)
Record copy_ready (s : ramfs) (src dst ps pd : text) (data : list Z) : Prop := {
  cr_ok : fs_ok s;
  cr_closed : all_closed s;
  cr_src : RamFs.normalize_path (Some src) 64 = Some ps;
  cr_dst : RamFs.normalize_path (Some dst) 64 = Some pd;
  cr_other : ps ≠ pd;
  cr_data : view s ps = Some (File data);
  cr_target : (∃ c, view s pd = Some (File c)) ∨ view s pd = None ∧ view s (parent_of pd) = Some Dir;
  cr_room : ¬ table_full s;
  cr_len : Z.of_nat (length data) <= 2147483647;
}.

Lemma closed_not_used s k : fs_ok s → all_closed s → inode_in_use s k = false.
Proof.
  intros Hok Hc. apply inode_in_use_false. intros n d Hd Hu. assert (n < 32)%nat by (rewrite <- (fo_fds s Hok); by eapply lookup_lt_Some).
  pose proof (get_fd_lookup s n d Hd Hu ltac:(done)) as E. by rewrite Hc in E.
Qed.

(** Both files opened. *)
Lemma copy_opens s src dst ps pd data :
  copy_ready s src dst ps pd data →
  ∃ a s1 b s2, open s (Some src) kOpenRead = (a, s1) ∧ open s1 (Some dst) replace_flags = (b, s2) ∧ 3 <= a ∧ 3 <= b ∧ a ≠ b ∧
    copying s2 a b ps pd kOpenRead replace_flags data 0 ∧ ∀ q, text_equal q pd = false → view s2 q = view s q.
Proof.
  intros [Hok Hcl Hns Hnd Hpp Hv Ht Hroom Hlen].
  destruct (open_source s src ps data Hok Hcl Hns Hv) as (a & s1 & E1 & Ha & Hok1 & V1 & H1 & O1 & T1).
  assert (¬ fds_full s1) as Hnf.
  { destruct (decide (a = 3)) as [->|Ha3]; [eapply (not_full_after_close s1 4)|eapply (not_full_after_close s1 3)]; try done; try lia; by apply O1. }
  destruct (open_target s1 dst pd Hok1 Hnd) as (b & s2 & E2 & Hb & Hok2 & Hgb & V2 & H2 & K2 & O2); [|done|by intros ?%T1|].
  { destruct Ht as [[x Hx]|[Hx1 Hx2]]; [left; exists x; by rewrite V1|right; by rewrite !V1]. }
  assert (a ≠ b) as Hab by (intros ->; destruct H1 as (j & k & i & Hg & _); congruence).
  exists a, s1, b, s2. split_and!; [done|done|lia|lia|done| |].
  - split; [done|by eapply handle_kept; [done|by apply O2|]|done| | |lia|].
    + by rewrite V2, (proj2 (text_equal_ne _ _)), V1 by done.
    + by rewrite V2, text_equal_refl.
    + intros fd Hfa Hfb. rewrite O2 by done. by apply O1.
  - intros q Hq. by rewrite V2, Hq, V1.
Qed.

(** Closing the only descriptor that is open. *)
Lemma close_closed f fd : fs_ok f → (∀ fd', fd' ≠ fd → get_fd f fd' = None) →
  fs_ok (close f fd).2 ∧ all_closed (close f fd).2 ∧ ∀ q, view (close f fd).2 q = view f q.
Proof.
  intros Hok Ho. pose proof (close_effect f fd Hok) as H. destruct (close f fd) as [r f']. destruct H as (H1 & H2 & _ & _ & H3 & H4).
  split_and!; [done| |done]. intros fd'. destruct (decide (fd' = fd)) as [->|]; [done|]. rewrite H4 by done. by apply Ho.
Qed.

(** Without open files every file can be removed. *)
Lemma unlink_closed s path p data :
  fs_ok s → all_closed s → RamFs.normalize_path (Some path) 64 = Some p → view s p = Some (File data) →
  ∃ s', unlink s (Some path) = (0, s') ∧ fs_ok s' ∧ all_closed s' ∧ ∀ q, view s' q = if text_equal q p then None else view s q.
Proof.
  intros Hok Hcl Hn Hv. pose proof (unlink_effect s (Some path) Hok) as Hu. destruct (unlink s (Some path)) as [r s2].
  destruct Hu as (Hok2 & Hfd & [(-> & p' & x & Hn' & _ & V2)|(_ & _ & Hno)]); cycle 1.
  { exfalso. destruct (Hno p Hn) as [Hnv|(k & _ & Hk)]; [by apply (Hnv data)|by rewrite closed_not_used in Hk]. }
  rewrite Hn in Hn'. injection Hn' as <-. exists s2. split_and!; [done|done| |done].
  intros fd. specialize (Hcl fd). unfold get_fd in *. by rewrite Hfd.
Qed.

Lemma boot_closed : all_closed boot_fs.
Proof.
  intros fd. destruct (get_fd boot_fs fd) as [[j d]|] eqn:E; [|done]. apply get_fd_Some in E as (Hd & Hu & _).
  assert (m_fds boot_fs = replicate 32 blank_fd) as Em by (vm_compute; reflexivity). rewrite Em in Hd.
  apply lookup_replicate in Hd as [-> _]. discriminate Hu.
Qed.

Lemma boot_copy_ready : ∃ data, copy_ready boot_fs (txt "/etc/passwd") (txt "/home/root/p") (txt "/etc/passwd") (txt "/home/root/p") data ∧
  Z.of_nat (length data) <= 2000.
Proof.
  assert (∃ data, view boot_fs (txt "/etc/passwd") = Some (File data) ∧ Z.of_nat (length data) <= 2000) as (data & Hv & Hl).
  { eexists. split; [vm_compute; reflexivity|]. apply Z.leb_le. vm_compute. reflexivity. }
  exists data. split; [|exact Hl]. split.
  - exact boot_ok.
  - exact boot_closed.
  - vm_compute; reflexivity.
  - vm_compute; reflexivity.
  - vm_compute; discriminate.
  - exact Hv.
  - right. split; vm_compute; reflexivity.
  - exact (proj2 boot_room).
  - clear Hv. lia.
Qed.

