(* ===== verification/Vfs.v ===== *)
(** * The file system interface ([kernel/fs/vfs.hpp])

    The virtual class [kernel::fs::FileSystem] that the system calls and the
    storage code call through [g_fs]. *)

From S2P Require Import Prelude CText RamFs RamFsSpec.

(** Calls in sequence: a call that does not return ends the sequence. *)
#[export] Instance outcome_bind : MBind outcome := λ A B f o,
  match o with Done a => f a | Diverges => Diverges | Overruns => Overruns end.

Class FileSystem (F : Type) := {
  fs_open : F → text → Z → Z * F;
  fs_read : F → Z → Z → Z * list Z * F;
  fs_write : F → Z → option (list Z) → outcome (Z * F);
  fs_close : F → Z → Z * F;
  fs_md : F → text → Z * F;
  fs_readdir : F → text → Z → Z * list DirEntry * F;
  fs_rd : F → text → Z * F;
  fs_unlink : F → text → Z * F;
}.

(** What the kernel relies on: no more is put in the caller's buffer than the
    caller asked for, and names fit their array. *)
Class FileSystemLaws (F : Type) `{FileSystem F} := {
  fs_read_law : ∀ f fd count, 0 <= count →
    Z.of_nat (length (fs_read f fd count).1.2) <= count;
  fs_readdir_law : ∀ f path room, 0 <= room →
    Z.of_nat (length (fs_readdir f path room).1.2) <= room ∧
    Forall (λ e, text_len (de_name e) < 64) (fs_readdir f path room).1.2;
}.

(** ** [RamFs] as a file system *)

Section ramfs_instance.
Context (new_bytes : Z → option (list Z)).

Definition ramfs_fs : FileSystem ramfs := {|
  fs_open s path flags := open s (Some path) flags;
  fs_read s fd count := read s fd false count;
  fs_write s fd bs := RamFs.write new_bytes s fd bs;
  fs_close := close;
  fs_md s path := md s (Some path);
  fs_readdir s path n := (readdir s (Some path) false n, s);
  fs_rd s path := rd s (Some path);
  fs_unlink s path := unlink s (Some path);
|}.

#[local] Existing Instance ramfs_fs.

Lemma list_dir_bounds l p room :
  (length (list_dir l p room) <= room)%nat ∧ Forall (λ e, text_len (de_name e) < 64) (list_dir l p room).
Proof.
  revert room. induction l as [|i l IH]; intros [|room]; cbn [list_dir]; [by split; [cbn; lia|]..|].
  destruct (child_name p i) as [c|]; [|apply IH]. destruct (IH room) as [H1 H2]. split; [cbn; lia|].
  constructor; [|done]. by apply copy_text_length.
Qed.

Program Definition ramfs_fs_laws : FileSystemLaws ramfs := {| fs_read_law := _; fs_readdir_law := _ |}.
Next Obligation.
  intros s fd count Hc. cbn [fs_read ramfs_fs]. unfold read. cbn.
  destruct (get_fd s fd) as [[j d]|]; [|cbn; lia]. destruct (fd_inode d) as [k|]; [|cbn; lia].
  destruct (_ =? 0); [cbn; lia|]. destruct (_ <=? _); [cbn; lia|]. cbn [fst snd].
  rewrite length_take. destruct (count <? _) eqn:E; zbool; lia.
Qed.
Next Obligation.
  intros s path room Hr. cbn [fs_readdir ramfs_fs]. unfold readdir. cbn [orb].
  destruct (room =? 0); [done|]. destruct (normalize_path _ _) as [p|]; [|done].
  destruct (find_inode s p) as [k|]; [|done]. destruct (negb _); [done|]. cbn [fst snd].
  destruct (list_dir_bounds (m_inodes s) p (Z.to_nat room)). split; [lia|done].
Qed.
End ramfs_instance.
