(* ===== verification/Scheduler.v ===== *)
(** * The task scheduler

    Model of [kernel/task/scheduler.cpp] (and of the exit path of [irq0_stub]
    in [boot/interrupts.S], which consumes the stack the scheduler returns).
    The tables of tasks and processes are lists of fixed length; a pointer into
    one of them is its index.  What the scheduler needs from the heap, the
    virtual memory manager and the GDT is the class [KernelServices]. *)

From S2P Require Import Prelude Memory CText.

(** ** The services the scheduler calls *)

Class KernelServices (K : Type) := {
  ks_alloc : K → Z → Z → Z * K;           (* heap::alloc *)
  ks_kernel_space : K → Z;                (* vmm::kernel_address_space *)
  ks_clone_space : K → Z * K;             (* vmm::create_kernel_clone_address_space *)
  ks_switch_space : K → Z → K;            (* vmm::switch_address_space *)
  ks_set_kernel_stack : K → Z → K;        (* gdt::set_kernel_stack *)
  ks_mem : K → memory;
  ks_set_mem : K → memory → K;
}.

(** A non-null block lies below the top of the address space; raw stores go
    to the memory that is read back. *)
Class KernelServicesLaws (K : Type) `{KernelServices K} := {
  ks_ok : K → Prop;
  ks_room : K → Z;
  ks_alloc_law : ∀ k size, ks_ok k → 0 < size <= ks_room k →
    let '(p, _) := ks_alloc k size 16 in p = 0 ∨ 0 < p ∧ p + size < 4294967296;
  ks_mem_law : ∀ k m, ks_mem (ks_set_mem k m) = m;
}.

(** ** Data *)

Definition kMaxTasks : Z := 16.
Definition kMaxProcesses : Z := 8.
Definition kKernelCodeSelector : Z := 8.
Definition kEflagsInterruptEnabled : Z := 514.
Definition kQuantumTicks : Z := 10.
Definition kNoWakeTick : Z := 4294967295.

Inductive TaskState := kUnused | kRunnable | kSleeping | kExited.

#[export] Instance TaskState_eq_dec : EqDecision TaskState.
Proof. solve_decision. Defined.

Definition is_runnable (st : TaskState) : bool := match st with kRunnable => true | _ => false end.
Definition is_sleeping (st : TaskState) : bool := match st with kSleeping => true | _ => false end.

Record Task := mk_task {
  state : TaskState;
  tid : Z;
  t_pid : Z;
  saved_esp : Z;
  entry : Z;
  wake_tick : Z;
  ring : Z;
  user_entry : Z;
  user_esp0 : Z;
  kernel_stack_top : Z;
  user_started : bool;
}.

Record Process := mk_process {
  p_used : bool;
  p_pid : Z;
  parent_pid : Z;
  uid : Z;
  gid : Z;
  home : text;
  p_name : text;
  live_threads : Z;
  address_space : Z;
}.

Definition cleared_task : Task := mk_task kUnused 0 0 0 0 kNoWakeTick 0 0 0 0 false.
Definition cleared_process : Process := mk_process false 0 0 0 0 [] [] 0 0.

#[export] Instance Task_inhabited : Inhabited Task := populate cleared_task.
#[export] Instance Process_inhabited : Inhabited Process := populate cleared_process.

Definition set_run (t : Task) (st : TaskState) (wake : Z) : Task :=
  mk_task st (tid t) (t_pid t) (saved_esp t) (entry t) wake (ring t) (user_entry t)
          (user_esp0 t) (kernel_stack_top t) (user_started t).
Definition set_saved_esp (t : Task) (esp : Z) : Task :=
  mk_task (state t) (tid t) (t_pid t) esp (entry t) (wake_tick t) (ring t) (user_entry t)
          (user_esp0 t) (kernel_stack_top t) (user_started t).
Definition set_user_started (t : Task) : Task :=
  mk_task (state t) (tid t) (t_pid t) (saved_esp t) (entry t) (wake_tick t) (ring t)
          (user_entry t) (user_esp0 t) (kernel_stack_top t) true.
Definition set_live_threads (p : Process) (n : Z) : Process :=
  mk_process (p_used p) (p_pid p) (parent_pid p) (uid p) (gid p) (home p) (p_name p) n (address_space p).

Record scheduler (K : Type) := mk_sched {
  g_tasks : list Task;
  g_processes : list Process;
  g_current_task : Z;
  g_next_pid : Z;
  g_next_tid : Z;
  g_process_count : Z;
  g_thread_count : Z;
  kern : K;
}.
#[global] Arguments mk_sched {K}.
#[global] Arguments g_tasks {K}.
#[global] Arguments g_processes {K}.
#[global] Arguments g_current_task {K}.
#[global] Arguments g_next_pid {K}.
#[global] Arguments g_next_tid {K}.
#[global] Arguments g_process_count {K}.
#[global] Arguments g_thread_count {K}.
#[global] Arguments kern {K}.

(** ** The exit path of [irq0_stub]: [mov %eax, %esp; popa; iret] *)

Record cpu_frame := mk_frame {
  f_edi : Z; f_esi : Z; f_ebp : Z; f_ebx : Z; f_edx : Z; f_ecx : Z; f_eax : Z;
  f_eip : Z; f_cs : Z; f_eflags : Z;
}.

(** [popa] skips the saved ESP; [iret] pops EIP, CS and EFLAGS. *)
Definition irq0_exit (m : memory) (esp : Z) : cpu_frame :=
  let w i := load32 m (esp + 4 * i) in
  mk_frame (w 0) (w 1) (w 2) (w 4) (w 5) (w 6) (w 7) (w 8) (w 9) (w 10).

(** Store below the stack pointer: [*--sp = v]. *)
Definition push (ms : memory * Z) (v : Z) : memory * Z :=
  let '(m, sp) := ms in (store32 m (sp -u 4) v, sp -u 4).

Section scheduler_model.
Context {K : Type} `{KernelServices K}.
Context (task_entry_trampoline_addr : Z).
Implicit Types s : scheduler K.

Definition with_tasks s (ts : list Task) : scheduler K :=
  mk_sched ts (g_processes s) (g_current_task s) (g_next_pid s) (g_next_tid s)
           (g_process_count s) (g_thread_count s) (kern s).
Definition with_processes s (ps : list Process) : scheduler K :=
  mk_sched (g_tasks s) ps (g_current_task s) (g_next_pid s) (g_next_tid s)
           (g_process_count s) (g_thread_count s) (kern s).
Definition with_current s (c : Z) : scheduler K :=
  mk_sched (g_tasks s) (g_processes s) c (g_next_pid s) (g_next_tid s)
           (g_process_count s) (g_thread_count s) (kern s).
Definition with_counts s (np nt pc tc : Z) : scheduler K :=
  mk_sched (g_tasks s) (g_processes s) (g_current_task s) np nt pc tc (kern s).
Definition with_kern s (k : K) : scheduler K :=
  mk_sched (g_tasks s) (g_processes s) (g_current_task s) (g_next_pid s) (g_next_tid s)
           (g_process_count s) (g_thread_count s) k.

(** ** Internal operations *)

Definition find_process s (pid : Z) : option nat :=
  find_slot (λ p, p_used p && (p_pid p =? pid)) (g_processes s).

Definition clear_process s (i : nat) : scheduler K :=
  with_processes s (<[i := cleared_process]> (g_processes s)).

Definition clear_task s (i : nat) : scheduler K :=
  with_tasks s (<[i := cleared_task]> (g_tasks s)).

(** The fields a fresh process takes from its parent; the new slot is already
    marked used when the parent is looked up. *)
Definition inherit s (parent : Z) : Z * Z * text :=
  match find_process s parent with
  | None => (0, 0, copy_text (txt "/root") 32)
  | Some j =>
      let par := g_processes s !!! j in
      (uid par, gid par, copy_text (match home par with [] => txt "/root" | h => h end) 32)
  end.

Definition create_process s (name : option text) (parent : Z) : Z * scheduler K :=
  match find_slot (λ p, negb (p_used p)) (g_processes s) with
  | None => (0, s)
  | Some i =>
      let old := g_processes s !!! i in
      let pid := g_next_pid s in
      let s := with_counts s (g_next_pid s +u 1) (g_next_tid s) (g_process_count s) (g_thread_count s) in
      let s := with_processes s (<[i := mk_process true pid parent (uid old) (gid old)
                                          (home old) (p_name old) 0 (address_space old)]> (g_processes s)) in
      let first := (g_process_count s =? 0) && (parent =? 0) in
      let '(u, g, h) := if first then (0, 0, copy_text (txt "/root") 32) else inherit s parent in
      let '(space, k) := if first then (ks_kernel_space (kern s), kern s)
                         else ks_clone_space (kern s) in
      let s := with_kern s k in
      if negb first && (space =? 0) then (0, clear_process s i)
      else
        let nm := copy_text (match name with None => txt "process" | Some n => n end) 24 in
        let s := with_processes s (<[i := mk_process true pid parent u g h nm 0 space]> (g_processes s)) in
        (pid, with_counts s (g_next_pid s) (g_next_tid s) (g_process_count s +u 1) (g_thread_count s))
  end.

(** The frame a new kernel task is resumed from; the stores, first to last. *)
Definition initial_frame : list Z :=
  [kEflagsInterruptEnabled; kKernelCodeSelector; task_entry_trampoline_addr;
   0; 0; 0; 0; 0; 0; 0; 0].

Definition setup_initial_task_stack (m : memory) (stack_base stack_size : Z) : memory * Z :=
  fold_left push initial_frame (m, stack_base +u stack_size).

Definition prepare_ring3_iret_frame (m : memory) (kernel_stack_top ring3_entry ring3_esp : Z) : memory * Z :=
  fold_left push [0; 0; 0; 0; 0; 0; 0; 0; 35; ring3_esp; 514; 27; ring3_entry] (m, kernel_stack_top).

Definition alloc_task_slot s : option nat :=
  find_slot (λ t, match state t with kUnused | kExited => true | _ => false end) (g_tasks s).

(** [++process->live_threads; ++g_thread_count;] *)
Definition add_thread s (proc : nat) : scheduler K :=
  let p := g_processes s !!! proc in
  let s := with_processes s (<[proc := set_live_threads p (live_threads p +u 1)]> (g_processes s)) in
  with_counts s (g_next_pid s) (g_next_tid s) (g_process_count s) (g_thread_count s +u 1).

Definition create_task_for_process s (pid ent stack_size : Z) : Z * scheduler K :=
  if ent =? 0 then (-1, s)
  else
    match find_process s pid with
    | None => (-1, s)
    | Some proc =>
        match alloc_task_slot s with
        | None => (-1, s)
        | Some slot =>
            let s := clear_task s slot in
            let stack_bytes := if stack_size <? 4096 then 4096 else stack_size in
            let '(stack_mem, k) := ks_alloc (kern s) stack_bytes 16 in
            let s := with_kern s k in
            if stack_mem =? 0 then (-1, clear_task s slot)
            else
              let new_tid := g_next_tid s in
              let s := with_counts s (g_next_pid s) (g_next_tid s +u 1) (g_process_count s) (g_thread_count s) in
              let '(m, sp) := setup_initial_task_stack (ks_mem (kern s)) stack_mem stack_bytes in
              let s := with_kern s (ks_set_mem (kern s) m) in
              let s := with_tasks s (<[slot := mk_task kRunnable new_tid pid sp ent kNoWakeTick 0 0 0 0 false]>
                                       (g_tasks s)) in
              (i32 new_tid, add_thread s proc)
        end
    end.

Definition wake (now : Z) (t : Task) : Task :=
  if is_sleeping (state t) && (wake_tick t <=? now) then set_run t kRunnable kNoWakeTick else t.

Definition wake_sleeping_tasks s (now_tick : Z) : scheduler K :=
  with_tasks s (wake now_tick <$> g_tasks s).

Fixpoint pick_loop (n : nat) (ts : list Task) (current_index offset : Z) : Z :=
  match n with
  | O => current_index
  | S n' =>
      let candidate := (current_index +u offset) mod kMaxTasks in
      if is_runnable (state (zget ts candidate)) then candidate
      else pick_loop n' ts current_index (offset + 1)
  end.

Definition pick_next_runnable (ts : list Task) (current_index : Z) : Z :=
  pick_loop (Z.to_nat kMaxTasks) ts current_index 1.

Definition current_task_ptr s : option nat :=
  if kMaxTasks <=? g_current_task s then None
  else match state (zget (g_tasks s) (g_current_task s)) with
       | kUnused => None
       | _ => Some (Z.to_nat (g_current_task s))
       end.

Definition mark_current_exited s : scheduler K :=
  match current_task_ptr s with
  | None => s
  | Some c =>
      let t := g_tasks s !!! c in
      match state t with
      | kExited => s
      | _ =>
          let s := match find_process s (t_pid t) with
                   | Some j =>
                       let p := g_processes s !!! j in
                       if 0 <? live_threads p
                       then with_processes s (<[j := set_live_threads p (live_threads p - 1)]> (g_processes s))
                       else s
                   | None => s
                   end in
          let s := if 0 <? g_thread_count s
                   then with_counts s (g_next_pid s) (g_next_tid s) (g_process_count s) (g_thread_count s - 1)
                   else s in
          with_tasks s (<[c := set_run t kExited kNoWakeTick]> (g_tasks s))
      end
  end.

(** ** Public operations *)

Definition init (k : K) (kernel_stack_esp : Z) : scheduler K :=
  let s := mk_sched (replicate 16 cleared_task) (replicate 8 cleared_process) 0 1 1 0 0 k in
  let '(kernel_pid, s) := create_process s (Some (txt "kernel")) 0 in
  if kernel_pid =? 0 then s
  else
    let kp := find_process s kernel_pid in
    let t0 := g_tasks s !!! 0%nat in
    let t := mk_task kRunnable (g_next_tid s) kernel_pid kernel_stack_esp 0 kNoWakeTick (ring t0)
               (user_entry t0) (user_esp0 t0) (kernel_stack_top t0) (user_started t0) in
    let s := with_counts s (g_next_pid s) (g_next_tid s +u 1) (g_process_count s) (g_thread_count s) in
    let s := with_tasks s (<[0%nat := t]> (g_tasks s)) in
    let s := match kp with
             | Some j => with_processes s (<[j := set_live_threads (g_processes s !!! j) 1]> (g_processes s))
             | None => s
             end in
    with_counts s (g_next_pid s) (g_next_tid s) (g_process_count s) 1.

Definition current_process_id s : Z :=
  match current_task_ptr s with None => 0 | Some c => t_pid (g_tasks s !!! c) end.

Definition create_kernel_task s (ent stack_size : Z) : Z * scheduler K :=
  create_task_for_process s 1 ent stack_size.

(** [clear_process] of the slot, then [if (g_process_count > 0) --g_process_count;] *)
Definition drop_process s (j : nat) : scheduler K :=
  let s := clear_process s j in
  if 0 <? g_process_count s
  then with_counts s (g_next_pid s) (g_next_tid s) (g_process_count s - 1) (g_thread_count s)
  else s.

Definition create_process_task s (name : option text) (ent stack_size : Z) : Z * scheduler K :=
  let '(pid, s) := create_process s name (current_process_id s) in
  if pid =? 0 then (-1, s)
  else
    let '(r, s) := create_task_for_process s pid ent stack_size in
    if r <? 0 then
      match find_process s pid with
      | Some j => (-1, drop_process s j)
      | None => (-1, s)
      end
    else (i32 pid, s).

Definition create_ring3_task s (name : option text) (entry_point user_esp : Z) : Z * scheduler K :=
  let '(pid, s) := create_process s name (current_process_id s) in
  if pid =? 0 then (-1, s)
  else
    match find_process s pid with
    | None => (-1, s)
    | Some proc =>
        match alloc_task_slot s with
        | None => (-1, drop_process s proc)
        | Some slot =>
            let s := clear_task s slot in
            let '(stack_mem, k) := ks_alloc (kern s) 4096 16 in
            let s := with_kern s k in
            if stack_mem =? 0 then (-1, drop_process (clear_task s slot) proc)
            else
              let sp := stack_mem +u 4096 in
              let t := mk_task kRunnable (g_next_tid s) pid sp 0 kNoWakeTick 3 entry_point user_esp sp false in
              let s := with_counts s (g_next_pid s) (g_next_tid s +u 1) (g_process_count s) (g_thread_count s) in
              let s := with_tasks s (<[slot := t]> (g_tasks s)) in
              (i32 pid, add_thread s proc)
        end
    end.

(** The part of [on_timer_interrupt] after a new current task is chosen. *)
Definition dispatch s (prev current_esp : Z) : Z * scheduler K :=
  let cur := g_current_task s in
  let nt := zget (g_tasks s) cur in
  let s := if negb (t_pid (zget (g_tasks s) prev) =? t_pid nt) then
             match find_process s (t_pid nt) with
             | Some j =>
                 let sp := address_space (g_processes s !!! j) in
                 if negb (sp =? 0) then with_kern s (ks_switch_space (kern s) sp) else s
             | None => s
             end
           else s in
  if saved_esp nt =? 0 then (current_esp, s)
  else
    let s := if (ring nt =? 3) && negb (kernel_stack_top nt =? 0)
             then with_kern s (ks_set_kernel_stack (kern s) (kernel_stack_top nt)) else s in
    if (ring nt =? 3) && negb (user_started nt) then
      let s := with_tasks s (<[Z.to_nat cur := set_user_started nt]> (g_tasks s)) in
      let '(m, frame) := prepare_ring3_iret_frame (ks_mem (kern s)) (saved_esp nt) (user_entry nt) (user_esp0 nt) in
      (frame, with_kern s (ks_set_mem (kern s) m))
    else
      let s := if negb (ring nt =? 3) && negb (prev =? cur)
               then with_kern s (ks_set_kernel_stack (kern s) (saved_esp nt)) else s in
      (saved_esp nt, s).

Definition on_timer_interrupt s (current_esp tick_count : Z) : Z * scheduler K :=
  match current_task_ptr s with
  | None => (current_esp, s)
  | Some c =>
      let s := with_tasks s (<[c := set_saved_esp (g_tasks s !!! c) current_esp]> (g_tasks s)) in
      let s := wake_sleeping_tasks s tick_count in
      if negb (tick_count mod kQuantumTicks =? 0) then (current_esp, s)
      else
        let prev := g_current_task s in
        dispatch (with_current s (pick_next_runnable (g_tasks s) (g_current_task s))) prev current_esp
  end.

Definition current_task_id s : Z :=
  match current_task_ptr s with None => 0 | Some c => tid (g_tasks s !!! c) end.
Definition current_thread_id s : Z := current_task_id s.
Definition current_ring_level s : Z :=
  match current_task_ptr s with None => 0 | Some c => ring (g_tasks s !!! c) end.
Definition process_count s : Z := g_process_count s.
Definition thread_count s : Z := g_thread_count s.

Definition current_process s : option Process :=
  c ← current_task_ptr s;
  j ← find_process s (t_pid (g_tasks s !!! c));
  Some (g_processes s !!! j).

Definition current_user_id s : Z := from_option uid 0 (current_process s).
Definition current_group_id s : Z := from_option gid 0 (current_process s).
Definition current_home s : text :=
  match current_process s with
  | Some p => match home p with [] => txt "/root" | h => h end
  | None => txt "/root"
  end.

Definition exit_current s : scheduler K := mark_current_exited s.

Definition sleep_current s (ticks now_tick : Z) : scheduler K :=
  if ticks =? 0 then s
  else match current_task_ptr s with
       | None => s
       | Some c =>
           with_tasks s (<[c := set_run (g_tasks s !!! c) kSleeping (now_tick +u ticks)]> (g_tasks s))
       end.

Definition is_current_sleeping s (now_tick : Z) : bool :=
  match current_task_ptr s with
  | None => false
  | Some c =>
      let t := g_tasks s !!! c in
      if is_sleeping (state t) then now_tick <? wake_tick t else false
  end.

(** The trampoline calls the entry of the task with the current tid, marks the
    task exited when it returns, and halts; [run_entry] is the entry's effect. *)
Definition task_entry_trampoline (run_entry : Z → scheduler K → scheduler K) s : option Z * scheduler K :=
  let current_tid := current_task_id s in
  match find_slot (λ t, (tid t =? current_tid) && negb (entry t =? 0)) (g_tasks s) with
  | Some i => let e := entry (g_tasks s !!! i) in (Some e, mark_current_exited (run_entry e s))
  | None => (None, s)
  end.

End scheduler_model.
