(* ===== verification/SchedulerSpec.v ===== *)
(** * What the scheduler guarantees

    The invariant of the two tables and their counters over every sequence of
    operations, round-robin choice and its fairness, sleeping, the frames new
    tasks are resumed from, and the ways the tables run out. *)

From S2P Require Import Prelude Memory CText Scheduler.

Definition live (t : Task) : bool :=
  match state t with kRunnable | kSleeping => true | _ => false end.

Definition owned (pid : Z) (t : Task) : bool := live t && (t_pid t =? pid).

(** The fields of a scheduler built by the model's updates. *)
Ltac sched_simpl :=
  cbn [with_tasks with_processes with_current with_counts with_kern clear_task clear_process
       g_tasks g_processes g_current_task g_next_pid g_next_tid g_process_count g_thread_count kern] in *.

Section invariant.
Context {K : Type} `{KernelServices K}.
Context (trampoline : Z).
Implicit Types s : scheduler K.

Record sched_ok s : Prop := {
  so_tasks : length (g_tasks s) = 16%nat;
  so_procs : length (g_processes s) = 8%nat;
  so_cur : 0 <= g_current_task s < 16;
  so_started : state (zget (g_tasks s) (g_current_task s)) ≠ kUnused;
  so_next : 1 <= g_next_pid s ∧ 1 <= g_next_tid s;
  so_pid : ∀ j p, g_processes s !! j = Some p → p_used p = true → 1 <= p_pid p < g_next_pid s;
  so_pid_inj : ∀ i j p q, g_processes s !! i = Some p → g_processes s !! j = Some q →
    p_used p = true → p_used q = true → p_pid p = p_pid q → i = j;
  so_tid : ∀ i t, g_tasks s !! i = Some t → state t ≠ kUnused → 1 <= tid t < g_next_tid s;
  so_tid_unused : ∀ i t, g_tasks s !! i = Some t → state t = kUnused → tid t = 0;
  so_tid_inj : ∀ i j t u, g_tasks s !! i = Some t → g_tasks s !! j = Some u →
    state t ≠ kUnused → tid t = tid u → i = j;
  so_process_count : g_process_count s = Z.of_nat (countb p_used (g_processes s));
  so_thread_count : g_thread_count s = Z.of_nat (countb live (g_tasks s));
  so_live_threads : ∀ j p, g_processes s !! j = Some p → p_used p = true →
    live_threads p = Z.of_nat (countb (owned (p_pid p)) (g_tasks s));
  so_owner : ∀ i t, g_tasks s !! i = Some t → live t = true →
    ∃ j p, g_processes s !! j = Some p ∧ p_used p = true ∧ p_pid p = t_pid t;
}.

(** Identifiers are 32-bit and returned as [int]: the counters must not wrap. *)
Definition id_room s : Prop := g_next_pid s < 2147483647 ∧ g_next_tid s < 2147483647.

(** ** Searches *)

Lemma find_process_Some s pid j :
  sched_ok s → find_process s pid = Some j ↔
  ∃ p, g_processes s !! j = Some p ∧ p_used p = true ∧ p_pid p = pid.
Proof.
  intros Hok. unfold find_process. rewrite find_slot_Some. split.
  - intros [(p & Hp & E) _]. exists p. zbool. naive_solver.
  - intros (p & Hp & Hu & <-). split.
    + exists p. split; [done|]. by rewrite Hu, Z.eqb_refl.
    + intros i q Hi Hq. apply andb_false_iff. destruct (p_used q) eqn:Hqu; [right|by left].
      apply Z.eqb_neq. intros E. pose proof (so_pid_inj s Hok i j q p). naive_solver lia.
Qed.

Lemma current_task_ptr_ok s :
  sched_ok s → current_task_ptr s = Some (Z.to_nat (g_current_task s)).
Proof.
  intros Hok. unfold current_task_ptr, kMaxTasks. destruct (so_cur s Hok).
  rewrite (proj2 (Z.leb_gt _ _)) by lia. pose proof (so_started s Hok). by destruct (state _).
Qed.

Lemma current_task_lookup s :
  sched_ok s → g_tasks s !! Z.to_nat (g_current_task s) = Some (zget (g_tasks s) (g_current_task s)).
Proof. intros Hok. apply zget_lookup. rewrite (so_tasks s Hok). apply (so_cur s Hok). Qed.

Lemma lookup_slot {A} `{Inhabited A} (l : list A) i : (i < length l)%nat → l !! i = Some (l !!! i).
Proof. intros. by apply list_lookup_lookup_total_lt. Qed.

Lemma owned_fresh s pid :
  sched_ok s → (∀ j p, g_processes s !! j = Some p → p_used p = true → p_pid p ≠ pid) →
  countb (owned pid) (g_tasks s) = 0%nat.
Proof.
  intros Hok Hf. apply countb_zero. intros i t Ht. unfold owned.
  destruct (live t) eqn:E; [|done]. apply Z.eqb_neq. intros <-.
  destruct (so_owner s Hok i t Ht E) as (j & p & Hj & Hu & Hp). by eapply Hf.
Qed.

(** ** Operations that do not touch the tables *)

Lemma with_kern_ok s k : sched_ok s → sched_ok (with_kern s k).
Proof. intros []. by split. Qed.

Lemma with_current_ok s c :
  sched_ok s → 0 <= c < 16 → state (zget (g_tasks s) c) ≠ kUnused → sched_ok (with_current s c).
Proof. intros [] ? ?. by split. Qed.

(** ** Updates that keep every task's identity and counted state *)

Definition same_task (t t' : Task) : Prop :=
  tid t' = tid t ∧ t_pid t' = t_pid t ∧ live t' = live t ∧ (state t' = kUnused ↔ state t = kUnused).

Lemma same_task_refl t : same_task t t.
Proof. by split_and!. Qed.

Lemma similar_tasks_ok s ts :
  sched_ok s → Forall2 same_task (g_tasks s) ts → sched_ok (with_tasks s ts).
Proof.
  intros Hok HF.
  assert (∀ q, (∀ t t', same_task t t' → q t = q t') → countb q ts = countb q (g_tasks s)) as Hc.
  { intros q Hq. symmetry. apply countb_Forall2. eapply Forall2_impl; eauto. }
  assert (∀ j u, ts !! j = Some u → ∃ v, g_tasks s !! j = Some v ∧ same_task v u) as Hlk.
  { intros j u Hj. by destruct (Forall2_lookup_r _ _ _ _ _ HF Hj) as (v & ? & ?); exists v. }
  pose proof (current_task_lookup s Hok) as Hcur.
  destruct Hok. split; sched_simpl; try done.
  - by rewrite <- (Forall2_length _ _ _ HF).
  - destruct (Forall2_lookup_l _ _ _ _ _ HF Hcur) as (u & Hu & _ & _ & _ & E).
    unfold zget. rewrite (list_lookup_total_correct _ _ _ Hu). by rewrite E.
  - intros j u Hj Hs. destruct (Hlk j u Hj) as (v & Hv & -> & _ & _ & E). rewrite E in Hs. eauto.
  - intros j u Hj Hs. destruct (Hlk j u Hj) as (v & Hv & -> & _ & _ & E). rewrite E in Hs. eauto.
  - intros j j' u u' Hj Hj' Hs E. destruct (Hlk j u Hj) as (v & Hv & E1 & _ & _ & E2).
    destruct (Hlk j' u' Hj') as (v' & Hv' & E1' & _). rewrite E2 in Hs. rewrite E1, E1' in E. eauto.
  - rewrite Hc; [done|]. by intros t t' (_ & _ & -> & _).
  - intros j p Hj Hup. rewrite Hc; [eauto|]. unfold owned. by intros t t' (_ & -> & -> & _).
  - intros j u Hj Hlu. destruct (Hlk j u Hj) as (v & Hv & _ & -> & E & _). rewrite E in Hlu. eauto.
Qed.

Lemma Forall2_insert_l {A} (R : A → A → Prop) (l : list A) i x y :
  (∀ z, R z z) → l !! i = Some x → R x y → Forall2 R l (<[i := y]> l).
Proof.
  intros Hr Hi Hxy. apply Forall2_same_length_lookup_2; [by rewrite length_insert|].
  intros j a b Ha [(-> & -> & _)|[_ Hb]]%list_lookup_insert_Some; [by simplify_eq|].
  by simplify_eq.
Qed.

Lemma update_task_ok s i t t' :
  sched_ok s → g_tasks s !! i = Some t → same_task t t' →
  sched_ok (with_tasks s (<[i := t']> (g_tasks s))).
Proof.
  intros Hok Hi Hs. apply similar_tasks_ok; [done|].
  eapply Forall2_insert_l; eauto using same_task_refl.
Qed.

Lemma wake_same now t : same_task t (wake now t).
Proof.
  unfold wake. destruct (is_sleeping _ && _) eqn:E; [|apply same_task_refl].
  apply andb_prop in E as [E _]. split_and!; try done; cbn; [|by destruct (state t)].
  unfold live. cbn. by destruct (state t).
Qed.

Lemma wake_sleeping_ok s now : sched_ok s → sched_ok (wake_sleeping_tasks s now).
Proof.
  intros Hok. apply similar_tasks_ok; [done|]. apply Forall2_fmap_r.
  apply Forall2_same_length_lookup_2; [done|]. intros i x y Hx Hy. simplify_eq. apply wake_same.
Qed.

(** ** Choosing the next task *)

(** Slots are visited in the order [current + 1, ..., current + 16] modulo 16. *)
Lemma pick_loop_spec n ts cur off :
  0 <= cur < 16 → 1 <= off → off + Z.of_nat n <= 17 →
  (∃ d, off <= d < off + Z.of_nat n ∧ pick_loop n ts cur off = (cur + d) mod 16 ∧
     is_runnable (state (zget ts ((cur + d) mod 16))) = true ∧
     ∀ e, off <= e < d → is_runnable (state (zget ts ((cur + e) mod 16))) = false) ∨
  (pick_loop n ts cur off = cur ∧
     ∀ e, off <= e < off + Z.of_nat n → is_runnable (state (zget ts ((cur + e) mod 16))) = false).
Proof.
  intros Hc. revert off. induction n as [|n IH]; intros off Ho Hn; cbn [pick_loop].
  { right. split; [done|]. lia. }
  unfold kMaxTasks. rewrite u32_small by lia.
  destruct (is_runnable (state (zget ts ((cur + off) mod 16)))) eqn:E.
  { left. exists off. split_and!; [lia|lia|done|done|lia]. }
  destruct (IH (off + 1)) as [(d & Hd & Hp & Hr & Hm)|[Hp Hm]]; [lia|lia| |].
  - left. exists d. split; [lia|]. split_and!; [done|done|]. intros e He.
    destruct (decide (e = off)) as [->|]; [done|]. apply Hm. lia.
  - right. split; [done|]. intros e He.
    destruct (decide (e = off)) as [->|]; [done|]. apply Hm. lia.
Qed.

Lemma pick_cases ts cur :
  0 <= cur < 16 →
  (∃ d, 1 <= d <= 16 ∧ pick_next_runnable ts cur = (cur + d) mod 16 ∧
     is_runnable (state (zget ts ((cur + d) mod 16))) = true ∧
     ∀ e, 1 <= e < d → is_runnable (state (zget ts ((cur + e) mod 16))) = false) ∨
  (pick_next_runnable ts cur = cur ∧
     ∀ i, 0 <= i < 16 → is_runnable (state (zget ts i)) = false).
Proof.
  intros Hc. unfold pick_next_runnable, kMaxTasks.
  destruct (pick_loop_spec 16 ts cur 1) as [(d & Hd & Hp & Hr & Hm)|[Hp Hm]]; [lia..| |].
  - left. exists d. split; [lia|done].
  - right. split; [done|]. intros i Hi.
    destruct (decide (cur < i)).
    + replace i with ((cur + (i - cur)) mod 16) by (rewrite Z.mod_small; lia). apply Hm. lia.
    + replace i with ((cur + (i - cur + 16)) mod 16); [apply Hm; lia|].
      replace (cur + (i - cur + 16)) with (i + 1 * 16) by lia. rewrite Z.mod_add, Z.mod_small; lia.
Qed.

Lemma pick_range ts cur : 0 <= cur < 16 → 0 <= pick_next_runnable ts cur < 16.
Proof.
  intros Hc. destruct (pick_cases ts cur Hc) as [(d & _ & -> & _)|[-> _]]; [|done].
  apply Z.mod_pos_bound. lia.
Qed.

(** ** Processes *)

Lemma unused_process_ok s i p q np :
  sched_ok s → g_processes s !! i = Some p → p_used p = false → p_used q = false →
  g_next_pid s <= np →
  sched_ok (mk_sched (g_tasks s) (<[i := q]> (g_processes s)) (g_current_task s) np (g_next_tid s)
              (g_process_count s) (g_thread_count s) (kern s)).
Proof.
  intros Hok Hi Hp Hq Hnp.
  assert (∀ j r, <[i:=q]> (g_processes s) !! j = Some r → p_used r = true → g_processes s !! j = Some r) as Hlk.
  { intros j r [(-> & -> & _)|[_ Hj]]%list_lookup_insert_Some Hr; [congruence|done]. }
  destruct Hok. split; sched_simpl; try done.
  - by rewrite length_insert.
  - lia.
  - intros j r Hj Hr. specialize (so_pid0 j r (Hlk j r Hj Hr) Hr). lia.
  - intros j j' r r' Hj Hj' Hr Hr'. eauto.
  - rewrite (countb_insert _ _ _ p) by done. rewrite Hp, Hq. cbn. lia.
  - intros j r Hj Hr. eauto.
  - intros j t Hj Ht. destruct (so_owner0 j t Hj Ht) as (j' & r & Hj' & Hr & E). exists j', r.
    split; [|done]. rewrite list_lookup_insert_ne; [done|]. congruence.
Qed.

Lemma new_process_ok s i p q :
  sched_ok s → g_processes s !! i = Some p → p_used p = false →
  p_used q = true → p_pid q = g_next_pid s → live_threads q = 0 →
  sched_ok (mk_sched (g_tasks s) (<[i := q]> (g_processes s)) (g_current_task s) (g_next_pid s + 1)
              (g_next_tid s) (g_process_count s + 1) (g_thread_count s) (kern s)).
Proof.
  intros Hok Hi Hp Hq Hpid Hlt.
  assert (∀ j r, <[i:=q]> (g_processes s) !! j = Some r → p_used r = true →
    j = i ∧ r = q ∨ j ≠ i ∧ g_processes s !! j = Some r ∧ p_pid r < g_next_pid s) as Hlk.
  { intros j r [(-> & -> & _)|[? Hj]]%list_lookup_insert_Some Hr; [by left|right].
    split; [done|]. split; [done|]. by apply (so_pid s Hok j r). }
  assert (countb (owned (g_next_pid s)) (g_tasks s) = 0%nat) as H0.
  { apply owned_fresh; [done|]. intros j r Hj Hr. pose proof (so_pid s Hok j r Hj Hr). lia. }
  destruct Hok. split; sched_simpl; try done.
  - by rewrite length_insert.
  - lia.
  - intros j r Hj Hr. destruct (Hlk j r Hj Hr) as [[-> ->]|(_ & Hj' & _)]; [lia|].
    specialize (so_pid0 j r Hj' Hr). lia.
  - intros j j' r r' Hj Hj' Hr Hr' E.
    destruct (Hlk j r Hj Hr) as [[-> ->]|(? & ? & ?)], (Hlk j' r' Hj' Hr') as [[-> ->]|(? & ? & ?)];
      [done|lia|lia|eauto].
  - rewrite (countb_insert _ _ _ p) by done. rewrite Hp, Hq. cbn. lia.
  - intros j r Hj Hr. destruct (Hlk j r Hj Hr) as [[-> ->]|(_ & Hj' & _)]; [|eauto].
    by rewrite Hlt, Hpid, H0.
  - intros j t Hj Ht. destruct (so_owner0 j t Hj Ht) as (j' & r & Hj' & Hr & E). exists j', r.
    split; [|done]. rewrite list_lookup_insert_ne; [done|]. congruence.
Qed.

(** What [create_process] leaves unchanged, and the slot it returns. *)
Lemma create_process_effect s name parent :
  sched_ok s → id_room s →
  let '(pid, s') := create_process s name parent in
  sched_ok s' ∧ g_tasks s' = g_tasks s ∧ g_current_task s' = g_current_task s ∧
  g_next_tid s' = g_next_tid s ∧ g_next_pid s <= g_next_pid s' <= g_next_pid s + 1 ∧
  (pid = 0 ∨ pid = g_next_pid s ∧ ∃ j, find_process s' pid = Some j ∧
     find_slot (λ p, negb (p_used p)) (g_processes s) = Some j ∧
     live_threads (g_processes s' !!! j) = 0).
Proof.
  intros Hok [Hr _]. unfold create_process.
  destruct (find_slot _ (g_processes s)) as [i|] eqn:Ef.
  2:{ split_and!; [done|done|done|done|lia|lia|by left]. }
  pose proof Ef as [(p & Hi & Hp%negb_true_iff) _]%find_slot_Some.
  pose proof (proj1 (so_next s Hok)) as Hnp. pose proof (lookup_lt_Some _ _ _ Hi) as Hlt.
  assert (g_next_pid s +u 1 = g_next_pid s + 1) as E1 by (apply u32_small; lia).
  assert (g_process_count s +u 1 = g_process_count s + 1) as E2.
  { apply u32_small. rewrite (so_process_count s Hok). pose proof (countb_le p_used (g_processes s)).
    rewrite (so_procs s Hok) in *. lia. }
  cbn [with_counts with_processes with_kern g_processes g_next_pid g_next_tid g_process_count g_thread_count g_tasks g_current_task kern].
  rewrite E1.
  match goal with |- context [if ?b then _ else inherit ?x parent] =>
    destruct (if b then (0, 0, copy_text (txt "/root") 32) else inherit x parent) as [[u g] h] end.
  match goal with |- context [if ?b then ?x else ks_clone_space ?k0] =>
    destruct (if b then x else ks_clone_space k0) as [sp k] end.
  case_bool.
  - pose proof (with_kern_ok _ k (unused_process_ok s i p cleared_process (g_next_pid s + 1) Hok Hi Hp eq_refl ltac:(lia))) as Hn.
    unfold with_kern, clear_process, with_processes in *. cbn in *. rewrite list_insert_insert_eq.
    split_and!; [exact Hn|done|done|done|lia|lia|by left].
  - match goal with |- context [mk_process true ?a ?b u g h ?c 0 sp] => set (q := mk_process true a b u g h c 0 sp) end.
    pose proof (with_kern_ok _ k (new_process_ok s i p q Hok Hi Hp eq_refl eq_refl eq_refl)) as Hn.
    unfold with_kern, with_counts, with_processes in *. cbn in *. rewrite E2, list_insert_insert_eq.
    split_and!; [exact Hn|done|done|done|lia|lia|right].
    split; [done|]. exists i. split; [|split; [done|by rewrite list_lookup_total_insert_eq]].
    apply (find_process_Some _ _ _ Hn). exists q. split_and!; [|done|done].
    by apply list_lookup_insert_eq.
Qed.

Lemma drop_process_ok s j p :
  sched_ok s → g_processes s !! j = Some p → p_used p = true → live_threads p = 0 →
  sched_ok (drop_process s j).
Proof.
  intros Hok Hj Hu H0. pose proof (so_live_threads s Hok j p Hj Hu) as Hlt.
  pose proof (so_process_count s Hok) as Hpc.
  assert (0 < countb p_used (g_processes s))%nat as Hpos.
  { apply countb_pos. exists p. split; [|done]. by eapply list_elem_of_lookup_2. }
  assert (∀ i r, <[j:=cleared_process]> (g_processes s) !! i = Some r → p_used r = true →
    i ≠ j ∧ g_processes s !! i = Some r) as Hlk.
  { intros i r [(-> & <- & _)|[? Hi]]%list_lookup_insert_Some Hr; done. }
  unfold drop_process, clear_process. cbn [with_processes g_process_count].
  rewrite (proj2 (Z.ltb_lt 0 _)) by lia.
  destruct Hok. split; sched_simpl; try done.
  - by rewrite length_insert.
  - intros i r Hi Hr. destruct (Hlk i r Hi Hr). eauto.
  - intros i i' r r' Hi Hi' Hr Hr' E. destruct (Hlk i r Hi Hr), (Hlk i' r' Hi' Hr'). eauto.
  - rewrite (countb_insert _ _ _ p) by done. rewrite Hu. cbn. lia.
  - intros i r Hi Hr. destruct (Hlk i r Hi Hr). eauto.
  - intros i t Hi Ht. destruct (so_owner0 i t Hi Ht) as (i' & r & Hi' & Hr & E). exists i', r.
    split; [|done]. rewrite list_lookup_insert_ne; [done|]. intros <-. simplify_eq.
    assert (0 < countb (owned (p_pid p)) (g_tasks s))%nat; [|lia].
    apply countb_pos. exists t. split; [by eapply list_elem_of_lookup_2|]. unfold owned.
    by rewrite Ht, <- ?E, Z.eqb_refl.
Qed.

(** ** Tasks *)

Definition current_live s : Prop := live (zget (g_tasks s) (g_current_task s)) = true.

Lemma clear_slot_ok s i t :
  sched_ok s → g_tasks s !! i = Some t → live t = false → i ≠ Z.to_nat (g_current_task s) →
  sched_ok (clear_task s i).
Proof.
  intros Hok Hi Hl Hc.
  assert (∀ j u, <[i:=cleared_task]> (g_tasks s) !! j = Some u →
    j = i ∧ u = cleared_task ∨ j ≠ i ∧ g_tasks s !! j = Some u) as Hlk.
  { intros j u [(-> & <- & _)|[? Hj]]%list_lookup_insert_Some; [by left|by right]. }
  assert (∀ q, q t = q cleared_task → countb q (<[i:=cleared_task]> (g_tasks s)) = countb q (g_tasks s)) as Hcnt.
  { intros q Hq. apply Nat2Z.inj. rewrite (countb_insert q _ _ t) by done. rewrite Hq. lia. }
  destruct Hok. split; sched_simpl; try done.
  - by rewrite length_insert.
  - unfold zget. by rewrite list_lookup_total_insert_ne.
  - intros j u Hj Hs. destruct (Hlk j u Hj) as [[_ ->]|[_ Hj']]; [done|eauto].
  - intros j u Hj Hs. destruct (Hlk j u Hj) as [[_ ->]|[_ Hj']]; [done|eauto].
  - intros j j' u u' Hj Hj' Hs E. destruct (Hlk j u Hj) as [[_ ->]|[_ Hj1]]; [done|].
    destruct (Hlk j' u' Hj') as [[_ ->]|[_ Hj2]]; [|eauto].
    specialize (so_tid0 j u Hj1 Hs). rewrite E in so_tid0. cbn in so_tid0. lia.
  - by rewrite Hcnt.
  - intros j p Hj Hp. rewrite Hcnt; [eauto|]. unfold owned. by rewrite Hl.
  - intros j u Hj Hlu. destruct (Hlk j u Hj) as [[_ ->]|[_ Hj']]; [done|eauto].
Qed.

Lemma new_thread_ok s i t t' j p :
  sched_ok s → g_tasks s !! i = Some t → live t = false → live t' = true → tid t' = g_next_tid s →
  g_processes s !! j = Some p → p_used p = true → t_pid t' = p_pid p →
  sched_ok (mk_sched (<[i := t']> (g_tasks s))
              (<[j := set_live_threads p (live_threads p + 1)]> (g_processes s)) (g_current_task s)
              (g_next_pid s) (g_next_tid s + 1) (g_process_count s) (g_thread_count s + 1) (kern s)).
Proof.
  intros Hok Hi Hl Hl' Htid Hj Hu Hpid.
  assert (state t' ≠ kUnused) as Hst by (intros E; unfold live in Hl'; by rewrite E in Hl').
  assert (∀ k u, <[i:=t']> (g_tasks s) !! k = Some u → k = i ∧ u = t' ∨ k ≠ i ∧ g_tasks s !! k = Some u) as Hlk.
  { intros k u [(-> & -> & _)|[? Hk]]%list_lookup_insert_Some; [by left|by right]. }
  assert (∀ k r, <[j:=set_live_threads p (live_threads p + 1)]> (g_processes s) !! k = Some r → p_used r = true →
    ∃ r0, g_processes s !! k = Some r0 ∧ p_used r0 = true ∧ p_pid r0 = p_pid r ∧
      live_threads r = live_threads r0 + Z.b2z (p_pid p =? p_pid r)) as Hplk.
  { intros k r [(-> & <- & _)|[? Hk]]%list_lookup_insert_Some Hr.
    - exists p. cbn. rewrite Z.eqb_refl. cbn. naive_solver lia.
    - exists r. split_and!; [done|done|done|]. rewrite (proj2 (Z.eqb_neq _ _)); [cbn; lia|].
      intros E. pose proof (so_pid_inj s Hok j k p r). naive_solver. }
  assert (Hok' := Hok). destruct Hok. split; sched_simpl; try done.
  - by rewrite length_insert.
  - by rewrite length_insert.
  - unfold zget. destruct (decide (i = Z.to_nat (g_current_task s))) as [->|];
      [rewrite list_lookup_total_insert_eq by (eapply lookup_lt_Some; eauto)|rewrite list_lookup_total_insert_ne]; done.
  - lia.
  - intros k r Hk Hr. destruct (Hplk k r Hk Hr) as (r0 & ? & ? & <- & _). eauto.
  - intros k k' r r' Hk Hk' Hr Hr' E. destruct (Hplk k r Hk Hr) as (r0 & ? & ? & E1 & _).
    destruct (Hplk k' r' Hk' Hr') as (r0' & ? & ? & E1' & _). rewrite <- E1, <- E1' in E. eauto.
  - intros k u Hk Hs. destruct (Hlk k u Hk) as [[-> ->]|[_ Hk']]; [lia|]. specialize (so_tid0 k u Hk' Hs). lia.
  - intros k u Hk Hs. destruct (Hlk k u Hk) as [[-> ->]|[_ Hk']]; [done|eauto].
  - assert (∀ k u, g_tasks s !! k = Some u → tid u < g_next_tid s) as Hlt.
    { intros k u Hk. destruct (decide (state u = kUnused)) as [E|]; [rewrite (so_tid_unused0 k u Hk E); lia|].
      by apply (so_tid0 k u). }
    intros k k' u u' Hk Hk' Hs E.
    destruct (Hlk k u Hk) as [[-> ->]|[_ Hk1]], (Hlk k' u' Hk') as [[-> ->]|[_ Hk2]]; [done| | |eauto].
    + specialize (Hlt k' u' Hk2). lia.
    + specialize (Hlt k u Hk1). lia.
  - rewrite (countb_insert _ _ _ p) by done. cbn [set_live_threads p_used]. lia.
  - rewrite (countb_insert _ _ _ t) by done. rewrite Hl, Hl'. cbn. lia.
  - intros k r Hk Hr. destruct (Hplk k r Hk Hr) as (r0 & Hr0 & Hur0 & Er & ->).
    rewrite (countb_insert _ _ _ t) by done. rewrite (so_live_threads0 k r0 Hr0 Hur0), Er.
    assert (owned (p_pid r) t = false ∧ owned (p_pid r) t' = (p_pid p =? p_pid r)) as [-> ->]
      by (unfold owned; by rewrite Hl, Hl', Hpid).
    cbn [Z.b2z]. lia.
  - intros k u Hk Hlu.
    assert (∃ k' r0, g_processes s !! k' = Some r0 ∧ p_used r0 = true ∧ p_pid r0 = t_pid u) as (k' & r0 & Hk' & Hr0 & E0).
    { destruct (Hlk k u Hk) as [[-> ->]|[_ Hk']]; [by exists j, p|eauto]. }
    destruct (decide (k' = j)) as [->|].
    + eexists j, _. rewrite list_lookup_insert_eq by (eapply lookup_lt_Some; eauto). naive_solver.
    + exists k', r0. by rewrite list_lookup_insert_ne.
Qed.

Lemma alloc_task_slot_Some s i :
  alloc_task_slot s = Some i → ∃ t, g_tasks s !! i = Some t ∧ live t = false.
Proof.
  intros [(t & Ht & E) _]%find_slot_Some. exists t. split; [done|]. unfold live. by destruct (state t).
Qed.

Lemma live_not_current s i t :
  sched_ok s → current_live s → g_tasks s !! i = Some t → live t = false → i ≠ Z.to_nat (g_current_task s).
Proof.
  intros Hok Hc Hi Hl ->. rewrite (current_task_lookup s Hok) in Hi. unfold current_live in Hc. congruence.
Qed.

Lemma thread_count_small s : sched_ok s → 0 <= g_thread_count s <= 16.
Proof.
  intros Hok. rewrite (so_thread_count s Hok). pose proof (countb_le live (g_tasks s)).
  rewrite (so_tasks s Hok) in *. lia.
Qed.

Lemma live_threads_small s j p :
  sched_ok s → g_processes s !! j = Some p → p_used p = true → 0 <= live_threads p <= 16.
Proof.
  intros Hok Hj Hu. rewrite (so_live_threads s Hok j p Hj Hu).
  pose proof (countb_le (owned (p_pid p)) (g_tasks s)). rewrite (so_tasks s Hok) in *. lia.
Qed.

(** A slot is taken, then the thread is counted: the end of both creators. *)
Lemma add_thread_ok s i t t' pid j :
  sched_ok s → g_next_tid s < 2147483647 → g_tasks s !! i = Some t → live t = false → live t' = true →
  tid t' = g_next_tid s → t_pid t' = pid → find_process s pid = Some j →
  ∀ k, sched_ok (add_thread (mk_sched (<[i := t']> (g_tasks s)) (g_processes s) (g_current_task s)
                   (g_next_pid s) (g_next_tid s +u 1) (g_process_count s) (g_thread_count s) k) j).
Proof.
  intros Hok Hr Hi Hl Hl' Htid Hpid (p & Hj & Hu & Hp)%find_process_Some k; [|done].
  pose proof (proj2 (so_next s Hok)).
  pose proof (live_threads_small s j p Hok Hj Hu). pose proof (thread_count_small s Hok).
  unfold add_thread. sched_simpl. rewrite (list_lookup_total_correct _ _ _ Hj), !u32_small by lia.
  apply (with_kern_ok (mk_sched _ _ _ _ _ _ _ (kern s)) k).
  apply (new_thread_ok s i t t' j p Hok Hi Hl Hl' Htid Hj Hu). by rewrite Hpid, Hp.
Qed.

(** Which counters an operation may move. *)
Definition counters_step s s' : Prop :=
  g_next_pid s <= g_next_pid s' <= g_next_pid s + 1 ∧
  g_next_tid s <= g_next_tid s' <= g_next_tid s + 1.

Lemma clear_twice s i k : clear_task (with_kern (clear_task s i) k) i = with_kern (clear_task s i) k.
Proof. unfold clear_task, with_tasks, with_kern. cbn. by rewrite list_insert_insert_eq. Qed.

Lemma create_task_effect s pid ent size :
  sched_ok s → g_next_tid s < 2147483647 → current_live s →
  let '(r, s') := create_task_for_process trampoline s pid ent size in
  sched_ok s' ∧ g_current_task s' = g_current_task s ∧ g_next_pid s' = g_next_pid s ∧
  g_next_tid s <= g_next_tid s' <= g_next_tid s + 1 ∧
  (r < 0 → g_processes s' = g_processes s).
Proof.
  intros Hok Hrt Hc. pose proof (proj2 (so_next s Hok)) as Hnt. unfold create_task_for_process.
  destruct (ent =? 0); [by split_and!; try lia|].
  destruct (find_process s pid) as [j|] eqn:Hj; [|by split_and!; try lia].
  destruct (alloc_task_slot s) as [i|] eqn:Hs; [|by split_and!; try lia].
  destruct (alloc_task_slot_Some s i Hs) as (t & Hi & Hl).
  assert (sched_ok (clear_task s i)) as Hclr by (eapply clear_slot_ok; eauto using live_not_current).
  destruct (ks_alloc _ _ 16) as [sm k]. destruct (sm =? 0).
  - rewrite clear_twice. split_and!; [by apply with_kern_ok|done|done|sched_simpl; lia..|done].
  - destruct (setup_initial_task_stack _ _ _ _) as [m sp]. sched_simpl. rewrite list_insert_insert_eq, u32_small by lia.
    split_and!; [|done|done|cbn; lia..|].
    + pose proof (add_thread_ok s i t (mk_task kRunnable (g_next_tid s) pid sp ent kNoWakeTick 0 0 0 0 false)
        pid j Hok Hrt Hi Hl eq_refl eq_refl eq_refl Hj (ks_set_mem k m)) as Hn.
      rewrite u32_small in Hn by lia. exact Hn.
    + rewrite i32_small by lia. lia.
Qed.

Lemma create_kernel_task_ok s ent size :
  sched_ok s → id_room s → current_live s →
  let s' := (create_kernel_task trampoline s ent size).2 in sched_ok s' ∧ counters_step s s'.
Proof.
  intros Hok [? Hr] Hc. unfold create_kernel_task. pose proof (create_task_effect s 1 ent size Hok Hr Hc) as He.
  destruct (create_task_for_process _ _ _ _ _) as [r s']. cbn. unfold counters_step. naive_solver lia.
Qed.

Lemma drop_process_counters s j :
  g_next_pid (drop_process s j) = g_next_pid s ∧ g_next_tid (drop_process s j) = g_next_tid s ∧
  g_current_task (drop_process s j) = g_current_task s.
Proof. unfold drop_process, clear_process. sched_simpl. by destruct (0 <? _). Qed.

Lemma create_process_task_ok s name ent size :
  sched_ok s → id_room s → current_live s →
  let s' := (create_process_task trampoline s name ent size).2 in sched_ok s' ∧ counters_step s s'.
Proof.
  intros Hok Hr Hc. unfold create_process_task, counters_step.
  pose proof (create_process_effect s name (current_process_id s) Hok Hr) as He.
  destruct (create_process s name (current_process_id s)) as [pid s1].
  destruct He as (Hok1 & Ht & Hcur & Hnt & Hnp & Hpid). destruct Hr as [Hrp Hrt].
  destruct (pid =? 0) eqn:E0; [cbn; naive_solver lia|]. zbool.
  destruct Hpid as [->|(Hpid & j & Hj & _ & Hl)]; [done|].
  assert (current_live s1) as Hc1 by (unfold current_live; by rewrite Ht, Hcur).
  pose proof (create_task_effect s1 pid ent size Hok1 ltac:(lia) Hc1) as He.
  destruct (create_task_for_process trampoline s1 pid ent size) as [r s2].
  destruct He as (Hok2 & _ & Hnp2 & Hnt2 & Hneg).
  destruct (r <? 0) eqn:Er; zbool; [|cbn; naive_solver lia].
  assert (find_process s2 pid = Some j) as Hj2 by (unfold find_process; rewrite Hneg by lia; exact Hj).
  rewrite Hj2. destruct (drop_process_counters s2 j) as (Ed1 & Ed2 & _).
  cbn [snd]. rewrite Ed1, Ed2. split; [|lia].
  apply (find_process_Some _ _ _ Hok2) in Hj2 as (p & Hp & Hu & _).
  apply (drop_process_ok s2 j p); [done|done|done|].
  rewrite Hneg in Hp by lia. by rewrite (list_lookup_total_correct _ _ _ Hp) in Hl.
Qed.

Lemma create_ring3_task_ok s name ent esp :
  sched_ok s → id_room s → current_live s →
  let s' := (create_ring3_task s name ent esp).2 in sched_ok s' ∧ counters_step s s'.
Proof.
  intros Hok Hr Hc. unfold create_ring3_task, counters_step.
  pose proof (create_process_effect s name (current_process_id s) Hok Hr) as He.
  destruct (create_process s name (current_process_id s)) as [pid s1].
  destruct He as (Hok1 & Ht & Hcur & Hnt & Hnp & Hpid). destruct Hr as [Hrp Hrt].
  destruct (pid =? 0) eqn:E0; [cbn; naive_solver lia|]. zbool.
  destruct Hpid as [->|(Hpid & j & Hj & _ & Hl)]; [done|]. rewrite Hj.
  assert (current_live s1) as Hc1 by (unfold current_live; by rewrite Ht, Hcur).
  pose proof Hj as (p & Hp & Hu & _)%(find_process_Some _ _ _ Hok1).
  rewrite (list_lookup_total_correct _ _ _ Hp) in Hl.
  destruct (alloc_task_slot s1) as [i|] eqn:Hs.
  2:{ destruct (drop_process_counters s1 j) as (Ed1 & Ed2 & _). cbn [snd]. rewrite Ed1, Ed2.
      split; [by apply (drop_process_ok s1 j p)|lia]. }
  destruct (alloc_task_slot_Some s1 i Hs) as (t & Hi & Hlv).
  assert (sched_ok (clear_task s1 i)) as Hclr by (eapply clear_slot_ok; eauto using live_not_current).
  destruct (ks_alloc _ _ 16) as [sm k]. destruct (sm =? 0).
  - rewrite clear_twice. set (s2 := with_kern (clear_task s1 i) k).
    assert (sched_ok s2) as Hok2 by (by apply with_kern_ok).
    destruct (drop_process_counters s2 j) as (Ed1 & Ed2 & _). cbn [snd]. rewrite Ed1, Ed2.
    split; [by apply (drop_process_ok s2 j p)|subst s2; sched_simpl; lia].
  - cbn [snd]. split.
    + pose proof (add_thread_ok s1 i t (mk_task kRunnable (g_next_tid s1) pid (sm +u 4096) 0 kNoWakeTick 3 ent esp
        (sm +u 4096) false) pid j Hok1 ltac:(lia) Hi Hlv eq_refl eq_refl eq_refl Hj k) as Hn.
      sched_simpl. rewrite list_insert_insert_eq. exact Hn.
    + cbn. pose proof (so_next s1 Hok1). rewrite u32_small by lia. lia.
Qed.

(** ** Exit *)

Lemma gone_thread_ok s i t t' j p :
  sched_ok s → g_tasks s !! i = Some t → live t = true → state t' = kExited → tid t' = tid t →
  g_processes s !! j = Some p → p_used p = true → p_pid p = t_pid t →
  sched_ok (mk_sched (<[i := t']> (g_tasks s))
              (<[j := set_live_threads p (live_threads p - 1)]> (g_processes s)) (g_current_task s)
              (g_next_pid s) (g_next_tid s) (g_process_count s) (g_thread_count s - 1) (kern s)).
Proof.
  intros Hok Hi Hl Hst Htid Hj Hu Hpid.
  assert (live t' = false) as Hl' by (unfold live; by rewrite Hst).
  assert (state t ≠ kUnused) as Hst0 by (intros E; unfold live in Hl; by rewrite E in Hl).
  assert (∀ k u, <[i:=t']> (g_tasks s) !! k = Some u →
    ∃ v, g_tasks s !! k = Some v ∧ tid u = tid v ∧ (state u = kUnused ↔ state v = kUnused) ∧ (u = v ∨ u = t')) as Hlk.
  { intros k u [(-> & -> & _)|[? Hk]]%list_lookup_insert_Some; [exists t|exists u]; [|naive_solver].
    rewrite Hst. naive_solver. }
  assert (∀ k r, <[j:=set_live_threads p (live_threads p - 1)]> (g_processes s) !! k = Some r → p_used r = true →
    ∃ r0, g_processes s !! k = Some r0 ∧ p_used r0 = true ∧ p_pid r0 = p_pid r ∧
      live_threads r = live_threads r0 - Z.b2z (p_pid p =? p_pid r)) as Hplk.
  { intros k r [(-> & <- & _)|[? Hk]]%list_lookup_insert_Some Hr.
    - exists p. cbn. rewrite Z.eqb_refl. cbn. naive_solver lia.
    - exists r. split_and!; [done|done|done|]. rewrite (proj2 (Z.eqb_neq _ _)); [cbn; lia|].
      intros E. pose proof (so_pid_inj s Hok j k p r). naive_solver. }
  destruct Hok. split; sched_simpl; try done.
  - by rewrite length_insert.
  - by rewrite length_insert.
  - unfold zget. destruct (decide (i = Z.to_nat (g_current_task s))) as [->|];
      [rewrite list_lookup_total_insert_eq by (eapply lookup_lt_Some; eauto)|rewrite list_lookup_total_insert_ne];
      [by rewrite Hst|done|done].
  - intros k r Hk Hr. destruct (Hplk k r Hk Hr) as (r0 & ? & ? & <- & _). eauto.
  - intros k k' r r' Hk Hk' Hr Hr' E. destruct (Hplk k r Hk Hr) as (r0 & ? & ? & E1 & _).
    destruct (Hplk k' r' Hk' Hr') as (r0' & ? & ? & E1' & _). rewrite <- E1, <- E1' in E. eauto.
  - intros k u Hk Hs. destruct (Hlk k u Hk) as (v & Hv & -> & E & _). rewrite E in Hs. eauto.
  - intros k u Hk Hs. destruct (Hlk k u Hk) as (v & Hv & -> & E & _). rewrite E in Hs. eauto.
  - intros k k' u u' Hk Hk' Hs E. destruct (Hlk k u Hk) as (v & Hv & E1 & E2 & _).
    destruct (Hlk k' u' Hk') as (v' & Hv' & E1' & _). rewrite E2 in Hs. rewrite E1, E1' in E. eauto.
  - rewrite (countb_insert _ _ _ p) by done. cbn [set_live_threads p_used]. lia.
  - rewrite (countb_insert _ _ _ t) by done. rewrite Hl, Hl'. cbn. lia.
  - intros k r Hk Hr. destruct (Hplk k r Hk Hr) as (r0 & Hr0 & Hur0 & Er & ->).
    rewrite (countb_insert _ _ _ t) by done. rewrite (so_live_threads0 k r0 Hr0 Hur0), Er.
    assert (owned (p_pid r) t' = false ∧ owned (p_pid r) t = (p_pid p =? p_pid r)) as [-> ->]
      by (unfold owned; by rewrite Hl, Hl', Hpid).
    cbn [Z.b2z]. lia.
  - intros k u Hk Hlu. destruct (Hlk k u Hk) as (v & Hv & _ & _ & [->| ->]); [|congruence].
    destruct (so_owner0 k v Hv Hlu) as (k' & r0 & Hk' & Hr0 & E0).
    destruct (decide (k' = j)) as [->|].
    + eexists j, _. rewrite list_lookup_insert_eq by (eapply lookup_lt_Some; eauto). naive_solver.
    + exists k', r0. by rewrite list_lookup_insert_ne.
Qed.

(** The effect of an exit, in closed form. *)
Lemma mark_exited_eq s :
  sched_ok s → current_live s →
  let t := zget (g_tasks s) (g_current_task s) in
  ∃ j p, g_processes s !! j = Some p ∧ p_used p = true ∧ p_pid p = t_pid t ∧
    mark_current_exited s =
      mk_sched (<[Z.to_nat (g_current_task s) := set_run t kExited kNoWakeTick]> (g_tasks s))
        (<[j := set_live_threads p (live_threads p - 1)]> (g_processes s)) (g_current_task s)
        (g_next_pid s) (g_next_tid s) (g_process_count s) (g_thread_count s - 1) (kern s).
Proof.
  intros Hok Hl t. pose proof (current_task_lookup s Hok) as Ht. fold t in Ht.
  destruct (so_owner s Hok _ t Ht Hl) as (j & p & Hj & Hu & Hp). exists j, p. split_and!; [done..|].
  assert (find_process s (t_pid t) = Some j) as Hf by (apply find_process_Some; eauto).
  assert (0 < countb live (g_tasks s))%nat as Hpos.
  { apply countb_pos. exists t. split; [by eapply list_elem_of_lookup_2|done]. }
  assert (0 < countb (owned (p_pid p)) (g_tasks s))%nat as Hpos'.
  { apply countb_pos. exists t. split; [by eapply list_elem_of_lookup_2|]. unfold owned.
    unfold current_live in Hl. fold t in Hl. by rewrite Hl, Hp, Z.eqb_refl. }
  unfold mark_current_exited. rewrite current_task_ptr_ok by done.
  rewrite (list_lookup_total_correct _ _ _ Ht), Hf, (list_lookup_total_correct _ _ _ Hj).
  rewrite (proj2 (Z.ltb_lt 0 (live_threads p))) by (rewrite (so_live_threads s Hok j p Hj Hu); lia).
  cbn [with_processes g_thread_count].
  rewrite (proj2 (Z.ltb_lt 0 (g_thread_count s))) by (rewrite (so_thread_count s Hok); lia).
  unfold current_live, live in Hl. fold t in Hl. by destruct (state t).
Qed.

Lemma exit_current_ok s : sched_ok s → sched_ok (exit_current s).
Proof.
  intros Hok. unfold exit_current.
  destruct (live (zget (g_tasks s) (g_current_task s))) eqn:Hl.
  - destruct (mark_exited_eq s Hok Hl) as (j & p & Hj & Hu & Hp & ->).
    eapply gone_thread_ok; eauto using current_task_lookup.
  - unfold mark_current_exited. rewrite current_task_ptr_ok by done.
    rewrite (list_lookup_total_correct _ _ _ (current_task_lookup s Hok)).
    unfold live in Hl. pose proof (so_started s Hok). by destruct (state _).
Qed.

(** ** Sleep *)

Lemma sleep_current_ok s ticks now : sched_ok s → current_live s → sched_ok (sleep_current s ticks now).
Proof.
  intros Hok Hl. unfold sleep_current. destruct (ticks =? 0); [done|].
  rewrite current_task_ptr_ok by done. pose proof (current_task_lookup s Hok) as Ht.
  rewrite (list_lookup_total_correct _ _ _ Ht). eapply update_task_ok; [done|exact Ht|].
  split_and!; try done. unfold current_live, live in *. cbn. by destruct (state _).
Qed.

(** ** The timer *)

Lemma dispatch_ok s prev esp : sched_ok s → sched_ok (dispatch s prev esp).2.
Proof.
  intros Hok. unfold dispatch.
  set (s1 := if negb _ then _ else s).
  assert (sched_ok s1 ∧ g_tasks s1 = g_tasks s ∧ g_current_task s1 = g_current_task s) as (Hok1 & Et & Ec).
  { subst s1. repeat case_match; try done. split_and!; try done. by apply with_kern_ok. }
  clearbody s1. destruct (saved_esp _ =? 0); [done|].
  set (s2 := if _ && _ then with_kern s1 _ else s1).
  assert (sched_ok s2 ∧ g_tasks s2 = g_tasks s) as (Hok2 & Et2).
  { subst s2. case_match; [|done]. split; [by apply with_kern_ok|done]. }
  clearbody s2. destruct (_ && _).
  - destruct (prepare_ring3_iret_frame _ _ _ _) as [m f]. cbn [snd]. apply with_kern_ok.
    apply (update_task_ok s2 _ (zget (g_tasks s) (g_current_task s))); [done| |by split_and!].
    rewrite Et2. by apply current_task_lookup.
  - cbn [snd]. case_match; [by apply with_kern_ok|done].
Qed.

Lemma timer_prepare_ok s esp tick :
  sched_ok s →
  sched_ok (wake_sleeping_tasks (with_tasks s (<[Z.to_nat (g_current_task s) :=
    set_saved_esp (g_tasks s !!! Z.to_nat (g_current_task s)) esp]> (g_tasks s))) tick).
Proof.
  intros Hok. apply wake_sleeping_ok. pose proof (current_task_lookup s Hok) as Ht.
  rewrite (list_lookup_total_correct _ _ _ Ht). eapply update_task_ok; [done|exact Ht|]. by split_and!.
Qed.

Lemma picked_started s :
  sched_ok s → state (zget (g_tasks s) (pick_next_runnable (g_tasks s) (g_current_task s))) ≠ kUnused.
Proof.
  intros Hok. destruct (pick_cases (g_tasks s) (g_current_task s) (so_cur s Hok)) as [(d & _ & -> & E & _)|[-> _]].
  - intros E'. by rewrite E' in E.
  - by apply so_started.
Qed.

Lemma on_timer_ok s esp tick : sched_ok s → sched_ok (on_timer_interrupt s esp tick).2.
Proof.
  intros Hok. unfold on_timer_interrupt. rewrite current_task_ptr_ok by done.
  pose proof (timer_prepare_ok s esp tick Hok) as Hok1. set (s1 := wake_sleeping_tasks _ _) in *.
  destruct (negb _); [done|]. apply dispatch_ok. apply with_current_ok; [done| |by apply picked_started].
  apply pick_range, so_cur, Hok1.
Qed.

Lemma dispatch_counters s prev esp :
  g_next_pid (dispatch s prev esp).2 = g_next_pid s ∧ g_next_tid (dispatch s prev esp).2 = g_next_tid s ∧
  g_current_task (dispatch s prev esp).2 = g_current_task s.
Proof.
  unfold dispatch. destruct (prepare_ring3_iret_frame _ _ _ _) as [m f].
  repeat (case_match; simplify_eq/=); done.
Qed.

Lemma on_timer_counters s esp tick : counters_step s (on_timer_interrupt s esp tick).2.
Proof.
  unfold on_timer_interrupt, counters_step. destruct (current_task_ptr s); [|cbn; lia].
  destruct (negb _); [cbn; lia|].
  match goal with |- context [dispatch ?x ?y ?z] => destruct (dispatch_counters x y z) as (-> & -> & _) end.
  cbn. lia.
Qed.

(** ** Runs of the scheduler *)

Inductive sched_op :=
  | OpKernelTask (ent stack_size : Z)
  | OpProcessTask (name : option text) (ent stack_size : Z)
  | OpRing3Task (name : option text) (ent esp : Z)
  | OpTimer (esp tick : Z)
  | OpExit
  | OpSleep (ticks now : Z).

Definition run_op s (o : sched_op) : scheduler K :=
  match o with
  | OpKernelTask e n => (create_kernel_task trampoline s e n).2
  | OpProcessTask nm e n => (create_process_task trampoline s nm e n).2
  | OpRing3Task nm e sp => (create_ring3_task s nm e sp).2
  | OpTimer esp tick => (on_timer_interrupt s esp tick).2
  | OpExit => exit_current s
  | OpSleep t now => sleep_current s t now
  end.

Definition is_timer (o : sched_op) : bool := match o with OpTimer _ _ => true | _ => false end.
Definition is_quantum (o : sched_op) : bool :=
  match o with OpTimer _ tick => tick mod kQuantumTicks =? 0 | _ => false end.

(** Code runs only in a task that has not exited ([sys_exit] and the
    trampoline never return); the timer may fire at any time. *)
Definition enabled s (o : sched_op) : Prop := is_timer o = true ∨ current_live s.

Fixpoint run_ops s (os : list sched_op) : scheduler K :=
  match os with [] => s | o :: os' => run_ops (run_op s o) os' end.

(** A condition on every state and the operation it is about to take. *)
Fixpoint along (P : scheduler K → sched_op → Prop) s (os : list sched_op) : Prop :=
  match os with [] => True | o :: os' => P s o ∧ along P (run_op s o) os' end.

Lemma along_impl (P Q : scheduler K → sched_op → Prop) s os :
  (∀ s o, P s o → Q s o) → along P s os → along Q s os.
Proof. intros Hi. revert s. induction os as [|o os IH]; intros s; [done|]. cbn. naive_solver. Qed.

Lemma run_op_ok s o :
  sched_ok s → id_room s → enabled s o → sched_ok (run_op s o) ∧ counters_step s (run_op s o).
Proof.
  intros Hok Hr He. destruct o as [e n|nm e n|nm e sp|esp tick| |t now]; cbn [run_op];
    try (destruct He as [?|Hl]; [done|]).
  - by apply create_kernel_task_ok.
  - by apply create_process_task_ok.
  - by apply create_ring3_task_ok.
  - split; [by apply on_timer_ok|apply on_timer_counters].
  - split; [by apply exit_current_ok|]. destruct (mark_exited_eq s Hok Hl) as (j & p & _ & _ & _ & E).
    unfold exit_current, counters_step. rewrite E. cbn. lia.
  - split; [by apply sleep_current_ok|]. unfold sleep_current, counters_step.
    destruct (t =? 0); [lia|]. destruct (current_task_ptr s); cbn; lia.
Qed.

(** Enough identifiers for the operations still to come. *)
Definition room_for s (n : nat) : Prop :=
  g_next_pid s + Z.of_nat n < 2147483648 ∧ g_next_tid s + Z.of_nat n < 2147483648.

Lemma room_step s o n :
  sched_ok s → enabled s o → room_for s (S n) →
  sched_ok (run_op s o) ∧ room_for (run_op s o) n.
Proof.
  intros Hok He [? ?]. destruct (run_op_ok s o Hok) as [Hok' [? ?]]; [split; lia|done|].
  split; [done|]. split; lia.
Qed.

Lemma run_ops_ok s os :
  sched_ok s → along enabled s os → room_for s (length os) → sched_ok (run_ops s os).
Proof.
  revert s. induction os as [|o os IH]; intros s Hok Ha Hr; [done|].
  destruct Ha as [He Ha]. destruct (room_step s o (length os) Hok He Hr) as [Hok' Hr']. by apply IH.
Qed.

Lemma init_eq k esp :
  init k esp =
  mk_sched (<[0%nat := mk_task kRunnable 1 1 esp 0 kNoWakeTick 0 0 0 0 false]> (replicate 16 cleared_task))
    (<[0%nat := mk_process true 1 0 0 0 (txt "/root") (txt "kernel") 1 (ks_kernel_space k)]> (replicate 8 cleared_process))
    0 2 2 1 1 k.
Proof. reflexivity. Qed.

Lemma sched_init_ok k esp : sched_ok (init k esp).
Proof.
  rewrite init_eq. set (t := mk_task _ _ _ _ _ _ _ _ _ _ _). set (p := mk_process _ _ _ _ _ _ _ _ _).
  assert (∀ i u, <[0%nat:=t]> (replicate 16 cleared_task) !! i = Some u → i = 0%nat ∧ u = t ∨ u = cleared_task) as Ht.
  { intros i u [(-> & <- & _)|[? [-> _]%lookup_replicate]]%list_lookup_insert_Some; [by left|by right]. }
  assert (∀ i r, <[0%nat:=p]> (replicate 8 cleared_process) !! i = Some r → p_used r = true → i = 0%nat ∧ r = p) as Hp.
  { intros i r [(-> & <- & _)|[? [-> _]%lookup_replicate]]%list_lookup_insert_Some ?; done. }
  split; sched_simpl; try done; try lia.
  - intros j r Hj Hr. destruct (Hp j r Hj Hr) as [_ ->]. cbn. lia.
  - intros i j r q Hi Hj Hr Hq _. destruct (Hp i r Hi Hr) as [-> _], (Hp j q Hj Hq) as [-> _]. done.
  - intros i u Hi Hu. destruct (Ht i u Hi) as [[_ ->]| ->]; [cbn; lia|done].
  - intros i u Hi Hu. destruct (Ht i u Hi) as [[_ ->]| ->]; done.
  - intros i j u v Hi Hj Hu E. destruct (Ht i u Hi) as [[-> ->]| ->]; [|done].
    destruct (Ht j v Hj) as [[-> ->]| ->]; [done|]. done.
  - intros j r Hj Hr. destruct (Hp j r Hj Hr) as [_ ->]. done.
  - intros i u Hi Hu. destruct (Ht i u Hi) as [[_ ->]| ->]; [|done]. by exists 0%nat, p.
Qed.

(** C11: scheduler invariant.  After any sequence of task creations, timer
    interrupts, exits and sleeps from [init] (fewer than 2^31 - 2, so that the
    identifier counters do not wrap), the tables are well formed: process and
    thread identifiers are unique, the process and thread counters and every
    process' [live_threads] equal the number of table entries they count, every
    live task belongs to a live process and the current slot is occupied. *)
Theorem scheduler_invariant k esp os :
  along enabled (init k esp) os → Z.of_nat (length os) < 2147483646 → sched_ok (run_ops (init k esp) os).
Proof.
  intros Ha Hn. apply run_ops_ok; [apply sched_init_ok|done|]. rewrite init_eq. split; cbn [g_next_pid g_next_tid]; lia.
Qed.

(** ** What an operation does to the slot of another task *)

Lemma create_process_tasks s name par :
  g_tasks (create_process s name par).2 = g_tasks s ∧
  g_current_task (create_process s name par).2 = g_current_task s.
Proof.
  unfold create_process. destruct (find_slot _ _); [|done].
  match goal with |- context [if ?b then ?y else inherit ?x par] =>
    destruct (if b then y else inherit x par) as [[u g] h] end.
  match goal with |- context [if ?b then ?x else ks_clone_space ?k0] =>
    destruct (if b then x else ks_clone_space k0) as [sp k] end.
  by case_bool.
Qed.

Lemma alloc_slot_other s i c t :
  alloc_task_slot s = Some i → g_tasks s !! c = Some t → live t = true → i ≠ c.
Proof. intros (u & Hu & Hl)%alloc_task_slot_Some Hc Ht ->. congruence. Qed.

Lemma create_task_other s pid ent size c t :
  g_tasks s !! c = Some t → live t = true →
  let s' := (create_task_for_process trampoline s pid ent size).2 in
  g_tasks s' !! c = Some t ∧ g_current_task s' = g_current_task s.
Proof.
  intros Hc Hl. unfold create_task_for_process. destruct (ent =? 0); [done|].
  destruct (find_process s pid); [|done]. destruct (alloc_task_slot s) as [i|] eqn:Hs; [|done].
  pose proof (alloc_slot_other s i c t Hs Hc Hl). destruct (ks_alloc _ _ 16) as [sm k].
  destruct (sm =? 0); [|destruct (setup_initial_task_stack _ _ _ _) as [m sp]]; cbn;
    by rewrite !list_lookup_insert_ne.
Qed.

Lemma create_ring3_other s name ent esp c t :
  g_tasks s !! c = Some t → live t = true →
  let s' := (create_ring3_task s name ent esp).2 in
  g_tasks s' !! c = Some t ∧ g_current_task s' = g_current_task s.
Proof.
  intros Hc Hl. unfold create_ring3_task.
  destruct (create_process_tasks s name (current_process_id s)) as [Et Ec].
  destruct (create_process s name (current_process_id s)) as [pid s1]. cbn [snd] in Et, Ec.
  rewrite <- Et in Hc. rewrite <- Ec. clear Et Ec.
  assert (∀ s0 j, g_tasks (drop_process s0 j) = g_tasks s0) as Hd
    by (intros s0 j; unfold drop_process, clear_process; cbn; by destruct (0 <? _)).
  destruct (pid =? 0); [done|]. destruct (find_process s1 pid) as [j|]; [|done].
  destruct (alloc_task_slot s1) as [i|] eqn:Hs.
  2:{ cbn [snd]. by rewrite Hd, (proj2 (proj2 (drop_process_counters s1 j))). }
  pose proof (alloc_slot_other s1 i c t Hs Hc Hl). destruct (ks_alloc _ _ 16) as [sm k].
  destruct (sm =? 0).
  - cbn [snd]. rewrite Hd, (proj2 (proj2 (drop_process_counters _ j))). cbn. by rewrite !list_lookup_insert_ne.
  - cbn. by rewrite !list_lookup_insert_ne.
Qed.

Lemma create_process_task_other s name ent size c t :
  g_tasks s !! c = Some t → live t = true →
  let s' := (create_process_task trampoline s name ent size).2 in
  g_tasks s' !! c = Some t ∧ g_current_task s' = g_current_task s.
Proof.
  intros Hc Hl. unfold create_process_task.
  destruct (create_process_tasks s name (current_process_id s)) as [Et Ec].
  destruct (create_process s name (current_process_id s)) as [pid s1]. cbn [snd] in Et, Ec.
  rewrite <- Et in Hc. rewrite <- Ec. clear Et Ec. destruct (pid =? 0); [done|].
  pose proof (create_task_other s1 pid ent size c t Hc Hl) as [Hc2 Ec2].
  destruct (create_task_for_process trampoline s1 pid ent size) as [r s2]. cbn [snd] in Hc2, Ec2.
  rewrite <- Ec2. destruct (r <? 0); [|done]. destruct (find_process s2 pid) as [j|]; [|done].
  cbn [snd]. rewrite (proj2 (proj2 (drop_process_counters s2 j))). split; [|done].
  unfold drop_process, clear_process. cbn. by destruct (0 <? _).
Qed.

(** The tasks after the bookkeeping of a timer interrupt. *)
Definition prepared s (esp tick : Z) : list Task :=
  wake tick <$> <[Z.to_nat (g_current_task s) :=
    set_saved_esp (g_tasks s !!! Z.to_nat (g_current_task s)) esp]> (g_tasks s).

Lemma prepared_other s esp tick c t :
  g_tasks s !! c = Some t → c ≠ Z.to_nat (g_current_task s) →
  prepared s esp tick !! c = Some (wake tick t).
Proof. intros Hc Hne. unfold prepared. by rewrite list_lookup_fmap, list_lookup_insert_ne, Hc. Qed.

Lemma prepared_current s esp tick :
  sched_ok s → prepared s esp tick !! Z.to_nat (g_current_task s) =
    Some (wake tick (set_saved_esp (zget (g_tasks s) (g_current_task s)) esp)).
Proof.
  intros Hok. pose proof (current_task_lookup s Hok) as Ht. unfold prepared.
  rewrite list_lookup_fmap, list_lookup_insert_eq by (by eapply lookup_lt_Some).
  by rewrite (list_lookup_total_correct _ _ _ Ht).
Qed.

Lemma on_timer_unfold s esp tick :
  sched_ok s →
  on_timer_interrupt s esp tick =
  let s1 := with_tasks s (prepared s esp tick) in
  if negb (tick mod kQuantumTicks =? 0) then (esp, s1)
  else dispatch (with_current s1 (pick_next_runnable (prepared s esp tick) (g_current_task s))) (g_current_task s) esp.
Proof. intros Hok. unfold on_timer_interrupt. by rewrite current_task_ptr_ok. Qed.

Lemma dispatch_tasks s prev esp c :
  c ≠ Z.to_nat (g_current_task s) → g_tasks (dispatch s prev esp).2 !! c = g_tasks s !! c.
Proof.
  intros Hc. unfold dispatch. destruct (prepare_ring3_iret_frame _ _ _ _) as [m f].
  repeat (case_match; simplify_eq/=); rewrite ?list_lookup_insert_ne by done; done.
Qed.

(** The slot of a live task that is not the current one. *)
Lemma other_slot s o c t :
  sched_ok s → enabled s o → g_tasks s !! c = Some t → live t = true →
  c ≠ Z.to_nat (g_current_task s) → c ≠ Z.to_nat (g_current_task (run_op s o)) →
  g_tasks (run_op s o) !! c = Some (match o with OpTimer _ tick => wake tick t | _ => t end).
Proof.
  intros Hok He Hc Hl Hne. destruct o as [e n|nm e n|nm e sp|esp tick| |tk now]; cbn [run_op];
    try (destruct He as [?|Hcl]; [done|]).
  - intros _. by apply create_task_other.
  - intros _. by apply create_process_task_other.
  - intros _. by apply create_ring3_other.
  - rewrite on_timer_unfold by done. cbn zeta. destruct (negb _).
    + intros _. by apply prepared_other.
    + match goal with |- context [dispatch ?x ?y ?z] => destruct (dispatch_counters x y z) as (_ & _ & E) end.
      rewrite E. intros Hne'. rewrite dispatch_tasks by done. by apply prepared_other.
  - intros _. unfold exit_current. destruct (mark_exited_eq s Hok Hcl) as (j & p & _ & _ & _ & ->). cbn.
    by rewrite list_lookup_insert_ne.
  - intros _. unfold sleep_current. destruct (tk =? 0); [done|]. rewrite current_task_ptr_ok by done.
    cbn. by rewrite list_lookup_insert_ne.
Qed.

Lemma current_after_quantum s esp tick :
  sched_ok s →
  g_current_task (run_op s (OpTimer esp tick)) =
    if tick mod kQuantumTicks =? 0 then pick_next_runnable (prepared s esp tick) (g_current_task s)
    else g_current_task s.
Proof.
  intros Hok. cbn [run_op]. rewrite on_timer_unfold by done. cbn zeta.
  destruct (tick mod _ =? 0); cbn [negb]; [|done]. by rewrite (proj2 (proj2 (dispatch_counters _ _ _))).
Qed.

Lemma current_unchanged s o :
  sched_ok s → enabled s o → is_timer o = false → g_current_task (run_op s o) = g_current_task s.
Proof.
  intros Hok [?|Hl] Ho; [congruence|]. pose proof (current_task_lookup s Hok) as Hc.
  destruct o as [e n|nm e n|nm e sp|esp tick| |tk now]; cbn [run_op]; [| | |done| |].
  - exact (proj2 (create_task_other s 1 e n _ _ Hc Hl)).
  - exact (proj2 (create_process_task_other s nm e n _ _ Hc Hl)).
  - exact (proj2 (create_ring3_other s nm e sp _ _ Hc Hl)).
  - destruct (mark_exited_eq s Hok Hl) as (j & p & _ & _ & _ & E). unfold exit_current. by rewrite E.
  - unfold sleep_current. destruct (tk =? 0); [done|]. by destruct (current_task_ptr s).
Qed.

(** ** Fairness *)

Definition runnable_at s (i : Z) : Prop := is_runnable (state (zget (g_tasks s) i)) = true.

(** Slots strictly between the current one and [i], going round. *)
Definition ahead s (i : Z) : Z := (i - g_current_task s - 1) mod 16.

Lemma ahead_range s i : 0 <= ahead s i < 16.
Proof. apply Z.mod_pos_bound. lia. Qed.

Lemma ahead_step c i d :
  0 <= c < 16 → 0 <= i < 16 → 1 <= d <= (i - c - 1) mod 16 →
  (i - (c + d) mod 16 - 1) mod 16 = (i - c - 1) mod 16 - d.
Proof. intros. Z.div_mod_to_equations. lia. Qed.

Lemma ahead_hit c i : 0 <= i < 16 → (c + ((i - c - 1) mod 16 + 1)) mod 16 = i.
Proof. intros. Z.div_mod_to_equations. lia. Qed.

Lemma wake_runnable tick t :
  is_runnable (state t) = true → is_runnable (state (wake tick t)) = true.
Proof. unfold wake. destruct (state t) eqn:E; try done. intros _. cbn. by rewrite E. Qed.

Lemma runnable_prepared s esp tick i :
  sched_ok s → 0 <= i < 16 → runnable_at s i →
  is_runnable (state (zget (prepared s esp tick) i)) = true.
Proof.
  intros Hok Hi Hr. unfold runnable_at in Hr. unfold zget.
  assert (g_tasks s !! Z.to_nat i = Some (zget (g_tasks s) i)) as Hl
    by (apply zget_lookup; rewrite (so_tasks s Hok); lia).
  destruct (decide (Z.to_nat i = Z.to_nat (g_current_task s))) as [E|Hne].
  - rewrite E. rewrite (list_lookup_total_correct _ _ _ (prepared_current s esp tick Hok)).
    apply wake_runnable. cbn. unfold zget in *. by rewrite <- E.
  - rewrite (list_lookup_total_correct _ _ _ (prepared_other s esp tick _ _ Hl Hne)).
    by apply wake_runnable.
Qed.

(** A quantum brings a runnable task closer, or runs it. *)
Lemma quantum_progress s esp tick i :
  sched_ok s → 0 <= i < 16 → runnable_at s i → tick mod kQuantumTicks = 0 →
  let s' := run_op s (OpTimer esp tick) in
  g_current_task s' = i ∨ ahead s' i < ahead s i.
Proof.
  intros Hok Hi Hr Ht s'. pose proof (so_cur s Hok) as Hc.
  assert (g_current_task s' = pick_next_runnable (prepared s esp tick) (g_current_task s)) as E.
  { subst s'. rewrite current_after_quantum, Ht by done. done. }
  pose proof (runnable_prepared s esp tick i Hok Hi Hr) as Hp.
  destruct (pick_cases (prepared s esp tick) (g_current_task s) Hc) as [(d & Hd & Hpick & _ & Hmin)|[_ Hno]].
  2:{ by rewrite (Hno i Hi) in Hp. }
  pose proof (ahead_range s i) as Ha. rewrite Hpick in E.
  destruct (decide (d <= ahead s i)) as [Hle|Hgt].
  - right. unfold ahead in *. rewrite E, ahead_step by lia. lia.
  - left. rewrite E. destruct (decide (d = ahead s i + 1)) as [->|]; [by apply ahead_hit|].
    exfalso. specialize (Hmin (ahead s i + 1) ltac:(lia)). unfold ahead in Hmin. rewrite ahead_hit in Hmin by done.
    congruence.
Qed.

Lemma fair_run s os i :
  sched_ok s → along enabled s os → room_for s (length os) → 0 <= i < 16 →
  along (λ s _, runnable_at s i) s os → ahead s i < Z.of_nat (countb is_quantum os) →
  ∃ os1 os2, os = os1 ++ os2 ∧ os1 ≠ [] ∧ g_current_task (run_ops s os1) = i.
Proof.
  intros Hok Ha Hr Hi. revert s Hok Ha Hr. induction os as [|o os IH]; intros s Hok Ha Hr Hrun Hq.
  { pose proof (ahead_range s i). cbn in Hq. lia. }
  destruct Ha as [He Ha], Hrun as [Hrun0 Hrun].
  destruct (room_step s o (length os) Hok He Hr) as [Hok' Hr'].
  assert (g_current_task (run_op s o) = i ∨ ahead (run_op s o) i < Z.of_nat (countb is_quantum os)) as [Hhit|Hlt].
  { rewrite countb_cons in Hq. destruct (is_quantum o) eqn:Eq; cbn [Z.b2z] in Hq.
    - destruct o as [| | |esp tick| |]; try done. cbn in Eq. zbool.
      destruct (quantum_progress s esp tick i Hok Hi Hrun0 Eq) as [?|?]; [by left|right; lia].
    - right. assert (g_current_task (run_op s o) = g_current_task s) as E.
      { destruct (is_timer o) eqn:Et; [|by apply current_unchanged]. destruct o; try done.
        rewrite current_after_quantum by done. cbn in Eq. by rewrite Eq. }
      unfold ahead. rewrite E. fold (ahead s i). lia. }
  - by exists [o], os.
  - destruct (IH (run_op s o) Hok' Ha Hr' Hrun Hlt) as (os1 & os2 & -> & _ & E).
    by exists (o :: os1), os2.
Qed.

(** C12: round robin is fair.  Whatever else the tasks do (create, exit, sleep,
    any timer ticks), a task that stays runnable is given the processor within
    sixteen scheduling quanta. *)
Theorem round_robin_fair s os i :
  sched_ok s → along enabled s os → room_for s (length os) → 0 <= i < 16 →
  along (λ s _, runnable_at s i) s os → (16 <= countb is_quantum os)%nat →
  ∃ os1 os2, os = os1 ++ os2 ∧ os1 ≠ [] ∧ g_current_task (run_ops s os1) = i.
Proof.
  intros Hok Ha Hr Hi Hrun Hq. apply fair_run; try done. pose proof (ahead_range s i). lia.
Qed.

(** ** Preempted tasks resume where they were *)

Lemma wake_fields tick t :
  saved_esp (wake tick t) = saved_esp t ∧ ring (wake tick t) = ring t ∧
  user_started (wake tick t) = user_started t ∧ live (wake tick t) = live t.
Proof. pose proof (wake_same tick t) as (_ & _ & -> & _). unfold wake. by destruct (_ && _). Qed.

Definition parked (c : nat) (e : Z) s : Prop :=
  ∃ t, g_tasks s !! c = Some t ∧ live t = true ∧ saved_esp t = e ∧ (ring t = 3 → user_started t = true).

Lemma parked_run c e s os :
  sched_ok s → along enabled s os → room_for s (length os) → parked c e s →
  along (λ s o, Z.to_nat (g_current_task s) ≠ c ∧ Z.to_nat (g_current_task (run_op s o)) ≠ c) s os →
  parked c e (run_ops s os).
Proof.
  revert s. induction os as [|o os IH]; intros s Hok Ha Hr Hp Hne; [done|].
  destruct Ha as [He Ha], Hne as [[Hn1 Hn2] Hne].
  destruct (room_step s o (length os) Hok He Hr) as [Hok' Hr']. apply IH; try done.
  destruct Hp as (t & Ht & Hl & Hs & Hu).
  pose proof (other_slot s o c t Hok He Ht Hl ltac:(done) ltac:(done)) as Hslot.
  destruct o; try (by exists t). destruct (wake_fields tick t) as (E1 & E2 & E3 & E4).
  exists (wake tick t). by rewrite E1, E2, E3, E4.
Qed.

(** A parked task is handed its saved stack pointer when it is dispatched. *)
Lemma dispatch_resumes s prev esp e :
  parked (Z.to_nat (g_current_task s)) e s → 0 <= g_current_task s → e ≠ 0 → (dispatch s prev esp).1 = e.
Proof.
  intros (t & Ht & _ & <- & Hu) Hc He. unfold dispatch, zget.
  rewrite (list_lookup_total_correct _ _ _ Ht), (proj2 (Z.eqb_neq _ 0) He).
  destruct (ring t =? 3) eqn:Er; zbool; [rewrite Hu by done|]; done.
Qed.

(** Context switches lose nothing.  When the timer preempts task [c] at
    stack pointer [e], and [c] runs again only after the final timer interrupt
    of the run, that interrupt returns [e]: the stub restores the very frame
    the preemption saved (new ring-3 tasks excepted, they have none yet). *)
Lemma preempted_task_resumes s e tick os esp2 tick2 :
  let c := g_current_task s in
  let s1 := run_op s (OpTimer e tick) in
  let s2 := run_ops s1 os in
  sched_ok s → room_for s (S (length os)) → current_live s → e ≠ 0 →
  (ring (zget (g_tasks s) c) = 3 → user_started (zget (g_tasks s) c) = true) →
  g_current_task s1 ≠ c →
  along enabled s1 os →
  along (λ s o, g_current_task (run_op s o) ≠ c) s1 os →
  g_current_task (run_op s2 (OpTimer esp2 tick2)) = c →
  (on_timer_interrupt s2 esp2 tick2).1 = e.
Proof.
  intros c s1 s2 Hok Hr Hl He Hring Hc1 Ha Hne Hback.
  pose proof (so_cur s Hok) as Hcr. fold c in Hcr.
  destruct (room_step s (OpTimer e tick) (length os) Hok ltac:(by left) Hr) as [Hok1 Hr1]. fold s1 in Hok1, Hr1.
  assert (∀ x : scheduler K, 0 <= g_current_task x < 16 → g_current_task x ≠ c → Z.to_nat (g_current_task x) ≠ Z.to_nat c) as Hnat by lia.
  assert (parked (Z.to_nat c) e s1) as Hp1.
  { pose proof (so_cur s1 Hok1) as Hcr1. unfold s1 in Hcr1, Hc1 |- *. cbn [run_op] in *. rewrite on_timer_unfold in * by done.
    cbn zeta in *. destruct (negb _); [done|].
    eexists. rewrite dispatch_tasks.
    2:{ rewrite (proj2 (proj2 (dispatch_counters _ _ _))) in Hc1, Hcr1. cbn in *. lia. }
    cbn [with_current with_tasks g_tasks]. split; [by apply prepared_current|].
    destruct (wake_fields tick (set_saved_esp (zget (g_tasks s) (g_current_task s)) e)) as (-> & -> & -> & ->). done. }
  assert (parked (Z.to_nat c) e s2 ∧ sched_ok s2 ∧ g_current_task s2 ≠ c) as (Hp2 & Hok2 & Hc2).
  { clearbody s1. subst s2. clear Hback Hl Hring Hok Hr. revert s1 Hc1 Ha Hne Hok1 Hr1 Hp1.
    induction os as [|o os IH]; intros s1 Hc1 Ha Hne Hok1 Hr1 Hp1; [done|].
    destruct Ha as [Hen Ha], Hne as [Hn Hne]. destruct (room_step s1 o (length os) Hok1 Hen Hr1) as [Hok' Hr'].
    cbn [run_ops]. apply IH; try done.
    apply (parked_run _ _ s1 [o]); [done|by split|unfold room_for in *; cbn [length] in *; lia|done|].
    split; [|done]. split; apply Hnat; try done; by apply so_cur. }
  cbn [run_op] in Hback. rewrite on_timer_unfold in Hback |- * by done. cbn zeta in *.
  destruct (negb _); [done|]. rewrite (proj2 (proj2 (dispatch_counters _ _ _))) in Hback.
  pose proof Hback as Hback'. cbn [with_current g_current_task] in Hback'. rewrite Hback'.
  apply dispatch_resumes; [|cbn; lia|done]. cbn [with_current with_tasks g_current_task].
  destruct Hp2 as (t & Ht & Hlv & Hs & Hu). exists (wake tick2 t).
  destruct (wake_fields tick2 t) as (-> & -> & -> & ->). split; [|done].
  apply prepared_other; [done|]. pose proof (so_cur s2 Hok2). lia.
Qed.

(** ** Sleeping *)

Definition asleep (c w : Z) s : Prop :=
  ∃ t, g_tasks s !! Z.to_nat c = Some t ∧ state t = kSleeping ∧ wake_tick t = w.

(** The scheduling state of any slot across a timer interrupt. *)
Lemma timer_slot s esp tick c t :
  sched_ok s → g_tasks s !! c = Some t →
  ∃ t', g_tasks (run_op s (OpTimer esp tick)) !! c = Some t' ∧
    state t' = state (wake tick t) ∧ wake_tick t' = wake_tick (wake tick t).
Proof.
  intros Hok Hc.
  assert (∃ t', prepared s esp tick !! c = Some t' ∧ state t' = state (wake tick t) ∧
    wake_tick t' = wake_tick (wake tick t)) as (t' & Ht' & E1 & E2).
  { destruct (decide (c = Z.to_nat (g_current_task s))) as [->|Hne].
    - eexists. split; [by apply prepared_current|]. rewrite (current_task_lookup s Hok) in Hc.
      injection Hc as <-. unfold wake. cbn. by destruct (_ && _).
    - eexists. split; [by apply prepared_other|done]. }
  cbn [run_op]. rewrite on_timer_unfold by done. cbn zeta. destruct (negb _); [by exists t'|].
  set (s1 := with_current _ _). destruct (decide (c = Z.to_nat (g_current_task s1))) as [->|Hne].
  - unfold dispatch. cbn [with_current with_tasks g_tasks].
    assert (zget (prepared s esp tick) (g_current_task s1) = t') as Hz by (unfold zget; by apply list_lookup_total_correct).
    destruct (prepare_ring3_iret_frame _ _ _ _) as [m f].
    repeat (case_match; simplify_eq/=); try (by eexists; split; [exact Ht'|]);
      (eexists; split; [apply list_lookup_insert_eq; by eapply lookup_lt_Some|by rewrite ?E1, ?E2]).
  - exists t'. rewrite dispatch_tasks by done. done.
Qed.

Lemma asleep_run c w s os :
  0 <= c < 16 → sched_ok s → along enabled s os → room_for s (length os) → asleep c w s →
  along (λ s o, match o with OpTimer _ tick => tick < w | _ => g_current_task s ≠ c end) s os →
  sched_ok (run_ops s os) ∧ asleep c w (run_ops s os).
Proof.
  intros Hc. revert s. induction os as [|o os IH]; intros s Hok Ha Hr Hs Hq; [done|].
  destruct Ha as [He Ha], Hq as [Hq0 Hq]. destruct (room_step s o (length os) Hok He Hr) as [Hok' Hr'].
  apply IH; try done. destruct Hs as (t & Ht & Hst & Hw).
  destruct (is_timer o) eqn:Eo.
  - destruct o as [| | |esp tick| |]; try done.
    destruct (timer_slot s esp tick _ t Hok Ht) as (t' & Ht' & E1 & E2). exists t'. split; [done|].
    rewrite E1, E2. unfold wake. rewrite Hst, (proj2 (Z.leb_gt _ _)) by lia. done.
  - exists t. split; [|done]. pose proof (so_cur s Hok).
    assert (g_current_task s ≠ c) by (by destruct o).
    assert (live t = true) as Hl by (unfold live; by rewrite Hst).
    pose proof (other_slot s o (Z.to_nat c) t Hok He Ht Hl) as Ho.
    rewrite current_unchanged in Ho by done. destruct o; try done; apply Ho; lia.
Qed.

(** A task that sleeps for [ticks] at time [now] (the sum not wrapping) is
    not scheduled before time [now + ticks], whatever the other tasks do, and
    the first timer interrupt at or after that time makes it runnable. *)
Lemma sleep_wakes_on_time s ticks now os :
  let c := g_current_task s in
  let s1 := sleep_current s ticks now in
  sched_ok s → current_live s → 0 <= now → 0 < ticks → now + ticks < 4294967296 →
  along enabled s1 os → room_for s (length os) →
  along (λ s o, match o with OpTimer _ tick => tick < now + ticks | _ => g_current_task s ≠ c end) s1 os →
  asleep c (now + ticks) (run_ops s1 os) ∧
  ∀ esp tick, now + ticks <= tick →
    runnable_at (run_op (run_ops s1 os) (OpTimer esp tick)) c.
Proof.
  intros c s1 Hok Hl Hn Ht Hw Ha Hr Hq. pose proof (so_cur s Hok) as Hc. fold c in Hc.
  pose proof (current_task_lookup s Hok) as Hlk.
  assert (s1 = with_tasks s (<[Z.to_nat c := set_run (zget (g_tasks s) c) kSleeping (now + ticks)]> (g_tasks s))) as E.
  { unfold s1, sleep_current. rewrite (proj2 (Z.eqb_neq ticks 0)), current_task_ptr_ok, u32_small by (done || lia).
    by rewrite (list_lookup_total_correct _ _ _ Hlk). }
  destruct (asleep_run c (now + ticks) s1 os) as [Hok2 Hs]; [done|by apply sleep_current_ok|done| | |done|].
  { rewrite E. exact Hr. }
  { rewrite E. eexists. split; [apply list_lookup_insert_eq; by eapply lookup_lt_Some|done]. }
  split; [done|]. intros esp tick Htick. destruct Hs as (t & Hlt & Hst & Hwt).
  destruct (timer_slot _ esp tick _ t Hok2 Hlt) as (t' & Ht' & E1 & _).
  unfold runnable_at, zget. rewrite (list_lookup_total_correct _ _ _ Ht'), E1. unfold wake.
  by rewrite Hst, Hwt, (proj2 (Z.leb_le _ _)) by lia.
Qed.

(** A wake time past the 32-bit range wraps and is reached at once. *)
Lemma sleep_wraps s ticks now esp tick :
  sched_ok s → current_live s → 0 <= now < 4294967296 → 0 < ticks < 4294967296 → 4294967296 <= now + ticks →
  now <= tick → runnable_at (run_op (sleep_current s ticks now) (OpTimer esp tick)) (g_current_task s).
Proof.
  intros Hok Hl Hn Ht Hw Htick. pose proof (sleep_current_ok s ticks now Hok Hl) as Hok1.
  pose proof (current_task_lookup s Hok) as Hlk.
  assert (now +u ticks <= now) as Hwrap by (unfold u32; Z.div_mod_to_equations; lia).
  unfold sleep_current in *. rewrite (proj2 (Z.eqb_neq ticks 0)), current_task_ptr_ok in * by (done || lia).
  rewrite (list_lookup_total_correct _ _ _ Hlk) in *.
  destruct (timer_slot _ esp tick (Z.to_nat (g_current_task s))
    (set_run (zget (g_tasks s) (g_current_task s)) kSleeping (now +u ticks)) Hok1) as (t' & Ht' & E1 & _).
  { apply list_lookup_insert_eq. by eapply lookup_lt_Some. }
  unfold runnable_at, zget at 1. rewrite (list_lookup_total_correct _ _ _ Ht'), E1. unfold wake. cbn.
  by rewrite (proj2 (Z.leb_le _ _)) by lia.
Qed.

(** ** The process table is never emptied *)

Definition used_flags s : list bool := p_used <$> g_processes s.
Definition table_full s : Prop := used_flags s = replicate 8 true.

Lemma full_no_slot s : table_full s → find_slot (λ p, negb (p_used p)) (g_processes s) = None.
Proof.
  intros Hf. apply find_slot_None. intros j p Hj. unfold table_full, used_flags in Hf.
  assert (replicate 8 true !! j = Some (p_used p)) as [E _]%lookup_replicate by (by rewrite <- Hf, list_lookup_fmap, Hj).
  by rewrite E.
Qed.

Lemma full_create_process s name par : table_full s → create_process s name par = (0, s).
Proof. intros Hf. unfold create_process. by rewrite full_no_slot. Qed.

Lemma used_flags_update s j n :
  (j < length (g_processes s))%nat →
  p_used <$> <[j := set_live_threads (g_processes s !!! j) n]> (g_processes s) = used_flags s.
Proof.
  intros Hj. rewrite list_fmap_insert. apply list_insert_id. unfold used_flags.
  by rewrite list_lookup_fmap, (lookup_slot _ j).
Qed.

Lemma find_process_lt s pid j : find_process s pid = Some j → (j < length (g_processes s))%nat.
Proof. apply find_slot_lt. Qed.

Lemma create_task_flags s pid ent size :
  used_flags (create_task_for_process trampoline s pid ent size).2 = used_flags s.
Proof.
  unfold create_task_for_process. destruct (ent =? 0); [done|].
  destruct (find_process s pid) as [j|] eqn:Hj; [|done]. destruct (alloc_task_slot s); [|done].
  destruct (ks_alloc _ _ 16) as [sm k]. destruct (sm =? 0); [done|].
  destruct (setup_initial_task_stack _ _ _ _) as [m sp]. cbn. apply used_flags_update.
  by eapply find_process_lt.
Qed.

Lemma dispatch_processes s prev esp : g_processes (dispatch s prev esp).2 = g_processes s.
Proof.
  unfold dispatch. destruct (prepare_ring3_iret_frame _ _ _ _) as [m f].
  repeat (case_match; simplify_eq/=); done.
Qed.

Lemma mark_exited_flags s : used_flags (mark_current_exited s) = used_flags s.
Proof.
  unfold mark_current_exited. destruct (current_task_ptr s) as [c|]; [|done].
  destruct (state _); try done; destruct (find_process s _) as [j|] eqn:Hj; repeat case_bool; try done;
    unfold used_flags; sched_simpl; apply used_flags_update; by eapply find_process_lt.
Qed.

Lemma full_step s o : table_full s → table_full (run_op s o).
Proof.
  intros Hf. destruct o as [e n|nm e n|nm e sp|esp tick| |t now]; cbn [run_op].
  - unfold table_full, create_kernel_task. by rewrite create_task_flags.
  - unfold create_process_task. by rewrite full_create_process.
  - unfold create_ring3_task. by rewrite full_create_process.
  - unfold on_timer_interrupt. destruct (current_task_ptr s); [|done]. destruct (negb _); [done|].
    unfold table_full, used_flags. by rewrite dispatch_processes.
  - unfold table_full, exit_current. by rewrite mark_exited_flags.
  - unfold sleep_current. destruct (t =? 0); [done|]. by destruct (current_task_ptr s).
Qed.

Lemma full_run s os : table_full s → table_full (run_ops s os).
Proof. revert s. induction os as [|o os IH]; intros s Hf; [done|]. apply IH. by apply full_step. Qed.

(** Process slots are never given back.  Once eight processes exist, every
    later attempt to create one fails and changes nothing, no matter how many
    of their tasks have exited in between. *)
Lemma process_table_exhausts s os nm e n :
  table_full s →
  let s' := run_ops s os in
  create_process_task trampoline s' nm e n = (-1, s') ∧ create_ring3_task s' nm e n = (-1, s').
Proof.
  intros Hf s'. pose proof (full_run s os Hf) as Hf'.
  unfold create_process_task, create_ring3_task. by rewrite !full_create_process.
Qed.
End invariant.

(** ** Frames *)

(** Words pushed below [sp], the first one highest. *)
Lemma push_spec vs m sp :
  4 * Z.of_nat (length vs) <= sp < 4294967296 →
  (fold_left push vs (m, sp)).2 = sp - 4 * Z.of_nat (length vs) ∧
  (∀ i v, vs !! i = Some v → load32 (fold_left push vs (m, sp)).1 (sp - 4 * (Z.of_nat i + 1)) = u32 v) ∧
  (∀ a, a < sp - 4 * Z.of_nat (length vs) ∨ sp <= a → load8 (fold_left push vs (m, sp)).1 a = load8 m a).
Proof.
  revert m sp. induction vs as [|v vs IH]; intros m sp Hsp; cbn [fold_left length] in *.
  - split_and!; [cbn; lia|by intros i w Hw; rewrite lookup_nil in Hw|done].
  - cbn [push]. rewrite u32_small by lia.
    destruct (IH (store32 m (sp - 4) v) (sp - 4)) as (E1 & E2 & E3); [lia|]. split_and!.
    + rewrite E1. lia.
    + intros [|i] w Hw; cbn in Hw; [injection Hw as ->|].
      * rewrite (load_le_ext 4 (store32 m (sp - 4) w)); [|intros b Hb; apply E3; lia].
        replace (sp - 4 * (Z.of_nat 0 + 1)) with (sp - 4) by lia. apply load32_store32_eq.
      * replace (sp - 4 * (Z.of_nat (S i) + 1)) with (sp - 4 - 4 * (Z.of_nat i + 1)) by lia. by apply E2.
    + intros a Ha. rewrite E3 by lia. apply load8_store32_ne. lia.
Qed.

Section frames.
Context {K : Type} `{KernelServicesLaws K}.
Context (trampoline : Z).
Hypothesis trampoline_range : 0 <= trampoline < 4294967296.
Implicit Types s : scheduler K.

Lemma initial_stack_frame m base size :
  44 <= base + size < 4294967296 → 0 <= base → 0 <= size →
  let '(m', sp) := setup_initial_task_stack trampoline m base size in
  sp = base + size - 44 ∧
  irq0_exit m' sp = mk_frame 0 0 0 0 0 0 0 trampoline kKernelCodeSelector kEflagsInterruptEnabled ∧
  ∀ a, a < base + size - 44 ∨ base + size <= a → load8 m' a = load8 m a.
Proof.
  intros Hr Hb Hs. unfold setup_initial_task_stack. rewrite u32_small by lia.
  destruct (push_spec (initial_frame trampoline) m (base + size)) as (E1 & E2 & E3); [cbn [length initial_frame]; lia|].
  destruct (fold_left push _ _) as [m' sp]. cbn [fst snd length initial_frame] in *. split; [lia|]. split; [|done].
  assert (∀ i k v, initial_frame trampoline !! i = Some v → k = 10 - Z.of_nat i →
    load32 m' (sp + 4 * k) = u32 v) as Hw.
  { intros i k v Hv ->. replace (sp + 4 * (10 - Z.of_nat i)) with (base + size - 4 * (Z.of_nat i + 1)) by lia. by apply E2. }
  unfold irq0_exit.
  rewrite (Hw 10%nat 0 0), (Hw 9%nat 1 0), (Hw 8%nat 2 0), (Hw 6%nat 4 0), (Hw 5%nat 5 0), (Hw 4%nat 6 0),
    (Hw 3%nat 7 0), (Hw 2%nat 8 trampoline), (Hw 1%nat 9 kKernelCodeSelector), (Hw 0%nat 10 kEflagsInterruptEnabled) by done.
  by rewrite (u32_small trampoline).
Qed.

(** A new kernel task starts correctly.  When [create_kernel_task] succeeds
    the new slot is runnable and its saved stack, restored by the interrupt
    exit path, enters the trampoline in the kernel code segment with interrupts
    enabled and zero registers; the trampoline, run by that task, calls the
    entry the task was created with and no other. *)
Lemma kernel_task_starts s ent size tid s' :
  sched_ok s → g_next_tid s < 2147483647 → ks_ok (kern s) →
  0 < ent → 0 <= size <= ks_room (kern s) → 4096 <= ks_room (kern s) →
  create_kernel_task trampoline s ent size = (tid, s') → 0 <= tid →
  ∃ i t, g_tasks s' !! i = Some t ∧ state t = kRunnable ∧ Scheduler.tid t = tid ∧ entry t = ent ∧
    irq0_exit (ks_mem (kern s')) (saved_esp t) =
      mk_frame 0 0 0 0 0 0 0 trampoline kKernelCodeSelector kEflagsInterruptEnabled ∧
    ∀ run, (task_entry_trampoline run (with_current s' (Z.of_nat i))).1 = Some ent.
Proof.
  intros Hok Htid Hk He Hs Hroom. pose proof (proj2 (so_next s Hok)) as Hnt.
  unfold create_kernel_task, create_task_for_process. rewrite (proj2 (Z.eqb_neq ent 0)) by lia.
  destruct (find_process s 1) as [j|] eqn:Hj; [|intros [= <- <-]; lia].
  destruct (alloc_task_slot s) as [i|] eqn:Hi; [|intros [= <- <-]; lia].
  destruct (alloc_task_slot_Some s i Hi) as (t0 & Ht0 & Hl0). pose proof (lookup_lt_Some _ _ _ Ht0) as Hlen.
  sched_simpl. set (sz := if size <? 4096 then 4096 else size).
  assert (4096 <= sz <= ks_room (kern s)) as Hsz by (subst sz; destruct (size <? 4096) eqn:E; zbool; lia).
  pose proof (ks_alloc_law (kern s) sz Hk ltac:(lia)) as Hal. clearbody sz.
  destruct (ks_alloc (kern s) sz 16) as [sm k]. destruct Hal as [->|[Hp Hend]]; [intros [= <- <-]; lia|].
  rewrite (proj2 (Z.eqb_neq sm 0)) by lia. sched_simpl.
  pose proof (initial_stack_frame (ks_mem k) sm sz ltac:(lia) ltac:(lia) ltac:(lia)) as Hfr.
  destruct (setup_initial_task_stack trampoline (ks_mem k) sm sz) as [m sp]. destruct Hfr as (_ & Hfr & _).
  sched_simpl. rewrite list_insert_insert_eq.
  set (t := mk_task kRunnable (g_next_tid s) 1 sp ent kNoWakeTick 0 0 0 0 false). intros [= <- <-] _.
  exists i, t. cbn [add_thread with_counts with_processes g_tasks kern].
  split; [by apply list_lookup_insert_eq|]. split; [done|]. split; [cbn; by rewrite i32_small by lia|].
  split; [done|]. split; [cbn; by rewrite ks_mem_law|]. intros run.
  pose proof (add_thread_ok s i t0 t 1 j Hok Htid Ht0 Hl0 eq_refl eq_refl eq_refl Hj (ks_set_mem k m)) as Hok'.
  set (s1 := add_thread _ j) in *.
  assert (g_tasks s1 !! i = Some t) as Hit by (by apply list_lookup_insert_eq).
  assert (i < 16)%nat by (rewrite <- (so_tasks s1 Hok'); by eapply lookup_lt_Some).
  assert (sched_ok (with_current s1 (Z.of_nat i))) as Hok2.
  { apply with_current_ok; [done|lia|]. unfold zget. rewrite Nat2Z.id.
    by rewrite (list_lookup_total_correct _ _ _ Hit). }
  unfold task_entry_trampoline, current_task_id. rewrite current_task_ptr_ok by done.
  cbn [with_current g_current_task g_tasks]. rewrite Nat2Z.id, (list_lookup_total_correct _ _ _ Hit).
  rewrite (proj2 (find_slot_Some _ _ i)); [by rewrite (list_lookup_total_correct _ _ _ Hit)|]. split.
  - exists t. split; [done|]. cbn. by rewrite Z.eqb_refl, (proj2 (Z.eqb_neq ent 0)) by lia.
  - intros l u Hl Hu. apply andb_false_iff. left. apply Z.eqb_neq. intros E.
    pose proof (so_tid_inj s1 Hok' i l t u Hit Hu ltac:(done) (eq_sym E)). lia.
Qed.

Lemma ring3_frame m top ring3_entry ring3_esp :
  52 <= top < 4294967296 → 0 <= ring3_entry < 4294967296 →
  let '(m', sp) := prepare_ring3_iret_frame m top ring3_entry ring3_esp in
  sp = top - 52 ∧ irq0_exit m' sp = mk_frame ring3_entry 27 514 35 0 0 0 0 0 0.
Proof.
  intros Ht He. unfold prepare_ring3_iret_frame. set (vs := [0; 0; 0; 0; 0; 0; 0; 0; 35; ring3_esp; 514; 27; ring3_entry]).
  destruct (push_spec vs m top) as (E1 & E2 & _); [cbn [length vs]; lia|].
  destruct (fold_left push _ _) as [m' sp]. cbn [fst snd length vs] in *. split; [lia|].
  assert (∀ i k v, vs !! i = Some v → k = 12 - Z.of_nat i → load32 m' (sp + 4 * k) = u32 v) as Hw.
  { intros i k v Hv ->. replace (sp + 4 * (12 - Z.of_nat i)) with (top - 4 * (Z.of_nat i + 1)) by lia. by apply E2. }
  unfold irq0_exit.
  rewrite (Hw 12%nat 0 ring3_entry), (Hw 11%nat 1 27), (Hw 10%nat 2 514), (Hw 8%nat 4 35), (Hw 7%nat 5 0),
    (Hw 6%nat 6 0), (Hw 5%nat 7 0), (Hw 4%nat 8 0), (Hw 3%nat 9 0), (Hw 2%nat 10 0) by done.
  by rewrite (u32_small ring3_entry).
Qed.

(** The first dispatch of a ring-3 task cannot start it.  The frame is
    synthesised in the wrong order: [popa] consumes the five words meant for
    [iret] (EDI receives the entry point, ESI the user code selector), and
    [iret] is left with EIP 0, the null code selector and cleared flags. *)
Lemma ring3_first_dispatch s prev esp :
  let t := zget (g_tasks s) (g_current_task s) in
  ring t = 3 → user_started t = false → 52 <= saved_esp t < 4294967296 → 0 <= user_entry t < 4294967296 →
  let '(frame, s') := dispatch s prev esp in
  irq0_exit (ks_mem (kern s')) frame = mk_frame (user_entry t) 27 514 35 0 0 0 0 0 0.
Proof.
  intros t Hr Hu Hs He. unfold dispatch. fold t. rewrite Hr, Hu, (proj2 (Z.eqb_neq (saved_esp t) 0)) by lia.
  cbn [Z.eqb Pos.eqb andb negb].
  match goal with |- context [prepare_ring3_iret_frame ?m _ _ _] =>
    pose proof (ring3_frame m (saved_esp t) (user_entry t) (user_esp0 t) Hs He) as Hf end.
  destruct (prepare_ring3_iret_frame _ _ _ _) as [m f]. cbn [with_kern kern]. rewrite ks_mem_law. by destruct Hf.
Qed.
End frames.
