(* ===== verification/KernelTasks.v ===== *)
(** * The scheduler over the real kernel services

    The heap, the address spaces and the task state segment discharge the
    interface of the scheduler; its theorems are applied to a kernel booted
    with a concrete heap. *)

From S2P Require Import Prelude Memory CText Pmm Vmm Paging Heap AddressSpace Scheduler SchedulerSpec.

(** The kernel state below the scheduler: the heap over the memory managers,
    and the stack pointer in the TSS. *)
Record kernel := mk_kernel { k_heap : kheap; k_esp0 : Z }.

Section services.
Context (page_directory_addr page_tables_addr : Z).
#[local] Instance services_mapper : PageMapper vmm := vmm_mapper page_tables_addr.

(** The fuel is always enough on a well-formed heap ([alloc_total]). *)
Definition kernel_alloc (k : kernel) (size alignment : Z) : Z * kernel :=
  match alloc (heap_fuel (k_heap k)) (k_heap k) size alignment with
  | Some (p, h) => (p, mk_kernel h (k_esp0 k))
  | None => (0, k)
  end.

Definition kernel_clone (k : kernel) : Z * kernel :=
  match create_kernel_clone_address_space page_tables_addr (heap_fuel (k_heap k)) (k_heap k) with
  | Some (pd, h) => (pd, mk_kernel h (k_esp0 k))
  | None => (0, k)
  end.

Definition with_pages (h : kheap) (v : vmm) : kheap :=
  {| g_heap_start := g_heap_start h; g_heap_limit := g_heap_limit h;
     g_heap_break := g_heap_break h; g_heap_mapped_end := g_heap_mapped_end h;
     g_free_list := g_free_list h; g_heap_active_bytes := g_heap_active_bytes h;
     heap_mem := heap_mem h; heap_frames := heap_frames h; heap_pages := v |}.

Definition kernel_switch (k : kernel) (space : Z) : kernel :=
  mk_kernel (with_pages (k_heap k) (switch_address_space (heap_pages (k_heap k)) space).2) (k_esp0 k).

Definition set_kernel_stack (k : kernel) (stack_top : Z) : kernel := mk_kernel (k_heap k) stack_top.

#[export] Instance kernel_services : KernelServices kernel := {|
  ks_alloc := kernel_alloc;
  ks_kernel_space _ := kernel_address_space page_directory_addr;
  ks_clone_space := kernel_clone;
  ks_switch_space := kernel_switch;
  ks_set_kernel_stack := set_kernel_stack;
  ks_mem k := heap_mem (k_heap k);
  ks_set_mem k m := mk_kernel (with_mem (k_heap k) m) (k_esp0 k);
|}.

Hypothesis tables_aligned : page_tables_addr mod 4096 = 0.
Hypothesis tables_range : 0 <= page_tables_addr ∧ page_tables_addr + 64 * 4096 <= 4294967296.
#[local] Instance services_laws_mapper : PageMapperLaws vmm :=
  vmm_mapper_laws page_tables_addr tables_aligned tables_range.

Program Definition kernel_services_laws : KernelServicesLaws kernel := {|
  ks_ok k := ∃ l A, heap_ok (k_heap k) l A;
  ks_room k := 4294967231 - g_heap_limit (k_heap k);
|}.
Next Obligation.
  intros k size (l & A & Hok) Hsz. cbn [ks_alloc kernel_services]. unfold kernel_alloc.
  assert (pow2_alignment 16) as Hal by (by exists 4).
  destruct (alloc (heap_fuel (k_heap k)) (k_heap k) size 16) as [[p h]|] eqn:E; [|by left].
  destruct (decide (p = 0)) as [|Hp]; [by left|right].
  destruct (alloc_effect (heap_fuel (k_heap k)) (k_heap k) l A size 16 p h) as (b & l' & <- & <- & _ & _ & Hok' & _);
    [done|done|lia|lia|done|done|done|].
  pose proof (hk_live _ _ _ Hok') as HL. inversion HL as [|? ? (W1 & W2 & W3 & W4 & W5 & _) _]; subst.
  pose proof (hk_bounds _ _ _ Hok'). lia.
Qed.
Next Obligation. done. Qed.
End services.

(** ** A concrete kernel *)

#[local] Existing Instance demo_mapper.

Definition demo_kernel : kernel := mk_kernel demo_heap 0.

#[local] Instance demo_services : KernelServices kernel := kernel_services 2162688 2097152.
#[local] Instance demo_services_laws : KernelServicesLaws kernel :=
  kernel_services_laws 2162688 2097152 eq_refl demo_tables_range.

Lemma demo_kernel_ok : ks_ok demo_kernel.
Proof. exists [], []. exact demo_heap_ok. Qed.

Definition demo_sched : scheduler kernel := init demo_kernel 3490000000.

Lemma demo_sched_ok : sched_ok demo_sched.
Proof. apply sched_init_ok. Qed.

Lemma demo_stack_alloc : ∃ h, alloc (Z.to_nat 2050) demo_heap 4096 16 = Some (3489660960, h).
Proof.
  assert (fst <$> alloc (Z.to_nat 2050) demo_heap 4096 16 = Some 3489660960) as H by (vm_compute; reflexivity).
  apply fmap_Some in H as ([p h] & E & Hp). exists h. rewrite E. by rewrite Hp.
Qed.

Lemma demo_create :
  ∃ s', create_kernel_task 1048576 demo_sched 1052672 4096 = (2, s').
Proof.
  destruct demo_stack_alloc as [h E]. unfold demo_sched. rewrite init_eq. unfold create_kernel_task, create_task_for_process.
  cbn [Z.eqb find_process find_slot alloc_task_slot g_tasks g_processes insert list_insert replicate p_used p_pid andb
       Pos.eqb state fmap option_fmap option_map clear_task with_tasks kern Z.ltb Z.compare Pos.compare Pos.compare_cont].
  cbn [ks_alloc demo_services kernel_services]. unfold kernel_alloc. cbn [k_heap demo_kernel].
  change (services_mapper 2097152) with demo_mapper. rewrite (proj2 demo_heap_limit), E. eexists. reflexivity.
Qed.

Lemma kernel_task_starts_witness :
  ∃ s' i t, create_kernel_task 1048576 demo_sched 1052672 4096 = (2, s') ∧ g_tasks s' !! i = Some t ∧
    irq0_exit (ks_mem (kern s')) (saved_esp t) =
      mk_frame 0 0 0 0 0 0 0 1048576 kKernelCodeSelector kEflagsInterruptEnabled.
Proof.
  destruct demo_create as [s' E].
  destruct (kernel_task_starts 1048576 ltac:(lia) demo_sched 1052672 4096 2 s' demo_sched_ok) as (i & t & Hi & _ & _ & _ & Hf & _);
    [done|exact demo_kernel_ok|lia| | |exact E|lia|].
  - change (ks_room (kern demo_sched)) with (4294967231 - g_heap_limit demo_heap). rewrite (proj1 demo_heap_limit). lia.
  - change (ks_room (kern demo_sched)) with (4294967231 - g_heap_limit demo_heap). rewrite (proj1 demo_heap_limit). lia.
  - exists s', i, t. exact (conj E (conj Hi Hf)).
Defined.

(** ** A kernel reduced to a bump allocator, for runs that are evaluated *)

#[local] Instance bump_services : KernelServices (Z * memory) := {|
  ks_alloc k size _ := (k.1, (k.1 + size, k.2));
  ks_kernel_space _ := 4096;
  ks_clone_space k := (k.1, (k.1 + 4096, k.2));
  ks_switch_space k _ := k;
  ks_set_kernel_stack k _ := k;
  ks_mem k := k.2;
  ks_set_mem k m := (k.1, m);
|}.

#[local] Program Instance bump_laws : KernelServicesLaws (Z * memory) := {|
  ks_ok k := k.1 = 1048576; ks_room _ := 65536 |}.
Next Obligation. intros [b m] size Hb Hs. cbn in *. right. lia. Qed.
Next Obligation. done. Qed.

Definition solo : scheduler (Z * memory) := init (1048576, ∅) 65536.
Definition duo : scheduler (Z * memory) := (create_kernel_task 32768 solo 40960 4096).2.

Lemma solo_ok : sched_ok solo.
Proof. apply sched_init_ok. Qed.

Lemma duo_ok : sched_ok duo.
Proof. apply create_kernel_task_ok; [exact solo_ok|by split|done]. Qed.

Lemma scheduler_invariant_witness :
  sched_ok (run_ops 32768 solo [OpTimer 60000 10; OpSleep 5 10; OpTimer 60000 20; OpExit]).
Proof.
  apply (scheduler_invariant 32768 (1048576, ∅) 65536); [|cbn; lia].
  split; [by left|]. split; [by right|]. split; [by left|]. split; [by right|done].
Defined.

Lemma round_robin_fair_witness :
  ∃ os1 os2, replicate 16 (OpTimer 60000 10) = os1 ++ os2 ∧ os1 ≠ [] ∧ g_current_task (run_ops 32768 duo os1) = 1.
Proof.
  apply (round_robin_fair 32768 duo (replicate 16 (OpTimer 60000 10)) 1 duo_ok); [|split; reflexivity|lia| |apply Nat.leb_le; reflexivity].
  - cbn [along replicate]. repeat (split; [by left|]). done.
  - cbn [along replicate]. repeat (split; [reflexivity|]). done.
Defined.

Lemma duo_facts :
  current_live duo ∧ ring (zget (g_tasks duo) (g_current_task duo)) = 0 ∧
  g_current_task duo = 0 ∧ g_current_task (run_op 32768 duo (OpTimer 60000 10)) = 1 ∧
  g_current_task (run_op 32768 (run_op 32768 duo (OpTimer 60000 10)) (OpTimer 55555 20)) = 0.
Proof. split_and!; vm_compute; reflexivity. Qed.

Lemma duo_room n : Z.of_nat n < 2147483640 → room_for duo n.
Proof.
  intros. assert (g_next_pid duo = 2 ∧ g_next_tid duo = 3) as [E1 E2] by (split; vm_compute; reflexivity).
  unfold room_for. rewrite E1, E2. lia.
Qed.

#[local] Opaque duo.

Lemma preempted_task_resumes_witness :
  (on_timer_interrupt (run_ops 32768 (run_op 32768 duo (OpTimer 60000 10)) []) 55555 20).1 = 60000.
Proof.
  pose proof (duo_room 1 ltac:(lia)) as Hroom. destruct duo_facts as (Hl & Hr & H0 & H1 & H2).
  apply (preempted_task_resumes 32768 duo 60000 10 [] 55555 20 duo_ok); [exact Hroom|exact Hl|discriminate| | |exact I|exact I|].
  - intros E. rewrite E in Hr. discriminate Hr.
  - rewrite H1, H0. discriminate.
  - cbn [run_ops]. rewrite H2, H0. reflexivity.
Defined.

Lemma sleep_wakes_on_time_witness :
  asleep 0 15 (run_ops 32768 (sleep_current duo 5 10) [OpTimer 60000 14]) ∧
  runnable_at (run_op 32768 (run_ops 32768 (sleep_current duo 5 10) [OpTimer 60000 14]) (OpTimer 60000 15)) 0.
Proof.
  destruct (sleep_wakes_on_time 32768 duo 5 10 [OpTimer 60000 14] duo_ok) as [H1 H2];
    [exact (proj1 duo_facts)|lia|lia|lia|split; [by left|exact I]|apply duo_room; cbn; lia|split; [lia|exact I]|].
  rewrite (proj1 (proj2 (proj2 duo_facts))) in H1, H2. split; [exact H1|apply H2; lia].
Defined.

Definition crowd : scheduler (Z * memory) :=
  run_ops 32768 solo (replicate 7 (OpProcessTask None 40960 4096)).

Lemma process_table_exhausts_witness :
  let s' := run_ops 32768 crowd [OpTimer 60000 10; OpExit; OpTimer 60000 20; OpExit] in
  create_process_task 32768 s' None 40960 4096 = (-1, s') ∧ create_ring3_task s' None 40960 4096 = (-1, s').
Proof. apply (process_table_exhausts 32768 crowd). reflexivity. Defined.

Definition user_task : scheduler (Z * memory) :=
  with_current (create_ring3_task solo None 134217728 3221225472).2 1.

Lemma ring3_first_dispatch_witness :
  let '(frame, s') := dispatch user_task 0 65536 in
  irq0_exit (ks_mem (kern s')) frame = mk_frame 134217728 27 514 35 0 0 0 0 0 0.
Proof. apply (ring3_first_dispatch user_task 0 65536); vm_compute; intuition discriminate. Defined.
