(* ===== verification/Serial.v ===== *)
(** * Serial console output ([kernel/serial.cpp])

    The text sent to COM1 (and mirrored to the screen) as a byte log, with the
    flag that suppresses the rest of a tagged line.  The registers set at
    initialisation and polled input are in [Platform]. *)

From S2P Require Import Prelude CText.

Record serial := mk_serial {
  g_drop_current_line : bool;
  tx : list Z;
}.

(** The prefix tested is the project's former name, in brackets. *)
Definition starts_with_wirth_tag (t : text) : bool := text_starts_with t (txt "[hokusai").

Definition write_char (s : serial) (c : Z) : serial :=
  if g_drop_current_line s then
    if (c =? 10) || (c =? 13) then mk_serial false (tx s) else s
  else mk_serial false (tx s ++ [u8 c]).

Definition write (s : serial) (t : option text) : serial :=
  match t with
  | None => s
  | Some t =>
      let s := if starts_with_wirth_tag t then mk_serial true (tx s) else s in
      fold_left write_char (bytes_of t) s
  end.

Definition hex_digit (d : Z) : Z := zget (bytes_of (txt "0123456789ABCDEF")) d.

Definition write_nibbles (s : serial) (value : Z) (shifts : list Z) : serial :=
  fold_left (λ s shift, write_char s (hex_digit (Z.land (Z.shiftr value shift) 15))) shifts s.

Definition write_hex (s : serial) (value : Z) : serial :=
  write_nibbles s value [28; 24; 20; 16; 12; 8; 4; 0].

Definition write_hex64 (s : serial) (value : Z) : serial :=
  write_nibbles s value [60; 56; 52; 48; 44; 40; 36; 32; 28; 24; 20; 16; 12; 8; 4; 0].

(** ** Lemmas *)

Lemma write_chars_open s bs :
  g_drop_current_line s = false → Forall (λ b, 0 <= b < 256) bs →
  fold_left write_char bs s = mk_serial false (tx s ++ bs).
Proof.
  intros Hd Hb. revert s Hd. induction Hb as [|b bs Hb _ IH]; intros s Hd; cbn [fold_left].
  - rewrite app_nil_r. destruct s. cbn in *. by subst.
  - rewrite IH; unfold write_char; rewrite Hd; [|done]. cbn. by rewrite u8_small, <- app_assoc.
Qed.

(** A suppressed line ends at its newline; until then nothing is sent. *)
Lemma write_chars_dropped s bs :
  g_drop_current_line s = true → Forall (λ b, b ≠ 10 ∧ b ≠ 13) bs →
  fold_left write_char (bs ++ [10]) s = mk_serial false (tx s).
Proof.
  intros Hd Hb. revert s Hd. induction Hb as [|b bs [H1 H2] _ IH]; intros s Hd; cbn [fold_left app].
  - unfold write_char. by rewrite Hd.
  - unfold write_char at 2. rewrite Hd, (proj2 (Z.eqb_neq b 10)), (proj2 (Z.eqb_neq b 13)) by done. by apply IH.
Qed.

Lemma bytes_of_range t : Forall (λ b, 0 <= b < 256) (bytes_of t).
Proof.
  unfold bytes_of. apply Forall_fmap, Forall_true. intros c. cbn. unfold byte_of.
  pose proof (nat_ascii_bounded c). lia.
Qed.

Definition hex_value (b : Z) : Z := if b <? 58 then b - 48 else b - 55.

Lemma hex_digit_value d : 0 <= d < 16 → hex_value (hex_digit d) = d ∧ 0 <= hex_digit d < 256.
Proof.
  intros Hd. assert (d ∈ seqZ 0 16) as Hin by (apply elem_of_seqZ; lia).
  clear Hd. revert d Hin. apply Forall_forall. vm_compute. repeat constructor; intuition discriminate.
Qed.

(** The eight digits of [write_hex] read back as the value. *)
Lemma write_hex_value s v :
  g_drop_current_line s = false → 0 <= v < 4294967296 →
  ∃ ds, write_hex s v = mk_serial false (tx s ++ ds) ∧ length ds = 8%nat ∧
        fold_left (λ acc d, 16 * acc + hex_value d) ds 0 = v.
Proof.
  intros Hd Hv. set (n i := Z.land (Z.shiftr v (4 * i)) 15).
  assert (∀ i, 0 <= n i < 16) as Hn.
  { intros i. unfold n. change 15 with (Z.ones 4). rewrite Z.land_ones by lia. apply Z.mod_pos_bound. lia. }
  exists (hex_digit <$> [n 7; n 6; n 5; n 4; n 3; n 2; n 1; n 0]). split_and!; [|done|].
  - rewrite <- write_chars_open; [done..|]. apply Forall_fmap, Forall_forall.
    intros x Hx. assert (0 <= x < 16); [|by apply hex_digit_value].
    repeat (apply elem_of_cons in Hx as [->|Hx]; [apply Hn|]). by apply elem_of_nil in Hx.
  - cbn [fmap list_fmap fold_left]. rewrite !(proj1 (hex_digit_value _ (Hn _))). unfold n.
    change 15 with (Z.ones 4). rewrite !Z.land_ones, !Z.shiftr_div_pow2 by lia. cbn [Z.mul Pos.mul Z.add].
    change (2 ^ 4) with 16. change (2 ^ 28) with 268435456. change (2 ^ 24) with 16777216.
    change (2 ^ 20) with 1048576. change (2 ^ 16) with 65536. change (2 ^ 12) with 4096.
    change (2 ^ 8) with 256. change (2 ^ 0) with 1. Z.div_mod_to_equations. lia.
Qed.
