(* ===== verification/Syscall.v ===== *)
(** * System calls ([kernel/syscall/syscall.cpp], [kernel/user_safety.cpp])

    The dispatcher and every handler, over byte memory, the scheduler, the
    serial console and a file system.  The file system is the virtual class
    [kernel::fs::FileSystem] of [kernel/fs/vfs.hpp], here the class
    [FileSystem]; [RamFs] is its instance.  Memory is flat: a user address
    that is not mapped faults in the processor, which is not modelled. *)

From S2P Require Import Prelude Memory CText RamFs Vfs RamFsSpec Scheduler Serial.

(** ** Checks on user addresses *)

Definition kUserSpaceStart : Z := 134217728.
Definition kUserSpaceEnd : Z := 3221225472.

Definition is_user_pointer (ptr : Z) : bool := (kUserSpaceStart <=? ptr) && (ptr <? kUserSpaceEnd).

Definition is_user_buffer (ptr size : Z) : bool :=
  if size =? 0 then false
  else if ptr <? kUserSpaceStart then false
  else
    let end_ := ptr +u size in
    if end_ <? ptr then false
    else if kUserSpaceEnd <? end_ then false
    else true.

(** [for (i = 0; i < max_len; ++i) if (str[i] == '\0') return true;] *)
Fixpoint terminated (m : memory) (str : Z) (n : nat) : bool :=
  match n with
  | O => false
  | S n' => if load8 m str =? 0 then true else terminated m (str + 1) n'
  end.

Definition is_user_string (m : memory) (ptr max_len : Z) : bool :=
  if negb (is_user_pointer ptr) then false else terminated m ptr (Z.to_nat max_len).

(** The text at an address: its characters up to the terminator, which must
    come within [fuel] bytes. *)
Fixpoint text_at (fuel : nat) (m : memory) (a : Z) : option text :=
  match fuel with
  | O => None
  | S fuel' =>
      if load8 m a =? 0 then Some []
      else (λ t, ascii_of_nat (Z.to_nat (load8 m a)) :: t) <$> text_at fuel' m (a + 1)
  end.

Definition kErrorInvalidSyscall : Z := 4294967295.
Definition kWriteChunkLimit : Z := 4096.
Definition kMaxPathLen : Z := 512.
Definition kMaxDirEntries : Z := 32.
Definition sizeof_DirEntry : Z := 68.

Inductive Number :=
  | kWrite | kExit | kSleep | kOpen | kRead | kClose | kGetPid | kGetTid | kProcCount
  | kMd | kGetUid | kGetGid | kReaddir | kRd | kUnlink.

Definition syscall_number (n : Z) : option Number :=
  match n with
  | 1 => Some kWrite | 2 => Some kExit | 3 => Some kSleep | 4 => Some kOpen | 5 => Some kRead
  | 6 => Some kClose | 7 => Some kGetPid | 8 => Some kGetTid | 9 => Some kProcCount
  | 10 => Some kMd | 11 => Some kGetUid | 12 => Some kGetGid | 13 => Some kReaddir
  | 14 => Some kRd | 15 => Some kUnlink
  | _ => None
  end.

(** How a system call ends: it returns a value; it waits in [hlt] until the
    current task is no longer asleep and then returns a value; it halts for
    good ([sys_exit]); or it fails inside the file system or on a string that
    has no end. *)
Inductive result :=
  | Returns (r : Z)
  | Waits (r : Z)
  | Halts
  | Stuck.

Section syscalls.
Context {K F : Type} `{KernelServices K} `{FileSystem F}.
Context (fuel : nat).

Record machine := mk_machine {
  g_fs : option F;
  sched : scheduler K;
  console : serial;
  g_ticks : Z;
}.
Implicit Types s : machine.

Definition mem s : memory := ks_mem (kern (sched s)).
Definition set_fs s (f : F) : machine := mk_machine (Some f) (sched s) (console s) (g_ticks s).
Definition set_sched s (sc : scheduler K) : machine := mk_machine (g_fs s) sc (console s) (g_ticks s).
Definition set_console s (c : serial) : machine := mk_machine (g_fs s) (sched s) c (g_ticks s).
Definition set_mem s (m : memory) : machine :=
  set_sched s (with_kern (sched s) (ks_set_mem (kern (sched s)) m)).

Definition from_user s : bool := current_ring_level (sched s) =? 3.

(** [(n < 0) ? kErrorInvalidSyscall : static_cast<uint32_t>(n)] *)
Definition as_result (n : Z) : Z := if n <? 0 then kErrorInvalidSyscall else n.
(** [(result < 0) ? kErrorInvalidSyscall : 0] *)
Definition as_status (n : Z) : Z := if n <? 0 then kErrorInvalidSyscall else 0.

Definition sys_write s (fd buffer_ptr length : Z) : result * machine :=
  let safe_len := if kWriteChunkLimit <? length then kWriteChunkLimit else length in
  if safe_len =? 0 then (Returns 0, s)
  else if from_user s && negb (is_user_buffer buffer_ptr safe_len) then (Returns kErrorInvalidSyscall, s)
  else
    let data := load_bytes (Z.to_nat safe_len) (mem s) buffer_ptr in
    if (fd =? 1) || (fd =? 2) then
      (Returns safe_len, set_console s (fold_left write_char data (console s)))
    else
      match g_fs s with
      | None => (Returns kErrorInvalidSyscall, s)
      | Some f =>
          match fs_write f (i32 fd) (if buffer_ptr =? 0 then None else Some data) with
          | Done (n, f) => (Returns (as_result n), set_fs s f)
          | _ => (Stuck, s)
          end
      end.

Definition sys_exit s (code : Z) : result * machine :=
  let c := Serial.write (console s) (Some (txt "[wirth] sys_exit code=0x")) in
  let c := write_hex c code in
  let c := Serial.write c (Some [ascii_of_nat 10]) in
  (Halts, set_sched (set_console s c) (exit_current (sched s))).

Definition sys_sleep s (ticks : Z) : result * machine :=
  if ticks =? 0 then (Returns 0, s)
  else
    let s := set_sched s (sleep_current (sched s) ticks (g_ticks s)) in
    if is_current_sleeping (sched s) (g_ticks s) then (Waits ticks, s) else (Returns ticks, s).

(** One more evaluation of the waiting loop's condition. *)
Definition poll_sleep s (ticks : Z) : result * machine :=
  if is_current_sleeping (sched s) (g_ticks s) then (Waits ticks, s) else (Returns ticks, s).

(** A handler that takes a path: the guards, then the operation. *)
Definition with_path s (path_ptr : Z) (op : F → text → result * machine) : result * machine :=
  match g_fs s with
  | None => (Returns kErrorInvalidSyscall, s)
  | Some f =>
      if path_ptr =? 0 then (Returns kErrorInvalidSyscall, s)
      else if from_user s && negb (is_user_string (mem s) path_ptr kMaxPathLen)
      then (Returns kErrorInvalidSyscall, s)
      else match text_at fuel (mem s) path_ptr with
           | None => (Stuck, s)
           | Some path => op f path
           end
  end.

Definition sys_open s (path_ptr flags : Z) : result * machine :=
  with_path s path_ptr (λ f path,
    let '(fd, f) := fs_open f path flags in (Returns (as_result fd), set_fs s f)).

Definition sys_read s (fd buffer_ptr count : Z) : result * machine :=
  match g_fs s with
  | None => (Returns kErrorInvalidSyscall, s)
  | Some f =>
      if buffer_ptr =? 0 then (Returns kErrorInvalidSyscall, s)
      else if count =? 0 then (Returns 0, s)
      else if from_user s && negb (is_user_buffer buffer_ptr count) then (Returns kErrorInvalidSyscall, s)
      else
        let '(n, bytes, f) := fs_read f (i32 fd) count in
        (Returns (as_result n), set_fs (set_mem s (store_bytes (mem s) buffer_ptr bytes)) f)
  end.

Definition sys_close s (fd : Z) : result * machine :=
  match g_fs s with
  | None => (Returns kErrorInvalidSyscall, s)
  | Some f => let '(r, f) := fs_close f (i32 fd) in (Returns (as_status r), set_fs s f)
  end.

Definition sys_getpid s : result * machine := (Returns (current_process_id (sched s)), s).
Definition sys_gettid s : result * machine := (Returns (current_thread_id (sched s)), s).
Definition sys_proc_count s : result * machine := (Returns (process_count (sched s)), s).
Definition sys_getuid s : result * machine := (Returns (current_user_id (sched s)), s).
Definition sys_getgid s : result * machine := (Returns (current_group_id (sched s)), s).

Definition sys_md s (path_ptr : Z) : result * machine :=
  with_path s path_ptr (λ f path,
    let '(r, f) := fs_md f path in (Returns (as_status r), set_fs s f)).

(** [copy_text(entries[i].name, ...); entries[i].is_directory = ...;] *)
Fixpoint store_entries (m : memory) (a : Z) (es : list DirEntry) : memory :=
  match es with
  | [] => m
  | e :: es' =>
      let m := store_bytes m a (bytes_of (de_name e) ++ [0]) in
      let m := store32 m (a + 64) (if de_is_directory e then 1 else 0) in
      store_entries m (a + sizeof_DirEntry) es'
  end.

Definition sys_readdir s (path_ptr entries_ptr max_entries : Z) : result * machine :=
  match g_fs s with
  | None => (Returns kErrorInvalidSyscall, s)
  | Some f =>
      if (path_ptr =? 0) || (entries_ptr =? 0) then (Returns kErrorInvalidSyscall, s)
      else
        let safe_max := if kMaxDirEntries <? max_entries then kMaxDirEntries else max_entries in
        if safe_max =? 0 then (Returns 0, s)
        else if from_user s && negb (is_user_string (mem s) path_ptr kMaxPathLen)
        then (Returns kErrorInvalidSyscall, s)
        else
          let entries_bytes := safe_max *u sizeof_DirEntry in
          if from_user s && negb (is_user_buffer entries_ptr entries_bytes)
          then (Returns kErrorInvalidSyscall, s)
          else match text_at fuel (mem s) path_ptr with
               | None => (Stuck, s)
               | Some path =>
                   let '(n, es, f) := fs_readdir f path safe_max in
                   (Returns (as_result n), set_fs (set_mem s (store_entries (mem s) entries_ptr es)) f)
               end
  end.

Definition sys_rd s (path_ptr : Z) : result * machine :=
  with_path s path_ptr (λ f path,
    let '(r, f) := fs_rd f path in (Returns (as_status r), set_fs s f)).

Definition sys_unlink s (path_ptr : Z) : result * machine :=
  with_path s path_ptr (λ f path,
    let '(r, f) := fs_unlink f path in (Returns (as_status r), set_fs s f)).

Definition syscall_dispatch s (number arg0 arg1 arg2 : Z) : result * machine :=
  match syscall_number number with
  | Some kWrite => sys_write s arg0 arg1 arg2
  | Some kExit => sys_exit s arg0
  | Some kSleep => sys_sleep s arg0
  | Some kOpen => sys_open s arg0 arg1
  | Some kRead => sys_read s arg0 arg1 arg2
  | Some kClose => sys_close s arg0
  | Some kGetPid => sys_getpid s
  | Some kGetTid => sys_gettid s
  | Some kProcCount => sys_proc_count s
  | Some kMd => sys_md s arg0
  | Some kGetUid => sys_getuid s
  | Some kGetGid => sys_getgid s
  | Some kReaddir => sys_readdir s arg0 arg1 arg2
  | Some kRd => sys_rd s arg0
  | Some kUnlink => sys_unlink s arg0
  | None => (Returns kErrorInvalidSyscall, s)
  end.
End syscalls.

#[global] Arguments machine : clear implicits.

