(* ===== verification/SyscallSpec.v ===== *)
(** * What the system call layer guarantees

    The address checks accept what they should (and one thing they should
    not), no call made from ring 3 writes outside user memory, and refused
    calls have no effect. *)

From S2P Require Import Prelude Memory CText RamFs Vfs RamFsSpec Scheduler SchedulerSpec KernelTasks Serial Syscall.

Definition user_address (a : Z) : Prop := kUserSpaceStart <= a < kUserSpaceEnd.

(** ** The checks *)

Lemma is_user_buffer_spec ptr size :
  0 <= ptr < 4294967296 → 0 <= size < 4294967296 →
  is_user_buffer ptr size = true ↔ 0 < size ∧ ∀ a, ptr <= a < ptr + size → user_address a.
Proof.
  intros Hp Hs. unfold is_user_buffer, user_address, kUserSpaceStart, kUserSpaceEnd.
  assert (ptr +u size = if ptr + size <? 4294967296 then ptr + size else ptr + size - 4294967296) as ->.
  { destruct (_ <? _) eqn:E; zbool; [by rewrite u32_small by lia|]. unfold u32. symmetry.
    apply Z.mod_unique with 1; lia. }
  split.
  - repeat case_bool; zbool; try done; intros _; (split; [lia|]); intros; lia.
  - intros [H0 Ha]. pose proof (Ha ptr ltac:(lia)). pose proof (Ha (ptr + size - 1) ltac:(lia)).
    repeat case_bool; zbool; try done; lia.
Qed.

Lemma terminated_spec m a n :
  terminated m a n = true ↔ ∃ k, 0 <= k < Z.of_nat n ∧ load8 m (a + k) = 0.
Proof.
  revert a. induction n as [|n IH]; intros a; cbn [terminated]; [split; [done|]; intros (k & ? & _); lia|].
  destruct (load8 m a =? 0) eqn:E; zbool.
  - split; [|done]. intros _. exists 0. rewrite Z.add_0_r. split; [lia|done].
  - rewrite IH. split; intros (k & Hk & Hz).
    + exists (k + 1). split; [lia|]. by replace (a + (k + 1)) with (a + 1 + k) by lia.
    + destruct (decide (k = 0)) as [->|]; [by rewrite Z.add_0_r in Hz|].
      exists (k - 1). split; [lia|]. by replace (a + 1 + (k - 1)) with (a + k) by lia.
Qed.

Lemma text_at_terminated m a n fuel :
  terminated m a n = true → (n <= fuel)%nat → ∃ t, text_at fuel m a = Some t ∧ (length t < n)%nat.
Proof.
  revert a fuel. induction n as [|n IH]; intros a fuel; cbn [terminated]; [done|].
  intros Ht Hf. destruct fuel as [|fuel]; [lia|]. cbn [text_at].
  destruct (load8 m a =? 0); [exists []; split; [done|cbn; lia]|].
  destruct (IH (a + 1) fuel Ht ltac:(lia)) as (t & -> & Hl). eexists. split; [done|]. cbn. lia.
Qed.

(** A string that starts on the last user byte and ends in kernel memory. *)
Definition straddling : memory := store8 ∅ (kUserSpaceEnd - 1) 97.

(** C13: the address checks of [user_safety].  A buffer is accepted exactly when
    it is not empty and all its bytes are user addresses (the 32-bit sum is not
    fooled by wrap-around); a string exactly when its first byte is one and a
    terminator follows within the limit, so its text can be read.  The latter
    is not enough: a string may be accepted although no user address holds its
    terminator. *)
Theorem user_checks_exact :
  (∀ ptr size, 0 <= ptr < 4294967296 → 0 <= size < 4294967296 →
     is_user_buffer ptr size = true ↔ 0 < size ∧ ∀ a, ptr <= a < ptr + size → user_address a) ∧
  (∀ m ptr n, is_user_string m ptr n = true ↔
     user_address ptr ∧ ∃ k, 0 <= k < n ∧ load8 m (ptr + k) = 0) ∧
  (∀ m ptr n, is_user_string m ptr n = true →
     ∃ t, text_at (Z.to_nat n) m ptr = Some t ∧ text_len t < n) ∧
  (∃ ptr, is_user_string straddling ptr kMaxPathLen = true ∧
     ∀ a, ptr <= a → user_address a → load8 straddling a ≠ 0).
Proof.
  split; [exact is_user_buffer_spec|]. split; [|split].
  - intros m ptr n. unfold is_user_string, is_user_pointer, user_address.
    destruct (_ && _) eqn:E; cbn [negb].
    + rewrite terminated_spec. zbool. split; intros H; [|destruct H as [_ H]];
        [split; [lia|]|]; destruct H as (k & Hk & Hz); exists k; (split; [lia|done]).
    + split; [done|]. intros [H _]. zbool. lia.
  - intros m ptr n. unfold is_user_string. destruct (negb _); [done|]. intros Ht.
    destruct (text_at_terminated m ptr (Z.to_nat n) (Z.to_nat n) Ht ltac:(lia)) as (t & ? & ?).
    exists t. split; [done|]. unfold text_len. lia.
  - exists (kUserSpaceEnd - 1). split; [vm_compute; reflexivity|]. unfold user_address. intros a Ha Hu.
    replace a with (kUserSpaceEnd - 1) by lia. vm_compute. discriminate.
Qed.

(** ** Stores of the handlers *)

Lemma store_entries_frame es m a b :
  Forall (λ e, text_len (de_name e) < 64) es →
  b < a ∨ a + 68 * Z.of_nat (length es) <= b → load8 (store_entries m a es) b = load8 m b.
Proof.
  intros He. revert m a. induction He as [|e es Hl _ IH]; intros m a Hb; [done|].
  cbn [store_entries length] in *. unfold sizeof_DirEntry. rewrite IH by lia.
  rewrite load8_store32_ne by lia. apply load8_store_bytes. unfold bytes_of.
  rewrite length_app, length_fmap. unfold text_len in Hl. cbn [length]. lia.
Qed.

Section safety.
Context {K F : Type} `{KernelServicesLaws K} `{FileSystemLaws F}.
Context (fuel : nat).
Implicit Types s : machine K F.

Lemma exit_keeps_kern (sc : scheduler K) : kern (exit_current sc) = kern sc.
Proof.
  unfold exit_current, mark_current_exited. destruct (current_task_ptr sc); [|done].
  destruct (state _); try done; destruct (find_process _ _); repeat case_bool; done.
Qed.

Lemma sleep_keeps_kern (sc : scheduler K) t now : kern (sleep_current sc t now) = kern sc.
Proof. unfold sleep_current. destruct (t =? 0); [done|]. by destruct (current_task_ptr sc). Qed.

(** What a handler may do when called from ring 3. *)
Definition stays_in_user s (r : result * machine K F) : Prop :=
  ∀ a, ¬ user_address a → load8 (mem r.2) a = load8 (mem s) a.

Lemma stays_refl s r s' : mem s' = mem s → stays_in_user s (r, s').
Proof. intros E a _. cbn. by rewrite E. Qed.

Lemma with_path_user s p op :
  from_user s = true → (Z.to_nat kMaxPathLen <= fuel)%nat →
  (∀ f t, stays_in_user s (op f t) ∧ (op f t).1 ≠ Stuck) →
  stays_in_user s (with_path fuel s p op) ∧ (with_path fuel s p op).1 ≠ Stuck.
Proof.
  intros Hu Hf Hop. unfold with_path. rewrite Hu. destruct (g_fs s) as [f|]; [|by split; [apply stays_refl|]].
  destruct (p =? 0); [by split; [apply stays_refl|]|]. cbn [andb].
  destruct (is_user_string (mem s) p kMaxPathLen) eqn:Es; cbn [negb]; [|by split; [apply stays_refl|]].
  unfold is_user_string in Es. destruct (negb _); [done|].
  destruct (text_at_terminated _ _ _ fuel Es Hf) as (t & -> & _). apply Hop.
Qed.

Lemma sys_read_user s fd p n :
  from_user s = true → 0 <= p < 4294967296 → 0 <= n < 4294967296 → stays_in_user s (sys_read s fd p n).
Proof.
  intros Hu Hp Hn. unfold sys_read. destruct (g_fs s) as [f|]; [|by apply stays_refl].
  destruct (p =? 0); [by apply stays_refl|]. destruct (n =? 0); [by apply stays_refl|]. rewrite Hu. cbn [andb].
  destruct (is_user_buffer p n) eqn:Eb; cbn [negb]; [|by apply stays_refl].
  apply is_user_buffer_spec in Eb as [_ Eb]; [|done..].
  pose proof (fs_read_law f (i32 fd) n ltac:(lia)) as Hl.
  destruct (fs_read f (i32 fd) n) as [[r bs] f']. cbn in Hl. intros a Ha.
  unfold mem. cbn [snd set_fs set_mem set_sched sched with_kern kern]. rewrite ks_mem_law.
  apply load8_store_bytes. destruct (decide (p <= a < p + Z.of_nat (length bs))); [|lia].
  destruct Ha. apply Eb. lia.
Qed.

Lemma sys_readdir_user s p q n :
  from_user s = true → (Z.to_nat kMaxPathLen <= fuel)%nat →
  0 <= q < 4294967296 → 0 <= n < 4294967296 →
  stays_in_user s (sys_readdir fuel s p q n) ∧ (sys_readdir fuel s p q n).1 ≠ Stuck.
Proof.
  intros Hu Hf Hq Hn. unfold sys_readdir. destruct (g_fs s) as [f|]; [|by split; [apply stays_refl|]].
  destruct (_ || _); [by split; [apply stays_refl|]|].
  set (room := if kMaxDirEntries <? n then kMaxDirEntries else n).
  assert (0 <= room <= 32) as Hr by (subst room; unfold kMaxDirEntries; destruct (32 <? n) eqn:E; zbool; lia).
  clearbody room. destruct (room =? 0); [by split; [apply stays_refl|]|]. rewrite Hu. cbn [andb].
  destruct (is_user_string (mem s) p kMaxPathLen) eqn:Es; cbn [negb]; [|by split; [apply stays_refl|]].
  unfold sizeof_DirEntry. rewrite u32_small by lia.
  destruct (is_user_buffer q (room * 68)) eqn:Eb; cbn [negb]; [|by split; [apply stays_refl|]].
  apply is_user_buffer_spec in Eb as [_ Eb]; [|lia..]. unfold is_user_string in Es. destruct (negb _); [done|].
  destruct (text_at_terminated _ _ _ fuel Es Hf) as (t & -> & _).
  destruct (fs_readdir_law f t room ltac:(lia)) as [Hl Hnames].
  destruct (fs_readdir f t room) as [[r es] f']. cbn in Hl, Hnames. split; [|done]. intros a Ha.
  unfold mem. cbn [snd set_fs set_mem set_sched sched with_kern kern]. rewrite ks_mem_law.
  apply store_entries_frame; [done|]. destruct (decide (q <= a < q + 68 * Z.of_nat (length es))); [|lia].
  destruct Ha. apply Eb. lia.
Qed.

(** C14: a system call made from ring 3, with any number and any arguments,
    writes no byte outside user memory; and, [write] apart (whose file may be
    at the size limit), it never gets stuck on its arguments. *)
Theorem syscall_user_safe s number a0 a1 a2 :
  from_user s = true → (Z.to_nat kMaxPathLen <= fuel)%nat →
  0 <= a0 < 4294967296 → 0 <= a1 < 4294967296 → 0 <= a2 < 4294967296 →
  stays_in_user s (syscall_dispatch fuel s number a0 a1 a2) ∧
  (syscall_number number ≠ Some kWrite → (syscall_dispatch fuel s number a0 a1 a2).1 ≠ Stuck).
Proof.
  intros Hu Hf H0' H1' H2'. unfold syscall_dispatch, sys_open, sys_md, sys_rd, sys_unlink.
  assert (∀ P Q R : Prop, P ∧ R → P ∧ (Q → R)) as Hweak by tauto.
  destruct (syscall_number number) as [[]|]; try (by split; [apply stays_refl|]).
  - split; [|done]. unfold sys_write. repeat case_match; try by apply stays_refl.
  - split; [|done]. apply stays_refl. unfold mem. cbn. by rewrite exit_keeps_kern.
  - unfold sys_sleep. destruct (a0 =? 0); [by split; [apply stays_refl|]|].
    destruct (is_current_sleeping _ _); (split; [|done]); apply stays_refl; unfold mem; cbn; by rewrite sleep_keeps_kern.
  - apply Hweak, with_path_user; [done..|]. intros f t. destruct (fs_open f t a1). by split; [apply stays_refl|].
  - split; [by apply sys_read_user|]. intros _. unfold sys_read. repeat case_match; done.
  - unfold sys_close. destruct (g_fs s) as [f|]; [destruct (fs_close f _)|]; by split; [apply stays_refl|].
  - apply Hweak, with_path_user; [done..|]. intros f t. destruct (fs_md f t). by split; [apply stays_refl|].
  - by apply Hweak, sys_readdir_user.
  - apply Hweak, with_path_user; [done..|]. intros f t. destruct (fs_rd f t). by split; [apply stays_refl|].
  - apply Hweak, with_path_user; [done..|]. intros f t. destruct (fs_unlink f t). by split; [apply stays_refl|].
Qed.
End safety.

Section errors.
Context {K F : Type} `{KernelServices K} `{FileSystem F}.
Context (fuel : nat).
Implicit Types s : machine K F.

Lemma syscall_number_None n : syscall_number n = None ↔ n < 1 ∨ 15 < n.
Proof.
  destruct n as [|p|p]; [split; [lia|done]| |split; [lia|done]].
  do 5 (destruct p as [p|p|]; cbn; try (split; [lia|done]); try (split; [done|lia])).
Qed.

Definition refused s (r : result * machine K F) : Prop := r = (Returns kErrorInvalidSyscall, s).

(** Refused calls.  An unknown number, and from ring 3 a buffer or a string
    that fails its check, make the call return the error value and leave the
    whole machine (memory, files, scheduler, console) as it was. *)
Lemma syscall_rejects s a0 a1 a2 :
  (∀ n, n < 1 ∨ 15 < n → refused s (syscall_dispatch fuel s n a0 a1 a2)) ∧
  (from_user s = true →
     (0 < a2 → is_user_buffer a1 (Z.min a2 kWriteChunkLimit) = false →
        refused s (syscall_dispatch fuel s 1 a0 a1 a2)) ∧
     (0 < a2 → is_user_buffer a1 a2 = false → refused s (syscall_dispatch fuel s 5 a0 a1 a2)) ∧
     (∀ n, n ∈ [4; 10; 13; 14; 15] → 0 < a2 → is_user_string (mem s) a0 kMaxPathLen = false →
        refused s (syscall_dispatch fuel s n a0 a1 a2)) ∧
     (0 < a2 → is_user_buffer a1 (Z.min a2 kMaxDirEntries * sizeof_DirEntry) = false →
        refused s (syscall_dispatch fuel s 13 a0 a1 a2))).
Proof.
  unfold refused. split; [intros n Hn; unfold syscall_dispatch; by rewrite (proj2 (syscall_number_None n))|].
  intros Hu.
  assert (∀ p op, is_user_string (mem s) p kMaxPathLen = false →
    with_path fuel s p op = (Returns kErrorInvalidSyscall, s)) as Hpath.
  { intros p op Hp. unfold with_path. rewrite Hu, Hp. by repeat case_match. }
  assert (∀ c, 0 < a2 → (if c <? a2 then c else a2) = Z.min a2 c) as Hmin
    by (intros c; destruct (c <? a2) eqn:E; zbool; lia).
  split_and!.
  - intros Hn Hb. cbn [syscall_dispatch syscall_number]. unfold sys_write. rewrite Hmin, Hu, Hb by done.
    rewrite (proj2 (Z.eqb_neq _ 0)) by (unfold kWriteChunkLimit; lia). done.
  - intros Hn Hb. cbn [syscall_dispatch syscall_number]. unfold sys_read.
    rewrite Hu, Hb, (proj2 (Z.eqb_neq a2 0)) by lia. by repeat case_match.
  - intros n Hn Ha Hs.
    repeat (apply elem_of_cons in Hn as [->|Hn]; [cbn [syscall_dispatch syscall_number]; try (by apply Hpath)|]);
      [|by apply elem_of_nil in Hn].
    unfold sys_readdir. rewrite Hu, Hs, Hmin, (proj2 (Z.eqb_neq (Z.min a2 _) 0)) by (unfold kMaxDirEntries; lia).
    by repeat case_match.
  - intros Hn Hb. cbn [syscall_dispatch syscall_number]. unfold sys_readdir.
    rewrite Hu, Hmin, (proj2 (Z.eqb_neq (Z.min a2 _) 0)), u32_small, Hb by (unfold kMaxDirEntries, sizeof_DirEntry; lia).
    by repeat case_match.
Qed.
End errors.

(** ** A ring-3 task with a RAM file system *)

#[local] Existing Instance bump_services.
#[local] Existing Instance bump_laws.
Definition no_memory (n : Z) : option (list Z) := None.
#[local] Instance demo_fs : FileSystem ramfs := ramfs_fs no_memory.
#[local] Instance demo_fs_laws : FileSystemLaws ramfs := ramfs_fs_laws no_memory.

Definition user_machine : machine (Z * memory) ramfs :=
  mk_machine (Some RamFs_new) user_task (mk_serial false []) 0.

Lemma user_machine_ring3 : from_user user_machine = true.
Proof. vm_compute. reflexivity. Qed.

Lemma syscall_user_safe_witness :
  stays_in_user user_machine (syscall_dispatch 512 user_machine 5 3 134217728 64).
Proof.
  refine (proj1 (syscall_user_safe 512 user_machine 5 3 134217728 64 user_machine_ring3 _ _ _ _));
    [apply Nat.leb_le; vm_compute; reflexivity|lia..].
Defined.

Lemma syscall_rejects_witness :
  refused user_machine (syscall_dispatch 512 user_machine 1 1 3221225472 16) ∧
  refused user_machine (syscall_dispatch 512 user_machine 99 1 3221225472 16).
Proof.
  destruct (syscall_rejects 512 user_machine 1 3221225472 16) as [H1 H2]. split.
  - apply (proj1 (H2 user_machine_ring3)); [lia|reflexivity].
  - apply H1. lia.
Defined.
