(* ===== verification/ToolText.v ===== *)
(** * Text utilities of the assembler tool chain

    Namespace [util] of [tools/macroBuilder/main.cpp]: lines, tokens, arguments
    and numbers.  A [std::string] is the list of its characters.  A function
    that throws returns [Err]; one whose execution is undefined behaviour (a
    vector indexed out of range, a signed overflow) returns [Undefined]. *)

From Stdlib Require Import Ascii.
From S2P Require Import Prelude CText.

(** ** Results *)

Inductive error :=
  | EEmptyNumber
  | EBadNumber (t : text)
  | EBadRegister (t : text)
  | ERegisterRange (t : text)
  | EStoi
  | EJson
  | EVariant
  | EKey (k : text)
  | EObject
  | EMacroName (line : Z)
  | EMacroEnd (name : text)
  | EMacroDepth
  | EMacroArgs (name : text) (expected got : Z)
  | EDuplicate (line : Z) (sym : text)
  | EOperand (line : Z) (op : text)
  | EUnknown (line : Z) (op : text)
  | EEntry (line : Z) (sym : text)
  | EUndefined (line : Z) (sym : text)
  | EGlobals (syms : list text)
  | EMode
  | EGlobalUndefined (sym : text)
  | EGlobalDuplicate (sym : text)
  | ERelocSize (n : Z)
  | EUnresolved (sym : text)
  | EEntrySymbol (sym : text)
  | EAlloc
  | EExecutable
  | EOutsideMemory
  | EDivideByZero
  | EOpcode (op pc : Z)
  | ESteps (n : Z).

Inductive res (A : Type) :=
  | Ok (a : A)
  | Err (e : error)
  | Undefined.
Arguments Ok {_} _.
Arguments Err {_} _.
Arguments Undefined {_}.

#[export] Instance res_ret : MRet res := λ A a, Ok a.
#[export] Instance res_bind : MBind res := λ A B f r,
  match r with Ok a => f a | Err e => Err e | Undefined => Undefined end.

Lemma res_bind_Ok {A B} (r : res A) (f : A → res B) b :
  r ≫= f = Ok b ↔ ∃ a, r = Ok a ∧ f a = Ok b.
Proof. destruct r as [a| |]; cbn; naive_solver. Qed.

(** Vectors: an index out of range is undefined. *)
Definition vget {A} (v : list A) (i : Z) : res A :=
  if i <? 0 then Undefined else match v !! Z.to_nat i with Some x => Ok x | None => Undefined end.
Definition vset {A} (v : list A) (i : Z) (x : A) : res (list A) :=
  if (i <? 0) || (Z.of_nat (length v) <=? i) then Undefined else Ok (<[Z.to_nat i := x]> v).

(** [long long]: a result that does not fit is undefined. *)
Definition i64 (z : Z) : res Z :=
  if (-9223372036854775808 <=? z) && (z <=? 9223372036854775807) then Ok z else Undefined.

(** ** Characters (the C locale) *)

Definition isspace (c : ascii) : bool :=
  let n := byte_of c in (n =? 32) || ((9 <=? n) && (n <=? 13)).

Definition isdigit (c : ascii) : bool := let n := byte_of c in (48 <=? n) && (n <=? 57).

Definition toupper (c : ascii) : ascii :=
  let n := nat_of_ascii c in
  if ((97 <=? n) && (n <=? 122))%nat then ascii_of_nat (n - 32) else c.

Definition upper (s : text) : text := toupper <$> s.

(** ** Lines *)

(** [if (!current.empty() && current.back() == '\r') current.pop_back();] *)
Definition drop_cr (current : text) : text :=
  match last current with
  | Some c => if Ascii.eqb c "013" then take (length current - 1) current else current
  | None => current
  end.

Fixpoint split_lines (rest current : text) : list text * text :=
  match rest with
  | [] => ([], current)
  | c :: rest' =>
      if Ascii.eqb c "010" then
        let '(ls, last) := split_lines rest' [] in (drop_cr current :: ls, last)
      else split_lines rest' (current ++ [c])
  end.

Definition read_lines (t : text) : list text :=
  let '(ls, current) := split_lines t [] in
  let ends_nl := match last t with Some c => Ascii.eqb c "010" | None => false end in
  match current with
  | [] => if ends_nl then ls ++ [[]] else ls
  | _ => ls ++ [drop_cr current]
  end.

(** ** Trimming and comments *)

Fixpoint trim_left (t : text) : text :=
  match t with
  | c :: t' => if isspace c then trim_left t' else t
  | [] => []
  end.

Definition trim_right (t : text) : text := rev (trim_left (rev t)).
Definition trim (t : text) : text := trim_right (trim_left t).

(** [std::string::find] of one character. *)
Fixpoint find_char (c : ascii) (t : text) : option nat :=
  match t with
  | [] => None
  | x :: t' => if Ascii.eqb x c then Some O else S <$> find_char c t'
  end.

Definition earliest (cut pos : option nat) : option nat :=
  match pos with
  | None => cut
  | Some p => match cut with
              | None => Some p
              | Some q => if (p <? q)%nat then Some p else Some q
              end
  end.

Definition strip_comment (line : text) : text :=
  let cut := earliest None (find_char ";" line) in
  let cut := earliest cut (find_char "#" line) in
  match cut with None => line | Some n => take n line end.

(** ** Tokens and arguments *)

Definition is_quote (c : ascii) : bool := Ascii.eqb c "'" || Ascii.eqb c "034".

Definition flush (current : text) (tokens : list text) : list text :=
  match current with [] => tokens | _ => current :: tokens end.

Fixpoint tokenize_loop (rest current : text) (quote : option ascii) : list text :=
  match rest with
  | [] => flush current []
  | ch :: rest' =>
      match quote with
      | Some q => tokenize_loop rest' (current ++ [ch]) (if Ascii.eqb ch q then None else Some q)
      | None =>
          if is_quote ch then tokenize_loop rest' (current ++ [ch]) (Some ch)
          else if isspace ch then flush current (tokenize_loop rest' [] None)
          else tokenize_loop rest' (current ++ [ch]) None
      end
  end.

Definition tokenize (line : text) : list text := tokenize_loop line [] None.

Fixpoint split_args_loop (rest current : text) (quote : option ascii) : list text :=
  match rest with
  | [] => flush (trim current) []
  | ch :: rest' =>
      match quote with
      | Some q => if Ascii.eqb ch q then split_args_loop rest' current None
                  else split_args_loop rest' (current ++ [ch]) (Some q)
      | None =>
          if is_quote ch then split_args_loop rest' current (Some ch)
          else if Ascii.eqb ch "," then flush (trim current) (split_args_loop rest' [] None)
          else split_args_loop rest' (current ++ [ch]) None
      end
  end.

Definition split_args (t : text) : list text := split_args_loop t [] None.

(** ** Numbers *)

Definition starts_with (t prefix : text) : bool :=
  (length prefix <=? length t)%nat && text_equal (take (length prefix) t) prefix.

Definition digit_of (ch : ascii) : Z :=
  let n := byte_of ch in
  if (48 <=? n) && (n <=? 57) then n - 48
  else if (97 <=? n) && (n <=? 102) then 10 + (n - 97)
  else if (65 <=? n) && (n <=? 70) then 10 + (n - 65)
  else -1.

Fixpoint parse_digits (original rest : text) (base value : Z) : res Z :=
  match rest with
  | [] => Ok value
  | ch :: rest' =>
      if Ascii.eqb ch "_" then parse_digits original rest' base value
      else
        let digit := digit_of ch in
        if (digit <? 0) || (base <=? digit) then Err (EBadNumber original)
        else
          prod ← i64 (value * base);
          value ← i64 (prod + digit);
          parse_digits original rest' base value
  end.

Definition parse_number (t : text) : res Z :=
  match trim t with
  | [] => Err EEmptyNumber
  | c :: s' =>
      let '(sign, rest) := if Ascii.eqb c "+" then (1, s')
                           else if Ascii.eqb c "-" then (-1, s') else (1, c :: s') in
      let '(base, digits) :=
        if starts_with rest (txt "0x") then (16, drop 2 rest)
        else if starts_with rest (txt "0b") then (2, drop 2 rest)
        else if starts_with rest (txt "0o") then (8, drop 2 rest)
        else (10, rest) in
      match digits with
      | [] => Err (EBadNumber t)
      | _ => value ← parse_digits t digits base 0; i64 (value * sign)
      end
  end.

(** [try { parse_number(text); return true; } catch (...) { return false; }] *)
Definition is_number (t : text) : res bool :=
  match parse_number t with
  | Ok _ => Ok true
  | Err _ => Ok false
  | Undefined => Undefined
  end.

(** [std::stoi]: white space, a sign, as many decimal digits as there are. *)
Fixpoint take_digits (t : text) (value : Z) (any : bool) : option Z :=
  match t with
  | c :: t' => if isdigit c then take_digits t' (value * 10 + (byte_of c - 48)) true
               else if any then Some value else None
  | [] => if any then Some value else None
  end.

Definition stoi (t : text) : res Z :=
  let t := trim_left t in
  let '(sign, t) := match t with
                    | c :: t' => if Ascii.eqb c "-" then (-1, t')
                                 else if Ascii.eqb c "+" then (1, t') else (1, t)
                    | [] => (1, [])
                    end in
  match take_digits t 0 false with
  | None => Err EStoi
  | Some v => let v := sign * v in
              if (-2147483648 <=? v) && (v <=? 2147483647) then Ok v else Err EStoi
  end.

Definition reg_index (name : text) : res Z :=
  match upper (trim name) with
  | c :: ((_ :: _) as rest) =>
      if negb (Ascii.eqb c "R") then Err (EBadRegister name)
      else
        idx ← stoi rest;
        if (idx <? 0) || (7 <? idx) then Err (ERegisterRange name) else Ok idx
  | _ => Err (EBadRegister name)
  end.
