(* ===== verification/Json.v ===== *)
(** * JSON values of the tool chain

    Namespace [json] of [tools/macroBuilder/main.cpp]: object files and images
    are JSON.  An object is a [std::map], a list of pairs ordered by key.  The
    representation of [double] and its conversions ([std::stod] and the stream
    output) are library code: the type [D] and two parameters. *)

From Stdlib Require Import Ascii.
From S2P Require Import Prelude CText ToolText.

Abbreviation dquote := ("034"%char).
Abbreviation backslash := ("092"%char).

(** ** Values *)

Inductive Value (D : Type) :=
  | VNull
  | VBool (b : bool)
  | VInt (z : Z)
  | VDouble (d : D)
  | VString (s : text)
  | VArray (l : list (Value D))
  | VObject (o : list (text * Value D)).
Arguments VNull {_}.
Arguments VBool {_} _.
Arguments VInt {_} _.
Arguments VDouble {_} _.
Arguments VString {_} _.
Arguments VArray {_} _.
Arguments VObject {_} _.

(** [std::string] order: by unsigned character, a prefix first. *)
Fixpoint text_lt (a b : text) : bool :=
  match a, b with
  | _, [] => false
  | [], _ :: _ => true
  | x :: a', y :: b' =>
      if byte_of x <? byte_of y then true
      else if byte_of y <? byte_of x then false
      else text_lt a' b'
  end.

Section maps.
Context {V : Type}.
Implicit Types o : list (text * V).

(** [obj[k] = v] *)
Fixpoint map_set (k : text) (v : V) o : list (text * V) :=
  match o with
  | [] => [(k, v)]
  | (k', v') :: o' =>
      if text_equal k k' then (k, v) :: o'
      else if text_lt k k' then (k, v) :: o
      else (k', v') :: map_set k v o'
  end.

(** [obj.find(k)] *)
Fixpoint map_find (k : text) o : option V :=
  match o with
  | [] => None
  | (k', v') :: o' => if text_equal k k' then Some v' else map_find k o'
  end.

(** [obj.emplace(k, v)]: an existing entry stays. *)
Definition map_emplace (k : text) (v : V) o : list (text * V) :=
  match map_find k o with Some _ => o | None => map_set k v o end.

(** [obj.at(k)] throws when absent. *)
Definition map_at (k : text) o : res V :=
  match map_find k o with Some v => Ok v | None => Err (EKey k) end.
End maps.

Section json.
Context {D : Type}.
Context (stod : text → res D) (show_double : D → text) (double_to_ll : D → Z).
Abbreviation value := (Value D).

(** ** Access: [std::get] throws on the wrong alternative *)

Definition as_object (v : value) : res (list (text * value)) :=
  match v with VObject o => Ok o | _ => Err EVariant end.
Definition as_array (v : value) : res (list value) :=
  match v with VArray l => Ok l | _ => Err EVariant end.
Definition as_string (v : value) : res text :=
  match v with VString s => Ok s | _ => Err EVariant end.
Definition as_int (v : value) : res Z :=
  match v with VInt z => Ok z | VDouble d => Ok (double_to_ll d) | _ => Err EVariant end.

(** ** Output *)

Definition hex_lower (n : Z) : ascii := default "0"%char (txt "0123456789abcdef" !! Z.to_nat n).

Definition escape_char (ch : ascii) : text :=
  if Ascii.eqb ch dquote then [backslash; dquote]
  else if Ascii.eqb ch backslash then [backslash; backslash]
  else if Ascii.eqb ch "008" then [backslash; "b"%char]
  else if Ascii.eqb ch "012" then [backslash; "f"%char]
  else if Ascii.eqb ch "010" then [backslash; "n"%char]
  else if Ascii.eqb ch "013" then [backslash; "r"%char]
  else if Ascii.eqb ch "009" then [backslash; "t"%char]
  else if byte_of ch <? 32 then
    backslash :: txt "u00" ++ [hex_lower (Z.land (Z.shiftr (byte_of ch) 4) 15); hex_lower (Z.land (byte_of ch) 15)]
  else [ch].

Definition json_escape (s : text) : text := concat (escape_char <$> s).

Definition indent (n : nat) : text := replicate n " "%char.

(** [std::to_string] of a [long long]. *)
Fixpoint decimal_digits (fuel : nat) (n : Z) : text :=
  match fuel with
  | O => []
  | S fuel' =>
      let d := ascii_of_nat (Z.to_nat (48 + n mod 10)) in
      if n <? 10 then [d] else decimal_digits fuel' (n / 10) ++ [d]
  end.

Definition to_string (z : Z) : text :=
  if z <? 0 then "-"%char :: decimal_digits 20 (- z) else decimal_digits 20 z.

Abbreviation nl := ("010"%char).

(** The items of an array or object, comma after all but the last. *)
Fixpoint commas (items : list text) : text :=
  match items with
  | [] => []
  | [x] => x ++ [nl]
  | x :: rest => x ++ [","%char; nl] ++ commas rest
  end.

Fixpoint dump (v : value) (depth step : nat) : text :=
  match v with
  | VNull => txt "null"
  | VBool b => if b then txt "true" else txt "false"
  | VInt z => to_string z
  | VDouble d => show_double d
  | VString s => [dquote] ++ json_escape s ++ [dquote]
  | VArray [] => txt "[]"
  | VArray l =>
      ["["%char; nl] ++
      commas ((fix go (l : list value) :=
                match l with [] => [] | x :: l' => (indent (depth + step) ++ dump x (depth + step) step) :: go l' end) l) ++
      indent depth ++ ["]"%char]
  | VObject [] => txt "{}"
  | VObject o =>
      ["{"%char; nl] ++
      commas ((fix go (o : list (text * value)) :=
                match o with
                | [] => []
                | (k, x) :: o' =>
                    (indent (depth + step) ++ [dquote] ++ json_escape k ++ [dquote; ":"%char; " "%char] ++
                     dump x (depth + step) step) :: go o'
                end) o) ++
      indent depth ++ ["}"%char]
  end.

(** ** Input: each function returns the unread text *)

Abbreviation parser A := (text → res (A * text)).

Definition skip_ws (t : text) : text := trim_left t.

Definition get : parser ascii := λ t, match t with c :: t' => Ok (c, t') | [] => Err EJson end.

Definition expect (ch : ascii) (t : text) : res text :=
  '(got, t) ← get t; if Ascii.eqb got ch then Ok t else Err EJson.

Fixpoint expect_literal (literal t : text) : res text :=
  match literal with
  | [] => Ok t
  | ch :: literal' => '(got, t) ← get t; if Ascii.eqb got ch then expect_literal literal' t else Err EJson
  end.

Definition hex_nibble (h : ascii) : res Z :=
  let n := byte_of h in
  if (48 <=? n) && (n <=? 57) then Ok (n - 48)
  else if (97 <=? n) && (n <=? 102) then Ok (10 + n - 97)
  else if (65 <=? n) && (n <=? 70) then Ok (10 + n - 65)
  else Err EJson.

(** The four digits after [\u], and the limit to seven-bit characters. *)
Definition parse_unicode : parser ascii := λ t,
  '(a, t) ← get t; x ← hex_nibble a;
  '(b, t) ← get t; y ← hex_nibble b;
  '(c, t) ← get t; z ← hex_nibble c;
  '(d, t) ← get t; w ← hex_nibble d;
  let code := 16 * (16 * (16 * x + y) + z) + w in
  if code <=? 127 then Ok (ascii_of_nat (Z.to_nat code), t) else Err EJson.

Definition parse_escape : parser ascii := λ t,
  '(esc, t) ← get t;
  if Ascii.eqb esc dquote then Ok (dquote, t)
  else if Ascii.eqb esc backslash then Ok (backslash, t)
  else if Ascii.eqb esc "/" then Ok ("/"%char, t)
  else if Ascii.eqb esc "b" then Ok ("008"%char, t)
  else if Ascii.eqb esc "f" then Ok ("012"%char, t)
  else if Ascii.eqb esc "n" then Ok ("010"%char, t)
  else if Ascii.eqb esc "r" then Ok ("013"%char, t)
  else if Ascii.eqb esc "t" then Ok ("009"%char, t)
  else if Ascii.eqb esc "u" then parse_unicode t
  else Err EJson.

Fixpoint string_loop (fuel : nat) (out : text) (t : text) : res (text * text) :=
  match fuel with
  | O => Err EJson
  | S fuel' =>
      '(ch, t) ← get t;
      if Ascii.eqb ch dquote then Ok (out, t)
      else if Ascii.eqb ch backslash then '(c, t) ← parse_escape t; string_loop fuel' (out ++ [c]) t
      else string_loop fuel' (out ++ [ch]) t
  end.

(** The fuel bounds the characters read: the text itself is enough. *)
Definition parse_string : parser text := λ t,
  t ← expect dquote t; string_loop (S (length t)) [] t.

Definition peek (t : text) : ascii := match t with c :: _ => c | [] => "000"%char end.

Fixpoint span_digits (t : text) : text * text :=
  match t with
  | c :: t' => if isdigit c then let '(ds, r) := span_digits t' in (c :: ds, r) else ([], t)
  | [] => ([], [])
  end.

Definition take_if (p : ascii → bool) (t : text) : text * text :=
  match t with c :: t' => if p c then ([c], t') else ([], t) | [] => ([], []) end.

Definition is_sign (c : ascii) : bool := Ascii.eqb c "-" || Ascii.eqb c "+".

(** [std::stoll]: like [stoi], at 64 bits. *)
Definition stoll (t : text) : res Z :=
  let t := trim_left t in
  let '(sign, t) := match t with
                    | c :: t' => if Ascii.eqb c "-" then (-1, t')
                                 else if Ascii.eqb c "+" then (1, t') else (1, t)
                    | [] => (1, [])
                    end in
  match take_digits t 0 false with
  | None => Err EStoi
  | Some v => let v := sign * v in
              if (-9223372036854775808 <=? v) && (v <=? 9223372036854775807) then Ok v else Err EStoi
  end.

Definition parse_json_number : parser value := λ t,
  let '(sign, t) := take_if is_sign t in
  let '(whole, t) := span_digits t in
  let '(dot, t) := take_if (Ascii.eqb ".") t in
  let '(frac, t) := match dot with [] => ([], t) | _ => span_digits t end in
  let '(e, t) := take_if (λ c, Ascii.eqb c "e" || Ascii.eqb c "E") t in
  let '(esign, t) := match e with [] => ([], t) | _ => take_if is_sign t end in
  let '(edigits, t) := match e with [] => ([], t) | _ => span_digits t end in
  let slice := sign ++ whole ++ dot ++ frac ++ e ++ esign ++ edigits in
  match slice with
  | [] => Err EJson
  | _ =>
      match dot ++ e with
      | [] => z ← stoll slice; Ok (VInt z, t)
      | _ => d ← stod slice; Ok (VDouble d, t)
      end
  end.

(** The loops of [parse_array] and [parse_object]; [pv] is [parse_value]. *)
Fixpoint array_loop (fuel : nat) (pv : parser value) (arr : list value) (t : text) : res (value * text) :=
  match fuel with
  | O => Err EJson
  | S fuel' =>
      '(v, t) ← pv t;
      '(ch, t) ← get (skip_ws t);
      if Ascii.eqb ch "]" then Ok (VArray (arr ++ [v]), t)
      else if negb (Ascii.eqb ch ",") then Err EJson
      else array_loop fuel' pv (arr ++ [v]) (skip_ws t)
  end.

Fixpoint object_loop (fuel : nat) (pv : parser value) (obj : list (text * value)) (t : text)
    : res (value * text) :=
  match fuel with
  | O => Err EJson
  | S fuel' =>
      '(key, t) ← parse_string (skip_ws t);
      t ← expect ":" (skip_ws t);
      '(v, t) ← pv (skip_ws t);
      '(ch, t) ← get (skip_ws t);
      if Ascii.eqb ch "}" then Ok (VObject (map_emplace key v obj), t)
      else if negb (Ascii.eqb ch ",") then Err EJson
      else object_loop fuel' pv (map_emplace key v obj) (skip_ws t)
  end.

Fixpoint parse_value (fuel : nat) (t : text) : res (value * text) :=
  match fuel with
  | O => Err EJson
  | S fuel' =>
      let t := skip_ws t in
      let ch := peek t in
      if Ascii.eqb ch "{" then
        t ← expect "{" t;
        let t := skip_ws t in
        if Ascii.eqb (peek t) "}" then Ok (VObject [], tail t)
        else object_loop fuel' (parse_value fuel') [] t
      else if Ascii.eqb ch "[" then
        t ← expect "[" t;
        let t := skip_ws t in
        if Ascii.eqb (peek t) "]" then Ok (VArray [], tail t)
        else array_loop fuel' (parse_value fuel') [] t
      else if Ascii.eqb ch dquote then '(s, t) ← parse_string t; Ok (VString s, t)
      else if Ascii.eqb ch "t" then t ← expect_literal (txt "true") t; Ok (VBool true, t)
      else if Ascii.eqb ch "f" then t ← expect_literal (txt "false") t; Ok (VBool false, t)
      else if Ascii.eqb ch "n" then t ← expect_literal (txt "null") t; Ok (VNull, t)
      else parse_json_number t
  end.

(** Every level of nesting and every item reads a character, so the length of
    the text bounds both. *)
Definition parse_text (t : text) : res value :=
  '(v, rest) ← parse_value (S (length t)) (skip_ws t);
  match skip_ws rest with [] => Ok v | _ => Err EJson end.
End json.
