(* ===== verification/JsonSpec.v ===== *)
(** * Numbers and JSON read back what was written

    [parse_number] inverts the printed form of a number in the four bases, and
    the JSON parser inverts [dump].  The last part shows that the length of the
    text bounds the parser's recursion, so that it never fails for lack of fuel. *)

From Stdlib Require Import Ascii.
From S2P Require Import Prelude CText ToolText Json.

(** ** Characters *)

Lemma byte_of_ascii n : (n < 256)%nat → byte_of (ascii_of_nat n) = Z.of_nat n.
Proof. intros. unfold byte_of. by rewrite nat_ascii_embedding. Qed.

Lemma ascii_eqb_bytes a b : Ascii.eqb a b = (byte_of a =? byte_of b).
Proof.
  destruct (Ascii.eqb a b) eqn:E.
  - apply Ascii.eqb_eq in E as ->. by rewrite Z.eqb_refl.
  - symmetry. apply Z.eqb_neq. apply Ascii.eqb_neq in E. unfold byte_of. intros Hn. apply E.
    rewrite <- (ascii_nat_embedding a), <- (ascii_nat_embedding b). f_equal. lia.
Qed.

(** The digit character of a value below 16. *)
Definition digit_char (d : Z) : ascii := ascii_of_nat (Z.to_nat (if d <? 10 then 48 + d else 87 + d)).

Lemma digit_char_byte d : 0 <= d < 16 → byte_of (digit_char d) = if d <? 10 then 48 + d else 87 + d.
Proof. intros. unfold digit_char. destruct (d <? 10) eqn:E; zbool; rewrite byte_of_ascii by lia; lia. Qed.

Lemma digit_of_char d : 0 <= d < 16 → digit_of (digit_char d) = d ∧ isspace (digit_char d) = false ∧
  Ascii.eqb (digit_char d) "_" = false ∧ Ascii.eqb (digit_char d) "+" = false ∧
  Ascii.eqb (digit_char d) "-" = false ∧ Ascii.eqb (digit_char d) "x" = false ∧
  Ascii.eqb (digit_char d) "o" = false.
Proof.
  intros Hd. rewrite !ascii_eqb_bytes. unfold digit_of, isspace. rewrite digit_char_byte by done.
  change (byte_of "_") with 95. change (byte_of "+") with 43. change (byte_of "-") with 45.
  change (byte_of "x") with 120. change (byte_of "o") with 111.
  destruct (d <? 10) eqn:E; zbool; split_and!; repeat case_bool; zbool; try lia; try done.
Qed.

(** ** Printing in a base *)

Fixpoint show_digits (base : Z) (fuel : nat) (n : Z) : text :=
  match fuel with
  | O => []
  | S fuel' => if n <? base then [digit_char n] else show_digits base fuel' (n / base) ++ [digit_char (n mod base)]
  end.

Lemma show_digits_10 fuel n : 0 <= n → show_digits 10 fuel n = decimal_digits fuel n.
Proof.
  revert n. induction fuel as [|fuel IH]; intros n Hn; [done|]. cbn [show_digits decimal_digits].
  destruct (n <? 10) eqn:E; zbool.
  - unfold digit_char. by rewrite Z.mod_small, (proj2 (Z.ltb_lt n 10)) by lia.
  - rewrite IH by (apply Z.div_pos; lia). unfold digit_char.
    pose proof (Z.mod_pos_bound n 10). by rewrite (proj2 (Z.ltb_lt (n mod 10) 10)) by lia.
Qed.

Lemma show_digits_chars base fuel n :
  2 <= base <= 16 → 0 <= n → Forall (λ c, ∃ d, 0 <= d < base ∧ c = digit_char d) (show_digits base fuel n).
Proof.
  intros Hb. revert n. induction fuel as [|fuel IH]; intros n Hn; cbn [show_digits]; [done|].
  destruct (n <? base) eqn:E; zbool.
  - repeat constructor. by exists n.
  - apply Forall_app. split; [apply IH, Z.div_pos; lia|]. repeat constructor.
    exists (n mod base). split; [apply Z.mod_pos_bound; lia|done].
Qed.

Lemma show_digits_nonempty base fuel n : show_digits base (S fuel) n ≠ [].
Proof. cbn. destruct (n <? base); [done|]. by destruct (show_digits base fuel (n / base)). Qed.

Lemma i64_small z : -9223372036854775808 <= z <= 9223372036854775807 → i64 z = Ok z.
Proof. intros. unfold i64. by rewrite (proj2 (Z.leb_le _ _)), (proj2 (Z.leb_le _ _)) by lia. Qed.

Lemma parse_shown orig base fuel n rest :
  2 <= base <= 16 → 0 <= n <= 9223372036854775807 → n < base ^ Z.of_nat fuel →
  parse_digits orig (show_digits base fuel n ++ rest) base 0 = parse_digits orig rest base n.
Proof.
  intros Hb. revert n rest. induction fuel as [|fuel IH]; intros n rest Hn Hf.
  { cbn in Hf. assert (n = 0) as -> by lia. done. }
  assert (∀ d v, 0 <= d < base → 0 <= v → v * base + d <= 9223372036854775807 →
    parse_digits orig (digit_char d :: rest) base v = parse_digits orig rest base (v * base + d)) as Hstep.
  { intros d v Hd Hv Hle. cbn [parse_digits]. destruct (digit_of_char d) as (-> & _ & -> & _); [lia|].
    rewrite (proj2 (Z.ltb_ge d 0)), (proj2 (Z.leb_gt base d)) by lia. cbn [orb].
    rewrite i64_small by nia. cbn [mbind res_bind]. rewrite i64_small by lia. done. }
  cbn [show_digits]. destruct (n <? base) eqn:E; zbool.
  - cbn [app]. rewrite Hstep by lia. f_equal.
  - assert (0 <= n / base) by (apply Z.div_pos; lia).
    assert (n / base < base ^ Z.of_nat fuel).
    { apply Z.div_lt_upper_bound; [lia|]. rewrite Nat2Z.inj_succ, Z.pow_succ_r in Hf; lia. }
    pose proof (Z.div_mod n base ltac:(lia)). pose proof (Z.mod_pos_bound n base ltac:(lia)).
    rewrite <- app_assoc, IH by nia. cbn [app]. rewrite Hstep by lia. f_equal. lia.
Qed.

(** ** [parse_number] *)

Definition base_prefix (base : Z) : text :=
  if base =? 16 then txt "0x" else if base =? 2 then txt "0b" else if base =? 8 then txt "0o" else [].

Definition show_number (base n : Z) : text :=
  (if n <? 0 then ["-"%char] else []) ++ base_prefix base ++ show_digits base 64 (Z.abs n).

Lemma trim_id t :
  match t with c :: _ => isspace c = false | [] => True end →
  match last t with Some c => isspace c = false | None => True end → trim t = t.
Proof.
  intros H1 H2. unfold trim. assert (trim_left t = t) as -> by (destruct t as [|c t]; [done|]; cbn; by rewrite H1).
  unfold trim_right. destruct (last t) as [c|] eqn:El; [|by apply last_None in El as ->].
  apply last_Some in El as [t' ->]. rewrite rev_app_distr. cbn. rewrite H2. cbn. by rewrite rev_involutive.
Qed.

Lemma digits_not_prefixed l q :
  Forall (λ c, ∃ d, 0 <= d < 10 ∧ c = digit_char d) l →
  q ∈ [txt "0x"; txt "0b"; txt "0o"] → starts_with l q = false.
Proof.
  intros Hl Hq. unfold starts_with. apply andb_false_iff. right. apply text_equal_ne. intros E.
  assert (∃ c1, q = ["0"%char; c1] ∧ ∀ d, 0 <= d < 10 → c1 ≠ digit_char d) as (c1 & -> & Hc1).
  { repeat (apply elem_of_cons in Hq as [->|Hq]; [eexists; split; [reflexivity|]; intros d Hd Ec;
      apply (f_equal byte_of) in Ec; rewrite digit_char_byte in Ec by lia;
      rewrite (proj2 (Z.ltb_lt d 10)) in Ec by lia; vm_compute (byte_of _) in Ec; lia|]).
    by apply elem_of_nil in Hq. }
  cbn [length] in E. destruct l as [|a [|b l]]; try done. injection E as _ Eb.
  inversion Hl as [|? ? _ Hl']; subst. inversion Hl' as [|? ? (d & Hd & ->) _]; subst. by apply (Hc1 d Hd).
Qed.

Lemma shown_prefix base n :
  base ∈ [2; 8; 10; 16] → 0 <= n →
  let rest := base_prefix base ++ show_digits base 64 n in
  (if starts_with rest (txt "0x") then (16, drop 2 rest)
   else if starts_with rest (txt "0b") then (2, drop 2 rest)
   else if starts_with rest (txt "0o") then (8, drop 2 rest)
   else (10, rest)) = (base, show_digits base 64 n).
Proof.
  intros Hb Hn. repeat (apply elem_of_cons in Hb as [->|Hb]; [|]); [done|done| |done|by apply elem_of_nil in Hb].
  cbn [base_prefix Z.eqb Pos.eqb app]. pose proof (show_digits_chars 10 64 n ltac:(lia) Hn) as Hc.
  generalize dependent (show_digits 10 64 n). intros l Hc.
  assert (∀ q, q ∈ [txt "0x"; txt "0b"; txt "0o"] → starts_with l q = false) as Hq by (intros; by apply digits_not_prefixed).
  rewrite (Hq (txt "0x")), (Hq (txt "0b")), (Hq (txt "0o")) by (rewrite !elem_of_cons; auto). done.
Qed.

Lemma last_shown base fuel n :
  2 <= base <= 16 → 0 <= n → ∃ d, 0 <= d < base ∧ last (show_digits base (S fuel) n) = Some (digit_char d).
Proof.
  intros Hb Hn. cbn [show_digits]. destruct (n <? base) eqn:E; zbool; [by exists n|].
  rewrite last_snoc. exists (n mod base). split; [apply Z.mod_pos_bound; lia|done].
Qed.

Lemma head_shown base fuel n :
  2 <= base <= 16 → 0 <= n →
  ∃ d r, 0 <= d < base ∧ show_digits base (S fuel) n = digit_char d :: r.
Proof.
  intros Hb Hn. pose proof (show_digits_chars base (S fuel) n Hb Hn) as Hc.
  pose proof (show_digits_nonempty base fuel n) as Hne.
  destruct (show_digits base (S fuel) n) as [|c r]; [done|]. inversion Hc as [|? ? (d & Hd & ->) _]; subst.
  by exists d, r.
Qed.

Lemma trim_shown base n :
  base ∈ [2; 8; 10; 16] → trim (show_number base n) = show_number base n.
Proof.
  intros Hb. assert (2 <= base <= 16) as Hr.
  { repeat (apply elem_of_cons in Hb as [->|Hb]; [lia|]). by apply elem_of_nil in Hb. }
  apply trim_id.
  - unfold show_number. destruct (n <? 0); [done|].
    destruct (head_shown base 63 (Z.abs n) Hr ltac:(lia)) as (d & r & Hd & ->).
    unfold base_prefix. repeat case_bool; try done. cbn [app]. apply digit_of_char. lia.
  - unfold show_number. rewrite app_assoc, last_app.
    destruct (last_shown base 63 (Z.abs n) Hr ltac:(lia)) as (d & Hd & ->). apply digit_of_char. lia.
Qed.

Lemma head_prefixed base d r :
  0 <= d < 16 → ∃ c s', base_prefix base ++ digit_char d :: r = c :: s' ∧ Ascii.eqb c "+" = false ∧ Ascii.eqb c "-" = false.
Proof.
  intros Hd. destruct (digit_of_char d Hd) as (_ & _ & _ & Hp & Hm & _). unfold base_prefix.
  destruct (base =? 16); [by eexists _, _|]. destruct (base =? 2); [by eexists _, _|].
  destruct (base =? 8); by eexists _, _.
Qed.

(** Numbers.  [parse_number] reads back the printed form, in base 2, 8, 10
    or 16 and with a sign, of every value of absolute value below 2^63; the
    smallest [long long], whose magnitude is accumulated before the sign is
    applied, overflows instead; an empty text and a bare prefix are refused. *)
Lemma parse_number_roundtrip :
  (∀ base n, base ∈ [2; 8; 10; 16] → -9223372036854775807 <= n <= 9223372036854775807 →
     parse_number (show_number base n) = Ok n) ∧
  (∀ base, base ∈ [2; 8; 10; 16] → parse_number (show_number base (-9223372036854775808)) = Undefined) ∧
  parse_number [] = Err EEmptyNumber ∧ parse_number (txt "-0x") = Err (EBadNumber (txt "-0x")).
Proof.
  split; [|split; [|done]].
  - intros base n Hb Hn.
    assert (2 <= base <= 16 ∧ 9223372036854775808 <= base ^ 64) as [Hr Hp].
    { repeat (apply elem_of_cons in Hb as [->|Hb]; [by vm_compute|]). by apply elem_of_nil in Hb. }
    unfold parse_number. rewrite trim_shown by done. unfold show_number.
    destruct (head_shown base 63 (Z.abs n) Hr ltac:(lia)) as (d0 & r0 & Hd0 & E0).
    pose proof (shown_prefix base (Z.abs n) Hb ltac:(lia)) as Hpre. cbn zeta in Hpre.
    assert (∀ orig sg, sg * Z.abs n = n →
      (value ← parse_digits orig (show_digits base 64 (Z.abs n)) base 0; i64 (value * sg)) = Ok n) as Hfin.
    { intros orig sg Hsg. pose proof (parse_shown orig base 64 (Z.abs n) [] Hr ltac:(lia) ltac:(cbn; lia)) as Hparse.
      rewrite app_nil_r in Hparse. rewrite Hparse. cbn [parse_digits mbind res_bind].
      rewrite Z.mul_comm, Hsg. apply i64_small. lia. }
    revert E0 Hpre Hfin. generalize (show_digits base 64 (Z.abs n)). intros l -> Hpre Hfin.
    destruct (n <? 0) eqn:En; zbool.
    + cbn [app]. change (Ascii.eqb "-" "+") with false. change (Ascii.eqb "-" "-") with true. cbn iota.
      rewrite Hpre. apply Hfin. lia.
    + cbn [app] in *. destruct (head_prefixed base d0 r0 ltac:(lia)) as (c & s' & Ec & Ep & Em).
      rewrite Ec, Ep, Em. rewrite <- Ec. rewrite Hpre. apply Hfin. lia.
  - intros base Hb. repeat (apply elem_of_cons in Hb as [->|Hb]; [vm_compute; reflexivity|]). by apply elem_of_nil in Hb.
Qed.

(** ** White space and strings *)

Lemma skip_ws_id c t : isspace c = false → skip_ws (c :: t) = c :: t.
Proof. intros H. unfold skip_ws. cbn. by rewrite H. Qed.

Lemma skip_ws_indent n t : skip_ws (indent n ++ t) = skip_ws t.
Proof. induction n as [|n IH]; [done|]. exact IH. Qed.

Lemma skip_ws_nl t : skip_ws ("010"%char :: t) = skip_ws t.
Proof. done. Qed.

Lemma skip_ws_idem t : skip_ws (skip_ws t) = skip_ws t.
Proof.
  unfold skip_ws. induction t as [|c t IH]; [done|]. cbn. destruct (isspace c) eqn:E; [done|]. cbn. by rewrite E.
Qed.

(** Every escape sequence is read back as the character it stands for. *)
Lemma escape_step ch fuel out t :
  string_loop (S fuel) out (escape_char ch ++ t) = string_loop fuel (out ++ [ch]) t.
Proof. destruct ch as [[] [] [] [] [] [] [] []]; reflexivity. Qed.

Lemma string_loop_escaped s fuel out rest :
  (length s < fuel)%nat → string_loop fuel out (json_escape s ++ dquote :: rest) = Ok (out ++ s, rest).
Proof.
  revert fuel out. induction s as [|c s IH]; intros [|fuel] out Hf; cbn [length] in Hf; [lia| |lia|].
  - cbn. by rewrite app_nil_r.
  - unfold json_escape. cbn [fmap list_fmap concat]. rewrite <- app_assoc, escape_step.
    fold (json_escape s). rewrite IH by lia. by rewrite <- app_assoc.
Qed.

Lemma json_escape_length s : (length s <= length (json_escape s))%nat.
Proof.
  induction s as [|c s IH]; [done|]. unfold json_escape. cbn [fmap list_fmap concat length].
  rewrite length_app. fold (json_escape s).
  assert (1 <= length (escape_char c))%nat; [|lia].
  unfold escape_char. repeat case_bool; cbn; lia.
Qed.

Lemma parse_string_escaped s rest :
  parse_string (dquote :: json_escape s ++ dquote :: rest) = Ok (s, rest).
Proof.
  unfold parse_string, expect. cbn [get mbind res_bind]. change (Ascii.eqb dquote dquote) with true. cbn iota.
  cbn [mbind res_bind]. rewrite string_loop_escaped; [done|]. rewrite length_app. cbn [length].
  pose proof (json_escape_length s). lia.
Qed.

(** ** Integers *)

Lemma isdigit_char d : 0 <= d < 10 → isdigit (digit_char d) = true ∧ byte_of (digit_char d) - 48 = d.
Proof.
  intros Hd. unfold isdigit. rewrite digit_char_byte by lia. rewrite (proj2 (Z.ltb_lt d 10)) by lia.
  rewrite (proj2 (Z.leb_le _ _)), (proj2 (Z.leb_le _ _)) by lia. split; [done|lia].
Qed.

Lemma decimal_isdigit fuel n : 0 <= n → Forall (λ c, isdigit c = true) (decimal_digits fuel n).
Proof.
  intros Hn. rewrite <- show_digits_10 by done.
  eapply Forall_impl; [apply (show_digits_chars 10); [lia|done]|]. intros c (d & Hd & ->). by apply isdigit_char.
Qed.

(** Text after a number that cannot be taken for a part of it. *)
Definition delim (rest : text) : Prop :=
  match rest with
  | [] => True
  | c :: _ => isdigit c = false ∧ Ascii.eqb "." c = false ∧ Ascii.eqb c "e" = false ∧ Ascii.eqb c "E" = false
  end.

Lemma span_digits_app ds rest :
  Forall (λ c, isdigit c = true) ds → delim rest → span_digits (ds ++ rest) = (ds, rest).
Proof.
  intros Hd Hr. induction Hd as [|c ds Hc _ IH]; cbn [app span_digits].
  - destruct rest as [|c rest]; [done|]. cbn. destruct Hr as (-> & _). done.
  - by rewrite Hc, IH.
Qed.

Lemma take_decimal fuel n rest :
  0 <= n < 10 ^ Z.of_nat (S fuel) →
  take_digits (decimal_digits (S fuel) n ++ rest) 0 false = take_digits rest n true.
Proof.
  revert n rest. induction fuel as [|fuel IH]; intros n rest Hn; rewrite <- show_digits_10 by lia.
  - cbn [show_digits]. change (10 ^ Z.of_nat 1) with 10 in Hn. rewrite (proj2 (Z.ltb_lt n 10)) by lia.
    cbn [app take_digits]. destruct (isdigit_char n) as [-> ->]; [lia|]. f_equal.
  - remember (S fuel) as f eqn:Ef. cbn [show_digits]. destruct (n <? 10) eqn:E; zbool.
    + cbn [app take_digits]. destruct (isdigit_char n) as [-> ->]; [lia|]. f_equal.
    + assert (0 <= n / 10 < 10 ^ Z.of_nat f).
      { split; [apply Z.div_pos; lia|]. apply Z.div_lt_upper_bound; [lia|].
        rewrite Nat2Z.inj_succ, Z.pow_succ_r in Hn; lia. }
      rewrite show_digits_10, <- app_assoc, IH by lia.
      pose proof (Z.mod_pos_bound n 10 ltac:(lia)). pose proof (Z.div_mod n 10 ltac:(lia)).
      cbn [app take_digits]. destruct (isdigit_char (n mod 10)) as [-> ->]; [lia|]. f_equal. lia.
Qed.

Definition int_ok (z : Z) : Prop := -9223372036854775808 <= z <= 9223372036854775807.

Lemma decimal_head fuel n : 0 <= n → ∃ d r, 0 <= d < 10 ∧ decimal_digits (S fuel) n = digit_char d :: r.
Proof. intros Hn. rewrite <- show_digits_10 by done. apply head_shown; [lia|done]. Qed.

Lemma digit_char_shape d :
  0 <= d < 10 → isspace (digit_char d) = false ∧ is_sign (digit_char d) = false ∧
  Ascii.eqb (digit_char d) "-" = false ∧ Ascii.eqb (digit_char d) "+" = false ∧
  (∀ c, c ∈ ["{"; "["; dquote; "t"; "f"; "n"; "]"; "}"]%char → Ascii.eqb (digit_char d) c = false).
Proof.
  intros Hd. destruct (digit_of_char d) as (_ & ? & _ & Hp & Hm & _); [lia|]. unfold is_sign. rewrite Hp, Hm.
  split_and!; try done. intros c Hc. rewrite ascii_eqb_bytes, digit_char_byte by lia.
  rewrite (proj2 (Z.ltb_lt d 10)) by lia. apply Z.eqb_neq.
  repeat (apply elem_of_cons in Hc as [->|Hc]; [vm_compute (byte_of _); lia|]). by apply elem_of_nil in Hc.
Qed.

Lemma stoll_to_string z : int_ok z → stoll (to_string z) = Ok z.
Proof.
  intros Hz. unfold int_ok in Hz. unfold stoll, to_string.
  assert (∀ n, 0 <= n <= 9223372036854775808 → take_digits (decimal_digits 20 n) 0 false = Some n) as Ht.
  { intros n Hn. pose proof (take_decimal 19 n [] ltac:(cbn; lia)) as Ht. by rewrite app_nil_r in Ht. }
  destruct (z <? 0) eqn:E; zbool.
  - cbn [trim_left]. change (isspace "-") with false. cbn iota. change (Ascii.eqb "-" "-") with true. cbn iota.
    rewrite Ht by lia. replace (-1 * - z) with z by lia.
    by rewrite (proj2 (Z.leb_le _ _)), (proj2 (Z.leb_le _ _)) by lia.
  - specialize (Ht z ltac:(lia)). destruct (decimal_head 19 z) as (d & r & Hd & Ed); [lia|].
    rewrite Ed in *. destruct (digit_char_shape d Hd) as (Hs & _ & Hm & Hp & _).
    cbn [trim_left]. rewrite Hs, Hm, Hp, Ht. rewrite Z.mul_1_l.
    by rewrite (proj2 (Z.leb_le _ _)), (proj2 (Z.leb_le _ _)) by lia.
Qed.

Section roundtrip.
Context {D : Type} (stod : text → res D) (show_double : D → text).
Abbreviation value := (Value D).
Implicit Types v : value.

Lemma parse_int z rest :
  int_ok z → delim rest → parse_json_number stod (to_string z ++ rest) = Ok (VInt z, rest).
Proof.
  intros Hz Hr.
  assert (∃ sign ds, to_string z = sign ++ ds ∧ Forall (λ c, isdigit c = true) ds ∧
    ∀ t, take_if is_sign (to_string z ++ t) = (sign, ds ++ t)) as (sign & ds & Es & Hds & Ht).
  { unfold to_string. destruct (z <? 0) eqn:E; zbool.
    - exists ["-"%char], (decimal_digits 20 (- z)). split_and!; [done|apply decimal_isdigit; lia|done].
    - exists [], (decimal_digits 20 z). split_and!; [done|apply decimal_isdigit; lia|].
      intros t. destruct (decimal_head 19 z) as (d & r & Hd & ->); [lia|].
      destruct (digit_char_shape d Hd) as (_ & Hsg & _). cbn [app take_if]. by rewrite Hsg. }
  unfold parse_json_number. rewrite Ht, span_digits_app by done.
  assert (take_if (Ascii.eqb ".") rest = ([], rest) ∧
    take_if (λ c, Ascii.eqb c "e" || Ascii.eqb c "E") rest = ([], rest)) as [E1 E2].
  { destruct rest as [|c rest]; [done|]. destruct Hr as (_ & H1 & H2 & H3).
    unfold take_if. by rewrite H1, H2, H3. }
  rewrite E1, E2. cbn [app]. rewrite !app_nil_r, <- Es. rewrite stoll_to_string by done.
  destruct (to_string z) eqn:Ez; [|done]. exfalso. pose proof (stoll_to_string z Hz) as H. by rewrite Ez in H.
Qed.

(** ** Well-formed values: integers in range, keys increasing, no doubles *)

Fixpoint keys_sorted (ks : list text) : Prop :=
  match ks with
  | [] => True
  | k :: ks' => Forall (λ k', text_lt k k' = true) ks' ∧ keys_sorted ks'
  end.

Fixpoint json_ok v : Prop :=
  match v with
  | VNull | VBool _ | VString _ => True
  | VInt z => int_ok z
  | VDouble _ => False
  | VArray l => (fix go (l : list value) := match l with [] => True | x :: l' => json_ok x ∧ go l' end) l
  | VObject o =>
      keys_sorted o.*1 ∧
      (fix go (o : list (text * value)) := match o with [] => True | (_, x) :: o' => json_ok x ∧ go o' end) o
  end.

Fixpoint vsize v : nat :=
  match v with
  | VArray l => S ((fix go (l : list value) := match l with [] => O | x :: l' => S (vsize x + go l') end) l)
  | VObject o => S ((fix go (o : list (text * value)) := match o with [] => O | (_, x) :: o' => S (vsize x + go o') end) o)
  | _ => 1
  end.

Definition sizes (l : list value) : nat := fold_right (λ x n, S (vsize x + n)) O l.

Lemma vsize_array l : vsize (VArray l) = S (sizes l).
Proof. reflexivity. Qed.

Lemma vsize_object o : vsize (VObject o) = S (sizes o.*2).
Proof. cbn. f_equal. induction o as [|[k x] o IH]; [done|]. cbn. by rewrite IH. Qed.

Lemma json_ok_array l : json_ok (VArray l) ↔ Forall json_ok l.
Proof.
  cbn. induction l as [|x l IH]; [by split|]. rewrite Forall_cons, <- IH. done.
Qed.

Lemma json_ok_object o : json_ok (VObject o) ↔ keys_sorted o.*1 ∧ Forall json_ok o.*2.
Proof.
  cbn. apply and_iff_compat_l. induction o as [|[k x] o IH]; [by split|]. cbn. rewrite Forall_cons, <- IH. done.
Qed.

Definition array_item (d s : nat) (x : value) : text := indent (d + s) ++ dump show_double x (d + s) s.
Definition object_item (d s : nat) (kx : text * value) : text :=
  indent (d + s) ++ [dquote] ++ json_escape kx.1 ++ [dquote; ":"%char; " "%char] ++ dump show_double kx.2 (d + s) s.

Lemma dump_array x l d s :
  dump show_double (VArray (x :: l)) d s =
  ["["%char; "010"%char] ++ commas (array_item d s <$> x :: l) ++ indent d ++ ["]"%char].
Proof. reflexivity. Qed.

Lemma dump_object k x o d s :
  dump show_double (VObject ((k, x) :: o)) d s =
  ["{"%char; "010"%char] ++ commas (object_item d s <$> (k, x) :: o) ++ indent d ++ ["}"%char].
Proof.
  assert ((fix go (o : list (text * value)) :=
             match o with
             | [] => []
             | (k, x) :: o' =>
                 (indent (d + s) ++ [dquote] ++ json_escape k ++ [dquote; ":"%char; " "%char] ++
                  dump show_double x (d + s) s) :: go o'
             end) o = object_item d s <$> o) as E.
  { induction o as [|[k' y] o IH]; [done|]. cbn [fmap list_fmap]. by rewrite IH. }
  cbn [dump]. by rewrite E.
Qed.

Lemma dump_head v d s :
  json_ok v → ∃ c r, dump show_double v d s = c :: r ∧ isspace c = false ∧ Ascii.eqb c "]" = false.
Proof.
  intros Hv. destruct v as [|[]|z|x|t|[|x l]|[|[k x] o]]; 
    [by eexists _, _|by eexists _, _|by eexists _, _| |destruct Hv|by eexists _, _|by eexists _, _|by eexists _, _|by eexists _, _|by eexists _, _].
  - cbn [dump]. unfold to_string. destruct (z <? 0) eqn:E; [by eexists _, _|]. zbool.
    destruct (decimal_head 19 z) as (e & r & He & ->); [lia|].
    destruct (digit_char_shape e He) as (? & _ & _ & _ & Hc). eexists _, _. split; [reflexivity|].
    split; [done|]. apply Hc. rewrite !elem_of_cons. naive_solver.
Qed.

(** ** Keys *)

Lemma text_lt_trans a b c : text_lt a b = true → text_lt b c = true → text_lt a c = true.
Proof using.
  revert b c. induction a as [|x a IH]; intros [|y b] [|z c]; cbn; try done.
  repeat case_bool; zbool; try done; try lia. apply IH.
Qed.

Lemma text_lt_total a b : text_equal a b = false → text_lt a b = false → text_lt b a = true.
Proof using.
  revert b. induction a as [|x a IH]; intros [|y b]; cbn; try done.
  rewrite ascii_eqb_bytes. destruct (byte_of x =? byte_of y) eqn:E; repeat case_bool; zbool; try done; try lia. apply IH.
Qed.

Lemma text_lt_asym a b : text_lt a b = true → text_lt b a = false ∧ text_equal b a = false.
Proof using.
  revert b. induction a as [|x a IH]; intros [|y b]; cbn; try done.
  rewrite ascii_eqb_bytes, (Z.eqb_sym (byte_of y)).
  destruct (byte_of x <? byte_of y) eqn:E1, (byte_of y <? byte_of x) eqn:E2, (byte_of x =? byte_of y) eqn:E3;
    zbool; try lia; try done. apply IH.
Qed.

(** A key above all others goes to the end. *)
Lemma map_set_last {V} (o : list (text * V)) k (w : V) :
  Forall (λ k', text_lt k' k = true) o.*1 → map_find k o = None ∧ map_set k w o = o ++ [(k, w)].
Proof.
  induction o as [|[k' v'] o IH]; [done|]. cbn. intros [H1 H2]%Forall_cons.
  destruct (text_lt_asym _ _ H1) as [E1 E2]. cbn. rewrite E1, E2. destruct (IH H2) as [-> ->]. done.
Qed.

Lemma map_emplace_last {V} (o : list (text * V)) k (w : V) :
  Forall (λ k', text_lt k' k = true) o.*1 → map_emplace k w o = o ++ [(k, w)].
Proof. intros Ho. unfold map_emplace. by destruct (map_set_last o k w Ho) as [-> ->]. Qed.

Lemma keys_sorted_app ks k ks' :
  keys_sorted (ks ++ k :: ks') → Forall (λ k', text_lt k' k = true) ks.
Proof.
  induction ks as [|j ks IH]; [done|]. cbn. intros [Hj Hs]. constructor; [|by apply IH].
  rewrite Forall_app, Forall_cons in Hj. naive_solver.
Qed.

(** ** The parser on dumped text *)

Abbreviation pv := (parse_value stod).

Lemma parse_value_ws fuel t : pv fuel (skip_ws t) = pv fuel t.
Proof. destruct fuel; [done|]. cbn [parse_value]. by rewrite skip_ws_idem. Qed.

Definition reads_back (f : nat) v : Prop :=
  ∀ d s rest, delim rest → pv f (dump show_double v d s ++ rest) = Ok (v, rest).

Lemma array_loop_items l : ∀ f n arr d s rest,
  l ≠ [] → Forall (reads_back f) l → (length l <= n)%nat →
  array_loop n (pv f) arr (skip_ws (commas (array_item d s <$> l) ++ indent d ++ "]"%char :: rest))
  = Ok (VArray (arr ++ l), rest).
Proof.
  induction l as [|x l IH]; intros f n arr d s rest Hne Hf Hn; [done|]. inversion Hf as [|? ? Hx Hl]; subst.
  destruct n as [|n]; [cbn in Hn; lia|]. cbn [array_loop]. rewrite parse_value_ws.
  assert (∀ t, pv f (array_item d s x ++ t) = pv f (dump show_double x (d + s) s ++ t)) as Hind.
  { intros t. unfold array_item. rewrite <- app_assoc, <- parse_value_ws, skip_ws_indent. apply parse_value_ws. }
  destruct l as [|y l].
  - cbn [fmap list_fmap commas]. rewrite <- app_assoc, Hind, Hx by done. cbn [mbind res_bind app].
    rewrite skip_ws_nl, skip_ws_indent, skip_ws_id by done. done.
  - cbn [fmap list_fmap]. change (commas (array_item d s x :: array_item d s y :: (array_item d s <$> l)))
      with (array_item d s x ++ [","%char; "010"%char] ++ commas (array_item d s <$> y :: l)).
    rewrite <- !app_assoc, Hind, Hx by done. cbn [mbind res_bind app].
    rewrite skip_ws_id by done. cbn [get mbind res_bind].
    change (Ascii.eqb "," "]") with false. change (Ascii.eqb "," ",") with true. cbn [negb].
    rewrite skip_ws_nl, IH; [by rewrite <- app_assoc|done|done|cbn in Hn |- *; lia].
Qed.

Lemma object_loop_items o : ∀ f n obj d s rest,
  o ≠ [] → keys_sorted (obj.*1 ++ o.*1) → Forall (reads_back f) o.*2 → (length o <= n)%nat →
  object_loop n (pv f) obj (skip_ws (commas (object_item d s <$> o) ++ indent d ++ "}"%char :: rest))
  = Ok (VObject (obj ++ o), rest).
Proof.
  induction o as [|[k x] o IH]; intros f n obj d s rest Hne Hk Hf Hn; [done|].
  inversion Hf as [|? ? Hx Hl]; subst. cbn [fmap list_fmap fst snd] in *.
  destruct n as [|n]; [cbn in Hn; lia|]. cbn [object_loop].
  assert (map_emplace k x obj = obj ++ [(k, x)]) as Hput by (eapply map_emplace_last, keys_sorted_app, Hk).
  assert (∀ t, skip_ws (skip_ws (object_item d s (k, x) ++ t)) =
    dquote :: json_escape k ++ dquote :: ":"%char :: " "%char :: dump show_double x (d + s) s ++ t) as Hind.
  { intros t. unfold object_item. rewrite skip_ws_idem, <- !app_assoc, skip_ws_indent. cbn [fst snd app].
    by rewrite skip_ws_id, <- ?app_assoc. }
  assert (∀ t, skip_ws (" "%char :: t) = skip_ws t) as Hsp by done.
  destruct o as [|[k' y] o].
  - cbn [fmap list_fmap commas]. rewrite <- app_assoc, Hind, parse_string_escaped. cbn [mbind res_bind].
    rewrite skip_ws_id by done. unfold expect at 1. cbn [get mbind res_bind]. change (Ascii.eqb ":" ":") with true.
    cbn [mbind res_bind]. rewrite Hsp, parse_value_ws, Hx by done. cbn [mbind res_bind app].
    rewrite skip_ws_nl, skip_ws_indent, skip_ws_id, Hput by done. done.
  - cbn [fmap list_fmap].
    change (commas (object_item d s (k, x) :: object_item d s (k', y) :: (object_item d s <$> o)))
      with (object_item d s (k, x) ++ [","%char; "010"%char] ++ commas (object_item d s <$> (k', y) :: o)).
    rewrite <- !app_assoc, Hind, parse_string_escaped. cbn [mbind res_bind].
    rewrite skip_ws_id by done. unfold expect at 1. cbn [get mbind res_bind]. change (Ascii.eqb ":" ":") with true.
    cbn [mbind res_bind]. rewrite Hsp, parse_value_ws, Hx by done. cbn [mbind res_bind app].
    rewrite skip_ws_id by done. cbn [get mbind res_bind].
    change (Ascii.eqb "," "}") with false. change (Ascii.eqb "," ",") with true. cbn [negb].
    rewrite skip_ws_nl, Hput, IH; [by rewrite <- app_assoc|done| |done|cbn in Hn |- *; lia].
    rewrite fmap_app, <- app_assoc. exact Hk.
Qed.

Lemma sizes_bound l : (length l <= sizes l)%nat ∧ ∀ x, x ∈ l → (vsize x < sizes l)%nat.
Proof.
  induction l as [|y l [IH1 IH2]]; [split; [done|]; by intros x ?%elem_of_nil|].
  change (sizes (y :: l)) with (S (vsize y + sizes l)). split; [cbn [length]; lia|].
  intros x [->|Hx]%elem_of_cons; [lia|]. specialize (IH2 x Hx). lia.
Qed.

Lemma to_string_head z :
  ∃ c r, to_string z = c :: r ∧ isspace c = false ∧
    ∀ e, e ∈ ["{"; "["; dquote; "t"; "f"; "n"]%char → Ascii.eqb c e = false.
Proof.
  unfold to_string. destruct (z <? 0) eqn:Ez; zbool.
  - eexists _, _. split; [reflexivity|]. split; [done|]. intros e He.
    repeat (apply elem_of_cons in He as [->|He]; [reflexivity|]). by apply elem_of_nil in He.
  - destruct (decimal_head 19 z Ez) as (e & r & He & ->). destruct (digit_char_shape e He) as (? & _ & _ & _ & Hc).
    eexists _, _. split; [reflexivity|]. split; [done|]. intros c Hin. apply Hc.
    repeat (apply elem_of_cons in Hin as [->|Hin]; [rewrite !elem_of_cons; auto 10|]). by apply elem_of_nil in Hin.
Qed.

Lemma reads_int f z : int_ok z → reads_back (S f) (VInt z).
Proof.
  intros Hz d s rest Hr. cbn [dump]. pose proof (parse_int z rest Hz Hr) as Hp.
  destruct (to_string_head z) as (c & r & E & Hsp & Hc). rewrite E in *.
  cbn [parse_value app]. rewrite skip_ws_id by done. cbn [peek].
  rewrite !Hc by (rewrite !elem_of_cons; auto 10). exact Hp.
Qed.

Lemma reads_string f t : reads_back (S f) (VString t).
Proof.
  intros d s rest _. cbn [dump parse_value]. rewrite <- !app_assoc. cbn [app]. rewrite skip_ws_id by done. cbn [peek].
  change (Ascii.eqb dquote "{") with false. change (Ascii.eqb dquote "[") with false.
  change (Ascii.eqb dquote dquote) with true. cbn iota. by rewrite parse_string_escaped.
Qed.

Lemma reads_array f l :
  Forall json_ok l → Forall (reads_back f) l → (length l <= f)%nat → reads_back (S f) (VArray l).
Proof.
  intros Hok Hrb Hlen d s rest Hr. destruct l as [|x l]; [reflexivity|].
  rewrite dump_array, <- !app_assoc. cbn [app parse_value]. rewrite skip_ws_id by done. cbn [peek].
  change (Ascii.eqb "[" "{") with false. change (Ascii.eqb "[" "[") with true. cbn iota.
  unfold expect. cbn [get mbind res_bind]. change (Ascii.eqb "[" "[") with true. cbn [mbind res_bind]. rewrite skip_ws_nl.
  rewrite <- ?app_assoc. cbn [app].
  assert (∃ c r, skip_ws (commas (array_item d s <$> x :: l) ++ indent d ++ "]"%char :: rest) = c :: r ∧
    Ascii.eqb c "]" = false) as (c & r & E & Hc).
  { inversion Hok as [|? ? Hx _]; subst. destruct (dump_head x (d + s) s Hx) as (c & r & E & Hs & Hc).
    cbn [fmap list_fmap]. destruct (array_item d s <$> l); cbn [commas]; unfold array_item; rewrite <- !app_assoc, skip_ws_indent, E;
      cbn [app]; rewrite skip_ws_id by done; by eexists _, _. }
  rewrite E. cbn [peek]. rewrite Hc, <- E. by rewrite array_loop_items.
Qed.

Lemma reads_object f o :
  keys_sorted o.*1 → Forall (reads_back f) o.*2 → (length o <= f)%nat → reads_back (S f) (VObject o).
Proof.
  intros Hk Hrb Hlen d s rest Hr. destruct o as [|[k x] o]; [reflexivity|].
  rewrite dump_object, <- !app_assoc. cbn [app parse_value]. rewrite skip_ws_id by done. cbn [peek].
  change (Ascii.eqb "{" "{") with true. cbn iota.
  unfold expect. cbn [get mbind res_bind]. change (Ascii.eqb "{" "{") with true. cbn [mbind res_bind]. rewrite skip_ws_nl.
  rewrite <- ?app_assoc. cbn [app].
  assert (∃ r, skip_ws (commas (object_item d s <$> (k, x) :: o) ++ indent d ++ "}"%char :: rest) = dquote :: r) as (r & E).
  { cbn [fmap list_fmap]. destruct (object_item d s <$> o); cbn [commas]; unfold object_item; rewrite <- !app_assoc, skip_ws_indent;
      cbn [app]; rewrite skip_ws_id by done; by eexists. }
  rewrite E. cbn [peek]. change (Ascii.eqb dquote "}") with false. rewrite <- E. by rewrite object_loop_items.
Qed.

Lemma parse_value_dump n : ∀ v f, (vsize v <= n)%nat → json_ok v → (vsize v < f)%nat → reads_back f v.
Proof.
  induction n as [|n IH]; intros v f Hn Hok Hf; [destruct v; cbn in Hn; lia|]. destruct f as [|f]; [lia|].
  assert (∀ l, (sizes l <= n)%nat → (sizes l < f)%nat → Forall json_ok l →
    Forall (reads_back f) l ∧ (length l <= f)%nat) as Hitems.
  { intros l Hs Hs' Hl. destruct (sizes_bound l) as [Hlen Hlt]. split; [|lia].
    rewrite Forall_forall in Hl |- *. intros x Hx. specialize (Hlt x Hx). apply IH; auto with lia. }
  destruct v as [|b|z|x|t|l|o].
  - by intros d s rest _.
  - intros d s rest _. by destruct b.
  - by apply reads_int.
  - destruct Hok.
  - apply reads_string.
  - apply json_ok_array in Hok. rewrite vsize_array in Hn, Hf. destruct (Hitems l) as [Hrb Hlen]; [lia|lia|done|].
    by apply reads_array.
  - apply json_ok_object in Hok as [Hk Hok]. rewrite vsize_object in Hn, Hf.
    destruct (Hitems o.*2) as [Hrb Hlen]; [lia|lia|done|]. rewrite length_fmap in Hlen. by apply reads_object.
Qed.

(** The length of the text bounds the fuel the parser needs. *)
Lemma commas_length items : (length (concat items) + length items <= length (commas items))%nat.
Proof.
  induction items as [|x [|y items] IH]; [done|cbn; rewrite !length_app; cbn; lia|].
  change (commas (x :: y :: items)) with (x ++ [","%char; "010"%char] ++ commas (y :: items)).
  change (concat (x :: y :: items)) with (x ++ concat (y :: items)).
  rewrite (length_app x), (length_app x), (length_app [","%char; "010"%char]). cbn [length] in *. lia.
Qed.

Lemma vsize_dump n : ∀ v d s, (vsize v <= n)%nat → json_ok v → (vsize v <= length (dump show_double v d s))%nat.
Proof.
  induction n as [|n IH]; intros v d s Hn Hok; [destruct v; cbn in Hn; lia|].
  assert (∀ (l : list value) items, (sizes l <= n)%nat → Forall json_ok l →
    Forall2 (λ x it, ∃ d s p, it = p ++ dump show_double x d s) l items →
    (sizes l <= length (concat items) + length items)%nat) as Hl.
  { intros l items Hs Hjs HF. induction HF as [|x it l items (d' & s' & p & ->) _ IHF]; [done|].
    inversion Hjs as [|? ? Hx Hjs']; subst. change (sizes (x :: l)) with (S (vsize x + sizes l)) in *.
    cbn [concat length]. rewrite !length_app.
    specialize (IHF ltac:(lia) Hjs'). specialize (IH x d' s' ltac:(lia) Hx). lia. }
  destruct v as [|[]|z|x|t|[|x l]|[|[k x] o]]; try (cbn; lia).
  - cbn [dump vsize]. destruct (to_string_head z) as (c & r & -> & _). cbn. lia.
  - destruct Hok.
  - rewrite dump_array, vsize_array in *. apply json_ok_array in Hok. rewrite length_app, (length_app (commas _)).
    pose proof (commas_length (array_item d s <$> x :: l)). cbn [length].
    assert (sizes (x :: l) <= length (concat (array_item d s <$> x :: l)) + length (array_item d s <$> x :: l))%nat; [|lia].
    apply Hl; [lia|done|]. apply Forall2_fmap_r, Forall_Forall2_diag, Forall_true. intros y. by eexists _, _, _.
  - rewrite dump_object, vsize_object in *. apply json_ok_object in Hok as [_ Hok]. rewrite length_app, (length_app (commas _)).
    pose proof (commas_length (object_item d s <$> (k, x) :: o)). cbn [length].
    assert (sizes ((k, x) :: o).*2 <= length (concat (object_item d s <$> (k, x) :: o)) + length (object_item d s <$> (k, x) :: o))%nat; [|lia].
    apply Hl; [lia|done|]. apply Forall2_fmap_l, Forall2_fmap_r, Forall_Forall2_diag, Forall_true.
    intros [k' y]. unfold object_item. eexists _, _, (indent (d + s) ++ [dquote] ++ json_escape k' ++ [dquote; ":"%char; " "%char]).
    by rewrite <- !app_assoc.
Qed.

Lemma parse_dumped v d s : json_ok v → parse_text stod (dump show_double v d s) = Ok v.
Proof.
  intros Hv. unfold parse_text. destruct (dump_head v d s Hv) as (c & r & E & Hs & _).
  assert (skip_ws (dump show_double v d s) = dump show_double v d s) as -> by (rewrite E; by apply skip_ws_id).
  pose proof (vsize_dump _ v d s (le_n _) Hv).
  pose proof (parse_value_dump _ v (S (length (dump show_double v d s))) (le_n _) Hv ltac:(lia) d s []) as Hp.
  rewrite app_nil_r in Hp. by rewrite Hp.
Qed.

(** C15: JSON round trip.  Parsing the text [dump] writes for a value, at any
    indentation, gives the value back: strings with any bytes, all 64-bit
    integers, nested arrays and objects.  (Doubles go through the library's
    conversions and are excluded.) *)
Theorem json_roundtrip v d s : json_ok v → parse_text stod (dump show_double v d s) = Ok v.
Proof. apply parse_dumped. Qed.
End roundtrip.

Definition sample_json : Value unit :=
  VObject [(txt "code", VArray [VInt (-5); VNull; VBool true]); (txt "name", VString [dquote; "010"%char; "a"%char])].

Lemma json_roundtrip_witness :
  parse_text (λ _, Undefined) (dump (λ _, []) sample_json 0 2) = Ok sample_json.
Proof.
  apply json_roundtrip. cbn. unfold int_ok. repeat split; first [discriminate|reflexivity|lia|repeat constructor].
Defined.

(** ** The fuel of the parser

    The parser of [Json] counts down on the length of the text.  Every
    function consumes a character before it calls itself again, so that bound
    is never reached: the result is the same for every larger one. *)

Section fuel.
Context {D : Type} (stod : text → res D).

Definition consumes {A} (p : text → res (A * text)) : Prop := ∀ t v t', p t = Ok (v, t') → (length t' < length t)%nat.

Lemma skip_ws_length t : (length (skip_ws t) <= length t)%nat.
Proof. unfold skip_ws. induction t as [|c t IH]; cbn; [lia|]. destruct (isspace c); cbn; lia. Qed.

Lemma get_length : consumes get.
Proof. intros [|c t] v t'; [done|]. intros [= _ <-]. cbn. lia. Qed.

Lemma expect_length ch t t' : expect ch t = Ok t' → (length t' < length t)%nat.
Proof.
  unfold expect. intros ([got u] & Hg & H)%res_bind_Ok. apply get_length in Hg. destruct (Ascii.eqb got ch); [|done].
  by injection H as <-.
Qed.

Lemma expect_literal_length l : ∀ t t', expect_literal l t = Ok t' → (length t' + length l <= length t)%nat.
Proof.
  induction l as [|c l IH]; intros t t'; cbn [expect_literal]; [intros [= <-]; cbn; lia|].
  intros ([got u] & Hg & H)%res_bind_Ok. apply get_length in Hg. destruct (Ascii.eqb got c); [|done].
  apply IH in H. cbn. lia.
Qed.

Lemma parse_escape_length : consumes parse_escape.
Proof.
  intros t v t'. unfold parse_escape. intros ([esc u] & Hg & H)%res_bind_Ok. apply get_length in Hg.
  repeat (destruct (Ascii.eqb esc _); [first [injection H as _ <-; exact Hg|idtac]|]); [|done].
  unfold parse_unicode in H.
  apply res_bind_Ok in H as ([a t1] & H1 & H). apply res_bind_Ok in H as (? & _ & H).
  apply res_bind_Ok in H as ([b t2] & H2 & H). apply res_bind_Ok in H as (? & _ & H).
  apply res_bind_Ok in H as ([c t3] & H3 & H). apply res_bind_Ok in H as (? & _ & H).
  apply res_bind_Ok in H as ([d t4] & H4 & H). apply res_bind_Ok in H as (? & _ & H).
  apply get_length in H1, H2, H3, H4. destruct (_ <=? _); [|done]. injection H as _ <-. lia.
Qed.

Lemma string_loop_length f : ∀ out, consumes (string_loop f out).
Proof.
  induction f as [|f IH]; intros out t v t'; [done|]. cbn [string_loop].
  intros ([ch u] & Hg & H)%res_bind_Ok. apply get_length in Hg. destruct (Ascii.eqb ch _); [by injection H as _ <-|].
  destruct (Ascii.eqb ch _); [|apply IH in H; lia].
  apply res_bind_Ok in H as ([c w] & He & H). apply parse_escape_length in He. apply IH in H. lia.
Qed.

Lemma parse_string_length : consumes parse_string.
Proof.
  intros t v t'. unfold parse_string. intros (u & He & H)%res_bind_Ok. apply expect_length in He.
  apply string_loop_length in H. lia.
Qed.

Lemma string_loop_fuel f1 : ∀ f2 out t,
  (length t < f1)%nat → (length t < f2)%nat → string_loop f1 out t = string_loop f2 out t.
Proof.
  induction f1 as [|f1 IH]; intros f2 out t H1 H2; [lia|]. destruct f2 as [|f2]; [lia|]. cbn [string_loop].
  destruct (get t) as [[ch u]| |] eqn:Hg; [|done..]. apply get_length in Hg. cbn [mbind res_bind].
  destruct (Ascii.eqb ch _); [done|]. destruct (Ascii.eqb ch _); [|apply IH; lia].
  destruct (parse_escape u) as [[c w]| |] eqn:He; [|done..]. apply parse_escape_length in He. cbn [mbind res_bind]. apply IH; lia.
Qed.

Lemma span_digits_length t ds r : span_digits t = (ds, r) → length t = (length ds + length r)%nat.
Proof.
  revert ds r. induction t as [|c t IH]; intros ds r; cbn; [by intros [= <- <-]|].
  destruct (isdigit c); [|by intros [= <- <-]]. destruct (span_digits t) as [x y]. intros [= <- <-]. cbn. by rewrite (IH x y).
Qed.

Lemma take_if_length p t x r : take_if p t = (x, r) → length t = (length x + length r)%nat.
Proof. destruct t as [|c t]; cbn; [by intros [= <- <-]|]. destruct (p c); by intros [= <- <-]. Qed.

Lemma parse_json_number_length : consumes (parse_json_number stod).
Proof.
  intros t v t'. unfold parse_json_number.
  destruct (take_if is_sign t) as [x1 t1] eqn:E1. apply take_if_length in E1.
  destruct (span_digits t1) as [x2 t2] eqn:E2. apply span_digits_length in E2.
  destruct (take_if _ t2) as [x3 t3] eqn:E3. apply take_if_length in E3.
  destruct (match x3 with [] => ([], t3) | _ => span_digits t3 end) as [x4 t4] eqn:E4.
  assert (length t3 = length x4 + length t4)%nat as L4.
  { destruct x3; [by injection E4 as <- <-|by apply span_digits_length]. }
  destruct (take_if _ t4) as [x5 t5] eqn:E5. apply take_if_length in E5.
  destruct (match x5 with [] => ([], t5) | _ => take_if is_sign t5 end) as [x6 t6] eqn:E6.
  assert (length t5 = length x6 + length t6)%nat as L6.
  { destruct x5; [by injection E6 as <- <-|by apply take_if_length in E6]. }
  destruct (match x5 with [] => ([], t6) | _ => span_digits t6 end) as [x7 t7] eqn:E7.
  assert (length t6 = length x7 + length t7)%nat as L7.
  { destruct x5; [by injection E7 as <- <-|by apply span_digits_length]. }
  destruct (x1 ++ x2 ++ x3 ++ x4 ++ x5 ++ x6 ++ x7) as [|c s] eqn:Es; [done|].
  apply (f_equal length) in Es. rewrite !length_app in Es. cbn [length] in Es.
  intros H. assert (t' = t7) as ->; [|lia].
  destruct (x3 ++ x5); apply res_bind_Ok in H as (? & _ & [= _ <-]); done.
Qed.

Lemma array_loop_length f (pv : text → res (Value D * text)) : consumes pv → ∀ arr, consumes (array_loop f pv arr).
Proof.
  intros Hpv. induction f as [|f IH]; intros arr t v t'; [done|]. cbn [array_loop].
  intros ([x u] & Hx & ([ch w] & Hg & H)%res_bind_Ok)%res_bind_Ok. apply Hpv in Hx. apply get_length in Hg.
  pose proof (skip_ws_length u). destruct (Ascii.eqb ch _); [injection H as _ <-; lia|].
  destruct (negb _); [done|]. apply IH in H. pose proof (skip_ws_length w). lia.
Qed.

Lemma object_loop_length f (pv : text → res (Value D * text)) : consumes pv → ∀ obj, consumes (object_loop f pv obj).
Proof.
  intros Hpv. induction f as [|f IH]; intros obj t v t'; [done|]. cbn [object_loop].
  intros ([k u] & Hk & (u2 & He & ([x u3] & Hx & ([ch w] & Hg & H)%res_bind_Ok)%res_bind_Ok)%res_bind_Ok)%res_bind_Ok.
  apply parse_string_length in Hk. apply expect_length in He. apply Hpv in Hx. apply get_length in Hg.
  pose proof (skip_ws_length t). pose proof (skip_ws_length u). pose proof (skip_ws_length u2). pose proof (skip_ws_length u3).
  destruct (Ascii.eqb ch _); [injection H as _ <-; lia|]. destruct (negb _); [done|]. apply IH in H. pose proof (skip_ws_length w). lia.
Qed.

Lemma tail_length {A} (l : list A) : (length (tail l) <= length l)%nat.
Proof. destruct l; cbn; lia. Qed.

Lemma parse_value_length f : consumes (parse_value stod f).
Proof.
  induction f as [|f IH]; intros t v t'; [done|]. cbn [parse_value]. pose proof (skip_ws_length t) as Hs.
  destruct (Ascii.eqb _ "{").
  { intros (u & He & H)%res_bind_Ok. apply expect_length in He. pose proof (skip_ws_length u).
    destruct (Ascii.eqb _ "}"); [injection H as _ <-; pose proof (tail_length (skip_ws u)); lia|].
    apply (object_loop_length _ _ IH) in H. lia. }
  destruct (Ascii.eqb _ "[").
  { intros (u & He & H)%res_bind_Ok. apply expect_length in He. pose proof (skip_ws_length u).
    destruct (Ascii.eqb _ "]"); [injection H as _ <-; pose proof (tail_length (skip_ws u)); lia|].
    apply (array_loop_length _ _ IH) in H. lia. }
  destruct (Ascii.eqb _ dquote).
  { intros ([s u] & H & [= _ <-])%res_bind_Ok. apply parse_string_length in H. lia. }
  do 3 (destruct (Ascii.eqb _ _);
    [intros (u & H & [= _ <-])%res_bind_Ok; apply expect_literal_length in H; cbn in H; lia|]).
  intros H. apply parse_json_number_length in H. lia.
Qed.

(** Two parsers that agree on the texts up to a length. *)
Definition agree {A} (n : nat) (p q : text → res (A * text)) : Prop := ∀ t, (length t <= n)%nat → p t = q t.

Lemma agree_le {A} n n' (p q : text → res (A * text)) : (n' <= n)%nat → agree n p q → agree n' p q.
Proof. intros Hn H t Ht. apply H. lia. Qed.

Lemma array_loop_fuel f1 (p q : text → res (Value D * text)) : consumes p → ∀ f2 arr t,
  agree (length t) p q → (length t < f1)%nat → (length t < f2)%nat → array_loop f1 p arr t = array_loop f2 q arr t.
Proof.
  intros Hp. induction f1 as [|f1 IH]; intros f2 arr t Ha H1 H2; [lia|]. destruct f2 as [|f2]; [lia|]. cbn [array_loop].
  rewrite <- (Ha t (le_n _)). destruct (p t) as [[x u]| |] eqn:Hx; [|done..]. apply Hp in Hx. cbn [mbind res_bind].
  destruct (get (skip_ws u)) as [[ch w]| |] eqn:Hg; [|done..]. apply get_length in Hg. cbn [mbind res_bind].
  pose proof (skip_ws_length u). pose proof (skip_ws_length w).
  destruct (Ascii.eqb ch _); [done|]. destruct (negb _); [done|]. apply IH; [|lia..]. eapply agree_le; [|exact Ha]. lia.
Qed.

Lemma object_loop_fuel f1 (p q : text → res (Value D * text)) : consumes p → ∀ f2 obj t,
  agree (length t) p q → (length t < f1)%nat → (length t < f2)%nat → object_loop f1 p obj t = object_loop f2 q obj t.
Proof.
  intros Hp. induction f1 as [|f1 IH]; intros f2 obj t Ha H1 H2; [lia|]. destruct f2 as [|f2]; [lia|]. cbn [object_loop].
  pose proof (skip_ws_length t).
  destruct (parse_string (skip_ws t)) as [[k u]| |] eqn:Hk; [|done..]. apply parse_string_length in Hk. cbn [mbind res_bind].
  pose proof (skip_ws_length u).
  destruct (expect ":" (skip_ws u)) as [u2| |] eqn:He; [|done..]. apply expect_length in He. cbn [mbind res_bind].
  pose proof (skip_ws_length u2). rewrite <- (Ha (skip_ws u2)) by lia.
  destruct (p (skip_ws u2)) as [[x u3]| |] eqn:Hx; [|done..]. apply Hp in Hx. cbn [mbind res_bind].
  pose proof (skip_ws_length u3).
  destruct (get (skip_ws u3)) as [[ch w]| |] eqn:Hg; [|done..]. apply get_length in Hg. cbn [mbind res_bind].
  pose proof (skip_ws_length w).
  destruct (Ascii.eqb ch _); [done|]. destruct (negb _); [done|]. apply IH; [|lia..]. eapply agree_le; [|exact Ha]. lia.
Qed.

(** Any fuel above the length of the text gives the same result: the parser
    never fails for lack of it. *)
Lemma parse_value_fuel f1 : ∀ f2 t,
  (length t < f1)%nat → (length t < f2)%nat → parse_value stod f1 t = parse_value stod f2 t.
Proof.
  induction f1 as [|f1 IH]; intros f2 t H1 H2; [lia|]. destruct f2 as [|f2]; [lia|]. cbn [parse_value].
  pose proof (skip_ws_length t) as Hs.
  destruct (Ascii.eqb _ "{").
  { destruct (expect "{" (skip_ws t)) as [u| |] eqn:He; [|done..]. apply expect_length in He. cbn [mbind res_bind].
    pose proof (skip_ws_length u). destruct (Ascii.eqb _ "}"); [done|].
    apply object_loop_fuel; [apply parse_value_length| |lia..]. intros x Hx. apply IH; lia. }
  destruct (Ascii.eqb _ "["); [|done].
  destruct (expect "[" (skip_ws t)) as [u| |] eqn:He; [|done..]. apply expect_length in He. cbn [mbind res_bind].
  pose proof (skip_ws_length u). destruct (Ascii.eqb _ "]"); [done|].
  apply array_loop_fuel; [apply parse_value_length| |lia..]. intros x Hx. apply IH; lia.
Qed.
End fuel.
