(* ===== verification/Assembler.v ===== *)
(** * The two-pass assembler

    [ObjectFile], [parse_object] and [TwoPassAssembler] of
    [tools/macroBuilder/main.cpp].  The first pass assigns addresses, the
    second emits bytes and relocations; the result is a JSON object file. *)

From Stdlib Require Import Ascii.
From S2P Require Import Prelude CText ToolText Json.

(** ** Object files *)

Record Reloc := mk_reloc {
  r_offset : Z;
  r_size : Z;
  r_symbol : text;
  r_addend : Z;
}.

Record ObjectFile := mk_object {
  o_module : text;
  o_size : Z;
  o_code : list Z;
  o_symbols : list (text * Z);
  o_globals : list text;
  o_externs : list text;
  o_entry : Z;
  o_relocations : list Reloc;
}.

Fixpoint res_map {A B} (f : A → res B) (l : list A) : res (list B) :=
  match l with
  | [] => Ok []
  | x :: l' => y ← f x; ys ← res_map f l'; Ok (y :: ys)
  end.

Section objects.
Context {D : Type} (double_to_ll : D → Z).
Abbreviation value := (Value D).

Definition int_at (k : text) (o : list (text * value)) : res Z := v ← map_at k o; as_int double_to_ll v.
Definition string_at (k : text) (o : list (text * value)) : res text := v ← map_at k o; as_string v.
Definition array_at (k : text) (o : list (text * value)) : res (list value) := v ← map_at k o; as_array v.

Definition parse_byte (item : value) : res Z := z ← as_int double_to_ll item; Ok (u8 z).

(** [for (const auto& [name, value] : ...) out.symbols[name] = value.as_int();] *)
Fixpoint parse_symbols (o : list (text * value)) (acc : list (text * Z)) : res (list (text * Z)) :=
  match o with
  | [] => Ok acc
  | (k, v) :: o' => z ← as_int double_to_ll v; parse_symbols o' (map_set k z acc)
  end.

Definition parse_reloc (item : value) : res Reloc :=
  ro ← as_object item;
  off ← int_at (txt "offset") ro;
  size ← int_at (txt "size") ro;
  sym ← string_at (txt "symbol") ro;
  addend ← match map_find (txt "addend") ro with
           | Some _ => int_at (txt "addend") ro
           | None => Ok 0
           end;
  Ok (mk_reloc off size sym addend).

Definition optional {A} (k : text) (o : list (text * value)) (dflt : A) (read : res A) : res A :=
  match map_find k o with Some _ => read | None => Ok dflt end.

Definition parse_object (root : value) : res ObjectFile :=
  match root with
  | VObject obj =>
      match map_find (txt "format") obj with
      | Some (VString f) =>
          if negb (text_equal f (txt "wirth-obj-v1")) then Err EObject
          else
            m ← string_at (txt "module") obj;
            size ← int_at (txt "size") obj;
            items ← array_at (txt "code") obj;
            code ← res_map parse_byte items;
            sv ← map_at (txt "symbols") obj;
            so ← as_object sv;
            symbols ← parse_symbols so [];
            gl ← array_at (txt "globals") obj;
            globals ← res_map as_string gl;
            externs ← optional (txt "externs") obj [] (el ← array_at (txt "externs") obj; res_map as_string el);
            entry ← optional (txt "entry") obj 0 (int_at (txt "entry") obj);
            relocs ← optional (txt "relocations") obj []
                       (rl ← array_at (txt "relocations") obj; res_map parse_reloc rl);
            Ok (mk_object m size code symbols globals externs entry relocs)
      | _ => Err EObject
      end
  | _ => Err EObject
  end.

(** The object file written for an assembled module. *)
Definition reloc_value (r : Reloc) : value :=
  VObject (map_set (txt "addend") (VInt (r_addend r))
    (map_set (txt "symbol") (VString (r_symbol r))
      (map_set (txt "size") (VInt (r_size r)) (map_set (txt "offset") (VInt (r_offset r)) [])))).

Definition symbol_values (syms : list (text * Z)) : list (text * value) :=
  fold_left (λ o '(k, z), map_set k (VInt z) o) syms [].

Definition object_value (o : ObjectFile) : value :=
  let root := [] in
  let root := map_set (txt "format") (VString (txt "wirth-obj-v1")) root in
  let root := map_set (txt "module") (VString (o_module o)) root in
  let root := map_set (txt "size") (VInt (Z.of_nat (length (o_code o)))) root in
  let root := map_set (txt "code") (VArray (VInt <$> o_code o)) root in
  let root := map_set (txt "symbols") (VObject (symbol_values (o_symbols o))) root in
  let root := map_set (txt "globals") (VArray (VString <$> o_globals o)) root in
  let root := map_set (txt "externs") (VArray (VString <$> o_externs o)) root in
  let root := map_set (txt "entry") (VInt (o_entry o)) root in
  let root := map_set (txt "relocations") (VArray (reloc_value <$> o_relocations o)) root in
  VObject root.
End objects.

(** ** Lines *)

Definition kInstrSizes : list (text * Z) :=
  [(txt "NOP", 1); (txt "HALT", 1); (txt "RET", 1); (txt "LOADI", 4); (txt "LOAD", 4); (txt "STORE", 4);
   (txt "ADD", 3); (txt "SUB", 3); (txt "MUL", 3); (txt "DIV", 3); (txt "MOV", 3); (txt "JMP", 3);
   (txt "JZ", 4); (txt "JNZ", 4); (txt "PRINT", 2)].

Definition opmap : list (text * Z) :=
  [(txt "NOP", 0); (txt "HALT", 1); (txt "RET", 2); (txt "LOADI", 16); (txt "LOAD", 17); (txt "STORE", 18);
   (txt "ADD", 32); (txt "SUB", 33); (txt "MUL", 34); (txt "DIV", 35); (txt "MOV", 36); (txt "JMP", 48);
   (txt "JZ", 49); (txt "JNZ", 50); (txt "PRINT", 64)].

Definition split_label (line : text) : text * text :=
  match find_char ":" line with
  | None => ([], line)
  | Some pos =>
      match trim (take pos line) with
      | [] => ([], line)
      | label => (label, trim (drop (S pos) line))
      end
  end.

Definition is_op (op : text) (name : string) : bool := text_equal op (txt name).

(** ** First pass *)

Record pass1_state := mk_pass1 {
  symbols : list (text * Z);
  globals_export : list text;
  externs : list text;
  parsed : list (Z * text);
  pc1 : Z;
}.

Definition operand (line_no : Z) (op : text) (tk : list text) : res text :=
  match tk with _ :: v :: _ => Ok v | _ => Err (EOperand line_no op) end.

(** The directive or instruction of a line, its label gone. *)
Definition pass1_body (line_no : Z) (line : text) (s : pass1_state) : res pass1_state :=
  let s := mk_pass1 (symbols s) (globals_export s) (externs s) (parsed s ++ [(line_no, line)]) (pc1 s) in
  let advance n := pc ← i64 (pc1 s + n); Ok (mk_pass1 (symbols s) (globals_export s) (externs s) (parsed s) pc) in
  match tokenize line with
  | [] => Ok s
  | (t0 :: _) as tk =>
      let directive := upper t0 in
      if is_op directive ".GLOBAL" then
        v ← operand line_no directive tk;
        Ok (mk_pass1 (symbols s) (globals_export s ++ [v]) (externs s) (parsed s) (pc1 s))
      else if is_op directive ".EXTERN" then
        v ← operand line_no directive tk;
        Ok (mk_pass1 (symbols s) (globals_export s) (externs s ++ [v]) (parsed s) (pc1 s))
      else if is_op directive ".WORD" then advance 2
      else if is_op directive ".SPACE" then
        v ← operand line_no directive tk; n ← parse_number v; advance n
      else if is_op directive ".BYTE" then advance 1
      else if is_op directive ".ENTRY" then Ok s
      else
        match map_find directive kInstrSizes with
        | None => Err (EUnknown line_no t0)
        | Some n => advance n
        end
  end.

Definition pass1_line (line_no : Z) (raw : text) (s : pass1_state) : res pass1_state :=
  match trim (strip_comment raw) with
  | [] => Ok s
  | line =>
      let '(label, rest) := split_label line in
      match label with
      | [] => pass1_body line_no line s
      | _ =>
          match map_find label (symbols s) with
          | Some _ => Err (EDuplicate line_no label)
          | None =>
              let s := mk_pass1 (map_set label (pc1 s) (symbols s)) (globals_export s) (externs s) (parsed s) (pc1 s) in
              match rest with
              | [] => Ok s
              | _ => pass1_body line_no rest s
              end
          end
      end
  end.

Fixpoint pass1 (line_no : Z) (lines : list text) (s : pass1_state) : res pass1_state :=
  match lines with
  | [] => Ok s
  | raw :: lines' => s ← pass1_line line_no raw s; pass1 (line_no + 1) lines' s
  end.

(** ** Second pass *)

Record pass2_state := mk_pass2 {
  code : list Z;
  relocations : list Reloc;
  entry : Z;
  pc2 : Z;
}.

Definition emit_u16 (code : list Z) (offset value : Z) : res (list Z) :=
  code ← vset code offset (u8 value);
  vset code (offset + 1) (u8 (Z.shiftr value 8)).

Definition emit_symbol_u16 (st1 : pass1_state) (line_no : Z) (code : list Z) (offset : Z) (symbol : text)
    (relocs : list Reloc) : res (list Z * list Reloc) :=
  match map_find symbol (symbols st1) with
  | Some v => code ← emit_u16 code offset v; Ok (code, relocs ++ [mk_reloc offset 2 symbol 0])
  | None =>
      if existsb (text_equal symbol) (externs st1) then
        code ← emit_u16 code offset 0; Ok (code, relocs ++ [mk_reloc offset 2 symbol 0])
      else Err (EUndefined line_no symbol)
  end.

(** A number, or the address of a symbol. *)
Definition emit_value (st1 : pass1_state) (line_no : Z) (code : list Z) (offset : Z) (v : text)
    (relocs : list Reloc) : res (list Z * list Reloc) :=
  match is_number v with
  | Ok true => n ← parse_number v; code ← emit_u16 code offset n; Ok (code, relocs)
  | Ok false => emit_symbol_u16 st1 line_no code offset v relocs
  | Err e => Err e
  | Undefined => Undefined
  end.

Definition emit_reg (code : list Z) (offset : Z) (name : text) : res (list Z) :=
  r ← reg_index name; vset code offset (u8 r).

Definition encode_instruction (st1 : pass1_state) (line_no : Z) (code : list Z) (pc : Z) (op : text)
    (args : list text) (relocs : list Reloc) : res (list Z * list Reloc * Z) :=
  match map_find op opmap with
  | None => Err (EUnknown line_no op)
  | Some byte =>
      code ← vset code pc byte;
      if is_op op "NOP" || is_op op "HALT" || is_op op "RET" then Ok (code, relocs, pc + 1)
      else if is_op op "PRINT" then
        match args with
        | [a] => code ← emit_reg code (pc + 1) a; Ok (code, relocs, pc + 2)
        | _ => Err (EOperand line_no op)
        end
      else if is_op op "ADD" || is_op op "SUB" || is_op op "MUL" || is_op op "DIV" || is_op op "MOV" then
        match args with
        | [a; b] =>
            code ← emit_reg code (pc + 1) a;
            code ← emit_reg code (pc + 2) b;
            Ok (code, relocs, pc + 3)
        | _ => Err (EOperand line_no op)
        end
      else if is_op op "LOADI" then
        match args with
        | [a; b] =>
            code ← emit_reg code (pc + 1) a;
            imm ← parse_number b;
            code ← emit_u16 code (pc + 2) imm;
            Ok (code, relocs, pc + 4)
        | _ => Err (EOperand line_no op)
        end
      else if is_op op "LOAD" || is_op op "STORE" then
        match args with
        | [a; b] =>
            code ← emit_reg code (pc + 1) a;
            '(code, relocs) ← emit_value st1 line_no code (pc + 2) b relocs;
            Ok (code, relocs, pc + 4)
        | _ => Err (EOperand line_no op)
        end
      else if is_op op "JMP" then
        match args with
        | [a] =>
            '(code, relocs) ← emit_value st1 line_no code (pc + 1) a relocs;
            Ok (code, relocs, pc + 3)
        | _ => Err (EOperand line_no op)
        end
      else if is_op op "JZ" || is_op op "JNZ" then
        match args with
        | [a; b] =>
            code ← emit_reg code (pc + 1) a;
            '(code, relocs) ← emit_value st1 line_no code (pc + 2) b relocs;
            Ok (code, relocs, pc + 4)
        | _ => Err (EOperand line_no op)
        end
      else Err (EUnknown line_no op)
  end.

(** [for (i = 0; i < count; ++i) code[pc + i] = 0;] *)
Fixpoint fill_zero (n : nat) (code : list Z) (at_ : Z) : res (list Z) :=
  match n with
  | O => Ok code
  | S n' => code ← vset code at_ 0; fill_zero n' code (at_ + 1)
  end.

Definition pass2_line (st1 : pass1_state) (line_no : Z) (line : text) (s : pass2_state) : res pass2_state :=
  match tokenize line with
  | [] => Ok s
  | (t0 :: _) as tk =>
      let op := upper t0 in
      if is_op op ".GLOBAL" || is_op op ".EXTERN" then Ok s
      else if is_op op ".ENTRY" then
        sym ← operand line_no op tk;
        match map_find sym (symbols st1) with
        | None => Err (EEntry line_no sym)
        | Some a => Ok (mk_pass2 (code s) (relocations s) a (pc2 s))
        end
      else if is_op op ".BYTE" then
        v ← operand line_no op tk;
        n ← parse_number v;
        code ← vset (code s) (pc2 s) (u8 n);
        Ok (mk_pass2 code (relocations s) (entry s) (pc2 s + 1))
      else if is_op op ".WORD" then
        v ← operand line_no op tk;
        '(code, relocs) ← emit_value st1 line_no (code s) (pc2 s) v (relocations s);
        Ok (mk_pass2 code relocs (entry s) (pc2 s + 2))
      else if is_op op ".SPACE" then
        v ← operand line_no op tk;
        count ← parse_number v;
        code ← fill_zero (Z.to_nat count) (code s) (pc2 s);
        pc ← i64 (pc2 s + count);
        Ok (mk_pass2 code (relocations s) (entry s) pc)
      else
        let args := split_args (trim (drop (length t0) line)) in
        '(code, relocs, pc) ← encode_instruction st1 line_no (code s) (pc2 s) op args (relocations s);
        Ok (mk_pass2 code relocs (entry s) pc)
  end.

Fixpoint pass2 (st1 : pass1_state) (lines : list (Z * text)) (s : pass2_state) : res pass2_state :=
  match lines with
  | [] => Ok s
  | (line_no, line) :: lines' => s ← pass2_line st1 line_no line s; pass2 st1 lines' s
  end.

(** [std::sort] followed by [std::unique]. *)
Fixpoint sorted_insert (x : text) (l : list text) : list text :=
  match l with
  | [] => [x]
  | y :: l' => if text_equal x y then l else if text_lt x y then x :: l else y :: sorted_insert x l'
  end.
Definition sort_unique (l : list text) : list text := fold_right sorted_insert [] l.

Definition assemble (lines : list text) (module_name : text) : res ObjectFile :=
  st1 ← pass1 1 lines (mk_pass1 [] [] [] [] 0);
  if pc1 st1 <? 0 then Err EAlloc
  else
    s ← pass2 st1 (parsed st1) (mk_pass2 (replicate (Z.to_nat (pc1 st1)) 0) [] 0 0);
    match filter (λ g, map_find g (symbols st1) = None) (globals_export st1) with
    | [] => Ok (mk_object module_name (Z.of_nat (length (code s))) (code s) (symbols st1)
                  (sort_unique (globals_export st1)) (sort_unique (externs st1)) (entry s) (relocations s))
    | undefined => Err (EGlobals undefined)
    end.

Definition assemble_lines {D} (lines : list text) (module_name : text) : res (Value D) :=
  o ← assemble lines module_name; Ok (object_value o).
