(* ===== verification/AssemblerSpec.v ===== *)
(** * The assembler against a reference encoding

    The two passes are compared with a reference that has none: an environment
    read off the text (labels denote the sums of the sizes before them, the
    declarations name the exported and external symbols), the first error of
    the text, and the concatenation of the encodings of the lines. *)

From Stdlib Require Import Ascii.
From S2P Require Import Prelude CText ToolText Json JsonSpec Assembler.

(** ** Reference encoding *)

Definition le16 (n : Z) : list Z := [u8 n; u8 (Z.shiftr n 8)].

Definition enc_reg (name : text) : res (list Z) := r ← reg_index name; Ok [u8 r].

(** An operand word and, when it is a symbol, the relocation it needs. *)
Definition enc_value (st1 : pass1_state) (line_no addr : Z) (v : text) : res (list Z * list Reloc) :=
  match is_number v with
  | Ok true => n ← parse_number v; Ok (le16 n, [])
  | Ok false =>
      match map_find v (symbols st1) with
      | Some a => Ok (le16 a, [mk_reloc addr 2 v 0])
      | None => if existsb (text_equal v) (externs st1) then Ok (le16 0, [mk_reloc addr 2 v 0])
                else Err (EUndefined line_no v)
      end
  | Err e => Err e
  | Undefined => Undefined
  end.

Inductive shape := NoArgs | OneReg | TwoRegs | RegImm | RegValue | OneValue.

Definition instructions : list (text * (Z * shape)) :=
  [(txt "NOP", (0, NoArgs)); (txt "HALT", (1, NoArgs)); (txt "RET", (2, NoArgs)); (txt "LOADI", (16, RegImm));
   (txt "LOAD", (17, RegValue)); (txt "STORE", (18, RegValue)); (txt "ADD", (32, TwoRegs)); (txt "SUB", (33, TwoRegs));
   (txt "MUL", (34, TwoRegs)); (txt "DIV", (35, TwoRegs)); (txt "MOV", (36, TwoRegs)); (txt "JMP", (48, OneValue));
   (txt "JZ", (49, RegValue)); (txt "JNZ", (50, RegValue)); (txt "PRINT", (64, OneReg))].

Definition shape_size (s : shape) : Z :=
  match s with NoArgs => 1 | OneReg => 2 | TwoRegs => 3 | RegImm => 4 | RegValue => 4 | OneValue => 3 end.

Definition enc_args (st1 : pass1_state) (line_no addr : Z) (op : text) (s : shape) (args : list text)
    : res (list Z * list Reloc) :=
  match s, args with
  | NoArgs, _ => Ok ([], [])
  | OneReg, [a] => x ← enc_reg a; Ok (x, [])
  | TwoRegs, [a; b] => x ← enc_reg a; y ← enc_reg b; Ok (x ++ y, [])
  | RegImm, [a; b] => x ← enc_reg a; n ← parse_number b; Ok (x ++ le16 n, [])
  | RegValue, [a; b] => x ← enc_reg a; '(y, rs) ← enc_value st1 line_no (addr + 2) b; Ok (x ++ y, rs)
  | OneValue, [a] => enc_value st1 line_no (addr + 1) a
  | _, _ => Err (EOperand line_no op)
  end.

Definition enc_instr (st1 : pass1_state) (line_no addr : Z) (op : text) (args : list text)
    : res (list Z * list Reloc) :=
  match map_find op instructions with
  | None => Err (EUnknown line_no op)
  | Some (byte, s) => '(bs, rs) ← enc_args st1 line_no addr op s args; Ok (byte :: bs, rs)
  end.

(** Bytes, relocations and (new) entry point of one line placed at [addr]. *)
Definition enc_line (st1 : pass1_state) (line_no addr ent : Z) (line : text) : res (list Z * list Reloc * Z) :=
  match tokenize line with
  | [] => Ok ([], [], ent)
  | (t0 :: _) as tk =>
      let op := upper t0 in
      if is_op op ".GLOBAL" || is_op op ".EXTERN" then Ok ([], [], ent)
      else if is_op op ".ENTRY" then
        sym ← operand line_no op tk;
        match map_find sym (symbols st1) with
        | None => Err (EEntry line_no sym)
        | Some a => Ok ([], [], a)
        end
      else if is_op op ".BYTE" then v ← operand line_no op tk; n ← parse_number v; Ok ([u8 n], [], ent)
      else if is_op op ".WORD" then
        v ← operand line_no op tk; '(bs, rs) ← enc_value st1 line_no addr v; Ok (bs, rs, ent)
      else if is_op op ".SPACE" then
        v ← operand line_no op tk; n ← parse_number v; Ok (replicate (Z.to_nat n) 0, [], ent)
      else
        '(bs, rs) ← enc_instr st1 line_no addr op (split_args (trim (drop (length t0) line)));
        Ok (bs, rs, ent)
  end.

Fixpoint enc_lines (st1 : pass1_state) (addr ent : Z) (lines : list (Z * text)) : res (list Z * list Reloc * Z) :=
  match lines with
  | [] => Ok ([], [], ent)
  | (line_no, line) :: lines' =>
      '(bs, rs, ent) ← enc_line st1 line_no addr ent line;
      '(bs', rs', ent) ← enc_lines st1 (addr + Z.of_nat (length bs)) ent lines';
      Ok (bs ++ bs', rs ++ rs', ent)
  end.

(** ** Sizes *)

Definition number_or_0 (v : text) : Z := match parse_number v with Ok n => n | _ => 0 end.

(** The number of bytes the first pass reserves for a line. *)
Definition line_size (line : text) : Z :=
  match tokenize line with
  | [] => 0
  | t0 :: tk =>
      let op := upper t0 in
      if is_op op ".GLOBAL" || is_op op ".EXTERN" || is_op op ".ENTRY" then 0
      else if is_op op ".WORD" then 2
      else if is_op op ".SPACE" then match tk with v :: _ => number_or_0 v | [] => 0 end
      else if is_op op ".BYTE" then 1
      else from_option (λ i, shape_size i.2) 0 (map_find op instructions)
  end.

#[local] Arguments line_size : simpl never.

(** ** Writes at the end of the emitted code *)

Lemma vset_app {A} (pre : list A) x v suf i :
  i = Z.of_nat (length pre) → vset (pre ++ x :: suf) i v = Ok (pre ++ v :: suf).
Proof.
  intros ->. unfold vset. rewrite (proj2 (Z.ltb_ge _ 0)), (proj2 (Z.leb_gt _ _)); [|rewrite length_app; cbn; lia|lia].
  cbn [orb]. rewrite Nat2Z.id. by rewrite insert_app_r_alt, Nat.sub_diag by lia.
Qed.

Lemma vset_app_at {A} (pre mid : list A) x v suf i :
  i = Z.of_nat (length pre + length mid) → vset (pre ++ mid ++ x :: suf) i v = Ok (pre ++ mid ++ v :: suf).
Proof. intros ->. rewrite !app_assoc. rewrite <- !app_assoc, !(app_assoc pre). apply vset_app. by rewrite length_app. Qed.

Lemma emit_u16_app pre mid x y suf i n :
  i = Z.of_nat (length pre + length mid) →
  emit_u16 (pre ++ mid ++ x :: y :: suf) i n = Ok (pre ++ mid ++ le16 n ++ suf).
Proof.
  intros Hi. unfold emit_u16. rewrite vset_app_at by done. cbn [mbind res_bind].
  change (u8 n :: y :: suf) with ([u8 n] ++ y :: suf). rewrite (app_assoc mid).
  rewrite vset_app_at by (rewrite length_app; cbn; lia). by rewrite <- app_assoc.
Qed.

Lemma emit_reg_app pre mid x suf i a :
  i = Z.of_nat (length pre + length mid) →
  emit_reg (pre ++ mid ++ x :: suf) i a = bs ← enc_reg a; Ok (pre ++ (mid ++ bs) ++ suf).
Proof.
  intros Hi. unfold emit_reg, enc_reg. destruct (reg_index a); cbn [mbind res_bind]; try done.
  rewrite vset_app_at by done. by rewrite <- app_assoc.
Qed.

Lemma emit_value_app st1 no pre mid x y suf i v relocs :
  i = Z.of_nat (length pre + length mid) →
  emit_value st1 no (pre ++ mid ++ x :: y :: suf) i v relocs =
  '(bs, rs) ← enc_value st1 no i v; Ok (pre ++ mid ++ bs ++ suf, relocs ++ rs).
Proof.
  intros Hi. unfold emit_value, enc_value. destruct (is_number v) as [[]| |]; cbn [mbind res_bind]; try done.
  - destruct (parse_number v); cbn [mbind res_bind]; try done. rewrite emit_u16_app by done.
    cbn [mbind res_bind]. by rewrite app_nil_r.
  - unfold emit_symbol_u16. destruct (map_find v (symbols st1)).
    + by rewrite emit_u16_app.
    + destruct (existsb _ _); [|done]. by rewrite emit_u16_app.
Qed.

Lemma enc_reg_length a bs : enc_reg a = Ok bs → length bs = 1%nat.
Proof. unfold enc_reg. destruct (reg_index a); cbn; by intros [= <-]. Qed.

Lemma enc_value_length st1 no i v bs rs : enc_value st1 no i v = Ok (bs, rs) → length bs = 2%nat.
Proof.
  unfold enc_value. destruct (is_number v) as [[]| |]; try done.
  - destruct (parse_number v); cbn; try done. by intros [= <- _].
  - destruct (map_find _ _); [by intros [= <- _]|]. destruct (existsb _ _); [by intros [= <- _]|done].
Qed.

Lemma enc_args_length st1 no i op s args bs rs :
  enc_args st1 no i op s args = Ok (bs, rs) → Z.of_nat (length bs) + 1 = shape_size s.
Proof.
  assert (∀ (r : res (list Z)) f (x : list Z * list Reloc), r ≫= f = Ok x → ∃ b, r = Ok b ∧ f b = Ok x) as Hb
    by (intros r f x; apply res_bind_Ok).
  destruct s, args as [|a [|b [|c args]]]; cbn [enc_args]; try done; try (by intros [= <- _]).
  - intros (x & Hx & [= <- _])%Hb. by rewrite (enc_reg_length _ _ Hx).
  - intros (x & Hx & (y & Hy & [= <- _])%Hb)%Hb. rewrite length_app, (enc_reg_length _ _ Hx), (enc_reg_length _ _ Hy). done.
  - intros (x & Hx & (n & _ & [= <- _])%res_bind_Ok)%Hb. rewrite length_app, (enc_reg_length _ _ Hx). done.
  - intros (x & Hx & ([y rs'] & Hy & [= <- _])%res_bind_Ok)%Hb.
    rewrite length_app, (enc_reg_length _ _ Hx), (enc_value_length _ _ _ _ _ _ Hy). done.
  - intros Hv. by rewrite (enc_value_length _ _ _ _ _ _ Hv).
Qed.

(** The fifteen mnemonics. *)
Lemma map_find_elem {V} k (v : V) o : map_find k o = Some v → (k, v) ∈ o.
Proof.
  induction o as [|[k' v'] o IH]; [done|]. cbn. destruct (text_equal k k') eqn:E.
  - apply text_equal_eq in E as ->. intros [= ->]. apply elem_of_cons. by left.
  - intros H. apply elem_of_cons. right. by apply IH.
Qed.

Lemma instruction_tables op :
  map_find op opmap = fst <$> map_find op instructions ∧
  map_find op kInstrSizes = (λ i, shape_size i.2) <$> map_find op instructions.
Proof. unfold opmap, kInstrSizes, instructions. cbn [map_find]. repeat case_bool; done. Qed.

Definition emit_args (st1 : pass1_state) (no : Z) (code : list Z) (pc : Z) (op : text) (s : shape)
    (args : list text) (relocs : list Reloc) : res (list Z * list Reloc * Z) :=
  match s, args with
  | NoArgs, _ => Ok (code, relocs, pc + 1)
  | OneReg, [a] => code ← emit_reg code (pc + 1) a; Ok (code, relocs, pc + 2)
  | TwoRegs, [a; b] => code ← emit_reg code (pc + 1) a; code ← emit_reg code (pc + 2) b; Ok (code, relocs, pc + 3)
  | RegImm, [a; b] => code ← emit_reg code (pc + 1) a; imm ← parse_number b; code ← emit_u16 code (pc + 2) imm;
                      Ok (code, relocs, pc + 4)
  | RegValue, [a; b] => code ← emit_reg code (pc + 1) a; '(code, relocs) ← emit_value st1 no code (pc + 2) b relocs;
                        Ok (code, relocs, pc + 4)
  | OneValue, [a] => '(code, relocs) ← emit_value st1 no code (pc + 1) a relocs; Ok (code, relocs, pc + 3)
  | _, _ => Err (EOperand no op)
  end.

(** The chain of mnemonic tests, by operand shape. *)
Lemma encode_by_shape st1 no code pc op args relocs :
  encode_instruction st1 no code pc op args relocs =
  match map_find op instructions with
  | None => Err (EUnknown no op)
  | Some (byte, s) => code ← vset code pc byte; emit_args st1 no code pc op s args relocs
  end.
Proof.
  unfold encode_instruction. rewrite (proj1 (instruction_tables op)).
  destruct (map_find op instructions) as [[byte s]|] eqn:E; [|done]. cbn [fmap option_fmap option_map fst].
  destruct (vset code pc byte) as [code'| |]; cbn [mbind res_bind]; try done.
  apply map_find_elem in E. unfold instructions in E.
  repeat (apply elem_of_cons in E as [[= -> -> ->]|E]; [destruct args as [|? [|? [|? ?]]]; reflexivity|]).
  by apply elem_of_nil in E.
Qed.

(** The zeros left after an instruction. *)
Ltac sub_to k :=
  match goal with |- context [replicate (?a - ?b) 0] => replace (a - b)%nat with k by (cbn [length]; lia) end;
  cbn [app]; rewrite <- ?app_assoc.

Lemma encode_app st1 no pre k pc op args relocs :
  pc = Z.of_nat (length pre) →
  match map_find op instructions with Some (_, s) => shape_size s <= Z.of_nat k | None => True end →
  encode_instruction st1 no (pre ++ replicate k 0) pc op args relocs =
  '(bs, rs) ← enc_instr st1 no pc op args;
  Ok (pre ++ bs ++ replicate (k - length bs) 0, relocs ++ rs, pc + Z.of_nat (length bs)).
Proof.
  intros Hpc Hk. rewrite encode_by_shape. unfold enc_instr.
  destruct (map_find op instructions) as [[byte s]|]; [|done].
  destruct k as [|k]; [destruct s; cbn in Hk; lia|]. cbn [replicate]. rewrite vset_app by done. cbn [mbind res_bind].
  destruct s, args as [|a [|b [|c args]]]; try done; cbn [emit_args enc_args shape_size mbind res_bind] in *;
    try (rewrite (app_nil_r relocs); change (S k - length [byte])%nat with (k - 0)%nat; rewrite Nat.sub_0_r; reflexivity).
  - destruct k as [|k]; [lia|]. cbn [replicate]. change (byte :: 0 :: replicate k 0) with ([byte] ++ 0 :: replicate k 0).
    rewrite emit_reg_app by (cbn; lia). destruct (enc_reg a) as [x| |] eqn:Ex; cbn [mbind res_bind]; try done.
    rewrite (app_nil_r relocs). cbn [app length]. rewrite (enc_reg_length _ _ Ex). by sub_to k.
  - destruct k as [|[|k]]; [lia|lia|]. cbn [replicate].
    change (byte :: 0 :: 0 :: replicate k 0) with ([byte] ++ 0 :: 0 :: replicate k 0).
    rewrite emit_reg_app by (cbn; lia). destruct (enc_reg a) as [x| |] eqn:Ex; cbn [mbind res_bind]; try done.
    rewrite emit_reg_app by (rewrite length_app, (enc_reg_length _ _ Ex); cbn; lia).
    destruct (enc_reg b) as [y| |] eqn:Ey; cbn [mbind res_bind]; try done.
    rewrite (app_nil_r relocs), <- app_assoc. cbn [app length].
    rewrite length_app, (enc_reg_length _ _ Ex), (enc_reg_length _ _ Ey). by sub_to k.
  - destruct k as [|[|[|k]]]; [lia..|]. cbn [replicate].
    change (byte :: 0 :: 0 :: 0 :: replicate k 0) with ([byte] ++ 0 :: 0 :: 0 :: replicate k 0).
    rewrite emit_reg_app by (cbn; lia). destruct (enc_reg a) as [x| |] eqn:Ex; cbn [mbind res_bind]; try done.
    destruct (parse_number b) as [n| |]; cbn [mbind res_bind]; try done.
    rewrite emit_u16_app by (rewrite length_app, (enc_reg_length _ _ Ex); cbn; lia). cbn [mbind res_bind].
    rewrite (app_nil_r relocs), <- app_assoc. cbn [app length]. rewrite length_app, (enc_reg_length _ _ Ex).
    rewrite <- app_assoc. cbn [length le16]. by sub_to k.
  - destruct k as [|[|[|k]]]; [lia..|]. cbn [replicate].
    change (byte :: 0 :: 0 :: 0 :: replicate k 0) with ([byte] ++ 0 :: 0 :: 0 :: replicate k 0).
    rewrite emit_reg_app by (cbn; lia). destruct (enc_reg a) as [x| |] eqn:Ex; cbn [mbind res_bind]; try done.
    rewrite emit_value_app by (rewrite length_app, (enc_reg_length _ _ Ex); cbn; lia).
    destruct (enc_value st1 no (pc + 2) b) as [[y rs]| |] eqn:Ey; cbn [mbind res_bind]; try done.
    rewrite <- app_assoc. cbn [app length]. rewrite length_app, (enc_reg_length _ _ Ex), (enc_value_length _ _ _ _ _ _ Ey).
    rewrite <- app_assoc. by sub_to k.
  - destruct k as [|[|k]]; [lia..|]. cbn [replicate].
    change (byte :: 0 :: 0 :: replicate k 0) with ([byte] ++ 0 :: 0 :: replicate k 0).
    rewrite emit_value_app by (cbn; lia).
    destruct (enc_value st1 no (pc + 1) a) as [[y rs]| |] eqn:Ey; cbn [mbind res_bind]; try done.
    cbn [app length]. rewrite (enc_value_length _ _ _ _ _ _ Ey). by sub_to k.
Qed.

(** ** One line of the second pass *)

Lemma fill_zero_app n : ∀ pre k pc,
  pc = Z.of_nat (length pre) → (n <= k)%nat →
  fill_zero n (pre ++ replicate k 0) pc = Ok (pre ++ replicate k 0).
Proof.
  induction n as [|n IH]; intros pre k pc Hpc Hk; [done|]. destruct k as [|k]; [lia|].
  cbn [fill_zero replicate]. rewrite vset_app by done. cbn [mbind res_bind].
  change (0 :: replicate k 0) with ([0] ++ replicate k 0). rewrite app_assoc. apply IH; [|lia].
  rewrite length_app. cbn. lia.
Qed.

Lemma is_op_eq op name : is_op op name = true → op = txt name.
Proof. apply text_equal_eq. Qed.

Lemma enc_line_length st1 no addr ent line bs rs ent' :
  enc_line st1 no addr ent line = Ok (bs, rs, ent') → 0 <= line_size line →
  Z.of_nat (length bs) = line_size line.
Proof.
  unfold enc_line, line_size. destruct (tokenize line) as [|t0 tk]; [by intros [= <- _ _]|].
  destruct (is_op (upper t0) ".GLOBAL" || is_op (upper t0) ".EXTERN") eqn:E1; [by intros [= <- _ _]|]. cbn [orb].
  destruct (is_op (upper t0) ".ENTRY") eqn:E2.
  { intros (sym & _ & H)%res_bind_Ok. destruct (map_find _ _); [by injection H as <- _ _|done]. }
  destruct (is_op (upper t0) ".BYTE") eqn:E3.
  { apply is_op_eq in E3. rewrite E3. intros (v & _ & (n & _ & [= <- _ _])%res_bind_Ok)%res_bind_Ok. done. }
  destruct (is_op (upper t0) ".WORD") eqn:E4.
  { intros (v & _ & ([b r] & Hv & [= <- _ _])%res_bind_Ok)%res_bind_Ok. by rewrite (enc_value_length _ _ _ _ _ _ Hv). }
  destruct (is_op (upper t0) ".SPACE") eqn:E5.
  { intros (v & Hv & (n & Hn & [= <- _ _])%res_bind_Ok)%res_bind_Ok. rewrite length_replicate.
    destruct tk as [|w tk]; [done|]. injection Hv as ->. unfold number_or_0. rewrite Hn. lia. }
  intros ([b r] & Hi & [= <- _ _])%res_bind_Ok _. revert Hi. unfold enc_instr.
  destruct (map_find _ instructions) as [[byte s]|]; [|done].
  intros ([b' r'] & Ha & [= <- _])%res_bind_Ok. cbn [from_option snd length].
  pose proof (enc_args_length _ _ _ _ _ _ _ _ Ha). lia.
Qed.

Lemma pass2_line_app st1 no line pre k relocs ent pc :
  pc = Z.of_nat (length pre) → 0 <= line_size line <= Z.of_nat k →
  pc + Z.of_nat k <= 9223372036854775807 →
  pass2_line st1 no line (mk_pass2 (pre ++ replicate k 0) relocs ent pc) =
  '(bs, rs, ent') ← enc_line st1 no pc ent line;
  Ok (mk_pass2 (pre ++ bs ++ replicate (k - length bs) 0) (relocs ++ rs) ent' (pc + Z.of_nat (length bs))).
Proof.
  intros Hpc Hs Hmax. unfold line_size in Hs. unfold pass2_line, enc_line.
  assert (∀ e, Ok (mk_pass2 (pre ++ replicate k 0) relocs e pc) =
    Ok (mk_pass2 (pre ++ [] ++ replicate (k - length (@nil Z)) 0) (relocs ++ []) e (pc + Z.of_nat (length (@nil Z))))) as Hnil.
  { intros e. cbn [app length]. by rewrite Nat.sub_0_r, app_nil_r, Z.add_0_r. }
  destruct (tokenize line) as [|t0 tk]; [apply Hnil|]. cbn [code relocations entry pc2].
  destruct (is_op (upper t0) ".GLOBAL" || is_op (upper t0) ".EXTERN") eqn:E1; [apply Hnil|]. cbn [orb] in Hs.
  destruct (is_op (upper t0) ".ENTRY") eqn:E2.
  { destruct (operand _ _ _) as [sym| |]; try done. cbn [mbind res_bind].
    destruct (map_find sym (symbols st1)); [apply Hnil|done]. }
  destruct (is_op (upper t0) ".BYTE") eqn:E3.
  { apply is_op_eq in E3. rewrite E3 in Hs. cbn in Hs. destruct k as [|k]; [lia|].
    destruct (operand _ _ _) as [v| |]; try done. cbn [mbind res_bind].
    destruct (parse_number v) as [n| |]; try done. cbn [mbind res_bind replicate]. rewrite vset_app by done.
    cbn [mbind res_bind]. rewrite app_nil_r. change (S k - length [u8 n])%nat with (k - 0)%nat. by rewrite Nat.sub_0_r. }
  destruct (is_op (upper t0) ".WORD") eqn:E4.
  { destruct k as [|[|k]]; [lia|lia|]. destruct (operand _ _ _) as [v| |]; try done. cbn [mbind res_bind replicate].
    change (pre ++ 0 :: 0 :: replicate k 0) with (pre ++ [] ++ 0 :: 0 :: replicate k 0).
    rewrite emit_value_app by (cbn; lia). destruct (enc_value st1 no pc v) as [[bs rs]| |] eqn:Ev; try done.
    cbn [mbind res_bind app]. rewrite (enc_value_length _ _ _ _ _ _ Ev). by sub_to k. }
  destruct (is_op (upper t0) ".SPACE") eqn:E5.
  { destruct tk as [|v tk]; [done|]. cbn [operand mbind res_bind]. unfold number_or_0 in Hs.
    destruct (parse_number v) as [n| |]; try done. cbn [mbind res_bind].
    rewrite fill_zero_app by (done || lia). cbn [mbind res_bind]. rewrite i64_small by lia. cbn [mbind res_bind].
    rewrite length_replicate, app_nil_r, <- replicate_add, Z2Nat.id by lia.
    by replace (Z.to_nat n + (k - Z.to_nat n))%nat with k by lia. }
  rewrite encode_app; [|done|].
  2:{ destruct (map_find _ instructions) as [[b s]|]; [|done]. cbn in Hs. lia. }
  destruct (enc_instr _ _ _ _ _) as [[bs rs]| |]; done.
Qed.

(** ** The second pass *)

Definition total_size (lines : list (Z * text)) : Z := foldr (λ l n, line_size l.2 + n) 0 lines.
Definition sizes_ok (lines : list (Z * text)) : Prop := Forall (λ l, 0 <= line_size l.2) lines.

Lemma total_size_cons l lines : total_size (l :: lines) = line_size l.2 + total_size lines.
Proof. done. Qed.

#[local] Arguments total_size : simpl never.

Lemma total_size_nonneg lines : sizes_ok lines → 0 <= total_size lines.
Proof.
  induction 1 as [|l ls Hl _ IH]; [done|]. rewrite total_size_cons. lia.
Qed.

Lemma pass2_app st1 lines : ∀ pre k relocs ent pc,
  pc = Z.of_nat (length pre) → sizes_ok lines → total_size lines <= Z.of_nat k →
  pc + Z.of_nat k <= 9223372036854775807 →
  pass2 st1 lines (mk_pass2 (pre ++ replicate k 0) relocs ent pc) =
  '(bs, rs, ent') ← enc_lines st1 pc ent lines;
  Ok (mk_pass2 (pre ++ bs ++ replicate (k - length bs) 0) (relocs ++ rs) ent' (pc + Z.of_nat (length bs))).
Proof.
  induction lines as [|[no line] lines IH]; intros pre k relocs ent pc Hpc Hs Hk Hmax; cbn [pass2 enc_lines].
  { cbn [mbind res_bind app length]. by rewrite Nat.sub_0_r, app_nil_r, Z.add_0_r. }
  inversion Hs as [|? ? Hl Hs']; subst. rewrite total_size_cons in Hk. cbn in Hl, Hk.
  pose proof (total_size_nonneg lines Hs').
  rewrite pass2_line_app by lia.
  destruct (enc_line st1 no (Z.of_nat (length pre)) ent line) as [[[bs rs] ent']| |] eqn:E; try done.
  pose proof (enc_line_length _ _ _ _ _ _ _ _ E Hl) as Hlen. cbn [mbind res_bind].
  rewrite app_assoc, IH; [|rewrite length_app; lia|done|lia|lia].
  destruct (enc_lines st1 _ ent' lines) as [[[bs' rs'] ent'']| |]; try done. cbn [mbind res_bind].
  rewrite length_app, <- !app_assoc, Nat.sub_add_distr, Nat2Z.inj_add, Z.add_assoc. done.
Qed.

Lemma enc_lines_length st1 lines : ∀ addr ent bs rs ent',
  enc_lines st1 addr ent lines = Ok (bs, rs, ent') → sizes_ok lines → Z.of_nat (length bs) = total_size lines.
Proof.
  induction lines as [|[no line] lines IH]; intros addr ent bs rs ent'; cbn [enc_lines]; [by intros [= <- _ _]|].
  intros ([[b r] e] & H1 & ([[b' r'] e'] & H2 & [= <- _ _])%res_bind_Ok)%res_bind_Ok Hs.
  inversion Hs as [|? ? Hl Hs']; subst. cbn in Hl.
  rewrite total_size_cons, length_app. cbn [snd]. rewrite Nat2Z.inj_add, (IH _ _ _ _ _ H2 Hs'), (enc_line_length _ _ _ _ _ _ _ _ H1 Hl). lia.
Qed.

(** ** The first pass *)

(** The text before the first character that satisfies [p], and what follows it. *)
Fixpoint before (p : ascii → bool) (t : text) : text :=
  match t with [] => [] | c :: t' => if p c then [] else c :: before p t' end.
Fixpoint after (p : ascii → bool) (t : text) : option text :=
  match t with [] => None | c :: t' => if p c then Some t' else after p t' end.

(** The label and the remaining text of a source line: a comment starts at the
    first [;] or [#], a label ends at the first colon, if it is not empty. *)
Definition split_line (raw : text) : option text * option text :=
  let line := trim (before (λ c, Ascii.eqb c ";" || Ascii.eqb c "#") raw) in
  let body t := match t with [] => None | _ => Some t end in
  match trim (before (λ c, Ascii.eqb c ":") line), after (λ c, Ascii.eqb c ":") line with
  | (_ :: _) as label, Some rest => (Some label, body (trim rest))
  | _, _ => (None, body line)
  end.

Fixpoint bodies (line_no : Z) (lines : list text) : list (Z * text) :=
  match lines with
  | [] => []
  | raw :: lines' =>
      match (split_line raw).2 with
      | Some body => (line_no, body) :: bodies (line_no + 1) lines'
      | None => bodies (line_no + 1) lines'
      end
  end.

Definition body_size (b : option text) : Z := from_option line_size 0 b.

(** Each label with the sum of the sizes of the lines before it. *)
Fixpoint labels (addr : Z) (lines : list text) : list (text * Z) :=
  match lines with
  | [] => []
  | raw :: lines' =>
      let '(label, body) := split_line raw in
      let rest := labels (addr + body_size body) lines' in
      match label with Some l => (l, addr) :: rest | None => rest end
  end.

Definition add_labels (ls m : list (text * Z)) : list (text * Z) :=
  fold_left (λ m '(l, a), map_set l a m) ls m.

(** What the lines declare, and the environment they are encoded in. *)
Definition declared (name : string) (line : text) : option text :=
  match tokenize line with
  | t0 :: v :: _ => if is_op (upper t0) name then Some v else None
  | _ => None
  end.
Definition declarations (name : string) (lines : list (Z * text)) : list text := omap (λ l, declared name l.2) lines.

Definition environment (lines : list text) : pass1_state :=
  let b := bodies 1 lines in
  mk_pass1 (add_labels (labels 0 lines) []) (declarations ".GLOBAL" b) (declarations ".EXTERN" b) b (total_size b).

(** What can be wrong with a line by itself: a missing operand, a size that is
    no number or leaves the 64-bit range, a mnemonic there is not. *)
Definition line_error (line_no addr : Z) (line : text) : res unit :=
  let fits := _ ← i64 (addr + line_size line); Ok tt in
  match tokenize line with
  | [] => Ok tt
  | t0 :: ws =>
      let op := upper t0 in
      if is_op op ".ENTRY" then Ok tt
      else if is_op op ".GLOBAL" || is_op op ".EXTERN" then
        match ws with [] => Err (EOperand line_no op) | _ => Ok tt end
      else if is_op op ".SPACE" then
        match ws with [] => Err (EOperand line_no op) | v :: _ => _ ← parse_number v; fits end
      else if is_op op ".BYTE" || is_op op ".WORD" then fits
      else match map_find op instructions with None => Err (EUnknown line_no t0) | Some _ => fits end
  end.

(** The first error of the text; [seen] are the labels above. *)
Fixpoint first_error (line_no addr : Z) (seen : list text) (lines : list text) : res unit :=
  match lines with
  | [] => Ok tt
  | raw :: lines' =>
      let '(label, body) := split_line raw in
      _ ← match label with
          | Some l => if decide (l ∈ seen) then Err (EDuplicate line_no l) else Ok tt
          | None => Ok tt
          end;
      _ ← match body with Some b => line_error line_no addr b | None => Ok tt end;
      first_error (line_no + 1) (addr + body_size body) (from_option (λ l, [l]) [] label ++ seen) lines'
  end.

Lemma find_char_cut c t :
  match find_char c t with
  | None => before (λ x, Ascii.eqb x c) t = t ∧ after (λ x, Ascii.eqb x c) t = None
  | Some n => before (λ x, Ascii.eqb x c) t = take n t ∧ after (λ x, Ascii.eqb x c) t = Some (drop (S n) t)
  end.
Proof.
  induction t as [|x t IH]; cbn [find_char before after]; [done|]. destruct (Ascii.eqb x c); [done|].
  destruct (find_char c t); cbn; destruct IH as [-> ->]; done.
Qed.

Lemma strip_comment_before t : strip_comment t = before (λ c, Ascii.eqb c ";" || Ascii.eqb c "#") t.
Proof.
  unfold strip_comment. induction t as [|c t IH]; [done|]. cbn [find_char before].
  destruct (Ascii.eqb c ";") eqn:E1; cbn [orb earliest];
    [destruct (Ascii.eqb c "#"); [|destruct (find_char "#" t)]; done|].
  destruct (Ascii.eqb c "#"); [by destruct (find_char ";" t)|]. rewrite <- IH.
  destruct (find_char ";" t) as [p|], (find_char "#" t) as [q|];
    cbn [fmap option_fmap option_map earliest take]; try done.
  change (S q <? S p)%nat with (q <? p)%nat. by destruct (q <? p)%nat.
Qed.

(** The code's way of cutting a line. *)
Lemma split_line_code raw :
  split_line raw =
  match trim (strip_comment raw) with
  | [] => (None, None)
  | line =>
      let '(label, rest) := split_label line in
      match label with
      | [] => (None, Some line)
      | _ => (Some label, match rest with [] => None | _ => Some rest end)
      end
  end.
Proof.
  unfold split_line. rewrite <- strip_comment_before. destruct (trim (strip_comment raw)) as [|c line]; [done|].
  unfold split_label. pose proof (find_char_cut ":" (c :: line)) as H.
  destruct (find_char ":" (c :: line)) as [n|]; destruct H as [-> ->]; [|by destruct (trim (c :: line))].
  by destruct (trim (take n (c :: line))).
Qed.

Lemma i64_Ok z w : i64 z = Ok w → w = z ∧ -9223372036854775808 <= z <= 9223372036854775807.
Proof. unfold i64. destruct (_ && _) eqn:E; [|done]. intros [= <-]. zbool. lia. Qed.

Lemma pass1_body_ref no line s :
  pass1_body no line s =
  _ ← line_error no (pc1 s) line;
  Ok (mk_pass1 (symbols s) (globals_export s ++ declarations ".GLOBAL" [(no, line)])
        (externs s ++ declarations ".EXTERN" [(no, line)]) (parsed s ++ [(no, line)]) (pc1 s + line_size line)).
Proof.
  unfold pass1_body, line_error, declarations, declared, line_size. cbn [omap list_omap snd symbols globals_export externs parsed pc1].
  assert (∀ n, (pc ← i64 (pc1 s + n); Ok (mk_pass1 (symbols s) (globals_export s) (externs s) (parsed s ++ [(no, line)]) pc)) =
    _ ← (_ ← i64 (pc1 s + n); Ok tt);
    Ok (mk_pass1 (symbols s) (globals_export s ++ []) (externs s ++ []) (parsed s ++ [(no, line)]) (pc1 s + n))) as Hadv.
  { intros n. rewrite !app_nil_r. unfold i64. by destruct (_ && _). }
  assert (Ok (mk_pass1 (symbols s) (globals_export s) (externs s) (parsed s ++ [(no, line)]) (pc1 s)) =
    Ok (mk_pass1 (symbols s) (globals_export s ++ []) (externs s ++ []) (parsed s ++ [(no, line)]) (pc1 s + 0))) as Hstay
    by by rewrite !app_nil_r, Z.add_0_r.
  destruct (tokenize line) as [|t0 tk]; [exact Hstay|].
  destruct (is_op (upper t0) ".GLOBAL") eqn:E1.
  { apply is_op_eq in E1. rewrite E1. destruct tk; [done|]. cbn. by rewrite app_nil_r, Z.add_0_r. }
  destruct (is_op (upper t0) ".EXTERN") eqn:E2.
  { apply is_op_eq in E2. rewrite E2. destruct tk; [done|]. cbn. by rewrite app_nil_r, Z.add_0_r. }
  assert (∀ (l : list text) (X : text → option text), match tk with [] => None | v :: _ => None end = @None text) as Hn by by destruct tk.
  rewrite !(Hn [] Some). cbn [orb].
  destruct (is_op (upper t0) ".WORD") eqn:E3; [apply is_op_eq in E3; rewrite E3; apply Hadv|].
  destruct (is_op (upper t0) ".SPACE") eqn:E4.
  { apply is_op_eq in E4. rewrite E4. destruct tk as [|v tk]; [done|]. cbn [operand mbind res_bind].
    change (is_op (txt ".SPACE") ".ENTRY") with false. cbn iota. unfold number_or_0.
    destruct (parse_number v); cbn [mbind res_bind]; [apply Hadv|done..]. }
  destruct (is_op (upper t0) ".BYTE") eqn:E5; [apply is_op_eq in E5; rewrite E5; apply Hadv|].
  destruct (is_op (upper t0) ".ENTRY") eqn:E6; [exact Hstay|]. cbn [orb]. rewrite (proj2 (instruction_tables _)).
  destruct (map_find (upper t0) instructions) as [[byte sh]|]; [|done]. apply Hadv.
Qed.

Lemma line_error_fits no addr line :
  line_error no addr line = Ok tt → addr <= 9223372036854775807 → addr + line_size line <= 9223372036854775807.
Proof.
  assert ((_ ← i64 (addr + line_size line); Ok tt) = Ok tt → addr + line_size line <= 9223372036854775807) as Hf.
  { intros (w & [_ H]%i64_Ok & _)%res_bind_Ok. lia. }
  unfold line_error. intros H Hmax. assert (line_size line = 0 → addr + line_size line <= 9223372036854775807) as Hz by lia.
  destruct (tokenize line) as [|t0 tk] eqn:Et; [apply Hz; unfold line_size; by rewrite Et|].
  destruct (is_op (upper t0) ".ENTRY") eqn:E1; [apply Hz; unfold line_size; by rewrite Et, E1, orb_true_r|].
  destruct (is_op (upper t0) ".GLOBAL" || is_op (upper t0) ".EXTERN") eqn:E2;
    [apply Hz; unfold line_size; by rewrite Et, E2|].
  destruct (is_op (upper t0) ".SPACE").
  { destruct tk; [done|]. apply Hf. by apply res_bind_Ok in H as (n & _ & H). }
  destruct (is_op _ ".BYTE" || _); [exact (Hf H)|]. destruct (map_find (upper t0) instructions); [exact (Hf H)|done].
Qed.

(** The first pass, line by line. *)
Lemma pass1_line_ref no raw s :
  pass1_line no raw s =
  let '(label, body) := split_line raw in
  _ ← match label with
      | Some l => match map_find l (symbols s) with Some _ => Err (EDuplicate no l) | None => Ok tt end
      | None => Ok tt
      end;
  _ ← match body with Some b => line_error no (pc1 s) b | None => Ok tt end;
  let b := match body with Some b => [(no, b)] | None => [] end in
  Ok (mk_pass1 (match label with Some l => map_set l (pc1 s) (symbols s) | None => symbols s end)
        (globals_export s ++ declarations ".GLOBAL" b) (externs s ++ declarations ".EXTERN" b)
        (parsed s ++ b) (pc1 s + body_size body)).
Proof.
  rewrite split_line_code. unfold pass1_line. destruct (trim (strip_comment raw)) as [|c line].
  { cbn. rewrite !app_nil_r, Z.add_0_r. by destruct s. }
  destruct (split_label (c :: line)) as [[|lc label] rest]; [by rewrite pass1_body_ref|].
  destruct (map_find (lc :: label) (symbols s)); [done|]. destruct rest as [|rc rest].
  - cbn. by rewrite !app_nil_r, Z.add_0_r.
  - by rewrite pass1_body_ref.
Qed.

Lemma pass1_line_effect no raw s s' :
  pass1_line no raw s = Ok s' → pc1 s <= 9223372036854775807 →
  let '(label, body) := split_line raw in
  symbols s' = match label with Some l => map_set l (pc1 s) (symbols s) | None => symbols s end ∧
  (∀ l, label = Some l → map_find l (symbols s) = None) ∧
  parsed s' = parsed s ++ match body with Some b => [(no, b)] | None => [] end ∧
  pc1 s' = pc1 s + body_size body ∧ pc1 s' <= 9223372036854775807.
Proof.
  rewrite pass1_line_ref. destruct (split_line raw) as [label body].
  intros ([] & Hl & ([] & Hb & [= <-])%res_bind_Ok)%res_bind_Ok Hmax. cbn. split_and!; [done| |done|done|].
  - intros l ->. by destruct (map_find l (symbols s)).
  - destruct body as [b|]; cbn in *; [|lia]. by eapply line_error_fits.
Qed.

Lemma pass1_effect lines : ∀ no s s',
  pass1 no lines s = Ok s' → pc1 s <= 9223372036854775807 →
  symbols s' = add_labels (labels (pc1 s) lines) (symbols s) ∧
  parsed s' = parsed s ++ bodies no lines ∧
  pc1 s' = pc1 s + total_size (bodies no lines) ∧ pc1 s' <= 9223372036854775807.
Proof.
  induction lines as [|raw lines IH]; intros no s s'; cbn [pass1].
  { intros [= <-] ?. cbn. rewrite app_nil_r. change (total_size []) with 0. split_and!; [done|done|lia|done]. }
  intros (s1 & H1 & H2)%res_bind_Ok Hmax. pose proof (pass1_line_effect _ _ _ _ H1 Hmax) as He.
  cbn [labels bodies]. destruct (split_line raw) as [label body]. destruct He as (Hs & _ & Hp & Hpc & Hm).
  destruct (IH _ _ _ H2 Hm) as (-> & -> & -> & ?). rewrite Hs, Hp, Hpc. cbn [snd]. split_and!.
  - by destruct label.
  - rewrite <- app_assoc. by destruct body.
  - destruct body; cbn [body_size from_option]; rewrite ?total_size_cons; cbn [snd]; lia.
  - rewrite Hpc in *. lia.
Qed.

(** ** Symbol tables *)

Lemma map_find_set {V} k j (v : V) o :
  map_find j (map_set k v o) = if text_equal j k then Some v else map_find j o.
Proof.
  induction o as [|[k' v'] o IH]; cbn; [done|].
  destruct (text_equal k k') eqn:E1; [|destruct (text_lt k k')]; cbn; [| |rewrite IH].
  - apply text_equal_eq in E1 as ->. by destruct (text_equal j k').
  - done.
  - destruct (text_equal j k') eqn:E2, (text_equal j k) eqn:E3; try done.
    apply text_equal_eq in E2 as ->, E3 as ->. by rewrite text_equal_refl in E1.
Qed.

Lemma map_set_keys {V} k (v : V) o k' : k' ∈ (map_set k v o).*1 → k' = k ∨ k' ∈ o.*1.
Proof.
  induction o as [|[j w] o IH]; cbn; [set_solver|].
  destruct (text_equal k j) eqn:E; [apply text_equal_eq in E as ->|destruct (text_lt k j)]; cbn; set_solver.
Qed.

Lemma map_set_sorted {V} k (v : V) o : keys_sorted o.*1 → keys_sorted (map_set k v o).*1.
Proof.
  induction o as [|[j w] o IH]; [by repeat constructor|]. cbn. intros [Hj Ho].
  destruct (text_equal k j) eqn:E; [apply text_equal_eq in E as ->; by split|].
  destruct (text_lt k j) eqn:E2; cbn.
  - split; [|by split]. constructor; [done|]. eapply Forall_impl; [exact Hj|]. intros x. by apply text_lt_trans.
  - split; [|by apply IH]. apply Forall_forall. intros x [->|Hx]%map_set_keys; [by apply text_lt_total|].
    by apply (proj1 (Forall_forall _ _) Hj).
Qed.

(** Duplicate labels are refused, so every label keeps its first address. *)
Lemma pass1_labels lines : ∀ no s s',
  pass1 no lines s = Ok s' → pc1 s <= 9223372036854775807 →
  (∀ l a, map_find l (symbols s) = Some a → map_find l (symbols s') = Some a) ∧
  (∀ l a, (l, a) ∈ labels (pc1 s) lines → map_find l (symbols s') = Some a).
Proof.
  induction lines as [|raw lines IH]; intros no s s'; cbn [pass1].
  { intros [= <-] _. split; [done|]. by intros l a ?%elem_of_nil. }
  intros (s1 & H1 & H2)%res_bind_Ok Hmax. pose proof (pass1_line_effect _ _ _ _ H1 Hmax) as He.
  cbn [labels]. destruct (split_line raw) as [label body]. destruct He as (Hs & Hn & _ & Hpc & Hm).
  destruct (IH _ _ _ H2 Hm) as [IH1 IH2]. rewrite Hpc in IH2. destruct label as [l0|]; [|by rewrite Hs in IH1].
  split.
  - intros l a Ha. apply IH1. rewrite Hs, map_find_set. destruct (text_equal l l0) eqn:E; [|done].
    apply text_equal_eq in E as ->. by rewrite (Hn l0) in Ha.
  - intros l a [[= -> ->]|Hin]%elem_of_cons; [|by apply IH2]. apply IH1. by rewrite Hs, map_find_set, text_equal_refl.
Qed.

(** The first pass finds the first error of the text, or builds its environment. *)
Lemma declarations_app name l1 l2 : declarations name (l1 ++ l2) = declarations name l1 ++ declarations name l2.
Proof. apply omap_app. Qed.

Lemma pass1_ref lines : ∀ no seen s,
  (∀ l, l ∈ seen ↔ is_Some (map_find l (symbols s))) →
  pass1 no lines s =
  _ ← first_error no (pc1 s) seen lines;
  Ok (mk_pass1 (add_labels (labels (pc1 s) lines) (symbols s)) (globals_export s ++ declarations ".GLOBAL" (bodies no lines))
        (externs s ++ declarations ".EXTERN" (bodies no lines)) (parsed s ++ bodies no lines)
        (pc1 s + total_size (bodies no lines))).
Proof.
  induction lines as [|raw lines IH]; intros no seen s Hseen; cbn [pass1 first_error labels bodies].
  { cbn. change (total_size []) with 0. rewrite !app_nil_r, Z.add_0_r. by destruct s. }
  rewrite pass1_line_ref. destruct (split_line raw) as [label body].
  assert (match label with
      | Some l => match map_find l (symbols s) with Some _ => Err (EDuplicate no l) | None => Ok tt end
      | None => Ok tt end =
    match label with Some l => if decide (l ∈ seen) then Err (EDuplicate no l) else Ok tt | None => Ok tt end) as ->.
  { destruct label as [l|]; [|done]. specialize (Hseen l). destruct (map_find l (symbols s)) eqn:E.
    - by rewrite decide_True by (apply Hseen; eauto).
    - rewrite decide_False; [done|]. intros [? ?]%Hseen. done. }
  match goal with |- mbind _ (mbind _ ?x) = _ => destruct x as [[]| |]; [|done..] end. cbn [mbind res_bind snd].
  match goal with |- mbind _ (mbind _ ?x) = _ => destruct x as [[]| |]; [|done..] end. cbn [mbind res_bind].
  rewrite (IH _ (from_option (λ l, [l]) [] label ++ seen)).
  2:{ intros l. cbn [symbols]. destruct label as [l0|]; [|apply Hseen]. cbn. rewrite map_find_set, elem_of_cons, Hseen.
      destruct (text_equal l l0) eqn:E; [apply text_equal_eq in E as ->; split; [eauto|by left]|].
      split; [intros [->|H]; [by rewrite text_equal_refl in E|done]|by right]. }
  cbn [symbols globals_export externs parsed pc1]. destruct (first_error _ _ _ _) as [[]| |]; [|done..]. cbn [mbind res_bind].
  rewrite <- !app_assoc, <- !declarations_app. destruct label, body; cbn [body_size from_option app add_labels fold_left];
    rewrite ?total_size_cons; cbn [snd]; rewrite ?Z.add_assoc, ?Z.add_0_r; done.
Qed.

(** ** The assembler *)

(** The first error of the lines, or their encodings in the environment of the
    whole text. *)
Definition ref_assemble (lines : list text) (module_name : text) : res ObjectFile :=
  let env := environment lines in
  _ ← first_error 1 0 [] lines;
  '(bs, rs, ent) ← enc_lines env 0 0 (bodies 1 lines);
  match filter (λ g, g ∉ (labels 0 lines).*1) (declarations ".GLOBAL" (bodies 1 lines)) with
  | [] => Ok (mk_object module_name (total_size (bodies 1 lines)) bs (symbols env)
                (sort_unique (globals_export env)) (sort_unique (externs env)) ent rs)
  | undefined => Err (EGlobals undefined)
  end.

Lemma pass1_environment lines : pass1 1 lines (mk_pass1 [] [] [] [] 0) = _ ← first_error 1 0 [] lines; Ok (environment lines).
Proof.
  rewrite (pass1_ref _ _ []); [done|]. intros l. cbn. split; [by intros ?%elem_of_nil|by intros [? ?]].
Qed.

Lemma add_labels_domain ls : ∀ m l, map_find l (add_labels ls m) = None ↔ l ∉ ls.*1 ∧ map_find l m = None.
Proof.
  induction ls as [|[k a] ls IH]; intros m l; cbn; [split; [split; [apply not_elem_of_nil|done]|by intros [_ ?]]|].
  rewrite IH, map_find_set, not_elem_of_cons. destruct (text_equal l k) eqn:E.
  - apply text_equal_eq in E as ->. naive_solver.
  - assert (l ≠ k) by (intros ->; by rewrite text_equal_refl in E). naive_solver.
Qed.

Lemma assemble_ref lines m : sizes_ok (bodies 1 lines) → assemble lines m = ref_assemble lines m.
Proof.
  intros Hs. pose proof (total_size_nonneg _ Hs) as Htot. unfold assemble, ref_assemble.
  pose proof (pass1_environment lines) as H1. rewrite H1. destruct (first_error 1 0 [] lines) as [[]| |]; [|done..].
  cbn [mbind res_bind] in *. destruct (pass1_effect _ _ _ _ H1 ltac:(done)) as (_ & _ & _ & Hmax).
  assert (pc1 (environment lines) = total_size (bodies 1 lines)) as Hpc by done.
  rewrite (proj2 (Z.ltb_ge _ _)) by lia.
  pose proof (pass2_app (environment lines) (bodies 1 lines) [] (Z.to_nat (pc1 (environment lines))) [] 0 0 eq_refl Hs
    ltac:(lia) ltac:(lia)) as Hp2.
  cbn [app] in Hp2. change (parsed (environment lines)) with (bodies 1 lines). rewrite Hp2.
  destruct (enc_lines (environment lines) 0 0 (bodies 1 lines)) as [[[bs rs] ent]| |] eqn:Ee; [|done..].
  pose proof (enc_lines_length _ _ _ _ _ _ _ Ee Hs) as Hlen. cbn [mbind res_bind code relocations entry].
  replace (Z.to_nat (pc1 (environment lines)) - length bs)%nat with 0%nat by lia. rewrite app_nil_r, Hlen.
  rewrite (list_filter_iff _ (λ g, g ∉ (labels 0 lines).*1)); [done|].
  intros g. cbn [symbols environment]. rewrite add_labels_domain. naive_solver.
Qed.

(** What a successful run of the reference returns. *)
Lemma ref_assemble_Ok lines m o :
  ref_assemble lines m = Ok o →
  ∃ ent, pass1 1 lines (mk_pass1 [] [] [] [] 0) = Ok (environment lines) ∧
    enc_lines (environment lines) 0 0 (bodies 1 lines) = Ok (o_code o, o_relocations o, ent) ∧
    o = mk_object m (total_size (bodies 1 lines)) (o_code o) (symbols (environment lines))
          (sort_unique (globals_export (environment lines))) (sort_unique (externs (environment lines))) ent (o_relocations o).
Proof.
  unfold ref_assemble. intros ([] & H1 & ([[bs rs] ent] & H2 & H3)%res_bind_Ok)%res_bind_Ok.
  destruct (filter _ _); [|done]. injection H3 as <-. exists ent. split_and!; [|done|done].
  by rewrite pass1_environment, H1.
Qed.

(** Sorting and removing duplicates. *)
Lemma sorted_insert_elem x y l : y ∈ sorted_insert x l ↔ y = x ∨ y ∈ l.
Proof.
  induction l as [|z l IH]; cbn; [set_solver|]. destruct (text_equal x z) eqn:E; [apply text_equal_eq in E as ->; set_solver|].
  destruct (text_lt x z); set_solver.
Qed.

Lemma sorted_insert_sorted x l : keys_sorted l → keys_sorted (sorted_insert x l).
Proof.
  induction l as [|z l IH]; cbn; [done|]. intros [Hz Hl]. destruct (text_equal x z) eqn:E1; [by split|].
  destruct (text_lt x z) eqn:E2; cbn.
  - split; [|by split]. constructor; [done|]. eapply Forall_impl; [exact Hz|]. intros y. by apply text_lt_trans.
  - split; [|by apply IH]. apply Forall_forall. intros y [->|Hy]%sorted_insert_elem; [by apply text_lt_total|].
    by apply (proj1 (Forall_forall _ _) Hz).
Qed.

Lemma sort_unique_spec l : keys_sorted (sort_unique l) ∧ ∀ x, x ∈ sort_unique l ↔ x ∈ l.
Proof.
  induction l as [|y l [IH1 IH2]]; cbn; [done|]. split; [by apply sorted_insert_sorted|].
  intros x. by rewrite sorted_insert_elem, IH2, elem_of_cons.
Qed.


(** A negative [.SPACE] moves the second pass below the code. *)
Lemma negative_space_undefined :
  assemble [txt ".SPACE -1"; txt ".BYTE 1"; txt ".BYTE 2"] (txt "m") = Undefined.
Proof. vm_compute. reflexivity. Qed.

Definition demo_source : list text :=
  [txt ".GLOBAL start"; txt ".EXTERN ext"; txt "start: LOADI R0, 5 ; count down"; txt "  LOADI r1, 0x1"; txt "loop: SUB R0, R1";
   txt "JNZ R0, loop"; txt "JMP ext"; txt "HALT"; txt ".SPACE 3"; txt "x: .WORD start"].

