(* ===== verification/Linker.v ===== *)
(** * The two-pass linker and the executor

    [TwoPassLinker] and [Executor] of [tools/macroBuilder/main.cpp]: modules
    are laid out one after the other, relocated against each other, written
    as a JSON image, and the image is loaded and run by a small machine. *)

From Stdlib Require Import Ascii.
From S2P Require Import Prelude Memory CText ToolText Json Assembler.

(** ** Linking *)

Record Module := mk_module { m_data : ObjectFile; m_base : Z }.

(** [module.base = cursor; cursor += module.data.size;] *)
Fixpoint place_modules (objs : list ObjectFile) (cursor : Z) : res (list Module * Z) :=
  match objs with
  | [] => Ok ([], cursor)
  | o :: objs' =>
      next ← i64 (cursor + o_size o);
      '(ms, total) ← place_modules objs' next;
      Ok (mk_module o cursor :: ms, total)
  end.

Fixpoint add_globals (m : Module) (names : list text) (g : list (text * Z)) : res (list (text * Z)) :=
  match names with
  | [] => Ok g
  | name :: names' =>
      match map_find name (o_symbols (m_data m)) with
      | None => Err (EGlobalUndefined name)
      | Some v =>
          absolute ← i64 (m_base m + v);
          match map_find name g with
          | Some _ => Err (EGlobalDuplicate name)
          | None => add_globals m names' (map_set name absolute g)
          end
      end
  end.

Fixpoint collect_globals (ms : list Module) (g : list (text * Z)) : res (list (text * Z)) :=
  match ms with
  | [] => Ok g
  | m :: ms' => g ← add_globals m (o_globals (m_data m)) g; collect_globals ms' g
  end.

(** [std::copy(code.begin(), code.end(), linked.begin() + base)] *)
Fixpoint copy_bytes (bs : list Z) (linked : list Z) (at_ : Z) : res (list Z) :=
  match bs with
  | [] => Ok linked
  | b :: bs' => linked ← vset linked at_ b; copy_bytes bs' linked (at_ + 1)
  end.

Fixpoint copy_modules (ms : list Module) (linked : list Z) : res (list Z) :=
  match ms with
  | [] => Ok linked
  | m :: ms' => linked ← copy_bytes (o_code (m_data m)) linked (m_base m); copy_modules ms' linked
  end.

Definition resolve_symbol (symbol : text) (m : Module) (global_defs : list (text * Z)) : res Z :=
  match map_find symbol (o_symbols (m_data m)) with
  | Some v => i64 (m_base m + v)
  | None => match map_find symbol global_defs with
            | Some v => Ok v
            | None => Err (EUnresolved symbol)
            end
  end.

Definition patch_u16 (data : list Z) (offset value : Z) : res (list Z) := emit_u16 data offset value.

Definition apply_reloc (g : list (text * Z)) (m : Module) (r : Reloc) (st : list Z * list Z)
    : res (list Z * list Z) :=
  let '(linked, pending) := st in
  if negb (r_size r =? 2) then Err (ERelocSize (r_size r))
  else
    patch_pos ← i64 (m_base m + r_offset r);
    address ← resolve_symbol (r_symbol r) m g;
    target ← i64 (address + r_addend r);
    linked ← patch_u16 linked patch_pos target;
    Ok (linked, pending ++ [patch_pos]).

Fixpoint apply_relocs (g : list (text * Z)) (m : Module) (rs : list Reloc) (st : list Z * list Z)
    : res (list Z * list Z) :=
  match rs with
  | [] => Ok st
  | r :: rs' => st ← apply_reloc g m r st; apply_relocs g m rs' st
  end.

Fixpoint relocate_all (g : list (text * Z)) (ms : list Module) (st : list Z * list Z)
    : res (list Z * list Z) :=
  match ms with
  | [] => Ok st
  | m :: ms' => st ← apply_relocs g m (o_relocations (m_data m)) st; relocate_all g ms' st
  end.

Definition find_entry (entry_symbol : option text) (g : list (text * Z)) (ms : list Module) : res Z :=
  match entry_symbol with
  | Some sym => match map_find sym g with Some v => Ok v | None => Err (EEntrySymbol sym) end
  | None => match ms with
            | m :: _ => i64 (m_base m + o_entry (m_data m))
            | [] => Ok 0
            end
  end.

(** What the image file says. *)
Record image := mk_image {
  i_absolute : bool;
  i_entry : Z;
  i_load_address : Z;
  i_code : list Z;
  i_relocs : list Z;
  i_symbols : list (text * Z);
}.

Definition is_absolute (mode : text) : res bool :=
  if text_equal mode (txt "absolute") then Ok true
  else if text_equal mode (txt "relocatable") then Ok false
  else Err EMode.

(** [symbols_obj[name] = value + (mode == "absolute" ? load_address : 0)] *)
Fixpoint shift_symbols (g : list (text * Z)) (off : Z) : res (list (text * Z)) :=
  match g with
  | [] => Ok []
  | (k, v) :: g' => w ← i64 (v + off); rest ← shift_symbols g' off; Ok ((k, w) :: rest)
  end.

Definition link (objs : list ObjectFile) (mode : text) (load_address : Z) (entry_symbol : option text)
    : res image :=
  match is_absolute mode with
  | Ok absolute =>
      '(ms, cursor) ← place_modules objs 0;
      g ← collect_globals ms [];
      if cursor <? 0 then Err EAlloc
      else
        linked ← copy_modules ms (replicate (Z.to_nat cursor) 0);
        '(linked, pending) ← relocate_all g ms (linked, []);
        entry ← find_entry entry_symbol g ms;
        ientry ← i64 (if absolute then entry + load_address else entry);
        symbols ← shift_symbols g (if absolute then load_address else 0);
        Ok (mk_image absolute ientry (if absolute then load_address else 0) linked
              (if absolute then [] else pending) symbols)
  | Err e => Err e
  | Undefined => Undefined
  end.

Section images.
Context {D : Type} (double_to_ll : D → Z).
Abbreviation value := (Value D).

Definition image_value (i : image) : value :=
  let o := [] in
  let o := map_set (txt "format") (VString (txt "wirth-exe-v1")) o in
  let o := map_set (txt "mode") (VString (if i_absolute i then txt "absolute" else txt "relocatable")) o in
  let o := map_set (txt "size") (VInt (Z.of_nat (length (i_code i)))) o in
  let o := map_set (txt "entry") (VInt (i_entry i)) o in
  let o := map_set (txt "load_address") (VInt (i_load_address i)) o in
  let o := map_set (txt "code") (VArray (VInt <$> i_code i)) o in
  let o := map_set (txt "relocations")
             (VArray ((λ off, VObject (map_set (txt "size") (VInt 2) (map_set (txt "offset") (VInt off) []))) <$> i_relocs i)) o in
  let o := map_set (txt "symbols") (VObject (symbol_values (i_symbols i))) o in
  VObject o.

Definition link_modules (objs : list ObjectFile) (mode : text) (load_address : Z) (entry_symbol : option text)
    : res value :=
  i ← link objs mode load_address entry_symbol; Ok (image_value i).

(** ** Execution *)

Definition read_u16 (data : list Z) (offset : Z) : res Z :=
  lo ← vget data offset; hi ← vget data (offset + 1); Ok (Z.lor lo (Z.shiftl hi 8)).

(** [patch_u16(code, off, value + base)] at one relocation. *)
Definition rebase_at (base off : Z) (code : list Z) : res (list Z) :=
  v ← read_u16 code off;
  w ← i64 (v + base);
  patch_u16 code off w.

Definition reloc_offset (v : value) : res Z := o ← as_object v; int_at double_to_ll (txt "offset") o.

Fixpoint rebase (relocs : list value) (base : Z) (code : list Z) : res (list Z) :=
  match relocs with
  | [] => Ok code
  | r :: relocs' => off ← reloc_offset r; code ← rebase_at base off code; rebase relocs' base code
  end.
End images.

(** The machine: 64 KiB of memory, eight registers. *)
Definition kVmMemory : Z := 65536.

Record vm := mk_vm {
  vm_mem : memory;
  vm_regs : list Z;
  vm_pc : Z;
  vm_out : list Z;
}.

Definition fetch (m : memory) (a : Z) : res Z :=
  if (a <? 0) || (kVmMemory <=? a) then Undefined else Ok (load8 m a).
Definition fetch16 (m : memory) (a : Z) : res Z :=
  lo ← fetch m a; hi ← fetch m (a + 1); Ok (Z.lor lo (Z.shiftl hi 8)).
Definition poke (m : memory) (a v : Z) : res memory :=
  if (a <? 0) || (kVmMemory <=? a) then Undefined else Ok (store8 m a v).
Definition poke16 (m : memory) (a v : Z) : res memory :=
  m ← poke m a v; poke m (a + 1) (Z.shiftr v 8).

Inductive vm_step :=
  | Continue (s : vm)
  | Exit (exit_code : Z).

Definition set_reg (s : vm) (r v pc : Z) : res vm_step :=
  regs ← vset (vm_regs s) r v; Ok (Continue (mk_vm (vm_mem s) regs pc (vm_out s))).

Definition goto (s : vm) (pc : Z) : res vm_step :=
  Ok (Continue (mk_vm (vm_mem s) (vm_regs s) pc (vm_out s))).

(** Instructions on two registers; [f] computes from their values. *)
Definition alu (s : vm) (f : Z → Z → res Z) : res vm_step :=
  a ← fetch (vm_mem s) (vm_pc s + 1);
  b ← fetch (vm_mem s) (vm_pc s + 2);
  x ← vget (vm_regs s) a;
  y ← vget (vm_regs s) b;
  v ← f x y;
  set_reg s a v (vm_pc s + 3).

Definition mask16 (z : Z) : Z := Z.land z 65535.

Definition branch (s : vm) (taken : Z → bool) : res vm_step :=
  r ← fetch (vm_mem s) (vm_pc s + 1);
  addr ← fetch16 (vm_mem s) (vm_pc s + 2);
  x ← vget (vm_regs s) r;
  goto s (if taken x then addr else vm_pc s + 4).

Definition execute (s : vm) : res vm_step :=
  let m := vm_mem s in
  let pc := vm_pc s in
  op ← fetch m pc;
  match op with
  | 0 => goto s (pc + 1)
  | 1 => Ok (Exit 0)
  | 2 => r0 ← vget (vm_regs s) 0; Ok (Exit (Z.land r0 255))
  | 16 => r ← fetch m (pc + 1); imm ← fetch16 m (pc + 2); set_reg s r imm (pc + 4)
  | 17 => r ← fetch m (pc + 1); addr ← fetch16 m (pc + 2); v ← fetch16 m addr; set_reg s r v (pc + 4)
  | 18 => r ← fetch m (pc + 1); addr ← fetch16 m (pc + 2); v ← vget (vm_regs s) r;
          m ← poke16 m addr v; Ok (Continue (mk_vm m (vm_regs s) (pc + 4) (vm_out s)))
  | 32 => alu s (λ x y, v ← i64 (x + y); Ok (mask16 v))
  | 33 => alu s (λ x y, v ← i64 (x - y); Ok (mask16 v))
  | 34 => alu s (λ x y, v ← i64 (x * y); Ok (mask16 v))
  | 35 => alu s (λ x y, if y =? 0 then Err EDivideByZero else v ← i64 (Z.quot x y); Ok (mask16 v))
  | 36 => alu s (λ x y, Ok y)
  | 48 => addr ← fetch16 m (pc + 1); goto s addr
  | 49 => branch s (λ x, x =? 0)
  | 50 => branch s (λ x, negb (x =? 0))
  | 64 => r ← fetch m (pc + 1); x ← vget (vm_regs s) r;
          Ok (Continue (mk_vm m (vm_regs s) (pc + 2) (vm_out s ++ [x])))
  | _ => Err (EOpcode op pc)
  end.

Record Result := mk_result { exit_code : Z; steps : Z; registers : list Z; printed : list Z }.

(** [while (steps < max_steps)]; [n] iterations are left. *)
Fixpoint run_loop (n : nat) (max_steps steps : Z) (s : vm) : res Result :=
  match n with
  | O => Err (ESteps max_steps)
  | S n' =>
      let steps := steps + 1 in
      st ← execute s;
      match st with
      | Exit c => Ok (mk_result c steps (vm_regs s) (vm_out s))
      | Continue s => run_loop n' max_steps steps s
      end
  end.

Definition boot_vm (code : list Z) (base pc : Z) : vm :=
  mk_vm (store_bytes ∅ base code) (replicate 8 0) pc [].

Section run.
Context {D : Type} (double_to_ll : D → Z).

Definition run_image (o : list (text * Value D)) (load_address : option Z) (max_steps : Z) : res Result :=
  mode ← string_at (txt "mode") o;
  items ← array_at (txt "code") o;
  code ← res_map (parse_byte double_to_ll) items;
  let absolute := text_equal mode (txt "absolute") in
  base ← match load_address with
         | Some a => if absolute then int_at double_to_ll (txt "load_address") o else Ok a
         | None => int_at double_to_ll (txt "load_address") o
         end;
  code ← (if absolute then Ok code
          else rs ← array_at (txt "relocations") o; rebase double_to_ll rs base code);
  if base <? 0 then Err EOutsideMemory
  else
    top ← i64 (base + Z.of_nat (length code));
    if kVmMemory <? top then Err EOutsideMemory else
    ent ← int_at double_to_ll (txt "entry") o;
    pc ← (if text_equal mode (txt "relocatable") then i64 (ent + base) else Ok ent);
    run_loop (Z.to_nat max_steps) max_steps 0 (boot_vm code base pc).

Definition run_file (data : Value D) (load_address : option Z) (max_steps : Z) : res Result :=
  match data with
  | VObject o =>
      match map_find (txt "format") o with
      | None => Err EExecutable
      | Some f =>
          t ← as_string f;
          if negb (text_equal t (txt "wirth-exe-v1")) then Err EExecutable
          else run_image o load_address max_steps
      end
  | _ => Err EExecutable
  end.
End run.
