(* ===== verification/LinkerSpec.v ===== *)
(** * What the linker guarantees

    A relocatable image loaded at an address is the concatenation of the
    modules with every relocated word pointing where it should, for all
    modules the assembler writes; an absolute image is not relocated at all. *)

From Stdlib Require Import Ascii.
From S2P Require Import Prelude Memory CText ToolText Json JsonSpec Assembler AssemblerSpec Linker.

(** ** Bytes and words of a code vector *)

Definition byte_at (code : list Z) (p : Z) : Z := zget code p.
Definition word_at (code : list Z) (p : Z) : Z := byte_at code p + 256 * byte_at code (p + 1).
Definition in_code (code : list Z) (p : Z) : Prop := 0 <= p < Z.of_nat (length code).

Lemma vset_Ok {A} (v : list A) i x v' :
  vset v i x = Ok v' ↔ (0 <= i < Z.of_nat (length v) ∧ v' = <[Z.to_nat i := x]> v).
Proof. unfold vset. destruct (_ || _) eqn:E; zbool; split; [done|lia|intros [= <-]; split; [lia|done]|intros [_ ->]; done]. Qed.

Lemma u8_byte_pair n : u8 n + 256 * u8 (Z.shiftr n 8) = u16 n.
Proof. unfold u8, u16. rewrite Z.shiftr_div_pow2 by lia. change (2 ^ 8) with 256. rewrite <- Z.rem_mul_r by lia. done. Qed.

(** Patching a word. *)
Lemma patch_Ok code p n code' :
  patch_u16 code p n = Ok code' → 0 <= p ∧ p + 1 < Z.of_nat (length code) ∧ length code' = length code ∧
  word_at code' p = u16 n ∧ ∀ q, 0 <= q → q ≠ p → q ≠ p + 1 → byte_at code' q = byte_at code q.
Proof.
  unfold patch_u16, emit_u16. intros (c1 & [H1 ->]%vset_Ok & [H2 ->]%vset_Ok)%res_bind_Ok.
  rewrite length_insert in H2. rewrite !length_insert. unfold word_at, byte_at. split_and!; [lia|lia|done| |].
  - change (<[Z.to_nat (p + 1) := u8 (Z.shiftr n 8)]> (<[Z.to_nat p := u8 n]> code))
      with (zset (zset code p (u8 n)) (p + 1) (u8 (Z.shiftr n 8))).
    rewrite zget_zset_ne, zget_zset_eq by (rewrite ?length_zset; lia).
    rewrite zget_zset_eq by (rewrite ?length_zset; lia). apply u8_byte_pair.
  - intros q Hq H3 H4. change (zget (zset (zset code p (u8 n)) (p + 1) (u8 (Z.shiftr n 8))) q = zget code q).
    by rewrite !zget_zset_ne by lia.
Qed.

Lemma patch_ok code p n : 0 <= p → p + 1 < Z.of_nat (length code) → ∃ code', patch_u16 code p n = Ok code'.
Proof.
  intros H1 H2. unfold patch_u16, emit_u16. eexists. apply res_bind_Ok. eexists. split; apply vset_Ok; [split; [lia|done]|].
  rewrite length_insert. split; [lia|done].
Qed.

(** ** Patching a set of disjoint words *)

Definition apart (p q : Z) : Prop := p + 2 <= q ∨ q + 2 <= p.

Fixpoint all_apart (ps : list Z) : Prop :=
  match ps with [] => True | p :: ps' => Forall (apart p) ps' ∧ all_apart ps' end.

Fixpoint patch_all (sites : list (Z * Z)) (code : list Z) : res (list Z) :=
  match sites with
  | [] => Ok code
  | (p, n) :: sites' => code ← patch_u16 code p n; patch_all sites' code
  end.

Definition untouched (ps : list Z) (q : Z) : Prop := Forall (λ p, q ≠ p ∧ q ≠ p + 1) ps.

Lemma patch_all_Ok sites : ∀ code code',
  patch_all sites code = Ok code' → all_apart sites.*1 →
  length code' = length code ∧ Forall (λ '(p, n), 0 <= p ∧ p + 1 < Z.of_nat (length code) ∧ word_at code' p = u16 n) sites ∧
  ∀ q, 0 <= q → untouched sites.*1 q → byte_at code' q = byte_at code q.
Proof.
  induction sites as [|[p n] sites IH]; intros code code'; cbn [patch_all fmap list_fmap fst all_apart].
  { intros [= <-] _. split_and!; [done|done|done]. }
  intros (c1 & Hp & Hall)%res_bind_Ok [Hap Hrest].
  destruct (patch_Ok _ _ _ _ Hp) as (Hp0 & Hp1 & Hlen & Hw & Hb).
  destruct (IH _ _ Hall Hrest) as (Hlen' & Hsites & Hbytes). rewrite Hlen in *.
  split; [congruence|]. split.
  - constructor; [|done]. split_and!; [lia|lia|]. rewrite <- Hw. unfold word_at.
    assert (untouched sites.*1 p ∧ untouched sites.*1 (p + 1)) as [H1 H2].
    { split; (eapply Forall_impl; [exact Hap|]); intros q [?|?]; lia. }
    by rewrite !Hbytes by (done || lia).
  - intros q Hq Hu. inversion Hu as [|? ? [H1 H2] Hu']; subst. rewrite Hbytes by done. by apply Hb.
Qed.

(** ** Rebasing at load time *)

Fixpoint rebase_offs (offs : list Z) (base : Z) (code : list Z) : res (list Z) :=
  match offs with
  | [] => Ok code
  | off :: offs' => code ← rebase_at base off code; rebase_offs offs' base code
  end.

Definition image_reloc {D} (off : Z) : Value D :=
  VObject (map_set (txt "size") (VInt 2) (map_set (txt "offset") (VInt off) [])).

Lemma rebase_values {D} (ll : D → Z) offs base : ∀ code,
  rebase ll (image_reloc <$> offs) base code = rebase_offs offs base code.
Proof.
  induction offs as [|off offs IH]; intros code; [done|]. cbn [fmap list_fmap rebase rebase_offs].
  assert (reloc_offset ll (image_reloc off) = Ok off) as -> by reflexivity. cbn [mbind res_bind].
  destruct (rebase_at base off code); cbn [mbind res_bind]; [apply IH|done|done].
Qed.

Definition bytes_ok (code : list Z) : Prop := Forall (λ b, 0 <= b < 256) code.

Lemma vget_Ok code p : in_code code p → vget code p = Ok (byte_at code p).
Proof.
  intros [H1 H2]. unfold vget, byte_at. rewrite (proj2 (Z.ltb_ge p 0)) by lia.
  by rewrite (zget_lookup code p) by lia.
Qed.

Lemma byte_at_range code p : bytes_ok code → in_code code p → 0 <= byte_at code p < 256.
Proof.
  intros Hb Hp. unfold bytes_ok in Hb. rewrite Forall_lookup in Hb. apply (Hb (Z.to_nat p)).
  apply zget_lookup. exact Hp.
Qed.

Lemma lor_bytes a b : 0 <= a < 256 → 0 <= b < 256 → Z.lor a (Z.shiftl b 8) = a + 256 * b.
Proof.
  intros Ha Hb. rewrite Z.lor_comm, Z.shiftl_mul_pow2 by lia. change (2 ^ 8) with 256.
  rewrite (lor_low_bits 8) by (rewrite ?Z.mod_mul; lia || done). lia.
Qed.

Lemma read_word code p :
  bytes_ok code → in_code code p → in_code code (p + 1) → read_u16 code p = Ok (word_at code p).
Proof.
  intros Hb H1 H2. unfold read_u16. rewrite !vget_Ok by done. cbn [mbind res_bind]. unfold word_at.
  by rewrite lor_bytes by by apply byte_at_range.
Qed.

Lemma patch_bytes_ok code p n code' : patch_u16 code p n = Ok code' → bytes_ok code → bytes_ok code'.
Proof.
  unfold patch_u16, emit_u16. intros (c1 & [_ ->]%vset_Ok & [_ ->]%vset_Ok)%res_bind_Ok Hb.
  repeat apply Forall_insert; [exact Hb|apply u8_range..].
Qed.

Lemma code_word_range code p : bytes_ok code → in_code code p → in_code code (p + 1) → 0 <= word_at code p < 65536.
Proof.
  intros Hb H1 H2. unfold word_at. pose proof (byte_at_range code p Hb H1). pose proof (byte_at_range code (p + 1) Hb H2). lia.
Qed.

(** Rebasing adds the base to every word, modulo 2^16. *)
Lemma rebase_offs_Ok offs base : ∀ code,
  bytes_ok code → all_apart offs → 0 <= base < 4611686018427387904 →
  Forall (λ p, in_code code p ∧ in_code code (p + 1)) offs →
  ∃ code', rebase_offs offs base code = Ok code' ∧ length code' = length code ∧
    Forall (λ p, word_at code' p = u16 (word_at code p + base)) offs ∧
    ∀ q, 0 <= q → untouched offs q → byte_at code' q = byte_at code q.
Proof.
  induction offs as [|p offs IH]; intros code Hb Ha Hbase Hin; cbn [rebase_offs].
  { exists code. by split_and!. }
  destruct Ha as [Hap Ha]. inversion Hin as [|? ? [H1 H2] Hin']; subst.
  unfold rebase_at. rewrite read_word by done. cbn [mbind res_bind].
  pose proof (code_word_range code p Hb H1 H2). rewrite i64_small by lia. cbn [mbind res_bind].
  destruct (patch_ok code p (word_at code p + base)) as [c1 Hp]; [unfold in_code in *; lia..|]. rewrite Hp. cbn [mbind res_bind].
  destruct (patch_Ok _ _ _ _ Hp) as (_ & _ & Hlen & Hw & Hbytes).
  assert (∀ q, apart p q → 0 <= q → word_at c1 q = word_at code q) as Hother.
  { intros q Hq Hq0. unfold word_at. destruct Hq; by rewrite !Hbytes by lia. }
  destruct (IH c1) as (code' & E & Hlen' & Hws & Hbs); [by eapply patch_bytes_ok|done|done| |].
  { eapply Forall_impl; [exact Hin'|]. unfold in_code. by rewrite Hlen. }
  exists code'. rewrite E. split; [done|]. split; [congruence|]. split.
  - constructor.
    + unfold word_at at 1. rewrite !Hbs; [exact Hw|unfold in_code in *; lia| |unfold in_code in *; lia|];
        (eapply Forall_impl; [exact Hap|]); intros q [?|?]; lia.
    + rewrite Forall_forall in Hws, Hap, Hin' |- *. intros q Hq. rewrite (Hws q Hq), Hother; [done|by apply Hap|].
      destruct (Hin' q Hq) as [[? _] _]. done.
  - intros q Hq Hu. inversion Hu as [|? ? [? ?] Hu']; subst. rewrite Hbs by done. by apply Hbytes.
Qed.

(** ** Layout *)

(** A module as the assembler writes it: its size is its length, and its
    relocated words are inside it and do not overlap. *)
Record wf_object (o : ObjectFile) : Prop := {
  wf_size : o_size o = Z.of_nat (length (o_code o));
  wf_bytes : bytes_ok (o_code o);
  wf_apart : all_apart (r_offset <$> o_relocations o);
  wf_inside : Forall (λ r, 0 <= r_offset r ∧ r_offset r + 2 <= o_size o) (o_relocations o);
}.

(** Modules one after the other from [c] to [total]. *)
Fixpoint placed (c : Z) (ms : list Module) (total : Z) : Prop :=
  match ms with
  | [] => total = c
  | m :: ms' => m_base m = c ∧ placed (c + o_size (m_data m)) ms' total
  end.

Lemma place_modules_Ok objs : ∀ c ms total,
  place_modules objs c = Ok (ms, total) → m_data <$> ms = objs ∧ placed c ms total.
Proof.
  induction objs as [|o objs IH]; intros c ms total; cbn [place_modules].
  { intros [= <- <-]. done. }
  intros (next & [-> _]%i64_Ok & ([ms' t'] & H & [= <- <-])%res_bind_Ok)%res_bind_Ok.
  destruct (IH _ _ _ H) as [<- Hp]. done.
Qed.

Definition module_codes (ms : list Module) : list Z := concat ((λ m, o_code (m_data m)) <$> ms).

Lemma placed_total ms : ∀ c total,
  placed c ms total → Forall (λ m, wf_object (m_data m)) ms → total = c + Z.of_nat (length (module_codes ms)).
Proof.
  induction ms as [|m ms IH]; intros c total; cbn [placed]; [intros -> _; cbn; lia|].
  intros [_ Hp] Hw. inversion Hw as [|? ? Hm Hw']; subst. unfold module_codes. cbn [fmap list_fmap concat].
  rewrite length_app. fold (module_codes ms). rewrite (IH _ _ Hp Hw'), (wf_size _ Hm). lia.
Qed.

Lemma copy_bytes_app bs : ∀ pre k at_,
  at_ = Z.of_nat (length pre) → (length bs <= k)%nat →
  copy_bytes bs (pre ++ replicate k 0) at_ = Ok (pre ++ bs ++ replicate (k - length bs) 0).
Proof.
  induction bs as [|b bs IH]; intros pre k at_ Ha Hk; cbn [copy_bytes length app] in *; [by rewrite Nat.sub_0_r|].
  destruct k as [|k]; [lia|]. cbn [replicate]. rewrite vset_app by done. cbn [mbind res_bind].
  change (pre ++ b :: replicate k 0) with (pre ++ [b] ++ replicate k 0). rewrite app_assoc, IH; [|rewrite length_app; cbn; lia|lia].
  by rewrite <- app_assoc.
Qed.

Lemma copy_modules_app ms : ∀ pre k total,
  placed (Z.of_nat (length pre)) ms total → Forall (λ m, wf_object (m_data m)) ms →
  k = length (module_codes ms) →
  copy_modules ms (pre ++ replicate k 0) = Ok (pre ++ module_codes ms).
Proof.
  induction ms as [|m ms IH]; intros pre k total Hp Hw ->; cbn [copy_modules]; [done|].
  inversion Hw as [|? ? Hm Hw']; subst. destruct Hp as [Hb Hp]. unfold module_codes. cbn [fmap list_fmap concat].
  rewrite length_app. fold (module_codes ms). rewrite copy_bytes_app by (done || lia). cbn [mbind res_bind].
  rewrite !app_assoc. apply (IH _ _ total); [|done|lia]. rewrite length_app, Nat2Z.inj_add, <- (wf_size _ Hm). done.
Qed.

(** A byte of a module, found at its place in the image. *)
Lemma module_byte ms : ∀ c total m p,
  placed c ms total → Forall (λ m, wf_object (m_data m)) ms → m ∈ ms → 0 <= p < o_size (m_data m) →
  c <= m_base m ∧ m_base m + o_size (m_data m) <= total ∧
  byte_at (module_codes ms) (m_base m - c + p) = byte_at (o_code (m_data m)) p.
Proof.
  induction ms as [|m0 ms IH]; intros c total m p Hp Hw Hin Hr; [by apply elem_of_nil in Hin|].
  pose proof (placed_total _ _ _ Hp Hw) as Ht.
  apply Forall_cons in Hw as [Hm Hw']. destruct Hp as [Hb Hp]. pose proof (wf_size _ Hm) as Hsz.
  unfold module_codes, byte_at, zget in *. cbn [fmap list_fmap concat] in *. rewrite length_app in Ht.
  fold (module_codes ms) in *. apply elem_of_cons in Hin as [->|Hin].
  - split; [lia|]. split; [lia|]. rewrite lookup_total_app_l by lia. f_equal. lia.
  - destruct (IH _ _ m p Hp Hw' Hin Hr) as (H1 & H2 & H3). split; [lia|]. split; [lia|].
    rewrite lookup_total_app_r by lia. rewrite <- H3. f_equal. lia.
Qed.

(** ** The relocation sites of an image *)

Definition all_relocs (ms : list Module) : list (Module * Reloc) :=
  concat ((λ m, pair m <$> o_relocations (m_data m)) <$> ms).

Definition site (mr : Module * Reloc) : Z := m_base mr.1 + r_offset mr.2.

(** The word a relocation asks for. *)
Definition wants (g : list (text * Z)) (mr : Module * Reloc) (pn : Z * Z) : Prop :=
  pn.1 = site mr ∧ ∃ a, resolve_symbol (r_symbol mr.2) mr.1 g = Ok a ∧ pn.2 = a + r_addend mr.2.

Lemma apply_relocs_Ok g m rs : ∀ linked pending linked' pending',
  apply_relocs g m rs (linked, pending) = Ok (linked', pending') →
  ∃ sites, patch_all sites linked = Ok linked' ∧ pending' = pending ++ sites.*1 ∧
    Forall2 (wants g) (pair m <$> rs) sites.
Proof.
  induction rs as [|r rs IH]; intros linked pending linked' pending'; cbn [apply_relocs].
  { intros [= <- <-]. exists []. cbn. rewrite app_nil_r. by split_and!. }
  intros ([l1 p1] & H1 & H2)%res_bind_Ok. unfold apply_reloc in H1. destruct (negb _); [done|].
  apply res_bind_Ok in H1 as (pos & [-> _]%i64_Ok & H1). apply res_bind_Ok in H1 as (a & Ha & H1).
  apply res_bind_Ok in H1 as (t & [-> _]%i64_Ok & H1). apply res_bind_Ok in H1 as (l2 & Hl & [= <- <-]).
  destruct (IH _ _ _ _ H2) as (sites & Hs & -> & HF).
  exists ((m_base m + r_offset r, a + r_addend r) :: sites). cbn [patch_all fmap list_fmap fst]. split_and!.
  - rewrite Hl. exact Hs.
  - by rewrite <- app_assoc.
  - constructor; [|done]. split; [done|]. by exists a.
Qed.

Lemma patch_all_app s1 s2 code : patch_all (s1 ++ s2) code = c ← patch_all s1 code; patch_all s2 c.
Proof.
  revert code. induction s1 as [|[p n] s1 IH]; intros code; [done|]. cbn [app patch_all].
  destruct (patch_u16 code p n); cbn [mbind res_bind]; [apply IH|done|done].
Qed.

Lemma relocate_all_Ok g ms : ∀ linked pending linked' pending',
  relocate_all g ms (linked, pending) = Ok (linked', pending') →
  ∃ sites, patch_all sites linked = Ok linked' ∧ pending' = pending ++ sites.*1 ∧ Forall2 (wants g) (all_relocs ms) sites.
Proof.
  induction ms as [|m ms IH]; intros linked pending linked' pending'; cbn [relocate_all].
  { intros [= <- <-]. exists []. cbn. rewrite app_nil_r. by split_and!. }
  intros ([l1 p1] & H1 & H2)%res_bind_Ok. destruct (apply_relocs_Ok _ _ _ _ _ _ _ H1) as (s1 & Hs1 & -> & HF1).
  destruct (IH _ _ _ _ H2) as (s2 & Hs2 & -> & HF2). exists (s1 ++ s2). split_and!.
  - rewrite patch_all_app, Hs1. exact Hs2.
  - by rewrite fmap_app, app_assoc.
  - unfold all_relocs. cbn [fmap list_fmap concat]. by apply Forall2_app.
Qed.

Lemma wants_sites g mrs sites : Forall2 (wants g) mrs sites → sites.*1 = site <$> mrs.
Proof. induction 1 as [|mr [p n] mrs sites [E _] _ IH]; [done|]. cbn in *. by rewrite E, IH. Qed.

Lemma all_apart_app xs ys :
  all_apart xs → all_apart ys → (∀ x y, x ∈ xs → y ∈ ys → apart x y) → all_apart (xs ++ ys).
Proof.
  intros Hx Hy Hxy. induction xs as [|x xs IH]; [done|]. destruct Hx as [Hx1 Hx2]. cbn. split.
  - apply Forall_app. split; [done|]. apply Forall_forall. intros y Hin. apply Hxy; [|done]. apply elem_of_cons. by left.
  - apply IH; [done|]. intros a b Ha Hb. apply Hxy; [|done]. apply elem_of_cons. by right.
Qed.

Lemma all_apart_shift b xs : all_apart xs → all_apart ((λ o, b + o) <$> xs).
Proof.
  induction xs as [|x xs IH]; intros Hap; [done|]. destruct Hap as [H1 H2]. cbn. split; [|by apply IH].
  apply Forall_fmap. eapply Forall_impl; [exact H1|]. unfold apart. cbn. lia.
Qed.

Lemma sites_apart ms : ∀ c total,
  placed c ms total → Forall (λ m, wf_object (m_data m)) ms →
  c <= total ∧ all_apart (site <$> all_relocs ms) ∧ Forall (λ p, c <= p ∧ p + 2 <= total) (site <$> all_relocs ms).
Proof.
  induction ms as [|m ms IH]; intros c total; cbn [placed]; [by intros -> _|].
  intros [Hb Hp] Hw. inversion Hw as [|? ? Hm Hw']; subst. destruct (IH _ _ Hp Hw') as (Hle & Ha & Hr).
  assert (0 <= o_size (m_data m)) as Hsz by (rewrite (wf_size _ Hm); lia).
  unfold all_relocs. cbn [fmap list_fmap concat]. rewrite fmap_app. fold (all_relocs ms).
  assert (site <$> (pair m <$> o_relocations (m_data m)) = (λ o, m_base m + o) <$> (r_offset <$> o_relocations (m_data m))) as ->
    by (by rewrite <- !list_fmap_compose).
  assert (Forall (λ p, m_base m <= p ∧ p + 2 <= m_base m + o_size (m_data m))
    ((λ o, m_base m + o) <$> (r_offset <$> o_relocations (m_data m)))) as Hin.
  { rewrite !Forall_fmap. eapply Forall_impl; [exact (wf_inside _ Hm)|]. intros r. cbn. lia. }
  split; [lia|]. split.
  - apply all_apart_app; [|done|].
    + apply all_apart_shift, (wf_apart _ Hm).
    + rewrite Forall_forall in Hin, Hr. intros x y Hx Hy. specialize (Hin x Hx). specialize (Hr y Hy). left. cbn in Hr. lia.
  - apply Forall_app. split; [eapply Forall_impl; [exact Hin|]|eapply Forall_impl; [exact Hr|]]; cbn; lia.
Qed.

(** ** The assembler writes well-formed modules *)

(** Relocations between [lo] and [hi], apart from each other. *)
Definition relocs_in (lo hi : Z) (rs : list Reloc) : Prop :=
  all_apart (r_offset <$> rs) ∧ Forall (λ r, lo <= r_offset r ∧ r_offset r + 2 <= hi) rs.

Lemma relocs_in_nil lo hi : relocs_in lo hi [].
Proof. by split. Qed.

Lemma relocs_in_app lo mid hi rs1 rs2 :
  lo <= mid → mid <= hi → relocs_in lo mid rs1 → relocs_in mid hi rs2 → relocs_in lo hi (rs1 ++ rs2).
Proof.
  intros H1 H2 [Ha1 Hf1] [Ha2 Hf2]. split.
  - rewrite fmap_app. apply all_apart_app; [done|done|]. rewrite Forall_forall in Hf1, Hf2.
    intros x y (r1 & -> & Hr1)%list_elem_of_fmap (r2 & -> & Hr2)%list_elem_of_fmap.
    specialize (Hf1 _ Hr1). specialize (Hf2 _ Hr2). left. lia.
  - apply Forall_app. split; [eapply Forall_impl; [exact Hf1|]|eapply Forall_impl; [exact Hf2|]]; cbn; lia.
Qed.

Lemma relocs_in_weaken lo hi lo' hi' rs : lo' <= lo → hi <= hi' → relocs_in lo hi rs → relocs_in lo' hi' rs.
Proof. intros H1 H2 [Ha Hf]. split; [done|]. eapply Forall_impl; [exact Hf|]. cbn. lia. Qed.

Lemma le16_bytes n : bytes_ok (le16 n).
Proof. repeat constructor; apply u8_range. Qed.

Lemma enc_reg_Ok a bs : enc_reg a = Ok bs → bytes_ok bs ∧ length bs = 1%nat.
Proof. unfold enc_reg. intros (r & _ & [= <-])%res_bind_Ok. split; [|done]. repeat constructor; apply u8_range. Qed.

Lemma enc_value_Ok st1 no addr v bs rs :
  enc_value st1 no addr v = Ok (bs, rs) → bytes_ok bs ∧ length bs = 2%nat ∧ relocs_in addr (addr + 2) rs.
Proof.
  assert (relocs_in addr (addr + 2) [mk_reloc addr 2 v 0]) as H1
    by (split; [by split|]; repeat constructor; cbn; lia).
  unfold enc_value. destruct (is_number v) as [[]| |]; [|destruct (map_find v _)|done|done].
  - intros (n & _ & [= <- <-])%res_bind_Ok. split_and!; [apply le16_bytes|done|apply relocs_in_nil].
  - intros [= <- <-]. split_and!; [apply le16_bytes|done|done].
  - destruct (existsb _ _); [|done]. intros [= <- <-]. split_and!; [apply le16_bytes|done|done].
Qed.

Lemma bytes_nil : bytes_ok [].
Proof. constructor. Qed.

Lemma bytes_app xs ys : bytes_ok xs → bytes_ok ys → bytes_ok (xs ++ ys).
Proof. apply Forall_app_2. Qed.

Lemma enc_args_Ok st1 no addr op s args bs rs :
  enc_args st1 no addr op s args = Ok (bs, rs) →
  bytes_ok bs ∧ relocs_in addr (addr + 1 + Z.of_nat (length bs)) rs.
Proof.
  destruct s, args as [|a [|b [|c args]]]; cbn [enc_args]; try done; intros H;
    repeat match goal with
    | H : Ok _ = Ok _ |- _ => injection H as <- <-
    | H : mbind _ _ = Ok _ |- _ => let x := fresh "x" in apply res_bind_Ok in H as (x & ? & H); try destruct x as [? ?]
    | H : enc_reg _ = Ok _ |- _ => apply enc_reg_Ok in H as [? ?]
    | H : enc_value _ _ _ _ = Ok _ |- _ => apply enc_value_Ok in H as (? & ? & ?)
    end;
    (split; [auto using bytes_app, le16_bytes, bytes_nil|]); try apply relocs_in_nil;
    rewrite ?length_app; (eapply relocs_in_weaken; [| |eassumption]); lia.
Qed.

Lemma opcode_byte op b s : map_find op instructions = Some (b, s) → 0 <= b < 256.
Proof.
  cbn [map_find instructions]. repeat (destruct (text_equal _ _); [intros [= <- _]; lia|]). done.
Qed.

Lemma enc_line_Ok st1 no addr ent line bs rs ent' :
  enc_line st1 no addr ent line = Ok (bs, rs, ent') →
  bytes_ok bs ∧ relocs_in addr (addr + Z.of_nat (length bs)) rs.
Proof.
  assert (∀ xs, bytes_ok xs → bytes_ok xs ∧ relocs_in addr (addr + Z.of_nat (length xs)) []) as Hplain
    by (intros xs Hx; split; [done|apply relocs_in_nil]).
  unfold enc_line. destruct (tokenize line) as [|t0 tk]; [intros [= <- <- _]; apply Hplain, bytes_nil|].
  destruct (_ || _); [intros [= <- <- _]; apply Hplain, bytes_nil|].
  destruct (is_op _ ".ENTRY").
  { intros (sym & _ & H)%res_bind_Ok. destruct (map_find sym _); [|done]. injection H as <- <- _. apply Hplain, bytes_nil. }
  destruct (is_op _ ".BYTE").
  { intros (v & _ & (n & _ & [= <- <- _])%res_bind_Ok)%res_bind_Ok. apply Hplain. repeat constructor; apply u8_range. }
  destruct (is_op _ ".WORD").
  { intros (v & _ & ([b r] & H & [= <- <- _])%res_bind_Ok)%res_bind_Ok. apply enc_value_Ok in H as (? & -> & ?). by split. }
  destruct (is_op _ ".SPACE").
  { intros (v & _ & (n & _ & [= <- <- _])%res_bind_Ok)%res_bind_Ok. apply Hplain, Forall_replicate. lia. }
  intros ([b r] & H & [= <- <- _])%res_bind_Ok. unfold enc_instr in H. destruct (map_find _ instructions) as [[c s]|] eqn:E; [|done].
  apply res_bind_Ok in H as ([b' r'] & H & [= <- <-]). apply enc_args_Ok in H as [Hb Hr]. apply opcode_byte in E.
  split; [by constructor|]. cbn [length]. eapply relocs_in_weaken; [| |exact Hr]; lia.
Qed.

Lemma enc_lines_Ok st1 lines : ∀ addr ent bs rs ent',
  enc_lines st1 addr ent lines = Ok (bs, rs, ent') →
  bytes_ok bs ∧ relocs_in addr (addr + Z.of_nat (length bs)) rs.
Proof.
  induction lines as [|[no line] lines IH]; intros addr ent bs rs ent'; cbn [enc_lines].
  { intros [= <- <- _]. split; [constructor|apply relocs_in_nil]. }
  intros ([[b1 r1] e1] & H1 & ([[b2 r2] e2] & H2 & [= <- <- _])%res_bind_Ok)%res_bind_Ok.
  apply enc_line_Ok in H1 as [Hb1 Hr1]. apply IH in H2 as [Hb2 Hr2]. split; [by apply bytes_app|].
  rewrite length_app. eapply relocs_in_app; [| |exact Hr1|]; [lia| |]. 2: { eapply relocs_in_weaken; [| |exact Hr2]; lia. }
  lia.
Qed.

Lemma assemble_wf lines m o : sizes_ok (bodies 1 lines) → assemble lines m = Ok o → wf_object o.
Proof.
  intros Hs. rewrite (assemble_ref _ _ Hs). intros (ent & _ & H2 & Ho)%ref_assemble_Ok. assert (o_size o = total_size (bodies 1 lines)) as Hsz by by rewrite Ho.
  pose proof (enc_lines_length _ _ _ _ _ _ _ H2 Hs) as Hlen. apply enc_lines_Ok in H2 as [Hb [Ha Hi]].
  rewrite Hlen, <- Hsz in Hi. split; [congruence|done|done|done].
Qed.

(** ** Linking and loading *)

Lemma module_codes_bytes ms : Forall (λ m, wf_object (m_data m)) ms → bytes_ok (module_codes ms).
Proof.
  induction 1 as [|m ms Hm _ IH]; [constructor|]. apply bytes_app; [exact (wf_bytes _ Hm)|exact IH].
Qed.

Lemma patch_all_bytes sites : ∀ code code', patch_all sites code = Ok code' → bytes_ok code → bytes_ok code'.
Proof.
  induction sites as [|[p n] sites IH]; intros code code'; cbn [patch_all]; [by intros [= <-]|].
  intros (c1 & H1 & H2)%res_bind_Ok Hb. eapply IH; [done|]. by eapply patch_bytes_ok.
Qed.

(** The modules and the patched code behind an image. *)
Lemma link_Ok objs mode la es i :
  Forall wf_object objs → link objs mode la es = Ok i →
  ∃ ms g sites, m_data <$> ms = objs ∧ placed 0 ms (Z.of_nat (length (module_codes ms))) ∧
    collect_globals ms [] = Ok g ∧ patch_all sites (module_codes ms) = Ok (i_code i) ∧
    Forall2 (wants g) (all_relocs ms) sites ∧
    i_relocs i = (if i_absolute i then [] else sites.*1) ∧ is_absolute mode = Ok (i_absolute i).
Proof.
  intros Hw. unfold link. destruct (is_absolute mode) as [absolute| |]; [|done..].
  intros ([ms total] & Hplace & H)%res_bind_Ok. apply res_bind_Ok in H as (g & Hg & H).
  destruct (total <? 0); [done|]. apply place_modules_Ok in Hplace as [Hobjs Hp].
  assert (Forall (λ m, wf_object (m_data m)) ms) as Hms by (rewrite <- Hobjs, Forall_fmap in Hw; exact Hw).
  pose proof (placed_total _ _ _ Hp Hms) as Ht. rewrite Z.add_0_l in Ht. subst total.
  apply res_bind_Ok in H as (linked & Hc & H).
  pose proof (copy_modules_app ms [] _ _ Hp Hms eq_refl) as Hcopy. cbn [app] in Hcopy.
  rewrite Nat2Z.id, Hcopy in Hc. injection Hc as <-.
  apply res_bind_Ok in H as ([linked pending] & Hr & H). apply res_bind_Ok in H as (ent & _ & H).
  apply res_bind_Ok in H as (ie & _ & H). apply res_bind_Ok in H as (sy & _ & [= <-]).
  apply relocate_all_Ok in Hr as (sites & Hs & -> & HF). cbn. exists ms, g, sites. by split_and!.
Qed.

Lemma all_relocs_elem ms m r : m ∈ ms → r ∈ o_relocations (m_data m) → (m, r) ∈ all_relocs ms.
Proof.
  intros Hm Hr. unfold all_relocs. apply list_elem_of_In, in_concat. exists (pair m <$> o_relocations (m_data m)).
  split; apply list_elem_of_In; apply list_elem_of_fmap; eauto.
Qed.

(** A byte of a module that is not in a relocated word is in no relocated
    word of the image. *)
Lemma untouched_site ms c total m p :
  placed c ms total → Forall (λ m, wf_object (m_data m)) ms → m ∈ ms → 0 <= p < o_size (m_data m) →
  untouched (r_offset <$> o_relocations (m_data m)) p → untouched (site <$> all_relocs ms) (m_base m + p).
Proof.
  intros Hp Hw. revert c Hp. induction Hw as [|m0 ms Hm0 Hw IH]; intros c Hp Hm Hr Hu; [by apply elem_of_nil in Hm|].
  destruct Hp as [Hb Hp]. unfold all_relocs. cbn [fmap list_fmap concat]. fold (all_relocs ms). rewrite fmap_app.
  apply Forall_app. apply elem_of_cons in Hm as [->|Hm].
  - destruct (sites_apart _ _ _ Hp Hw) as (_ & _ & Hin). split.
    + unfold untouched in Hu. rewrite !Forall_fmap in *. eapply Forall_impl; [exact Hu|]. unfold site. cbn. lia.
    + eapply Forall_impl; [exact Hin|]. cbn. lia.
  - split; [|by eapply IH]. destruct (module_byte _ _ _ _ _ Hp Hw Hm Hr) as (Hlo & _).
    rewrite !Forall_fmap. eapply Forall_impl; [exact (wf_inside _ Hm0)|]. unfold site. cbn. lia.
Qed.

(** ** What symbols denote *)

(** Where the [k]th object starts: after the ones before it. *)
Definition base_of (objs : list ObjectFile) (k : nat) : Z := foldr (λ o n, o_size o + n) 0 (take k objs).

(** [s] is exported by exactly one object, which defines it at [a]. *)
Inductive exports (objs : list ObjectFile) (s : text) : Z → Prop :=
  exports_intro j o v :
    objs !! j = Some o → s ∈ o_globals o → map_find s (o_symbols o) = Some v →
    (∀ j' o', objs !! j' = Some o' → s ∈ o_globals o' → j' = j) →
    exports objs s (base_of objs j + v).

(** The symbol [s] in the [k]th object: its own label, or an exported name. *)
Inductive denotes (objs : list ObjectFile) (k : nat) (s : text) : Z → Prop :=
  | denotes_local o v :
      objs !! k = Some o → map_find s (o_symbols o) = Some v → denotes objs k s (base_of objs k + v)
  | denotes_global o a :
      objs !! k = Some o → map_find s (o_symbols o) = None → exports objs s a → denotes objs k s a.

Lemma placed_base ms : ∀ c total k m,
  placed c ms total → ms !! k = Some m → m_base m = c + base_of (m_data <$> ms) k.
Proof.
  induction ms as [|m0 ms IH]; intros c total k m Hp Hk; [done|]. destruct Hp as [Hb Hp].
  destruct k as [|k]; cbn in Hk; [injection Hk as <-; unfold base_of; cbn; lia|].
  rewrite (IH _ _ _ _ Hp Hk). unfold base_of. cbn. lia.
Qed.

Lemma placed_end ms : ∀ c total, placed c ms total → total = c + base_of (m_data <$> ms) (length ms).
Proof.
  induction ms as [|m0 ms IH]; intros c total; cbn [placed]; [intros ->; unfold base_of; cbn; lia|].
  intros [_ Hp]. rewrite (IH _ _ Hp). unfold base_of. cbn. lia.
Qed.

(** The module [m] exports [s] at [a]. *)
Definition gives (m : Module) (s : text) (a : Z) : Prop :=
  s ∈ o_globals (m_data m) ∧ ∃ v, map_find s (o_symbols (m_data m)) = Some v ∧ a = m_base m + v.

Lemma add_globals_spec m names : ∀ g g',
  add_globals m names g = Ok g' →
  (∀ s, s ∈ names → map_find s g = None) ∧
  ∀ s a, map_find s g' = Some a ↔
    map_find s g = Some a ∨ s ∈ names ∧ ∃ v, map_find s (o_symbols (m_data m)) = Some v ∧ a = m_base m + v.
Proof.
  induction names as [|n names IH]; intros g g'; cbn [add_globals].
  { intros [= <-]. split; [by intros s ?%elem_of_nil|]. intros s a. rewrite elem_of_nil. naive_solver. }
  destruct (map_find n (o_symbols (m_data m))) as [v|] eqn:Ev; [|done].
  intros (x & [-> _]%i64_Ok & H)%res_bind_Ok. destruct (map_find n g) eqn:En; [done|].
  destruct (IH _ _ H) as [H1 H2]. assert (∀ s, s ≠ n → text_equal s n = false) as Hne.
  { intros s Hs. destruct (text_equal s n) eqn:E; [by apply text_equal_eq in E|done]. }
  split.
  - intros s [->|Hs]%elem_of_cons; [done|]. specialize (H1 s Hs). rewrite map_find_set in H1. by destruct (text_equal s n).
  - intros s a. rewrite H2, map_find_set, elem_of_cons. destruct (decide (s = n)) as [->|Hs].
    + rewrite text_equal_refl, En. specialize (H1 n). rewrite map_find_set, text_equal_refl in H1. naive_solver.
    + rewrite (Hne s Hs). naive_solver.
Qed.

Lemma collect_globals_spec ms : ∀ g g',
  collect_globals ms g = Ok g' →
  (∀ s a, map_find s g' = Some a ↔ map_find s g = Some a ∨ ∃ k m, ms !! k = Some m ∧ gives m s a) ∧
  (∀ k m s, ms !! k = Some m → s ∈ o_globals (m_data m) → map_find s g = None) ∧
  (∀ k k' m m' s, ms !! k = Some m → ms !! k' = Some m' →
     s ∈ o_globals (m_data m) → s ∈ o_globals (m_data m') → k = k').
Proof.
  induction ms as [|m0 ms IH]; intros g g'; cbn [collect_globals].
  { intros [= <-]. split_and!; [|done|done]. intros s a. split; [by left|]. intros [?|(k & m & ? & _)]; done. }
  intros (g1 & H1 & H2)%res_bind_Ok. destruct (add_globals_spec _ _ _ _ H1) as [Ha1 Ha2].
  destruct (IH _ _ H2) as (Hi1 & Hi2 & Hi3).
  assert (∀ k m s, ms !! k = Some m → s ∈ o_globals (m_data m) → map_find s g = None ∧ s ∉ o_globals (m_data m0)) as Hfresh.
  { intros k m s Hk Hs. pose proof (Hi2 _ _ _ Hk Hs) as Hn. split.
    - destruct (map_find s g) eqn:E; [|done]. rewrite (proj2 (Ha2 s _) (or_introl E)) in Hn. done.
    - intros Hs0. destruct (map_find s (o_symbols (m_data m0))) as [v|] eqn:Ev.
      + assert (map_find s g1 = Some (m_base m0 + v)) as E by (apply Ha2; right; eauto). by rewrite Hn in E.
      + clear -H1 Hs0 Ev. revert g H1. induction (o_globals (m_data m0)) as [|n ns IHn]; intros g H1; [by apply elem_of_nil in Hs0|].
        cbn [add_globals] in H1. apply elem_of_cons in Hs0 as [->|Hs0]; [by rewrite Ev in H1|].
        destruct (map_find n (o_symbols (m_data m0))); [|done]. apply res_bind_Ok in H1 as (x & _ & H1).
        destruct (map_find n g); [done|]. by eapply IHn. }
  split_and!.
  - intros s a. rewrite Hi1, Ha2. split.
    + intros [[H|[H (v & ? & ?)]]|(k & m & Hk & Hg)]; [by left|right; exists O, m0; split; [done|split; eauto]|].
      right. by exists (S k), m.
    + intros [H|([|k] & m & Hk & Hg)]; [by left; left| |right; by exists k, m].
      injection Hk as <-. left. right. exact Hg.
  - intros [|k] m s Hk Hs; [injection Hk as <-; by apply Ha1|]. by apply (Hfresh k m s).
  - intros [|k] [|k'] m m' s Hk Hk' Hs Hs'; cbn in Hk, Hk'; [done| | |f_equal; by eapply Hi3].
    + injection Hk as <-. by destruct (Hfresh _ _ _ Hk' Hs') as [_ []].
    + injection Hk' as <-. by destruct (Hfresh _ _ _ Hk Hs) as [_ []].
Qed.

(** The table of exported names. *)
Lemma globals_exports ms total g s a :
  placed 0 ms total → collect_globals ms [] = Ok g → map_find s g = Some a ↔ exports (m_data <$> ms) s a.
Proof.
  intros Hp Hg. destruct (collect_globals_spec _ _ _ Hg) as (H1 & _ & H3). rewrite H1. split.
  - intros [?|(k & m & Hk & Hs & v & Hv & ->)]; [done|]. rewrite (placed_base _ _ _ _ _ Hp Hk), Z.add_0_l.
    eapply exports_intro; [by rewrite list_lookup_fmap, Hk|done|done|].
    intros j' o'. rewrite list_lookup_fmap. destruct (ms !! j') as [m'|] eqn:E; [|done]. intros [= <-] Hs'. by eapply H3.
  - intros [j o v Ho Hs Hv Hu]. right. rewrite list_lookup_fmap in Ho. destruct (ms !! j) as [m|] eqn:E; [|done].
    injection Ho as <-. exists j, m. split; [done|]. split; [done|]. exists v. split; [done|].
    by rewrite (placed_base _ _ _ _ _ Hp E).
Qed.

Lemma resolve_denotes ms total g k m s a :
  placed 0 ms total → collect_globals ms [] = Ok g → ms !! k = Some m →
  resolve_symbol s m g = Ok a → denotes (m_data <$> ms) k s a.
Proof.
  intros Hp Hg Hk. assert ((m_data <$> ms) !! k = Some (m_data m)) as Ho by by rewrite list_lookup_fmap, Hk.
  unfold resolve_symbol. destruct (map_find s (o_symbols (m_data m))) as [v|] eqn:Ev.
  - intros [-> _]%i64_Ok. rewrite (placed_base _ _ _ _ _ Hp Hk), Z.add_0_l. by eapply denotes_local.
  - destruct (map_find s g) as [b|] eqn:Eg; [|done]. intros [= <-]. eapply denotes_global; [done|done|].
    by apply (globals_exports _ _ _ _ _ Hp Hg).
Qed.

Lemma shift_symbols_0 g : ∀ g', shift_symbols g 0 = Ok g' → g' = g.
Proof.
  induction g as [|[k v] g IH]; intros g'; cbn; [by intros [= <-]|].
  intros (w & [-> _]%i64_Ok & (r & ->%IH & [= <-])%res_bind_Ok)%res_bind_Ok. by rewrite Z.add_0_r.
Qed.

(** Entry point and symbol table of a relocatable image. *)
Lemma link_names objs la es i :
  link objs (txt "relocatable") la es = Ok i →
  (∀ s a, map_find s (i_symbols i) = Some a ↔ exports objs s a) ∧
  match es with
  | Some s => exports objs s (i_entry i)
  | None => i_entry i = from_option o_entry 0 (head objs)
  end.
Proof.
  unfold link. change (is_absolute (txt "relocatable")) with (@Ok bool false). cbn iota.
  intros ([ms total] & Hplace & (g & Hg & H)%res_bind_Ok)%res_bind_Ok. destruct (total <? 0); [done|].
  apply place_modules_Ok in Hplace as [<- Hp].
  apply res_bind_Ok in H as (linked & _ & ([l2 pending] & _ & (ent & He & H)%res_bind_Ok)%res_bind_Ok).
  apply res_bind_Ok in H as (ie & [-> _]%i64_Ok & (sy & ->%shift_symbols_0 & [= <-])%res_bind_Ok).
  cbn [i_symbols i_entry]. split; [intros s a; by eapply globals_exports|].
  unfold find_entry in He. destruct es as [s|].
  - destruct (map_find s g) as [v|] eqn:E; [|done]. injection He as <-. by apply (globals_exports _ _ _ _ _ Hp Hg).
  - destruct ms as [|m ms]; [by injection He as <-|]. apply i64_Ok in He as [-> _]. destruct Hp as [-> _]. cbn. lia.
Qed.

(** The image of well-formed modules, loaded. *)
Lemma image_loads {D} (ll : D → Z) objs la es i base :
  Forall wf_object objs → link objs (txt "relocatable") la es = Ok i → 0 <= base < 4611686018427387904 →
  ∃ ms g code, m_data <$> ms = objs ∧ placed 0 ms (Z.of_nat (length (i_code i))) ∧
    collect_globals ms [] = Ok g ∧
    rebase ll (image_reloc <$> i_relocs i) base (i_code i) = Ok code ∧ length code = length (i_code i) ∧
    (∀ m r, m ∈ ms → r ∈ o_relocations (m_data m) →
       ∃ a, resolve_symbol (r_symbol r) m g = Ok a ∧
            word_at code (m_base m + r_offset r) = u16 (base + a + r_addend r)) ∧
    (∀ m p, m ∈ ms → 0 <= p < o_size (m_data m) → untouched (r_offset <$> o_relocations (m_data m)) p →
       byte_at code (m_base m + p) = byte_at (o_code (m_data m)) p).
Proof.
  intros Hw Hl Hbase. destruct (link_Ok _ _ _ _ _ Hw Hl) as (ms & g & sites & Hobjs & Hp & Hg & Hs & HF & Hrel & Habs).
  change (is_absolute (txt "relocatable")) with (@Ok bool false) in Habs. injection Habs as Habs. rewrite <- Habs in Hrel.
  assert (Forall (λ m, wf_object (m_data m)) ms) as Hms by (rewrite <- Hobjs, Forall_fmap in Hw; exact Hw).
  pose proof (wants_sites _ _ _ HF) as Hsites. destruct (sites_apart _ _ _ Hp Hms) as (_ & Hap & Hin).
  destruct (patch_all_Ok _ _ _ Hs) as (Hlen & Hwords & Hbytes); [by rewrite Hsites|].
  destruct (rebase_offs_Ok (i_relocs i) base (i_code i)) as (code & Hcode & Hclen & Hcw & Hcb); [| |done| |].
  { eapply patch_all_bytes; [exact Hs|]. by apply module_codes_bytes. }
  { by rewrite Hrel, Hsites. }
  { rewrite Hrel, Hsites. eapply Forall_impl; [exact Hin|]. unfold in_code. rewrite Hlen. cbn. lia. }
  exists ms, g, code. split_and!; [done|by rewrite Hlen|done|by rewrite rebase_values|done| |].
  - intros m r Hm Hr. pose proof (all_relocs_elem _ _ _ Hm Hr) as Hmr.
    apply list_elem_of_lookup_1 in Hmr as [k Hk].
    destruct (Forall2_lookup_l _ _ _ _ _ HF Hk) as ([p n] & Hpn & Hwant). destruct Hwant as (Hp1 & a & Ha & Hn). cbn in Hp1, Ha, Hn.
    exists a. split; [done|]. rewrite Forall_lookup in Hwords. specialize (Hwords _ _ Hpn) as (_ & _ & Hword).
    rewrite Hrel, Forall_fmap, Forall_lookup in Hcw. specialize (Hcw _ _ Hpn). cbn in Hcw.
    change (m_base m + r_offset r) with (site (m, r)). rewrite <- Hp1, Hcw, Hword, Hn.
    unfold u16. rewrite Zplus_mod_idemp_l. f_equal. lia.
  - intros m p Hm Hr Hu. destruct (module_byte _ _ _ _ _ Hp Hms Hm Hr) as (Hlo & _ & Hbyte).
    pose proof (untouched_site _ _ _ _ _ Hp Hms Hm Hr Hu) as Hus. rewrite <- Hsites in Hus.
    rewrite Hcb, Hbytes; [|lia|done|lia|by rewrite Hrel]. rewrite <- Hbyte. f_equal. lia.
Qed.

(** C17: linking and loading.  A relocatable image of well-formed modules (all
    modules the assembler writes are, see [assemble_wf]) is the modules one
    after the other; its entry point and its symbol table are those of the
    exported names.  Loading it at [base] always succeeds: every word under a
    relocation then holds [base], plus what its symbol denotes (the module's
    own label, or the name exported by exactly one module, at the place of
    that module), plus the addend, modulo 2^16; every other byte is the
    module's. *)
Theorem linker_relocates {D} (ll : D → Z) objs la es i base :
  Forall wf_object objs → link objs (txt "relocatable") la es = Ok i → 0 <= base < 4611686018427387904 →
  (∀ s a, map_find s (i_symbols i) = Some a ↔ exports objs s a) ∧
  match es with
  | Some s => exports objs s (i_entry i)
  | None => i_entry i = from_option o_entry 0 (head objs)
  end ∧
  ∃ code, rebase ll (image_reloc <$> i_relocs i) base (i_code i) = Ok code ∧
    Z.of_nat (length code) = base_of objs (length objs) ∧
    (∀ k o r, objs !! k = Some o → r ∈ o_relocations o →
       ∃ a, denotes objs k (r_symbol r) a ∧
            word_at code (base_of objs k + r_offset r) = u16 (base + a + r_addend r)) ∧
    (∀ k o p, objs !! k = Some o → 0 <= p < o_size o → untouched (r_offset <$> o_relocations o) p →
       byte_at code (base_of objs k + p) = byte_at (o_code o) p).
Proof.
  intros Hw Hl Hbase. destruct (link_names _ _ _ _ Hl) as [Hsy He]. split; [done|]. split; [done|].
  destruct (image_loads ll _ _ _ _ _ Hw Hl Hbase) as (ms & g & code & Hobjs & Hp & Hg & Hc & Hlen & Hrel & Hbytes).
  exists code. split; [done|]. split; [|split].
  - rewrite Hlen, <- Hobjs, length_fmap. rewrite (placed_end _ _ _ Hp) at 1. lia.
  - intros k o r Ho Hr. rewrite <- Hobjs, list_lookup_fmap in Ho. destruct (ms !! k) as [m|] eqn:Ek; [|done]. injection Ho as <-.
    destruct (Hrel m r) as (a & Ha & Hword); [by eapply list_elem_of_lookup_2|done|].
    exists a. rewrite <- Hobjs. split; [by eapply resolve_denotes|].
    rewrite <- Hword. by rewrite (placed_base _ _ _ _ _ Hp Ek).
  - intros k o p Ho Hp0 Hu. rewrite <- Hobjs, list_lookup_fmap in Ho. destruct (ms !! k) as [m|] eqn:Ek; [|done]. injection Ho as <-.
    rewrite <- (Hbytes m p); [|by eapply list_elem_of_lookup_2|done|done]. rewrite <- Hobjs. by rewrite (placed_base _ _ _ _ _ Hp Ek).
Qed.

(** ** Absolute images *)

Lemma link_same_code objs mode la1 la2 es i1 i2 :
  link objs mode la1 es = Ok i1 → link objs mode la2 es = Ok i2 →
  i_code i1 = i_code i2 ∧ is_absolute mode = Ok (i_absolute i1) ∧
  (i_absolute i1 = true → i_entry i1 - la1 = i_entry i2 - la2 ∧ i_load_address i1 = la1 ∧ i_relocs i1 = []).
Proof.
  unfold link. destruct (is_absolute mode) as [absolute| |]; [|done..].
  destruct (place_modules objs 0) as [[ms total]| |]; [|done..]. cbn [mbind res_bind].
  destruct (collect_globals ms []) as [g| |]; [|done..]. cbn [mbind res_bind]. destruct (total <? 0); [done|].
  destruct (copy_modules ms _) as [linked| |]; [|done..]. cbn [mbind res_bind].
  destruct (relocate_all g ms _) as [[linked' pending]| |]; [|done..]. cbn [mbind res_bind].
  destruct (find_entry es g ms) as [ent| |]; [|done..]. cbn [mbind res_bind].
  intros (e1 & [-> _]%i64_Ok & (s1 & _ & [= <-])%res_bind_Ok)%res_bind_Ok
         (e2 & [-> _]%i64_Ok & (s2 & _ & [= <-])%res_bind_Ok)%res_bind_Ok.
  split_and!; [done..|]. cbn. intros ->. split_and!; [lia|done|done].
Qed.

(** The load address of an absolute image.  The entry point moves with it
    and the executor loads the image there, but no byte of the code depends
    on it and the image carries no relocations: the addresses in the code
    are those of an image loaded at 0. *)
Lemma absolute_code_not_relocated objs la1 la2 es i1 i2 :
  link objs (txt "absolute") la1 es = Ok i1 → link objs (txt "absolute") la2 es = Ok i2 →
  i_code i1 = i_code i2 ∧ i_entry i1 - la1 = i_entry i2 - la2 ∧ i_load_address i1 = la1 ∧ i_relocs i1 = [].
Proof.
  intros H1 H2. destruct (link_same_code _ _ _ _ _ _ _ H1 H2) as (Hc & Ha & Hrest).
  change (is_absolute (txt "absolute")) with (@Ok bool true) in Ha. injection Ha as Ha.
  destruct (Hrest (eq_sym Ha)) as (He & Hl & Hr). done.
Qed.

(** ** Examples *)

Definition demo_main : list text :=
  [txt ".EXTERN seven"; txt ".GLOBAL main"; txt "main: LOAD R0, seven"; txt "JMP done"; txt "NOP"; txt "done: RET"].
Definition demo_lib : list text := [txt ".GLOBAL seven"; txt ".SPACE 3"; txt "seven: .WORD 7"].

Definition assembled (lines : list text) : ObjectFile :=
  match assemble lines [] with Ok o => o | _ => mk_object [] 0 [] [] [] [] 0 [] end.
Definition demo_objs : list ObjectFile := [assembled demo_main; assembled demo_lib].

Lemma demo_wf : Forall wf_object demo_objs.
Proof.
  assert (∀ lines, sizes_ok (bodies 1 lines) → assemble lines [] = Ok (assembled lines) → wf_object (assembled lines)) as H by
    (intros lines Hs; by apply assemble_wf).
  apply Forall_cons_2; [|apply Forall_singleton]; (apply H; [|vm_compute; reflexivity]);
    (eapply (bool_decide_unpack (Forall _ _))); vm_compute; exact I.
Qed.

Definition linked (mode : string) (la : Z) : image :=
  match link demo_objs (txt mode) la None with Ok i => i | _ => mk_image false 0 0 [] [] [] end.

(** Loaded at 256, the [LOAD] of [main] reads the word at 256 + 9 + 3. *)
Lemma linker_relocates_witness :
  link demo_objs (txt "relocatable") 0 None = Ok (linked "relocatable" 0) ∧ exports demo_objs (txt "seven") 12 ∧
  ∃ code, rebase (λ _ : unit, 0) (image_reloc <$> i_relocs (linked "relocatable" 0)) 256 (i_code (linked "relocatable" 0)) = Ok code ∧
    word_at code 2 = 268 ∧ word_at code 5 = 264 ∧ word_at code 12 = 7.
Proof.
  assert (link demo_objs (txt "relocatable") 0 None = Ok (linked "relocatable" 0)) as E by (vm_compute; reflexivity).
  split; [exact E|].
  destruct (linker_relocates (λ _ : unit, 0) demo_objs 0 None (linked "relocatable" 0) 256 demo_wf E) as (Hs & _ & code & H & _);
    [split; [discriminate|reflexivity]|].
  split; [apply Hs; vm_compute; reflexivity|].
  exists code. split; [exact H|]. vm_compute in H. injection H as <-. vm_compute. auto.
Defined.

(** The absolute image linked for 256 jumps below 256. *)
Lemma absolute_code_not_relocated_witness :
  i_code (linked "absolute" 256) = i_code (linked "absolute" 0) ∧ i_entry (linked "absolute" 256) = 256 ∧
  word_at (i_code (linked "absolute" 256)) 5 = 8.
Proof.
  destruct (absolute_code_not_relocated demo_objs 256 0 None (linked "absolute" 256) (linked "absolute" 0)) as (H & He & _);
    [vm_compute; reflexivity..|].
  split; [exact H|]. split; vm_compute; reflexivity.
Defined.
