(* ===== verification/MachineSpec.v ===== *)
(** * The machine runs what the assembler wrote

    A reference semantics of the instruction set, on the instructions as the
    programmer writes them, against the bytes the assembler emits and the
    decoder of the executor. *)

From Stdlib Require Import Ascii.
From S2P Require Import Prelude Memory CText ToolText Json JsonSpec Assembler AssemblerSpec Linker LinkerSpec.

(** ** Instructions *)

Inductive alu_op := ADD | SUB | MUL | DIV | MOV.

Inductive instr :=
  | NOP | HALT | RET
  | LOADI (r n : Z) | LOAD (r a : Z) | STORE (r a : Z)
  | ALU (o : alu_op) (r q : Z)
  | JMP (a : Z) | JZ (r a : Z) | JNZ (r a : Z)
  | PRINT (r : Z).

(** What an operand denotes: a number, the address of a label, or 0 for an
    external symbol that the linker fills in. *)
Definition operand_value (st1 : pass1_state) (v : text) : option Z :=
  match is_number v with
  | Ok true => match parse_number v with Ok n => Some (u16 n) | _ => None end
  | Ok false => match map_find v (symbols st1) with
                | Some a => Some (u16 a)
                | None => if existsb (text_equal v) (externs st1) then Some 0 else None
                end
  | _ => None
  end.

Definition register (a : text) : option Z := match reg_index a with Ok r => Some r | _ => None end.
Definition immediate (a : text) : option Z := match parse_number a with Ok n => Some (u16 n) | _ => None end.

Definition alu_ops : list (text * alu_op) :=
  [(txt "ADD", ADD); (txt "SUB", SUB); (txt "MUL", MUL); (txt "DIV", DIV); (txt "MOV", MOV)].

(** The instruction a source line denotes. *)
Definition written (st1 : pass1_state) (op : text) (args : list text) : option instr :=
  if is_op op "NOP" then Some NOP else if is_op op "HALT" then Some HALT else if is_op op "RET" then Some RET
  else match args with
  | [a] =>
      if is_op op "PRINT" then PRINT <$> register a
      else if is_op op "JMP" then JMP <$> operand_value st1 a
      else None
  | [a; b] =>
      r ← register a;
      if is_op op "LOADI" then LOADI r <$> immediate b
      else if is_op op "LOAD" then LOAD r <$> operand_value st1 b
      else if is_op op "STORE" then STORE r <$> operand_value st1 b
      else if is_op op "JZ" then JZ r <$> operand_value st1 b
      else if is_op op "JNZ" then JNZ r <$> operand_value st1 b
      else o ← map_find op alu_ops; ALU o r <$> register b
  | _ => None
  end.

(** ** Meaning *)

Definition reg (s : vm) (r : Z) : Z := zget (vm_regs s) r.
Definition with_reg (s : vm) (r v pc : Z) : vm_step :=
  Continue (mk_vm (vm_mem s) (zset (vm_regs s) r v) pc (vm_out s)).
Definition at_pc (s : vm) (pc : Z) : vm_step := Continue (mk_vm (vm_mem s) (vm_regs s) pc (vm_out s)).

Definition mem16 (m : memory) (a : Z) : Z := load8 m a + 256 * load8 m (a + 1).

(** The last byte of memory starts no word. *)
Definition word_ok (a : Z) : bool := (0 <=? a) && (a + 1 <? kVmMemory).

Definition alu_result (o : alu_op) (x y : Z) : option Z :=
  match o with
  | ADD => Some ((x + y) mod 65536)
  | SUB => Some ((x - y) mod 65536)
  | MUL => Some ((x * y) mod 65536)
  | DIV => if y =? 0 then None else Some (x / y)
  | MOV => Some y
  end.

Definition meaning (i : instr) (s : vm) : res vm_step :=
  let pc := vm_pc s in
  match i with
  | NOP => Ok (at_pc s (pc + 1))
  | HALT => Ok (Exit 0)
  | RET => Ok (Exit (reg s 0 mod 256))
  | LOADI r n => Ok (with_reg s r n (pc + 4))
  | LOAD r a => if word_ok a then Ok (with_reg s r (mem16 (vm_mem s) a) (pc + 4)) else Undefined
  | STORE r a =>
      if word_ok a then
        Ok (Continue (mk_vm (store8 (store8 (vm_mem s) a (reg s r)) (a + 1) (reg s r / 256)) (vm_regs s) (pc + 4) (vm_out s)))
      else Undefined
  | ALU o r q =>
      match alu_result o (reg s r) (reg s q) with
      | Some v => Ok (with_reg s r v (pc + 3))
      | None => Err EDivideByZero
      end
  | JMP a => Ok (at_pc s a)
  | JZ r a => Ok (at_pc s (if reg s r =? 0 then a else pc + 4))
  | JNZ r a => Ok (at_pc s (if reg s r =? 0 then pc + 4 else a))
  | PRINT r => Ok (Continue (mk_vm (vm_mem s) (vm_regs s) (pc + 2) (vm_out s ++ [reg s r])))
  end.

(** ** Machine states *)

Record vm_ok (s : vm) : Prop := {
  ok_regs : length (vm_regs s) = 8%nat;
  ok_words : Forall (λ x, 0 <= x < 65536) (vm_regs s);
}.

(** The bytes [bs] are in memory from [a]. *)
Fixpoint holds (m : memory) (a : Z) (bs : list Z) : Prop :=
  match bs with [] => True | b :: bs' => load8 m a = b ∧ holds m (a + 1) bs' end.

Definition is_reg (r : Z) : Prop := 0 <= r < 8.

Lemma reg_range s r : vm_ok s → is_reg r → 0 <= reg s r < 65536.
Proof.
  intros [Hl Hw] Hr. rewrite Forall_lookup in Hw. apply (Hw (Z.to_nat r)). apply zget_lookup. unfold is_reg in Hr. rewrite Hl. lia.
Qed.

Lemma vget_reg s r : vm_ok s → is_reg r → vget (vm_regs s) r = Ok (reg s r).
Proof. intros [Hl _] Hr. unfold is_reg in Hr. apply vget_Ok. unfold in_code. rewrite Hl. lia. Qed.

Lemma set_reg_Ok s r v pc : vm_ok s → is_reg r → set_reg s r v pc = Ok (with_reg s r v pc).
Proof.
  intros [Hl _] Hr. unfold is_reg in Hr. unfold set_reg.
  rewrite (proj2 (vset_Ok (vm_regs s) r v (zset (vm_regs s) r v))); [done|]. rewrite Hl. split; [lia|done].
Qed.

Lemma with_reg_ok s r v pc s' : vm_ok s → 0 <= v < 65536 → Ok (with_reg s r v pc) = Ok (Continue s') → vm_ok s'.
Proof. intros [Hl Hw] Hv [= <-]. split; cbn; [by rewrite length_zset|by apply Forall_insert]. Qed.

Lemma fetch_ok m a : 0 <= a < kVmMemory → fetch m a = Ok (load8 m a).
Proof. intros [H1 H2]. unfold fetch. by rewrite (proj2 (Z.ltb_ge _ _)), (proj2 (Z.leb_gt _ _)) by lia. Qed.

Lemma mem16_range m a : 0 <= mem16 m a < 65536.
Proof. unfold mem16. pose proof (load8_range m a). pose proof (load8_range m (a + 1)). lia. Qed.

Lemma fetch16_spec m a : fetch16 m a = if word_ok a then Ok (mem16 m a) else Undefined.
Proof.
  unfold fetch16, word_ok. destruct (_ && _) eqn:E; zbool.
  - rewrite !fetch_ok by lia. cbn [mbind res_bind]. unfold mem16. by rewrite lor_bytes by apply load8_range.
  - unfold fetch. destruct ((a <? 0) || _) eqn:E1; [done|]. cbn [mbind res_bind].
    destruct ((a + 1 <? 0) || _) eqn:E2; [done|]. zbool. exfalso. lia.
Qed.

Lemma holds_word m a n bs : holds m a (le16 n ++ bs) → mem16 m a = u16 n.
Proof. cbn. intros (H1 & H2 & _). unfold mem16. rewrite H1, H2. apply u8_byte_pair. Qed.

(** ** Encoded instructions *)

Definition alu_opcode (o : alu_op) : Z := match o with ADD => 32 | SUB => 33 | MUL => 34 | DIV => 35 | MOV => 36 end.

Definition instr_bytes (i : instr) : list Z :=
  match i with
  | NOP => [0] | HALT => [1] | RET => [2]
  | LOADI r n => 16 :: r :: le16 n | LOAD r a => 17 :: r :: le16 a | STORE r a => 18 :: r :: le16 a
  | ALU o r q => [alu_opcode o; r; q]
  | JMP a => 48 :: le16 a | JZ r a => 49 :: r :: le16 a | JNZ r a => 50 :: r :: le16 a
  | PRINT r => [64; r]
  end.

Definition instr_regs (i : instr) : list Z :=
  match i with
  | LOADI r _ | LOAD r _ | STORE r _ | JZ r _ | JNZ r _ | PRINT r => [r]
  | ALU _ r q => [r; q]
  | _ => []
  end.

Definition instr_word (i : instr) : Z :=
  match i with LOADI _ n | LOAD _ n | STORE _ n | JMP n | JZ _ n | JNZ _ n => n | _ => 0 end.

Definition instr_ok (i : instr) : Prop := Forall is_reg (instr_regs i) ∧ 0 <= instr_word i < 65536.

Lemma le16_u16 n : le16 (u16 n) = le16 n.
Proof.
  unfold le16, u8, u16. rewrite !Z.shiftr_div_pow2 by lia. change (2 ^ 8) with 256. change 65536 with (256 * 256).
  rewrite Z.rem_mul_r, !(Z.mul_comm 256) by lia. rewrite Z.mod_add, Z.mod_mod by lia. rewrite Z.div_add by lia.
  rewrite Z.div_small by (apply Z.mod_pos_bound; lia). by rewrite Z.add_0_l, Z.mod_mod by lia.
Qed.

Lemma enc_reg_register a bs : enc_reg a = Ok bs → ∃ r, register a = Some r ∧ bs = [r] ∧ is_reg r.
Proof.
  unfold enc_reg, register. intros (r & Hr & [= <-])%res_bind_Ok. rewrite Hr. exists r.
  assert (is_reg r) as Hreg.
  { revert Hr. unfold reg_index. destruct (upper (trim a)) as [|c [|d rest]]; [done..|]. destruct (negb _); [done|].
    intros (idx & _ & H)%res_bind_Ok. destruct (_ || _) eqn:E; [done|]. injection H as ->. zbool. unfold is_reg. lia. }
  split_and!; [done| |done]. unfold is_reg in Hreg. by rewrite u8_small by lia.
Qed.

Lemma enc_value_operand st1 no addr v bs rs :
  enc_value st1 no addr v = Ok (bs, rs) → ∃ n, operand_value st1 v = Some n ∧ bs = le16 n ∧ 0 <= n < 65536.
Proof.
  assert (∀ n, 0 <= u16 n < 65536) as Hu by (intros n; unfold u16; apply Z.mod_pos_bound; lia).
  unfold enc_value, operand_value. destruct (is_number v) as [[]| |]; [|destruct (map_find v _)|done|done].
  - intros (n & -> & [= <- _])%res_bind_Ok. exists (u16 n). by rewrite le16_u16.
  - intros [= <- _]. exists (u16 z). by rewrite le16_u16.
  - destruct (existsb _ _); [|done]. intros [= <- _]. by exists 0.
Qed.

Lemma parse_immediate a n : parse_number a = Ok n → immediate a = Some (u16 n).
Proof. intros H. unfold immediate. by rewrite H. Qed.

(** Evaluates the tests of an opcode against the mnemonics. *)
Ltac decide_op :=
  repeat match goal with
  | |- context [is_op (txt ?a) ?b] => let v := eval vm_compute in (is_op (txt a) b) in change (is_op (txt a) b) with v
  | |- context [map_find (txt ?a) alu_ops] =>
      let v := eval vm_compute in (map_find (txt a) alu_ops) in change (map_find (txt a) alu_ops) with v
  end; cbn iota.

(** Every encoded line denotes an instruction and its bytes are the
    instruction's. *)
Lemma enc_instr_written st1 no addr op args bs rs :
  enc_instr st1 no addr op args = Ok (bs, rs) →
  ∃ i, written st1 op args = Some i ∧ bs = instr_bytes i ∧ instr_ok i.
Proof.
  unfold enc_instr. destruct (map_find op instructions) as [[b s]|] eqn:E; [|done].
  intros ([b' r'] & H & [= <- _])%res_bind_Ok.
  assert (∀ n, 0 <= u16 n < 65536) as Hu by (intros n; unfold u16; apply Z.mod_pos_bound; lia).
  apply map_find_elem in E. unfold instructions in E. rewrite !elem_of_cons, elem_of_nil in E.
  repeat match type of E with _ ∨ _ => destruct E as [E|E] end; [..|done]; injection E as -> -> ->;
    destruct args as [|x [|y [|z args]]]; cbn [enc_args] in H; try done;
    repeat match goal with
    | H : Ok _ = Ok _ |- _ => injection H as <- <-
    | H : mbind _ _ = Ok _ |- _ => let x := fresh "x" in apply res_bind_Ok in H as (x & ? & H); try destruct x as [? ?]
    | H : enc_reg _ = Ok _ |- _ => apply enc_reg_register in H as (? & ? & -> & ?)
    | H : parse_number _ = Ok _ |- _ => apply parse_immediate in H
    | H : enc_value _ _ _ _ = Ok _ |- _ => apply enc_value_operand in H as (? & ? & -> & ?)
    end; unfold written; decide_op;
    repeat match goal with H : _ = Some _ |- _ => rewrite H; clear H; cbn [mbind option_bind fmap option_fmap option_map] end;
    (eexists; split; [reflexivity|]; split; [cbn; by rewrite ?le16_u16|]);
    (split; cbn; [auto using Forall_nil_2, Forall_cons_2|auto with lia]).
Qed.

(** ** Decoding *)

Lemma holds_cons m a b bs : holds m a (b :: bs) → load8 m a = b ∧ holds m (a + 1) bs.
Proof. done. Qed.

Lemma fetch_held m a b bs : holds m a (b :: bs) → 0 <= a < kVmMemory → fetch m a = Ok b.
Proof. intros [<- _] Ha. by apply fetch_ok. Qed.

Lemma fetch16_held m a n : holds m a (le16 n) → 0 <= a → a + 2 <= kVmMemory → 0 <= n < 65536 → fetch16 m a = Ok n.
Proof.
  intros Hh H1 H2 Hn. rewrite fetch16_spec. assert (word_ok a = true) as -> by (unfold word_ok; zsolve).
  pose proof (holds_word m a n [] ltac:(by rewrite app_nil_r)) as ->. unfold u16. by rewrite Z.mod_small by lia.
Qed.

Lemma alu_spec s (f : Z → Z → res Z) o r q opc :
  vm_ok s → is_reg r → is_reg q → holds (vm_mem s) (vm_pc s) [opc; r; q] → 0 <= vm_pc s → vm_pc s + 3 <= kVmMemory →
  (∀ x y, 0 <= x < 65536 → 0 <= y < 65536 →
     f x y = match alu_result o x y with Some v => Ok v | None => Err EDivideByZero end) →
  alu s f = meaning (ALU o r q) s.
Proof.
  intros Hs Hr Hq (_ & H1)%holds_cons Hp0 Hp1 Hf. unfold alu.
  rewrite (fetch_held _ _ _ _ H1) by lia. cbn [mbind res_bind]. apply holds_cons in H1 as [_ H2].
  replace (vm_pc s + 1 + 1) with (vm_pc s + 2) in H2 by lia. rewrite (fetch_held _ _ _ _ H2) by lia. cbn [mbind res_bind].
  rewrite !vget_reg by done. cbn [mbind res_bind]. rewrite Hf by by apply reg_range.
  cbn [meaning]. destruct (alu_result _ _ _); [|done]. cbn [mbind res_bind]. by apply set_reg_Ok.
Qed.

Lemma mask16_mod z : mask16 z = z mod 65536.
Proof. unfold mask16. change 65535 with (Z.ones 16). by rewrite Z.land_ones by lia. Qed.

Lemma branch_spec s taken opc r a :
  vm_ok s → is_reg r → 0 <= a < 65536 → holds (vm_mem s) (vm_pc s) (opc :: r :: le16 a) → 0 <= vm_pc s →
  vm_pc s + 4 <= kVmMemory → branch s taken = Ok (at_pc s (if taken (reg s r) then a else vm_pc s + 4)).
Proof.
  intros Hs Hr Ha (_ & H1)%holds_cons Hp0 Hp1. unfold branch.
  rewrite (fetch_held _ _ _ _ H1) by lia. cbn [mbind res_bind]. apply holds_cons in H1 as [_ H2].
  replace (vm_pc s + 1 + 1) with (vm_pc s + 2) in H2 by lia. rewrite (fetch16_held _ _ _ H2) by lia. cbn [mbind res_bind].
  rewrite vget_reg by done. done.
Qed.

(** The operand bytes of a register-and-word instruction. *)
Lemma reg_word_operands s opc r a :
  holds (vm_mem s) (vm_pc s) (opc :: r :: le16 a) → 0 <= vm_pc s → vm_pc s + 4 <= kVmMemory → 0 <= a < 65536 →
  fetch (vm_mem s) (vm_pc s + 1) = Ok r ∧ fetch16 (vm_mem s) (vm_pc s + 2) = Ok a.
Proof.
  intros (_ & H1)%holds_cons Hp0 Hp1 Ha. split; [apply (fetch_held _ _ _ _ H1); lia|]. apply holds_cons in H1 as [_ H2].
  replace (vm_pc s + 1 + 1) with (vm_pc s + 2) in H2 by lia. apply fetch16_held; [done|lia..].
Qed.

Lemma poke16_spec m a v :
  poke16 m a v = if word_ok a then Ok (store8 (store8 m a v) (a + 1) (v / 256)) else Undefined.
Proof.
  unfold poke16, poke, word_ok. rewrite Z.shiftr_div_pow2 by lia. change (2 ^ 8) with 256.
  destruct (_ && _) eqn:E; zbool.
  - assert ((a <? 0) || (kVmMemory <=? a) = false) as -> by zsolve. cbn [mbind res_bind].
    by assert ((a + 1 <? 0) || (kVmMemory <=? a + 1) = false) as -> by zsolve.
  - destruct ((a <? 0) || _) eqn:E1; [done|]. cbn [mbind res_bind].
    destruct ((a + 1 <? 0) || _) eqn:E2; [done|]. zbool. exfalso. lia.
Qed.

Lemma execute_opcode s b bs :
  holds (vm_mem s) (vm_pc s) (b :: bs) → 0 <= vm_pc s → vm_pc s + 1 <= kVmMemory → fetch (vm_mem s) (vm_pc s) = Ok b.
Proof. intros H H0 H1. apply (fetch_held _ _ _ _ H). lia. Qed.

Lemma execute_bytes i s :
  vm_ok s → instr_ok i → holds (vm_mem s) (vm_pc s) (instr_bytes i) → 0 <= vm_pc s →
  vm_pc s + Z.of_nat (length (instr_bytes i)) <= kVmMemory → execute s = meaning i s.
Proof.
  intros Hs [Hregs Hword] Hh Hp0 Hp1. unfold execute.
  assert (∃ b bs, instr_bytes i = b :: bs) as (b & bs & Eb) by (destruct i as [| | | | | |[]| | | |]; by do 2 eexists).
  assert (fetch (vm_mem s) (vm_pc s) = Ok b) as ->.
  { rewrite Eb in Hh, Hp1. cbn in Hp1. eapply execute_opcode; [exact Hh|lia..]. }
  cbn [mbind res_bind].
  destruct i; cbn [instr_bytes instr_regs instr_word] in *; cbn [length le16] in Hp1; rewrite ?Forall_cons in Hregs; destruct_and?.
  - injection Eb as <- <-. done.
  - injection Eb as <- <-. done.
  - injection Eb as <- <-. rewrite vget_reg by (done || unfold is_reg; lia). cbn [mbind res_bind meaning].
    change 255 with (Z.ones 8). by rewrite Z.land_ones by lia.
  - injection Eb as <- <-. destruct (reg_word_operands _ _ _ _ Hh) as [-> ->]; [lia..|]. cbn [mbind res_bind]. by apply set_reg_Ok.
  - injection Eb as <- <-. destruct (reg_word_operands _ _ _ _ Hh) as [-> ->]; [lia..|]. cbn [mbind res_bind].
    rewrite fetch16_spec. cbn [meaning]. destruct (word_ok a); [|done]. cbn [mbind res_bind]. by apply set_reg_Ok.
  - injection Eb as <- <-. destruct (reg_word_operands _ _ _ _ Hh) as [-> ->]; [lia..|]. cbn [mbind res_bind].
    rewrite vget_reg by done. cbn [mbind res_bind meaning]. rewrite poke16_spec. by destruct (word_ok a).
  - assert (∀ z, -9223372036854775808 <= z <= 9223372036854775807 → (v ← i64 z; Ok (mask16 v)) = Ok (z mod 65536)) as Hi.
    { intros z Hz. rewrite i64_small by done. cbn [mbind res_bind]. by rewrite mask16_mod. }
    destruct o; injection Eb as <- <-; (eapply alu_spec; [done..|lia|exact Hp1|]); intros x y Hx Hy; cbn [alu_result];
      [apply Hi; nia..| |done].
    destruct (y =? 0) eqn:E0; [done|]. zbool. rewrite Z.quot_div_nonneg by lia.
    assert (0 <= x / y <= x) by (split; [apply Z.div_pos; lia|apply Z.div_le_upper_bound; nia]).
    rewrite Hi by lia. f_equal. apply Z.mod_small. lia.
  - injection Eb as <- <-. apply holds_cons in Hh as [_ H1]. rewrite (fetch16_held _ _ _ H1) by lia. done.
  - injection Eb as <- <-. rewrite (branch_spec s _ _ r a Hs ltac:(done) ltac:(lia) Hh) by lia. done.
  - injection Eb as <- <-. rewrite (branch_spec s _ _ r a Hs ltac:(done) ltac:(lia) Hh) by lia. cbn [meaning]. by destruct (reg s r =? 0).
  - injection Eb as <- <-. apply holds_cons in Hh as [_ Hh1]. rewrite (fetch_held _ _ _ _ Hh1) by lia. cbn [mbind res_bind].
    by rewrite vget_reg by done.
Qed.

(** The machine stays well formed. *)
Lemma meaning_ok i s s' : vm_ok s → instr_ok i → meaning i s = Ok (Continue s') → vm_ok s'.
Proof.
  intros Hs [Hregs Hword]. assert (∀ x r, is_reg r → reg s r = x → 0 <= x < 65536) as Hx by (intros x r Hr <-; by apply reg_range).
  destruct i; cbn [meaning instr_regs instr_word] in *; rewrite ?Forall_cons in Hregs; destruct_and?; try done;
    try (by intros [= <-]; destruct Hs).
  - by apply with_reg_ok.
  - destruct (word_ok a); [|done]. apply with_reg_ok; [done|]. apply mem16_range.
  - destruct (word_ok a); [|done]. intros [= <-]. by destruct Hs.
  - destruct (alu_result _ _ _) as [v|] eqn:E; [|done]. apply with_reg_ok; [done|].
    destruct o; cbn in E; [injection E as <-; apply Z.mod_pos_bound; lia..| |injection E as <-; by eapply Hx].
    pose proof (Hx _ r ltac:(done) eq_refl). pose proof (Hx _ q ltac:(done) eq_refl).
    destruct (_ =? 0) eqn:E0; [done|]. zbool. injection E as <-. split; [apply Z.div_pos; lia|].
    apply Z.div_lt_upper_bound; nia.
Qed.

(** C18: assembler and executor agree on the instruction set.  Whatever line
    the assembler accepts denotes an instruction, and a machine whose program
    counter is at the emitted bytes performs exactly that instruction: 16-bit
    arithmetic that wraps, division by zero refused, words little-endian,
    conditional jumps on zero; and its registers stay 16-bit words. *)
Theorem assembled_instruction_runs st1 no addr op args bs rs s :
  enc_instr st1 no addr op args = Ok (bs, rs) → vm_ok s → holds (vm_mem s) (vm_pc s) bs → 0 <= vm_pc s →
  vm_pc s + Z.of_nat (length bs) <= kVmMemory →
  ∃ i, written st1 op args = Some i ∧ execute s = meaning i s ∧
       ∀ s', execute s = Ok (Continue s') → vm_ok s'.
Proof.
  intros H Hs Hh Hp0 Hp1. destruct (enc_instr_written _ _ _ _ _ _ _ H) as (i & Hi & -> & Hok).
  pose proof (execute_bytes i s Hs Hok Hh Hp0 Hp1) as E. exists i. split_and!; [done|done|].
  intros s'. rewrite E. by apply meaning_ok.
Qed.

Definition no_symbols : pass1_state := mk_pass1 [] [] [] [] 0.

(** [SUB R1, R2] at 256 with [R1 = 3] and [R2 = 5] wraps to 65534. *)
Definition sub_state : vm := mk_vm (store_bytes ∅ 256 [33; 1; 2]) [0; 3; 5; 0; 0; 0; 0; 0] 256 [].

Lemma assembled_instruction_runs_witness :
  ∃ i, written no_symbols (txt "SUB") [txt "R1"; txt "R2"] = Some i ∧ execute sub_state = meaning i sub_state ∧
       ∀ s', execute sub_state = Ok (Continue s') → vm_ok s'.
Proof.
  apply (assembled_instruction_runs no_symbols 1 0 (txt "SUB") [txt "R1"; txt "R2"] [33; 1; 2] [] sub_state).
  - vm_compute. reflexivity.
  - split; [reflexivity|]. repeat (apply Forall_cons_2; [cbn; lia|]). constructor.
  - vm_compute. repeat split.
  - vm_compute. discriminate.
  - vm_compute. discriminate.
Defined.
