(* ===== verification/Macro.v ===== *)
(** * The macro processor

    [MacroProcessor] of [tools/macroBuilder/main.cpp].  [macros_] is only
    looked up by name.  The substitution of arguments walks a
    [std::unordered_map], whose order the language leaves open: the order is
    the parameter [iter]. *)

From Stdlib Require Import Ascii.
From S2P Require Import Prelude CText ToolText Json.

Record MacroDef := mk_macro { mac_name : text; mac_params : list text; mac_body : list text }.

Abbreviation macros := (list (text * MacroDef)).

(** [text.find(from, pos)] for a non-empty [from]. *)
Fixpoint find_sub (from t : text) : option nat :=
  if starts_with t from then Some O
  else match t with [] => None | _ :: t' => S <$> find_sub from t' end.

(** [replace_all]: occurrences from the left, none inside a replacement. *)
Fixpoint replace_loop (from to t : text) (skip : nat) : text :=
  match t with
  | [] => []
  | c :: t' =>
      match skip with
      | S skip' => replace_loop from to t' skip'
      | O => if starts_with t from then to ++ replace_loop from to t' (length from - 1)
             else c :: replace_loop from to t' O
      end
  end.

Definition replace_all (t from to : text) : text :=
  match from with [] => t | _ => replace_loop from to t O end.

Definition join_lines (lines : list text) : text :=
  match lines with
  | [] => []
  | l :: rest =>
      let t := fold_left (λ acc x, acc ++ ["010"%char] ++ x) rest l in
      match t with [] => [] | _ => t ++ ["010"%char] end
  end.

(** The lines of a macro up to its [MEND], and the lines after it. *)
Fixpoint macro_body (lines : list text) (nested : nat) (body : list text) : option (list text * list text) :=
  match lines with
  | [] => None
  | raw :: rest =>
      let line := trim (strip_comment raw) in
      match tokenize line with
      | [] => macro_body rest nested (body ++ [line])
      | t0 :: _ =>
          if text_equal (upper t0) (txt "MACRO") then macro_body rest (S nested) (body ++ [line])
          else if text_equal (upper t0) (txt "MEND") then
            match nested with
            | O => Some (body, rest)
            | S nested' => macro_body rest nested' (body ++ [line])
            end
          else macro_body rest nested (body ++ [line])
      end
  end.

(** The header tokens after the name, joined by blanks. *)
Definition header_args (tokens : list text) : text :=
  match tokens with
  | [] => []
  | t :: rest => fold_left (λ acc x, acc ++ [" "%char] ++ x) rest t
  end.

Section macro.
Context (iter : list (text * text) → list (text * text)).

Definition substitute (mapping : list (text * text)) (line : text) : text :=
  fold_left (λ l '(param, arg),
    replace_all (replace_all l (["{"%char] ++ param ++ ["}"%char]) arg) ("$"%char :: param) arg)
    (iter mapping) line.

Definition bind_args (params args : list text) : list (text * text) :=
  fold_left (λ m '(p, a), map_set p a m) (zip params args) [].

(** [n] is what is left of the depth limit: depth [d] has [n = 1025 - d]. *)
Fixpoint expand_line (n : nat) (ms : macros) (line : text) : res (list text) :=
  match n with
  | O => Err EMacroDepth
  | S n' =>
      match tokenize line with
      | [] => Ok []
      | first :: _ =>
          match map_find first ms with
          | None => Ok [line]
          | Some def =>
              let arg_text := match find_sub first line with
                              | None => []
                              | Some pos => trim (drop (pos + length first) line)
                              end in
              let args := match arg_text with [] => [] | _ => split_args arg_text end in
              if negb (length args =? length (mac_params def))%nat then
                Err (EMacroArgs (mac_name def) (Z.of_nat (length (mac_params def))) (Z.of_nat (length args)))
              else
                let mapping := bind_args (mac_params def) args in
                (fix go (body : list text) : res (list text) :=
                   match body with
                   | [] => Ok []
                   | b :: body' =>
                       x ← expand_line n' ms (substitute mapping b);
                       y ← go body';
                       Ok (x ++ y)
                   end) (mac_body def)
          end
      end
  end.

Definition expansion_guard : nat := 1024.

(** Every call consumes a line, so the number of lines bounds the recursion. *)
Fixpoint process_loop (fuel : nat) (idx : Z) (lines : list text) (ms : macros) : res (list text * macros) :=
  match fuel with
  | O => Undefined
  | S fuel' =>
      match lines with
      | [] => Ok ([], ms)
      | raw :: rest =>
          let no_comment := trim (strip_comment raw) in
          match tokenize no_comment with
          | [] => process_loop fuel' (idx + 1) rest ms
          | t0 :: _ =>
              if text_equal (upper t0) (txt "MACRO") then
                match tokenize (strip_comment raw) with
                | _ :: name :: params =>
                    match macro_body rest O [] with
                    | None => Err (EMacroEnd name)
                    | Some (body, after) =>
                        '(body', ms) ← process_loop fuel' 1 body ms;
                        let def := mk_macro name (split_args (header_args params)) body' in
                        process_loop fuel' (idx + Z.of_nat (length body) + 2) after (map_set name def ms)
                    end
                | _ => Err (EMacroName idx)
                end
              else
                x ← expand_line (S expansion_guard) ms no_comment;
                '(y, ms) ← process_loop fuel' (idx + 1) rest ms;
                Ok (x ++ y, ms)
          end
      end
  end.

Definition process_lines (lines : list text) (ms : macros) : res (list text * macros) :=
  process_loop (S (length lines)) 1 lines ms.

(** [process_file] on the text of a file. *)
Definition process_file (source : text) (ms : macros) : res (text * macros) :=
  '(ls, ms) ← process_lines (read_lines source) ms; Ok (join_lines ls, ms).
End macro.
