(* ===== verification/MacroSpec.v ===== *)
(** * What the macro processor guarantees

    A relation gives the meaning of a text with macros: which definitions it
    makes and which lines it stands for.  The processor terminates on every
    input and computes exactly that meaning, whatever the order in which
    arguments are substituted; nothing it writes calls a macro it knew. *)

From Stdlib Require Import Ascii.
From S2P Require Import Prelude CText ToolText Json JsonSpec Assembler AssemblerSpec Macro.

Definition defined {A} (r : res A) : Prop := r ≠ Undefined.

Lemma defined_bind {A B} (r : res A) (f : A → res B) :
  defined r → (∀ x, r = Ok x → defined (f x)) → defined (r ≫= f).
Proof. intros Hr Hf. destruct r as [x|e|]; [by apply Hf|done|done]. Qed.

(** The line has a first word, and it is not the name of a macro. *)
Definition no_call (ms : macros) (l : text) : Prop :=
  ∃ first rest, tokenize l = first :: rest ∧ map_find first ms = None.

(** ** Replacement of a word in a text *)

(** [t'] is [t] with the occurrences of [from], found from the left and not
    overlapping, replaced by [to]. *)
Inductive replaced (from to : text) : text → text → Prop :=
  | replaced_end : replaced from to [] []
  | replaced_here t t' : replaced from to t t' → replaced from to (from ++ t) (to ++ t')
  | replaced_skip c t t' : (¬ ∃ r, c :: t = from ++ r) → replaced from to t t' → replaced from to (c :: t) (c :: t').

Lemma starts_with_spec t p : starts_with t p = true ↔ ∃ r, t = p ++ r.
Proof.
  unfold starts_with. split.
  - intros [Hl%Nat.leb_le He%text_equal_eq]%andb_prop. exists (drop (length p) t). rewrite <- He at 1. by rewrite take_drop.
  - intros [r ->]. rewrite length_app, take_app_length, text_equal_refl, andb_true_r. apply Nat.leb_le. lia.
Qed.

Lemma replace_loop_skip from to t : ∀ k, replace_loop from to t k = replace_loop from to (drop k t) O.
Proof. induction t as [|c t IH]; intros [|k]; [done..|]. cbn [replace_loop drop]. apply IH. Qed.

Lemma replaced_fun from to t t' : from ≠ [] → replaced from to t t' ↔ replace_all t from to = t'.
Proof.
  intros Hne. unfold replace_all. destruct from as [|f from]; [done|]. clear Hne. split.
  - induction 1 as [|t t' _ IH|c t t' Hn _ IH]; [done| |].
    + cbn [app replace_loop]. assert (starts_with (f :: from ++ t) (f :: from) = true) as ->
        by (apply starts_with_spec; by exists t).
      cbn [length]. rewrite Nat.sub_succ, Nat.sub_0_r, replace_loop_skip, drop_app_length. by rewrite IH.
    + cbn [replace_loop]. destruct (starts_with (c :: t) (f :: from)) eqn:E; [by apply starts_with_spec in E|]. by rewrite IH.
  - intros <-. remember (length t) as n eqn:Hn. revert t Hn. induction (lt_wf n) as [n _ IH]. intros t ->.
    destruct t as [|c t]; [constructor|]. cbn [replace_loop]. destruct (starts_with (c :: t) (f :: from)) eqn:E.
    + apply starts_with_spec in E as [r Hr]. rewrite replace_loop_skip. cbn [app] in Hr. injection Hr as -> ->.
      cbn [length]. rewrite Nat.sub_succ, Nat.sub_0_r, drop_app_length. apply (replaced_here (f :: from)).
      eapply IH; [|done]. cbn. rewrite length_app. lia.
    + apply replaced_skip; [intros H%starts_with_spec; congruence|]. eapply IH; [|done]. cbn. lia.
Qed.

(** ** Parameters and arguments *)

(** The table of a call: every parameter with its argument, the last one when
    a parameter is repeated. *)
Definition binding_table (params args : list text) (m : list (text * text)) : Prop :=
  keys_sorted m.*1 ∧
  ∀ p a, map_find p m = Some a ↔
    ∃ i, params !! i = Some p ∧ args !! i = Some a ∧
      ∀ j, (i < j)%nat → (j < length args)%nat → params !! j ≠ Some p.

(** A line of the body with the parameters written [{p}] or [$p] replaced, in
    the order of the table. *)
Inductive instance : list (text * text) → text → text → Prop :=
  | instance_nil l : instance [] l l
  | instance_cons p a m l l1 l2 l' :
      replaced (["{"%char] ++ p ++ ["}"%char]) a l l1 → replaced ("$"%char :: p) a l1 l2 →
      instance m l2 l' → instance ((p, a) :: m) l l'.

Lemma map_find_above {V} k (o : list (text * V)) : Forall (λ k', text_lt k k' = true) o.*1 → map_find k o = None.
Proof.
  induction o as [|[j w] o IH]; [done|]. cbn. intros [H1 H2]%Forall_cons.
  destruct (text_equal k j) eqn:E; [|by apply IH]. apply text_equal_eq in E as ->.
  destruct (text_lt_asym _ _ H1) as [_ E]. by rewrite text_equal_refl in E.
Qed.

Lemma sorted_map_ext {V} (m1 : list (text * V)) : ∀ m2,
  keys_sorted m1.*1 → keys_sorted m2.*1 → (∀ k v, map_find k m1 = Some v ↔ map_find k m2 = Some v) → m1 = m2.
Proof.
  induction m1 as [|[k1 v1] m1 IH]; intros [|[k2 v2] m2] H1 H2 He; [done| | |].
  - specialize (He k2 v2). cbn in He. rewrite text_equal_refl in He. discriminate (proj2 He eq_refl).
  - specialize (He k1 v1). cbn in He. rewrite text_equal_refl in He. discriminate (proj1 He eq_refl).
  - cbn [fmap list_fmap fst keys_sorted] in H1, H2. destruct H1 as [Ha1 H1], H2 as [Ha2 H2].
    assert (k1 = k2) as ->.
    { destruct (text_equal k1 k2) eqn:E; [by apply text_equal_eq|]. exfalso. destruct (text_lt k1 k2) eqn:El.
      - pose proof (proj1 (He k1 v1)) as H. cbn in H. rewrite text_equal_refl, E, map_find_above in H; [by specialize (H eq_refl)|].
        eapply Forall_impl; [exact Ha2|]. intros x. by apply text_lt_trans.
      - pose proof (text_lt_total _ _ E El) as El'. pose proof (proj2 (He k2 v2)) as H. cbn in H.
        rewrite text_equal_refl in H. destruct (text_equal k2 k1) eqn:E'; [apply text_equal_eq in E' as ->; by rewrite text_equal_refl in E|].
        rewrite map_find_above in H; [by specialize (H eq_refl)|].
        eapply Forall_impl; [exact Ha1|]. intros x. by apply text_lt_trans. }
    assert (v1 = v2) as ->.
    { pose proof (proj1 (He k2 v1)) as H. cbn in H. rewrite text_equal_refl in H. by specialize (H eq_refl) as [= ->]. }
    f_equal. apply IH; [done|done|]. intros k v. pose proof (He k v) as Hk. cbn in Hk.
    destruct (text_equal k k2) eqn:E; [|done]. apply text_equal_eq in E as ->. rewrite !map_find_above by done. done.
Qed.

Lemma bind_pairs ps : let m := fold_left (λ m '(p, a), map_set p a m) ps ([] : list (text * text)) in
  keys_sorted m.*1 ∧ ∀ p a, map_find p m = Some a ↔
    ∃ i, ps !! i = Some (p, a) ∧ ∀ j b, (i < j)%nat → ps !! j ≠ Some (p, b).
Proof.
  induction ps as [|[q b] ps [IHs IH]] using rev_ind; cbn zeta.
  { split; [done|]. intros p a. split; [done|]. intros (i & Hi & _). done. }
  rewrite fold_left_app. cbn [fold_left]. split; [by apply map_set_sorted|].
  intros p a. rewrite map_find_set. destruct (text_equal p q) eqn:E.
  - apply text_equal_eq in E as ->. split.
    + intros [= <-]. exists (length ps). split; [by rewrite lookup_app_r, Nat.sub_diag by lia|].
      intros j c Hj. rewrite lookup_ge_None_2; [done|]. rewrite length_app. cbn. lia.
    + intros (i & Hi & Hlast). destruct (decide (i < length ps)%nat) as [Hlt|Hge].
      * exfalso. apply (Hlast (length ps) b Hlt). by rewrite lookup_app_r, Nat.sub_diag by lia.
      * rewrite lookup_app_r in Hi by lia. destruct (i - length ps)%nat as [|[|k]]; cbn in Hi; congruence.
  - rewrite IH. assert (p ≠ q) by (intros ->; by rewrite text_equal_refl in E). split.
    + intros (i & Hi & Hlast). exists i. pose proof (lookup_lt_Some _ _ _ Hi) as Hlt.
      split; [by rewrite lookup_app_l|]. intros j c Hj. destruct (decide (j < length ps)%nat) as [|Hge].
      * rewrite lookup_app_l by done. by apply Hlast.
      * rewrite lookup_app_r by lia. destruct (j - length ps)%nat as [|k]; cbn; [|done]. intros [= -> _]. done.
    + intros (i & Hi & Hlast). exists i. destruct (decide (i < length ps)%nat) as [Hlt|Hge].
      * rewrite lookup_app_l in Hi by done. split; [done|]. intros j c Hj Hc. apply (Hlast j c Hj).
        by apply lookup_app_l_Some.
      * rewrite lookup_app_r in Hi by lia. destruct (i - length ps)%nat as [|k]; cbn in Hi; [|done]. injection Hi as -> _. done.
Qed.

Lemma bind_args_table params args m :
  length args = length params → binding_table params args m ↔ m = bind_args params args.
Proof.
  intros Hlen. assert (binding_table params args (bind_args params args)) as Hb.
  { destruct (bind_pairs (zip params args)) as [Hs He]. split; [done|]. intros p a. rewrite (He p a). split.
    - intros (i & Hi & Hlast). apply lookup_zip_Some in Hi as [Hp Ha]. exists i. split_and!; [done|done|].
      intros j Hj Hl Hp'. destruct (lookup_lt_is_Some_2 args j Hl) as [b Hb]. apply (Hlast j b Hj). by apply lookup_zip_Some.
    - intros (i & Hp & Ha & Hlast). exists i. split; [by apply lookup_zip_Some|].
      intros j b Hj [Hp' Hb]%lookup_zip_Some. by apply (Hlast j Hj (lookup_lt_Some _ _ _ Hb)). }
  split; [|by intros ->]. intros [Hs He]. destruct Hb as [Hs' He']. apply sorted_map_ext; [done|done|].
  intros k v. by rewrite He, He'.
Qed.

(** ** The first word of a line *)

Definition blanks (t : text) : Prop := Forall (λ c, isspace c = true) t.

Lemma tokenize_word rest : ∀ cur q w ws,
  cur ≠ [] → tokenize_loop rest cur q = w :: ws → ∃ u v, rest = u ++ v ∧ w = cur ++ u.
Proof.
  induction rest as [|ch rest IH]; intros cur q w ws Hc; cbn [tokenize_loop].
  { destruct cur; [done|]. intros [= <- _]. exists [], []. by rewrite !app_nil_r. }
  assert (∀ q', tokenize_loop rest (cur ++ [ch]) q' = w :: ws → ∃ u v, ch :: rest = u ++ v ∧ w = cur ++ u) as Hrec.
  { intros q' H. destruct (IH _ _ _ _ (λ E, app_cons_not_nil _ _ _ (eq_sym E)) H) as (u & v & -> & ->).
    exists (ch :: u), v. by rewrite <- app_assoc. }
  destruct q as [q|]; [apply Hrec|]. destruct (is_quote ch); [apply Hrec|]. destruct (isspace ch); [|apply Hrec].
  destruct cur as [|c cur]; [done|]. intros [= <- _]. exists [], (ch :: rest). by rewrite app_nil_r.
Qed.

Lemma tokenize_first line w ws : tokenize line = w :: ws →
  ∃ sp rest, line = sp ++ w ++ rest ∧ blanks sp ∧ ∃ c w', w = c :: w' ∧ isspace c = false.
Proof.
  unfold tokenize. induction line as [|ch line IH]; cbn [tokenize_loop]; [done|].
  assert (isspace ch = false → ∀ q, tokenize_loop line [ch] q = w :: ws →
    ∃ sp rest, ch :: line = sp ++ w ++ rest ∧ blanks sp ∧ ∃ c w', w = c :: w' ∧ isspace c = false) as Hword.
  { intros Hs q H. apply tokenize_word in H as (u & v & -> & ->); [|done].
    exists [], v. split_and!; [done|constructor|by exists ch, u]. }
  destruct (is_quote ch) eqn:Eq.
  { apply Hword. unfold is_quote in Eq. apply orb_prop in Eq as [->%Ascii.eqb_eq| ->%Ascii.eqb_eq]; reflexivity. }
  destruct (isspace ch) eqn:Es; [|by apply Hword]. cbn [flush].
  intros (sp & rest & -> & Hsp & Hw)%IH. exists (ch :: sp), rest. split_and!; [done|by constructor|done].
Qed.

Lemma find_sub_first sp c w rest :
  blanks sp → isspace c = false → find_sub (c :: w) (sp ++ (c :: w) ++ rest) = Some (length sp).
Proof.
  intros Hsp Hc. induction Hsp as [|s sp Hs _ IH].
  - cbn [app find_sub]. assert (starts_with (c :: w ++ rest) (c :: w) = true) as ->
      by (apply starts_with_spec; by exists rest). done.
  - cbn [app find_sub length]. destruct (starts_with (s :: sp ++ c :: w ++ rest) (c :: w)) eqn:E.
    + apply starts_with_spec in E as [r E]. injection E as -> _. congruence.
    + cbn [app] in IH. by rewrite IH.
Qed.

(** What follows the first word, as the code finds it. *)
Lemma after_first line w ws sp rest :
  tokenize line = w :: ws → line = sp ++ w ++ rest → blanks sp →
  match find_sub w line with None => [] | Some pos => trim (drop (pos + length w) line) end = trim rest.
Proof.
  intros Ht -> Hsp. destruct (tokenize_first _ _ _ Ht) as (_ & _ & _ & _ & c & w' & -> & Hc).
  rewrite find_sub_first by done. by rewrite app_assoc, <- length_app, drop_app_length.
Qed.

(** ** Definitions in a text *)

(** A source line without its comment and outer blanks. *)
Definition clean (raw : text) : text := trim (before (λ c, Ascii.eqb c ";" || Ascii.eqb c "#") raw).

(** The line starts with the word [name], in upper or lower case. *)
Definition opens (name : string) (raw : text) : Prop :=
  ∃ w ws, tokenize (clean raw) = w :: ws ∧ upper w = txt name.

(** Texts in which every [MACRO] has its [MEND]. *)
Inductive well_nested : list text → Prop :=
  | nested_nil : well_nested []
  | nested_plain l ls : ¬ opens "MACRO" l → ¬ opens "MEND" l → well_nested ls → well_nested (l :: ls)
  | nested_macro m b e ls :
      opens "MACRO" m → well_nested b → opens "MEND" e → well_nested ls → well_nested (m :: b ++ e :: ls).

Fixpoint unwords (ws : list text) : text :=
  match ws with
  | [] => []
  | [w] => w
  | w :: ws' => w ++ [" "%char] ++ unwords ws'
  end.

Lemma header_args_unwords ws : header_args ws = unwords ws.
Proof.
  destruct ws as [|w ws]; [done|]. cbn [header_args]. revert w. induction ws as [|x ws IH]; intros w; [done|].
  cbn [fold_left]. rewrite IH. change (unwords (w :: x :: ws)) with (w ++ [" "%char] ++ unwords (x :: ws)).
  destruct ws; cbn [unwords]; rewrite <- ?app_assoc; done.
Qed.

Lemma clean_code raw : trim (strip_comment raw) = clean raw.
Proof. by rewrite strip_comment_before. Qed.

Lemma opens_code name raw : opens name raw ↔
  match tokenize (clean raw) with [] => False | w :: _ => text_equal (upper w) (txt name) = true end.
Proof.
  unfold opens. destruct (tokenize (clean raw)) as [|w ws]; [naive_solver|]. rewrite text_equal_eq. naive_solver.
Qed.

Lemma macro_body_plain raw rest n acc : ¬ opens "MACRO" raw → ¬ opens "MEND" raw →
  macro_body (raw :: rest) n acc = macro_body rest n (acc ++ [clean raw]).
Proof.
  rewrite !opens_code. cbn [macro_body]. rewrite clean_code. destruct (tokenize (clean raw)) as [|w ws]; [done|].
  intros H1%not_true_is_false H2%not_true_is_false. by rewrite H1, H2.
Qed.

Lemma macro_body_macro raw rest n acc : opens "MACRO" raw →
  macro_body (raw :: rest) n acc = macro_body rest (S n) (acc ++ [clean raw]).
Proof.
  rewrite opens_code. cbn [macro_body]. rewrite clean_code. destruct (tokenize (clean raw)) as [|w ws]; [done|].
  by intros ->.
Qed.

Lemma macro_body_mend raw rest n acc : opens "MEND" raw →
  macro_body (raw :: rest) n acc = match n with O => Some (acc, rest) | S n' => macro_body rest n' (acc ++ [clean raw]) end.
Proof.
  intros (w & ws & Ht & Hw). cbn [macro_body]. rewrite clean_code, Ht, Hw. by destruct n.
Qed.

Lemma macro_body_nested b : well_nested b → ∀ rest n acc,
  macro_body (b ++ rest) n acc = macro_body rest n (acc ++ (clean <$> b)).
Proof.
  induction 1 as [|l ls H1 H2 _ IH|m b e ls Hm _ IHb He _ IHl]; intros rest n acc.
  - cbn. by rewrite app_nil_r.
  - cbn [app fmap list_fmap]. rewrite macro_body_plain, IH by done. by rewrite <- app_assoc.
  - cbn [app fmap list_fmap]. rewrite macro_body_macro, <- app_assoc, IHb by done. cbn [app].
    rewrite macro_body_mend, IHl by done. f_equal. rewrite fmap_app, <- !app_assoc. done.
Qed.

(** [n] definitions are still open in front of the text. *)
Inductive open_at : nat → list text → Prop :=
  | open_none b : well_nested b → open_at O b
  | open_one n b e ls : well_nested b → opens "MEND" e → open_at n ls → open_at (S n) (b ++ e :: ls).

Lemma open_plain n l ls : ¬ opens "MACRO" l → ¬ opens "MEND" l → open_at n ls → open_at n (l :: ls).
Proof.
  intros H1 H2 [b Hb|k b e ls' Hb He Hls]; [by apply open_none, nested_plain|].
  change (l :: b ++ e :: ls') with ((l :: b) ++ e :: ls'). apply open_one; [by apply nested_plain|done|done].
Qed.

Lemma open_block n m b e ls : opens "MACRO" m → well_nested b → opens "MEND" e → open_at n ls → open_at n (m :: b ++ e :: ls).
Proof.
  intros Hm Hb He [c Hc|k c f ls' Hc Hf Hls]; [by apply open_none, nested_macro|].
  replace (m :: b ++ e :: c ++ f :: ls') with ((m :: b ++ e :: c) ++ f :: ls') by (by cbn; rewrite <- app_assoc).
  apply open_one; [by apply nested_macro|done|done].
Qed.

Lemma macro_body_Some lines : ∀ n acc body after,
  macro_body lines n acc = Some (body, after) →
  ∃ b e, lines = b ++ e :: after ∧ open_at n b ∧ opens "MEND" e ∧ body = acc ++ (clean <$> b).
Proof.
  induction lines as [|raw lines IH]; intros n acc body after; [done|].
  destruct (tokenize (clean raw)) as [|w ws] eqn:Et; [|destruct (decide (upper w = txt "MACRO")) as [Em|Em];
    [|destruct (decide (upper w = txt "MEND")) as [Ee|Ee]]].
  2:{ assert (opens "MACRO" raw) as Hm by by exists w, ws. rewrite macro_body_macro by done.
      intros (b & e & -> & Ho & He & ->)%IH. inversion Ho as [|k c f ls Hc Hf Hls]; subst.
      exists (raw :: c ++ f :: ls), e. split_and!; [done|by apply open_block|done|by rewrite <- app_assoc]. }
  2:{ assert (opens "MEND" raw) as He by by exists w, ws. rewrite macro_body_mend by done. destruct n as [|n].
      - intros [= <- <-]. exists [], raw. split_and!; [done|constructor; constructor|done|by rewrite app_nil_r].
      - intros (b & e & -> & Ho & He' & ->)%IH. exists (raw :: b), e.
        split_and!; [done|apply (open_one _ []); [constructor|done|done]|done|by rewrite <- app_assoc]. }
  all: assert (¬ opens "MACRO" raw ∧ ¬ opens "MEND" raw) as [H1 H2]
    by (split; intros (w' & ws' & Ht' & Hw'); rewrite Et in Ht'; congruence).
  all: rewrite macro_body_plain by done; intros (b & e & -> & Ho & He & ->)%IH; exists (raw :: b), e;
    split_and!; [done|by apply open_plain|done|by rewrite <- app_assoc].
Qed.

Lemma macro_body_spec lines body after :
  macro_body lines 0 [] = Some (body, after) ↔
  ∃ b e, lines = b ++ e :: after ∧ well_nested b ∧ opens "MEND" e ∧ body = clean <$> b.
Proof.
  split.
  - intros (b & e & Hl & Ho & He & Hb)%macro_body_Some. exists b, e. inversion Ho; subst. done.
  - intros (b & e & -> & Hb & He & ->). by rewrite macro_body_nested, macro_body_mend.
Qed.

Section macro_spec.
Context (iter : list (text * text) → list (text * text)).

(** ** The meaning of a text *)

(** [expands ms n l out]: the line [l] stands for the lines [out], calls nested
    less than [n] deep.  [iter] orders the table of a call. *)
Inductive expands (ms : macros) : nat → text → list text → Prop :=
  | expands_blank n l : tokenize l = [] → expands ms (S n) l []
  | expands_plain n l w ws : tokenize l = w :: ws → map_find w ms = None → expands ms (S n) l [l]
  | expands_call n l w ws def sp rest m outs :
      tokenize l = w :: ws → map_find w ms = Some def → l = sp ++ w ++ rest → blanks sp →
      length (split_args (trim rest)) = length (mac_params def) →
      binding_table (mac_params def) (split_args (trim rest)) m →
      Forall2 (λ b out, ∃ b', instance (iter m) b b' ∧ expands ms n b' out) (mac_body def) outs →
      expands ms (S n) l (concat outs).

(** [processes ms lines out ms']: with the macros [ms] known, the text [lines]
    stands for [out] and leaves the macros [ms'].  A definition is recorded
    with its parameters and its body, the body processed first; the lines
    after it see it. *)
Inductive processes : macros → list text → list text → macros → Prop :=
  | processes_end ms : processes ms [] [] ms
  | processes_blank ms raw rest out ms' :
      tokenize (clean raw) = [] → processes ms rest out ms' → processes ms (raw :: rest) out ms'
  | processes_line ms raw rest x y ms' :
      tokenize (clean raw) ≠ [] → ¬ opens "MACRO" raw → expands ms 1025 (clean raw) x →
      processes ms rest y ms' → processes ms (raw :: rest) (x ++ y) ms'
  | processes_definition ms raw kw name params b e after body ms1 out ms' :
      opens "MACRO" raw → tokenize (before (λ c, Ascii.eqb c ";" || Ascii.eqb c "#") raw) = kw :: name :: params →
      well_nested b → opens "MEND" e →
      processes ms (clean <$> b) body ms1 →
      processes (map_set name (mk_macro name (split_args (unwords params)) body) ms1) after out ms' →
      processes ms (raw :: b ++ e :: after) out ms'.

Lemma substitute_instance m l l' : instance (iter m) l l' ↔ substitute iter m l = l'.
Proof.
  unfold substitute. generalize (iter m) as order. intros order. revert l.
  induction order as [|[p a] order IH]; intros l; cbn [fold_left].
  { split; [by inversion 1|]. intros ->. constructor. }
  rewrite <- IH. split.
  - inversion 1 as [|? ? ? ? l1 l2 ? H1 H2 H3]; subst. apply replaced_fun in H1 as <-; [|done].
    apply replaced_fun in H2 as <-; done.
  - intros H. eapply instance_cons; [by apply replaced_fun|by apply replaced_fun|exact H].
Qed.

Lemma expand_line_iff n : ∀ ms line out, expand_line iter n ms line = Ok out ↔ expands ms n line out.
Proof.
  induction n as [|n IH]; intros ms line out; [split; [done|by inversion 1]|]. cbn [expand_line].
  destruct (tokenize line) as [|w ws] eqn:Et.
  { split; [intros [= <-]; by constructor|]. inversion 1; congruence. }
  destruct (map_find w ms) as [def|] eqn:Ef.
  2:{ split; [intros [= <-]; by eapply expands_plain|]. inversion 1; congruence. }
  assert (∀ m body out, (fix go (body : list text) : res (list text) :=
      match body with [] => Ok [] | b :: body' =>
        x ← expand_line iter n ms (substitute iter m b); y ← go body'; Ok (x ++ y) end) body = Ok out ↔
    ∃ outs, out = concat outs ∧
      Forall2 (λ b out, ∃ b', instance (iter m) b b' ∧ expands ms n b' out) body outs) as Hgo.
  { intros m. induction body as [|b body IHb]; intros o.
    - split; [intros [= <-]; by exists []|]. intros (outs & -> & H). by inversion H.
    - rewrite res_bind_Ok. split.
      + intros (x & Hx & (y & Hy & [= <-])%res_bind_Ok). apply IHb in Hy as (outs & -> & HF). exists (x :: outs). split; [done|].
        constructor; [|done]. exists (substitute iter m b). split; [by apply substitute_instance|by apply IH].
      + intros (outs & -> & H). inversion H as [|? x ? outs' (b' & <-%substitute_instance & Hx) HF]; subst.
        exists x. split; [by apply IH|]. apply res_bind_Ok. exists (concat outs'). split; [|done]. apply IHb. by exists outs'. }
  assert (∀ sp rest, line = sp ++ w ++ rest → blanks sp →
    let t := match find_sub w line with None => [] | Some pos => trim (drop (pos + length w) line) end in
    match t with [] => [] | _ => split_args t end = split_args (trim rest)) as Hargs.
  { intros sp rest Hl Hsp. cbn zeta. rewrite (after_first _ _ _ _ _ Et Hl Hsp). by destruct (trim rest). }
  cbn zeta in Hargs.
  destruct (tokenize_first _ _ _ Et) as (sp & rest & Hl & Hsp & _). rewrite (Hargs _ _ Hl Hsp).
  split.
  - destruct (negb _) eqn:El; [done|]. apply negb_false_iff, Nat.eqb_eq in El. intros (outs & -> & HF)%Hgo.
    eapply expands_call; [done|done|exact Hl|done|done|by apply bind_args_table|exact HF].
  - inversion 1 as [| |? ? w' ws' def' sp' rest' m outs Ht Hf Hl' Hsp' Hlen Hm HF]; [congruence|congruence|subst n0 l out].
    rewrite Et in Ht. injection Ht as <- <-. rewrite Ef in Hf. injection Hf as <-.
    assert (split_args (trim rest) = split_args (trim rest')) as -> by by rewrite <- (Hargs _ _ Hl Hsp), (Hargs _ _ Hl' Hsp').
    rewrite (proj2 (Nat.eqb_eq _ _) Hlen). cbn [negb]. apply Hgo. exists outs. split; [done|].
    apply bind_args_table in Hm as ->; done.
Qed.

(** ** One line *)

Lemma expand_line_defined n : ∀ ms line, defined (expand_line iter n ms line).
Proof.
  induction n as [|n IH]; intros ms line; [done|]. cbn [expand_line].
  destruct (tokenize line) as [|first rest]; [done|]. destruct (map_find first ms) as [def|]; [|done].
  destruct (negb _); [done|]. induction (mac_body def) as [|b body IHb]; [done|].
  apply defined_bind; [apply IH|]. intros x _. apply defined_bind; [apply IHb|done].
Qed.

Lemma expand_line_no_call n : ∀ ms line out, expand_line iter n ms line = Ok out → Forall (no_call ms) out.
Proof.
  induction n as [|n IH]; intros ms line out; [done|]. cbn [expand_line].
  destruct (tokenize line) as [|first rest] eqn:Et; [intros [= <-]; constructor|].
  destruct (map_find first ms) as [def|] eqn:Ef.
  2: { intros [= <-]. apply Forall_singleton. by exists first, rest. }
  destruct (negb _); [done|]. revert out. induction (mac_body def) as [|b body IHb]; intros out; [intros [= <-]; constructor|].
  intros (x & Hx & (y & Hy & [= <-])%res_bind_Ok)%res_bind_Ok. apply Forall_app. split; [by eapply IH|by apply IHb].
Qed.

(** ** Whole files *)

Lemma macro_body_length lines : ∀ nested body body' after,
  macro_body lines nested body = Some (body', after) →
  (length body' + length after < length body + length lines)%nat.
Proof.
  induction lines as [|raw lines IH]; intros nested body body' after; cbn [macro_body]; [done|].
  assert (∀ n, macro_body lines n (body ++ [trim (strip_comment raw)]) = Some (body', after) →
    (length body' + length after < length body + length (raw :: lines))%nat) as Hrec.
  { intros n H. specialize (IH _ _ _ _ H). rewrite length_app in IH. cbn in *. lia. }
  destruct (tokenize _) as [|t0 tk]; [apply Hrec|]. destruct (text_equal _ _); [apply Hrec|].
  destruct (text_equal _ _); [|apply Hrec]. destruct nested; [|apply Hrec]. intros [= <- <-]. cbn. lia.
Qed.

Lemma process_loop_defined fuel : ∀ idx lines ms,
  (length lines < fuel)%nat → defined (process_loop iter fuel idx lines ms).
Proof.
  induction fuel as [|fuel IH]; intros idx lines ms Hf; [lia|]. destruct lines as [|raw rest]; [done|].
  cbn [length] in Hf. cbn [process_loop]. destruct (tokenize (trim _)) as [|t0 tk]; [apply IH; lia|]. destruct (text_equal _ _).
  - destruct (tokenize (strip_comment raw)) as [|? [|name params]]; [done..|].
    destruct (macro_body rest 0 []) as [[body after]|] eqn:Eb; [|done]. apply macro_body_length in Eb. cbn in Eb.
    apply defined_bind; [apply IH; lia|]. intros [b ms'] _. apply IH. lia.
  - apply defined_bind; [apply expand_line_defined|]. intros x _. apply defined_bind; [apply IH; lia|]. by intros [y ms'] _.
Qed.

(** Macros are only added. *)
Definition grows (ms ms' : macros) : Prop := ∀ n, map_find n ms' = None → map_find n ms = None.

Lemma grows_set n d ms ms' : grows (map_set n d ms) ms' → grows ms ms'.
Proof. intros H k Hk. specialize (H k Hk). rewrite map_find_set in H. by destruct (text_equal k n). Qed.

Lemma process_loop_grows fuel : ∀ idx lines ms out ms',
  process_loop iter fuel idx lines ms = Ok (out, ms') → grows ms ms'.
Proof.
  induction fuel as [|fuel IH]; intros idx lines ms out ms'; [done|]. destruct lines as [|raw rest]; [by intros [= <- <-] ?|].
  cbn [process_loop]. destruct (tokenize (trim _)) as [|t0 tk]; [apply IH|]. destruct (text_equal _ _).
  - destruct (tokenize (strip_comment raw)) as [|? [|name params]]; [done..|].
    destruct (macro_body rest 0 []) as [[body after]|]; [|done]. intros ([b ms1] & H1 & H2)%res_bind_Ok.
    apply IH in H1. apply IH, grows_set in H2. intros k Hk. auto.
  - intros (x & _ & ([y ms1] & H2 & [= <- <-])%res_bind_Ok)%res_bind_Ok. by eapply IH.
Qed.

Lemma no_call_grows ms ms' l : grows ms ms' → no_call ms' l → no_call ms l.
Proof. intros Hg (f & r & Ht & Hn). exists f, r. auto. Qed.

Lemma process_loop_no_call fuel : ∀ idx lines ms out ms',
  process_loop iter fuel idx lines ms = Ok (out, ms') → Forall (no_call ms) out.
Proof.
  induction fuel as [|fuel IH]; intros idx lines ms out ms'; [done|]. destruct lines as [|raw rest]; [by intros [= <- <-]|].
  cbn [process_loop]. destruct (tokenize (trim _)) as [|t0 tk]; [apply IH|]. destruct (text_equal _ _).
  - destruct (tokenize (strip_comment raw)) as [|? [|name params]]; [done..|].
    destruct (macro_body rest 0 []) as [[body after]|]; [|done]. intros ([b ms1] & H1 & H2)%res_bind_Ok.
    apply process_loop_grows in H1. apply IH in H2. eapply Forall_impl; [exact H2|]. intros x. apply no_call_grows.
    intros k Hk. apply H1. rewrite map_find_set in Hk. by destruct (text_equal k name).
  - intros (x & Hx & ([y ms1] & H2 & [= <- <-])%res_bind_Ok)%res_bind_Ok. apply Forall_app.
    split; [by eapply expand_line_no_call|by eapply IH].
Qed.

(** A macro whose body calls it again with no arguments: recursion is
    refused at the depth limit. *)
Definition self_call (name : text) : MacroDef := mk_macro name [] [name].

Lemma self_call_depth name n ms :
  iter [] = [] → tokenize name = [name] → find_sub name name = Some O → map_find name ms = Some (self_call name) →
  expand_line iter n ms name = Err EMacroDepth.
Proof.
  intros Hi Ht Hf Hm. induction n as [|n IH]; [done|]. cbn [expand_line]. rewrite Ht, Hm, Hf.
  rewrite Nat.add_0_l, drop_all. cbn -[expand_line]. unfold substitute. rewrite Hi. cbn [fold_left]. by rewrite IH.
Qed.

(** ** The processor computes the meaning *)

Lemma process_loop_sound fuel : ∀ idx lines ms out ms',
  process_loop iter fuel idx lines ms = Ok (out, ms') → processes ms lines out ms'.
Proof.
  induction fuel as [|fuel IH]; intros idx lines ms out ms'; [done|].
  destruct lines as [|raw rest]; [intros [= <- <-]; constructor|]. cbn [process_loop]. rewrite clean_code.
  destruct (tokenize (clean raw)) as [|t0 tk] eqn:Et; [intros H%IH; by apply processes_blank|].
  destruct (text_equal (upper t0) (txt "MACRO")) eqn:Em.
  - apply text_equal_eq in Em. rewrite strip_comment_before.
    destruct (tokenize (before _ raw)) as [|kw [|name params]] eqn:Eh; [done..|].
    destruct (macro_body rest 0 []) as [[body after]|] eqn:Eb; [|done].
    apply macro_body_spec in Eb as (b & e & -> & Hb & He & ->). rewrite header_args_unwords.
    intros ([x ms1] & H1%IH & H2%IH)%res_bind_Ok. eapply processes_definition; [by exists t0, tk|exact Eh|done|done|exact H1|exact H2].
  - intros (x & Hx%expand_line_iff & ([y ms1] & H2%IH & [= <- <-])%res_bind_Ok)%res_bind_Ok.
    apply processes_line; [by rewrite Et|rewrite opens_code, Et; congruence|exact Hx|exact H2].
Qed.

Lemma process_loop_complete ms lines out ms' : processes ms lines out ms' →
  ∀ fuel idx, (length lines < fuel)%nat → process_loop iter fuel idx lines ms = Ok (out, ms').
Proof.
  induction 1 as [ms|ms raw rest out ms' Ht _ IH|ms raw rest x y ms' Ht Hm Hx _ IH
    |ms raw kw name params b e after body ms1 out ms' Hm Hh Hb He _ IH1 _ IH2]; intros [|fuel] idx Hf;
    cbn [length] in Hf; try lia; [done|..]; cbn [process_loop]; rewrite clean_code.
  - rewrite Ht. apply IH. lia.
  - rewrite opens_code in Hm. destruct (tokenize (clean raw)) as [|t0 tk]; [done|].
    apply not_true_is_false in Hm. rewrite Hm. apply expand_line_iff in Hx.
    change (S expansion_guard) with 1025%nat. rewrite Hx. cbn [mbind res_bind]. by rewrite IH by lia.
  - destruct Hm as (t0 & tk & -> & ->). rewrite strip_comment_before, Hh. cbn [text_equal].
    rewrite (proj2 (macro_body_spec (b ++ e :: after) (clean <$> b) after)) by eauto 10.
    rewrite length_app in Hf. cbn [length] in Hf. rewrite IH1 by (rewrite length_fmap; lia).
    cbn [mbind res_bind]. rewrite header_args_unwords. apply IH2. lia.
Qed.

(** C19: the macro processor.  It terminates on every text, and it returns
    exactly the meaning of the text, given by [processes]: a definition (the
    lines between a [MACRO] and the [MEND] that closes it, definitions inside
    it included) is recorded under its name with its parameters and its
    processed body and is known to the lines below it; a line that calls a
    macro stands for the lines of the body with the arguments in place of the
    parameters, expanded again, up to the depth limit; other lines are copied
    without comment.  Where there is no such meaning it reports an error.  No
    line it writes calls a macro that was defined before the text, and macros
    are only added.  This holds for every order in which the arguments of a
    call are substituted. *)
Theorem macro_expansion_terminates lines ms :
  process_lines iter lines ms ≠ Undefined ∧
  (∀ out ms', process_lines iter lines ms = Ok (out, ms') ↔ processes ms lines out ms') ∧
  ∀ out ms', process_lines iter lines ms = Ok (out, ms') → Forall (no_call ms) out ∧ grows ms ms'.
Proof.
  split; [apply process_loop_defined; lia|]. split.
  - intros out ms'. split; [apply process_loop_sound|]. intros H. apply process_loop_complete; [done|lia].
  - intros out ms' H. split; [by eapply process_loop_no_call|by eapply process_loop_grows].
Qed.

End macro_spec.

(** Two macros, one calling the other. *)
Definition macro_text : list text :=
  [txt "MACRO INC r ; adds one"; txt " LOADI R7, 1"; txt " ADD {r}, R7"; txt "MEND";
   txt "MACRO TWICE x"; txt "INC $x"; txt "INC $x"; txt "MEND"; txt "TWICE R3"; txt "HALT"].

Lemma macro_expansion_terminates_witness :
  processes id [] macro_text
    [txt "LOADI R7, 1"; txt "ADD R3, R7"; txt "LOADI R7, 1"; txt "ADD R3, R7"; txt "HALT"]
    [(txt "INC", mk_macro (txt "INC") [txt "r"] [txt "LOADI R7, 1"; txt "ADD {r}, R7"]);
     (txt "TWICE", mk_macro (txt "TWICE") [txt "x"] [txt "LOADI R7, 1"; txt "ADD $x, R7"; txt "LOADI R7, 1"; txt "ADD $x, R7"])].
Proof.
  destruct (macro_expansion_terminates id macro_text []) as (_ & H & _). apply H. vm_compute. reflexivity.
Defined.

Lemma recursive_macro_refused :
  process_lines id [txt "MACRO F"; txt "F"; txt "MEND"; txt "F"] [] = Err EMacroDepth.
Proof. vm_compute. reflexivity. Qed.
