(* ===== verification/Sync.v ===== *)
(** * Spin locks ([kernel/sync/spinlock.hpp])

    The lock word and the code around it as interleaved steps of any number of
    threads.  A locked region is a list of updates of the shared data; other
    threads run between any two of them.  The theorem is what lets the other
    components treat a function that holds a [LockGuard] for its whole body as
    one step. *)

From S2P Require Import Prelude.

(** ** The lock word *)

(** [xchg] of 1 with the word; the lock is taken when the old value was 0. *)
Definition try_lock (m_state : Z) : bool * Z :=
  let previous := m_state in (previous =? 0, 1).

Definition unlock (m_state : Z) : Z := 0.

(** ** Threads *)

Section spinlock.
Context {St Op : Type} (body : Op → list (St → St)).

(** A thread is outside, spinning in [lock], or inside with the updates it
    still has to do. *)
Inductive thread :=
  | Outside
  | Spinning (o : Op)
  | Inside (o : Op) (rest : list (St → St)).

Record locked := mk_locked {
  m_state : Z;
  shared : St;
  threads : list thread;
}.

Definition set_thread (w : locked) (i : nat) (t : thread) : locked :=
  mk_locked (m_state w) (shared w) (<[i := t]> (threads w)).

(** One step; the log gets the operation of a thread that leaves. *)
Inductive lock_step : list Op → locked → list Op → locked → Prop :=
  | step_call i o log w :
      threads w !! i = Some Outside → lock_step log w log (set_thread w i (Spinning o))
  | step_lock i o log w b m :
      threads w !! i = Some (Spinning o) → try_lock (m_state w) = (b, m) →
      lock_step log w log
        (mk_locked m (shared w) (<[i := if b then Inside o (body o) else Spinning o]> (threads w)))
  | step_body i o f rest log w :
      threads w !! i = Some (Inside o (f :: rest)) →
      lock_step log w log (mk_locked (m_state w) (f (shared w)) (<[i := Inside o rest]> (threads w)))
  | step_unlock i o log w :
      threads w !! i = Some (Inside o []) →
      lock_step log w (log ++ [o]) (mk_locked (unlock (m_state w)) (shared w) (<[i := Outside]> (threads w))).

Inductive lock_reach (s0 : St) (n : nat) : list Op → locked → Prop :=
  | reach_start : lock_reach s0 n [] (mk_locked 0 s0 (replicate n Outside))
  | reach_step log w log' w' :
      lock_reach s0 n log w → lock_step log w log' w' → lock_reach s0 n log' w'.

(** ** Atomicity *)

Definition run (fs : list (St → St)) (s : St) : St := fold_left (λ s f, f s) fs s.
Definition run_ops (os : list Op) (s : St) : St := fold_left (λ s o, run (body o) s) os s.

Definition is_inside (t : thread) : Prop := match t with Inside _ _ => True | _ => False end.

(** Nobody is inside and the shared data is the result of whole operations, or
    exactly one thread is and its remaining updates complete its operation. *)
Definition lock_inv (s0 : St) (log : list Op) (w : locked) : Prop :=
  (m_state w = 0 ∧ shared w = run_ops log s0 ∧ ∀ i t, threads w !! i = Some t → ¬ is_inside t) ∨
  (m_state w = 1 ∧ ∃ i o rest, threads w !! i = Some (Inside o rest) ∧
     run rest (shared w) = run (body o) (run_ops log s0) ∧
     ∀ j t, threads w !! j = Some t → is_inside t → j = i).

Lemma run_ops_snoc log o s0 : run_ops (log ++ [o]) s0 = run (body o) (run_ops log s0).
Proof. unfold run_ops. by rewrite fold_left_app. Qed.

(** A thread that changes outside the region does not matter to the others. *)
Lemma lookup_others w i t' j t :
  <[i := t']> (threads w) !! j = Some t → (j = i ∧ t = t') ∨ (j ≠ i ∧ threads w !! j = Some t).
Proof.
  intros H. destruct (decide (i = j)) as [->|Hne].
  - left. apply list_lookup_insert_Some in H as [(_ & <- & _)|[? _]]; done.
  - right. rewrite list_lookup_insert_ne in H by done. done.
Qed.

Lemma lock_inv_outside s0 log w i t t' :
  threads w !! i = Some t → ¬ is_inside t → ¬ is_inside t' → lock_inv s0 log w → lock_inv s0 log (set_thread w i t').
Proof.
  intros Hi Ht Ht' [(Hm & Hs & Hn)|(Hm & k & o & rest & Hk & Hr & Hu)].
  - left. split_and!; [done|done|]. intros j u Hj. apply lookup_others in Hj as [[_ ->]|[_ Hj]]; [done|by eapply Hn].
  - right. assert (i ≠ k) by (intros ->; rewrite Hk in Hi; injection Hi as <-; done).
    split; [done|]. exists k, o, rest. cbn. rewrite list_lookup_insert_ne by done. split_and!; [done|done|].
    intros j u Hj Hin. apply lookup_others in Hj as [[_ ->]|[_ Hj]]; [done|by eapply Hu].
Qed.

Lemma lock_inv_step s0 log w log' w' : lock_step log w log' w' → lock_inv s0 log w → lock_inv s0 log' w'.
Proof.
  intros Hstep Hinv. destruct Hstep as [i o log w Hi|i o log w b m Hi Hb|i o f rest log w Hi|i o log w Hi].
  - apply (lock_inv_outside _ _ _ _ Outside); [done|by intros []|by intros []|done].
  - unfold try_lock in Hb. injection Hb as <- <-. destruct (m_state w =? 0) eqn:E.
    + destruct Hinv as [(_ & Hs & Hn)|(Hm & _)]; [|rewrite Hm in E; done]. right. split; [done|].
      exists i, o, (body o). cbn. rewrite list_lookup_insert_eq by by eapply lookup_lt_Some. split_and!; [done|by rewrite Hs|].
      intros j t Hj Hin. apply lookup_others in Hj as [[-> _]|[_ Hj]]; [done|]. destruct (Hn _ _ Hj Hin).
    + assert (m_state w = 1) as Hm by (destruct Hinv as [(Hm & _)|(Hm & _)]; [rewrite Hm in E; done|done]).
      pose proof (lock_inv_outside s0 log w i _ (Spinning o) Hi ltac:(by intros []) ltac:(by intros []) Hinv) as H.
      unfold set_thread in H. by rewrite Hm in H.
  - destruct Hinv as [(_ & _ & Hn)|(Hm & k & o' & rest' & Hk & Hr & Hu)]; [by destruct (Hn _ _ Hi)|].
    assert (i = k) as -> by by eapply Hu. rewrite Hk in Hi. injection Hi as -> ->. right. split; [done|].
    exists k, o, rest. cbn. rewrite list_lookup_insert_eq by by eapply lookup_lt_Some. split_and!; [done|done|].
    intros j t Hj Hin. apply lookup_others in Hj as [[-> _]|[_ Hj]]; [done|by eapply Hu].
  - destruct Hinv as [(_ & _ & Hn)|(Hm & k & o' & rest' & Hk & Hr & Hu)]; [by destruct (Hn _ _ Hi)|].
    assert (i = k) as -> by by eapply Hu. rewrite Hk in Hi. injection Hi as -> ->. left. cbn in Hr. split_and!.
    + done.
    + by rewrite run_ops_snoc, <- Hr.
    + intros j t Hj Hin. apply lookup_others in Hj as [[_ ->]|[Hne Hj]]; [done|]. by apply Hne, (Hu j t).
Qed.

Lemma lock_inv_reach s0 n log w : lock_reach s0 n log w → lock_inv s0 log w.
Proof.
  induction 1 as [|log w log' w' _ IH Hs]; [|by eapply lock_inv_step].
  left. split_and!; [done|done|]. cbn. intros i t Hi. apply lookup_replicate in Hi as [-> _]. by intros [].
Qed.

(** C23: mutual exclusion and atomicity.  However the steps of the threads are
    interleaved, at most one of them is in the locked region, the lock word
    says whether one is, and whenever the region is empty the shared data is
    what the finished operations produce when run one after the other, in the
    order in which they released the lock. *)
Theorem spinlock_atomic s0 n log w :
  lock_reach s0 n log w →
  (∀ i j t u, threads w !! i = Some t → threads w !! j = Some u → is_inside t → is_inside u → i = j) ∧
  (m_state w = 0 ↔ ∀ i t, threads w !! i = Some t → ¬ is_inside t) ∧
  (m_state w = 0 → shared w = run_ops log s0).
Proof.
  intros [(Hm & Hs & Hn)|(Hm & k & o & rest & Hk & Hr & Hu)]%lock_inv_reach.
  - split_and!; [|done|done]. intros i j t u Hi _ Ht _. by destruct (Hn _ _ Hi).
  - split_and!; [|split|].
    + intros i j t u Hi Hj Ht Hu'. by rewrite (Hu _ _ Hi Ht), (Hu _ _ Hj Hu').
    + rewrite Hm. done.
    + intros Hn. by destruct (Hn _ _ Hk).
    + rewrite Hm. done.
Qed.
End spinlock.

Arguments Outside {_ _}.
Arguments Spinning {_ _} _.
Arguments Inside {_ _} _ _.

(** Two threads add 1 to a counter in two updates each (read, then write). *)
Definition add_one (_ : unit) : list (Z * Z → Z * Z) := [λ s, (s.1, s.1); λ s, (s.2 + 1, s.2)].

Definition half_done : locked := mk_locked 1 (0, 0) [Inside tt [λ s : Z * Z, (s.2 + 1, s.2)]; Spinning tt].

Lemma half_done_reached : lock_reach add_one (0, 0) 2 [] half_done.
Proof.
  assert (lock_reach add_one (0, 0) 2 [] (mk_locked 0 (0, 0) [Outside; Outside])) as H
    by exact (reach_start add_one (0, 0) 2).
  eapply reach_step in H; [|by apply (step_call _ 0%nat tt)]. eapply reach_step in H; [|by apply (step_call _ 1%nat tt)].
  eapply reach_step in H; [|by eapply (step_lock _ 0%nat tt)]. eapply reach_step in H; [|by eapply (step_body _ 0%nat tt)].
  eapply reach_step in H; [|by eapply (step_lock _ 1%nat tt)]. exact H.
Qed.

Lemma spinlock_atomic_witness : ¬ is_inside (St := Z * Z) (Spinning tt) ∧ (m_state half_done = 0 → shared half_done = (0, 0)).
Proof.
  destruct (spinlock_atomic add_one (0, 0) 2 [] half_done half_done_reached) as (Hx & _ & Hs). split; [|exact Hs].
  intros Hin. discriminate (Hx 0%nat 1%nat _ _ eq_refl eq_refl I Hin).
Defined.
