(* ===== verification/Keyboard.v ===== *)
(** * Keyboard buffer ([kernel/input/keyboard.cpp])

    Scan codes decoded into a ring of 256 characters that the interrupt
    handler fills and the shell empties.  The abstract state is the queue of
    characters between the two indices. *)

From Stdlib Require Import Ascii.
From S2P Require Import Prelude CText.

Definition kKeyBuffer : Z := 256.

Record keyboard := mk_keyboard {
  g_kbuf : list Z;
  g_head : Z;
  g_tail : Z;
}.

Definition keyboard_boot : keyboard := mk_keyboard (replicate 256 0) 0 0.

Definition next (i : Z) : Z := Z.land (i +u 1) (kKeyBuffer - 1).

(** The [switch] of [enqueue_from_isr]. *)
Definition key_table : list (Z * ascii) :=
  [(28, "010"); (14, "008"); (57, " ");
   (2, "1"); (3, "2"); (4, "3"); (5, "4"); (6, "5"); (7, "6"); (8, "7"); (9, "8"); (10, "9"); (11, "0");
   (16, "q"); (17, "w"); (18, "e"); (19, "r"); (20, "t"); (21, "y"); (22, "u"); (23, "i"); (24, "o"); (25, "p");
   (30, "a"); (31, "s"); (32, "d"); (33, "f"); (34, "g"); (35, "h"); (36, "j"); (37, "k"); (38, "l");
   (44, "z"); (45, "x"); (46, "c"); (47, "v"); (48, "b"); (49, "n"); (50, "m"); (51, ","); (52, ".");
   (53, "/"); (39, ";"); (40, "'"); (41, "`"); (26, "["); (27, "]"); (43, "\"); (12, "-"); (13, "=")]%char.

Definition decode (scancode : Z) : Z :=
  match find (λ kc, kc.1 =? scancode) key_table with Some kc => byte_of kc.2 | None => 0 end.

Definition enqueue_from_isr (k : keyboard) (scancode : Z) : keyboard :=
  let ch := decode scancode in
  if ch =? 0 then k
  else
    let n := next (g_head k) in
    if n =? g_tail k then k
    else mk_keyboard (zset (g_kbuf k) (g_head k) ch) n (g_tail k).

Definition dequeue_char (k : keyboard) : option Z * keyboard :=
  if g_head k =? g_tail k then (None, k)
  else (Some (zget (g_kbuf k) (g_tail k)), mk_keyboard (g_kbuf k) (g_head k) (next (g_tail k))).

(** [irq1_handler64] of [arch/x86_64/irq_handlers.cpp]: break codes are
    dropped. *)
Definition irq1_handler64 (sc : Z) (k : keyboard) : keyboard :=
  if Z.land sc 128 =? 0 then enqueue_from_isr k sc else k.

(** [pending]: the bytes the controller delivers before its output buffer is
    empty. *)
Fixpoint drain_poll (pending : list Z) (k : keyboard) : keyboard :=
  match pending with
  | [] => k
  | sc :: pending' =>
      if negb (Z.land sc 128 =? 0) then drain_poll pending' k
      else drain_poll pending' (enqueue_from_isr k sc)
  end.

(** ** The queue *)

Record keyboard_ok (k : keyboard) : Prop := {
  kb_len : length (g_kbuf k) = 256%nat;
  kb_head : 0 <= g_head k < 256;
  kb_tail : 0 <= g_tail k < 256;
}.

Definition pending_keys (k : keyboard) : Z := (g_head k - g_tail k) mod 256.

(** The [n] characters from index [i] on, around the ring. *)
Definition ring (buf : list Z) (i : Z) (n : nat) : list Z :=
  (λ j, zget buf ((i + j) mod 256)) <$> seqZ 0 (Z.of_nat n).

Definition queue (k : keyboard) : list Z := ring (g_kbuf k) (g_tail k) (Z.to_nat (pending_keys k)).

Lemma next_mod i : 0 <= i < 256 → next i = (i + 1) mod 256.
Proof.
  intros Hi. unfold next, kKeyBuffer. rewrite u32_small by lia. change (256 - 1) with (Z.ones 8). by rewrite Z.land_ones by lia.
Qed.

Lemma next_range i : 0 <= i < 256 → 0 <= next i < 256.
Proof. intros Hi. rewrite next_mod by done. apply Z.mod_pos_bound. lia. Qed.

Lemma pending_range k : 0 <= pending_keys k < 256.
Proof. apply Z.mod_pos_bound. lia. Qed.

Lemma ring_snoc buf i n : ring buf i (S n) = ring buf i n ++ [zget buf ((i + Z.of_nat n) mod 256)].
Proof. unfold ring. rewrite Nat2Z.inj_succ, <- Z.add_1_r, seqZ_app, fmap_app by lia. done. Qed.

Lemma ring_cons buf i n : ring buf i (S n) = zget buf (i mod 256) :: ring buf ((i + 1) mod 256) n.
Proof.
  unfold ring. rewrite seqZ_cons by lia. cbn [fmap list_fmap]. rewrite Z.add_0_r. f_equal.
  replace (Z.of_nat (S n) - 1) with (Z.of_nat n) by lia. apply list_eq. intros j. rewrite !list_lookup_fmap.
  destruct (decide (j < n)%nat).
  - rewrite !lookup_seqZ_lt by lia. cbn. rewrite Zplus_mod_idemp_l. do 2 f_equal. f_equal. lia.
  - rewrite !lookup_seqZ_ge by lia. done.
Qed.

Lemma ring_zset buf i n h v :
  (∀ j, 0 <= j < Z.of_nat n → (i + j) mod 256 ≠ h) → 0 <= h → ring (zset buf h v) i n = ring buf i n.
Proof.
  intros Hne Hh. apply list_eq. intros j. unfold ring. rewrite !list_lookup_fmap.
  destruct (decide (j < n)%nat); [|by rewrite !lookup_seqZ_ge by lia]. rewrite !lookup_seqZ_lt by lia. cbn [fmap option_fmap option_map]. rewrite Z.add_0_l. f_equal.
  pose proof (Z.mod_pos_bound (i + Z.of_nat j) 256 ltac:(lia)). apply zget_zset_ne; [lia..|]. apply not_eq_sym, Hne. lia.
Qed.

(** ** Operations on the queue *)

Definition kb_capacity : Z := 255.

Lemma queue_length k : Z.of_nat (length (queue k)) = pending_keys k.
Proof. unfold queue, ring. rewrite length_fmap, length_seqZ. pose proof (pending_range k). lia. Qed.

(** A decoded character joins the queue unless 255 are waiting. *)
Definition queue_push (q : list Z) (ch : Z) : list Z :=
  if (ch =? 0) || (kb_capacity <=? Z.of_nat (length q)) then q else q ++ [ch].

Lemma ring_full k : keyboard_ok k → next (g_head k) = g_tail k ↔ pending_keys k = 255.
Proof.
  intros [_ Hh Ht]. rewrite next_mod by done. unfold pending_keys.
  destruct (Z.eq_dec (g_head k) 255) as [->|Hne].
  - change ((255 + 1) mod 256) with 0. destruct (Z.eq_dec (g_tail k) 0) as [->|H0]; [done|].
    rewrite Z.mod_small by lia. lia.
  - rewrite Z.mod_small by lia. destruct (Z.le_gt_cases (g_tail k) (g_head k)).
    + rewrite Z.mod_small by lia. lia.
    + rewrite <- (Z.mod_add _ 1), Z.mod_small by lia. lia.
Qed.

Lemma enqueue_refines k sc :
  keyboard_ok k → keyboard_ok (enqueue_from_isr k sc) ∧ queue (enqueue_from_isr k sc) = queue_push (queue k) (decode sc).
Proof.
  intros Hk. pose proof (ring_full k Hk) as Hfull. destruct (Hk) as [Hl Hh Ht]. unfold enqueue_from_isr, queue_push.
  destruct (decode sc =? 0); [done|]. cbn [orb]. rewrite queue_length. unfold kb_capacity. pose proof (pending_range k) as Hp.
  destruct (next (g_head k) =? g_tail k) eqn:E; zbool.
  { rewrite (proj2 (Z.leb_le _ _)) by (rewrite (proj1 Hfull E); lia). done. }
  assert (pending_keys k ≠ 255) as Hn by (intros H; by apply E, Hfull). rewrite (proj2 (Z.leb_gt _ _)) by lia.
  split; [split; cbn; [by rewrite length_zset|by apply next_range|done]|].
  assert (g_head k = (g_tail k + pending_keys k) mod 256) as Hhead.
  { unfold pending_keys. rewrite Zplus_mod_idemp_r. replace (g_tail k + (g_head k - g_tail k)) with (g_head k) by lia.
    by rewrite Z.mod_small. }
  unfold queue. cbn [g_kbuf g_tail g_head]. set (k' := mk_keyboard _ _ _).
  assert (pending_keys k' = pending_keys k + 1) as ->.
  { unfold pending_keys at 1. cbn. rewrite next_mod by done. rewrite Zminus_mod_idemp_l.
    replace (g_head k + 1 - g_tail k) with ((g_head k - g_tail k) + 1) by lia. rewrite <- Zplus_mod_idemp_l.
    fold (pending_keys k). rewrite Z.mod_small; lia. }
  replace (Z.to_nat (pending_keys k + 1)) with (S (Z.to_nat (pending_keys k))) by lia.
  rewrite ring_snoc, Z2Nat.id, <- Hhead, zget_zset_eq by (rewrite ?Hl; lia). f_equal. apply ring_zset; [|lia].
  intros j Hj Heq. rewrite Hhead in Heq. clear -Hj Heq Hp. rewrite Z2Nat.id in Hj by lia.
  assert ((pending_keys k - j) mod 256 = 0) as H0.
  { replace (pending_keys k - j) with (g_tail k + pending_keys k - (g_tail k + j)) by lia.
    rewrite Zminus_mod, Heq, Z.sub_diag. done. }
  rewrite Z.mod_small in H0; lia.
Qed.

Lemma dequeue_refines k :
  keyboard_ok k → keyboard_ok (dequeue_char k).2 ∧
  match queue k with
  | [] => dequeue_char k = (None, k)
  | ch :: q => (dequeue_char k).1 = Some ch ∧ queue (dequeue_char k).2 = q
  end.
Proof.
  intros Hk. destruct (Hk) as [Hl Hh Ht]. pose proof (pending_range k) as Hp. unfold dequeue_char.
  destruct (g_head k =? g_tail k) eqn:E; zbool.
  - split; [done|]. assert (queue k = []) as ->; [|done]. unfold queue, pending_keys. by rewrite E, Z.sub_diag.
  - split; [split; cbn; [done|done|by apply next_range]|].
    assert (pending_keys k ≠ 0) as Hn.
    { unfold pending_keys. intros H. destruct (Z.le_gt_cases (g_tail k) (g_head k)).
      - rewrite Z.mod_small in H; lia.
      - rewrite <- (Z.mod_add _ 1), Z.mod_small in H by lia. lia. }
    unfold queue. cbn [fst snd g_kbuf g_tail g_head]. set (k' := mk_keyboard _ _ _).
    assert (pending_keys k' = pending_keys k - 1) as ->.
    { unfold pending_keys at 1. cbn. rewrite next_mod by done. rewrite Zminus_mod_idemp_r.
      replace (g_head k - (g_tail k + 1)) with ((g_head k - g_tail k) - 1) by lia. rewrite <- Zminus_mod_idemp_l.
      fold (pending_keys k). rewrite Z.mod_small; lia. }
    replace (Z.to_nat (pending_keys k)) with (S (Z.to_nat (pending_keys k - 1))) by lia.
    rewrite ring_cons, (Z.mod_small (g_tail k)), <- next_mod by done. done.
Qed.

(** ** Sequences of interrupts and reads *)

Inductive key_event := KeyIrq (scancode : Z) | KeyRead.

Definition key_step (st : keyboard * list (option Z)) (e : key_event) : keyboard * list (option Z) :=
  match e with
  | KeyIrq sc => (irq1_handler64 sc st.1, st.2)
  | KeyRead => let '(r, k) := dequeue_char st.1 in (k, st.2 ++ [r])
  end.

(** Bit 7 marks the release of a key. *)
Definition is_make_code (sc : Z) : bool := negb (Z.testbit sc 7).

(** The same events on a queue. *)
Definition fifo_step (st : list Z * list (option Z)) (e : key_event) : list Z * list (option Z) :=
  match e with
  | KeyIrq sc => (if is_make_code sc then queue_push st.1 (decode sc) else st.1, st.2)
  | KeyRead => match st.1 with [] => ([], st.2 ++ [None]) | ch :: q => (q, st.2 ++ [Some ch]) end
  end.

Lemma keyboard_step_refines st e :
  keyboard_ok st.1 → keyboard_ok (key_step st e).1 ∧
  (queue (key_step st e).1, (key_step st e).2) = fifo_step (queue st.1, st.2) e.
Proof.
  destruct st as [k out], e as [sc|]; cbn [fst snd key_step fifo_step]; intros Hk.
  - unfold irq1_handler64. change 128 with (Z.shiftl 1 7). rewrite testbit_mask by lia. fold (is_make_code sc).
    destruct (is_make_code sc); [|done]. destruct (enqueue_refines k sc Hk) as [H1 ->]. done.
  - destruct (dequeue_refines k Hk) as [H1 H2]. destruct (dequeue_char k) as [r k'] eqn:E. cbn [fst snd] in *. split; [done|].
    destruct (queue k) as [|ch q] eqn:Eq; [injection H2 as -> ->; by rewrite Eq|]. destruct H2 as [-> ->]. done.
Qed.

(** C24: the keyboard buffer is a bounded queue.  Whatever the order of
    interrupts and reads, the characters read are those a first-in first-out
    queue delivers, in which a key press is lost exactly when 255 characters
    are waiting, or when its scan code is not in the table; releases of keys
    are ignored. *)
Theorem keyboard_refines_fifo es :
  let k := fold_left key_step es (keyboard_boot, []) in
  keyboard_ok k.1 ∧ (queue k.1, k.2) = fold_left fifo_step es ([], []).
Proof.
  assert (∀ st, keyboard_ok st.1 → let k := fold_left key_step es st in
    keyboard_ok k.1 ∧ (queue k.1, k.2) = fold_left fifo_step es (queue st.1, st.2)) as H.
  { induction es as [|e es IH]; intros st Hst; [done|]. cbn [fold_left]. destruct (keyboard_step_refines st e Hst) as [H1 H2].
    rewrite <- H2. by apply IH. }
  apply (H (keyboard_boot, [])). split; cbn; [done|lia|lia].
Qed.
