(* ===== verification/Block.v ===== *)
(** * Block devices and partitions ([kernel/block.cpp], [kernel/block_partition.cpp])

    The registry of block devices and the partitions found in master boot
    records.  A [BlockDevice*] points to the static record of a driver or to
    the device inside an entry of [g_partitions]; the function pointers in it
    are the driver's, or the pair of functions of that entry's slot.  The disk
    controllers themselves are the class [Disks]. *)

From S2P Require Import Prelude CText Serial.

Definition kSector : Z := 512.

(** ** Disks

    [dk_read] and [dk_write] are the [read_sectors] and [write_sectors] of a
    driver on the state [H] of the hardware; [dk_sector] is what a disk holds. *)
Class Disks (H : Type) := {
  dk_read : H → nat → Z → Z → option (list Z) * H;
  dk_write : H → nat → Z → list Z → Z → bool * H;
  dk_sector : H → nat → Z → list Z;
}.

Definition dk_range {H} `{Disks H} (h : H) (d : nat) (lba count : Z) : list Z :=
  concat (dk_sector h d <$> seqZ lba count).

(** What a disk does: sectors are 512 bytes, reading returns them and changes
    none, a write that succeeds changes exactly the sectors it covers, and one
    that fails changes no others. *)
Class DisksLaws (H : Type) `{Disks H} := {
  dk_sector_bytes h d l : length (dk_sector h d l) = 512%nat ∧ Forall (λ b, 0 <= b < 256) (dk_sector h d l);
  dk_read_ok h d lba n bs h' : dk_read h d lba n = (Some bs, h') → bs = dk_range h d lba n;
  dk_read_frame h d lba n r h' e l : dk_read h d lba n = (r, h') → dk_sector h' e l = dk_sector h e l;
  dk_write_ok h d lba bs n h' :
    Z.of_nat (length bs) = kSector * n → Forall (λ b, 0 <= b < 256) bs → dk_write h d lba bs n = (true, h') →
    dk_range h' d lba n = bs;
  dk_write_frame h d lba bs n r h' e l :
    dk_write h d lba bs n = (r, h') → e ≠ d ∨ l < lba ∨ lba + n <= l → dk_sector h' e l = dk_sector h e l;
}.

(** ** Devices *)

Inductive dev_ptr := Driver (d : nat) | Partition (slot : nat).

Record BlockDevice := mk_device {
  bd_name : option text;
  bd_block_size : Z;
  bd_block_count : Z;
  bd_readable : bool;   (** [read_sectors != nullptr] *)
  bd_writable : bool;   (** [write_sectors != nullptr] *)
}.
#[export] Instance BlockDevice_inhabited : Inhabited BlockDevice := populate (mk_device None 0 0 false false).

Definition kMaxDevices : Z := 8.
Definition kMaxPartitions : Z := 8.
Definition kMbrSignatureOffset : Z := 510.
Definition kPartitionTypeEmpty : Z := 0.

Record PartitionRecord := mk_partition {
  p_used : bool;
  p_device : BlockDevice;
  p_base : option dev_ptr;
  p_start_lba : Z;
  p_sector_count : Z;
}.
#[export] Instance PartitionRecord_inhabited : Inhabited PartitionRecord :=
  populate (mk_partition false inhabitant None 0 0).

Section block.
Context {H : Type} `{Disks H}.
(** The static [BlockDevice] records of the drivers. *)
Context (driver : nat → BlockDevice).

Record blocks := mk_blocks {
  g_devices : list (option dev_ptr);
  g_partitions : list PartitionRecord;
  console : serial;
  hw : H;
}.

Definition blocks_boot (con : serial) (h : H) : blocks := mk_blocks (replicate 8 None) (replicate 8 inhabitant) con h.

Definition with_hw (b : blocks) (h : H) : blocks := mk_blocks (g_devices b) (g_partitions b) (console b) h.
Definition with_record (b : blocks) (slot : nat) (r : PartitionRecord) : blocks :=
  mk_blocks (g_devices b) (<[slot := r]> (g_partitions b)) (console b) (hw b).
Definition say (b : blocks) (t : option text) : blocks :=
  mk_blocks (g_devices b) (g_partitions b) (write (console b) t) (hw b).
Definition say_hex64 (b : blocks) (v : Z) : blocks :=
  mk_blocks (g_devices b) (g_partitions b) (write_hex64 (console b) v) (hw b).
Definition say_hex (b : blocks) (v : Z) : blocks :=
  mk_blocks (g_devices b) (g_partitions b) (write_hex (console b) v) (hw b).

Definition device (b : blocks) (p : dev_ptr) : BlockDevice :=
  match p with
  | Driver d => driver d
  | Partition s => p_device (g_partitions b !!! s)
  end.

(** ** The registry *)

Fixpoint first_free (l : list (option dev_ptr)) : option nat :=
  match l with
  | [] => None
  | None :: _ => Some O
  | Some _ :: l' => S <$> first_free l'
  end.

Definition block_register_device (b : blocks) (dev : option dev_ptr) : bool * blocks :=
  match dev with
  | None => (false, b)
  | Some p =>
      match first_free (g_devices b) with
      | None => (false, b)
      | Some i =>
          let b := mk_blocks (<[i := Some p]> (g_devices b)) (g_partitions b) (console b) (hw b) in
          let b := say b (Some (txt "[block]: registered device ")) in
          let b := say b (Some (default (txt "unnamed") (bd_name (device b p)))) in
          (true, say b (Some ["010"%char]))
      end
  end.

(** [for (i = 0; i < 8; ++i)], the table read at every step. *)
Definition visit_one (visitor : dev_ptr → blocks → blocks) (st : bool * blocks) (i : nat) : bool * blocks :=
  match g_devices st.2 !!! i with
  | None => st
  | Some p => (true, visitor p st.2)
  end.

Definition block_visit_devices (visitor : option (dev_ptr → blocks → blocks)) (b : blocks) : bool * blocks :=
  match visitor with
  | None => (false, b)
  | Some f => fold_left (visit_one f) (seq 0 8) (false, b)
  end.

Definition block_get_primary (b : blocks) : option dev_ptr := g_devices b !!! 0%nat.

Definition names_match (b : blocks) (name : text) (o : option dev_ptr) : bool :=
  match o with
  | None => false
  | Some p => match bd_name (device b p) with Some n => text_equal n name | None => false end
  end.

Definition block_find_by_name (b : blocks) (name : option text) : option dev_ptr :=
  match name with
  | None => None
  | Some name => default None (find (names_match b name) (g_devices b))
  end.

(** ** Partitions *)

Definition read_le32 (p : list Z) (off : Z) : Z :=
  Z.lor (Z.lor (Z.lor (zget p off) (Z.shiftl (zget p (off + 1)) 8)) (Z.shiftl (zget p (off + 2)) 16))
    (Z.shiftl (zget p (off + 3)) 24).

(** [lba + count > rec.sector_count], in 64 bits. *)
Definition out_of_partition (r : PartitionRecord) (lba count : Z) : bool := p_sector_count r <? u64 (lba + count).

(** [read_partition_impl] of a slot, and the call through [base]: the base of
    a partition can be a partition itself.  The depth is at most the number of
    slots. *)
Fixpoint read_sectors (fuel : nat) (b : blocks) (p : dev_ptr) (lba count : Z) : option (list Z) * blocks :=
  match p with
  | Driver d => let '(r, h) := dk_read (hw b) d lba count in (r, with_hw b h)
  | Partition slot =>
      match fuel with
      | O => (None, b)
      | S fuel' =>
          let r := g_partitions b !!! slot in
          if (kMaxPartitions <=? Z.of_nat slot) || negb (p_used r) then (None, b)
          else
            match p_base r with
            | None => (None, b)
            | Some q =>
                if out_of_partition r lba count then (None, b)
                else read_sectors fuel' b q (u64 (p_start_lba r + lba)) count
            end
      end
  end.

Fixpoint write_sectors (fuel : nat) (b : blocks) (p : dev_ptr) (lba : Z) (bs : list Z) (count : Z) : bool * blocks :=
  match p with
  | Driver d => let '(r, h) := dk_write (hw b) d lba bs count in (r, with_hw b h)
  | Partition slot =>
      match fuel with
      | O => (false, b)
      | S fuel' =>
          let r := g_partitions b !!! slot in
          if (kMaxPartitions <=? Z.of_nat slot) || negb (p_used r) then (false, b)
          else
            match p_base r with
            | None => (false, b)
            | Some q =>
                if out_of_partition r lba count then (false, b)
                else if negb (bd_writable (device b q)) then (false, b)
                else write_sectors fuel' b q (u64 (p_start_lba r + lba)) bs count
            end
      end
  end.

Definition dev_fuel : nat := 9.
Definition read_dev (b : blocks) (p : dev_ptr) (lba count : Z) := read_sectors dev_fuel b p lba count.
Definition write_dev (b : blocks) (p : dev_ptr) (lba : Z) (bs : list Z) (count : Z) := write_sectors dev_fuel b p lba bs count.

Fixpoint find_free_slot (ps : list PartitionRecord) : nat :=
  match ps with
  | [] => O
  | r :: ps' => if p_used r then S (find_free_slot ps') else O
  end.

Definition digit (n : Z) : ascii := ascii_of_nat (Z.to_nat (48 + n)).

Definition build_partition_name (base_name : option text) (index out_size : Z) : text :=
  let out := match base_name with
             | Some (c :: n) => copy_text (c :: n) out_size
             | _ => copy_text (txt "disk") out_size
             end in
  if out_size <=? text_len out + 3 then out
  else if index + 1 <? 10 then out ++ ["p"%char; digit (index + 1)]
  else out ++ ["p"%char; digit ((index + 1) / 10 mod 10); digit ((index + 1) mod 10)].

(** One of the four entries of the record; [false] ends the loop. *)
Definition scan_entry (base : dev_ptr) (mbr : list Z) (st : bool * Z * blocks) (i : Z) : bool * Z * blocks :=
  let '(go, found, b) := st in
  if negb go then st
  else
    let entry := 446 + i * 16 in
    let type := zget mbr (entry + 4) in
    let start_lba := read_le32 mbr (entry + 8) in
    let sectors := read_le32 mbr (entry + 12) in
    if (type =? kPartitionTypeEmpty) || (sectors =? 0) then st
    else
      let slot := find_free_slot (g_partitions b) in
      if kMaxPartitions <=? Z.of_nat slot then
        (false, found, say b (Some (txt "[block-partition]: partition table full" ++ ["010"%char])))
      else
        let name := build_partition_name (bd_name (device b base)) i 16 in
        let dev := mk_device (Some name) (bd_block_size (device b base)) sectors true (bd_writable (device b base)) in
        let record used := mk_partition used dev (Some base) start_lba sectors in
        let b := with_record b slot (record true) in
        let '(ok, b) := block_register_device b (Some (Partition slot)) in
        if ok then
          let b := say b (Some (txt "[block-partition]: ")) in
          let b := say b (Some name) in
          let b := say b (Some (txt " start_lba=")) in
          let b := say_hex64 b start_lba in
          let b := say b (Some (txt " sectors=")) in
          let b := say_hex64 b sectors in
          let b := say b (Some (txt " type=0x")) in
          let b := say_hex b type in
          (true, found + 1, say b (Some ["010"%char]))
        else (true, found, with_record b slot (record false)).

Definition scan_mbr_partitions (base : option dev_ptr) (b : blocks) : bool * blocks :=
  match base with
  | None => (false, b)
  | Some p =>
      if negb (bd_readable (device b p)) then (false, b)
      else
        match read_dev b p 0 1 with
        | (None, b) => (false, say b (Some (txt "[block-partition]: failed to read MBR" ++ ["010"%char])))
        | (Some mbr, b) =>
            if negb (zget mbr kMbrSignatureOffset =? 85) || negb (zget mbr (kMbrSignatureOffset + 1) =? 170) then (false, b)
            else
              let '(_, found, b) := fold_left (scan_entry p mbr) [0; 1; 2; 3] (true, 0, b) in
              (negb (found =? 0), b)
        end
  end.

(** The visit of [kmain]: every registered device is scanned, the partitions
    that the scan registers included. *)
Definition scan_all (b : blocks) : bool * blocks :=
  block_visit_devices (Some (λ p b, (scan_mbr_partitions (Some p) b).2)) b.
End block.
