(* ===== verification/BlockSpec.v ===== *)
(** * What the block layer guarantees

    The invariant of the partition table over every sequence of registrations
    and scans, and confinement: what goes through a partition touches only its
    sectors of the underlying disk. *)

From S2P Require Import Prelude CText Serial Block.

Section block_spec.
Context {H : Type} `{HD : Disks H} `{!DisksLaws H} (driver : nat → BlockDevice).
Abbreviation blocks := (@blocks H).

(** ** Invariant *)

Definition used (b : blocks) (s : nat) : Prop := ∃ r, g_partitions b !! s = Some r ∧ p_used r = true.

Definition ptr_ok (b : blocks) (p : dev_ptr) : Prop := match p with Driver _ => True | Partition s => used b s end.
Definition below (p : dev_ptr) (s : nat) : Prop := match p with Driver _ => True | Partition s' => (s' < s)%nat end.

Definition record_ok (b : blocks) (s : nat) (r : PartitionRecord) : Prop :=
  (∃ q, p_base r = Some q ∧ ptr_ok b q ∧ below q s) ∧
  0 <= p_start_lba r < 4294967296 ∧ 0 < p_sector_count r < 4294967296.

Record blocks_ok (b : blocks) : Prop := {
  ok_devices : length (g_devices b) = 8%nat;
  ok_partitions : length (g_partitions b) = 8%nat;
  ok_records : ∀ s r, g_partitions b !! s = Some r → p_used r = true → record_ok b s r;
  ok_prefix : ∀ i j, (i < j)%nat → used b j → used b i;
  ok_registered : ∀ i p, g_devices b !! i = Some (Some p) → ptr_ok b p;
}.

Lemma blocks_boot_ok con h : blocks_ok (blocks_boot con h).
Proof.
  assert (∀ s, ¬ used (blocks_boot con h) s) as Hu.
  { intros s (r & Hr & Hp). apply lookup_replicate in Hr as [-> _]. done. }
  split; [done|done| | |].
  - intros s r Hr Hp. destruct (Hu s). by exists r.
  - intros i j _ Hj. by destruct (Hu j).
  - intros i p Hi. apply lookup_replicate in Hi as [? _]. done.
Qed.

(** The console and the disks do not matter. *)
Lemma blocks_ok_ext (b b' : blocks) :
  g_devices b' = g_devices b → g_partitions b' = g_partitions b → blocks_ok b → blocks_ok b'.
Proof.
  destruct b, b'. cbn. intros -> -> [? ? Hr Hp Hg]. split; [done|done|exact Hr|exact Hp|exact Hg].
Qed.

Lemma used_slot b s : used b s ↔ (s < length (g_partitions b))%nat ∧ p_used (g_partitions b !!! s) = true.
Proof.
  split.
  - intros (r & Hr & Hp). split; [by eapply lookup_lt_Some|]. by rewrite (list_lookup_total_correct _ _ _ Hr).
  - intros [Hl Hp]. exists (g_partitions b !!! s). split; [|done]. by apply list_lookup_lookup_total_lt.
Qed.

(** ** Extents *)

(** The disk under a device and the sector its sector 0 is. *)
Fixpoint extent (fuel : nat) (b : blocks) (p : dev_ptr) : option (nat * Z) :=
  match p with
  | Driver d => Some (d, 0)
  | Partition s =>
      match fuel with
      | O => None
      | S fuel' =>
          let r := g_partitions b !!! s in
          q ← p_base r; '(d, off) ← extent fuel' b q; Some (d, off + p_start_lba r)
      end
  end.

Definition depth (p : dev_ptr) : nat := match p with Driver _ => O | Partition s => S s end.

Lemma used_record b s : blocks_ok b → used b s → record_ok b s (g_partitions b !!! s) ∧ (s < 8)%nat.
Proof.
  intros Hb Hs. apply used_slot in Hs as [Hl Hp]. split; [|by rewrite (ok_partitions _ Hb) in Hl].
  apply (ok_records _ Hb); [by apply list_lookup_lookup_total_lt|done].
Qed.

Lemma read_frame fuel : ∀ b p lba n r (b' : blocks),
  read_sectors fuel b p lba n = (r, b') →
  g_devices b' = g_devices b ∧ g_partitions b' = g_partitions b ∧ ∀ e l, dk_sector (hw b') e l = dk_sector (hw b) e l.
Proof.
  induction fuel as [|fuel IH]; intros b [d|s] lba n r b'; cbn [read_sectors].
  1,3: destruct (dk_read (hw b) d lba n) as [r0 h] eqn:E; intros [= <- <-]; cbn; split_and!; [done|done|];
    intros e l; by eapply dk_read_frame.
  - by intros [= <- <-].
  - destruct (_ || _); [by intros [= <- <-]|]. destruct (p_base _) as [q|]; [|by intros [= <- <-]].
    destruct (out_of_partition _ _ _); [by intros [= <- <-]|]. apply IH.
Qed.

(** Reading through any chain of partitions. *)
Lemma read_extent fuel : ∀ b p lba n bs b',
  blocks_ok b → ptr_ok b p → (depth p <= fuel)%nat → 0 <= lba → 0 <= n → lba + n < 18446744073709551616 →
  read_sectors fuel b p lba n = (Some bs, b') →
  ∃ d off, extent fuel b p = Some (d, off) ∧ 0 <= off ∧ bs = dk_range (hw b) d (off + lba) n ∧
    (∀ s, p = Partition s → lba + n <= p_sector_count (g_partitions b !!! s)).
Proof.
  induction fuel as [|fuel IH]; intros b [d|s] lba n bs b' Hb Hp Hd H0 Hn Hmax; cbn [read_sectors extent].
  1,3: destruct (dk_read (hw b) d lba n) as [r h] eqn:E; intros [= -> _]; exists d, 0;
    split_and!; [done|lia|by eapply dk_read_ok|done].
  { cbn in Hd. lia. }
  destruct (used_record b s Hb Hp) as [((q & Hq & Hqok & Hbelow) & Hst & Hct) Hs].
  apply used_slot in Hp as [_ Hu]. rewrite Hu, (proj2 (Z.leb_gt _ _)), Hq by (unfold kMaxPartitions; lia). cbn [orb negb].
  unfold out_of_partition. destruct (_ <? _) eqn:E; [done|]. zbool. unfold u64 in E. rewrite Z.mod_small in E by lia.
  assert (u64 (p_start_lba (g_partitions b !!! s) + lba) = p_start_lba (g_partitions b !!! s) + lba) as ->
    by (unfold u64; apply Z.mod_small; lia).
  intros Hr. apply IH in Hr as (d & off & He & Ho & -> & _); [|done|done| |lia|lia|lia].
  2: { destruct q; cbn in *; lia. }
  exists d, (off + p_start_lba (g_partitions b !!! s)). cbn [mbind option_bind]. rewrite He. split_and!; [done|lia| |].
  - f_equal. lia.
  - intros ? [= <-]. done.
Qed.

Lemma extent_defined fuel : ∀ b p, blocks_ok b → ptr_ok b p → (depth p <= fuel)%nat → ∃ d off, extent fuel b p = Some (d, off).
Proof.
  induction fuel as [|fuel IH]; intros b [d|s] Hb Hp Hd; cbn [extent]; [by eexists _, _|cbn in Hd; lia|by eexists _, _|].
  destruct (used_record b s Hb Hp) as [((q & Hq & Hqok & Hbelow) & _) _].
  destruct (IH b q Hb Hqok) as (d & off & He); [destruct q; cbn in *; lia|].
  rewrite Hq. cbn [mbind option_bind]. rewrite He. by eexists _, _.
Qed.

Lemma write_frame fuel : ∀ b p lba bs n r (b' : blocks),
  write_sectors driver fuel b p lba bs n = (r, b') → g_devices b' = g_devices b ∧ g_partitions b' = g_partitions b.
Proof.
  induction fuel as [|fuel IH]; intros b [d|s] lba bs n r b'; cbn [write_sectors].
  1,3: destruct (dk_write (hw b) d lba bs n) as [r0 h] eqn:E; intros [= <- <-]; done.
  - by intros [= <- <-].
  - destruct (_ || _); [by intros [= <- <-]|]. destruct (p_base _) as [q|]; [|by intros [= <- <-]].
    destruct (out_of_partition _ _ _); [by intros [= <- <-]|]. destruct (negb _); [by intros [= <- <-]|]. apply IH.
Qed.

(** Writing: either the request was refused and nothing happened, or it is in
    bounds and reached the disk. *)
Lemma write_extent fuel : ∀ b p lba bs n r b',
  blocks_ok b → ptr_ok b p → (depth p <= fuel)%nat → 0 <= lba → 0 <= n → lba + n < 18446744073709551616 →
  write_sectors driver fuel b p lba bs n = (r, b') →
  (r = false ∧ b' = b) ∨
  ∃ d off, extent fuel b p = Some (d, off) ∧ dk_write (hw b) d (off + lba) bs n = (r, hw b') ∧
    (∀ s, p = Partition s → lba + n <= p_sector_count (g_partitions b !!! s)).
Proof.
  induction fuel as [|fuel IH]; intros b [d|s] lba bs n r b' Hb Hp Hd H0 Hn Hmax; cbn [write_sectors extent].
  1,3: destruct (dk_write (hw b) d lba bs n) as [r0 h] eqn:E; intros [= <- <-]; right; exists d, 0; done.
  { cbn in Hd. lia. }
  destruct (used_record b s Hb Hp) as [((q & Hq & Hqok & Hbelow) & Hst & Hct) Hs].
  apply used_slot in Hp as [_ Hu]. rewrite Hu, (proj2 (Z.leb_gt _ _)), Hq by (unfold kMaxPartitions; lia). cbn [orb negb].
  unfold out_of_partition. destruct (_ <? _) eqn:E; [intros [= <- <-]; by left|]. zbool. unfold u64 in E. rewrite Z.mod_small in E by lia.
  destruct (negb _); [intros [= <- <-]; by left|].
  assert (u64 (p_start_lba (g_partitions b !!! s) + lba) = p_start_lba (g_partitions b !!! s) + lba) as ->
    by (unfold u64; apply Z.mod_small; lia).
  intros Hr. apply IH in Hr as [?|(d & off & He & Hw & _)]; [by left| |done|done| |lia|lia|lia].
  2: { destruct q; cbn in *; lia. }
  right. exists d, (off + p_start_lba (g_partitions b !!! s)). cbn [mbind option_bind]. rewrite He. split_and!; [done| |].
  - rewrite <- Hw. f_equal. lia.
  - intros ? [= <-]. done.
Qed.

Lemma used_depth b s : blocks_ok b → used b s → (depth (Partition s) <= dev_fuel)%nat.
Proof. intros Hb Hs. destruct (used_record b s Hb Hs) as [_ ?]. unfold dev_fuel. cbn. lia. Qed.

(** C21: partitions are confined.  A request to a partition (itself possibly
    inside another one) that does not wrap around 2^64 reads exactly the
    sectors [off + lba .. off + lba + n) of one disk, only when they lie within
    its [sector_count] sectors from [off]; a write changes no sector of any
    disk outside those, and one that succeeds leaves there what was written. *)
Theorem partition_confined b s lba n :
  blocks_ok b → used b s → 0 <= lba → 0 <= n → lba + n < 18446744073709551616 →
  ∃ d off, extent dev_fuel b (Partition s) = Some (d, off) ∧
    let size := p_sector_count (g_partitions b !!! s) in
    (∀ bs b', read_dev b (Partition s) lba n = (Some bs, b') →
       bs = dk_range (hw b) d (off + lba) n ∧ lba + n <= size) ∧
    (∀ bs r b', write_dev driver b (Partition s) lba bs n = (r, b') →
       (∀ e l, e ≠ d ∨ l < off ∨ off + size <= l → dk_sector (hw b') e l = dk_sector (hw b) e l) ∧
       (r = true → Z.of_nat (length bs) = kSector * n → Forall (λ x, 0 <= x < 256) bs →
          dk_range (hw b') d (off + lba) n = bs ∧ lba + n <= size)).
Proof.
  intros Hb Hs H0 Hn Hmax. pose proof (used_depth b s Hb Hs) as Hd.
  destruct (extent_defined _ b (Partition s) Hb Hs Hd) as (d & off & He). exists d, off. split; [done|]. cbn zeta. split.
  - intros bs b' Hr. destruct (read_extent _ b (Partition s) _ _ _ _ Hb Hs Hd H0 Hn Hmax Hr) as (d' & off' & He' & _ & -> & Hin).
    rewrite He in He'. injection He' as <- <-. split; [done|by apply Hin].
  - intros bs r b' Hw. destruct (write_extent _ b (Partition s) _ _ _ _ _ Hb Hs Hd H0 Hn Hmax Hw) as [[-> ->]|(d' & off' & He' & Hw' & Hin)].
    { split; [done|discriminate]. }
    rewrite He in He'. injection He' as <- <-. specialize (Hin s eq_refl). split.
    + intros e l Hl. eapply dk_write_frame; [exact Hw'|]. lia.
    + intros -> Hlen Hby. split; [by eapply dk_write_ok|done].
Qed.

(** The bound is checked after a 64-bit addition: the last sector number of
    all passes it and lands just before the partition. *)
Lemma partition_wraps b s d :
  blocks_ok b → used b s → p_base (g_partitions b !!! s) = Some (Driver d) → 0 < p_start_lba (g_partitions b !!! s) →
  read_dev b (Partition s) 18446744073709551615 1 = read_dev b (Driver d) (p_start_lba (g_partitions b !!! s) - 1) 1.
Proof.
  intros Hb Hs Hbase Hst. destruct (used_record b s Hb Hs) as [(_ & Hr & Hc) H8]. apply used_slot in Hs as [_ Hu].
  unfold read_dev, dev_fuel. cbn [read_sectors]. rewrite Hu, (proj2 (Z.leb_gt _ _)), Hbase by (unfold kMaxPartitions; lia).
  cbn [orb negb]. unfold out_of_partition, u64. change ((18446744073709551615 + 1) mod 18446744073709551616) with 0.
  rewrite (proj2 (Z.ltb_ge _ _)) by lia.
  replace (p_start_lba (g_partitions b !!! s) + 18446744073709551615)
    with (p_start_lba (g_partitions b !!! s) - 1 + 1 * 18446744073709551616) by lia.
  by rewrite Z.mod_add, Z.mod_small by lia.
Qed.

(** ** Registration and scanning *)

Lemma first_free_Some l i : first_free l = Some i → l !! i = Some None.
Proof.
  revert i. induction l as [|[p|] l IH]; intros i; cbn; [done| |by intros [= <-]].
  destruct (first_free l) as [j|]; [|done]. intros [= <-]. by apply IH.
Qed.

Lemma register_ok b p ok (b' : blocks) :
  blocks_ok b → ptr_ok b p → block_register_device driver b (Some p) = (ok, b') →
  blocks_ok b' ∧ g_partitions b' = g_partitions b ∧ (ok = false → g_devices b' = g_devices b).
Proof.
  intros Hb Hp. unfold block_register_device. destruct (first_free (g_devices b)) as [i|] eqn:E; [|by intros [= <- <-]].
  intros [= <- <-]. split; [|by cbn]. destruct Hb as [H1 H2 H3 H4 H5].
  split; cbn; [by rewrite length_insert|done|exact H3|exact H4|].
  intros j q Hj. apply list_lookup_insert_Some in Hj as [(_ & [= ->] & _)|[_ Hj]]; [exact Hp|by eapply H5].
Qed.

Lemma register_registered b p ok (b' : blocks) :
  block_register_device driver b (Some p) = (ok, b') → ok = false → ∀ i q, g_devices b' !! i = Some (Some q) → g_devices b !! i = Some (Some q).
Proof. unfold block_register_device. destruct (first_free _); intros [= <- <-]; done. Qed.

Lemma find_free_slot_spec ps :
  (∀ i r, ps !! i = Some r → (i < find_free_slot ps)%nat → p_used r = true) ∧
  (∀ r, ps !! find_free_slot ps = Some r → p_used r = false).
Proof.
  induction ps as [|r ps [IH1 IH2]]; cbn [find_free_slot]; [done|]. destruct (p_used r) eqn:E.
  - split; [|done]. intros [|i] x; cbn; [by intros [= <-]|]. intros Hx Hi. apply (IH1 i); [done|lia].
  - split; [intros i x _ Hi; lia|]. cbn. by intros x [= <-].
Qed.

Lemma read_le32_range p off : Forall (λ x, 0 <= x < 256) p → 0 <= read_le32 p off < 4294967296.
Proof.
  intros Hp. assert (∀ i, 0 <= zget p i < 256) as Hz.
  { intros i. unfold zget. destruct (p !! Z.to_nat i) as [x|] eqn:E.
    - rewrite (list_lookup_total_correct _ _ _ E). rewrite Forall_lookup in Hp. by eapply Hp.
    - rewrite list_lookup_total_alt, E. cbn. lia. }
  unfold read_le32. pose proof (Hz off). pose proof (Hz (off + 1)). pose proof (Hz (off + 2)). pose proof (Hz (off + 3)).
  assert (∀ a c, 0 <= a < 2 ^ 32 → 0 <= c < 2 ^ 32 → 0 <= Z.lor a c < 2 ^ 32) as Hlor.
  { intros a c Ha Hc. split; [apply Z.lor_nonneg; lia|]. apply Z.log2_lt_cancel. rewrite Z.log2_lor by lia.
    apply Z.max_lub_lt; rewrite Z.log2_pow2 by lia; [destruct (Z.eq_dec a 0) as [->|]|destruct (Z.eq_dec c 0) as [->|]];
      [done|apply Z.log2_lt_pow2; lia|done|apply Z.log2_lt_pow2; lia]. }
  change 4294967296 with (2 ^ 32). rewrite !Z.shiftl_mul_pow2 by lia. repeat apply Hlor; lia.
Qed.

(** A record in the first free slot. *)
Lemma with_record_used b slot r s :
  (slot < length (g_partitions b))%nat →
  used (with_record b slot r) s ↔ (s = slot ∧ p_used r = true) ∨ (s ≠ slot ∧ used b s).
Proof.
  intros Hl. unfold used, with_record. cbn. destruct (decide (s = slot)) as [->|Hne].
  - rewrite list_lookup_insert_eq by done. split.
    + intros (x & [= <-] & Hx). by left.
    + intros [[_ Hr]|[? _]]; [by exists r|done].
  - rewrite list_lookup_insert_ne by done. split; [intros Hu; by right|]. by intros [[? _]|[_ Hu]].
Qed.

Lemma ptr_ok_mono b b' p : (∀ s, used b s → used b' s) → ptr_ok b p → ptr_ok b' p.
Proof. intros Hm. destruct p; cbn; auto. Qed.

Lemma fill_slot_ok b r :
  blocks_ok b → Z.of_nat (find_free_slot (g_partitions b)) < kMaxPartitions →
  p_used r = true → (∃ q, p_base r = Some q ∧ ptr_ok b q) → 0 <= p_start_lba r < 4294967296 → 0 < p_sector_count r < 4294967296 →
  let b' := with_record b (find_free_slot (g_partitions b)) r in
  blocks_ok b' ∧ used b' (find_free_slot (g_partitions b)) ∧ ∀ s, used b s → used b' s.
Proof.
  intros Hb Hlt Hr (q & Hq & Hqok) Hst Hct. set (slot := find_free_slot (g_partitions b)) in *. cbn zeta.
  destruct (find_free_slot_spec (g_partitions b)) as [Hbelow Hfree]. fold slot in Hbelow, Hfree.
  assert (slot < length (g_partitions b))%nat as Hl by (rewrite (ok_partitions _ Hb); unfold kMaxPartitions in Hlt; lia).
  assert (¬ used b slot) as Hnot by (intros (x & Hx & Hxu); rewrite (Hfree x Hx) in Hxu; done).
  assert (∀ s, used b s → used (with_record b slot r) s) as Hmono.
  { intros s Hs. apply with_record_used; [done|]. right. split; [by intros ->|done]. }
  assert (∀ s, used b s → (s < slot)%nat) as Hlow.
  { intros s Hs. destruct (Nat.lt_trichotomy s slot) as [?|[->|Hgt]]; [done|done|]. destruct Hnot. by eapply ok_prefix. }
  assert (used (with_record b slot r) slot) as Hnew by (apply with_record_used; [done|by left]).
  split; [|done]. split; cbn.
  - apply (ok_devices _ Hb).
  - rewrite length_insert. apply (ok_partitions _ Hb).
  - intros s x Hx Hxu. apply list_lookup_insert_Some in Hx as [(<- & <- & _)|[Hne Hx]].
    + split; [|done]. exists q. split_and!; [done|by eapply ptr_ok_mono|]. destruct q as [|s']; [done|]. by apply Hlow.
    + destruct (ok_records _ Hb _ _ Hx Hxu) as [(q' & Hq' & Hok & Hbl) Hrest]. split; [|done].
      exists q'. split_and!; [done|by eapply ptr_ok_mono|done].
  - intros i j Hij Hj. apply with_record_used in Hj as [[-> _]|[_ Hj]]; [| |done].
    + apply Hmono. assert (i < length (g_partitions b))%nat as Hi by lia. apply lookup_lt_is_Some_2 in Hi as [x Hx].
      exists x. split; [done|]. by eapply Hbelow.
    + apply Hmono. by eapply ok_prefix.
  - intros i p Hi. eapply ptr_ok_mono; [exact Hmono|]. by eapply ok_registered.
Qed.

(** Releasing the slot of a device that was not registered. *)
Lemma release_slot_ok b b1 r :
  blocks_ok b → Z.of_nat (find_free_slot (g_partitions b)) < kMaxPartitions → p_used r = false →
  length (g_partitions b1) = 8%nat → (∀ s x, s ≠ find_free_slot (g_partitions b) → g_partitions b1 !! s = Some x → g_partitions b !! s = Some x) →
  (∀ s, s ≠ find_free_slot (g_partitions b) → used b s → used b1 s) → g_devices b1 = g_devices b →
  blocks_ok (with_record b1 (find_free_slot (g_partitions b)) r).
Proof.
  intros Hb Hlt Hr Hlen Hsame Hkeep Hdev. set (slot := find_free_slot (g_partitions b)) in *.
  destruct (find_free_slot_spec (g_partitions b)) as [_ Hfree]. fold slot in Hfree.
  assert (slot < length (g_partitions b1))%nat as Hl by (rewrite Hlen; unfold kMaxPartitions in Hlt; lia).
  assert (∀ s, used b s → used (with_record b1 slot r) s) as Hmono.
  { intros s (x & Hx & Hxu). apply with_record_used; [done|]. right.
    assert (s ≠ slot) as Hne by (intros ->; rewrite (Hfree x Hx) in Hxu; done). split; [done|]. apply Hkeep; [done|]. by exists x. }
  assert (∀ s, used (with_record b1 slot r) s → used b s) as Hback.
  { intros s Hs. apply with_record_used in Hs as [[_ ?]|[Hne (x & Hx & Hxu)]]; [congruence| |done]. exists x. split; [by apply Hsame|done]. }
  split; cbn.
  - rewrite Hdev. apply (ok_devices _ Hb).
  - by rewrite length_insert.
  - intros s x Hx Hxu. apply list_lookup_insert_Some in Hx as [(<- & <- & _)|[Hne Hx]]; [congruence|].
    destruct (ok_records _ Hb s x) as [(q' & Hq' & Hok & Hbl) Hrest]; [by apply Hsame|done|]. split; [|done].
    exists q'. split_and!; [done|by eapply ptr_ok_mono|done].
  - intros i j Hij Hj. apply Hmono. eapply ok_prefix; [done|done|]. by apply Hback.
  - rewrite Hdev. intros i p Hi. eapply ptr_ok_mono; [exact Hmono|]. by eapply ok_registered.
Qed.

Lemma say_ok b t : blocks_ok b → blocks_ok (say b t).
Proof. by apply blocks_ok_ext. Qed.

Lemma scan_entry_ok base mbr go found b i go' found' b' :
  blocks_ok b → ptr_ok b base → Forall (λ x, 0 <= x < 256) mbr →
  scan_entry driver base mbr (go, found, b) i = (go', found', b') →
  blocks_ok b' ∧ ∀ s, used b s → used b' s.
Proof.
  intros Hb Hbase Hmbr. unfold scan_entry. destruct (negb go); [by intros [= <- <- <-]|].
  pose proof (read_le32_range mbr (446 + i * 16 + 8) Hmbr). pose proof (read_le32_range mbr (446 + i * 16 + 12) Hmbr).
  set (st := read_le32 mbr (446 + i * 16 + 8)) in *. set (n := read_le32 mbr (446 + i * 16 + 12)) in *.
  destruct (_ || _) eqn:E; [by intros [= <- <- <-]|]. apply orb_false_iff in E as [_ En]. apply Z.eqb_neq in En.
  destruct (_ <=? _) eqn:El; [intros [= <- <- <-]; split; [by apply say_ok|done]|]. apply Z.leb_gt in El.
  set (dev := mk_device _ _ _ _ _). set (slot := find_free_slot (g_partitions b)) in *.
  destruct (fill_slot_ok b (mk_partition true dev (Some base) st n) Hb El) as (Hok & Hnew & Hmono);
    [done|by exists base|cbn; lia|cbn; lia|]. fold slot in Hok, Hnew, Hmono.
  destruct (block_register_device _ _ _) as [ok b1] eqn:Er.
  destruct (register_ok _ (Partition slot) _ _ Hok Hnew Er) as (Hok1 & Hparts & Hdevs). destruct ok.
  - intros [= _ _ <-]. split; [by eapply blocks_ok_ext; [..|exact Hok1]|].
    intros s Hs. specialize (Hmono s Hs). unfold used in *. cbn. by rewrite Hparts.
  - intros [= _ _ <-]. specialize (Hdevs eq_refl).
    assert (∀ s x, s ≠ slot → g_partitions b1 !! s = Some x ↔ g_partitions b !! s = Some x) as Hsame.
    { intros s x Hne. rewrite Hparts. cbn. by rewrite list_lookup_insert_ne. }
    split.
    + apply release_slot_ok; [done|done|done|by rewrite Hparts; cbn; rewrite length_insert; apply ok_partitions|by intros s x Hne; apply Hsame| |].
      * intros s Hne (x & Hx & Hxu). exists x. split; [by apply Hsame|done].
      * by rewrite Hdevs.
    + intros s (x & Hx & Hxu). assert (s ≠ slot) as Hne.
      { intros ->. destruct (find_free_slot_spec (g_partitions b)) as [_ Hf]. rewrite (Hf x Hx) in Hxu. done. }
      exists x. cbn. rewrite list_lookup_insert_ne by done. split; [by apply Hsame|done].
Qed.

Lemma scan_mbr_ok p b : blocks_ok b → ptr_ok b p → blocks_ok (scan_mbr_partitions driver (Some p) b).2 ∧
  ∀ s, used b s → used (scan_mbr_partitions driver (Some p) b).2 s.
Proof.
  intros Hb Hp. unfold scan_mbr_partitions. destruct (negb _); [done|].
  destruct (read_dev b p 0 1) as [r b1] eqn:Er. pose proof (read_frame _ _ _ _ _ _ _ Er) as (Hd & Hpt & _).
  assert (blocks_ok b1) as Hb1 by by eapply blocks_ok_ext.
  assert (∀ s, used b s → used b1 s) as Hu by (intros s; unfold used; by rewrite Hpt).
  destruct r as [mbr|]; [|split; [by apply say_ok|done]].
  destruct (_ || _); [done|].
  assert (Forall (λ x, 0 <= x < 256) mbr) as Hmbr.
  { assert (∃ d off, mbr = dk_range (hw b) d (off + 0) 1) as (d & off & ->).
    { destruct p as [d|s]; [exists d, 0|].
      - unfold read_dev, dev_fuel in Er. cbn in Er. destruct (dk_read _ _ _ _) as [r h] eqn:E. injection Er as -> _.
        apply dk_read_ok in E. by rewrite E.
      - destruct (read_extent _ b (Partition s) 0 1 _ _ Hb Hp (used_depth b s Hb Hp) ltac:(lia) ltac:(lia) ltac:(lia) Er)
          as (d & off & _ & _ & -> & _). by exists d, off. }
    apply Forall_concat, Forall_fmap, Forall_true. intros l. apply dk_sector_bytes. }
  assert (∀ ix st, blocks_ok st.2 → (∀ s, used b1 s → used st.2 s) →
    blocks_ok (fold_left (scan_entry driver p mbr) ix st).2 ∧ ∀ s, used b1 s → used (fold_left (scan_entry driver p mbr) ix st).2 s) as Hfold.
  { induction ix as [|i ix IH]; intros [[go found] b2] Hb2 Hu2; [done|]. cbn [fold_left].
    destruct (scan_entry driver p mbr (go, found, b2) i) as [[go' found'] b3] eqn:Es.
    destruct (scan_entry_ok _ _ _ _ _ _ _ _ _ Hb2 ltac:(eapply ptr_ok_mono; [|exact Hp]; auto) Hmbr Es) as [H3 H4].
    apply IH; cbn; auto. }
  destruct (Hfold [0; 1; 2; 3] (true, 0, b1) Hb1 ltac:(done)) as [H1 H2].
  destruct (fold_left _ _ _) as [[go found] b2]. cbn in *. auto.
Qed.

(** ** Every sequence of registrations and scans *)

Inductive block_op := RegisterDriver (d : nat) | ScanMbr (i : nat) | ScanAll.

Definition block_step (b : blocks) (o : block_op) : blocks :=
  match o with
  | RegisterDriver d => (block_register_device driver b (Some (Driver d))).2
  | ScanMbr i => (scan_mbr_partitions driver (g_devices b !!! i) b).2
  | ScanAll => (scan_all driver b).2
  end.

Lemma device_ptr_ok b i p : blocks_ok b → g_devices b !!! i = Some p → ptr_ok b p.
Proof.
  intros Hb Hi. destruct (g_devices b !! i) as [x|] eqn:E.
  - rewrite (list_lookup_total_correct _ _ _ E) in Hi. subst x. by eapply ok_registered.
  - rewrite list_lookup_total_alt, E in Hi. done.
Qed.

Lemma scan_all_ok b : blocks_ok b → blocks_ok (scan_all driver b).2.
Proof.
  intros Hb. unfold scan_all, block_visit_devices. generalize (seq 0 8), false. intros ix. revert b Hb.
  induction ix as [|i ix IH]; intros b Hb v; [done|]. cbn [fold_left]. unfold visit_one at 2. cbn [snd].
  destruct (g_devices b !!! i) as [p|] eqn:E; [|by apply IH]. apply IH. apply scan_mbr_ok; [done|]. by eapply device_ptr_ok.
Qed.

Lemma block_steps_ok os : ∀ b, blocks_ok b → blocks_ok (fold_left block_step os b).
Proof.
  induction os as [|o os IH]; intros b Hb; [done|]. cbn [fold_left]. apply IH. destruct o as [d|i|]; cbn [block_step].
  - destruct (block_register_device driver b (Some (Driver d))) as [ok b'] eqn:E.
    by destruct (register_ok b (Driver d) _ _ Hb I E).
  - destruct (g_devices b !!! i) as [p|] eqn:E; [|done]. apply scan_mbr_ok; [done|]. by eapply device_ptr_ok.
  - by apply scan_all_ok.
Qed.

(** C22: the block layer's invariant.  After any sequence of driver
    registrations and scans, whatever the disks contain, the used partition
    slots are the first ones, each has a base that is a driver or an earlier
    used slot (so requests never go round in circles) and a non-empty range
    below 2^32 sectors, and every registered device is a driver or a used
    slot. *)
Theorem blocks_invariant con h os : blocks_ok (fold_left block_step os (blocks_boot con h)).
Proof. apply block_steps_ok, blocks_boot_ok. Qed.
End block_spec.
