(* ===== verification/RamDisk.v ===== *)
(** * A disk in memory

    An instance of the laws of [Block]: sectors in a finite map, requests that
    always succeed.  It shows that the laws can hold, and the theorems of the
    storage components are evaluated on it. *)

From S2P Require Import Prelude CText Serial Block BlockSpec.

Abbreviation ramdisk := (gmap (nat * Z) (list Z)).

Definition blank : list Z := replicate 512 0.

(** A cell that is not a sector reads as a blank one. *)
Definition as_sector (s : list Z) : list Z :=
  if decide (length s = 512%nat ∧ Forall (λ b, 0 <= b < 256) s) then s else blank.

Definition ram_sector (h : ramdisk) (d : nat) (l : Z) : list Z := as_sector (default blank (h !! (d, l))).

Fixpoint ram_put (n : nat) (h : ramdisk) (d : nat) (lba : Z) (bs : list Z) : ramdisk :=
  match n with
  | O => h
  | S n' => ram_put n' (<[(d, lba) := take 512 bs]> h) d (lba + 1) (drop 512 bs)
  end.

#[export] Instance ramdisk_disks : Disks ramdisk := {
  dk_sector := ram_sector;
  dk_read h d lba n := (Some (concat (ram_sector h d <$> seqZ lba n)), h);
  dk_write h d lba bs n := (true, ram_put (Z.to_nat n) h d lba bs);
}.

Lemma as_sector_ok s : length (as_sector s) = 512%nat ∧ Forall (λ b, 0 <= b < 256) (as_sector s).
Proof.
  unfold as_sector. destruct (decide _) as [?|_]; [done|]. split; [done|]. apply Forall_replicate. lia.
Qed.

Lemma ram_put_ne n : ∀ h d lba bs e l,
  e ≠ d ∨ l < lba ∨ lba + Z.of_nat n <= l → ram_sector (ram_put n h d lba bs) e l = ram_sector h e l.
Proof.
  induction n as [|n IH]; intros h d lba bs e l Hl; cbn [ram_put]; [done|]. rewrite IH by lia.
  unfold ram_sector. rewrite lookup_insert_ne; [done|]. intros [= -> ->]. lia.
Qed.

Lemma ram_put_range n : ∀ h d lba bs,
  length bs = (512 * n)%nat → Forall (λ b, 0 <= b < 256) bs →
  concat (ram_sector (ram_put n h d lba bs) d <$> seqZ lba (Z.of_nat n)) = bs.
Proof.
  induction n as [|n IH]; intros h d lba bs Hl Hb; [by destruct bs|].
  rewrite seqZ_cons by lia. cbn [fmap list_fmap concat ram_put].
  replace (Z.pred (Z.of_nat (S n))) with (Z.of_nat n) by lia. replace (Z.succ lba) with (lba + 1) by lia.
  assert (Forall (λ b, 0 <= b < 256) (take 512 bs ++ drop 512 bs)) as Hb' by by rewrite take_drop.
  apply Forall_app in Hb' as [Hb1 Hb2]. rewrite IH; [|rewrite length_drop; lia|done].
  assert (ram_sector (ram_put n (<[(d, lba) := take 512 bs]> h) d (lba + 1) (drop 512 bs)) d lba = take 512 bs) as ->; [|apply take_drop].
  rewrite ram_put_ne by lia. unfold ram_sector. rewrite lookup_insert_eq. cbn [default from_option]. unfold id, as_sector.
  rewrite decide_True; [done|]. split; [|done]. rewrite length_take. lia.
Qed.

#[export] Instance ramdisk_laws : DisksLaws ramdisk.
Proof.
  split; cbn.
  - intros h d l. apply as_sector_ok.
  - by intros h d lba n bs h' [= <- <-].
  - by intros h d lba n r h' e l [= <- <-].
  - intros h d lba bs n h' Hl Hb [= <-]. unfold dk_range. cbn. unfold kSector in Hl.
    pose proof (ram_put_range (Z.to_nat n) h d lba bs ltac:(lia) Hb) as E. by rewrite Z2Nat.id in E by lia.
  - intros h d lba bs n r h' e l [= <- <-] Hl. destruct (Z.le_gt_cases 0 n).
    + apply ram_put_ne. lia.
    + by replace (Z.to_nat n) with 0%nat by lia.
Qed.

(** ** A disk with one partition of eight sectors at sector 63 *)

Definition usb_driver (_ : nat) : BlockDevice := mk_device (Some (txt "usb0")) 512 100 true true.

Definition demo_mbr : list Z :=
  replicate 446 0 ++ [128; 0; 0; 0; 12; 0; 0; 0; 63; 0; 0; 0; 8; 0; 0; 0] ++ replicate 48 0 ++ [85; 170].

Definition demo_disk : ramdisk := {[(0%nat, 0) := demo_mbr]}.

Definition demo_blocks : blocks := fold_left (block_step usb_driver) [RegisterDriver 0; ScanAll] (blocks_boot (mk_serial false []) demo_disk).

Lemma demo_blocks_used : used demo_blocks 0.
Proof. apply used_slot. split; vm_compute; [lia|reflexivity]. Qed.

Lemma demo_blocks_ok : blocks_ok demo_blocks.
Proof. apply block_steps_ok, blocks_boot_ok. Qed.

Lemma partition_confined_witness :
  ∃ d off, extent dev_fuel demo_blocks (Partition 0) = Some (d, off) ∧
    ∀ bs r b', write_dev usb_driver demo_blocks (Partition 0) 2 bs 1 = (r, b') →
      ∀ e l, e ≠ d ∨ l < off ∨ off + 8 <= l → dk_sector (hw b') e l = dk_sector (hw demo_blocks) e l.
Proof.
  destruct (partition_confined usb_driver demo_blocks 0 2 1 demo_blocks_ok demo_blocks_used) as (d & off & He & _ & Hw); [lia..|].
  exists d, off. split; [exact He|]. intros bs r b' E. apply Hw in E as [Hout _].
  assert (p_sector_count (g_partitions demo_blocks !!! 0%nat) = 8) as Hs by (vm_compute; reflexivity). rewrite Hs in Hout. exact Hout.
Defined.

Lemma blocks_invariant_witness :
  blocks_ok (fold_left (block_step usb_driver) [RegisterDriver 0; ScanAll; ScanAll] (blocks_boot (mk_serial false []) demo_disk)).
Proof. apply (blocks_invariant usb_driver). Defined.
