(* ===== verification/Bytes.v ===== *)
(** * Byte buffers

    Arrays of bytes as lists: little-endian words, stores of a run of bytes at
    an offset and runs read back, as the storage code and the disk image tool
    use them. *)

From S2P Require Import Prelude.

Definition le32 (v : Z) : list Z := [u8 v; u8 (Z.shiftr v 8); u8 (Z.shiftr v 16); u8 (Z.shiftr v 24)].

(** Reading a word at an offset of a buffer: a [uint32_t] load on x86. *)
Definition word32 (buf : list Z) (off : Z) : Z :=
  zget buf off + 256 * zget buf (off + 1) + 65536 * zget buf (off + 2) + 16777216 * zget buf (off + 3).

(** [for (i = 0; i < n; ++i) dst[off + i] = src[i]] *)
Definition splice (buf : list Z) (off : Z) (bs : list Z) : list Z :=
  take (Z.to_nat off) buf ++ bs ++ drop (Z.to_nat off + length bs) buf.

(** The [n] bytes at an offset. *)
Definition slice (buf : list Z) (off n : Z) : list Z := (λ k, zget buf (off + k)) <$> seqZ 0 n.

(** ** Reading what was stored *)

Lemma word32_le32 pre v suf :
  0 <= v < 4294967296 → word32 (pre ++ le32 v ++ suf) (Z.of_nat (length pre)) = v.
Proof.
  intros Hv. unfold word32, zget. rewrite !Nat2Z.id.
  replace (Z.to_nat (Z.of_nat (length pre) + 1)) with (length pre + 1)%nat by lia.
  replace (Z.to_nat (Z.of_nat (length pre) + 2)) with (length pre + 2)%nat by lia.
  replace (Z.to_nat (Z.of_nat (length pre) + 3)) with (length pre + 3)%nat by lia.
  assert (∀ k, (pre ++ le32 v ++ suf) !!! (length pre + k)%nat = (le32 v ++ suf) !!! k) as Hk.
  { intros k. rewrite lookup_total_app_r by lia. f_equal. lia. }
  pose proof (Hk 0%nat) as H0. rewrite Nat.add_0_r in H0. rewrite H0, !Hk. cbn -[Z.mul Z.add Z.shiftr].
  unfold u8. rewrite !Z.shiftr_div_pow2 by lia. change (2 ^ 8) with 256. change (2 ^ 16) with 65536. change (2 ^ 24) with 16777216.
  Z.div_mod_to_equations. lia.
Qed.

Lemma le32_bytes v : Forall (λ b, 0 <= b < 256) (le32 v).
Proof. repeat constructor; apply u8_range. Qed.

Lemma word32_zeros pre k : (4 <= k)%nat → word32 (pre ++ replicate k 0) (Z.of_nat (length pre)) = 0.
Proof.
  intros Hk. destruct k as [|[|[|[|k]]]]; [lia..|].
  change (replicate (S (S (S (S k)))) 0) with (le32 0 ++ replicate k 0). by apply word32_le32.
Qed.

Lemma splice_app pre mid bs suf off :
  off = Z.of_nat (length pre) → length mid = length bs → splice (pre ++ mid ++ suf) off bs = pre ++ bs ++ suf.
Proof.
  intros -> Hl. unfold splice. rewrite Nat2Z.id, take_app_length. do 2 f_equal.
  rewrite <- Hl, drop_app_ge by lia. replace (length pre + length mid - length pre)%nat with (length mid) by lia.
  by rewrite drop_app_length.
Qed.

Lemma splice_rest pre rest bs off :
  off = Z.of_nat (length pre) → (length bs <= length rest)%nat → splice (pre ++ rest) off bs = pre ++ bs ++ drop (length bs) rest.
Proof.
  intros Ho Hl. rewrite <- (take_drop (length bs) rest) at 1. apply splice_app; [done|]. rewrite length_take. lia.
Qed.

Lemma slice_app pre bs suf off n :
  off = Z.of_nat (length pre) → n = Z.of_nat (length bs) → slice (pre ++ bs ++ suf) off n = bs.
Proof.
  intros -> ->. apply list_eq. intros i. unfold slice. rewrite list_lookup_fmap.
  destruct (decide (i < length bs)%nat) as [Hi|Hi].
  - rewrite lookup_seqZ_lt by lia. cbn [fmap option_fmap option_map]. unfold zget.
    replace (Z.to_nat (Z.of_nat (length pre) + (0 + Z.of_nat i))) with (length pre + i)%nat by lia.
    rewrite lookup_total_app_r, Nat.add_sub_swap, Nat.sub_diag, Nat.add_0_l, lookup_total_app_l by lia.
    symmetry. by apply list_lookup_lookup_total_lt.
  - rewrite lookup_seqZ_ge, lookup_ge_None_2 by lia. done.
Qed.

Definition le16 (v : Z) : list Z := [u8 v; u8 (Z.shiftr v 8)].
Definition word16 (buf : list Z) (off : Z) : Z := zget buf off + 256 * zget buf (off + 1).
