(* ===== verification/Storage.v ===== *)
(** * Persistent storage ([kernel/storage.cpp])

    An append-only store on the primary block device: a superblock with the
    next free sector, an index sector that names what was stored, and data from
    sector 10 on.  Without a registered device the IDE disk is used directly;
    [ide] is its number among the drivers.  Bringing the controllers up is a
    parameter. *)

From S2P Require Import Prelude Bytes CText Serial Block.

Definition SUPERBLOCK_LBA : Z := 1.
Definition DATA_START_LBA : Z := 10.
Definition INDEX_LBA : Z := 2.
Definition MAGIC : Z := 1213156181.

Record Superblock := mk_super { sb_magic : Z; next_free_lba : Z; reserved : list Z }.

Record StorageHandle := mk_handle { start_lba : Z; sectors : Z }.

(** ** The superblock as bytes *)

Definition super_bytes (sb : Superblock) : list Z := le32 (sb_magic sb) ++ le32 (next_free_lba sb) ++ reserved sb.
Definition super_of (buf : list Z) : Superblock := mk_super (word32 buf 0) (word32 buf 4) (drop 8 buf).

Section storage.
Context {H : Type} `{Disks H} (driver : nat → BlockDevice).

(** The controllers: [nvme::init] may register a device; [ide_init] probes the
    legacy disk and [ide_present] says whether it answered. *)
Context (nvme_init : @blocks H → @blocks H) (ide_init : @blocks H → @blocks H) (ide_present : @blocks H → bool) (ide : nat).

Record storage := mk_storage {
  st_blocks : @blocks H;
  sb : Superblock;
  g_storage_ready : bool;
}.

Definition with_blocks (s : storage) (b : @blocks H) : storage := mk_storage b (sb s) (g_storage_ready s).
Definition with_sb (s : storage) (x : Superblock) : storage := mk_storage (st_blocks s) x (g_storage_ready s).

(** Requests to the primary device, or to the IDE disk without one; [None] is
    a call through a null function pointer. *)
Definition dev_write (s : storage) (lba : Z) (bs : list Z) : option (bool * storage) :=
  match block_get_primary (st_blocks s) with
  | Some p =>
      if bd_writable (device driver (st_blocks s) p)
      then let '(r, b) := write_dev driver (st_blocks s) p lba bs 1 in Some (r, with_blocks s b)
      else None
  | None => let '(r, b) := write_dev driver (st_blocks s) (Driver ide) lba bs 1 in Some (r, with_blocks s b)
  end.

(** [for (i = 0; i < n; ++i) if (!ide_read_sectors(lba + i, out + i * 512, 1)) return false;] *)
Fixpoint ide_read (n : nat) (b : @blocks H) (lba : Z) (out : list Z) : option (list Z) * @blocks H :=
  match n with
  | O => (Some out, b)
  | S n' =>
      match read_dev b (Driver ide) lba 1 with
      | (Some bs, b) => ide_read n' b (lba +u 1) (out ++ bs)
      | (None, b) => (None, b)
      end
  end.

Definition storage_read_raw (s : storage) (start n : Z) : option (option (list Z) * storage) :=
  match block_get_primary (st_blocks s) with
  | Some p =>
      if bd_readable (device driver (st_blocks s) p)
      then let '(r, b) := read_dev (st_blocks s) p start n in Some (r, with_blocks s b)
      else None
  | None => let '(r, b) := ide_read (Z.to_nat n) (st_blocks s) start [] in Some (r, with_blocks s b)
  end.

Definition storage_read (s : storage) (h : StorageHandle) : option (option (list Z) * storage) :=
  if sectors h =? 0 then Some (None, s) else storage_read_raw s (start_lba h) (sectors h).

(** ** Initialisation *)

Definition fresh_super (magic : Z) (sb : Superblock) : Superblock := mk_super magic DATA_START_LBA (reserved sb).

(** The part both branches of [storage_init] share, on a given device;
    [direct] is the branch that calls the IDE functions by name. *)
Definition load_super (s : storage) (direct : bool) (p : dev_ptr) : option storage :=
  match read_dev (st_blocks s) p SUPERBLOCK_LBA 1 with
  | (None, b) => Some (mk_storage b (fresh_super 0 (sb s)) (g_storage_ready s))
  | (Some buf, b) =>
      let x := super_of buf in
      if negb (sb_magic x =? MAGIC) || (next_free_lba x <? DATA_START_LBA) then
        let x := mk_super MAGIC DATA_START_LBA (replicate 504 0) in
        if direct || bd_writable (device driver b p)
        then let '(_, b) := write_dev driver b p SUPERBLOCK_LBA (super_bytes x) 1 in
             Some (mk_storage b x (g_storage_ready s))
        else None
      else Some (mk_storage b x (g_storage_ready s))
  end.

Definition storage_init (s : storage) : option storage :=
  let b := st_blocks s in
  let b := match block_get_primary b with Some _ => b | None => nvme_init b end in
  match block_get_primary b with
  | Some p => load_super (mk_storage b (sb s) true) false p
  | None =>
      let b := ide_init b in
      if negb (ide_present b) then Some (mk_storage b (fresh_super 0 (sb s)) false)
      else
        let '(_, b) := block_register_device driver b (Some (Driver ide)) in
        load_super (mk_storage b (sb s) true) true (Driver ide)
  end.

Definition storage_ready (s : storage) : bool := g_storage_ready s.
Definition storage_data_start_lba : Z := DATA_START_LBA.
Definition storage_next_free_lba (s : storage) : Z := next_free_lba (sb s).
Definition storage_used_sectors (s : storage) : Z :=
  if next_free_lba (sb s) <=? DATA_START_LBA then 0 else next_free_lba (sb s) -u DATA_START_LBA.

Definition storage_flush (s : storage) : option (bool * storage) := dev_write s SUPERBLOCK_LBA (super_bytes (sb s)).

(** ** Writing *)

(** The sector [tmp] built from the next [copy] bytes. *)
Definition padded (bs : list Z) : list Z := bs ++ replicate (512 - length bs) 0.

(** The loop of [storage_write]; [data] is what is left to write. *)
Fixpoint write_loop (n : nat) (s : storage) (lba : Z) (data : list Z) : option (bool * storage) :=
  match n with
  | O => Some (true, s)
  | S n' =>
      '(ok, s) ← dev_write s lba (padded (take 512 data));
      match ok with
      | false => Some (false, s)
      | true => write_loop n' s (lba +u 1) (drop 512 data)
      end
  end.

Definition storage_write (s : storage) (data : option (list Z)) : option (option StorageHandle * storage) :=
  match data with
  | None | Some [] => Some (None, s)
  | Some data =>
      let size := Z.of_nat (length data) in
      let n := (size +u 511) / 512 in
      let start := next_free_lba (sb s) in
      '(ok, s) ← write_loop (Z.to_nat n) s start data;
      match ok with
      | false => Some (None, s)
      | true =>
          let s := with_sb s (mk_super (sb_magic (sb s)) (start +u n) (reserved (sb s))) in
          '(ok, s) ← dev_write s SUPERBLOCK_LBA (super_bytes (sb s));
          Some (match ok with true => Some (mk_handle start n) | false => None end, s)
      end
  end.

(** ** The index *)

(** Skips [count] entries from [off]; [None] is the early [return false]. *)
Fixpoint skip_entries (count : nat) (buf : list Z) (off : Z) : option Z :=
  match count with
  | O => Some off
  | S count' =>
      if 512 <? off +u 12 then None
      else
        let name_len := word32 buf off in
        let off := off +u (12 +u name_len) in
        if 512 <? off then None else skip_entries count' buf off
  end.

Definition storage_add_index_entry (s : storage) (name : text) (start n : Z) : option (bool * storage) :=
  '(r, s) ← storage_read_raw s INDEX_LBA 1;
  let index_buf := default (replicate 512 0) r in
  let entry_count := word32 index_buf 0 in
  match skip_entries (Z.to_nat entry_count) index_buf 4 with
  | None => Some (false, s)
  | Some off =>
      let name_len := text_len name in
      let need := 12 +u name_len in
      if 512 <? off +u need then Some (false, s)
      else
        let index_buf := splice index_buf off (le32 name_len ++ le32 start ++ le32 n) in
        let index_buf := splice index_buf (off + 12) (bytes_of name) in
        let index_buf := splice index_buf 0 (le32 (entry_count +u 1)) in
        dev_write s INDEX_LBA index_buf
  end.

End storage.
