(* ===== verification/StorageSpec.v ===== *)
(** * What storage guarantees

    Data stored is read back, also after a restart, and earlier data stays;
    the index keeps every entry in order. *)

From S2P Require Import Prelude Bytes CText Serial Block BlockSpec RamDisk Storage.

Lemma super_roundtrip x :
  0 <= sb_magic x < 4294967296 → 0 <= next_free_lba x < 4294967296 → super_of (super_bytes x) = x.
Proof.
  intros Hm Hn. unfold super_of, super_bytes. pose proof (word32_le32 [] (sb_magic x) (le32 (next_free_lba x) ++ reserved x) Hm) as E1.
  pose proof (word32_le32 (le32 (sb_magic x)) (next_free_lba x) (reserved x) Hn) as E2. cbn [app length] in E1.
  change (Z.of_nat (length (le32 (sb_magic x)))) with 4 in E2. change (Z.of_nat 0) with 0 in E1. rewrite E1, E2. by destruct x.
Qed.

Section storage_spec.
Context {H : Type} `{HD : Disks H} `{!DisksLaws H} (driver : nat → BlockDevice) (ide : nat).
Abbreviation storage := (@storage H).

(** ** The disk under the storage *)

(** The primary device is the sectors from [off] of disk [d]. *)
Definition on_disk (s : storage) (d : nat) (off : Z) : Prop :=
  match block_get_primary (st_blocks s) with
  | Some p => blocks_ok (st_blocks s) ∧ ptr_ok (st_blocks s) p ∧ extent dev_fuel (st_blocks s) p = Some (d, off)
  | None => d = ide ∧ off = 0
  end.

Definition sector_at (s : storage) (d : nat) (l : Z) : list Z := dk_sector (hw (st_blocks s)) d l.
Definition range_at (s : storage) (d : nat) (l n : Z) : list Z := dk_range (hw (st_blocks s)) d l n.

(** Same tables, same superblock in memory: only disks may differ. *)
Definition same_tables (s s' : storage) : Prop :=
  g_devices (st_blocks s') = g_devices (st_blocks s) ∧ g_partitions (st_blocks s') = g_partitions (st_blocks s).

Lemma extent_ext fuel : ∀ (b b' : @blocks H) p, g_partitions b' = g_partitions b → extent fuel b' p = extent fuel b p.
Proof.
  induction fuel as [|fuel IH]; intros b b' [d|i] Hp; cbn [extent]; [done..|]. rewrite Hp.
  destruct (p_base _) as [q|]; [|done]. cbn [mbind option_bind]. by rewrite (IH b b').
Qed.

Lemma on_disk_same s s' d off : same_tables s s' → on_disk s d off → on_disk s' d off.
Proof.
  intros [Hd Hp]. unfold on_disk, block_get_primary. rewrite Hd. destruct (_ !!! _) as [p|]; [|done].
  intros (Hok & Hptr & He). split_and!; [by eapply blocks_ok_ext| |by rewrite (extent_ext _ (st_blocks s))].
  eapply ptr_ok_mono; [|exact Hptr]. intros i. unfold used. by rewrite Hp.
Qed.

Lemma same_tables_refl s : same_tables s s.
Proof. done. Qed.
Lemma same_tables_trans s1 s2 s3 : same_tables s1 s2 → same_tables s2 s3 → same_tables s1 s3.
Proof. intros [? ?] [? ?]. split; congruence. Qed.

Lemma ptr_depth (b : @blocks H) p : blocks_ok b → ptr_ok b p → (depth p <= dev_fuel)%nat.
Proof. intros Hb Hp. destruct p as [d|i]; [cbn; lia|by eapply used_depth]. Qed.

Lemma dk_range_1 (h : H) d l : dk_range h d l 1 = dk_sector h d l.
Proof. unfold dk_range. rewrite seqZ_cons by lia. cbn. by rewrite app_nil_r. Qed.

Definition is_sector (bs : list Z) : Prop := length bs = 512%nat ∧ Forall (λ b, 0 <= b < 256) bs.

(** What a request through a device comes to on the disk. *)
Lemma write_dev_disk (b : @blocks H) p d off lba bs r b' :
  blocks_ok b → ptr_ok b p → extent dev_fuel b p = Some (d, off) → 0 <= lba < 4294967296 → is_sector bs →
  write_dev driver b p lba bs 1 = (r, b') →
  (∀ e l, e ≠ d ∨ l ≠ off + lba → dk_sector (hw b') e l = dk_sector (hw b) e l) ∧ (r = true → dk_sector (hw b') d (off + lba) = bs).
Proof.
  intros Hb Hp He Hl [Hlen Hby] Hw.
  destruct (write_extent driver _ b p lba bs 1 r b' Hb Hp (ptr_depth b p Hb Hp) ltac:(lia) ltac:(lia) ltac:(lia) Hw)
    as [[-> ->]|(d' & off' & He' & Hw' & _)]; [by split|].
  rewrite He in He'. injection He' as <- <-. split.
  - intros e l Hne. eapply dk_write_frame; [exact Hw'|]. lia.
  - intros ->. rewrite <- dk_range_1. eapply dk_write_ok; [|done|exact Hw']. unfold kSector. lia.
Qed.

Lemma dev_write_disk s d off lba bs r s' :
  on_disk s d off → 0 <= lba < 4294967296 → is_sector bs → dev_write driver ide s lba bs = Some (r, s') →
  same_tables s s' ∧ sb s' = sb s ∧ g_storage_ready s' = g_storage_ready s ∧
  (∀ e l, e ≠ d ∨ l ≠ off + lba → sector_at s' e l = sector_at s e l) ∧ (r = true → sector_at s' d (off + lba) = bs).
Proof.
  unfold on_disk, dev_write. intros Hon Hl Hbs. destruct (block_get_primary (st_blocks s)) as [p|].
  - destruct Hon as (Hb & Hp & He). destruct (bd_writable _); [|done].
    destruct (write_dev driver (st_blocks s) p lba bs 1) as [r0 b'] eqn:E. intros [= <- <-].
    destruct (write_dev_disk _ _ _ _ _ _ _ _ Hb Hp He Hl Hbs E) as [H1 H2].
    pose proof (write_frame driver _ _ _ _ _ _ _ _ E) as Hf. split_and!; [exact Hf|done|done|exact H1|exact H2].
  - destruct Hon as [-> ->]. unfold write_dev, dev_fuel. cbn [write_sectors].
    destruct (dk_write (hw (st_blocks s)) ide lba bs 1) as [r0 h'] eqn:E. intros [= <- <-]. destruct Hbs as [Hlen Hby].
    split_and!; [done|done|done| |].
    + intros e l Hne. eapply dk_write_frame; [exact E|]. lia.
    + intros ->. unfold sector_at. cbn. rewrite <- dk_range_1, Z.add_0_l. eapply dk_write_ok; [|done|exact E]. unfold kSector. lia.
Qed.

Lemma dk_range_cons (h : H) d l n : 0 < n → dk_range h d l n = dk_sector h d l ++ dk_range h d (l + 1) (n - 1).
Proof. intros Hn. unfold dk_range. rewrite seqZ_cons by lia. cbn [fmap list_fmap concat]. by replace (Z.succ l) with (l + 1) by lia. Qed.

Lemma dk_range_same (h h' : H) d l n :
  (∀ k, l <= k < l + n → dk_sector h' d k = dk_sector h d k) → dk_range h' d l n = dk_range h d l n.
Proof.
  intros Hs. unfold dk_range. f_equal. apply list_fmap_ext. intros i k Hk. apply lookup_seqZ in Hk. apply Hs. lia.
Qed.

Lemma ide_read_disk n : ∀ (b : @blocks H) lba out bs b',
  0 <= lba → lba + Z.of_nat n < 4294967296 → ide_read ide n b lba out = (Some bs, b') →
  g_devices b' = g_devices b ∧ g_partitions b' = g_partitions b ∧ (∀ e l, dk_sector (hw b') e l = dk_sector (hw b) e l) ∧
  bs = out ++ dk_range (hw b) ide lba (Z.of_nat n).
Proof.
  induction n as [|n IH]; intros b lba out bs b' H0 Hmax; cbn [ide_read].
  { intros [= <- <-]. split_and!; [done|done|done|]. unfold dk_range. cbn. by rewrite app_nil_r. }
  destruct (read_dev b (Driver ide) lba 1) as [[x|] b1] eqn:E; [|done]. intros Hr.
  destruct (read_frame _ _ _ _ _ _ _ E) as (Hd & Hp & Hs).
  unfold read_dev, dev_fuel in E. cbn [read_sectors] in E. destruct (dk_read (hw b) ide lba 1) as [r h] eqn:Er. injection E as -> <-.
  apply dk_read_ok in Er. rewrite dk_range_1 in Er. rewrite u32_small in Hr by lia.
  destruct (IH _ (lba + 1) _ _ _ ltac:(lia) ltac:(lia) Hr) as (Hd' & Hp' & Hs' & ->).
  split_and!; [by rewrite Hd', Hd|by rewrite Hp', Hp|intros e l; by rewrite Hs', Hs|].
  rewrite (dk_range_cons _ _ lba (Z.of_nat (S n))) by lia. replace (Z.of_nat (S n) - 1) with (Z.of_nat n) by lia. rewrite Er, <- app_assoc. do 2 f_equal.
  apply dk_range_same. auto.
Qed.

Lemma ide_read_frame n : ∀ (b : @blocks H) lba out r b',
  ide_read ide n b lba out = (r, b') →
  g_devices b' = g_devices b ∧ g_partitions b' = g_partitions b ∧ (∀ e l, dk_sector (hw b') e l = dk_sector (hw b) e l).
Proof.
  induction n as [|n IH]; intros b lba out r b'; cbn [ide_read]; [by intros [= _ <-]|].
  destruct (read_dev b (Driver ide) lba 1) as [[x|] b1] eqn:E; destruct (read_frame _ _ _ _ _ _ _ E) as (Hd & Hp & Hs).
  - intros (Hd' & Hp' & Hs')%IH. split_and!; [by rewrite Hd'|by rewrite Hp'|intros e l; by rewrite Hs', Hs].
  - by intros [= _ <-].
Qed.

(** A read leaves the disks and the tables as they were, also when it fails. *)
Lemma read_raw_frame s start n r s' :
  storage_read_raw driver ide s start n = Some (r, s') →
  same_tables s s' ∧ sb s' = sb s ∧ g_storage_ready s' = g_storage_ready s ∧ ∀ e l, sector_at s' e l = sector_at s e l.
Proof.
  unfold storage_read_raw. destruct (block_get_primary (st_blocks s)) as [p|].
  - destruct (bd_readable _); [|done]. destruct (read_dev _ _ _ _) as [r0 b'] eqn:E. intros [= -> <-].
    by destruct (read_frame _ _ _ _ _ _ _ E) as (Hd & Hp & Hs).
  - destruct (ide_read _ _ _ _ _) as [r0 b'] eqn:E. intros [= -> <-]. by destruct (ide_read_frame _ _ _ _ _ _ E) as (Hd & Hp & Hs).
Qed.

Lemma read_raw_disk s d off start n bs s' :
  on_disk s d off → 0 <= start → 0 <= n → start + n < 4294967296 → storage_read_raw driver ide s start n = Some (Some bs, s') →
  same_tables s s' ∧ sb s' = sb s ∧ g_storage_ready s' = g_storage_ready s ∧
  (∀ e l, sector_at s' e l = sector_at s e l) ∧ bs = range_at s d (off + start) n.
Proof.
  unfold on_disk, storage_read_raw. intros Hon H0 Hn Hmax. destruct (block_get_primary (st_blocks s)) as [p|].
  - destruct Hon as (Hb & Hp & He). destruct (bd_readable _); [|done].
    destruct (read_dev (st_blocks s) p start n) as [r b'] eqn:E. intros [= -> <-].
    destruct (read_frame _ _ _ _ _ _ _ E) as (Hd & Hpt & Hs).
    destruct (read_extent _ _ p start n bs b' Hb Hp (ptr_depth _ p Hb Hp) ltac:(lia) ltac:(lia) ltac:(lia) E)
      as (d' & off' & He' & _ & -> & _). rewrite He in He'. injection He' as <- <-. split_and!; [done|done|done|exact Hs|done].
  - destruct Hon as [-> ->]. destruct (ide_read ide (Z.to_nat n) (st_blocks s) start []) as [r b'] eqn:E. intros [= -> <-].
    destruct (ide_read_disk (Z.to_nat n) _ start _ _ _ H0 ltac:(lia) E) as (Hd & Hp & Hs & ->). split_and!; [done|done|done|exact Hs|].
    cbn [app]. by rewrite Z2Nat.id, Z.add_0_l by lia.
Qed.

(** ** Writing *)

Definition filled (data : list Z) (n : Z) : list Z := data ++ replicate (Z.to_nat (kSector * n) - length data) 0.

Lemma padded_sector data : Forall (λ b, 0 <= b < 256) data → (length data <= 512)%nat → is_sector (padded data).
Proof.
  intros Hb Hl. unfold padded. split; [rewrite length_app, length_replicate; lia|]. apply Forall_app. split; [done|].
  apply Forall_replicate. lia.
Qed.

Lemma filled_step data n :
  0 < n → Z.of_nat (length data) <= kSector * n → filled data n = padded (take 512 data) ++ filled (drop 512 data) (n - 1).
Proof.
  intros Hn Hl. unfold filled, padded, kSector in *. rewrite length_take, length_drop.
  destruct (Nat.le_gt_cases 512 (length data)).
  - replace (512 - 512 `min` length data)%nat with 0%nat by lia. cbn [replicate]. rewrite app_nil_r, app_assoc, take_drop.
    do 2 f_equal. lia.
  - rewrite take_ge, drop_ge by lia. rewrite <- app_assoc. f_equal. cbn [app].
    rewrite <- replicate_add. f_equal. lia.
Qed.

Lemma write_loop_disk n : ∀ s d off lba data r s',
  on_disk s d off → 0 <= lba → lba + Z.of_nat n < 4294967296 → Forall (λ b, 0 <= b < 256) data →
  Z.of_nat (length data) <= kSector * Z.of_nat n → write_loop driver ide n s lba data = Some (r, s') →
  same_tables s s' ∧ sb s' = sb s ∧ g_storage_ready s' = g_storage_ready s ∧
  (∀ e l, e ≠ d ∨ l < off + lba ∨ off + lba + Z.of_nat n <= l → sector_at s' e l = sector_at s e l) ∧
  (r = true → range_at s' d (off + lba) (Z.of_nat n) = filled data (Z.of_nat n)).
Proof.
  induction n as [|n IH]; intros s d off lba data r s' Hon H0 Hmax Hb Hl; cbn [write_loop].
  { intros [= <- <-]. split_and!; [done..|]. intros _. destruct data; [done|]. unfold kSector in Hl. cbn [length] in Hl. lia. }
  destruct (dev_write driver ide s lba _) as [[ok s1]|] eqn:E; [|done]. cbn [mbind option_bind].
  assert (Forall (λ b, 0 <= b < 256) (take 512 data) ∧ Forall (λ b, 0 <= b < 256) (drop 512 data)) as [Hb1 Hb2]
    by (rewrite <- Forall_app, take_drop; done).
  destruct (dev_write_disk s d off lba _ _ _ Hon ltac:(lia) (padded_sector _ Hb1 ltac:(rewrite length_take; lia)) E)
    as (Hst & Hsb & Hrd & Hfr & Hok).
  destruct ok.
  2: { intros [= <- <-]. split_and!; [done|done|done| |done]. intros e l Hne. apply Hfr. lia. }
  intros Hw. rewrite u32_small in Hw by lia.
  destruct (IH s1 d off (lba + 1) (drop 512 data) r s') as (Hst' & Hsb' & Hrd' & Hfr' & Hok'); [by eapply on_disk_same|lia|lia|done| |done|].
  { rewrite length_drop. unfold kSector in *. lia. }
  split_and!; [by eapply same_tables_trans|congruence|congruence| |].
  - intros e l Hne. rewrite Hfr', Hfr by lia. done.
  - intros Hr. unfold range_at. rewrite dk_range_cons, filled_step by lia. f_equal.
    + rewrite <- (Hok eq_refl). apply Hfr'. lia.
    + replace (Z.of_nat (S n) - 1) with (Z.of_nat n) by lia. rewrite <- (Hok' Hr). unfold range_at. f_equal. lia.
Qed.

Record super_ok (x : Superblock) : Prop := {
  so_magic : sb_magic x = MAGIC;
  so_next : DATA_START_LBA <= next_free_lba x < 4294967296;
  so_reserved : length (reserved x) = 504%nat;
  so_bytes : Forall (λ b, 0 <= b < 256) (reserved x);
}.

Lemma super_sector x : super_ok x → is_sector (super_bytes x).
Proof.
  intros [_ _ Hl Hb]. unfold super_bytes. split; [rewrite !length_app, Hl; done|].
  repeat apply Forall_app_2; [apply le32_bytes|apply le32_bytes|done].
Qed.

Definition sectors_for (data : list Z) : Z := (Z.of_nat (length data) + 511) / 512.

Lemma storage_write_disk s d off data h s' :
  on_disk s d off → super_ok (sb s) → data ≠ [] → Forall (λ b, 0 <= b < 256) data →
  next_free_lba (sb s) + sectors_for data < 4294967296 → Z.of_nat (length data) + 511 < 4294967296 →
  storage_write driver ide s (Some data) = Some (Some h, s') →
  h = mk_handle (next_free_lba (sb s)) (sectors_for data) ∧ same_tables s s' ∧
  sb s' = mk_super MAGIC (next_free_lba (sb s) + sectors_for data) (reserved (sb s)) ∧
  sector_at s' d (off + SUPERBLOCK_LBA) = super_bytes (sb s') ∧
  range_at s' d (off + start_lba h) (sectors h) = filled data (sectors h) ∧
  (∀ l, 2 <= l < start_lba h → sector_at s' d (off + l) = sector_at s d (off + l)).
Proof.
  intros Hon Hsb Hne Hb Hfit Hlen. destruct Hsb as [Hm Hn Hr Hrb]. unfold DATA_START_LBA in Hn.
  unfold storage_write. destruct data as [|x data]; [done|]. set (dt := x :: data) in *. rewrite u32_small by lia. fold (sectors_for dt).
  assert (0 <= sectors_for dt ∧ Z.of_nat (length dt) <= kSector * sectors_for dt) as [Hs0 Hs1].
  { unfold sectors_for, kSector. split; [apply Z.div_pos; lia|]. Z.div_mod_to_equations. lia. }
  destruct (write_loop driver ide _ s _ dt) as [[ok s1]|] eqn:Ew; [|done]. cbn [mbind option_bind].
  destruct (write_loop_disk (Z.to_nat (sectors_for dt)) s d off (next_free_lba (sb s)) dt _ _ Hon ltac:(lia) ltac:(lia) Hb ltac:(by rewrite Z2Nat.id) Ew) as (Hst & Hsb1 & Hrd & Hfr & Hok).
  rewrite Z2Nat.id in Hfr, Hok by lia. destruct ok; [|done]. specialize (Hok eq_refl). rewrite u32_small by lia.
  set (nsb := mk_super _ _ _). set (s2 := with_sb s1 nsb).
  assert (nsb = mk_super MAGIC (next_free_lba (sb s) + sectors_for dt) (reserved (sb s))) as Hnsb
    by (unfold nsb; rewrite Hsb1, Hm; done).
  destruct (dev_write driver ide s2 _ _) as [[ok2 s3]|] eqn:E2; [|done]. cbn [mbind option_bind]. intros [= Hh <-].
  destruct ok2; [|done]. injection Hh as <-. cbn [start_lba sectors].
  assert (is_sector (super_bytes nsb)) as Hsec by (apply super_sector; rewrite Hnsb; split; cbn; unfold DATA_START_LBA; [done|lia|done|done]).
  assert (on_disk s2 d off) as Hon2 by (eapply on_disk_same; [|exact Hon]; exact Hst).
  destruct (dev_write_disk s2 d off SUPERBLOCK_LBA _ _ _ Hon2 ltac:(unfold SUPERBLOCK_LBA; lia) Hsec E2) as (Hst3 & Hsb3 & _ & Hfr3 & Hok3).
  unfold SUPERBLOCK_LBA in *. split_and!.
  - done.
  - eapply same_tables_trans; [exact Hst|exact Hst3].
  - rewrite Hsb3. exact Hnsb.
  - rewrite (Hok3 eq_refl), Hsb3. done.
  - rewrite <- Hok. unfold range_at. apply dk_range_same. intros k Hk. apply Hfr3. lia.
  - intros l Hl. rewrite (Hfr3 d (off + l)) by lia. apply Hfr. lia.
Qed.

(** The superblock found at a restart. *)
Lemma load_super_stored s1 p d off x s2 :
  blocks_ok (st_blocks s1) → ptr_ok (st_blocks s1) p → extent dev_fuel (st_blocks s1) p = Some (d, off) → super_ok x →
  sector_at s1 d (off + SUPERBLOCK_LBA) = super_bytes x → load_super driver s1 false p = Some s2 →
  sb_magic (sb s2) = 0 ∨ (sb s2 = x ∧ g_storage_ready s2 = g_storage_ready s1).
Proof.
  intros Hb Hp He [Hm Hn Hr Hrb] Hsec. unfold load_super.
  destruct (read_dev (st_blocks s1) p SUPERBLOCK_LBA 1) as [[buf|] b'] eqn:E; [|intros [= <-]; by left].
  destruct (read_extent _ _ p SUPERBLOCK_LBA 1 _ _ Hb Hp (ptr_depth _ p Hb Hp) ltac:(done) ltac:(done) ltac:(done) E)
    as (d' & off' & He' & _ & -> & _). rewrite He in He'. injection He' as <- <-.
  unfold sector_at in Hsec. unfold DATA_START_LBA in Hn. rewrite dk_range_1, Hsec, super_roundtrip by (rewrite ?Hm; unfold MAGIC; lia).
  rewrite Hm, Z.eqb_refl, (proj2 (Z.ltb_ge _ _)) by (unfold DATA_START_LBA; lia). cbn [negb orb].
  intros [= <-]. by right.
Qed.

(** Stored data persists.  When [storage_write] reports success, the
    handle reads back the data padded with zeros to whole sectors, every
    sector from 2 up to the new data is untouched, and a restart on the same
    disks finds the same superblock (unless the disk cannot be read, which
    leaves the store unformatted in memory). *)
Lemma storage_persists s d off data h s' :
  on_disk s d off → super_ok (sb s) → data ≠ [] → Forall (λ b, 0 <= b < 256) data →
  next_free_lba (sb s) + sectors_for data < 4294967296 → Z.of_nat (length data) + 511 < 4294967296 →
  storage_write driver ide s (Some data) = Some (Some h, s') →
  on_disk s' d off ∧ super_ok (sb s') ∧
  (∀ bs s'', storage_read driver ide s' h = Some (Some bs, s'') → bs = filled data (sectors h)) ∧
  (∀ l n, 2 <= l → l + n <= start_lba h → range_at s' d (off + l) n = range_at s d (off + l) n) ∧
  (∀ nvme ide0 present s1 s2, st_blocks s1 = st_blocks s' → block_get_primary (st_blocks s') ≠ None →
     storage_init driver nvme ide0 present ide s1 = Some s2 →
     sb_magic (sb s2) = 0 ∨ (sb s2 = sb s' ∧ storage_ready s2 = true)).
Proof.
  intros Hon Hsb Hne Hb Hfit Hlen Hw.
  destruct (storage_write_disk _ _ _ _ _ _ Hon Hsb Hne Hb Hfit Hlen Hw) as (-> & Hst & Hsb' & Hsec & Hrng & Hold).
  pose proof (on_disk_same _ _ _ _ Hst Hon) as Hon'. cbn [start_lba sectors] in *. destruct Hsb as [Hm Hn Hr Hrb].
  assert (0 < sectors_for data) as Hpos.
  { unfold sectors_for. destruct data; [done|]. cbn [length]. apply Z.div_str_pos. lia. }
  assert (super_ok (sb s')) as Hok' by (rewrite Hsb'; split; cbn; [done|unfold DATA_START_LBA in *; lia|done|done]).
  split_and!; [done|done| | |].
  - intros bs s''. unfold storage_read. cbn [sectors start_lba]. rewrite (proj2 (Z.eqb_neq _ _)) by lia. intros Hrd.
    destruct (read_raw_disk s' d off (next_free_lba (sb s)) (sectors_for data) bs s'' Hon' ltac:(unfold DATA_START_LBA in Hn; lia) ltac:(lia) Hfit Hrd) as (_ & _ & _ & _ & ->). exact Hrng.
  - intros l n Hl Hln. unfold range_at. apply dk_range_same. intros k Hk. specialize (Hold (k - off) ltac:(lia)).
    replace (off + (k - off)) with k in Hold by lia. exact Hold.
  - intros nvme ide0 present s1 s2 Hbl Hprim. unfold storage_init. rewrite Hbl. unfold on_disk in Hon'.
    destruct (block_get_primary (st_blocks s')) as [p|] eqn:Ep; [|done]. rewrite Ep. destruct Hon' as (Hb' & Hp' & He').
    intros Hl. eapply load_super_stored in Hl; [exact Hl|..]; done.
Qed.

(** Sizes within 511 of 2^32 wrap to no sectors at all: success is reported
    and nothing but the superblock is written. *)
Lemma storage_write_wraps s data :
  4294966785 <= Z.of_nat (length data) < 4294967296 →
  storage_write driver ide s (Some data) =
  '(ok, s') ← dev_write driver ide (with_sb s (mk_super (sb_magic (sb s)) (u32 (next_free_lba (sb s))) (reserved (sb s)))) SUPERBLOCK_LBA
    (super_bytes (mk_super (sb_magic (sb s)) (u32 (next_free_lba (sb s))) (reserved (sb s))));
  Some (if ok : bool then Some (mk_handle (next_free_lba (sb s)) 0) else None, s').
Proof.
  intros Hl. unfold storage_write. destruct data as [|x data]; [cbn in Hl; lia|].
  assert ((Z.of_nat (length (x :: data)) +u 511) / 512 = 0) as ->.
  { unfold u32. rewrite <- (Z.mod_add _ (-1)), Z.mod_small by lia. apply Z.div_small. lia. }
  change (Z.to_nat 0) with 0%nat. cbn [write_loop mbind option_bind]. by rewrite Z.add_0_r.
Qed.
End storage_spec.

(** A store on the RAM disk: two kilobytes written and read back. *)
Definition demo_store : storage :=
  mk_storage (fold_left (block_step usb_driver) [RegisterDriver 0] (blocks_boot (mk_serial false []) (∅ : ramdisk)))
    (mk_super MAGIC DATA_START_LBA (replicate 504 0)) true.

Definition demo_data : list Z := replicate 700 7.

Lemma demo_store_disk : on_disk 0 demo_store 0 0 ∧ super_ok (sb demo_store).
Proof.
  split.
  - change (blocks_ok (st_blocks demo_store) ∧ ptr_ok (st_blocks demo_store) (Driver 0) ∧
            extent dev_fuel (st_blocks demo_store) (Driver 0) = Some (0%nat, 0)).
    split_and!; [apply block_steps_ok, blocks_boot_ok|exact I|reflexivity].
  - split; [reflexivity|cbn; unfold DATA_START_LBA; lia|reflexivity|]. apply (Forall_replicate _ 504 0). lia.
Qed.

Definition demo_written : option (option StorageHandle * storage) := storage_write usb_driver 0 demo_store (Some demo_data).

Lemma storage_persists_witness :
  ∃ h s', demo_written = Some (Some h, s') ∧ h = mk_handle 10 2 ∧
    ∀ bs s'', storage_read usb_driver 0 s' h = Some (Some bs, s'') → bs = filled demo_data 2.
Proof.
  destruct demo_written as [[[h|] s']|] eqn:E; [|vm_compute in E; discriminate E..]. exists h, s'. split; [reflexivity|].
  assert (h = mk_handle 10 2) as Hh.
  { assert ((fst <$> demo_written) = Some (Some (mk_handle 10 2))) as H by (vm_compute; reflexivity). rewrite E in H.
    cbn in H. injection H as H. exact H. }
  split; [exact Hh|].
  destruct (storage_persists usb_driver 0 demo_store 0 0 demo_data h s' (proj1 demo_store_disk) (proj2 demo_store_disk))
    as (_ & _ & Hr & _); [discriminate|apply Forall_replicate; lia|vm_compute; reflexivity|vm_compute; reflexivity|exact E|].
  rewrite Hh in *. exact Hr.
Defined.
