(* ===== verification/Snapshot.v ===== *)
(** * Packages and snapshots on storage ([kernel/storage.cpp])

    [storage_restore_packages] reads the index and unpacks every entry into
    the file system; [storage_snapshot_save] packs the whole tree, stores it
    and adds it to the index.  A packed file is its path length, its data
    length, its path and its data.  The allocator is the parameter [new_bytes]
    ([None] is null); recursion into directories and the read loops take fuel,
    and [Diverges] is its exhaustion. *)

From S2P Require Import Prelude CText RamFs RamFsSpec Vfs Serial Bytes Block Storage.

(** Bytes of a buffer as the text of a zeroed [char] array: up to a NUL. *)
Fixpoint text_of (bs : list Z) : text :=
  match bs with
  | [] => []
  | b :: bs' => if b =? 0 then [] else ascii_of_nat (Z.to_nat b) :: text_of bs'
  end.

(** ** The index *)

Record IndexEntry := mk_entry { ie_name : text; ie_start : Z; ie_sectors : Z }.

(** The entries [storage_restore_packages] visits, in order. *)
Fixpoint index_entries (count : nat) (buf : list Z) (off : Z) : list IndexEntry :=
  match count with
  | O => []
  | S count' =>
      if 512 <? off +u 12 then []
      else
        let name_len := word32 buf off in
        let start := word32 buf (off + 4) in
        let n := word32 buf (off + 8) in
        let off := off +u 12 in
        if (name_len =? 0) || (512 <? off +u name_len) then []
        else
          let copy := if name_len <? 127 then name_len else 127 in
          mk_entry (text_of (slice buf off copy)) start n :: index_entries count' buf (off +u name_len)
  end.

Section snapshot.
Context {H F : Type} `{Disks H} `{FileSystem F} (driver : nat → BlockDevice) (ide : nat).
Context (new_bytes : Z → option (list Z)).

(** ** Restoring *)

(** The directories above a path: [md] of every prefix that ends before a
    slash; the first character counts as the root. *)
Fixpoint make_parents (f : F) (prefix rest : text) : F :=
  match rest with
  | [] => f
  | c :: rest' =>
      if Ascii.eqb c slash then
        let '(_, f) := fs_md f prefix in
        make_parents f (if text_len prefix + 1 <? 256 then prefix ++ [slash] else prefix) rest'
      else make_parents f (if text_len prefix + 1 <? 256 then prefix ++ [c] else prefix) rest'
  end.

Definition restore_file (f : F) (path : text) (data : list Z) : outcome F :=
  let f := match path with [] => f | _ :: rest => make_parents f [slash] rest end in
  let '(ofd, f) := fs_open f path (Z.lor (Z.lor kOpenWrite kOpenCreate) kOpenTruncate) in
  if 0 <=? ofd then
    '(_, f) ← fs_write f ofd (Some data);
    let '(_, f) := fs_close f ofd in Done f
  else Done f.

(** [while (po + 8 <= total)] over a payload of [total] bytes. *)
Fixpoint restore_files (fuel : nat) (f : F) (data : list Z) (total po : Z) : outcome F :=
  match fuel with
  | O => Diverges
  | S fuel' =>
      if total <? po +u 8 then Done f
      else
        let path_len := word32 data po in
        let data_len := word32 data (po + 4) in
        let po := po +u 8 in
        if (path_len =? 0) || (total <? (po +u path_len) +u data_len) then Done f
        else
          let copy_path := if path_len <? 255 then path_len else 255 in
          let path := text_of (slice data po copy_path) in
          let po := po +u path_len in
          f ← restore_file f path (slice data po data_len);
          restore_files fuel' f data total (po +u data_len)
  end.

Definition marker_prefix : text := txt "/var/lib/wirth/pkgdb/".

Definition restore_marker (f : F) (name : text) : F :=
  let marker := marker_prefix ++ take 96 name in
  if text_len marker + 9 <? 128 then
    let '(mfd, f) := fs_open f (marker ++ txt ".installed") (Z.lor (Z.lor kOpenWrite kOpenCreate) kOpenTruncate) in
    if 0 <=? mfd then (fs_close f mfd).2 else f
  else f.

Fixpoint restore_entries (fuel : nat) (s : @storage H) (f : F) (es : list IndexEntry) : outcome (option (@storage H * F)) :=
  match es with
  | [] => Done (Some (s, f))
  | e :: es' =>
      let total := ie_sectors e *u 512 in
      match new_bytes total with
      | None => restore_entries fuel s f es'
      | Some _ =>
          match storage_read_raw driver ide s (ie_start e) (ie_sectors e) with
          | None => Done None
          | Some (None, s) => restore_entries fuel s f es'
          | Some (Some data, s) =>
              f ← restore_files fuel f data total 0;
              restore_entries fuel s (restore_marker f (ie_name e)) es'
          end
      end
  end.

(** [None] is a call through a null function pointer. *)
Definition storage_restore_packages (fuel : nat) (s : @storage H) (f : F) : outcome (option (@storage H * F)) :=
  match storage_read_raw driver ide s INDEX_LBA 1 with
  | None => Done None
  | Some (None, s) => Done (Some (s, f))
  | Some (Some index_buf, s) =>
      restore_entries fuel s f (index_entries (Z.to_nat (word32 index_buf 0)) index_buf 4)
  end.

(** ** Snapshots *)

(** [path] and [name] joined in an array of 256. *)
Definition child_path (path name : text) : text :=
  if text_equal path [slash] then take 255 (slash :: name)
  else take 255 (take 255 path ++ [slash] ++ name).

(** The [read] loop: the bytes of an open file, in pieces of 512. *)
Fixpoint read_all (fuel : nat) (f : F) (fd : Z) : outcome (option (list Z) * F) :=
  match fuel with
  | O => Diverges
  | S fuel' =>
      let '(n, bs, f) := fs_read f fd 512 in
      if n <? 0 then Done (None, (fs_close f fd).2)
      else if n =? 0 then Done (Some [], f)
      else
        '(r, f) ← read_all fuel' f fd;
        Done (match r with Some rest => Some (take (Z.to_nat n) bs ++ rest) | None => None end, f)
  end.

(** The entries of a directory in [Walker::compute]; [dir] is the recursive
    call. *)
Fixpoint compute_entries (dir : F → text → Z → outcome (bool * Z * F)) (fuel : nat) (path : text)
    (es : list DirEntry) (total : Z) (f : F) : outcome (bool * Z * F) :=
  match es with
  | [] => Done (true, total, f)
  | e :: es' =>
      let child := child_path path (de_name e) in
      if de_is_directory e then
        '(ok, total, f) ← dir f child total;
        if ok : bool then compute_entries dir fuel path es' total f else Done (false, total, f)
      else
        let '(fd, f) := fs_open f child kOpenRead in
        if fd <? 0 then compute_entries dir fuel path es' total f
        else
          '(r, f) ← read_all fuel f fd;
          match r with
          | None => Done (false, total, f)
          | Some bs =>
              compute_entries dir fuel path es'
                (total +u ((8 +u text_len child) +u Z.of_nat (length bs))) (fs_close f fd).2
          end
  end.

(** [Walker::compute]: adds the packed size of everything under [path]. *)
Fixpoint compute (fuel : nat) (f : F) (path : text) (total : Z) : outcome (bool * Z * F) :=
  match fuel with
  | O => Diverges
  | S fuel' =>
      let '(cnt, entries, f) := fs_readdir f path 64 in
      if cnt <? 0 then Done (true, total, f)
      else compute_entries (compute fuel') fuel' path (take (Z.to_nat cnt) entries) total f
  end.

(** The [read] loop of [Walker::fill]: every piece is checked and copied. *)
Fixpoint fill_data (fuel : nat) (f : F) (fd : Z) (payload : list Z) (size off : Z)
    : outcome (option (list Z * Z) * F) :=
  match fuel with
  | O => Diverges
  | S fuel' =>
      let '(n, bs, f) := fs_read f fd 512 in
      if n <? 0 then Done (None, (fs_close f fd).2)
      else if n =? 0 then Done (Some (payload, off), f)
      else if size <? off +u n then Done (None, (fs_close f fd).2)
      else fill_data fuel' f fd (splice payload off (take (Z.to_nat n) bs)) size (off +u n)
  end.

(** The entries of a directory in [Walker::fill]. *)
Fixpoint fill_entries (dir : F → text → list Z → Z → outcome (bool * list Z * Z * F)) (fuel : nat) (path : text)
    (size : Z) (es : list DirEntry) (payload : list Z) (off : Z) (f : F) : outcome (bool * list Z * Z * F) :=
  match es with
  | [] => Done (true, payload, off, f)
  | e :: es' =>
      let child := child_path path (de_name e) in
      if de_is_directory e then
        '(ok, payload, off, f) ← dir f child payload off;
        if ok : bool then fill_entries dir fuel path size es' payload off f else Done (false, payload, off, f)
      else
        let '(fd, f) := fs_open f child kOpenRead in
        if fd <? 0 then fill_entries dir fuel path size es' payload off f
        else
          let path_len := text_len child in
          if size <? (off +u 8) +u path_len then Done (false, payload, off, (fs_close f fd).2)
          else
            let header_pos := off in
            let payload := splice payload header_pos (le32 path_len ++ le32 0) in
            let payload := splice payload (header_pos + 8) (bytes_of child) in
            let off := (header_pos +u 8) +u path_len in
            '(r, f) ← fill_data fuel f fd payload size off;
            match r with
            | None => Done (false, payload, off, f)
            | Some (payload, off') =>
                let payload := splice payload (header_pos + 4) (le32 (off' -u off)) in
                fill_entries dir fuel path size es' payload off' (fs_close f fd).2
            end
  end.

(** [Walker::fill]: packs everything under [path] from [off] on. *)
Fixpoint fill (fuel : nat) (size : Z) (f : F) (path : text) (payload : list Z) (off : Z)
    : outcome (bool * list Z * Z * F) :=
  match fuel with
  | O => Diverges
  | S fuel' =>
      let '(cnt, entries, f) := fs_readdir f path 64 in
      if cnt <? 0 then Done (true, payload, off, f)
      else fill_entries (fill fuel' size) fuel' path size (take (Z.to_nat cnt) entries) payload off f
  end.

Definition storage_snapshot_save (fuel : nat) (s : @storage H) (g_fs : option F) (name : option text)
    : outcome (option (bool * @storage H * option F)) :=
  match g_storage_ready s, g_fs, name with
  | true, Some f, Some name =>
      '(ok, total, f) ← compute fuel f [slash] 0;
      if negb ok || (total =? 0) then Done (Some (false, s, Some f))
      else
        match new_bytes total with
        | None => Done (Some (false, s, Some f))
        | Some payload =>
            '(ok, payload, off, f) ← fill fuel total f [slash] payload 0;
            if negb ok then Done (Some (false, s, Some f))
            else
              Done (match storage_write driver ide s (Some (take (Z.to_nat off) payload)) with
                    | None => None
                    | Some (None, s) => Some (false, s, Some f)
                    | Some (Some h, s) =>
                        match storage_add_index_entry driver ide s name (start_lba h) (sectors h) with
                        | None => None
                        | Some (ok, s) => Some (ok, s, Some f)
                        end
                    end)
        end
  | _, _, _ => Done (Some (false, s, g_fs))
  end.
End snapshot.
