(* ===== verification/SnapshotSpec.v ===== *)
(** * What snapshots guarantee

    The packed form of a list of files, the two passes of a snapshot against a
    plain traversal, the index as a list of entries, and their composition: a
    snapshot that was saved is restored file by file.  On the RAM file system
    the traversal lists exactly the files of the tree, and restoring gives the
    tree with these files put back ([put_back]). *)

From S2P Require Import Prelude CText RamFs RamFsSpec FsHandles Vfs Serial Bytes Block BlockSpec RamDisk Storage StorageSpec Snapshot.

(** Text without NUL. *)
Definition no_nul (t : text) : Prop := Forall (λ c, byte_of c ≠ 0) t.

Lemma text_of_bytes t : no_nul t → text_of (bytes_of t) = t.
Proof.
  induction 1 as [|c t Hc _ IH]; [done|]. cbn [bytes_of fmap list_fmap text_of]. rewrite (proj2 (Z.eqb_neq _ _)) by done.
  change (byte_of <$> t) with (bytes_of t). rewrite IH. f_equal. unfold byte_of. by rewrite Nat2Z.id, ascii_nat_embedding.
Qed.

Lemma bytes_of_length t : Z.of_nat (length (bytes_of t)) = text_len t.
Proof. unfold bytes_of, text_len. by rewrite length_fmap. Qed.

(** ** Packed files *)

Abbreviation files := (list (text * list Z)).

Definition pack_file (x : text * list Z) : list Z :=
  le32 (text_len x.1) ++ le32 (Z.of_nat (length x.2)) ++ bytes_of x.1 ++ x.2.
Definition pack (fs : files) : list Z := concat (pack_file <$> fs).

Definition file_ok (x : text * list Z) : Prop := x.1 ≠ [] ∧ no_nul x.1 ∧ text_len x.1 <= 255.

Lemma pack_cons x fs : pack (x :: fs) = pack_file x ++ pack fs.
Proof. done. Qed.

Lemma pack_app fs1 fs2 : pack (fs1 ++ fs2) = pack fs1 ++ pack fs2.
Proof. unfold pack. by rewrite fmap_app, concat_app. Qed.

Lemma pack_file_length x : Z.of_nat (length (pack_file x)) = 8 + text_len x.1 + Z.of_nat (length x.2).
Proof. unfold pack_file. rewrite !length_app, !Nat2Z.inj_add, bytes_of_length. cbn [length le32]. lia. Qed.

Lemma text_len_nonneg t : 0 <= text_len t.
Proof. unfold text_len. lia. Qed.

(** ** The directories above a file *)

Section parents.
Context {F : Type} `{HF : FileSystem F}.

(** The directories above a path. *)
Definition above (p : text) : list text :=
  let cs := components p in (λ k, render (take k cs)) <$> seq 1 (length cs - 1).

Lemma written_char cs acc c : written cs acc ++ [c] = written cs (acc ++ [c]).
Proof. unfold written. by rewrite <- app_assoc. Qed.

Lemma make_parents_component c : ∀ f cs acc rest,
  slash ∉ c → text_len (written cs (acc ++ c)) < 256 →
  make_parents f (written cs acc) (c ++ rest) = make_parents f (written cs (acc ++ c)) rest.
Proof.
  induction c as [|x c IH]; intros f cs acc rest Hc Hl; [by rewrite app_nil_r|]. cbn [app make_parents].
  rewrite (proj2 (Ascii.eqb_neq x slash)) by set_solver.
  assert (text_len (written cs acc) + 1 < 256) as Hl'.
  { unfold text_len, written in *. rewrite !length_app in *. cbn [length] in *. rewrite length_app in Hl. cbn [length] in Hl. lia. }
  rewrite (proj2 (Z.ltb_lt _ _) Hl'), written_char, IH; [by rewrite <- app_assoc|set_solver|by rewrite <- app_assoc].
Qed.

Lemma written_render cs c : written cs c = render (cs ++ [c]).
Proof. by rewrite render_snoc. Qed.

(** [make_parents] makes the directories of all proper prefixes, in order. *)
Lemma make_parents_above ds : ∀ f cs,
  ds ≠ [] → Forall component_ok (cs ++ ds) → text_len (render (cs ++ ds)) < 255 →
  make_parents f (written cs []) (drop 1 (render ds)) =
  fold_left (λ f q, (fs_md f q).2) ((λ k, render (cs ++ take k ds)) <$> seq 1 (length ds - 1)) f.
Proof.
  induction ds as [|d ds IH]; intros f cs Hne Hok Hl; [done|]. clear Hne.
  apply Forall_app in Hok as [Hcs Hds]. apply Forall_cons in Hds as [[Hd0 Hd] Hds]. rewrite render_cons. cbn [drop]. rewrite drop_0.
  assert (text_len (written cs d) + Z.of_nat (length (concat ((λ c, slash :: c) <$> ds))) = text_len (render (cs ++ d :: ds))) as Hlen.
  { replace (cs ++ d :: ds) with ((cs ++ [d]) ++ ds) by by rewrite <- app_assoc. rewrite written_render. unfold text_len.
    destruct cs as [|c0 cs]; cbn [app]; unfold render; rewrite ?fmap_app, ?concat_app; cbn [fmap list_fmap concat];
      rewrite ?fmap_app, ?concat_app, ?length_app; cbn [fmap list_fmap concat length]; rewrite ?length_app; cbn [length]; lia. }
  rewrite (make_parents_component d f cs []) by (done || cbn [app]; lia). cbn [app]. destruct ds as [|e ds].
  { cbn [fmap list_fmap concat make_parents length]. done. }
  cbn [fmap list_fmap concat app make_parents]. replace (Ascii.eqb slash slash) with true by done. cbv iota.
  assert (text_len (written cs d) + 1 < 256) as Hl' by (cbn [fmap list_fmap concat length app] in Hlen; lia).
  rewrite (proj2 (Z.ltb_lt _ _) Hl'), <- written_snoc by done. destruct (fs_md f (written cs d)) as [r f1] eqn:Em.
  specialize (IH f1 (cs ++ [d]) ltac:(done)). rewrite render_cons in IH. cbn [drop] in IH. rewrite drop_0 in IH. rewrite IH.
  - cbn [length]. replace (S (S (length ds)) - 1)%nat with (S (length ds)) by lia. cbn [seq fmap list_fmap fold_left].
    change (take 1 (d :: e :: ds)) with [d]. rewrite <- written_render, Em. cbn [snd]. f_equal. rewrite <- (fmap_S_seq 1), <- list_fmap_compose.
    replace (S (length ds) - 1)%nat with (length ds) by lia. apply list_fmap_ext. intros i k _. unfold compose. cbn [take].
    by rewrite <- app_assoc.
  - rewrite <- app_assoc. apply Forall_app. split; [done|]. by constructor.
  - by rewrite <- app_assoc.
Qed.

Lemma restore_file_above f p d : canonical p → text_len p < 64 → p ≠ [slash] →
  restore_file f p d =
  let f1 := fold_left (λ f q, (fs_md f q).2) (above p) f in
  let '(ofd, f2) := fs_open f1 p replace_flags in
  if 0 <=? ofd then '(_, f3) ← fs_write f2 ofd (Some d); Done (fs_close f3 ofd).2 else Done f2.
Proof.
  intros (cs & Hcs & ->) Hl Hne. unfold above. rewrite components_render by done. destruct cs as [|c cs]; [done|].
  unfold restore_file. rewrite render_cons at 1. change [slash] with (written [] []) at 1.
  pose proof (make_parents_above (c :: cs) f [] ltac:(done) Hcs ltac:(cbn [app]; lia)) as E. rewrite render_cons in E. cbn [drop app] in E. rewrite drop_0 in E.
  rewrite E. cbn zeta. destruct (fs_open _ _ _) as [ofd f2]. destruct (0 <=? ofd); [|done].
  destruct (fs_write f2 ofd (Some d)) as [[n f3]| |]; cbn [mbind outcome_bind]; [|done..]. by destruct (fs_close f3 ofd).
Qed.
End parents.

Section snapshot_spec.
Context {H F : Type} `{HD : Disks H} `{!DisksLaws H} `{HF : FileSystem F} (driver : nat → BlockDevice) (ide : nat).
Context (new_bytes : Z → option (list Z)).

(** ** Restoring what was packed *)

Fixpoint restore_list (f : F) (fs : files) : outcome F :=
  match fs with
  | [] => Done f
  | x :: fs' => f ← restore_file f x.1 x.2; restore_list f fs'
  end.

(** The fields of a packed file at [po]. *)
Lemma packed_fields pre p d suf :
  text_len p < 4294967296 → Z.of_nat (length d) < 4294967296 →
  let buf := pre ++ pack_file (p, d) ++ suf in
  let po := Z.of_nat (length pre) in
  word32 buf po = text_len p ∧ word32 buf (po + 4) = Z.of_nat (length d) ∧
  slice buf (po + 8) (text_len p) = bytes_of p ∧ slice buf (po + 8 + text_len p) (Z.of_nat (length d)) = d.
Proof.
  intros Hp Hd. pose proof (text_len_nonneg p). cbn zeta. unfold pack_file. cbn [fst snd]. rewrite <- !app_assoc. split_and!.
  - apply word32_le32. lia.
  - rewrite (app_assoc pre). replace (Z.of_nat (length pre) + 4) with (Z.of_nat (length (pre ++ le32 (text_len p))))
      by (rewrite length_app; cbn; lia). apply word32_le32. lia.
  - rewrite (app_assoc pre), (app_assoc (pre ++ _)). apply slice_app; [rewrite !length_app; cbn; lia|].
    by rewrite bytes_of_length.
  - rewrite (app_assoc pre), (app_assoc (pre ++ _)), (app_assoc ((pre ++ _) ++ _)). apply slice_app; [|done].
    rewrite !length_app, !Nat2Z.inj_add, bytes_of_length. cbn [length le32]. lia.
Qed.

Lemma restore_files_pack fs : ∀ fuel f pre k total,
  Forall file_ok fs → (length fs < fuel)%nat → total = Z.of_nat (length (pre ++ pack fs ++ replicate k 0)) → total + 8 < 4294967296 →
  restore_files fuel f (pre ++ pack fs ++ replicate k 0) total (Z.of_nat (length pre)) = restore_list f fs.
Proof.
  induction fs as [|[p d] fs IH]; intros fuel f pre k total Hok Hfuel Ht Hmax; (destruct fuel as [|fuel]; [cbn in Hfuel; lia|]);
    cbn [restore_files].
  - cbn [pack fmap list_fmap concat app] in *. rewrite length_app, length_replicate in Ht. rewrite u32_small by lia.
    destruct (total <? _) eqn:E; [done|]. zbool. rewrite word32_zeros by lia. done.
  - apply Forall_cons in Hok as [(Hne & Hnul & Hlen) Hok]. cbn [fst snd] in *. rewrite pack_cons, <- app_assoc in *.
    assert (total = Z.of_nat (length pre) + (8 + text_len p + Z.of_nat (length d)) + Z.of_nat (length (pack fs ++ replicate k 0))) as Htot
      by (rewrite Ht, !length_app, !Nat2Z.inj_add, pack_file_length; cbn [fst snd]; lia).
    pose proof (text_len_nonneg p) as Hp0.
    destruct (packed_fields pre p d (pack fs ++ replicate k 0)) as (E1 & E2 & E3 & E4); [lia..|].
    rewrite (u32_small (_ + 8)) by lia. rewrite (proj2 (Z.ltb_ge _ _)), E1, E2 by lia.
    rewrite (u32_small (_ + text_len p)), (u32_small (_ + Z.of_nat (length d))) by lia.
    assert (text_len p ≠ 0) as Hp1 by (destruct p; [done|unfold text_len; cbn; lia]).
    rewrite (proj2 (Z.eqb_neq _ _)), (proj2 (Z.ltb_ge _ _)) by lia. cbn [orb].
    assert ((if text_len p <? 255 then text_len p else 255) = text_len p) as -> by (destruct (_ <? _) eqn:E; zbool; lia).
    rewrite E3, E4, text_of_bytes by done. cbn [restore_list fst snd]. destruct (restore_file f p d); [|done..]. cbn [mbind outcome_bind].
    specialize (IH fuel a (pre ++ pack_file (p, d)) k total Hok ltac:(cbn in Hfuel; lia)). rewrite <- app_assoc in IH.
    rewrite <- IH; [|done|done]. f_equal. rewrite length_app, Nat2Z.inj_add, pack_file_length. cbn [fst snd]. lia.
Qed.

(** ** The traversal *)

(** The pieces of a file, all of the length [read] reports. *)
Fixpoint read_exact (fuel : nat) (f : F) (fd : Z) : outcome (list Z * F) :=
  match fuel with
  | O => Diverges
  | S fuel' =>
      let '(n, bs, f) := fs_read f fd 512 in
      if n =? 0 then Done ([], f)
      else if (n <? 0) || negb (n =? Z.of_nat (length bs)) then Diverges
      else '(rest, f) ← read_exact fuel' f fd; Done (bs ++ rest, f)
  end.

Fixpoint walk_entries (dir : F → text → outcome (files * F)) (fuel : nat) (path : text) (es : list DirEntry) (f : F)
    : outcome (files * F) :=
  match es with
  | [] => Done ([], f)
  | e :: es' =>
      let child := child_path path (de_name e) in
      if de_is_directory e then
        '(fs1, f) ← dir f child; '(fs2, f) ← walk_entries dir fuel path es' f; Done (fs1 ++ fs2, f)
      else
        let '(fd, f) := fs_open f child kOpenRead in
        if fd <? 0 then walk_entries dir fuel path es' f
        else
          '(bs, f) ← read_exact fuel f fd;
          '(fs2, f) ← walk_entries dir fuel path es' (fs_close f fd).2; Done ((child, bs) :: fs2, f)
  end.

(** The files below a path with their contents, directories left out. *)
Fixpoint walk (fuel : nat) (f : F) (path : text) : outcome (files * F) :=
  match fuel with
  | O => Diverges
  | S fuel' =>
      let '(cnt, entries, f) := fs_readdir f path 64 in
      if cnt <? 0 then Done ([], f) else walk_entries (walk fuel') fuel' path (take (Z.to_nat cnt) entries) f
  end.

Lemma outcome_bind_Done {A B} (o : outcome A) (g : A → outcome B) b :
  o ≫= g = Done b ↔ ∃ a, o = Done a ∧ g a = Done b.
Proof. destruct o; cbn; split; [by eauto|by intros (? & [= ->] & ?)|done|by intros (? & ? & _)|done|by intros (? & ? & _)]. Qed.

Lemma read_all_exact fuel : ∀ f fd bs f', read_exact fuel f fd = Done (bs, f') → read_all fuel f fd = Done (Some bs, f').
Proof.
  induction fuel as [|fuel IH]; intros f fd bs f'; cbn [read_exact read_all]; [done|].
  destruct (fs_read f fd 512) as [[n x] f1]. destruct (n =? 0) eqn:E0; zbool.
  { intros [= <- <-]. by rewrite E0. }
  destruct ((n <? 0) || _) eqn:E; [done|]. apply orb_false_iff in E as [-> En]. apply negb_false_iff, Z.eqb_eq in En.
  intros ([rest f2] & Hr & [= <- <-])%outcome_bind_Done. rewrite (IH _ _ _ _ Hr). cbn [mbind outcome_bind].
  by rewrite take_ge by lia.
Qed.

(** ** First pass *)

Definition packed (fs : files) : Z := Z.of_nat (length (pack fs)).

Lemma packed_cons x fs : packed (x :: fs) = 8 + text_len x.1 + Z.of_nat (length x.2) + packed fs.
Proof. unfold packed. rewrite pack_cons, length_app, Nat2Z.inj_add, pack_file_length. lia. Qed.

Lemma packed_app fs1 fs2 : packed (fs1 ++ fs2) = packed fs1 + packed fs2.
Proof. unfold packed. rewrite pack_app, length_app. lia. Qed.

Lemma packed_nonneg fs : 0 <= packed fs.
Proof. unfold packed. lia. Qed.

Lemma compute_entries_walk (dirw : F → text → outcome (files * F)) dirc fuel path :
  (∀ f p fs f' total, dirw f p = Done (fs, f') → 0 <= total → total + packed fs < 4294967296 →
     dirc f p total = Done (true, total + packed fs, f')) →
  ∀ es f fs f' total, walk_entries dirw fuel path es f = Done (fs, f') → 0 <= total → total + packed fs < 4294967296 →
    compute_entries dirc fuel path es total f = Done (true, total + packed fs, f').
Proof.
  intros Hdir. induction es as [|e es IH]; intros f fs f' total; cbn [walk_entries compute_entries].
  { intros [= <- <-] _ _. change (packed []) with 0. by rewrite Z.add_0_r. }
  destruct (de_is_directory e).
  - intros ([fs1 f1] & H1 & ([fs2 f2] & H2 & [= <- <-])%outcome_bind_Done)%outcome_bind_Done H0 Hmax.
    rewrite packed_app in *. pose proof (packed_nonneg fs1). pose proof (packed_nonneg fs2).
    rewrite (Hdir _ _ _ _ _ H1) by lia. cbn [mbind outcome_bind]. rewrite (IH _ _ _ _ H2) by lia. by rewrite Z.add_assoc.
  - destruct (fs_open f _ kOpenRead) as [fd f1]. destruct (fd <? 0); [apply IH|].
    intros ([bs f2] & H1 & ([fs2 f3] & H2 & [= <- <-])%outcome_bind_Done)%outcome_bind_Done H0 Hmax.
    rewrite (read_all_exact _ _ _ _ _ H1). cbn [mbind outcome_bind]. rewrite packed_cons in *. cbn [fst snd] in *.
    pose proof (packed_nonneg fs2). pose proof (text_len_nonneg (child_path path (de_name e))).
    rewrite (u32_small (8 + _)), (u32_small (_ + Z.of_nat (length bs))), (u32_small (total + _)) by lia.
    rewrite (IH _ _ _ _ H2) by lia. do 3 f_equal. lia.
Qed.

Lemma compute_walk fuel : ∀ f path fs f' total,
  walk fuel f path = Done (fs, f') → 0 <= total → total + packed fs < 4294967296 →
  compute fuel f path total = Done (true, total + packed fs, f').
Proof.
  induction fuel as [|fuel IH]; intros f path fs f' total; cbn [walk compute]; [done|].
  destruct (fs_readdir f path 64) as [[cnt es] f1]. destruct (cnt <? 0).
  - intros [= <- <-] _ _. change (packed []) with 0. by rewrite Z.add_0_r.
  - by apply compute_entries_walk.
Qed.

(** ** Second pass *)

Lemma fill_data_exact fuel : ∀ f fd bs f' pre rest size,
  read_exact fuel f fd = Done (bs, f') → size = Z.of_nat (length (pre ++ rest)) → size < 4294967296 → (length bs <= length rest)%nat →
  fill_data fuel f fd (pre ++ rest) size (Z.of_nat (length pre)) =
  Done (Some (pre ++ bs ++ drop (length bs) rest, Z.of_nat (length pre) + Z.of_nat (length bs)), f').
Proof.
  induction fuel as [|fuel IH]; intros f fd bs f' pre rest size; cbn [read_exact fill_data]; [done|].
  destruct (fs_read f fd 512) as [[n x] f1]. destruct (n =? 0) eqn:E0; zbool.
  { intros [= <- <-] _ _ _. rewrite E0. change (0 <? 0) with false. cbn [app drop length]. by rewrite Z.add_0_r. }
  destruct ((n <? 0) || _) eqn:E; [done|]. apply orb_false_iff in E as [-> En]. apply negb_false_iff, Z.eqb_eq in En.
  intros ([tl f2] & Hr & [= <- <-])%outcome_bind_Done Hsize Hmax Hl. rewrite length_app in Hl, Hsize.
  rewrite (u32_small (_ + n)), (proj2 (Z.ltb_ge _ _)), take_ge, splice_rest by lia.
  specialize (IH f1 fd tl f2 (pre ++ x) (drop (length x) rest) size Hr).
  rewrite !length_app, length_drop, <- !app_assoc in IH. replace (Z.of_nat (length pre) + n) with (Z.of_nat (length pre + length x)) by lia.
  rewrite IH by lia. rewrite drop_drop, length_app, <- app_assoc, Nat2Z.inj_add, Nat2Z.inj_add, Z.add_assoc. done.
Qed.

(** The writes of one file. *)
Lemma fill_file pre rest child bs fuel f fd f' size :
  read_exact fuel f fd = Done (bs, f') → size = Z.of_nat (length (pre ++ rest)) → size < 4294967296 →
  8 + text_len child + Z.of_nat (length bs) <= Z.of_nat (length rest) →
  let off := Z.of_nat (length pre) in
  let off1 := (off +u 8) +u text_len child in
  let p1 := splice (splice (pre ++ rest) off (le32 (text_len child) ++ le32 0)) (off + 8) (bytes_of child) in
  off1 = off + 8 + text_len child ∧
  ∃ p2, fill_data fuel f fd p1 size off1 = Done (Some (p2, off1 + Z.of_nat (length bs)), f') ∧
    splice p2 (off + 4) (le32 ((off1 + Z.of_nat (length bs)) -u off1)) =
      pre ++ pack_file (child, bs) ++ drop (length (pack_file (child, bs))) rest.
Proof.
  intros Hr Hsize Hmax Hl. pose proof (text_len_nonneg child) as Hc. pose proof (bytes_of_length child) as Hbl.
  rewrite length_app in Hsize. cbn zeta.
  assert ((Z.of_nat (length pre) +u 8) +u text_len child = Z.of_nat (length pre) + 8 + text_len child) as Eo
    by (rewrite (u32_small (_ + 8)) by lia; apply u32_small; lia).
  rewrite Eo. split; [done|].
  rewrite splice_rest by (cbn [length app le32]; lia). rewrite (app_assoc pre).
  rewrite splice_rest by (rewrite ?length_app, ?length_drop; cbn [length app le32]; lia). rewrite drop_drop, (app_assoc (pre ++ _)).
  set (pre2 := (pre ++ le32 (text_len child) ++ le32 0) ++ bytes_of child).
  set (k := (length (le32 (text_len child) ++ le32 0) + length (bytes_of child))%nat).
  assert (Z.of_nat (length pre2) = Z.of_nat (length pre) + 8 + text_len child) as Hpre2
    by (unfold pre2; rewrite !length_app, !Nat2Z.inj_add, Hbl; cbn [length le32]; lia).
  assert (Z.of_nat k = 8 + text_len child) as Hk by (unfold k; rewrite length_app; cbn [length le32]; lia).
  eexists. split.
  - rewrite <- Hpre2. apply fill_data_exact; [done| |done|]; rewrite ?length_app, length_drop; lia.
  - replace (Z.of_nat (length pre) + 8 + text_len child + Z.of_nat (length bs) - (Z.of_nat (length pre) + 8 + text_len child))
      with (Z.of_nat (length bs)) by lia. rewrite (u32_small (Z.of_nat (length bs))) by lia.
    unfold pre2, pack_file. cbn [fst snd]. rewrite <- !app_assoc, (app_assoc pre).
    rewrite (splice_app _ (le32 0)); [|rewrite length_app; cbn [length le32]; lia|done]. rewrite <- !app_assoc.
    do 5 f_equal. rewrite drop_drop. f_equal. unfold k. rewrite !length_app. cbn [length le32]. lia.
Qed.

(** What [fill] leaves: the packed files from [off] on. *)
Definition filled_with (pre rest : list Z) (fs : files) (f' : F) : outcome (bool * list Z * Z * F) :=
  Done (true, pre ++ pack fs ++ drop (length (pack fs)) rest, Z.of_nat (length pre) + packed fs, f').

Lemma filled_with_step pre rest x fs f' :
  packed (x :: fs) <= Z.of_nat (length rest) →
  filled_with (pre ++ pack_file x) (drop (length (pack_file x)) rest) fs f' = filled_with pre rest (x :: fs) f'.
Proof.
  intros Hl. unfold filled_with. rewrite pack_cons, packed_cons, drop_drop, !length_app, <- !app_assoc, Nat2Z.inj_add, pack_file_length.
  do 3 f_equal. lia.
Qed.

Lemma fill_entries_walk dirw dirf fuel path size :
  (∀ f p fs f' pre rest, dirw f p = Done (fs, f') → size = Z.of_nat (length (pre ++ rest)) → packed fs <= Z.of_nat (length rest) →
     dirf f p (pre ++ rest) (Z.of_nat (length pre)) = filled_with pre rest fs f') → size < 4294967296 →
  ∀ es f fs f' pre rest, walk_entries dirw fuel path es f = Done (fs, f') → size = Z.of_nat (length (pre ++ rest)) →
    packed fs <= Z.of_nat (length rest) → fill_entries dirf fuel path size es (pre ++ rest) (Z.of_nat (length pre)) f = filled_with pre rest fs f'.
Proof.
  intros Hdir Hmax. induction es as [|e es IH]; intros f fs f' pre rest; cbn [walk_entries fill_entries].
  { intros [= <- <-] _ _. unfold filled_with. change (pack []) with (@nil Z). change (packed []) with 0. cbn [app drop length]. by rewrite Z.add_0_r. }
  destruct (de_is_directory e).
  - intros ([fs1 f1] & H1 & ([fs2 f2] & H2 & [= <- <-])%outcome_bind_Done)%outcome_bind_Done Hsize Hl.
    rewrite packed_app in Hl. pose proof (packed_nonneg fs2). rewrite (Hdir _ _ _ _ _ _ H1 Hsize) by lia. unfold filled_with at 1. cbn [mbind outcome_bind].
    rewrite app_assoc. rewrite length_app in Hsize.
    replace (Z.of_nat (length pre) + packed fs1) with (Z.of_nat (length (pre ++ pack fs1))) by (rewrite length_app; unfold packed; lia).
    rewrite (IH _ _ _ (pre ++ pack fs1) _ H2); [|rewrite !length_app, length_drop; unfold packed in *; lia|rewrite length_drop; unfold packed in *; lia].
    unfold filled_with. rewrite pack_app, packed_app, drop_drop, !length_app, <- !app_assoc, Nat2Z.inj_add. do 3 f_equal. unfold packed. lia.
  - destruct (fs_open f _ kOpenRead) as [fd f1]. destruct (fd <? 0); [apply IH|].
    intros ([bs f2] & H1 & ([fs2 f3] & H2 & [= <- <-])%outcome_bind_Done)%outcome_bind_Done Hsize Hl.
    set (child := child_path path (de_name e)) in *. pose proof Hl as Hl0. rewrite packed_cons in Hl. cbn [fst snd] in Hl. pose proof (packed_nonneg fs2).
    destruct (fill_file pre rest child bs fuel f1 fd f2 size H1 Hsize Hmax ltac:(lia)) as (Eo & p2 & Ef & Ep). rewrite length_app in Hsize.
    rewrite Eo in *. rewrite (proj2 (Z.ltb_ge _ _)) by lia. rewrite Ef. cbn [mbind outcome_bind]. rewrite Ep, app_assoc.
    replace (Z.of_nat (length pre) + 8 + text_len child + Z.of_nat (length bs)) with (Z.of_nat (length (pre ++ pack_file (child, bs))))
      by (rewrite length_app, Nat2Z.inj_add, pack_file_length; cbn [fst snd]; lia).
    pose proof (pack_file_length (child, bs)) as Hpf. cbn [fst snd] in Hpf.
    rewrite (IH _ _ _ (pre ++ pack_file (child, bs)) _ H2); [by apply filled_with_step|..];
      rewrite ?length_app, ?length_drop; lia.
Qed.

Lemma fill_walk fuel size : ∀ f path fs f' pre rest,
  walk fuel f path = Done (fs, f') → size = Z.of_nat (length (pre ++ rest)) → size < 4294967296 → packed fs <= Z.of_nat (length rest) →
  fill fuel size f path (pre ++ rest) (Z.of_nat (length pre)) = filled_with pre rest fs f'.
Proof.
  induction fuel as [|fuel IH]; intros f path fs f' pre rest; cbn [walk fill]; [done|].
  destruct (fs_readdir f path 64) as [[cnt es] f1]. destruct (cnt <? 0).
  - intros [= <- <-] _ _ _. unfold filled_with. change (pack []) with (@nil Z). change (packed []) with 0. cbn [app drop length]. by rewrite Z.add_0_r.
  - intros Hw Hs Hm Hp. eapply fill_entries_walk; [|done|done|done|done]. intros. by apply IH.
Qed.

(** ** The index *)

Definition enc_entry (e : IndexEntry) : list Z :=
  le32 (text_len (ie_name e)) ++ le32 (ie_start e) ++ le32 (ie_sectors e) ++ bytes_of (ie_name e).
Definition enc_index (es : list IndexEntry) : list Z := concat (enc_entry <$> es).

Record entry_ok (e : IndexEntry) : Prop := {
  eo_name : ie_name e ≠ [] ∧ no_nul (ie_name e) ∧ text_len (ie_name e) <= 127;
  eo_start : 0 <= ie_start e < 4294967296;
  eo_sectors : 0 <= ie_sectors e < 4294967296;
}.

(** The index sector lists [es]. *)
Definition index_ok (buf : list Z) (es : list IndexEntry) : Prop :=
  is_sector buf ∧ Forall entry_ok es ∧ ∃ suf, buf = le32 (Z.of_nat (length es)) ++ enc_index es ++ suf.

Lemma enc_entry_length e : Z.of_nat (length (enc_entry e)) = 12 + text_len (ie_name e).
Proof. unfold enc_entry. rewrite !length_app, !Nat2Z.inj_add, bytes_of_length. cbn [length le32]. lia. Qed.

Lemma enc_entry_fields pre e suf :
  entry_ok e → let buf := pre ++ enc_entry e ++ suf in let off := Z.of_nat (length pre) in
  word32 buf off = text_len (ie_name e) ∧ word32 buf (off + 4) = ie_start e ∧ word32 buf (off + 8) = ie_sectors e ∧
  slice buf (off + 12) (text_len (ie_name e)) = bytes_of (ie_name e).
Proof.
  intros [(Hne & Hn & Hl) Hs Hc]. pose proof (text_len_nonneg (ie_name e)). cbn zeta. unfold enc_entry. rewrite <- !app_assoc.
  split_and!.
  - apply word32_le32. lia.
  - rewrite (app_assoc pre). replace (Z.of_nat (length pre) + 4) with (Z.of_nat (length (pre ++ le32 (text_len (ie_name e)))))
      by (rewrite length_app; cbn; lia). by apply word32_le32.
  - rewrite (app_assoc pre), (app_assoc (pre ++ _)).
    replace (Z.of_nat (length pre) + 8) with (Z.of_nat (length ((pre ++ le32 (text_len (ie_name e))) ++ le32 (ie_start e))))
      by (rewrite !length_app; cbn; lia). by apply word32_le32.
  - rewrite (app_assoc pre), (app_assoc (pre ++ _)), (app_assoc ((pre ++ _) ++ _)). apply slice_app; [|by rewrite bytes_of_length].
    rewrite !length_app. cbn; lia.
Qed.

Lemma skip_entries_enc es : ∀ pre suf,
  Forall entry_ok es → Z.of_nat (length (pre ++ enc_index es ++ suf)) <= 512 →
  skip_entries (length es) (pre ++ enc_index es ++ suf) (Z.of_nat (length pre)) = Some (Z.of_nat (length pre + length (enc_index es))).
Proof.
  induction es as [|e es IH]; intros pre suf Hok Hl; cbn [length skip_entries].
  { change (enc_index []) with (@nil Z). by rewrite Nat.add_0_r. }
  apply Forall_cons in Hok as [He Hok]. change (enc_index (e :: es)) with (enc_entry e ++ enc_index es) in *. rewrite <- app_assoc in *.
  destruct (enc_entry_fields pre e (enc_index es ++ suf) He) as (E1 & _).
  pose proof (enc_entry_length e) as Hel. pose proof (text_len_nonneg (ie_name e)). rewrite !length_app in *.
  rewrite (u32_small (_ + 12)), (proj2 (Z.ltb_ge _ _)), E1 by lia.
  rewrite (u32_small (12 + _)), (u32_small (_ + (12 + _))), (proj2 (Z.ltb_ge _ _)) by lia.
  specialize (IH (pre ++ enc_entry e) suf Hok). rewrite !length_app, <- app_assoc in IH.
  replace (Z.of_nat (length pre) + (12 + text_len (ie_name e))) with (Z.of_nat (length pre + length (enc_entry e))) by lia.
  rewrite IH by lia. f_equal. lia.
Qed.

(** The reader finds what was encoded. *)
Lemma index_entries_enc es : ∀ pre suf,
  Forall entry_ok es → Z.of_nat (length (pre ++ enc_index es ++ suf)) <= 512 →
  index_entries (length es) (pre ++ enc_index es ++ suf) (Z.of_nat (length pre)) = es.
Proof.
  induction es as [|e es IH]; intros pre suf Hok Hl; cbn [length index_entries]; [done|].
  apply Forall_cons in Hok as [He Hok]. change (enc_index (e :: es)) with (enc_entry e ++ enc_index es) in *. rewrite <- app_assoc in *.
  destruct (enc_entry_fields pre e (enc_index es ++ suf) He) as (E1 & E2 & E3 & E4). destruct He as [(Hne & Hn & Hl127) _ _].
  pose proof (enc_entry_length e) as Hel. rewrite !length_app in *.
  assert (0 < text_len (ie_name e)) by (destruct (ie_name e); [done|unfold text_len; cbn; lia]).
  rewrite (u32_small (_ + 12)), (proj2 (Z.ltb_ge _ _)), E1, E2, E3 by lia.
  rewrite (u32_small (_ + text_len _)), (proj2 (Z.eqb_neq _ _)), (proj2 (Z.ltb_ge _ _)) by lia. cbn [orb].
  assert ((if text_len (ie_name e) <? 127 then text_len (ie_name e) else 127) = text_len (ie_name e)) as ->
    by (destruct (_ <? _) eqn:E; zbool; lia).
  rewrite E4, text_of_bytes by done. specialize (IH (pre ++ enc_entry e) suf Hok). rewrite !length_app, <- app_assoc in IH.
  replace (Z.of_nat (length pre) + 12 + text_len (ie_name e)) with (Z.of_nat (length pre + length (enc_entry e))) by lia.
  rewrite IH by lia. by destruct e.
Qed.

Lemma index_ok_entries buf es : index_ok buf es → index_entries (Z.to_nat (word32 buf 0)) buf 4 = es.
Proof.
  intros ([Hl _] & Hok & suf & ->).
  assert (Z.of_nat (length es) <= Z.of_nat (length (enc_index es))) as Hcount.
  { clear -Hok. induction Hok as [|e es _ _ IH]; [done|]. change (enc_index (e :: es)) with (enc_entry e ++ enc_index es).
    rewrite length_app. pose proof (enc_entry_length e). pose proof (text_len_nonneg (ie_name e)). cbn [length]. lia. }
  rewrite !length_app in Hl. cbn [length le32] in Hl. pose proof (word32_le32 [] (Z.of_nat (length es)) (enc_index es ++ suf) ltac:(lia)) as E.
  cbn [app length] in E. change (Z.of_nat 0) with 0 in E. rewrite E, Nat2Z.id.
  apply (index_entries_enc es (le32 (Z.of_nat (length es))) suf Hok). rewrite !length_app. cbn [length le32]. lia.
Qed.

Lemma enc_entry_bytes e : Forall (λ b, 0 <= b < 256) (enc_entry e).
Proof. unfold enc_entry. repeat apply Forall_app_2; try apply le32_bytes. apply bytes_of_range. Qed.

Lemma blank_index : index_ok (replicate 512 0) [].
Proof.
  split; [split; [done|apply (Forall_replicate _ 512 0); lia]|]. split; [constructor|]. by exists (replicate 508 0).
Qed.

(** ** Adding to the index *)

Definition index_size (es : list IndexEntry) : Z := 4 + Z.of_nat (length (enc_index es)).

Lemma index_size_app es e : index_size (es ++ [e]) = index_size es + (12 + text_len (ie_name e)).
Proof.
  unfold index_size, enc_index. rewrite fmap_app, concat_app, length_app. cbn [fmap list_fmap concat]. rewrite app_nil_r.
  pose proof (enc_entry_length e). lia.
Qed.

Lemma enc_index_count es : Z.of_nat (length es) <= Z.of_nat (length (enc_index es)).
Proof.
  induction es as [|e es IH]; [done|]. change (enc_index (e :: es)) with (enc_entry e ++ enc_index es).
  rewrite length_app. pose proof (enc_entry_length e). pose proof (text_len_nonneg (ie_name e)). cbn [length]. lia.
Qed.

(** The three stores of [storage_add_index_entry] append an encoded entry. *)
Lemma index_append es e suf :
  index_size (es ++ [e]) <= 512 → Z.of_nat (length (le32 (Z.of_nat (length es)) ++ enc_index es ++ suf)) = 512 →
  let buf := le32 (Z.of_nat (length es)) ++ enc_index es ++ suf in
  let off := index_size es in
  splice (splice (splice buf off (le32 (text_len (ie_name e)) ++ le32 (ie_start e) ++ le32 (ie_sectors e))) (off + 12)
    (bytes_of (ie_name e))) 0 (le32 (Z.of_nat (length es) +u 1)) =
  le32 (Z.of_nat (length (es ++ [e]))) ++ enc_index (es ++ [e]) ++ drop (length (enc_entry e)) suf.
Proof.
  rewrite index_size_app. unfold index_size. intros Hroom Hl. cbn zeta.
  pose proof (enc_entry_length e) as He. pose proof (enc_index_count es) as Hc. pose proof (bytes_of_length (ie_name e)) as Hb.
  rewrite !length_app in Hl. cbn [length le32] in Hl. rewrite (app_assoc (le32 _)).
  rewrite splice_rest by (rewrite ?length_app; cbn [length app le32]; lia). rewrite (app_assoc (le32 _ ++ _)).
  rewrite splice_rest by (rewrite ?length_app, ?length_drop; cbn [length app le32]; lia). rewrite drop_drop.
  rewrite <- !app_assoc. change (le32 (Z.of_nat (length es)) ++ ?x) with ([] ++ le32 (Z.of_nat (length es)) ++ x).
  rewrite splice_app by done. cbn [app]. rewrite u32_small by lia.
  replace (Z.of_nat (length (es ++ [e]))) with (Z.of_nat (length es) + 1) by (rewrite length_app; cbn [length]; lia).
  unfold enc_index. rewrite fmap_app, concat_app. cbn [fmap list_fmap concat]. rewrite app_nil_r, <- !app_assoc. unfold enc_entry.
  by rewrite <- !app_assoc.
Qed.

(** An entry goes to the end of the index when it fits; an index that cannot be
    read is taken for an empty one. *)
Lemma add_index_ok s d off es e s' :
  on_disk ide s d off → index_ok (sector_at s d (off + INDEX_LBA)) es → entry_ok e → index_size (es ++ [e]) <= 512 →
  storage_add_index_entry driver ide s (ie_name e) (ie_start e) (ie_sectors e) = Some (true, s') →
  same_tables s s' ∧ sb s' = sb s ∧
  (∃ old, (old = es ∨ old = []) ∧ index_ok (sector_at s' d (off + INDEX_LBA)) (old ++ [e])) ∧
  (∀ l, l ≠ off + INDEX_LBA → sector_at s' d l = sector_at s d l).
Proof.
  intros Hon Hidx He Hroom. unfold storage_add_index_entry.
  destruct (storage_read_raw driver ide s INDEX_LBA 1) as [[r s1]|] eqn:Er; [|done]. cbn [mbind option_bind].
  destruct (read_raw_frame _ _ _ _ _ _ _ Er) as (Hst & Hsb & _ & Hsec).
  assert (∃ old, (old = es ∨ old = []) ∧ index_ok (default (replicate 512 0) r) old ∧ index_size (old ++ [e]) <= 512)
    as (old & Hold & Hok & Hroom').
  { destruct r as [bs|].
    - exists es. split_and!; [by left| |done]. cbn.
      destruct (read_raw_disk driver ide s d off INDEX_LBA 1 bs s1 Hon ltac:(unfold INDEX_LBA; lia) ltac:(lia) ltac:(unfold INDEX_LBA; lia) Er) as (_ & _ & _ & _ & ->).
      unfold range_at. by rewrite dk_range_1.
    - exists []. split_and!; [by right|apply blank_index|]. rewrite index_size_app in *. unfold index_size in *.
      change (enc_index []) with (@nil Z). cbn [length]. lia. }
  set (buf := default _ r) in *. clearbody buf. clear Hidx Hroom.
  destruct Hok as ([Hl Hby] & Hall & suf & ->). pose proof (enc_index_count old) as Hcnt.
  pose proof (index_size_app old e) as Hsz. unfold index_size in Hsz at 2. pose proof (text_len_nonneg (ie_name e)).
  pose proof (word32_le32 [] (Z.of_nat (length old)) (enc_index old ++ suf) ltac:(lia)) as Ew. cbn [app length] in Ew.
  change (Z.of_nat 0) with 0 in Ew. rewrite Ew, Nat2Z.id.
  pose proof (skip_entries_enc old (le32 (Z.of_nat (length old))) suf Hall ltac:(lia)) as Esk. cbn [length le32] in Esk.
  change (Z.of_nat 4) with 4 in Esk. rewrite Esk. clear Esk.
  replace (Z.of_nat (4 + length (enc_index old))) with (index_size old) by (unfold index_size; lia).
  rewrite (u32_small (12 + _)), (u32_small (index_size old + _)), (proj2 (Z.ltb_ge _ _)) by (unfold index_size in *; lia).
  rewrite (index_append old e suf Hroom') by lia.
  set (nb := le32 _ ++ _ ++ _).
  assert (index_ok nb (old ++ [e])) as Hnb.
  { split; [|split; [by apply Forall_app_2; [|constructor]|by eexists]]. split.
    - unfold nb. rewrite !length_app, length_drop. unfold enc_index. rewrite fmap_app, concat_app, length_app. cbn [fmap list_fmap concat].
      rewrite app_nil_r. fold (enc_index old). rewrite !length_app in Hl. cbn [length le32] in *. pose proof (enc_entry_length e). lia.
    - unfold nb. rewrite !Forall_app in Hby. destruct Hby as (_ & _ & Hsuf). repeat apply Forall_app_2; [apply le32_bytes| |by apply Forall_drop].
      apply Forall_concat, Forall_fmap, Forall_forall. intros x _. apply enc_entry_bytes. }
  intros Hw. destruct (dev_write_disk driver ide s1 d off INDEX_LBA nb _ _ (on_disk_same _ _ _ _ _ Hst Hon) ltac:(unfold INDEX_LBA; lia) (proj1 Hnb) Hw)
    as (Hst' & Hsb' & _ & Hfr & Hnew).
  split_and!; [by eapply same_tables_trans|congruence| |intros l Hne; rewrite (Hfr d l) by lia; apply Hsec].
  exists old. split; [done|]. by rewrite (Hnew eq_refl).
Qed.

(** ** Saving *)

(** The allocator returns blocks of the size asked for. *)
Definition allocates : Prop := ∀ n bs, 0 <= n → new_bytes n = Some bs → Z.of_nat (length bs) = n.

Definition bytes_ok (bs : list Z) : Prop := Forall (λ b, 0 <= b < 256) bs.

Lemma pack_bytes fs : Forall (λ x, bytes_ok x.2) fs → bytes_ok (pack fs).
Proof.
  intros Hall. apply Forall_concat, Forall_fmap. eapply Forall_impl; [exact Hall|]. intros [p d] Hd. unfold compose, pack_file.
  repeat apply Forall_app_2; [apply le32_bytes..|apply bytes_of_range|exact Hd].
Qed.

(** Both passes see the same files: the payload is their packed form and the
    snapshot comes to a [storage_write] and an index entry. *)
Lemma snapshot_save_walk fuel s f f1 f2 name fs s' fo :
  allocates → walk fuel f [slash] = Done (fs, f1) → walk fuel f1 [slash] = Done (fs, f2) → packed fs < 4294967296 →
  storage_snapshot_save driver ide new_bytes fuel s (Some f) (Some name) = Done (Some (true, s', fo)) →
  fo = Some f2 ∧ pack fs ≠ [] ∧ ∃ h s1, storage_write driver ide s (Some (pack fs)) = Some (Some h, s1) ∧
    storage_add_index_entry driver ide s1 name (start_lba h) (sectors h) = Some (true, s').
Proof.
  intros Hal Hw1 Hw2 Hmax. unfold storage_snapshot_save. destruct (g_storage_ready s); [|done].
  rewrite (compute_walk _ _ _ _ _ 0 Hw1) by lia. cbn [mbind outcome_bind negb orb]. rewrite Z.add_0_l.
  destruct (packed fs =? 0) eqn:E0; [done|]. destruct (new_bytes (packed fs)) as [payload|] eqn:Ea; [|done]. apply Hal in Ea; [|apply packed_nonneg].
  pose proof (fill_walk fuel (packed fs) _ _ _ _ [] payload Hw2 ltac:(cbn [app]; lia) Hmax ltac:(lia)) as Ef. cbn [app length] in Ef.
  change (Z.of_nat 0) with 0 in Ef. rewrite Ef. unfold filled_with. cbn [mbind outcome_bind negb app length]. change (Z.of_nat 0) with 0.
  rewrite Z.add_0_l. rewrite (drop_ge payload) by (unfold packed in Ea; lia). rewrite app_nil_r. unfold packed at 1. rewrite Nat2Z.id, firstn_all.
  intros Hs. apply (f_equal (λ o, match o with Done x => x | _ => None end)) in Hs.
  destruct (storage_write driver ide s (Some (pack fs))) as [[[h|] s1]|] eqn:Ew; [|done..].
  destruct (storage_add_index_entry driver ide s1 name _ _) as [[ok s2]|] eqn:Ei; [|done]. injection Hs as -> -> <-.
  split_and!; [done| |by eauto]. intros Hn. unfold packed in E0. rewrite Hn in E0. done.
Qed.

(** The entry a snapshot of [fs] gets. *)
Definition snapshot_entry (s : @storage H) (name : text) (fs : files) : IndexEntry :=
  mk_entry name (next_free_lba (sb s)) (sectors_for (pack fs)).

Lemma filled_pack_total fs :
  filled (pack fs) (sectors_for (pack fs)) = [] ++ pack fs ++ replicate (Z.to_nat (512 * sectors_for (pack fs)) - length (pack fs)) 0 ∧
  Z.of_nat (length (filled (pack fs) (sectors_for (pack fs)))) = sectors_for (pack fs) * 512.
Proof.
  split; [done|]. unfold filled, kSector. rewrite length_app, length_replicate. unfold sectors_for.
  assert (Z.of_nat (length (pack fs)) <= 512 * ((Z.of_nat (length (pack fs)) + 511) / 512)) by (Z.div_mod_to_equations; lia). lia.
Qed.

(** Packed files that were written to storage and entered in the index are
    listed there, and unpacking the sectors of the entry restores them. *)
Lemma stored_restores s d off es name fs h s1 s' :
  on_disk ide s d off → super_ok (sb s) → pack fs ≠ [] → Forall file_ok fs → Forall (λ x, bytes_ok x.2) fs →
  next_free_lba (sb s) + sectors_for (pack fs) < 4294967296 → sectors_for (pack fs) * 512 + 8 < 4294967296 →
  index_ok (sector_at s d (off + INDEX_LBA)) es → entry_ok (snapshot_entry s name fs) →
  index_size (es ++ [snapshot_entry s name fs]) <= 512 →
  storage_write driver ide s (Some (pack fs)) = Some (Some h, s1) →
  storage_add_index_entry driver ide s1 name (start_lba h) (sectors h) = Some (true, s') →
  on_disk ide s' d off ∧ super_ok (sb s') ∧
  (∃ old, (old = es ∨ old = []) ∧ ∀ buf s'', storage_read_raw driver ide s' INDEX_LBA 1 = Some (Some buf, s'') →
     index_entries (Z.to_nat (word32 buf 0)) buf 4 = old ++ [snapshot_entry s name fs]) ∧
  (∀ data s'' fuel' g, let e := snapshot_entry s name fs in
     storage_read_raw driver ide s' (ie_start e) (ie_sectors e) = Some (Some data, s'') → (length fs < fuel')%nat →
     restore_files fuel' g data (ie_sectors e *u 512) 0 = restore_list g fs).
Proof.
  intros Hon Hsb Hne Hok Hby Hfit Hmax Hidx Hent Hroom Hw Hi.
  destruct (filled_pack_total fs) as [Hfp Hft].
  assert (Z.of_nat (length (pack fs)) <= sectors_for (pack fs) * 512) as Hle by (rewrite <- Hft, Hfp, !length_app; lia).
  assert (Z.of_nat (length (pack fs)) + 511 < 4294967296) as Hsz
    by (unfold sectors_for in Hmax; Z.div_mod_to_equations; lia).
  destruct (storage_write_disk _ _ s d off (pack fs) h s1 Hon Hsb Hne (pack_bytes _ Hby) Hfit Hsz Hw) as (-> & Hst & Hsb1 & _ & Hrng & Hold).
  cbn [start_lba sectors] in *. pose proof (on_disk_same _ _ _ _ _ Hst Hon) as Hon1.
  destruct Hsb as [Hm Hn Hr Hrb]. unfold DATA_START_LBA in Hn.
  assert (index_ok (sector_at s1 d (off + INDEX_LBA)) es) as Hidx1 by (rewrite (Hold INDEX_LBA ltac:(unfold INDEX_LBA; lia)); exact Hidx).
  destruct (add_index_ok s1 d off es (snapshot_entry s name fs) s' Hon1 Hidx1 Hent Hroom Hi) as (Hst' & Hsb' & (old & Hor & Hnew) & Hfr).
  pose proof (on_disk_same _ _ _ _ _ Hst' Hon1) as Hon'. assert (0 <= sectors_for (pack fs)) as Hs0 by lia.
  split_and!; [done| | |].
  - rewrite Hsb', Hsb1. split; cbn; [done|unfold DATA_START_LBA; lia|done|done].
  - exists old. split; [done|]. intros buf s'' Hrd.
    destruct (read_raw_disk driver ide s' d off INDEX_LBA 1 buf s'' Hon' ltac:(unfold INDEX_LBA; lia) ltac:(lia) ltac:(unfold INDEX_LBA; lia) Hrd)
      as (_ & _ & _ & _ & ->). unfold range_at. rewrite dk_range_1. by apply index_ok_entries.
  - intros data s'' fuel' g Hrd Hfuel. cbn [snapshot_entry ie_start ie_sectors] in Hrd |- *.
    destruct (read_raw_disk driver ide s' d off (next_free_lba (sb s)) (sectors_for (pack fs)) data s'' Hon' ltac:(lia) Hs0 Hfit Hrd) as (_ & _ & _ & _ & ->).
    assert (range_at s' d (off + next_free_lba (sb s)) (sectors_for (pack fs)) = filled (pack fs) (sectors_for (pack fs))) as ->.
    { rewrite <- Hrng. unfold range_at. apply dk_range_same. intros k Hk. apply Hfr. unfold INDEX_LBA. lia. }
    rewrite Hfp. apply (restore_files_pack fs fuel' g []); [done|done| |rewrite u32_small by lia; lia].
    rewrite <- Hfp, Hft. apply u32_small. lia.
Qed.

(** On any file system: what was saved is listed in the index, and the sectors
    its entry names are unpacked file by file. *)
Lemma saved_restores fuel s d off es f f1 f2 name fs s' fo :
  on_disk ide s d off → super_ok (sb s) → allocates →
  walk fuel f [slash] = Done (fs, f1) → walk fuel f1 [slash] = Done (fs, f2) → Forall file_ok fs → Forall (λ x, bytes_ok x.2) fs →
  next_free_lba (sb s) + sectors_for (pack fs) < 4294967296 → sectors_for (pack fs) * 512 + 8 < 4294967296 →
  index_ok (sector_at s d (off + INDEX_LBA)) es → entry_ok (snapshot_entry s name fs) →
  index_size (es ++ [snapshot_entry s name fs]) <= 512 →
  storage_snapshot_save driver ide new_bytes fuel s (Some f) (Some name) = Done (Some (true, s', fo)) →
  fo = Some f2 ∧ on_disk ide s' d off ∧ super_ok (sb s') ∧
  (∃ old, (old = es ∨ old = []) ∧ ∀ buf s'', storage_read_raw driver ide s' INDEX_LBA 1 = Some (Some buf, s'') →
     index_entries (Z.to_nat (word32 buf 0)) buf 4 = old ++ [snapshot_entry s name fs]) ∧
  (∀ data s'' fuel' g, let e := snapshot_entry s name fs in
     storage_read_raw driver ide s' (ie_start e) (ie_sectors e) = Some (Some data, s'') → (length fs < fuel')%nat →
     restore_files fuel' g data (ie_sectors e *u 512) 0 = restore_list g fs).
Proof.
  intros Hon Hsb Hal Hw1 Hw2 Hok Hby Hfit Hmax Hidx Hent Hroom Hsave. destruct (filled_pack_total fs) as [Hfp Hft].
  assert (Z.of_nat (length (pack fs)) <= sectors_for (pack fs) * 512) as Hle by (rewrite <- Hft, Hfp, !length_app; lia).
  destruct (snapshot_save_walk _ _ _ _ _ _ _ _ _ Hal Hw1 Hw2 ltac:(unfold packed; lia) Hsave) as (-> & Hne & h & s1 & Hw & Hi).
  split; [done|]. by apply (stored_restores s d off es name fs h s1).
Qed.
End snapshot_spec.

(** ** Putting files back on the RAM file system *)

Abbreviation tree := (text → option node).

(** The tree with the file [p] holding [d], the directories above it made. *)
Definition put_file (t : tree) (p : text) (d : list Z) : tree := λ q,
  if decide (q = p) then Some (File d) else if decide (q ∈ above p) then Some Dir else t q.

(** The tree with the files [fs] put into it in order. *)
Definition unpack (t : tree) (fs : files) : tree := fold_left (λ t x, put_file t x.1 x.2) fs t.

(** Nothing above the path is a file, and it is no directory. *)
Definition can_put (t : tree) (p : text) : Prop := (∀ q c, q ∈ above p → t q ≠ Some (File c)) ∧ t p ≠ Some Dir.

(** A canonical path below the root that fits an inode, and no more than 2 GiB. *)
Definition storable (x : text * list Z) : Prop :=
  RamFs.normalize_path (Some x.1) 64 = Some x.1 ∧ x.1 ≠ [slash] ∧ Z.of_nat (length x.2) <= 2147483647.

Fixpoint can_unpack (t : tree) (fs : files) : Prop :=
  match fs with [] => True | x :: fs' => can_put t x.1 ∧ can_unpack (put_file t x.1 x.2) fs' end.

Lemma names_kept_refl s : names_kept s s.
Proof. intros k i Hi. eauto. Qed.
Lemma names_kept_trans s1 s2 s3 : names_kept s1 s2 → names_kept s2 s3 → names_kept s1 s3.
Proof. intros H1 H2 k i Hi. destruct (H1 k i Hi) as (j & Hj & En). destruct (H2 k j Hj) as (l & Hl & En'). exists l. split; [done|congruence]. Qed.

Lemma table_full_kept s s' : fs_ok s → fs_ok s' → names_kept s s' → table_full s → table_full s'.
Proof.
  intros Hok Hok' Hk Hf k i Hi. assert (k < 64)%nat as Hlt by (rewrite <- (fo_inodes s' Hok'); by eapply lookup_lt_Some).
  rewrite <- (fo_inodes s Hok) in Hlt. apply lookup_lt_is_Some in Hlt as [j Hj].
  destruct (Hk k j (conj Hj (Hf k j Hj))) as (i' & [Hi' Hu] & _). congruence.
Qed.

Lemma md_names s path : names_kept s (md s path).2.
Proof.
  unfold md. destruct (RamFs.normalize_path path 64) as [p|]; [|apply names_kept_refl]. destruct (text_equal _ _); [apply names_kept_refl|].
  destruct (find_inode s p); [apply names_kept_refl|]. destruct (negb _); [apply names_kept_refl|].
  unfold create_inode. destruct (find_slot _ _) as [l|] eqn:El; [|apply names_kept_refl]. cbn [snd]. intros k i Hi. exists i. split; [|done].
  unfold live_inode in *. cbn [set_inodes m_inodes]. rewrite list_lookup_insert_ne; [done|]. intros ->.
  apply find_slot_Some in El as [(x & Hx & Hu) _]. destruct Hi as [Hi Hiu]. rewrite Hi in Hx. injection Hx as <-. by rewrite Hiu in Hu.
Qed.

(** The normaliser leaves canonical paths that fit an inode alone. *)
Lemma normalize_loop_component c : ∀ cs acc rest b,
  slash ∉ c → c ≠ [] → text_len (written cs (acc ++ c)) < 64 →
  normalize_loop (c ++ rest) (written cs acc) b 64 = normalize_loop rest (written cs (acc ++ c)) false 64.
Proof.
  induction c as [|x c IH]; intros cs acc rest b Hc Hne Hl; [done|]. clear Hne. cbn [app normalize_loop].
  rewrite (proj2 (Ascii.eqb_neq x slash)) by set_solver.
  assert (text_len (written cs acc) + 1 < 64) as Hl'.
  { unfold text_len, written in *. rewrite !length_app in *. cbn [length] in *. rewrite length_app in Hl. cbn [length] in Hl. lia. }
  rewrite (proj2 (Z.leb_gt _ _) Hl'), written_char. destruct c as [|y c]; [done|].
  rewrite IH; [by rewrite <- app_assoc|set_solver|done|by rewrite <- app_assoc].
Qed.

Lemma normalize_loop_render ds : ∀ cs d,
  Forall component_ok (cs ++ d :: ds) → text_len (render (cs ++ d :: ds)) < 64 →
  normalize_loop (d ++ concat ((λ c, slash :: c) <$> ds)) (written cs []) true 64 = Some (render (cs ++ d :: ds)).
Proof.
  induction ds as [|e ds IH]; intros cs d Hok Hl; pose proof Hok as [_ [[Hd0 Hd] _]%Forall_cons]%Forall_app.
  - cbn [fmap list_fmap concat]. rewrite normalize_loop_component by (done || cbn [app]; by rewrite written_render). cbn [app normalize_loop].
    by rewrite written_render.
  - pose proof (render_length_app ((cs ++ [d]) ++ [e]) ds) as Hle. rewrite (render_snoc (cs ++ [d]) e) in Hle.
    replace (concat ((λ c, slash :: c) <$> cs ++ [d])) with (render (cs ++ [d])) in Hle by (unfold render; by destruct cs).
    rewrite <- !app_assoc, length_app in Hle. cbn [app length] in Hle.
    assert (text_len (written cs d) + 1 < 64) as Hw by (rewrite written_render; unfold text_len in *; lia).
    rewrite normalize_loop_component by (done || cbn [app]; lia). cbn [fmap list_fmap concat app normalize_loop].
    replace (Ascii.eqb slash slash) with true by done. rewrite (proj2 (Z.leb_gt _ _) Hw), <- written_snoc by done.
    rewrite (IH (cs ++ [d]) e); rewrite <- ?app_assoc; done.
Qed.

Lemma normalize_render cs : Forall component_ok cs → text_len (render cs) < 64 → RamFs.normalize_path (Some (render cs)) 64 = Some (render cs).
Proof.
  intros Hcs Hl. destruct cs as [|c cs]; [done|]. unfold RamFs.normalize_path. rewrite render_cons at 1.
  change (64 <? 2) with false. replace (Ascii.eqb slash slash) with true by done. cbv iota.
  change [slash] with (written [] []). rewrite (normalize_loop_render cs [] c Hcs Hl). cbn [fmap option_fmap option_map app]. f_equal.
  assert (∃ ds d, c :: cs = ds ++ [d]) as (ds & d & E) by (destruct (exists_last (l := c :: cs)) as (ds & d & E); [done|]; by exists ds, d).
  rewrite E in *. apply Forall_app in Hcs as [_ [[Hd0 Hd] _]%Forall_cons]. rewrite <- (written_render ds d) at 1. rewrite written_trim by done. by destruct d.
Qed.

(** Well-formed, nothing open, and no inode freed since [g]. *)
Definition kept (g g' : ramfs) : Prop := fs_ok g' ∧ all_closed g' ∧ names_kept g g'.

Lemma kept_trans g1 g2 g3 : kept g1 g2 → kept g2 g3 → kept g1 g3.
Proof. intros (_ & _ & K1) (H1 & H2 & K2). split_and!; [done|done|by eapply names_kept_trans]. Qed.

Lemma md_kept g q : fs_ok g → all_closed g → kept g (md g q).2.
Proof.
  intros Hok Hcl. pose proof (md_effect g q Hok) as He. pose proof (md_names g q) as Hk. destruct (md g q) as [r g']. cbn [snd] in *.
  destruct He as (Hok' & Hfds & _). split_and!; [done| |done]. intros fd. specialize (Hcl fd). unfold get_fd in *. by rewrite Hfds.
Qed.

Lemma mds_kept qs : ∀ g, fs_ok g → all_closed g → kept g (fold_left (λ f q, (md f (Some q)).2) qs g).
Proof.
  induction qs as [|q qs IH]; intros g Hok Hcl; cbn [fold_left]; [split_and!; [done|done|apply names_kept_refl]|].
  pose proof (md_kept g (Some q) Hok Hcl) as Hk. eapply kept_trans; [exact Hk|]. destruct Hk as (H1 & H2 & _). by apply IH.
Qed.

(** The directories above a path, made one after the other. *)
Lemma mds_view ds : ∀ g cs,
  fs_ok g → all_closed g → Forall component_ok (cs ++ ds) → text_len (render (cs ++ ds)) < 64 → view g (render cs) = Some Dir →
  let qs := (λ k, render (cs ++ take k ds)) <$> seq 1 (length ds - 1) in
  (∀ q c, q ∈ qs → view g q ≠ Some (File c)) →
  let g' := fold_left (λ f q, (md f (Some q)).2) qs g in
  table_full g' ∨ (∀ q, view g' q = if decide (q ∈ qs) then Some Dir else view g q) ∧
    view g' (render (cs ++ take (length ds - 1) ds)) = Some Dir.
Proof.
  induction ds as [|d ds IH]; intros g cs Hok Hcl Hcs Hl Hroot qs Hnf g'.
  { right. subst qs g'. cbn. rewrite app_nil_r. by split. }
  destruct ds as [|e ds].
  { right. subst qs g'. cbn. rewrite app_nil_r. by split. }
  assert (qs = render (cs ++ [d]) :: ((λ k, render ((cs ++ [d]) ++ take k (e :: ds))) <$> seq 1 (length (e :: ds) - 1))) as Eqs.
  { subst qs. cbn [length]. replace (S (S (length ds)) - 1)%nat with (S (length ds)) by lia. cbn [seq fmap list_fmap]. f_equal.
    rewrite <- (fmap_S_seq 1), <- list_fmap_compose. replace (S (length ds) - 1)%nat with (length ds) by lia.
    apply list_fmap_ext. intros i k _. unfold compose. cbn [take]. by rewrite <- app_assoc. }
  clearbody qs. subst qs. set (qs := _ <$> seq 1 _) in *. cbn [fold_left] in g'.
  assert (Forall component_ok ((cs ++ [d]) ++ e :: ds)) as Hcs' by by rewrite <- app_assoc.
  assert (text_len (render ((cs ++ [d]) ++ e :: ds)) < 64) as Hl' by by rewrite <- app_assoc.
  assert (text_len (render (cs ++ [d])) + 1 < 64) as Hld.
  { replace ((cs ++ [d]) ++ e :: ds) with (((cs ++ [d]) ++ [e]) ++ ds) in Hl' by by rewrite <- app_assoc.
    pose proof (render_length_app ((cs ++ [d]) ++ [e]) ds) as H1. rewrite (render_snoc (cs ++ [d]) e) in H1.
    assert (render (cs ++ [d]) = concat ((λ c, slash :: c) <$> cs ++ [d])) as H2 by (unfold render; by destruct cs). rewrite <- H2 in H1.
    apply Forall_app in Hcs' as [_ [[He _] _]%Forall_cons]. unfold text_len in *. rewrite length_app in H1. cbn [length] in H1. destruct e; [done|]. cbn [length] in H1. lia. }
  apply Forall_app in Hcs as [Hc1 [Hd Hc2]%Forall_cons].
  pose proof (normalize_render (cs ++ [d]) ltac:(by apply Forall_app; split; [|by apply Forall_singleton]) ltac:(lia)) as Hn.
  pose proof (md_effect g (Some (render (cs ++ [d]))) Hok) as He. pose proof (md_kept g (Some (render (cs ++ [d]))) Hok Hcl) as (Hok1 & Hcl1 & _).
  destruct (md g (Some (render (cs ++ [d])))) as [r g1]. cbn [snd] in *. rewrite Hn in He. destruct He as (_ & _ & He).
  rewrite (parent_of_render cs d Hd ltac:(lia)), Hroot in He. pose proof (mds_kept qs g1 Hok1 Hcl1) as (Hok' & _ & Hk').
  assert (table_full g1 ∨ ∀ q, view g1 q = if decide (q = render (cs ++ [d])) then Some Dir else view g q) as [Hfull|V1].
  { specialize (Hnf (render (cs ++ [d]))). destruct (view g (render (cs ++ [d]))) as [[|c]|] eqn:Ev.
    - destruct He as [_ ->]. right. intros q. case_decide; [by subst|done].
    - by destruct (Hnf c (list_elem_of_here _ _)).
    - destruct He as [(_ & _ & V)|(_ & -> & [?|?])]; [|done|by left]. right. intros q. rewrite V.
      destruct (text_equal q _) eqn:Eq; [apply text_equal_eq in Eq as ->; by rewrite decide_True|].
      rewrite decide_False; [done|]. intros ->. by rewrite text_equal_refl in Eq. }
  { left. exact (table_full_kept g1 _ Hok1 Hok' Hk' Hfull). }
  destruct (IH g1 (cs ++ [d]) Hok1 Hcl1 Hcs' Hl') as [H|[H1 H2]].
  - by rewrite V1, decide_True.
  - intros q c Hq. rewrite V1. case_decide; [done|]. apply Hnf. by right.
  - by left.
  - right. split.
    + intros q. specialize (H1 q). change (view g' q = if decide (q ∈ qs) then Some Dir else view g1 q) in H1. rewrite H1, V1. clear H1 H2. destruct (decide (q ∈ qs)).
      * rewrite decide_True by by right. done.
      * case_decide; [subst; by rewrite decide_True by left|]. rewrite decide_False by set_solver. done.
    + change (view g' (render ((cs ++ [d]) ++ take (length (e :: ds) - 1) (e :: ds))) = Some Dir) in H2. rewrite <- H2. f_equal. rewrite <- app_assoc. cbn [length app]. f_equal. f_equal.
      replace (S (S (length ds)) - 1)%nat with (S (S (length ds) - 1)) by lia. done.
Qed.

Lemma not_above_itself p : canonical p → p ∉ above p.
Proof.
  intros (cs & Hcs & ->) (k & E & Hk)%list_elem_of_fmap. unfold above in *. rewrite components_render in E, Hk by done.
  apply elem_of_seq in Hk. apply render_inj in E; [|done|by apply Forall_take]. apply (f_equal length) in E. rewrite length_take in E. lia.
Qed.

Section put_back.
Context (nb : Z → option (list Z)) (nb_good : good_allocator nb).
#[local] Instance ram_inst : FileSystem ramfs := ramfs_fs nb.

(** One file: what [open] and [write] add to the directories. *)
Lemma restore_file_ram g p d :
  fs_ok g → all_closed g → storable (p, d) →
  ∃ g', restore_file g p d = Done g' ∧ kept g g' ∧
    (can_put (view g) p → table_full g' ∨ ∀ q, view g' q = put_file (view g) p d q).
Proof using nb_good.
  intros Hok Hcl (Hn & Hne & Hlen). cbn [fst snd] in *. pose proof (normalize_canonical _ _ Hn) as [Hcan Hl].
  rewrite (restore_file_above g p d Hcan Hl Hne). cbn zeta. change (fold_left (λ f q, (fs_md f q).2) (above p) g)
    with (fold_left (λ f q, (md f (Some q)).2) (above p) g). set (g1 := fold_left _ _ _).
  pose proof (mds_kept (above p) g Hok Hcl) as Hk1. fold g1 in Hk1. pose proof Hk1 as (Hok1 & Hcl1 & _).
  assert (can_put (view g) p → table_full g1 ∨
    (∀ q, view g1 q = if decide (q ∈ above p) then Some Dir else view g q) ∧ view g1 (parent_of p) = Some Dir) as Hdirs.
  { intros [Hnf _]. destruct (canonical_cases p Hcan) as [->|(cs & c & Hcs & Hc & ->)]; [done|].
    assert (Forall component_ok (cs ++ [c])) as Hcc by by apply Forall_app; split; [|by apply Forall_singleton].
    unfold g1, above in *. rewrite components_render in * by done.
    destruct (mds_view (cs ++ [c]) g [] Hok Hcl Hcc Hl (view_root g Hok) Hnf) as [H|[H1 H2]]; [by left|right]. split; [exact H1|].
    rewrite parent_of_render by done. cbn [app] in H2. rewrite <- H2. f_equal. f_equal. rewrite length_app. cbn [length].
    replace (length cs + 1 - 1)%nat with (length cs) by lia. by rewrite take_app_length. }
  clearbody g1. change (fs_open g1 p replace_flags) with (open g1 (Some p) replace_flags).
  pose proof (open_effect g1 (Some p) replace_flags Hok1) as He. pose proof (open_names g1 (Some p) replace_flags) as Hk2.
  destruct (open g1 (Some p) replace_flags) as [fd g2]. cbn [snd] in Hk2. destruct He as (Hok2 & [(-> & -> & Href)|(p' & c & E & _ & V2 & Hfd)]).
  { exists g1. split; [done|]. split; [done|]. intros Hcp. destruct (Hdirs Hcp) as [?|[V1 Hpar]]; [by left|].
    destruct (Href p Hn) as [Hd|(_ & [Hc0|[Hp|?]])]; [|done|done|by left].
    rewrite V1, decide_False in Hd by by apply not_above_itself. by destruct Hcp. }
  rewrite Hn in E. injection E as <-.
  destruct Hfd as [(_ & Hfull & _)|(Hr & Hg & Hoth & k & i & Hg' & Hi & Hni)]; [by apply closed_not_full in Hfull|].
  rewrite (proj2 (Z.leb_le 0 fd)) by lia.
  destruct (write_handle nb nb_good g2 fd p 0 replace_flags [] d Hok2) as (g3 & Ew & Hok3 & V3 & _ & O3 & _).
  { by exists (Z.to_nat (fd - 3)), k, i. } { done. } { by rewrite V2, text_equal_refl. } { cbn. lia. } { lia. }
  change (fs_write g2 fd (Some d)) with (RamFs.write nb g2 fd (Some d)). rewrite Ew. cbn [mbind outcome_bind].
  destruct (fd_write_frame nb (good_sized nb nb_good) g2 fd d _ g3 Hok2 Ew) as [_ Hk3].
  destruct (close_closed g3 fd Hok3) as (Hok4 & Hcl4 & V4); [intros fd' Hfd'; rewrite O3, Hoth by done; apply Hcl1|].
  assert (names_kept g3 (close g3 fd).2) as Hk4.
  { pose proof (close_effect g3 fd Hok3) as Hc. destruct (close g3 fd) as [r g4]. destruct Hc as (_ & _ & Hm & _). intros l x Hx.
    exists x. split; [|done]. unfold live_inode. cbn [snd]. by rewrite Hm. }
  assert (kept g1 (close g3 fd).2) as Hk14.
  { split_and!; [done|done|]. eapply names_kept_trans; [exact Hk2|]. eapply names_kept_trans; [exact Hk3|exact Hk4]. }
  exists (close g3 fd).2. split; [done|]. split; [by eapply kept_trans|]. intros Hcp. destruct (Hdirs Hcp) as [Hfull|[V1 _]].
  { left. exact (table_full_kept g1 _ Hok1 Hok4 (proj2 (proj2 Hk14)) Hfull). }
  right. intros q. unfold put_file. rewrite V4, V3, V2, V1. destruct (text_equal q p) eqn:Eq.
  - apply text_equal_eq in Eq as ->. rewrite decide_True by done. f_equal. f_equal. exact (splice_end [] d).
  - rewrite (decide_False (P := q = p)); [done|]. intros ->. by rewrite text_equal_refl in Eq.
Qed.

Lemma can_unpack_ext fs : ∀ t t', (∀ q, t q = t' q) → can_unpack t fs → can_unpack t' fs.
Proof using.
  induction fs as [|x fs IH]; intros t t' Ht; [done|]. intros [[H1 H2] H3]. split.
  - split; [intros q c Hq; rewrite <- Ht; by apply H1|by rewrite <- Ht].
  - eapply IH; [|exact H3]. intros q. unfold put_file. by rewrite Ht.
Qed.

Lemma unpack_ext fs : ∀ t t', (∀ q, t q = t' q) → ∀ q, unpack t fs q = unpack t' fs q.
Proof using.
  induction fs as [|x fs IH]; intros t t' Ht q; [apply Ht|]. cbn [unpack fold_left]. apply IH. intros r. unfold put_file. by rewrite Ht.
Qed.

(** All the files. *)
Lemma restore_list_ram fs : ∀ g,
  fs_ok g → all_closed g → Forall storable fs →
  ∃ g', restore_list g fs = Done g' ∧ kept g g' ∧
    (can_unpack (view g) fs → table_full g' ∨ ∀ q, view g' q = unpack (view g) fs q).
Proof using nb_good.
  induction fs as [|[p d] fs IH]; intros g Hok Hcl Hs; cbn [restore_list].
  { exists g. split; [done|]. split; [split_and!; [done|done|apply names_kept_refl]|]. intros _. by right. }
  apply Forall_cons in Hs as [Hx Hs]. destruct (restore_file_ram g p d Hok Hcl Hx) as (g1 & E1 & Hk1 & V1). cbn [fst snd]. rewrite E1.
  pose proof Hk1 as (Hok1 & Hcl1 & _). destruct (IH g1 Hok1 Hcl1 Hs) as (g' & E & Hk & V). exists g'. split; [exact E|].
  split; [by eapply kept_trans|]. intros [Hcp Hcu]. cbn [fst snd] in *. pose proof Hk as (Hok' & _ & Hn').
  destruct (V1 Hcp) as [Hfull|V1']; [left; exact (table_full_kept g1 g' Hok1 Hok' Hn' Hfull)|].
  destruct V as [?|V]; [eapply can_unpack_ext; [|exact Hcu]; intros q; by rewrite V1'|by left|].
  right. intros q. rewrite V. cbn [unpack fold_left fst snd]. apply unpack_ext. intros r. apply V1'.
Qed.
End put_back.

(** ** The tree that unpacking gives *)

(** The tree [t'] is [t] with the files [fs], and directories above them. *)
Record put_back (fs : files) (t t' : tree) : Prop := {
  pb_file : ∀ p d, (p, d) ∈ fs → t' p = Some (File d);
  pb_above : ∀ p d q, (p, d) ∈ fs → q ∈ above p → t' q = Some Dir;
  pb_rest : ∀ q, (∀ p d, (p, d) ∈ fs → q ≠ p ∧ q ∉ above p) → t' q = t q;
}.

(** The files of one tree: a path has one content and is above no other. *)
Definition consistent (fs : files) : Prop :=
  Forall (λ x, Forall (λ y, (x.1 = y.1 → x.2 = y.2) ∧ x.1 ∉ above y.1) fs) fs.

Lemma consistent_elem fs p d p' d' : consistent fs → (p, d) ∈ fs → (p', d') ∈ fs → (p = p' → d = d') ∧ p ∉ above p'.
Proof. intros Hc H1 H2. unfold consistent in Hc. rewrite Forall_forall in Hc. specialize (Hc _ H1). rewrite Forall_forall in Hc. apply (Hc _ H2). Qed.

Lemma consistent_tail x fs : consistent (x :: fs) → consistent fs.
Proof.
  intros [_ Hc]%Forall_cons. eapply Forall_impl; [exact Hc|]. intros y [_ Hy]%Forall_cons. exact Hy.
Qed.

Lemma unpack_rest fs : ∀ t q, (∀ p d, (p, d) ∈ fs → q ≠ p ∧ q ∉ above p) → unpack t fs q = t q.
Proof.
  induction fs as [|[p d] fs IH]; intros t q Hq; [done|]. cbn [unpack fold_left fst snd]. fold (unpack (put_file t p d) fs). rewrite IH.
  - destruct (Hq p d) as [? ?]; [by left|]. unfold put_file. by rewrite !decide_False.
  - intros p' d' Hx. apply (Hq p' d'). by right.
Qed.

Lemma unpack_put_back fs : ∀ t, consistent fs → put_back fs t (unpack t fs).
Proof.
  induction fs as [|[p d] fs IH]; intros t Hc; [by split; [set_solver|set_solver|]|].
  destruct (IH (put_file t p d) (consistent_tail _ _ Hc)) as [H1 H2 H3].
  change (unpack t ((p, d) :: fs)) with (unpack (put_file t p d) fs). split.
  - intros p' d' [[= -> ->]|Hx]%elem_of_cons; [|by apply H1].
    destruct (decide (p ∈ fs.*1)) as [((p2 & d2) & Ep & Hx)%list_elem_of_fmap|Hn].
    { cbn [fst] in Ep. subst p2. rewrite (H1 p d2 Hx). do 2 f_equal. symmetry.
      apply (consistent_elem _ p d p d2 Hc ltac:(by left) ltac:(by right)). done. }
    rewrite H3; [unfold put_file; by rewrite decide_True|]. intros p2 d2 Hx. split.
    + intros ->. apply Hn, list_elem_of_fmap. by exists (p2, d2).
    + by apply (consistent_elem _ p d p2 d2 Hc ltac:(by left) ltac:(by right)).
  - intros p' d' q [[= -> ->]|Hx]%elem_of_cons Hq; [|by eapply H2].
    destruct (decide (Exists (λ x, q ∈ above x.1) fs)) as [([p2 d2] & Hx & Hq2)%Exists_exists|Hn]; [by apply (H2 p2 d2)|].
    rewrite H3.
    + unfold put_file. rewrite decide_False, decide_True; [done|done|]. intros ->.
      by apply (consistent_elem _ p d p d Hc ltac:(by left) ltac:(by left)).
    + intros p2 d2 Hx. split.
      * intros ->. by apply (consistent_elem _ p2 d2 p d Hc ltac:(by right) ltac:(by left)).
      * intros Hq2. apply Hn, Exists_exists. by exists (p2, d2).
  - intros q Hq. exact (unpack_rest ((p, d) :: fs) t q Hq).
Qed.

Lemma consistent_can_unpack fs : ∀ t, consistent fs → (∀ p d, (p, d) ∈ fs → can_put t p) → can_unpack t fs.
Proof.
  induction fs as [|[p d] fs IH]; intros t Hc Ht; [done|]. split; [apply (Ht p d); by left|]. cbn [fst snd].
  apply IH; [by eapply consistent_tail|]. intros p' d' Hx. destruct (Ht p' d') as [T1 T2]; [by right|].
  destruct (consistent_elem _ p d p' d' Hc ltac:(by left) ltac:(by right)) as [_ C1].
  destruct (consistent_elem _ p' d' p d Hc ltac:(by right) ltac:(by left)) as [_ C2]. split.
  - intros q c Hq. unfold put_file. rewrite decide_False by (intros ->; done). case_decide; [done|]. by apply T1.
  - unfold put_file. case_decide; [done|]. by rewrite decide_False.
Qed.

Lemma restore_list_put_back nb (nb_good : good_allocator nb) fs g :
  fs_ok g → all_closed g → Forall storable fs → consistent fs → (∀ p d, (p, d) ∈ fs → can_put (view g) p) →
  ∃ g', @restore_list ramfs (ramfs_fs nb) g fs = Done g' ∧ fs_ok g' ∧ all_closed g' ∧ (table_full g' ∨ put_back fs (view g) (view g')).
Proof.
  intros Hok Hcl Hs Hc Hp. destruct (restore_list_ram nb nb_good fs g Hok Hcl Hs) as (g' & E & (Hok' & Hcl' & _) & V).
  exists g'. split_and!; [done..|]. destruct (V (consistent_can_unpack _ _ Hc Hp)) as [?|V']; [by left|right].
  destruct (unpack_put_back fs (view g) Hc) as [H1 H2 H3]. split.
  - intros p d Hx. rewrite V'. by apply H1.
  - intros p d q Hx Hq. rewrite V'. by apply (H2 p d).
  - intros q Hq. rewrite V'. by apply H3.
Qed.

(** ** The files of the RAM file system *)

(** The tree below a path, read without opening anything. *)
Fixpoint listing (fuel : nat) (f : ramfs) (path : text) : files :=
  match fuel with
  | O => []
  | S fuel' =>
      concat ((λ e,
        let child := child_path path (de_name e) in
        if de_is_directory e then listing fuel' f child
        else match view f child with Some (File d) => [(child, d)] | _ => [] end) <$> (readdir f (Some path) false 64).2)
  end.

(** The same inodes, and nothing open. *)
Definition still (f f' : ramfs) : Prop := fs_ok f' ∧ all_closed f' ∧ m_inodes f' = m_inodes f.

Lemma view_inodes f f' q : m_inodes f' = m_inodes f → view f' q = view f q.
Proof. destruct f as [a b], f' as [a' b']. cbn. by intros ->. Qed.

Lemma readdir_inodes f f' path n : m_inodes f' = m_inodes f → readdir f' path false n = readdir f path false n.
Proof. destruct f as [a b], f' as [a' b']. cbn. by intros ->. Qed.

Lemma listing_inodes f f' fuel : ∀ path, m_inodes f' = m_inodes f → listing fuel f' path = listing fuel f path.
Proof.
  induction fuel as [|fuel IH]; intros path Hm; [done|]. cbn [listing]. rewrite (readdir_inodes _ _ _ _ Hm). f_equal. apply list_fmap_ext.
  intros _ e _. cbn zeta. by rewrite IH, (view_inodes _ _ _ Hm).
Qed.

Lemma view_path f p n : fs_ok f → view f p = Some n → canonical p ∧ text_len p < 64.
Proof.
  intros Hok (k & i & Hi & <- & _)%view_Some; [|done]. destruct (fo_inode f Hok k i Hi) as [Hc Hl _ _]. done.
Qed.

Lemma view_parent f cs c n :
  fs_ok f → Forall component_ok (cs ++ [c]) → view f (render (cs ++ [c])) = Some n → view f (render cs) = Some Dir.
Proof.
  intros Hok Hcs Hv. destruct (view_path _ _ _ Hok Hv) as [_ Hl]. apply view_Some in Hv as (k & i & Hi & Hn & _); [|done].
  destruct (fo_parent f Hok k i Hi) as (l & j & Hj & Hnj & Hd). apply view_dir; [done|]. exists l, j. split_and!; [done| |done].
  apply Forall_app in Hcs as [_ [Hc _]%Forall_cons]. by rewrite Hnj, Hn, parent_of_render.
Qed.

Lemma view_ancestor f cs ds n :
  fs_ok f → Forall component_ok (cs ++ ds) → ds ≠ [] → view f (render (cs ++ ds)) = Some n → view f (render cs) = Some Dir.
Proof.
  intros Hok. revert n. induction ds as [|c ds IH] using rev_ind; intros n Hcs Hne Hv; [done|]. rewrite app_assoc in *.
  apply view_parent in Hv; [|done..]. destruct (decide (ds = [])) as [->|Hd]; [by rewrite app_nil_r in Hv|].
  apply Forall_app in Hcs as [Hcs _]. by eapply IH.
Qed.

Lemma child_render cs n : Forall component_ok cs → text_len (render (cs ++ [n])) < 64 → child_path (render cs) n = render (cs ++ [n]).
Proof.
  intros Hcs Hl. unfold child_path, text_len in *. destruct (text_equal (render cs) [slash]) eqn:E.
  - apply text_equal_eq in E. destruct cs as [|c cs].
    + rewrite render_snoc in *. cbn [fmap list_fmap concat app length] in *. rewrite take_ge by (cbn [length]; lia). done.
    + apply Forall_cons in Hcs as [[Hc _] _]. rewrite render_cons in E. destruct c; [done|]. discriminate E.
  - destruct cs as [|c cs]; [done|]. rewrite render_snoc in *. change (concat ((λ c, slash :: c) <$> c :: cs)) with (render (c :: cs)) in *.
    rewrite length_app in Hl. cbn [length] in Hl. rewrite (take_ge (render (c :: cs))) by lia. rewrite take_ge; [done|].
    rewrite length_app. cbn [length app]. lia.
Qed.

Section ram_walk.
Context (nb : Z → option (list Z)).
#[local] Instance walk_inst : FileSystem ramfs := ramfs_fs nb.

Lemma open_read_inodes s src ps data :
  RamFs.normalize_path (Some src) 64 = Some ps → view s ps = Some (File data) → m_inodes (open s (Some src) kOpenRead).2 = m_inodes s.
Proof using.
  intros Hn Hv. unfold open. rewrite Hn. destruct (text_equal _ _); [done|]. unfold view in Hv. destruct (find_inode s ps) as [k|]; [|done].
  unfold open_inode. destruct (in_is_directory _); [done|]. change (open_truncates kOpenRead) with false. cbv iota.
  cbv zeta. destruct (_ <? 0); done.
Qed.

(** The reading loop returns the whole contents. *)
Lemma read_exact_ram fuel : ∀ f fd p off data n,
  fs_ok f → handle f fd p off kOpenRead → view f p = Some (File data) → (∀ fd', fd' ≠ fd → get_fd f fd' = None) →
  0 <= off <= Z.of_nat (length data) → Z.of_nat (length data) - off <= 512 * Z.of_nat n → (n < fuel)%nat →
  ∃ f', read_exact fuel f fd = Done (drop (Z.to_nat off) data, f') ∧ fs_ok f' ∧ (∀ fd', fd' ≠ fd → get_fd f' fd' = None) ∧
    m_inodes f' = m_inodes f.
Proof using.
  induction fuel as [|fuel IH]; intros f fd p off data n Hok Hh Hv Ho Hoff Hn Hf; [lia|].
  destruct (read_handle f fd p off kOpenRead data 512 Hok Hh ltac:(done) Hv ltac:(lia)) as (f1 & E & Hok1 & V1 & Hh1 & M1 & O1).
  change (Z.to_nat 512) with 512%nat in *. set (bs := take 512 (drop (Z.to_nat off) data)) in *.
  assert (length bs = Nat.min 512 (length data - Z.to_nat off)) as Hbs by (unfold bs; by rewrite length_take, length_drop).
  cbn [read_exact]. change (fs_read f fd 512) with (read f fd false 512). rewrite E.
  destruct (Z.of_nat (length bs) =? 0) eqn:E0; zbool.
  { exists f1. rewrite drop_ge by lia. split_and!; [done|done| |done]. intros fd' Hne. rewrite O1 by done. by apply Ho. }
  rewrite (proj2 (Z.ltb_ge _ _)), Z.eqb_refl by lia. cbn [orb negb]. destruct n as [|n]; [lia|].
  destruct (IH f1 fd p (off + Z.of_nat (length bs)) data n Hok1 Hh1) as (f' & E' & Hok' & O' & M'); [by rewrite V1| | | |lia|].
  - intros fd' Hne. rewrite O1 by done. by apply Ho.
  - lia.
  - lia.
  - exists f'. rewrite E'. cbn [mbind outcome_bind]. split_and!; [|done|done|congruence]. do 2 f_equal.
    replace (Z.to_nat (off + Z.of_nat (length bs))) with (Z.to_nat off + length bs)%nat by lia. rewrite <- drop_drop.
    replace (drop (length bs) (drop (Z.to_nat off) data)) with (drop 512 (drop (Z.to_nat off) data)); [apply take_drop|].
    destruct (decide (512 <= length data - Z.to_nat off)%nat); [f_equal; lia|]. rewrite !drop_ge; [done|rewrite length_drop; lia..].
Qed.

(** The entries of [readdir] for the directory [render cs]. *)
Definition entry_in (f : ramfs) (cs : list text) (e : DirEntry) : Prop :=
  ∃ n, view f (render (cs ++ [de_name e])) = Some n ∧ component_ok (de_name e) ∧ is_dir n = de_is_directory e.

Lemma readdir_ram f cs :
  fs_ok f → Forall component_ok cs → view f (render cs) = Some Dir →
  let es := (readdir f (Some (render cs)) false 64).2 in
  readdir f (Some (render cs)) false 64 = (Z.of_nat (length es), es) ∧ ∀ e, e ∈ es ↔ entry_in f cs e.
Proof using.
  intros Hok Hcs Hv. destruct (view_path _ _ _ Hok Hv) as [_ Hl].
  destruct (readdir_lists_children f (Some (render cs)) cs 64 Hok (normalize_render cs Hcs Hl) Hcs Hv ltac:(lia)) as (es & E & Hlen & _ & He).
  rewrite take_ge in E by (change (Z.to_nat 64) with 64%nat; lia). cbn zeta. rewrite E. split; [done|exact He].
Qed.

(** What one entry adds to the listing. *)
Definition entry_files (f : ramfs) (fuel : nat) (path : text) (e : DirEntry) : files :=
  let child := child_path path (de_name e) in
  if de_is_directory e then listing fuel f child else match view f child with Some (File d) => [(child, d)] | _ => [] end.

Lemma entry_child f cs e : fs_ok f → Forall component_ok cs → entry_in f cs e →
  child_path (render cs) (de_name e) = render (cs ++ [de_name e]) ∧ Forall component_ok (cs ++ [de_name e]) ∧
  text_len (render (cs ++ [de_name e])) < 64 ∧ (length (render cs) < length (render (cs ++ [de_name e])))%nat.
Proof using.
  intros Hok Hcs (n & Hv & Hn & _). destruct (view_path _ _ _ Hok Hv) as [_ Hl]. split_and!; [by apply child_render| |done|].
  - apply Forall_app. split; [done|by apply Forall_singleton].
  - destruct Hn as [Hn _]. rewrite render_snoc, length_app. cbn [length]. destruct (de_name e); [done|]. cbn [length].
    destruct cs; [cbn; lia|]. unfold render. lia.
Qed.

Lemma walk_entries_ram R fuel f cs :
  (∀ p d, view f p = Some (File d) → Z.of_nat (length d) <= 512 * Z.of_nat R) → (R < fuel)%nat → fs_ok f → Forall component_ok cs →
  (∀ f0 ds, still f f0 → Forall component_ok ds → view f (render ds) = Some Dir → (length (render cs) < length (render ds))%nat →
     ∃ f', walk fuel f0 (render ds) = Done (listing fuel f (render ds), f') ∧ still f f') →
  ∀ es f0, still f f0 → Forall (entry_in f cs) es →
    ∃ f', walk_entries (walk fuel) fuel (render cs) es f0 = Done (concat (entry_files f fuel (render cs) <$> es), f') ∧ still f f'.
Proof using.
  intros HR Hf Hok Hcs Hdir. induction es as [|e es IH]; intros f0 Hst He; [by exists f0|].
  apply Forall_cons in He as [He Hes]. destruct (entry_child f cs e Hok Hcs He) as (Ec & Hcc & Hl & Hlt). destruct He as (n & Hv & _ & Hd).
  cbn [walk_entries fmap list_fmap concat]. unfold entry_files at 1. rewrite Ec. destruct (de_is_directory e); destruct n as [|d]; [|done|done|].
  - destruct (Hdir f0 _ Hst Hcc Hv Hlt) as (f1 & E1 & Hst1). destruct (IH f1 Hst1 Hes) as (f2 & E2 & Hst2). exists f2.
    rewrite E1. cbn [mbind outcome_bind]. by rewrite E2.
  - destruct Hst as (Hok0 & Hcl0 & M0). pose proof (normalize_render _ Hcc Hl) as Hn. assert (view f0 (render (cs ++ [de_name e])) = Some (File d)) as Hv0
      by by rewrite (view_inodes _ _ _ M0).
    destruct (open_source f0 _ _ d Hok0 Hcl0 Hn Hv0) as (fd & f1 & Eo & Hfd & Hok1 & V1 & Hh & O1 & _).
    pose proof (open_read_inodes f0 _ _ d Hn Hv0) as M1. rewrite Eo in M1. cbn [snd] in M1.
    change (fs_open f0 (render (cs ++ [de_name e])) kOpenRead) with (open f0 (Some (render (cs ++ [de_name e]))) kOpenRead). rewrite Eo, Hv.
    rewrite (proj2 (Z.ltb_ge _ _)) by lia.
    destruct (read_exact_ram fuel f1 fd _ 0 d R Hok1 Hh ltac:(by rewrite V1) O1) as (f2 & E2 & Hok2 & O2 & M2); [lia|specialize (HR _ _ Hv); lia|done|].
    rewrite E2. cbn [mbind outcome_bind]. change (fs_close f2 fd) with (close f2 fd).
    destruct (close_closed f2 fd Hok2 O2) as (Hok3 & Hcl3 & _). pose proof (close_effect f2 fd Hok2) as Hce. destruct (close f2 fd) as [r f3]. cbn [snd] in *.
    destruct Hce as (_ & _ & M3 & _). destruct (IH f3) as (f4 & E4 & Hst4); [split_and!; [done|done|congruence]|done|].
    exists f4. rewrite E4. cbn [mbind outcome_bind]. done.
Qed.

(** The traversal of [walk] opens, reads and closes every file, and returns the listing. *)
Lemma walk_ram R f : fs_ok f → (∀ p d, view f p = Some (File d) → Z.of_nat (length d) <= 512 * Z.of_nat R) →
  ∀ fuel f0 cs, still f f0 → Forall component_ok cs → view f (render cs) = Some Dir → (R + 65 <= fuel + length (render cs))%nat →
  ∃ f', walk fuel f0 (render cs) = Done (listing fuel f (render cs), f') ∧ still f f'.
Proof using.
  intros Hok HR. induction fuel as [|fuel IH]; intros f0 cs Hst Hcs Hv Hf; destruct (view_path _ _ _ Hok Hv) as [_ Hl]; unfold text_len in Hl; [lia|].
  destruct (readdir_ram f cs Hok Hcs Hv) as [E He]. cbn [walk]. change (fs_readdir f0 (render cs) 64) with (readdir f0 (Some (render cs)) false 64, f0).
  rewrite (readdir_inodes f f0) by apply Hst. rewrite E. rewrite (proj2 (Z.ltb_ge _ _)) by lia. rewrite Nat2Z.id, firstn_all.
  apply (walk_entries_ram R fuel f cs HR ltac:(lia) Hok Hcs); [|done|].
  - intros f1 ds Hst1 Hds Hvd Hlt. apply IH; [done..|lia].
  - apply Forall_forall. intros e. apply He.
Qed.

(** The listing of a directory: the files below it, with their contents. *)
Lemma listing_elem f : fs_ok f → ∀ fuel cs p d,
  Forall component_ok cs → view f (render cs) = Some Dir → (64 <= fuel + length (render cs))%nat →
  (p, d) ∈ listing fuel f (render cs) ↔
  view f p = Some (File d) ∧ ∃ ds, ds ≠ [] ∧ Forall component_ok (cs ++ ds) ∧ p = render (cs ++ ds).
Proof using.
  intros Hok. induction fuel as [|fuel IH]; intros cs p d Hcs Hv Hf; destruct (view_path _ _ _ Hok Hv) as [_ Hl]; unfold text_len in Hl; [lia|].
  destruct (readdir_ram f cs Hok Hcs Hv) as [_ He].
  change (listing (S fuel) f (render cs)) with (concat (entry_files f fuel (render cs) <$> (readdir f (Some (render cs)) false 64).2)).
  rewrite list_elem_of_In, in_concat. setoid_rewrite <- list_elem_of_In. setoid_rewrite list_elem_of_fmap. split.
  - intros (l & (e & -> & Hin) & Hx). apply He in Hin. destruct (entry_child f cs e Hok Hcs Hin) as (Ec & Hcc & Hlc & Hlt).
    unfold entry_files in Hx. rewrite Ec in Hx. destruct Hin as (n & Hvn & Hn & Hd). destruct (de_is_directory e); destruct n as [|c]; [|done|done|].
    + apply (IH _ p d Hcc Hvn) in Hx as (Hvp & ds & Hne & Hds & ->); [|lia]. split; [done|]. exists (de_name e :: ds).
      rewrite <- app_assoc in *. done.
    + rewrite Hvn in Hx. apply list_elem_of_singleton in Hx as [= -> ->]. split; [done|]. by exists [de_name e].
  - intros (Hvp & ds & Hne & Hds & ->). destruct ds as [|n ds]; [done|]. clear Hne.
    replace (cs ++ n :: ds) with ((cs ++ [n]) ++ ds) in * by by rewrite <- app_assoc.
    pose proof Hds as [Hcn _]%Forall_app. pose proof Hcn as [_ [Hn _]%Forall_cons]%Forall_app. destruct ds as [|m ds].
    + rewrite app_nil_r in *. set (e := {| de_name := n; de_is_directory := false |}).
      assert (entry_in f cs e) as Hin by (by exists (File d)). destruct (entry_child f cs e Hok Hcs Hin) as (Ec & _).
      exists (entry_files f fuel (render cs) e). split; [exists e; split; [done|by apply He]|]. unfold entry_files. rewrite Ec. cbn [de_is_directory e de_name].
      rewrite Hvp. by left.
    + set (e := {| de_name := n; de_is_directory := true |}).
      pose proof (view_ancestor f (cs ++ [n]) (m :: ds) (File d) Hok Hds ltac:(done) Hvp) as Hvd.
      assert (entry_in f cs e) as Hin by (by exists Dir). destruct (entry_child f cs e Hok Hcs Hin) as (Ec & _ & _ & Hlt).
      exists (entry_files f fuel (render cs) e). split; [exists e; split; [done|by apply He]|]. unfold entry_files. rewrite Ec. cbn [de_is_directory e de_name] in *.
      apply IH; [done|done|lia|]. split; [done|]. by exists (m :: ds).
Qed.
End ram_walk.

(** ** Snapshots of the RAM file system *)

(** A tree a snapshot can hold: no file is open, and every file has a name
    without NUL and at most [R] pieces of 512 bytes. *)
Record snapshotable (R : nat) (f : ramfs) : Prop := {
  sn_ok : fs_ok f;
  sn_closed : all_closed f;
  sn_file : ∀ p d, view f p = Some (File d) → no_nul p ∧ bytes_ok d ∧ Z.of_nat (length d) <= 512 * Z.of_nat R;
  sn_max : 512 * Z.of_nat R <= 2147483647;
}.

Lemma listing_root f fuel p d : fs_ok f → (63 <= fuel)%nat → (p, d) ∈ listing fuel f [slash] ↔ view f p = Some (File d).
Proof.
  intros Hok Hf. change [slash] with (render []). rewrite (listing_elem f Hok fuel [] p d); [|done|exact (view_root f Hok)|cbn; lia].
  split; [by intros [? _]|]. intros Hv. split; [done|]. destruct (view_path _ _ _ Hok Hv) as [(ds & Hds & ->) _]. exists ds. split_and!; [|done|done].
  intros ->. rewrite (view_root f Hok : view f (render []) = _) in Hv. done.
Qed.

Lemma above_dir f p n q : fs_ok f → view f p = Some n → q ∈ above p → view f q = Some Dir.
Proof.
  intros Hok Hv (k & -> & Hk)%list_elem_of_fmap. destruct (view_path _ _ _ Hok Hv) as [(cs & Hcs & ->) _]. rewrite components_render in * by done.
  apply elem_of_seq in Hk. apply (view_ancestor f (take k cs) (drop k cs) n Hok); [by rewrite take_drop| |by rewrite take_drop].
  intros E. apply (f_equal length) in E. rewrite length_drop in E. cbn in E. lia.
Qed.

Lemma listing_files R f fuel : snapshotable R f → (63 <= fuel)%nat →
  let fs := listing fuel f [slash] in Forall file_ok fs ∧ Forall (λ x, bytes_ok x.2) fs ∧ Forall storable fs ∧ consistent fs.
Proof.
  intros [Hok Hcl Hfile Hmax] Hf. cbn zeta.
  assert (∀ x, x ∈ listing fuel f [slash] → view f x.1 = Some (File x.2)) as Hin by (intros [p d] Hx; by apply listing_root in Hx).
  assert (∀ p d, view f p = Some (File d) → (∃ cs, Forall component_ok cs ∧ p = render cs) ∧ text_len p < 64 ∧ p ≠ [slash]) as Hpath.
  { intros p d Hv. destruct (view_path _ _ _ Hok Hv) as [Hc Hl]. split_and!; [done|done|]. intros ->. by rewrite (view_root f Hok) in Hv. }
  split_and!; apply Forall_forall; intros [p d] Hx; pose proof (Hin _ Hx) as Hv; cbn [fst snd] in *;
    destruct (Hfile p d Hv) as (Hnul & Hby & Hlen); destruct (Hpath p d Hv) as ((cs & Hcs & E) & Hl & Hne).
  - split_and!; [|done|cbn; lia]. cbn. intros ->. by destruct cs.
  - done.
  - split_and!; [|done|cbn; lia]. cbn. rewrite E in *. by apply normalize_render.
  - apply Forall_forall. intros [p' d'] Hx'. pose proof (Hin _ Hx') as Hv'. cbn [fst snd] in *. split; [intros ->; congruence|].
    intros Hq. rewrite (above_dir f p' _ p Hok Hv' Hq) in Hv. done.
Qed.

Section ram_snapshot.
Context {H : Type} `{HD : Disks H} `{!DisksLaws H} (driver : nat → BlockDevice) (ide : nat) (nb : Z → option (list Z)).
#[local] Instance saved_inst : FileSystem ramfs := ramfs_fs nb.

End ram_snapshot.

(** A tree with a file of 600 bytes, saved on the RAM disk. *)
#[local] Transparent boot_fs.
#[local] Instance demo_fs : FileSystem ramfs := ramfs_fs zero_allocator.

Definition demo_tree : ramfs :=
  match restore_file boot_fs (txt "/etc/motd") (replicate 600 65) with Done f => f | _ => boot_fs end.
Definition demo_files : files := listing 70 demo_tree [slash].

Definition demo_saved : outcome (option (bool * @storage ramdisk * option ramfs)) :=
  storage_snapshot_save usb_driver 0 zero_allocator 70 demo_store (Some demo_tree) (Some (txt "backup")).
Definition demo_store' : @storage ramdisk := match demo_saved with Done (Some (_, s, _)) => s | _ => demo_store end.
Definition demo_entry : IndexEntry := snapshot_entry demo_store (txt "backup") demo_files.
Definition demo_payload : list Z :=
  match storage_read_raw usb_driver 0 demo_store' (ie_start demo_entry) (ie_sectors demo_entry) with Some (Some data, _) => data | _ => [] end.

Lemma demo_tree_ok : fs_ok demo_tree ∧ all_closed demo_tree.
Proof.
  assert (storable (txt "/etc/motd", replicate 600 65)) as Hs by (split_and!; [vm_compute; reflexivity|discriminate|vm_compute; congruence]).
  destruct (restore_file_ram zero_allocator zero_allocator_good boot_fs _ _ boot_ok boot_closed Hs) as (g & E & (Hok & Hcl & _) & _).
  unfold demo_tree, demo_fs. unfold ram_inst in E. rewrite E. by split.
Qed.

Lemma view_checked f (P : text → list Z → Prop) :
  fs_ok f → Forall (λ i, in_used i = true → in_is_directory i = false → P (in_name i) (contents_of i)) (m_inodes f) →
  ∀ p d, view f p = Some (File d) → P p d.
Proof.
  intros Hok Hall p d (k & i & [Hi Hu] & <- & E)%view_Some; [|done]. rewrite Forall_lookup in Hall. specialize (Hall k i Hi Hu).
  unfold node_of in E. destruct (in_is_directory i); [done|]. injection E as ->. by apply Hall.
Qed.

Lemma demo_snapshotable : snapshotable 4 demo_tree.
Proof.
  split; [apply demo_tree_ok|apply demo_tree_ok| |lia]. apply (view_checked demo_tree (λ p d, no_nul p ∧ bytes_ok d ∧ Z.of_nat (length d) <= 512 * Z.of_nat 4));
    [apply demo_tree_ok|]. apply (bool_decide_unpack _). vm_compute. exact I.
Qed.

Lemma demo_index : index_ok (sector_at demo_store 0 2) [].
Proof.
  assert (sector_at demo_store 0 2 = replicate 512 0) as -> by (vm_compute; reflexivity). apply blank_index.
Qed.

Lemma demo_saved_true : ∃ fo, demo_saved = Done (Some (true, demo_store', fo)).
Proof.
  unfold demo_store'. destruct demo_saved as [[[[[] s'] fo]|]| |] eqn:E; [by eauto|exfalso..];
    assert (match demo_saved with Done (Some (true, _, _)) => true | _ => false end = true) as X by (vm_compute; reflexivity);
    rewrite E in X; discriminate X.
Qed.

Lemma demo_payload_read : ∃ s'', storage_read_raw usb_driver 0 demo_store' (ie_start demo_entry) (ie_sectors demo_entry) = Some (Some demo_payload, s'').
Proof.
  unfold demo_payload. destruct (storage_read_raw usb_driver 0 demo_store' _ _) as [[[data|] s'']|] eqn:E; [by eauto|exfalso..];
    assert (match storage_read_raw usb_driver 0 demo_store' (ie_start demo_entry) (ie_sectors demo_entry) with Some (Some _, _) => true | _ => false end = true)
      as X by (vm_compute; reflexivity); rewrite E in X; discriminate X.
Qed.

Lemma demo_entry_ok : entry_ok demo_entry.
Proof.
  split; [|cbn; unfold DATA_START_LBA; lia|unfold demo_entry; cbn [snapshot_entry ie_sectors]; split; vm_compute; congruence].
  split_and!; [discriminate|apply (bool_decide_unpack _); vm_compute; exact I|vm_compute; congruence].
Qed.

Lemma demo_can_put p c : view demo_tree p = Some (File c) → can_put (view boot_fs) p.
Proof.
  revert p c. apply (view_checked demo_tree (λ p _, can_put (view boot_fs) p)); [apply demo_tree_ok|].
  assert (Forall (λ i, in_used i = true → in_is_directory i = false →
    Forall (λ q, view boot_fs q = Some Dir) (above (in_name i)) ∧ view boot_fs (in_name i) ≠ Some Dir) (m_inodes demo_tree)) as X
    by (apply (bool_decide_unpack _); vm_compute; exact I).
  eapply Forall_impl; [exact X|]. intros i Hi Hu Hd. destruct (Hi Hu Hd) as [H1 H2]. split; [|done]. intros q c Hq.
  rewrite Forall_forall in H1. by rewrite (H1 q Hq).
Qed.

