(* ===== verification/Loader.v ===== *)
(** * The user program loader ([kernel/loader/elf.hpp], [userland.hpp], [userland.cpp])

    [UserBinaryLoader::load] maps the loadable segments of a 32-bit ELF image
    at their virtual addresses, copies them in and enters user mode.  Its
    stores go through the page tables it has just filled, so the model keeps
    physical memory and translates every address: two pages may be given the
    same frame or one page a second frame, and the bytes follow.  The image is
    a buffer of its own that the mapping does not move.  Entering user mode
    does not return: it is the result of [load]. *)

From S2P Require Import Prelude Memory Pmm Vmm Paging CText Serial.

(** ** ELF ([elf.hpp]) *)

Definition sizeof_ELFHeader : Z := 52.
Definition sizeof_ProgramHeader : Z := 32.
Definition PT_LOAD : Z := 1.
Definition PF_W : Z := 2.
Definition EM_386 : Z := 3.

Abbreviation elf_bytes := (list Z).
Definition img_size (img : elf_bytes) : Z := Z.of_nat (length img).

Definition half (img : elf_bytes) (off : Z) : Z := zget img off + 256 * zget img (off + 1).
Definition word (img : elf_bytes) (off : Z) : Z := half img off + 65536 * half img (off + 2).

(** The fields of the header the loader reads. *)
Record ELFHeader := mk_elf {
  e_ident : list Z;
  e_machine : Z;
  e_entry : Z;
  e_phoff : Z;
  e_phentsize : Z;
  e_phnum : Z;
}.

Definition elf_header (img : elf_bytes) : ELFHeader :=
  mk_elf (take 16 img) (half img 18) (word img 24) (word img 28) (half img 42) (half img 44).

Record ProgramHeader := mk_phdr {
  p_type : Z;
  p_offset : Z;
  p_vaddr : Z;
  p_filesz : Z;
  p_memsz : Z;
  p_flags : Z;
}.

Definition program_header (img : elf_bytes) (off : Z) : ProgramHeader :=
  mk_phdr (word img off) (word img (off + 4)) (word img (off + 8)) (word img (off + 16)) (word img (off + 20)) (word img (off + 24)).

Definition is_elf (hdr : ELFHeader) : bool :=
  (zget (e_ident hdr) 0 =? 127) && (zget (e_ident hdr) 1 =? 69) && (zget (e_ident hdr) 2 =? 76) && (zget (e_ident hdr) 3 =? 70).

(** ** Messages ([userland.cpp]) *)

Inductive va_arg := ArgU (v : Z) | ArgS (s : text).

(** [while (v) { hex[len++] = digits[v & 0xF]; v >>= 4; }]: at most eight
    digits of a 32-bit value, the last one first. *)
Fixpoint hex_lsb (fuel : nat) (v : Z) : text :=
  match fuel with
  | O => []
  | S fuel' => if v =? 0 then [] else ascii_of_nat (Z.to_nat (hex_digit (Z.land v 15))) :: hex_lsb fuel' (Z.shiftr v 4)
  end.

(** [while (v) { dec[len++] = '0' + (v % 10); v /= 10; }]: at most ten. *)
Fixpoint dec_lsb (fuel : nat) (v : Z) : text :=
  match fuel with
  | O => []
  | S fuel' => if v =? 0 then [] else ascii_of_nat (Z.to_nat (48 + v mod 10)) :: dec_lsb fuel' (v / 10)
  end.

Definition hex_text (v : Z) : text := if v =? 0 then txt "0" else reverse (hex_lsb 8 v).
Definition dec_text (v : Z) : text := if v =? 0 then txt "0" else reverse (dec_lsb 10 v).

Definition fmt_end : Z := 511.

(** Copying while [out < end]. *)
Definition put (out t : text) : text := out ++ take (Z.to_nat (fmt_end - text_len out)) t.

(** The loop of [debug_log_fmt] over the format; [None] is a read past its end
    or past the arguments. *)
Fixpoint format (fmt : text) (args : list va_arg) (out : text) : option text :=
  match fmt with
  | [] => Some out
  | c :: fmt1 =>
      if fmt_end <=? text_len out then Some out
      else if Ascii.eqb c "%"%char then
        match fmt1 with
        | [] => None
        | d :: fmt2 =>
            if Ascii.eqb d "X"%char then
              match args with ArgU v :: args' => format fmt2 args' (put out (hex_text v)) | _ => None end
            else if Ascii.eqb d "u"%char then
              match args with ArgU v :: args' => format fmt2 args' (put out (dec_text v)) | _ => None end
            else if Ascii.eqb d "s"%char then
              match args with ArgS s :: args' => format fmt2 args' (put out s) | _ => None end
            else if Ascii.eqb d "%"%char then format fmt2 args (out ++ txt "%")
            else format fmt2 args (out ++ ["%"%char; d])
        end
      else format fmt1 args (out ++ [c])
  end.

(** ** The loader *)

Section loader.
Context {P V : Type} `{FrameAllocatorLaws P} `{PageMapperLaws V}.

Record loader := mk_loader {
  ld_frames : P;
  ld_pages : V;
  ld_mem : memory;
  ld_console : serial;
}.

(** How a run stops early: [return false], a store to an unmapped page, or an
    access outside the image or a message buffer. *)
Inductive halt := Failed | PageFault | Overrun.

Definition M (A : Type) : Type := loader → (halt + A) * loader.
#[export] Instance M_ret : MRet M := λ A a l, (inr a, l).
#[export] Instance M_bind : MBind M := λ A B f m l,
  match m l with
  | (inr a, l') => f a l'
  | (inl h, l') => (inl h, l')
  end.
Definition stop {A} (h : halt) : M A := λ l, (inl h, l).

Definition debug_log (msg : text) : M unit := λ l,
  (inr tt, mk_loader (ld_frames l) (ld_pages l) (ld_mem l) (write (write (ld_console l) (Some msg)) (Some [ascii_of_nat 13; ascii_of_nat 10]))).

Definition debug_log_fmt (fmt : text) (args : list va_arg) : M unit :=
  match format fmt args [] with
  | Some t => if text_len t <=? fmt_end then debug_log t else stop Overrun
  | None => stop Overrun
  end.

Definition fail {A} (msg : text) : M A := debug_log msg;; stop Failed.

Definition pmm_alloc_frame : M Z := λ l,
  let '(r, p) := frame_alloc (ld_frames l) in (inr r, mk_loader p (ld_pages l) (ld_mem l) (ld_console l)).
Definition vmm_map_page (virt phys : Z) (w u : bool) : M bool := λ l,
  let '(ok, v) := page_map (ld_pages l) virt phys w u in (inr ok, mk_loader (ld_frames l) v (ld_mem l) (ld_console l)).

(** A kernel-mode store through the page tables. *)
Definition translate (v : V) (a : Z) : option Z := f ← page_frame v a; Some (f * 4096 + a mod 4096).
Definition store_user (a b : Z) : M unit := λ l,
  match translate (ld_pages l) a with
  | Some p => (inr tt, mk_loader (ld_frames l) (ld_pages l) (store8 (ld_mem l) p b) (ld_console l))
  | None => (inl PageFault, l)
  end.

Definition image_byte (img : elf_bytes) (off : Z) : M Z :=
  match img !! Z.to_nat off with Some b => mret b | None => stop Overrun end.

(** Pointers are 32 bits wide. *)
Fixpoint copy_bytes (len : nat) (img : elf_bytes) (dst src : Z) : M unit :=
  match len with
  | O => mret tt
  | S len' => b ← image_byte img src; store_user dst b;; copy_bytes len' img (dst +u 1) (src +u 1)
  end.

Fixpoint zero_bytes (len : nat) (dst : Z) : M unit :=
  match len with
  | O => mret tt
  | S len' => store_user dst 0;; zero_bytes len' (dst +u 1)
  end.

(** [for (page = page_start; page < page_end; page += 0x1000)] *)
Definition pages_between (page_start page_end : Z) : list Z :=
  (λ k, page_start + 4096 * k) <$> seqZ 0 ((page_end - page_start) / 4096).

Fixpoint map_pages (pages : list Z) (writable : bool) : M unit :=
  match pages with
  | [] => mret tt
  | page :: pages' =>
      phys ← pmm_alloc_frame;
      if phys =? 0 then fail (txt "[loader] out of physical frames")
      else
        ok ← vmm_map_page page phys writable true;
        if negb ok then fail (txt "[loader] map user segment failed")
        else map_pages pages' writable
  end.

(** One turn of the loop over program headers; the result is [highest_addr]. *)
Definition load_segment (img : elf_bytes) (ph : ProgramHeader) (highest_addr : Z) : M Z :=
  if negb (p_type ph =? PT_LOAD) then mret highest_addr
  else if p_memsz ph <? p_filesz ph then fail (txt "[loader] memsz < filesz")
  else
    let seg_end := p_vaddr ph +u p_memsz ph in
    let highest_addr := if highest_addr <? seg_end then seg_end else highest_addr in
    debug_log_fmt (txt "[loader] segment: vaddr=0x%X filesz=%u") [ArgU (p_vaddr ph); ArgU (p_filesz ph)];;
    if img_size img <? p_offset ph +u p_filesz ph then fail (txt "[loader] segment data out of bounds")
    else
      let page_start := Z.land (p_vaddr ph) 4294963200 in
      let page_end := Z.land (seg_end +u 4095) 4294963200 in
      map_pages (pages_between page_start page_end) (negb (Z.land (p_flags ph) PF_W =? 0));;
      copy_bytes (Z.to_nat (p_filesz ph)) img (p_vaddr ph) (p_offset ph);;
      (if p_filesz ph <? p_memsz ph
       then zero_bytes (Z.to_nat (p_memsz ph - p_filesz ph)) (p_vaddr ph +u p_filesz ph)
       else mret tt);;
      mret highest_addr.

Fixpoint load_segments (img : elf_bytes) (offs : list Z) (highest_addr : Z) : M Z :=
  match offs with
  | [] => mret highest_addr
  | off :: offs' =>
      if img_size img <? off + sizeof_ProgramHeader then stop Overrun
      else
        highest_addr ← load_segment img (program_header img off) highest_addr;
        load_segments img offs' highest_addr
  end.

(** The offsets of the program headers in the image. *)
Definition phdr_offsets (hdr : ELFHeader) : list Z :=
  (λ i, e_phoff hdr +u (i *u e_phentsize hdr)) <$> seqZ 0 (e_phnum hdr).

(** The result is the entry point and the stack pointer user mode starts with. *)
Definition load (img : elf_bytes) (name : text) : M (Z * Z) :=
  if img_size img <? sizeof_ELFHeader then fail (txt "[loader] image too small")
  else
    let hdr := elf_header img in
    if negb (is_elf hdr) then fail (txt "[loader] invalid ELF magic")
    else if negb (e_machine hdr =? EM_386) then fail (txt "[loader] unsupported machine type")
    else if negb (e_phentsize hdr =? sizeof_ProgramHeader) then fail (txt "[loader] invalid ph entry size")
    else if e_phnum hdr =? 0 then fail (txt "[loader] no loadable segments")
    else
      debug_log_fmt (txt "[loader] ELF entry=0x%X phnum=%u") [ArgU (e_entry hdr); ArgU (e_phnum hdr)];;
      if img_size img <? e_phoff hdr +u (e_phnum hdr *u e_phentsize hdr) then fail (txt "[loader] program headers out of bounds")
      else
        highest_addr ← load_segments img (phdr_offsets hdr) 0;
        if highest_addr =? 0 then fail (txt "[loader] no PT_LOAD segment")
        else
          let stack_page := Z.land (highest_addr +u 131071) 4294963200 in
          stack_phys ← pmm_alloc_frame;
          ok ← (if stack_phys =? 0 then mret false else vmm_map_page stack_page stack_phys true true);
          if negb ok then fail (txt "[loader] map user stack failed")
          else
            debug_log_fmt (txt "[loader] userland %s loaded entry=0x%X") [ArgS name; ArgU (e_entry hdr)];;
            mret (e_entry hdr, (stack_page +u 4096) -u 16).
End loader.
