(* ===== verification/LoaderSpec.v ===== *)
(** * What the loader guarantees

    For a well-formed image the loader either reports failure or enters the
    program with every segment in place: the bytes seen through the page
    tables are the file's bytes followed by zeros, and nothing outside the
    frames it took changed. *)

From S2P Require Import Prelude Memory Pmm Vmm Paging Heap AddressSpace CText Serial Loader.

(** ** Messages *)

(** The conversions of a format agree with its arguments. *)
Fixpoint fmt_ok (fmt : text) (args : list va_arg) : bool :=
  match fmt with
  | [] => true
  | c :: fmt1 =>
      if Ascii.eqb c "%"%char then
        match fmt1 with
        | [] => false
        | d :: fmt2 =>
            match args with
            | ArgU _ :: args' => (Ascii.eqb d "X"%char || Ascii.eqb d "u"%char) && fmt_ok fmt2 args'
            | ArgS _ :: args' => Ascii.eqb d "s"%char && fmt_ok fmt2 args'
            | [] => false
            end
        end
      else fmt_ok fmt1 args
  end.

Lemma put_bound out t : text_len out <= fmt_end → text_len (put out t) <= fmt_end.
Proof. unfold put, text_len, fmt_end. rewrite length_app, length_take. lia. Qed.

(** A message never leaves the buffer. *)
Lemma format_bound n : ∀ fmt args out,
  (length fmt <= n)%nat → fmt_ok fmt args = true → text_len out <= fmt_end →
  ∃ t, format fmt args out = Some t ∧ text_len t <= fmt_end.
Proof.
  induction n as [|n IH]; intros [|c fmt1] args out Hn Hok Hl; cbn [length] in Hn; [by eauto|lia|by eauto|].
  cbn [format fmt_ok] in *. destruct (fmt_end <=? text_len out) eqn:E; [by eauto|]. zbool.
  destruct (Ascii.eqb c "%"%char).
  - destruct fmt1 as [|d fmt2]; [done|]. cbn [length] in Hn. destruct args as [|[v|s] args]; [done|..];
      apply andb_true_iff in Hok as [Hd Hok].
    + destruct (Ascii.eqb d "X"%char); [apply IH; [lia|done|by apply put_bound]|]. cbn [orb] in Hd. rewrite Hd.
      apply IH; [lia|done|by apply put_bound].
    + apply Ascii.eqb_eq in Hd as ->. cbn. apply IH; [lia|done|by apply put_bound].
  - apply IH; [lia|done|]. unfold text_len in *. rewrite length_app. cbn [length]. lia.
Qed.

Section loader_spec.
Context {P V : Type} `{FrameAllocatorLaws P} `{PageMapperLaws V}.
Abbreviation loader := (@loader P V).
Abbreviation M := (@M P V).

(** ** Running: failure is allowed, faults and overruns are not *)

(** Physical memory outside the frames that were free is as before. *)
Definition spared (l0 l : loader) : Prop :=
  ∀ p, p / 4096 ∉ frames_free (ld_frames l0) → load8 (ld_mem l) p = load8 (ld_mem l0) p.

Definition runs {A} (l0 : loader) (m : M A) (l : loader) (Q : A → loader → Prop) : Prop :=
  match m l with
  | (inr a, l') => Q a l'
  | (inl h, l') => h = Failed ∧ spared l0 l'
  end.

Lemma runs_bind {A B} l0 (m : M A) (f : A → M B) l Q :
  runs l0 m l (λ a l', runs l0 (f a) l' Q) → runs l0 (m ≫= f) l Q.
Proof. unfold runs, mbind, M_bind. destruct (m l) as [[h|a] l']; done. Qed.

Lemma runs_ret {A} l0 (a : A) l (Q : A → loader → Prop) : Q a l → runs l0 (mret a) l Q.
Proof. done. Qed.

Lemma runs_mono {A} l0 (m : M A) l (Q Q' : A → loader → Prop) : runs l0 m l Q → (∀ a l', Q a l' → Q' a l') → runs l0 m l Q'.
Proof. unfold runs. destruct (m l) as [[h|a] l']; auto. Qed.

Lemma runs_ext {A} l0 (m m' : M A) l Q : m l = m' l → runs l0 m' l Q → runs l0 m l Q.
Proof. unfold runs. by intros ->. Qed.

Lemma bind_assoc {A B C} (m : M A) (f : A → M B) (g : B → M C) l : (m ≫= λ a, f a ≫= g) l = ((m ≫= f) ≫= g) l.
Proof. unfold mbind, M_bind. by destruct (m l) as [[h|a] l']. Qed.

Lemma runs_fail {A} l0 t l (Q : A → loader → Prop) : spared l0 l → runs l0 (fail t) l Q.
Proof. by split. Qed.

(** Logging changes the console only. *)
Definition same_core (l l' : loader) : Prop := ld_frames l' = ld_frames l ∧ ld_pages l' = ld_pages l ∧ ld_mem l' = ld_mem l.

Lemma runs_log_fmt l0 fmt args l (Q : unit → loader → Prop) :
  fmt_ok fmt args = true → (∀ l', same_core l l' → Q tt l') → runs l0 (debug_log_fmt fmt args) l Q.
Proof.
  intros Hf HQ. unfold debug_log_fmt. destruct (format_bound (length fmt) fmt args []) as (t & -> & Ht); [lia|done|done|].
  rewrite (proj2 (Z.leb_le _ _)) by done. by apply HQ.
Qed.

(** ** The state of a load *)

Definition byte_at (l : loader) (a : Z) : option Z := load8 (ld_mem l) <$> translate (ld_pages l) a.

(** [D] is the set of pages mapped so far, from the state [l0]. *)
Record loading (l0 l : loader) (D : Z → Prop) : Prop := {
  lg_frames : frames_ok (ld_frames l);
  lg_pages : pages_ok (ld_pages l);
  lg_free : frames_free (ld_frames l) ⊆ frames_free (ld_frames l0);
  lg_done : ∀ g, D g → ∃ f, f ∈ frames_free (ld_frames l0) ∖ frames_free (ld_frames l) ∧
    ∀ x, 0 <= x < 4294967296 → x / 4096 = g → page_frame (ld_pages l) x = Some f;
  lg_inj : ∀ x y f, 0 <= x < 4294967296 → 0 <= y < 4294967296 → D (x / 4096) → D (y / 4096) →
    page_frame (ld_pages l) x = Some f → page_frame (ld_pages l) y = Some f → x / 4096 = y / 4096;
  lg_other : ∀ x, 0 <= x < 4294967296 → ¬ D (x / 4096) → page_frame (ld_pages l) x = page_frame (ld_pages l0) x;
  lg_mem : spared l0 l;
}.

(** Bytes already loaded stay. *)
Definition keeps (D : Z → Prop) (l l' : loader) : Prop :=
  ∀ x, 0 <= x < 4294967296 → D (x / 4096) → byte_at l' x = byte_at l x.

Lemma loading_core l0 l l' D : same_core l l' → loading l0 l D → loading l0 l' D ∧ keeps D l l'.
Proof.
  intros (Hf & Hp & Hm) [H1' H2' H3' H4' H5' H6' H7']. unfold keeps, byte_at. rewrite Hp, Hm. split; [|done].
  split; unfold spared in *; rewrite ?Hf, ?Hp, ?Hm; done.
Qed.

Lemma keeps_trans D l1 l2 l3 : keeps D l1 l2 → keeps D l2 l3 → keeps D l1 l3.
Proof. intros Ha Hb x Hx HD. by rewrite (Hb x Hx HD), (Ha x Hx HD). Qed.

Lemma keeps_sub (D D' : Z → Prop) l l' : (∀ g, D g → D' g) → keeps D' l l' → keeps D l l'.
Proof. intros Hsub Hk x Hx HD. apply Hk; auto. Qed.

(** *** One more page *)

Lemma map_one l0 l D page w r p' v' con :
  loading l0 l D → 0 <= page < 4294967296 → ¬ D (page / 4096) →
  frame_alloc (ld_frames l) = (r, p') → r ≠ 0 → page_map (ld_pages l) page r w true = (true, v') →
  let l' := mk_loader p' v' (ld_mem l) con in loading l0 l' (λ g, D g ∨ g = page / 4096) ∧ keeps D l l'.
Proof.
  intros [Hfr Hpg Hfree Hdone Hinj Hoth Hmem] Hpage HD Ea Hr0 Ep.
  pose proof (frame_alloc_law (ld_frames l) Hfr) as Ha. rewrite Ea in Ha.
  destruct Ha as [Hfr' [[-> _]|(Hr & Hmod & Hin & Hfree')]]; [done|].
  pose proof (page_map_law (ld_pages l) page r w true Hpg ltac:(lia) ltac:(lia)) as Hm. rewrite Ep in Hm.
  destruct Hm as (Hpg' & _ & Hm). specialize (Hm eq_refl). split.
  - split; cbn [ld_pages ld_frames ld_mem]; [done|done|set_solver| | | |done].
    + intros g [Hg| ->].
      * destruct (Hdone g Hg) as (f & Hf & Hx). exists f. split; [set_solver|]. intros x Hr' Hx'. rewrite Hm by done.
        rewrite (proj2 (Z.eqb_neq _ _)) by (intros ?; congruence). auto.
      * exists (r / 4096). split; [set_solver|]. intros x Hr' Hx'. rewrite Hm by done. by rewrite (proj2 (Z.eqb_eq _ _)).
    + intros x y f Hx Hy HDx HDy. rewrite !Hm by done.
      assert (∀ z, 0 <= z < 4294967296 → D (z / 4096) → page_frame (ld_pages l) z ≠ Some (r / 4096)) as Hold.
      { intros z Hz HDz E. destruct (Hdone _ HDz) as (f' & Hf' & Hz'). rewrite (Hz' z Hz eq_refl) in E. injection E as ->. set_solver. }
      destruct (x / 4096 =? page / 4096) eqn:Ex, (y / 4096 =? page / 4096) eqn:Ey; zbool; [congruence|..].
      * intros [= <-] E. destruct HDy as [HDy|]; [|done]. by destruct (Hold y Hy HDy).
      * intros E [= <-]. destruct HDx as [HDx|]; [|done]. by destruct (Hold x Hx HDx).
      * destruct HDx as [HDx|]; [|done]. destruct HDy as [HDy|]; [|done]. by apply Hinj.
    + intros x Hx HDx. rewrite Hm by done. rewrite (proj2 (Z.eqb_neq _ _)) by (intros ?; apply HDx; by right).
      apply Hoth; [done|]. intros ?. apply HDx. by left.
  - intros x Hx HDx. unfold byte_at, translate. cbn [ld_pages ld_mem]. rewrite Hm by done.
    by rewrite (proj2 (Z.eqb_neq _ _)) by (intros ?; congruence).
Qed.

Lemma map_page_runs l0 l D page w (Q : unit → loader → Prop) pages :
  loading l0 l D → 0 <= page < 4294967296 → ¬ D (page / 4096) →
  (∀ l', loading l0 l' (λ g, D g ∨ g = page / 4096) → keeps D l l' → runs l0 (map_pages pages w) l' Q) →
  runs l0 (map_pages (page :: pages) w) l Q.
Proof.
  intros Hl Hpage HD HQ. pose proof (lg_mem _ _ _ Hl) as Hmem. cbn [map_pages]. apply runs_bind. unfold runs at 1, pmm_alloc_frame.
  destruct (frame_alloc (ld_frames l)) as [r p'] eqn:Ea. destruct (r =? 0) eqn:Er; [by apply runs_fail|]. zbool.
  apply runs_bind. unfold runs at 1, vmm_map_page. cbn [ld_pages ld_frames ld_mem ld_console].
  destruct (page_map (ld_pages l) page r w true) as [[] v'] eqn:Ep; [|by apply runs_fail].
  destruct (map_one l0 l D page w r p' v' (ld_console l) Hl Hpage HD Ea Er Ep) as [Hl' Hk]. by apply HQ.
Qed.

Lemma loading_iff l0 l (D D' : Z → Prop) : (∀ g, D g ↔ D' g) → loading l0 l D → loading l0 l D'.
Proof.
  intros HD [H1' H2' H3' H4' H5' H6' H7']. split; [done|done|done| | | |done].
  - intros g Hg%HD. by apply H4'.
  - intros x y f Hx Hy HDx%HD HDy%HD. by apply H5'.
  - intros x Hx HDx. apply H6'; [done|]. by rewrite HD.
Qed.

Lemma map_pages_runs l0 w pages : ∀ l D,
  loading l0 l D → Forall (λ p, 0 <= p < 4294967296 ∧ ¬ D (p / 4096)) pages → NoDup ((λ p, p / 4096) <$> pages) →
  runs l0 (map_pages pages w) l (λ _ l', loading l0 l' (λ g, D g ∨ g ∈ (λ p, p / 4096) <$> pages) ∧ keeps D l l').
Proof.
  induction pages as [|page pages IH]; intros l D Hl Hall Hnd.
  { apply runs_ret. split; [|done]. eapply loading_iff; [|exact Hl]. intros g. cbn. rewrite elem_of_nil. tauto. }
  apply Forall_cons in Hall as [[Hp HD] Hall]. cbn [fmap list_fmap] in *. apply NoDup_cons in Hnd as [Hni Hnd].
  apply (map_page_runs l0 l D); [done|done|done|]. intros l' Hl' Hk. eapply runs_mono; [apply (IH l' (λ g, D g ∨ g = page / 4096)); [done| |done]|].
  - rewrite Forall_forall in Hall |- *. intros q Hq. destruct (Hall q Hq) as [Hqr HqD]. split; [done|]. intros [?|E]; [done|].
    apply Hni. rewrite <- E. by apply (list_elem_of_fmap_2 (λ p, p / 4096)).
  - intros _ l'' [Hl'' Hk']. split.
    + eapply loading_iff; [|exact Hl'']. intros g. cbn. rewrite elem_of_cons. tauto.
    + eapply keeps_trans; [exact Hk|]. eapply keeps_sub; [|exact Hk']. intros g Hg. by left.
Qed.

Lemma pages_between_numbers s e g :
  0 <= s → s mod 4096 = 0 → e mod 4096 = 0 → g ∈ (λ p, p / 4096) <$> pages_between s e ↔ s / 4096 <= g < e / 4096.
Proof.
  intros Hs Hms Hme. unfold pages_between. rewrite <- list_fmap_compose, list_elem_of_fmap.
  assert (∀ k, (s + 4096 * k) / 4096 = s / 4096 + k) as Hk by (intros k; rewrite Z.mul_comm, Z.div_add by lia; done).
  assert ((e - s) / 4096 = e / 4096 - s / 4096) as Hd.
  { pose proof (Z.div_mod s 4096 ltac:(lia)). pose proof (Z.div_mod e 4096 ltac:(lia)).
    replace (e - s) with ((e / 4096 - s / 4096) * 4096) by lia. apply Z.div_mul. lia. }
  rewrite Hd. split.
  - intros (k & -> & Hin%elem_of_seqZ). unfold compose. rewrite Hk. lia.
  - intros Hg. exists (g - s / 4096). split; [unfold compose; rewrite Hk; lia|]. apply elem_of_seqZ. lia.
Qed.

Lemma pages_between_nodup s e : NoDup ((λ p, p / 4096) <$> pages_between s e).
Proof.
  unfold pages_between. rewrite <- list_fmap_compose. apply NoDup_fmap_2_strong; [|apply NoDup_seqZ]. intros i j _ _. unfold compose.
  rewrite !(Z.mul_comm 4096), !Z.div_add by lia. lia.
Qed.

(** *** Storing *)

Lemma store_runs l0 l D x b :
  loading l0 l D → 0 <= x < 4294967296 → D (x / 4096) → 0 <= b < 256 →
  runs l0 (store_user x b) l (λ _ l', loading l0 l' D ∧ byte_at l' x = Some b ∧
    ∀ y, 0 <= y < 4294967296 → D (y / 4096) → y ≠ x → byte_at l' y = byte_at l y).
Proof.
  intros [Hfr Hpg Hfree Hdone Hinj Hoth Hmem] Hx HD Hb. unfold spared in *. unfold runs, store_user, translate.
  destruct (Hdone _ HD) as (f & Hf & Hfx). rewrite (Hfx x Hx eq_refl). cbn [mbind option_bind].
  assert (∀ a c, (a * 4096 + c mod 4096) / 4096 = a) as Hdiv.
  { intros a c. pose proof (Z.mod_pos_bound c 4096 ltac:(lia)). symmetry. apply (Z.div_unique _ _ _ (c mod 4096)); lia. }
  split_and!.
  - split; cbn [ld_pages ld_frames ld_mem]; try done. intros p Hp. cbn [ld_mem]. rewrite load8_store8_ne; [by apply Hmem|].
    intros <-. rewrite Hdiv in Hp. set_solver.
  - unfold byte_at, translate. cbn [ld_pages ld_mem]. rewrite (Hfx x Hx eq_refl). cbn. by rewrite load8_store8_eq, u8_small.
  - intros y Hy HDy Hne. unfold byte_at, translate. cbn [ld_pages ld_mem]. destruct (Hdone _ HDy) as (f' & _ & Hfy).
    rewrite (Hfy y Hy eq_refl). cbn. f_equal. apply load8_store8_ne. intros E.
    assert (f = f') as <- by (rewrite <- (Hdiv f x), <- (Hdiv f' y), E; done).
    pose proof (Hinj x y f Hx Hy HD HDy (Hfx x Hx eq_refl) (Hfy y Hy eq_refl)).
    pose proof (Z.div_mod x 4096). pose proof (Z.div_mod y 4096). lia.
Qed.

(** Both copying loops store a list of bytes. *)
Fixpoint store_list (bs : list Z) (dst : Z) : M unit :=
  match bs with
  | [] => mret tt
  | b :: bs' => store_user dst b;; store_list bs' (dst +u 1)
  end.

Lemma copy_bytes_list n img : ∀ dst src l,
  0 <= src → src + Z.of_nat n <= img_size img → img_size img < 4294967296 →
  copy_bytes n img dst src l = store_list (take n (drop (Z.to_nat src) img)) dst l.
Proof.
  unfold img_size. induction n as [|n IH]; intros dst src l Hs Hn Hmax; cbn [copy_bytes]; [done|].
  destruct (lookup_lt_is_Some_2 img (Z.to_nat src)) as [b Hb]; [lia|]. unfold image_byte. rewrite Hb.
  rewrite (drop_S _ _ _ Hb). cbn [take store_list]. unfold mbind, M_bind, mret, M_ret. destruct (store_user dst b l) as [[h|[]] l']; [done|].
  rewrite (u32_small (src + 1)), IH by lia. by replace (Z.to_nat (src + 1)) with (S (Z.to_nat src)) by lia.
Qed.

Lemma zero_bytes_list n : ∀ dst, zero_bytes n dst = store_list (replicate n 0) dst.
Proof. induction n as [|n IH]; intros dst; cbn [zero_bytes replicate store_list]; [done|]. by rewrite IH. Qed.

Lemma store_list_runs l0 D bs : ∀ l dst,
  loading l0 l D → 0 <= dst → dst + Z.of_nat (length bs) < 4294967296 → Forall (λ b, 0 <= b < 256) bs →
  (∀ x, dst <= x < dst + Z.of_nat (length bs) → D (x / 4096)) →
  runs l0 (store_list bs dst) l (λ _ l', loading l0 l' D ∧
    (∀ k, (k < length bs)%nat → byte_at l' (dst + Z.of_nat k) = bs !! k) ∧
    ∀ y, 0 <= y < 4294967296 → D (y / 4096) → y < dst ∨ dst + Z.of_nat (length bs) <= y → byte_at l' y = byte_at l y).
Proof.
  induction bs as [|b bs IH]; intros l dst Hl H0' Hmax Hb HD; cbn [store_list length] in *.
  { apply runs_ret. split_and!; [done|lia|done]. }
  apply Forall_cons in Hb as [Hb Hbs]. apply runs_bind. eapply runs_mono; [apply (store_runs l0 l D); [done|lia|apply HD; lia|done]|].
  intros _ l1 (Hl1 & Hb1 & Ho1). rewrite u32_small by lia.
  eapply runs_mono; [apply (IH l1 (dst + 1)); [done|lia|lia|done|intros x Hx; apply HD; lia]|].
  intros _ l2 (Hl2 & Hb2 & Ho2). split_and!; [done| |].
  - intros [|k] Hk.
    + rewrite Z.add_0_r, Ho2, Hb1 by (lia || (apply HD; lia)). done.
    + cbn [lookup list_lookup]. rewrite <- Hb2 by lia. f_equal. lia.
  - intros y Hy HDy Hout. rewrite Ho2, Ho1 by (done || lia). done.
Qed.

(** ** Segments *)

Definition seg_end (ph : ProgramHeader) : Z := p_vaddr ph + p_memsz ph.
Definition seg_pages (ph : ProgramHeader) (g : Z) : Prop := p_vaddr ph / 4096 <= g < (seg_end ph + 4095) / 4096.

Record phdr_ok (img : elf_bytes) (ph : ProgramHeader) : Prop := {
  po_filesz : 0 <= p_filesz ph <= p_memsz ph;
  po_file : 0 <= p_offset ph ∧ p_offset ph + p_filesz ph <= img_size img;
  po_vaddr : 0 <= p_vaddr ph ∧ seg_end ph + 4095 < 4294967296;
}.

(** The segment as the program sees it. *)
Definition seg_loaded (img : elf_bytes) (l : loader) (ph : ProgramHeader) : Prop :=
  ∀ k, 0 <= k < p_memsz ph →
    byte_at l (p_vaddr ph + k) = Some (if k <? p_filesz ph then zget img (p_offset ph + k) else 0).

Lemma seg_pages_in img ph x : phdr_ok img ph → p_vaddr ph <= x < seg_end ph → seg_pages ph (x / 4096).
Proof. intros [_ _ [H0' _]] Hx. unfold seg_pages. Z.div_mod_to_equations. lia. Qed.

Lemma seg_loaded_keeps img l l' ph (D : Z → Prop) :
  phdr_ok img ph → (∀ g, seg_pages ph g → D g) → keeps D l l' → seg_loaded img l ph → seg_loaded img l' ph.
Proof.
  intros Hok HD Hk Hs k Hk'. rewrite <- (Hs k Hk'). destruct Hok as [Ho1 Ho2 Ho3] eqn:E. clear E. unfold seg_end in *.
  apply Hk; [lia|]. apply HD. apply (seg_pages_in img); [done|]. unfold seg_end. lia.
Qed.

(** Mapping the pages of a segment. *)
Lemma map_segment_runs l0 l D img ph w :
  loading l0 l D → phdr_ok img ph → (∀ g, seg_pages ph g → ¬ D g) →
  runs l0 (map_pages (pages_between (Z.land (p_vaddr ph) 4294963200) (Z.land (seg_end ph +u 4095) 4294963200)) w) l
    (λ _ l', loading l0 l' (λ g, D g ∨ seg_pages ph g) ∧ keeps D l l').
Proof.
  intros Hl [Ho1 Ho2 Ho3] HD. unfold seg_end in Ho3. rewrite u32_small by (unfold seg_end; lia). fold kPageMask.
  rewrite !page_mask_spec by (unfold seg_end; lia).
  set (s := p_vaddr ph / 4096 * 4096). set (e := (seg_end ph + 4095) / 4096 * 4096).
  assert (∀ g, g ∈ (λ p, p / 4096) <$> pages_between s e ↔ seg_pages ph g) as Hg.
  { intros g. rewrite pages_between_numbers by (unfold s, e; first [apply Z.mod_mul; lia | Z.div_mod_to_equations; lia]).
    unfold s, e. by rewrite !Z.div_mul by lia. }
  eapply runs_mono; [apply (map_pages_runs l0 w _ l D); [done| |apply pages_between_nodup]|].
  - apply Forall_forall. intros p Hp. assert (seg_pages ph (p / 4096)) as Hsp by (apply Hg; by apply (list_elem_of_fmap_2 (λ p, p / 4096))).
    split; [|by apply HD]. unfold seg_pages, seg_end in Hsp. clear -Hsp Ho1 Ho3. Z.div_mod_to_equations. lia.
  - intros _ l' [Hl' Hk]. split; [|done]. eapply loading_iff; [|exact Hl']. intros g. cbn. by rewrite Hg.
Qed.

Lemma slice_lookup (img : elf_bytes) off n k :
  0 <= off → (k < n)%nat → off + Z.of_nat n <= img_size img → take n (drop (Z.to_nat off) img) !! k = Some (zget img (off + Z.of_nat k)).
Proof.
  unfold img_size. intros H0' Hk Hn. rewrite lookup_take_lt, lookup_drop by done. unfold zget.
  replace (Z.to_nat (off + Z.of_nat k)) with (Z.to_nat off + k)%nat by lia. apply list_lookup_lookup_total_lt. lia.
Qed.

(** Filling a mapped segment: the file's bytes, then zeros. *)
Lemma fill_segment_runs l0 l D img ph :
  loading l0 l D → phdr_ok img ph → (∀ g, seg_pages ph g → D g) → Forall (λ b, 0 <= b < 256) img → img_size img < 4294967296 →
  runs l0 (copy_bytes (Z.to_nat (p_filesz ph)) img (p_vaddr ph) (p_offset ph);;
           if p_filesz ph <? p_memsz ph
           then zero_bytes (Z.to_nat (p_memsz ph - p_filesz ph)) (p_vaddr ph +u p_filesz ph) else mret tt) l
    (λ _ l', loading l0 l' D ∧ seg_loaded img l' ph ∧
       ∀ y, 0 <= y < 4294967296 → D (y / 4096) → y < p_vaddr ph ∨ seg_end ph <= y → byte_at l' y = byte_at l y).
Proof.
  intros Hl Hok HD Hb Hmax. assert (∀ x, p_vaddr ph <= x < seg_end ph → D (x / 4096)) as HDx by (intros x Hx; by apply HD, (seg_pages_in img)).
  destruct Hok as [Ho1 Ho2 Ho3]. unfold seg_end in *.
  set (bs := take (Z.to_nat (p_filesz ph)) (drop (Z.to_nat (p_offset ph)) img)).
  assert (length bs = Z.to_nat (p_filesz ph)) as Hlen by (unfold bs, img_size in *; rewrite length_take, length_drop; lia).
  apply runs_bind. eapply runs_ext; [apply copy_bytes_list; lia|]. fold bs.
  eapply runs_mono; [apply (store_list_runs l0 D bs l); [done|lia|lia|by apply Forall_take, Forall_drop|intros x Hx; apply HDx; lia]|].
  intros _ l1 (Hl1 & Hb1 & Ho1'). rewrite Hlen in *.
  assert (∀ k, 0 <= k < p_filesz ph → byte_at l1 (p_vaddr ph + k) = Some (zget img (p_offset ph + k))) as Hfile.
  { intros k Hk. replace k with (Z.of_nat (Z.to_nat k)) by lia. rewrite Hb1 by lia. apply slice_lookup; lia. }
  destruct (p_filesz ph <? p_memsz ph) eqn:E; zbool.
  - rewrite zero_bytes_list, u32_small by lia.
    eapply runs_mono; [apply (store_list_runs l0 D _ l1); [done|lia|rewrite length_replicate; lia|apply Forall_replicate; lia|
      intros x; rewrite length_replicate; intros Hx; apply HDx; lia]|].
    intros _ l2 (Hl2 & Hb2 & Ho2'). rewrite length_replicate in *. split_and!; [done| |].
    + intros k Hk. destruct (k <? p_filesz ph) eqn:Ek; zbool.
      * rewrite <- Hfile by lia. apply Ho2'; [lia|apply HDx; lia|lia].
      * replace (p_vaddr ph + k) with (p_vaddr ph + p_filesz ph + Z.of_nat (Z.to_nat (k - p_filesz ph))) by lia.
        rewrite Hb2 by lia. apply lookup_replicate_2. lia.
    + intros y Hy HDy Hout. rewrite Ho2', Ho1' by (done || lia). done.
  - apply runs_ret. split_and!; [done| |].
    + intros k Hk. rewrite (proj2 (Z.ltb_lt _ _)) by lia. apply Hfile. lia.
    + intros y Hy HDy Hout. apply Ho1'; [done|done|lia].
Qed.

Lemma load_segment_runs l0 l D img ph hi :
  loading l0 l D → p_type ph = PT_LOAD → phdr_ok img ph → (∀ g, seg_pages ph g → ¬ D g) →
  Forall (λ b, 0 <= b < 256) img → img_size img < 4294967296 →
  runs l0 (load_segment img ph hi) l
    (λ hi' l', hi' = Z.max hi (seg_end ph) ∧ loading l0 l' (λ g, D g ∨ seg_pages ph g) ∧ keeps D l l' ∧ seg_loaded img l' ph).
Proof.
  intros Hl Ht Hok HD Hb Hmax. pose proof Hok as [Ho1 Ho2 Ho3]. unfold load_segment. rewrite Ht. cbn [negb Z.eqb PT_LOAD Pos.eqb].
  rewrite (proj2 (Z.ltb_ge _ _)) by lia. rewrite (u32_small (p_vaddr ph + _)) by (unfold seg_end in *; lia). fold (seg_end ph).
  apply runs_bind, runs_log_fmt; [reflexivity|]. intros l1 Hc. destruct (loading_core _ _ _ _ Hc Hl) as [Hl1 Hk1].
  rewrite u32_small, (proj2 (Z.ltb_ge _ _)) by lia.
  apply runs_bind. eapply runs_mono; [by apply (map_segment_runs l0 l1 D img)|]. intros _ l2 [Hl2 Hk2].
  eapply runs_ext; [apply bind_assoc|]. apply runs_bind.
  eapply runs_mono; [apply (fill_segment_runs l0 l2 (λ g, D g ∨ seg_pages ph g) img ph); [done|done|by right|done|done]|].
  intros _ l3 (Hl3 & Hs & Ho). apply runs_ret. split_and!; [|done| |done].
  - destruct (hi <? seg_end ph) eqn:E; zbool; lia.
  - eapply keeps_trans; [exact Hk1|]. eapply keeps_trans; [exact Hk2|]. intros x Hx HDx. apply Ho; [done|by left|].
    destruct (decide (p_vaddr ph <= x < seg_end ph)) as [Hin|]; [|lia]. by destruct (HD _ (seg_pages_in img ph x Hok Hin)).
Qed.

(** ** All segments *)

Definition is_load (ph : ProgramHeader) : bool := p_type ph =? PT_LOAD.

Fixpoint disjoint_pages (phs : list ProgramHeader) : Prop :=
  match phs with
  | [] => True
  | ph :: phs' => Forall (λ q, ∀ g, seg_pages ph g → ¬ seg_pages q g) phs' ∧ disjoint_pages phs'
  end.

Definition top (hi : Z) (phs : list ProgramHeader) : Z := fold_left (λ h ph, Z.max h (seg_end ph)) phs hi.

Definition in_segments (phs : list ProgramHeader) (g : Z) : Prop := Exists (λ ph, seg_pages ph g) phs.

Lemma load_segments_runs l0 img offs : ∀ l D hi,
  let phs := List.filter is_load (program_header img <$> offs) in
  loading l0 l D → Forall (λ off, off + sizeof_ProgramHeader <= img_size img) offs → Forall (phdr_ok img) phs → disjoint_pages phs →
  (∀ g, in_segments phs g → ¬ D g) → Forall (λ b, 0 <= b < 256) img → img_size img < 4294967296 →
  runs l0 (load_segments img offs hi) l
    (λ hi' l', hi' = top hi phs ∧ loading l0 l' (λ g, D g ∨ in_segments phs g) ∧ keeps D l l' ∧ Forall (seg_loaded img l') phs).
Proof.
  induction offs as [|off offs IH]; intros l D hi phs Hl Hoffs Hok Hdis HD Hb Hmax; cbn [load_segments].
  { apply runs_ret. split_and!; [done| |done|constructor]. eapply loading_iff; [|exact Hl]. intros g. cbn. unfold in_segments. rewrite Exists_nil. tauto. }
  apply Forall_cons in Hoffs as [Hoff Hoffs]. rewrite (proj2 (Z.ltb_ge _ _)) by lia. apply runs_bind.
  subst phs. cbn [fmap list_fmap List.filter] in *. set (ph := program_header img off) in *.
  destruct (is_load ph) eqn:El.
  - apply Forall_cons in Hok as [Hp Hok]. destruct Hdis as [Hd Hdis].
    eapply runs_mono; [apply (load_segment_runs l0 l D img ph hi); [done|by apply Z.eqb_eq|done| |done|done]|].
    { intros g Hg. apply HD. by apply Exists_cons_hd. }
    intros hi1 l1 (-> & Hl1 & Hk1 & Hs1). eapply runs_mono; [apply (IH l1 (λ g, D g ∨ seg_pages ph g)); [done|done|done|done| |done|done]|].
    { intros g Hg [HDg|Hpg]; [by apply (HD g); [apply Exists_cons_tl|]|]. unfold in_segments in Hg. rewrite Exists_exists in Hg.
      destruct Hg as (q & Hq & Hqg). rewrite Forall_forall in Hd. by apply (Hd q Hq g). }
    intros hi2 l2 (-> & Hl2 & Hk2 & Hs2). split_and!; [done| | |].
    + eapply loading_iff; [|exact Hl2]. intros g. cbn. unfold in_segments. rewrite Exists_cons. tauto.
    + eapply keeps_trans; [exact Hk1|]. eapply keeps_sub; [|exact Hk2]. by left.
    + constructor; [|done]. eapply seg_loaded_keeps; [done| |exact Hk2|done]. by right.
  - unfold load_segment. unfold is_load in El. rewrite El. apply runs_ret. by apply IH.
Qed.

(** ** Whole images *)

Definition segments (img : elf_bytes) : list ProgramHeader :=
  List.filter is_load (program_header img <$> phdr_offsets (elf_header img)).

Record elf_ok (img : elf_bytes) : Prop := {
  eo_size : sizeof_ELFHeader <= img_size img < 4294967296;
  eo_bytes : Forall (λ b, 0 <= b < 256) img;
  eo_magic : is_elf (elf_header img) = true;
  eo_machine : e_machine (elf_header img) = EM_386;
  eo_entsize : e_phentsize (elf_header img) = sizeof_ProgramHeader;
  eo_table : 0 < e_phnum (elf_header img) ∧ 0 <= e_phoff (elf_header img) ∧
    e_phoff (elf_header img) + 32 * e_phnum (elf_header img) <= img_size img;
  eo_segments : Forall (phdr_ok img) (segments img);
  eo_disjoint : disjoint_pages (segments img);
  eo_top : 0 < top 0 (segments img) ∧ top 0 (segments img) + 131071 < 4294967296;
}.

Lemma phdr_offsets_in img : elf_ok img → Forall (λ off, off + sizeof_ProgramHeader <= img_size img) (phdr_offsets (elf_header img)).
Proof.
  intros [Hs _ _ _ He (Hn & H0' & Ht) _ _ _]. unfold phdr_offsets. rewrite He. unfold sizeof_ProgramHeader in *.
  apply Forall_fmap, Forall_forall. intros i Hi%elem_of_seqZ. unfold compose. rewrite (u32_small (i * 32)) by lia. rewrite u32_small by lia. lia.
Qed.

Lemma top_ge phs : ∀ hi, hi <= top hi phs ∧ Forall (λ ph, seg_end ph <= top hi phs) phs.
Proof.
  induction phs as [|ph phs IH]; intros hi; [split; [unfold top; cbn; lia|constructor]|].
  destruct (IH (Z.max hi (seg_end ph))) as [H1' H2']. unfold top in *. cbn [fold_left] in *. split; [lia|]. constructor; [lia|done].
Qed.

(** The stack page lies above every segment. *)
Definition stack_page (img : elf_bytes) : Z := (top 0 (segments img) + 131071) / 4096.

Lemma stack_above img : ¬ in_segments (segments img) (stack_page img).
Proof.
  intros Hin. unfold in_segments in Hin. rewrite Exists_exists in Hin. destruct Hin as (ph & Hph & _ & Hlt).
  destruct (top_ge (segments img) 0) as [_ Hall]. rewrite Forall_forall in Hall. specialize (Hall ph Hph). unfold stack_page in Hlt.
  assert ((seg_end ph + 4095) / 4096 <= (top 0 (segments img) + 131071) / 4096) by (apply Z.div_le_mono; lia). lia.
Qed.

(** The run up to user mode. *)
Lemma load_runs l img name :
  frames_ok (ld_frames l) → pages_ok (ld_pages l) → elf_ok img →
  runs l (load img name) l (λ r l', r = (e_entry (elf_header img), stack_page img * 4096 + 4080) ∧
    loading l l' (λ g, in_segments (segments img) g ∨ g = stack_page img) ∧ Forall (seg_loaded img l') (segments img)).
Proof.
  intros Hfr Hpg Hok. pose proof (phdr_offsets_in img Hok) as Hoffs. pose proof (stack_above img) as Hst.
  destruct Hok as [Hs Hb Hm Hma He (Hn & H0' & Ht) Hseg Hdis [Htop Hmax]]. unfold load.
  rewrite (proj2 (Z.ltb_ge (img_size img) sizeof_ELFHeader)), Hm, Hma, He, (proj2 (Z.eqb_neq (e_phnum (elf_header img)) 0)) by lia. unfold EM_386, sizeof_ProgramHeader in *. cbn [negb Z.eqb Pos.eqb].
  apply runs_bind, runs_log_fmt; [reflexivity|]. intros l1 Hc.
  assert (loading l l (λ _, False)) as Hl0 by (split; [done|done|done|done|done|done|by intros p _]).
  destruct (loading_core _ _ _ _ Hc Hl0) as [Hl1 _]. rewrite (u32_small (_ * 32)) by lia. rewrite u32_small by lia. rewrite (proj2 (Z.ltb_ge (img_size img) _)) by lia.
  apply runs_bind. eapply runs_mono; [apply (load_segments_runs l img _ l1 (λ _, False) 0 Hl1 Hoffs Hseg Hdis); [tauto|done|lia]|].
  intros hi l2 (-> & Hl2 & _ & Hloaded). fold (segments img) in *. rewrite (proj2 (Z.eqb_neq _ 0)) by lia.
  assert (loading l l2 (in_segments (segments img))) as Hl2' by (eapply loading_iff; [|exact Hl2]; intros g; cbn; tauto). clear Hl2.
  rewrite (u32_small (_ + 131071)) by lia. fold kPageMask. rewrite page_mask_spec by lia. fold (stack_page img).
  assert (0 <= stack_page img * 4096 < 4294967296) as Hsr by (unfold stack_page; clear -Htop Hmax; Z.div_mod_to_equations; lia).
  pose proof (lg_mem _ _ _ Hl2') as Hmem. apply runs_bind. unfold runs at 1, pmm_alloc_frame.
  destruct (frame_alloc (ld_frames l2)) as [r p'] eqn:Ea. apply runs_bind. destruct (r =? 0) eqn:Er; [by apply runs_fail|]. zbool.
  unfold runs at 1, vmm_map_page. cbn [ld_pages ld_frames ld_mem ld_console].
  destruct (page_map (ld_pages l2) (stack_page img * 4096) r true true) as [[] v'] eqn:Ep; [|by apply runs_fail]. cbn [negb].
  assert (¬ in_segments (segments img) (stack_page img * 4096 / 4096)) as Hst' by (by rewrite Z.div_mul by lia).
  destruct (map_one l l2 _ _ true r p' v' (ld_console l2) Hl2' Hsr Hst' Ea Er Ep) as [Hl3 Hk3].
  apply runs_bind, runs_log_fmt; [reflexivity|]. intros l4 Hc4. destruct (loading_core _ _ _ _ Hc4 Hl3) as [Hl4 Hk4].
  apply runs_ret. split_and!.
  - f_equal. destruct (decide (stack_page img * 4096 + 4096 = 4294967296)) as [E|]; [rewrite E; change (u32 4294967296) with 0; change (u32 (0 - 16)) with 4294967280; lia|].
    rewrite (u32_small (_ + 4096)), u32_small by (clear -Hsr n; Z.div_mod_to_equations; lia). lia.
  - eapply loading_iff; [|exact Hl4]. intros g. cbn. by rewrite Z.div_mul by lia.
  - rewrite Forall_forall in Hseg, Hloaded |- *. intros ph Hph. eapply seg_loaded_keeps; [by apply Hseg| |eapply keeps_trans; [exact Hk3|]|by apply Hloaded].
    + intros g Hg. apply Exists_exists. eauto.
    + eapply keeps_sub; [|exact Hk4]. by left.
Qed.

(** C25: loading a well-formed image.  [UserBinaryLoader::load] never faults and
    never leaves the image; it either reports failure or enters user mode at
    the image's entry point with a stack page above every segment, and then
    the program sees each segment's file bytes followed by zeros, every other
    page is translated as before, and in both cases physical memory outside
    the frames that were free is untouched. *)
Theorem load_correct l img name r l' :
  frames_ok (ld_frames l) → pages_ok (ld_pages l) → elf_ok img → load img name l = (r, l') →
  spared l l' ∧
  (r = inl Failed ∨
   r = inr (e_entry (elf_header img), stack_page img * 4096 + 4080) ∧
   Forall (seg_loaded img l') (segments img) ∧
   (∀ x, 0 <= x < 4294967296 → x / 4096 = stack_page img → byte_at l' x ≠ None) ∧
   (∀ x, 0 <= x < 4294967296 → x / 4096 ≠ stack_page img → ¬ in_segments (segments img) (x / 4096) →
      page_frame (ld_pages l') x = page_frame (ld_pages l) x)).
Proof.
  intros Hfr Hpg Hok E. pose proof (load_runs l img name Hfr Hpg Hok) as Hr. unfold runs in Hr. rewrite E in Hr.
  destruct r as [h|a]; [destruct Hr as [-> Hs]; by auto|]. destruct Hr as (-> & Hl & Hseg). split; [by apply (lg_mem _ _ _ Hl)|].
  right. split_and!; [done|done| |].
  - intros x Hx Hp. destruct (lg_done _ _ _ Hl (stack_page img)) as (f & _ & Hf); [by right|].
    unfold byte_at, translate. by rewrite (Hf x Hx Hp).
  - intros x Hx Hp Hn. apply (lg_other _ _ _ Hl); [done|]. by intros [?|?].
Qed.
End loader_spec.

(** ** A kernel with four free frames and small images *)

#[local] Instance loader_mapper : PageMapper vmm := vmm_mapper 2097152.
#[local] Instance loader_laws : PageMapperLaws vmm := vmm_mapper_laws 2097152 eq_refl demo_tables_range.

Definition demo_loader : @loader pmm vmm := mk_loader demo_frames reset_vmm ∅ (mk_serial false []).

Lemma demo_loader_ok : frames_ok (ld_frames demo_loader) ∧ pages_ok (ld_pages demo_loader).
Proof. split; [exact demo_frames_ok|exact reset_vmm_ok]. Qed.

Definition elf_image (entry phoff : Z) (phdrs : list (list Z)) (tail : list Z) : elf_bytes :=
  [127; 69; 76; 70] ++ replicate 12 0 ++ le_bytes 2 2 ++ le_bytes 2 3 ++ le_bytes 4 1 ++ le_bytes 4 entry ++ le_bytes 4 phoff ++
  replicate 8 0 ++ le_bytes 2 52 ++ le_bytes 2 32 ++ le_bytes 2 (Z.of_nat (length phdrs)) ++ replicate 6 0 ++
  concat ((λ ws, concat (le_bytes 4 <$> ws)) <$> phdrs) ++ tail.

(** Four bytes of code at 1 GiB and three bytes of data with a zeroed tail. *)
Definition demo_elf : elf_bytes :=
  elf_image 1073741824 52 [[1; 116; 1073741824; 0; 4; 4; 5; 4096]; [1; 120; 1073745920; 0; 3; 8; 6; 4096]] [1; 2; 3; 4; 5; 6; 7].

Lemma demo_elf_segments : segments demo_elf = [mk_phdr 1 116 1073741824 4 4 5; mk_phdr 1 120 1073745920 3 8 6].
Proof. vm_compute. reflexivity. Qed.

Lemma demo_elf_ok : elf_ok demo_elf.
Proof.
  split; try (vm_compute; first [reflexivity | split; congruence]).
  - apply (bool_decide_unpack _). vm_compute. exact I.
  - split_and!; vm_compute; congruence.
  - rewrite demo_elf_segments. repeat apply Forall_cons_2; [split; vm_compute; intuition congruence..|constructor].
  - rewrite demo_elf_segments. split; [|split; [constructor|exact I]]. repeat constructor. intros g. unfold seg_pages, seg_end. cbn -[Z.div Z.add].
    change (1073741824 / 4096) with 262144. change ((1073741824 + 4 + 4095) / 4096) with 262145.
    change (1073745920 / 4096) with 262145. lia.
Qed.

Lemma load_correct_witness :
  ∃ l', load demo_elf (txt "demo") demo_loader = (inr (1073741824, 1073881072), l') ∧
    Forall (seg_loaded demo_elf l') (segments demo_elf).
Proof.
  destruct (load demo_elf (txt "demo") demo_loader) as [r l'] eqn:E. exists l'.
  assert (r = inr (1073741824, 1073881072)) as ->.
  { change r with (r, l').1. rewrite <- E. vm_compute. reflexivity. }
  split; [reflexivity|].
  destruct (load_correct demo_loader demo_elf (txt "demo") _ l' (proj1 demo_loader_ok) (proj2 demo_loader_ok) demo_elf_ok E) as [_ [Hf|(_ & Hs & _)]];
    [discriminate Hf|exact Hs].
Defined.

(** ** What the checks let through *)

Definition byte_after (img : elf_bytes) (a : Z) : option Z := byte_at (load img (txt "demo") demo_loader).2 a.
Definition entered (img : elf_bytes) : bool := match (load img (txt "demo") demo_loader).1 with inr _ => true | inl _ => false end.

(** Two segments on one page: the second mapping takes the first one's bytes
    away, and the program is entered without them. *)
Lemma shared_page_loses_data :
  let img := elf_image 1073741824 52 [[1; 116; 1073741824; 0; 4; 4; 5; 4096]; [1; 120; 1073743872; 0; 3; 8; 6; 4096]] [1; 2; 3; 4; 5; 6; 7] in
  entered img = true ∧ byte_after img 1073741824 = Some 0.
Proof. split; vm_compute; reflexivity. Qed.

(** A segment at a kernel address is accepted. *)
Lemma kernel_address_accepted :
  let img := elf_image 1048576 52 [[1; 84; 1048576; 0; 1; 1; 7; 4096]] [144] in
  entered img = true ∧ byte_after img 1048576 = Some 144.
Proof. split; vm_compute; reflexivity. Qed.

(** The bound check of the header table wraps: headers before the image are
    read. *)
Lemma header_check_wraps :
  let img := elf_image 0 4294967264 [[1; 116; 0; 0; 0; 0; 0; 0]; [1; 116; 0; 0; 0; 0; 0; 0]] [] in
  (load img (txt "demo") demo_loader).1 = inl Overrun.
Proof. vm_compute. reflexivity. Qed.
