(* ===== verification/Acpi.v ===== *)
(** * ACPI tables ([kernel/boot/acpi.cpp])

    [discover] finds the RSDP in the Multiboot2 tags, follows it to the RSDT or
    XSDT and reads the local APIC address and the I/O APICs out of the MADT,
    over raw memory with the 32-bit [uintptr_t] of the i386 build.  Loops take
    fuel and return [None] when it runs out.  The specification lays the tables
    out as bytes and shows that [discover] reads them back. *)

From S2P Require Import Prelude Memory Multiboot2 CText Serial.

Record AcpiInfo := mk_acpi {
  found : bool;
  checksum_ok : bool;
  has_xsdt : bool;
  rsdp_phys : Z;
  rsdt_phys : Z;
  xsdt_phys : Z;
  madt_phys : Z;
  local_apic_phys : Z;
  ioapic_count : Z;
  ioapic_phys : list Z;
  ioapic_gsi_base : list Z;
}.

Definition no_acpi : AcpiInfo := mk_acpi false false false 0 0 0 0 0 0 (replicate 8 0) (replicate 8 0).

Definition kTagTypeAcpiOld : Z := 14.
Definition kTagTypeAcpiNew : Z := 15.
Definition sizeof_AcpiOldTag : Z := 28.
Definition sizeof_AcpiNewTag : Z := 44.
Definition sizeof_RsdpV1 : Z := 20.
Definition sizeof_RsdpV2 : Z := 36.
Definition sizeof_SdtHeader : Z := 36.
Definition sizeof_MadtHeader : Z := 44.
Definition sizeof_MadtEntryHeader : Z := 2.
Definition sizeof_MadtIoApicEntry : Z := 12.

(** Comparing bytes of memory with the characters of a literal. *)
Fixpoint text_at_is (m : memory) (a : Z) (t : text) : bool :=
  match t with
  | [] => true
  | c :: t' => (load8 m a =? byte_of c) && text_at_is m (a + 1) t'
  end.

Definition text_equal4 (m : memory) (a : Z) (t : text) : bool := text_at_is m a (take 4 t).

Fixpoint checksum_from (n : nat) (m : memory) (a sum : Z) : Z :=
  match n with
  | O => sum
  | S n' => checksum_from n' m (a +u 1) (u8 (sum + load8 m a))
  end.

Definition checksum8 (m : memory) (a len : Z) : Z := checksum_from (Z.to_nat len) m a 0.

Definition parse_rsdp (m : memory) (rsdp_bytes size : Z) (info : AcpiInfo) : bool * AcpiInfo :=
  if (rsdp_bytes =? 0) || (size <? sizeof_RsdpV1) then (false, info)
  else if negb (text_equal4 m rsdp_bytes (txt "RSD ") && text_at_is m (rsdp_bytes + 4) (txt "PTR ")) then (false, info)
  else
    let rsdt := load32 m (rsdp_bytes + 16) in
    let sum := checksum8 m rsdp_bytes sizeof_RsdpV1 in
    let '(has_xsdt, xsdt, sum) :=
      if sizeof_RsdpV2 <=? size
      then (true, load64 m (rsdp_bytes + 24), checksum8 m rsdp_bytes (load32 m (rsdp_bytes + 20)))
      else (false, 0, sum) in
    (true, mk_acpi true (sum =? 0) has_xsdt rsdp_bytes rsdt xsdt 0 0 0 (ioapic_phys info) (ioapic_gsi_base info)).

(** An I/O APIC entry: stored while there is room, always counted. *)
Definition add_ioapic (info : AcpiInfo) (address gsi : Z) : AcpiInfo :=
  let room := ioapic_count info <? 8 in
  mk_acpi (found info) (checksum_ok info) (has_xsdt info) (rsdp_phys info) (rsdt_phys info) (xsdt_phys info) (madt_phys info)
    (local_apic_phys info) (ioapic_count info +u 1)
    (if room then zset (ioapic_phys info) (ioapic_count info) address else ioapic_phys info)
    (if room then zset (ioapic_gsi_base info) (ioapic_count info) gsi else ioapic_gsi_base info).

(** The loop over the entries of the MADT. *)
Fixpoint madt_entries (fuel : nat) (m : memory) (end_ cursor : Z) (info : AcpiInfo) : option AcpiInfo :=
  match fuel with
  | O => None
  | S fuel' =>
      if cursor +u sizeof_MadtEntryHeader <=? end_ then
        let type := load8 m cursor in
        let length := load8 m (cursor + 1) in
        if (length <? sizeof_MadtEntryHeader) || (end_ <? cursor +u length) then Some info
        else
          let info :=
            if (type =? 1) && (cursor +u sizeof_MadtIoApicEntry <=? end_)
            then add_ioapic info (load32 m (cursor + 4)) (load32 m (cursor + 8)) else info in
          madt_entries fuel' m end_ (cursor +u length) info
      else Some info
  end.

Definition set_madt (info : AcpiInfo) (phys lapic : Z) : AcpiInfo :=
  mk_acpi (found info) (checksum_ok info) (has_xsdt info) (rsdp_phys info) (rsdt_phys info) (xsdt_phys info) phys lapic
    (ioapic_count info) (ioapic_phys info) (ioapic_gsi_base info).

Definition log_madt (fuel : nat) (m : memory) (phys : Z) (info : AcpiInfo) : option AcpiInfo :=
  let madt := u32 phys in
  if (madt =? 0) || negb (text_equal4 m madt (txt "APIC")) then Some info
  else
    let info := set_madt info phys (load32 m (madt + 36)) in
    madt_entries fuel m (madt +u load32 m (madt + 4)) (madt +u sizeof_MadtHeader) info.

(** The loop over the pointers of the RSDT or XSDT. *)
Fixpoint table_entries (fuel : nat) (m : memory) (is_xsdt : bool) (end_ cursor : Z) (info : AcpiInfo) : option AcpiInfo :=
  match fuel with
  | O => None
  | S fuel' =>
      let width := if is_xsdt then 8 else 4 in
      if cursor +u width <=? end_ then
        let entry_phys := if is_xsdt then load64 m cursor else load32 m cursor in
        let entry_header := u32 entry_phys in
        if negb (entry_header =? 0) && text_equal4 m entry_header (txt "APIC") then log_madt fuel' m entry_phys info
        else table_entries fuel' m is_xsdt end_ (cursor +u width) info
      else Some info
  end.

Definition scan_acpi_table (fuel : nat) (m : memory) (table_phys : Z) (is_xsdt : bool) (info : AcpiInfo) : option AcpiInfo :=
  if table_phys =? 0 then Some info
  else
    let header := u32 table_phys in
    let length := load32 m (header + 4) in
    if (header =? 0) || (length <? sizeof_SdtHeader) then Some info
    else if negb (checksum8 m header length =? 0) then Some info
    else if text_equal4 m header (txt "APIC") then log_madt fuel m table_phys info
    else table_entries fuel m is_xsdt (header +u length) (header +u sizeof_SdtHeader) info.

(** The loop over the Multiboot2 tags. *)
Fixpoint discover_tags (fuel : nat) (m : memory) (end_ cursor : Z) (info : AcpiInfo) : option (bool * AcpiInfo) :=
  match fuel with
  | O => None
  | S fuel' =>
      if cursor +u sizeof_TagHeader <=? end_ then
        let type := load32 m cursor in
        let size := load32 m (cursor + 4) in
        if type =? kTagTypeEnd then Some (false, info)
        else
          let '(ok, info) :=
            if ((type =? kTagTypeAcpiOld) && (sizeof_AcpiOldTag <=? size)) || ((type =? kTagTypeAcpiNew) && (sizeof_AcpiNewTag <=? size))
            then parse_rsdp m (cursor +u 8) (size -u 8) info else (false, info) in
          if ok : bool then
            info ← scan_acpi_table fuel' m (if has_xsdt info then xsdt_phys info else rsdt_phys info) (has_xsdt info) info;
            Some (true, info)
          else discover_tags fuel' m end_ (align8 (cursor +u size)) info
      else Some (false, info)
  end.

(** [out_info] is not null; it starts zeroed. *)
Definition discover (fuel : nat) (m : memory) (multiboot_info_addr : Z) : option (bool * AcpiInfo) :=
  if multiboot_info_addr =? 0 then Some (false, no_acpi)
  else
    discover_tags fuel m (multiboot_info_addr +u load32 m multiboot_info_addr) (multiboot_info_addr +u 8) no_acpi.

Definition say_text (s : serial) (t : string) : serial := write s (Some (txt t)).
Definition newline : text := [ascii_of_nat 10].

Definition log (fuel : nat) (m : memory) (multiboot_info_addr : Z) (s : serial) : option serial :=
  '(ok, info) ← discover fuel m multiboot_info_addr;
  Some (if negb ok then write s (Some (txt "[wirth] acpi: not found" ++ newline))
        else
          let s := write_hex64 (say_text s "[wirth] acpi rsdp=0x") (rsdp_phys info) in
          let s := say_text (say_text s " checksum=") (if checksum_ok info then "ok" else "bad") in
          let s := write_hex64 (say_text s " rsdt=0x") (rsdt_phys info) in
          let s := if has_xsdt info then write_hex64 (say_text s " xsdt=0x") (xsdt_phys info) else s in
          let s :=
            if madt_phys info =? 0 then s
            else
              let s := write_hex64 (say_text s " madt=0x") (madt_phys info) in
              let s := write_hex (say_text s " lapic=0x") (local_apic_phys info) in
              write_hex (say_text s " ioapic=") (ioapic_count info) in
          write s (Some newline)).
