(* ===== verification/AcpiSpec.v ===== *)
(** * What ACPI discovery reads back

    Encoders for the RSDP, the RSDT or XSDT and the MADT, and the proof that
    [discover] recovers the addresses they were made from. *)

From S2P Require Import Prelude Memory Multiboot2 CText Serial Acpi.

(** ** Text and checksums in memory *)

Lemma bytes_at_text m a t : bytes_at m a (bytes_of t) → text_at_is m a t = true.
Proof.
  revert a. induction t as [|c t IH]; intros a; [done|]. cbn [text_at_is]. intros [-> Ht]. rewrite Z.eqb_refl. by apply IH.
Qed.

Lemma text_mismatch m a t1 t2 :
  bytes_at m a (bytes_of t1) → length t1 = length t2 → t1 ≠ t2 → text_at_is m a t2 = false.
Proof.
  revert a t2. induction t1 as [|c1 t1 IH]; intros a [|c2 t2]; [done..|]. cbn [text_at_is length]. intros [-> Ht] [= Hl] Hne.
  destruct (byte_of c1 =? byte_of c2) eqn:E; [|done]. apply Z.eqb_eq in E. cbn [andb].
  assert (c1 = c2) as <-. { unfold byte_of in E. apply Nat2Z.inj in E. by rewrite <- (ascii_nat_embedding c1), E, ascii_nat_embedding. }
  apply IH; [done|done|congruence].
Qed.

Definition byte_sum (bs : list Z) : Z := foldr Z.add 0 bs.

Lemma checksum_from_bytes m bs : ∀ a sum,
  bytes_at m a bs → 0 <= a → a + Z.of_nat (length bs) < 4294967296 → 0 <= sum < 256 →
  checksum_from (length bs) m a sum = u8 (sum + byte_sum bs).
Proof.
  induction bs as [|b bs IH]; intros a sum Hb Ha Hmax Hs; cbn [length checksum_from byte_sum foldr].
  { by rewrite Z.add_0_r, u8_small. }
  destruct Hb as [-> Hb]. cbn [length] in Hmax. rewrite (u32_small (a + 1)), IH by (done || lia || apply u8_range).
  unfold u8. rewrite Z.add_mod_idemp_l by lia. f_equal. fold (byte_sum bs). lia.
Qed.

Lemma checksum8_bytes m a bs :
  bytes_at m a bs → 0 <= a → a + Z.of_nat (length bs) < 4294967296 →
  checksum8 m a (Z.of_nat (length bs)) = u8 (byte_sum bs).
Proof. intros. unfold checksum8. by rewrite Nat2Z.id, checksum_from_bytes by (done || lia). Qed.

(** ** Tables *)

(** A system description table: [mid] is the revision, the checksum byte and
    the identification fields. *)
Definition sdt_table (sig : text) (mid body : list Z) : list Z :=
  bytes_of sig ++ le_bytes 4 (36 + Z.of_nat (length body)) ++ mid ++ body.

Record sdt_at (m : memory) (a : Z) (sig : text) (mid body : list Z) : Prop := {
  sd_bytes : bytes_at m a (sdt_table sig mid body);
  sd_sig : length sig = 4%nat;
  sd_mid : length mid = 28%nat;
  sd_range : 0 < a ∧ a + 36 + Z.of_nat (length body) + 12 < 4294967296;
}.

Lemma sdt_fields m a sig mid body :
  sdt_at m a sig mid body →
  bytes_at m a (bytes_of sig) ∧ load32 m (a + 4) = 36 + Z.of_nat (length body) ∧ bytes_at m (a + 36) body ∧
  Z.of_nat (length (sdt_table sig mid body)) = 36 + Z.of_nat (length body).
Proof.
  intros [Hb Hs Hm Hr]. unfold sdt_table in *. rewrite !bytes_at_app in Hb. destruct Hb as (H1 & H2 & _ & H3).
  unfold bytes_of in H2, H3 |- *. rewrite !length_app, !length_fmap, !length_le_bytes, Hs, Hm in *.
  apply bytes_at_load32 in H2. change (Z.of_nat 4) with 4 in *. change (Z.of_nat 28) with 28 in H3.
  rewrite u32_small in H2 by lia. replace (a + 4 + 4 + 28) with (a + 36) in H3 by lia. split_and!; [done|done|done|lia].
Qed.

(** ** The MADT *)

Inductive madt_entry :=
  | IoApic (id reserved address gsi : Z)
  | OtherEntry (type : Z) (payload : list Z).

Definition encode_madt_entry (e : madt_entry) : list Z :=
  match e with
  | IoApic id res address gsi => [1; 12; id; res] ++ le_bytes 4 address ++ le_bytes 4 gsi
  | OtherEntry type payload => [type; 2 + Z.of_nat (length payload)] ++ payload
  end.

Definition madt_entry_ok (e : madt_entry) : Prop :=
  match e with
  | IoApic _ _ address gsi => 0 <= address < 4294967296 ∧ 0 <= gsi < 4294967296
  | OtherEntry type payload => type ≠ 1 ∧ Z.of_nat (length payload) <= 253
  end.

Definition ioapics (es : list madt_entry) : list (Z * Z) :=
  omap (λ e, match e with IoApic _ _ address gsi => Some (address, gsi) | OtherEntry _ _ => None end) es.

Definition add_ioapics (info : AcpiInfo) (xs : list (Z * Z)) : AcpiInfo :=
  fold_left (λ i x, add_ioapic i x.1 x.2) xs info.

Definition encode_madt (lapic flags : Z) (es : list madt_entry) : list Z :=
  le_bytes 4 lapic ++ le_bytes 4 flags ++ concat (encode_madt_entry <$> es).

Lemma madt_entries_encoded m es : ∀ fuel a info,
  Forall madt_entry_ok es → (length es < fuel)%nat → 0 <= a →
  let end_ := a + Z.of_nat (length (concat (encode_madt_entry <$> es))) in
  end_ + 12 < 4294967296 → bytes_at m a (concat (encode_madt_entry <$> es)) →
  madt_entries fuel m end_ a info = Some (add_ioapics info (ioapics es)).
Proof.
  induction es as [|e es IH]; intros fuel a info Hok Hf Ha end_ Hmax Hb; (destruct fuel as [|fuel]; [cbn in Hf; lia|]); cbn [madt_entries].
  - subst end_. cbn in *. unfold sizeof_MadtEntryHeader. rewrite u32_small, (proj2 (Z.leb_gt _ _)) by lia. done.
  - apply Forall_cons in Hok as [He Hok]. subst end_. cbn [fmap list_fmap concat] in *. rewrite bytes_at_app in Hb. destruct Hb as [Hb1 Hb2].
    rewrite length_app, Nat2Z.inj_add, Z.add_assoc in *. cbn [length] in Hf.
    unfold sizeof_MadtEntryHeader, sizeof_MadtIoApicEntry.
    destruct e as [id res address gsi|type payload]; cbn [encode_madt_entry madt_entry_ok ioapics omap list_omap] in *.
    + rewrite bytes_at_app in Hb1. destruct Hb1 as [(Ht & Hl & _) Hb1]. rewrite bytes_at_app, length_le_bytes in Hb1.
      destruct Hb1 as [Hb1 Hb3]. apply bytes_at_load32 in Hb1, Hb3. change (Z.of_nat (length [1; 12; id; res])) with 4 in *.
      change (Z.of_nat 4) with 4 in Hb3. replace (a + 4 + 4) with (a + 8) in Hb3 by lia.
      change (Z.of_nat (length ([1; 12; id; res] ++ le_bytes 4 address ++ le_bytes 4 gsi))) with 12 in *.
      rewrite Ht, Hl, Hb1, Hb3, !u32_small by lia. cbn [Z.eqb Pos.eqb Z.ltb Z.compare Pos.compare Pos.compare_cont orb andb].
      rewrite (proj2 (Z.leb_le (a + 2) _)), (proj2 (Z.leb_le (a + 12) _)), (proj2 (Z.ltb_ge _ (a + 12))) by lia.
      cbn [ioapics omap list_omap]. rewrite (IH fuel (a + 12)) by (done || lia). done.
    + destruct Hb1 as (Ht & Hl & _). destruct He as [Hty Hpl]. cbn [length app] in *.
      rewrite Ht, Hl, !(u32_small (a + _)) by lia. rewrite (proj2 (Z.eqb_neq _ _) Hty). cbn [andb].
      rewrite (proj2 (Z.leb_le (a + 2) _)), (proj2 (Z.ltb_ge (2 + _) 2)), (proj2 (Z.ltb_ge _ _)) by lia. cbn [orb].
      rewrite Nat2Z.inj_succ, Nat2Z.inj_succ in *.
      replace (a + Z.succ (Z.succ (Z.of_nat (length payload)))) with (a + (2 + Z.of_nat (length payload))) in * by lia.
      apply (IH fuel); [done|lia|lia|lia|done].
Qed.

(** What [log_madt] makes of an encoded MADT. *)
Definition madt_info (info : AcpiInfo) (phys lapic : Z) (es : list madt_entry) : AcpiInfo :=
  add_ioapics (set_madt info phys lapic) (ioapics es).

Record madt_at (m : memory) (a : Z) (mid : list Z) (lapic flags : Z) (es : list madt_entry) : Prop := {
  ma_table : sdt_at m a (txt "APIC") mid (encode_madt lapic flags es);
  ma_lapic : 0 <= lapic < 4294967296;
  ma_entries : Forall madt_entry_ok es;
}.

Lemma sdt_signature m a mid body : sdt_at m a (txt "APIC") mid body → text_equal4 m a (txt "APIC") = true.
Proof. intros Hs. destruct (sdt_fields _ _ _ _ _ Hs) as (Hsig & _). unfold text_equal4. by apply bytes_at_text. Qed.

Lemma log_madt_encoded m a mid lapic flags es fuel info :
  madt_at m a mid lapic flags es → (length es < fuel)%nat → log_madt fuel m a info = Some (madt_info info a lapic es).
Proof.
  intros [Ht Hl Hes] Hf. pose proof (sdt_signature _ _ _ _ Ht) as Hsig. destruct (sdt_fields _ _ _ _ _ Ht) as (_ & Hlen & Hbody & _).
  pose proof (sd_range _ _ _ _ _ Ht) as [Ha Hr]. unfold encode_madt in Hbody, Hlen, Hr. rewrite !length_app, !length_le_bytes in Hlen, Hr.
  rewrite !bytes_at_app, !length_le_bytes in Hbody. destruct Hbody as (H1 & _ & H3). apply bytes_at_load32 in H1.
  change (Z.of_nat 4) with 4 in *. unfold log_madt. rewrite (u32_small a), (proj2 (Z.eqb_neq a 0)), Hsig, H1, Hlen by lia. cbn [negb orb].
  rewrite (u32_small lapic) by lia. unfold sizeof_MadtHeader. rewrite !u32_small by lia.
  pose proof (madt_entries_encoded m es fuel (a + 44) (set_madt info a lapic) Hes Hf ltac:(lia)) as He.
  replace (a + 36 + 4 + 4) with (a + 44) in H3 by lia.
  replace (a + (36 + Z.of_nat (4 + (4 + length (concat (encode_madt_entry <$> es))))))
    with (a + 44 + Z.of_nat (length (concat (encode_madt_entry <$> es)))) by lia. apply He; [lia|done].
Qed.

(** ** The RSDT and the XSDT *)

Definition ptr_width (x : bool) : nat := if x then 8%nat else 4%nat.
Definition encode_ptrs (x : bool) (ps : list Z) : list Z := concat (le_bytes (ptr_width x) <$> ps).

Definition ptr_ok (x : bool) (p : Z) : Prop := 0 <= p < 256 ^ Z.of_nat (ptr_width x).

(** A pointer to a table that is not a MADT. *)
Definition not_madt (m : memory) (p : Z) : Prop := u32 p = 0 ∨ text_equal4 m (u32 p) (txt "APIC") = false.

Lemma length_encode_ptrs x ps : Z.of_nat (length (encode_ptrs x ps)) = Z.of_nat (ptr_width x) * Z.of_nat (length ps).
Proof.
  unfold encode_ptrs. induction ps as [|p ps IH]; [cbn; lia|]. cbn [fmap list_fmap concat length].
  rewrite length_app, length_le_bytes, !Nat2Z.inj_add, IH. lia.
Qed.

Lemma load_ptr m c x p rest :
  bytes_at m c (encode_ptrs x (p :: rest)) → ptr_ok x p →
  (if x then load64 m c else load32 m c) = p ∧ bytes_at m (c + Z.of_nat (ptr_width x)) (encode_ptrs x rest).
Proof.
  unfold encode_ptrs, ptr_ok. cbn [fmap list_fmap concat]. rewrite bytes_at_app, length_le_bytes. intros [H1 H2] Hp. split; [|done].
  apply bytes_at_load_le in H1. rewrite Z.mod_small in H1 by done. by destruct x.
Qed.

Lemma table_entries_encoded m x a mid lapic flags es after : ∀ before fuel c end_ info,
  madt_at m a mid lapic flags es → Forall (ptr_ok x) before → Forall (not_madt m) before →
  (length before + length es + 1 < fuel)%nat → 0 <= c →
  end_ = c + Z.of_nat (length (encode_ptrs x (before ++ a :: after))) → end_ < 4294967296 →
  bytes_at m c (encode_ptrs x (before ++ a :: after)) →
  table_entries fuel m x end_ c info = Some (madt_info info a lapic es).
Proof.
  intros before. induction before as [|p before IH]; intros fuel c end_ info Hm Hok Hnot Hf Hc Hend Hmax Hb;
    (destruct fuel as [|fuel]; [cbn in Hf; lia|]); cbn [app table_entries] in *;
    rewrite length_encode_ptrs in Hend; cbn [length] in Hend; rewrite Nat2Z.inj_succ in Hend;
    (assert ((if x then 8 else 4) = Z.of_nat (ptr_width x)) as -> by (by destruct x));
    (assert (0 < Z.of_nat (ptr_width x)) by (destruct x; cbn; lia));
    rewrite (u32_small (c + _)), (proj2 (Z.leb_le _ _)) by lia.
  - pose proof (sd_range _ _ _ _ _ (ma_table _ _ _ _ _ _ Hm)) as [Ha Hr].
    destruct (load_ptr m c x a after Hb) as [-> _]; [unfold ptr_ok; destruct x; cbn; lia|].
    rewrite (u32_small a), (proj2 (Z.eqb_neq a 0)), (sdt_signature _ _ _ _ (ma_table _ _ _ _ _ _ Hm)) by lia. cbn [negb andb].
    eapply log_madt_encoded; [exact Hm|]. cbn in Hf. lia.
  - apply Forall_cons in Hok as [Hp Hok]. apply Forall_cons in Hnot as [Hn Hnot]. cbn [length] in Hf.
    destruct (load_ptr m c x p (before ++ a :: after) Hb Hp) as [-> Hb'].
    assert (negb (u32 p =? 0) && text_equal4 m (u32 p) (txt "APIC") = false) as ->.
    { destruct Hn as [-> | ->]; [done|apply andb_false_r]. }
    eapply IH; [exact Hm|done|done|lia|lia| |done|done]. rewrite length_encode_ptrs. lia.
Qed.

Lemma scan_table_encoded m x a mid lapic flags es t sig mid' before after fuel info :
  madt_at m a mid lapic flags es → sdt_at m t sig mid' (encode_ptrs x (before ++ a :: after)) →
  sig ≠ txt "APIC" → u8 (byte_sum (sdt_table sig mid' (encode_ptrs x (before ++ a :: after)))) = 0 →
  Forall (ptr_ok x) before → Forall (not_madt m) before → (length before + length es + 1 < fuel)%nat →
  scan_acpi_table fuel m t x info = Some (madt_info info a lapic es).
Proof.
  intros Hm Ht Hsig Hsum Hok Hnot Hf. destruct (sdt_fields _ _ _ _ _ Ht) as (Hs & Hlen & Hbody & Htl).
  pose proof (sd_range _ _ _ _ _ Ht) as [Ha Hr]. unfold scan_acpi_table. rewrite (u32_small t), (proj2 (Z.eqb_neq t 0)), Hlen by lia.
  cbn [orb]. unfold sizeof_SdtHeader. rewrite (proj2 (Z.ltb_ge _ _)), <- Htl by lia.
  rewrite checksum8_bytes, Hsum by first [apply (sd_bytes _ _ _ _ _ Ht)|lia]. cbn [Z.eqb negb].
  assert (text_equal4 m t (txt "APIC") = false) as ->.
  { apply (text_mismatch m t sig (txt "APIC") Hs); [by rewrite (sd_sig _ _ _ _ _ Ht)|done]. }
  rewrite Htl, !u32_small by lia. eapply table_entries_encoded; [exact Hm|done|done|done|lia| |lia|done]. lia.
Qed.

(** ** The RSDP *)

(** [ids] is the checksum byte, the OEM id and the revision; version 2 adds the
    length, the 64-bit address and four more bytes. *)
Definition rsdp_bytes (x : bool) (ids : list Z) (rsdt len xsdt : Z) (tail : list Z) : list Z :=
  bytes_of (txt "RSD PTR ") ++ ids ++ le_bytes 4 rsdt ++ (if x then le_bytes 4 len ++ le_bytes 8 xsdt ++ tail else []).

Definition rsdp_ok (x : bool) (ids : list Z) (rsdt len xsdt : Z) (tail : list Z) : Prop :=
  length ids = 8%nat ∧ 0 <= rsdt < 4294967296 ∧ (x = true → len = 36 ∧ 0 <= xsdt < 2 ^ 64 ∧ length tail = 4%nat).

Lemma rsdp_length x ids rsdt len xsdt tail :
  rsdp_ok x ids rsdt len xsdt tail → Z.of_nat (length (rsdp_bytes x ids rsdt len xsdt tail)) = if x then 36 else 20.
Proof.
  intros (Hi & _ & Hx). unfold rsdp_bytes. rewrite !length_app, length_le_bytes, Hi. change (length (bytes_of (txt "RSD PTR "))) with 8%nat.
  destruct x; [|done]. destruct (Hx eq_refl) as (_ & _ & Ht). rewrite !length_app, !length_le_bytes, Ht. done.
Qed.

(** What [parse_rsdp] stores. *)
Definition rsdp_info (x : bool) (a rsdt xsdt : Z) (ok : bool) : AcpiInfo :=
  mk_acpi true ok x a rsdt (if x then xsdt else 0) 0 0 0 (replicate 8 0) (replicate 8 0).

Lemma parse_rsdp_encoded m a x ids rsdt len xsdt tail :
  bytes_at m a (rsdp_bytes x ids rsdt len xsdt tail) → rsdp_ok x ids rsdt len xsdt tail → 0 < a → a + 40 < 4294967296 →
  parse_rsdp m a (if x then 36 else 20) no_acpi =
  (true, rsdp_info x a rsdt xsdt (u8 (byte_sum (rsdp_bytes x ids rsdt len xsdt tail)) =? 0)).
Proof.
  intros Hb Hok Ha Hmax. pose proof (rsdp_length _ _ _ _ _ _ Hok) as Hlen.
  assert (checksum8 m a (if x then 36 else 20) = u8 (byte_sum (rsdp_bytes x ids rsdt len xsdt tail))) as Hsum.
  { rewrite <- Hlen. apply checksum8_bytes; [done|lia|]. rewrite Hlen. destruct x; lia. }
  destruct Hok as (Hi & Hr & Hx). unfold rsdp_bytes in Hb. change (txt "RSD PTR ") with (txt "RSD " ++ txt "PTR ") in Hb.
  unfold bytes_of in Hb. rewrite fmap_app, <- app_assoc in Hb. rewrite !bytes_at_app in Hb.
  destruct Hb as (H1 & H2 & _ & H4 & H5). change (length (byte_of <$> txt "RSD ")) with 4%nat in *. change (length (byte_of <$> txt "PTR ")) with 4%nat in *.
  rewrite length_le_bytes, Hi in *. change (Z.of_nat 4) with 4 in *. change (Z.of_nat 8) with 8 in *.
  apply bytes_at_text in H1, H2. apply bytes_at_load32 in H4. rewrite u32_small in H4 by lia. replace (a + 4 + 4 + 8) with (a + 16) in * by lia.
  unfold parse_rsdp. rewrite (proj2 (Z.eqb_neq a 0)) by lia. unfold text_equal4. change (take 4 (txt "RSD ")) with (txt "RSD ").
  rewrite H1, H2, H4. unfold sizeof_RsdpV1, sizeof_RsdpV2. unfold rsdp_info. destruct x; cbn [orb andb negb Z.ltb Z.leb Z.compare Pos.compare Pos.compare_cont].
  - destruct (Hx eq_refl) as (-> & Hxs & _). rewrite !bytes_at_app, !length_le_bytes in H5. destruct H5 as (H5 & H6 & _).
    apply bytes_at_load32 in H5. apply bytes_at_load64 in H6. change (Z.of_nat 4) with 4 in *. replace (a + 16 + 4) with (a + 20) in * by lia.
    replace (a + 20 + 4) with (a + 24) in * by lia. rewrite H5, H6. assert (u64 xsdt = xsdt) as -> by (unfold u64; apply Z.mod_small; lia). change (u32 36) with 36. by rewrite Hsum.
  - by rewrite Hsum.
Qed.

(** ** The tags *)

Definition is_acpi (t : mb_tag) : bool := (tag_type_of t =? kTagTypeAcpiOld) || (tag_type_of t =? kTagTypeAcpiNew).

Lemma discover_tags_skip m end_ pre ts : ∀ fuel c,
  end_ + 2 ^ 16 < 4294967296 → Forall tag_ok pre → Forall (λ t, is_acpi t = false) pre →
  0 <= c → c mod 8 = 0 → end_ = c + Z.of_nat (length (encode_tags (pre ++ ts))) → bytes_at m c (encode_tags (pre ++ ts)) →
  ∃ c', discover_tags (length pre + fuel) m end_ c no_acpi = discover_tags fuel m end_ c' no_acpi ∧
    c <= c' ∧ c' mod 8 = 0 ∧ end_ = c' + Z.of_nat (length (encode_tags ts)) ∧ bytes_at m c' (encode_tags ts).
Proof.
  intros fuel c Hmax Hok. revert c. induction Hok as [|t pre Ht _ IH]; intros c Hna Hc Hmod Hend Hb; [by exists c|].
  apply Forall_cons in Hna as [Hn Hna]. cbn [app] in *.
  destruct (tag_step m end_ Hmax c t (pre ++ ts) Hc Hmod Ht Hend Hb) as (Hg & Hty & Hsz & Hnz & Hnext & _ & _ & Hb' & Hend').
  pose proof (padded_size_bounds t). destruct (IH (c + padded_size t) Hna ltac:(lia) (aligned_next c t Hmod) Hend' Hb') as (c' & Hd & Hle & Hrest).
  exists c'. split; [|split; [lia|done]]. rewrite <- Hd. cbn [length Nat.add discover_tags]. rewrite Hg, Hty, Hsz, Hnext.
  unfold kTagTypeEnd. rewrite (proj2 (Z.eqb_neq _ _) Hnz). unfold is_acpi in Hn. apply orb_false_iff in Hn as [-> ->]. done.
Qed.

(** ** The I/O APICs stored *)

Lemma add_ioapics_spec xs : ∀ info k,
  ioapic_count info = k → 0 <= k → k + Z.of_nat (length xs) < 4294967296 →
  length (ioapic_phys info) = 8%nat → length (ioapic_gsi_base info) = 8%nat →
  let info' := add_ioapics info xs in
  ioapic_count info' = k + Z.of_nat (length xs) ∧
  madt_phys info' = madt_phys info ∧ local_apic_phys info' = local_apic_phys info ∧ checksum_ok info' = checksum_ok info ∧
  (∀ j, 0 <= j < k → zget (ioapic_phys info') j = zget (ioapic_phys info) j ∧ zget (ioapic_gsi_base info') j = zget (ioapic_gsi_base info) j) ∧
  (∀ i address gsi, xs !! i = Some (address, gsi) → k + Z.of_nat i < 8 →
     zget (ioapic_phys info') (k + Z.of_nat i) = address ∧ zget (ioapic_gsi_base info') (k + Z.of_nat i) = gsi).
Proof.
  induction xs as [|[ad g] xs IH]; intros info k Hk H0 Hmax Hl1 Hl2; cbn [add_ioapics fold_left length fst snd] in *.
  { split_and!; [lia|done..]. }
  set (info1 := add_ioapic info ad g). assert (ioapic_count info1 = k + 1) as Hk1 by (cbn; rewrite Hk; apply u32_small; lia).
  destruct (IH info1 (k + 1) Hk1 ltac:(lia) ltac:(lia)) as (Hc & Hm & Hlp & Hck & Hold & Hnew).
  { cbn. destruct (_ <? 8); [by rewrite length_zset|done]. }
  { cbn. destruct (_ <? 8); [by rewrite length_zset|done]. }
  fold (add_ioapics info1 xs) in *. split_and!; [lia|done|done|done| |].
  - intros j Hj. destruct (Hold j ltac:(lia)) as [-> ->]. unfold info1, add_ioapic. cbn [ioapic_phys ioapic_gsi_base].
    rewrite Hk. destruct (k <? 8); [|done]. by rewrite !zget_zset_ne by lia.
  - intros [|i] address gsi Hi Hlt.
    + injection Hi as -> ->. destruct (Hold k ltac:(lia)) as [E1 E2]. rewrite Z.add_0_r, E1, E2. unfold info1, add_ioapic.
      cbn [ioapic_phys ioapic_gsi_base]. rewrite Hk, (proj2 (Z.ltb_lt k 8)) by lia. by rewrite !zget_zset_eq by lia.
    + replace (k + Z.of_nat (S i)) with (k + 1 + Z.of_nat i) by lia. apply Hnew; [done|lia].
Qed.

(** ** A complete layout *)

Record acpi_tables := mk_tables {
  at_pre : list mb_tag;
  at_post : list mb_tag;
  at_x : bool;
  at_ids : list Z;
  at_rsdt : Z;
  at_xsdt : Z;
  at_tail : list Z;
  at_sig : text;
  at_mid : list Z;
  at_before : list Z;
  at_after : list Z;
  at_madt : Z;
  at_madt_mid : list Z;
  at_lapic : Z;
  at_flags : Z;
  at_entries : list madt_entry;
}.

Definition at_rsdp (l : acpi_tables) : list Z := rsdp_bytes (at_x l) (at_ids l) (at_rsdt l) 36 (at_xsdt l) (at_tail l).
Definition at_tag (l : acpi_tables) : mb_tag := TagOther (if at_x l then kTagTypeAcpiNew else kTagTypeAcpiOld) (at_rsdp l).
Definition at_tags (l : acpi_tables) : list mb_tag := at_pre l ++ at_tag l :: at_post l.
Definition at_root (l : acpi_tables) : Z := if at_x l then at_xsdt l else at_rsdt l.
Definition at_ptrs (l : acpi_tables) : list Z := encode_ptrs (at_x l) (at_before l ++ at_madt l :: at_after l).

(** The boot loader and the firmware laid the tables out in memory. *)
Record laid_out (m : memory) (addr : Z) (l : acpi_tables) : Prop := {
  lo_info : bytes_at m addr (encode_info (at_tags l));
  lo_addr : 0 < addr ∧ addr mod 8 = 0 ∧ addr + Z.of_nat (length (encode_info (at_tags l))) + 2 ^ 16 < 4294967296;
  lo_tags : Forall tag_ok (at_tags l);
  lo_pre : Forall (λ t, is_acpi t = false) (at_pre l);
  lo_rsdp : rsdp_ok (at_x l) (at_ids l) (at_rsdt l) 36 (at_xsdt l) (at_tail l);
  lo_root : sdt_at m (at_root l) (at_sig l) (at_mid l) (at_ptrs l);
  lo_sig : at_sig l ≠ txt "APIC";
  lo_sum : u8 (byte_sum (sdt_table (at_sig l) (at_mid l) (at_ptrs l))) = 0;
  lo_ptrs : Forall (ptr_ok (at_x l)) (at_before l) ∧ Forall (not_madt m) (at_before l);
  lo_madt : madt_at m (at_madt l) (at_madt_mid l) (at_lapic l) (at_flags l) (at_entries l);
  lo_few : Z.of_nat (length (at_entries l)) < 4294967296;
}.

Lemma discover_laid_out m addr l fuel :
  laid_out m addr l → (length (at_pre l) + length (at_before l) + length (at_entries l) + 2 < fuel)%nat →
  ∃ a, discover fuel m addr = Some (true, madt_info
    (rsdp_info (at_x l) a (at_rsdt l) (at_xsdt l) (u8 (byte_sum (at_rsdp l)) =? 0)) (at_madt l) (at_lapic l) (at_entries l)).
Proof.
  intros [Hinfo (Ha & Hmod & Hmax) Htags Hpre Hrsdp Hroot Hsig Hsum [Hp1 Hp2] Hmadt Hfew] Hf.
  unfold encode_info in Hinfo, Hmax. rewrite !length_app, !length_le_bytes in Hmax. rewrite !bytes_at_app, !length_le_bytes in Hinfo.
  destruct Hinfo as (H1 & _ & H3). apply bytes_at_load32 in H1. change (Z.of_nat 4) with 4 in *. replace (addr + 4 + 4) with (addr + 8) in H3 by lia.
  set (total := Z.of_nat (length (encode_tags (at_tags l)))) in *. unfold discover.
  rewrite (proj2 (Z.eqb_neq addr 0)), H1, (u32_small (8 + total)), !u32_small by lia.
  set (end_ := addr + (8 + total)). replace fuel with (length (at_pre l) + (fuel - length (at_pre l)))%nat by lia.
  unfold at_tags in Htags. apply Forall_app in Htags as [Hok1 Hok2]. apply Forall_cons in Hok2 as [Hokt _].
  destruct (discover_tags_skip m end_ (at_pre l) (at_tag l :: at_post l) (fuel - length (at_pre l)) (addr + 8) ltac:(lia) Hok1 Hpre ltac:(lia)
    ltac:(rewrite Z.add_mod, Hmod by lia; done) ltac:(unfold end_, total, at_tags; lia) H3) as (c & -> & Hc & Hcm & Hce & Hcb).
  destruct (tag_step m end_ ltac:(lia) c (at_tag l) (at_post l) ltac:(lia) Hcm Hokt Hce Hcb) as (Hg & Hty & Hsz & Hnz & _ & Hbody & Hle & _).
  pose proof (rsdp_length _ _ _ _ _ _ Hrsdp) as Hrl. fold (at_rsdp l) in Hrl. unfold at_tag in Hbody. cbn [tag_body] in Hbody.
  assert (tag_size_of (at_tag l) = 8 + (if at_x l then 36 else 20)) as Hts by (unfold tag_size_of, at_tag; cbn [tag_body]; lia).
  exists (c + 8). destruct (fuel - length (at_pre l))%nat as [|fuel'] eqn:Ef; [lia|]. cbn [discover_tags].
  rewrite Hg, Hty, Hsz. unfold kTagTypeEnd. rewrite (proj2 (Z.eqb_neq _ _) Hnz), Hts.
  assert ((tag_type_of (at_tag l) =? kTagTypeAcpiOld) && (sizeof_AcpiOldTag <=? 8 + (if at_x l then 36 else 20)) ||
          (tag_type_of (at_tag l) =? kTagTypeAcpiNew) && (sizeof_AcpiNewTag <=? 8 + (if at_x l then 36 else 20)) = true) as ->
    by (unfold at_tag; destruct (at_x l); reflexivity).
  replace ((8 + (if at_x l then 36 else 20)) -u 8) with (if at_x l then 36 else 20) by (destruct (at_x l); reflexivity).
  rewrite u32_small by lia. rewrite (parse_rsdp_encoded m (c + 8) _ _ _ _ _ _ Hbody Hrsdp) by lia.
  cbn [has_xsdt rsdp_info xsdt_phys rsdt_phys].
  replace (if at_x l then if at_x l then at_xsdt l else 0 else at_rsdt l) with (at_root l) by (unfold at_root; destruct (at_x l); done).
  rewrite (scan_table_encoded m (at_x l) (at_madt l) _ (at_lapic l) _ _ (at_root l) _ _ (at_before l) (at_after l) fuel' _ Hmadt Hroot Hsig Hsum Hp1 Hp2) by lia.
  done.
Qed.

Lemma length_ioapics es : (length (ioapics es) <= length es)%nat.
Proof. induction es as [|[id res ad g|ty pl] es IH]; cbn [ioapics omap list_omap length]; [done|..]; fold (ioapics es); lia. Qed.

(** C26: ACPI discovery reads the tables back.  Over memory in which the boot
    loader put the RSDP among its tags and the firmware an RSDT or XSDT with a
    valid checksum that points to the MADT, [discover] succeeds with the
    MADT's address, the local APIC address, whether the RSDP's checksum is
    right, the number of I/O APICs, and the first eight of them in order. *)
Theorem acpi_discovers m addr l fuel :
  laid_out m addr l → (length (at_pre l) + length (at_before l) + length (at_entries l) + 2 < fuel)%nat →
  ∃ info, discover fuel m addr = Some (true, info) ∧
    madt_phys info = at_madt l ∧ local_apic_phys info = at_lapic l ∧
    checksum_ok info = (u8 (byte_sum (at_rsdp l)) =? 0) ∧
    ioapic_count info = Z.of_nat (length (ioapics (at_entries l))) ∧
    ∀ i address gsi, (i < 8)%nat → ioapics (at_entries l) !! i = Some (address, gsi) →
      zget (ioapic_phys info) (Z.of_nat i) = address ∧ zget (ioapic_gsi_base info) (Z.of_nat i) = gsi.
Proof.
  intros Hl Hf. destruct (discover_laid_out m addr l fuel Hl Hf) as [a ->]. eexists. split; [done|].
  pose proof (length_ioapics (at_entries l)). pose proof (lo_few _ _ _ Hl).
  destruct (add_ioapics_spec (ioapics (at_entries l)) (set_madt (rsdp_info (at_x l) a (at_rsdt l) (at_xsdt l) (u8 (byte_sum (at_rsdp l)) =? 0))
    (at_madt l) (at_lapic l)) 0 eq_refl) as (Hc & Hm & Hlp & Hck & _ & Hnew); [lia|lia|done|done|].
  rewrite Z.add_0_l in Hc. split_and!; [exact Hm|exact Hlp|exact Hck|exact Hc|]. intros i address gsi Hi E. apply (Hnew i address gsi E). lia.
Qed.

(** ** A machine with two I/O APICs *)

Definition demo_acpi : acpi_tables :=
  mk_tables [TagModule 1 2 []] [] false [0; 87; 73; 82; 84; 72; 32; 0] 8192 0 [] (txt "RSDT") (replicate 27 0 ++ [0]) [12288] [] 16384
    (replicate 28 0) 4276092928 1 [OtherEntry 0 [0; 0; 1; 0; 0; 0]; IoApic 2 0 4273995776 0; IoApic 3 0 4273999872 24].

(** The byte that makes the sum of the RSDT zero. *)
Definition demo_acpi_fixed : acpi_tables :=
  mk_tables (at_pre demo_acpi) (at_post demo_acpi) false (at_ids demo_acpi) 8192 0 [] (txt "RSDT")
    (replicate 27 0 ++ [u8 (- byte_sum (sdt_table (txt "RSDT") (at_mid demo_acpi) (at_ptrs demo_acpi)))]) [12288] [] 16384
    (replicate 28 0) 4276092928 1 (at_entries demo_acpi).

Definition demo_acpi_memory : memory :=
  store_bytes (store_bytes (store_bytes (store_bytes ∅ 4096 (encode_info (at_tags demo_acpi_fixed))) 8192
    (sdt_table (at_sig demo_acpi_fixed) (at_mid demo_acpi_fixed) (at_ptrs demo_acpi_fixed))) 12288 (bytes_of (txt "FACP"))) 16384
    (sdt_table (txt "APIC") (at_madt_mid demo_acpi_fixed) (encode_madt 4276092928 1 (at_entries demo_acpi_fixed))).

(** [bytes_at] as a check that evaluates. *)
Fixpoint bytes_are (m : memory) (a : Z) (bs : list Z) : bool :=
  match bs with
  | [] => true
  | b :: r => (load8 m a =? b) && bytes_are m (a + 1) r
  end.

Lemma bytes_are_at m bs : ∀ a, bytes_are m a bs = true → bytes_at m a bs.
Proof.
  induction bs as [|b bs IH]; intros a; [done|]. cbn [bytes_are]. intros [H1 H2]%andb_true_iff. split; [by apply Z.eqb_eq|by apply IH].
Qed.

Lemma demo_acpi_laid_out : laid_out demo_acpi_memory 4096 demo_acpi_fixed.
Proof.
  split.
  - apply bytes_are_at. vm_compute. reflexivity.
  - split_and!; vm_compute; reflexivity.
  - repeat constructor; vm_compute; intuition congruence.
  - repeat constructor.
  - split; [reflexivity|]. split; [vm_compute; intuition congruence|discriminate].
  - split; [apply bytes_are_at; vm_compute; reflexivity|reflexivity|reflexivity|split; vm_compute; reflexivity].
  - discriminate.
  - vm_compute. reflexivity.
  - split; apply Forall_singleton; [unfold ptr_ok; vm_compute; intuition congruence|right; vm_compute; reflexivity].
  - split; [split; [apply bytes_are_at; vm_compute; reflexivity|reflexivity|reflexivity|split; vm_compute; reflexivity]|vm_compute; intuition congruence|].
    repeat apply Forall_cons_2; [vm_compute; intuition congruence..|constructor].
  - vm_compute. reflexivity.
Qed.

Lemma acpi_discovers_witness :
  ∃ info, discover 20 demo_acpi_memory 4096 = Some (true, info) ∧ local_apic_phys info = 4276092928 ∧ ioapic_count info = 2 ∧
    zget (ioapic_phys info) 1 = 4273999872 ∧ zget (ioapic_gsi_base info) 1 = 24.
Proof.
  destruct (acpi_discovers demo_acpi_memory 4096 demo_acpi_fixed 20 demo_acpi_laid_out) as (info & Hd & _ & Hl & _ & Hc & Hi);
    [vm_compute; lia|]. exists info. split; [exact Hd|]. split; [exact Hl|]. split; [exact Hc|].
  exact (Hi 1%nat 4273999872 24 ltac:(lia) eq_refl).
Defined.
