(* ===== verification/EfiImage.v ===== *)
(** * The EFI image builder ([tools/efiImageBuilder/main.cpp])

    Writes a disk image: a partition table, a FAT16 boot partition with the EFI
    binary and the kernels, and a persistent partition.  The image file is a
    map from offsets to bytes; a byte never written reads as zero.  Reading the
    input files and building the ext4 image with [mkfs.ext4] are parameters,
    and writing the output is taken to succeed. *)

From S2P Require Import Prelude Memory CText ToolText Bytes.

Definition kBytesPerSector : Z := 512.
Definition kSectorsPerCluster : Z := 8.
Definition kReservedSectors : Z := 1.
Definition kNumFats : Z := 2.
Definition kRootEntryCount : Z := 512.
Definition kBootPartitionMiB : Z := 32.
Definition kDefaultSizeMiB : Z := 128.
Definition kPartitionAlignmentSectors : Z := 2048.
Definition kMediaDescriptor : Z := 248.
Definition kMbrPartitionTypeEfi : Z := 239.
Definition kMbrPartitionTypeLinux : Z := 131.
Definition kFatEoc : Z := 65535.
Definition kFatFirstDataCluster : Z := 2.

Abbreviation image := memory.

Definition zeros (n : Z) : list Z := replicate (Z.to_nat n) 0.

Definition write_le16 (dst : list Z) (off value : Z) : list Z := splice dst off (le16 value).
Definition write_le32 (dst : list Z) (off value : Z) : list Z := splice dst off (le32 value).

(** [image.seekp(off); image.write(bytes)] *)
Definition write_at (img : image) (off : Z) (bs : list Z) : image := store_bytes img off bs.

(** ** Arguments *)

Record Options := mk_options {
  inputPath : text;
  kernel32Path : text;
  kernel64Path : text;
  rootfsPath : text;
  grubCfgPath : text;
  outputPath : text;
  sizeMiB : Z;
}.

Definition default_options : Options :=
  mk_options [] [] [] (txt "boot/rootfs.seed") (txt "boot/grub/grub.cfg") [] kDefaultSizeMiB.

Inductive args_result :=
  | Parsed (o : Options)
  | HelpExit
  | Throws (what : text).

(** [std::stoul]: white space, a sign, digits; [None] is an exception.  A minus
    sign negates modulo 2^64. *)
Fixpoint stoul_digits (t : text) (acc : Z) (any : bool) : option Z :=
  match t with
  | c :: t' =>
      if isdigit c then stoul_digits t' (acc * 10 + (byte_of c - 48)) true
      else if any then Some acc else None
  | [] => if any then Some acc else None
  end.

Definition stoul (t : text) : option Z :=
  let t := trim_left t in
  let '(negative, t) := match t with
                        | c :: t' => if Ascii.eqb c "-"%char then (true, t') else if Ascii.eqb c "+"%char then (false, t') else (false, t)
                        | [] => (false, t)
                        end in
  v ← stoul_digits t 0 false;
  if 18446744073709551615 <? v then None else Some (if negative : bool then u64 (- v) else v).

Definition set_option (arg value : text) (o : Options) : option args_result :=
  let '(mk_options i k32 k64 r g out size) := o in
  if text_equal arg (txt "--efi-exe") then Some (Parsed (mk_options value k32 k64 r g out size))
  else if text_equal arg (txt "--kernel32") then Some (Parsed (mk_options i value k64 r g out size))
  else if text_equal arg (txt "--kernel64") then Some (Parsed (mk_options i k32 value r g out size))
  else if text_equal arg (txt "--out") then Some (Parsed (mk_options i k32 k64 r g value size))
  else if text_equal arg (txt "--rootfs") then Some (Parsed (mk_options i k32 k64 value g out size))
  else if text_equal arg (txt "--grub-cfg") then Some (Parsed (mk_options i k32 k64 r value out size))
  else if text_equal arg (txt "--size-mib") then
    Some (match stoul value with Some v => Parsed (mk_options i k32 k64 r g out (u32 v)) | None => Throws (txt "stoul") end)
  else None.

(** The loop over [argv]; an option without a value falls through to the
    unknown arguments. *)
Definition unknown_argument (arg : text) : args_result :=
  if text_equal arg (txt "--help") || text_equal arg (txt "-h") then HelpExit
  else Throws (txt "unknown argument: " ++ arg).

Fixpoint parse_loop (args : list text) (o : Options) : args_result :=
  match args with
  | [] => Parsed o
  | [arg] => unknown_argument arg
  | arg :: value :: rest =>
      match set_option arg value o with
      | Some (Parsed o) => parse_loop rest o
      | Some r => r
      | None => unknown_argument arg
      end
  end.

Definition is_empty (t : text) : bool := match t with [] => true | _ => false end.

Definition parse_args (args : list text) : args_result :=
  match parse_loop args default_options with
  | Parsed o =>
      if is_empty (inputPath o) || is_empty (outputPath o) then Throws (txt "missing --efi-exe or --out")
      else if negb (Bool.eqb (is_empty (kernel32Path o)) (is_empty (kernel64Path o)))
      then Throws (txt "--kernel32 and --kernel64 must be provided together")
      else Parsed o
  | r => r
  end.

(** ** Shell commands *)

Definition quote : ascii := ascii_of_nat 39.
Definition backslash : ascii := ascii_of_nat 92.

Fixpoint quote_chars (raw : text) : text :=
  match raw with
  | [] => []
  | ch :: raw' => (if Ascii.eqb ch quote then [quote; backslash; quote; quote] else [ch]) ++ quote_chars raw'
  end.

Definition shell_quote (path : text) : text := [quote] ++ quote_chars path ++ [quote].

(** ** Partition table *)

Record Partition := mk_part {
  startSector : Z;
  sectorCount : Z;
  type : Z;
  bootable : bool;
}.

Definition write_partition (sector : list Z) (index : Z) (part : Partition) : list Z :=
  let offset := 446 + index * 16 in
  let sector := splice sector offset [if bootable part then 128 else 0; 1; 1; 0; type part; 254; 255; 255] in
  let sector := write_le32 sector (offset + 8) (u32 (startSector part)) in
  write_le32 sector (offset + 12) (u32 (sectorCount part)).

Definition mbr_sector (boot persistent : Partition) : list Z :=
  let sector := zeros kBytesPerSector in
  let sector := write_partition sector 0 boot in
  let sector := write_partition sector 1 persistent in
  splice sector 510 [85; 170].

Definition write_mbr (img : image) (boot persistent : Partition) : image := write_at img 0 (mbr_sector boot persistent).

(** ** FAT16 layout *)

Definition root_dir_sectors : Z := (kRootEntryCount * 32 + kBytesPerSector - 1) / kBytesPerSector.

Record Layout := mk_layout {
  totalSectors : Z;
  sectorsPerFat : Z;
  clusterCount : Z;
  firstFatSector : Z;
  rootDirSector : Z;
  firstDataSector : Z;
}.

(** The loop that settles the size of the FAT: at most 16 rounds. *)
Fixpoint layout_loop (n : nat) (total fatSectors clusters : Z) : Z * Z :=
  match n with
  | O => (fatSectors, clusters)
  | S n' =>
      let dataSectors := ((total -u kReservedSectors) -u root_dir_sectors) -u kNumFats *u fatSectors in
      let newClusterCount := dataSectors / kSectorsPerCluster in
      let newFatSectors := ((((newClusterCount +u 2) *u 2) +u kBytesPerSector) -u 1) / kBytesPerSector in
      if newFatSectors =? fatSectors then (fatSectors, newClusterCount)
      else layout_loop n' total newFatSectors newClusterCount
  end.

Definition compute_layout (sizeMiB : Z) : Layout :=
  let total := ((sizeMiB *u 1024) *u 1024) / kBytesPerSector in
  let '(fatSectors, clusters) := layout_loop 16 total 0 0 in
  let root := kReservedSectors +u kNumFats *u fatSectors in
  mk_layout total fatSectors clusters kReservedSectors root (root +u root_dir_sectors).

Definition cluster_to_sector (layout : Layout) (cluster : Z) : Z :=
  firstDataSector layout +u (cluster -u kFatFirstDataCluster) *u kSectorsPerCluster.

(** The offset in the image of a sector of the partition. *)
Definition sector_offset (base sector : Z) : Z := base + sector * kBytesPerSector.

(** ** Directory entries: the 32 bytes each function leaves at [dst] *)

Definition set_dir_entry_name (entry : list Z) (name8 ext3 : text) : list Z :=
  let entry := splice entry 0 (replicate 11 32) in
  let entry := splice entry 0 (bytes_of (take 8 name8)) in
  splice entry 8 (bytes_of (take 3 ext3)).

Definition dir_entry (name8 ext3 : text) (attributes firstCluster fileSize : Z) : list Z :=
  let dst := set_dir_entry_name (replicate 32 0) name8 ext3 in
  let dst := splice dst 11 [attributes] in
  let dst := write_le16 dst 26 firstCluster in
  write_le32 dst 28 fileSize.

Definition volume_label_entry (label11 : text) : list Z :=
  let dst := splice (replicate 32 0) 0 (bytes_of (take 11 label11)) in
  splice dst 11 [8].

Definition dot_entry (parent : bool) (cluster : Z) : list Z :=
  let dst := splice (replicate 32 0) 0 (replicate 11 32) in
  let dst := splice dst 0 [46] in
  let dst := if parent then splice dst 1 [46] else dst in
  let dst := splice dst 11 [16] in
  write_le16 dst 26 cluster.

Definition write_dir_entry (dst : list Z) (off : Z) (name8 ext3 : text) (attributes firstCluster fileSize : Z) : list Z :=
  splice dst off (dir_entry name8 ext3 attributes firstCluster fileSize).
Definition write_volume_label_entry (dst : list Z) (off : Z) (label11 : text) : list Z := splice dst off (volume_label_entry label11).
Definition write_dot_entry (dst : list Z) (off : Z) (parent : bool) (cluster : Z) : list Z := splice dst off (dot_entry parent cluster).

(** ** Boot sector *)

Definition boot_sector (layout : Layout) : list Z :=
  let sector := zeros kBytesPerSector in
  let sector := splice sector 0 [235; 60; 144] in
  let sector := splice sector 3 (bytes_of (txt "WIRTH") ++ [0]) in
  let sector := write_le16 sector 11 kBytesPerSector in
  let sector := splice sector 13 [kSectorsPerCluster] in
  let sector := write_le16 sector 14 kReservedSectors in
  let sector := splice sector 16 [kNumFats] in
  let sector := write_le16 sector 17 kRootEntryCount in
  let sector := write_le16 sector 19 (if totalSectors layout <? 65536 then u16 (totalSectors layout) else 0) in
  let sector := splice sector 21 [kMediaDescriptor] in
  let sector := write_le16 sector 22 (u16 (sectorsPerFat layout)) in
  let sector := write_le16 sector 24 63 in
  let sector := write_le16 sector 26 255 in
  let sector := write_le32 sector 28 0 in
  let sector := write_le32 sector 32 (if 65536 <=? totalSectors layout then totalSectors layout else 0) in
  let sector := splice sector 36 [128; 0; 41] in
  let sector := write_le32 sector 39 539362582 in
  let sector := splice sector 43 (replicate 11 32) in
  let sector := splice sector 43 (bytes_of (txt "wirth ESP")) in
  let sector := splice sector 54 (bytes_of (txt "FAT16   ")) in
  splice sector 510 [85; 170].

Definition write_boot_sector (img : image) (layout : Layout) (base : Z) : image := write_at img base (boot_sector layout).

(** ** File allocation tables *)

Definition set_entry (fat : list Z) (cluster value : Z) : list Z :=
  let offset := cluster * 2 in
  if offset + 2 <=? Z.of_nat (length fat) then write_le16 fat offset value else fat.

Fixpoint write_chain (n : nat) (fat : list Z) (startCluster i numClusters : Z) : list Z :=
  match n with
  | O => fat
  | S n' =>
      let cur := u16 (startCluster +u i) in
      let next := if i +u 1 <? numClusters then u16 (cur + 1) else kFatEoc in
      write_chain n' (set_entry fat cur next) startCluster (i +u 1) numClusters
  end.

Definition chain (fat : list Z) (startCluster numClusters : Z) : list Z :=
  write_chain (Z.to_nat numClusters) fat startCluster 0 numClusters.

Definition fat_table (layout : Layout) (efi kernel32 kernel64 rootfs grubCfg : Z) (includeKernelFiles : bool) : list Z :=
  let fat := zeros (sectorsPerFat layout *u kBytesPerSector) in
  let fat := set_entry fat 0 65528 in
  let fat := set_entry fat 1 kFatEoc in
  let fileStartCluster := if includeKernelFiles then 6 else 4 in
  let fat := set_entry fat 2 kFatEoc in
  let fat := set_entry fat 3 kFatEoc in
  let fat := set_entry fat 5 kFatEoc in
  let fat := if includeKernelFiles then set_entry fat 4 kFatEoc else fat in
  let fat := chain fat fileStartCluster efi in
  if includeKernelFiles then
    let fat := chain fat (fileStartCluster +u efi) kernel32 in
    let fat := chain fat ((fileStartCluster +u efi) +u kernel32) kernel64 in
    let fat := chain fat (((fileStartCluster +u efi) +u kernel32) +u kernel64) rootfs in
    chain fat ((((fileStartCluster +u efi) +u kernel32) +u kernel64) +u rootfs) grubCfg
  else fat.

Definition write_fat_tables (img : image) (layout : Layout) (base efi kernel32 kernel64 rootfs grubCfg : Z) (includeKernelFiles : bool) : image :=
  let fat := fat_table layout efi kernel32 kernel64 rootfs grubCfg includeKernelFiles in
  fold_left (λ img copy, write_at img (sector_offset base (firstFatSector layout +u copy *u sectorsPerFat layout)) fat) [0; 1] img.

(** ** Directories *)

Definition root_directory (includeKernelFiles : bool) : list Z :=
  let root := zeros (root_dir_sectors * kBytesPerSector) in
  let root := write_volume_label_entry root 0 (txt "wirth ESP") in
  let root := write_dir_entry root 32 (txt "EFI") [] 16 2 0 in
  if includeKernelFiles then write_dir_entry root 64 (txt "BOOT") [] 16 4 0 else root.

Definition write_root_directory (img : image) (layout : Layout) (base : Z) (includeKernelFiles : bool) : image :=
  write_at img (sector_offset base (rootDirSector layout)) (root_directory includeKernelFiles).

Definition clusterSize : Z := kSectorsPerCluster * kBytesPerSector.

Definition efi_cluster : list Z :=
  let c := zeros clusterSize in
  let c := write_dot_entry c 0 false 2 in
  let c := write_dot_entry c 32 true 0 in
  write_dir_entry c 64 (txt "BOOT") [] 16 3 0.

Definition boot_cluster (efiStartCluster efiFileSize : Z) : list Z :=
  let c := zeros clusterSize in
  let c := write_dot_entry c 0 false 3 in
  let c := write_dot_entry c 32 true 2 in
  write_dir_entry c 64 (txt "BOOTX64") (txt "EFI") 32 (u16 efiStartCluster) efiFileSize.

Definition root_boot_cluster (k32Start k32Size k64Start k64Size rootfsStart rootfsSize : Z) : list Z :=
  let c := zeros clusterSize in
  let c := write_dot_entry c 0 false 4 in
  let c := write_dot_entry c 32 true 0 in
  let c := write_dir_entry c 64 (txt "KERNEL") (txt "ELF") 32 (u16 k32Start) k32Size in
  let c := write_dir_entry c 96 (txt "KERNEL64") (txt "ELF") 32 (u16 k64Start) k64Size in
  let c := if 0 <? rootfsSize then write_dir_entry c 128 (txt "ROOTFS") (txt "SEED") 32 (u16 rootfsStart) rootfsSize else c in
  write_dir_entry c 160 (txt "GRUB") [] 16 5 0.

Definition grub_cluster (grubCfgStart grubCfgSize : Z) : list Z :=
  let c := zeros clusterSize in
  let c := write_dot_entry c 0 false 5 in
  let c := write_dot_entry c 32 true 4 in
  write_dir_entry c 64 (txt "GRUB") (txt "CFG") 32 (u16 grubCfgStart) grubCfgSize.

Definition write_cluster (img : image) (layout : Layout) (base cluster : Z) (bs : list Z) : image :=
  write_at img (sector_offset base (cluster_to_sector layout cluster)) bs.

Definition write_directory_clusters (img : image) (layout : Layout) (base efiSize k32Size k64Size rootfsSize grubSize
    efiStart k32Start k64Start rootfsStart grubStart : Z) (includeKernelFiles : bool) : image :=
  let img := write_cluster img layout base 2 efi_cluster in
  let img := write_cluster img layout base 3 (boot_cluster efiStart efiSize) in
  if includeKernelFiles then
    let img := write_cluster img layout base 4 (root_boot_cluster k32Start k32Size k64Start k64Size rootfsStart rootfsSize) in
    write_cluster img layout base 5 (grub_cluster grubStart grubSize)
  else img.

(** ** Files *)

(** The loop of [write_file_clusters]; [None] is fuel running out. *)
Fixpoint file_loop (fuel : nat) (img : image) (layout : Layout) (base : Z) (file : list Z) (startCluster clustersWritten : Z) : option image :=
  match fuel with
  | O => None
  | S fuel' =>
      let size := Z.of_nat (length file) in
      let offset := clustersWritten *u clusterSize in
      if offset <? size then
        let chunk := Z.min (u32 size -u offset) clusterSize in
        let cluster := startCluster +u clustersWritten in
        let img := write_at img (sector_offset base (cluster_to_sector layout cluster))
          (take (Z.to_nat chunk) (drop (Z.to_nat offset) file) ++ zeros (clusterSize - chunk)) in
        file_loop fuel' img layout base file startCluster (clustersWritten +u 1)
      else Some img
  end.

Definition write_file_clusters (fuel : nat) (img : image) (layout : Layout) (base : Z) (file : list Z) (startCluster : Z) : option image :=
  file_loop fuel img layout base file (u16 startCluster) 0.

(** ** The program *)

Definition clusters_of (file : list Z) : Z := ((u32 (Z.of_nat (length file)) +u clusterSize) -u 1) / clusterSize.
Definition size_of (file : list Z) : Z := u32 (Z.of_nat (length file)).

Inductive exit := Exit (code : Z) (img : option image) | OutOfFuel.

Definition finished (o : option image) : exit := match o with Some img => Exit 0 (Some img) | None => OutOfFuel end.

Section main.
(** [read_file] of a path, and the ext4 image built from the staged tree with a
    size in MiB. *)
Context (read_file : text → option (list Z)) (mkfs : list Z → Z → option (list Z)).

Definition boot_only_image (fuel : nat) (layout : Layout) (efi : list Z) : option image :=
  let img := write_at ∅ (totalSectors layout * kBytesPerSector - 1) [0] in
  let img := write_boot_sector img layout 0 in
  let img := write_fat_tables img layout 0 (clusters_of efi) 0 0 0 0 false in
  let img := write_root_directory img layout 0 false in
  let img := write_directory_clusters img layout 0 (size_of efi) 0 0 0 0 4 0 0 0 0 false in
  write_file_clusters fuel img layout 0 efi 4.

(** The stream [create] is still open while [image] is written: the zero byte
    put into it stays in its buffer until it is destroyed, after [image]. *)
Definition disk_image (fuel : nat) (layout : Layout) (efi k32 k64 grub ext4 : list Z) (totalDiskSectors persistStart persistCount : Z)
    : option image :=
  let img := write_mbr ∅ (mk_part kPartitionAlignmentSectors (totalSectors layout) kMbrPartitionTypeEfi true)
    (mk_part persistStart persistCount kMbrPartitionTypeLinux false) in
  let base := kPartitionAlignmentSectors * kBytesPerSector in
  let img := write_boot_sector img layout base in
  let img := write_fat_tables img layout base (clusters_of efi) (clusters_of k32) (clusters_of k64) 0 (clusters_of grub) true in
  let img := write_root_directory img layout base true in
  let k32Start := 6 +u clusters_of efi in
  let k64Start := k32Start +u clusters_of k32 in
  let grubStart := k64Start +u clusters_of k64 in
  let img := write_directory_clusters img layout base (size_of efi) (size_of k32) (size_of k64) 0 (size_of grub) 6 k32Start k64Start 0 grubStart true in
  img ← write_file_clusters fuel img layout base efi 6;
  img ← write_file_clusters fuel img layout base k32 k32Start;
  img ← write_file_clusters fuel img layout base k64 k64Start;
  img ← write_file_clusters fuel img layout base grub grubStart;
  let img := write_at img (persistStart * kBytesPerSector) ext4 in
  Some (write_at img (totalDiskSectors * kBytesPerSector - 1) [0]).

(** The inputs a run reads: a missing file ends it with status 1. *)
Definition read_inputs (o : Options) : option (list Z * list Z * list Z * list Z * list Z) :=
  efi ← read_file (inputPath o);
  if is_empty (kernel32Path o) then Some (efi, [], [], [], [])
  else
    k32 ← read_file (kernel32Path o);
    k64 ← read_file (kernel64Path o);
    rootfs ← read_file (rootfsPath o);
    grub ← read_file (grubCfgPath o);
    Some (efi, k32, k64, rootfs, grub).

Definition build (fuel : nat) (o : Options) : exit :=
  let includeKernelFiles := negb (is_empty (kernel32Path o)) in
  match read_inputs o with
  | None => Exit 1 None
  | Some (efi, k32, k64, rootfs, grub) =>
      let layout := compute_layout kBootPartitionMiB in
      let totalDiskSectors := u64 (u64 (sizeMiB o * 1024) * 1024) / kBytesPerSector in
      let persistStart := kPartitionAlignmentSectors + totalSectors layout in
      let persistCount := if persistStart <? totalDiskSectors then totalDiskSectors - persistStart else 0 in
      let required := (((clusters_of efi +u clusters_of k32) +u clusters_of k64) +u clusters_of grub) +u (if includeKernelFiles then 4 else 3) in
      if clusterCount layout <? required then Exit 1 None
      else if negb includeKernelFiles then finished (boot_only_image fuel layout efi)
      else if persistCount =? 0 then Exit 1 None
      else
        let persistSizeMiB := u32 ((persistCount * kBytesPerSector) / (1024 * 1024)) in
        if persistSizeMiB =? 0 then Exit 1 None
        else
          match mkfs rootfs persistSizeMiB with
          | None => Exit 1 None
          | Some ext4 =>
              if negb (Z.of_nat (length ext4) =? persistCount * kBytesPerSector) then Exit 1 None
              else finished (disk_image fuel layout efi k32 k64 grub ext4 totalDiskSectors persistStart persistCount)
          end
  end.

(** [main]: exceptions end with status 1, [--help] with 0. *)
Definition main (fuel : nat) (args : list text) : exit :=
  match parse_args args with
  | Parsed o => build fuel o
  | HelpExit => Exit 0 None
  | Throws _ => Exit 1 None
  end.
End main.
