(* ===== verification/EfiImageSpec.v ===== *)
(** * What the image builder guarantees

    A reader of FAT16 volumes after the format, and the proof that it finds in
    a built image the files the image was built from. *)

From S2P Require Import Prelude Memory CText ToolText Serial Bytes EfiImage.

(** ** Images as writes in increasing order *)

Definition apply_writes (img : image) (ws : list (Z * list Z)) : image := fold_left (λ m w, store_bytes m w.1 w.2) ws img.

Fixpoint increasing (lo : Z) (ws : list (Z * list Z)) : Prop :=
  match ws with
  | [] => True
  | (o, bs) :: ws' => lo <= o ∧ increasing (o + Z.of_nat (length bs)) ws'
  end.

Lemma increasing_mono ws : ∀ lo lo', lo' <= lo → increasing lo ws → increasing lo' ws.
Proof. destruct ws as [|[o bs] ws]; [done|]. cbn. intros lo lo' Hl [Ho Hr]. split; [lia|done]. Qed.

Lemma increasing_above ws : ∀ lo o bs, increasing lo ws → (o, bs) ∈ ws → lo <= o.
Proof.
  induction ws as [|[o' bs'] ws IH]; intros lo o bs Hi Hin; [by apply elem_of_nil in Hin|].
  destruct Hi as [Hlo Hi]. apply elem_of_cons in Hin as [[= -> ->]|Hin]; [done|]. pose proof (IH _ _ _ Hi Hin). lia.
Qed.

Lemma apply_writes_below ws : ∀ img lo a, increasing lo ws → a < lo → load8 (apply_writes img ws) a = load8 img a.
Proof.
  induction ws as [|[o bs] ws IH]; intros img lo a Hi Ha; [done|]. destruct Hi as [Hlo Hi]. cbn [apply_writes fold_left fst snd].
  fold (apply_writes (store_bytes img o bs) ws). rewrite (IH _ _ _ Hi), load8_store_bytes by lia. done.
Qed.

(** Nothing is overwritten: every write reads back. *)
Lemma apply_writes_read ws : ∀ img lo o bs,
  increasing lo ws → Forall (λ w, Forall (λ b, 0 <= b < 256) w.2) ws → (o, bs) ∈ ws → load_bytes (length bs) (apply_writes img ws) o = bs.
Proof.
  induction ws as [|[o' bs'] ws IH]; intros img lo o bs Hi Hb Hin; [by apply elem_of_nil in Hin|].
  destruct Hi as [Hlo Hi]. apply Forall_cons in Hb as [Hb' Hb]. cbn [apply_writes fold_left fst snd].
  fold (apply_writes (store_bytes img o' bs') ws). apply elem_of_cons in Hin as [[= -> ->]|Hin]; [|by eapply IH].
  transitivity (load_bytes (length bs') (store_bytes img o' bs') o'); [|by apply load_bytes_store_bytes].
  apply load_bytes_ext. intros a Ha. eapply apply_writes_below; [exact Hi|lia].
Qed.

(** ** The reader *)

Section fat16.
Context (img : image) (base : Z).

Definition bpb16 (off : Z) : Z := load_le 2 img (base + off).
Definition bpb8 (off : Z) : Z := load8 img (base + off).

Definition fat_start : Z := base + bpb16 14 * 512.
Definition root_start : Z := base + (bpb16 14 + bpb8 16 * bpb16 22) * 512.
Definition data_start : Z := root_start + bpb16 17 * 32.
Definition cluster_len : Z := bpb8 13 * 512.

Definition fat_next (c : Z) : Z := load_le 2 img (fat_start + 2 * c).
Definition cluster_bytes (c : Z) : list Z := load_bytes (Z.to_nat cluster_len) img (data_start + (c - 2) * cluster_len).

(** The clusters of a chain; a chain longer than the FAT is a cycle. *)
Fixpoint follow (fuel : nat) (c : Z) : option (list Z) :=
  match fuel with
  | O => None
  | S fuel' => if 65528 <=? fat_next c then Some [c] else cs ← follow fuel' (fat_next c); Some (c :: cs)
  end.

Definition chain_bytes (fuel : nat) (c size : Z) : option (list Z) :=
  if size =? 0 then Some []
  else cs ← follow fuel c; Some (take (Z.to_nat size) (concat (cluster_bytes <$> cs))).

(** The first cluster and the size of the entry with an 11-byte name; an entry
    that starts with zero ends the directory. *)
Fixpoint dir_lookup (n : nat) (dir : list Z) (name : list Z) : option (Z * Z) :=
  match n with
  | O => None
  | S n' =>
      if zget dir 0 =? 0 then None
      else if bool_decide (take 11 dir = name) then Some (word16 dir 26, word32 dir 28)
      else dir_lookup n' (drop 32 dir) name
  end.

Definition root_bytes : list Z := load_bytes (Z.to_nat (bpb16 17 * 32)) img root_start.

(** A file below directories of one cluster. *)
Fixpoint lookup_path (dir : list Z) (path : list (list Z)) : option (Z * Z) :=
  match path with
  | [] => None
  | [name] => dir_lookup 512 dir name
  | name :: path' => '(c, _) ← dir_lookup 512 dir name; lookup_path (cluster_bytes c) path'
  end.

Definition read_path (fuel : nat) (path : list (list Z)) : option (list Z) :=
  '(c, size) ← lookup_path root_bytes path; chain_bytes fuel c size.
End fat16.

(** ** The FAT *)

Definition fat_get (fat : list Z) (c : Z) : Z := word16 fat (2 * c).

Lemma word16_splice buf off v : 0 <= off → off + 2 <= Z.of_nat (length buf) → 0 <= v < 65536 → word16 (splice buf off (le16 v)) off = v.
Proof.
  intros H0 Hl Hv. unfold splice, word16, zget. rewrite (lookup_total_app_r _ _ (Z.to_nat off)), (lookup_total_app_r _ _ (Z.to_nat (off + 1))) by (rewrite length_take; lia). rewrite length_take.
  replace (Z.to_nat off - Z.to_nat off `min` length buf)%nat with 0%nat by lia.
  replace (Z.to_nat (off + 1) - Z.to_nat off `min` length buf)%nat with 1%nat by lia. cbn -[Z.mul Z.add Z.shiftr].
  unfold u8. rewrite Z.shiftr_div_pow2 by lia. change (2 ^ 8) with 256. Z.div_mod_to_equations. lia.
Qed.

Lemma zget_splice_ne buf off bs k :
  0 <= off → 0 <= k → off + Z.of_nat (length bs) <= Z.of_nat (length buf) → k < off ∨ off + Z.of_nat (length bs) <= k →
  zget (splice buf off bs) k = zget buf k.
Proof.
  intros H0 Hk Hl Hor. unfold splice, zget. rewrite !list_lookup_total_alt. f_equal. destruct Hor.
  - rewrite lookup_app_l by (rewrite length_take; lia). apply lookup_take_lt. lia.
  - rewrite lookup_app_r by (rewrite length_take; lia). rewrite length_take, lookup_app_r by lia. rewrite lookup_drop. f_equal. lia.
Qed.

Lemma set_entry_length fat c v : 0 <= c → length (set_entry fat c v) = length fat.
Proof.
  intros Hc. unfold set_entry, write_le16, splice. destruct (_ <=? _) eqn:E; [|done]. zbool.
  rewrite !length_app, length_take, length_drop. cbn [length le16]. lia.
Qed.

Lemma set_entry_get fat c v d :
  0 <= c → 0 <= d → 2 * c + 2 <= Z.of_nat (length fat) → 0 <= v < 65536 →
  fat_get (set_entry fat c v) d = if d =? c then v else fat_get fat d.
Proof.
  intros Hc Hd Hl Hv. unfold set_entry, write_le16, fat_get. rewrite (Z.mul_comm c), (proj2 (Z.leb_le _ _)) by lia.
  destruct (d =? c) eqn:E; zbool; [subst d; apply word16_splice; lia|].
  unfold word16. rewrite !zget_splice_ne by (cbn [length le16]; lia). done.
Qed.

(** A chain of [n] clusters from [s]; the other entries stay. *)
Definition chain_next (s n c : Z) : Z := if c + 1 <? s + n then c + 1 else kFatEoc.

Lemma write_chain_get k : ∀ fat s i n,
  n = i + Z.of_nat k → 0 <= s → 0 <= i → s + n < 65536 → 2 * (s + n) <= Z.of_nat (length fat) →
  length (write_chain k fat s i n) = length fat ∧
  ∀ c, 0 <= c → fat_get (write_chain k fat s i n) c = if (s + i <=? c) && (c <? s + n) then chain_next s n c else fat_get fat c.
Proof.
  induction k as [|k IH]; intros fat s i n Hn Hs Hi Hmax Hl; cbn [write_chain].
  { split; [done|]. intros c Hc. replace ((s + i <=? c) && (c <? s + n)) with false by (symmetry; apply andb_false_iff; rewrite Z.leb_gt, Z.ltb_ge; lia). done. }
  rewrite (u32_small (s + i)), (u32_small (i + 1)), (u16_small (s + i)) by lia.
  set (v := if i + 1 <? n then u16 (s + i + 1) else kFatEoc). set (fat1 := set_entry fat (s + i) v).
  assert (v = chain_next s n (s + i)) as Hv.
  { unfold v, chain_next. replace (s + i + 1 <? s + n) with (i + 1 <? n) by (apply eq_true_iff_eq; rewrite !Z.ltb_lt; lia).
    destruct (i + 1 <? n) eqn:E; zbool; [apply u16_small; lia|done]. }
  assert (0 <= v < 65536) as Hvr by (unfold v; destruct (_ <? _); [apply u16_range|unfold kFatEoc; lia]).
  assert (length fat1 = length fat) as Hl1 by (apply set_entry_length; lia).
  destruct (IH fat1 s (i + 1) n ltac:(lia) Hs ltac:(lia) Hmax ltac:(lia)) as [Hlen Hget]. split; [lia|].
  intros c Hc. rewrite Hget by done. unfold fat1. rewrite set_entry_get by lia.
  destruct (c =? s + i) eqn:E.
  - apply Z.eqb_eq in E as ->. rewrite (proj2 (Z.leb_gt _ _)), (proj2 (Z.leb_le _ _)), (proj2 (Z.ltb_lt _ _)) by lia. cbn [andb]. done.
  - apply Z.eqb_neq in E. replace (s + i <=? c) with (s + (i + 1) <=? c) by (apply eq_true_iff_eq; rewrite !Z.leb_le; lia). done.
Qed.

Lemma chain_get fat s n :
  0 <= s → 0 <= n → s + n < 65536 → 2 * (s + n) <= Z.of_nat (length fat) →
  length (chain fat s n) = length fat ∧
  ∀ c, 0 <= c → fat_get (chain fat s n) c = if (s <=? c) && (c <? s + n) then chain_next s n c else fat_get fat c.
Proof.
  intros Hs Hn Hmax Hl. destruct (write_chain_get (Z.to_nat n) fat s 0 n) as [H1 H2]; [lia..|]. split; [done|].
  intros c Hc. unfold chain. rewrite H2 by done. by rewrite Z.add_0_r.
Qed.

Abbreviation all_bytes := (Forall (λ b, 0 <= b < 256)).

Lemma splice_bytes buf off bs : all_bytes buf → all_bytes bs → all_bytes (splice buf off bs).
Proof. intros H1 H2. unfold splice. repeat apply Forall_app_2; [by apply Forall_take|done|by apply Forall_drop]. Qed.

Lemma le16_all_bytes v : all_bytes (le16 v).
Proof. repeat constructor; apply u8_range. Qed.

Lemma set_entry_bytes fat c v : all_bytes fat → all_bytes (set_entry fat c v).
Proof. intros Hf. unfold set_entry. destruct (_ <=? _); [|done]. apply splice_bytes; [done|apply le16_all_bytes]. Qed.

Lemma write_chain_bytes k : ∀ fat s i n, all_bytes fat → all_bytes (write_chain k fat s i n).
Proof. induction k as [|k IH]; intros fat s i n Hf; [done|]. cbn [write_chain]. by apply IH, set_entry_bytes. Qed.

Lemma zeros_bytes n : all_bytes (zeros n).
Proof. apply Forall_replicate. lia. Qed.

(** ** The boot partition *)

Definition boot_layout : Layout := mk_layout 65536 32 8179 1 65 97.

Lemma compute_boot_layout : compute_layout kBootPartitionMiB = boot_layout.
Proof. vm_compute. reflexivity. Qed.

(** The chains of the four files follow one another and do not touch. *)
Lemma fat_table_chains n1 n2 n3 n4 :
  0 <= n1 → 0 <= n2 → 0 <= n3 → 0 <= n4 → 6 + n1 + n2 + n3 + n4 <= 8181 →
  let fat := fat_table boot_layout n1 n2 n3 0 n4 true in
  Z.of_nat (length fat) = 16384 ∧ all_bytes fat ∧
  ∀ s n, (s, n) ∈ [(6, n1); (6 + n1, n2); (6 + n1 + n2, n3); (6 + n1 + n2 + n3, n4)] →
    ∀ c, s <= c < s + n → fat_get fat c = chain_next s n c.
Proof.
  intros H1 H2 H3 H4 Hmax. unfold fat_table. cbn [sectorsPerFat boot_layout].
  set (f0 := set_entry (set_entry (set_entry _ _ _) _ _) 4 kFatEoc).
  assert (Z.of_nat (length f0) = 16384) as L0 by (vm_compute; reflexivity).
  assert (all_bytes f0) as B0 by (unfold f0; do 6 apply set_entry_bytes; apply zeros_bytes).
  clearbody f0. rewrite !(u32_small (6 + n1)), !(u32_small (6 + n1 + n2)), !(u32_small (6 + n1 + n2 + n3)), Z.add_0_r, !(u32_small (6 + n1 + n2 + n3)) by lia.
  set (s2 := 6 + n1) in *. set (s3 := s2 + n2) in *. set (s4 := s3 + n3) in *.
  assert (s2 = 6 + n1 ∧ s3 = s2 + n2 ∧ s4 = s3 + n3) as (E2 & E3 & E4) by (split_and!; reflexivity). clearbody s4 s3 s2.
  destruct (chain_get f0 6 n1) as [L1 G1]; [lia..|]. set (f1 := chain f0 6 n1) in *.
  destruct (chain_get f1 s2 n2) as [L2 G2]; [lia..|]. set (f2 := chain f1 s2 n2) in *.
  destruct (chain_get f2 s3 n3) as [L3 G3]; [lia..|]. set (f3 := chain f2 s3 n3) in *.
  change (chain f3 s4 0) with f3. destruct (chain_get f3 s4 n4) as [L4 G4]; [lia..|].
  assert (∀ (a b : Z) (x y : Z), ¬ (a <= x < b) → (if (a <=? x) && (x <? b) then y else 0) = 0 ∧ (a <=? x) && (x <? b) = false) as Hout.
  { intros a b x y Hx. assert ((a <=? x) && (x <? b) = false) as -> by (apply andb_false_iff; rewrite Z.leb_gt, Z.ltb_ge; lia). done. }
  assert (∀ a b x, a <= x < b → (a <=? x) && (x <? b) = true) as Hin by (intros; apply andb_true_iff; rewrite Z.leb_le, Z.ltb_lt; lia).
  split_and!; [lia|by repeat apply write_chain_bytes|]. intros s n Hsn c Hc.
  rewrite !elem_of_cons, elem_of_nil in Hsn. destruct Hsn as [[= -> ->]|[[= -> ->]|[[= -> ->]|[[= -> ->]|[]]]]].
  - rewrite G4, (proj2 (Hout s4 (s4 + n4) c 0 ltac:(lia))), G3, (proj2 (Hout s3 (s3 + n3) c 0 ltac:(lia))), G2,
      (proj2 (Hout s2 (s2 + n2) c 0 ltac:(lia))), G1, Hin by lia. done.
  - rewrite G4, (proj2 (Hout s4 (s4 + n4) c 0 ltac:(lia))), G3, (proj2 (Hout s3 (s3 + n3) c 0 ltac:(lia))), G2, Hin by lia. done.
  - rewrite G4, (proj2 (Hout s4 (s4 + n4) c 0 ltac:(lia))), G3, Hin by lia. done.
  - rewrite G4, Hin by lia. done.
Qed.

(** ** Files as writes *)

Definition part_base : Z := 1048576.
Definition cluster_off (c : Z) : Z := part_base + (97 + (c - 2) * 8) * 512.

Definition chunk_of (rest : list Z) : list Z := take 4096 rest ++ zeros (4096 - Z.of_nat (length (take 4096 rest))).

Fixpoint file_writes (s : Z) (rest : list Z) (k : nat) : list (Z * list Z) :=
  match k with
  | O => []
  | S k' => (cluster_off s, chunk_of rest) :: file_writes (s + 1) (drop 4096 rest) k'
  end.

Definition cluster_num (file : list Z) : Z := (Z.of_nat (length file) + 4095) / 4096.

Lemma clusters_of_num file : Z.of_nat (length file) < 4294963200 → clusters_of file = cluster_num file ∧ 0 <= cluster_num file.
Proof.
  intros Hl. unfold clusters_of, cluster_num, clusterSize, kSectorsPerCluster, kBytesPerSector. change (8 * 512) with 4096.
  rewrite (u32_small (Z.of_nat _)), (u32_small (_ + 4096)), u32_small by lia. split; [f_equal; lia|apply Z.div_pos; lia].
Qed.

Lemma chunk_length rest : length (chunk_of rest) = 4096%nat.
Proof. unfold chunk_of, zeros. rewrite length_app, length_replicate, length_take. lia. Qed.

Lemma cluster_sector c : 2 <= c < 70000 → sector_offset part_base (cluster_to_sector boot_layout c) = cluster_off c.
Proof.
  intros Hc. unfold cluster_to_sector, sector_offset, cluster_off, kFatFirstDataCluster, kSectorsPerCluster, kBytesPerSector. cbn [firstDataSector boot_layout].
  rewrite (u32_small (c - 2)), (u32_small (_ * 8)), u32_small by lia. done.
Qed.

Lemma file_loop_writes k : ∀ fuel img file s w,
  (k < fuel)%nat → Z.of_nat (length file) < 4294963200 → 2 <= s → s + w + Z.of_nat k < 65536 → 0 <= w → w <= 1048574 →
  w * 4096 + 4096 * Z.of_nat k < Z.of_nat (length file) + 4096 → Z.of_nat (length file) <= w * 4096 + 4096 * Z.of_nat k →
  file_loop fuel img boot_layout part_base file s w = Some (apply_writes img (file_writes (s + w) (drop (Z.to_nat (4096 * w)) file) k)).
Proof.
  induction k as [|k IH]; intros fuel img file s w Hf Hlen Hs Hmax H0 Hw Hk1 Hk2; (destruct fuel as [|fuel]; [lia|]); cbn [file_loop];
    unfold clusterSize, kSectorsPerCluster, kBytesPerSector; change (8 * 512) with 4096; rewrite (u32_small (w * 4096)) by lia.
  { rewrite (proj2 (Z.ltb_ge _ _)) by lia. done. }
  rewrite (proj2 (Z.ltb_lt _ _)), (u32_small (Z.of_nat _)), (u32_small (_ - _)), (u32_small (s + w)), (u32_small (w + 1)) by lia.
  rewrite cluster_sector by lia. rewrite (IH fuel) by lia. cbn [file_writes apply_writes fold_left fst snd]. unfold write_at, apply_writes.
  do 2 f_equal; [rewrite Z.add_assoc, drop_drop; do 2 f_equal; lia|].
  f_equal. unfold chunk_of. rewrite (Z.mul_comm w), length_take, length_drop. f_equal; [|f_equal; lia].
  destruct (Z.le_gt_cases 4096 (Z.of_nat (length file) - 4096 * w)).
  - rewrite Z.min_r by lia. done.
  - rewrite Z.min_l by lia. rewrite !take_ge by (rewrite length_drop; lia). done.
Qed.

Lemma apply_writes_app img ws1 ws2 : apply_writes img (ws1 ++ ws2) = apply_writes (apply_writes img ws1) ws2.
Proof. apply fold_left_app. Qed.

Lemma file_writes_increasing k : ∀ s rest lo ws,
  lo <= cluster_off s → increasing (cluster_off (s + Z.of_nat k)) ws → increasing lo (file_writes s rest k ++ ws).
Proof.
  induction k as [|k IH]; intros s rest lo ws Hlo Hws; cbn [file_writes app increasing].
  { eapply increasing_mono; [|exact Hws]. rewrite Z.add_0_r. done. }
  split; [done|]. rewrite chunk_length. apply IH; [unfold cluster_off; lia|]. eapply increasing_mono; [|exact Hws]. unfold cluster_off. lia.
Qed.

Lemma chunk_bytes rest : all_bytes rest → all_bytes (chunk_of rest).
Proof. intros Hr. apply Forall_app_2; [by apply Forall_take|apply zeros_bytes]. Qed.

Lemma file_writes_bytes k : ∀ s rest, all_bytes rest → Forall (λ w, all_bytes w.2) (file_writes s rest k).
Proof.
  induction k as [|k IH]; intros s rest Hr; cbn [file_writes]; [constructor|]. constructor; [by apply chunk_bytes|]. by apply IH, Forall_drop.
Qed.

(** The files of an image and where they go. *)
Record payload := mk_payload { pl_efi : list Z; pl_k32 : list Z; pl_k64 : list Z; pl_grub : list Z }.

Definition start32 (p : payload) : Z := 6 + cluster_num (pl_efi p).
Definition start64 (p : payload) : Z := start32 p + cluster_num (pl_k32 p).
Definition start_grub (p : payload) : Z := start64 p + cluster_num (pl_k64 p).

Record payload_ok (p : payload) : Prop := {
  pk_efi : all_bytes (pl_efi p) ∧ Z.of_nat (length (pl_efi p)) < 4294963200;
  pk_k32 : all_bytes (pl_k32 p) ∧ Z.of_nat (length (pl_k32 p)) < 4294963200;
  pk_k64 : all_bytes (pl_k64 p) ∧ Z.of_nat (length (pl_k64 p)) < 4294963200;
  pk_grub : all_bytes (pl_grub p) ∧ Z.of_nat (length (pl_grub p)) < 4294963200;
  pk_fits : start_grub p + cluster_num (pl_grub p) <= 8181;
}.

Definition fat_of (p : payload) : list Z :=
  fat_table boot_layout (cluster_num (pl_efi p)) (cluster_num (pl_k32 p)) (cluster_num (pl_k64 p)) 0 (cluster_num (pl_grub p)) true.

Definition boot_part : Partition := mk_part kPartitionAlignmentSectors 65536 kMbrPartitionTypeEfi true.
Definition persist_part (count : Z) : Partition := mk_part 67584 count kMbrPartitionTypeLinux false.

Definition file_list (p : payload) : list (Z * list Z) :=
  [(6, pl_efi p); (start32 p, pl_k32 p); (start64 p, pl_k64 p); (start_grub p, pl_grub p)].

Definition files_writes (p : payload) : list (Z * list Z) :=
  concat ((λ x, file_writes x.1 x.2 (Z.to_nat (cluster_num x.2))) <$> file_list p).

Definition meta_writes (p : payload) (count : Z) : list (Z * list Z) :=
  [(0, mbr_sector boot_part (persist_part count)); (part_base, boot_sector boot_layout);
   (part_base + 512, fat_of p); (part_base + 16896, fat_of p); (part_base + 33280, root_directory true);
   (cluster_off 2, efi_cluster); (cluster_off 3, boot_cluster 6 (Z.of_nat (length (pl_efi p))));
   (cluster_off 4, root_boot_cluster (start32 p) (Z.of_nat (length (pl_k32 p))) (start64 p) (Z.of_nat (length (pl_k64 p))) 0 0);
   (cluster_off 5, grub_cluster (start_grub p) (Z.of_nat (length (pl_grub p))))].

Definition disk_writes (p : payload) (ext4 : list Z) (count : Z) : list (Z * list Z) :=
  meta_writes p count ++ files_writes p ++ [(34603008, ext4)].

Lemma cluster_num_nonneg file : 0 <= cluster_num file.
Proof. apply Z.div_pos; lia. Qed.

Lemma starts p : 6 <= start32 p <= start64 p ∧ start64 p <= start_grub p.
Proof.
  unfold start_grub, start64, start32. pose proof (cluster_num_nonneg (pl_efi p)). pose proof (cluster_num_nonneg (pl_k32 p)).
  pose proof (cluster_num_nonneg (pl_k64 p)). lia.
Qed.

(** A file written from a cluster that leaves room. *)
Lemma write_file_writes fuel img file s :
  Z.of_nat (length file) < 4294963200 → 2 <= s → s + cluster_num file <= 8181 → 8181 < Z.of_nat fuel →
  write_file_clusters fuel img boot_layout part_base file s = Some (apply_writes img (file_writes s file (Z.to_nat (cluster_num file)))).
Proof.
  intros Hl Hs Hfit Hf. pose proof (cluster_num_nonneg file) as Hn. unfold write_file_clusters. rewrite u16_small by lia.
  rewrite (file_loop_writes (Z.to_nat (cluster_num file))); [by rewrite Z.add_0_r|lia|done|done|lia|lia|lia|..];
    rewrite Z2Nat.id by done; unfold cluster_num; Z.div_mod_to_equations; lia.
Qed.

#[local] Opaque fat_table boot_sector root_directory efi_cluster boot_cluster root_boot_cluster grub_cluster mbr_sector.

Lemma meta_image_writes img p count :
  write_directory_clusters
    (write_root_directory
       (write_fat_tables (write_boot_sector (write_mbr img boot_part (persist_part count)) boot_layout part_base) boot_layout part_base
          (cluster_num (pl_efi p)) (cluster_num (pl_k32 p)) (cluster_num (pl_k64 p)) 0 (cluster_num (pl_grub p)) true) boot_layout part_base true)
    boot_layout part_base (Z.of_nat (length (pl_efi p))) (Z.of_nat (length (pl_k32 p))) (Z.of_nat (length (pl_k64 p))) 0
    (Z.of_nat (length (pl_grub p))) 6 (start32 p) (start64 p) 0 (start_grub p) true = apply_writes img (meta_writes p count).
Proof.
  unfold write_directory_clusters, write_root_directory, write_fat_tables, write_boot_sector, write_mbr, write_cluster, write_at.
  rewrite !cluster_sector by lia. unfold apply_writes, meta_writes. cbn [fold_left fst snd]. fold (fat_of p). reflexivity.
Qed.

(** What the disk keeps of the ext4 image: the byte of [create] lands on its last byte. *)
Definition stored (bs : list Z) : list Z := take (length bs - 1) bs ++ [0].

Lemma store_last m a bs : bs ≠ [] → store_bytes (store_bytes m a bs) (a + Z.of_nat (length bs) - 1) [0] = store_bytes m a (stored bs).
Proof.
  intros Hne. destruct bs as [|b bs _] using rev_ind; [done|]. unfold stored. rewrite length_app. cbn [length].
  rewrite Nat.add_sub, take_app_length. clear Hne. revert m a. induction bs as [|x bs IH]; intros m a; cbn [app store_bytes length].
  - cbn [Nat.add]. replace (a + Z.of_nat 1 - 1) with a by lia. unfold store8. by rewrite insert_insert_eq.
  - replace (a + Z.of_nat (S (length bs) + 1) - 1) with (a + 1 + Z.of_nat (length bs + 1) - 1) by lia. apply IH.
Qed.

Lemma disk_image_writes fuel p ext4 total count :
  payload_ok p → 8181 < Z.of_nat fuel → ext4 ≠ [] → total * 512 = 34603008 + Z.of_nat (length ext4) →
  disk_image fuel boot_layout (pl_efi p) (pl_k32 p) (pl_k64 p) (pl_grub p) ext4 total 67584 count =
  Some (apply_writes ∅ (disk_writes p (stored ext4) count)).
Proof.
  intros [[_ H1] [_ H2] [_ H3] [_ H4] Hfit] Hf Hne Htot. pose proof (starts p) as Hst.
  pose proof (cluster_num_nonneg (pl_grub p)).
  destruct (clusters_of_num _ H1) as [C1 _]. destruct (clusters_of_num _ H2) as [C2 _]. destruct (clusters_of_num _ H3) as [C3 _].
  destruct (clusters_of_num _ H4) as [C4 _]. unfold disk_image, size_of. rewrite C1, C2, C3, C4.
  rewrite (u32_small (Z.of_nat (length (pl_efi p)))), (u32_small (Z.of_nat (length (pl_k32 p)))), (u32_small (Z.of_nat (length (pl_k64 p)))),
    (u32_small (Z.of_nat (length (pl_grub p)))) by lia. fold (start32 p).
  rewrite !(u32_small (start32 p)) by lia. fold (start64 p). rewrite !(u32_small (start64 p)) by lia. fold (start_grub p).
  rewrite !(u32_small (start_grub p)) by lia. change (kPartitionAlignmentSectors * kBytesPerSector) with part_base.
  unfold disk_writes, files_writes, file_list. rewrite !apply_writes_app. cbn [fmap list_fmap concat fst snd]. rewrite app_nil_r, !apply_writes_app.
  assert (start64 p = start32 p + cluster_num (pl_k32 p) ∧ start_grub p = start64 p + cluster_num (pl_k64 p) ∧ start32 p = 6 + cluster_num (pl_efi p))
    as (E1 & E2 & E3) by done.
  fold boot_part. fold (persist_part count). rewrite meta_image_writes.
  do 4 (rewrite write_file_writes by lia; cbn [mbind option_bind]).
  unfold write_at, kBytesPerSector. rewrite Htot. change (67584 * 512) with 34603008. rewrite store_last by done. reflexivity.
Qed.

#[local] Transparent fat_table boot_sector root_directory efi_cluster boot_cluster root_boot_cluster grub_cluster mbr_sector.

(** Every part is made of bytes. *)
Lemma le32_all_bytes v : all_bytes (le32 v).
Proof. repeat constructor; apply u8_range. Qed.

#[local] Hint Resolve splice_bytes le16_all_bytes le32_all_bytes bytes_of_range zeros_bytes : bytes.

Lemma dir_entry_bytes name ext a c s : 0 <= a < 256 → all_bytes (dir_entry name ext a c s).
Proof.
  intros Ha. unfold dir_entry, set_dir_entry_name, write_le16, write_le32.
  repeat apply splice_bytes; auto with bytes; first [apply (Forall_replicate _ 32 0); lia|apply (Forall_replicate _ 11 32); lia|by constructor].
Qed.

Lemma dot_entry_bytes parent c : all_bytes (dot_entry parent c).
Proof.
  unfold dot_entry, write_le16. apply splice_bytes; [|auto with bytes]. apply splice_bytes; [|by repeat constructor].
  assert (all_bytes (splice (splice (replicate 32 0) 0 (replicate 11 32)) 0 [46])) by (apply (bool_decide_unpack _); vm_compute; exact I).
  destruct parent; [apply splice_bytes; [done|by repeat constructor]|done].
Qed.

#[local] Hint Extern 1 (all_bytes (dir_entry _ _ _ _ _)) => apply dir_entry_bytes; lia : bytes.
#[local] Hint Resolve dot_entry_bytes : bytes.

Lemma write_partition_bytes sector i part : all_bytes sector → 0 <= type part < 256 → all_bytes (write_partition sector i part).
Proof.
  intros Hs Ht. unfold write_partition, write_le32. repeat apply splice_bytes; auto with bytes. repeat constructor; destruct (bootable part); lia.
Qed.

(** Entries written one after the other into a zeroed buffer. *)
Ltac splices := first [apply zeros_bytes|apply splice_bytes; [splices|auto with bytes]].

(** One goal for each write of a list. *)
Ltac each_write := first [apply Forall_nil_2|apply Forall_cons_2; [cbn [snd]|each_write]].

Lemma meta_writes_bytes p count : payload_ok p → Forall (λ w, all_bytes w.2) (meta_writes p count).
Proof.
  intros [_ _ _ _ Hfit]. pose proof (starts p). pose proof (cluster_num_nonneg (pl_grub p)). unfold start_grub, start64, start32 in *.
  assert (all_bytes (fat_of p)) as Hfat by (apply fat_table_chains; first [apply cluster_num_nonneg|lia]).
  unfold meta_writes. each_write.
  - unfold mbr_sector. apply splice_bytes; [|by repeat constructor].
    apply write_partition_bytes; [apply write_partition_bytes; [apply zeros_bytes|]|]; vm_compute; intuition congruence.
  - apply (bool_decide_unpack _). vm_compute. exact I.
  - exact Hfat.
  - exact Hfat.
  - apply (bool_decide_unpack _). vm_compute. exact I.
  - apply (bool_decide_unpack _). vm_compute. exact I.
  - unfold boot_cluster, write_dir_entry, write_dot_entry. splices.
  - unfold root_boot_cluster, write_dir_entry, write_dot_entry. change (0 <? 0) with false. cbn iota.
    splices.
  - unfold grub_cluster, write_dir_entry, write_dot_entry. splices.
Qed.

Lemma fat_of_length p : payload_ok p → Z.of_nat (length (fat_of p)) = 16384.
Proof.
  intros [_ _ _ _ Hfit]. pose proof (starts p). unfold start_grub, start64, start32 in *.
  apply fat_table_chains; first [apply cluster_num_nonneg|lia].
Qed.

Lemma cluster_lengths p count :
  length (mbr_sector boot_part (persist_part count)) = 512%nat ∧ length (boot_sector boot_layout) = 512%nat ∧
  Z.of_nat (length (root_directory true)) = 16384 ∧ length efi_cluster = 4096%nat ∧
  length (boot_cluster 6 (Z.of_nat (length (pl_efi p)))) = 4096%nat ∧
  length (root_boot_cluster (start32 p) (Z.of_nat (length (pl_k32 p))) (start64 p) (Z.of_nat (length (pl_k64 p))) 0 0) = 4096%nat ∧
  length (grub_cluster (start_grub p) (Z.of_nat (length (pl_grub p)))) = 4096%nat.
Proof. split_and!; vm_compute; reflexivity. Qed.

Lemma disk_writes_ok p ext4 count :
  payload_ok p → all_bytes ext4 →
  increasing 0 (disk_writes p ext4 count) ∧ Forall (λ w, all_bytes w.2) (disk_writes p ext4 count).
Proof.
  intros Hok Hext. pose proof (fat_of_length p Hok) as Lf. destruct (cluster_lengths p count) as (L1 & L2 & L3 & L4 & L5 & L6 & L7).
  pose proof (starts p) as Hst. split.
  - unfold disk_writes, meta_writes. cbn [app increasing]. rewrite Lf, L1, L2, L3, L4, L5, L6, L7. unfold cluster_off, part_base.
    split_and!; try lia. unfold files_writes, file_list. cbn [fmap list_fmap concat fst snd]. rewrite app_nil_r, <- !app_assoc.
    pose proof (pk_fits p Hok) as Hfit. pose proof (cluster_num_nonneg (pl_grub p)).
    pose proof (cluster_num_nonneg (pl_efi p)). pose proof (cluster_num_nonneg (pl_k32 p)). pose proof (cluster_num_nonneg (pl_k64 p)).
    repeat (apply file_writes_increasing; [unfold cluster_off, part_base, start_grub, start64, start32; lia|]).
    cbn [increasing]. unfold cluster_off, part_base. split; [lia|exact I].
  - unfold disk_writes. apply Forall_app_2; [by apply meta_writes_bytes|]. apply Forall_app_2; [|by constructor].
    destruct Hok as [[H1 _] [H2 _] [H3 _] [H4 _] _]. unfold files_writes, file_list. cbn [fmap list_fmap concat fst snd].
    rewrite app_nil_r. repeat apply Forall_app_2; by apply file_writes_bytes.
Qed.
