(* ===== verification/EfiDisk.v ===== *)
(** * Reading a built image back

    The FAT16 reader of [EfiImageSpec] finds in a built image the files the
    image was built from, and the kernel's partition scan finds its
    partitions. *)

From S2P Require Import Prelude Memory CText ToolText Serial Bytes EfiImage EfiImageSpec.

(** ** Reading a built image *)

Lemma load_bytes_get n m a k : 0 <= k < Z.of_nat n → zget (load_bytes n m a) k = load8 m (a + k).
Proof.
  revert a k. induction n as [|n IH]; intros a k Hk; [lia|]. cbn [load_bytes]. unfold zget.
  destruct (Z.to_nat k) as [|j] eqn:E; [cbn; by replace (a + k) with a by lia|].
  specialize (IH (a + 1) (Z.of_nat j) ltac:(lia)). unfold zget in IH. rewrite Nat2Z.id in IH.
  trans (load_bytes n m (a + 1) !!! j); [reflexivity|]. rewrite IH. f_equal. lia.
Qed.

Lemma region_word16 n m a bs off : load_bytes n m a = bs → 0 <= off → off + 2 <= Z.of_nat n → load_le 2 m (a + off) = word16 bs off.
Proof.
  intros <- H0 Hl. unfold word16. rewrite !load_bytes_get by lia.
  change (load_le 2 m (a + off)) with (load8 m (a + off) + 256 * (load8 m (a + off + 1) + 256 * 0)).
  rewrite Z.mul_0_r, Z.add_0_r, <- Z.add_assoc. done.
Qed.

Lemma region_byte n m a bs off : load_bytes n m a = bs → 0 <= off < Z.of_nat n → load8 m (a + off) = zget bs off.
Proof. intros <- Hl. by rewrite load_bytes_get by lia. Qed.

Lemma file_chunks s rest k :
  Z.of_nat (length rest) <= 4096 * Z.of_nat k → take (length rest) (concat (snd <$> file_writes s rest k)) = rest.
Proof.
  revert s rest. induction k as [|k IH]; intros s rest Hl; [by destruct rest; [|cbn in Hl; lia]|].
  cbn [file_writes fmap list_fmap concat snd]. unfold chunk_of. destruct (Nat.le_gt_cases 4096 (length rest)) as [H|H].
  - rewrite length_take, Nat.min_l by done. change (zeros (4096 - Z.of_nat 4096)) with (@nil Z). rewrite app_nil_r.
    rewrite take_app_ge by (rewrite length_take; lia). rewrite length_take, Nat.min_l by done.
    replace (length rest - 4096)%nat with (length (drop 4096 rest)) by (by rewrite length_drop).
    rewrite IH by (rewrite length_drop; lia). apply take_drop.
  - rewrite (take_ge rest) by lia. rewrite <- app_assoc. apply take_app_length'. done.
Qed.

(** ** Directory clusters as lists of entries *)

Definition entry (short : list Z) (a c size : Z) : list Z := short ++ [a] ++ replicate 14 0 ++ le16 c ++ le32 size.

Definition fname (s : string) : list Z := bytes_of (txt s).

Lemma lookup_entry n short a c size rest name :
  length short = 11%nat → zget short 0 ≠ 0 → 0 <= c < 65536 → 0 <= size < 4294967296 →
  dir_lookup (S n) (entry short a c size ++ rest) name =
    if bool_decide (short = name) then Some (c, size) else dir_lookup n rest name.
Proof.
  intros Hl Hz Hc Hs. assert (word16 (entry short a c size ++ rest) 26 = c) as H26.
  { do 11 (destruct short as [|? short]; [discriminate|]). destruct short; [|discriminate].
    change (word16 (le16 c) 0 = c). rewrite <- (word16_splice [0; 0] 0 c ltac:(lia) ltac:(done) Hc) at 2. done. }
  assert (word32 (entry short a c size ++ rest) 28 = size) as H28.
  { pose proof (word32_le32 (short ++ [a] ++ replicate 14 0 ++ le16 c) size rest Hs) as H. unfold entry.
    rewrite <- !app_assoc in *. rewrite !length_app, Hl in H. exact H. }
  cbn [dir_lookup]. rewrite H26, H28. do 11 (destruct short as [|? short]; [discriminate|]). destruct short; [|discriminate].
  change (zget (entry _ a c size ++ rest) 0) with z. change (zget _ 0) with z in Hz.
  rewrite (proj2 (Z.eqb_neq _ _) Hz). done.
Qed.

Lemma lookup_end n rest name : dir_lookup n (0 :: rest) name = None.
Proof. by destruct n. Qed.

Lemma root_directory_entries :
  root_directory true = volume_label_entry (txt "wirth ESP") ++ entry (fname "EFI        ") 16 2 0 ++
    entry (fname "BOOT       ") 16 4 0 ++ zeros 16288.
Proof. vm_compute. reflexivity. Qed.

Lemma efi_cluster_entries :
  efi_cluster = entry (fname ".          ") 16 2 0 ++ entry (fname "..         ") 16 0 0 ++ entry (fname "BOOT       ") 16 3 0 ++ zeros 4000.
Proof. vm_compute. reflexivity. Qed.

(** Both sides byte by byte, the bytes of a variable kept as they are. *)
Ltac keep_bytes :=
  unfold entry, write_dir_entry, dir_entry, write_le16, write_le32, le16, le32;
  repeat match goal with |- context [u8 ?v] => (match v with context [?x] => is_var x end); generalize (u8 v); intro end;
  vm_compute; reflexivity.

Lemma boot_cluster_entries c n :
  boot_cluster c n = entry (fname ".          ") 16 3 0 ++ entry (fname "..         ") 16 2 0 ++
    entry (fname "BOOTX64 EFI") 32 (u16 c) n ++ zeros 4000.
Proof. unfold boot_cluster. keep_bytes. Qed.

Lemma root_boot_cluster_entries c32 n32 c64 n64 :
  root_boot_cluster c32 n32 c64 n64 0 0 = entry (fname ".          ") 16 4 0 ++ entry (fname "..         ") 16 0 0 ++
    entry (fname "KERNEL  ELF") 32 (u16 c32) n32 ++ entry (fname "KERNEL64ELF") 32 (u16 c64) n64 ++
    zeros 32 ++ entry (fname "GRUB       ") 16 5 0 ++ zeros 3904.
Proof. unfold root_boot_cluster. keep_bytes. Qed.

Section built.
Context (p : payload) (ext4 : list Z) (count : Z) (img0 : image).
Hypothesis p_ok : payload_ok p.
Hypothesis ext4_bytes : all_bytes ext4.
Abbreviation img := (apply_writes img0 (disk_writes p ext4 count)).

Lemma region o bs : (o, bs) ∈ disk_writes p ext4 count → load_bytes (length bs) img o = bs.
Proof using p_ok ext4_bytes.
  intros Hin. destruct (disk_writes_ok p ext4 count p_ok ext4_bytes) as [H1 H2]. by eapply apply_writes_read.
Qed.

Lemma meta_region o bs : (o, bs) ∈ meta_writes p count → load_bytes (length bs) img o = bs.
Proof using p_ok ext4_bytes. intros Hin. apply region. unfold disk_writes. apply elem_of_app. by left. Qed.

(** The geometry the reader finds in the boot sector. *)
Lemma geometry :
  fat_start img part_base = part_base + 512 ∧ root_start img part_base = part_base + 33280 ∧
  data_start img part_base = part_base + 49664 ∧ cluster_len img part_base = 4096 ∧ bpb16 img part_base 17 = 512.
Proof using p_ok ext4_bytes.
  assert (load_bytes 512 img part_base = boot_sector boot_layout) as Hb.
  { apply (meta_region part_base (boot_sector boot_layout)). unfold meta_writes. do 1 apply list_elem_of_further. apply list_elem_of_here. }
  unfold data_start, root_start, fat_start, cluster_len, bpb16, bpb8.
  rewrite (region_word16 _ _ _ _ 14 Hb), (region_word16 _ _ _ _ 22 Hb), (region_word16 _ _ _ _ 17 Hb), (region_byte _ _ _ _ 16 Hb),
    (region_byte _ _ _ _ 13 Hb) by lia.
  split_and!; vm_compute; reflexivity.
Qed.

Lemma root_region : root_bytes img part_base = root_directory true.
Proof using p_ok ext4_bytes.
  destruct geometry as (_ & Hr & _ & _ & He). unfold root_bytes. rewrite Hr, He.
  replace (Z.to_nat (512 * 32)) with (length (root_directory true)) by (pose proof (cluster_lengths p count); lia).
  apply meta_region. unfold meta_writes. do 4 apply list_elem_of_further. apply list_elem_of_here.
Qed.

Lemma cluster_region c bs : (cluster_off c, bs) ∈ disk_writes p ext4 count → length bs = 4096%nat → cluster_bytes img part_base c = bs.
Proof using p_ok ext4_bytes.
  intros Hin Hl. destruct geometry as (_ & _ & Hd & Hc & _). unfold cluster_bytes. rewrite Hd, Hc.
  change (Z.to_nat 4096) with 4096%nat. rewrite <- Hl.
  replace (part_base + 49664 + (c - 2) * 4096) with (cluster_off c) by (unfold cluster_off; lia). by apply region.
Qed.

Lemma fat_region c : 0 <= c < 8192 → fat_next img part_base c = fat_get (fat_of p) c.
Proof using p_ok ext4_bytes.
  intros Hc. destruct geometry as (Hf & _). unfold fat_next, fat_get. rewrite Hf. pose proof (fat_of_length p p_ok) as Hl.
  apply (region_word16 (length (fat_of p))); [|lia|lia]. apply meta_region. unfold meta_writes.
  do 2 apply list_elem_of_further. apply list_elem_of_here.
Qed.

(** Following a chain of the FAT. *)
Lemma follow_chain s n :
  0 <= s → s + n <= 8181 → (∀ c, s <= c < s + n → fat_get (fat_of p) c = chain_next s n c) →
  ∀ j fuel, (0 < j)%nat → (j <= fuel)%nat → Z.of_nat j <= n → follow img part_base fuel (s + n - Z.of_nat j) = Some (seqZ (s + n - Z.of_nat j) (Z.of_nat j)).
Proof using p_ok ext4_bytes.
  intros Hs Hfit Hget. induction j as [|j IH]; intros fuel H0 Hf Hj; [lia|]. destruct fuel as [|fuel]; [lia|]. cbn [follow].
  rewrite fat_region, Hget by lia. unfold chain_next, kFatEoc. destruct (decide (j = 0%nat)) as [->|Hj0].
  - rewrite (proj2 (Z.ltb_ge _ _)) by lia. cbn [Z.leb Z.compare Pos.compare Pos.compare_cont]. by rewrite seqZ_cons by lia.
  - rewrite (proj2 (Z.ltb_lt _ _)), (proj2 (Z.leb_gt _ _)) by lia.
    replace (s + n - Z.of_nat (S j) + 1) with (s + n - Z.of_nat j) by lia. rewrite IH by lia. cbn [mbind option_bind].
    rewrite (seqZ_cons (s + n - Z.of_nat (S j))) by lia. do 3 f_equal; lia.
Qed.

Lemma clusters_read k : ∀ s rest,
  (∀ w, w ∈ file_writes s rest k → w ∈ disk_writes p ext4 count) →
  cluster_bytes img part_base <$> seqZ s (Z.of_nat k) = snd <$> file_writes s rest k.
Proof using p_ok ext4_bytes.
  induction k as [|k IH]; intros s rest Hin; [done|]. rewrite seqZ_cons by lia. cbn [file_writes fmap list_fmap snd] in *. f_equal.
  - apply cluster_region; [apply Hin, list_elem_of_here|apply chunk_length].
  - replace (Z.pred (Z.of_nat (S k))) with (Z.of_nat k) by lia. apply IH. intros w Hw. apply Hin. by apply list_elem_of_further.
Qed.

(** A file of the payload through its chain. *)
Lemma file_read s file fuel :
  (s, file) ∈ file_list p → (8181 < Z.of_nat fuel) → chain_bytes img part_base fuel s (Z.of_nat (length file)) = Some file.
Proof using p_ok ext4_bytes.
  intros Hin Hf. pose proof (pk_fits p p_ok) as Hfit. pose proof (cluster_num_nonneg (pl_efi p)). pose proof (cluster_num_nonneg (pl_k32 p)).
  pose proof (cluster_num_nonneg (pl_k64 p)). pose proof (cluster_num_nonneg (pl_grub p)). unfold start_grub, start64, start32 in Hfit.
  unfold chain_bytes. destruct (Z.of_nat (length file) =? 0) eqn:E; zbool; [by destruct file|].
  set (n := cluster_num file). assert (0 < n ∧ Z.of_nat (length file) <= 4096 * n) as [Hn Hl]
    by (unfold n, cluster_num; Z.div_mod_to_equations; lia).
  assert ((s, n) ∈ [(6, cluster_num (pl_efi p)); (6 + cluster_num (pl_efi p), cluster_num (pl_k32 p));
                    (6 + cluster_num (pl_efi p) + cluster_num (pl_k32 p), cluster_num (pl_k64 p));
                    (6 + cluster_num (pl_efi p) + cluster_num (pl_k32 p) + cluster_num (pl_k64 p), cluster_num (pl_grub p))] ∧ 6 <= s ∧ s + n <= 8181)
    as (Hsn & Hs6 & Hsn').
  { unfold file_list in Hin. unfold start_grub, start64, start32 in Hin. rewrite !elem_of_cons, elem_of_nil in Hin. rewrite !elem_of_cons. unfold n.
    destruct Hin as [[= -> ->]|[[= -> ->]|[[= -> ->]|[[= -> ->]|[]]]]]; (split; [tauto|lia]). }
  destruct (fat_table_chains (cluster_num (pl_efi p)) (cluster_num (pl_k32 p)) (cluster_num (pl_k64 p)) (cluster_num (pl_grub p)))
    as (_ & _ & Hchain); [lia..|]. specialize (Hchain s n Hsn). fold (fat_of p) in Hchain.
  pose proof (follow_chain s n ltac:(lia) Hsn' Hchain (Z.to_nat n) fuel ltac:(lia) ltac:(lia) ltac:(lia)) as Hfol.
  rewrite Z2Nat.id in Hfol by lia. replace (s + n - n) with s in Hfol by lia. rewrite Hfol. cbn [mbind option_bind]. rewrite Nat2Z.id. f_equal.
  replace n with (Z.of_nat (Z.to_nat n)) by lia. rewrite (clusters_read (Z.to_nat n) s file).
  - apply file_chunks. lia.
  - intros w Hw. unfold disk_writes. apply elem_of_app. right. apply elem_of_app. left. unfold files_writes. apply list_elem_of_In, in_concat.
    exists (file_writes s file (Z.to_nat n)). split; [|by apply list_elem_of_In].
    apply list_elem_of_In, list_elem_of_fmap. by exists (s, file).
Qed.
(** The directories of the tree. *)
Lemma dir_region c bs :
  (cluster_off c, bs) ∈ meta_writes p count → length bs = 4096%nat → cluster_bytes img part_base c = bs.
Proof using p_ok ext4_bytes. intros Hin Hl. apply cluster_region; [|done]. unfold disk_writes. apply elem_of_app. by left. Qed.

Lemma efi_region : cluster_bytes img part_base 2 = efi_cluster.
Proof using p_ok ext4_bytes.
  apply dir_region; [|apply (cluster_lengths p count)]. unfold meta_writes. do 5 apply list_elem_of_further. apply list_elem_of_here.
Qed.

Lemma boot_region : cluster_bytes img part_base 3 = boot_cluster 6 (Z.of_nat (length (pl_efi p))).
Proof using p_ok ext4_bytes.
  apply dir_region; [|apply (cluster_lengths p count)]. unfold meta_writes. do 6 apply list_elem_of_further. apply list_elem_of_here.
Qed.

Lemma root_boot_region : cluster_bytes img part_base 4 =
  root_boot_cluster (start32 p) (Z.of_nat (length (pl_k32 p))) (start64 p) (Z.of_nat (length (pl_k64 p))) 0 0.
Proof using p_ok ext4_bytes.
  apply dir_region; [|apply (cluster_lengths p count)]. unfold meta_writes. do 7 apply list_elem_of_further. apply list_elem_of_here.
Qed.

Lemma root_lookups :
  dir_lookup 512 (root_directory true) (fname "EFI        ") = Some (2, 0) ∧
  dir_lookup 512 (root_directory true) (fname "BOOT       ") = Some (4, 0) ∧
  dir_lookup 512 efi_cluster (fname "BOOT       ") = Some (3, 0).
Proof using. split_and!; vm_compute; reflexivity. Qed.

(** The entries of a listed directory, one after the other. *)
Ltac look_up := repeat (rewrite (lookup_entry _ (fname _)) by first [done|lia]; cbn [app]); rewrite ?lookup_end.

Lemma boot_lookups :
  dir_lookup 512 (boot_cluster 6 (Z.of_nat (length (pl_efi p)))) (fname "BOOTX64 EFI") = Some (6, Z.of_nat (length (pl_efi p))) ∧
  let dir := root_boot_cluster (start32 p) (Z.of_nat (length (pl_k32 p))) (start64 p) (Z.of_nat (length (pl_k64 p))) 0 0 in
  dir_lookup 512 dir (fname "KERNEL  ELF") = Some (start32 p, Z.of_nat (length (pl_k32 p))) ∧
  dir_lookup 512 dir (fname "KERNEL64ELF") = Some (start64 p, Z.of_nat (length (pl_k64 p))) ∧
  dir_lookup 512 dir (fname "GRUB       ") = None.
Proof using p_ok.
  destruct p_ok as [[_ L1] [_ L2] [_ L3] [_ L4] Hfit]. pose proof (starts p). pose proof (cluster_num_nonneg (pl_grub p)).
  rewrite boot_cluster_entries, root_boot_cluster_entries, !u16_small by lia. cbv zeta. split_and!.
  - look_up. done.
  - look_up. done.
  - look_up. done.
  - look_up. done.
Qed.

#[local] Opaque root_directory efi_cluster boot_cluster root_boot_cluster grub_cluster disk_writes dir_lookup.

Lemma files_found fuel :
  8181 < Z.of_nat fuel →
  read_path img part_base fuel [fname "EFI        "; fname "BOOT       "; fname "BOOTX64 EFI"] = Some (pl_efi p) ∧
  read_path img part_base fuel [fname "BOOT       "; fname "KERNEL  ELF"] = Some (pl_k32 p) ∧
  read_path img part_base fuel [fname "BOOT       "; fname "KERNEL64ELF"] = Some (pl_k64 p).
Proof using p_ok ext4_bytes.
  intros Hf. destruct root_lookups as (R1 & R2 & R3). destruct boot_lookups as (B1 & B2 & B3 & _).
  unfold read_path. rewrite root_region. cbn [lookup_path].
  rewrite R1, R2. cbn [mbind option_bind]. rewrite efi_region, R3. cbn [mbind option_bind].
  rewrite boot_region, root_boot_region, B1, B2, B3. cbn [mbind option_bind].
  split_and!; (apply file_read; [unfold file_list; rewrite !elem_of_cons; tauto|done]).
Qed.

Lemma grub_hidden fuel rest : read_path img part_base fuel (fname "BOOT       " :: fname "GRUB       " :: rest) = None.
Proof using p_ok ext4_bytes.
  destruct root_lookups as (_ & R2 & _). destruct boot_lookups as (_ & _ & _ & B4).
  unfold read_path. rewrite root_region. cbn [lookup_path]. rewrite R2. cbn [mbind option_bind]. rewrite root_boot_region.
  destruct rest; cbn [lookup_path]; rewrite B4; done.
Qed.

#[local] Transparent disk_writes.

Lemma ext4_region : load_bytes (length ext4) img 34603008 = ext4.
Proof using p_ok ext4_bytes.
  apply region. unfold disk_writes. apply elem_of_app. right. apply elem_of_app. right. apply list_elem_of_here.
Qed.

Lemma mbr_region : load_bytes 512 img 0 = mbr_sector boot_part (persist_part count).
Proof using p_ok ext4_bytes.
  destruct (cluster_lengths p count) as [<- _]. apply meta_region. unfold meta_writes. apply list_elem_of_here.
Qed.
End built.

Lemma stored_bytes bs : all_bytes bs → all_bytes (stored bs).
Proof. intros Hb. apply Forall_app_2; [by apply Forall_take|by repeat constructor]. Qed.

Lemma stored_length bs : 0 < Z.of_nat (length bs) → length (stored bs) = length bs.
Proof. intros Hl. unfold stored. rewrite length_app, length_take. cbn [length]. lia. Qed.

(** ** A run of the program *)

Section run.
Context (read_file : text → option (list Z)) (mkfs : list Z → Z → option (list Z)).
Context (o : Options) (p : payload) (rootfs ext4 : list Z).
Hypothesis kernels : is_empty (kernel32Path o) = false.
Hypothesis inputs : read_inputs read_file o = Some (pl_efi p, pl_k32 p, pl_k64 p, rootfs, pl_grub p).
Hypothesis size_ok : 34 <= sizeMiB o < 4294967296.
Hypothesis p_ok : payload_ok p.
Hypothesis mkfs_ok : mkfs rootfs (sizeMiB o - 33) = Some ext4.
Hypothesis ext4_len : Z.of_nat (length ext4) = (sizeMiB o - 33) * 1048576.

Lemma build_writes fuel :
  8181 < Z.of_nat fuel →
  build read_file mkfs fuel o =
  Exit 0 (Some (apply_writes ∅ (disk_writes p (stored ext4) (sizeMiB o * 2048 - 67584)))).
Proof using All.
  intros Hf. unfold build. rewrite inputs, kernels, compute_boot_layout. cbn [negb].
  pose proof (starts p) as Hst. pose proof p_ok as [[_ H1] [_ H2] [_ H3] [_ H4] Hfit]. pose proof (cluster_num_nonneg (pl_grub p)).
  destruct (clusters_of_num _ H1) as [C1 _]. destruct (clusters_of_num _ H2) as [C2 _]. destruct (clusters_of_num _ H3) as [C3 _].
  destruct (clusters_of_num _ H4) as [C4 _]. rewrite C1, C2, C3, C4.
  change (kPartitionAlignmentSectors + totalSectors boot_layout) with 67584. unfold kBytesPerSector.
  assert (u64 (u64 (sizeMiB o * 1024) * 1024) / 512 = sizeMiB o * 2048) as ->.
  { unfold u64. rewrite (Z.mod_small (sizeMiB o * 1024)) by lia. rewrite Z.mod_small by lia. rewrite <- Z.mul_assoc. change (1024 * 1024) with (2048 * 512).
    rewrite Z.mul_assoc. apply Z.div_mul. done. }
  rewrite (proj2 (Z.ltb_lt 67584 (sizeMiB o * 2048))) by lia.
  change (clusterCount boot_layout) with 8179.
  assert ((((cluster_num (pl_efi p) +u cluster_num (pl_k32 p)) +u cluster_num (pl_k64 p)) +u cluster_num (pl_grub p)) +u 4 <= 8179) as Hreq.
  { unfold start_grub, start64, start32 in *. pose proof (cluster_num_nonneg (pl_efi p)). pose proof (cluster_num_nonneg (pl_k32 p)).
    pose proof (cluster_num_nonneg (pl_k64 p)).
    rewrite (u32_small (cluster_num (pl_efi p) + cluster_num (pl_k32 p))) by lia.
    rewrite (u32_small (cluster_num (pl_efi p) + cluster_num (pl_k32 p) + cluster_num (pl_k64 p))) by lia.
    rewrite (u32_small (cluster_num (pl_efi p) + cluster_num (pl_k32 p) + cluster_num (pl_k64 p) + cluster_num (pl_grub p))) by lia.
    rewrite u32_small by lia. lia. }
  rewrite (proj2 (Z.ltb_ge _ _) Hreq). rewrite (proj2 (Z.eqb_neq (sizeMiB o * 2048 - 67584) 0)) by lia.
  assert (u32 ((sizeMiB o * 2048 - 67584) * 512 / (1024 * 1024)) = sizeMiB o - 33) as ->.
  { replace ((sizeMiB o * 2048 - 67584) * 512) with ((sizeMiB o - 33) * (1024 * 1024)) by lia. rewrite Z.div_mul by done. apply u32_small. lia. }
  rewrite (proj2 (Z.eqb_neq (sizeMiB o - 33) 0)) by lia. rewrite mkfs_ok, ext4_len.
  replace ((sizeMiB o - 33) * 1048576 =? (sizeMiB o * 2048 - 67584) * 512) with true by (symmetry; apply Z.eqb_eq; lia). cbn [negb].
  rewrite disk_image_writes; [done|done|done| |lia]. intros ->. cbn in ext4_len. lia.
Qed.
End run.

(** C27: a run with the two kernels on inputs that fit the boot partition exits with status 0, and a FAT16 reader of the partition at
    sector 2048 finds EFI/BOOT/BOOTX64.EFI, BOOT/KERNEL.ELF and BOOT/KERNEL64.ELF with the bytes of the input files, through the directories
    and the chains of the file allocation table; the persistent partition holds the ext4 image with its last byte cleared. *)
Theorem built_disk_readable read_file mkfs o p rootfs ext4 fuel :
  is_empty (kernel32Path o) = false →
  read_inputs read_file o = Some (pl_efi p, pl_k32 p, pl_k64 p, rootfs, pl_grub p) →
  34 <= sizeMiB o < 4294967296 → payload_ok p → 8181 < Z.of_nat fuel →
  mkfs rootfs (sizeMiB o - 33) = Some ext4 → all_bytes ext4 → Z.of_nat (length ext4) = (sizeMiB o - 33) * 1048576 →
  ∃ img, build read_file mkfs fuel o = Exit 0 (Some img) ∧
    read_path img part_base fuel [fname "EFI        "; fname "BOOT       "; fname "BOOTX64 EFI"] = Some (pl_efi p) ∧
    read_path img part_base fuel [fname "BOOT       "; fname "KERNEL  ELF"] = Some (pl_k32 p) ∧
    read_path img part_base fuel [fname "BOOT       "; fname "KERNEL64ELF"] = Some (pl_k64 p) ∧
    load_bytes (length ext4) img 34603008 = stored ext4.
Proof.
  intros Hk Hin Hsz Hp Hf Hm Hb Hl. eexists. split; [by eapply build_writes|].
  apply stored_bytes in Hb. destruct (files_found p (stored ext4) (sizeMiB o * 2048 - 67584) ∅ Hp Hb fuel Hf) as (F1 & F2 & F3).
  split; [exact F1|]. split; [exact F2|]. split; [exact F3|]. rewrite <- (stored_length ext4) by lia. by apply ext4_region.
Qed.

(** The entry left empty for the missing seed file ends the directory: the GRUB directory after it is never found. *)
Lemma grub_directory_hidden read_file mkfs o p rootfs ext4 fuel rest :
  is_empty (kernel32Path o) = false →
  read_inputs read_file o = Some (pl_efi p, pl_k32 p, pl_k64 p, rootfs, pl_grub p) →
  34 <= sizeMiB o < 4294967296 → payload_ok p → 8181 < Z.of_nat fuel →
  mkfs rootfs (sizeMiB o - 33) = Some ext4 → all_bytes ext4 → Z.of_nat (length ext4) = (sizeMiB o - 33) * 1048576 →
  ∃ img, build read_file mkfs fuel o = Exit 0 (Some img) ∧
    read_path img part_base fuel (fname "BOOT       " :: fname "GRUB       " :: rest) = None.
Proof.
  intros Hk Hin Hsz Hp Hf Hm Hb Hl. eexists. split; [by eapply build_writes|]. apply grub_hidden; [done|by apply stored_bytes].
Qed.

(** ** A run *)

Definition demo_payload : payload := mk_payload (replicate 4100 7) [1; 2; 3] [] [9; 9].
Definition demo_build_options : Options :=
  mk_options (txt "a.efi") (txt "k32") (txt "k64") (txt "seed") (txt "grub.cfg") (txt "out.img") 34.
Definition demo_read_file (path : text) : option (list Z) :=
  if text_equal path (txt "a.efi") then Some (pl_efi demo_payload)
  else if text_equal path (txt "k32") then Some (pl_k32 demo_payload)
  else if text_equal path (txt "k64") then Some (pl_k64 demo_payload)
  else if text_equal path (txt "grub.cfg") then Some (pl_grub demo_payload)
  else if text_equal path (txt "seed") then Some []
  else None.
Definition demo_ext4 : list Z := replicate (Z.to_nat 1048576) 5.
Definition demo_mkfs (rootfs : list Z) (size : Z) : option (list Z) := if size =? 1 then Some demo_ext4 else None.

Lemma demo_payload_ok : payload_ok demo_payload.
Proof.
  split; [split; [by apply Forall_replicate|vm_compute; reflexivity]|..]; try (split; [by repeat constructor|vm_compute; reflexivity]).
  vm_compute. congruence.
Qed.

Lemma demo_ext4_ok : all_bytes demo_ext4 ∧ Z.of_nat (length demo_ext4) = 1048576.
Proof. unfold demo_ext4. split; [by apply Forall_replicate|]. rewrite length_replicate. lia. Qed.

Lemma built_disk_readable_witness :
  ∃ img, build demo_read_file demo_mkfs (Z.to_nat 9000) demo_build_options = Exit 0 (Some img) ∧
    read_path img part_base (Z.to_nat 9000) [fname "EFI        "; fname "BOOT       "; fname "BOOTX64 EFI"] = Some (replicate 4100 7).
Proof.
  destruct (built_disk_readable demo_read_file demo_mkfs demo_build_options demo_payload [] demo_ext4 (Z.to_nat 9000)
    eq_refl eq_refl ltac:(cbn; lia) demo_payload_ok ltac:(lia) eq_refl (proj1 demo_ext4_ok) (proj2 demo_ext4_ok)) as (img & Hb & Hr & _).
  exists img. split; [exact Hb|exact Hr].
Defined.
