(* ===== verification/EfiBlocks.v ===== *)
(** * The built disk in the kernel

    The kernel's partition scan of a disk that holds a built image registers
    the two partitions, and reads of the persistent one return the ext4 image
    the builder put there. *)

From S2P Require Import Prelude Memory CText ToolText Serial Bytes EfiImage EfiImageSpec EfiDisk Block.

(** ** Words of the partition table *)

Lemma lor_shift k a b : 0 <= k → 0 <= a < 2 ^ k → Z.lor a (Z.shiftl b k) = a + Z.shiftl b k.
Proof.
  intros Hk Ha. rewrite Z.lor_comm, (lor_low_bits k); [lia|done| |done].
  rewrite Z.shiftl_mul_pow2 by done. apply Z.mod_mul. lia.
Qed.

Lemma read_le32_word buf off : all_bytes buf → read_le32 buf off = word32 buf off.
Proof.
  intros Hb. assert (∀ i, 0 <= zget buf i < 256) as Hz.
  { intros i. unfold zget. rewrite list_lookup_total_alt. destruct (buf !! Z.to_nat i) as [x|] eqn:E; [|cbn; lia].
    rewrite Forall_lookup in Hb. by eapply Hb. }
  pose proof (Hz off). pose proof (Hz (off + 1)). pose proof (Hz (off + 2)). pose proof (Hz (off + 3)). unfold read_le32, word32.
  rewrite (lor_shift 8), (lor_shift 16), (lor_shift 24); rewrite ?Z.shiftl_mul_pow2 by lia; lia.
Qed.

Lemma mbr_fields count :
  0 <= count < 4294967296 →
  let mbr := mbr_sector boot_part (persist_part count) in
  word32 mbr 454 = 2048 ∧ word32 mbr 458 = 65536 ∧ word32 mbr 470 = 67584 ∧ word32 mbr 474 = count ∧
  zget mbr 450 = 239 ∧ zget mbr 466 = 131 ∧ zget mbr 482 = 0 ∧ zget mbr 498 = 0 ∧ zget mbr 510 = 85 ∧ zget mbr 511 = 170.
Proof.
  intros Hc. cbv zeta. pose proof (word32_le32 [] count [] Hc) as Hw. unfold mbr_sector, write_partition, write_le32, persist_part in *.
  cbn [startSector sectorCount boot_part] in *. rewrite (u32_small count Hc). unfold le32 in *.
  generalize dependent (u8 count). generalize dependent (u8 (Z.shiftr count 8)). generalize dependent (u8 (Z.shiftr count 16)).
  generalize dependent (u8 (Z.shiftr count 24)). intros z3 z2 z1 z0 Hw. split_and!; [vm_compute; reflexivity..| | | | | | |]; [exact Hw|vm_compute; reflexivity..].
Qed.

Lemma mbr_bytes p count : payload_ok p → all_bytes (mbr_sector boot_part (persist_part count)).
Proof. intros Hp. pose proof (meta_writes_bytes p count Hp) as Hb. by apply Forall_cons in Hb as [Hb _]. Qed.

(** ** Sectors of an image *)

Lemma exit_inj c (i j : image) : Exit c (Some i) = Exit c (Some j) → i = j.
Proof. by intros [= ->]. Qed.

Lemma load_bytes_plus n k m a : load_bytes (n + k) m a = load_bytes n m a ++ load_bytes k m (a + Z.of_nat n).
Proof.
  revert a. induction n as [|n IH]; intros a; [cbn; by rewrite Z.add_0_r|]. cbn [Nat.add load_bytes app]. rewrite IH. do 3 f_equal. lia.
Qed.

Lemma load_bytes_part n m a bs off k :
  load_bytes n m a = bs → 0 <= off → off + Z.of_nat k <= Z.of_nat n → load_bytes k m (a + off) = take k (drop (Z.to_nat off) bs).
Proof.
  intros <- H0 Hl. replace n with (Z.to_nat off + (k + (n - Z.to_nat off - k)))%nat by lia. rewrite load_bytes_plus, load_bytes_plus.
  rewrite drop_app_length' by (by rewrite length_load_bytes). rewrite take_app_length' by (by rewrite length_load_bytes). f_equal. lia.
Qed.

Definition sector_of (img : image) (l : Z) : list Z := load_bytes 512 img (512 * l).

Lemma sectors_bytes img n : ∀ lba, concat (sector_of img <$> seqZ lba (Z.of_nat n)) = load_bytes (512 * n) img (512 * lba).
Proof.
  induction n as [|n IH]; intros lba; [done|]. rewrite seqZ_cons by lia. cbn [fmap list_fmap concat].
  replace (Z.pred (Z.of_nat (S n))) with (Z.of_nat n) by lia. rewrite IH. replace (512 * S n)%nat with (512 + 512 * n)%nat by lia.
  rewrite load_bytes_plus. unfold sector_of. do 2 f_equal. lia.
Qed.

Section scan.
Context {H : Type} `{DisksLaws H} (driver : nat → BlockDevice).

(** One entry of the table taken over. *)
Lemma scan_entry_adds base mbr found (b : blocks (H:=H)) i k slot :
  zget mbr (446 + i * 16 + 4) ≠ 0 → read_le32 mbr (446 + i * 16 + 12) ≠ 0 →
  find_free_slot (g_partitions b) = slot → Z.of_nat slot < 8 → first_free (g_devices b) = Some k →
  ∃ (b' : blocks (H:=H)) name, scan_entry driver base mbr (true, found, b) i = (true, found + 1, b') ∧
    g_partitions b' = <[slot := mk_partition true
      (mk_device (Some name) (bd_block_size (device driver b base)) (read_le32 mbr (446 + i * 16 + 12)) true (bd_writable (device driver b base)))
      (Some base) (read_le32 mbr (446 + i * 16 + 8)) (read_le32 mbr (446 + i * 16 + 12))]> (g_partitions b) ∧
    g_devices b' = <[k := Some (Block.Partition slot)]> (g_devices b) ∧ hw b' = hw b.
Proof using.
  intros Ht Hn Hs Hlt Hk. unfold scan_entry. cbn [negb]. apply Z.eqb_neq in Ht, Hn. unfold kPartitionTypeEmpty, kMaxPartitions.
  rewrite Ht, Hn, Hs, (proj2 (Z.leb_gt _ _) Hlt). cbn [orb]. unfold block_register_device. cbn [g_devices with_record]. rewrite Hk.
  eexists _, _. split; [reflexivity|]. done.
Qed.

Lemma scan_entry_skips base mbr found (b : blocks (H:=H)) i :
  zget mbr (446 + i * 16 + 4) = 0 → scan_entry driver base mbr (true, found, b) i = (true, found, b).
Proof using. intros Ht. unfold scan_entry. rewrite Ht. done. Qed.

Definition part_record (d : nat) (name : text) (start count : Z) : PartitionRecord :=
  mk_partition true (mk_device (Some name) (bd_block_size (driver d)) count true (bd_writable (driver d))) (Some (Driver d)) start count.

(** The scan of a device registered first. *)
Lemma scan_table con h d h' mbr count :
  bd_readable (driver d) = true → dk_read h d 0 1 = (Some mbr, h') → all_bytes mbr →
  mbr = mbr_sector boot_part (persist_part count) → 0 < count < 4294967296 →
  ∃ b n0 n1, scan_mbr_partitions driver (Some (Driver d)) (block_register_device driver (blocks_boot con h) (Some (Driver d))).2 = (true, b) ∧
    g_partitions b = [part_record d n0 2048 65536; part_record d n1 67584 count] ++ replicate 6 inhabitant ∧
    g_devices b = [Some (Driver d); Some (Block.Partition 0); Some (Block.Partition 1)] ++ replicate 5 None ∧ hw b = h'.
Proof using.
  intros Hr Hread Hb Hm Hc. destruct (mbr_fields count ltac:(lia)) as (W1 & W2 & W3 & W4 & Z1 & Z2 & Z3 & Z4 & S1 & S2).
  rewrite <- Hm in *. rewrite <- !read_le32_word in * by done.
  unfold scan_mbr_partitions, read_dev, dev_fuel. cbn [device]. rewrite Hr. cbn [negb read_sectors block_register_device blocks_boot first_free g_devices replicate].
  cbn [snd say hw g_devices g_partitions console]. change (hw (blocks_boot con h)) with h. rewrite Hread. cbv beta iota zeta. unfold kMbrSignatureOffset.
  change (510 + 1) with 511. rewrite S1, S2. change (negb (85 =? 85) || negb (170 =? 170)) with false. cbv iota. cbn [fold_left].
  set (b1 := with_hw _ h').
  destruct (scan_entry_adds (Driver d) mbr 0 b1 0 1 0) as (b2 & n0 & E2 & P2 & D2 & H2); [change (zget mbr 450 ≠ 0); by rewrite Z1|change (read_le32 mbr 458 ≠ 0); by rewrite W2|done|lia|done|].
  rewrite E2. destruct (scan_entry_adds (Driver d) mbr (0 + 1) b2 1 2 1) as (b3 & n1 & E3 & P3 & D3 & H3);
    [change (zget mbr 466 ≠ 0); by rewrite Z2|change (read_le32 mbr 474 ≠ 0); rewrite W4; lia|by rewrite P2|lia|by rewrite D2|].
  rewrite E3, scan_entry_skips, scan_entry_skips by done. exists b3, n0, n1. split; [done|]. rewrite P3, D3, H3, P2, D2, H2.
  change (446 + 0 * 16 + 8) with 454. change (446 + 0 * 16 + 12) with 458. change (446 + 1 * 16 + 8) with 470. change (446 + 1 * 16 + 12) with 474.
  rewrite W1, W2, W3, W4. done.
Qed.

(** The disk holds the first [n] sectors of an image. *)
Definition disk_holds (h : H) (d : nat) (img : image) (n : Z) : Prop := ∀ l, 0 <= l < n → dk_sector h d l = sector_of img l.

Lemma disk_range h d img n lba k :
  disk_holds h d img n → 0 <= lba → 0 <= k → lba + k <= n → dk_range h d lba k = load_bytes (512 * Z.to_nat k) img (512 * lba).
Proof using.
  intros Hd Hlo Hk Hn. rewrite <- sectors_bytes, Z2Nat.id by done. unfold dk_range. f_equal. apply list_fmap_ext. intros i l Hl.
  apply lookup_seqZ in Hl as [-> Hi]. apply Hd. lia.
Qed.

Lemma part_read b d n1 n2 count lba n :
  g_partitions b = [n1; part_record d n2 67584 count] ++ replicate 6 inhabitant → count < 4294967296 →
  0 <= lba → 0 <= n → lba + n <= count →
  read_dev b (Block.Partition 1) lba n = let '(r, h') := dk_read (hw b) d (67584 + lba) n in (r, with_hw b h').
Proof using.
  intros Hp Hc Hlo Hn Hl. unfold read_dev, dev_fuel. cbn [read_sectors]. rewrite Hp. cbn [app lookup_total list_lookup_total part_record p_used p_base].
  change ((kMaxPartitions <=? Z.of_nat 1) || negb true) with false. cbv iota. unfold out_of_partition, part_record. cbn [p_sector_count p_start_lba].
  unfold u64. rewrite (Z.mod_small (lba + n)), (Z.mod_small (67584 + lba)) by lia. rewrite (proj2 (Z.ltb_ge count (lba + n))) by lia. done.
Qed.
End scan.

(** On a disk that holds a built image, the kernel's partition scan registers the boot partition (2048, 65536) and the persistent
    partition that fills the rest, and a read of the persistent partition returns the corresponding bytes of the ext4 image (its last
    byte cleared) whenever the driver's read succeeds. *)
Lemma built_disk_mounts {H} `{DisksLaws H} (driver : nat → BlockDevice) read_file mkfs o p rootfs ext4 fuel con h h' d mbr img :
  is_empty (kernel32Path o) = false →
  read_inputs read_file o = Some (pl_efi p, pl_k32 p, pl_k64 p, rootfs, pl_grub p) →
  34 <= sizeMiB o < 2097185 → payload_ok p → 8181 < Z.of_nat fuel →
  mkfs rootfs (sizeMiB o - 33) = Some ext4 → all_bytes ext4 → Z.of_nat (length ext4) = (sizeMiB o - 33) * 1048576 →
  build read_file mkfs fuel o = Exit 0 (Some img) →
  disk_holds h d img (sizeMiB o * 2048) → bd_readable (driver d) = true → dk_read h d 0 1 = (Some mbr, h') →
  ∃ b n0 n1,
    scan_mbr_partitions driver (Some (Driver d)) (block_register_device driver (blocks_boot con h) (Some (Driver d))).2 = (true, b) ∧
    g_partitions b = [part_record driver d n0 2048 65536; part_record driver d n1 67584 (sizeMiB o * 2048 - 67584)] ++ replicate 6 inhabitant ∧
    g_devices b = [Some (Driver d); Some (Block.Partition 0); Some (Block.Partition 1)] ++ replicate 5 None ∧
    ∀ lba n, 0 <= lba → 0 <= n → lba + n <= sizeMiB o * 2048 - 67584 →
      read_dev b (Block.Partition 1) lba n = (let '(r, h2) := dk_read h' d (67584 + lba) n in (r, with_hw b h2)) ∧
      ∀ bs h2, dk_read h' d (67584 + lba) n = (Some bs, h2) → bs = take (512 * Z.to_nat n) (drop (Z.to_nat (512 * lba)) (stored ext4)).
Proof.
  intros Hk Hin Hsz Hp Hf Hm Hb Hl Hbuild Hd Hr Hread. rewrite (build_writes read_file mkfs o p rootfs ext4) in Hbuild by (done || lia).
  apply exit_inj in Hbuild as Himg. clear Hbuild. apply stored_bytes in Hb. pose proof (stored_length ext4 ltac:(lia)) as Hsl. set (count := sizeMiB o * 2048 - 67584) in *. assert (0 < count < 4294967296) as Hc by (unfold count; lia).
  assert (mbr = mbr_sector boot_part (persist_part count)) as Hmbr.
  { rewrite (dk_read_ok _ _ _ _ _ _ Hread). rewrite (disk_range h d img (sizeMiB o * 2048)) by (done || lia).
    rewrite <- Himg. change (512 * Z.to_nat 1)%nat with 512%nat. by apply mbr_region. }
  destruct (scan_table driver con h d h' mbr count) as (b & n0 & n1 & Hs & HP & HD & Hhw); [done|done|by subst; eapply mbr_bytes|done|done|].
  exists b, n0, n1. split; [done|]. split; [done|]. split; [done|]. intros lba n H0' Hn Hln. split.
  - rewrite (part_read driver b d (part_record driver d n0 2048 65536) n1 count) by (done || lia). by rewrite Hhw.
  - intros bs h2 Hbs. rewrite (dk_read_ok _ _ _ _ _ _ Hbs).
    rewrite (disk_range h' d img (sizeMiB o * 2048)); [| |lia|lia|unfold count in *; lia].
    + replace (512 * (67584 + lba)) with (34603008 + 512 * lba) by lia. apply (load_bytes_part (length (stored ext4))); [|lia|unfold count in *; lia].
      rewrite <- Himg. by apply ext4_region.
    + intros l Hll. rewrite (dk_read_frame _ _ _ _ _ _ _ _ Hread). by apply Hd.
Qed.

(** ** A disk that holds an image and rejects writes *)

Definition image_disk (img : image) : Disks unit :=
  {| dk_read h d lba n := (Some (concat (sector_of img <$> seqZ lba n)), h);
     dk_write h d lba bs n := (false, h);
     dk_sector h d l := sector_of img l |}.

Lemma image_disk_laws img : @DisksLaws unit (image_disk img).
Proof.
  split; cbn -[load_bytes sector_of].
  - intros _ _ l. split; [apply length_load_bytes|]. unfold sector_of. generalize 512%nat, (512 * l). induction n; intros a; cbn; [constructor|].
    constructor; [apply load8_range|done].
  - intros h d lba n bs h' [= <- _]. done.
  - done.
  - intros h d lba bs n h' _ _ [=].
  - done.
Qed.

Definition demo_driver (d : nat) : BlockDevice := mk_device (Some (txt "nvme0")) 512 69632 true false.

Lemma built_disk_mounts_witness :
  ∃ img b n0 n1, build demo_read_file demo_mkfs (Z.to_nat 9000) demo_build_options = Exit 0 (Some img) ∧
    @scan_mbr_partitions unit (image_disk img) demo_driver (Some (Driver 0))
      (block_register_device demo_driver (blocks_boot (mk_serial false []) tt) (Some (Driver 0))).2 = (true, b) ∧
    g_partitions b = [part_record demo_driver 0 n0 2048 65536; part_record demo_driver 0 n1 67584 2048] ++ replicate 6 inhabitant.
Proof.
  pose proof (build_writes demo_read_file demo_mkfs demo_build_options demo_payload [] demo_ext4 eq_refl eq_refl ltac:(cbn; lia) demo_payload_ok
    eq_refl (proj2 demo_ext4_ok) (Z.to_nat 9000) ltac:(lia)) as Hb.
  revert Hb. generalize (apply_writes ∅
    (disk_writes demo_payload (stored demo_ext4) (sizeMiB demo_build_options * 2048 - 67584))). intros img Hb. exists img.
  destruct (@built_disk_mounts unit (image_disk img) (image_disk_laws img) demo_driver demo_read_file demo_mkfs demo_build_options demo_payload []
    demo_ext4 (Z.to_nat 9000) (mk_serial false []) tt tt 0 (concat (sector_of img <$> seqZ 0 1)) img eq_refl eq_refl ltac:(cbn; lia) demo_payload_ok
    ltac:(lia) eq_refl (proj1 demo_ext4_ok) (proj2 demo_ext4_ok) Hb ltac:(intros l _; reflexivity) eq_refl eq_refl) as (b & n0 & n1 & Hs & HP & _).
  exists b, n0, n1. split; [exact Hb|]. split; [exact Hs|exact HP].
Defined.
