(* ===== verification/Efifs.v ===== *)
(** * The seed file on the boot volume ([kernel/efifs.cpp])

    Finds [ROOTFSSEED] in the directory [BOOT] of a FAT16 volume and runs its
    [md] lines on the file system.  The two block backends are disks of the
    [Disks] interface; a sector read that fails leaves the buffer as it was. *)

From S2P Require Import Prelude CText Serial Vfs RamFs RamFsSpec Block Bytes Snapshot.

(** A command ends with [return false], or runs out of fuel: only a chain of
    clusters with a cycle does. *)
Inductive result (A : Type) := Value (a : A) | ReturnFalse | NoFuel.
#[global] Arguments Value {A} a. #[global] Arguments ReturnFalse {A}. #[global] Arguments NoFuel {A}.

Section efifs.
Context {F : Type} `{FS : FileSystem F} {H : Type} `{HD : Disks H}.
(** [usbms] and [ide] as drivers, and whether they are present. *)
Context (usb ide : nat) (usb_present ide_present : bool).

Record efifs := mk_efifs {
  e_console : serial;
  e_hw : H;
  e_fs : option F;          (** [g_fs] *)
  file_buf : list Z;        (** 32 KiB, static *)
}.

Definition M (A : Type) : Type := efifs → result A * efifs.
#[export] Instance M_ret : MRet M := λ A a s, (Value a, s).
#[export] Instance M_bind : MBind M := λ A B f m s,
  match m s with
  | (Value a, s) => f a s
  | (ReturnFalse, s) => (ReturnFalse, s)
  | (NoFuel, s) => (NoFuel, s)
  end.

Definition run_serial (f : serial → serial) : M unit := λ s, (Value tt, mk_efifs (f (e_console s)) (e_hw s) (e_fs s) (file_buf s)).
Definition say (t : string) : M unit := run_serial (λ c, Serial.write c (Some (txt t))).
Definition say_line (t : string) : M unit := run_serial (λ c, Serial.write c (Some (txt t ++ ["010"%char]))).
Definition say_hex (v : Z) : M unit := run_serial (λ c, write_hex c v).
Definition return_false {A} : M A := λ s, (ReturnFalse, s).
Definition fail {A} (t : string) : M A := say_line t ;; return_false.

(** [read_sectors(lba, buf, 1)] of a backend; [ide_read_sectors] takes 32 bits. *)
Definition read_sector (d : nat) (lba : Z) : M (option (list Z)) := λ s,
  let '(r, h) := dk_read (e_hw s) d (u32 lba) 1 in (Value r, mk_efifs (e_console s) h (e_fs s) (file_buf s)).

Definition read_u16 (p : list Z) (off : Z) : Z := Z.lor (zget p off) (Z.shiftl (zget p (off + 1)) 8).
Definition read_u32 (p : list Z) (off : Z) : Z :=
  Z.lor (Z.lor (Z.lor (zget p off) (Z.shiftl (zget p (off + 1)) 8)) (Z.shiftl (zget p (off + 2)) 16)) (Z.shiftl (zget p (off + 3)) 24).

(** A string literal read past its end gives its terminator. *)
Definition fat11_equal (e : list Z) (expected : text) : bool :=
  forallb (λ i, zget e (Z.of_nat i) =? zget (bytes_of expected ++ [0]) (Z.of_nat i)) (seq 0 11).

(** ** The boot sector *)

Definition first_sector : M (nat * list Z) :=
  r ← (if usb_present then
         r ← read_sector usb 0;
         match r with
         | Some s => mret (Some (usb, s))
         | None => say_line "[efifs]: usb read failed, trying IDE" ;; mret None
         end
       else mret None);
  r ← (match r with
       | Some _ => mret r
       | None =>
           if ide_present then
             r ← read_sector ide 0;
             match r with
             | Some s => mret (Some (ide, s))
             | None => say_line "[efifs]: ide read failed" ;; mret None
             end
           else mret None
       end);
  match r with
  | None => fail "[efifs]: failed to read MBR/boot sector"
  | Some x => mret x
  end.

Definition report (sector : list Z) : M unit :=
  say "[efifs]: BPB bytes/sector=" ;; say_hex (read_u16 sector 11) ;;
  say " sectors/cluster=" ;; say_hex (zget sector 13) ;;
  say " reserved=" ;; say_hex (read_u16 sector 14) ;;
  say " fats=" ;; say_hex (zget sector 16) ;;
  say " root_entries=" ;; say_hex (read_u16 sector 17) ;;
  say " spf=" ;; say_hex (read_u16 sector 22) ;;
  say_line "" ;; say "[efifs]: sector[0..15]=" ;;
  run_serial (λ c, fold_left (λ c i, Serial.write (write_hex c (zget sector i)) (Some (txt " "))) (seqZ 0 16) c) ;;
  say_line "".

(** ** Directories and the FAT *)

(** [for (i = 0; i < n; ++i) read_sectors(start + i, buf + i * 512, 1)] *)
Fixpoint read_run (d : nat) (start : Z) (n : nat) (i : Z) (message : string) : M (list Z) :=
  match n with
  | O => mret []
  | S n' =>
      r ← read_sector d (start +u i);
      match r with
      | None => fail message
      | Some s => rest ← read_run d start n' (i +u 1) message; mret (s ++ rest)
      end
  end.

(** The loop over the root directory; zero when [BOOT] is not there. *)
Fixpoint find_boot (n : nat) (root : list Z) (i : Z) : Z :=
  match n with
  | O => 0
  | S n' =>
      let e := drop (Z.to_nat (i * 32)) root in
      if zget e 0 =? 0 then 0
      else if (zget e 0 =? 229) || (Z.land (zget e 11) 16 =? 0) then find_boot n' root (i + 1)
      else if fat11_equal e (txt "BOOT       ") then read_u16 e 26
      else find_boot n' root (i + 1)
  end.

Definition next_cluster (fat : list Z) (fat_bytes c : Z) : Z :=
  let off := c *u 2 in
  if fat_bytes <=? off +u 1 then 65535 else read_u16 fat off.

(** The entries of one sector of [BOOT]. *)
Fixpoint find_seed (n : nat) (sector : list Z) (i : Z) : option (Z * Z) :=
  match n with
  | O => None
  | S n' =>
      let e := drop (Z.to_nat (i * 32)) sector in
      if zget e 0 =? 0 then None
      else if (zget e 0 =? 229) || negb (Z.land (zget e 11) 8 =? 0) then find_seed n' sector (i + 1)
      else if fat11_equal e (txt "ROOTFSSEED") then Some (read_u16 e 26, read_u32 e 28)
      else find_seed n' sector (i + 1)
  end.

Fixpoint find_in_cluster (d : nat) (sector0 : Z) (n : nat) (s : Z) : M (option (Z * Z)) :=
  match n with
  | O => mret None
  | S n' =>
      r ← read_sector d (sector0 +u s);
      match r with
      | None => fail "[efifs]: failed reading BOOT dir cluster"
      | Some sector =>
          match find_seed 16 sector 0 with
          | Some x => mret (Some x)
          | None => find_in_cluster d sector0 n' (s +u 1)
          end
      end
  end.

(** The geometry of the volume. *)
Record volume := mk_volume {
  v_disk : nat;
  v_spc : Z;            (** sectors per cluster *)
  v_first_data : Z;
  v_fat : list Z;
  v_fat_bytes : Z;
}.

Definition sector_of_cluster (v : volume) (c : Z) : Z := v_first_data v +u (c -u 2) *u v_spc v.

Definition in_chain (c : Z) : bool := (2 <=? c) && (c <? 65528).

Fixpoint find_in_dir (fuel : nat) (v : volume) (c : Z) : M (option (Z * Z)) :=
  if in_chain c then
    match fuel with
    | O => λ s, (NoFuel, s)
    | S fuel' =>
        r ← find_in_cluster (v_disk v) (sector_of_cluster v c) (Z.to_nat (v_spc v)) 0;
        match r with
        | Some x => mret (Some x)
        | None =>
            let c := next_cluster (v_fat v) (v_fat_bytes v) c in
            if c =? 65535 then mret None else find_in_dir fuel' v c
        end
    end
  else mret None.

(** ** Reading the file into [file_buf] *)

Definition store_sector (pos : Z) (bs : list Z) : M unit := λ s,
  (Value tt, mk_efifs (e_console s) (e_hw s) (e_fs s) (Bytes.splice (file_buf s) pos bs)).

(** The sectors of a cluster; the position of [write_ptr] and [remaining]. *)
Fixpoint read_cluster (d : nat) (sector0 : Z) (n : nat) (s pos remaining : Z) : M (Z * Z) :=
  match n with
  | O => mret (pos, remaining)
  | S n' =>
      if remaining <=? 0 then mret (pos, remaining)
      else
        r ← read_sector d (sector0 +u s);
        match r with
        | None => fail "[efifs]: failed reading file cluster"
        | Some sector =>
            store_sector pos sector ;;
            let to_copy := if remaining <? 512 then remaining else 512 in
            read_cluster d sector0 n' (s +u 1) (pos + to_copy) (remaining -u to_copy)
        end
  end.

Fixpoint read_chain (fuel : nat) (v : volume) (fc pos remaining : Z) : M unit :=
  if in_chain fc && (0 <? remaining) then
    match fuel with
    | O => λ s, (NoFuel, s)
    | S fuel' =>
        '(pos, remaining) ← read_cluster (v_disk v) (sector_of_cluster v fc) (Z.to_nat (v_spc v)) 0 pos remaining;
        let fc := next_cluster (v_fat v) (v_fat_bytes v) fc in
        if fc =? 65535 then mret tt else read_chain fuel' v fc pos remaining
    end
  else mret tt.

(** ** Lines *)

Definition is_blank (c : ascii) : bool := Ascii.eqb c " "%char || Ascii.eqb c "009"%char.

Fixpoint skip_blanks (t : text) : text :=
  match t with
  | c :: t' => if is_blank c then skip_blanks t' else t
  | [] => []
  end.

(** The command word and what follows its terminator. *)
Fixpoint split_word (t : text) : text * text :=
  match t with
  | [] => ([], [])
  | c :: t' => if is_blank c then ([], t') else let '(w, r) := split_word t' in (c :: w, r)
  end.

(** A line of [linebuf], up to the first NUL. *)
Definition apply_line (f : F) (line : list Z) : F :=
  let cursor := skip_blanks (text_of line) in
  match cursor with
  | [] => f
  | c :: _ =>
      if Ascii.eqb c "#"%char then f
      else
        let '(cmd, rest) := split_word cursor in
        if text_starts_with cmd (txt "md") then (fs_md f (skip_blanks rest)).2 else f
  end.

Definition line_step (st : F * list Z) (ch : Z) : F * list Z :=
  let '(f, linebuf) := st in
  if (ch =? 13) || (ch =? 10) then
    if 0 <? Z.of_nat (length linebuf) then (apply_line f linebuf, []) else st
  else if Z.of_nat (length linebuf) + 1 <? 128 then (f, linebuf ++ [ch]) else st.

Definition apply_seed (f : F) (file : list Z) : F :=
  let '(f, linebuf) := fold_left line_step file (f, []) in
  if 0 <? Z.of_nat (length linebuf) then apply_line f linebuf else f.

(** ** The function *)

Definition kRootBuf : Z := 16384.
Definition kFatBuf : Z := 16384.
Definition kFileBuf : Z := 32768.

Definition get_buf : M (list Z) := λ s, (Value (file_buf s), s).
Definition get_fs : M (option F) := λ s, (Value (e_fs s), s).
Definition set_fs (f : F) : M unit := λ s, (Value tt, mk_efifs (e_console s) (e_hw s) (Some f) (file_buf s)).

Definition load_seed (fuel : nat) : M bool :=
  '(d, sector) ← first_sector;
  report sector ;;
  if negb (read_u16 sector 11 =? 512) then fail "[efifs]: unsupported bytes/sector (only 512)"
  else
    let spc := zget sector 13 in
    let reserved := read_u16 sector 14 in
    let root_entry_count := read_u16 sector 17 in
    let sectors_per_fat := read_u16 sector 22 in
    let root_dir_sectors := ((root_entry_count *u 32 +u 512) -u 1) / 512 in
    let first_root := reserved +u zget sector 16 *u sectors_per_fat in
    let first_data := first_root +u root_dir_sectors in
    if kRootBuf <? root_dir_sectors *u 512 then fail "[efifs]: root dir too large"
    else
      root ← read_run d first_root (Z.to_nat root_dir_sectors) 0 "[efifs]: failed reading root dir";
      let boot := find_boot (Z.to_nat root_entry_count) root 0 in
      if boot =? 0 then fail "[efifs]: BOOT dir not found in root"
      else
        let fat_bytes := sectors_per_fat *u 512 in
        if kFatBuf <? fat_bytes then fail "[efifs]: FAT too large"
        else
          fat ← read_run d reserved (Z.to_nat sectors_per_fat) 0 "[efifs]: failed reading FAT";
          let v := mk_volume d spc first_data fat fat_bytes in
          found ← find_in_dir fuel v boot;
          match found with
          | None => fail "[efifs]: ROOTFS.SEED not found in BOOT dir"
          | Some (start, file_size) =>
              if start =? 0 then fail "[efifs]: ROOTFS.SEED not found in BOOT dir"
              else if kFileBuf <? file_size then fail "[efifs]: file too large"
              else
                read_chain fuel v start 0 file_size ;;
                g ← get_fs;
                match g with
                | None => fail "[efifs]: ramfs not initialized"
                | Some f =>
                    buf ← get_buf;
                    set_fs (apply_seed f (take (Z.to_nat file_size) buf)) ;;
                    say_line "[efifs]: ROOTFS.SEED applied from ESP" ;;
                    mret true
                end
          end.

(** The result as the caller sees it; [None] is a loop that does not end. *)
Definition try_load_rootfs_seed_from_esp (fuel : nat) (s : efifs) : option (bool * efifs) :=
  match load_seed fuel s with
  | (Value b, s) => Some (b, s)
  | (ReturnFalse, s) => Some (false, s)
  | (NoFuel, _) => None
  end.
End efifs.
