(* ===== verification/EfifsSpec.v ===== *)
(** * What loading the seed file guarantees

    The line reader against a reference on whole lines, and the whole function
    against an independent description of a FAT16 volume. *)

From S2P Require Import Prelude CText Serial Vfs RamFs RamFsSpec Block Bytes Snapshot Efifs.

(** ** Lines *)

Definition eol (b : Z) : bool := (b =? 13) || (b =? 10).

Fixpoint segments (bs : list Z) : list Z * list (list Z) :=
  match bs with
  | [] => ([], [])
  | b :: bs' => let '(s, ss) := segments bs' in if eol b then ([], s :: ss) else (b :: s, ss)
  end.

(** The lines of a file: not empty, cut after [n] bytes. *)
Definition lines_of (n : nat) (bs : list Z) : list (list Z) :=
  let '(s, ss) := segments bs in take n <$> filter (λ l, l ≠ []) (s :: ss).

(** Reading characters into a line buffer and applying the line at its end. *)
Section reader.
Context {F : Type} (apply_ : F → list Z → F) (room : nat).

Definition reader_step (st : F * list Z) (ch : Z) : F * list Z :=
  let '(f, buf) := st in
  if eol ch then if 0 <? Z.of_nat (length buf) then (apply_ f buf, []) else st
  else if Z.of_nat (length buf) <? Z.of_nat room then (f, buf ++ [ch]) else st.

Definition reader_end (st : F * list Z) : F := if 0 <? Z.of_nat (length st.2) then apply_ st.1 st.2 else st.1.

(** The lines that a buffer and the rest of the file make. *)
Definition rest_lines (buf : list Z) (bs : list Z) : list (list Z) :=
  let '(s, ss) := segments bs in take room <$> filter (λ l, l ≠ []) ((buf ++ s) :: ss).

Lemma reader_end_lines f buf : (length buf <= room)%nat → reader_end (f, buf) = fold_left apply_ (rest_lines buf []) f.
Proof using.
  intros Hl. unfold reader_end, rest_lines. cbn [fst snd segments]. rewrite app_nil_r. destruct buf as [|b buf]; [done|].
  rewrite (proj2 (Z.ltb_lt _ _)) by (cbn [length]; lia). rewrite filter_cons_True by done.
  cbn [filter list_filter fmap list_fmap fold_left]. by rewrite take_ge by done.
Qed.

Lemma reader_steps bs : ∀ f buf, (length buf <= room)%nat → (0 < room)%nat →
  reader_end (fold_left reader_step bs (f, buf)) = fold_left apply_ (rest_lines buf bs) f.
Proof using.
  induction bs as [|b bs IH]; intros f buf Hl Hr; [by apply reader_end_lines|]. cbn [fold_left]. unfold reader_step at 2.
  unfold rest_lines. cbn [segments]. destruct (segments bs) as [s ss] eqn:Es. destruct (eol b).
  - rewrite app_nil_r. destruct buf as [|x buf].
    + cbn [length]. change (0 <? Z.of_nat 0) with false. cbv iota. rewrite IH by (cbn; lia). unfold rest_lines. by rewrite Es.
    + rewrite (proj2 (Z.ltb_lt _ _)) by (cbn [length]; lia). rewrite IH by (cbn; lia).
      unfold rest_lines. rewrite Es. cbn [app]. rewrite (filter_cons_True _ (x :: buf)) by done. cbn [fmap list_fmap fold_left].
      by rewrite (take_ge (x :: buf)) by done.
  - destruct (Z.of_nat (length buf) <? Z.of_nat room) eqn:E; zbool.
    + rewrite IH by (rewrite ?length_app; cbn; lia). unfold rest_lines. by rewrite Es, <- app_assoc.
    + rewrite IH by done. unfold rest_lines. rewrite Es. assert (length buf = room) as Hb by lia.
      rewrite !filter_cons_True by (destruct buf; cbn in *; [lia|done]). cbn [fmap list_fmap fold_left]. by rewrite !take_app_length' by done.
Qed.

Lemma reader_lines bs f : (0 < room)%nat → reader_end (fold_left reader_step bs (f, [])) = fold_left apply_ (lines_of room bs) f.
Proof using. intros Hr. by rewrite reader_steps by (cbn; lia). Qed.
End reader.

(** ** The seed file *)

Definition seed_lines : list Z → list (list Z) := lines_of 127.

Fixpoint take_while {A} (p : A → bool) (l : list A) : list A :=
  match l with [] => [] | x :: l' => if p x then x :: take_while p l' else [] end.
Fixpoint drop_while {A} (p : A → bool) (l : list A) : list A :=
  match l with [] => [] | x :: l' => if p x then drop_while p l' else l end.

Definition blank_byte (b : Z) : bool := (b =? 32) || (b =? 9).

(** The path of a line that makes a directory: the line up to a NUL starts,
    after blanks, with [md]; the path is what follows that word and blanks. *)
Definition md_path (line : list Z) : option text :=
  let t := drop_while blank_byte (take_while (λ b, negb (b =? 0)) line) in
  if decide (take 2 t = bytes_of (txt "md"))
  then Some ((λ b, ascii_of_nat (Z.to_nat b)) <$> drop_while blank_byte (drop_while (λ b, negb (blank_byte b)) t))
  else None.

Section lines.
Context {F : Type} `{FS : FileSystem F}.

Definition make_dirs (f : F) (paths : list text) : F := fold_left (λ f p, (fs_md f p).2) paths f.

Definition char (b : Z) : ascii := ascii_of_nat (Z.to_nat b).
Definition is_byte (b : Z) : Prop := 0 <= b < 256.

Lemma char_byte b : is_byte b → byte_of (char b) = b.
Proof. intros Hb. unfold byte_of, char. rewrite nat_ascii_embedding by (unfold is_byte in Hb; lia). unfold is_byte in Hb. lia. Qed.

Lemma char_eqb b c : is_byte b → Ascii.eqb (char b) c = (b =? byte_of c).
Proof.
  intros Hb. destruct (Ascii.eqb (char b) c) eqn:E.
  - apply Ascii.eqb_eq in E as <-. by rewrite char_byte, Z.eqb_refl.
  - symmetry. apply Z.eqb_neq. intros ->. apply Ascii.eqb_neq in E. apply E. unfold char, byte_of.
    by rewrite Nat2Z.id, ascii_nat_embedding.
Qed.

Lemma text_of_chars l : text_of l = char <$> take_while (λ b, negb (b =? 0)) l.
Proof. induction l as [|b l IH]; [done|]. cbn [text_of take_while]. destruct (b =? 0); [done|]. cbn. by rewrite IH. Qed.

Lemma skip_blanks_chars l : Forall is_byte l → skip_blanks (char <$> l) = char <$> drop_while blank_byte l.
Proof.
  induction 1 as [|b l Hb _ IH]; [done|]. cbn [fmap list_fmap skip_blanks drop_while]. unfold is_blank, blank_byte.
  rewrite !char_eqb by done. change (byte_of " "%char) with 32. change (byte_of "009"%char) with 9.
  destruct (_ || _); [apply IH|done].
Qed.

Lemma split_word_chars l : Forall is_byte l →
  (split_word (char <$> l)).1 = char <$> take_while (λ b, negb (blank_byte b)) l ∧
  skip_blanks (split_word (char <$> l)).2 = char <$> drop_while blank_byte (drop_while (λ b, negb (blank_byte b)) l).
Proof.
  induction 1 as [|b l Hb Hl [IH1 IH2]]; [done|]. cbn [fmap list_fmap split_word take_while drop_while].
  assert (is_blank (char b) = blank_byte b) as -> by (unfold is_blank, blank_byte; rewrite !char_eqb by done; reflexivity).
  destruct (blank_byte b) eqn:E; cbn [negb].
  - cbn [fst snd drop_while]. rewrite E. split; [done|]. by apply skip_blanks_chars.
  - destruct (split_word _) as [w r]. cbn [fst snd] in *. by rewrite IH1, IH2.
Qed.

Lemma Forall_take_while {A} (P : A → Prop) p l : Forall P l → Forall P (take_while p l).
Proof. induction 1 as [|x l Hx _ IH]; cbn; [done|]. destruct (p x); [by constructor|done]. Qed.
Lemma Forall_drop_while {A} (P : A → Prop) p l : Forall P l → Forall P (drop_while p l).
Proof. induction 1 as [|x l Hx Hl IH]; cbn; [done|]. destruct (p x); [done|by constructor]. Qed.

(** A command word that starts with [md]. *)
Lemma md_word l : Forall is_byte l →
  text_starts_with (char <$> take_while (λ b, negb (blank_byte b)) l) (txt "md") = bool_decide (take 2 l = bytes_of (txt "md")).
Proof.
  intros Hl. change (bytes_of (txt "md")) with [109; 100].
  destruct l as [|x l]; [done|]. apply Forall_cons in Hl as [Hx Hl]. cbn [take_while take].
  destruct (decide (x = 109)) as [->|Hne].
  2:{ rewrite bool_decide_eq_false_2 by congruence. destruct (negb _); [|done]. cbn [fmap list_fmap].
      change (txt "md") with ["m"%char; "d"%char]. cbn [text_starts_with]. rewrite char_eqb by done.
      by rewrite (proj2 (Z.eqb_neq x (byte_of "m"%char))) by done. }
  change (negb (blank_byte 109)) with true. cbn [fmap list_fmap]. change (txt "md") with ["m"%char; "d"%char]. cbn [text_starts_with].
  change (Ascii.eqb (char 109) "m"%char) with true. cbv iota.
  destruct l as [|y l]; [done|]. apply Forall_cons in Hl as [Hy Hl]. cbn [take_while take].
  destruct (decide (y = 100)) as [->|Hne].
  - change (negb (blank_byte 100)) with true. cbn [fmap list_fmap text_starts_with].
    change (Ascii.eqb (char 100) "d"%char) with true. rewrite take_0, bool_decide_eq_true_2 by done. by destruct (char <$> _).
  - rewrite bool_decide_eq_false_2 by congruence. destruct (negb _); [|done]. cbn [fmap list_fmap text_starts_with].
    rewrite char_eqb by done. by rewrite (proj2 (Z.eqb_neq y (byte_of "d"%char))) by done.
Qed.

Lemma apply_line_md f line : Forall is_byte line → apply_line f line = make_dirs f (option_list (md_path line)).
Proof.
  intros Hl. unfold apply_line, md_path. fold char. rewrite text_of_chars, skip_blanks_chars by by apply Forall_take_while.
  set (t := drop_while _ _). assert (Forall is_byte t) as Ht by by apply Forall_drop_while, Forall_take_while. clearbody t.
  destruct t as [|b t]; [done|]. destruct (split_word_chars _ Ht) as [H1 H2]. pose proof (md_word _ Ht) as H3.
  cbn [fmap list_fmap] in H1, H2 |- *. destruct (Ascii.eqb (char b) "#"%char) eqn:E.
  - apply Forall_cons in Ht as [Hb _]. rewrite char_eqb in E by done. apply Z.eqb_eq in E as ->.
    rewrite decide_False; [done|]. discriminate.
  - destruct (split_word _) as [cmd rest]. cbn [fst snd] in H1, H2. rewrite H1, H3, H2. unfold make_dirs.
    case_bool_decide as Ed; [by rewrite decide_True|by rewrite decide_False].
Qed.

Lemma make_dirs_lines_all (apply_ : F → list Z → F) (g : list Z → option text) :
  ∀ ls, Forall (λ l, ∀ f, apply_ f l = make_dirs f (option_list (g l))) ls → ∀ f, fold_left apply_ ls f = make_dirs f (omap g ls).
Proof.
  intros ls. induction 1 as [|l ls Ha _ IH]; intros f; [done|]. cbn [fold_left omap list_omap]. rewrite Ha, IH. by destruct (g l).
Qed.

Lemma make_dirs_lines (apply_ : F → list Z → F) (g : list Z → option text) :
  (∀ f l, apply_ f l = make_dirs f (option_list (g l))) → ∀ ls f, fold_left apply_ ls f = make_dirs f (omap g ls).
Proof. intros Ha ls. apply make_dirs_lines_all, Forall_forall. intros l _ f. apply Ha. Qed.

Lemma segments_all (P : Z → Prop) bs : Forall P bs → Forall P (segments bs).1 ∧ Forall (Forall P) (segments bs).2.
Proof.
  induction 1 as [|b bs Hb _ [IH1 IH2]]; [by repeat constructor|]. cbn [segments]. destruct (segments bs) as [s ss].
  destruct (eol b); cbn [fst snd] in *; repeat constructor; done.
Qed.

Lemma lines_of_all (P : Z → Prop) n bs : Forall P bs → Forall (Forall P) (lines_of n bs).
Proof.
  intros [H1 H2]%segments_all. unfold lines_of. destruct (segments bs) as [s ss]. cbn [fst snd] in *.
  apply Forall_fmap, Forall_forall. intros l [_ Hl]%list_elem_of_filter. apply Forall_take.
  apply elem_of_cons in Hl as [->|Hl]; [done|]. by apply (proj1 (Forall_forall _ _) H2).
Qed.

Lemma apply_seed_lines f file : Forall is_byte file → apply_seed f file = make_dirs f (omap md_path (seed_lines file)).
Proof.
  intros Hb. rewrite <- (make_dirs_lines_all apply_line).
  2:{ eapply Forall_impl; [apply (lines_of_all is_byte), Hb|]. intros l Hl f'. by apply apply_line_md. }
  unfold seed_lines. rewrite <- (reader_lines apply_line) by lia.
  unfold apply_seed. assert (∀ st, fold_left line_step file st = fold_left (reader_step apply_line 127) file st) as ->.
  { clear Hb. induction file as [|b file IH]; intros st; [done|]. cbn [fold_left]. rewrite IH. f_equal. destruct st as [f' buf]. unfold line_step, reader_step.
    replace (Z.of_nat (length buf) + 1 <? 128) with (Z.of_nat (length buf) <? Z.of_nat 127) by (apply eq_true_iff_eq; rewrite !Z.ltb_lt; lia). done. }
  by destruct (fold_left _ _ _).
Qed.
End lines.

(** ** Runs in which every read succeeds *)

Section reads.
Context {F : Type} `{FS : FileSystem F} {H : Type} `{HD : Disks H}.
Context (usb ide d : nat) (sec : Z → list Z) (limit : Z) (good : H → Prop).
Hypothesis reads_ok : ∀ h l, good h → 0 <= l < limit → ∃ h', dk_read h d l 1 = (Some (sec l), h') ∧ good h'.
Hypothesis limit_ok : limit <= 4294967296.
Hypothesis sec_len : ∀ l, length (sec l) = 512%nat.

Abbreviation efifs := (@efifs F H).

(** The run returns a value and leaves a state with the property. *)
Definition wp {A} (m : M A) (Q : A → efifs → Prop) (s : efifs) : Prop :=
  match m s with (Value a, s') => Q a s' | _ => False end.

Lemma wp_bind {A B} (m : M A) (f : A → M B) Q s : wp m (λ a s', wp (f a) Q s') s → wp (m ≫= f) Q s.
Proof using. unfold wp, mbind, M_bind. destruct (m s) as [[a| |] s']; done. Qed.

Lemma wp_ret {A} (a : A) (Q : A → efifs → Prop) s : Q a s → wp (mret a) Q s.
Proof using. done. Qed.

Lemma wp_mono {A} (m : M A) (Q Q' : A → efifs → Prop) s : wp m Q s → (∀ a s', Q a s' → Q' a s') → wp m Q' s.
Proof using. unfold wp. destruct (m s) as [[a| |] s']; [|done..]. intros HQ Hm. by apply Hm. Qed.

(** Only the console and the state of the disk may differ. *)
Definition same (s s' : efifs) : Prop := e_fs s' = e_fs s ∧ file_buf s' = file_buf s ∧ good (e_hw s').

Lemma same_trans s1 s2 s3 : same s1 s2 → same s2 s3 → same s1 s3.
Proof using. intros (A & B & C) (A' & B' & C'). unfold same. by rewrite A', B', A, B. Qed.

Lemma wp_serial f Q s : good (e_hw s) → (∀ s', same s s' → Q tt s') → wp (run_serial f) Q s.
Proof using. intros Hg HQ. by apply HQ. Qed.

Lemma wp_read l Q s :
  good (e_hw s) → 0 <= l < limit → (∀ s', same s s' → Q (Some (sec l)) s') → wp (read_sector d l) Q s.
Proof using reads_ok limit_ok.
  intros Hg Hl HQ. unfold wp, read_sector. rewrite u32_small by lia. destruct (reads_ok _ _ Hg Hl) as (h' & E & Hg'). rewrite E. by apply HQ.
Qed.

Lemma wp_read_run message n : ∀ start i s (Q : list Z → efifs → Prop),
  good (e_hw s) → 0 <= start → 0 <= i → start + i + Z.of_nat n <= limit →
  (∀ s', same s s' → Q (concat (sec <$> seqZ (start + i) (Z.of_nat n))) s') → wp (read_run d start n i message) Q s.
Proof using reads_ok limit_ok.
  induction n as [|n IH]; intros start i s Q Hg Hs Hi Hl HQ; cbn [read_run].
  - apply wp_ret. by apply HQ.
  - rewrite (u32_small (start + i)) by lia. apply wp_bind, wp_read; [done|lia|]. intros s1 H1. apply wp_bind.
    destruct (Z.eq_dec (Z.of_nat n) 0) as [Hn|Hn].
    { destruct n; [|lia]. cbn [read_run]. apply wp_ret, wp_ret. apply HQ in H1. by rewrite seqZ_cons in H1 by lia. }
    rewrite (u32_small (i + 1)) by lia. apply IH; [apply H1|lia|lia|lia|]. intros s2 H2. apply wp_ret.
    pose proof (HQ s2 (same_trans _ _ _ H1 H2)) as HQ2. rewrite seqZ_cons in HQ2 by lia. cbn [fmap list_fmap concat] in HQ2.
    replace (Z.pred (Z.of_nat (S n))) with (Z.of_nat n) in HQ2 by lia. by replace (start + (i + 1)) with (Z.succ (start + i)) by lia.
Qed.

(** ** The directory *)

(** The sectors of a cluster. *)
Definition cluster_sectors (v : volume) (c : Z) : list (list Z) := (λ s, sec (sector_of_cluster v c + s)) <$> seqZ 0 (v_spc v).

Definition cluster_in (v : volume) (c : Z) : Prop := sector_of_cluster v c + v_spc v <= limit.

Fixpoint clusters (fuel : nat) (v : volume) (c : Z) : option (list Z) :=
  if in_chain c then
    match fuel with
    | O => None
    | S fuel' =>
        let c' := next_cluster (v_fat v) (v_fat_bytes v) c in
        if c' =? 65535 then Some [c] else cons c <$> clusters fuel' v c'
    end
  else Some [].

(** The first entry of the seed file in a list of sectors. *)
Definition seed_entry (secs : list (list Z)) : option (Z * Z) := head (omap (λ s, find_seed 16 s 0) secs).

Lemma seed_entry_app s1 s2 : seed_entry (s1 ++ s2) = match seed_entry s1 with Some x => Some x | None => seed_entry s2 end.
Proof using. unfold seed_entry. rewrite omap_app. by destruct (omap _ s1). Qed.

Lemma sector_of_cluster_nonneg v c : 0 <= sector_of_cluster v c.
Proof using. unfold sector_of_cluster. apply u32_range. Qed.

Lemma wp_find_in_cluster n : ∀ s0 i s (Q : option (Z * Z) → efifs → Prop),
  good (e_hw s) → 0 <= s0 → 0 <= i → s0 + i + Z.of_nat n <= limit →
  (∀ s', same s s' → Q (seed_entry ((λ k, sec (s0 + k)) <$> seqZ i (Z.of_nat n))) s') → wp (find_in_cluster d s0 n i) Q s.
Proof using reads_ok limit_ok.
  induction n as [|n IH]; intros s0 i s Q Hg Hs Hi Hl HQ; cbn [find_in_cluster].
  - apply wp_ret. by apply HQ.
  - rewrite (u32_small (s0 + i)) by lia. apply wp_bind, wp_read; [done|lia|]. intros s1 H1. rewrite seqZ_cons in HQ by lia.
    cbn [fmap list_fmap] in HQ. unfold seed_entry in HQ. cbn [omap list_omap] in HQ. destruct (find_seed 16 (sec (s0 + i)) 0) as [x|].
    { apply wp_ret. by apply HQ. }
    replace (Z.pred (Z.of_nat (S n))) with (Z.of_nat n) in HQ by lia. destruct (Z.eq_dec (Z.of_nat n) 0) as [Hn|Hn].
    { destruct n; [|lia]. cbn [find_in_cluster]. apply wp_ret. by apply HQ. }
    rewrite (u32_small (i + 1)) by lia. apply IH; [apply H1|done|lia|lia|]. intros s2 H2. replace (i + 1) with (Z.succ i) by lia.
    apply HQ. by eapply same_trans.
Qed.

Lemma wp_find_in_dir v fuel : v_disk v = d → 0 <= v_spc v → ∀ c cs s (Q : option (Z * Z) → efifs → Prop),
  good (e_hw s) → clusters fuel v c = Some cs → Forall (cluster_in v) cs →
  (∀ s', same s s' → Q (seed_entry (concat (cluster_sectors v <$> cs))) s') → wp (find_in_dir fuel v c) Q s.
Proof using reads_ok limit_ok.
  intros Hd Hspc. induction fuel as [|fuel IH]; intros c cs s Q Hg Hc Hin HQ; cbn [find_in_dir clusters] in *; destruct (in_chain c).
  - done.
  - injection Hc as <-. apply wp_ret. by apply HQ.
  - cbv zeta in Hc.
    assert (∃ cs', cs = c :: cs' ∧ (next_cluster (v_fat v) (v_fat_bytes v) c =? 65535 = true ∧ cs' = [] ∨
      next_cluster (v_fat v) (v_fat_bytes v) c =? 65535 = false ∧ clusters fuel v (next_cluster (v_fat v) (v_fat_bytes v) c) = Some cs')) as (cs' & -> & Hor).
    { destruct (next_cluster _ _ _ =? 65535); [injection Hc as <-; eauto|]. apply fmap_Some in Hc as (cs' & Hcs' & ->). eauto. }
    apply Forall_cons in Hin as [Hin Hin']. apply wp_bind. rewrite Hd. pose proof (sector_of_cluster_nonneg v c).
    apply wp_find_in_cluster; [done|done|lia|unfold cluster_in in Hin; lia|]. intros s1 H1.
    cbn [fmap list_fmap concat] in HQ. rewrite seed_entry_app in HQ. unfold cluster_sectors in HQ at 1.
    rewrite Z2Nat.id by done. destruct (seed_entry (_ <$> seqZ 0 _)) as [x|]; [apply wp_ret; by apply HQ|]. cbv zeta.
    destruct Hor as [[E ->]|[E Hcs]]; rewrite E; [apply wp_ret; by apply HQ|].
    eapply IH; [apply H1|done|done|]. intros s2 H2. apply HQ. by eapply same_trans.
  - injection Hc as <-. apply wp_ret. by apply HQ.
Qed.

(** ** The file *)

Lemma splice_length buf pos bs :
  0 <= pos → pos + Z.of_nat (length bs) <= Z.of_nat (length buf) → length (Bytes.splice buf pos bs) = length buf.
Proof using. intros Hp Hl. unfold Bytes.splice. rewrite !length_app, length_take, length_drop. lia. Qed.

Lemma splice_take buf pos bs k :
  0 <= pos <= Z.of_nat (length buf) → 0 <= k <= Z.of_nat (length bs) →
  take (Z.to_nat (pos + k)) (Bytes.splice buf pos bs) = take (Z.to_nat pos) buf ++ take (Z.to_nat k) bs.
Proof using.
  intros Hp Hk. unfold Bytes.splice. rewrite take_app_ge by (rewrite length_take; lia). f_equal. rewrite length_take.
  rewrite take_app_le by lia. f_equal. lia.
Qed.

(** The file system is kept, the buffer keeps its size and its first bytes are known. *)
Definition filled (s s' : efifs) (n : Z) (bs : list Z) : Prop :=
  e_fs s' = e_fs s ∧ good (e_hw s') ∧ length (file_buf s') = length (file_buf s) ∧ take (Z.to_nat n) (file_buf s') = bs.

Lemma wp_read_cluster n : ∀ s0 i pos rem s (Q : Z * Z → efifs → Prop),
  good (e_hw s) → 0 <= s0 → 0 <= i → s0 + i + Z.of_nat n <= limit → length (file_buf s) = Z.to_nat kFileBuf →
  0 <= pos → 0 <= rem → pos + rem <= kFileBuf → (0 < rem → pos mod 512 = 0) →
  (∀ s' m, m = Z.min rem (512 * Z.of_nat n) →
     filled s s' (pos + m) (take (Z.to_nat pos) (file_buf s) ++ take (Z.to_nat m) (concat ((λ k, sec (s0 + k)) <$> seqZ i (Z.of_nat n)))) →
     Q (pos + m, rem - m) s') →
  wp (read_cluster d s0 n i pos rem) Q s.
Proof using reads_ok limit_ok sec_len.
  unfold kFileBuf. induction n as [|n IH]; intros s0 i pos rem s Q Hg Hs Hi Hl Hbuf Hp Hr Hpr Hmod HQ; cbn [read_cluster].
  { specialize (HQ s 0 ltac:(lia)). rewrite Z.add_0_r, Z.sub_0_r in HQ. apply wp_ret, HQ. unfold filled. cbn. by rewrite app_nil_r. }
  destruct (rem <=? 0) eqn:E; zbool.
  { specialize (HQ s 0 ltac:(lia)). rewrite Z.add_0_r, Z.sub_0_r in HQ. apply wp_ret, HQ. unfold filled. cbn. by rewrite app_nil_r. }
  specialize (Hmod E). assert (pos + 512 <= 32768) as Hroom by (Z.div_mod_to_equations; lia).
  rewrite (u32_small (s0 + i)) by lia. apply wp_bind, wp_read; [done|lia|]. intros s1 (F1 & B1 & G1). apply wp_bind. unfold store_sector, wp at 1.
  set (t := if rem <? 512 then rem else 512). assert (t = Z.min rem 512) as Ht by (unfold t; destruct (rem <? 512) eqn:?; zbool; lia). clearbody t.
  pose proof (sec_len (s0 + i)) as Hsec. cbv zeta. rewrite (u32_small (rem - t)) by lia. rewrite seqZ_cons in HQ by lia.
  cbn [fmap list_fmap concat] in HQ. replace (Z.pred (Z.of_nat (S n))) with (Z.of_nat n) in HQ by lia.
  set (s2 := mk_efifs _ _ _ _). assert (length (file_buf s2) = Z.to_nat 32768) as L2 by (cbn; rewrite splice_length, B1 by (rewrite ?B1; lia); done).
  assert (take (Z.to_nat (pos + t)) (file_buf s2) = take (Z.to_nat pos) (file_buf s) ++ take (Z.to_nat t) (sec (s0 + i))) as T2.
  { cbn. rewrite B1, splice_take by lia. done. }
  assert (∀ rest s' m', filled s2 s' (pos + t + m') (take (Z.to_nat (pos + t)) (file_buf s2) ++ take (Z.to_nat m') rest) → 0 <= m' →
            (t < 512 → m' = 0) →
            filled s s' (pos + (t + m')) (take (Z.to_nat pos) (file_buf s) ++ take (Z.to_nat (t + m')) (sec (s0 + i) ++ rest))) as Hfill.
  { intros rest s' m' (F' & G' & L' & T') H0 Hm0. unfold filled. rewrite F', L', L2, Hbuf. split_and!; [done|done|done|].
    rewrite Z.add_assoc, T', T2, <- app_assoc. f_equal. destruct (Z.lt_ge_cases t 512) as [Hlt|Hge].
    - rewrite (Hm0 Hlt), Z.add_0_r. cbn. rewrite app_nil_r, take_app_le by lia. done.
    - rewrite (take_ge (sec _)) by lia. rewrite take_app_ge by lia. do 2 f_equal. lia. }
  destruct (Z.eq_dec (Z.of_nat n) 0) as [Hn|Hn].
  { destruct n; [|lia]. cbn [read_cluster]. apply wp_ret. specialize (HQ s2 t ltac:(lia)). apply HQ. rewrite <- (Z.add_0_r t).
    apply Hfill; [|lia|lia]. unfold filled. cbn [take Z.to_nat]. rewrite app_nil_r, Z.add_0_r. by split_and!. }
  rewrite (u32_small (i + 1)) by lia. apply IH; [done|done|lia|lia|done|lia|lia|lia|intros; Z.div_mod_to_equations; lia|].
  intros s' m' Hm' HF. replace (pos + t + m') with (pos + (t + m')) by lia. replace (rem - t - m') with (rem - (t + m')) by lia.
  apply HQ; [lia|]. replace (Z.succ i) with (i + 1) by lia. apply Hfill; [done|lia|lia].
Qed.

Lemma cluster_bytes_length v c : 0 <= v_spc v → Z.of_nat (length (concat (cluster_sectors v c))) = 512 * v_spc v.
Proof using sec_len.
  intros Hspc. unfold cluster_sectors. rewrite <- (Z2Nat.id (v_spc v)) at 1 2 by done. generalize 0, (Z.to_nat (v_spc v)). intros i n. revert i.
  induction n as [|n IH]; intros i; [done|]. rewrite seqZ_cons by lia. cbn [fmap list_fmap concat]. rewrite length_app, sec_len.
  replace (Z.pred (Z.of_nat (S n))) with (Z.of_nat n) by lia. rewrite Nat2Z.inj_add, IH. lia.
Qed.

Lemma filled_trans s s1 s2 pos m k b1 b2 :
  0 <= pos → 0 <= m → 0 <= k → m <= Z.of_nat (length b1) → (m < Z.of_nat (length b1) → k = 0) →
  filled s s1 (pos + m) (take (Z.to_nat pos) (file_buf s) ++ take (Z.to_nat m) b1) →
  filled s1 s2 (pos + m + k) (take (Z.to_nat (pos + m)) (file_buf s1) ++ take (Z.to_nat k) b2) →
  filled s s2 (pos + (m + k)) (take (Z.to_nat pos) (file_buf s) ++ take (Z.to_nat (m + k)) (b1 ++ b2)).
Proof using.
  intros Hp Hm Hk Hl Hfull (F1 & G1 & L1 & T1) (F2 & G2 & L2 & T2). unfold filled. rewrite F2, L2. split_and!; [done|done|done|].
  rewrite Z.add_assoc, T2, T1, <- app_assoc. f_equal. destruct (Z.eq_dec m (Z.of_nat (length b1))) as [E|E].
  - rewrite (take_ge b1) by lia. rewrite take_app_ge by lia. do 2 f_equal. lia.
  - rewrite (Hfull ltac:(lia)), Z.add_0_r. cbn. rewrite app_nil_r, take_app_le by lia. done.
Qed.

Lemma wp_read_chain v fuel : v_disk v = d → 0 <= v_spc v → ∀ fc cs pos rem s (Q : unit → efifs → Prop),
  good (e_hw s) → clusters fuel v fc = Some cs → Forall (cluster_in v) cs → length (file_buf s) = Z.to_nat kFileBuf →
  0 <= pos → 0 <= rem → pos + rem <= kFileBuf → (0 < rem → pos mod 512 = 0) →
  rem <= Z.of_nat (length (concat (concat (cluster_sectors v <$> cs)))) →
  (∀ s', filled s s' (pos + rem) (take (Z.to_nat pos) (file_buf s) ++ take (Z.to_nat rem) (concat (concat (cluster_sectors v <$> cs)))) → Q tt s') →
  wp (read_chain fuel v fc pos rem) Q s.
Proof using reads_ok limit_ok sec_len.
  intros Hd Hspc. induction fuel as [|fuel IH]; intros fc cs pos rem s Q Hg Hc Hin Hbuf Hp Hr Hpr Hmod Hl HQ; cbn [read_chain clusters] in *.
  all: destruct (0 <? rem) eqn:E; zbool; cycle 1.
  all: try (replace rem with 0 in * by lia; rewrite andb_false_r; apply wp_ret, HQ; unfold filled; cbn; by rewrite Z.add_0_r, app_nil_r).
  all: destruct (in_chain fc); [cbn [andb]|injection Hc as <-; cbn in Hl; lia].
  all: try discriminate Hc.
  cbv zeta in Hc. set (c' := next_cluster _ _ _) in *.
  assert (∃ cs', cs = fc :: cs' ∧ (c' =? 65535 = true ∧ cs' = [] ∨ c' =? 65535 = false ∧ clusters fuel v c' = Some cs')) as (cs' & -> & Hor).
  { destruct (c' =? 65535); [injection Hc as <-; eauto|]. apply fmap_Some in Hc as (cs' & Hcs' & ->). eauto. }
  apply Forall_cons in Hin as [Hin Hin']. cbn [fmap list_fmap concat] in Hl, HQ. rewrite concat_app in Hl, HQ.
  pose proof (cluster_bytes_length v fc Hspc) as Hcl. pose proof (sector_of_cluster_nonneg v fc). rewrite length_app in Hl.
  apply wp_bind. rewrite Hd. apply wp_read_cluster; [done|done|lia|unfold cluster_in in Hin; lia|done|done|done|done|done|].
  intros s1 m Hm Hf1. rewrite Z2Nat.id in Hm, Hf1 by done. fold (cluster_sectors v fc) in Hf1.
  assert (length (file_buf s1) = Z.to_nat kFileBuf) as L1 by (destruct Hf1 as (_ & _ & -> & _); done).
  cbn iota. destruct Hor as [[E' ->]|[E' Hcs]]; rewrite E'.
  - cbn in Hl. apply wp_ret, HQ. replace rem with (m + 0) by lia.
    apply (filled_trans s s1 s1); [lia..|done|]. unfold filled. cbn. rewrite app_nil_r, Z.add_0_r. split_and!; [done|apply Hf1|done|done].
  - eapply IH; [apply Hf1|done|done|done|lia|lia|lia| |lia|].
    { intros Hpos. replace m with (512 * v_spc v) by lia. specialize (Hmod E). Z.div_mod_to_equations. lia. }
    intros s2 Hf2. apply HQ. replace rem with (m + (rem - m)) at 1 2 by lia. eapply filled_trans; [| | | | |done|done]; lia.
Qed.

(** ** The volume *)

Definition root_dir_sectors : Z := ((read_u16 (sec 0) 17 *u 32 +u 512) -u 1) / 512.
Definition first_root : Z := read_u16 (sec 0) 14 +u zget (sec 0) 16 *u read_u16 (sec 0) 22.
Definition fat_sectors : Z := read_u16 (sec 0) 22.
Definition the_volume : volume :=
  mk_volume d (zget (sec 0) 13) (first_root +u root_dir_sectors)
    (concat (sec <$> seqZ (read_u16 (sec 0) 14) fat_sectors)) (fat_sectors *u 512).
Definition seed_boot : Z := find_boot (Z.to_nat (read_u16 (sec 0) 17)) (concat (sec <$> seqZ first_root root_dir_sectors)) 0.
Definition chain_sectors (cs : list Z) : list (list Z) := concat (cluster_sectors the_volume <$> cs).

(** What the code finds on the way, in its own terms. *)
Record found_volume (fuel : nat) (file : list Z) : Prop := {
  fo_bytes : Forall (λ b, 0 <= b < 256) (sec 0);
  fo_bps : read_u16 (sec 0) 11 = 512;
  fo_root : root_dir_sectors *u 512 <= kRootBuf;
  fo_fat : fat_sectors *u 512 <= kFatBuf;
  fo_root_in : first_root + root_dir_sectors <= limit;
  fo_fat_in : read_u16 (sec 0) 14 + fat_sectors <= limit;
  fo_boot : seed_boot ≠ 0;
  fo_file : ∃ cs fs start size,
    clusters fuel the_volume seed_boot = Some cs ∧ Forall (cluster_in the_volume) cs ∧
    seed_entry (chain_sectors cs) = Some (start, size) ∧ start ≠ 0 ∧ 0 <= size <= kFileBuf ∧
    clusters fuel the_volume start = Some fs ∧ Forall (cluster_in the_volume) fs ∧
    size <= Z.of_nat (length (concat (chain_sectors fs))) ∧ file = take (Z.to_nat size) (concat (chain_sectors fs));
}.

(** A message leaves everything but the console. *)
Definition quiet (m : M unit) : Prop := ∀ s, good (e_hw s) → wp m (λ _ s', same s s') s.

Lemma quiet_serial g : quiet (run_serial g).
Proof using. intros s Hg. by apply wp_serial. Qed.

Lemma quiet_then m m' : quiet m → quiet m' → quiet (m ;; m').
Proof using.
  intros Hm Hm' s Hg. apply wp_bind. eapply wp_mono; [by apply Hm|]. intros [] s1 H1. eapply wp_mono; [apply Hm', H1|].
  intros [] s2 H2. by eapply same_trans.
Qed.

Lemma wp_report sector Q s : good (e_hw s) → (∀ s', same s s' → Q tt s') → wp (report sector) Q s.
Proof using.
  intros Hg HQ. assert (quiet (report sector)) as Hq by (unfold report; repeat (apply quiet_then; [apply quiet_serial|]); apply quiet_serial).
  apply (wp_mono (report sector) (λ _ s', same s s')); [exact (Hq s Hg)|]. intros []. exact HQ.
Qed.

Lemma read_u16_nonneg bs off : Forall (λ b, 0 <= b < 256) bs → 0 <= read_u16 bs off < 65536 ∧ 0 <= zget bs off < 256.
Proof using.
  intros Hb. assert (∀ i, 0 <= zget bs i < 256) as Hz.
  { intros i. unfold zget. rewrite list_lookup_total_alt. destruct (bs !! Z.to_nat i) as [x|] eqn:E; [|cbn; lia].
    rewrite Forall_lookup in Hb. by eapply Hb. }
  split; [|done]. unfold read_u16. pose proof (Hz off). pose proof (Hz (off + 1)). change 65536 with (2 ^ 16).
  apply lor_range; rewrite ?Z.shiftl_mul_pow2 by lia; lia.
Qed.

Lemma wp_first_sector usb_present ide_present s Q :
  good (e_hw s) → 0 < limit → usb_present = true ∧ d = usb ∨ usb_present = false ∧ ide_present = true ∧ d = ide →
  (∀ s', same s s' → Q (d, sec 0) s') → wp (first_sector usb ide usb_present ide_present) Q s.
Proof using reads_ok limit_ok.
  intros Hg Hl Hd HQ. unfold first_sector. destruct Hd as [[-> Hd]|(-> & -> & Hd)].
  - apply wp_bind, wp_bind. rewrite <- Hd. apply wp_read; [done|lia|]. intros s' Hs. apply wp_ret, wp_bind, wp_ret, wp_ret. by apply HQ.
  - apply wp_bind, wp_ret, wp_bind, wp_bind. rewrite <- Hd. apply wp_read; [done|lia|]. intros s' Hs. apply wp_ret, wp_ret. by apply HQ.
Qed.

Lemma wp_load_seed usb_present ide_present fuel file f s :
  good (e_hw s) → 0 < limit → usb_present = true ∧ d = usb ∨ usb_present = false ∧ ide_present = true ∧ d = ide →
  found_volume fuel file → e_fs s = Some f → length (file_buf s) = Z.to_nat kFileBuf →
  wp (load_seed usb ide usb_present ide_present fuel)
    (λ b s', b = true ∧ e_fs s' = Some (apply_seed f file) ∧ length (file_buf s') = Z.to_nat kFileBuf) s.
Proof using reads_ok limit_ok sec_len.
  intros Hg Hl Hd [Sb Sbps Sroot Sfat Sri Sfi Sboot (cs & fs & start & size & C1 & C2 & C3 & C4 & C5 & C6 & C7 & C8 & ->)] Hf Hbuf.
  assert (0 <= root_dir_sectors) as N1 by (apply Z.div_pos; [apply u32_range|lia]).
  assert (0 <= first_root) as N2 by apply u32_range. pose proof (read_u16_nonneg (sec 0) 14 Sb) as [? _].
  pose proof (read_u16_nonneg (sec 0) 22 Sb) as [? _]. pose proof (read_u16_nonneg (sec 0) 13 Sb) as [_ ?].
  unfold load_seed. apply wp_bind, wp_first_sector; [done|done|done|]. intros s1 R1. apply wp_bind, wp_report; [apply R1|].
  intros s2 R2. rewrite Sbps. change (negb (512 =? 512)) with false. cbv iota zeta.
  fold root_dir_sectors first_root fat_sectors. rewrite (proj2 (Z.ltb_ge _ _) Sroot).
  apply wp_bind, wp_read_run; [apply R2|done|lia|lia|]. intros s3 R3. rewrite Z.add_0_r, Z2Nat.id by done. fold seed_boot.
  rewrite (proj2 (Z.eqb_neq _ _) Sboot), (proj2 (Z.ltb_ge _ _) Sfat).
  apply wp_bind, wp_read_run; [apply R3|lia|lia|unfold fat_sectors in *; lia|]. intros s4 R4.
  rewrite Z.add_0_r, Z2Nat.id by (unfold fat_sectors; lia). fold the_volume.
  apply wp_bind. eapply wp_find_in_dir; [done|cbn; lia|apply R4|exact C1|done|]. intros s5 R5. fold (chain_sectors cs). rewrite C3.
  rewrite (proj2 (Z.eqb_neq _ _) C4), (proj2 (Z.ltb_ge _ _)) by lia.
  pose proof (same_trans _ _ _ (same_trans _ _ _ (same_trans _ _ _ (same_trans _ _ _ R1 R2) R3) R4) R5) as (F5 & B5 & G5).
  apply wp_bind. eapply wp_read_chain; [done|cbn; lia|done|exact C6|done|by rewrite B5|lia|lia|lia|done|exact C8|].
  intros s6 (F6 & G6 & L6 & T6). unfold get_fs. apply wp_bind. unfold wp at 1. rewrite F6, F5, Hf. apply wp_bind. unfold get_buf, wp at 1.
  apply wp_bind. unfold set_fs, wp at 1. apply wp_bind. unfold wp. cbn [say_line run_serial e_fs file_buf mret M_ret]. rewrite L6, B5.
  rewrite Z.add_0_l in T6. by rewrite T6.
Qed.

(** A cluster that points to itself: the search of the directory never ends. *)
Lemma cycle_diverges v c :
  v_disk v = d → 0 <= v_spc v → in_chain c = true → next_cluster (v_fat v) (v_fat_bytes v) c = c → cluster_in v c →
  seed_entry (cluster_sectors v c) = None → ∀ fuel (s : efifs), good (e_hw s) → (find_in_dir fuel v c s).1 = NoFuel.
Proof using reads_ok limit_ok.
  intros Hd Hspc Hc Hn Hin Hs. induction fuel as [|fuel IH]; intros s Hg; cbn [find_in_dir]; rewrite Hc; [done|].
  unfold mbind, M_bind. rewrite Hd, Hn. pose proof (sector_of_cluster_nonneg v c).
  assert (wp (find_in_cluster d (sector_of_cluster v c) (Z.to_nat (v_spc v)) 0) (λ r s', r = None ∧ good (e_hw s')) s) as Hw.
  { apply wp_find_in_cluster; [done|done|lia|unfold cluster_in in Hin; lia|]. intros s' (_ & _ & Hg'). split; [|done].
    rewrite Z2Nat.id by done. exact Hs. }
  unfold wp in Hw. destruct (find_in_cluster _ _ _ _ _) as [[r| |] s']; [|done..]. destruct Hw as [-> Hg']. cbv zeta.
  rewrite (proj2 (Z.eqb_neq c 65535)); [by apply IH|]. unfold in_chain in Hc. apply andb_true_iff in Hc as [_ Hc]. apply Z.ltb_lt in Hc. lia.
Qed.
End reads.

(** ** FAT16 volumes *)

(** Numbers stored low byte first. *)
Definition w16 (bs : list Z) (i : Z) : Z := zget bs i + 256 * zget bs (i + 1).
Definition w32 (bs : list Z) (i : Z) : Z := w16 bs i + 65536 * w16 bs (i + 2).

(** A directory entry of 32 bytes. *)
Record fat_entry := mk_fat_entry { d_name : list Z; d_attr : Z; d_cluster : Z; d_size : Z }.

(** The entries of a directory region: a zero byte ends it, 0xE5 marks a
    deleted entry. *)
Fixpoint fat_entries (n : nat) (bs : list Z) : list fat_entry :=
  match n with
  | O => []
  | S n' =>
      if zget bs 0 =? 0 then []
      else
        let rest := fat_entries n' (drop 32 bs) in
        if zget bs 0 =? 229 then rest
        else mk_fat_entry (take 11 bs) (zget bs 11) (w16 bs 26) (w32 bs 28) :: rest
  end.

(** A chain of clusters ends at the first number that is no data cluster. *)
Inductive fat_chain (link : Z → Z) : Z → list Z → Prop :=
  | chain_end c : ¬ (2 <= c < 65528) → fat_chain link c []
  | chain_next c cs : 2 <= c < 65528 → fat_chain link (link c) cs → fat_chain link c (c :: cs).

Section fat16.
Context (sec : Z → list Z).

(** The parameter block in the first sector, and the regions it describes. *)
Definition sectors_per_cluster : Z := zget (sec 0) 13.
Definition reserved_sectors : Z := w16 (sec 0) 14.
Definition fat_count : Z := zget (sec 0) 16.
Definition root_entries : Z := w16 (sec 0) 17.
Definition sectors_per_fat : Z := w16 (sec 0) 22.
Definition root_start : Z := reserved_sectors + fat_count * sectors_per_fat.
Definition root_sectors : Z := (root_entries * 32 + 511) / 512.
Definition data_start : Z := root_start + root_sectors.
Definition region (start n : Z) : list Z := concat (sec <$> seqZ start n).

(** The entry of a cluster in the first FAT; outside it there is no next one. *)
Definition fat_link (c : Z) : Z :=
  if 2 * c + 1 <? sectors_per_fat * 512 then w16 (region reserved_sectors sectors_per_fat) (2 * c) else 65535.

(** Data clusters are numbered from 2. *)
Definition cluster_start (c : Z) : Z := data_start + (c - 2) * sectors_per_cluster.
Definition cluster_data (c : Z) : list Z := region (cluster_start c) sectors_per_cluster.

(** The directory BOOT of the root, and the seed file in a directory. *)
Definition boot_entry : option fat_entry :=
  head (filter (λ e, Z.testbit (d_attr e) 4 = true ∧ d_name e = bytes_of (txt "BOOT       "))
    (fat_entries (Z.to_nat root_entries) (region root_start root_sectors))).
Definition seed_file_entry (cs : list Z) : option fat_entry :=
  head (filter (λ e, Z.testbit (d_attr e) 3 = false ∧ d_name e = bytes_of (txt "ROOTFSSEED") ++ [0])
    (concat ((λ l, fat_entries 16 (sec l)) <$> concat ((λ c, seqZ (cluster_start c) sectors_per_cluster) <$> cs)))).

(** A volume of [limit] sectors that holds the seed file [file]: the directory
    BOOT is in the root directory, the file is in BOOT, both chains are at
    most [fuel] long, and root directory, FAT and file fit the buffers. *)
Record seed_volume (limit : Z) (fuel : nat) (file : list Z) : Prop := {
  sv_bytes : ∀ l, Forall is_byte (sec l);
  sv_bps : w16 (sec 0) 11 = 512;
  sv_root : root_sectors * 512 <= 16384;
  sv_fat : sectors_per_fat * 512 <= 16384;
  sv_fat_in : reserved_sectors + sectors_per_fat <= limit;
  sv_root_in : data_start <= limit;
  sv_file : ∃ boot seed cs fs,
    boot_entry = Some boot ∧ d_cluster boot ≠ 0 ∧
    fat_chain fat_link (d_cluster boot) cs ∧ (length cs <= fuel)%nat ∧
    seed_file_entry cs = Some seed ∧ d_cluster seed ≠ 0 ∧ d_size seed <= 32768 ∧
    fat_chain fat_link (d_cluster seed) fs ∧ (length fs <= fuel)%nat ∧
    Forall (λ c, cluster_start (c + 1) <= limit) (cs ++ fs) ∧
    d_size seed <= Z.of_nat (length (concat (cluster_data <$> fs))) ∧
    file = take (Z.to_nat (d_size seed)) (concat (cluster_data <$> fs));
}.

(** *** The code's way of reading the same volume *)

Hypothesis all_bytes : ∀ l, Forall is_byte (sec l).
Hypothesis all_sectors : ∀ l, length (sec l) = 512%nat.

Lemma zget_byte bs i : Forall is_byte bs → is_byte (zget bs i).
Proof using.
  intros Hb. unfold zget. rewrite list_lookup_total_alt. destruct (bs !! Z.to_nat i) as [x|] eqn:E; [|unfold is_byte; cbn; lia].
  rewrite Forall_lookup in Hb. by eapply Hb.
Qed.

Lemma lor_pair k a b : 0 <= k → 0 <= a < 2 ^ k → Z.lor a (Z.shiftl b k) = a + 2 ^ k * b.
Proof using.
  intros Hk Ha. rewrite Z.lor_comm, Z.shiftl_mul_pow2, (lor_low_bits k) by (lia || done || by apply Z.mod_mul, Z.pow_nonzero). lia.
Qed.

Lemma read_u16_w16 bs i : Forall is_byte bs → read_u16 bs i = w16 bs i.
Proof using. intros Hb. pose proof (zget_byte bs i Hb) as H. unfold is_byte in H. unfold read_u16, w16. by rewrite (lor_pair 8) by (cbn; lia). Qed.

Lemma w16_range bs i : Forall is_byte bs → 0 <= w16 bs i < 65536.
Proof using.
  intros Hb. pose proof (zget_byte bs i Hb). pose proof (zget_byte bs (i + 1) Hb). unfold is_byte, w16 in *. lia.
Qed.

Lemma read_u32_w32 bs i : Forall is_byte bs → read_u32 bs i = w32 bs i ∧ 0 <= w32 bs i.
Proof using.
  intros Hb. pose proof (zget_byte bs i Hb). pose proof (zget_byte bs (i + 1) Hb). pose proof (zget_byte bs (i + 2) Hb).
  pose proof (zget_byte bs (i + 3) Hb). unfold is_byte, read_u32, w32, w16 in *. replace (i + 2 + 1) with (i + 3) by lia.
  rewrite (lor_pair 8) by (change (2 ^ 8) with 256; lia). change (2 ^ 8) with 256.
  rewrite (lor_pair 16) by (change (2 ^ 16) with 65536; lia). change (2 ^ 16) with 65536.
  rewrite (lor_pair 24) by (change (2 ^ 24) with 16777216; lia). change (2 ^ 24) with 16777216. lia.
Qed.

Lemma region_bytes start n : Forall is_byte (region start n).
Proof using all_bytes. apply Forall_concat, Forall_fmap, Forall_forall. intros l _. apply all_bytes. Qed.

Lemma region_length start n : 0 <= n → Z.of_nat (length (region start n)) = 512 * n.
Proof using all_sectors.
  intros Hn. unfold region. rewrite <- (Z2Nat.id n) at 1 2 by done. generalize (Z.to_nat n) as k. intros k. revert start.
  induction k as [|k IH]; intros start; [done|]. rewrite seqZ_cons by lia. cbn [fmap list_fmap concat]. rewrite length_app, all_sectors.
  replace (Z.pred (Z.of_nat (S k))) with (Z.of_nat k) by lia. rewrite Nat2Z.inj_add, IH. lia.
Qed.

Lemma name_equal bs (name : text) : (11 <= length bs)%nat → (10 <= length name)%nat → (length name <= 11)%nat →
  fat11_equal bs name = bool_decide (take 11 bs = take 11 (bytes_of name ++ [0])).
Proof using.
  intros Hb H1 H2. unfold fat11_equal. apply eq_true_iff_eq. rewrite bool_decide_eq_true, forallb_forall.
  assert (length (bytes_of name) = length name) as Hn by (unfold bytes_of; apply length_fmap).
  split.
  - intros Hf. apply list_eq. intros i. destruct (decide (i < 11)%nat) as [Hi|Hi].
    + rewrite !lookup_take_lt by done. specialize (Hf i). rewrite in_seq in Hf. specialize (Hf ltac:(lia)). apply Z.eqb_eq in Hf.
      unfold zget in Hf. rewrite Nat2Z.id in Hf.
      rewrite !list_lookup_lookup_total_lt by (rewrite ?length_app, ?Hn; cbn; lia). by rewrite Hf.
    + by rewrite !lookup_take_ge by lia.
  - intros He i Hi%in_seq. apply Z.eqb_eq. unfold zget. rewrite Nat2Z.id, !list_lookup_total_alt.
    rewrite <- (lookup_take_lt bs 11), He, lookup_take_lt by lia. done.
Qed.

Lemma attr_bit a k : 0 <= k → (Z.land a (Z.shiftl 1 k) =? 0) = negb (Z.testbit a k).
Proof using. intros Hk. by apply testbit_mask. Qed.

Lemma find_boot_spec n root : Forall is_byte root → ∀ i, 0 <= i → (i + Z.of_nat n) * 32 <= Z.of_nat (length root) →
  find_boot n root i = from_option d_cluster 0
    (head (filter (λ e, Z.testbit (d_attr e) 4 = true ∧ d_name e = bytes_of (txt "BOOT       ")) (fat_entries n (drop (Z.to_nat (i * 32)) root)))).
Proof using.
  intros Hr. induction n as [|n IH]; intros i Hi Hl; [done|]. cbn [find_boot fat_entries]. cbv zeta.
  set (e := drop (Z.to_nat (i * 32)) root). assert (Forall is_byte e) as He by by apply Forall_drop.
  assert (32 <= length e)%nat as Hle by (unfold e; rewrite length_drop; lia).
  assert (drop 32 e = drop (Z.to_nat ((i + 1) * 32)) root) as -> by (unfold e; rewrite drop_drop; f_equal; lia).
  destruct (zget e 0 =? 0); [done|]. specialize (IH (i + 1) ltac:(lia) ltac:(lia)).
  destruct (zget e 0 =? 229); [exact IH|]. cbn [orb]. change 16 with (Z.shiftl 1 4) at 1. rewrite attr_bit by lia.
  rewrite name_equal by (cbn; lia). change (take 11 (bytes_of (txt "BOOT       ") ++ [0])) with (bytes_of (txt "BOOT       ")).
  rewrite filter_cons. cbn [d_attr d_name]. destruct (Z.testbit (zget e 11) 4) eqn:Eb; cbn [negb].
  - case_bool_decide as Ed; [rewrite decide_True by done; cbn; by rewrite read_u16_w16|rewrite decide_False by tauto; exact IH].
  - rewrite decide_False by (intros [? _]; done). exact IH.
Qed.

Lemma find_seed_spec n bs : Forall is_byte bs → ∀ i, 0 <= i → (i + Z.of_nat n) * 32 <= Z.of_nat (length bs) →
  find_seed n bs i = (λ e, (d_cluster e, d_size e)) <$>
    head (filter (λ e, Z.testbit (d_attr e) 3 = false ∧ d_name e = bytes_of (txt "ROOTFSSEED") ++ [0]) (fat_entries n (drop (Z.to_nat (i * 32)) bs))).
Proof using.
  intros Hr. induction n as [|n IH]; intros i Hi Hl; [done|]. cbn [find_seed fat_entries]. cbv zeta.
  set (e := drop (Z.to_nat (i * 32)) bs). assert (Forall is_byte e) as He by by apply Forall_drop.
  assert (32 <= length e)%nat as Hle by (unfold e; rewrite length_drop; lia).
  assert (drop 32 e = drop (Z.to_nat ((i + 1) * 32)) bs) as -> by (unfold e; rewrite drop_drop; f_equal; lia).
  destruct (zget e 0 =? 0); [done|]. specialize (IH (i + 1) ltac:(lia) ltac:(lia)).
  destruct (zget e 0 =? 229); [exact IH|]. cbn [orb]. change 8 with (Z.shiftl 1 3) at 1. rewrite attr_bit by lia. rewrite negb_involutive.
  rewrite name_equal by (cbn; lia). change (take 11 (bytes_of (txt "ROOTFSSEED") ++ [0])) with (bytes_of (txt "ROOTFSSEED") ++ [0]).
  rewrite filter_cons. cbn [d_attr d_name]. destruct (Z.testbit (zget e 11) 3) eqn:Eb.
  - rewrite decide_False by (intros [? _]; done). exact IH.
  - case_bool_decide as Ed; [rewrite decide_True by done; cbn; rewrite read_u16_w16 by done; by rewrite (proj1 (read_u32_w32 _ _ He))|].
    rewrite decide_False by tauto. exact IH.
Qed.

(** The geometry is computed without wrap-around. *)
Lemma volume_geometry d :
  root_dir_sectors sec = root_sectors ∧ first_root sec = root_start ∧ fat_sectors sec = sectors_per_fat ∧
  the_volume d sec = mk_volume d sectors_per_cluster data_start (region reserved_sectors sectors_per_fat) (sectors_per_fat * 512).
Proof using all_bytes.
  pose proof (w16_range (sec 0) 14 (all_bytes 0)). pose proof (w16_range (sec 0) 17 (all_bytes 0)).
  pose proof (w16_range (sec 0) 22 (all_bytes 0)). pose proof (zget_byte (sec 0) 16 (all_bytes 0)). unfold is_byte in *.
  unfold root_dir_sectors, first_root, fat_sectors, the_volume, data_start, root_start, root_sectors,
    reserved_sectors, fat_count, root_entries, sectors_per_fat, sectors_per_cluster.
  rewrite !read_u16_w16 by done. set (r := w16 (sec 0) 14) in *. set (e := w16 (sec 0) 17) in *. set (f := w16 (sec 0) 22) in *.
  set (k := zget (sec 0) 16) in *. assert (0 <= k * f < 16777216) as Hkf by nia.
  rewrite (u32_small (e * 32)), (u32_small (e * 32 + 512)), (u32_small (e * 32 + 512 - 1)), (u32_small (k * f)),
    (u32_small (r + k * f)) by lia.
  replace (e * 32 + 512 - 1) with (e * 32 + 511) by lia. split_and!; [done..|].
  unfold first_root, root_dir_sectors, fat_sectors. rewrite !read_u16_w16 by done. fold r e f k.
  rewrite (u32_small (e * 32)), (u32_small (e * 32 + 512)), (u32_small (e * 32 + 512 - 1)), (u32_small (k * f)), (u32_small (r + k * f)),
    (u32_small (f * 512)) by lia.
  replace (e * 32 + 512 - 1) with (e * 32 + 511) by lia.
  rewrite u32_small by (Z.div_mod_to_equations; lia). done.
Qed.

Lemma root_sectors_nonneg : 0 <= root_sectors ∧ root_entries * 32 <= 512 * root_sectors.
Proof using all_bytes.
  pose proof (w16_range (sec 0) 17 (all_bytes 0)). unfold root_sectors. fold root_entries in H. Z.div_mod_to_equations. lia.
Qed.

Lemma boot_spec : seed_boot sec = from_option d_cluster 0 boot_entry.
Proof using all_bytes all_sectors.
  destruct (volume_geometry 0) as (H1 & H2 & _). unfold seed_boot. rewrite H1, H2, read_u16_w16 by done. fold root_entries (region root_start root_sectors).
  destruct root_sectors_nonneg as [Hn Hr]. pose proof (w16_range (sec 0) 17 (all_bytes 0)) as Hw. fold root_entries in Hw.
  rewrite find_boot_spec; [done|apply region_bytes|lia|]. rewrite region_length by done. lia.
Qed.

Lemma chain_range link c cs : fat_chain link c cs → Forall (λ c, 2 <= c < 65528) cs.
Proof using. by induction 1; constructor. Qed.

Section volume.
Context (d : nat).
Abbreviation v := (the_volume d sec).

Lemma next_spec c : 2 <= c < 65528 → next_cluster (v_fat v) (v_fat_bytes v) c = fat_link c.
Proof using all_bytes.
  intros Hc. destruct (volume_geometry d) as (_ & _ & _ & ->). cbn [v_fat v_fat_bytes]. unfold next_cluster, fat_link.
  rewrite (u32_small (c * 2)), (u32_small (c * 2 + 1)) by lia. replace (c * 2) with (2 * c) by lia.
  rewrite read_u16_w16 by apply region_bytes. rewrite Z.ltb_antisym. by destruct (_ <=? _).
Qed.

Lemma clusters_spec c cs : fat_chain fat_link c cs → ∀ fuel, (length cs <= fuel)%nat → clusters fuel v c = Some cs.
Proof using all_bytes.
  induction 1 as [c Hc|c cs Hc Hch IH]; intros fuel Hf.
  - assert (in_chain c = false) as E by (unfold in_chain; apply andb_false_iff; destruct (Z.leb_spec 2 c); [right; apply Z.ltb_ge; lia|by left]).
    destruct fuel; cbn [clusters]; by rewrite E.
  - assert (in_chain c = true) as E by (unfold in_chain; apply andb_true_iff; rewrite Z.leb_le, Z.ltb_lt; lia).
    destruct fuel as [|fuel]; cbn [length] in Hf; [lia|]. cbn [clusters]. rewrite E. cbv zeta. rewrite next_spec by done.
    destruct (Z.eqb_spec (fat_link c) 65535) as [El|El].
    + rewrite El in Hch. inversion Hch; subst; [done|lia].
    + rewrite IH by lia. done.
Qed.

Lemma sector_spec c : 2 <= c < 65528 → sector_of_cluster v c = cluster_start c.
Proof using all_bytes.
  intros Hc. destruct (volume_geometry d) as (_ & _ & _ & ->). unfold sector_of_cluster, cluster_start. cbn [v_first_data v_spc].
  pose proof (zget_byte (sec 0) 13 (all_bytes 0)) as Hs. fold sectors_per_cluster in Hs. unfold is_byte in Hs.
  assert (0 <= data_start < 33554432) as Hd.
  { unfold data_start, root_start. pose proof (w16_range (sec 0) 14 (all_bytes 0)) as H1. pose proof (w16_range (sec 0) 17 (all_bytes 0)) as H2.
    pose proof (w16_range (sec 0) 22 (all_bytes 0)) as H3. pose proof (zget_byte (sec 0) 16 (all_bytes 0)) as H4. unfold is_byte in H4.
    fold reserved_sectors in H1. fold root_entries in H2. fold sectors_per_fat in H3. fold fat_count in H4.
    assert (0 <= fat_count * sectors_per_fat < 16777216) by nia. unfold root_sectors. Z.div_mod_to_equations. lia. }
  assert (0 <= (c - 2) * sectors_per_cluster < 16777216) as Hm by nia.
  by rewrite (u32_small (c - 2)), (u32_small ((c - 2) * sectors_per_cluster)), u32_small by lia.
Qed.

Lemma sectors_spec c : 2 <= c < 65528 → cluster_sectors sec v c = sec <$> seqZ (cluster_start c) sectors_per_cluster.
Proof using all_bytes.
  intros Hc. unfold cluster_sectors. rewrite sector_spec by done. destruct (volume_geometry d) as (_ & _ & _ & ->). cbn [v_spc].
  replace (seqZ (cluster_start c) sectors_per_cluster) with (Z.add (cluster_start c) <$> seqZ 0 sectors_per_cluster)
    by (rewrite fmap_add_seqZ; f_equal; lia).
  by rewrite <- list_fmap_compose.
Qed.

Lemma chain_sectors_spec cs : Forall (λ c, 2 <= c < 65528) cs →
  chain_sectors d sec cs = sec <$> concat ((λ c, seqZ (cluster_start c) sectors_per_cluster) <$> cs) ∧
  concat (chain_sectors d sec cs) = concat (cluster_data <$> cs).
Proof using all_bytes.
  induction 1 as [|c cs Hc _ [IH1 IH2]]; [done|]. unfold chain_sectors in *. cbn [fmap list_fmap concat].
  rewrite sectors_spec by done. split; [by rewrite fmap_app, IH1|]. by rewrite concat_app, IH2.
Qed.

Lemma seed_entry_spec ls :
  seed_entry (sec <$> ls) = (λ e, (d_cluster e, d_size e)) <$>
    head (filter (λ e, Z.testbit (d_attr e) 3 = false ∧ d_name e = bytes_of (txt "ROOTFSSEED") ++ [0])
      (concat ((λ l, fat_entries 16 (sec l)) <$> ls))).
Proof using all_bytes all_sectors.
  induction ls as [|l ls IH]; [done|]. change (sec <$> l :: ls) with ([sec l] ++ (sec <$> ls)). rewrite seed_entry_app, IH.
  cbn [fmap list_fmap concat]. rewrite filter_app. unfold seed_entry. cbn [omap list_omap].
  rewrite (find_seed_spec 16 (sec l) (all_bytes l) 0) by (rewrite ?all_sectors; cbn; lia).
  change (drop (Z.to_nat (0 * 32)) (sec l)) with (sec l). by destruct (filter _ (fat_entries 16 (sec l))).
Qed.

Lemma entries_size n bs : Forall is_byte bs → Forall (λ e, 0 <= d_size e) (fat_entries n bs).
Proof using.
  revert bs. induction n as [|n IH]; intros bs Hb; [constructor|]. cbn [fat_entries]. destruct (_ =? 0); [constructor|].
  assert (Forall (λ e, 0 <= d_size e) (fat_entries n (drop 32 bs))) as Hr by by apply IH, Forall_drop.
  destruct (_ =? 229); [done|]. constructor; [|done]. cbn. by apply read_u32_w32.
Qed.

Lemma seed_volume_found limit fuel file : seed_volume limit fuel file → found_volume d sec limit fuel file.
Proof using all_bytes all_sectors.
  intros [Sb Sbps Sroot Sfat Sfi Sri (boot & seed & cs & fs & B1 & B2 & B3 & B4 & B5 & B6 & B7 & B8 & B9 & B10 & B11 & ->)].
  pose proof (volume_geometry d) as (G1 & G2 & G3 & G4). pose proof (chain_range _ _ _ B3) as R1. pose proof (chain_range _ _ _ B8) as R2.
  destruct (chain_sectors_spec cs R1) as [E1 _]. destruct (chain_sectors_spec fs R2) as [_ E2].
  destruct root_sectors_nonneg as [Hn _]. pose proof (w16_range (sec 0) 22 (all_bytes 0)) as Hf. fold sectors_per_fat in Hf.
  assert (0 <= d_size seed) as Hsize.
  { unfold seed_file_entry in B5. apply head_Some_elem_of in B5. apply list_elem_of_filter in B5 as [_ B5].
    assert (Forall (λ e, 0 <= d_size e) (concat ((λ l, fat_entries 16 (sec l)) <$>
      concat ((λ c, seqZ (cluster_start c) sectors_per_cluster) <$> cs)))) as HF.
    { apply Forall_concat, Forall_fmap, Forall_forall. intros l _. by apply entries_size. }
    exact (proj1 (Forall_forall _ _) HF _ B5). }
  assert (∀ cs', Forall (λ c, 2 <= c < 65528) cs' → Forall (λ c, cluster_start (c + 1) <= limit) cs' → Forall (cluster_in limit v) cs') as Hin.
  { intros cs' Hr Hl. apply Forall_forall. intros c Hc. rewrite Forall_forall in Hr, Hl. specialize (Hr c Hc). specialize (Hl c Hc).
    unfold cluster_in. rewrite sector_spec, G4 by done. cbn [v_spc]. unfold cluster_start in *. lia. }
  apply Forall_app in B10 as [L1 L2]. split.
  - apply all_bytes.
  - by rewrite read_u16_w16.
  - rewrite G1, u32_small by lia. done.
  - rewrite G3, u32_small by lia. done.
  - rewrite G1, G2. exact Sri.
  - rewrite G3, read_u16_w16 by done. exact Sfi.
  - rewrite boot_spec, B1. done.
  - exists cs, fs, (d_cluster seed), (d_size seed). split_and!.
    + rewrite boot_spec, B1. by apply clusters_spec.
    + by apply Hin.
    + rewrite E1, seed_entry_spec. unfold seed_file_entry in B5. by rewrite B5.
    + done.
    + done.
    + done.
    + by apply clusters_spec.
    + by apply Hin.
    + by rewrite E2.
    + by rewrite E2.
Qed.
End volume.

Lemma seed_file_bytes limit fuel file : seed_volume limit fuel file → Forall is_byte file.
Proof using all_bytes.
  intros [_ _ _ _ _ _ (boot & seed & cs & fs & _ & _ & _ & _ & _ & _ & _ & _ & _ & _ & _ & ->)].
  apply Forall_take, Forall_concat, Forall_fmap, Forall_forall. intros c _. apply region_bytes.
Qed.
End fat16.

(** C28: the seed file on a FAT16 volume.  When every sector can be read and
    the volume, read by its parameter block, its directory entries and its
    FAT, holds the seed file within the limits of the reader
    ([seed_volume]), loading it returns true, the file system is the old one
    with the directories of the [md] lines of the file made in order (a line
    is cut after 127 bytes), and the 32 KiB buffer keeps its size. *)
Theorem seed_applied {F} `{FS : FileSystem F} {H} `{HD : Disks H} usb ide usb_present ide_present d sec limit (good : H → Prop) fuel file f s :
  (∀ h l, good h → 0 <= l < limit → ∃ h', dk_read h d l 1 = (Some (sec l), h') ∧ good h') → 0 < limit <= 4294967296 →
  (∀ l, length (sec l) = 512%nat) → usb_present = true ∧ d = usb ∨ usb_present = false ∧ ide_present = true ∧ d = ide →
  seed_volume sec limit fuel file → good (e_hw s) → e_fs s = Some f → length (file_buf s) = Z.to_nat kFileBuf →
  ∃ s', try_load_rootfs_seed_from_esp usb ide usb_present ide_present fuel s = Some (true, s') ∧
    e_fs s' = Some (make_dirs f (omap md_path (seed_lines file))) ∧ length (file_buf s') = Z.to_nat kFileBuf.
Proof.
  intros Hr Hl Hs Hd Hv Hg Hf Hb. pose proof (sv_bytes _ _ _ _ Hv) as Hby.
  pose proof (seed_volume_found sec Hby Hs d _ _ _ Hv) as Hv'. pose proof (seed_file_bytes sec Hby _ _ _ Hv) as Hfile.
  pose proof (wp_load_seed usb ide d sec limit good Hr ltac:(lia) Hs usb_present ide_present fuel file f s Hg ltac:(lia) Hd Hv' Hf Hb) as Hw.
  unfold wp in Hw. unfold try_load_rootfs_seed_from_esp. destruct (load_seed _ _ _ _ _ _) as [[b| |] s']; [|done..].
  destruct Hw as (-> & Hfs & Hlen). exists s'. by rewrite Hfs, apply_seed_lines.
Qed.

(** ** A volume *)

Definition pad_to (bs : list Z) (n : nat) : list Z := bs ++ replicate (n - length bs) 0.
Definition demo_file : list Z := bytes_of (txt "md /a") ++ replicate 507 10 ++ bytes_of (txt "  # md /x") ++ [10] ++ bytes_of (txt "md  /b").
Definition demo_dir_entry (name : list Z) (attr c size : Z) : list Z := name ++ [attr] ++ replicate 14 0 ++ le16 c ++ le32 size.
Definition demo_sector (l : Z) : list Z :=
  match l with
  | 0 => pad_to ([235; 60; 144] ++ replicate 8 32 ++ le16 512 ++ [1] ++ le16 1 ++ [1] ++ le16 16 ++ le16 64 ++ [248] ++ le16 1) 512
  | 1 => pad_to (le16 65528 ++ le16 65535 ++ le16 65535 ++ le16 5 ++ le16 0 ++ le16 65535) 512
  | 2 => pad_to (demo_dir_entry (bytes_of (txt "BOOT       ")) 16 2 0) 512
  | 3 => pad_to (demo_dir_entry (bytes_of (txt "ROOTFSSEED") ++ [0]) 32 3 528) 512
  | 4 => take 512 demo_file
  | 6 => pad_to (drop 512 demo_file) 512
  | _ => replicate 512 0
  end.

Definition demo_volume_disk : Disks unit :=
  {| dk_read h d lba n := (Some (concat (demo_sector <$> seqZ lba n)), h);
     dk_write h d lba bs n := (false, h);
     dk_sector h d l := demo_sector l |}.

Lemma demo_seed_volume : seed_volume demo_sector 64 10 demo_file.
Proof.
  split; [|vm_compute; congruence..|].
  { intros l. unfold demo_sector. repeat (match goal with |- context [match ?x with _ => _ end] => destruct x end;
      try (by apply (bool_decide_unpack _); vm_compute)). }
  exists (mk_fat_entry (bytes_of (txt "BOOT       ")) 16 2 0), (mk_fat_entry (bytes_of (txt "ROOTFSSEED") ++ [0]) 32 3 528), [2], [3; 5].
  split; [vm_compute; reflexivity|]. split; [cbn; lia|]. split. { apply chain_next; [cbn; lia|]. replace (fat_link demo_sector _) with 65535 by (vm_compute; reflexivity). apply chain_end. lia. }
  split; [cbn; lia|]. split; [vm_compute; reflexivity|]. split; [cbn; lia|]. split; [cbn; lia|].
  split. { apply chain_next; [cbn; lia|]. replace (fat_link demo_sector _) with 5 by (vm_compute; reflexivity).
    apply chain_next; [lia|]. replace (fat_link demo_sector _) with 65535 by (vm_compute; reflexivity). apply chain_end. lia. }
  split; [cbn; lia|]. split; [by apply (bool_decide_unpack _); vm_compute|].
  split; [apply Z.leb_le; vm_compute; reflexivity|vm_compute; reflexivity].
Qed.

Definition demo_efifs : @efifs ramfs unit := mk_efifs (mk_serial false []) tt (Some RamFs_new) (replicate 32768 0).

Lemma seed_applied_witness :
  ∃ s', @try_load_rootfs_seed_from_esp ramfs (ramfs_fs (λ _, None)) unit demo_volume_disk 0 1 true false 10 demo_efifs = Some (true, s') ∧
    e_fs s' = Some (@make_dirs ramfs (ramfs_fs (λ _, None)) RamFs_new [txt "/a"; txt "/b"]).
Proof.
  destruct (@seed_applied ramfs (ramfs_fs (λ _, None)) unit demo_volume_disk 0 1 true false 0 demo_sector 64 (λ _, True) 10 demo_file RamFs_new demo_efifs)
    as (s' & H1 & H2 & _).
  - intros [] l _ _. exists tt. split; [|exact I]. cbn [dk_read demo_volume_disk]. rewrite seqZ_cons by lia. cbn. by rewrite app_nil_r.
  - lia.
  - intros l. unfold demo_sector. repeat (match goal with |- context [match ?x with _ => _ end] => destruct x end; try reflexivity).
  - by left.
  - apply demo_seed_volume.
  - exact I.
  - reflexivity.
  - apply length_replicate.
  - exists s'. split; [exact H1|]. rewrite H2. reflexivity.
Defined.
