(* ===== verification/EfiBoot.v ===== *)
(** * The built disk and the seed loader

    [efifs.cpp] reads sector 0 as the boot sector of a FAT volume; on a disk
    built with the kernels that sector is the partition table. *)

From S2P Require Import Prelude Memory CText ToolText Serial Vfs RamFs Bytes EfiImage EfiImageSpec EfiDisk Block EfiBlocks Efifs EfifsSpec.

Lemma mbr_bytes_per_sector count : read_u16 (mbr_sector boot_part (persist_part count)) 11 = 0.
Proof.
  unfold mbr_sector, write_partition, write_le32, persist_part. cbn [startSector sectorCount boot_part]. generalize (le32 (u32 count)). intros w.
  unfold read_u16, zget. vm_compute. reflexivity.
Qed.

Section seed.
Context {F : Type} `{FS : FileSystem F} {H : Type} `{HD : Disks H}.

Lemma bind_value {A B} (m : @M F H A) (f : A → @M F H B) s a s1 : m s = (Value a, s1) → (m ≫= f) s = f a s1.
Proof using. intros E. unfold mbind, M_bind. by rewrite E. Qed.

Lemma report_value sector (s : @efifs F H) : ∃ s1, report sector s = (Value tt, s1) ∧ e_fs s1 = e_fs s.
Proof using.
  assert (wp (report sector) (λ _ s', same (λ _, True) s s') s) as Hrep by (apply (wp_report (λ _, True)); [exact I|done]).
  revert Hrep. unfold wp. generalize (report sector s). intros [[[]| |] s2]; [|done..]. intros (Hfs & _). by exists s2.
Qed.

(** A first sector without 512 bytes per sector. *)
Lemma sector_rejected usb ide ide_present fuel sector (s : @efifs F H) h' :
  dk_read (e_hw s) usb 0 1 = (Some sector, h') → read_u16 sector 11 ≠ 512 →
  ∃ s', try_load_rootfs_seed_from_esp usb ide true ide_present fuel s = Some (false, s') ∧ e_fs s' = e_fs s.
Proof using.
  intros Hr Hw. apply Z.eqb_neq in Hw. unfold try_load_rootfs_seed_from_esp, load_seed.
  assert (first_sector usb ide true ide_present s = (Value (usb, sector), mk_efifs (e_console s) h' (e_fs s) (file_buf s))) as Hf.
  { unfold first_sector, mbind, M_bind, mret, M_ret, read_sector. rewrite (u32_small 0 ltac:(lia)). by rewrite Hr. }
  rewrite (bind_value _ _ _ _ _ Hf). destruct (report_value sector (mk_efifs (e_console s) h' (e_fs s) (file_buf s))) as (s2 & E2 & Hfs).
  rewrite (bind_value _ _ _ _ _ E2). rewrite Hw. cbn [negb].
  unfold fail. assert (∃ s3, say_line "[efifs]: unsupported bytes/sector (only 512)" s2 = (Value tt, s3) ∧ e_fs s3 = e_fs s2) as (s3 & E3 & H3).
  { unfold say_line, run_serial. eexists. split; [reflexivity|]. reflexivity. }
  rewrite (bind_value _ _ _ _ _ E3). unfold return_false. exists s3. split; [reflexivity|]. rewrite H3. exact Hfs.
Qed.

(** The seed loader gives up on the built disk and leaves the file system. *)
Lemma built_disk_seed_missed usb ide ide_present fuel count (s : @efifs F H) h' :
  dk_read (e_hw s) usb 0 1 = (Some (mbr_sector boot_part (persist_part count)), h') →
  ∃ s', try_load_rootfs_seed_from_esp usb ide true ide_present fuel s = Some (false, s') ∧ e_fs s' = e_fs s.
Proof. intros Hr. eapply sector_rejected; [exact Hr|]. by rewrite mbr_bytes_per_sector. Qed.
End seed.
