(* ===== verification/Console.v ===== *)
(** * Text and paths of the 64-bit console ([kernel/kmain64.cpp])

    The alias table of the commands, the paths relative to the working
    directory, the words of a line, the lines of a seed file and the bump
    allocator.  A [char] array is the text it holds; a function that fills one
    and returns [bool] gives both. *)

From S2P Require Import Prelude CText Vfs RamFs RamFsSpec Snapshot Efifs.

Definition kMaxLine : Z := 128.
Definition kMaxArgs : nat := 8.

(** ** Command names *)

Record CommandAlias := mk_alias { al_name : text; al_base : text; variant_limit : Z }.

Definition family (base : string) (limit : Z) (names : list string) : list CommandAlias := (λ n, mk_alias (txt n) (txt base) limit) <$> names.

Definition kCommandAliases : list CommandAlias :=
  family "clear" 49 ["clear"; "cls"; "reset"; "clean"; "wipe"; "screen"]%string ++
  family "ld" 199 ["ld"; "ls"; "dir"; "ll"; "la"; "l"; "list"; "listdir"; "contents"; "browse"; "showdir"; "showfiles"; "list-directory"]%string ++
  family "md" 199 ["md"; "mk"; "makedir"; "newdir"; "createdir"; "create-dir"]%string ++
  family "cd" 99 ["cd"; "chdir"; "changedir"; "goto"]%string ++
  family "pwd" 49 ["pwd"; "cwd"; "whereami"; "here"]%string ++
  family "help" 49 ["help"; "?"; "h"; "commands"; "cmds"; "apropos"; "usage"]%string ++
  ((λ n, mk_alias (txt n) (txt n) 0) <$>
    ["reboot"; "poweroff"; "lsdisk"; "lscpu"; "lspci"; "tree"; "cp"; "mv"; "rm"; "rd"; "cat"; "touch"; "stat"]%string).

Definition is_digit (c : ascii) : bool := (48 <=? byte_of c) && (byte_of c <=? 57).

(** The digits after the base of a numbered command. *)
Fixpoint variant_suffix (max_variant : Z) (suffix : text) (value digits : Z) : bool :=
  match suffix with
  | c :: suffix' =>
      if is_digit c then
        let value := value *u 10 +u (byte_of c - 48) in
        if max_variant <? value then false else variant_suffix max_variant suffix' value (digits + 1)
      else false
  | [] => 0 <? digits
  end.

Definition matches_numbered_alias (command base : text) (max_variant : Z) : bool :=
  if text_equal command base then true
  else if negb (text_starts_with command base) then false
  else
    match drop (length base) command with
    | [] => true
    | suffix => variant_suffix max_variant suffix 0 0
    end.

Definition alias_matches (name : text) (a : CommandAlias) : bool :=
  text_equal name (al_name a) || text_starts_with name (al_base a) && matches_numbered_alias name (al_base a) (variant_limit a).

Definition canonical_command_name (name : text) : option text := al_name <$> find (alias_matches name) kCommandAliases.

(** ** Paths *)

Fixpoint basename_from (path last : text) : text :=
  match path with
  | [] => last
  | c :: path' => if Ascii.eqb c slash then basename_from path' path' else basename_from path' last
  end.

Definition basename_of (path : text) : text := basename_from path path.

Definition home : text := txt "/home/root".

(** [copy_text(out, head)], a slash, and [copy_text] of the tail after it;
    false when there is no room for the slash. *)
Definition append_to (head input : text) (out_size : Z) : bool * text :=
  let out := copy_text head out_size in
  let len := text_len out in
  if out_size <=? len + 1 then (false, out) else (true, out ++ [slash] ++ copy_text input (out_size - len - 1)).

Definition resolve_special_path_prefix (cwd input : text) (out_size : Z) : bool * text :=
  match input with
  | "~"%char :: [] => (true, copy_text home out_size)
  | "~"%char :: "/"%char :: rest => append_to home rest out_size
  | "/"%char :: _ => (true, copy_text input out_size)
  | _ =>
      if text_equal cwd [slash] then
        let out := copy_text [slash] out_size in
        let len := text_len out in
        match input with
        | [] => (true, out)
        | _ => if len + 1 <? out_size then (true, out ++ [slash] ++ copy_text input (out_size - len - 1)) else (true, out)
        end
      else append_to cwd input out_size
  end.

Definition kMaxParts : Z := 8.
Definition kPartSize : Z := 32.

(** A finished token against the parts so far. *)
Definition push_token (parts : list text) (token : text) : list text :=
  if 0 <? text_len token then
    if text_equal token (txt ".") then parts
    else if text_equal token (txt "..") then take (length parts - 1) parts
    else if Z.of_nat (length parts) <? kMaxParts then parts ++ [copy_text token kPartSize] else parts
  else parts.

Fixpoint parse_parts (path token : text) (parts : list text) : list text :=
  match path with
  | [] => push_token parts token
  | c :: path' =>
      if Ascii.eqb c slash then parse_parts path' [] (push_token parts token)
      else parse_parts path' (if text_len token + 1 <? kPartSize then token ++ [c] else token) parts
  end.

(** Writing the parts back; a slash goes before a part unless one is there. *)
Fixpoint write_parts (parts : list text) (out : text) (path_size : Z) : text :=
  match parts with
  | [] => out
  | part :: parts' =>
      if text_len out + 1 <? path_size then
        let out := match last out with Some c => if Ascii.eqb c slash then out else out ++ [slash] | None => out end in
        write_parts parts' (out ++ take (Z.to_nat (path_size - 1 - text_len out)) part) path_size
      else out
  end.

Definition normalize_path (path : text) (path_size : Z) : bool * text :=
  match path with
  | [] => (false, [])
  | c :: _ =>
      let absolute := Ascii.eqb c slash in
      let out := write_parts (parse_parts path [] []) (if absolute then [slash] else []) path_size in
      (true, match out with [] => [if absolute then slash else "."%char] | _ => out end)
  end.

Definition resolve_path (cwd input : text) (out_size : Z) : bool * text :=
  match resolve_special_path_prefix cwd input out_size with
  | (false, out) => (false, out)
  | (true, out) => normalize_path out out_size
  end.

Fixpoint last_slash (path : text) (i : Z) (last : Z) : Z :=
  match path with
  | [] => last
  | c :: path' => last_slash path' (i + 1) (if Ascii.eqb c slash then i else last)
  end.

Definition get_parent_path (path : text) (parent_size : Z) : option text :=
  if text_equal path [slash] then Some (copy_text [slash] parent_size)
  else if (text_len path =? 0) || (parent_size <=? text_len path) then None
  else
    let l := last_slash path 0 (-1) in
    if l <=? 0 then Some (copy_text [slash] parent_size) else Some (take (Z.to_nat l) path).

Definition normalize_special_path (path : text) (path_size : Z) : text :=
  if text_equal path (txt "/root") then copy_text (txt "/root") path_size
  else if text_equal path (txt "/user") then copy_text (txt "/usr") path_size
  else if text_equal path (txt "/temp") then copy_text (txt "/tmp") path_size
  else path.

(** From the next slash on. *)
Fixpoint skip_part (t : text) : text :=
  match t with
  | c :: t' => if Ascii.eqb c slash then t else skip_part t'
  | [] => []
  end.

Definition format_prompt_path (cwd : text) (out_size : Z) : text :=
  if text_equal cwd (txt "/home") then normalize_special_path (copy_text (txt "~") out_size) out_size
  else if text_starts_with cwd (txt "/home/") then
    match skip_part (drop 6 cwd) with
    | [] => normalize_special_path (copy_text (txt "~") out_size) out_size
    | rest => normalize_special_path ("~"%char :: take (Z.to_nat (out_size - 2)) rest) out_size
    end
  else copy_text cwd out_size.

(** ** Words of a line *)

Fixpoint split_args (max_args : nat) (line : text) : list text :=
  match max_args with
  | O => []
  | S n =>
      match skip_blanks line with
      | [] => []
      | t => let '(w, rest) := split_word t in w :: split_args n rest
      end
  end.

(** ** Seed lines *)

Section seed.
Context {F : Type} `{FS : FileSystem F}.

Definition apply_rootfs_seed_line (f : F) (line : list Z) : F :=
  match skip_blanks (text_of line) with
  | [] => f
  | c :: t =>
      if Ascii.eqb c "#"%char then f
      else
        let '(command, rest) := split_word (c :: t) in
        match skip_blanks rest with
        | [] => f
        | arg => if text_equal command (txt "md") then (fs_md f arg).2 else f
        end
  end.

Definition seed_step (st : F * list Z) (c : Z) : F * list Z :=
  let '(f, line) := st in
  if (c =? 10) || (c =? 13) then
    if 0 <? Z.of_nat (length line) then (apply_rootfs_seed_line f line, []) else st
  else if Z.of_nat (length line) + 1 <? 96 then (f, line ++ [c]) else st.

Definition load_rootfs_seed (f : F) (data : list Z) : F :=
  let '(f, line) := fold_left seed_step data (f, []) in
  if 0 <? Z.of_nat (length line) then apply_rootfs_seed_line f line else f.
End seed.

(** ** The bump allocator *)

Definition kKernelHeapSize : Z := 1048576.

(** [kernel_alloc]: the offset in the heap and the new fill level. *)
Definition kernel_alloc (used size alignment : Z) : option (Z * Z) :=
  if size =? 0 then None
  else
    let alignment := if alignment =? 0 then 1 else alignment in
    let mask := u64 (alignment - 1) in
    let aligned := Z.land (u64 (used + mask)) (u64 (Z.lnot mask)) in
    if kKernelHeapSize <? u64 (aligned + size) then None else Some (aligned, u64 (aligned + size)).
