(* ===== verification/ConsoleCmds.v ===== *)
(** * Commands of the 64-bit console ([kernel/kmain64.cpp])

    The command table, the commands over the file system interface and their
    dispatch.  What the processor and the PCI bus report is a parameter, and so
    is saving a snapshot, which [Snapshot] models.  Characters typed are a
    list; waiting for more of them is a result. *)

From S2P Require Import Prelude CText Serial Vfs RamFs RamFsSpec Snapshot Efifs Console.

Inductive handler := cmd_echo | cmd_exit | cmd_apt | cmd_nano | cmd_sync | cmd_stub.

Section commands.
Context {F : Type} `{FS : FileSystem F} {St : Type}.
(** [storage_ready] and [storage_snapshot_save("rootfs")]. *)
Context (store_ready : St → bool) (store_save : St → option F → outcome (St * option F)).
(** The lines of [show_lscpu] and [show_lspci]. *)
Context (cpu_report pci_report : list text).

Record console := mk_console {
  tx_log : serial;
  g_fs : option F;
  store : St;
  cwd : text;                        (** 32 bytes *)
  g_kernel_heap_used : Z;
  g_cmd_table : list (text * handler);
  typed : list Z;
}.

(** A command returns, stops the machine, waits for a character that is not
    typed, or does something undefined. *)
Inductive res (A : Type) := Next (a : A) (c : console) | Halted (c : console) | Waiting (c : console) | Stuck.
Arguments Next {A} a c. Arguments Halted {A} c. Arguments Waiting {A} c. Arguments Stuck {A}.

Definition C (A : Type) : Type := console → res A.
#[export] Instance C_ret : MRet C := λ A a c, Next a c.
#[export] Instance C_bind : MBind C := λ A B f m c,
  match m c with Next a c => f a c | Halted c => Halted c | Waiting c => Waiting c | Stuck => Stuck end.

Definition with_tx (f : serial → serial) : C unit := λ c,
  Next tt (mk_console (f (tx_log c)) (g_fs c) (store c) (cwd c) (g_kernel_heap_used c) (g_cmd_table c) (typed c)).
Definition out (t : text) : C unit := with_tx (λ s, Serial.write s (Some t)).
Definition say (s : string) : C unit := out (txt s).
Definition newline : text := ["010"%char].
Definition say_line (s : string) : C unit := out (txt s ++ newline).
Definition out_char (b : Z) : C unit := with_tx (λ s, write_char s b).

Definition asks {A} (f : console → A) : C A := λ c, Next (f c) c.
Definition set_fs (f : F) : C unit := λ c,
  Next tt (mk_console (tx_log c) (Some f) (store c) (cwd c) (g_kernel_heap_used c) (g_cmd_table c) (typed c)).
Definition set_cwd (t : text) : C unit := λ c,
  Next tt (mk_console (tx_log c) (g_fs c) (store c) t (g_kernel_heap_used c) (g_cmd_table c) (typed c)).
Definition halt {A} : C A := λ c, Halted c.

(** A call through [g_fs]; null is undefined. *)
Definition on_fs {A} (op : F → A * F) : C A := λ c,
  match g_fs c with
  | None => Stuck
  | Some f => let '(a, f) := op f in (set_fs f ;; mret a) c
  end.

Definition fs_open_ (path : text) (flags : Z) : C Z := on_fs (λ f, fs_open f path flags).
Definition fs_read_ (fd n : Z) : C (Z * list Z) := on_fs (λ f, let '(r, bs, f) := fs_read f fd n in ((r, bs), f)).
Definition fs_close_ (fd : Z) : C Z := on_fs (λ f, fs_close f fd).
Definition fs_unlink_ (path : text) : C Z := on_fs (λ f, fs_unlink f path).
Definition fs_rd_ (path : text) : C Z := on_fs (λ f, fs_rd f path).
Definition fs_md_ (path : text) : C Z := on_fs (λ f, fs_md f path).
Definition fs_readdir_ (path : text) (room : Z) : C (Z * list DirEntry) :=
  on_fs (λ f, let '(r, es, f) := fs_readdir f path room in ((r, es), f)).
Definition fs_write_ (fd : Z) (bs : list Z) : C Z := λ c,
  match g_fs c with
  | None => Stuck
  | Some f => match fs_write f fd (Some bs) with Done (r, f) => (set_fs f ;; mret r) c | _ => Stuck end
  end.

Definition filesystem_ready : C bool := asks (λ c, match g_fs c with Some _ => true | None => false end).

Definition directory_exists (path : text) : C bool :=
  ready ← filesystem_ready;
  if negb ready then mret false else '(n, _) ← fs_readdir_ path 1; mret (0 <=? n).

(** ** Files *)

Definition kOpenReplace : Z := Z.lor (Z.lor kOpenWrite kOpenCreate) kOpenTruncate.

Definition close_both (in_fd out_fd : Z) : C unit := fs_close_ in_fd ;; fs_close_ out_fd ;; mret tt.

Fixpoint copy_loop (fuel : nat) (in_fd out_fd : Z) : C bool :=
  match fuel with
  | O => λ _, Stuck
  | S fuel' =>
      '(n, bs) ← fs_read_ in_fd 256;
      if n <? 0 then say_line "cp: read error" ;; close_both in_fd out_fd ;; mret false
      else if n =? 0 then close_both in_fd out_fd ;; mret true
      else
        w ← fs_write_ out_fd bs;
        if w <? 0 then say_line "cp: write error" ;; close_both in_fd out_fd ;; mret false
        else copy_loop fuel' in_fd out_fd
  end.

Definition fs_copy_file (fuel : nat) (src dst : text) : C bool :=
  ready ← filesystem_ready;
  if negb ready then say_line "fs unavailable" ;; mret false
  else
    in_fd ← fs_open_ src kOpenRead;
    if in_fd <? 0 then say_line "cp: source not found" ;; mret false
    else
      out_fd ← fs_open_ dst kOpenReplace;
      if out_fd <? 0 then say_line "cp: cannot create destination" ;; fs_close_ in_fd ;; mret false
      else copy_loop fuel in_fd out_fd.

Definition fs_move_file (fuel : nat) (src dst : text) : C bool :=
  ok ← fs_copy_file fuel src dst;
  if negb ok then mret false
  else
    r ← fs_unlink_ src;
    if r =? 0 then mret true else say_line "mv: could not remove source after copy" ;; mret false.

Definition fs_remove_path (path : text) : C bool :=
  ready ← filesystem_ready;
  if negb ready then say_line "fs unavailable" ;; mret false
  else
    r ← fs_unlink_ path;
    if r =? 0 then mret true
    else r ← fs_rd_ path; mret (r =? 0).

(** The text in a buffer of bytes goes up to its first NUL. *)
Fixpoint print_loop (fuel : nat) (fd : Z) : C unit :=
  match fuel with
  | O => λ _, Stuck
  | S fuel' =>
      '(n, bs) ← fs_read_ fd 128;
      if n <? 0 then say_line "cat: read error"
      else if n =? 0 then mret tt
      else out (text_of bs) ;; print_loop fuel' fd
  end.

Definition print_file (fuel : nat) (path : text) : C unit :=
  ready ← filesystem_ready;
  if negb ready then say_line "fs unavailable"
  else
    fd ← fs_open_ path kOpenRead;
    if fd <? 0 then say_line "cat: file not found"
    else print_loop fuel fd ;; fs_close_ fd ;; mret tt.

(** ** Directories *)

(** [child] of 128 bytes. *)
Definition tree_child (path name : text) : text :=
  if text_equal path [slash] then slash :: take 126 name
  else
    let child := take 126 path in
    let child := if text_len child + 2 <? 128 then child ++ [slash] else child in
    child ++ take (Z.to_nat (127 - text_len child)) name.

Definition repeat_out (n : nat) (t : text) : C unit := foldr (λ _ k, out t ;; k) (mret tt) (seq 0 n).

Definition print_entry (e : DirEntry) (depth : nat) : C unit :=
  repeat_out depth (txt "  ") ;; out (de_name e) ;; (if de_is_directory e then say_line "/" else say_line "").

Fixpoint print_tree_recursive (fuel : nat) (path : text) (depth : nat) : C unit :=
  match fuel with
  | O => λ _, Stuck
  | S fuel' =>
      ready ← filesystem_ready;
      if negb ready then mret tt
      else
        '(count, entries) ← fs_readdir_ path 32;
        if count <? 0 then mret tt
        else
          foldr (λ e k,
            print_entry e depth ;;
            (if de_is_directory e then print_tree_recursive fuel' (tree_child path (de_name e)) (S depth) else mret tt) ;;
            k) (mret tt) (take (Z.to_nat count) entries)
  end.

Definition print_directory_listing (path : text) : C unit :=
  ready ← filesystem_ready;
  if negb ready then say_line "fs unavailable"
  else
    '(count, entries) ← fs_readdir_ path 32;
    if count <? 0 then say_line "ld: directory not found"
    else if count =? 0 then say_line ""
    else foldr (λ e k, out (de_name e) ;; say_line "" ;; k) (mret tt) (take (Z.to_nat count) entries).

(** ** Registered commands *)

Definition table_lookup (table : list (text * handler)) (name : text) : option handler :=
  snd <$> find (λ e, text_equal (fst e) name) table.

Fixpoint table_update (table : list (text * handler)) (name : text) (h : handler) : option (list (text * handler)) :=
  match table with
  | [] => None
  | (n, x) :: table' => if text_equal n name then Some ((n, h) :: table') else cons (n, x) <$> table_update table' name h
  end.

Definition register_command (table : list (text * handler)) (name : text) (h : handler) : bool * list (text * handler) :=
  match table_update table name h with
  | Some t => (true, t)
  | None => if 1024 <=? Z.of_nat (length table) then (false, table) else (true, table ++ [(copy_text name 32, h)])
  end.

Definition stub_name (i : Z) : text :=
  txt "cmd" ++ [ascii_of_nat (Z.to_nat (48 + i / 100)); ascii_of_nat (Z.to_nat (48 + i / 10 mod 10)); ascii_of_nat (Z.to_nat (48 + i mod 10))].

Definition register_default_commands (table : list (text * handler)) : list (text * handler) :=
  fold_left (λ t '(name, h), (register_command t name h).2)
    ([(txt "echo", cmd_echo); (txt "exit", cmd_exit); (txt "apt", cmd_apt); (txt "nano", cmd_nano); (txt "sync", cmd_sync)] ++
     ((λ i, (stub_name i, cmd_stub)) <$> seqZ 0 300)) table.

Definition find_registered_command (table : list (text * handler)) (name : text) : option handler :=
  match table_lookup table name with
  | Some h => Some h
  | None =>
      match canonical_command_name name with
      | Some canon => if text_equal canon name then None else table_lookup table canon
      | None => None
      end
  end.

(** ** Handlers *)

Definition persist : C unit := λ c,
  match store_save (store c) (g_fs c) with
  | Done (st, f) => Next tt (mk_console (tx_log c) f st (cwd c) (g_kernel_heap_used c) (g_cmd_table c) (typed c))
  | _ => Stuck
  end.

Definition run_echo (args : list text) : C unit :=
  (fix go (args : list text) := match args with
   | [] => mret tt
   | [a] => out a
   | a :: args => out a ;; say " " ;; go args
   end) (tail args) ;; say_line "".

Definition run_sync : C unit :=
  ready ← asks (λ c, store_ready (store c));
  if ready : bool then say_line "sync: persisting rootfs..." ;; persist else say_line "sync: no storage available".

Definition run_exit : C unit :=
  ready ← asks (λ c, store_ready (store c));
  (if ready : bool then say_line "persisting rootfs..." ;; persist else mret tt) ;; say_line "exiting shell" ;; halt.

Definition run_apt (args : list text) : C unit :=
  match args with
  | _ :: sub :: rest =>
      if text_equal sub (txt "install") then
        match rest with
        | [] => say_line "apt: install <pkg>"
        | p :: _ => say "apt: simulated install: " ;; out p ;; say_line ""
        end
      else if text_equal sub (txt "remove") then
        match rest with
        | [] => say_line "apt: remove <pkg>"
        | p :: _ => say "apt: simulated remove: " ;; out p ;; say_line ""
        end
      else if text_equal sub (txt "list") then say_line "apt: simulated package list (none)"
      else say_line "apt: unknown subcommand"
  | _ => say_line "apt: usage: apt <install|remove|list> [pkg]"
  end.

Definition run_stub (args : list text) : C unit :=
  match args with [] => mret tt | a :: _ => out a ;; say_line ": stub (not implemented)" end.

(** *** The editor *)

(** The next character typed, on the serial line or the keyboard. *)
Definition next_char : C Z := λ c,
  match typed c with
  | [] => Waiting c
  | b :: bs => Next b (mk_console (tx_log c) (g_fs c) (store c) (cwd c) (g_kernel_heap_used c) (g_cmd_table c) bs)
  end.

Definition kEditBuf : Z := 4096.
Definition kEditLine : Z := 256.
Definition erase : text := ["008"%char; " "%char; "008"%char].

(** A line goes to the buffer as far as it fits. *)
Definition add_line (buffer line : list Z) : list Z :=
  let buffer := buffer ++ take (Z.to_nat (kEditBuf - 1 - Z.of_nat (length buffer))) line in
  if Z.of_nat (length buffer) + 1 <? kEditBuf then buffer ++ [10] else buffer.

Fixpoint nano_loop (fuel : nat) (buffer line : list Z) : C (list Z) :=
  match fuel with
  | O => λ _, Stuck
  | S fuel' =>
      b ← next_char;
      if (b =? 13) || (b =? 10) then
        out newline ;;
        if bool_decide (line = [46]) then mret buffer else nano_loop fuel' (add_line buffer line) []
      else if (b =? 8) || (b =? 127) then
        if 0 <? Z.of_nat (length line) then out erase ;; nano_loop fuel' buffer (take (length line - 1) line)
        else nano_loop fuel' buffer line
      else if (b <? 32) || (126 <? b) then nano_loop fuel' buffer line
      else if Z.of_nat (length line) + 1 <? kEditLine then out_char b ;; nano_loop fuel' buffer (line ++ [b])
      else nano_loop fuel' buffer line
  end.

Fixpoint show_loop (fuel : nat) (fd : Z) : C unit :=
  match fuel with
  | O => λ _, Stuck
  | S fuel' =>
      '(n, bs) ← fs_read_ fd 128;
      if n <=? 0 then mret tt else out (text_of bs) ;; show_loop fuel' fd
  end.

Definition alloc_edit_buffer : C bool := λ c,
  match kernel_alloc (g_kernel_heap_used c) kEditBuf 16 with
  | None => Next false c
  | Some (_, used) => Next true (mk_console (tx_log c) (g_fs c) (store c) (cwd c) used (g_cmd_table c) (typed c))
  end.

Definition run_nano (fuel : nat) (args : list text) : C unit :=
  match args with
  | _ :: file :: _ =>
      cwd ← asks cwd;
      let path := (resolve_path cwd file 64).2 in
      ready ← filesystem_ready;
      (if ready : bool then
         fd ← fs_open_ path kOpenRead;
         if 0 <=? fd then show_loop fuel fd ;; fs_close_ fd ;; out (newline ++ txt "--- end of file ---" ++ newline) else mret tt
       else mret tt) ;;
      say_line "[nano] enter lines, '.' on its own line to save" ;;
      ok ← alloc_edit_buffer;
      if negb ok then say_line "nano: out of memory"
      else
        buffer ← nano_loop fuel [] [];
        ready ← filesystem_ready;
        fd ← (if ready : bool then fs_open_ path kOpenReplace else mret (-1));
        if 0 <=? fd then
          (if 0 <? Z.of_nat (length buffer) then fs_write_ fd buffer ;; mret tt else mret tt) ;; fs_close_ fd ;; say_line "nano: saved"
        else say_line "nano: failed to save"
  | _ => say_line "nano: usage: nano <file>"
  end.

Definition run_handler (fuel : nat) (h : handler) (args : list text) : C unit :=
  match h with
  | cmd_echo => run_echo args
  | cmd_exit => run_exit
  | cmd_apt => run_apt args
  | cmd_nano => run_nano fuel args
  | cmd_sync => run_sync
  | cmd_stub => run_stub args
  end.

(** ** [execute_command] *)

Definition named (name : option text) (names : list string) : bool :=
  match name with Some n => existsb (λ s, text_equal n (txt s)) names | None => false end.

(** A command that needs arguments, or its usage. *)
Definition with_arg (args : list text) (usage : string) (k : text → C unit) : C unit :=
  match args with _ :: a :: _ => k a | _ => say_line usage end.
Definition with_args2 (args : list text) (usage : string) (k : text → text → C unit) : C unit :=
  match args with _ :: a :: b :: _ => k a b | _ => say_line usage end.

Definition resolved (input : text) (size : Z) : C text := cwd ← asks cwd; mret (resolve_path cwd input size).2.

(** [final_dst]: the name of the source below a directory. *)
Definition into_directory (dst src : text) : text :=
  let d := take 126 dst in
  let d := match last d with Some c => if Ascii.eqb c slash then d else d ++ [slash] | None => d ++ [slash] end in
  d ++ take (Z.to_nat (127 - text_len d)) (basename_of src).

Definition exec_cd (args : list text) : C unit :=
  match args with
  | _ :: a :: _ =>
      r ← resolved a 32;
      ok ← match r with [] => mret false | _ => directory_exists r end;
      if ok : bool then set_cwd (copy_text r 32) else say_line "cd: directory not found"
  | _ => set_cwd (copy_text (txt "/home") 32)
  end.

Definition exec_ld (args : list text) : C unit :=
  path ← match args with _ :: a :: _ => resolved a 32 | _ => cwd ← asks cwd; mret (copy_text cwd 32) end;
  ok ← directory_exists path;
  if ok : bool then print_directory_listing path else say_line "ld: directory not found".

Definition exec_md (a : text) : C unit :=
  path ← resolved a 32;
  match path with
  | [] => say_line "md: invalid path"
  | _ =>
      ready ← filesystem_ready;
      done ← (if ready : bool then r ← fs_md_ path; mret (r =? 0) else mret false);
      if done : bool then mret tt
      else
        ok ← directory_exists path;
        if ok : bool then say_line "md: directory already exists" else say_line "md: could not create directory"
  end.

Definition persist_and_stop (message : string) : C unit :=
  say_line message ;;
  ready ← asks (λ c, store_ready (store c));
  (if ready : bool then say_line "persisting rootfs..." ;; persist else mret tt) ;; halt.

Definition exec_tree (fuel : nat) (args : list text) : C unit :=
  path ← match args with _ :: a :: _ => resolved a 64 | _ => cwd ← asks cwd; mret (copy_text cwd 64) end;
  out path ;; say_line "" ;; print_tree_recursive fuel path 0.

Definition exec_cp (fuel : nat) (a b : text) : C unit :=
  src ← resolved a 64;
  dst ← resolved b 64;
  if text_equal dst [slash] then say_line "cp: invalid destination"
  else
    dir ← directory_exists dst;
    ok ← fs_copy_file fuel src (if dir : bool then into_directory dst src else dst);
    if ok : bool then mret tt else say_line "cp: failed".

Definition exec_mv (fuel : nat) (a b : text) : C unit :=
  src ← resolved a 64;
  dst ← resolved b 64;
  dir ← directory_exists dst;
  ok ← fs_move_file fuel src (if dir : bool then into_directory dst src else dst);
  if ok : bool then mret tt else say_line "mv: failed".

Definition exec_rm (a : text) : C unit :=
  path ← resolved a 64; ok ← fs_remove_path path; if ok : bool then mret tt else say_line "rm: failed".

Definition exec_rd (a : text) : C unit :=
  path ← resolved a 64; r ← fs_rd_ path; if r =? 0 then mret tt else say_line "rd: failed".

Definition exec_cat (fuel : nat) (a : text) : C unit := path ← resolved a 64; print_file fuel path ;; say_line "".

Definition exec_touch (a : text) : C unit :=
  path ← resolved a 64;
  fd ← fs_open_ path (Z.lor kOpenWrite kOpenCreate);
  if fd <? 0 then say_line "touch: failed" else fs_close_ fd ;; mret tt.

Definition exec_stat (a : text) : C unit :=
  path ← resolved a 64;
  dir ← directory_exists path;
  if dir : bool then say_line "directory"
  else
    fd ← fs_open_ path kOpenRead;
    if 0 <=? fd then say_line "file" ;; fs_close_ fd ;; mret tt else say_line "not found".

Definition clear_screen : text := ["027"%char] ++ txt "[2J" ++ ["027"%char] ++ txt "[H".

Definition out_lines (ts : list text) : C unit := foldr (λ t k, out t ;; k) (mret tt) ts.

Definition execute_command (fuel : nat) (args : list text) : C unit :=
  match args with
  | [] => mret tt
  | arg0 :: _ =>
      table ← asks g_cmd_table;
      match find_registered_command table arg0 with
      | Some h => run_handler fuel h args
      | None =>
          let name := canonical_command_name arg0 in
          if named name ["clear"; "cls"; "reset"; "clean"; "wipe"; "screen"]%string then out clear_screen
          else if named name ["pwd"; "cwd"; "whereami"; "here"]%string then cwd ← asks cwd; out cwd ;; say_line ""
          else if named name ["cd"; "chdir"; "changedir"; "goto"]%string then exec_cd args
          else if named name ["ld"; "ls"; "dir"; "ll"; "la"; "l"; "list"; "listdir"; "contents"; "browse"; "showdir"; "showfiles"; "list-directory"]%string
          then exec_ld args
          else if named name ["md"; "mk"; "makedir"; "newdir"; "createdir"; "create-dir"]%string then with_arg args "md <dir>" exec_md
          else if named name ["reboot"]%string then persist_and_stop "rebooting..."
          else if named name ["poweroff"]%string then persist_and_stop "powering off..."
          else if named name ["lsblk"]%string then out_lines pci_report
          else if named name ["lscpu"]%string then out_lines cpu_report
          else if named name ["lspci"]%string then out_lines pci_report
          else if named name ["tree"]%string then exec_tree fuel args
          else if named name ["cp"]%string then with_args2 args "cp <src> <dst>" (exec_cp fuel)
          else if named name ["mv"]%string then with_args2 args "mv <src> <dst>" (exec_mv fuel)
          else if named name ["rm"]%string then with_arg args "rm <path>" exec_rm
          else if named name ["rd"]%string then with_arg args "rd <dir>" exec_rd
          else if named name ["cat"]%string then with_arg args "cat <file>" (exec_cat fuel)
          else if named name ["touch"]%string then with_arg args "touch <file>" exec_touch
          else if named name ["stat"]%string then with_arg args "stat <path>" exec_stat
          else if named name ["help"; "?"; "h"; "commands"; "cmds"; "apropos"; "usage"]%string
          then say_line "commands: ld, md, cd, pwd, clear, plus numbered families like ld12/md7"
          else say "unknown command: " ;; out arg0 ;; say_line ""
      end
  end.
End commands.

#[global] Arguments Next {F St A} a c.
#[global] Arguments Halted {F St A} c.
#[global] Arguments Waiting {F St A} c.
#[global] Arguments Stuck {F St A}.
