(* ===== verification/ConsoleLoop.v ===== *)
(** * The line editor of the 64-bit console ([kernel/kmain64.cpp])

    Completion of commands and paths, the loop that reads characters and runs
    lines, and the loading of the boot module.  The array [line] and [pos] are
    the text before the cursor. *)

From S2P Require Import Prelude CText Memory Multiboot2 Serial Vfs RamFs RamFsSpec Snapshot Efifs Console ConsoleCmds.

Section loop.
Context {F : Type} `{FS : FileSystem F} {St : Type}.
Context (store_ready : St → bool) (store_save : St → option F → outcome (St * option F)).
Context (cpu_report pci_report : list text).

Abbreviation C := (@C F St).

(** ** Completion *)

Fixpoint skip_spaces (t : text) : text :=
  match t with
  | c :: t' => if Ascii.eqb c " "%char then skip_spaces t' else t
  | [] => []
  end.

(** The characters two names share. *)
Fixpoint shared (a b : text) : Z :=
  match a, b with
  | x :: a', y :: b' => if Ascii.eqb x y then 1 + shared a' b' else 0
  | _, _ => 0
  end.

Definition common_len (first : text) (rest : list text) : Z := fold_left (λ n name, Z.min (shared first name) n) rest (text_len first).

Definition names_with (names : list text) (prefix : text) : list text := filter (λ n, text_starts_with n prefix = true) names.

(** [while (... && pos + 1 < kMaxLine) line[pos++] = ch] *)
Fixpoint type_text (line added : text) : C text :=
  match added with
  | [] => mret line
  | ch :: added' =>
      if text_len line + 1 <? kMaxLine then out_char (byte_of ch) ;; type_text (line ++ [ch]) added' else mret line
  end.

Definition out_names (names : list text) : C unit := foldr (λ n k, out n ;; say " " ;; k) (mret tt) names.

Definition print_command_candidates (prefix : text) : C unit :=
  table ← asks g_cmd_table;
  let names := names_with (al_name <$> kCommandAliases) prefix ++ names_with (fst <$> table) prefix in
  out_names names ;; match names with [] => mret tt | _ => say_line "" end.

Definition complete_command_token (line : text) : C (bool * text) :=
  let prefix := take 31 (split_word (skip_spaces line)).1 in
  match names_with (al_name <$> kCommandAliases) prefix with
  | [] => mret (false, line)
  | [name] => line ← type_text line (drop (length prefix) name); mret (true, line)
  | first :: rest =>
      let n := common_len first rest in
      if text_len prefix <? n then
        line ← type_text line (drop (length prefix) (take (Z.to_nat n) first)); mret (true, line)
      else say_line "" ;; print_command_candidates prefix ;; mret (true, line)
  end.

(** The word before the cursor. *)
Fixpoint last_word (t word : text) : text :=
  match t with
  | [] => word
  | c :: t' => last_word t' (if is_blank c then [] else word ++ [c])
  end.

Definition entries_with (entries : list DirEntry) (base : text) : list DirEntry :=
  filter (λ e, text_starts_with (de_name e) base = true) entries.

Definition complete_path_token (line : text) : C (bool * text) :=
  match last_word line [] with
  | [] => mret (false, line)
  | word =>
      let token := take 63 word in
      let base := basename_of token in
      cwd ← asks cwd;
      match resolve_path cwd token 128 with
      | (false, _) => mret (false, line)
      | (true, resolved) =>
          match get_parent_path resolved 128 with
          | None => mret (false, line)
          | Some parent =>
              ready ← filesystem_ready;
              '(count, entries) ← (if ready : bool then fs_readdir_ parent 64 else mret (-1, []));
              if count <? 0 then mret (false, line)
              else
                match entries_with (take (Z.to_nat count) entries) base with
                | [] => mret (false, line)
                | [e] =>
                    line ← type_text line (drop (length base) (de_name e));
                    line ← (if de_is_directory e then type_text line [slash] else mret line);
                    mret (true, line)
                | es =>
                    say_line "" ;;
                    foldr (λ e k, out (de_name e) ;; (if de_is_directory e then say "/" else mret tt) ;; say "  " ;; k) (mret tt) es ;;
                    say_line "" ;; mret (true, line)
                end
          end
      end
  end.

(** ** The loop *)

Definition print_prompt : C unit :=
  cwd ← asks cwd; say_line "" ;; say "root@wirth:" ;; out (format_prompt_path cwd 32) ;; say "$ ".

Definition bell : text := ["007"%char].

(** One character: the text before the cursor after it. *)
Definition console_char (fuel : nat) (b : Z) (line : text) : C text :=
  if (b =? 13) || (b =? 10) then
    execute_command store_ready store_save cpu_report pci_report fuel (split_args kMaxArgs line) ;; print_prompt ;; mret []
  else if b =? 9 then
    '(completed, line) ← (if existsb is_blank line then complete_path_token line else complete_command_token line);
    (if completed : bool then mret tt else out bell) ;; mret line
  else if (b =? 8) || (b =? 127) then
    if 0 <? text_len line then out erase ;; mret (take (length line - 1) line) else mret line
  else if (b <? 32) || (126 <? b) then mret line
  else if text_len line + 1 <? kMaxLine then out_char b ;; mret (line ++ [ascii_of_nat (Z.to_nat b)])
  else mret line.

Definition console_step (fuel : nat) (line : text) : C text := b ← next_char; console_char fuel b line.

(** [n] rounds of the loop. *)
Fixpoint console_rounds (n : nat) (fuel : nat) (line : text) : C text :=
  match n with
  | O => mret line
  | S n' => line ← console_step fuel line; console_rounds n' fuel line
  end.

(** ** The boot module *)

Definition rootfs_module_visitor (m : memory) (view : ModuleView) (st : bool * F) : bool * F :=
  let '(loaded, f) := st in
  if loaded then st
  else
    let size := if start_addr view <? end_addr view then end_addr view - start_addr view else 0 in
    (true, if start_addr view =? 0 then f else load_rootfs_seed f (load_bytes (Z.to_nat size) m (start_addr view))).

(** Seeding the file system: the first module, or the volume when there is no
    module ([from_esp] is [try_load_rootfs_seed_from_esp]). *)
Definition seed_from_modules (fuel : nat) (m : memory) (info : Z) (from_esp : F → F) (f : F) : option F :=
  '(_, (loaded, f)) ← visit_modules fuel m info (Some (rootfs_module_visitor m)) (false, f);
  Some (if loaded : bool then f else from_esp f).
End loop.
