(* ===== verification/ConsoleSpec.v ===== *)
(** * What the console's paths, words and names guarantee

    [resolve_path] against walking the components of the full spelling, the
    bounds of every buffer, and the words of a line. *)

From S2P Require Import Prelude CText Vfs RamFs RamFsSpec Snapshot Efifs EfifsSpec Console.

(** ** Walking *)

Definition walk_step (at_ : list text) (c : text) : list text :=
  if text_equal c (txt ".") then at_ else if text_equal c (txt "..") then take (length at_ - 1) at_ else at_ ++ [c].
Definition walk (cs : list text) : list text := fold_left walk_step cs [].

(** No more than eight directories deep on the way, none with a long name. *)
Definition walkable (cs : list text) : Prop :=
  Forall (λ c, text_len c <= 31) cs ∧ ∀ k, (length (walk (take k cs)) <= 8)%nat.

(** The path before [.] and [..] are resolved. *)
Definition spelled (cwd input : text) : text :=
  match input with
  | "~"%char :: [] => home
  | "~"%char :: "/"%char :: rest => home ++ [slash] ++ rest
  | "/"%char :: _ => input
  | _ => cwd ++ [slash] ++ input
  end.

Lemma split_path_head t : ∀ acc, acc ≠ [] → ∃ x rest, split_path t acc = (acc ++ x) :: rest.
Proof.
  induction t as [|c t IH]; intros acc Ha; cbn [split_path].
  - destruct acc; [done|]. exists [], []. by rewrite app_nil_r.
  - destruct (Ascii.eqb c slash).
    + destruct acc as [|a acc]; [done|]. eexists [], _. by rewrite app_nil_r.
    + destruct (IH (acc ++ [c])) as (x & rest & E); [by destruct acc|]. exists (c :: x), rest. by rewrite E, <- app_assoc.
Qed.

Lemma parse_parts_split path : ∀ token parts,
  Forall (λ c, text_len c <= 31) (split_path path token) →
  parse_parts path token parts = fold_left push_token (split_path path token) parts.
Proof.
  induction path as [|c path IH]; intros token parts Hl; cbn [parse_parts split_path] in *; [by destruct token|].
  destruct (Ascii.eqb c slash).
  - destruct token as [|x token]; [by apply IH|]. apply Forall_cons in Hl as [_ Hl]. cbn [fold_left]. by apply IH.
  - destruct (split_path_head path (token ++ [c])) as (x & rest & E); [by destruct token|].
    pose proof Hl as Hl'. rewrite E in Hl'. apply Forall_cons in Hl' as [Hh _]. unfold text_len in Hh. rewrite !length_app in Hh. cbn in Hh.
    rewrite (proj2 (Z.ltb_lt _ _)) by (unfold text_len, kPartSize; lia). by apply IH.
Qed.

Lemma components_parts path :
  Forall (λ c, text_len c <= 31) (components path) → parse_parts path [] [] = fold_left push_token (components path) [].
Proof. apply parse_parts_split. Qed.

Lemma walk_snoc cs c : walk (cs ++ [c]) = walk_step (walk cs) c.
Proof. unfold walk. by rewrite fold_left_app. Qed.

Lemma push_walk cs : Forall component_ok cs → walkable cs → fold_left push_token cs [] = walk cs.
Proof.
  induction cs as [|c cs IH] using rev_ind; [done|]. intros Hok [Hl Hd]. apply Forall_app in Hok as [Hok Hc]. apply Forall_app in Hl as [Hl Hlc].
  rewrite walk_snoc, fold_left_app. cbn [fold_left]. rewrite IH; [|done|].
  2: { split; [done|]. intros k. destruct (Nat.le_ge_cases k (length cs)).
       - specialize (Hd k). by rewrite take_app_le in Hd by done.
       - specialize (Hd (length cs)). rewrite take_app_length in Hd. by rewrite take_ge. }
  apply Forall_cons in Hc as [[Hne _] _]. apply Forall_cons in Hlc as [Hlc _]. unfold push_token, walk_step.
  assert (0 < text_len c) as Hpos by (destruct c; [done|]; unfold text_len; cbn; lia).
  rewrite (proj2 (Z.ltb_lt _ _) Hpos). destruct (text_equal c (txt ".")) eqn:E1; [done|]. destruct (text_equal c (txt "..")) eqn:E2; [done|].
  specialize (Hd (length (cs ++ [c]))). rewrite take_ge, walk_snoc in Hd by done. unfold walk_step in Hd. rewrite E1, E2, length_app in Hd.
  cbn in Hd. rewrite (proj2 (Z.ltb_lt _ _)) by (unfold kMaxParts; lia). unfold copy_text. rewrite take_ge; [done|]. unfold text_len, kPartSize in *. lia.
Qed.

(** ** Writing a path back *)

Definition spell (cs : list text) : text := concat ((λ c, slash :: c) <$> cs).

Lemma last_component out c : component_ok c → last (out ++ c) ≠ Some slash.
Proof.
  intros [Hne Hs]. destruct c as [|x c _] using rev_ind; [done|]. rewrite app_assoc, last_snoc. intros [= ->]. set_solver.
Qed.

Lemma write_parts_spell ps : ∀ out size,
  Forall component_ok ps → out ≠ [] → last out ≠ Some slash → text_len (out ++ spell ps) < size → write_parts ps out size = out ++ spell ps.
Proof.
  induction ps as [|p ps IH]; intros out size Hok Hne Hl Hs; cbn [write_parts]; [by rewrite app_nil_r|].
  apply Forall_cons in Hok as [Hp Hok]. unfold spell in *. cbn [fmap list_fmap concat] in *. unfold text_len in *.
  rewrite !length_app in Hs. cbn [length] in Hs. rewrite (proj2 (Z.ltb_lt _ _)) by lia.
  assert ((match last out with Some c => if Ascii.eqb c slash then out else out ++ [slash] | None => out end) = out ++ [slash]) as ->.
  { destruct (last out) as [c|] eqn:E; [|by apply last_None in E]. rewrite (proj2 (Ascii.eqb_neq c slash)); [done|]. by intros ->. }
  rewrite take_ge by (rewrite length_app; cbn; lia). rewrite IH; [by rewrite <- !app_assoc|done| | |].
  - by destruct out.
  - by apply last_component.
  - rewrite !length_app. cbn [length]. lia.
Qed.

Lemma write_parts_render ps size : Forall component_ok ps → text_len (render ps) < size → write_parts ps [slash] size = render ps.
Proof.
  intros Hok Hs. destruct ps as [|p ps]; [done|]. apply Forall_cons in Hok as [Hp Hok]. rewrite render_cons in *. cbn [write_parts].
  unfold text_len in *. cbn [length] in Hs. rewrite length_app in Hs. destruct Hp as [Hne Hsl].
  assert (0 < Z.of_nat (length p)) by (destruct p; [done|cbn; lia]).
  rewrite (proj2 (Z.ltb_lt _ _)) by (cbn; lia). cbn [last]. change (Ascii.eqb slash slash) with true. cbv iota.
  rewrite take_ge by (cbn; lia). rewrite write_parts_spell; [done|done|done|by apply last_component|].
  unfold text_len, spell. cbn [length app]. rewrite length_app. lia.
Qed.

(** ** Lengths *)

Definition total (cs : list text) : Z := text_len (spell cs).

Lemma total_cons c cs : total (c :: cs) = 1 + text_len c + total cs.
Proof. unfold total, spell, text_len. cbn [fmap list_fmap concat length]. rewrite length_app. cbn [length]. lia. Qed.

Lemma total_app a b : total (a ++ b) = total a + total b.
Proof. unfold total, spell, text_len. rewrite fmap_app, concat_app, length_app. lia. Qed.

Lemma total_nonneg cs : 0 <= total cs.
Proof. unfold total, text_len. lia. Qed.

Lemma split_path_total t : ∀ acc, total (split_path t acc) <= text_len acc + text_len t + 1.
Proof.
  induction t as [|c t IH]; intros acc; cbn [split_path].
  - assert (total [] = 0) as H0 by done. destruct acc as [|a acc]; [rewrite H0; unfold text_len; cbn [length]; lia|].
    rewrite total_cons, H0. unfold text_len. cbn [length]. lia.
  - unfold text_len in *. destruct (Ascii.eqb c slash).
    + specialize (IH []). destruct acc as [|a acc]; [cbn [length] in *; lia|]. rewrite total_cons. unfold text_len. cbn [length] in *. lia.
    + specialize (IH (acc ++ [c])). rewrite length_app in IH. cbn [length] in *. lia.
Qed.

Lemma walk_total cs : total (walk cs) <= total cs.
Proof.
  induction cs as [|c cs IH] using rev_ind; [done|]. rewrite walk_snoc, total_app, total_cons. unfold walk_step.
  pose proof (total_nonneg []). assert (0 <= text_len c) by (unfold text_len; lia).
  destruct (text_equal _ _); [lia|]. destruct (text_equal _ _); [|rewrite total_app, total_cons; lia].
  rewrite <- (take_drop (length (walk cs) - 1) (walk cs)), total_app in IH.
  pose proof (total_nonneg (drop (length (walk cs) - 1) (walk cs))). lia.
Qed.

Lemma walk_ok cs : Forall component_ok cs → Forall component_ok (walk cs).
Proof.
  induction cs as [|c cs IH] using rev_ind; [done|]. intros Hok. apply Forall_app in Hok as [Hok Hc]. rewrite walk_snoc. unfold walk_step.
  destruct (text_equal _ _); [by apply IH|]. destruct (text_equal _ _); [by apply Forall_take, IH|]. apply Forall_app. split; [by apply IH|done].
Qed.

Lemma render_total cs : text_len (render cs) <= Z.max 1 (total cs).
Proof. destruct cs as [|c cs]; [apply Z.le_max_l|apply Z.le_max_r]. Qed.

(** ** Normalising *)

Lemma normalize_walk r size :
  2 <= size → text_len (slash :: r) < size → walkable (components (slash :: r)) →
  normalize_path (slash :: r) size = (true, render (walk (components (slash :: r)))).
Proof.
  intros Hs Hl Hw. pose proof (components_ok (slash :: r)) as Hok. unfold normalize_path. change (Ascii.eqb slash slash) with true. cbv zeta iota.
  rewrite components_parts by apply Hw. rewrite push_walk by done. rewrite write_parts_render; [|by apply walk_ok|].
  - assert (render (walk (components (slash :: r))) ≠ []) by (destruct (walk _); done). by destruct (render _).
  - pose proof (render_total (walk (components (slash :: r)))). pose proof (walk_total (components (slash :: r))).
    pose proof (split_path_total r []). assert (components (slash :: r) = split_path r []) as E by done. rewrite E in *.
    unfold text_len in *. cbn [length] in *. lia.
Qed.

(** ** Resolving *)

Lemma copy_text_whole t size : text_len t < size → copy_text t size = t.
Proof. intros Hl. unfold copy_text, text_len in *. apply take_ge. lia. Qed.

Lemma append_to_whole head input size : text_len (head ++ [slash] ++ input) < size → append_to head input size = (true, head ++ [slash] ++ input).
Proof.
  intros Hl. unfold text_len in Hl. rewrite !length_app in Hl. cbn [length] in Hl. unfold append_to.
  rewrite copy_text_whole by (unfold text_len; lia). rewrite (proj2 (Z.leb_gt _ _)) by (unfold text_len; lia).
  rewrite copy_text_whole by (unfold text_len; lia). done.
Qed.

Lemma resolve_special_spelled cwd input size :
  input ≠ [] → text_len (spelled cwd input) < size → resolve_special_path_prefix cwd input size = (true, spelled cwd input).
Proof.
  intros Hne Hl.
  assert (text_len (cwd ++ [slash] ++ input) < size →
    (if text_equal cwd [slash]
     then match input with
          | [] => (true, copy_text [slash] size)
          | _ => if text_len (copy_text [slash] size) + 1 <? size
                 then (true, copy_text [slash] size ++ [slash] ++ copy_text input (size - text_len (copy_text [slash] size) - 1))
                 else (true, copy_text [slash] size)
          end
     else append_to cwd input size) = (true, cwd ++ [slash] ++ input)) as Hrel.
  { intros Hr. destruct (text_equal cwd [slash]) eqn:E; [|by apply append_to_whole]. apply text_equal_eq in E as ->.
    unfold text_len in Hr. rewrite !length_app in Hr. cbn [length] in Hr. rewrite (copy_text_whole [slash]) by (unfold text_len; cbn; lia).
    assert (0 < length input)%nat by (destruct input; [done|cbn; lia]). destruct input as [|c r] eqn:Ei; [done|]. rewrite <- Ei in *.
    rewrite (proj2 (Z.ltb_lt _ _)) by (unfold text_len; cbn; lia). rewrite copy_text_whole by (unfold text_len in *; cbn; lia). done. }
  destruct input as [|c r]; [done|]. unfold spelled in *.
  unfold resolve_special_path_prefix.
  destruct c as [[] [] [] [] [] [] [] []]; try (apply Hrel, Hl); [by rewrite copy_text_whole|].
  destruct r as [|c' r]; [by rewrite copy_text_whole|].
  destruct c' as [[] [] [] [] [] [] [] []]; try (apply Hrel, Hl). by apply append_to_whole.
Qed.

Lemma spelled_absolute cwd input : (∃ r, cwd = slash :: r) → ∃ r, spelled cwd input = slash :: r.
Proof.
  intros [r ->]. unfold spelled. destruct input as [|c i]; [by eexists|].
  destruct c as [[] [] [] [] [] [] [] []]; try (eexists; reflexivity). destruct i as [|c' i]; [by eexists|].
  destruct c' as [[] [] [] [] [] [] [] []]; by eexists.
Qed.

Lemma resolve_walk cwd input size :
  (∃ r, cwd = slash :: r) → input ≠ [] → text_len (spelled cwd input) < size → walkable (components (spelled cwd input)) →
  resolve_path cwd input size = (true, render (walk (components (spelled cwd input)))).
Proof.
  intros Hc Hne Hl Hw. unfold resolve_path. rewrite resolve_special_spelled by done. destruct (spelled_absolute cwd input Hc) as [r E].
  rewrite E in *. apply normalize_walk; [unfold text_len in *; cbn in Hl; destruct r; cbn in *; lia|done|done].
Qed.

(** ** Bounds *)

Lemma write_parts_bound ps : ∀ out size, text_len out < size → text_len (write_parts ps out size) < size.
Proof.
  induction ps as [|p ps IH]; intros out size Hl; cbn [write_parts]; [done|]. destruct (text_len out + 1 <? size) eqn:E; [|done]. zbool.
  apply IH. set (out' := match last out with Some _ => _ | None => _ end).
  assert (text_len out' <= text_len out + 1) as Ho.
  { unfold out'. destruct (last out) as [c|]; [|lia]. destruct (Ascii.eqb c slash); [lia|]. unfold text_len. rewrite length_app. cbn. lia. }
  clearbody out'. unfold text_len in *. rewrite length_app, length_take. lia.
Qed.

Lemma copy_text_bound t size : 0 < size → text_len (copy_text t size) < size.
Proof. intros Hs. unfold copy_text, text_len. rewrite length_take. lia. Qed.

Lemma append_to_bound head input size : 0 < size → text_len (append_to head input size).2 < size.
Proof.
  intros Hs. unfold append_to. pose proof (copy_text_bound head size Hs). destruct (_ <=? _) eqn:E; [done|]. zbool. cbn [snd].
  pose proof (copy_text_bound input (size - text_len (copy_text head size) - 1)). unfold text_len in *. rewrite !length_app. cbn [length]. lia.
Qed.

Lemma resolve_special_bound cwd input size : 0 < size → text_len (resolve_special_path_prefix cwd input size).2 < size.
Proof.
  intros Hs.
  assert (text_len (if text_equal cwd [slash]
     then match input with
          | [] => (true, copy_text [slash] size)
          | _ => if text_len (copy_text [slash] size) + 1 <? size
                 then (true, copy_text [slash] size ++ [slash] ++ copy_text input (size - text_len (copy_text [slash] size) - 1))
                 else (true, copy_text [slash] size)
          end
     else append_to cwd input size).2 < size) as Hrel.
  { destruct (text_equal _ _); [|by apply append_to_bound]. pose proof (copy_text_bound [slash] size Hs). destruct input as [|c r]; [done|].
    destruct (_ <? _) eqn:E; [|done]. zbool. cbn [snd]. pose proof (copy_text_bound (c :: r) (size - text_len (copy_text [slash] size) - 1)).
    unfold text_len in *. rewrite !length_app. cbn [length] in *. lia. }
  destruct input as [|c r]; [exact Hrel|]. unfold resolve_special_path_prefix.
  destruct c as [[] [] [] [] [] [] [] []]; try exact Hrel; [by apply copy_text_bound|].
  destruct r as [|c' r]; [by apply copy_text_bound|].
  destruct c' as [[] [] [] [] [] [] [] []]; try exact Hrel. by apply append_to_bound.
Qed.

Lemma resolve_bound cwd input size : 2 <= size → text_len (resolve_path cwd input size).2 < size.
Proof.
  intros Hs. unfold resolve_path. pose proof (resolve_special_bound cwd input size ltac:(lia)) as Hb.
  destruct (resolve_special_path_prefix cwd input size) as [[] t]; [|done]. cbn [snd] in Hb. destruct t as [|c t]; [cbn; lia|].
  unfold normalize_path. set (start := if Ascii.eqb c slash then [slash] else []).
  assert (text_len (write_parts (parse_parts (c :: t) [] []) start size) < size) as Hw.
  { apply write_parts_bound. unfold start. destruct (Ascii.eqb c slash); unfold text_len; cbn; lia. }
  cbv zeta. cbn [snd]. destruct (write_parts _ _ _); [unfold text_len; cbn; lia|done].
Qed.

(** Every path a command works on fits its buffer, and for a path whose full spelling fits, with at most eight directories on the way
    and names of at most 31 characters, it is the canonical path that walking the components from the working directory, the home
    directory or the root leads to. *)
Lemma resolve_path_spec cwd input size :
  (∃ r, cwd = slash :: r) → input ≠ [] → 2 <= size →
  text_len (resolve_path cwd input size).2 < size ∧
  (text_len (spelled cwd input) < size → walkable (components (spelled cwd input)) →
   resolve_path cwd input size = (true, render (walk (components (spelled cwd input)))) ∧
   canonical (resolve_path cwd input size).2).
Proof.
  intros Hc Hne Hs. split; [by apply resolve_bound|]. intros Hl Hw. rewrite resolve_walk by done. split; [done|].
  exists (walk (components (spelled cwd input))). split; [apply walk_ok, components_ok|done].
Qed.

Lemma resolve_path_spec_witness :
  resolve_path (txt "/home/root") (txt "../.././etc//apt/..") 64 = (true, txt "/etc").
Proof.
  destruct (resolve_path_spec (txt "/home/root") (txt "../.././etc//apt/..") 64) as [_ H]; [by eexists|done|lia|].
  apply H; [reflexivity|]. split; [apply (bool_decide_unpack _); vm_compute; exact I|].
  intros k. do 8 (destruct k as [|k]; [vm_compute; lia|]). cbn. destruct k; vm_compute; lia.
Defined.

(** A ninth directory is dropped without notice: the path names its ancestor. *)
Lemma deep_path_aliases : resolve_path (txt "/") (txt "/a/b/c/d/e/f/g/h/i") 64 = (true, txt "/a/b/c/d/e/f/g/h").
Proof. vm_compute. reflexivity. Qed.

(** A long name is cut: two different paths become one. *)
Lemma long_path_aliases :
  resolve_path (txt "/home/root") (txt "a_directory_with_a_name") 32 = (true, txt "/home/root/a_directory_with_a_n").
Proof. vm_compute. reflexivity. Qed.

(** ** Words *)

Definition add_word (w : text) (ws : list text) : list text := match w with [] => ws | _ => w :: ws end.

Fixpoint words_from (t cur : text) : list text :=
  match t with
  | [] => add_word cur []
  | c :: t' => if is_blank c then add_word cur (words_from t' []) else words_from t' (cur ++ [c])
  end.

(** The words of a line, separated by blanks. *)
Definition words (line : text) : list text := words_from line [].

Lemma words_skip t : words (skip_blanks t) = words t.
Proof. induction t as [|c t IH]; [done|]. cbn [skip_blanks]. unfold words in *. cbn [words_from]. destruct (is_blank c) eqn:E; [done|]. cbn. by rewrite E. Qed.

Lemma words_word t : ∀ cur, cur ≠ [] → words_from t cur = (cur ++ (split_word t).1) :: words (split_word t).2.
Proof.
  induction t as [|c t IH]; intros cur Hc; cbn [words_from split_word].
  - cbn. rewrite app_nil_r. by destruct cur.
  - destruct (is_blank c).
    + cbn. rewrite app_nil_r. by destruct cur.
    + rewrite IH by by destruct cur. destruct (split_word t) as [w r]. cbn [fst snd]. by rewrite <- app_assoc.
Qed.

Lemma skip_blanks_head t c r : skip_blanks t = c :: r → is_blank c = false.
Proof. induction t as [|x t IH]; [done|]. cbn. destruct (is_blank x) eqn:E; [done|]. by intros [= -> _]. Qed.

Lemma split_args_words n : ∀ line, split_args n line = take n (words line).
Proof.
  induction n as [|n IH]; intros line; cbn [split_args]; [by rewrite take_0|]. rewrite <- words_skip.
  destruct (skip_blanks line) as [|c t] eqn:E; [done|]. pose proof (skip_blanks_head _ _ _ E) as Hb.
  unfold words. cbn [words_from]. rewrite Hb. cbn [app]. rewrite words_word by done. cbn [split_word]. rewrite Hb.
  destruct (split_word t) as [w r]. cbn [fst snd app take]. by rewrite IH.
Qed.

(** ** Seed lines of a boot module *)

(** The directory a line makes: the command is exactly [md]. *)
Definition seed_path (line : list Z) : option text :=
  match skip_blanks (text_of line) with
  | [] => None
  | c :: t =>
      if Ascii.eqb c "#"%char then None
      else
        let '(command, rest) := split_word (c :: t) in
        match skip_blanks rest with [] => None | arg => if text_equal command (txt "md") then Some arg else None end
  end.

Section seed.
Context {F : Type} `{FS : FileSystem F}.

Lemma apply_rootfs_line_md f line : apply_rootfs_seed_line f line = make_dirs f (option_list (seed_path line)).
Proof.
  unfold apply_rootfs_seed_line, seed_path. destruct (skip_blanks _) as [|c t]; [done|]. destruct (Ascii.eqb c "#"%char); [done|].
  destruct (split_word _) as [cmd rest]. destruct (skip_blanks rest); [done|]. by destruct (text_equal _ _).
Qed.

Lemma load_rootfs_seed_lines f data : load_rootfs_seed f data = make_dirs f (omap seed_path (lines_of 95 data)).
Proof.
  rewrite <- (make_dirs_lines apply_rootfs_seed_line) by apply apply_rootfs_line_md. rewrite <- (reader_lines apply_rootfs_seed_line) by lia.
  unfold load_rootfs_seed. assert (∀ st, fold_left seed_step data st = fold_left (reader_step apply_rootfs_seed_line 95) data st) as ->.
  { induction data as [|b data IH]; intros st; [done|]. cbn [fold_left]. rewrite IH. f_equal. destruct st as [f' buf]. unfold seed_step, reader_step, eol.
    rewrite orb_comm. replace (Z.of_nat (length buf) + 1 <? 96) with (Z.of_nat (length buf) <? Z.of_nat 95)
      by (apply eq_true_iff_eq; rewrite !Z.ltb_lt; lia). done. }
  by destruct (fold_left _ _ _).
Qed.
End seed.
