(* ===== verification/ConsoleFs.v ===== *)
(** * Copying and moving files on the console

    [fs_copy_file] and [fs_move_file] over the RAM file system, block by block
    through two descriptors. *)

From S2P Require Import Prelude CText Serial Vfs RamFs RamFsSpec Snapshot Efifs FsHandles Console ConsoleCmds.

Section copying.
Context (nb : Z → option (list Z)) (nb_good : good_allocator nb).

(** ** The loop *)

Context {St : Type}.
Abbreviation console := (@console ramfs St).
#[local] Instance fs_inst : FileSystem ramfs := ramfs_fs nb.

Definition with_fs (c : console) (s : ramfs) : console :=
  mk_console (tx_log c) (Some s) (store c) (cwd c) (g_kernel_heap_used c) (g_cmd_table c) (typed c).

Lemma on_fs_eq {A} (op : ramfs → A * ramfs) (c : console) s : g_fs c = Some s → on_fs op c = Next (op s).1 (with_fs c (op s).2).
Proof using. intros E. unfold on_fs. rewrite E. by destruct (op s). Qed.

Lemma close_both_eq c s a b :
  fs_ok s → g_fs c = Some s → closed_but s a b →
  ∃ s', close_both a b c = Next tt (with_fs c s') ∧ fs_ok s' ∧ (∀ q, view s' q = view s q) ∧ all_closed s'.
Proof using.
  intros Hok Hc Hcl. unfold close_both, fs_close_, mbind, C_bind, mret, C_ret. rewrite (on_fs_eq _ c s Hc). cbn [fs_close fs_inst ramfs_fs].
  pose proof (close_effect s a Hok) as H1. destruct (close s a) as [r1 s1]. destruct H1 as (Hok1 & V1 & _ & _ & G1 & O1). cbn [fst snd].
  rewrite (on_fs_eq _ (with_fs c s1) s1 eq_refl). cbn [fs_close fs_inst ramfs_fs].
  pose proof (close_effect s1 b Hok1) as H2. destruct (close s1 b) as [r2 s2]. destruct H2 as (Hok2 & V2 & _ & _ & G2 & O2). cbn [fst snd].
  exists s2. split_and!; [done|done|intros q; by rewrite V2|]. intros fd. destruct (decide (fd = b)) as [->|Hb]; [done|]. rewrite O2 by done.
  destruct (decide (fd = a)) as [->|Ha]; [done|]. rewrite O1 by done. by apply Hcl.
Qed.

Lemma copy_loop_copies a b ps pd rf wf data :
  Z.land rf kOpenRead ≠ 0 → Z.land wf kOpenWrite ≠ 0 → a ≠ b → ps ≠ pd → Z.of_nat (length data) <= 2147483647 →
  ∀ fuel off s c, g_fs c = Some s → copying s a b ps pd rf wf data off →
  Z.of_nat (length data) - off + 256 <= 256 * Z.of_nat fuel →
  ∃ s', copy_loop fuel a b c = Next true (with_fs c s') ∧ fs_ok s' ∧ all_closed s' ∧
    ∀ q, view s' q = if text_equal q pd then Some (File data) else view s q.
Proof using nb_good.
  intros Hrf Hwf Hab Hpp Hlen. induction fuel as [|fuel IH]; intros off s c Hc Hco Hf; [pose proof (co_off _ _ _ _ _ _ _ _ _ Hco); lia|].
  cbn [copy_loop].
  destruct (copy_chunk nb s a b ps pd rf wf data off 256 nb_good Hrf Hwf Hab Hpp Hlen ltac:(lia) Hco)
    as (Hbl & s1 & Er & Hok1 & Hcl1 & V1 & s2 & Ew & Hco2 & V2).
  set (bytes := take (Z.to_nat 256) (drop (Z.to_nat off) data)) in *. destruct Hco as [_ _ _ Hvs Hvd Hoff _].
  unfold mbind, C_bind, fs_read_. rewrite (on_fs_eq _ c s Hc). cbn [fs_read fs_inst ramfs_fs]. rewrite Er. cbn [fst snd].
  rewrite (proj2 (Z.ltb_ge _ _)) by lia. destruct (Z.of_nat (length bytes) =? 0) eqn:E; zbool.
  - destruct (close_both_eq (with_fs c s1) s1 a b Hok1 eq_refl Hcl1) as (s3 & -> & Hok3 & V3 & Hall). cbn [mret C_ret].
    exists s3. split_and!; [done|done|done|]. intros q. rewrite V3, V1. destruct (text_equal q pd) eqn:Eq; [|done].
    apply text_equal_eq in Eq as ->. rewrite Hvd. rewrite take_ge by lia. done.
  - unfold fs_write_. cbn [g_fs with_fs fs_write fs_inst ramfs_fs]. rewrite Ew. unfold set_fs, mbind, C_bind, mret, C_ret.
    cbn [tx_log g_fs store cwd g_kernel_heap_used g_cmd_table typed with_fs]. rewrite (proj2 (Z.ltb_ge _ _)) by lia.
    destruct (IH (off + Z.of_nat (length bytes)) s2 (with_fs c s2) eq_refl Hco2 ltac:(lia)) as (s3 & Ec & Hok3 & Hall & V3).
    exists s3. split_and!; [exact Ec|done|done|]. intros q. rewrite V3. destruct (text_equal q pd) eqn:Eq; [done|by apply V2].
Qed.

Lemma copy_file fuel src dst ps pd data s c :
  copy_ready s src dst ps pd data → g_fs c = Some s → Z.of_nat (length data) + 256 <= 256 * Z.of_nat fuel →
  ∃ s', fs_copy_file fuel src dst c = Next true (with_fs c s') ∧ fs_ok s' ∧ all_closed s' ∧
    ∀ q, view s' q = if text_equal q pd then Some (File data) else view s q.
Proof using nb_good.
  intros Hr Hc Hf. destruct (copy_opens s src dst ps pd data Hr) as (a & s1 & b & s2 & E1 & E2 & Ha & Hb & Hab & Hco & V2).
  destruct Hr as [_ _ _ _ Hpp _ _ _ Hlen]. unfold fs_copy_file, filesystem_ready, asks, mbind, C_bind. rewrite Hc. cbn [negb].
  unfold fs_open_. rewrite (on_fs_eq _ c s Hc). cbn [fs_open fs_inst ramfs_fs]. rewrite E1. cbn [fst snd]. rewrite (proj2 (Z.ltb_ge _ _)) by lia.
  rewrite (on_fs_eq _ (with_fs c s1) s1 eq_refl). unfold kOpenReplace. rewrite E2. cbn [fst snd]. rewrite (proj2 (Z.ltb_ge _ _)) by lia.
  destruct (copy_loop_copies a b ps pd kOpenRead replace_flags data ltac:(done) ltac:(done) Hab Hpp Hlen fuel 0 s2 (with_fs c s2) eq_refl Hco)
    as (s3 & E3 & Hok3 & Hall & V3); [lia|].
  exists s3. split_and!; [exact E3|done|done|]. intros q. rewrite V3. destruct (text_equal q pd) eqn:Eq; [done|by apply V2].
Qed.

Lemma move_file fuel src dst ps pd data s c :
  copy_ready s src dst ps pd data → g_fs c = Some s → Z.of_nat (length data) + 256 <= 256 * Z.of_nat fuel →
  ∃ s', fs_move_file fuel src dst c = Next true (with_fs c s') ∧ fs_ok s' ∧ all_closed s' ∧
    ∀ q, view s' q = if text_equal q ps then None else if text_equal q pd then Some (File data) else view s q.
Proof using nb_good.
  intros Hr Hc Hf. destruct (copy_file fuel src dst ps pd data s c Hr Hc Hf) as (s1 & E1 & Hok1 & Hcl1 & V1). destruct Hr as [Hok Hcl Hns Hnd Hpp Hv _ _ _].
  unfold fs_move_file, mbind, C_bind. rewrite E1. cbn [negb]. unfold fs_unlink_. rewrite (on_fs_eq _ (with_fs c s1) s1 eq_refl).
  cbn [fs_unlink fs_inst ramfs_fs]. destruct (unlink_closed s1 src ps data Hok1 Hcl1 Hns) as (s2 & -> & Hok2 & Hcl2 & V2).
  { by rewrite V1, (proj2 (text_equal_ne _ _)). }
  cbn [fst snd]. change (0 =? 0) with true. cbv iota. exists s2. split_and!; [done|done|done|]. intros q. by rewrite V2, V1.
Qed.
End copying.

(** Copying and moving a file on the console.  With every descriptor closed, a source file, another path whose directory exists and a
    free inode, [cp] leaves the destination with the bytes of the source and every other path as it was, [mv] also removes the source, and
    both close the descriptors they opened. *)
Lemma console_copies_and_moves {St} nb fuel src dst ps pd data s (c : @console ramfs St) :
  good_allocator nb → copy_ready s src dst ps pd data → g_fs c = Some s → Z.of_nat (length data) + 256 <= 256 * Z.of_nat fuel →
  (∃ s', @fs_copy_file ramfs (ramfs_fs nb) St fuel src dst c = Next true (with_fs c s') ∧ fs_ok s' ∧ all_closed s' ∧
     ∀ q, view s' q = if text_equal q pd then Some (File data) else view s q) ∧
  (∃ s', @fs_move_file ramfs (ramfs_fs nb) St fuel src dst c = Next true (with_fs c s') ∧ fs_ok s' ∧ all_closed s' ∧
     ∀ q, view s' q = if text_equal q ps then None else if text_equal q pd then Some (File data) else view s q).
Proof. intros Hnb Hr Hc Hf. split; [by eapply copy_file|by eapply move_file]. Qed.

(** ** Runs on the file system as it boots *)

Definition boot_console : @console ramfs unit := mk_console (mk_serial false []) (Some boot_fs) tt (txt "/home/root") 0 [] [].

Lemma console_copies_and_moves_witness :
  ∃ data s', @fs_copy_file ramfs (ramfs_fs zero_allocator) unit 10 (txt "/etc/passwd") (txt "/home/root/p") boot_console =
    Next true (with_fs boot_console s') ∧ view s' (txt "/home/root/p") = Some (File data) ∧ view s' (txt "/etc/passwd") = Some (File data).
Proof.
  destruct boot_copy_ready as (data & Hr & Hl).
  destruct (console_copies_and_moves zero_allocator 10 (txt "/etc/passwd") (txt "/home/root/p") (txt "/etc/passwd") (txt "/home/root/p") data boot_fs
    boot_console zero_allocator_good Hr eq_refl ltac:(lia)) as [(s' & E & _ & _ & V) _].
  exists data, s'. split; [exact E|]. split; [rewrite V; reflexivity|]. rewrite V. exact (cr_data _ _ _ _ _ _ Hr).
Defined.

(** Copying a file onto itself empties it: the destination is truncated before the source is read. *)
Lemma copy_onto_itself :
  match @fs_copy_file ramfs (ramfs_fs zero_allocator) unit 10 (txt "/etc/passwd") (txt "/etc/passwd") boot_console with
  | Next ok c => ok = true ∧ (s ← g_fs c; view s (txt "/etc/passwd")) = Some (File [])
  | _ => False
  end.
Proof. vm_compute. split; reflexivity. Qed.

(** Moving a file onto itself removes it. *)
Lemma move_onto_itself :
  match @fs_move_file ramfs (ramfs_fs zero_allocator) unit 10 (txt "/etc/passwd") (txt "/etc/passwd") boot_console with
  | Next ok c => ok = true ∧ (s ← g_fs c; view s (txt "/etc/passwd")) = None
  | _ => False
  end.
Proof. vm_compute. split; reflexivity. Qed.
