(* ===== verification/ConsoleLoopSpec.v ===== *)
(** * What the line editor guarantees *)

From S2P Require Import Prelude CText Memory Multiboot2 Serial Vfs RamFs RamFsSpec Snapshot Efifs EfifsSpec Console ConsoleCmds ConsoleLoop ConsoleSpec.

(** ** Editing *)

(** A character that does not end the line or ask for a completion. *)
Definition plain (b : Z) : Prop := b ≠ 13 ∧ b ≠ 10 ∧ b ≠ 9.

Definition edit_char (line : text) (b : Z) : text :=
  if (b =? 8) || (b =? 127) then take (length line - 1) line
  else if (b <? 32) || (126 <? b) then line
  else if text_len line <? 127 then line ++ [ascii_of_nat (Z.to_nat b)] else line.

Definition edit (line : text) (bs : list Z) : text := fold_left edit_char bs line.

Section editor.
Context {F : Type} `{FS : FileSystem F} {St : Type}.
Context (store_ready : St → bool) (store_save : St → option F → outcome (St * option F)).
Context (cpu_report pci_report : list text).

Abbreviation console := (@console F St).
Abbreviation cchar := (console_char store_ready store_save cpu_report pci_report).
Abbreviation crounds := (console_rounds store_ready store_save cpu_report pci_report).
Abbreviation exec := (execute_command store_ready store_save cpu_report pci_report).

(** The same console with other output. *)
Definition with_log (c : console) (tx : serial) : console :=
  mk_console tx (g_fs c) (store c) (cwd c) (g_kernel_heap_used c) (g_cmd_table c) (typed c).
Definition with_typed (c : console) (bs : list Z) : console :=
  mk_console (tx_log c) (g_fs c) (store c) (cwd c) (g_kernel_heap_used c) (g_cmd_table c) bs.

Lemma console_char_plain fuel b line (c : console) :
  plain b → ∃ tx, cchar fuel b line c = Next (edit_char line b) (with_log c tx).
Proof using.
  intros (H1 & H2 & H3). apply Z.eqb_neq in H1, H2, H3. unfold console_char, edit_char. rewrite H1, H2, H3. cbn [orb].
  assert (∃ tx, Next line c = Next line (with_log c tx)) as Hsame by (exists (tx_log c); by destruct c).
  destruct ((b =? 8) || (b =? 127)).
  { destruct (0 <? text_len line) eqn:E; [by eexists|]. zbool. destruct line; [|unfold text_len in E; cbn in E; lia]. exact Hsame. }
  destruct ((b <? 32) || (126 <? b)); [exact Hsame|]. unfold kMaxLine.
  replace (text_len line + 1 <? 128) with (text_len line <? 127) by (apply eq_true_iff_eq; rewrite !Z.ltb_lt; lia).
  destruct (text_len line <? 127); [by eexists|exact Hsame].
Qed.

Lemma rounds_plain fuel bs : ∀ line (c : console) rest,
  Forall plain bs → typed c = bs ++ rest →
  ∃ tx, crounds (length bs) fuel line c = Next (edit line bs) (with_typed (with_log c tx) rest).
Proof using.
  induction bs as [|b bs IH]; intros line c rest Hp Ht; cbn [length console_rounds].
  { exists (tx_log c). cbn in Ht. subst rest. by destruct c. }
  apply Forall_cons in Hp as [Hb Hp]. unfold console_step, next_char, mbind, C_bind. rewrite Ht. cbn [app].
  destruct (console_char_plain fuel b line (with_typed c (bs ++ rest)) Hb) as [tx E]. unfold with_typed in E at 1. rewrite E.
  destruct (IH (edit_char line b) (with_log (with_typed c (bs ++ rest)) tx) rest Hp eq_refl) as [tx' ->]. by exists tx'.
Qed.

Lemma rounds_app n m fuel line (c : console) :
  crounds (n + m) fuel line c =
  match crounds n fuel line c with
  | Next line c => crounds m fuel line c | Halted c => Halted c | Waiting c => Waiting c | Stuck => Stuck
  end.
Proof using.
  revert line c. induction n as [|n IH]; intros line c; [done|]. cbn [Nat.add console_rounds]. unfold mbind, C_bind.
  destruct (console_step _ _ _ _ _ _ _); [apply IH|done..].
Qed.

Lemma edit_bound bs : ∀ line, text_len line < 128 → text_len (edit line bs) < 128.
Proof using.
  induction bs as [|b bs IH]; intros line Hl; [done|]. cbn [edit fold_left]. apply IH. unfold edit_char, text_len in *.
  destruct (_ || _); [rewrite length_take; lia|]. destruct (_ || _); [done|]. destruct (_ <? _) eqn:E; [|done]. zbool. rewrite length_app. cbn. lia.
Qed.

(** ** Bounds *)

(** Whatever the command does, a line it returns fits. *)
Definition line_fits {A} (f : A → text) (m : @C F St A) : Prop := ∀ c a c', m c = Next a c' → text_len (f a) < 128.

Lemma fits_bind {A B} (g : B → text) (m : @C F St A) (k : A → @C F St B) : (∀ a, line_fits g (k a)) → line_fits g (m ≫= k).
Proof using. intros Hk c b c'. unfold mbind, C_bind. destruct (m c) as [a c1| | |]; [|done..]. apply Hk. Qed.

Lemma fits_bind_line {A B} (f : A → text) (g : B → text) (m : @C F St A) (k : A → @C F St B) :
  line_fits f m → (∀ a, text_len (f a) < 128 → line_fits g (k a)) → line_fits g (m ≫= k).
Proof using.
  intros Hm Hk c b c'. unfold mbind, C_bind. destruct (m c) as [a c1| | |] eqn:E; [|done..]. apply Hk. by eapply Hm.
Qed.

Lemma fits_ret {A} (g : A → text) (a : A) : text_len (g a) < 128 → line_fits g (mret a).
Proof using. intros Hl c a' c' [= <- _]. done. Qed.

Lemma type_text_fits added : ∀ line, text_len line < 128 → line_fits id (@type_text F St line added).
Proof using.
  induction added as [|ch added IH]; intros line Hl; cbn [type_text]; [by apply fits_ret|]. destruct (_ <? _) eqn:E; [|by apply fits_ret].
  zbool. apply fits_bind. intros _. apply IH. unfold text_len, kMaxLine in *. rewrite length_app. cbn. lia.
Qed.

Lemma complete_command_fits line : text_len line < 128 → line_fits snd (@complete_command_token F St line).
Proof using.
  intros Hl. unfold complete_command_token. destruct (names_with _ _) as [|first [|second rest]]; [by apply fits_ret| |].
  - eapply (fits_bind_line id); [by apply type_text_fits|]. intros l' Hl'. by apply fits_ret.
  - destruct (_ <? _); [eapply (fits_bind_line id); [by apply type_text_fits|]; intros l' Hl'; by apply fits_ret|].
    apply fits_bind. intros _. apply fits_bind. intros _. by apply fits_ret.
Qed.

Lemma complete_path_fits line : text_len line < 128 → line_fits snd (@complete_path_token F FS St line).
Proof using.
  intros Hl. unfold complete_path_token. destruct (last_word _ _) as [|w ws]; [by apply fits_ret|]. apply fits_bind. intros cwd.
  destruct (resolve_path _ _ _) as [[] r]; [|by apply fits_ret]. destruct (get_parent_path _ _); [|by apply fits_ret].
  apply fits_bind. intros ready. apply fits_bind. intros [count entries]. destruct (count <? 0); [by apply fits_ret|].
  destruct (entries_with _ _) as [|e [|e' es]]; [by apply fits_ret| |].
  - eapply (fits_bind_line id); [by apply type_text_fits|]. intros l1 H1. eapply (fits_bind_line id); [|intros l2 H2; by apply fits_ret].
    destruct (de_is_directory e); [by apply type_text_fits|by apply fits_ret].
  - do 3 (apply fits_bind; intros _). by apply fits_ret.
Qed.

Lemma console_char_fits fuel b line : text_len line < 128 → line_fits id (cchar fuel b line).
Proof using.
  intros Hl. unfold console_char. destruct (_ || _); [do 2 (apply fits_bind; intros _); apply fits_ret; unfold text_len, id; cbn [length]; lia|].
  destruct (b =? 9).
  { eapply (fits_bind_line snd); [destruct (existsb _ _); [by apply complete_path_fits|by apply complete_command_fits]|].
    intros [done l'] Hl'. apply fits_bind. intros _. by apply fits_ret. }
  destruct (_ || _).
  { destruct (_ <? _); [|by apply fits_ret]. apply fits_bind. intros _. apply fits_ret. unfold id, text_len in *. rewrite length_take. lia. }
  destruct (_ || _); [by apply fits_ret|]. destruct (_ <? _) eqn:E; [|by apply fits_ret]. zbool. apply fits_bind. intros _. apply fits_ret.
  unfold id, text_len, kMaxLine in *. rewrite length_app. cbn [length]. lia.
Qed.

Lemma console_rounds_fit n fuel : ∀ line, text_len line < 128 → line_fits id (crounds n fuel line).
Proof using.
  induction n as [|n IH]; intros line Hl; cbn [console_rounds]; [by apply fits_ret|].
  eapply (fits_bind_line id); [|exact IH]. apply fits_bind. intros b. by apply console_char_fits.
Qed.

Lemma console_newline fuel e line (c : console) :
  e = 13 ∨ e = 10 → cchar fuel e line c = (exec fuel (take 8 (words line)) ;; print_prompt ;; mret []) c.
Proof using. intros He. unfold console_char. rewrite split_args_words. by destruct He as [->| ->]. Qed.

Lemma rounds_one fuel line b rest (c : console) :
  typed c = b :: rest → crounds 1 fuel line c = cchar fuel b line (with_typed c rest).
Proof using.
  intros Ht. cbn [console_rounds]. unfold console_step, next_char, mbind, C_bind. rewrite Ht. fold (with_typed c rest).
  by destruct (console_char _ _ _ _ _ _ _ _).
Qed.
End editor.

(** C29: typing a line runs its words.  Printable characters extend the line up to 127 characters, backspace and delete shorten it, other
    control characters are ignored, and at the end of the line the first eight words are executed and the prompt is printed with an empty
    line.  Whatever is typed, completions included, the line never grows past its buffer. *)
Theorem console_line_runs {F} `{FS : FileSystem F} {St} store_ready store_save cpu_report pci_report fuel bs e rest line (c : @console F St) :
  text_len line < 128 → Forall plain bs → e = 13 ∨ e = 10 → typed c = bs ++ e :: rest →
  (∃ tx, console_rounds store_ready store_save cpu_report pci_report (length bs + 1) fuel line c =
     (execute_command store_ready store_save cpu_report pci_report fuel (take 8 (words (edit line bs))) ;; print_prompt ;; mret [])
       (with_typed (with_log c tx) rest)) ∧
  ∀ n line' c', console_rounds store_ready store_save cpu_report pci_report n fuel line c = Next line' c' → text_len line' < 128.
Proof.
  intros Hl Hp He Ht. split; [|intros n line' c'; by apply console_rounds_fit].
  destruct (rounds_plain store_ready store_save cpu_report pci_report fuel bs line c (e :: rest) Hp Ht) as [tx E].
  exists tx. rewrite rounds_app, E, (rounds_one _ _ _ _ _ _ e rest) by done. rewrite console_newline by done. done.
Qed.

Definition demo_console (bs : list Z) : @console ramfs unit :=
  mk_console (mk_serial false []) (Some RamFs_new) tt (txt "/home/root") 0 [] bs.

Lemma console_line_runs_witness :
  ∃ tx, @console_rounds ramfs (ramfs_fs (λ _, None)) unit (λ _, false) (λ st f, Done (st, f)) [] [] 7 0 []
      (demo_console [112; 119; 120; 127; 100; 32; 10; 65]) =
    (@execute_command ramfs (ramfs_fs (λ _, None)) unit (λ _, false) (λ st f, Done (st, f)) [] [] 0 [txt "pwd"] ;; print_prompt ;; mret [])
      (with_typed (with_log (demo_console [112; 119; 120; 127; 100; 32; 10; 65]) tx) [65]).
Proof.
  apply (@console_line_runs ramfs (ramfs_fs (λ _, None)) unit (λ _, false) (λ st f, Done (st, f)) [] [] 0 [112; 119; 120; 127; 100; 32] 10 [65] []
    (demo_console [112; 119; 120; 127; 100; 32; 10; 65])); [done|by repeat constructor|by right|done].
Defined.

(** Completing after a slash looks in the directory above the one named. *)
Lemma completion_lists_parent :
  get_parent_path (resolve_path (txt "/") (txt "/home/") 128).2 128 = Some (txt "/") ∧ basename_of (txt "/home/") = [].
Proof. vm_compute. split; reflexivity. Qed.

(** No name is canonicalised to lsblk, and lsdisk is a name without a command. *)
Lemma lsblk_unreachable name : canonical_command_name name ≠ Some (txt "lsblk").
Proof.
  unfold canonical_command_name. destruct (find (alias_matches name) kCommandAliases) as [a|] eqn:E; [|done]. apply find_some in E as [Hin _].
  assert (Forall (λ a, al_name a ≠ txt "lsblk") kCommandAliases) as Hall by (apply (bool_decide_unpack _); vm_compute; exact I).
  rewrite Forall_forall in Hall. intros [= E]. eapply Hall; [by apply list_elem_of_In|done].
Qed.

(** ** Completion of commands *)

Lemma shared_take a b : 0 <= shared a b ∧ take (Z.to_nat (shared a b)) a = take (Z.to_nat (shared a b)) b.
Proof.
  revert b. induction a as [|x a IH]; intros [|y b]; cbn [shared]; try done. destruct (Ascii.eqb x y) eqn:E; [|done].
  apply Ascii.eqb_eq in E as ->. destruct (IH b) as [H0 H1]. split; [lia|]. replace (Z.to_nat (1 + shared a b)) with (S (Z.to_nat (shared a b))) by lia.
  cbn. by rewrite H1.
Qed.

Lemma common_len_spec first rest : ∀ n,
  let m := fold_left (λ n name, Z.min (shared first name) n) rest n in
  m <= n ∧ (0 <= n → 0 <= m) ∧ Forall (λ name, take (Z.to_nat m) name = take (Z.to_nat m) first) rest.
Proof.
  induction rest as [|x rest IH]; intros n; cbn [fold_left]; [by split_and!; [lia|lia|]|].
  destruct (IH (Z.min (shared first x) n)) as (H1 & H2 & H3). destruct (shared_take first x) as [S0 S1]. cbv zeta in *. split_and!; [lia|lia|].
  constructor; [|done]. set (m := fold_left _ _ _) in *. replace (Z.to_nat m) with (Z.to_nat m `min` Z.to_nat (shared first x))%nat by lia.
  by rewrite <- !take_take, S1.
Qed.

(** What is typed for several matches is shared by all of them. *)
Lemma common_prefix first rest :
  let m := common_len first rest in 0 <= m <= text_len first ∧ Forall (λ name, take (Z.to_nat m) name = take (Z.to_nat m) first) (first :: rest).
Proof.
  cbv zeta. destruct (common_len_spec first rest (text_len first)) as (H1 & H2 & H3). unfold common_len. cbv zeta in *.
  split; [split; [apply H2; unfold text_len; lia|done]|by constructor].
Qed.
