(* ===== verification/Pci.v ===== *)
(** * The PCI bus ([kernel/pci.cpp])

    Configuration space through the ports 0xCF8 and 0xCFC.  The hardware
    behind the ports is a parameter: what the data port answers for the address
    last written, and what a write to it does. *)

From S2P Require Import Prelude.

Class ConfigSpace (B : Type) := {
  data_in : B → Z → Z;
  data_out : B → Z → Z → B;
}.

Definition make_address (bus slot func offset : Z) : Z :=
  Z.lor 0x80000000 (Z.lor (Z.shiftl bus 16) (Z.lor (Z.shiftl slot 11) (Z.lor (Z.shiftl func 8) (Z.land offset 0xFC)))).

Record Device := mk_pci {
  d_bus : Z; d_slot : Z; d_func : Z;
  vendor_id : Z; device_id : Z;
  class_code : Z; subclass : Z; prog_if : Z; header_type : Z; irq : Z;
  bar : list Z;
}.

Section pci.
Context {B : Type} `{ConfigSpace B}.

Definition config_read32 (b : B) (bus slot func offset : Z) : Z := data_in b (make_address bus slot func offset).

Definition config_read16 (b : B) (bus slot func offset : Z) : Z :=
  let val := config_read32 b bus slot func (Z.land offset 0xFC) in
  let shift := Z.land offset 3 * 8 in
  u16 (Z.land (Z.shiftr val shift) 0xFFFF).

Definition config_read8 (b : B) (bus slot func offset : Z) : Z :=
  let val := config_read32 b bus slot func (Z.land offset 0xFC) in
  let shift := Z.land offset 3 * 8 in
  u8 (Z.land (Z.shiftr val shift) 0xFF).

Definition config_write32 (b : B) (bus slot func offset value : Z) : B :=
  data_out b (make_address bus slot func offset) value.

Definition config_write16 (b : B) (bus slot func offset value : Z) : B :=
  let aligned := Z.land offset 0xFC in
  let shift := Z.land offset 3 * 8 in
  let cur := config_read32 b bus slot func (u8 aligned) in
  let cur := Z.land cur (u32 (Z.lnot (u32 (Z.shiftl 0xFFFF shift)))) in
  let cur := Z.lor cur (u32 (Z.shiftl value shift)) in
  config_write32 b bus slot func (u8 aligned) cur.

Definition read_device (b : B) (bus slot func : Z) : Device := {|
  d_bus := bus; d_slot := slot; d_func := func;
  vendor_id := config_read16 b bus slot func 0x00;
  device_id := config_read16 b bus slot func 0x02;
  prog_if := config_read8 b bus slot func 0x09;
  subclass := config_read8 b bus slot func 0x0A;
  class_code := config_read8 b bus slot func 0x0B;
  header_type := config_read8 b bus slot func 0x0E;
  irq := config_read8 b bus slot func 0x3C;
  bar := (λ i, config_read32 b bus slot func (0x10 + i * 4)) <$> seqZ 0 6;
|}.

(** The devices found so far; [Full] is the return from inside the loops. *)
Inductive scan := Scanning (out : list Device) | Full (out : list Device).
Definition scan_out (s : scan) : list Device := match s with Scanning out | Full out => out end.

Definition scan_func (b : B) (max bus slot : Z) (s : scan) (func : Z) : scan :=
  match s with
  | Full out => Full out
  | Scanning out =>
      if config_read16 b bus slot func 0x00 =? 0xFFFF then Scanning out
      else
        let out := out ++ [read_device b bus slot func] in
        if max <=? Z.of_nat (length out) then Full out else Scanning out
  end.

Definition scan_slot (b : B) (max bus : Z) (s : scan) (slot : Z) : scan :=
  match s with
  | Full out => Full out
  | Scanning out =>
      if config_read16 b bus slot 0 0x00 =? 0xFFFF then Scanning out
      else
        let multi := negb (Z.land (config_read8 b bus slot 0 0x0E) 0x80 =? 0) in
        fold_left (scan_func b max bus slot) (seqZ 0 (if multi then 8 else 1)) (Scanning out)
  end.

Definition scan_bus (b : B) (max : Z) (s : scan) (bus : Z) : scan :=
  fold_left (scan_slot b max bus) (seqZ 0 32) s.

(** The array filled and [*found]; the pointers are not null. *)
Definition scan_devices (b : B) (max : Z) : list Device :=
  if max =? 0 then [] else scan_out (fold_left (scan_bus b max) (seqZ 0 256) (Scanning [])).
End pci.

(** ** What a scan finds *)

Section pci_spec.
Context {B : Type} `{ConfigSpace B} (b : B).

(** The functions of a slot that answer. *)
Definition present (bus slot func : Z) : bool := negb (config_read16 b bus slot func 0x00 =? 0xFFFF).

Definition slot_functions (bus slot : Z) : list Z :=
  if negb (present bus slot 0) then []
  else if Z.land (config_read8 b bus slot 0 0x0E) 0x80 =? 0 then [0]
  else filter (λ f, present bus slot f = true) (seqZ 0 8).

Definition slot_devices (bus slot : Z) : list Device := read_device b bus slot <$> slot_functions bus slot.
Definition bus_devices (bus : Z) : list Device := concat (slot_devices bus <$> seqZ 0 32).
Definition all_devices : list Device := concat (bus_devices <$> seqZ 0 256).

(** A scan that has the first [max] of the devices passed. *)
Definition scanned (max : Z) (ds : list Device) (s : scan) : Prop :=
  s = if max <=? Z.of_nat (length ds) then Full (take (Z.to_nat max) ds) else Scanning ds.

(** Loops over anything: each step adds its devices. *)
Lemma scan_fold {A} (step : scan → A → scan) (ds : A → list Device) max l s acc :
  0 < max →
  (∀ acc s x, x ∈ l → scanned max acc s → scanned max (acc ++ ds x) (step s x)) →
  scanned max acc s → scanned max (acc ++ concat (ds <$> l)) (fold_left step l s).
Proof.
  intros Hm. revert acc s. induction l as [|x l IH]; intros acc s Hstep Hs; cbn [fold_left fmap list_fmap concat].
  - by rewrite app_nil_r.
  - rewrite app_assoc. apply IH; [|apply Hstep; [by left|done]].
    intros acc' s' y Hy. apply Hstep. by right.
Qed.

Lemma scanned_full max acc more : max <= Z.of_nat (length acc) → scanned max (acc ++ more) (Full (take (Z.to_nat max) acc)).
Proof.
  intros. unfold scanned. rewrite length_app, take_app_le by lia.
  by rewrite (proj2 (Z.leb_le max _)) by lia.
Qed.

Lemma scan_func_ok max bus slot acc s func :
  0 < max → scanned max acc s →
  scanned max (acc ++ (if present bus slot func then [read_device b bus slot func] else [])) (scan_func b max bus slot s func).
Proof.
  intros Hm ->. destruct (max <=? Z.of_nat (length acc)) eqn:E; zbool; [by apply scanned_full|].
  unfold scan_func, present. destruct (_ =? 0xFFFF); cbn [negb].
  - rewrite app_nil_r. unfold scanned. by rewrite (proj2 (Z.leb_gt _ _)) by lia.
  - unfold scanned. destruct (_ <=? _) eqn:E2; [|done]. zbool. rewrite take_ge; [done|]. rewrite length_app. cbn. lia.
Qed.

Lemma concat_singletons (p : Z → bool) {A} (f : Z → A) l :
  concat ((λ x, if p x then [f x] else []) <$> l) = f <$> filter (λ x, p x = true) l.
Proof.
  induction l as [|x l IH]; [done|]. cbn [fmap list_fmap concat]. rewrite IH, filter_cons.
  destruct (p x); cbn; done.
Qed.

Lemma scan_slot_ok max bus acc s slot :
  0 < max → scanned max acc s → scanned max (acc ++ slot_devices bus slot) (scan_slot b max bus s slot).
Proof.
  intros Hm Hs. pose proof Hs as E. unfold scanned in E. destruct (max <=? Z.of_nat (length acc)) eqn:El; subst s.
  { zbool. by apply scanned_full. }
  unfold scan_slot, slot_devices, slot_functions. unfold present at 1.
  destruct (_ =? 0xFFFF) eqn:Ep; cbn [negb]; [cbn; by rewrite app_nil_r|].
  assert (present bus slot 0 = true) as H0 by (unfold present; by rewrite Ep).
  destruct (Z.land _ _ =? 0); cbn [negb].
  - rewrite <- (app_nil_r (_ <$> [0])). pose proof (scan_func_ok max bus slot acc _ 0 Hm Hs) as H1.
    rewrite H0 in H1. cbn. exact H1.
  - rewrite <- concat_singletons.
    apply (scan_fold _ (λ func, if present bus slot func then [read_device b bus slot func] else [])); [done| |done].
    intros. by apply scan_func_ok.
Qed.

(** [scan_devices] reports exactly the functions that answer, in the
    order of bus, slot and function, as far as the array has room: of a device
    without the multi-function bit only function 0, and of a slot whose function
    0 does not answer nothing. *)
Lemma scan_devices_spec (max : Z) :
  0 <= max → scan_devices b max = take (Z.to_nat max) all_devices.
Proof.
  intros Hm. unfold scan_devices. destruct (max =? 0) eqn:E; zbool; [by subst|].
  assert (scanned max ([] ++ all_devices) (fold_left (scan_bus b max) (seqZ 0 256) (Scanning []))) as ->.
  { apply (scan_fold _ bus_devices); [lia| |].
    - intros acc s bus _ Hs. apply (scan_fold _ (slot_devices bus)); [lia| |done]. intros. apply scan_slot_ok; [lia|done].
    - unfold scanned. by rewrite (proj2 (Z.leb_gt _ _)) by (cbn; lia). }
  cbn [app]. destruct (max <=? _) eqn:E2; zbool; cbn [scan_out]; [done|]. rewrite take_ge; [done|lia].
Qed.

End pci_spec.

(** A bus with a bridge in slot 0 and a device with functions 0 and 3 in slot
    4; what does not answer reads as ones. *)
#[local] Instance demo_bus : ConfigSpace unit := {|
  data_in _ addr :=
    if addr =? make_address 0 0 0 0 then 0x12378086
    else if addr =? make_address 0 4 0 0 then 0x11001234
    else if addr =? make_address 0 4 3 0 then 0x11011234
    else if addr =? make_address 0 0 0 12 then 0
    else if addr =? make_address 0 4 0 12 then 0x00800000
    else 0xFFFFFFFF;
  data_out _ _ _ := tt;
|}.

Definition where_and_what (d : Device) : Z * Z * Z := (d_slot d, d_func d, device_id d).

Lemma scan_devices_spec_witness :
  where_and_what <$> scan_devices tt 64 = [(0, 0, 0x1237); (4, 0, 0x1100); (4, 3, 0x1101)].
Proof.
  eapply eq_trans; [exact (f_equal (list_fmap _ _ where_and_what) (scan_devices_spec tt 64 ltac:(discriminate)))|].
  vm_compute. reflexivity.
Defined.

(** ** Addresses *)

(** Different registers have different addresses, and the enable bit is set. *)
Lemma make_address_value bus slot func offset :
  0 <= bus < 256 → 0 <= slot < 32 → 0 <= func < 8 → 0 <= offset < 256 →
  make_address bus slot func offset = 2147483648 + 65536 * bus + 2048 * slot + 256 * func + 4 * (offset / 4).
Proof.
  intros. unfold make_address.
  assert (Z.land offset 0xFC = 4 * (offset / 4)) as ->.
  { assert (∀ i, i ∈ seqZ 0 256 → Z.land i 0xFC = 4 * (i / 4)) as Hall.
    { apply Forall_forall. apply (bool_decide_unpack _). vm_compute. done. }
    apply Hall, elem_of_seqZ. lia. }
  rewrite !Z.shiftl_mul_pow2 by lia.
  rewrite (lor_low_bits 8 (func * 2 ^ 8)), (lor_low_bits 11 (slot * 2 ^ 11)),
    (lor_low_bits 16 (bus * 2 ^ 16)), (lor_low_bits 31 0x80000000);
    first [lia | by apply Z.mod_mul | done | Z.div_mod_to_equations; lia].
Qed.
