(* ===== verification/Shell.v ===== *)
(** * Text and paths of the serial shell ([kernel/shell.cpp])

    The functions of the shell without effects: the distance between names,
    the history of lines, path resolution, numbers, the words of a line and
    the command table.  Text is as in [CText]; the line being edited is the
    whole array, because characters after the cursor stay in it. *)

From S2P Require Import Prelude CText.

Definition kMaxLine : Z := 192.
Definition kMaxArgs : Z := 24.
Definition kMaxPath : Z := 64.
Definition kFileChunk : Z := 128.
Definition kMaxTreeDepth : Z := 8.
Definition kHistoryCapacity : Z := 16.

Definition nul : ascii := "000"%char.
Definition newline : text := ["010"%char].

(** The text at the front of an array. *)
Fixpoint cstr (a : text) : text :=
  match a with
  | [] => []
  | c :: a' => if Ascii.eqb c nul then [] else c :: cstr a'
  end.

Definition is_space (c : ascii) : bool := Ascii.eqb c " "%char || Ascii.eqb c "009"%char.

(** ** Edit distance *)

Definition kMaxWord : Z := 32.

Definition min3 (a b c : Z) : Z :=
  let m := if a <? b then a else b in
  if m <? c then m else c.

(** The inner loop over [b], from index [j]; [a] is [a[i - 1]]. *)
Fixpoint row_loop (a : ascii) (b : text) (j : nat) (prev curr : list Z) : list Z :=
  match b with
  | [] => curr
  | y :: b' =>
      let cost := if Ascii.eqb a y then 0 else 1 in
      let v := min3 ((prev !!! j) +u 1) ((curr !!! (j - 1)%nat) +u 1) ((prev !!! (j - 1)%nat) +u cost) in
      row_loop a b' (S j) prev (<[j := v]> curr)
  end.

(** [for (j = 0; j <= len_b; ++j) prev[j] = curr[j];] *)
Definition copy_row (n : nat) (prev curr : list Z) : list Z :=
  fold_left (λ prev j, <[j := curr !!! j]> prev) (seq 0 (S n)) prev.

Fixpoint rows_loop (a b : text) (i : Z) (prev curr : list Z) : list Z :=
  match a with
  | [] => prev
  | x :: a' =>
      let curr := row_loop x b 1 prev (<[0%nat := i]> curr) in
      rows_loop a' b (i +u 1) (copy_row (length b) prev curr) curr
  end.

Definition edit_distance (a b : text) : Z :=
  let len_a := text_len a in
  let len_b := text_len b in
  if (kMaxWord <? len_a) || (kMaxWord <? len_b) then len_a +u len_b
  else
    let prev := fold_left (λ prev j, <[j := Z.of_nat j]> prev) (seq 0 (S (length b))) (replicate 33 0) in
    rows_loop a b 1 prev (replicate 33 0) !!! length b.

(** The first item with the lowest score. *)
Definition closest {A} (name : A → text) (word : text) (items : list A) : option A * Z :=
  fold_left (λ '(best, best_score) item,
    let score := edit_distance word (name item) in
    if score <? best_score then (Some item, score) else (best, best_score)) items (None, 4294967295).

Definition suggest_from_list (name : text) (items : list text) : option text :=
  let '(best, best_score) := closest id name items in
  if best_score <=? 3 then best else None.

(** ** Numbers *)

(** [while (value > 0 && i < sizeof(buf))], least significant digit first. *)
Fixpoint dec_loop (room : nat) (value : Z) : list Z :=
  match room with
  | O => []
  | S room' => if 0 <? value then (48 + value mod 10) :: dec_loop room' (value / 10) else []
  end.

Fixpoint parse_u32_loop (s : text) (value : Z) : option Z :=
  match s with
  | [] => Some value
  | c :: s' =>
      if (byte_of c <? 48) || (57 <? byte_of c) then None
      else parse_u32_loop s' (value *u 10 +u (byte_of c - 48))
  end.

Definition parse_u32 (s : text) : option Z := match s with [] => None | _ => parse_u32_loop s 0 end.

(** ** History *)

Record history := mk_history {
  g_history : list text;             (** 16 lines of 192 bytes *)
  g_history_count : Z;
  g_history_view : Z;
  g_history_draft : text;
  g_history_draft_valid : bool;
}.

Definition history_boot : history := mk_history (replicate 16 []) 0 (-1) [] false.

Definition history_size (h : history) : Z :=
  if g_history_count h <? kHistoryCapacity then g_history_count h else kHistoryCapacity.

Definition history_at (h : history) (index : Z) : option text :=
  let size := history_size h in
  if (size <=? index) || (size =? 0) then None
  else
    let start := if g_history_count h <? kHistoryCapacity then 0 else g_history_count h mod kHistoryCapacity in
    let slot := (start +u index) mod kHistoryCapacity in
    Some (g_history h !!! Z.to_nat slot).

Definition history_append (h : history) (line : text) : history :=
  match line with
  | [] => h
  | _ =>
      let repeated :=
        (0 <? g_history_count h) &&
        match history_at h (history_size h -u 1) with Some last => text_equal last line | None => false end in
      if repeated then h
      else
        let slot := g_history_count h mod kHistoryCapacity in
        mk_history (<[Z.to_nat slot := copy_text line kMaxLine]> (g_history h)) (g_history_count h +u 1)
          (g_history_view h) (g_history_draft h) (g_history_draft_valid h)
  end.

Definition history_reset_view (h : history) : history :=
  mk_history (g_history h) (g_history_count h) (-1) [] false.

(** The state after [history_move_up] and the text it puts in the line, if
    any; [line] is the array being edited. *)
Definition history_move_up (h : history) (line : text) : option text * history :=
  let size := history_size h in
  if size =? 0 then (None, h)
  else
    let h :=
      if g_history_view h <? 0 then
        mk_history (g_history h) (g_history_count h) (i32 (size -u 1)) (copy_text (cstr line) kMaxLine) true
      else if 0 <? g_history_view h then
        mk_history (g_history h) (g_history_count h) (g_history_view h - 1) (g_history_draft h) (g_history_draft_valid h)
      else h in
    ((λ entry, copy_text entry kMaxLine) <$> history_at h (u32 (g_history_view h)), h).

Definition history_move_down (h : history) : option text * history :=
  let size := history_size h in
  if (size =? 0) || (g_history_view h <? 0) then (None, h)
  else if u32 (g_history_view h) +u 1 <? size then
    let h := mk_history (g_history h) (g_history_count h) (g_history_view h + 1) (g_history_draft h) (g_history_draft_valid h) in
    ((λ entry, copy_text entry kMaxLine) <$> history_at h (u32 (g_history_view h)), h)
  else
    let h := mk_history (g_history h) (g_history_count h) (-1) (g_history_draft h) (g_history_draft_valid h) in
    (Some (if g_history_draft_valid h then copy_text (g_history_draft h) kMaxLine else []), h).

(** ** Paths *)

(** One segment against the ones so far; [None] is the return for a
    seventeenth. *)
Definition push_segment (segs : list text) (seg : text) : option (list text) :=
  if text_equal seg (txt ".") then Some segs
  else if text_equal seg (txt "..") then Some (take (length segs - 1) segs)
  else if 16 <=? Z.of_nat (length segs) then None
  else Some (segs ++ [seg]).

(** The scan of [in] from index 1; [acc] is the segment being read. *)
Fixpoint read_segments (rest acc : text) (segs : list text) : option (list text) :=
  match rest with
  | [] => match acc with [] => Some segs | _ => push_segment segs acc end
  | c :: rest' =>
      if Ascii.eqb c slash then
        match acc with
        | [] => read_segments rest' [] segs
        | _ => segs ← push_segment segs acc; read_segments rest' [] segs
        end
      else read_segments rest' (acc ++ [c]) segs
  end.

Fixpoint write_segments (segs : list text) (first : bool) (out : text) (out_size : Z) : option text :=
  match segs with
  | [] => Some out
  | seg :: segs' =>
      if negb first && (out_size <=? text_len out + 1) then None
      else
        let out := if first then out else out ++ [slash] in
        if out_size <=? text_len out + text_len seg then None
        else write_segments segs' false (out ++ seg) out_size
  end.

Definition normalize_absolute_path (input : text) (out_size : Z) : option text :=
  if out_size <? 2 then None
  else
    match input with
    | c :: rest =>
        if Ascii.eqb c slash then
          segs ← read_segments rest [] [];
          write_segments segs true [slash] out_size
        else None
    | [] => None
    end.

Definition merge_path (cwd input : text) : option text :=
  match input with
  | "/"%char :: _ => Some (copy_text input kMaxPath)
  | _ =>
      if text_equal cwd [slash] then Some (slash :: copy_text input (kMaxPath - 1))
      else
        let merged := copy_text cwd kMaxPath in
        let len := text_len merged in
        if kMaxPath <=? len + 1 then None
        else Some (merged ++ [slash] ++ copy_text input (kMaxPath - len - 1))
  end.

Definition resolve_path (cwd input : text) (out_size : Z) : option text :=
  if out_size <? 2 then None
  else merged ← merge_path cwd input; normalize_absolute_path merged out_size.

(** [while (i > 0 && path[i] == '/') --i] and its opposite, from the end:
    [rev_path] is [path[i], path[i - 1], ..., path[0]]. *)
Fixpoint back_over_slashes (rev_path : text) : text :=
  match rev_path with
  | c :: ((_ :: _) as r) => if Ascii.eqb c slash then back_over_slashes r else rev_path
  | _ => rev_path
  end.

(** [while (i > 0 && path[i - 1] != '/') --i;]: the characters passed. *)
Fixpoint name_before (rev_path acc : text) : text :=
  match rev_path with
  | c :: ((d :: _) as r) => if Ascii.eqb d slash then c :: acc else name_before r (c :: acc)
  | c :: [] => c :: acc
  | [] => acc
  end.

(** The pointer returned is into the path, so trailing slashes stay. *)
Definition path_basename (path : text) : text :=
  match path with
  | [] => []
  | _ =>
      if text_equal path [slash] then path
      else
        let back := back_over_slashes (rev path) in
        name_before back [] ++ drop (length back) path
  end.

(** [while (i > 0 && path[i] != '/') --i;]: what is left is [path[i..0]]. *)
Fixpoint back_to_slash (rev_path : text) : text :=
  match rev_path with
  | c :: ((_ :: _) as r) => if Ascii.eqb c slash then rev_path else back_to_slash r
  | _ => rev_path
  end.

Definition path_dirname (path : text) (out_size : Z) : text :=
  if (text_len path =? 0) || text_equal path [slash] then copy_text [slash] out_size
  else
    let i := Z.of_nat (length (back_to_slash (back_over_slashes (rev path)))) - 1 in
    if i <=? 0 then copy_text [slash] out_size
    else take (Z.to_nat (if out_size <=? i then out_size - 1 else i)) path.

(** ** Words of a line *)

Fixpoint skip_spaces (t : text) : text :=
  match t with
  | c :: t' => if is_space c then skip_spaces t' else t
  | [] => []
  end.

Fixpoint split_while (p : ascii → bool) (t : text) : text * text :=
  match t with
  | c :: t' => if p c then let '(w, r) := split_while p t' in (c :: w, r) else ([], t)
  | [] => ([], [])
  end.

Definition is_quote (c : ascii) : bool := Ascii.eqb c "034"%char || Ascii.eqb c "'"%char.

(** The word at the front of [t], which does not start with a space; what the
    array holds there afterwards, with a NUL where the word ended; and what
    follows. *)
Definition next_word (t : text) : text * text * text :=
  match t with
  | [] => ([], [], [])
  | q :: t' =>
      let '(front, p, t) := if is_quote q then ([q], λ c, negb (Ascii.eqb c q), t') else ([], λ c, negb (is_space c), t) in
      let '(w, r) := split_while p t in
      match r with
      | [] => (w, front ++ w, [])
      | _ :: r' => (w, front ++ w ++ [nul], r')
      end
  end.

(** [argv], and the array that its elements point into. *)
Fixpoint parse_args_loop (room : nat) (t : text) : list text * text :=
  let '(sp, t') := split_while is_space t in
  match t', room with
  | [], _ | _, O => ([], t)
  | _, S room' =>
      let '(w, stored, r) := next_word t' in
      let '(sp2, r') := split_while is_space r in
      match r' with
      | [] => ([w], sp ++ stored ++ sp2)
      | c :: r2 =>
          if Ascii.eqb c "#"%char then ([w], sp ++ stored ++ sp2 ++ nul :: r2)
          else let '(ws, after) := parse_args_loop room' r' in (w :: ws, sp ++ stored ++ sp2 ++ after)
      end
  end.

Definition parse_args (line : text) : list text * text := parse_args_loop (Z.to_nat kMaxArgs) line.

(** [argv[start..]] with spaces between, as far as they fit. *)
Fixpoint join_loop (args : list text) (first : bool) (out : text) (out_size : Z) : text :=
  match args with
  | [] => out
  | a :: args' =>
      let out := if negb first && (text_len out + 1 <? out_size) then out ++ [" "%char] else out in
      join_loop args' false (out ++ take (Z.to_nat (out_size - 1 - text_len out)) a) out_size
  end.

Definition join_rest_args (args : list text) (out_size : Z) : text := join_loop args true [] out_size.

(** ** Searching *)

(** [contains_text]: an empty needle is in nothing. *)
Fixpoint occurs_within (n : nat) (t needle : text) : bool :=
  match n with
  | O => false
  | S n' => text_starts_with t needle || occurs_within n' (drop 1 t) needle
  end.

Definition contains_text (t needle : text) : bool :=
  match needle with
  | [] => false
  | _ =>
      if text_len t <? text_len needle then false
      else occurs_within (length t - length needle + 1) t needle
  end.

(** [text_contains]: an empty needle is in everything. *)
Fixpoint contains_from (t needle : text) : bool :=
  match t with
  | [] => false
  | _ :: t' => text_starts_with t needle || contains_from t' needle
  end.

Definition text_contains (t needle : text) : bool := match needle with [] => true | _ => contains_from t needle end.

Fixpoint common_prefix_len (a b : text) : Z :=
  match a, b with
  | x :: a', y :: b' => if Ascii.eqb x y then 1 + common_prefix_len a' b' else 0
  | _, _ => 0
  end.

(** ** The command table *)

(** The functions behind the names. *)
Inductive handler :=
  | on_help | on_clear | on_whoami | on_id | on_pwd | on_cd | on_ld | on_md | on_rd | on_cat | on_touch
  | on_rm | on_echo | on_cp | on_mv | on_head | on_tail | on_wc | on_cmp | on_stat | on_tree | on_env
  | on_uname | on_cpu | on_pci | on_hid | on_keyboard | on_ahci | on_devices | on_drivers | on_history
  | on_df | on_lsblk | on_sync | on_pkg | on_basename | on_dirname | on_exists | on_isfile | on_isdir
  | on_size | on_write | on_append | on_truncate | on_nl | on_hexdump | on_find | on_grep | on_sleep
  | on_tick | on_uptime | on_ps | on_meminfo | on_free | on_pathjoin | on_realpath | on_seq | on_repeat
  | on_catb | on_countdir | on_touchmany | on_rmmany | on_ctrue | on_cfalse | on_halt | on_exit_shell
  | on_poweroff | on_reboot.

#[export] Instance handler_eq_dec : EqDecision handler.
Proof. solve_decision. Defined.

Definition named (h : handler) (names : list string) : list (text * handler) := (λ n, (txt n, h)) <$> names.

Definition kCommands : list (text * handler) :=
  named on_help ["help"; "?"; "man"; "commands"; "cmds"; "apropos"; "usage"; "h"]%string ++
  named on_clear ["clear"; "cls"; "reset"; "clean"; "wipe"; "screen"]%string ++
  named on_whoami ["whoami"; "iam"; "user"; "me"]%string ++
  named on_id ["id"; "identity"; "uidgid"]%string ++
  named on_pwd ["pwd"; "cwd"; "whereami"; "here"]%string ++
  named on_cd ["cd"; "chdir"; "changedir"; "goto"]%string ++
  named on_ld ["ld"; "dir"; "ll"; "la"; "l"; "list"; "listdir"; "contents"; "browse"; "showdir"; "showfiles"; "list-directory"]%string ++
  named on_md ["md"; "mk"; "makedir"; "newdir"; "createdir"; "create-dir"]%string ++
  named on_rd ["rd"; "rd"; "rmd"; "removedir"; "deldir"; "delete-dir"; "remove-dir"]%string ++
  named on_cat ["cat"; "print"; "type"; "more"; "less"; "show"; "view"; "read"; "display"; "dump"; "readfile"]%string ++
  named on_touch ["touch"; "create"; "newfile"; "mkfile"; "createfile"; "new-file"; "create-file"]%string ++
  named on_rm ["rm"; "del"; "erase"; "delete"; "unlink"; "remove"; "trash"]%string ++
  named on_echo ["echo"; "say"; "speak"; "printline"; "printf"]%string ++
  named on_cp ["cp"; "copy"; "duplicate"; "dup"; "clone"]%string ++
  named on_mv ["mv"; "move"; "rename"; "ren"]%string ++
  named on_head ["head"; "first"; "top"]%string ++
  named on_tail ["tail"; "last"; "bottom"]%string ++
  named on_wc ["wc"; "count"; "metrics"]%string ++
  named on_cmp ["cmp"; "diff"; "compare"]%string ++
  named on_stat ["stat"; "info"; "fileinfo"; "status"; "details"]%string ++
  named on_tree ["tree"; "treedir"; "lsr"]%string ++
  named on_env ["env"; "set"; "vars"; "printenv"]%string ++
  named on_uname ["uname"; "ver"; "version"; "about"; "sysinfo"; "kernel"]%string ++
  named on_cpu ["cpu"; "cpuid"; "lscpu"; "hwinfo"]%string ++
  named on_pci ["lspci"; "pci"]%string ++
  named on_hid ["lshid"]%string ++
  named on_keyboard ["lskb"]%string ++
  named on_hid ["hid"]%string ++
  named on_keyboard ["kbd"; "keyboard"]%string ++
  named on_ahci ["ahci"]%string ++
  named on_devices ["devices"; "devs"; "lsdev"; "lsdevices"]%string ++
  named on_drivers ["drivers"; "lsdrv"; "drvs"; "modules"]%string ++
  named on_history ["history"; "hlist"]%string ++
  named on_df ["df"; "disk"; "storage"]%string ++
  named on_lsblk ["lsdisk"; "lsblk"]%string ++
  named on_sync ["sync"]%string ++
  named on_pkg ["apt"; "apt-get"; "pkg"; "pkgmgr"]%string ++
  named on_basename ["basename"; "base"]%string ++
  named on_dirname ["dirname"; "dirbase"]%string ++
  named on_exists ["exists"; "test-exists"]%string ++
  named on_isfile ["isfile"; "test-file"]%string ++
  named on_isdir ["isdir"; "test-dir"]%string ++
  named on_size ["size"; "filesize"]%string ++
  named on_write ["write"; "overwrite"]%string ++
  named on_append ["append"; "appendfile"]%string ++
  named on_truncate ["truncate"; "truncatefile"]%string ++
  named on_nl ["nl"; "number-lines"]%string ++
  named on_hexdump ["hexdump"; "xxd"]%string ++
  named on_find ["find"; "walk"]%string ++
  named on_grep ["grep"; "search"]%string ++
  named on_sleep ["sleep"; "pause"]%string ++
  named on_tick ["tick"; "ticks"]%string ++
  named on_uptime ["uptime"; "up"]%string ++
  named on_ps ["ps"; "proc"; "tasks"]%string ++
  named on_meminfo ["meminfo"; "mem"]%string ++
  named on_free ["free"]%string ++
  named on_pathjoin ["pathjoin"; "joinpath"]%string ++
  named on_realpath ["realpath"; "normpath"]%string ++
  named on_seq ["seq"; "range"]%string ++
  named on_repeat ["repeat"; "repeattext"]%string ++
  named on_catb ["catb"; "catraw"]%string ++
  named on_countdir ["countdir"; "dircount"]%string ++
  named on_touchmany ["touchmany"; "mkfiles"]%string ++
  named on_rmmany ["rmmany"; "rmfiles"]%string ++
  named on_ctrue ["true"; "yes"]%string ++
  named on_cfalse ["false"; "no"]%string ++
  named on_halt ["halt"]%string ++
  named on_exit_shell ["exit"; "quit"; "logoff"]%string ++
  named on_poweroff ["shutdown"; "stdn"; "poweroff"]%string ++
  named on_halt ["stop"; "off"; "powerdown"]%string ++
  named on_reboot ["reboot"; "restart"; "rbt"; "warmboot"; "reset-machine"]%string.

Definition kCommandCount : Z := Z.of_nat (length kCommands).

Definition find_command (name : text) : option (text * handler) := find (λ e, text_equal (fst e) name) kCommands.

Definition suggest_command (name : text) : option text :=
  let '(best, best_score) := closest fst name kCommands in
  if best_score <=? 2 then fst <$> best
  else if (best_score <=? 3) && (4 <=? text_len name) then fst <$> best
  else None.

(** The only command with this prefix. *)
Definition find_command_prefix (prefix : text) : option (text * handler) :=
  match prefix with
  | [] => None
  | _ => match filter (λ e, text_starts_with (fst e) prefix = true) kCommands with [e] => Some e | _ => None end
  end.

(** ** Names of PCI devices *)

Definition pci_vendor_name (vendor_id : Z) : option text :=
  if vendor_id =? 0x8086 then Some (txt "Intel")
  else if vendor_id =? 0x10EC then Some (txt "Realtek")
  else if vendor_id =? 0x1234 then Some (txt "QEMU/Bochs")
  else if vendor_id =? 0x1B36 then Some (txt "Red Hat/QEMU")
  else if vendor_id =? 0x10DE then Some (txt "NVIDIA")
  else if vendor_id =? 0x1002 then Some (txt "AMD/ATI")
  else None.

Definition pci_class_name (class_code subclass prog_if : Z) : text :=
  txt (match class_code, subclass, prog_if with
  | 0x01, 0x01, _ => "mass storage (IDE)"
  | 0x01, 0x06, _ => "mass storage (SATA)"
  | 0x01, 0x08, _ => "mass storage (NVMe)"
  | 0x01, _, _ => "mass storage"
  | 0x02, _, _ => "network controller"
  | 0x03, _, _ => "display controller"
  | 0x04, _, _ => "multimedia controller"
  | 0x05, _, _ => "memory controller"
  | 0x06, 0x00, _ => "host bridge"
  | 0x06, 0x01, _ => "ISA bridge"
  | 0x06, 0x04, _ => "PCI bridge"
  | 0x06, _, _ => "bridge"
  | 0x0C, 0x03, 0x00 => "USB controller (UHCI)"
  | 0x0C, 0x03, 0x10 => "USB controller (OHCI)"
  | 0x0C, 0x03, 0x20 => "USB controller (EHCI)"
  | 0x0C, 0x03, 0x30 => "USB controller (xHCI)"
  | 0x0C, 0x03, _ => "USB controller"
  | 0x0C, _, _ => "serial bus controller"
  | _, _, _ => "unknown"
  end)%string.
