(* ===== verification/ShellSys.v ===== *)
(** * What the serial shell runs on ([kernel/shell.cpp])

    The state of the shell and the effects its commands have: output, calls
    through [g_fs], and the services of the rest of the kernel, which are the
    class [ShellKernel].  The instance at the end builds them from the models of
    scheduler, heap, frames, storage and PCI. *)

From S2P Require Import Prelude CText Serial Vfs RamFs RamFsSpec Memory Pmm Vmm Paging Heap AddressSpace Scheduler KernelTasks Bytes Block Storage Pci Shell.

Class ShellKernel (K : Type) := {
  (** [interrupts::ticks], and [hlt] until the task runs again *)
  k_ticks : K → Z;
  k_hlt : K → K;
  (** [scheduler::sleep_current], [is_current_sleeping] and the queries *)
  k_sleep : K → Z → Z → K;
  k_sleeping : K → Z → bool;
  k_process_id : K → Z; k_thread_id : K → Z; k_ring_level : K → Z;
  k_process_count : K → Z; k_thread_count : K → Z; k_user_id : K → Z; k_group_id : K → Z;
  (** [heap] and [pmm]; an allocation that is not null *)
  k_alloc : K → Z → Z → bool * K;
  k_used_bytes : K → Z; k_mapped_bytes : K → Z; k_total_frames : K → Z; k_free_frames : K → Z;
  (** storage; [None] is a call through a null function pointer *)
  k_storage_write : K → list Z → option (option StorageHandle * K);
  k_storage_index : K → text → Z → Z → option (bool * K);
  k_storage_ready : K → bool; k_data_start : K → Z; k_next_free : K → Z; k_used_sectors : K → Z;
  (** devices, in the order of the block table, and the PCI scan for 64 *)
  k_devices : K → list BlockDevice;
  k_primary : K → bool;
  k_pci : K → list Device;
  k_xhci_ready : K → bool; k_usbms_present : K → bool;
  k_cpuid : K → Z → Z → Z * Z * Z * Z;
  k_ahci_info : K → list text;
}.

(** ** State and effects *)

Record shell (F K : Type) := mk_shell {
  sh_tx : serial;
  sh_fs : option F;
  sh_kernel : K;
  sh_cwd : text;                     (** [ctx.cwd], 64 bytes *)
  sh_running : bool;
  sh_history : history;
  sh_typed : text;                   (** characters not read yet *)
}.
Arguments mk_shell {F K}.
Arguments sh_tx {F K}. Arguments sh_fs {F K}. Arguments sh_kernel {F K}. Arguments sh_cwd {F K}.
Arguments sh_running {F K}. Arguments sh_history {F K}. Arguments sh_typed {F K}.

(** A command returns, stops the machine, waits for a character that was not
    typed, or does something undefined. *)
Inductive ran (F K A : Type) := Ret (a : A) (s : shell F K) | Stops (s : shell F K) | Waits (s : shell F K) | Undefined.
Arguments Ret {F K A} a s. Arguments Stops {F K A} s. Arguments Waits {F K A} s. Arguments Undefined {F K A}.

Definition Sh (F K A : Type) : Type := shell F K → ran F K A.
#[export] Instance Sh_ret F K : MRet (Sh F K) := λ A a s, Ret a s.
#[export] Instance Sh_bind F K : MBind (Sh F K) := λ A B f m s,
  match m s with Ret a s => f a s | Stops s => Stops s | Waits s => Waits s | Undefined => Undefined end.

Section effects.
Context {F K : Type} `{FS : FileSystem F} `{SK : ShellKernel K}.

Definition with_tx (f : serial → serial) : Sh F K unit := λ s,
  Ret tt (mk_shell (f (sh_tx s)) (sh_fs s) (sh_kernel s) (sh_cwd s) (sh_running s) (sh_history s) (sh_typed s)).
Definition set_fs (f : F) : Sh F K unit := λ s,
  Ret tt (mk_shell (sh_tx s) (Some f) (sh_kernel s) (sh_cwd s) (sh_running s) (sh_history s) (sh_typed s)).
Definition set_kernel (k : K) : Sh F K unit := λ s,
  Ret tt (mk_shell (sh_tx s) (sh_fs s) k (sh_cwd s) (sh_running s) (sh_history s) (sh_typed s)).
Definition set_cwd (t : text) : Sh F K unit := λ s,
  Ret tt (mk_shell (sh_tx s) (sh_fs s) (sh_kernel s) t (sh_running s) (sh_history s) (sh_typed s)).
Definition set_running (r : bool) : Sh F K unit := λ s,
  Ret tt (mk_shell (sh_tx s) (sh_fs s) (sh_kernel s) (sh_cwd s) r (sh_history s) (sh_typed s)).
Definition set_history (h : history) : Sh F K unit := λ s,
  Ret tt (mk_shell (sh_tx s) (sh_fs s) (sh_kernel s) (sh_cwd s) (sh_running s) h (sh_typed s)).
Definition asks {A} (f : shell F K → A) : Sh F K A := λ s, Ret (f s) s.
Definition machine_stops {A} : Sh F K A := λ s, Stops s.
Definition undefined {A} : Sh F K A := λ _, Undefined.

(** *** Output *)

Definition out (t : text) : Sh F K unit := with_tx (λ c, Serial.write c (Some t)).
Definition say (t : string) : Sh F K unit := out (txt t).
Definition say_line (t : string) : Sh F K unit := out (txt t ++ newline).
Definition out_char (b : Z) : Sh F K unit := with_tx (λ c, write_char c b).
Definition out_hex (v : Z) : Sh F K unit := with_tx (λ c, write_hex c v).
Definition out_hex64 (v : Z) : Sh F K unit := with_tx (λ c, write_hex64 c v).
Definition out_bytes (bs : list Z) : Sh F K unit := foldr (λ b k, out_char b ;; k) (mret tt) bs.
Definition each {A} (l : list A) (f : A → Sh F K unit) : Sh F K unit := foldr (λ a k, f a ;; k) (mret tt) l.

Definition write_dec (value : Z) : Sh F K unit :=
  if value =? 0 then say "0" else out_bytes (rev (dec_loop 11 value)).

Definition write_line (t : text) : Sh F K unit := out t ;; out newline.

Definition kAnsiReset : text := "027"%char :: txt "[0m".
Definition kAnsiBoldCyan : text := "027"%char :: txt "[1;36m".
Definition kAnsiGreen : text := "027"%char :: txt "[1;32m".
Definition kAnsiYellow : text := "027"%char :: txt "[1;33m".
Definition kAnsiRed : text := "027"%char :: txt "[1;31m".

Definition write_colored_line (color t : text) : Sh F K unit := out color ;; out t ;; out kAnsiReset ;; out newline.

(** *** The file system *)

Definition fs_ready : Sh F K bool := asks (λ s, match sh_fs s with Some _ => true | None => false end).

(** A call through [g_fs]; through null it is undefined. *)
Definition on_fs {A} (op : F → A * F) : Sh F K A := λ s,
  match sh_fs s with
  | None => Undefined
  | Some f => let '(a, f) := op f in (set_fs f ;; mret a) s
  end.

Definition open_ (path : text) (flags : Z) : Sh F K Z := on_fs (λ f, fs_open f path flags).
Definition read_ (fd n : Z) : Sh F K (Z * list Z) := on_fs (λ f, let '(r, bs, f) := fs_read f fd n in ((r, bs), f)).
Definition close_ (fd : Z) : Sh F K unit := on_fs (λ f, let '(_, f) := fs_close f fd in (tt, f)).
Definition unlink_ (path : text) : Sh F K Z := on_fs (λ f, fs_unlink f path).
Definition rd_ (path : text) : Sh F K Z := on_fs (λ f, fs_rd f path).
Definition md_ (path : text) : Sh F K Z := on_fs (λ f, fs_md f path).
Definition readdir_ (path : text) (room : Z) : Sh F K (Z * list DirEntry) :=
  on_fs (λ f, let '(r, es, f) := fs_readdir f path room in ((r, es), f)).
Definition write_ (fd : Z) (bs : list Z) : Sh F K Z := λ s,
  match sh_fs s with
  | None => Undefined
  | Some f => match fs_write f fd (Some bs) with Done (r, f) => (set_fs f ;; mret r) s | _ => Undefined end
  end.

(** The loop [while (n_total < room) { n = read(...); if (n <= 0) break; ... }];
    every turn reads at least one byte, so [room] turns are enough. *)
Fixpoint gather (turns : nat) (fd room : Z) (got : list Z) : Sh F K (list Z) :=
  match turns with
  | O => mret got
  | S turns' =>
      if Z.of_nat (length got) <? room then
        '(n, bs) ← read_ fd (room - Z.of_nat (length got));
        if n <=? 0 then mret got else gather turns' fd room (got ++ bs)
      else mret got
  end.

(** [while (true) { n = read(fd, buf, size); if (n <= 0) break; body; }] with
    the loop's variables in [acc]. *)
Fixpoint read_loop {A} (fuel : nat) (fd size : Z) (body : Z → list Z → A → Sh F K A) (acc : A) : Sh F K A :=
  match fuel with
  | O => undefined
  | S fuel' =>
      '(n, bs) ← read_ fd size;
      if n <=? 0 then mret acc else acc ← body n bs acc; read_loop fuel' fd size body acc
  end.

(** *** The kernel and the keyboard *)

Definition kernel_ {A} (f : K → A) : Sh F K A := asks (λ s, f (sh_kernel s)).

Definition read_char_blocking : Sh F K ascii := λ s,
  match sh_typed s with
  | [] => Waits s
  | c :: cs => Ret c (mk_shell (sh_tx s) (sh_fs s) (sh_kernel s) (sh_cwd s) (sh_running s) (sh_history s) cs)
  end.
End effects.

(** ** The kernel behind the interface *)

Section instance.
Context {H B : Type} `{Disks H} `{ConfigSpace B}.
Context (page_tables_addr : Z) (driver : nat → BlockDevice) (ide : nat).

(** What the controllers, the processor and the interrupts say. *)
Context (xhci_ready usbms_present : bool) (cpuid : Z → Z → Z * Z * Z * Z) (ahci_info : list text).

Record sys := mk_sys {
  sys_sched : scheduler kernel;
  sys_store : @storage H;
  sys_ticks : Z;
  sys_bus : B;
}.

Context (until_scheduled : sys → sys).

Definition sys_heap (s : sys) : kheap := k_heap (kern (sys_sched s)).
Definition set_sched (s : sys) (sc : scheduler kernel) : sys := mk_sys sc (sys_store s) (sys_ticks s) (sys_bus s).
Definition set_store (s : sys) (st : @storage H) : sys := mk_sys (sys_sched s) st (sys_ticks s) (sys_bus s).

Definition sys_alloc (s : sys) (size alignment : Z) : bool * sys :=
  let '(p, k) := kernel_alloc page_tables_addr (kern (sys_sched s)) size alignment in
  (negb (p =? 0), set_sched s (with_kern (sys_sched s) k)).

Definition sys_devices (s : sys) : list BlockDevice :=
  let b := st_blocks (sys_store s) in
  omap (λ o, device driver b <$> o) (g_devices b).

#[export] Instance sys_kernel : ShellKernel sys := {|
  k_ticks := sys_ticks;
  k_hlt := until_scheduled;
  k_sleep s ticks now := set_sched s (sleep_current (sys_sched s) ticks now);
  k_sleeping s now := is_current_sleeping (sys_sched s) now;
  k_process_id s := current_process_id (sys_sched s);
  k_thread_id s := current_thread_id (sys_sched s);
  k_ring_level s := current_ring_level (sys_sched s);
  k_process_count s := process_count (sys_sched s);
  k_thread_count s := thread_count (sys_sched s);
  k_user_id s := current_user_id (sys_sched s);
  k_group_id s := current_group_id (sys_sched s);
  k_alloc := sys_alloc;
  k_used_bytes s := used_bytes (sys_heap s);
  k_mapped_bytes s := mapped_bytes (sys_heap s);
  k_total_frames s := total_frames (heap_frames (sys_heap s));
  k_free_frames s := free_frames (heap_frames (sys_heap s));
  k_storage_write s data := '(h, st) ← storage_write driver ide (sys_store s) (Some data); Some (h, set_store s st);
  k_storage_index s name start n := '(ok, st) ← storage_add_index_entry driver ide (sys_store s) name start n; Some (ok, set_store s st);
  k_storage_ready s := storage_ready (sys_store s);
  k_data_start _ := storage_data_start_lba;
  k_next_free s := storage_next_free_lba (sys_store s);
  k_used_sectors s := storage_used_sectors (sys_store s);
  k_devices := sys_devices;
  k_primary s := match block_get_primary (st_blocks (sys_store s)) with Some _ => true | None => false end;
  k_pci s := scan_devices (sys_bus s) 64;
  k_xhci_ready _ := xhci_ready;
  k_usbms_present _ := usbms_present;
  k_cpuid _ := cpuid;
  k_ahci_info _ := ahci_info;
|}.
End instance.
