(* ===== verification/ShellCmds.v ===== *)
(** * Commands of the serial shell ([kernel/shell.cpp])

    One definition per handler, over the effects of [ShellSys].  [args] is
    [argv] with [argc] elements.  Loops that end when a read returns nothing
    take fuel; [Undefined] is its exhaustion. *)

From S2P Require Import Prelude CText Serial Vfs RamFs RamFsSpec Snapshot Bytes Block Pci Shell ShellSys.

Definition kKernelName : text := txt "wirthOS".
Definition kKernelNodeName : text := txt "wirth".
Definition kKernelRelease : text := txt "0.2".
Definition kKernelVersion : text := txt "kernel-serial-shell".
Definition kKernelMachine : text := txt "i686".
Definition kKernelProcessor : text := txt "i686".
Definition kKernelHardware : text := txt "x86".

(** ** Output computed from bytes *)

(** What [print_path_lines] shows from the start: through the line that makes
    [max_lines]. *)
Fixpoint head_bytes (bs : list Z) (lines max_lines : Z) : list Z :=
  match bs with
  | [] => []
  | b :: bs' =>
      b :: (if b =? 10 then if max_lines <=? lines +u 1 then [] else head_bytes bs' (lines +u 1) max_lines
            else head_bytes bs' lines max_lines)
  end.

(** What it shows from the end, scanning the reversed buffer. *)
Fixpoint tail_bytes (rev_bs : list Z) (seen max_lines : Z) (acc : list Z) : list Z :=
  match rev_bs with
  | [] => acc
  | b :: rest =>
      if b =? 10 then if max_lines <? seen +u 1 then acc else tail_bytes rest (seen +u 1) max_lines (b :: acc)
      else tail_bytes rest seen max_lines (b :: acc)
  end.

(** Lines, words, bytes and [in_word] of [wc]. *)
Record counts := mk_counts { c_lines : Z; c_words : Z; c_bytes : Z; in_word : bool }.

Definition count_byte (c : counts) (b : Z) : counts :=
  let lines := if b =? 10 then c_lines c +u 1 else c_lines c in
  if (b =? 32) || (b =? 9) || (b =? 10) || (b =? 13) then mk_counts lines (c_words c) (c_bytes c) false
  else if negb (in_word c) then mk_counts lines (c_words c +u 1) (c_bytes c) true
  else mk_counts lines (c_words c) (c_bytes c) (in_word c).

Definition count_chunk (n : Z) (bs : list Z) (c : counts) : counts :=
  fold_left count_byte bs (mk_counts (c_lines c) (c_words c) (c_bytes c +u n) (in_word c)).

Definition hex_byte (b : Z) : list Z := [hex_digit (Z.land (Z.shiftr b 4) 15); hex_digit (Z.land b 15); 32].

(** [child] of [tree_walk] and [find_walk]; [None] is the case without room. *)
Definition walk_child (path name : text) : option text :=
  if text_equal path [slash] then Some (slash :: copy_text name (kMaxPath - 1))
  else
    let child := copy_text path kMaxPath in
    let len := text_len child in
    if len + 1 <? kMaxPath then Some (child ++ [slash] ++ copy_text name (kMaxPath - len - 1)) else None.

(** The four bytes of a register, as [cpu] copies them into text. *)
Definition reg_text (r : Z) : text := (λ b, ascii_of_nat (Z.to_nat b)) <$> le32 r.

Definition uname_flag_present (args : list text) (flag : ascii) : bool :=
  existsb (λ a, match a with "-"%char :: flags => has_char flag flags | _ => false end) (tail args).

Section commands.
Context {F K : Type} `{FS : FileSystem F} `{SK : ShellKernel K}.
Context (fuel : nat).
Abbreviation Sh := (Sh F K).

Definition arg_to_path (arg : text) : Sh (option text) :=
  cwd ← asks sh_cwd;
  match resolve_path cwd arg kMaxPath with
  | None => say_line "invalid path" ;; mret None
  | Some p => mret (Some p)
  end.

(** [if (argc < 2 || !arg_to_path(ctx, argv[1], path, usage)) return;] *)
Definition with_path (args : list text) (k : text → Sh unit) : Sh unit :=
  match args with
  | _ :: a :: _ => p ← arg_to_path a; match p with Some p => k p | None => mret tt end
  | _ => mret tt
  end.

(** The same with the usage printed when the argument is missing. *)
Definition with_path_or (args : list text) (usage : string) (k : text → Sh unit) : Sh unit :=
  match args with _ :: _ :: _ => with_path args k | _ => say_line usage end.

(** The working directory without an argument. *)
Definition with_path_or_cwd (args : list text) (k : text → Sh unit) : Sh unit :=
  match args with
  | _ :: _ :: _ => with_path args k
  | _ => cwd ← asks sh_cwd; k (copy_text cwd kMaxPath)
  end.

Definition with_paths2 (args : list text) (usage : string) (k : text → text → Sh unit) : Sh unit :=
  match args with
  | _ :: a :: b :: _ =>
      p ← arg_to_path a;
      match p with
      | None => mret tt
      | Some p => q ← arg_to_path b; match q with Some q => k p q | None => mret tt end
      end
  | _ => say_line usage
  end.

Definition with_fs (k : Sh unit) : Sh unit := ready ← fs_ready; if ready : bool then k else say_line "fs unavailable".

(** ** File helpers *)

Definition print_path_lines (path : text) (max_lines : Z) (from_end : bool) : Sh unit :=
  with_fs (
    fd ← open_ path kOpenRead;
    if fd <? 0 then say_line "file not found"
    else
      buffer ← gather 1024 fd 1023 [];
      close_ fd ;;
      out_bytes (if from_end then tail_bytes (rev buffer) 0 max_lines [] else head_bytes buffer 0 max_lines)).

Definition get_file_size (path : text) : Sh (option Z) :=
  ready ← fs_ready;
  if negb ready then mret None
  else
    fd ← open_ path kOpenRead;
    if fd <? 0 then mret None
    else
      size ← read_loop fuel fd kFileChunk (λ n _ size, mret (size +u n)) 0;
      close_ fd ;; mret (Some size).

Definition is_directory (path : text) : Sh bool :=
  ready ← fs_ready;
  if negb ready then mret false else '(n, _) ← readdir_ path 1; mret (0 <=? n).

Definition is_regular_file (path : text) : Sh bool :=
  ready ← fs_ready;
  if negb ready then mret false
  else fd ← open_ path kOpenRead; if fd <? 0 then mret false else close_ fd ;; mret true.

Definition path_exists (path : text) : Sh bool :=
  ready ← fs_ready;
  if negb ready then mret false
  else
    '(n, _) ← readdir_ path 1;
    if 0 <=? n then mret true
    else fd ← open_ path kOpenRead; if fd <? 0 then mret false else close_ fd ;; mret true.

Definition write_file_text (path contents : text) (append_mode : bool) : Sh bool :=
  ready ← fs_ready;
  if negb ready then mret false
  else
    let flags_base := Z.lor kOpenWrite kOpenCreate in
    let flags := if append_mode then Z.lor flags_base kOpenRead else Z.lor flags_base kOpenTruncate in
    fd ← open_ path flags;
    if fd <? 0 then mret false
    else
      (if append_mode then read_loop fuel fd kFileChunk (λ _ _ _, mret tt) tt else mret tt) ;;
      wr ← write_ fd (bytes_of contents);
      close_ fd ;; mret (0 <=? wr).

(** ** The shell itself *)

Definition help (args : list text) : Sh unit :=
  let group := args !! 1%nat in
  let shown (names : list string) := match group with None => true | Some g => existsb (λ n, text_equal g (txt n)) names end in
  let section (names : list string) (t : string) := if shown names then say_line t else mret tt in
  say "shell commands loaded: " ;; write_dec kCommandCount ;; out newline ;;
  say_line "help [group]" ;;
  say_line "groups: core | fs | system | info | power" ;;
  section ["all"; "core"]%string "core: ld dir cd pwd md/md rd/rd cat/print touch rm echo cp mv head tail wc cmp stat tree env uname id whoami clear" ;;
  section ["all"; "fs"]%string "fs: basename dirname exists isfile isdir size write append truncate nl hexdump find grep" ;;
  section ["all"; "system"; "info"]%string
    "info: cpu cpuid lscpu hwinfo devices drivers meminfo free ps uptime tick sleep history uname [-a|-s|-n|-r|-v|-m]" ;;
  section ["all"; "system"; "storage"]%string "storage: df disk storage sync" ;;
  section ["all"; "packages"; "pkg"]%string
    "packages: apt/apt-get/pkg/pkgmgr update search list show install remove files policy upgrade" ;;
  section ["all"; "power"]%string "power: reboot restart warmboot poweroff shutdown halt stop off powerdown".

Definition clear : Sh unit := each (seq 0 30) (λ _, out ["013"%char; "010"%char]).
Definition whoami : Sh unit := say_line "root".
Definition id_ : Sh unit :=
  uid ← kernel_ k_user_id; gid ← kernel_ k_group_id;
  say "uid=" ;; out_hex uid ;; say " gid=" ;; out_hex gid ;; out newline.
Definition pwd : Sh unit := cwd ← asks sh_cwd; out cwd ;; out newline.

Definition cd (args : list text) : Sh unit :=
  match args with
  | _ :: _ :: _ =>
      with_path args (λ path,
        ok ← is_directory path;
        if ok : bool then set_cwd (copy_text path kMaxPath) else say_line "cd: directory not found")
  | _ => set_cwd (copy_text (txt "/root") kMaxPath)
  end.

Definition echo (args : list text) : Sh unit :=
  match tail args with
  | [] => mret tt
  | a :: rest => out a ;; each rest (λ b, say " " ;; out b)
  end ;; out newline.

(** [machine_poweroff] and [machine_reboot] do not return. *)
Definition halt : Sh unit := write_line (txt "powering off") ;; machine_stops.
Definition poweroff : Sh unit := write_line (txt "powering off") ;; machine_stops.
Definition reboot : Sh unit := write_line (txt "rebooting") ;; machine_stops.
Definition exit_shell : Sh unit := say_line "leaving shell" ;; set_running false.

Definition show_history : Sh unit :=
  h ← asks sh_history;
  if history_size h =? 0 then say_line "history: empty"
  else each (seqZ 0 (history_size h)) (λ i,
    say "  " ;; write_dec (i +u 1) ;; say ": " ;;
    match history_at h i with Some entry => out entry | None => mret tt end ;; out newline).

Definition ctrue : Sh unit := say_line "true".
Definition cfalse : Sh unit := say_line "false".

(** ** Directories and files *)

Definition ld (args : list text) : Sh unit :=
  with_fs (with_path_or_cwd args (λ path,
    '(n, entries) ← readdir_ path 32;
    if n <? 0 then say_line "ld: cannot list directory"
    else
      each (take (Z.to_nat n) entries) (λ e,
        say (if de_is_directory e then "d " else "f ") ;; out (de_name e) ;; out newline) ;;
      out ["013"%char; "010"%char])).

Definition md (args : list text) : Sh unit :=
  with_fs (with_path args (λ path, r ← md_ path; if r <? 0 then say_line "md: failed" else mret tt)).
Definition rd (args : list text) : Sh unit :=
  with_fs (with_path args (λ path, r ← rd_ path; if r <? 0 then say_line "rd: failed (non-empty or missing)" else mret tt)).
Definition rm (args : list text) : Sh unit :=
  with_fs (with_path args (λ path, r ← unlink_ path; if r <? 0 then say_line "rm: failed" else mret tt)).

Definition cat (args : list text) : Sh unit :=
  with_fs (with_path_or args "cat <file>" (λ path,
    fd ← open_ path kOpenRead;
    if fd <? 0 then say_line "cat: file not found"
    else
      read_loop fuel fd kFileChunk (λ _ bs _, out (text_of bs)) tt ;;
      close_ fd ;; out newline)).

Definition catb (args : list text) : Sh unit :=
  with_fs (with_path_or args "catb <file>" (λ path,
    fd ← open_ path kOpenRead;
    if fd <? 0 then say_line "catb: file not found"
    else read_loop fuel fd kFileChunk (λ _ bs _, out_bytes bs) tt ;; close_ fd)).

Definition touch_flags : Z := Z.lor kOpenWrite kOpenCreate.

Definition touch (args : list text) : Sh unit :=
  with_fs (with_path args (λ path,
    fd ← open_ path touch_flags;
    if fd <? 0 then say_line "touch: failed" else close_ fd)).

(** [cp] reads and writes chunks until the source ends or a write fails. *)
Fixpoint cp_loop (fuel : nat) (src_fd dst_fd : Z) : Sh unit :=
  match fuel with
  | O => undefined
  | S fuel' =>
      '(n, bs) ← read_ src_fd kFileChunk;
      if n <=? 0 then mret tt
      else
        w ← write_ dst_fd bs;
        if w <? 0 then say_line "cp: write error" else cp_loop fuel' src_fd dst_fd
  end.

Definition kOpenReplace : Z := Z.lor (Z.lor kOpenWrite kOpenCreate) kOpenTruncate.

Definition cp (args : list text) : Sh unit :=
  with_fs (with_paths2 args "cp <src> <dst>" (λ src dst,
    src_fd ← open_ src kOpenRead;
    if src_fd <? 0 then say_line "cp: source not found"
    else
      dst_fd ← open_ dst kOpenReplace;
      if dst_fd <? 0 then close_ src_fd ;; say_line "cp: cannot open destination"
      else cp_loop fuel src_fd dst_fd ;; close_ src_fd ;; close_ dst_fd)).

(** The source is removed whatever [cp] did. *)
Definition mv (args : list text) : Sh unit :=
  match args with
  | _ :: _ :: _ :: _ =>
      cp args ;;
      with_path args (λ src,
        ready ← fs_ready;
        r ← (if ready : bool then unlink_ src else mret (-1));
        if r <? 0 then say_line "mv: cleanup failed" else mret tt)
  | _ => say_line "mv <src> <dst>"
  end.

Definition line_count (args : list text) (k : option Z → Sh unit) : Sh unit :=
  match args with _ :: _ :: n :: _ => k (parse_u32 n) | _ => k (Some 10) end.

Definition head (args : list text) : Sh unit :=
  with_path_or args "head <file> [lines]" (λ path, line_count args (λ lines,
    match lines with
    | None => say_line "head: invalid line count"
    | Some lines => print_path_lines path lines false ;; out newline
    end)).

Definition tail_ (args : list text) : Sh unit :=
  with_path_or args "tail <file> [lines]" (λ path, line_count args (λ lines,
    match lines with
    | None => say_line "tail: invalid line count"
    | Some lines => print_path_lines path lines true ;; out newline
    end)).

Definition wc (args : list text) : Sh unit :=
  with_path_or args "wc <file>" (λ path, with_fs (
    fd ← open_ path kOpenRead;
    if fd <? 0 then say_line "wc: file not found"
    else
      c ← read_loop fuel fd kFileChunk (λ n bs c, mret (count_chunk n bs c)) (mk_counts 0 0 0 false);
      close_ fd ;;
      say "lines=" ;; write_dec (c_lines c) ;;
      say " words=" ;; write_dec (c_words c) ;;
      say " bytes=" ;; write_dec (c_bytes c) ;; out newline)).

Fixpoint cmp_loop (fuel : nat) (a_fd b_fd : Z) : Sh bool :=
  match fuel with
  | O => undefined
  | S fuel' =>
      '(an, a_buf) ← read_ a_fd kFileChunk;
      '(bn, b_buf) ← read_ b_fd kFileChunk;
      if negb (an =? bn) then mret false
      else if an <=? 0 then mret true
      else if bool_decide (a_buf = b_buf) then cmp_loop fuel' a_fd b_fd
      else mret false
  end.

Definition cmp (args : list text) : Sh unit :=
  with_paths2 args "cmp <file1> <file2>" (λ a_path b_path, with_fs (
    a_fd ← open_ a_path kOpenRead;
    b_fd ← open_ b_path kOpenRead;
    if (a_fd <? 0) || (b_fd <? 0) then
      (if 0 <=? a_fd then close_ a_fd else mret tt) ;;
      (if 0 <=? b_fd then close_ b_fd else mret tt) ;;
      say_line "cmp: file missing"
    else
      same ← cmp_loop fuel a_fd b_fd;
      close_ a_fd ;; close_ b_fd ;;
      say_line (if same : bool then "cmp: equal" else "cmp: different"))).

Definition stat (args : list text) : Sh unit :=
  with_path_or args "stat <path>" (λ path, with_fs (
    '(dn, _) ← readdir_ path 16;
    if 0 <=? dn then
      say "type=dir entries=" ;; write_dec dn ;; say " path=" ;; out path ;; out newline
    else
      size ← get_file_size path;
      match size with
      | Some size => say "type=file size=" ;; write_dec size ;; say " path=" ;; out path ;; out newline
      | None => say_line "stat: not found"
      end)).

(** [levels] is [kMaxTreeDepth + 1 - depth]: at 0 the depth is past the
    limit. *)
Fixpoint tree_walk (levels : nat) (path : text) (depth : nat) : Sh unit :=
  match levels with
  | O => mret tt
  | S levels' =>
      ready ← fs_ready;
      if negb ready then mret tt
      else
        '(n, entries) ← readdir_ path 16;
        if n <? 0 then mret tt
        else each (take (Z.to_nat n) entries) (λ e,
          each (seq 0 depth) (λ _, say "  ") ;;
          say (if de_is_directory e then "+ " else "- ") ;; out (de_name e) ;; out newline ;;
          if de_is_directory e then
            tree_walk levels' (default (copy_text path kMaxPath) (walk_child path (de_name e))) (S depth)
          else mret tt)
  end.

Definition tree (args : list text) : Sh unit :=
  with_path_or_cwd args (λ path, out path ;; out newline ;; tree_walk 8 path 1).

Fixpoint find_walk (levels : nat) (path needle : text) : Sh unit :=
  match levels with
  | O => mret tt
  | S levels' =>
      ready ← fs_ready;
      if negb ready then mret tt
      else
        '(n, entries) ← readdir_ path 16;
        if n <? 0 then mret tt
        else each (take (Z.to_nat n) entries) (λ e,
          match walk_child path (de_name e) with
          | None => mret tt
          | Some child =>
              (if text_contains (de_name e) needle then out child ;; out newline else mret tt) ;;
              if de_is_directory e then find_walk levels' child needle else mret tt
          end)
  end.

Definition find_ (args : list text) : Sh unit :=
  with_path_or_cwd args (λ path, find_walk 9 path (default [] (args !! 2%nat))).

Definition env : Sh unit :=
  cwd ← asks sh_cwd; ticks ← kernel_ k_ticks;
  say_line "USER=root" ;; say_line "HOME=/root" ;;
  say "PWD=" ;; out cwd ;; out newline ;; say "TICKS=" ;; write_dec ticks ;; out newline.

(** The fields shown, the first without a space before it. *)
Fixpoint uname_fields (shown : list (bool * text)) (first : bool) : Sh bool :=
  match shown with
  | [] => mret first
  | (true, value) :: shown' => (if first then mret tt else say " ") ;; out value ;; uname_fields shown' false
  | (false, _) :: shown' => uname_fields shown' first
  end.

Definition uname (build_stamp : text) (args : list text) : Sh unit :=
  let flag c := uname_flag_present args c in
  let all := (Z.of_nat (length args) <=? 1) || flag "a"%char in
  first ← uname_fields
    [(all || flag "s"%char, kKernelName); (all || flag "n"%char, kKernelNodeName); (all || flag "r"%char, kKernelRelease);
     (all || flag "v"%char, kKernelVersion); (all || flag "m"%char, kKernelMachine); (all || flag "p"%char, kKernelProcessor);
     (all || flag "i"%char, kKernelHardware)] true;
  (if first : bool then out kKernelName else if negb all then say " " ;; out build_stamp else mret tt) ;;
  (if all then say " " ;; out build_stamp else mret tt) ;; out newline.

Definition basename (args : list text) : Sh unit :=
  cwd ← asks sh_cwd;
  let input := default cwd (args !! 1%nat) in
  match (match input with "/"%char :: _ => Some (copy_text input kMaxPath) | _ => resolve_path cwd input kMaxPath end) with
  | None => say_line "basename: invalid path"
  | Some path => out (path_basename path) ;; out newline
  end.

Definition dirname (args : list text) : Sh unit :=
  cwd ← asks sh_cwd;
  let input := default cwd (args !! 1%nat) in
  match (match input with "/"%char :: _ => Some (copy_text input kMaxPath) | _ => resolve_path cwd input kMaxPath end) with
  | None => say_line "dirname: invalid path"
  | Some path => out (path_dirname path kMaxPath) ;; out newline
  end.

Definition yes_no (b : bool) : Sh unit := say_line (if b then "yes" else "no").
Definition exists_ (args : list text) : Sh unit := with_path args (λ path, r ← path_exists path; yes_no r).
Definition isfile (args : list text) : Sh unit := with_path args (λ path, r ← is_regular_file path; yes_no r).
Definition isdir (args : list text) : Sh unit := with_path args (λ path, r ← is_directory path; yes_no r).

Definition size_ (args : list text) : Sh unit :=
  with_path args (λ path,
    size ← get_file_size path;
    match size with Some size => write_dec size ;; out newline | None => say_line "size: not a file" end).

(** [write] and [append] want the text too. *)
Definition with_text (args : list text) (k : text → text → Sh unit) : Sh unit :=
  match args with
  | _ :: _ :: ((_ :: _) as rest) => with_path args (λ path, k path (join_rest_args rest kMaxLine))
  | _ => mret tt
  end.

Definition write (args : list text) : Sh unit :=
  with_text args (λ path t, ok ← write_file_text path t false; if ok : bool then mret tt else say_line "write: failed").
Definition append (args : list text) : Sh unit :=
  with_text args (λ path t, ok ← write_file_text path t true; if ok : bool then mret tt else say_line "append: failed").
Definition truncate (args : list text) : Sh unit :=
  with_path args (λ path, ok ← write_file_text path [] false; if ok : bool then mret tt else say_line "truncate: failed").

Definition nl_byte (line b : Z) : Sh Z :=
  out_char b ;; if b =? 10 then write_dec (line +u 1) ;; say ": " ;; mret (line +u 1) else mret line.
Definition nl_chunk (bs : list Z) (line : Z) : Sh Z := foldl (λ m b, line ← m; nl_byte line b) (mret line) bs.

Definition nl (args : list text) : Sh unit :=
  with_fs (with_path args (λ path,
    fd ← open_ path kOpenRead;
    if fd <? 0 then say_line "nl: file not found"
    else
      write_dec 1 ;; say ": " ;;
      read_loop fuel fd kFileChunk (λ _ bs line, nl_chunk bs line) 1 ;;
      close_ fd ;; out newline)).

Definition hexdump (args : list text) : Sh unit :=
  with_fs (with_path args (λ path,
    fd ← open_ path kOpenRead;
    if fd <? 0 then say_line "hexdump: file not found"
    else
      read_loop fuel fd 16 (λ n bs offset,
        out_hex offset ;; say ": " ;; out_bytes (concat (hex_byte <$> bs)) ;; out newline ;; mret (offset +u n)) 0 ;;
      close_ fd)).

Definition grep (args : list text) : Sh unit :=
  with_fs (match args with
  | _ :: needle :: file :: _ =>
      path ← arg_to_path file;
      match path with
      | None => mret tt
      | Some path =>
          fd ← open_ path kOpenRead;
          if fd <? 0 then say_line "grep: file not found"
          else
            buf ← gather 1024 fd 1023 [];
            close_ fd ;;
            say_line (if text_contains (text_of buf) needle then "match" else "no-match")
      end
  | _ => say_line "grep <text> <file>"
  end).

Definition countdir (args : list text) : Sh unit :=
  with_fs (with_path_or_cwd args (λ path,
    '(n, _) ← readdir_ path 32;
    if n <? 0 then say_line "countdir: failed" else write_dec n ;; out newline)).

(** Both stop at the first argument that is not a path. *)
Fixpoint many (args : list text) (op : text → text → Sh unit) : Sh unit :=
  match args with
  | [] => mret tt
  | a :: args' => p ← arg_to_path a; match p with Some p => op a p ;; many args' op | None => mret tt end
  end.

Definition touchmany (args : list text) : Sh unit :=
  with_fs (match args with
  | _ :: ((_ :: _) as rest) =>
      many rest (λ a path,
        fd ← open_ path touch_flags;
        if fd <? 0 then say "touchmany: failed for " ;; out a ;; out newline else close_ fd)
  | _ => say_line "touchmany <file1> [file2 ...]"
  end).

Definition rmmany (args : list text) : Sh unit :=
  with_fs (match args with
  | _ :: ((_ :: _) as rest) =>
      many rest (λ a path,
        r ← unlink_ path;
        if r <? 0 then say "rmmany: failed for " ;; out a ;; out newline else mret tt)
  | _ => say_line "rmmany <file1> [file2 ...]"
  end).

(** [joined] is the input and the output of the second call. *)
Definition pathjoin (args : list text) : Sh unit :=
  match args with
  | _ :: a :: b :: _ =>
      cwd ← asks sh_cwd;
      match resolve_path (match a with "/"%char :: _ => [slash] | _ => cwd end) a kMaxPath with
      | None => say_line "pathjoin: invalid"
      | Some joined =>
          match resolve_path joined b kMaxPath with
          | None => say_line "pathjoin: invalid"
          | Some joined => out joined ;; out newline
          end
      end
  | _ => say_line "pathjoin <a> <b>"
  end.

Definition realpath (args : list text) : Sh unit := with_path_or_cwd args (λ path, out path ;; out newline).

(** ** Numbers and time *)

Definition seq_usage : string := "seq <end> | seq <start> <end> [step]".

(** [Some None] is an invalid step; [None] prints the usage. *)
Definition seq_range (args : list text) : option (option (Z * Z * Z)) :=
  match args with
  | [_; e] => e ← parse_u32 e; Some (Some (1, e, 1))
  | [_; b; e] => b ← parse_u32 b; e ← parse_u32 e; Some (Some (b, e, 1))
  | _ :: b :: e :: st :: _ => b ← parse_u32 b; e ← parse_u32 e; Some (st ← parse_u32 st; Some (b, e, st))
  | _ => None
  end.

(** The values printed, one for each turn of the loop. *)
Fixpoint seq_loop (turns : nat) (v last step : Z) : Sh unit :=
  match turns with
  | O => undefined
  | S turns' =>
      if v <=? last then
        write_dec v ;; out newline ;;
        if last -u v <? step then mret tt else seq_loop turns' (v +u step) last step
      else mret tt
  end.

Definition seq_ (args : list text) : Sh unit :=
  match seq_range args with
  | None => say_line seq_usage
  | Some None => say_line "seq: invalid step"
  | Some (Some (start, last, step)) =>
      if (step =? 0) || (last <? start) then say_line "seq: invalid range"
      else seq_loop (Z.to_nat ((last - start) / step + 1)) start last step
  end.

Fixpoint repeat_loop (n : nat) (t : text) : Sh unit :=
  match n with O => mret tt | S n' => out t ;; out newline ;; repeat_loop n' t end.

Definition repeat_ (args : list text) : Sh unit :=
  match args with
  | _ :: n :: ((_ :: _) as rest) =>
      match parse_u32 n with
      | None => say_line "repeat: invalid n"
      | Some n => repeat_loop (Z.to_nat n) (join_rest_args rest kMaxLine)
      end
  | _ => say_line "repeat <n> <text...>"
  end.

(** [while (is_current_sleeping(ticks())) hlt;] *)
Fixpoint sleep_loop (fuel : nat) : Sh unit :=
  match fuel with
  | O => undefined
  | S fuel' =>
      k ← asks sh_kernel;
      if k_sleeping k (k_ticks k) then set_kernel (k_hlt k) ;; sleep_loop fuel' else mret tt
  end.

Definition sleep (args : list text) : Sh unit :=
  match (match args with _ :: n :: _ => parse_u32 n | _ => Some 10 end) with
  | None => say_line "sleep: invalid ticks"
  | Some ticks => k ← asks sh_kernel; set_kernel (k_sleep k ticks (k_ticks k)) ;; sleep_loop fuel
  end.

Definition tick : Sh unit := t ← kernel_ k_ticks; write_dec t ;; out newline.
Definition uptime : Sh unit :=
  t ← kernel_ k_ticks; say "ticks=" ;; write_dec t ;; say " sec=" ;; write_dec (t / 100) ;; out newline.

(** ** What the kernel reports *)

Definition ps : Sh unit :=
  k ← asks sh_kernel;
  say "pid=" ;; write_dec (k_process_id k) ;; say " tid=" ;; write_dec (k_thread_id k) ;;
  say " ring=" ;; write_dec (k_ring_level k) ;; say " proc_count=" ;; write_dec (k_process_count k) ;;
  say " thread_count=" ;; write_dec (k_thread_count k) ;; out newline.

Definition meminfo : Sh unit :=
  k ← asks sh_kernel;
  say "heap_used=" ;; write_dec (k_used_bytes k) ;; say " heap_mapped=" ;; write_dec (k_mapped_bytes k) ;;
  say " pmm_total_frames=" ;; write_dec (k_total_frames k) ;; say " pmm_free_frames=" ;; write_dec (k_free_frames k) ;; out newline.

Definition free : Sh unit :=
  k ← asks sh_kernel;
  let total := k_total_frames k in
  let unused := k_free_frames k in
  let used := if unused <=? total then total -u unused else 0 in
  say_line "              total        used        free" ;;
  say "Mem:     " ;; write_dec (total *u 4) ;; say " KiB   " ;; write_dec (used *u 4) ;; say " KiB   " ;;
  write_dec (unused *u 4) ;; say_line " KiB" ;;
  say "Heap:    " ;; write_dec (k_mapped_bytes k / 1024) ;; say " KiB mapped, " ;;
  write_dec (k_used_bytes k / 1024) ;; say_line " KiB used" ;;
  say "Frames:  total=" ;; write_dec total ;; say " free=" ;; write_dec unused ;; say " used=" ;; write_dec used ;;
  say " page_size=" ;; write_dec 4096 ;; out newline.

Definition df : Sh unit :=
  k ← asks sh_kernel;
  say "storage_ready=" ;; say (if k_storage_ready k then "yes" else "no") ;;
  say " data_start_lba=" ;; write_dec (k_data_start k) ;; say " next_free_lba=" ;; write_dec (k_next_free k) ;;
  say " used_sectors=" ;; write_dec (k_used_sectors k) ;;
  say " approx_bytes=" ;; write_dec (k_used_sectors k *u 512) ;; out newline.

Definition lsblk_device (dev : BlockDevice) : Sh unit :=
  out (default (txt "unnamed") (bd_name dev)) ;; out ["009"%char] ;;
  (if (bd_block_count dev =? 0) || (bd_block_size dev =? 0) then out (txt "unknown" ++ ["009"%char])
   else
     let bytes := u64 (bd_block_count dev * bd_block_size dev) in
     let mib := bytes / 1048576 in
     if 0 <? mib then write_dec (u32 mib) ;; out (txt " MiB" ++ ["009"%char])
     else write_dec (u32 (bytes / 1024)) ;; out (txt " KiB" ++ ["009"%char])) ;;
  write_dec (bd_block_size dev) ;; out (["009"%char] ++ txt " disk" ++ ["009"%char] ++ txt "device" ++ newline).

Definition lsblk : Sh unit :=
  k ← asks sh_kernel;
  out (txt "NAME" ++ ["009"%char] ++ txt "SIZE" ++ ["009"%char] ++ txt "BLOCK" ++ ["009"%char] ++ txt "TYPE" ++
       ["009"%char] ++ txt "SOURCE" ++ newline) ;;
  match k_devices k with
  | [] => say_line "lsdisk: no block device registered"
  | devs => each devs lsblk_device
  end.

Definition sync_ : Sh unit := say_line "sync: storage writes are immediate on this build".

Definition cpu_raw : Sh unit :=
  k ← asks sh_kernel;
  let '(eax, ebx, ecx, edx) := k_cpuid k 0 0 in
  say "cpuid eax=0x" ;; out_hex eax ;; say " ebx=0x" ;; out_hex ebx ;;
  say " ecx=0x" ;; out_hex ecx ;; say " edx=0x" ;; out_hex edx ;; out newline.

Definition display_family (eax : Z) : Z :=
  let family := Z.land (Z.shiftr eax 8) 0xF in
  if family =? 0xF then family +u Z.land (Z.shiftr eax 20) 0xFF else family.
Definition display_model (eax : Z) : Z :=
  let family := Z.land (Z.shiftr eax 8) 0xF in
  Z.land (Z.shiftr eax 4) 0xF +u (if (family =? 6) || (family =? 0xF) then Z.shiftl (Z.land (Z.shiftr eax 16) 0xF) 4 else 0).

Definition brand_text (regs : Z * Z * Z * Z) : text :=
  let '(a, b, c, d) := regs in reg_text a ++ reg_text b ++ reg_text c ++ reg_text d.

Definition cpu_info : Sh unit :=
  k ← asks sh_kernel;
  let '(eax, ebx, ecx, edx) := k_cpuid k 0 0 in
  say "vendor: " ;; out (cstr (reg_text ebx ++ reg_text edx ++ reg_text ecx)) ;; say " maxleaf=0x" ;; out_hex eax ;; out newline ;;
  let '(eax, ebx, ecx, edx) := k_cpuid k 1 0 in
  say "signature: family=" ;; write_dec (display_family eax) ;; say " model=" ;; write_dec (display_model eax) ;;
  say " stepping=" ;; write_dec (Z.land eax 0xF) ;;
  say " logical_cpus=" ;; write_dec (Z.land (Z.shiftr ebx 16) 0xFF) ;;
  say " apic_id=" ;; write_dec (Z.land (Z.shiftr ebx 24) 0xFF) ;; out newline ;;
  say "family/model/stepping: 0x" ;; out_hex eax ;; say " features edx=0x" ;; out_hex edx ;;
  say " ecx=0x" ;; out_hex ecx ;; out newline ;;
  let '(max_ext, _, _, _) := k_cpuid k 0x80000000 0 in
  if 0x80000004 <=? max_ext then
    say "model name: " ;;
    out (cstr (brand_text (k_cpuid k 0x80000002 0) ++ brand_text (k_cpuid k 0x80000003 0) ++ brand_text (k_cpuid k 0x80000004 0))) ;;
    out newline
  else mret tt.

Definition cpu (args : list text) : Sh unit :=
  match args with
  | _ :: a :: _ => if text_equal a (txt "raw") then cpu_raw else cpu_info
  | _ => cpu_info
  end.

Definition availability (b : bool) (yes no : string) : Sh unit := say_line (if b then yes else no).

Definition devices : Sh unit :=
  k ← asks sh_kernel;
  say_line "devices:" ;; say_line "- serial0 (console I/O)" ;; say_line "- ps/2 keyboard input" ;; say_line "- PCI bus scanner" ;;
  say "- xHCI controller: " ;; availability (k_xhci_ready k) "ready" "unavailable" ;;
  say "- USB mass storage: " ;; availability (k_usbms_present k) "present" "unavailable" ;;
  say "- primary block device: " ;; availability (k_primary k) "registered" "none" ;;
  say_line "- ramfs rootfs" ;; say_line "- syscall ABI" ;; say_line "- scheduler / tasks" ;; say_line "- gdt / idt / tss".

Definition hid : Sh unit :=
  k ← asks sh_kernel;
  say_line "hid/input:" ;; say_line "- serial console input" ;; say_line "- ps/2 keyboard polling" ;;
  say "- xHCI controller: " ;; availability (k_xhci_ready k) "ready" "unavailable" ;;
  say_line "- USB HID: not enumerated yet" ;;
  say "- USB mass storage: " ;; availability (k_usbms_present k) "present" "unavailable".

Definition keyboard : Sh unit :=
  say_line "keyboard:" ;; say_line "- PS/2 scan polling enabled" ;; say_line "- line editing enabled" ;;
  say_line "- console backend: serial + VGA".

Definition drivers : Sh unit :=
  each ["drivers:"; "- serial"; "- gdt/tss"; "- idt/interrupts"; "- pic"; "- pit"; "- pmm"; "- vmm"; "- heap"; "- ramfs";
        "- syscall"; "- scheduler"]%string say_line.

(** The base address registers from index [b]; a 64-bit one takes the next
    too. *)
Fixpoint show_bars (b : Z) (bars : list Z) : Sh unit :=
  match bars with
  | [] => mret tt
  | raw :: rest =>
      if raw =? 0 then show_bars (b + 1) rest
      else
        say "  BAR" ;; write_dec b ;;
        if negb (Z.land raw 1 =? 0) then say " io=0x" ;; out_hex (Z.land raw (u32 (Z.lnot 3))) ;; show_bars (b + 1) rest
        else
          match rest with
          | high :: rest' =>
              if Z.land raw 6 =? 4 then
                say " mmio64=" ;; out_hex64 (Z.lor (Z.shiftl high 32) (Z.land raw (u32 (Z.lnot 0xF)))) ;; show_bars (b + 2) rest'
              else say " mmio=0x" ;; out_hex (Z.land raw (u32 (Z.lnot 0xF))) ;; show_bars (b + 1) rest
          | [] => say " mmio=0x" ;; out_hex (Z.land raw (u32 (Z.lnot 0xF)))
          end
  end.

Definition pci_device (d : Device) : Sh unit :=
  say "PCI " ;; write_dec (d_bus d) ;; say ":" ;; write_dec (d_slot d) ;; say "." ;; write_dec (d_func d) ;; say " " ;;
  match pci_vendor_name (vendor_id d) with Some v => out v ;; say " " | None => mret tt end ;;
  say "vendor=0x" ;; out_hex (vendor_id d) ;; say " device=0x" ;; out_hex (device_id d) ;;
  say " class=" ;; out (pci_class_name (class_code d) (subclass d) (prog_if d)) ;;
  say " [0x" ;; out_hex (class_code d) ;; say "/0x" ;; out_hex (subclass d) ;; say "/0x" ;; out_hex (prog_if d) ;; say "]" ;;
  say " irq=" ;; write_dec (irq d) ;; show_bars 0 (bar d) ;; out newline.

Definition pci : Sh unit :=
  devs ← kernel_ k_pci;
  match devs with [] => say_line "pci: no devices found" | _ => each devs pci_device end.

Definition ahci : Sh unit := info ← kernel_ k_ahci_info; each info out.
End commands.
