(* ===== verification/ShellPkg.v ===== *)
(** * The package manager of the serial shell ([kernel/shell.cpp])

    The catalogue built into the kernel, the markers that say what is
    installed, installation with its copy on storage, removal, and the [apt]
    command. *)

From S2P Require Import Prelude CText Serial Vfs RamFs RamFsSpec Bytes Block Storage Shell ShellSys ShellCmds.

Record PackageFileEntry := mk_file { pf_path : text; pf_contents : text }.
Record PackageDefinition := mk_package { pkg_name : text; pkg_version : text; pkg_summary : text; pkg_files : list PackageFileEntry }.

Definition file (path contents : string) : PackageFileEntry := mk_file (txt path) (txt contents ++ newline).

Definition kPkgDbDir : text := txt "/var/lib/wirth/pkgdb".
Definition kAptDir : text := txt "/etc/apt".
Definition kAptSourcesDir : text := txt "/etc/apt/sources.list.d".
Definition kDocDir : text := txt "/usr/share/doc/wirth".

Definition kBaseSystemFiles : list PackageFileEntry :=
  [file "/etc/issue" "wirth OS - package-managed shell build";
   file "/etc/apt/sources.list.d/wirth.list" "deb local://wirth stable main";
   file "/usr/share/doc/wirth/base-system.txt" "Base system metadata package."].

Definition kHomeLayoutFiles : list PackageFileEntry :=
  [file "/root/README.txt" "Root home workspace managed by wirth packages.";
   file "/home/root/README.txt" "Primary home directory for the root user.";
   file "/home/root/Documents/README.txt" "Documents folder seeded by the package manager.";
   file "/home/root/Downloads/README.txt" "Downloads folder seeded by the package manager.";
   file "/home/root/Desktop/README.txt" "Desktop folder seeded by the package manager."].

Definition kDevToolsFiles : list PackageFileEntry :=
  [file "/usr/share/doc/wirth/devtools.txt" "Developer tools and shell inspection helpers.";
   file "/usr/share/doc/wirth/apt.txt" "wirth apt-like package manager.";
   file "/usr/share/doc/wirth/commands.txt" "Shell command families and aliases."].

Definition kDemoDocsFiles : list PackageFileEntry :=
  [file "/opt/demo/hello.txt" "Hello from a package-installed demo payload.";
   file "/opt/demo/notes.txt" "This package proves file installation works."].

Definition kPackages : list PackageDefinition :=
  [mk_package (txt "base-system") (txt "1.0") (txt "Base system metadata and apt bootstrap") kBaseSystemFiles;
   mk_package (txt "home-layout") (txt "1.0") (txt "Default home layout and starter docs") kHomeLayoutFiles;
   mk_package (txt "devtools") (txt "1.0") (txt "Developer docs and package inspection helpers") kDevToolsFiles;
   mk_package (txt "demo-docs") (txt "1.0") (txt "Demo payload installed under /opt") kDemoDocsFiles].

Definition find_package (name : text) : option PackageDefinition := find (λ p, text_equal (pkg_name p) name) kPackages.

Definition suggest_package (name : text) : option PackageDefinition :=
  let '(best, best_score) := closest pkg_name name kPackages in
  if best_score <=? 3 then best else None.

Definition package_match (p : PackageDefinition) (needle : text) : bool :=
  match needle with
  | [] => true
  | _ => contains_text (pkg_name p) needle || contains_text (pkg_summary p) needle
  end.

(** The path of the marker; empty when the name does not fit. *)
Definition build_package_marker (name : text) (out_size : Z) : text :=
  let dir := copy_text kPkgDbDir out_size in
  if out_size <=? text_len dir + 2 then dir
  else
    let dir := match last dir with Some c => if Ascii.eqb c slash then dir else dir ++ [slash] | None => dir end in
    let path := dir ++ take (Z.to_nat (out_size - 1 - text_len dir)) name in
    if out_size <=? text_len path + 12 then [] else path ++ txt ".installed".

Definition marker (p : PackageDefinition) : text := build_package_marker (pkg_name p) 96.

(** What is stored: for each file the length of its path, the length of its
    contents, the path and the contents. *)
Definition pack_file (f : PackageFileEntry) : list Z :=
  le32 (text_len (pf_path f)) ++ le32 (text_len (pf_contents f)) ++ bytes_of (pf_path f) ++ bytes_of (pf_contents f).
Definition payload (p : PackageDefinition) : list Z := concat (pack_file <$> pkg_files p).

Section packages.
Context {F K : Type} `{FS : FileSystem F} `{SK : ShellKernel K}.
Context (fuel : nat).
Abbreviation Sh := (Sh F K).

Definition ensure_dir (path : text) : Sh bool :=
  ready ← fs_ready;
  if negb ready then mret false
  else
    there ← path_exists path;
    if there : bool then mret true else r ← md_ path; mret (0 <=? r).

(** [a() && b() && ...] *)
Fixpoint ensure_dirs (paths : list text) : Sh bool :=
  match paths with
  | [] => mret true
  | p :: paths' => ok ← ensure_dir p; if ok : bool then ensure_dirs paths' else mret false
  end.

Definition package_dirs : list text :=
  [txt "/var"; txt "/var/lib"; txt "/var/lib/wirth"; kPkgDbDir; kAptDir; kAptSourcesDir; txt "/usr"; txt "/usr/share";
   txt "/usr/share/doc"; kDocDir; txt "/opt"; txt "/opt/demo"].

Definition ensure_package_dirs : Sh bool := ensure_dirs package_dirs.

Definition package_installed (p : PackageDefinition) : Sh bool :=
  match marker p with [] => mret false | m => path_exists m end.

Fixpoint install_files (files : list PackageFileEntry) : Sh bool :=
  match files with
  | [] => mret true
  | f :: files' => ok ← write_file_text fuel (pf_path f) (pf_contents f) false; if ok : bool then install_files files' else mret false
  end.

Definition install_package_files (p : PackageDefinition) : Sh bool := install_files (pkg_files p).

Definition remove_package_files (p : PackageDefinition) : Sh unit :=
  ready ← fs_ready;
  if negb ready then mret tt
  else
    each (pkg_files p) (λ f, unlink_ (pf_path f) ;; mret tt) ;;
    match marker p with [] => mret tt | m => unlink_ m ;; mret tt end.

(** The services return [None] for a call through null. *)
Definition alloc_ (size alignment : Z) : Sh bool :=
  k ← asks sh_kernel; let '(ok, k) := k_alloc k size alignment in set_kernel k ;; mret ok.
Definition storage_write_ (data : list Z) : Sh (option StorageHandle) :=
  k ← asks sh_kernel; match k_storage_write k data with Some (h, k) => set_kernel k ;; mret h | None => undefined end.
Definition storage_index_ (name : text) (start n : Z) : Sh bool :=
  k ← asks sh_kernel; match k_storage_index k name start n with Some (ok, k) => set_kernel k ;; mret ok | None => undefined end.

Definition failing (p : PackageDefinition) : Sh bool := remove_package_files p ;; mret false.

Definition store_package (p : PackageDefinition) : Sh bool :=
  ok ← alloc_ (u32 (Z.of_nat (length (payload p)))) 4096;
  if negb ok then mret false
  else
    h ← storage_write_ (payload p);
    match h with None => mret false | Some h => storage_index_ (pkg_name p) (start_lba h) (sectors h) end.

(** A package that is not installed: its files, its copy on storage, its
    marker. *)
Definition install_fresh (p : PackageDefinition) : Sh bool :=
  ok ← install_package_files p;
  if negb ok then failing p
  else
    ok ← store_package p;
    if negb ok then failing p
    else
      match marker p with
      | [] => failing p
      | m => ok ← write_file_text fuel m (pkg_version p) false; if ok : bool then mret true else failing p
      end.

Definition install_package (p : PackageDefinition) : Sh bool :=
  ok ← ensure_package_dirs;
  if negb ok then mret false
  else
    installed ← package_installed p;
    if installed : bool then mret true else install_fresh p.

(** ** Listings *)

Definition print_package_info (p : PackageDefinition) : Sh unit :=
  out (pkg_name p) ;; say " " ;; out (pkg_version p) ;; say " - " ;; out (pkg_summary p) ;; out newline.
Definition print_package_files (p : PackageDefinition) : Sh unit :=
  each (pkg_files p) (λ f, say "  " ;; out (pf_path f) ;; out newline).
Definition print_package_status (p : PackageDefinition) : Sh unit :=
  installed ← package_installed p;
  say (if installed : bool then "installed " else "available ") ;; print_package_info p.

Fixpoint index_text (ps : list PackageDefinition) (index : text) : Sh text :=
  match ps with
  | [] => mret index
  | p :: ps' =>
      installed ← package_installed p;
      let line := pkg_name p ++ txt "|" ++ pkg_version p ++ txt "|" ++ txt (if installed : bool then "installed" else "available") ++
                  txt "|" ++ pkg_summary p ++ newline in
      index_text ps' (index ++ take (Z.to_nat (1023 - text_len index)) line)
  end.

Definition write_package_index : Sh bool :=
  ok ← ensure_package_dirs;
  if negb ok then mret false
  else index ← index_text kPackages []; write_file_text fuel (txt "/var/lib/wirth/pkgdb/available.list") index false.

Definition print_package_catalog (installed_only available_only : bool) (needle : text) : Sh unit :=
  each kPackages (λ p,
    installed ← package_installed p;
    if installed_only && negb installed then mret tt
    else if available_only && installed then mret tt
    else if package_match p needle then print_package_status p else mret tt).

(** ** [apt] *)

Definition package_not_found (name : text) : Sh unit :=
  say "apt: package not found: " ;; out name ;; out newline ;;
  match suggest_package name with
  | Some p => say "do you mean package: " ;; out (pkg_name p) ;; say_line "?"
  | None => mret tt
  end.

Definition apt_list (mode : text) : Sh unit :=
  if text_equal mode (txt "installed") then print_package_catalog true false []
  else if text_equal mode (txt "available") then print_package_catalog false true []
  else print_package_catalog false false [].

Definition apt_show (sub name : text) : Sh unit :=
  match find_package name with
  | None => package_not_found name
  | Some p =>
      print_package_info p ;; say "installed: " ;;
      installed ← package_installed p; say_line (if installed : bool then "yes" else "no") ;;
      if text_equal sub (txt "policy") then say "candidate: " ;; out (pkg_version p) ;; out newline
      else if text_equal sub (txt "files") then print_package_files p
      else mret tt
  end.

Definition apt_upgrade : Sh unit :=
  each kPackages (λ p,
    installed ← package_installed p;
    if installed : bool then
      remove_package_files p ;;
      ok ← install_package p;
      if ok : bool then mret tt else say "apt: upgrade failed for " ;; out (pkg_name p) ;; out newline
    else mret tt) ;;
  say_line "apt: upgrade complete".

Definition apt_change (install : bool) (name : text) : Sh unit :=
  match find_package name with
  | None => package_not_found name
  | Some p =>
      if install then
        ok ← install_package p;
        say (if ok : bool then "apt: installed " else "apt: install failed for ") ;; out (pkg_name p) ;; out newline
      else remove_package_files p ;; say "apt: removed " ;; out (pkg_name p) ;; out newline
  end.

Definition kSubcommands : list text :=
  txt <$> ["update"; "search"; "list"; "show"; "info"; "install"; "remove"; "files"; "policy"; "upgrade"]%string.

Definition is_one (t : text) (names : list string) : bool := existsb (λ n, text_equal t (txt n)) names.

Definition pkg (args : list text) : Sh unit :=
  match args with
  | _ :: sub :: rest =>
      if is_one sub ["update"]%string then
        ok ← write_package_index; say_line (if ok : bool then "apt: package lists updated" else "apt: update failed")
      else if is_one sub ["search"]%string then print_package_catalog false false (default [] (rest !! 0%nat))
      else if is_one sub ["list"]%string then apt_list (default (txt "all") (rest !! 0%nat))
      else if is_one sub ["show"; "info"; "policy"; "files"]%string then
        match rest with [] => say_line "apt: package name required" | name :: _ => apt_show sub name end
      else if is_one sub ["upgrade"]%string then apt_upgrade
      else if is_one sub ["install"; "remove"]%string then
        let install := text_equal sub (txt "install") in
        match rest with
        | [] => say_line (if install then "apt install <pkg> [pkg...]" else "apt remove <pkg> [pkg...]")
        | _ => each rest (apt_change install)
        end
      else
        say "apt: unknown subcommand: " ;; out sub ;; out newline ;;
        match suggest_from_list sub kSubcommands with
        | Some t => say "do you mean: " ;; out t ;; say_line "?"
        | None => mret tt
        end
  | _ => say_line "usage: apt <update|search|list|show|install|remove|files|policy|upgrade>"
  end.
End packages.
