(* ===== verification/ShellLoop.v ===== *)
(** * The line editor and the loop of the serial shell ([kernel/shell.cpp])

    [line] is the whole array of 192 characters: nothing ends the text at the
    cursor while a line is edited, so what was typed before is still behind
    it, and the functions that read the array as text see it. *)

From S2P Require Import Prelude CText Serial Vfs RamFs RamFsSpec Shell ShellSys ShellCmds ShellPkg.

(** [line] and [pos]. *)
Record edit := mk_edit { e_line : text; e_pos : Z }.

(** Characters stored from an index on. *)
Definition put (line : text) (i : nat) (cs : text) : text := take i line ++ cs ++ drop (i + length cs) line.

(** [copy_text(dst, &line[off], max_size)]; [None] is a read behind the
    array. *)
Definition copy_from (line : text) (off max_size : Z) : option text :=
  let rest := drop (Z.to_nat off) line in
  let t := cstr rest in
  if (text_len t <? text_len rest) || (max_size - 1 <=? text_len t) then Some (copy_text t max_size) else None.

(** The start of the token that ends at the cursor. *)
Fixpoint token_start (rev_before : text) (pos : Z) : Z :=
  match rev_before with
  | c :: r => if is_space c then pos else token_start r (pos - 1)
  | [] => pos
  end.

Fixpoint last_slash (token : text) (i last : Z) : Z :=
  match token with
  | [] => last
  | c :: t => last_slash t (i + 1) (if Ascii.eqb c slash then i else last)
  end.

(** The characters all the matches share, from the first on. *)
Definition common_len (names : list text) : Z :=
  match names with
  | [] => 0
  | first :: rest =>
      fold_left (λ n name, let shared := common_prefix_len first name in if shared <? n then shared else n) rest (text_len first)
  end.

(** [original[i]] for the characters before the token; the copy holds nothing
    behind its NUL. *)
Definition original_front (line : text) (start : Z) : option text :=
  let original := copy_text (cstr line) kMaxLine ++ [nul] in
  if Z.of_nat (length original) <? start then None else Some (take (Z.to_nat start) original).

(** The token replaced; nothing follows it, because it ends at the cursor. *)
Definition replace_token (e : edit) (start : Z) (replacement : text) : option edit :=
  front ← original_front (e_line e) start;
  let cs := take 191 (front ++ replacement) in
  Some (mk_edit (put (e_line e) 0 (cs ++ [nul])) (Z.of_nat (length cs))).

Section editor.
Context {F K : Type} `{FS : FileSystem F} `{SK : ShellKernel K}.
Context (build_stamp : text) (fuel : nat).
Abbreviation Sh := (Sh F K).

Definition print_prompt : Sh unit :=
  cwd ← asks sh_cwd;
  out kAnsiBoldCyan ;; say "root@wirth:" ;; out kAnsiGreen ;; out cwd ;; out kAnsiReset ;; say "# ".

Definition redraw_input (e : edit) : Sh unit :=
  out (["013"%char; "027"%char] ++ txt "[2K") ;; print_prompt ;; out_bytes (bytes_of (take (Z.to_nat (e_pos e)) (e_line e))).

Definition commas {A} (l : list A) (show : A → Sh unit) : Sh unit :=
  match l with [] => mret tt | a :: rest => show a ;; each rest (λ b, say ", " ;; show b) end.

Definition write_candidate_list (title : string) (candidates : list text) : Sh unit :=
  match candidates with
  | [] => mret tt
  | _ => out newline ;; say title ;; say ": " ;; commas candidates out ;; out newline
  end.

Definition write_dir_candidate_list (title : string) (entries : list DirEntry) : Sh unit :=
  match entries with
  | [] => mret tt
  | _ =>
      out newline ;; say title ;; say ": " ;;
      commas entries (λ e, out (de_name e) ;; if de_is_directory e then say "/" else mret tt) ;; out newline
  end.

(** ** Completion *)

(** The directory part of a token with a slash; [None] is a failure of
    [resolve_path]. *)
Definition token_parent (cwd token : text) (slash_at : Z) : option text :=
  if slash_at =? text_len token then Some (copy_text cwd kMaxPath)
  else if slash_at =? 0 then Some [slash]
  else
    let copy_len := if slash_at <? kMaxPath then slash_at else kMaxPath - 1 in
    resolve_path cwd (cstr (take (Z.to_nat copy_len) token)) kMaxPath.

(** The directory part of the token and what the name adds to the prefix, in
    the 64 bytes of [replacement]. *)
Definition replacement (token : text) (slash_at : Z) (added : text) : text :=
  take 63 ((if slash_at =? text_len token then [] else take (Z.to_nat (slash_at + 1)) token) ++ added).

Definition update_token (e : edit) (start : Z) (r : text) : Sh edit :=
  match replace_token e start r with
  | None => undefined
  | Some e => redraw_input e ;; mret e
  end.

Definition complete_matches (e : edit) (start : Z) (token : text) (slash_at : Z) (prefix : text) (matches : list DirEntry)
    : Sh (bool * edit) :=
  match matches with
  | [] => mret (false, e)
  | [m] =>
      let r := replacement token slash_at (drop (length prefix) (de_name m)) in
      let r := cstr (if de_is_directory m && (text_len r + 1 <? 64) then r ++ [slash] else r) in
      if kMaxLine <=? start + text_len r then mret (false, e)
      else e ← update_token e start r; mret (true, e)
  | m :: _ =>
      let n := common_len (de_name <$> matches) in
      if text_len prefix <? n then
        let r := cstr (replacement token slash_at (drop (length prefix) (take (Z.to_nat n) (de_name m)))) in
        if start + text_len r <? kMaxLine then e ← update_token e start r; mret (true, e)
        else mret (true, e)
      else
        write_dir_candidate_list "tab matches" (take 32 matches) ;; redraw_input e ;; mret (true, e)
  end.

Definition complete_path_token (e : edit) : Sh (bool * edit) :=
  let pos := e_pos e in
  let before := take (Z.to_nat pos) (e_line e) in
  let start := token_start (rev before) pos in
  if pos <=? start then mret (false, e)
  else
    let token := drop (Z.to_nat start) before in
    let slash_at := last_slash token 0 (text_len token) in
    cwd ← asks sh_cwd;
    match token_parent cwd token slash_at with
    | None => mret (false, e)
    | Some parent =>
        match copy_from (e_line e) (if slash_at =? text_len token then start else start + slash_at + 1) kMaxPath with
        | None => undefined
        | Some prefix =>
            if (text_len prefix =? 0) && negb (slash_at =? text_len token) then mret (false, e)
            else
              '(n, entries) ← readdir_ parent 32;
              if n <=? 0 then mret (false, e)
              else complete_matches e start token slash_at prefix
                     (filter (λ x, text_starts_with (de_name x) prefix = true) (take (Z.to_nat n) entries))
        end
    end.

(** [for (...; i < n && pos + 1 < kMaxLine; ++i) { line[pos++] = name[i]; write_char(name[i]); }] *)
Fixpoint type_chars (e : edit) (cs : text) : Sh edit :=
  match cs with
  | [] => mret e
  | c :: cs' =>
      if e_pos e + 1 <? kMaxLine then
        out_char (byte_of c) ;; type_chars (mk_edit (put (e_line e) (Z.to_nat (e_pos e)) [c]) (e_pos e + 1)) cs'
      else mret e
  end.

(** [common_len] here is 0 until the first match. *)
Definition common_commands (names : list text) : Z :=
  match names with
  | [] => 0
  | first :: _ =>
      fold_left (λ n name,
        if n =? 0 then text_len name
        else let shared := common_prefix_len first name in if shared <? n then shared else n) names 0
  end.

Definition complete_command_line (e : edit) : Sh edit :=
  let before := take (Z.to_nat (e_pos e)) (e_line e) in
  let word := skip_spaces before in
  match word with
  | [] => mret e
  | _ =>
      let '(w, rest) := split_while (λ c, negb (is_space c)) word in
      if (text_len word <? text_len before) || (0 <? text_len rest) then '(_, e) ← complete_path_token e; mret e
      else
        let copied := take 63 w in
        let prefix := cstr copied in
        let names := filter (λ n, text_starts_with n prefix = true) (fst <$> kCommands) in
        match names with
        | [] =>
            match suggest_command prefix with
            | Some t => out newline ;; out kAnsiYellow ;; say "tab: try " ;; out t ;; out kAnsiReset ;; out newline
            | None => mret tt
            end ;;
            redraw_input e ;; mret e
        | [name] =>
            e ← type_chars e (drop (length copied) name);
            type_chars e [" "%char]
        | name :: _ =>
            let n := common_commands names in
            if Z.of_nat (length copied) <? n then type_chars e (drop (length copied) (take (Z.to_nat n) name))
            else write_candidate_list "tab matches" (take 32 names) ;; redraw_input e ;; mret e
        end
  end.

(** ** The loop *)

(** The text a history key puts in the line. *)
Definition show_text (e : edit) (t : option text) : Sh edit :=
  match t with
  | None => mret e
  | Some t => let e := mk_edit (put (e_line e) 0 (t ++ [nul])) (text_len t) in redraw_input e ;; mret e
  end.

Definition escape_key (e : edit) : Sh edit :=
  seq1 ← read_char_blocking;
  seq2 ← read_char_blocking;
  h ← asks sh_history;
  if Ascii.eqb seq1 "["%char && Ascii.eqb seq2 "A"%char then
    let '(t, h) := history_move_up h (e_line e) in set_history h ;; show_text e t
  else if Ascii.eqb seq1 "["%char && Ascii.eqb seq2 "B"%char then
    let '(t, h) := history_move_down h in set_history h ;; show_text e t
  else mret e.

Definition erase : text := ["008"%char; " "%char; "008"%char].

(** The keys until the end of the line. *)
Fixpoint read_line (fuel : nat) (e : edit) : Sh edit :=
  match fuel with
  | O => undefined
  | S fuel' =>
      c ← read_char_blocking;
      if Ascii.eqb c "013"%char || Ascii.eqb c "010"%char then out newline ;; mret e
      else if Ascii.eqb c "027"%char then e ← escape_key e; read_line fuel' e
      else if Ascii.eqb c "009"%char then e ← complete_command_line e; read_line fuel' e
      else if Ascii.eqb c "008"%char || Ascii.eqb c "127"%char then
        if 0 <? e_pos e then out erase ;; read_line fuel' (mk_edit (e_line e) (e_pos e - 1)) else read_line fuel' e
      else if e_pos e + 1 <? kMaxLine then
        out_char (byte_of c) ;; read_line fuel' (mk_edit (put (e_line e) (Z.to_nat (e_pos e)) [c]) (e_pos e + 1))
      else read_line fuel' e
  end.

Definition run_handler (h : handler) (args : list text) : Sh unit :=
  match h with
  | on_help => help args | on_clear => clear | on_whoami => whoami | on_id => id_ | on_pwd => pwd | on_cd => cd args
  | on_ld => ld args | on_md => md args | on_rd => rd args | on_cat => cat fuel args | on_touch => touch args | on_rm => rm args
  | on_echo => echo args | on_cp => cp fuel args | on_mv => mv fuel args | on_head => head args | on_tail => tail_ args
  | on_wc => wc fuel args | on_cmp => cmp fuel args | on_stat => stat fuel args | on_tree => tree args | on_env => env
  | on_uname => uname build_stamp args | on_cpu => cpu args | on_pci => pci | on_hid => hid | on_keyboard => keyboard
  | on_ahci => ahci | on_devices => devices | on_drivers => drivers | on_history => show_history | on_df => df
  | on_lsblk => lsblk | on_sync => sync_ | on_pkg => pkg fuel args | on_basename => basename args | on_dirname => dirname args
  | on_exists => exists_ args | on_isfile => isfile args | on_isdir => isdir args | on_size => size_ fuel args
  | on_write => write fuel args | on_append => append fuel args | on_truncate => truncate fuel args | on_nl => nl fuel args
  | on_hexdump => hexdump fuel args | on_find => find_ args | on_grep => grep args | on_sleep => sleep fuel args
  | on_tick => tick | on_uptime => uptime | on_ps => ps | on_meminfo => meminfo | on_free => free
  | on_pathjoin => pathjoin args | on_realpath => realpath args | on_seq => seq_ args | on_repeat => repeat_ args
  | on_catb => catb fuel args | on_countdir => countdir args | on_touchmany => touchmany args | on_rmmany => rmmany args
  | on_ctrue => ctrue | on_cfalse => cfalse | on_halt => halt | on_exit_shell => exit_shell | on_poweroff => poweroff
  | on_reboot => reboot
  end.

Definition unknown_command (name : text) : Sh unit :=
  out kAnsiRed ;; say "unknown command: " ;; out name ;; out kAnsiReset ;; out newline ;;
  match suggest_command name with
  | Some t => out kAnsiGreen ;; say "do you mean: " ;; out t ;; say_line "?" ;; out kAnsiReset
  | None => mret tt
  end.

(** The command of a finished line. *)
Definition run_command (args : list text) : Sh unit :=
  match args with
  | [] => mret tt
  | name :: _ =>
      match find_command name with
      | Some (_, h) => run_handler h args
      | None => unknown_command name
      end
  end.

(** A finished line: the history, the words, the command.  The array keeps
    what [parse_args] made of it. *)
Definition run_line (line : text) : Sh text :=
  let t := cstr line in
  h ← asks sh_history;
  set_history (history_reset_view (history_append h t)) ;;
  let '(args, stored) := parse_args t in
  run_command args ;; mret (put line 0 stored).

(** One turn of [while (ctx.running)]. *)
Definition turn (line : text) : Sh text :=
  print_prompt ;;
  e ← read_line fuel (mk_edit (put line 0 [nul]) 0);
  let line := put (e_line e) (Z.to_nat (e_pos e)) [nul] in
  if e_pos e =? 0 then h ← asks sh_history; set_history (history_reset_view h) ;; mret line
  else run_line line.

Fixpoint turns (n : nat) (line : text) : Sh unit :=
  match n with
  | O => undefined
  | S n' =>
      running ← asks sh_running;
      if running : bool then line ← turn line; turns n' line else mret tt
  end.

(** [line] is not initialised. *)
Definition run (n : nat) (line : text) : Sh unit :=
  set_cwd (copy_text (txt "/root") kMaxPath) ;; set_running true ;; turns n line.
End editor.
