(* ===== verification/ShellText.v ===== *)
(** * Names, history, words and paths of the shell: theorems

    [edit_distance] against the least number of edits, the ring of lines
    against the list of all lines, the words of a line against a way to write
    them, resolved paths, and decimal numbers. *)

From S2P Require Import Prelude CText Shell.

(** ** Edit distance *)

(** One insertion, deletion or replacement of a character. *)
Inductive edit1 : text → text → Prop :=
  | edit_delete u x v : edit1 (u ++ x :: v) (u ++ v)
  | edit_insert u x v : edit1 (u ++ v) (u ++ x :: v)
  | edit_replace u x y v : edit1 (u ++ x :: v) (u ++ y :: v).

(** Edits in the order of the characters. *)
Inductive align : nat → text → text → Prop :=
  | al_nil : align 0 [] []
  | al_keep n x a b : align n a b → align n (x :: a) (x :: b)
  | al_replace n x y a b : align n a b → align (S n) (x :: a) (y :: b)
  | al_delete n x a b : align n a b → align (S n) (x :: a) b
  | al_insert n y a b : align n a b → align (S n) a (y :: b).
#[local] Hint Constructors align : core.

Lemma align_refl a : align 0 a a.
Proof. induction a; auto. Qed.

Lemma align_app n m a b a' b' : align n a b → align m a' b' → align (n + m) (a ++ a') (b ++ b').
Proof. induction 1; intros; cbn; auto. Qed.

Lemma align_rev n a b : align n a b → align n (rev a) (rev b).
Proof.
  induction 1 as [|n x a b _ IH|n x y a b _ IH|n x a b _ IH|n y a b _ IH]; cbn [rev]; [done|..].
  - replace n with (n + 0)%nat by lia. apply align_app; auto.
  - replace (S n) with (n + 1)%nat by lia. apply align_app; auto.
  - replace (S n) with (n + 1)%nat by lia. rewrite <- (app_nil_r (rev b)). apply align_app; auto.
  - replace (S n) with (n + 1)%nat by lia. rewrite <- (app_nil_r (rev a)). apply align_app; auto.
Qed.

Lemma align_nil_l n b : align n [] b → n = length b.
Proof. remember [] as a eqn:Ea. induction 1; simplify_eq; cbn; auto. Qed.

Lemma align_nil_r n a : align n a [] → n = length a.
Proof. remember [] as b eqn:Eb. induction 1; simplify_eq; cbn; auto. Qed.

Lemma align_all a b : align (length a + length b) a b.
Proof.
  induction a as [|x a IH]; [|cbn; auto]. cbn. induction b; cbn; auto.
Qed.

Lemma align_snoc_inv n a x b y :
  align n (a ++ [x]) (b ++ [y]) →
  (∃ m, n = S m ∧ align m a (b ++ [y])) ∨ (∃ m, n = S m ∧ align m (a ++ [x]) b) ∨
  (∃ m, n = (m + if Ascii.eqb x y then 0 else 1)%nat ∧ align m a b) ∨ (∃ m, n = S m ∧ align m a b).
Proof.
  intros H%align_rev. rewrite !rev_app_distr in H. cbn in H.
  inversion H; subst.
  - right; right; left. exists n. rewrite Ascii.eqb_refl. split; [lia|].
    match goal with Ha : align _ (rev a) _ |- _ => apply align_rev in Ha; by rewrite !rev_involutive in Ha end.
  - right; right; right. eexists. split; [done|].
    match goal with Ha : align _ (rev a) _ |- _ => apply align_rev in Ha; by rewrite !rev_involutive in Ha end.
  - left. eexists. split; [done|].
    match goal with Ha : align _ (rev a) _ |- _ => apply align_rev in Ha; cbn in Ha; by rewrite !rev_involutive in Ha end.
  - right; left. eexists. split; [done|].
    match goal with Ha : align _ _ (rev b) |- _ => apply align_rev in Ha; cbn in Ha; by rewrite !rev_involutive in Ha end.
Qed.

(** The least number of edits. *)
Definition least (a b : text) (v : Z) : Prop :=
  ∃ n, v = Z.of_nat n ∧ align n a b ∧ ∀ m, align m a b → (n <= m)%nat.

Lemma least_bound a b v : least a b v → 0 <= v <= Z.of_nat (length a + length b).
Proof. intros (n & -> & _ & Hn). pose proof (Hn _ (align_all a b)). lia. Qed.

Lemma least_nil_l b : least [] b (Z.of_nat (length b)).
Proof.
  exists (length b). split_and!; [done|exact (align_all [] b)|]. intros m ->%align_nil_l. done.
Qed.

Lemma least_nil_r a : least a [] (Z.of_nat (length a)).
Proof.
  exists (length a). split_and!; [done| |intros m ->%align_nil_r; done].
  pose proof (align_all a []) as H. by rewrite Nat.add_0_r in H.
Qed.

Lemma min3_cases p q r :
  (min3 p q r = p ∨ min3 p q r = q ∨ min3 p q r = r) ∧ min3 p q r <= p ∧ min3 p q r <= q ∧ min3 p q r <= r.
Proof. unfold min3. destruct (p <? q) eqn:E1; destruct (_ <? r) eqn:E2; zbool; lia. Qed.

(** The recurrence of the table. *)
Lemma least_step a x b y up left diag :
  least a (b ++ [y]) up → least (a ++ [x]) b left → least a b diag →
  least (a ++ [x]) (b ++ [y]) (min3 (up + 1) (left + 1) (diag + if Ascii.eqb x y then 0 else 1)).
Proof.
  intros (u & -> & Hu & Hul) (l & -> & Hl & Hll) (d & -> & Hd & Hdl).
  set (c := if Ascii.eqb x y then 0%nat else 1%nat).
  replace (if Ascii.eqb x y then 0 else 1) with (Z.of_nat c) by (unfold c; by destruct (Ascii.eqb x y)).
  destruct (min3_cases (Z.of_nat u + 1) (Z.of_nat l + 1) (Z.of_nat d + Z.of_nat c)) as (Hm & M1 & M2 & M3).
  assert (align (u + 1) (a ++ [x]) (b ++ [y])) as A1.
  { rewrite <- (app_nil_r (b ++ [y])). apply align_app; auto. }
  assert (align (l + 1) (a ++ [x]) (b ++ [y])) as A2.
  { rewrite <- (app_nil_r (a ++ [x])). apply align_app; auto. }
  assert (align (d + c) (a ++ [x]) (b ++ [y])) as A3.
  { apply align_app; [done|]. unfold c. destruct (Ascii.eqb x y) eqn:E; [apply Ascii.eqb_eq in E as ->|]; auto. }
  exists (Z.to_nat (min3 (Z.of_nat u + 1) (Z.of_nat l + 1) (Z.of_nat d + Z.of_nat c))). split; [lia|]. split.
  - destruct Hm as [-> | [-> | ->]]; [replace (Z.to_nat _) with (u + 1)%nat by lia|
      replace (Z.to_nat _) with (l + 1)%nat by lia|replace (Z.to_nat _) with (d + c)%nat by lia]; done.
  - intros m H. apply align_snoc_inv in H as [(k & -> & H) | [(k & -> & H) | [(k & -> & H) | (k & -> & H)]]].
    + pose proof (Hul _ H). lia.
    + pose proof (Hll _ H). lia.
    + pose proof (Hdl _ H). fold c. lia.
    + pose proof (Hdl _ H). assert (c <= 1)%nat by (unfold c; destruct (Ascii.eqb x y); lia). lia.
Qed.

(** A row of the table: the distances of [a] to the prefixes of [b]. *)
Definition row_ok (a b : text) (row : list Z) (n : nat) : Prop :=
  length row = 33%nat ∧ ∀ k, (k <= n)%nat → least a (take k b) (row !!! k).

Lemma row_loop_ok a x b2 : ∀ b1 prev curr,
  (length (b1 ++ b2) <= 32)%nat → (length a <= 31)%nat →
  row_ok a (b1 ++ b2) prev (length (b1 ++ b2)) →
  row_ok (a ++ [x]) (b1 ++ b2) curr (length b1) →
  row_ok (a ++ [x]) (b1 ++ b2) (row_loop x b2 (S (length b1)) prev curr) (length (b1 ++ b2)).
Proof.
  induction b2 as [|y b2 IH]; intros b1 prev curr Hb Ha Hp Hc; cbn [row_loop].
  { rewrite app_nil_r in *. done. }
  set (v := min3 _ _ _). replace (b1 ++ y :: b2) with ((b1 ++ [y]) ++ b2) in * by (by rewrite <- app_assoc).
  replace (S (S (length b1))) with (S (length (b1 ++ [y]))) by (rewrite length_app; cbn; lia).
  apply IH; [done..|]. destruct Hc as [Hcl Hc], Hp as [Hpl Hp]. rewrite !length_app in *. cbn [length] in *.
  split; [by rewrite length_insert|]. intros k Hk.
  destruct (decide (k = S (length b1))) as [->|Hne].
  - rewrite list_lookup_total_insert_eq by lia.
    pose proof (Hp (S (length b1)) ltac:(lia)) as Hup. pose proof (Hp (length b1) ltac:(lia)) as Hdiag.
    pose proof (Hc (length b1) ltac:(lia)) as Hleft.
    replace (take (S (length b1)) ((b1 ++ [y]) ++ b2)) with (b1 ++ [y]) in *
      by (rewrite take_app_le, take_ge by (rewrite length_app; cbn; lia); done).
    replace (take (length b1) ((b1 ++ [y]) ++ b2)) with b1 in * by (rewrite <- app_assoc, take_app_length; done).
    pose proof (least_bound _ _ _ Hup). pose proof (least_bound _ _ _ Hdiag). pose proof (least_bound _ _ _ Hleft).
    rewrite !length_app in *. cbn [length] in *.
    unfold v. replace (S (length b1) - 1)%nat with (length b1) by lia.
    rewrite (u32_small (prev !!! S (length b1) + 1)), (u32_small (curr !!! length b1 + 1)) by lia.
    rewrite (u32_small (prev !!! length b1 + _)) by (destruct (Ascii.eqb x y); lia).
    by apply least_step.
  - rewrite list_lookup_total_insert_ne by done. apply Hc. lia.
Qed.

Lemma copy_row_spec n prev curr :
  length prev = 33%nat → (n <= 32)%nat →
  length (copy_row n prev curr) = 33%nat ∧ ∀ k, (k <= n)%nat → copy_row n prev curr !!! k = curr !!! k.
Proof.
  intros Hp Hn. unfold copy_row.
  assert (∀ m, (m <= 33)%nat → let r := fold_left (λ prev j, <[j := curr !!! j]> prev) (seq 0 m) prev in
    length r = 33%nat ∧ ∀ k, (k < m)%nat → r !!! k = curr !!! k) as H.
  { induction m as [|m IH]; intros Hm; [split; [done|lia]|]. rewrite seq_S, fold_left_app. cbn [fold_left].
    destruct (IH ltac:(lia)) as [IH1 IH2]. split; [by rewrite length_insert|]. intros k Hk.
    destruct (decide (k = m)) as [->|]; [by rewrite list_lookup_total_insert_eq by lia|].
    rewrite list_lookup_total_insert_ne by done. apply IH2. lia. }
  destruct (H (S n) ltac:(lia)) as [H1 H2]. split; [done|]. intros k Hk. apply H2. lia.
Qed.

Lemma rows_loop_ok b a2 : ∀ a1 prev curr,
  (length b <= 32)%nat → (length (a1 ++ a2) <= 32)%nat → length curr = 33%nat →
  row_ok a1 b prev (length b) →
  row_ok (a1 ++ a2) b (rows_loop a2 b (Z.of_nat (length a1) + 1) prev curr) (length b).
Proof.
  induction a2 as [|x a2 IH]; intros a1 prev curr Hb Ha Hc Hp; cbn [rows_loop]; [by rewrite app_nil_r|].
  rewrite length_app in Ha. cbn [length] in Ha.
  assert (row_ok (a1 ++ [x]) b (row_loop x b 1 prev (<[0%nat := Z.of_nat (length a1) + 1]> curr)) (length b)) as Hr.
  { apply (row_loop_ok a1 x b []); [done|lia|done|]. split; [by rewrite length_insert|].
    intros k Hk. cbn in Hk. assert (k = 0%nat) as -> by lia. rewrite list_lookup_total_insert_eq by lia.
    pose proof (least_nil_r (a1 ++ [x])) as H. rewrite length_app in H. cbn in H. cbn [take].
    by replace (Z.of_nat (length a1) + 1) with (Z.of_nat (length a1 + 1)) by lia. }
  set (curr' := row_loop _ _ _ _ _) in *. destruct Hr as [Hr1 Hr2].
  destruct (copy_row_spec (length b) prev curr' (proj1 Hp) Hb) as [C1 C2].
  specialize (IH (a1 ++ [x]) (copy_row (length b) prev curr') curr'). rewrite <- app_assoc in IH.
  rewrite (u32_small (Z.of_nat (length a1) + 1 + 1)) by lia.
  replace (Z.of_nat (length a1) + 1 + 1) with (Z.of_nat (length (a1 ++ [x])) + 1) by (rewrite length_app; cbn; lia).
  apply IH; [done| |done|].
  - rewrite length_app. cbn [app length]. lia.
  - split; [done|]. intros k Hk. rewrite C2 by done. by apply Hr2.
Qed.

Lemma edit_distance_least a b : text_len a <= 32 → text_len b <= 32 → least a b (edit_distance a b).
Proof.
  unfold text_len. intros Ha Hb. unfold edit_distance, text_len, kMaxWord.
  rewrite (proj2 (Z.ltb_ge _ _) Ha), (proj2 (Z.ltb_ge _ _) Hb). cbn [orb].
  set (prev := fold_left _ _ _).
  assert (row_ok [] b prev (length b)) as Hp.
  { unfold prev. pose proof (copy_row_spec (length b) (replicate 33 0) (Z.of_nat <$> seq 0 33)
      (length_replicate _ _) ltac:(lia)) as [H1 H2].
    assert (∀ (l : list nat) (r : list Z), (∀ j, j ∈ l → (j < 33)%nat) →
      fold_left (λ prev j, <[j := Z.of_nat j]> prev) l r = fold_left (λ prev j, <[j := (Z.of_nat <$> seq 0 33) !!! j]> prev) l r) as Heq.
    { induction l as [|j l IH]; intros r Hl; [done|]. cbn [fold_left]. rewrite IH by (intros; apply Hl; by right).
      do 2 f_equal. symmetry. apply list_lookup_total_correct. rewrite list_lookup_fmap, lookup_seq_lt by (apply Hl; by left). done. }
    rewrite Heq by (intros j Hj%elem_of_seq; lia). split; [exact H1|]. intros k Hk.
    unfold copy_row in H2. rewrite H2 by done.
    rewrite (list_lookup_total_correct _ k (Z.of_nat k)) by (rewrite list_lookup_fmap, lookup_seq_lt by lia; done).
    pose proof (least_nil_l (take k b)) as H. rewrite length_take in H. by replace (k `min` length b)%nat with k in H by lia. }
  pose proof (rows_loop_ok b a [] prev (replicate 33 0) ltac:(lia) ltac:(cbn; lia) eq_refl Hp) as [_ H].
  specialize (H (length b) (le_n _)). cbn [app length] in H. change (Z.of_nat 0 + 1) with 1 in H.
  by rewrite take_ge in H by lia.
Qed.

(** *** Edits in any order *)

Lemma align_cons_edits n x a b : nsteps edit1 n a b → nsteps edit1 n (x :: a) (x :: b).
Proof.
  induction 1 as [a|n a b c H _ IH]; [constructor|]. econstructor; [|done].
  destruct H as [u y v|u y v|u y z v]; [apply (edit_delete (x :: u))|apply (edit_insert (x :: u))|apply (edit_replace (x :: u))].
Qed.

Lemma align_edits n a b : align n a b → nsteps edit1 n a b.
Proof.
  induction 1 as [|n x a b _ IH|n x y a b _ IH|n x a b _ IH|n y a b _ IH]; [constructor|by apply align_cons_edits|..].
  - apply (nsteps_l _ _ _ (y :: a)); [apply (edit_replace [])|by apply align_cons_edits].
  - apply (nsteps_l _ _ _ a); [apply (edit_delete [])|done].
  - apply (nsteps_l _ _ _ (y :: a)); [apply (edit_insert [])|by apply align_cons_edits].
Qed.

(** An edit before an alignment costs at most one more. *)
Lemma align_edit1 a b n c : edit1 a b → align n b c → ∃ m, (m <= S n)%nat ∧ align m a c.
Proof.
  assert (∀ u v v' n c, (∀ n c, align n v' c → ∃ m, (m <= S n)%nat ∧ align m v c) → align n (u ++ v') c →
    ∃ m, (m <= S n)%nat ∧ align m (u ++ v) c) as Hctx.
  { induction u as [|x u IH]; intros v v' k d Hv H; [by apply Hv|]. cbn in *.
    remember (x :: u ++ v') as w eqn:Ew. revert u x Ew IH.
    induction H as [|k z p q H IHa|k z y p q H IHa|k z p q H IHa|k y p q H IHa]; intros u x Ew IH; simplify_eq.
    - destruct (IH v v' k q Hv H) as (m & ? & ?). eauto.
    - destruct (IH v v' k q Hv H) as (m & ? & ?). exists (S m). split; [lia|auto].
    - destruct (IH v v' k q Hv H) as (m & ? & ?). exists (S m). split; [lia|auto].
    - destruct (IHa u x eq_refl IH) as (m & ? & ?). exists (S m). split; [lia|auto]. }
  intros [u x v|u x v|u x y v] H; eapply (Hctx u); try exact H; clear H.
  - intros k d H. exists (S k). split; [lia|auto].
  - intros k d H. remember (x :: v) as w eqn:Ew. revert Ew.
    induction H as [|k z p q H IHa|k z y p q H IHa|k z p q H IHa|k y p q H IHa]; intros Ew; simplify_eq.
    + exists (S k). split; [lia|auto].
    + exists (S k). split; [lia|auto].
    + exists k. split; [lia|done].
    + destruct (IHa eq_refl) as (m & ? & ?). exists (S m). split; [lia|auto].
  - intros k d H. remember (y :: v) as w eqn:Ew. revert Ew.
    induction H as [|k z p q H IHa|k z y' p q H IHa|k z p q H IHa|k y' p q H IHa]; intros Ew; simplify_eq.
    + exists (S k). split; [lia|auto].
    + exists (S k). split; [lia|auto].
    + exists (S k). split; [lia|auto].
    + destruct (IHa eq_refl) as (m & ? & ?). exists (S m). split; [lia|auto].
Qed.

Lemma edits_align n a b : nsteps edit1 n a b → ∃ m, (m <= n)%nat ∧ align m a b.
Proof.
  induction 1 as [a|n a b c H _ (m & Hm & IH)]; [exists 0%nat; split; [lia|apply align_refl]|].
  destruct (align_edit1 _ _ _ _ H IH) as (k & ? & ?). exists k. split; [lia|done].
Qed.

(** C30: [edit_distance] is the Levenshtein distance: for words of at most 32
    characters its result is a number of insertions, deletions and replacements
    that turns one into the other, and no smaller number does; for longer words
    it gives up with the sum of the lengths, an upper bound. *)
Theorem edit_distance_spec (a b : text) :
  text_len a + text_len b < 4294967296 →
  (text_len a <= 32 → text_len b <= 32 →
   nsteps edit1 (Z.to_nat (edit_distance a b)) a b ∧
   ∀ n, nsteps edit1 n a b → edit_distance a b <= Z.of_nat n) ∧
  nsteps edit1 (Z.to_nat (text_len a + text_len b)) a b ∧
  (32 < text_len a ∨ 32 < text_len b → edit_distance a b = text_len a + text_len b).
Proof.
  intros Hl. unfold text_len in *. split_and!.
  - intros Ha Hb. destruct (edit_distance_least a b Ha Hb) as (n & -> & Hal & Hmin). rewrite Nat2Z.id.
    split; [by apply align_edits|]. intros m (k & Hk & H)%edits_align. apply Hmin in H. lia.
  - replace (Z.to_nat _) with (length a + length b)%nat by lia. apply align_edits, align_all.
  - intros H. unfold edit_distance, text_len, kMaxWord. rewrite (proj2 (orb_true_iff _ _)) by (rewrite !Z.ltb_lt; lia).
    apply u32_small. lia.
Qed.

Lemma edit_distance_spec_witness :
  nsteps edit1 3 (txt "kitten") (txt "sitting") ∧ ¬ nsteps edit1 2 (txt "kitten") (txt "sitting").
Proof.
  destruct (proj1 (edit_distance_spec (txt "kitten") (txt "sitting") ltac:(done)) ltac:(done) ltac:(done)) as [H1 H2].
  split; [exact H1|]. intros H. apply H2 in H. by vm_compute in H.
Defined.

(** ** History *)

(** The lines accepted since boot; the ring holds the last sixteen. *)
Definition log_append (L : list text) (line : text) : list text :=
  if bool_decide (line = []) || bool_decide (last L = Some line) then L else L ++ [copy_text line kMaxLine].

Definition recent (L : list text) : list text := drop (length L - 16) L.

Definition ring_of (h : history) (L : list text) : Prop :=
  length (g_history h) = 16%nat ∧ g_history_count h = Z.of_nat (length L) ∧ Z.of_nat (length L) < 4294967280 ∧
  ∀ i x, L !! i = Some x → (length L <= i + 16)%nat → g_history h !! (i mod 16)%nat = Some x.

Lemma ring_size h L : ring_of h L → history_size h = Z.of_nat (length (recent L)).
Proof.
  intros (_ & Hc & _ & _). unfold history_size, recent, kHistoryCapacity. rewrite Hc, length_drop.
  destruct (_ <? _) eqn:E; zbool; lia.
Qed.

Lemma ring_at h L i : ring_of h L → 0 <= i → history_at h i = recent L !! Z.to_nat i.
Proof.
  intros Hr Hi. pose proof (ring_size h L Hr) as Hs. destruct Hr as (Hl & Hc & Hb & Hx).
  unfold history_at. rewrite Hs, Hc. unfold kHistoryCapacity.
  destruct ((Z.of_nat (length (recent L)) <=? i) || (Z.of_nat (length (recent L)) =? 0)) eqn:E.
  { symmetry. apply lookup_ge_None. zbool. lia. }
  zbool. unfold recent in *. rewrite length_drop in *. rewrite lookup_drop.
  destruct (lookup_lt_is_Some_2 L (length L - 16 + Z.to_nat i)) as [x Ex]; [lia|]. rewrite Ex. f_equal.
  apply list_lookup_total_correct. rewrite <- (Hx _ _ Ex) by lia. f_equal.
  rewrite <- (Nat2Z.id ((length L - 16 + Z.to_nat i) mod 16)). f_equal.
  rewrite Nat2Z.inj_mod. change (Z.of_nat 16) with 16.
  destruct (Z.of_nat (length L) <? 16) eqn:E16; zbool.
  - rewrite u32_small by lia. f_equal. lia.
  - rewrite u32_small by (pose proof (Z.mod_pos_bound (Z.of_nat (length L)) 16); lia).
    rewrite Z.add_mod_idemp_l by lia. replace (Z.of_nat (length L - 16 + Z.to_nat i)) with (Z.of_nat (length L) + i + (-1) * 16) by lia.
    by rewrite Z.mod_add by lia.
Qed.

Lemma recent_last L : last (recent L) = last L.
Proof.
  unfold recent. destruct L as [|x L] using rev_ind; [done|]. rewrite last_snoc, length_app. cbn [length].
  rewrite drop_app_le by lia. apply last_snoc.
Qed.

Lemma ring_append h L line :
  ring_of h L → Z.of_nat (length L) + 1 < 4294967280 → ring_of (history_append h line) (log_append L line).
Proof.
  intros Hr Hlt. unfold history_append, log_append. destruct line as [|c line]; [by rewrite bool_decide_eq_true_2|].
  rewrite bool_decide_eq_false_2 by done. cbn [orb]. set (t := c :: line).
  pose proof (ring_size h L Hr) as Hs.
  assert ((0 <? g_history_count h) && match history_at h (history_size h -u 1) with Some l => text_equal l t | None => false end
          = bool_decide (last L = Some t)) as ->.
  { destruct (decide (length L = 0%nat)) as [E0|E0].
    - apply nil_length_inv in E0 as ->. rewrite (proj1 (proj2 Hr)). done.
    - rewrite (proj1 (proj2 Hr)), (proj2 (Z.ltb_lt _ _)) by lia. cbn [andb]. rewrite Hs.
      assert (1 <= length (recent L) <= 16)%nat by (unfold recent; rewrite length_drop; lia).
      rewrite u32_small by lia. rewrite (ring_at h L) by (done || lia).
      replace (Z.to_nat _) with (Init.Nat.pred (length (recent L))) by lia. rewrite <- last_lookup, recent_last.
      destruct (last L) as [l|]; [|by rewrite bool_decide_eq_false_2].
      destruct (text_equal l t) eqn:E; [apply text_equal_eq in E as ->; by rewrite bool_decide_eq_true_2|].
      apply text_equal_ne in E. rewrite bool_decide_eq_false_2; congruence. }
  destruct (bool_decide (last L = Some t)); [done|]. destruct Hr as (Hl & Hc & Hb & Hx). rewrite Hc.
  change kHistoryCapacity with (Z.of_nat 16). rewrite <- Nat2Z.inj_mod, Nat2Z.id.
  assert (length L mod 16 < 16)%nat by (apply Nat.mod_upper_bound; lia).
  split_and!; cbn [g_history g_history_count].
  - by rewrite length_insert.
  - rewrite u32_small, length_app by lia. cbn. lia.
  - rewrite length_app. cbn. lia.
  - rewrite length_app. cbn [length]. intros i x Hi Hge. destruct (decide (i = length L)) as [->|Hne].
    + rewrite lookup_app_r, Nat.sub_diag in Hi by lia. injection Hi as <-. apply list_lookup_insert_eq. lia.
    + assert (i < length L)%nat by (apply lookup_lt_Some in Hi; rewrite length_app in Hi; cbn in Hi; lia).
      rewrite lookup_app_l in Hi by done. rewrite list_lookup_insert_ne; [by apply Hx; [|lia]|].
      intros E. assert (length L = i + 16 * (length L / 16 - i / 16))%nat as E'; [|].
      { pose proof (Nat.div_mod_eq (length L) 16). pose proof (Nat.div_mod_eq i 16).
        assert (i / 16 <= length L / 16)%nat by (apply Nat.Div0.div_le_mono; lia). lia. }
      destruct (length L / 16 - i / 16)%nat as [|[|]]; lia.
Qed.

Lemma ring_reset h L : ring_of h L → ring_of (history_reset_view h) L.
Proof. done. Qed.

Lemma ring_boot : ring_of history_boot [].
Proof. split_and!; done. Qed.

(** The arrow keys pressed [k] times. *)
Fixpoint ups (k : nat) (h : history) (line : text) : option text * history :=
  match k with
  | O => (None, h)
  | S k' => history_move_up (ups k' h line).2 line
  end.

Lemma recent_short L : (length (recent L) <= 16)%nat.
Proof. unfold recent. rewrite length_drop. lia. Qed.

Lemma ups_state h L line k :
  ring_of h L → g_history_view h = -1 → L ≠ [] → (1 <= k)%nat →
  (ups k h line).2 = mk_history (g_history h) (g_history_count h) (Z.max 0 (Z.of_nat (length (recent L)) - Z.of_nat k))
    (copy_text (cstr line) kMaxLine) true.
Proof.
  intros Hr Hv HL Hk. pose proof (ring_size h L Hr) as Hs. pose proof (recent_short L).
  assert (1 <= length (recent L))%nat by (unfold recent; rewrite length_drop; destruct L; [done|cbn; lia]).
  induction k as [|k IH]; [lia|]. cbn [ups]. unfold history_move_up.
  destruct (decide (k = 0%nat)) as [->|].
  - cbn [ups snd]. rewrite Hs, Hv, (proj2 (Z.eqb_neq _ 0)) by lia. cbn. rewrite u32_small, i32_small by lia. f_equal. lia.
  - rewrite IH by lia. unfold history_size at 1. cbn [g_history_count g_history_view].
    fold (history_size h). rewrite Hs, (proj2 (Z.eqb_neq _ 0)) by lia.
    rewrite (proj2 (Z.ltb_ge _ 0)) by lia. destruct (0 <? _) eqn:E; zbool; cbn; f_equal; lia.
Qed.

(** The shell's history refines the list of all lines entered: an empty
    line or a repetition of the last is not recorded, any other line becomes the
    newest entry, and [history_at] reads the sixteen newest in order.  From the
    line being edited, [k] presses of the up arrow show the [k]-th newest entry,
    or the oldest kept when there are fewer. *)
Lemma history_refines (h : history) (L : list text) (line : text) (i : Z) (k : nat) :
  ring_of h L → Z.of_nat (length L) + 1 < 4294967280 → 0 <= i →
  ring_of (history_reset_view (history_append h line)) (log_append L line) ∧
  history_at h i = recent L !! Z.to_nat i ∧
  (g_history_view h = -1 → L ≠ [] → (1 <= k)%nat →
   ∃ entry, recent L !! (length (recent L) - k)%nat = Some entry ∧
            (ups k h line).1 = Some (copy_text entry kMaxLine)).
Proof.
  intros Hr Hl Hi. split_and!; [by apply ring_reset, ring_append|by apply ring_at|].
  intros Hv HL Hk. pose proof (ups_state h L line k Hr Hv HL Hk) as Hst. pose proof (recent_short L).
  assert (1 <= length (recent L))%nat by (unfold recent; rewrite length_drop; destruct L; [done|cbn; lia]).
  destruct (lookup_lt_is_Some_2 (recent L) (length (recent L) - k)) as [x Hx]; [lia|]. exists x. split; [done|].
  assert ((ups k h line).1 = (λ e, copy_text e kMaxLine) <$> history_at (ups k h line).2 (u32 (g_history_view (ups k h line).2))) as ->.
  { destruct k as [|k]; [lia|]. cbn [ups]. unfold history_move_up at 1 2 3.
    assert (history_size (ups k h line).2 =? 0 = false) as ->; [|done].
    destruct (decide (k = 0%nat)) as [->|]; [|rewrite (ups_state h L) by (done || lia)]; unfold history_size; cbn;
      fold (history_size h); rewrite (ring_size h L Hr); apply Z.eqb_neq; lia. }
  rewrite Hst. cbn [g_history_view]. rewrite u32_small by lia.
  rewrite (ring_at _ L) by (done || lia). replace (Z.to_nat _) with (length (recent L) - k)%nat by lia. by rewrite Hx.
Qed.

Definition demo_log : list text := txt <$> ["ld"; "pwd"; "cat a"]%string.
Definition demo_history : history := fold_left history_append demo_log history_boot.

Lemma demo_ring : ring_of demo_history demo_log.
Proof.
  change demo_log with (fold_left log_append demo_log []). unfold demo_history.
  repeat (apply ring_append; [|done]). apply ring_boot.
Qed.

Lemma history_refines_witness :
  ring_of (history_reset_view (history_append demo_history (txt "cat a"))) demo_log ∧
  ∃ entry, recent demo_log !! 1%nat = Some entry ∧ (ups 2 demo_history (txt "ec")).1 = Some entry.
Proof.
  destruct (history_refines demo_history demo_log (txt "cat a") 0 2 demo_ring) as (H1 & _ & H2); [done|lia|].
  split; [exact H1|]. destruct H2 as (entry & He & Hu); [done|done|lia|].
  exists entry. vm_compute in He. simplify_eq. split; [done|]. exact Hu.
Defined.

(** ** Words *)

Lemma split_while_app p a c b : Forall (λ x, p x = true) a → p c = false → split_while p (a ++ c :: b) = (a, c :: b).
Proof. induction 1 as [|x a Hx _ IH]; intros Hc; cbn [app split_while]; [by rewrite Hc|]. by rewrite Hx, IH. Qed.

Lemma split_while_all p a : Forall (λ x, p x = true) a → split_while p a = (a, []).
Proof. induction 1 as [|x a Hx _ IH]; cbn [split_while]; [done|]. by rewrite Hx, IH. Qed.

Lemma split_while_none p t : match t with [] => True | c :: _ => p c = false end → split_while p t = ([], t).
Proof. destruct t as [|c t]; intros H; [done|]. cbn. by rewrite H. Qed.

(** A word that needs no quotes, and one that can stand in single quotes. *)
Definition plain (w : text) : bool :=
  match w with
  | [] => false
  | c :: _ => negb (is_quote c) && negb (Ascii.eqb c "#"%char) && forallb (λ x, negb (is_space x)) w
  end.

Definition show_word (w : text) : text := if plain w then w else "'"%char :: w ++ ["'"%char].

Fixpoint show_args (ws : list text) : text :=
  match ws with
  | [] => []
  | [w] => show_word w
  | w :: ws' => show_word w ++ " "%char :: show_args ws'
  end.

(** What the array holds at a word afterwards. *)
Lemma next_word_show w rest :
  "'"%char ∉ w → (rest = [] ∨ ∃ r, rest = " "%char :: r) →
  ∃ stored, next_word (show_word w ++ rest) = (w, stored, if plain w then drop 1 rest else rest).
Proof.
  intros Hq Hrest. unfold show_word. destruct (plain w) eqn:Ep.
  - destruct w as [|c w]; [done|]. unfold plain in Ep. rewrite !andb_true_iff, forallb_forall in Ep. destruct Ep as [[Ep _] Ha].
    apply negb_true_iff in Ep. cbn [app next_word]. rewrite Ep.
    assert (Forall (λ x, negb (is_space x) = true) (c :: w)) as Hf by (apply Forall_forall; intros x Hx; apply Ha, list_elem_of_In, Hx).
    change (c :: w ++ rest) with ((c :: w) ++ rest). destruct Hrest as [-> | [r ->]].
    + rewrite app_nil_r, (split_while_all _ _ Hf). by eexists.
    + rewrite (split_while_app _ _ _ _ Hf) by done. by eexists.
  - cbn [app next_word is_quote]. replace (is_quote "'"%char) with true by done. rewrite <- app_assoc. cbn [app].
    rewrite split_while_app; [by eexists| |done]. apply Forall_forall. intros x Hx.
    apply negb_true_iff, Ascii.eqb_neq. intros ->. exact (Hq Hx).
Qed.

Lemma show_args_head ws rest : ws ≠ [] → match show_args ws ++ rest with [] => False | c :: _ => is_space c = false ∧ c ≠ "#"%char end.
Proof.
  intros Hne. destruct ws as [|w ws]; [done|].
  assert (∀ rest, match show_word w ++ rest with [] => False | c :: _ => is_space c = false ∧ c ≠ "#"%char end) as Hw.
  { intros r. unfold show_word. destruct (plain w) eqn:E; [|by split]. destruct w as [|c w]; [done|]. unfold plain in E.
    cbn [forallb] in E. rewrite !andb_true_iff, !negb_true_iff in E. destruct E as [[_ E1] [E2 _]]. cbn. split; [done|].
    by apply Ascii.eqb_neq. }
  destruct ws; [apply Hw|]. cbn [show_args]. rewrite <- app_assoc. apply Hw.
Qed.

Lemma parse_args_loop_show ws : ∀ room, Forall (λ w, "'"%char ∉ w) ws → (length ws <= room)%nat →
  (parse_args_loop room (show_args ws)).1 = ws.
Proof.
  induction ws as [|w ws IH]; intros room Hq Hr; [by destruct room|]. inversion Hq as [|? ? Hw Hws]; subst.
  destruct room as [|room]; [cbn in Hr; lia|]. cbn [length] in Hr.
  pose proof (show_args_head (w :: ws) [] ltac:(done)) as Hh. rewrite app_nil_r in Hh. cbn [parse_args_loop].
  rewrite split_while_none by (destruct (show_args (w :: ws)); [done|apply Hh]).
  destruct ws as [|w2 ws].
  - cbn [show_args] in *. destruct (next_word_show w [] Hw (or_introl eq_refl)) as [st E]. rewrite app_nil_r in E.
    destruct (show_word w); [done|]. rewrite E. by destruct (plain w).
  - change (show_args (w :: w2 :: ws)) with (show_word w ++ " "%char :: show_args (w2 :: ws)) in *.
    destruct (next_word_show w (" "%char :: show_args (w2 :: ws)) Hw ltac:(right; by eexists)) as [st E].
    destruct (show_word w ++ " "%char :: show_args (w2 :: ws)); [done|]. rewrite E.
    pose proof (show_args_head (w2 :: ws) [] ltac:(done)) as Hh2. rewrite app_nil_r in Hh2.
    specialize (IH room Hws ltac:(cbn in *; lia)). destruct (show_args (w2 :: ws)) as [|c r] eqn:Es; [done|].
    destruct Hh2 as [Hc Hd]. apply Ascii.eqb_neq in Hd.
    assert (split_while is_space (if plain w then drop 1 (" "%char :: c :: r) else " "%char :: c :: r)
            = (if plain w then [] else [" "%char], c :: r)) as ->.
    { destruct (plain w); cbn; by rewrite Hc. }
    rewrite Hd. destruct (parse_args_loop room (c :: r)) as [ws' after] eqn:Ep. cbn [fst] in IH |- *. by rewrite IH.
Qed.

(** The shell's splitting of a line undoes writing words on it: up to 24
    words without single quotes, bare where that is unambiguous and in single
    quotes otherwise, with spaces between, come back as they were, spaces,
    comment signs and empty words included. *)
Lemma parse_args_show (ws : list text) :
  Forall (λ w, "'"%char ∉ w) ws → Z.of_nat (length ws) <= kMaxArgs → (parse_args (show_args ws)).1 = ws.
Proof. intros Hq Hl. apply parse_args_loop_show; [done|]. unfold kMaxArgs in *. lia. Qed.

Lemma parse_args_show_witness :
  (parse_args (txt "write '# notes' '' x#y")).1 = [txt "write"; txt "# notes"; []; txt "x#y"].
Proof.
  apply (parse_args_show [txt "write"; txt "# notes"; []; txt "x#y"]); [|done].
  apply (bool_decide_unpack _). vm_compute. exact I.
Defined.

(** ** Paths *)

(** Walking the components without limits. *)
Definition walk_step (segs : list text) (c : text) : list text :=
  if text_equal c (txt ".") then segs else if text_equal c (txt "..") then take (length segs - 1) segs else segs ++ [c].
Definition walked (cs : list text) : list text := fold_left walk_step cs [].

Fixpoint push_all (cs segs : list text) : option (list text) :=
  match cs with
  | [] => Some segs
  | c :: cs' => segs ← push_segment segs c; push_all cs' segs
  end.

Lemma read_segments_split rest : ∀ acc segs, read_segments rest acc segs = push_all (split_path rest acc) segs.
Proof.
  induction rest as [|c rest IH]; intros acc segs; cbn [read_segments split_path].
  - destruct acc; [done|]. cbn. by destruct (push_segment _ _).
  - destruct (Ascii.eqb c slash); [|apply IH]. destruct acc; [apply IH|]. cbn [push_all].
    destruct (push_segment _ _); [|done]. cbn. apply IH.
Qed.

Lemma push_segment_step segs c segs' : push_segment segs c = Some segs' → segs' = walk_step segs c.
Proof. unfold push_segment, walk_step. by repeat case_match; intros; simplify_eq. Qed.

(** The segments read: the walk, as long as it never needs more than 16. *)
Lemma push_all_walk cs : ∀ segs x, push_all cs segs = Some x → x = fold_left walk_step cs segs.
Proof.
  induction cs as [|c cs IH]; intros segs x; cbn [push_all fold_left]; [by intros [= <-]|].
  destruct (push_segment segs c) as [s|] eqn:E; [|done]. cbn. apply push_segment_step in E as ->. apply IH.
Qed.

Lemma push_all_total cs : ∀ segs,
  (∀ k, (length (fold_left walk_step (take k cs) segs) <= 16)%nat) → push_all cs segs = Some (fold_left walk_step cs segs).
Proof.
  induction cs as [|c cs IH]; intros segs H; cbn [push_all fold_left]; [done|].
  assert (push_segment segs c = Some (walk_step segs c)) as ->; [|cbn; apply IH; intros k; apply (H (S k))].
  pose proof (H 1%nat) as H1. change (take 1 (c :: cs)) with [c] in H1. cbn [fold_left] in H1. clear H IH. revert H1. unfold push_segment, walk_step.
  destruct (text_equal c (txt ".")); [done|]. destruct (text_equal c (txt "..")); [done|].
  rewrite length_app. cbn [length]. intros H1. by rewrite (proj2 (Z.leb_gt _ _)) by lia.
Qed.

Definition dotless (c : text) : Prop := c ≠ txt "." ∧ c ≠ txt "..".

Lemma walk_step_ok cs : ∀ segs,
  Forall component_ok cs → Forall (λ c, component_ok c ∧ dotless c) segs →
  Forall (λ c, component_ok c ∧ dotless c) (fold_left walk_step cs segs).
Proof.
  induction cs as [|c cs IH]; intros segs Hc Hs; [done|]. inversion Hc as [|? ? H1 H2]; subst. cbn [fold_left].
  apply IH; [done|]. unfold walk_step. destruct (text_equal c (txt ".")) eqn:E1; [done|].
  destruct (text_equal c (txt "..")) eqn:E2; [by apply Forall_take|].
  apply text_equal_ne in E1, E2. apply Forall_app. split; [done|]. constructor; [by split|done].
Qed.

Lemma walk_dotless cs : ∀ segs, Forall dotless cs → fold_left walk_step cs segs = segs ++ cs.
Proof.
  induction cs as [|c cs IH]; intros segs Hd; [by rewrite app_nil_r|]. inversion Hd as [|? ? [H1 H2] H3]; subst.
  cbn [fold_left]. unfold walk_step at 2. apply text_equal_ne in H1, H2. rewrite H1, H2, IH by done. by rewrite <- app_assoc.
Qed.

Lemma write_segments_rest segs : ∀ out size,
  write_segments segs false out size =
  let p := out ++ concat ((λ c, slash :: c) <$> segs) in
  if bool_decide (segs = []) then Some p else if text_len p <? size then Some p else None.
Proof.
  unfold text_len. induction segs as [|c segs IH]; intros out size; cbn [write_segments]; [by rewrite app_nil_r|].
  rewrite bool_decide_eq_false_2 by done. cbn [negb andb]. cbn [fmap list_fmap concat].
  unfold text_len. destruct (size <=? Z.of_nat (length out) + 1) eqn:E; zbool.
  { cbn zeta. rewrite (proj2 (Z.ltb_ge _ size)); [done|]. rewrite !length_app. cbn [app length]. rewrite ?length_app. lia. }
  destruct (size <=? _) eqn:E2; zbool.
  { cbn zeta. rewrite (proj2 (Z.ltb_ge _ size)); [done|]. rewrite !length_app in *. cbn [app length] in *. rewrite ?length_app. lia. }
  rewrite IH. cbn zeta. replace (((out ++ [slash]) ++ c) ++ concat ((λ c, slash :: c) <$> segs))
    with (out ++ (slash :: c) ++ concat ((λ c, slash :: c) <$> segs)) by (cbn; by rewrite <- !app_assoc).
  destruct segs; [|done]. rewrite bool_decide_eq_true_2 by done. cbn [fmap list_fmap concat].
  rewrite (proj2 (Z.ltb_lt _ size)); [done|]. rewrite !length_app in *. cbn [length] in *. rewrite ?app_nil_r. cbn [length]. lia.
Qed.

Lemma write_segments_render segs size :
  2 <= size → write_segments segs true [slash] size = if text_len (render segs) <? size then Some (render segs) else None.
Proof.
  intros Hs. destruct segs as [|c segs]; cbn [write_segments negb andb].
  { by rewrite (proj2 (Z.ltb_lt _ _)) by (unfold text_len; cbn; lia). }
  rewrite render_cons. unfold text_len. cbn [length]. destruct (size <=? _) eqn:E; zbool.
  { rewrite (proj2 (Z.ltb_ge _ size)); [done|]. rewrite length_app. lia. }
  rewrite write_segments_rest. cbn zeta. unfold text_len. cbn [app]. destruct segs; [|done].
  rewrite bool_decide_eq_true_2 by done. cbn [fmap list_fmap concat]. rewrite app_nil_r in *.
  by rewrite (proj2 (Z.ltb_lt _ size)) by (cbn [length]; lia).
Qed.

Lemma normalize_value r size :
  2 <= size →
  normalize_absolute_path (slash :: r) size =
  segs ← push_all (components (slash :: r)) []; if text_len (render segs) <? size then Some (render segs) else None.
Proof.
  intros Hs. unfold normalize_absolute_path. rewrite (proj2 (Z.ltb_ge _ _)) by lia.
  replace (Ascii.eqb slash slash) with true by done. rewrite read_segments_split.
  change (split_path r []) with (components (slash :: r)).
  destruct (push_all _ _); [|done]. cbn. by apply write_segments_render.
Qed.

(** A path the shell accepts is resolved to the canonical spelling of the
    directory that walking its components leads to, without [.] and [..], short
    enough for its buffer, and resolving it again changes nothing; a path is
    accepted if its result fits and the walk is never deeper than 16. *)
Lemma normalize_absolute_path_spec (r : text) (size : Z) :
  2 <= size →
  let cs := components (slash :: r) in
  (∀ p, normalize_absolute_path (slash :: r) size = Some p →
     p = render (walked cs) ∧ Forall (λ c, component_ok c ∧ dotless c) (walked cs) ∧ text_len p < size ∧
     ((length (walked cs) <= 16)%nat → normalize_absolute_path p size = Some p)) ∧
  ((∀ k, (length (walked (take k cs)) <= 16)%nat) → text_len (render (walked cs)) < size →
   normalize_absolute_path (slash :: r) size = Some (render (walked cs))).
Proof.
  intros Hs cs. rewrite normalize_value by done. fold cs.
  assert (Forall (λ c, component_ok c ∧ dotless c) (walked cs)) as Hok by (apply walk_step_ok; [apply components_ok|done]).
  split.
  - intros p. destruct (push_all cs []) as [segs|] eqn:E; [|done]. cbn [mbind option_bind]. apply push_all_walk in E as ->. fold (walked cs).
    destruct (_ <? size) eqn:El; [|done]. intros [= <-]. zbool. split_and!; [done..|]. intros H16.
    apply Forall_and in Hok as [Hok Hd].
    assert (∃ q, render (walked cs) = slash :: q) as [q Eq] by (destruct (walked cs); eexists; reflexivity).
    rewrite Eq, normalize_value by done. rewrite <- Eq, components_render by done.
    rewrite push_all_total, walk_dotless by (done || (intros k; rewrite walk_dotless by (by apply Forall_take); rewrite length_app, length_take; cbn [length]; lia)).
    cbn [mbind option_bind app]. by rewrite (proj2 (Z.ltb_lt _ _) El).
  - intros H16 Hl. rewrite push_all_total by done. fold (walked cs). cbn [mbind option_bind]. by rewrite (proj2 (Z.ltb_lt _ _) Hl).
Qed.

Lemma normalize_absolute_path_spec_witness :
  normalize_absolute_path (txt "/usr/./share/../bin//") 64 = Some (txt "/usr/bin").
Proof.
  apply (normalize_absolute_path_spec (txt "usr/./share/../bin//") 64 ltac:(lia)); [|done].
  intros k. do 6 (destruct k as [|k]; [vm_compute; lia|]). vm_compute. lia.
Defined.

(** A longer path is cut before it is resolved: these are one file. *)
Lemma shell_long_path_aliases :
  resolve_path (txt "/") (replicate 80 "a"%char) 64 = resolve_path (txt "/") (replicate 62 "a"%char) 64 ∧
  resolve_path (txt "/") (replicate 62 "a"%char) 64 ≠ None.
Proof. split; [reflexivity|by vm_compute]. Qed.

(** ** Numbers *)

Definition digit_char (c : ascii) : bool := (48 <=? byte_of c) && (byte_of c <=? 57).
Definition decimal (s : text) (v : Z) : Z := fold_left (λ v c, 10 * v + (byte_of c - 48)) s v.

Lemma parse_u32_loop_value s : ∀ v, forallb digit_char s = true → parse_u32_loop s (u32 v) = Some (u32 (decimal s v)).
Proof.
  induction s as [|c s IH]; intros v H; cbn [parse_u32_loop decimal fold_left]; [done|].
  cbn [forallb] in H. apply andb_true_iff in H as [Hc Hs]. unfold digit_char in Hc. zbool.
  destruct (_ || _) eqn:E; [zbool; lia|]. fold (decimal s (10 * v + (byte_of c - 48))). rewrite <- IH by done. f_equal.
  unfold u32. rewrite Z.mul_mod_idemp_l, Z.add_mod_idemp_l by lia. f_equal. lia.
Qed.

Lemma parse_u32_loop_rejects s : ∀ v, forallb digit_char s = false → parse_u32_loop s v = None.
Proof.
  induction s as [|c s IH]; intros v; cbn [parse_u32_loop forallb]; [done|].
  destruct (digit_char c) eqn:E; unfold digit_char in E.
  - cbn [andb]. intros H. destruct (_ || _); [done|by apply IH].
  - intros _. destruct (_ || _) eqn:E2; [done|]. zbool. lia.
Qed.

Definition char_of (b : Z) : ascii := ascii_of_nat (Z.to_nat b).
Definition dec_text (v : Z) : text := if v =? 0 then txt "0" else char_of <$> rev (dec_loop 11 v).

Lemma byte_of_char b : 0 <= b < 256 → byte_of (char_of b) = b.
Proof. intros. unfold byte_of, char_of. rewrite nat_ascii_embedding by lia. lia. Qed.

Lemma dec_loop_digits n : ∀ v, 0 <= v → Forall (λ b, 48 <= b <= 57) (dec_loop n v).
Proof.
  induction n as [|n IH]; intros v Hv; cbn [dec_loop]; [done|]. destruct (0 <? v); [|done].
  constructor; [pose proof (Z.mod_pos_bound v 10); lia|]. apply IH, Z.div_pos; lia.
Qed.

Lemma decimal_app a b v : decimal (a ++ b) v = decimal b (decimal a v).
Proof. apply fold_left_app. Qed.

Lemma dec_loop_value n : ∀ v, 0 <= v < 10 ^ Z.of_nat n → decimal (char_of <$> rev (dec_loop n v)) 0 = v.
Proof.
  induction n as [|n IH]; intros v Hv; [cbn in *; lia|]. cbn [dec_loop]. destruct (0 <? v) eqn:E; zbool; [|cbn; lia].
  cbn [rev]. rewrite fmap_app, decimal_app, IH.
  - cbn. pose proof (Z.mod_pos_bound v 10). rewrite byte_of_char by lia. pose proof (Z.div_mod v 10). lia.
  - rewrite Nat2Z.inj_succ, Z.pow_succ_r in Hv by lia. split; [apply Z.div_pos; lia|apply Z.div_lt_upper_bound; lia].
Qed.

(** A number on the command line is read as its decimal value modulo
    2^32, and refused if it is empty or has a character that is not a digit;
    what [write_dec] prints reads back as the number. *)
Lemma parse_u32_spec (s : text) (v : Z) :
  parse_u32 s = (if bool_decide (s ≠ []) && forallb digit_char s then Some (u32 (decimal s 0)) else None) ∧
  (0 <= v < 4294967296 → parse_u32 (dec_text v) = Some v).
Proof.
  assert (∀ s, parse_u32 s = (if bool_decide (s ≠ []) && forallb digit_char s then Some (u32 (decimal s 0)) else None)) as H.
  { clear s. intros s. destruct s as [|c s]; [done|]. rewrite bool_decide_eq_true_2 by done. cbn [andb]. unfold parse_u32.
    destruct (forallb digit_char (c :: s)) eqn:E; [|by apply parse_u32_loop_rejects]. by apply (parse_u32_loop_value (c :: s) 0). }
  split; [apply H|]. intros Hv. rewrite H. unfold dec_text. destruct (v =? 0) eqn:E; zbool; [by subst|].
  assert (forallb digit_char (char_of <$> rev (dec_loop 11 v)) = true) as ->.
  { apply forallb_forall. intros x Hx%list_elem_of_In. apply list_elem_of_fmap in Hx as (b & -> & Hb).
    apply list_elem_of_In, in_rev, list_elem_of_In in Hb. pose proof (proj1 (Forall_forall _ _) (dec_loop_digits 11 v ltac:(lia)) b Hb) as Hd. cbn beta in Hd.
    unfold digit_char. rewrite byte_of_char by lia. rewrite !(proj2 (Z.leb_le _ _)) by lia. done. }
  rewrite bool_decide_eq_true_2.
  - cbn [andb]. rewrite dec_loop_value by (change (10 ^ Z.of_nat 11) with 100000000000; lia). by rewrite u32_small.
  - intros Hn. apply (f_equal length) in Hn. rewrite length_fmap, length_rev in Hn. cbn [dec_loop] in Hn.
    rewrite (proj2 (Z.ltb_lt 0 v)) in Hn by lia. done.
Qed.

Lemma parse_u32_spec_witness : parse_u32 (dec_text 4294967295) = Some 4294967295 ∧ parse_u32 (txt "4294967306") = Some 10.
Proof. split; [apply (parse_u32_spec [] 4294967295); lia|]. rewrite (proj1 (parse_u32_spec (txt "4294967306") 0)). reflexivity. Defined.
