(* ===== verification/ShellFs.v ===== *)
(** * File commands of the shell on the RAM file system

    A small program logic for the shell's effects, and with it: copying and
    moving, comparing, counting, and what removing a package leaves. *)

From S2P Require Import Prelude CText Serial Vfs RamFs RamFsSpec FsHandles Snapshot Scheduler KernelTasks Bytes Block BlockSpec RamDisk Storage StorageSpec Pci Shell ShellSys ShellCmds ShellPkg.

(** ** Running a command *)

Section logic.
Context {F K : Type} `{FS : FileSystem F} `{SK : ShellKernel K}.
Implicit Types s : shell F K.

(** The command returns, and [Q] holds of its result and the state. *)
Definition runs {A} (m : Sh F K A) s (Q : A → shell F K → Prop) : Prop :=
  match m s with Ret a s' => Q a s' | _ => False end.

Definition put_fs s (f : F) : shell F K :=
  mk_shell (sh_tx s) (Some f) (sh_kernel s) (sh_cwd s) (sh_running s) (sh_history s) (sh_typed s).

(** Everything but output and files. *)
Definition same s s' : Prop :=
  sh_kernel s' = sh_kernel s ∧ sh_cwd s' = sh_cwd s ∧ sh_running s' = sh_running s ∧
  sh_history s' = sh_history s ∧ sh_typed s' = sh_typed s.

Lemma same_refl s : same s s.
Proof. by repeat split. Qed.
Lemma sh_same_trans s1 s2 s3 : same s1 s2 → same s2 s3 → same s1 s3.
Proof. intros (?&?&?&?&?) (?&?&?&?&?). repeat split; congruence. Qed.
Lemma same_put s s' f : same s s' → same s (put_fs s' f).
Proof. done. Qed.

Lemma sh_runs_bind {A B} (m : Sh F K A) (k : A → Sh F K B) s Q :
  runs m s (λ a s', runs (k a) s' Q) → runs (m ≫= k) s Q.
Proof. unfold runs, mbind, Sh_bind. by destruct (m s). Qed.

Lemma bind_Ret {A B} (m : Sh F K A) (k : A → Sh F K B) s a s' : m s = Ret a s' → (m ≫= k) s = k a s'.
Proof. intros E. unfold mbind, Sh_bind. by rewrite E. Qed.

Lemma on_fs_Ret {A} (op : F → A * F) s f a f' : sh_fs s = Some f → op f = (a, f') → on_fs op s = Ret a (put_fs s f').
Proof. intros Hf E. unfold on_fs. by rewrite Hf, E. Qed.

Lemma read_Ret fd n s f r bs f' : sh_fs s = Some f → fs_read f fd n = (r, bs, f') → read_ fd n s = Ret (r, bs) (put_fs s f').
Proof. intros Hf E. apply (on_fs_Ret _ s f); [done|]. by rewrite E. Qed.

Lemma close_Ret fd s f : sh_fs s = Some f → close_ fd s = Ret tt (put_fs s (fs_close f fd).2).
Proof. intros Hf. apply (on_fs_Ret _ s f); [done|]. by destruct (fs_close f fd). Qed.

Lemma ready_Ret s f : sh_fs s = Some f → fs_ready s = Ret true s.
Proof. intros Hf. unfold fs_ready, asks. by rewrite Hf. Qed.

Lemma sh_runs_ret {A} (a : A) s (Q : A → shell F K → Prop) : Q a s → runs (mret a) s Q.
Proof. done. Qed.

Lemma sh_runs_mono {A} (m : Sh F K A) s (Q R : A → shell F K → Prop) :
  runs m s Q → (∀ a s', Q a s' → R a s') → runs m s R.
Proof. unfold runs. destruct (m s); naive_solver. Qed.

Lemma runs_asks {A} (g : shell F K → A) s (Q : A → shell F K → Prop) : Q (g s) s → runs (asks g) s Q.
Proof. done. Qed.

(** Output changes nothing else. *)
Lemma runs_tx h s (Q : unit → shell F K → Prop) :
  (∀ s', same s s' → sh_fs s' = sh_fs s → Q tt s') → runs (with_tx h) s Q.
Proof. intros H. apply H; [by repeat split|done]. Qed.

Lemma runs_on_fs {A} (op : F → A * F) s f (Q : A → shell F K → Prop) :
  sh_fs s = Some f → Q (op f).1 (put_fs s (op f).2) → runs (on_fs op) s Q.
Proof. intros Hf HQ. unfold runs, on_fs. rewrite Hf. by destruct (op f). Qed.

Lemma runs_read fd n s f r bs f' (Q : Z * list Z → shell F K → Prop) :
  sh_fs s = Some f → fs_read f fd n = (r, bs, f') → Q (r, bs) (put_fs s f') → runs (read_ fd n) s Q.
Proof. intros Hf E HQ. apply (runs_on_fs _ s f); [done|]. by rewrite E. Qed.

Lemma runs_close fd s f (Q : unit → shell F K → Prop) :
  sh_fs s = Some f → Q tt (put_fs s (fs_close f fd).2) → runs (close_ fd) s Q.
Proof. intros Hf HQ. apply (runs_on_fs _ s f); [done|]. by destruct (fs_close f fd). Qed.

Lemma runs_write fd bs s f r f' (Q : Z → shell F K → Prop) :
  sh_fs s = Some f → fs_write f fd (Some bs) = Done (r, f') → Q r (put_fs s f') → runs (write_ fd bs) s Q.
Proof. intros Hf E HQ. unfold runs, write_. by rewrite Hf, E. Qed.

Lemma runs_fs_ready s f (Q : bool → shell F K → Prop) : sh_fs s = Some f → Q true s → runs fs_ready s Q.
Proof. intros Hf HQ. unfold runs, fs_ready, asks. by rewrite Hf. Qed.

Lemma runs_arg_to_path a s p (Q : option text → shell F K → Prop) :
  resolve_path (sh_cwd s) a kMaxPath = Some p → Q (Some p) s → runs (arg_to_path a) s Q.
Proof. intros E HQ. apply sh_runs_bind, runs_asks. by rewrite E. Qed.
End logic.

(** Steps of a run: the monad, output, arguments and the check for a file
    system. *)
Ltac run_step :=
  lazymatch goal with
  | |- runs (mbind _ _) _ _ => apply sh_runs_bind
  | |- runs (mret _) _ _ => apply sh_runs_ret
  | |- runs fs_ready _ _ => eapply runs_fs_ready; [eassumption|]
  | |- runs (arg_to_path _) _ _ => eapply runs_arg_to_path; [eassumption|]
  | |- runs (asks _) _ _ => apply runs_asks
  | |- runs (say _) _ _ => run_output
  | |- runs (say_line _) _ _ => run_output
  | |- runs (out _) _ _ => run_output
  end; cbn beta iota
with run_output :=
  apply runs_tx; let s' := fresh "st" in let H1 := fresh "Hsame" in let H2 := fresh "Hfs" in intros s' H1 H2.

Section ramfs.
Context (nb : Z → option (list Z)) (nb_good : good_allocator nb) {K : Type} `{SK : ShellKernel K}.
#[local] Instance fs_inst : FileSystem ramfs := ramfs_fs nb.
Implicit Types s : shell ramfs K.

(** The state [s] with the file system [f] in place of its own, and any
    output. *)
Definition leads s (f : ramfs) s' : Prop := same s s' ∧ sh_fs s' = Some f.

(** ** Copying and moving *)

Lemma cp_loop_copies a b ps pd rf wf data :
  Z.land rf kOpenRead ≠ 0 → Z.land wf kOpenWrite ≠ 0 → a ≠ b → ps ≠ pd → Z.of_nat (length data) <= 2147483647 →
  ∀ fuel off s f, sh_fs s = Some f → copying f a b ps pd rf wf data off →
  Z.of_nat (length data) - off + 128 <= 128 * Z.of_nat fuel →
  runs (cp_loop fuel a b) s (λ _ s', ∃ f', leads s f' s' ∧ fs_ok f' ∧ closed_but f' a b ∧
    ∀ q, view f' q = if text_equal q pd then Some (File data) else view f q).
Proof using nb_good.
  intros Hrf Hwf Hab Hpp Hlen. induction fuel as [|fuel IH]; intros off s f Hs Hco Hf; [pose proof (co_off _ _ _ _ _ _ _ _ _ Hco); lia|].
  destruct (copy_chunk nb f a b ps pd rf wf data off 128 nb_good Hrf Hwf Hab Hpp Hlen ltac:(lia) Hco)
    as (Hbl & f1 & Er & Hok1 & Hcl1 & V1 & f2 & Ew & Hco2 & V2). cbn [cp_loop].
  set (bytes := take (Z.to_nat 128) (drop (Z.to_nat off) data)) in *. destruct Hco as [_ _ _ Hvs Hvd Hoff _].
  run_step. eapply runs_read; [exact Hs|exact Er|]. cbn beta iota. destruct (Z.of_nat (length bytes) <=? 0) eqn:E; zbool.
  - run_step. exists f1. split_and!; [by split|done|done|]. intros q. rewrite V1. destruct (text_equal q pd) eqn:Eq; [|done].
    apply text_equal_eq in Eq as ->. rewrite Hvd. rewrite take_ge by lia. done.
  - run_step. eapply runs_write; [done|exact Ew|]. rewrite (proj2 (Z.ltb_ge _ _)) by lia.
    eapply sh_runs_mono; [apply (IH _ (put_fs (put_fs s f1) f2) f2 eq_refl Hco2); lia|].
    intros [] s' (f' & Hl & Hok' & Hcl' & V'). exists f'. split_and!; [exact Hl|done|done|].
    intros q. rewrite V'. destruct (text_equal q pd) eqn:Eq; [done|by apply V2].
Qed.

Lemma cp_copies fuel c a b rest s f src dst ps pd data :
  sh_fs s = Some f → resolve_path (sh_cwd s) a kMaxPath = Some src → resolve_path (sh_cwd s) b kMaxPath = Some dst →
  copy_ready f src dst ps pd data → Z.of_nat (length data) + 128 <= 128 * Z.of_nat fuel →
  runs (cp fuel (c :: a :: b :: rest)) s (λ _ s', ∃ f', leads s f' s' ∧ fs_ok f' ∧ all_closed f' ∧
    ∀ q, view f' q = if text_equal q pd then Some (File data) else view f q).
Proof using nb_good.
  intros Hs Ha Hb Hr Hf. destruct (copy_opens f src dst ps pd data Hr) as (x & f1 & y & f2 & E1 & E2 & Hx & Hy & Hxy & Hco & V2).
  destruct Hr as [_ _ _ _ Hpp _ _ _ Hlen]. unfold cp, with_fs, with_paths2. repeat run_step.
  eapply runs_on_fs; [exact Hs|]. cbn [fs_open fs_inst ramfs_fs]. rewrite E1. cbn [fst snd].
  rewrite (proj2 (Z.ltb_ge _ _)) by lia. run_step. eapply runs_on_fs; [done|]. unfold kOpenReplace. cbn [fs_open fs_inst ramfs_fs]. rewrite E2. cbn [fst snd].
  rewrite (proj2 (Z.ltb_ge _ _)) by lia. run_step.
  eapply sh_runs_mono; [eapply (cp_loop_copies x y ps pd kOpenRead replace_flags data ltac:(done) ltac:(done) Hxy Hpp Hlen fuel 0); [reflexivity|exact Hco|lia]|].
  intros [] s3 (f3 & [Hsm Hs3] & Hok3 & Hcl3 & V3). run_step. eapply runs_close; [exact Hs3|]. eapply runs_close; [done|].
  cbn [fs_close fs_inst ramfs_fs].
  pose proof (close_effect f3 x Hok3) as H4. destruct (close f3 x) as [r4 f4]. destruct H4 as (Hok4 & V4 & _ & _ & G4 & O4). cbn [snd].
  destruct (close_closed f4 y Hok4) as (Hok5 & Hcl5 & V5).
  { intros fd Hfd. destruct (decide (fd = x)) as [->|]; [done|]. rewrite O4 by done. by apply Hcl3. }
  exists (close f4 y).2. split_and!; [by split|done|done|]. intros q. rewrite V5, V4, V3. destruct (text_equal q pd) eqn:Eq; [done|by apply V2].
Qed.

(** A destination that cannot be opened. *)
Definition no_target (f : ramfs) (dst : text) : Prop :=
  ∃ pd, RamFs.normalize_path (Some dst) 64 = Some pd ∧
    (view f pd = Some Dir ∨ view f pd = None ∧ view f (parent_of pd) ≠ Some Dir).

Lemma open_no_target f dst flags : fs_ok f → no_target f dst → open f (Some dst) flags = (-1, f).
Proof using.
  intros Hok (pd & Hn & Hv). pose proof (open_effect f (Some dst) flags Hok) as He. destruct (open f (Some dst) flags) as [r f'].
  destruct He as (_ & [(-> & -> & _)|(p & x & Hn' & Hx & _)]); [done|]. exfalso. rewrite Hn in Hn'. injection Hn' as <-.
  destruct Hv as [Hv|[Hv Hp]], Hx as [Hx|(Hx & _ & Hx2 & _)]; congruence.
Qed.

Lemma cp_no_target fuel c a b rest s f src dst ps data :
  sh_fs s = Some f → resolve_path (sh_cwd s) a kMaxPath = Some src → resolve_path (sh_cwd s) b kMaxPath = Some dst →
  fs_ok f → all_closed f → RamFs.normalize_path (Some src) 64 = Some ps → view f ps = Some (File data) → no_target f dst →
  runs (cp fuel (c :: a :: b :: rest)) s (λ _ s', ∃ f', leads s f' s' ∧ fs_ok f' ∧ all_closed f' ∧ ∀ q, view f' q = view f q).
Proof using.
  intros Hs Ha Hb Hok Hcl Hn Hv Hno.
  destruct (open_source f src ps data Hok Hcl Hn Hv) as (x & f1 & E1 & Hx & Hok1 & V1 & _ & O1 & _).
  unfold cp, with_fs, with_paths2. repeat run_step.
  eapply runs_on_fs; [exact Hs|]. cbn [fs_open fs_inst ramfs_fs]. rewrite E1. cbn [fst snd].
  rewrite (proj2 (Z.ltb_ge _ _)) by lia. run_step. eapply runs_on_fs; [done|]. cbn [fs_open fs_inst ramfs_fs].
  rewrite open_no_target; [|done|].
  2: { destruct Hno as (pd & Hnd & Hv'). exists pd. by rewrite !V1. }
  cbn [fst snd]. change (-1 <? 0) with true. cbv iota. run_step. eapply runs_close; [done|].
  destruct (close_closed f1 x Hok1) as (Hok2 & Hcl2 & V2); [intros fd Hfd; by apply O1|].
  run_step. exists (close f1 x).2. split_and!; [by split|done|done|intros q; by rewrite V2].
Qed.

(** [mv] after [cp] has left the files [V]. *)
Lemma mv_removes fuel c a b rest s f src ps data (V : text → option node) :
  resolve_path (sh_cwd s) a kMaxPath = Some src → RamFs.normalize_path (Some src) 64 = Some ps → V ps = Some (File data) →
  sh_fs s = Some f →
  runs (cp fuel (c :: a :: b :: rest)) s (λ _ s', ∃ f', leads s f' s' ∧ fs_ok f' ∧ all_closed f' ∧ ∀ q, view f' q = V q) →
  runs (mv fuel (c :: a :: b :: rest)) s (λ _ s', ∃ f', leads s f' s' ∧ fs_ok f' ∧ all_closed f' ∧
    ∀ q, view f' q = if text_equal q ps then None else V q).
Proof using.
  intros Ha Hn HV Hs Hcp. unfold mv. run_step. eapply sh_runs_mono; [exact Hcp|]. clear Hcp.
  intros [] s1 (f1 & [Hsm Hs1] & Hok & Hcl & V1). pose proof Hsm as (_ & Hcwd & _). rewrite <- Hcwd in Ha.
  unfold with_path. repeat run_step. rewrite <- V1 in HV.
  destruct (unlink_closed f1 src ps data Hok Hcl Hn HV) as (f2 & Eu & Hok2 & Hcl2 & V2).
  eapply runs_on_fs; [exact Hs1|]. cbn [fs_unlink fs_inst ramfs_fs]. rewrite Eu. cbn [fst snd]. change (0 <? 0) with false. cbv iota.
  run_step. exists f2. split_and!; [by split|done|done|]. intros q. by rewrite V2, V1.
Qed.

(** ** Reading whole files *)

(** Descriptor [fd] is the only one open, [off] bytes into [p]. *)
Record reading (f : ramfs) (fd : Z) (p : text) (data : list Z) (off : Z) : Prop := {
  rd_ok : fs_ok f;
  rd_handle : handle f fd p off kOpenRead;
  rd_data : view f p = Some (File data);
  rd_off : 0 <= off <= Z.of_nat (length data);
  rd_only : ∀ fd', fd' ≠ fd → get_fd f fd' = None;
}.

Lemma reading_opens f path p data :
  fs_ok f → all_closed f → RamFs.normalize_path (Some path) 64 = Some p → view f p = Some (File data) →
  ∃ fd f', open f (Some path) kOpenRead = (fd, f') ∧ 3 <= fd ∧ reading f' fd p data 0 ∧ ∀ q, view f' q = view f q.
Proof using.
  intros Hok Hcl Hn Hv. destruct (open_source f path p data Hok Hcl Hn Hv) as (fd & f1 & E1 & Hx & Hok1 & V1 & H1 & O1 & _).
  exists fd, f1. split_and!; [done|lia| |done]. split; [done..|by rewrite V1|lia|done].
Qed.

Lemma reading_chunk f fd p data off size :
  reading f fd p data off → 0 < size < 2147483648 →
  let bytes := take (Z.to_nat size) (drop (Z.to_nat off) data) in
  ∃ f', read f fd false size = (Z.of_nat (length bytes), bytes, f') ∧ reading f' fd p data (off + Z.of_nat (length bytes)) ∧
        ∀ q, view f' q = view f q.
Proof using.
  intros [Hok Hh Hv Hoff Ho] Hs bytes.
  destruct (read_handle f fd p off kOpenRead data size Hok Hh ltac:(done) Hv ltac:(lia)) as (f1 & Er & Hok1 & V1 & Hh1 & _ & O1).
  fold bytes in Er, Hh1. exists f1. split_and!; [done| |done]. split; [done|done|by rewrite V1| |].
  - unfold bytes. rewrite length_take, length_drop. lia.
  - intros fd' Hfd. rewrite O1 by done. by apply Ho.
Qed.

(** What a loop that adds chunks with [g] has at the end. *)
Definition added {A} (g : A → list Z → A) (acc : A) (rest : list Z) : A := match rest with [] => acc | _ => g acc rest end.

Lemma read_loop_file {A} (body : Z → list Z → A → A) fd p data size :
  let g acc bs := body (Z.of_nat (length bs)) bs acc in
  (∀ acc x y, g (g acc x) y = g acc (x ++ y)) → 0 < size < 2147483648 →
  ∀ fuel off s f acc, sh_fs s = Some f → reading f fd p data off →
  Z.of_nat (length data) - off + size <= size * Z.of_nat fuel →
  ∃ f', read_loop fuel fd size (λ n bs acc, mret (body n bs acc)) acc s = Ret (added g acc (drop (Z.to_nat off) data)) (put_fs s f') ∧
    reading f' fd p data (Z.of_nat (length data)) ∧ ∀ q, view f' q = view f q.
Proof using.
  intros g Hg Hsize. induction fuel as [|fuel IH]; intros off s f acc Hs Hr Hf; [pose proof (rd_off _ _ _ _ _ Hr); lia|].
  destruct (reading_chunk f fd p data off size Hr Hsize) as (f1 & Er & Hr1 & V1). pose proof (rd_off _ _ _ _ _ Hr) as Hoff.
  set (rest := drop (Z.to_nat off) data) in *. cbn [read_loop]. erewrite bind_Ret; [|eapply read_Ret; [exact Hs|exact Er]]. cbn beta iota.
  assert (Z.of_nat (length (take (Z.to_nat size) rest)) = Z.min size (Z.of_nat (length rest))) as Hl by (rewrite length_take; lia).
  assert (Z.of_nat (length rest) = Z.of_nat (length data) - off) as Hrl by (unfold rest; rewrite length_drop; lia).
  destruct (Z.of_nat (length (take (Z.to_nat size) rest)) <=? 0) eqn:E; zbool.
  - assert (length rest = 0%nat) as Hz by lia. apply nil_length_inv in Hz as Hz'. exists f1. rewrite Hz'. split_and!; [done| |done].
    rewrite Hl in Hr1. replace (off + _) with (Z.of_nat (length data)) in Hr1 by lia. done.
  - assert (size <= size * Z.of_nat fuel) by (destruct fuel; [lia|nia]).
    destruct (IH (off + Z.of_nat (length (take (Z.to_nat size) rest))) (put_fs s f1) f1 (g acc (take (Z.to_nat size) rest)) eq_refl Hr1 ltac:(lia))
      as (f2 & E2 & Hr2 & V2).
    exists f2. split_and!; [|done|intros q; by rewrite V2]. erewrite bind_Ret; [|reflexivity]. cbn beta. fold (g acc (take (Z.to_nat size) rest)). etransitivity; [exact E2|]. f_equal.
    replace (drop (Z.to_nat (off + _)) data) with (drop (Z.to_nat size) rest).
    + rewrite <- (take_drop (Z.to_nat size) rest) at 3. unfold added. destruct (drop (Z.to_nat size) rest) as [|x r] eqn:Ed.
      * rewrite app_nil_r. destruct (take (Z.to_nat size) rest); [cbn in E; lia|done].
      * rewrite Hg. by destruct (take (Z.to_nat size) rest).
    + unfold rest. rewrite drop_drop. destruct (Z.le_gt_cases size (Z.of_nat (length rest))).
      * f_equal. fold rest. lia.
      * rewrite !drop_ge; [done|fold rest; lia|lia].
Qed.

Lemma reading_close f fd p data off : reading f fd p data off →
  fs_ok (close f fd).2 ∧ all_closed (close f fd).2 ∧ ∀ q, view (close f fd).2 q = view f q.
Proof using. intros [Hok _ _ _ Ho]. by apply close_closed. Qed.

(** *** [wc] *)

Definition is_blank (b : Z) : bool := (b =? 32) || (b =? 9) || (b =? 10) || (b =? 13).

(** Words begin where a character that is not blank follows a blank or the
    start. *)
Fixpoint words_from (inside : bool) (bs : list Z) : Z :=
  match bs with
  | [] => 0
  | b :: bs' => if is_blank b then words_from false bs' else (if inside then 0 else 1) + words_from true bs'
  end.

Definition lines_in (bs : list Z) : Z := Z.of_nat (length (filter (λ b, b = 10) bs)).

Lemma count_bytes_value bs : ∀ l w n i,
  ∃ i', fold_left count_byte bs (mk_counts (u32 l) (u32 w) n i) =
        mk_counts (u32 (l + lines_in bs)) (u32 (w + words_from i bs)) n i'.
Proof using.
  unfold lines_in. induction bs as [|b bs IH]; intros l w n i; [exists i; by rewrite !Z.add_0_r|]. cbn [fold_left words_from].
  assert (∀ w' i', count_byte (mk_counts (u32 l) (u32 w) n i) b = mk_counts (u32 (l + if bool_decide (b = 10) then 1 else 0)) w' n i' →
    ∀ v, (∃ v', w' = u32 v' ∧ w + v = v' + words_from i' bs) →
    ∃ i'', fold_left count_byte bs (count_byte (mk_counts (u32 l) (u32 w) n i) b) =
      mk_counts (u32 (l + Z.of_nat (length (filter (λ b, b = 10) (b :: bs))))) (u32 (w + v)) n i'') as Hstep.
  { intros w' i' -> v (v' & -> & ->). destruct (IH (l + if bool_decide (b = 10) then 1 else 0) v' n i') as [i'' ->]. exists i''. f_equal.
    f_equal. rewrite filter_cons. case_bool_decide; case_decide; cbn [length]; lia. }
  assert (∀ c d : bool, (if c then u32 l +u 1 else u32 l) = u32 (l + if d then 1 else 0) ∨ c ≠ d) as Hl.
  { intros [|] [|]; [left|by right|by right|left]; [unfold u32; by rewrite Z.add_mod_idemp_l|by rewrite Z.add_0_r]. }
  assert ((b =? 10) = bool_decide (b = 10)) as Hb by (case_bool_decide; [by apply Z.eqb_eq|by apply Z.eqb_neq]).
  unfold count_byte at 1 in Hstep. unfold is_blank. cbn [c_lines c_words c_bytes in_word] in Hstep.
  destruct ((b =? 32) || (b =? 9) || (b =? 10) || (b =? 13)) eqn:Eb.
  - eapply Hstep; [f_equal; destruct (Hl (b =? 10) (bool_decide (b = 10))); [done|by rewrite Hb in *]|]. exists w. done.
  - destruct i; cbn [negb] in Hstep |- *.
    + eapply Hstep; [f_equal; destruct (Hl (b =? 10) (bool_decide (b = 10))); [done|by rewrite Hb in *]|]. exists w. split; [done|lia].
    + eapply Hstep; [f_equal; destruct (Hl (b =? 10) (bool_decide (b = 10))); [done|by rewrite Hb in *]|].
      exists (w + 1). split; [unfold u32; by rewrite Z.add_mod_idemp_l|lia].
Qed.

Definition counting (c : counts) (bs : list Z) : counts := count_chunk (Z.of_nat (length bs)) bs c.

Lemma count_bytes_frame bs : ∀ c m,
  fold_left count_byte bs (mk_counts (c_lines c) (c_words c) m (in_word c)) =
  let r := fold_left count_byte bs c in mk_counts (c_lines r) (c_words r) m (in_word r).
Proof using.
  induction bs as [|b bs IH]; intros c m; [done|]. cbn [fold_left].
  rewrite <- IH. f_equal. unfold count_byte. cbn. by repeat case_match.
Qed.

Lemma counting_app c x y : counting (counting c x) y = counting c (x ++ y).
Proof using.
  unfold counting, count_chunk. rewrite fold_left_app, length_app. rewrite !(count_bytes_frame x c). cbn zeta. cbn [c_lines c_words c_bytes in_word].
  rewrite !(count_bytes_frame y (fold_left count_byte x c)). cbn zeta. f_equal.
  unfold u32. rewrite Z.add_mod_idemp_l by lia. f_equal. lia.
Qed.

Lemma counted data : ∃ i,
  added counting (mk_counts 0 0 0 false) data = mk_counts (u32 (lines_in data)) (u32 (words_from false data)) (u32 (Z.of_nat (length data))) i.
Proof using.
  destruct data as [|b data]; [by exists false|]. unfold added, counting, count_chunk. cbn [c_lines c_words c_bytes in_word].
  destruct (count_bytes_value (b :: data) 0 0 (0 +u Z.of_nat (length (b :: data))) false) as [i E]. exists i.
  change (u32 0) with 0 in E. rewrite E. by rewrite !Z.add_0_l.
Qed.

(** What [wc] prints. *)
Definition print_counts (lines words bytes : Z) : Sh ramfs K unit :=
  say "lines=" ;; write_dec lines ;; say " words=" ;; write_dec words ;; say " bytes=" ;; write_dec bytes ;; out newline.

(** [wc] prints the number of newlines, of words (maximal runs of
    characters other than space, tab, newline and return) and of bytes of the
    file, whatever the chunks it reads them in, and leaves the files and the
    descriptors as they were. *)
Lemma wc_counts fuel (c a : text) rest s f path p data :
  sh_fs s = Some f → resolve_path (sh_cwd s) a kMaxPath = Some path → fs_ok f → all_closed f →
  RamFs.normalize_path (Some path) 64 = Some p → view f p = Some (File data) → Z.of_nat (length data) + 128 <= 128 * Z.of_nat fuel →
  ∃ f', wc fuel (c :: a :: rest) s =
    print_counts (u32 (lines_in data)) (u32 (words_from false data)) (u32 (Z.of_nat (length data))) (put_fs s f') ∧
    fs_ok f' ∧ all_closed f' ∧ ∀ q, view f' q = view f q.
Proof using.
  intros Hs Ha Hok Hcl Hn Hv Hf. destruct (reading_opens f path p data Hok Hcl Hn Hv) as (fd & f1 & Eo & Hfd & Hr & V1).
  destruct (read_loop_file count_chunk fd p data 128 counting_app ltac:(lia) fuel 0 (put_fs s f1) f1 (mk_counts 0 0 0 false) eq_refl Hr ltac:(lia))
    as (f2 & El & Hr2 & V2). destruct (reading_close _ _ _ _ _ Hr2) as (Hok3 & Hcl3 & V3). destruct (counted data) as [i Ec].
  exists (close f2 fd).2. split_and!; [|done|done|intros q; by rewrite V3, V2].
  unfold wc, with_path_or, with_path, arg_to_path, with_fs.
  erewrite bind_Ret; [|erewrite bind_Ret; [|reflexivity]; cbn beta; rewrite Ha; reflexivity]. cbn beta iota.
  erewrite bind_Ret; [|by eapply ready_Ret]. cbn beta iota.
  erewrite bind_Ret; [|eapply on_fs_Ret; [exact Hs|exact Eo]]. rewrite (proj2 (Z.ltb_ge fd 0)) by lia.
  erewrite bind_Ret; [|exact El]. change (added _ _ (drop (Z.to_nat 0) data)) with (added counting (mk_counts 0 0 0 false) data). rewrite Ec. cbn [c_lines c_words c_bytes].
  erewrite bind_Ret; [|by apply close_Ret]. reflexivity.
Qed.

(** [mv] of a file always ends with the source gone.  With a
    destination that can be written it holds the file's bytes and nothing else
    has changed; with a destination that is a directory, or whose directory is
    missing, [cp] fails and the file is removed all the same. *)
Lemma mv_always_removes fuel (c a b : text) rest s f src dst ps data :
  sh_fs s = Some f → resolve_path (sh_cwd s) a kMaxPath = Some src → resolve_path (sh_cwd s) b kMaxPath = Some dst →
  RamFs.normalize_path (Some src) 64 = Some ps → view f ps = Some (File data) →
  (∀ pd, copy_ready f src dst ps pd data → Z.of_nat (length data) + 128 <= 128 * Z.of_nat fuel →
   runs (mv fuel (c :: a :: b :: rest)) s (λ _ s', ∃ f', leads s f' s' ∧ fs_ok f' ∧ all_closed f' ∧
     ∀ q, view f' q = if text_equal q ps then None else if text_equal q pd then Some (File data) else view f q)) ∧
  (fs_ok f → all_closed f → no_target f dst →
   runs (mv fuel (c :: a :: b :: rest)) s (λ _ s', ∃ f', leads s f' s' ∧ fs_ok f' ∧ all_closed f' ∧
     ∀ q, view f' q = if text_equal q ps then None else view f q)).
Proof using nb_good.
  intros Hs Ha Hb Hn Hv. split.
  - intros pd Hr Hf. eapply (mv_removes _ _ _ _ _ _ _ _ ps data (λ q, if text_equal q pd then Some (File data) else view f q)); [done|done| |done|by eapply cp_copies].
    by destruct (text_equal ps pd).
  - intros Hok Hcl Hno. eapply (mv_removes _ _ _ _ _ _ _ _ ps data (view f)); [done..|]. by eapply cp_no_target.
Qed.

(** ** Comparing *)

Lemma cmp_loop_compares a b pa pb da db :
  a ≠ b → ∀ fuel off s f, sh_fs s = Some f → fs_ok f → handle f a pa off kOpenRead → handle f b pb off kOpenRead →
  view f pa = Some (File da) → view f pb = Some (File db) → take (Z.to_nat off) da = take (Z.to_nat off) db →
  0 <= off <= Z.of_nat (length da) → off <= Z.of_nat (length db) → closed_but f a b → Z.of_nat (length da) - off + 128 <= 128 * Z.of_nat fuel →
  ∃ f', cmp_loop fuel a b s = Ret (bool_decide (da = db)) (put_fs s f') ∧ fs_ok f' ∧ closed_but f' a b ∧ ∀ q, view f' q = view f q.
Proof using.
  intros Hab. induction fuel as [|fuel IH]; intros off s f Hs Hok Ha Hb Hva Hvb Ht Hoa Hob Hcl Hf; [lia|]. cbn [cmp_loop].
  destruct (read_handle f a pa off kOpenRead da 128 Hok Ha ltac:(done) Hva ltac:(lia)) as (f1 & E1 & Hok1 & V1 & Ha1 & I1 & O1).
  assert (handle f1 b pb off kOpenRead) as Hb1.
  { destruct Hb as (j & k & i & Hg & Hi & Hn). exists j, k, i. split_and!; [by rewrite O1|unfold live_inode; by rewrite I1|done]. }
  assert (view f1 pb = Some (File db)) as Hvb1 by (by rewrite V1).
  destruct (read_handle f1 b pb off kOpenRead db 128 Hok1 Hb1 ltac:(done) Hvb1 ltac:(lia)) as (f2 & E2 & Hok2 & V2 & Hb2 & I2 & O2).
  set (x := take (Z.to_nat 128) (drop (Z.to_nat off) da)) in *. set (y := take (Z.to_nat 128) (drop (Z.to_nat off) db)) in *.
  assert (Z.of_nat (length x) = Z.min 128 (Z.of_nat (length da) - off)) as Hx by (unfold x; rewrite length_take, length_drop; lia).
  assert (Z.of_nat (length y) = Z.min 128 (Z.of_nat (length db) - off)) as Hy by (unfold y; rewrite length_take, length_drop; lia).
  assert (closed_but f2 a b) as Hcl2 by (intros fd H1 H2; rewrite O2, O1 by done; by apply Hcl).
  assert (∀ q, view f2 q = view f q) as V by (intros q; by rewrite V2).
  assert (da = db → x = y) as Hxy by (unfold x, y; by intros ->).
  erewrite bind_Ret; [|eapply read_Ret; [exact Hs|exact E1]]. cbn beta iota.
  erewrite bind_Ret; [|eapply read_Ret; [reflexivity|exact E2]]. cbn beta iota.
  destruct (Z.of_nat (length x) =? Z.of_nat (length y)) eqn:En; cbn [negb]; zbool.
  2: { exists f2. rewrite bool_decide_eq_false_2 by (intros E%Hxy; congruence). done. }
  destruct (Z.of_nat (length x) <=? 0) eqn:E0; zbool.
  { exists f2. rewrite bool_decide_eq_true_2; [done|].
    rewrite <- (take_ge da (Z.to_nat off)), <- (take_ge db (Z.to_nat off)) by lia. done. }
  destruct (decide (x = y)) as [Exy|Exy];
    [rewrite (bool_decide_eq_true_2 (x = y)) by done|rewrite (bool_decide_eq_false_2 (x = y)) by done].
  2: { exists f2. rewrite bool_decide_eq_false_2 by (intros E%Hxy; done). done. }
  destruct (IH (off + Z.of_nat (length x)) (put_fs (put_fs s f1) f2) f2 eq_refl Hok2) as (f3 & E3 & Hok3 & Hcl3 & V3).
  - destruct Ha1 as (j & k & i & Hg & Hi & Hn). exists j, k, i. split_and!; [by rewrite O2|unfold live_inode; by rewrite I2|done].
  - by rewrite En.
  - by rewrite V.
  - by rewrite V.
  - assert (∀ d : list Z, take (Z.to_nat (off + Z.of_nat (length x))) d = take (Z.to_nat off) d ++ take (length x) (drop (Z.to_nat off) d)) as Hsplit.
    { intros d. rewrite take_take_drop. f_equal. lia. }
    rewrite !Hsplit, Ht. f_equal.
    assert (∀ d : list Z, take (Z.to_nat 128) (drop (Z.to_nat off) d) = x → take (length x) (drop (Z.to_nat off) d) = x) as Hpre.
    { intros d Hd. transitivity (take (length x) (take (Z.to_nat 128) (drop (Z.to_nat off) d))); [rewrite take_take; f_equal; lia|].
      rewrite Hd. by rewrite take_ge. }
    rewrite !Hpre; [done|by rewrite Exy|done].
  - lia.
  - lia.
  - done.
  - lia.
  - exists f3. split_and!; [done|done|done|intros q; by rewrite V3].
Qed.

Lemma open_reader f path p data :
  fs_ok f → RamFs.normalize_path (Some path) 64 = Some p → view f p = Some (File data) → ¬ fds_full f →
  ∃ fd f', open f (Some path) kOpenRead = (fd, f') ∧ 3 <= fd < 35 ∧ fs_ok f' ∧ get_fd f fd = None ∧ (∀ q, view f' q = view f q) ∧
    handle f' fd p 0 kOpenRead ∧ names_kept f f' ∧ ∀ fd', fd' ≠ fd → get_fd f' fd' = get_fd f fd'.
Proof using.
  intros Hok Hn Hv Hnf. pose proof (open_effect f (Some path) kOpenRead Hok) as He. pose proof (open_names f (Some path) kOpenRead) as Hk.
  destruct (open f (Some path) kOpenRead) as [r f']. destruct He as (Hok' & [(_ & _ & Href)|(p' & x & E & Hx & Hview & Hfd)]).
  { specialize (Href p Hn). rewrite Hv in Href. by destruct Href as [?|[? _]]. }
  rewrite Hn in E. injection E as <-. destruct Hfd as [(_ & ? & _)|(Hr & Hg & Ho & k & i & Hg' & Hi & Hni)]; [done|].
  exists r, f'. split_and!; [done|lia|lia|done|done| |by exists (Z.to_nat (r - 3)), k, i|done|done].
  intros q. rewrite Hview. destruct (text_equal q p) eqn:Eq; [|done]. apply text_equal_eq in Eq as ->.
  destruct Hx as [Hx|[Hx _]]; rewrite Hv in Hx; [by injection Hx as <-|done].
Qed.

(** [cmp] says that two files are equal exactly when their bytes are,
    and leaves the files and the descriptors as they were. *)
Lemma cmp_decides fuel (c a b : text) rest s f path_a path_b pa pb da db :
  sh_fs s = Some f → resolve_path (sh_cwd s) a kMaxPath = Some path_a → resolve_path (sh_cwd s) b kMaxPath = Some path_b →
  fs_ok f → all_closed f → RamFs.normalize_path (Some path_a) 64 = Some pa → RamFs.normalize_path (Some path_b) 64 = Some pb →
  view f pa = Some (File da) → view f pb = Some (File db) → Z.of_nat (length da) + 128 <= 128 * Z.of_nat fuel →
  ∃ f', cmp fuel (c :: a :: b :: rest) s = say_line (if bool_decide (da = db) then "cmp: equal" else "cmp: different") (put_fs s f') ∧
    fs_ok f' ∧ all_closed f' ∧ ∀ q, view f' q = view f q.
Proof using.
  intros Hs Ha Hb Hok Hcl Hna Hnb Hva Hvb Hf.
  destruct (open_reader f path_a pa da Hok Hna Hva (closed_not_full f Hok Hcl)) as (x & f1 & E1 & Hx & Hok1 & _ & V1 & H1 & _ & O1).
  assert (¬ fds_full f1) as Hnf.
  { destruct (decide (x = 3)) as [->|]; [eapply (not_full_after_close f1 4)|eapply (not_full_after_close f1 3)]; try done; try lia;
      rewrite O1 by lia; apply Hcl. }
  destruct (open_reader f1 path_b pb db Hok1 Hnb ltac:(by rewrite V1) Hnf) as (y & f2 & E2 & Hy & Hok2 & Hg & V2 & H2 & K2 & O2).
  assert (x ≠ y) as Hxy by (intros ->; destruct H1 as (j & k & i & Hg' & _); congruence).
  destruct (cmp_loop_compares x y pa pb da db Hxy fuel 0 (put_fs (put_fs s f1) f2) f2) as (f3 & E3 & Hok3 & Hcl3 & V3);
    [done|done|by eapply handle_kept; [done|by apply O2|]|done|by rewrite V2, V1|by rewrite V2, V1|done|lia|lia| |lia|].
  { intros fd Hfx Hfy. rewrite O2, O1 by done. apply Hcl. }
  pose proof (close_effect f3 x Hok3) as H4. destruct (close f3 x) as [r4 f4] eqn:E4. destruct H4 as (Hok4 & V4 & _ & _ & G4 & O4).
  destruct (close_closed f4 y Hok4) as (Hok5 & Hcl5 & V5).
  { intros fd Hfd. destruct (decide (fd = x)) as [->|]; [done|]. rewrite O4 by done. by apply Hcl3. }
  exists (close f4 y).2. split_and!; [|done|done|intros q; by rewrite V5, V4, V3, V2].
  unfold cmp, with_paths2, with_fs, arg_to_path.
  erewrite bind_Ret; [|erewrite bind_Ret; [|reflexivity]; cbn beta; rewrite Ha; reflexivity]. cbn beta iota.
  erewrite bind_Ret; [|erewrite bind_Ret; [|reflexivity]; cbn beta; rewrite Hb; reflexivity]. cbn beta iota.
  erewrite bind_Ret; [|by eapply ready_Ret]. cbn beta iota.
  erewrite bind_Ret; [|eapply on_fs_Ret; [exact Hs|exact E1]]. cbn beta.
  erewrite bind_Ret; [|eapply on_fs_Ret; [reflexivity|exact E2]]. cbn beta.
  rewrite (proj2 (Z.ltb_ge x 0)), (proj2 (Z.ltb_ge y 0)) by lia. cbn [orb].
  erewrite bind_Ret; [|exact E3]. cbn beta.
  erewrite bind_Ret; [|by apply close_Ret]. cbn beta. cbn [fs_close fs_inst ramfs_fs]. rewrite E4. cbn [snd].
  erewrite bind_Ret; [|by apply close_Ret]. reflexivity.
Qed.

(** ** Removing a package *)

Definition removes (paths : list text) (f : ramfs) (q : text) : option node :=
  if existsb (text_equal q) paths then match view f q with Some (File _) => None | n => n end else view f q.

Lemma unlink_removes f path :
  fs_ok f → all_closed f → RamFs.normalize_path (Some path) 64 = Some path →
  fs_ok (unlink f (Some path)).2 ∧ all_closed (unlink f (Some path)).2 ∧ ∀ q, view (unlink f (Some path)).2 q = removes [path] f q.
Proof using.
  intros Hok Hcl Hn. pose proof (unlink_effect f (Some path) Hok) as Hu. destruct (unlink f (Some path)) as [r f'] eqn:E.
  destruct Hu as (Hok' & Hfd & Hu). cbn [snd]. split_and!; [done|intros fd; specialize (Hcl fd); unfold get_fd in *; by rewrite Hfd|].
  intros q. unfold removes. cbn [existsb]. rewrite orb_false_r.
  destruct Hu as [(_ & p & x & Hn' & Hx & V)|(_ & -> & Hno)].
  - rewrite Hn in Hn'. injection Hn' as <-. rewrite V. destruct (text_equal q path) eqn:Eq; [|done].
    apply text_equal_eq in Eq as ->. by rewrite Hx.
  - destruct (text_equal q path) eqn:Eq; [|done]. apply text_equal_eq in Eq as ->.
    destruct (Hno path Hn) as [H|(k & _ & Hk)]; [|by rewrite closed_not_used in Hk].
    destruct (view f path) as [[|x]|] eqn:Ev; [done|by destruct (H x)|done].
Qed.

Lemma unlink_all paths : ∀ s f,
  Forall (λ p, RamFs.normalize_path (Some p) 64 = Some p) paths → sh_fs s = Some f → fs_ok f → all_closed f →
  ∃ f', each paths (λ p, unlink_ p ;; mret tt) s = Ret tt (put_fs s f') ∧ fs_ok f' ∧ all_closed f' ∧ ∀ q, view f' q = removes paths f q.
Proof using.
  induction paths as [|p paths IH]; intros s f Hn Hs Hok Hcl.
  { exists f. split_and!; [|done..]. destruct s; cbn in *; by subst. }
  inversion Hn as [|? ? Hp Hps]; subst. destruct (unlink_removes f p Hok Hcl Hp) as (Hok1 & Hcl1 & V1).
  destruct (IH (put_fs s (unlink f (Some p)).2) _ Hps eq_refl Hok1 Hcl1) as (f2 & E2 & Hok2 & Hcl2 & V2).
  exists f2. split_and!; [|done|done|].
  - cbn [each foldr]. erewrite bind_Ret; [exact E2|]. erewrite bind_Ret; [reflexivity|].
    eapply on_fs_Ret; [exact Hs|]. cbn [fs_unlink fs_inst ramfs_fs]. apply surjective_pairing.
  - intros q. rewrite V2. unfold removes at 1. rewrite V1. unfold removes. cbn [existsb].
    destruct (text_equal q p), (existsb (text_equal q) paths); cbn; [by destruct (view f q) as [[]|]|done..].
Qed.

(** The files of a package and its marker. *)
Definition package_paths (p : PackageDefinition) : list text := (pf_path <$> pkg_files p) ++ [marker p].

Lemma package_paths_ok : Forall (λ p, Forall (λ q, RamFs.normalize_path (Some q) 64 = Some q) (package_paths p) ∧ marker p ≠ []) kPackages.
Proof using. repeat constructor; discriminate. Qed.

(** [apt remove] of a package of the catalogue: the files of the
    package and its marker are gone, directories in their place excepted, and
    everything else is as before. *)
Lemma remove_package_spec p s f :
  p ∈ kPackages → sh_fs s = Some f → fs_ok f → all_closed f →
  ∃ f', remove_package_files p s = Ret tt (put_fs s f') ∧ fs_ok f' ∧ all_closed f' ∧
    ∀ q, view f' q = if existsb (text_equal q) (package_paths p) then match view f q with Some (File _) => None | n => n end else view f q.
Proof using.
  intros Hp Hs Hok Hcl. destruct (proj1 (Forall_forall _ _) package_paths_ok p Hp) as [Hn Hm].
  apply Forall_app in Hn as [Hn1 Hn2]. inversion Hn2 as [|? ? Hnm _]; subst.
  destruct (unlink_all _ s f Hn1 Hs Hok Hcl) as (f1 & E1 & Hok1 & Hcl1 & V1).
  destruct (unlink_removes f1 (marker p) Hok1 Hcl1 Hnm) as (Hok2 & Hcl2 & V2).
  exists (unlink f1 (Some (marker p))).2. split_and!; [|done|done|].
  - unfold remove_package_files. erewrite bind_Ret; [|by eapply ready_Ret]. cbn [negb].
    unfold each in E1. rewrite foldr_fmap in E1. erewrite bind_Ret; [|exact E1]. cbn beta.
    destruct (marker p) as [|ch m] eqn:Em; [done|].
    change (put_fs s (unlink f1 (Some (ch :: m))).2) with (put_fs (put_fs s f1) (unlink f1 (Some (ch :: m))).2).
    erewrite bind_Ret; [reflexivity|].
    eapply on_fs_Ret; [reflexivity|]. cbn [fs_unlink fs_inst ramfs_fs]. apply surjective_pairing.
  - intros q. rewrite V2. unfold removes at 1. rewrite V1. unfold removes, package_paths. rewrite existsb_app. cbn [existsb]. rewrite orb_false_r.
    destruct (text_equal q (marker p)), (existsb (text_equal q) (pf_path <$> pkg_files p)); cbn; [by destruct (view f q) as [[]|]|done..].
Qed.
End ramfs.

(** ** A shell on the file system as it boots *)

#[export] Instance demo_pci : ConfigSpace unit := {| data_in _ _ := 0xFFFFFFFF; data_out _ _ _ := tt |}.
#[export] Instance demo_files : FileSystem ramfs := ramfs_fs zero_allocator.

Definition one_tick (s : @sys ramdisk unit) : @sys ramdisk unit := mk_sys (sys_sched s) (sys_store s) (sys_ticks s +u 1) (sys_bus s).
#[export] Instance demo_sys_kernel : ShellKernel (@sys ramdisk unit) :=
  sys_kernel 2097152 usb_driver 0 false false (λ _ _, (0, 0, 0, 0)) [] one_tick.

Definition demo_sys : @sys ramdisk unit := mk_sys demo_sched demo_store 5 tt.
Definition demo_shell : shell ramfs (@sys ramdisk unit) :=
  mk_shell (mk_serial false []) (Some boot_fs) demo_sys (txt "/root") true history_boot [].

Definition passwd : text := txt "/etc/passwd".

Lemma demo_passwd : RamFs.normalize_path (Some passwd) 64 = Some passwd ∧
  view boot_fs passwd = Some (File (bytes_of (txt "root:x:0:0:root:/root:/bin/init.elf" ++ newline))).
Proof. split; vm_compute; reflexivity. Qed.

Lemma wc_counts_witness :
  ∃ f', wc 10 [txt "wc"; txt "../etc/passwd"] demo_shell = print_counts 1 1 36 (put_fs demo_shell f') ∧ all_closed f'.
Proof.
  destruct (wc_counts zero_allocator 10 (txt "wc") (txt "../etc/passwd") [] demo_shell boot_fs passwd passwd
    (bytes_of (txt "root:x:0:0:root:/root:/bin/init.elf" ++ newline)) eq_refl eq_refl boot_ok boot_closed (proj1 demo_passwd) (proj2 demo_passwd))
    as (f' & E & _ & Hcl & _); [vm_compute; discriminate|].
  exists f'. split; [exact E|exact Hcl].
Defined.

Lemma cmp_decides_witness :
  ∃ f', cmp 10 [txt "cmp"; passwd; passwd] demo_shell = say_line "cmp: equal" (put_fs demo_shell f') ∧ all_closed f'.
Proof.
  destruct (cmp_decides zero_allocator 10 (txt "cmp") passwd passwd [] demo_shell boot_fs passwd passwd passwd passwd _ _
    eq_refl eq_refl eq_refl boot_ok boot_closed (proj1 demo_passwd) (proj1 demo_passwd) (proj2 demo_passwd) (proj2 demo_passwd))
    as (f' & E & _ & Hcl & _); [vm_compute; discriminate|].
  rewrite bool_decide_eq_true_2 in E by reflexivity. exists f'. split; [exact E|exact Hcl].
Defined.

(** The destination's directory does not exist, and the file is lost. *)
Lemma mv_always_removes_witness :
  runs (mv 10 [txt "mv"; passwd; txt "/backup/passwd"]) demo_shell
    (λ _ s', ∃ f', leads demo_shell f' s' ∧ fs_ok f' ∧ all_closed f' ∧ ∀ q, view f' q = if text_equal q passwd then None else view boot_fs q).
Proof.
  refine (proj2 (mv_always_removes zero_allocator zero_allocator_good 10 (txt "mv") passwd (txt "/backup/passwd") [] demo_shell boot_fs passwd
    (txt "/backup/passwd") passwd _ eq_refl eq_refl eq_refl (proj1 demo_passwd) (proj2 demo_passwd)) boot_ok boot_closed _).
  exists (txt "/backup/passwd"). split; [vm_compute; reflexivity|]. right. split; [vm_compute; reflexivity|]. vm_compute. discriminate.
Defined.

Lemma remove_package_spec_witness :
  ∃ p f', find_package (txt "demo-docs") = Some p ∧ remove_package_files p demo_shell = Ret tt (put_fs demo_shell f') ∧ all_closed f'.
Proof.
  assert (nth 3 kPackages (mk_package [] [] [] []) ∈ kPackages) as Hp by (apply list_elem_of_In, nth_In; cbn; lia).
  destruct (remove_package_spec zero_allocator _ demo_shell boot_fs Hp eq_refl boot_ok boot_closed) as (f' & E & _ & Hcl & _).
  exists (nth 3 kPackages (mk_package [] [] [] [])), f'. split; [reflexivity|]. split; [exact E|exact Hcl].
Defined.
