(* ===== verification/ShellRun.v ===== *)
(** * The shell's line editor and its commands

    What a line that is typed, erased and recalled from the history runs, and
    that no command touches the history or the keys still to be read. *)

From S2P Require Import Prelude CText Serial Vfs RamFs RamFsSpec Snapshot Bytes Block RamDisk Storage Pci Shell ShellSys ShellCmds ShellPkg ShellLoop ShellText ShellFs.

(** ** The words of a line *)

Definition blank (c : ascii) : Prop := c = " "%char ∨ c = "009"%char.
Definition quote (c : ascii) : Prop := c = "034"%char ∨ c = "'"%char.

(** [reads after n t ws]: the text [t] has the words [ws], at most [n] of them.
    Words are separated by blanks.  One that starts with a quote ends at the
    next quote of the same kind, or with the line; the quotes are not part of
    it.  [after] says that a word came before: then a [#] where a word could
    start makes the rest a comment. *)
Inductive reads : bool → nat → text → list text → Prop :=
  | reads_end after n t : Forall blank t → reads after n t []
  | reads_full after t : reads after 0 t []
  | reads_comment n sp r : Forall blank sp → reads true n (sp ++ "#"%char :: r) []
  | reads_quoted after n sp q w r ws :
      Forall blank sp → quote q → q ∉ w → reads true n r ws →
      reads after (S n) (sp ++ q :: w ++ q :: r) (w :: ws)
  | reads_unclosed after n sp q w :
      Forall blank sp → quote q → q ∉ w → reads after (S n) (sp ++ q :: w) [w]
  | reads_word after n sp c w r ws :
      Forall blank sp → ¬ quote c → (after = true → c ≠ "#"%char) → Forall (λ x, ¬ blank x) (c :: w) →
      match r with [] => True | d :: _ => blank d end → reads true n r ws →
      reads after (S n) (sp ++ c :: w ++ r) ((c :: w) :: ws).

Lemma is_space_blank c : is_space c = true ↔ blank c.
Proof. unfold is_space, blank. by rewrite orb_true_iff, !Ascii.eqb_eq. Qed.

Lemma is_space_not c : is_space c = false ↔ ¬ blank c.
Proof. rewrite <- is_space_blank. by destruct (is_space c). Qed.

Lemma is_quote_quote c : is_quote c = true ↔ quote c.
Proof. unfold is_quote, quote. by rewrite orb_true_iff, !Ascii.eqb_eq. Qed.

Lemma blanks_spaces sp : Forall blank sp ↔ Forall (λ c, is_space c = true) sp.
Proof. apply Forall_iff. intros c. by rewrite is_space_blank. Qed.

Lemma split_while_spec p t : let '(w, r) := split_while p t in
  t = w ++ r ∧ Forall (λ c, p c = true) w ∧ match r with [] => True | c :: _ => p c = false end.
Proof.
  induction t as [|c t IH]; cbn [split_while]; [done|]. destruct (p c) eqn:E; [|done].
  destruct (split_while p t) as [w r]. destruct IH as (-> & ? & ?). split_and!; [done|by constructor|done].
Qed.

(** What the loop reads after a word. *)
Definition words_after (n : nat) (r : text) : list text :=
  match (split_while is_space r).2 with
  | [] => []
  | c :: r2 => if Ascii.eqb c "#"%char then [] else (parse_args_loop n (c :: r2)).1
  end.

Lemma words_after_blank n sp r : Forall blank sp → words_after n (sp ++ r) = words_after n r.
Proof.
  intros Hsp. unfold words_after. assert ((split_while is_space (sp ++ r)).2 = (split_while is_space r).2) as ->; [|done].
  induction Hsp as [|c sp Hc _ IH]; [done|]. cbn [app split_while]. rewrite (proj2 (is_space_blank c) Hc).
  destruct (split_while is_space (sp ++ r)). exact IH.
Qed.

Lemma loop_blank n t : Forall blank t → (parse_args_loop n t).1 = [] ∧ words_after n t = [].
Proof.
  intros Ht%blanks_spaces. unfold words_after. destruct n; cbn [parse_args_loop]; by rewrite (split_while_all _ _ Ht).
Qed.

Lemma loop_first n sp c t : Forall blank sp → ¬ blank c →
  (parse_args_loop (S n) (sp ++ c :: t)).1 = (next_word (c :: t)).1.1 :: words_after n (next_word (c :: t)).2.
Proof.
  intros Hsp%blanks_spaces Hc%is_space_not. cbn [parse_args_loop]. rewrite (split_while_app _ _ _ _ Hsp Hc).
  destruct (next_word (c :: t)) as [[w stored] r]. cbn [fst snd]. unfold words_after.
  destruct (split_while is_space r) as [sp2 [|d r2]]; [done|]. cbn [snd]. destruct (Ascii.eqb d "#"); [done|].
  by destruct (parse_args_loop n (d :: r2)).
Qed.

Lemma words_first n sp c t : Forall blank sp → ¬ blank c →
  words_after n (sp ++ c :: t) = if Ascii.eqb c "#"%char then [] else (parse_args_loop n (c :: t)).1.
Proof.
  intros Hsp Hc%is_space_not. rewrite words_after_blank by done. unfold words_after. cbn [split_while]. by rewrite Hc.
Qed.

Lemma quote_not_blank q : quote q → ¬ blank q ∧ q ≠ "#"%char.
Proof. unfold quote, blank. intros [->| ->]; split; try discriminate; intros [H|H]; discriminate H. Qed.

Lemma next_quoted q w r : quote q → q ∉ w →
  next_word (q :: w ++ q :: r) = (w, q :: w ++ [nul], r) ∧ next_word (q :: w) = (w, q :: w, []).
Proof.
  intros Hq Hw. assert (Forall (λ c, negb (Ascii.eqb c q) = true) w) as Hf.
  { apply Forall_forall. intros x Hx. apply negb_true_iff, Ascii.eqb_neq. intros ->. done. }
  unfold next_word. rewrite (proj2 (is_quote_quote q) Hq). split.
  - by rewrite (split_while_app _ _ _ _ Hf) by by rewrite Ascii.eqb_refl.
  - by rewrite (split_while_all _ _ Hf).
Qed.

Lemma next_plain c w r : ¬ quote c → Forall (λ x, ¬ blank x) (c :: w) → match r with [] => True | d :: _ => blank d end →
  (next_word (c :: w ++ r)).1.1 = c :: w ∧ ∀ n, words_after n (next_word (c :: w ++ r)).2 = words_after n r.
Proof.
  intros Hq Hw Hr. assert (Forall (λ x, negb (is_space x) = true) (c :: w)) as Hf.
  { eapply Forall_impl; [exact Hw|]. intros x Hx%is_space_not. cbn. by rewrite Hx. }
  unfold next_word. destruct (is_quote c) eqn:E; [by apply is_quote_quote in E|].
  change (c :: w ++ r) with ((c :: w) ++ r). destruct r as [|d r].
  - rewrite app_nil_r, (split_while_all _ _ Hf). done.
  - rewrite (split_while_app _ _ _ _ Hf) by by rewrite (proj2 (is_space_blank d) Hr).
    split; [done|]. intros n. cbn [snd]. symmetry. apply (words_after_blank n [d]). by apply Forall_singleton.
Qed.

Lemma reads_words after n t ws : reads after n t ws → (if after then words_after n t else (parse_args_loop n t).1) = ws.
Proof.
  assert (∀ after n sp c t w r, Forall blank sp → ¬ blank c → (after = true → c ≠ "#"%char) →
    (next_word (c :: t)).1.1 = w → words_after n (next_word (c :: t)).2 = r →
    (if after : bool then words_after (S n) (sp ++ c :: t) else (parse_args_loop (S n) (sp ++ c :: t)).1) = w :: r) as Hw.
  { intros [] k sp c t' w r Hsp Hc Hh <- <-; [|by rewrite loop_first].
    rewrite words_first, (proj2 (Ascii.eqb_neq c "#"%char) (Hh eq_refl)) by done. by apply (loop_first k []). }
  induction 1 as [after n t Ht|after t|n sp r Hsp|after n sp q w r ws Hsp Hq Hqw _ IH|after n sp q w Hsp Hq Hqw
    |after n sp c w r ws Hsp Hq Hh Hcw Hr _ IH].
  - destruct (loop_blank n t Ht) as [H1 H2]. by destruct after.
  - destruct after; [unfold words_after; destruct (split_while is_space t) as [? [|c r]]; [done|]; cbn [snd]; destruct (Ascii.eqb c "#"); [done|]|];
      cbn [parse_args_loop]; by destruct (split_while _ _) as [? []].
  - rewrite words_first by (done || by intros [H|H]; discriminate H). done.
  - destruct (quote_not_blank q Hq) as [H1 H2]. destruct (next_quoted q w r Hq Hqw) as [Hn _].
    apply Hw; [done|done|done|by rewrite Hn|by rewrite Hn].
  - destruct (quote_not_blank q Hq) as [H1 H2]. destruct (next_quoted q w [] Hq Hqw) as [_ Hn].
    apply Hw; [done|done|done|by rewrite Hn|by rewrite Hn].
  - destruct (next_plain c w r Hq Hcw Hr) as [H1 H2]. apply Hw; [done|by inversion Hcw|done|done|by rewrite H2].
Qed.

Lemma words_read n : ∀ after t, reads after n t (if after : bool then words_after n t else (parse_args_loop n t).1).
Proof.
  induction n as [|n IH]; intros after t.
  { replace (if after : bool then words_after 0 t else (parse_args_loop 0 t).1) with (@nil text); [apply reads_full|].
    symmetry. apply reads_words, reads_full. }
  pose proof (split_while_spec is_space t) as Hs. destruct (split_while is_space t) as [sp r]. destruct Hs as (-> & Hsp%blanks_spaces & Hr).
  destruct r as [|c r].
  { rewrite app_nil_r. destruct (loop_blank (S n) sp Hsp) as [H1 H2]. destruct after; rewrite ?H1, ?H2; by constructor. }
  apply is_space_not in Hr. destruct (decide (after = true ∧ c = "#"%char)) as [[-> ->]|Hh].
  { rewrite words_first by done. by constructor. }
  assert (after = true → c ≠ "#"%char) as Hh' by naive_solver.
  assert (∃ ws, reads after (S n) (sp ++ c :: r) ws) as [ws H]; [|rewrite (reads_words _ _ _ _ H) at 1; exact H].
  destruct (is_quote c) eqn:Eq.
  - apply is_quote_quote in Eq. pose proof (split_while_spec (λ x, negb (Ascii.eqb x c)) r) as Hs.
    destruct (split_while _ r) as [w rest]. destruct Hs as (-> & Hw & Hd).
    assert (c ∉ w) as Hcw. { intros Hin. rewrite Forall_forall in Hw. specialize (Hw c Hin). by rewrite Ascii.eqb_refl in Hw. }
    destruct rest as [|d rest]; [rewrite app_nil_r; eexists; by apply reads_unclosed|].
    apply negb_false_iff, Ascii.eqb_eq in Hd as ->. eexists. eapply reads_quoted; [done|done|done|apply (IH true)].
  - pose proof (split_while_spec (λ x, negb (is_space x)) r) as Hs. destruct (split_while _ r) as [w rest]. destruct Hs as (-> & Hw & Hd).
    eexists. eapply reads_word; [done| |done| | |apply (IH true)].
    + intros Hq%is_quote_quote. congruence.
    + constructor; [done|]. eapply Forall_impl; [exact Hw|]. intros x Hx%negb_true_iff. by apply is_space_not.
    + destruct rest as [|d rest]; [done|]. apply negb_false_iff in Hd. by apply is_space_blank.
Qed.

(** [parse_args] reads the words of the line, and there is no other reading. *)
Lemma parse_args_reads t ws : reads false (Z.to_nat kMaxArgs) t ws ↔ (parse_args t).1 = ws.
Proof. split; [apply (reads_words false)|]. intros <-. apply (words_read _ false). Qed.

(** ** Keys *)

Inductive key := Char (c : ascii) | Erase | Up.

Definition key_codes (k : key) : text :=
  match k with
  | Char c => [c]
  | Erase => ["127"%char]
  | Up => ["027"%char; "["%char; "A"%char]
  end.

(** A character that is neither a control the editor reads nor the NUL that
    would end the line. *)
Definition plain_char (c : ascii) : Prop :=
  c ≠ "013"%char ∧ c ≠ "010"%char ∧ c ≠ "027"%char ∧ c ≠ "009"%char ∧ c ≠ "008"%char ∧ c ≠ "127"%char ∧ c ≠ nul.
Definition plain_key (k : key) : Prop := match k with Char c => plain_char c | _ => True end.

(** The line as the user sees it, and how far back in the history [L] it is. *)
Definition key_step (L : list text) (st : text * nat) (k : key) : text * nat :=
  let '(t, back) := st in
  match k with
  | Char c => (if text_len t <? 191 then t ++ [c] else t, back)
  | Erase => (take (length t - 1) t, back)
  | Up => match recent L !! (length (recent L) - S back)%nat with Some entry => (entry, S back) | None => (t, back) end
  end.

Definition typed_line (L : list text) (keys : list key) : text := (fold_left (key_step L) keys ([], 0%nat)).1.

(** ** The history while a line is edited *)

Definition entry_ok (t : text) : Prop := text_len t <= 191 ∧ nul ∉ t.

Definition view_at (h : history) (L : list text) (back : nat) : Prop :=
  g_history_view h = if (back =? 0)%nat then -1 else Z.max 0 (Z.of_nat (length (recent L)) - Z.of_nat back).

Definition log_ok (h : history) (L : list text) : Prop := ring_of h L ∧ Forall entry_ok L.

Lemma log_append_ok L t : entry_ok t → Forall entry_ok L → Forall entry_ok (log_append L t).
Proof.
  intros [H1 H2] HL. unfold log_append. destruct (_ || _); [done|]. apply Forall_app. split; [done|].
  constructor; [|done]. rewrite copy_text_id; [done|]. unfold text_len, kMaxLine in *. lia.
Qed.

Lemma recent_ok L entry i : Forall entry_ok L → recent L !! i = Some entry → entry_ok entry.
Proof. intros HL Hi. unfold recent in Hi. rewrite lookup_drop in Hi. exact (Forall_lookup_1 _ _ _ _ HL Hi). Qed.

(** The up arrow: the entry before the one shown, or the oldest again. *)
Lemma move_up_step h L back line :
  ring_of h L → view_at h L back → Forall entry_ok L →
  match recent L !! (length (recent L) - S back)%nat with
  | Some entry => ∃ h', history_move_up h line = (Some entry, h') ∧ ring_of h' L ∧ view_at h' L (S back)
  | None => history_move_up h line = (None, h)
  end.
Proof.
  intros Hr Hv HL. pose proof (ring_size h L Hr) as Hs. pose proof (recent_short L). unfold history_move_up. rewrite Hs.
  destruct (recent L !! _) as [entry|] eqn:E.
  - pose proof (lookup_lt_Some _ _ _ E). rewrite (proj2 (Z.eqb_neq _ 0)) by lia.
    rewrite (u32_small (_ - 1)), i32_small by lia. unfold view_at in Hv. rewrite Hv.
    assert (copy_text entry kMaxLine = entry) as Hc.
    { apply copy_text_id. destruct (recent_ok L entry _ HL E). unfold text_len, kMaxLine in *. lia. }
    assert (∀ h', ring_of h' L → view_at h' L (S back) →
              ∃ h'', ((λ entry, copy_text entry kMaxLine) <$> history_at h' (u32 (g_history_view h')), h') = (Some entry, h'') ∧
                ring_of h'' L ∧ view_at h'' L (S back)) as Hfin.
    { intros h' Hr' Hv'. exists h'. split; [|done]. unfold view_at in Hv'. cbn [Nat.eqb] in Hv'. rewrite Hv', u32_small by lia.
      rewrite (ring_at _ L) by (done || lia).
      replace (Z.to_nat _) with (length (recent L) - S back)%nat by lia. rewrite E. cbn. by rewrite Hc. }
    destruct back as [|back]; cbn [Nat.eqb].
    + apply Hfin; [done|]. unfold view_at. cbn. lia.
    + rewrite (proj2 (Z.ltb_ge _ 0)) by lia. cbn [Nat.eqb] in Hv.
      destruct (0 <? _) eqn:E0; zbool; (apply Hfin; [done|]); unfold view_at; cbn [Nat.eqb g_history_view]; lia.
  - apply lookup_ge_None in E. rewrite (proj2 (Z.eqb_eq _ 0)) by lia. done.
Qed.

(** ** Output *)

Create HintDb framed.
Ltac head_of t := lazymatch t with ?f _ => head_of f | _ => t end.

Section editor.
Context {F K : Type} `{FS : FileSystem F} `{SK : ShellKernel K}.
Context (build_stamp : text).
Implicit Types s : shell F K.

Definition on_tx s (x : serial) : shell F K :=
  mk_shell x (sh_fs s) (sh_kernel s) (sh_cwd s) (sh_running s) (sh_history s) (sh_typed s).

(** Nothing but output. *)
Definition silent (m : Sh F K unit) : Prop := ∀ s, ∃ x, m s = Ret tt (on_tx s x).

Lemma silent_ret : silent (mret tt).
Proof. intros s. exists (sh_tx s). by destruct s. Qed.
Lemma silent_tx h : silent (with_tx h).
Proof. intros s. by exists (h (sh_tx s)). Qed.
Lemma silent_then m k : silent m → silent k → silent (m ;; k).
Proof.
  intros Hm Hk s. destruct (Hm s) as [x Hx]. destruct (Hk (on_tx s x)) as [y Hy]. exists y.
  rewrite (bind_Ret _ _ _ _ _ Hx). exact Hy.
Qed.
Lemma silent_asks {A} (g : shell F K → A) k : (∀ a, silent (k a)) → silent (asks g ≫= k).
Proof. intros H s. exact (H (g s) s). Qed.
Lemma silent_bytes bs : silent (out_bytes bs).
Proof. induction bs as [|b bs IH]; [exact silent_ret|]. exact (silent_then _ _ (silent_tx _) IH). Qed.
Lemma silent_prompt : silent print_prompt.
Proof. apply silent_asks. intros cwd. repeat (apply silent_then; [apply silent_tx|]). apply silent_tx. Qed.
Lemma silent_redraw e : silent (redraw_input e).
Proof. unfold redraw_input. apply silent_then; [apply silent_tx|]. apply silent_then; [apply silent_prompt|apply silent_bytes]. Qed.

Lemma silent_bind {B} m (k : unit → Sh F K B) s : silent m → ∃ x, (m ≫= k) s = k tt (on_tx s x).
Proof. intros H. destruct (H s) as [x Hx]. exists x. exact (bind_Ret _ _ _ _ _ Hx). Qed.

(** ** One key *)

(** The array holds the text up to the cursor. *)
Definition shows (e : edit) (t : text) : Prop :=
  length (e_line e) = 192%nat ∧ e_pos e = text_len t ∧ take (length t) (e_line e) = t ∧ entry_ok t.

Lemma shows_short e t : shows e t → (length t <= 191)%nat.
Proof. intros (_ & _ & _ & H & _). unfold text_len in H. lia. Qed.

Lemma shows_char e t c : shows e t → text_len t < 191 → c ≠ nul →
  shows (mk_edit (put (e_line e) (Z.to_nat (e_pos e)) [c]) (e_pos e + 1)) (t ++ [c]).
Proof.
  intros (Hl & Hp & Ht & Hle & Hn) Hlt Hc. unfold text_len in *. unfold put. rewrite Hp, Nat2Z.id, Ht. split_and!; cbn [e_line e_pos].
  - rewrite !length_app, length_drop. cbn [length]. lia.
  - unfold text_len. rewrite length_app. cbn [length]. lia.
  - rewrite app_assoc, take_app_le by done. apply take_ge. lia.
  - split; [unfold text_len; rewrite length_app; cbn [length]; lia|]. rewrite elem_of_app, list_elem_of_singleton. naive_solver.
Qed.

Lemma shows_erase e t : shows e t → t ≠ [] → shows (mk_edit (e_line e) (e_pos e - 1)) (take (length t - 1) t).
Proof.
  intros (Hl & Hp & Ht & Hle & Hn) Ht0. unfold text_len in *. assert (1 <= length t)%nat by (destruct t; [done|cbn; lia]).
  split_and!; cbn [e_line e_pos]; [done|unfold text_len; rewrite length_take; lia| |].
  - rewrite length_take. transitivity (take (length t - 1) (take (length t) (e_line e))); [|by rewrite Ht].
    by rewrite take_take.
  - split; [unfold text_len; rewrite length_take; lia|]. intros (i & Hi & _)%elem_of_take. apply Hn. by eapply list_elem_of_lookup_2.
Qed.

Lemma shows_recall e t t' : shows e t → entry_ok t' → shows (mk_edit (put (e_line e) 0 (t' ++ [nul])) (text_len t')) t'.
Proof.
  intros (Hl & _) Hok. pose proof Hok as [Hle _]. unfold text_len in *. unfold shows, put. cbn [e_line e_pos take app].
  split_and!; [|done| |done].
  - rewrite !length_app, length_take, length_drop. cbn [length]. lia.
  - rewrite take_0, <- app_assoc. cbn [app]. by apply take_app_length.
Qed.

(** The same files, kernel and directory. *)
Definition world s s' : Prop :=
  sh_fs s' = sh_fs s ∧ sh_kernel s' = sh_kernel s ∧ sh_cwd s' = sh_cwd s ∧ sh_running s' = sh_running s.

Definition with_typed s (t : text) : shell F K :=
  mk_shell (sh_tx s) (sh_fs s) (sh_kernel s) (sh_cwd s) (sh_running s) (sh_history s) t.

Lemma read_char_Ret s c t : sh_typed s = c :: t → read_char_blocking s = Ret c (with_typed s t).
Proof. intros E. unfold read_char_blocking. by rewrite E. Qed.

Definition is_end (c : ascii) : bool := Ascii.eqb c "013"%char || Ascii.eqb c "010"%char.

(** The state of a line being edited: text, history and keys to come. *)
Record editing (L : list text) (e : edit) s (st : text * nat) (rest : text) : Prop := {
  ed_shows : shows e st.1;
  ed_ring : ring_of (sh_history s) L;
  ed_view : view_at (sh_history s) L st.2;
  ed_rest : sh_typed s = rest;
}.

Lemma key_runs L e s t back k rest :
  Forall entry_ok L → plain_key k → editing L e s (t, back) (key_codes k ++ rest) →
  ∃ e' s', (∀ fuel, read_line (S fuel) e s = read_line fuel e' s') ∧ world s s' ∧ editing L e' s' (key_step L (t, back) k) rest.
Proof.
  intros HL Hk [Hsh Hr Hv Ht]. cbn [fst snd] in *. pose proof Hsh as (_ & Hp & _ & Hok).
  destruct k as [c| |]; cbn [key_codes app] in Ht; cbn [key_step].
  - destruct Hk as (H1 & H2 & H3 & H4 & H5 & H6 & H7). rewrite <- Ascii.eqb_neq in H1, H2, H3, H4, H5, H6.
    destruct (text_len t <? 191) eqn:E; zbool.
    + eexists _, _. split; [intros fuel; cbn [read_line]; rewrite (bind_Ret _ _ _ _ _ (read_char_Ret _ _ _ Ht)), H1, H2, H3, H4, H5, H6;
        cbn [orb]; rewrite Hp, (proj2 (Z.ltb_lt _ kMaxLine)) by (unfold kMaxLine; lia); rewrite <- Hp; reflexivity|].
      split; [done|]. split; [by apply shows_char|done..].
    + exists e, (with_typed s rest). split; [intros fuel; cbn [read_line]; rewrite (bind_Ret _ _ _ _ _ (read_char_Ret _ _ _ Ht)), H1, H2, H3, H4, H5, H6;
        cbn [orb]; rewrite Hp, (proj2 (Z.ltb_ge _ kMaxLine)) by (unfold kMaxLine; lia); done|].
      done.
  - destruct (decide (t = [])) as [->|Ht0].
    + exists e, (with_typed s rest). split; [intros fuel; cbn [read_line]; rewrite (bind_Ret _ _ _ _ _ (read_char_Ret _ _ _ Ht)); cbn;
        by rewrite Hp|done].
    + eexists _, _. split; [intros fuel; cbn [read_line]; rewrite (bind_Ret _ _ _ _ _ (read_char_Ret _ _ _ Ht)); cbn [Ascii.eqb Bool.eqb orb];
        rewrite Hp, (proj2 (Z.ltb_lt 0 _)) by (unfold text_len; destruct t; [done|cbn; lia]); rewrite <- Hp; reflexivity|].
      split; [done|]. split; [by apply shows_erase|done..].
  - pose proof (move_up_step (sh_history s) L back (e_line e) Hr Hv HL) as Hm.
    assert (∀ fuel, read_line (S fuel) e s =
      (e ← (let '(t, h) := history_move_up (sh_history s) (e_line e) in set_history h ;; show_text e t); read_line fuel e) (with_typed s rest)) as Hstep.
    { intros fuel. cbn [read_line]. rewrite (bind_Ret _ _ _ _ _ (read_char_Ret _ _ _ Ht)). cbn [Ascii.eqb Bool.eqb orb]. done. }
    destruct (recent L !! _) as [entry|] eqn:Hrec.
    + destruct Hm as (h' & Hm & Hr' & Hv'). destruct (silent_redraw (mk_edit (put (e_line e) 0 (entry ++ [nul])) (text_len entry))
        (mk_shell (sh_tx s) (sh_fs s) (sh_kernel s) (sh_cwd s) (sh_running s) h' rest)) as [x Hx].
      eexists _, _. split; [intros fuel; rewrite Hstep, Hm; unfold mbind at 1, Sh_bind at 1|].
      * rewrite (bind_Ret (set_history h') _ _ tt _ eq_refl). unfold show_text. rewrite (bind_Ret _ _ _ _ _ Hx). reflexivity.
      * split; [done|]. split; [|done..]. eapply shows_recall; [done|]. by eapply recent_ok.
    + exists e, (with_typed s rest). split; [intros fuel; rewrite Hstep, Hm; by destruct s|done].
Qed.

Lemma keys_run L keys : ∀ e s st rest,
  Forall entry_ok L → Forall plain_key keys → editing L e s st (concat (key_codes <$> keys) ++ rest) →
  ∃ e' s', (∀ fuel, read_line (length keys + fuel) e s = read_line fuel e' s') ∧ world s s' ∧
           editing L e' s' (fold_left (key_step L) keys st) rest.
Proof.
  induction keys as [|k keys IH]; intros e s st rest HL Hk He; [by exists e, s|].
  apply Forall_cons in Hk as [Hk Hks]. cbn [fmap list_fmap concat] in He. rewrite <- app_assoc in He. destruct st as [t back].
  destruct (key_runs L e s t back k _ HL Hk He) as (e1 & s1 & H1 & (W1 & W2 & W3 & W4) & He1).
  destruct (IH e1 s1 _ rest HL Hks He1) as (e2 & s2 & H2 & (V1 & V2 & V3 & V4) & He2).
  exists e2, s2. split_and!; [|repeat split; congruence|done]. intros fuel. cbn [length]. by rewrite Nat.add_succ_l, H1, H2.
Qed.

(** ** No command touches the history or the keys *)

Definition framed {A} (m : Sh F K A) : Prop :=
  ∀ s a s', m s = Ret a s' → sh_history s' = sh_history s ∧ sh_typed s' = sh_typed s.

Lemma framed_ret {A} (a : A) : framed (mret a).
Proof. intros s b s' H. by injection H as <- <-. Qed.
Lemma framed_bind {A B} (m : Sh F K A) (k : A → Sh F K B) : framed m → (∀ a, framed (k a)) → framed (m ≫= k).
Proof.
  intros Hm Hk s b s' H. unfold mbind, Sh_bind in H. destruct (m s) as [a s1| | |] eqn:E; try done.
  destruct (Hk a _ _ _ H) as [-> ->]. by apply (Hm _ a).
Qed.
Lemma framed_asks {A} (g : shell F K → A) : framed (asks g).
Proof. intros s b s' H. by injection H as <- <-. Qed.
Lemma framed_tx h : framed (with_tx h).
Proof. intros s b s' H. by injection H as <- <-. Qed.
Lemma framed_kernel k : framed (set_kernel k).
Proof. intros s b s' H. by injection H as <- <-. Qed.
Lemma framed_cwd t : framed (set_cwd t).
Proof. intros s b s' H. by injection H as <- <-. Qed.
Lemma framed_running r : framed (set_running r).
Proof. intros s b s' H. by injection H as <- <-. Qed.
Lemma framed_stops {A} : framed (@machine_stops F K A).
Proof. done. Qed.
Lemma framed_undefined {A} : framed (@undefined F K A).
Proof. done. Qed.
Lemma framed_on_fs {A} (op : F → A * F) : framed (on_fs op).
Proof.
  intros s a s' H. unfold on_fs in H. destruct (sh_fs s); [|done]. destruct (op _). by injection H as <- <-.
Qed.
Lemma framed_write fd bs : framed (write_ fd bs).
Proof.
  intros s a s' H. unfold write_ in H. destruct (sh_fs s); [|done]. destruct (fs_write _ _ _) as [[r f']| |]; try done.
  by injection H as <- <-.
Qed.
Lemma framed_foldr {A} (l : list A) (f : A → Sh F K unit) : (∀ a, framed (f a)) → framed (foldr (λ a k, f a ;; k) (mret tt) l).
Proof. intros H. induction l; cbn [foldr]; [apply framed_ret|by apply framed_bind]. Qed.

Ltac framed_step :=
  lazymatch goal with
  | |- framed (mret _) => apply framed_ret
  | |- framed (mbind _ _) => apply framed_bind; [|intros]
  | |- framed (with_tx _) => apply framed_tx
  | |- framed (asks _) => apply framed_asks
  | |- framed (set_kernel _) => apply framed_kernel
  | |- framed (set_cwd _) => apply framed_cwd
  | |- framed (set_running _) => apply framed_running
  | |- framed machine_stops => apply framed_stops
  | |- framed undefined => apply framed_undefined
  | |- framed (on_fs _) => apply framed_on_fs
  | |- framed (write_ _ _) => apply framed_write
  | |- framed (foldr _ _ _) => apply framed_foldr; intros
  | |- framed (match ?x with _ => _ end) => destruct x
  | |- framed ?m => let h := head_of m in unfold h
  end.
(** Loops whose bodies have to be looked at too. *)
Ltac framed_loop := fail.
Ltac framed := intros; repeat (first [solve [auto 2 with framed] | framed_loop | framed_step]; cbn beta iota zeta).

Lemma framed_read_loop {A} fuel fd n (body : Z → list Z → A → Sh F K A) : (∀ k bs acc, framed (body k bs acc)) → ∀ acc, framed (read_loop fuel fd n body acc).
Proof. intros Hb. induction fuel; intros acc; cbn [read_loop]; framed. Qed.
Lemma framed_gather turns fd room : ∀ got, framed (gather turns fd room got).
Proof. induction turns; intros got; cbn [gather]; framed. Qed.
Hint Resolve framed_gather : framed.

Lemma framed_cp_loop fuel a b : framed (cp_loop fuel a b).
Proof. induction fuel; cbn [cp_loop]; framed. Qed.
Lemma framed_cmp_loop fuel a b : framed (cmp_loop fuel a b).
Proof. induction fuel; cbn [cmp_loop]; framed. Qed.
Lemma framed_tree_walk n : ∀ path d, framed (tree_walk n path d).
Proof. induction n; intros path d; cbn [tree_walk]; framed. Qed.
Lemma framed_find_walk n : ∀ path d, framed (find_walk n path d).
Proof. induction n; intros path d; cbn [find_walk]; framed. Qed.
Lemma framed_uname_fields shown : ∀ first, framed (uname_fields shown first).
Proof. induction shown as [|[[] ?] shown IH]; intros first; cbn [uname_fields]; framed. Qed.
Lemma framed_nl_chunk bs line : framed (nl_chunk bs line).
Proof.
  unfold nl_chunk. assert (∀ m, framed m → framed (foldl (λ m b, line ← m; nl_byte line b) m bs)) as H; [|apply H, framed_ret].
  induction bs as [|b bs IH]; intros m Hm; cbn [foldl]; [done|]. apply IH. framed.
Qed.
Lemma framed_many args op : (∀ a p, framed (op a p)) → framed (many args op).
Proof. intros H. induction args; cbn [many]; framed. Qed.
Lemma framed_seq_loop n : ∀ v last step, framed (seq_loop n v last step).
Proof. induction n; intros v last step; cbn [seq_loop]; framed. Qed.
Lemma framed_repeat_loop n t : framed (repeat_loop n t).
Proof. induction n; cbn [repeat_loop]; framed. Qed.
Lemma framed_sleep_loop n : framed (sleep_loop n).
Proof. induction n; cbn [sleep_loop]; framed. Qed.
Lemma show_bars_cons (b raw : Z) (rest : list Z) :
  show_bars (F:=F) (K:=K) b (raw :: rest) =
    if raw =? 0 then show_bars (b + 1) rest
    else
      say "  BAR" ;; write_dec b ;;
      if negb (Z.land raw 1 =? 0) then say " io=0x" ;; out_hex (Z.land raw (u32 (Z.lnot 3))) ;; show_bars (b + 1) rest
      else
        match rest with
        | high :: rest' =>
            if Z.land raw 6 =? 4 then
              say " mmio64=" ;; out_hex64 (Z.lor (Z.shiftl high 32) (Z.land raw (u32 (Z.lnot 0xF)))) ;; show_bars (b + 2) rest'
            else say " mmio=0x" ;; out_hex (Z.land raw (u32 (Z.lnot 0xF))) ;; show_bars (b + 1) rest
        | [] => say " mmio=0x" ;; out_hex (Z.land raw (u32 (Z.lnot 0xF)))
        end.
Proof. reflexivity. Qed.

Lemma framed_show_bars bars : ∀ b, framed (show_bars b bars).
Proof.
  cut ((∀ b, framed (show_bars b bars)) ∧ ∀ b x, framed (show_bars b (x :: bars))); [by intros [? _]|].
  induction bars as [|y bars [IH1 IH2]]; (split; [try done; intros; apply framed_ret|intros b x; rewrite show_bars_cons]); framed.
Qed.
Hint Resolve framed_cp_loop framed_cmp_loop framed_tree_walk framed_find_walk framed_uname_fields framed_nl_chunk
  framed_seq_loop framed_repeat_loop framed_sleep_loop framed_show_bars : framed.

Ltac framed_loop ::=
  lazymatch goal with
  | |- framed (read_loop _ _ _ _ _) => apply framed_read_loop; intros
  | |- framed (many _ _) => apply framed_many; intros
  end.

Lemma framed_ensure_dirs paths : framed (ensure_dirs paths).
Proof. induction paths; cbn [ensure_dirs]; framed. Qed.
Hint Resolve framed_ensure_dirs : framed.
Lemma framed_install_files fuel files : framed (install_files fuel files).
Proof. induction files; cbn [install_files]; framed. Qed.
Lemma framed_package_installed p : framed (package_installed p).
Proof. framed. Qed.
Hint Resolve framed_install_files framed_package_installed : framed.
Lemma framed_index_text ps : ∀ index, framed (index_text ps index).
Proof. induction ps; intros index; cbn [index_text]; framed. Qed.
Lemma framed_install_package fuel p : framed (install_package fuel p).
Proof. framed. Qed.
Lemma framed_catalog a b needle : framed (print_package_catalog a b needle).
Proof. framed. Qed.
Hint Resolve framed_index_text framed_install_package framed_catalog : framed.
Lemma framed_pkg fuel args : framed (pkg fuel args).
Proof. framed. Qed.
Hint Resolve framed_pkg : framed.

Lemma framed_handler fuel h args : framed (run_handler build_stamp fuel h args).
Proof. destruct h; framed. Qed.

Lemma framed_command fuel args : framed (run_command build_stamp fuel args).
Proof.
  destruct args as [|name args]; [apply framed_ret|]. cbn [run_command]. destruct (find_command name) as [[? h]|]; [apply framed_handler|framed].
Qed.

(** ** A line *)

Lemma split_while_length p t : (length (split_while p t).1 + length (split_while p t).2 = length t)%nat.
Proof. induction t as [|c t IH]; [done|]. cbn [split_while]. destruct (p c); [|done]. destruct (split_while p t). cbn in *. lia. Qed.

Lemma next_word_length t : (length (next_word t).1.2 + length (next_word t).2 = length t)%nat.
Proof.
  destruct t as [|q t]; [done|]. unfold next_word.
  destruct (is_quote q).
  - pose proof (split_while_length (λ c, negb (Ascii.eqb c q)) t). destruct (split_while _ t) as [w [|x r]]; cbn [fst snd] in *;
      rewrite !length_app; cbn [length] in *; lia.
  - pose proof (split_while_length (λ c, negb (is_space c)) (q :: t)). destruct (split_while _ (q :: t)) as [w [|x r]]; cbn [fst snd] in *;
      rewrite !length_app; cbn [length] in *; lia.
Qed.

Lemma parse_args_length room : ∀ t, length (parse_args_loop room t).2 = length t.
Proof.
  induction room as [|room IH]; intros t; cbn [parse_args_loop];
    pose proof (split_while_length is_space t) as H1; destruct (split_while is_space t) as [sp t']; cbn [fst snd] in *; destruct t' as [|q t']; try done.
  pose proof (next_word_length (q :: t')) as H2. destruct (next_word (q :: t')) as [[w stored] r]. cbn [fst snd] in *.
  pose proof (split_while_length is_space r) as H3. destruct (split_while is_space r) as [sp2 [|c r2]]; cbn [fst snd] in *.
  - rewrite !length_app. cbn [length] in *. lia.
  - destruct (Ascii.eqb c _); cbn [snd]; [rewrite !length_app; cbn [length] in *; lia|].
    pose proof (IH (c :: r2)) as H4. destruct (parse_args_loop room (c :: r2)) as [ws after]. cbn [snd] in *. rewrite !length_app. cbn [length] in *. lia.
Qed.

Lemma cstr_shown line t : take (length t) line = t → (length t < length line)%nat → nul ∉ t → cstr (put line (length t) [nul]) = t.
Proof.
  intros Ht Hl Hn. unfold put. rewrite Ht. generalize (drop (length t + length [nul]) line). clear Ht Hl. intros behind. induction t as [|c t IH]; [done|].
  rewrite not_elem_of_cons in Hn. destruct Hn as [Hc Hn]. cbn [app cstr].
  rewrite (proj2 (Ascii.eqb_neq c nul)) by congruence. f_equal. exact (IH Hn).
Qed.

Lemma typed_line_ok L keys e s rest :
  editing L e s (fold_left (key_step L) keys ([], 0%nat)) rest → entry_ok (typed_line L keys).
Proof. intros [(_ & _ & _ & H) _ _ _]. exact H. Qed.

Lemma turn_step fuel line s x e s1 :
  print_prompt s = Ret tt (on_tx s x) → read_line fuel (mk_edit (put line 0 [nul]) 0) (on_tx s x) = Ret e s1 →
  turn build_stamp fuel line s =
    (if e_pos e =? 0 then h ← asks sh_history; set_history (history_reset_view h) ;; mret (put (e_line e) (Z.to_nat (e_pos e)) [nul])
     else run_line build_stamp fuel (put (e_line e) (Z.to_nat (e_pos e)) [nul])) s1.
Proof. intros Hp Hr. unfold turn. by rewrite (bind_Ret _ _ _ _ _ Hp), (bind_Ret _ _ _ _ _ Hr). Qed.

Lemma put_length line i cs : (i + length cs <= length line)%nat → length (put line i cs) = length line.
Proof. intros H. unfold put. rewrite !length_app, length_take, length_drop. lia. Qed.

Definition set_log s (h : history) : shell F K :=
  mk_shell (sh_tx s) (sh_fs s) (sh_kernel s) (sh_cwd s) (sh_running s) h (sh_typed s).

(** C31: a line of the shell, typed with erasures and recalled lines, runs the
    command it shows.  Whatever the array held, the keys up to the end of the
    line give the text that the editor displays; the turn records it in the
    history and then runs exactly the command of its words [ws] (separated by
    blanks, quoted, up to a comment, at most 24: the relation [reads], which
    determines them), on the files, the kernel and the directory as they
    were; an empty line runs nothing.  No
    command touches the history or the keys behind the line, so the next turn
    starts where this one ended. *)
Theorem shell_line_runs fuel line L keys eol rest s :
  length line = 192%nat → log_ok (sh_history s) L → g_history_view (sh_history s) = -1 → Z.of_nat (length L) + 1 < 4294967280 →
  Forall plain_key keys → is_end eol = true → sh_typed s = concat (key_codes <$> keys) ++ eol :: rest → (length keys < fuel)%nat →
  let t := typed_line L keys in
  ∃ ws s1 line1, reads false 24 t ws ∧ (∀ ws', reads false 24 t ws' → ws' = ws) ∧
    world s s1 ∧ sh_typed s1 = rest ∧ log_ok (sh_history s1) (log_append L t) ∧ g_history_view (sh_history s1) = -1 ∧
    length line1 = 192%nat ∧
    turn build_stamp fuel line s = (if bool_decide (t = []) then mret line1 else run_command build_stamp fuel ws ;; mret line1) s1 ∧
    ∀ u s2, run_command build_stamp fuel ws s1 = Ret u s2 → sh_typed s2 = rest ∧ sh_history s2 = sh_history s1.
Proof.
  intros Hl [Hr HL] Hv Hn Hk Hend Ht Hf t. destruct (silent_prompt s) as [x Hx].
  destruct (keys_run L keys (mk_edit (put line 0 [nul]) 0) (on_tx s x) ([], 0%nat) (eol :: rest) HL Hk) as (e & s0 & Hrun & (W1 & W2 & W3 & W4) & He).
  { split; [|done|done|done]. split; [cbn [e_line]; rewrite put_length; cbn; lia|]. repeat split; [done|]. set_solver. }
  pose proof (typed_line_ok _ _ _ _ _ He) as Hok. destruct He as [(Hel & Hep & Het & _) Her _ Hty].
  change (typed_line L keys) with t in Hok. change (fold_left (key_step L) keys ([], 0%nat)).1 with t in *. clearbody t. cbn [on_tx sh_fs sh_kernel sh_cwd sh_running] in W1, W2, W3, W4.
  assert (∃ y, read_line fuel (mk_edit (put line 0 [nul]) 0) (on_tx s x) = Ret e (on_tx (with_typed s0 rest) y)) as [y Hread].
  { replace fuel with (length keys + S (fuel - S (length keys)))%nat by lia. rewrite Hrun. cbn [read_line].
    rewrite (bind_Ret _ _ _ _ _ (read_char_Ret _ _ _ Hty)). unfold is_end in Hend. rewrite Hend. by eexists. }
  rewrite (turn_step _ _ _ _ _ _ Hx Hread). destruct Hok as [Hok1 Hok2]. unfold text_len in Hok1, Hep. rewrite Hep, Nat2Z.id.
  assert (length (put (e_line e) (length t) [nul]) = 192%nat) as Hpl by (rewrite put_length; cbn; lia).
  assert (cstr (put (e_line e) (length t) [nul]) = t) as Hc by (apply cstr_shown; [done|lia|done]).
  exists (parse_args t).1, (set_log (on_tx (with_typed s0 rest) y) (history_reset_view (history_append (sh_history s0) t))).
  exists (if bool_decide (t = []) then put (e_line e) (length t) [nul] else put (put (e_line e) (length t) [nul]) 0 (parse_args t).2).
  split_and!; [by apply parse_args_reads|by intros ws' <-%parse_args_reads|done|done| |done| | |].
  - split; [by apply ring_reset, ring_append|]. apply log_append_ok; done.
  - case_bool_decide; [done|]. rewrite put_length; [done|]. unfold parse_args. rewrite parse_args_length. lia.
  - case_bool_decide as Et.
    + rewrite Et. done.
    + rewrite (proj2 (Z.eqb_neq _ 0)) by (destruct t; [done|cbn; lia]). unfold run_line. rewrite Hc. destruct (parse_args t). done.
  - intros u s2 H2. apply and_comm. exact (framed_command _ _ _ _ _ H2).
Qed.

End editor.

(** "cat x", an erasure, "'a b' # c"; and the up arrow three times. *)
Definition demo_keys : list key := (Char <$> txt "cat x") ++ [Erase] ++ (Char <$> txt "'a b'  # c").
Definition demo_again : list key := demo_keys ++ [Up; Up; Up].
Definition demo_line (keys : list key) : shell ramfs _ :=
  mk_shell (sh_tx demo_shell) (sh_fs demo_shell) (sh_kernel demo_shell) (sh_cwd demo_shell) true demo_history
    (concat (key_codes <$> keys) ++ ["013"%char]).

Lemma demo_log_ok : log_ok demo_history demo_log.
Proof.
  split; [exact demo_ring|]. unfold demo_log. repeat (apply Forall_cons; split; [split; [done|by apply has_char_false]|]). done.
Qed.

Lemma shell_line_runs_witness :
  typed_line demo_log demo_keys = txt "cat 'a b'  # c" ∧ typed_line demo_log demo_again = txt "ld" ∧
  ∃ s1 line1, world (demo_line demo_keys) s1 ∧ sh_typed s1 = [] ∧
    turn [] 40 (replicate 192 nul) (demo_line demo_keys) = (run_command [] 40 [txt "cat"; txt "a b"] ;; mret line1) s1.
Proof.
  split; [reflexivity|]. split; [reflexivity|].
  destruct (shell_line_runs [] 40 (replicate 192 nul) demo_log demo_keys "013"%char [] (demo_line demo_keys) eq_refl demo_log_ok eq_refl)
    as (ws & s1 & line1 & H0 & _ & H1 & H2 & _ & _ & _ & H3 & _).
  - vm_compute. reflexivity.
  - repeat constructor; discriminate.
  - reflexivity.
  - reflexivity.
  - vm_compute. lia.
  - apply parse_args_reads in H0. vm_compute in H0. subst ws.
    exists s1, line1. split; [exact H1|]. split; [exact H2|]. exact H3.
Defined.

(** ** What the editor gets wrong *)

Definition on_line (t : text) : edit := mk_edit (put (replicate 192 nul) 0 t) (text_len t).
Definition line_after {A} (get : A → edit) (r : ran ramfs (@sys ramdisk unit) A) : option text :=
  match r with Ret a _ => Some (take (Z.to_nat (e_pos (get a))) (e_line (get a))) | _ => None end.

(** Completing a path drops the part of the name that was typed. *)
Lemma completion_drops_prefix :
  line_after snd (complete_path_token (on_line (txt "cat /etc/pass")) demo_shell) = Some (txt "cat /etc/wd").
Proof. vm_compute. reflexivity. Qed.

(** The draft kept by the up arrow has the characters that were erased: "ab",
    an erasure, up and down show "ab" again. *)
Lemma draft_brings_back_erased :
  let ab := mk_edit (put (replicate 192 nul) 0 (txt "ab")) 1 in
  let '(shown, h) := history_move_up demo_history (e_line ab) in
  shown = Some (txt "cat a") ∧ (history_move_down h).1 = Some (txt "ab").
Proof. vm_compute. split; reflexivity. Qed.

(** [tail] of one line shows two when the last has no newline. *)
Lemma tail_counts_newlines :
  tail_bytes (rev (bytes_of (txt "a" ++ newline ++ txt "b" ++ newline ++ txt "c"))) 0 1 [] = bytes_of (txt "b" ++ newline ++ txt "c").
Proof. vm_compute. reflexivity. Qed.

(** A number that does not fit is taken modulo 2^32. *)
Lemma parse_u32_wraps : parse_u32 (txt "4294967297") = Some 1.
Proof. vm_compute. reflexivity. Qed.
