(* ===== verification/ShellPkgSpec.v ===== *)
(** * Installing packages

    [apt install] on the RAM file system and the storage: what success and
    failure leave behind, and that a stored package comes back at the next
    boot. *)

From S2P Require Import Prelude CText Serial Vfs RamFs RamFsSpec FsHandles Bytes Block BlockSpec RamDisk Storage StorageSpec Snapshot SnapshotSpec Scheduler KernelTasks Pci Shell ShellSys ShellCmds ShellPkg ShellFs.

Section install.
Context (nb : Z → option (list Z)) (nb_sized : sized_allocator nb) {K : Type} `{SK : ShellKernel K}.
#[local] Instance files_inst : FileSystem ramfs := ramfs_fs nb.
Implicit Types (s : shell ramfs K) (f : ramfs).

(** A well-formed file system without open files. *)
Definition settled f : Prop := fs_ok f ∧ all_closed f.

Definition canonical_path (p : text) : Prop := RamFs.normalize_path (Some p) 64 = Some p.

Lemma put_fs_same s f : sh_fs s = Some f → put_fs s f = s.
Proof. destruct s. cbn. by intros ->. Qed.

(** ** Files and directories *)

(** [write_file_text] writes the file and returns true, or reports that it
    could not be opened or written; other paths stay as they are. *)
Lemma write_text_effect fuel s f p t :
  sh_fs s = Some f → settled f → canonical_path p → text_len t <= 2147483647 →
  ∃ ok f', write_file_text fuel p t false s = Ret ok (put_fs s f') ∧ settled f' ∧
    (∀ q, q ≠ p → view f' q = view f q) ∧ (ok = true → view f' p = Some (File (bytes_of t))).
Proof using nb_sized.
  intros Hs [Hok Hcl] Hn Ht. unfold write_file_text. erewrite bind_Ret; [|by eapply ready_Ret]. cbn [negb].
  change (Z.lor (Z.lor kOpenWrite kOpenCreate) kOpenTruncate) with replace_flags.
  pose proof (open_effect f (Some p) replace_flags Hok) as He. destruct (open f (Some p) replace_flags) as [fd f1] eqn:Eo.
  assert (open_ p replace_flags s = Ret fd (put_fs s f1)) as Ho by (apply (on_fs_Ret _ s f); [done|exact Eo]).
  erewrite bind_Ret; [|exact Ho]. destruct He as (Hok1 & [(-> & -> & _)|(p' & c & E & _ & V1 & Hfd)]).
  { exists false, f. split_and!; done. }
  unfold canonical_path in Hn. rewrite Hn in E. injection E as <-.
  destruct Hfd as [(_ & Hfull & _)|(Hr & Hg & Hoth & k & i & Hg' & Hi & Hni)]; [by apply closed_not_full in Hfull|].
  rewrite (proj2 (Z.ltb_ge fd 0)) by lia. erewrite bind_Ret; [|reflexivity].
  pose proof (bytes_of_length t) as Hbl.
  assert (∀ q, q ≠ p → view f1 q = view f q) as V1' by (intros q Hq; by rewrite V1, (proj2 (text_equal_ne _ _))).
  destruct (write_handle_sized nb f1 fd p 0 replace_flags [] (bytes_of t) nb_sized Hok1) as [Ew|(f2 & Ew & Hok2 & V2 & O2)].
  { by exists (Z.to_nat (fd - 3)), k, i. } { done. } { by rewrite V1, text_equal_refl. } { cbn. lia. } { lia. }
  - assert (write_ fd (bytes_of t) (put_fs s f1) = Ret (-1) (put_fs s f1)) as Hw.
    { unfold write_. cbn [sh_fs put_fs]. change (fs_write f1 fd (Some (bytes_of t))) with (RamFs.write nb f1 fd (Some (bytes_of t))). by rewrite Ew. }
    erewrite bind_Ret; [|exact Hw]. erewrite bind_Ret; [|by apply close_Ret].
    destruct (close_closed f1 fd Hok1) as (Hok3 & Hcl3 & V3); [intros fd' Hne; rewrite Hoth by done; apply Hcl|].
    exists false, (close f1 fd).2. split; [reflexivity|]. split; [by split|]. split; [|done]. intros q Hq. rewrite V3. by apply V1'.
  - assert (write_ fd (bytes_of t) (put_fs s f1) = Ret (Z.of_nat (length (bytes_of t))) (put_fs s f2)) as Hw.
    { unfold write_. cbn [sh_fs put_fs]. change (fs_write f1 fd (Some (bytes_of t))) with (RamFs.write nb f1 fd (Some (bytes_of t))). by rewrite Ew. }
    erewrite bind_Ret; [|exact Hw]. erewrite bind_Ret; [|by apply close_Ret].
    destruct (close_closed f2 fd Hok2) as (Hok3 & Hcl3 & V3); [intros fd' Hne; rewrite O2, Hoth by done; apply Hcl|].
    exists true, (close f2 fd).2. split; [|split; [by split|split]].
    + rewrite (proj2 (Z.leb_le 0 _)) by lia. reflexivity.
    + intros q Hq. rewrite V3, V2, (proj2 (text_equal_ne _ _)) by done. by apply V1'.
    + intros _. rewrite V3, V2, text_equal_refl. f_equal. f_equal. exact (splice_end [] (bytes_of t)).
Qed.

(** [path_exists] of a canonical path. *)
Lemma path_exists_effect s f p :
  sh_fs s = Some f → settled f → canonical_path p →
  ∃ f', path_exists p s = Ret (bool_decide (is_Some (view f p))) (put_fs s f') ∧ settled f' ∧ ∀ q, view f' q = view f q.
Proof using.
  intros Hs [Hok Hcl] Hn. unfold path_exists. erewrite bind_Ret; [|by eapply ready_Ret]. cbn [negb].
  assert (readdir_ p 1 s = Ret (readdir f (Some p) false 1) s) as Hrd.
  { rewrite <- (put_fs_same s f Hs) at 2. apply (on_fs_Ret _ s f); [done|]. cbn [fs_readdir files_inst ramfs_fs]. by destruct (readdir _ _ _ _). }
  erewrite bind_Ret; [|exact Hrd]. unfold readdir. cbn [orb Z.eqb]. unfold canonical_path in Hn. rewrite Hn.
  destruct (view f p) as [[|c]|] eqn:Ev; unfold view in Ev; destruct (find_inode f p) as [k|] eqn:Ek; try done; cbn in Ev.
  - injection Ev as Ev. unfold node_of in Ev. destruct (in_is_directory (inode_at f k)); [|done]. cbn [negb].
    exists f. rewrite (put_fs_same s f Hs). split; [|by split; [split|]]. rewrite (proj2 (Z.leb_le 0 _)) by lia. by rewrite bool_decide_eq_true_2.
  - injection Ev as Ev. unfold node_of in Ev. destruct (in_is_directory (inode_at f k)) eqn:Ed; [done|]. cbn [negb]. cbn beta iota.
    change (0 <=? -1) with false. cbv iota.
    destruct (open_source f p p c Hok Hcl Hn) as (a & f1 & Eo & Ha & Hok1 & V1 & _ & Hoth & _).
    { unfold view. rewrite Ek. cbn. f_equal. unfold node_of. by rewrite Ed. }
    erewrite bind_Ret; [|apply (on_fs_Ret _ s f); [done|exact Eo]]. rewrite (proj2 (Z.ltb_ge a 0)) by lia.
    erewrite bind_Ret; [|by apply close_Ret]. destruct (close_closed f1 a Hok1) as (Hok2 & Hcl2 & V2); [done|].
    exists (close f1 a).2. split; [by rewrite bool_decide_eq_true_2|]. split; [by split|]. intros q. by rewrite V2, V1.
  - cbn beta iota. change (0 <=? -1) with false. cbv iota.
    pose proof (open_effect f (Some p) kOpenRead Hok) as He. destruct (open f (Some p) kOpenRead) as [fd f1] eqn:Eo.
    erewrite bind_Ret; [|apply (on_fs_Ret _ s f); [done|exact Eo]]. destruct He as (_ & [(-> & -> & _)|(p' & c & E & Hv & _)]).
    + exists f. split; [|by split; [split|]]. by rewrite bool_decide_eq_false_2 by (by intros [? ?]).
    + exfalso. rewrite Hn in E. injection E as <-. unfold view in Hv. rewrite Ek in Hv. destruct Hv as [?|(_ & _ & _ & ?)]; done.
Qed.

(** Directories of [dirs] were made; nothing else changed. *)
Definition grown (dirs : list text) f f' : Prop :=
  ∀ q, view f' q = view f q ∨ q ∈ dirs ∧ view f q = None ∧ view f' q = Some Dir.

Lemma ensure_dir_effect s f p :
  sh_fs s = Some f → settled f → canonical_path p →
  ∃ ok f', ensure_dir p s = Ret ok (put_fs s f') ∧ settled f' ∧ grown [p] f f'.
Proof using.
  intros Hs Hf Hn. unfold ensure_dir. erewrite bind_Ret; [|by eapply ready_Ret]. cbn [negb].
  destruct (path_exists_effect s f p Hs Hf Hn) as (f1 & E1 & [Hok1 Hcl1] & V1). erewrite bind_Ret; [|exact E1].
  destruct (bool_decide _) eqn:Eb; [exists true, f1; split; [done|]; split; [by split|]; intros q; left; apply V1|].
  pose proof (md_effect f1 (Some p) Hok1) as He. unfold canonical_path in Hn. rewrite Hn in He. destruct (RamFs.md f1 (Some p)) as [r f2] eqn:Em.
  assert (md_ p (put_fs s f1) = Ret r (put_fs s f2)) as Hm by (apply (on_fs_Ret _ (put_fs s f1) f1); [done|exact Em]).
  erewrite bind_Ret; [|exact Hm]. destruct He as (Hok2 & Hfds & He).
  exists (0 <=? r), f2. split; [done|]. split; [split; [done|]; intros fd; specialize (Hcl1 fd); unfold get_fd in *; by rewrite Hfds|].
  apply bool_decide_eq_false in Eb. assert (view f p = None) as Ev by (destruct (view f p); [destruct Eb; eauto|done]).
  rewrite V1, Ev in He. intros q. destruct He as [(_ & _ & V2)|(_ & -> & _)]; [|left; apply V1].
  rewrite V2. destruct (text_equal q p) eqn:Eq; [|left; apply V1]. apply text_equal_eq in Eq as ->. right. split_and!; [by apply list_elem_of_singleton|done|done].
Qed.

Lemma grown_trans d1 d2 f1 f2 f3 : grown d1 f1 f2 → grown d2 f2 f3 → grown (d1 ++ d2) f1 f3.
Proof using.
  intros H1 H2 q. rewrite elem_of_app. destruct (H2 q) as [->|(? & E & ->)].
  - destruct (H1 q) as [->|(? & ? & ?)]; [by left|right; tauto].
  - destruct (H1 q) as [<-|(? & ? & E')]; [right; tauto|congruence].
Qed.

Lemma ensure_dirs_effect paths : ∀ s f,
  sh_fs s = Some f → settled f → Forall canonical_path paths →
  ∃ ok f', ensure_dirs paths s = Ret ok (put_fs s f') ∧ settled f' ∧ grown paths f f'.
Proof using.
  induction paths as [|p paths IH]; intros s f Hs Hf Hn; cbn [ensure_dirs].
  { exists true, f. rewrite (put_fs_same s f Hs). split; [done|]. split; [done|]. intros q. by left. }
  apply Forall_cons in Hn as [Hp Hps]. destruct (ensure_dir_effect s f p Hs Hf Hp) as (ok & f1 & E1 & Hf1 & G1). erewrite bind_Ret; [|exact E1].
  destruct ok.
  - destruct (IH (put_fs s f1) f1 eq_refl Hf1 Hps) as (ok & f2 & E2 & Hf2 & G2). exists ok, f2. split; [exact E2|]. split; [done|].
    exact (grown_trans [p] paths _ _ _ G1 G2).
  - exists false, f1. split; [done|]. split; [done|]. intros q. destruct (G1 q) as [?|(?%list_elem_of_singleton & ? & ?)]; [by left|right].
    subst. split_and!; [by left|done|done].
Qed.

(** The files of a package: outside their paths nothing changes, and on
    success each holds its contents. *)
Lemma install_files_effect fuel files : ∀ s f,
  sh_fs s = Some f → settled f → Forall (λ x, canonical_path (pf_path x) ∧ text_len (pf_contents x) <= 2147483647) files → NoDup (pf_path <$> files) →
  ∃ ok f', install_files fuel files s = Ret ok (put_fs s f') ∧ settled f' ∧
    (∀ q, q ∉ pf_path <$> files → view f' q = view f q) ∧
    (ok = true → Forall (λ x, view f' (pf_path x) = Some (File (bytes_of (pf_contents x)))) files).
Proof using nb_sized.
  induction files as [|x files IH]; intros s f Hs Hf Hn Hnd; cbn [install_files].
  { exists true, f. rewrite (put_fs_same s f Hs). split_and!; done. }
  apply Forall_cons in Hn as [[Hx Hl] Hns]. cbn [fmap list_fmap] in *. apply NoDup_cons in Hnd as [Hni Hnd].
  destruct (write_text_effect fuel s f (pf_path x) (pf_contents x) Hs Hf Hx Hl) as (ok & f1 & E1 & Hf1 & V1' & W1). erewrite bind_Ret; [|exact E1].
  destruct ok.
  - destruct (IH (put_fs s f1) f1 eq_refl Hf1 Hns Hnd) as (ok & f2 & E2 & Hf2 & V2 & W2). exists ok, f2. split; [exact E2|]. split; [done|]. split.
    + intros q Hq. rewrite not_elem_of_cons in Hq. rewrite V2, V1' by tauto. done.
    + intros Hok. constructor; [|by apply W2]. rewrite V2 by done. by apply W1.
  - exists false, f1. split; [done|]. split; [done|]. split; [|done]. intros q Hq. apply V1'. by apply not_elem_of_cons in Hq as [? _].
Qed.

(** ** The storage *)

Definition moved s f (k : K) : shell ramfs K :=
  mk_shell (sh_tx s) (Some f) k (sh_cwd s) (sh_running s) (sh_history s) (sh_typed s).

(** The payload was written and entered in the index. *)
Definition stored (k : K) (p : PackageDefinition) (k' : K) : Prop :=
  ∃ k1 k2 h, k_alloc k (u32 (Z.of_nat (length (payload p)))) 4096 = (true, k1) ∧ k_storage_write k1 (payload p) = Some (Some h, k2) ∧
    k_storage_index k2 (pkg_name p) (start_lba h) (sectors h) = Some (true, k').

(** No call through a null pointer on the way. *)
Definition storage_answers (k : K) (p : PackageDefinition) : bool :=
  let '(ok, k1) := k_alloc k (u32 (Z.of_nat (length (payload p)))) 4096 in
  negb ok ||
  match k_storage_write k1 (payload p) with
  | None => false
  | Some (None, _) => true
  | Some (Some h, k2) => match k_storage_index k2 (pkg_name p) (start_lba h) (sectors h) with None => false | Some _ => true end
  end.

Lemma alloc_Ret s f size ok k1 :
  sh_fs s = Some f → k_alloc (sh_kernel s) size 4096 = (ok, k1) → alloc_ size 4096 s = Ret ok (moved s f k1).
Proof using. destruct s as [tx fs k cwd run hi ty]. cbn. intros -> E. unfold alloc_, mbind, Sh_bind, asks. cbn [sh_kernel]. by rewrite E. Qed.
Lemma storage_write_Ret s f data h k1 :
  sh_fs s = Some f → k_storage_write (sh_kernel s) data = Some (h, k1) → storage_write_ data s = Ret h (moved s f k1).
Proof using. destruct s as [tx fs k cwd run hi ty]. cbn. intros -> E. unfold storage_write_, mbind, Sh_bind, asks. cbn [sh_kernel]. by rewrite E. Qed.
Lemma storage_index_Ret s f name start n ok k1 :
  sh_fs s = Some f → k_storage_index (sh_kernel s) name start n = Some (ok, k1) → storage_index_ name start n s = Ret ok (moved s f k1).
Proof using. destruct s as [tx fs k cwd run hi ty]. cbn. intros -> E. unfold storage_index_, mbind, Sh_bind, asks. cbn [sh_kernel]. by rewrite E. Qed.

Lemma store_effect p s f :
  sh_fs s = Some f → storage_answers (sh_kernel s) p = true →
  ∃ ok k', store_package p s = Ret ok (moved s f k') ∧ (ok = true → stored (sh_kernel s) p k').
Proof using.
  intros Hs Ha. unfold store_package, storage_answers, stored in *. destruct (k_alloc _ _ 4096) as [ok k1] eqn:E1.
  erewrite bind_Ret; [|by eapply alloc_Ret]. destruct ok; cbn [negb orb] in *; [|by exists false, k1].
  destruct (k_storage_write k1 (payload p)) as [[h k2]|] eqn:E2; [|done]. erewrite bind_Ret; [|by eapply storage_write_Ret].
  destruct h as [h|]; [|by exists false, k2]. destruct (k_storage_index k2 _ _ _) as [[ok k3]|] eqn:E3; [|done].
  exists ok, k3. split; [exact (storage_index_Ret (moved (moved s f k1) f k2) f _ _ _ _ _ eq_refl E3)|].
  intros ->. by exists k1, k2, h.
Qed.

(** ** Installation *)

Record package_ok (p : PackageDefinition) : Prop := {
  po_files : Forall (λ x, canonical_path (pf_path x) ∧ text_len (pf_contents x) <= 2147483647) (pkg_files p);
  po_distinct : NoDup (package_paths p);
  po_marker : canonical_path (marker p) ∧ marker p ≠ [] ∧ text_len (pkg_version p) <= 2147483647;
  po_dirs : Forall (λ d, d ∉ package_paths p) package_dirs;
}.

Lemma packages_ok : Forall package_ok kPackages.
Proof using.
  repeat (apply Forall_cons; split); [..|done].
  all: split; [repeat constructor; discriminate|apply (bool_decide_unpack _); vm_compute; exact I|split_and!; done
    |apply (bool_decide_unpack _); vm_compute; exact I].
Qed.

Lemma package_dirs_ok : Forall canonical_path package_dirs.
Proof using. repeat constructor. Qed.

(** Whether the package is installed. *)
Lemma package_installed_effect p s f :
  package_ok p → sh_fs s = Some f → settled f →
  ∃ f', package_installed p s = Ret (bool_decide (is_Some (view f (marker p)))) (put_fs s f') ∧ settled f' ∧ ∀ q, view f' q = view f q.
Proof using.
  intros [_ _ (Hn & Hm & _) _] Hs Hf. unfold package_installed. destruct (marker p) as [|c m] eqn:E; [done|]. rewrite <- E in *. by apply path_exists_effect.
Qed.

(** The cleaning up of a failed installation. *)
Lemma failing_effect p s f :
  p ∈ kPackages → sh_fs s = Some f → settled f →
  ∃ f', failing p s = Ret false (put_fs s f') ∧ settled f' ∧
    (∀ q, q ∉ package_paths p → view f' q = view f q) ∧ ∀ q c, q ∈ package_paths p → view f' q ≠ Some (File c).
Proof using.
  intros Hp Hs [Hok Hcl]. destruct (remove_package_spec nb p s f Hp Hs Hok Hcl) as (f1 & E1 & Hok1 & Hcl1 & V1).
  exists f1. split; [unfold failing; by erewrite bind_Ret; [|exact E1]|]. split; [by split|]. split.
  - intros q Hq. rewrite V1. destruct (existsb _ _) eqn:Ex; [|done]. apply existsb_exists in Ex as (x & Hx & E). apply text_equal_eq in E as ->.
    by rewrite <- list_elem_of_In in Hx.
  - intros q c Hq. rewrite V1. assert (existsb (text_equal q) (package_paths p) = true) as ->.
    { apply existsb_exists. exists q. split; [by apply list_elem_of_In|apply text_equal_refl]. }
    by destruct (view f q) as [[]|].
Qed.

(** What a path holds that does not belong to the package. *)
Definition elsewhere (p : PackageDefinition) f f' : Prop :=
  ∀ q, q ∉ package_paths p → view f' q = view f q ∨ q ∈ package_dirs ∧ view f q = None ∧ view f' q = Some Dir.

Definition untouched (p : PackageDefinition) f f' : Prop := ∀ q, q ∈ package_paths p → view f' q = view f q.
Definition nothing_left (p : PackageDefinition) f' : Prop := ∀ q c, q ∈ package_paths p → view f' q ≠ Some (File c).
Definition all_there (p : PackageDefinition) f' : Prop :=
  Forall (λ x, view f' (pf_path x) = Some (File (bytes_of (pf_contents x)))) (pkg_files p) ∧
  view f' (marker p) = Some (File (bytes_of (pkg_version p))).

Lemma elsewhere_step p f f1 f' : (∀ q, q ∉ package_paths p → view f' q = view f1 q) → elsewhere p f f1 → elsewhere p f f'.
Proof using. intros H H1 q Hq. rewrite !H by done. by apply H1. Qed.

(** A failure after some files were written. *)
Lemma install_fails p s f f1 s1 k :
  p ∈ kPackages → sh_fs s1 = Some f1 → s1 = moved s f1 k → settled f1 → elsewhere p f f1 →
  ∃ f' k', failing p s1 = Ret false (moved s f' k') ∧ settled f' ∧ elsewhere p f f' ∧ nothing_left p f'.
Proof using.
  intros Hp Hs1 -> Hf1 He. destruct (failing_effect p _ f1 Hp Hs1 Hf1) as (f2 & E & Hf2 & V & Hno).
  exists f2, k. split; [exact E|]. split; [done|]. split; [by eapply elsewhere_step|done].
Qed.

Lemma install_fresh_effect fuel p s f f1 :
  p ∈ kPackages → sh_fs s = Some f1 → settled f1 → elsewhere p f f1 → storage_answers (sh_kernel s) p = true →
  ∃ ok f' k', install_fresh fuel p s = Ret ok (moved s f' k') ∧ settled f' ∧ elsewhere p f f' ∧
    if ok : bool then all_there p f' ∧ stored (sh_kernel s) p k' else nothing_left p f'.
Proof using nb_sized.
  intros Hp Hs Hf1 He1 Ha. pose proof (proj1 (Forall_forall _ _) packages_ok p Hp) as [Hpf Hpd (Hpm & Hpm0 & Hpv) _].
  apply NoDup_app in Hpd as (Hnd & Hdis & _).
  destruct (install_files_effect fuel (pkg_files p) s f1 Hs Hf1 Hpf Hnd) as (ok & f3 & E3 & Hf3 & V3 & W3).
  unfold install_fresh, install_package_files. erewrite bind_Ret; [|exact E3].
  assert (elsewhere p f f3) as He3.
  { eapply elsewhere_step; [|exact He1]. intros q Hq. apply V3. intros Hq'. apply Hq, elem_of_app. by left. }
  assert (∀ f1 s1 k, s1 = moved s f1 k → settled f1 → elsewhere p f f1 →
    ∃ ok f' k', failing p s1 = Ret ok (moved s f' k') ∧ settled f' ∧ elsewhere p f f' ∧
      if ok : bool then all_there p f' ∧ stored (sh_kernel s) p k' else nothing_left p f') as Hfail.
  { clear -Hp. intros f1 s1 k Hs1 Hf1 He1. destruct (install_fails p s f f1 s1 k Hp) as (f' & k' & E & H); [by rewrite Hs1|done..|].
    exists false, f', k'. split; [exact E|exact H]. }
  destruct ok; cbn [negb]; [|by apply (Hfail f3 _ (sh_kernel s))].
  destruct (store_effect p (put_fs s f3) f3 eq_refl Ha) as (ok & k' & E4 & Hst). erewrite bind_Ret; [|exact E4].
  change (moved (put_fs s f3) f3 k') with (moved s f3 k'). destruct ok; cbn [negb]; [|by apply (Hfail f3 _ k')].
  destruct (write_text_effect fuel (moved s f3 k') f3 (marker p) (pkg_version p) eq_refl Hf3 Hpm Hpv) as (ok & f4 & E5 & Hf4 & V4 & W4).
  assert (elsewhere p f f4) as He4.
  { eapply elsewhere_step; [|exact He3]. intros q Hq. apply V4. intros ->. apply Hq. apply elem_of_app. right. by apply list_elem_of_singleton. }
  destruct (marker p) as [|c m] eqn:Em; [done|]. rewrite <- Em in *. erewrite bind_Ret; [|exact E5].
  destruct ok; [|by apply (Hfail f4 _ k')]. exists true, f4, k'. split; [done|]. split; [done|]. split; [done|].
  split; [|by apply Hst]. split; [|by apply W4].
  apply Forall_forall. intros x Hx. rewrite V4.
  - exact (proj1 (Forall_forall _ _) (W3 eq_refl) x Hx).
  - intros E. apply (Hdis (pf_path x)); [by apply list_elem_of_fmap_2|]. rewrite E. by apply list_elem_of_singleton.
Qed.

(** The whole of [install_package]. *)
Lemma install_effect fuel p s f :
  p ∈ kPackages → sh_fs s = Some f → settled f → storage_answers (sh_kernel s) p = true →
  ∃ ok f' k', install_package fuel p s = Ret ok (moved s f' k') ∧ settled f' ∧ elsewhere p f f' ∧
    if ok : bool then
      is_Some (view f (marker p)) ∧ untouched p f f' ∧ k' = sh_kernel s ∨
      view f (marker p) = None ∧ all_there p f' ∧ stored (sh_kernel s) p k'
    else untouched p f f' ∧ k' = sh_kernel s ∨ nothing_left p f'.
Proof using nb_sized.
  intros Hp Hs Hf Ha. pose proof (proj1 (Forall_forall _ _) packages_ok p Hp) as Hpo.
  destruct (ensure_dirs_effect package_dirs s f Hs Hf package_dirs_ok) as (ok & f1 & E1 & Hf1 & G1).
  assert (elsewhere p f f1) as He1 by (intros q Hq; apply G1).
  assert (untouched p f f1) as Hu1.
  { intros q Hq. destruct (G1 q) as [?|(Hd & _)]; [done|]. by destruct (proj1 (Forall_forall _ _) (po_dirs p Hpo) q Hd). }
  unfold install_package. erewrite bind_Ret; [|exact E1]. destruct ok; cbn [negb]; cycle 1.
  { exists false, f1, (sh_kernel s). split; [done|]. split; [done|]. split; [done|]. left. by split. }
  destruct (package_installed_effect p (put_fs s f1) f1 Hpo eq_refl Hf1) as (f2 & E2 & Hf2 & V2).
  rewrite (Hu1 (marker p)) in E2 by (apply elem_of_app; right; apply list_elem_of_singleton; done). erewrite bind_Ret; [|exact E2]. clear E2.
  assert (elsewhere p f f2) as He2 by (apply (elsewhere_step p f f1); [intros q _; apply V2|done]).
  case_bool_decide as Hin.
  { exists true, f2, (sh_kernel s). split; [done|]. split; [done|]. split; [done|]. left. split; [exact Hin|]. split; [|done].
    intros q Hq. rewrite V2. by apply Hu1. }
  destruct (install_fresh_effect fuel p (put_fs s f2) f f2 Hp eq_refl Hf2 He2 Ha) as (ok & f' & k' & E & Hf' & He' & H).
  exists ok, f', k'. split; [exact E|]. split; [done|]. split; [done|]. destruct ok; [right|by right].
  split; [by apply eq_None_not_Some|exact H].
Qed.

(** C32: installing a package is all or nothing, also when memory for its
    files runs out ([nb] may refuse any request) or the disk refuses the
    payload.  [install_package] returns; outside the paths of the package only
    missing directories of the package system appear.  If it reports success,
    the package was installed before and nothing changed, or its files now hold
    their contents, the marker its version, and its payload is on the storage
    and in the index.  If it reports failure, the paths are as they were, or
    none of them is a file.  No file is open before, and the storage answers
    ([storage_answers]: no call through a null function pointer on the way). *)
Theorem install_all_or_nothing fuel p s f :
  p ∈ kPackages → sh_fs s = Some f → settled f → storage_answers (sh_kernel s) p = true →
  ∃ ok f' k', install_package fuel p s = Ret ok (moved s f' k') ∧ settled f' ∧ elsewhere p f f' ∧
    if ok : bool then
      is_Some (view f (marker p)) ∧ untouched p f f' ∧ k' = sh_kernel s ∨
      view f (marker p) = None ∧ all_there p f' ∧ stored (sh_kernel s) p k'
    else untouched p f f' ∧ k' = sh_kernel s ∨ nothing_left p f'.
Proof using nb_sized. apply install_effect. Qed.
End install.

(** ** The next boot *)

Definition package_files (p : PackageDefinition) : files := (λ x, (pf_path x, bytes_of (pf_contents x))) <$> pkg_files p.

(** The payload of a package is its files as a snapshot packs them. *)
Lemma payload_pack p : payload p = pack (package_files p).
Proof.
  unfold payload, pack, package_files. f_equal. rewrite <- list_fmap_compose. apply list_fmap_ext. intros i x _.
  unfold compose, pack_file, SnapshotSpec.pack_file. cbn [fst snd]. by rewrite bytes_of_length.
Qed.

Section reboot.
Context {H B : Type} `{HD : Disks H} `{!DisksLaws H} `{HC : ConfigSpace B}.
Context (page_tables_addr : Z) (driver : nat → BlockDevice) (ide : nat).
Context (xhci_ready usbms_present : bool) (cpuid : Z → Z → Z * Z * Z * Z) (ahci_info : list text) (until_scheduled : @sys H B → @sys H B).
#[local] Instance this_kernel : ShellKernel (@sys H B) :=
  sys_kernel page_tables_addr driver ide xhci_ready usbms_present cpuid ahci_info until_scheduled.

Lemma alloc_keeps_store (k : @sys H B) n a : sys_store (sys_alloc page_tables_addr k n a).2 = sys_store k.
Proof. unfold sys_alloc. by destruct (kernel_alloc _ _ _ _). Qed.

Lemma stored_store (k k' : @sys H B) p :
  stored k p k' → ∃ h st, storage_write driver ide (sys_store k) (Some (payload p)) = Some (Some h, st) ∧
    storage_add_index_entry driver ide st (pkg_name p) (start_lba h) (sectors h) = Some (true, sys_store k').
Proof.
  intros (k1 & k2 & h & E1 & E2 & E3). cbn [k_alloc k_storage_write k_storage_index this_kernel sys_kernel] in *.
  pose proof (alloc_keeps_store k (u32 (Z.of_nat (length (payload p)))) 4096) as Hk. rewrite E1 in Hk. cbn [snd] in Hk. rewrite Hk in E2.
  destruct (storage_write driver ide (sys_store k) (Some (payload p))) as [[h' st]|]; [|done]. cbn in E2. injection E2 as -> <-.
  cbn [set_store sys_store] in E3. destruct (storage_add_index_entry driver ide st _ _ _) as [[ok st']|] eqn:E4; [|done]. cbn in E3. injection E3 as -> <-.
  exists h, st. split; [done|exact E4].
Qed.

(** The index entry of an installed package. *)
Definition package_entry (st : @storage H) (p : PackageDefinition) : IndexEntry := snapshot_entry st (pkg_name p) (package_files p).

Lemma package_files_ok : Forall (λ p, Forall file_ok (package_files p) ∧ Forall (λ x, bytes_ok x.2) (package_files p) ∧
  payload p ≠ [] ∧ sectors_for (payload p) <= 2 ∧ (length (package_files p) < 16)%nat ∧ (pkg_name p ≠ [] ∧ no_nul (pkg_name p) ∧ text_len (pkg_name p) <= 127)) kPackages.
Proof. repeat (apply Forall_cons; split); [..|done]. all: split_and!; try discriminate; apply (bool_decide_unpack _); vm_compute; exact I. Qed.

Lemma package_files_storable : Forall (λ p, Forall storable (package_files p) ∧ consistent (package_files p)) kPackages.
Proof. apply (bool_decide_unpack _). vm_compute. exact I. Qed.

Lemma installed_stored nb fuel (sh sh' : shell ramfs (@sys H B)) f p :
  p ∈ kPackages → good_allocator nb → sh_fs sh = Some f → settled f → view f (marker p) = None → storage_answers (sh_kernel sh) p = true →
  @install_package ramfs _ (ramfs_fs nb) _ fuel p sh = Ret true sh' → stored (sh_kernel sh) p (sh_kernel sh').
Proof.
  intros Hp Hnb Hs Hf Hm Ha Hins. destruct (install_effect nb (good_sized nb Hnb) fuel p sh f Hp Hs Hf Ha) as (ok & f' & k' & E & _ & _ & Hr).
  unfold files_inst in E. rewrite Hins in E. injection E as <- ->. destruct Hr as [(Hx & _)|(_ & _ & Hr)]; [|exact Hr].
  rewrite Hm in Hx. destruct Hx as [x Hx]. discriminate Hx.
Qed.

(** C33: an installed package survives a restart.  When the storage is on a
    disk whose index has room, a package that was not installed and that
    [install_package] reports installed is listed by the index read back from
    the disk, after the entries that were there (or alone, when they could not
    be read), and unpacking the sectors of its entry, as the boot does, into a
    RAM file system [g] where no directory stands in the place of a file of the
    package, nor a file in the place of a directory above one, puts each of its
    files back with its contents, with the directories above them and all else
    as in [g], unless the inode table is full afterwards.  No file is open, and
    memory for file contents does not run out. *)
Theorem package_persists nb fuel (sh sh' : shell ramfs (@sys H B)) f p d off es :
  let st := sys_store (sh_kernel sh) in let st' := sys_store (sh_kernel sh') in let e := package_entry st p in
  p ∈ kPackages → good_allocator nb → sh_fs sh = Some f → settled f → view f (marker p) = None → storage_answers (sh_kernel sh) p = true →
  @install_package ramfs _ (ramfs_fs nb) _ fuel p sh = Ret true sh' →
  on_disk ide st d off → super_ok (sb st) →
  next_free_lba (sb st) + 2 < 4294967296 → index_ok (sector_at st d (off + INDEX_LBA)) es → index_size (es ++ [e]) <= 512 →
  on_disk ide st' d off ∧ super_ok (sb st') ∧
  (∃ old, (old = es ∨ old = []) ∧ ∀ buf s, storage_read_raw driver ide st' INDEX_LBA 1 = Some (Some buf, s) →
     index_entries (Z.to_nat (word32 buf 0)) buf 4 = old ++ [e]) ∧
  ∀ g data s,
    storage_read_raw driver ide st' (ie_start e) (ie_sectors e) = Some (Some data, s) →
    fs_ok g → all_closed g → (∀ path c, (path, c) ∈ package_files p → can_put (view g) path) →
    ∃ g', @restore_files ramfs (ramfs_fs nb) 16 g data (ie_sectors e *u 512) 0 = Done g' ∧ fs_ok g' ∧ all_closed g' ∧
      (table_full g' ∨ put_back (package_files p) (view g) (view g')).
Proof.
  intros st st' e Hp Hnb Hs Hf Hm Ha Hins Hon Hsb Hfit Hidx Hroom. pose proof (installed_stored nb fuel sh sh' f p Hp Hnb Hs Hf Hm Ha Hins) as Hst.
  destruct (stored_store _ _ _ Hst) as (h & st1 & Hw & Hi). rewrite payload_pack in Hw.
  destruct (proj1 (Forall_forall _ _) package_files_ok p Hp) as (Hok & Hby & Hne & Hsec & Hlen & Hname). rewrite payload_pack in Hne, Hsec.
  destruct (proj1 (Forall_forall _ _) package_files_storable p Hp) as (Hsto & Hcon).
  assert (0 <= sectors_for (pack (package_files p))) by (unfold sectors_for; apply Z.div_pos; lia).
  destruct (@stored_restores _ ramfs _ _ (ramfs_fs nb) driver ide nb st d off es (pkg_name p) (package_files p) h st1 st' Hon Hsb Hne Hok Hby ltac:(lia) ltac:(lia) Hidx)
    as (H1 & H2 & H3 & H4); [|exact Hroom|exact Hw|exact Hi|].
  - split; [exact Hname| |cbn; lia]. cbn. destruct Hsb as [_ ? _ _]. unfold DATA_START_LBA in *. lia.
  - split; [exact H1|]. split; [exact H2|]. split; [exact H3|]. intros g data s Hr Hokg Hclg Hput.
    destruct (restore_list_put_back nb Hnb (package_files p) g Hokg Hclg Hsto Hcon Hput) as (g' & E & Hg'). exists g'. split; [|exact Hg'].
    etransitivity; [exact (H4 data s 16%nat g Hr Hlen)|exact E].
Qed.
End reboot.

(** ** The demo package on the shell as it boots *)

Definition demo_docs : PackageDefinition := nth 3 kPackages (mk_package [] [] [] []).

Lemma demo_docs_package : demo_docs ∈ kPackages.
Proof. apply list_elem_of_In, nth_In. cbn. lia. Qed.

Definition succeeded {F K} (r : ran F K bool) : bool := match r with Ret ok _ => ok | _ => false end.

Lemma demo_installs : succeeded (install_package 10 demo_docs demo_shell) = true.
Proof. vm_compute. reflexivity. Qed.
Lemma demo_fresh : view boot_fs (marker demo_docs) = None.
Proof. vm_compute. reflexivity. Qed.
Lemma demo_answers : storage_answers demo_sys demo_docs = true.
Proof. vm_compute. reflexivity. Qed.

(** Memory for no file at all. *)
Definition no_memory (n : Z) : option (list Z) := None.

Lemma no_memory_sized : sized_allocator no_memory.
Proof. intros n b _ H. discriminate H. Qed.

Lemma demo_fails : succeeded (@install_package ramfs _ (ramfs_fs no_memory) _ 10 demo_docs demo_shell) = false.
Proof. vm_compute. reflexivity. Qed.

Lemma install_all_or_nothing_witness :
  (∃ f' k', install_package 10 demo_docs demo_shell = Ret true (moved demo_shell f' k') ∧ settled f' ∧
     all_there demo_docs f' ∧ stored demo_sys demo_docs k') ∧
  ∃ f' k', @install_package ramfs _ (ramfs_fs no_memory) _ 10 demo_docs demo_shell = Ret false (moved demo_shell f' k') ∧
    (untouched demo_docs boot_fs f' ∧ k' = demo_sys ∨ nothing_left demo_docs f').
Proof.
  split.
  - destruct (install_all_or_nothing zero_allocator (good_sized _ zero_allocator_good) 10 demo_docs demo_shell boot_fs demo_docs_package eq_refl
      (conj boot_ok boot_closed) demo_answers) as (ok & f' & k' & E & Hf & _ & H).
    pose proof demo_installs as Hi. unfold demo_files in Hi. unfold files_inst in E. rewrite E in Hi. cbn [succeeded] in Hi. subst ok.
    exists f', k'. split; [exact E|]. split; [exact Hf|].
    destruct H as [(Hm & _)|(_ & H1 & H2)]; [|split; [exact H1|exact H2]].
    rewrite demo_fresh in Hm. destruct Hm as [x Hx]. discriminate Hx.
  - destruct (install_all_or_nothing no_memory no_memory_sized 10 demo_docs demo_shell boot_fs demo_docs_package eq_refl
      (conj boot_ok boot_closed) demo_answers) as (ok & f' & k' & E & _ & _ & H).
    pose proof demo_fails as Hi. unfold files_inst in E. rewrite E in Hi. cbn [succeeded] in Hi. subst ok.
    exists f', k'. split; [exact E|exact H].
Defined.

(** The shell after the package was installed. *)
Definition demo_after : shell ramfs (@sys ramdisk unit) :=
  match install_package 10 demo_docs demo_shell with Ret _ s => s | _ => demo_shell end.

Lemma demo_installed : install_package 10 demo_docs demo_shell = Ret true demo_after.
Proof.
  pose proof demo_installs as X. unfold demo_after. destruct (install_package 10 demo_docs demo_shell) as [[] s| | |]; [reflexivity|discriminate X..].
Qed.

(** The sectors of the entry, and what the boot makes of them. *)
Definition demo_docs_entry : IndexEntry := mk_entry (txt "demo-docs") 10 1.
Definition demo_sectors : list Z :=
  match storage_read_raw usb_driver 0 (sys_store (sh_kernel demo_after)) 10 1 with Some (Some data, _) => data | _ => [] end.
Definition demo_boot : outcome ramfs := restore_files 16 boot_fs demo_sectors 512 0.

Lemma demo_sectors_read : ∃ s, storage_read_raw usb_driver 0 (sys_store (sh_kernel demo_after)) 10 1 = Some (Some demo_sectors, s).
Proof.
  unfold demo_sectors. destruct (storage_read_raw usb_driver 0 (sys_store (sh_kernel demo_after)) 10 1) as [[[data|] s]|] eqn:E; [by eauto|exfalso..];
    assert (match storage_read_raw usb_driver 0 (sys_store (sh_kernel demo_after)) 10 1 with Some (Some _, _) => true | _ => false end = true)
      as X by (vm_compute; reflexivity); rewrite E in X; discriminate X.
Qed.

Lemma demo_docs_room path c : (path, c) ∈ package_files demo_docs → can_put (view boot_fs) path.
Proof.
  assert (Forall (λ x, Forall (λ q, view boot_fs q = Some Dir ∨ view boot_fs q = None) (above x.1) ∧ view boot_fs x.1 ≠ Some Dir) (package_files demo_docs)) as X
    by (apply (bool_decide_unpack _); vm_compute; exact I).
  rewrite Forall_forall in X. intros Hx. destruct (X _ Hx) as [H1 H2]. split; [|exact H2]. intros q b Hq. rewrite Forall_forall in H1.
  destruct (H1 q Hq) as [E|E]; rewrite E; discriminate.
Qed.

Lemma demo_boot_room g : demo_boot = Done g → ¬ table_full g.
Proof.
  intros E Hf. assert (match demo_boot with Done g => bool_decide (Forall (λ i, in_used i = true) (m_inodes g)) | _ => true end = false) as X by (vm_compute; reflexivity).
  rewrite E in X. apply bool_decide_eq_false in X. apply X, Forall_lookup. exact Hf.
Qed.

Lemma package_persists_witness :
  view boot_fs (txt "/opt/demo/hello.txt") = None ∧
  (∃ old, (old = [] ∨ old = []) ∧ ∀ buf s, storage_read_raw usb_driver 0 (sys_store (sh_kernel demo_after)) INDEX_LBA 1 = Some (Some buf, s) →
    index_entries (Z.to_nat (word32 buf 0)) buf 4 = old ++ [demo_docs_entry]) ∧
  ∃ g', demo_boot = Done g' ∧
    view g' (txt "/opt/demo/hello.txt") = Some (File (bytes_of (txt "Hello from a package-installed demo payload." ++ newline))).
Proof.
  split; [vm_compute; reflexivity|].
  destruct (package_persists 2097152 usb_driver 0 false false (λ _ _, (0, 0, 0, 0)) [] one_tick zero_allocator 10
    demo_shell demo_after boot_fs demo_docs 0 0 [] demo_docs_package zero_allocator_good eq_refl (conj boot_ok boot_closed) demo_fresh demo_answers
    demo_installed (proj1 demo_store_disk) (proj2 demo_store_disk)
    ltac:(vm_compute; congruence) demo_index ltac:(vm_compute; congruence)) as (_ & _ & Hidx & Hres).
  split; [exact Hidx|]. destruct demo_sectors_read as [s Hr].
  destruct (Hres boot_fs demo_sectors s Hr boot_ok boot_closed demo_docs_room) as (g' & E & _ & _ & Hg).
  assert (demo_boot = Done g') as Eb by exact E. exists g'. split; [exact Eb|]. destruct Hg as [Hf|[Hfile _ _]].
  - destruct (demo_boot_room g' Eb Hf).
  - apply Hfile. apply (bool_decide_unpack _). vm_compute. exact I.
Defined.

(** [apt remove] takes the files but not the copy on storage: after an
    installation and a removal the next boot restores the package. *)
Definition after_removal : @sys ramdisk unit :=
  match (install_package 10 demo_docs ;; remove_package_files demo_docs) demo_shell with Ret _ s => sh_kernel s | _ => demo_sys end.

Lemma removed_package_returns :
  match storage_restore_packages usb_driver 0 zero_allocator 16 (sys_store after_removal) boot_fs with
  | Done (Some (_, f)) => view f (txt "/opt/demo/hello.txt") = Some (File (bytes_of (txt "Hello from a package-installed demo payload." ++ newline)))
  | _ => False
  end.
Proof. vm_compute. reflexivity. Qed.
