(* ===== verification/Ide.v ===== *)
(** * The IDE driver ([kernel/drivers/ide.cpp])

    Programmed I/O on the primary channel.  The ports are a class; [AtaLaws]
    says what a drive behind them does, as the ATA command set documents it:
    registers are taken while the drive is idle, a command is worked on for some
    status reads and then moves 256 words, and after the last word of a write
    the drive is settling. *)

From S2P Require Import Prelude.

Class AtaPorts (A : Type) := {
  outb : A → Z → Z → A;
  inb : A → Z → Z * A;
  inw : A → Z → Z * A;
  outw : A → Z → Z → A;
}.

Definition ATA_DATA : Z := 0x1F0.
Definition ATA_SECTOR_COUNT : Z := 0x1F2.
Definition ATA_LBA_LOW : Z := 0x1F3.
Definition ATA_LBA_MID : Z := 0x1F4.
Definition ATA_LBA_HIGH : Z := 0x1F5.
Definition ATA_DRIVE : Z := 0x1F6.
Definition ATA_STATUS : Z := 0x1F7.
Definition ATA_COMMAND : Z := 0x1F7.
Definition ATA_CONTROL : Z := 0x3F6.

(** The polls before a wait gives up. *)
Definition kPolls : nat := Z.to_nat 100000.

Definition bsy (st : Z) : bool := negb (Z.land st 0x80 =? 0).
Definition drq (st : Z) : bool := negb (Z.land st 0x08 =? 0).

Section driver.
Context {A : Type} `{AtaPorts A}.
Implicit Type a : A.

Definition ata_delay a : A := outb a 0x80 0.
Definition ata_status a : Z * A := inb a ATA_STATUS.
Definition ide_init a : A := outb a ATA_CONTROL 0.

(** [while (p(st) && to-- > 0) st = ata_status();] with [st] and [to] after
    it. *)
Fixpoint wait_while (p : Z → bool) (to : nat) (st : Z) a : Z * Z * A :=
  if p st then
    match to with
    | O => (st, -1, a)
    | S to' => let '(st, a) := ata_status a in wait_while p to' st a
    end
  else (st, Z.of_nat to, a).

(** Status, not busy, data requested; [false] is a time-out. *)
Definition wait_data a : bool * A :=
  let '(st, a) := ata_status a in
  let '(st, to, a) := wait_while bsy kPolls st a in
  if to <=? 0 then (false, a)
  else
    let '(st, to, a) := wait_while (λ st, negb (drq st)) kPolls st a in
    (negb (to <=? 0), a).

(** The task file for one sector. *)
Definition start_command a (cur command : Z) : A :=
  let a := outb a ATA_DRIVE (u8 (Z.lor 0xE0 (Z.land (Z.shiftr cur 24) 0x0F))) in
  let a := outb a ATA_SECTOR_COUNT 1 in
  let a := outb a ATA_LBA_LOW (Z.land cur 0xFF) in
  let a := outb a ATA_LBA_MID (Z.land (Z.shiftr cur 8) 0xFF) in
  let a := outb a ATA_LBA_HIGH (Z.land (Z.shiftr cur 16) 0xFF) in
  outb a ATA_COMMAND command.

Definition word_bytes (w : Z) : list Z := [Z.land w 0xFF; Z.land (Z.shiftr w 8) 0xFF].

Fixpoint read_words (n : nat) a : list Z * A :=
  match n with
  | O => ([], a)
  | S n' =>
      let '(w, a) := inw a ATA_DATA in
      let '(bs, a) := read_words n' a in
      (word_bytes w ++ bs, a)
  end.

(** Success and the bytes stored in the buffer. *)
Fixpoint read_loop (n : nat) a (cur : Z) : bool * list Z * A :=
  match n with
  | O => (true, [], a)
  | S n' =>
      let '(ok, a) := wait_data (start_command a cur 0x20) in
      if negb ok then (false, [], a)
      else
        let '(bs, a) := read_words 256 a in
        let '(ok, more, a) := read_loop n' a (cur +u 1) in
        (ok, bs ++ more, a)
  end.

Definition ide_read_sectors a (lba count : Z) : bool * list Z * A := read_loop (Z.to_nat count) a lba.

(** [None] is a read behind the buffer. *)
Fixpoint write_words (n : nat) a (buf : list Z) : option (A * list Z) :=
  match n with
  | O => Some (a, buf)
  | S n' =>
      match buf with
      | lo :: hi :: buf' => write_words n' (outw a ATA_DATA (Z.lor lo (Z.shiftl hi 8))) buf'
      | _ => None
      end
  end.

Fixpoint write_loop (n : nat) a (cur : Z) (buf : list Z) : option (bool * A) :=
  match n with
  | O => Some (true, a)
  | S n' =>
      let '(ok, a) := wait_data (start_command a cur 0x30) in
      if negb ok then Some (false, a)
      else
        '(a, buf) ← write_words 256 a buf;
        write_loop n' (outb a ATA_COMMAND 0xE7) (cur +u 1) buf
  end.

Definition ide_write_sectors a (lba : Z) (buf : list Z) (count : Z) : option (bool * A) := write_loop (Z.to_nat count) a lba buf.

(** The IDENTIFY command up to its first status. *)
Definition start_identify a : Z * A :=
  let a := ata_delay (outb a ATA_DRIVE 0xA0) in
  let a := outb a ATA_SECTOR_COUNT 0 in
  let a := outb a ATA_LBA_LOW 0 in
  let a := outb a ATA_LBA_MID 0 in
  let a := outb a ATA_LBA_HIGH 0 in
  let a := ata_delay (outb a ATA_COMMAND 0xEC) in
  ata_status a.

(** 0 and 0xFF mean that there is no drive; otherwise the status once it is
    not busy, [None] after a time-out or an error. *)
Definition identified a : option Z * A :=
  let '(st, a) := start_identify a in
  if (st =? 0) || (st =? 0xFF) then (None, a)
  else
    let '(st, to, a) := wait_while bsy kPolls st a in
    if to <=? 0 then (None, a)
    else if negb (Z.land st 0x01 =? 0) then (None, a)
    else (Some st, a).

Definition ide_present a : bool * A := let '(r, a) := identified a in (match r with Some _ => true | None => false end, a).

(** [out_buf] is null or takes the 512 bytes. *)
Definition ide_identify a (out_buf_null : bool) : option (list Z) * A :=
  if out_buf_null then (None, a)
  else
    let '(r, a) := identified a in
    match r with
    | None => (None, a)
    | Some st =>
        let '(_, to, a) := wait_while (λ st, negb (drq st)) kPolls st a in
        if to <=? 0 then (None, a) else let '(bs, a) := read_words 256 a in (Some bs, a)
    end.
End driver.
