(* ===== verification/IdeSpec.v ===== *)
(** * What the IDE driver does on an ATA drive *)

From S2P Require Import Prelude Ide.

(** What a command still moves: words to the host, or words from it for a
    sector. *)
Inductive transfer := Sending (ws : list Z) | Receiving (l : Z) (ws : list Z).

(** [Working n t]: busy for [n] more status reads, then asking for data. *)
Inductive ata_state := Idle | Working (n : nat) (t : transfer) | Settling.

Definition task_file : list Z := [ATA_SECTOR_COUNT; ATA_LBA_LOW; ATA_LBA_MID; ATA_LBA_HIGH; ATA_DRIVE].

(** The drive behind the ports: its state, its registers and its sectors of
    256 words.  [prompt] says that it has settled before the next register is
    written. *)
Class AtaLaws (A : Type) `{AtaPorts A} := {
  ata_state_of : A → ata_state;
  ata_reg : A → Z → Z;
  ata_words : A → Z → list Z;
  ata_lba a := Z.lor (Z.shiftl (Z.land (ata_reg a ATA_DRIVE) 0x0F) 24)
    (Z.lor (Z.shiftl (ata_reg a ATA_LBA_HIGH) 16) (Z.lor (Z.shiftl (ata_reg a ATA_LBA_MID) 8) (ata_reg a ATA_LBA_LOW)));
  ata_sector_words a l : length (ata_words a l) = 256%nat ∧ Forall (λ w, 0 <= w < 65536) (ata_words a l);
  ata_takes_register a p v : ata_state_of a = Idle → p ∈ task_file →
    ata_state_of (outb a p v) = Idle ∧ (∀ q, ata_reg (outb a p v) q = if q =? p then v else ata_reg a q) ∧
    ∀ l, ata_words (outb a p v) l = ata_words a l;
  ata_starts_read a : ata_state_of a = Idle → ata_reg a ATA_SECTOR_COUNT = 1 → Z.land (ata_reg a ATA_DRIVE) 0xE0 = 0xE0 →
    ∃ n, (n < kPolls)%nat ∧ ata_state_of (outb a ATA_COMMAND 0x20) = Working n (Sending (ata_words a (ata_lba a))) ∧
      ∀ l, ata_words (outb a ATA_COMMAND 0x20) l = ata_words a l;
  ata_starts_write a : ata_state_of a = Idle → ata_reg a ATA_SECTOR_COUNT = 1 → Z.land (ata_reg a ATA_DRIVE) 0xE0 = 0xE0 →
    ∃ n, (n < kPolls)%nat ∧ ata_state_of (outb a ATA_COMMAND 0x30) = Working n (Receiving (ata_lba a) []) ∧
      ∀ l, ata_words (outb a ATA_COMMAND 0x30) l = ata_words a l;
  ata_reports a n t : ata_state_of a = Working n t →
    let '(st, a') := inb a ATA_STATUS in
    bsy st = (0 <? Z.of_nat n) ∧ (n = 0%nat → drq st = true) ∧ ata_state_of a' = Working (n - 1) t ∧ ∀ l, ata_words a' l = ata_words a l;
  ata_sends a w ws : ata_state_of a = Working 0 (Sending (w :: ws)) →
    let '(w', a') := inw a ATA_DATA in
    w' = w ∧ ata_state_of a' = (match ws with [] => Idle | _ => Working 0 (Sending ws) end) ∧ ∀ l, ata_words a' l = ata_words a l;
  ata_receives a l ws w : ata_state_of a = Working 0 (Receiving l ws) → (length ws < 255)%nat → 0 <= w < 65536 →
    ata_state_of (outw a ATA_DATA w) = Working 0 (Receiving l (ws ++ [w])) ∧ ∀ l', ata_words (outw a ATA_DATA w) l' = ata_words a l';
  ata_stores a l ws w : ata_state_of a = Working 0 (Receiving l ws) → length ws = 255%nat → Forall (λ w, 0 <= w < 65536) (ws ++ [w]) →
    ata_state_of (outw a ATA_DATA w) = Settling ∧
    ∀ l', ata_words (outw a ATA_DATA w) l' = if l' =? l then ws ++ [w] else ata_words a l';
  ata_flushes a : ata_state_of a = Settling →
    (ata_state_of (outb a ATA_COMMAND 0xE7) = Settling ∨ ata_state_of (outb a ATA_COMMAND 0xE7) = Idle) ∧
    ∀ l, ata_words (outb a ATA_COMMAND 0xE7) l = ata_words a l;
}.

Definition prompt (A : Type) `{AtaLaws A} : Prop := ∀ a : A, ata_state_of a = Settling → ata_state_of (outb a ATA_COMMAND 0xE7) = Idle.

(** Sectors addressed with 28 bits. *)
Definition kLbaLimit : Z := 268435456.

Section spec.
Context {A : Type} `{AL : AtaLaws A}.
Implicit Type a : A.

Definition sector_bytes a (l : Z) : list Z := concat (word_bytes <$> ata_words a l).

(** ** Waiting *)

Lemma wait_busy t n : ∀ to st a, (n < to)%nat → bsy st = (0 <? Z.of_nat n) → (n = 0%nat → drq st = true) → ata_state_of a = Working (n - 1) t →
  ∃ st' to' a', wait_while bsy to st a = (st', to', a') ∧ 0 < to' ∧ drq st' = true ∧ ata_state_of a' = Working 0 t ∧ ∀ l, ata_words a' l = ata_words a l.
Proof.
  induction n as [|n IH]; intros to st a Hto Hb Hd Ha.
  - exists st, (Z.of_nat to), a. split_and!; [|lia|by apply Hd|done|done]. destruct to; cbn [wait_while]; by rewrite Hb.
  - destruct to as [|to]; [lia|]. cbn [wait_while]. rewrite Hb, (proj2 (Z.ltb_lt 0 _)) by lia.
    replace (S n - 1)%nat with n in Ha by lia. unfold ata_status. pose proof (ata_reports a n t Ha) as Hr. destruct (inb a ATA_STATUS) as [st1 a1].
    destruct Hr as (Hb1 & Hd1 & Hs1 & Hw1). destruct (IH to st1 a1 ltac:(lia) Hb1 Hd1 Hs1) as (st' & to' & a' & E & H1 & H2 & H3 & H4).
    exists st', to', a'. split_and!; [done..|]. intros l. by rewrite H4, Hw1.
Qed.

Lemma wait_data_ready t n a : (n < kPolls)%nat → ata_state_of a = Working n t →
  ∃ a', wait_data a = (true, a') ∧ ata_state_of a' = Working 0 t ∧ ∀ l, ata_words a' l = ata_words a l.
Proof.
  intros Hn Ha. unfold wait_data, ata_status. pose proof (ata_reports a n t Ha) as Hr. destruct (inb a ATA_STATUS) as [st a1].
  destruct Hr as (Hb & Hd & Hs & Hw). destruct (wait_busy t n kPolls st a1 Hn Hb Hd Hs) as (st' & to' & a' & -> & H1 & H2 & H3 & H4).
  rewrite (proj2 (Z.leb_gt to' 0)) by lia. exists a'. assert (wait_while (λ st, negb (drq st)) kPolls st' a' = (st', 100000, a')) as ->.
  { unfold kPolls. destruct (Z.to_nat 100000) as [|k] eqn:E; [lia|]. cbn [wait_while]. rewrite H2. cbn [negb]. f_equal. f_equal. lia. }
  split_and!; [done..|]. intros l. by rewrite H4, Hw.
Qed.

(** ** One sector *)

Lemma drive_bits x : 0 <= x < 16 → Z.land (u8 (Z.lor 0xE0 x)) 0x0F = x ∧ Z.land (u8 (Z.lor 0xE0 x)) 0xE0 = 0xE0.
Proof.
  intros Hx. assert (∀ i, i ∈ seqZ 0 16 → Z.land (u8 (Z.lor 0xE0 i)) 0x0F = i ∧ Z.land (u8 (Z.lor 0xE0 i)) 0xE0 = 0xE0) as Hall.
  { apply Forall_forall. apply (bool_decide_unpack _). vm_compute. done. }
  apply Hall, elem_of_seqZ. lia.
Qed.

(** The four bytes put together again. *)
Lemma lba_pieces cur : 0 <= cur < kLbaLimit →
  Z.lor (Z.shiftl (Z.land (Z.shiftr cur 24) 0x0F) 24)
    (Z.lor (Z.shiftl (Z.land (Z.shiftr cur 16) 0xFF) 16) (Z.lor (Z.shiftl (Z.land (Z.shiftr cur 8) 0xFF) 8) (Z.land cur 0xFF))) = cur.
Proof.
  unfold kLbaLimit. intros Hc. change 0xFF with (Z.ones 8). change 0x0F with (Z.ones 4). rewrite !Z.land_ones, !Z.shiftr_div_pow2, !Z.shiftl_mul_pow2 by lia.
  rewrite (lor_low_bits 8 (cur / 2 ^ 8 mod 2 ^ 8 * 2 ^ 8)), (lor_low_bits 16 (cur / 2 ^ 16 mod 2 ^ 8 * 2 ^ 16)),
    (lor_low_bits 24 (cur / 2 ^ 24 mod 2 ^ 4 * 2 ^ 24)); first [lia | by apply Z.mod_mul | Z.div_mod_to_equations; lia].
Qed.

(** A command on an idle drive addresses the sector asked for. *)
Lemma start_command_ready a cur c :
  ata_state_of a = Idle → 0 <= cur < kLbaLimit →
  ∃ a1, start_command a cur c = outb a1 ATA_COMMAND c ∧ ata_state_of a1 = Idle ∧ ata_reg a1 ATA_SECTOR_COUNT = 1 ∧
    Z.land (ata_reg a1 ATA_DRIVE) 0xE0 = 0xE0 ∧ ata_lba a1 = cur ∧ ∀ l, ata_words a1 l = ata_words a l.
Proof.
  intros Ha Hc. unfold start_command.
  assert (∀ a p v, ata_state_of a = Idle → p ∈ task_file → ata_state_of (outb a p v) = Idle) as Hi by (intros; by apply ata_takes_register).
  assert (∀ a p v q, ata_state_of a = Idle → p ∈ task_file → ata_reg (outb a p v) q = if q =? p then v else ata_reg a q) as Hr
    by (intros; by apply ata_takes_register).
  assert (∀ a p v l, ata_state_of a = Idle → p ∈ task_file → ata_words (outb a p v) l = ata_words a l) as Hw by (intros; by apply ata_takes_register).
  assert (∀ p, bool_decide (p ∈ task_file) = true → p ∈ task_file) as Ht by (intros p; apply bool_decide_eq_true).
  destruct (drive_bits (Z.land (Z.shiftr cur 24) 0x0F)) as [Hd1 Hd2].
  { change 0x0F with (Z.ones 4). rewrite Z.land_ones by lia. apply Z.mod_pos_bound. lia. }
  eexists. split; [reflexivity|]. unfold ata_lba.
  repeat (rewrite Hr; [|repeat (apply Hi; [|by apply Ht]); exact Ha|by apply Ht]). cbn [Z.eqb ATA_SECTOR_COUNT ATA_LBA_LOW ATA_LBA_MID ATA_LBA_HIGH ATA_DRIVE Pos.eqb].
  split_and!; [repeat (apply Hi; [|by apply Ht]); exact Ha|done|done| |].
  - rewrite Hd1. by apply lba_pieces.
  - intros l. repeat (rewrite Hw; [|repeat (apply Hi; [|by apply Ht]); exact Ha|by apply Ht]). done.
Qed.

Lemma read_words_all ws : ∀ w a, ata_state_of a = Working 0 (Sending (w :: ws)) →
  ∃ a', read_words (length (w :: ws)) a = (concat (word_bytes <$> (w :: ws)), a') ∧ ata_state_of a' = Idle ∧ ∀ l, ata_words a' l = ata_words a l.
Proof.
  induction ws as [|x ws IH]; intros w a Ha; cbn [length read_words]; pose proof (ata_sends a w _ Ha) as Hs;
    destruct (inw a ATA_DATA) as [w' a1]; destruct Hs as (-> & Hs & Hw); [by exists a1|].
  destruct (IH x a1 Hs) as (a' & E & H1 & H2). cbn [length read_words] in E. rewrite E. exists a'. split_and!; [done|done|].
  intros l. by rewrite H2, Hw.
Qed.

(** The words of a buffer. *)
Fixpoint buffer_words (buf : list Z) : list Z :=
  match buf with lo :: hi :: buf' => Z.lor lo (Z.shiftl hi 8) :: buffer_words buf' | _ => [] end.

Lemma buffer_word lo hi : 0 <= lo < 256 → 0 <= hi < 256 →
  0 <= Z.lor lo (Z.shiftl hi 8) < 65536 ∧ word_bytes (Z.lor lo (Z.shiftl hi 8)) = [lo; hi].
Proof.
  intros Hl Hh. rewrite Z.lor_comm, Z.shiftl_mul_pow2 by lia. rewrite (lor_low_bits 8) by (try lia; by apply Z.mod_mul).
  split; [lia|]. unfold word_bytes. change 0xFF with (Z.ones 8). rewrite !Z.land_ones, Z.shiftr_div_pow2 by lia.
  f_equal; [|f_equal]; Z.div_mod_to_equations; lia.
Qed.

Lemma buffer_words_bytes n : ∀ buf, length buf = (2 * n)%nat → Forall (λ b, 0 <= b < 256) buf →
  length (buffer_words buf) = n ∧ concat (word_bytes <$> buffer_words buf) = buf.
Proof.
  induction n as [|n IH]; intros buf Hl Hb; [by destruct buf|]. destruct buf as [|lo [|hi buf]]; [cbn in Hl; lia..|].
  apply Forall_cons in Hb as [Hlo Hb]. apply Forall_cons in Hb as [Hhi Hb]. destruct (IH buf) as [H1 H2]; [cbn in Hl; lia|done|].
  destruct (buffer_word lo hi Hlo Hhi) as [_ E]. cbn [buffer_words fmap list_fmap concat length]. rewrite E, H1, H2. done.
Qed.

Lemma write_words_all n : ∀ a l ws buf, ata_state_of a = Working 0 (Receiving l ws) → length ws = (255 - n)%nat → Forall (λ w, 0 <= w < 65536) ws → (n <= 255)%nat →
  (2 * S n <= length buf)%nat → Forall (λ b, 0 <= b < 256) buf →
  ∃ a', write_words (S n) a buf = Some (a', drop (2 * S n) buf) ∧ ata_state_of a' = Settling ∧
    ∀ l', ata_words a' l' = if l' =? l then ws ++ buffer_words (take (2 * S n) buf) else ata_words a l'.
Proof.
  induction n as [|n IH]; intros a l ws buf Ha Hws Hwb Hn Hb Hby; (destruct buf as [|lo [|hi buf]]; [cbn in Hb; lia..|]);
    apply Forall_cons in Hby as [Hlo Hby]; apply Forall_cons in Hby as [Hhi Hby]; destruct (buffer_word lo hi Hlo Hhi) as [Hw _].
  - destruct (ata_stores a l ws (Z.lor lo (Z.shiftl hi 8)) Ha ltac:(lia)) as [H1 H2]; [by apply Forall_app_2; [|constructor]|]. by eexists.
  - destruct (ata_receives a l ws _ Ha ltac:(lia) Hw) as [H1 H2]. cbn [write_words].
    destruct (IH _ l (ws ++ [Z.lor lo (Z.shiftl hi 8)]) buf H1) as (a' & E & H3 & H4); [rewrite length_app; cbn; lia|by apply Forall_app_2; [|constructor]|lia|cbn in Hb; lia|done|].
    exists a'. cbn [write_words] in E. rewrite E. replace (2 * S (S n))%nat with (S (S (2 * S n))) by lia. split_and!; [done|done|].
    intros l'. rewrite H4. destruct (l' =? l); [|apply H2]. cbn [take buffer_words]. by rewrite <- app_assoc.
Qed.

(** ** Requests *)

Lemma read_loop_spec n : ∀ a cur, ata_state_of a = Idle → 0 <= cur → cur + Z.of_nat n <= kLbaLimit →
  ∃ a', read_loop n a cur = (true, concat (sector_bytes a <$> seqZ cur (Z.of_nat n)), a') ∧ ata_state_of a' = Idle ∧
    ∀ l, ata_words a' l = ata_words a l.
Proof.
  induction n as [|n IH]; intros a cur Ha Hc Hl; [by exists a|]. cbn [read_loop]. unfold kLbaLimit in *.
  destruct (start_command_ready a cur 0x20 Ha ltac:(unfold kLbaLimit; lia)) as (a1 & -> & H1 & H2 & H3 & H4 & H5).
  destruct (ata_starts_read a1 H1 H2 H3) as (k & Hk & Hs & Hw). rewrite H4, H5 in Hs.
  destruct (wait_data_ready _ k _ Hk Hs) as (a2 & -> & Hs2 & Hw2). cbn [negb].
  pose proof (ata_sector_words a cur) as [Hlen _]. destruct (ata_words a cur) as [|w ws] eqn:Ew; [done|].
  destruct (read_words_all ws w a2 Hs2) as (a3 & E3 & Hs3 & Hw3). rewrite Hlen in E3. rewrite E3.
  destruct (IH a3 (cur +u 1) Hs3) as (a4 & E4 & Hs4 & Hw4); [rewrite u32_small; lia..|]. rewrite E4.
  rewrite (u32_small (cur + 1)) by lia. exists a4.
  assert (∀ l, ata_words a3 l = ata_words a l) as Hsame by (intros l; by rewrite Hw3, Hw2, Hw, H5).
  split_and!; [|done|intros l; by rewrite Hw4].
  rewrite (seqZ_cons cur) by lia. cbn [fmap list_fmap concat]. unfold sector_bytes at 2. rewrite Ew.
  f_equal. f_equal. f_equal. replace (Z.succ cur) with (cur + 1) by lia. replace (Z.pred (Z.of_nat (S n))) with (Z.of_nat n) by lia.
  f_equal. apply list_fmap_ext. intros i l _. unfold sector_bytes. by rewrite Hsame.
Qed.

Lemma write_loop_spec (Hp : prompt A) n : ∀ a cur data, ata_state_of a = Idle → 0 <= cur → cur + Z.of_nat n <= kLbaLimit →
  length data = (512 * n)%nat → Forall (λ b, 0 <= b < 256) data →
  ∃ a', write_loop n a cur data = Some (true, a') ∧ ata_state_of a' = Idle ∧
    concat (sector_bytes a' <$> seqZ cur (Z.of_nat n)) = data ∧
    ∀ l, l < cur ∨ cur + Z.of_nat n <= l → ata_words a' l = ata_words a l.
Proof.
  induction n as [|n IH]; intros a cur data Ha Hc Hl Hd Hby; [exists a; by destruct data|]. cbn [write_loop]. unfold kLbaLimit in *.
  destruct (start_command_ready a cur 0x30 Ha ltac:(unfold kLbaLimit; lia)) as (a1 & -> & H1 & H2 & H3 & H4 & H5).
  destruct (ata_starts_write a1 H1 H2 H3) as (k & Hk & Hs & Hw). rewrite H4 in Hs.
  destruct (wait_data_ready _ k _ Hk Hs) as (a2 & -> & Hs2 & Hw2). cbn [negb].
  destruct (write_words_all 255 a2 cur [] data Hs2 eq_refl (Forall_nil_2 _) ltac:(lia) ltac:(lia) Hby) as (a3 & -> & Hs3 & Hw3). cbn [mbind option_bind].
  change (2 * 256)%nat with 512%nat in *. destruct (ata_flushes a3 Hs3) as [_ Hw4]. pose proof (Hp a3 Hs3) as Hs4.
  assert (Forall (λ b, 0 <= b < 256) (take 512 data) ∧ Forall (λ b, 0 <= b < 256) (drop 512 data)) as [Hb1 Hb2]
    by (split; [by apply Forall_take|by apply Forall_drop]).
  destruct (IH _ (cur +u 1) (drop 512 data) Hs4) as (a5 & E5 & Hs5 & Hr5 & Hf5); [rewrite u32_small; lia..|rewrite length_drop; lia|done|].
  rewrite (u32_small (cur + 1)) in * by lia. exists a5. split_and!; [done|done| |].
  - rewrite (seqZ_cons cur) by lia. cbn [fmap list_fmap concat]. replace (Z.succ cur) with (cur + 1) by lia.
    replace (Z.pred (Z.of_nat (S n))) with (Z.of_nat n) by lia. rewrite Hr5. unfold sector_bytes. rewrite Hf5, Hw4, Hw3, Z.eqb_refl by lia.
    cbn [app]. rewrite (proj2 (buffer_words_bytes 256 (take 512 data) ltac:(rewrite length_take; lia) Hb1)). apply take_drop.
  - intros l Hl'. rewrite Hf5, Hw4, Hw3, (proj2 (Z.eqb_neq l cur)), Hw2, Hw, H5 by lia. done.
Qed.

(** C34: the IDE driver stores and loads sectors.  On an idle drive that
    behaves as ATA says and settles promptly, a write of [count] sectors within
    the 28-bit addresses succeeds and changes no other sector, and reading the
    same sectors afterwards returns the bytes that were written. *)
Theorem ide_roundtrip a lba count data :
  prompt A → ata_state_of a = Idle → 0 <= lba → 0 <= count → lba + count <= kLbaLimit →
  Z.of_nat (length data) = 512 * count → Forall (λ b, 0 <= b < 256) data →
  ∃ a1, ide_write_sectors a lba data count = Some (true, a1) ∧ ata_state_of a1 = Idle ∧
    (∀ l, l < lba ∨ lba + count <= l → sector_bytes a1 l = sector_bytes a l) ∧
    ∃ a2, ide_read_sectors a1 lba count = (true, data, a2) ∧ ata_state_of a2 = Idle ∧ ∀ l, sector_bytes a2 l = sector_bytes a1 l.
Proof.
  intros Hp Ha Hl Hc Hlim Hd Hby.
  destruct (write_loop_spec Hp (Z.to_nat count) a lba data Ha Hl ltac:(lia) ltac:(lia) Hby) as (a1 & E1 & Hs1 & Hr1 & Hf1).
  destruct (read_loop_spec (Z.to_nat count) a1 lba Hs1 Hl ltac:(lia)) as (a2 & E2 & Hs2 & Hw2).
  exists a1. split_and!; [exact E1|done|intros l Hl'; unfold sector_bytes; rewrite Hf1; [done|lia]|].
  exists a2. split_and!; [unfold ide_read_sectors; by rewrite E2, Hr1|done|]. intros l. unfold sector_bytes. by rewrite Hw2.
Qed.
End spec.

(** ** A drive

    Sectors in a finite map; [latency] is how long a command takes, and a drive
    that is not [quick] is still settling when the flush arrives. *)

Record drive (quick : bool) := mk_drive {
  d_state : ata_state;
  d_regs : gmap Z Z;
  d_sectors : gmap Z (list Z);
  d_latency : nat;
}.
Arguments mk_drive {quick}. Arguments d_state {quick}. Arguments d_regs {quick}. Arguments d_sectors {quick}. Arguments d_latency {quick}.

Definition blank_words : list Z := replicate 256 0.
Definition as_words (ws : list Z) : list Z := if decide (length ws = 256%nat ∧ Forall (λ w, 0 <= w < 65536) ws) then ws else blank_words.

Section drives.
Context {quick : bool}.
Implicit Type d : drive quick.

Definition reg d (p : Z) : Z := default 0 (d_regs d !! p).
Definition words d (l : Z) : list Z := as_words (default blank_words (d_sectors d !! l)).
Definition drive_lba d : Z :=
  Z.lor (Z.shiftl (Z.land (reg d ATA_DRIVE) 0x0F) 24)
    (Z.lor (Z.shiftl (reg d ATA_LBA_HIGH) 16) (Z.lor (Z.shiftl (reg d ATA_LBA_MID) 8) (reg d ATA_LBA_LOW))).
Definition go d (st : ata_state) : drive quick := mk_drive st (d_regs d) (d_sectors d) (d_latency d).

Definition drive_outb d (p v : Z) : drive quick :=
  match d_state d with
  | Idle =>
      if bool_decide (p ∈ task_file) then mk_drive Idle (<[p := v]> (d_regs d)) (d_sectors d) (d_latency d)
      else if (p =? ATA_COMMAND) && (v =? 0x20) then go d (Working (d_latency d `min` Nat.pred kPolls) (Sending (words d (drive_lba d))))
      else if (p =? ATA_COMMAND) && (v =? 0x30) then go d (Working (d_latency d `min` Nat.pred kPolls) (Receiving (drive_lba d) []))
      else d
  | Settling => if (p =? ATA_COMMAND) && (v =? 0xE7) && quick then go d Idle else d
  | Working _ _ => d
  end.

Definition drive_inb d (p : Z) : Z * drive quick :=
  match d_state d with
  | Idle => (0x50, d)
  | Working (S n) t => (0xD0, go d (Working n t))
  | Working O t => (0x58, d)
  | Settling => (0xD0, go d Idle)
  end.

Definition drive_inw d (p : Z) : Z * drive quick :=
  match d_state d with
  | Working O (Sending (w :: ws)) => (w, go d (match ws with [] => Idle | _ => Working 0 (Sending ws) end))
  | _ => (0xFFFF, d)
  end.

Definition drive_outw d (p w : Z) : drive quick :=
  match d_state d with
  | Working O (Receiving l ws) =>
      if bool_decide (length ws = 255%nat) then mk_drive Settling (d_regs d) (<[l := ws ++ [w]]> (d_sectors d)) (d_latency d)
      else go d (Working 0 (Receiving l (ws ++ [w])))
  | _ => d
  end.

#[export] Instance drive_ports : AtaPorts (drive quick) := {| outb := drive_outb; inb := drive_inb; inw := drive_inw; outw := drive_outw |}.

Lemma if_cases {T} (b : bool) (x y : T) : (if b then x else y) = x ∨ (if b then x else y) = y.
Proof. destruct b; auto. Qed.

Lemma kPolls_pos : (0 < kPolls)%nat.
Proof. unfold kPolls. lia. Qed.

#[export] Program Instance drive_laws : AtaLaws (drive quick) := {|
  ata_state_of := d_state; ata_reg := reg; ata_words := words;
|}.
Next Obligation.
  intros d l. unfold words, as_words. destruct (decide _) as [?|_]; [done|]. split; [done|]. apply Forall_replicate. lia.
Qed.
Next Obligation.
  intros d p v Hi Hp. cbn. unfold drive_outb. rewrite Hi, bool_decide_eq_true_2 by done. split_and!; [done| |done].
  intros q. unfold reg. cbn [d_regs]. destruct (q =? p) eqn:E; zbool; [subst; by rewrite lookup_insert_eq|by rewrite lookup_insert_ne].
Qed.
Next Obligation.
  intros d Hi _ _. cbn. exists (d_latency d `min` Nat.pred kPolls)%nat. pose proof kPolls_pos. split; [lia|]. unfold drive_outb. rewrite Hi. done.
Qed.
Next Obligation.
  intros d Hi _ _. cbn. exists (d_latency d `min` Nat.pred kPolls)%nat. pose proof kPolls_pos. split; [lia|]. unfold drive_outb. rewrite Hi. done.
Qed.
Next Obligation.
  intros d n t Hs. cbn. unfold drive_inb. rewrite Hs. destruct n as [|n]; [done|]. cbn. rewrite Nat.sub_0_r. done.
Qed.
Next Obligation.
  intros d w ws Hs. cbn. unfold drive_inw. by rewrite Hs.
Qed.
Next Obligation.
  intros d l ws w Hs Hl _. cbn. unfold drive_outw. rewrite Hs, bool_decide_eq_false_2 by lia. done.
Qed.
Next Obligation.
  intros d l ws w Hs Hl Hb. cbn. unfold drive_outw. rewrite Hs, bool_decide_eq_true_2 by done. split; [done|]. intros l'. unfold words. cbn [d_sectors].
  destruct (l' =? l) eqn:E; zbool; [subst; rewrite lookup_insert_eq|by rewrite lookup_insert_ne].
  cbn [default from_option]. unfold id, as_words. rewrite decide_True; [done|]. split; [rewrite length_app; cbn; lia|done].
Qed.
Next Obligation.
  intros d Hs. cbn. unfold drive_outb. rewrite Hs. cbn. destruct (if_cases quick (go d Idle) d) as [->| ->]; [by split; [right|]|split; [by left|done]].
Qed.
End drives.

Lemma quick_prompt : prompt (drive true).
Proof. intros d Hs. cbn. unfold drive_outb. cbn in Hs. by rewrite Hs. Qed.

Definition demo_drive (quick : bool) : drive quick := mk_drive Idle ∅ ∅ 3.
Definition demo_sectors : list Z := replicate 512 7 ++ replicate 512 9.

Lemma ide_roundtrip_witness :
  ∃ d1, ide_write_sectors (demo_drive true) 300 demo_sectors 2 = Some (true, d1) ∧
    ∃ d2, ide_read_sectors d1 300 2 = (true, demo_sectors, d2) ∧ ata_state_of d2 = Idle.
Proof.
  destruct (ide_roundtrip (demo_drive true) 300 2 demo_sectors quick_prompt eq_refl) as (d1 & E1 & _ & _ & d2 & E2 & H2 & _);
    [lia|lia|vm_compute; congruence|reflexivity|apply (bool_decide_unpack _); vm_compute; exact I|].
  exists d1. split; [exact E1|]. exists d2. split; [exact E2|exact H2].
Defined.

(** On a drive that is still settling when the flush command comes, the
    command for the second sector is lost, and the write times out. *)
Lemma slow_drive_fails :
  match ide_write_sectors (demo_drive false) 300 demo_sectors 2 with
  | Some (ok, d) => ok = false ∧ sector_bytes d 300 = replicate 512 7 ∧ sector_bytes d 301 = replicate 512 0
  | None => False
  end.
Proof. vm_compute. split_and!; reflexivity. Qed.

(** Addresses have 28 bits: sector 2^28 is sector 0. *)
Lemma ide_address_wraps :
  match ide_write_sectors (demo_drive true) kLbaLimit (replicate 512 7) 1 with
  | Some (ok, d) => ok = true ∧ sector_bytes d 0 = replicate 512 7
  | None => False
  end.
Proof. vm_compute. split; reflexivity. Qed.
