(* ===== verification/UsbStorage.v ===== *)
(** * USB mass storage ([kernel/usb_mass_storage.cpp])

    SCSI commands over the bulk-only transport.  The host controller is the
    class [Bulk]: its initialisation, the search for a device, and bulk
    transfers in both directions. *)

From S2P Require Import Prelude CText Serial Bytes Block.

Definition kCbwSignature : Z := 0x43425355.
Definition kCswSignature : Z := 0x53425355.

(** [bulk_in] gives what the buffer of the given length holds afterwards. *)
Class Bulk (X : Type) := {
  xhci_init : X → bool * X;
  get_mass_storage_device : X → bool * X;
  bulk_out : X → list Z → bool * X;
  bulk_in : X → Z → bool * list Z * X;
}.

Record Cbw := mk_cbw { cbw_tag : Z; cbw_data_len : Z; cbw_flags : Z; cbw_cb_len : Z; cbw_cb : list Z }.

(** The 31 bytes of a packed [Cbw]; the logical unit is 0. *)
Definition cbw_bytes (c : Cbw) : list Z :=
  le32 kCbwSignature ++ le32 (cbw_tag c) ++ le32 (cbw_data_len c) ++ [u8 (cbw_flags c); 0; u8 (cbw_cb_len c)] ++ cbw_cb c.

(** [cdb] copied into the 16 zeroed bytes of [cb]. *)
Definition cb_of (cdb : list Z) : list Z := take 16 cdb ++ replicate (16 - length (take 16 cdb)) 0.

Section usbms.
Context {X : Type} `{Bulk X}.

Record usbms := mk_usbms {
  um_x : X;
  um_tx : serial;
  g_tag : Z;
  g_initialized : bool;
  g_block_size : Z;
  g_block_count : Z;
}.

Definition with_x (s : usbms) (x : X) : usbms := mk_usbms x (um_tx s) (g_tag s) (g_initialized s) (g_block_size s) (g_block_count s).
Definition report (s : usbms) (t : string) : usbms :=
  mk_usbms (um_x s) (Serial.write (um_tx s) (Some (txt t ++ ["010"%char]))) (g_tag s) (g_initialized s) (g_block_size s) (g_block_count s).
Definition next_tag (s : usbms) : usbms :=
  mk_usbms (um_x s) (um_tx s) (g_tag s +u 1) (g_initialized s) (g_block_size s) (g_block_count s).

(** The data stage: bytes for the device, or room for bytes from it. *)
Inductive data_stage := DataOut (bs : list Z) | DataIn (n : Z).
Definition data_len (d : data_stage) : Z := match d with DataOut bs => Z.of_nat (length bs) | DataIn n => n end.
Definition dir_in (d : data_stage) : bool := match d with DataOut _ => false | DataIn _ => true end.

Definition data_transfer (s : usbms) (d : data_stage) : bool * list Z * usbms :=
  if 0 <? data_len d then
    match d with
    | DataIn n =>
        let '(ok, bs, x) := bulk_in (um_x s) n in
        if ok then (true, bs, with_x s x) else (false, bs, report (with_x s x) "usbms: data IN failed")
    | DataOut bs =>
        let '(ok, x) := bulk_out (um_x s) bs in
        if ok then (true, [], with_x s x) else (false, [], report (with_x s x) "usbms: data OUT failed")
    end
  else (true, [], s).

(** Success and the bytes of the data stage. *)
Definition scsi_xfer (s : usbms) (cdb : list Z) (d : data_stage) : bool * list Z * usbms :=
  let cbw := mk_cbw (g_tag s) (data_len d) (if dir_in d then 0x80 else 0) (Z.of_nat (length cdb)) (cb_of cdb) in
  let s := next_tag s in
  let '(ok, x) := bulk_out (um_x s) (cbw_bytes cbw) in
  let s := with_x s x in
  if negb ok then (false, [], report s "usbms: CBW send failed")
  else
    let '(ok, bs, s) := data_transfer s d in
    if negb ok then (false, bs, s)
    else
      let '(ok, csw, x) := bulk_in (um_x s) 13 in
      let s := with_x s x in
      if negb ok then (false, bs, report s "usbms: CSW read failed")
      else if negb (word32 csw 0 =? kCswSignature) || negb (word32 csw 4 =? cbw_tag cbw) || negb (zget csw 12 =? 0) then
        (false, bs, report s "usbms: CSW invalid")
      else (true, bs, s).

Definition be32 (buf : list Z) (off : Z) : Z :=
  Z.lor (Z.shiftl (zget buf off) 24) (Z.lor (Z.shiftl (zget buf (off + 1)) 16) (Z.lor (Z.shiftl (zget buf (off + 2)) 8) (zget buf (off + 3)))).

(** READ(10) and WRITE(10). *)
Definition rw_cdb (opcode lba chunk : Z) : list Z :=
  [opcode; 0; Z.land (Z.shiftr lba 24) 0xFF; Z.land (Z.shiftr lba 16) 0xFF; Z.land (Z.shiftr lba 8) 0xFF; Z.land lba 0xFF; 0;
   Z.land (Z.shiftr chunk 8) 0xFF; Z.land chunk 0xFF; 0].

Definition chunk_of (remaining : Z) : Z := if 32 <? remaining then 32 else remaining.

(** [read_sectors]: success and the bytes stored.  Every turn takes at least
    one sector, so [count] turns are enough. *)
Fixpoint read_chunks (turns : nat) (s : usbms) (remaining cur_lba : Z) (out : list Z) : bool * list Z * usbms :=
  match turns with
  | O => (true, out, s)
  | S turns' =>
      if remaining =? 0 then (true, out, s)
      else
        let chunk := chunk_of remaining in
        let '(ok, bs, s) := scsi_xfer s (rw_cdb 0x28 cur_lba chunk) (DataIn (chunk *u 512)) in
        if negb ok then (false, out ++ bs, s)
        else read_chunks turns' s (remaining -u chunk) (u64 (cur_lba + chunk)) (out ++ bs)
  end.

Definition usb_read_sectors (s : usbms) (lba : Z) (buf_null : bool) (count : Z) : bool * list Z * usbms :=
  if negb (g_initialized s) || buf_null || (count =? 0) then (false, [], s)
  else if negb (g_block_size s =? 512) then (false, [], report s "usbms: unsupported block size")
  else read_chunks (Z.to_nat count) s count lba [].

(** The reading function of the registered block device: its command block
    has neither an address nor a length. *)
Fixpoint wrapper_read (turns : nat) (s : usbms) (remaining cur : Z) (out : list Z) : bool * list Z * usbms :=
  match turns with
  | O => (true, out, s)
  | S turns' =>
      if remaining =? 0 then (true, out, s)
      else
        let chunk := chunk_of remaining in
        let '(ok, bs, s) := scsi_xfer s [0x28; 0; 0; 0; 0; 0; 0; 0; 0; 0] (DataIn (chunk *u g_block_size s)) in
        if negb ok then (false, out ++ bs, s)
        else wrapper_read turns' s (remaining -u chunk) (u64 (cur + chunk)) (out ++ bs)
  end.
Definition usb_read_wrapper (s : usbms) (lba count : Z) : bool * list Z * usbms := wrapper_read (Z.to_nat count) s count lba [].

Fixpoint wrapper_write (turns : nat) (s : usbms) (remaining cur : Z) (buf : list Z) : bool * usbms :=
  match turns with
  | O => (true, s)
  | S turns' =>
      if remaining =? 0 then (true, s)
      else
        let chunk := chunk_of remaining in
        let bytes := Z.to_nat (chunk *u g_block_size s) in
        let '(ok, _, s) := scsi_xfer s (rw_cdb 0x2A cur chunk) (DataOut (take bytes buf)) in
        if negb ok then (false, s)
        else wrapper_write turns' s (remaining -u chunk) (u64 (cur + chunk)) (drop bytes buf)
  end.
Definition usb_write_wrapper (s : usbms) (lba : Z) (buf : list Z) (count : Z) : bool * usbms := wrapper_write (Z.to_nat count) s count lba buf.

Definition present (s : usbms) : bool := g_initialized s.

(** READ CAPACITY(10); the size stays as it was when it fails. *)
Definition read_capacity (s : usbms) : usbms :=
  let '(ok, cap, s) := scsi_xfer s [0x25; 0; 0; 0; 0; 0; 0; 0; 0; 0] (DataIn 8) in
  if ok then mk_usbms (um_x s) (um_tx s) (g_tag s) (g_initialized s) (be32 cap 4) (be32 cap 0 + 1) else s.

(** The result, and the device given to [block_register_device]. *)
Definition init (s : usbms) : bool * option BlockDevice * usbms :=
  let '(ok, x) := xhci_init (um_x s) in
  let s := with_x s x in
  if negb ok then (false, None, report s "usbms: xHCI init failed")
  else
    let '(ok, x) := get_mass_storage_device (um_x s) in
    let s := with_x s x in
    if negb ok then (false, None, report s "usbms: no mass-storage device")
    else
      let s := read_capacity s in
      let s := mk_usbms (um_x s) (um_tx s) (g_tag s) true (if g_block_size s =? 0 then 512 else g_block_size s) (g_block_count s) in
      let s := report s "usbms: initialized" in
      (true, Some (mk_device (Some (txt "usbms0")) (g_block_size s) (g_block_count s) true true), s).
End usbms.
