(* ===== verification/UsbStorageSpec.v ===== *)
(** * What the mass-storage driver does on a SCSI disk *)

From S2P Require Import Prelude CText Serial Bytes Block BlockSpec RamDisk UsbStorage.

(** The fields a device finds in a command block wrapper. *)
Definition cbw_lba (cbw : list Z) : Z := be32 cbw 17.
Definition cbw_blocks (cbw : list Z) : Z := 256 * zget cbw 22 + zget cbw 23.
Definition command (cbw : list Z) (opcode flags : Z) : Prop :=
  length cbw = 31%nat ∧ word32 cbw 0 = kCbwSignature ∧ zget cbw 12 = flags ∧ zget cbw 15 = opcode ∧ 0 < cbw_blocks cbw ∧
  word32 cbw 8 = 512 * cbw_blocks cbw.

(** The status a device sends for a command that succeeded. *)
Definition good_status (cbw : list Z) : list Z := le32 kCswSignature ++ le32 (word32 cbw 4) ++ le32 0 ++ [0].

(** A disk behind the transport: a READ(10) or WRITE(10) of whole blocks is
    answered with its data stage and a good status. *)
Class ScsiDisk (X : Type) `{Bulk X} := {
  sd_idle : X → Prop;
  sd_block : X → Z → list Z;
  sd_block_size x l : length (sd_block x l) = 512%nat;
  sd_reads x cbw : sd_idle x → command cbw 0x28 0x80 →
    ∃ x1 x2 x3, bulk_out x cbw = (true, x1) ∧
      bulk_in x1 (512 * cbw_blocks cbw) = (true, concat (sd_block x <$> seqZ (cbw_lba cbw) (cbw_blocks cbw)), x2) ∧
      bulk_in x2 13 = (true, good_status cbw, x3) ∧ sd_idle x3 ∧ ∀ l, sd_block x3 l = sd_block x l;
  sd_writes x cbw data : sd_idle x → command cbw 0x2A 0 → Z.of_nat (length data) = 512 * cbw_blocks cbw → Forall (λ b, 0 <= b < 256) data →
    ∃ x1 x2 x3, bulk_out x cbw = (true, x1) ∧ bulk_out x1 data = (true, x2) ∧
      bulk_in x2 13 = (true, good_status cbw, x3) ∧ sd_idle x3 ∧
      concat (sd_block x3 <$> seqZ (cbw_lba cbw) (cbw_blocks cbw)) = data ∧
      ∀ l, l < cbw_lba cbw ∨ cbw_lba cbw + cbw_blocks cbw <= l → sd_block x3 l = sd_block x l;
}.

Section spec.
Context {X : Type} `{SD : ScsiDisk X}.
Abbreviation usbms := (@usbms X).
Implicit Type s : usbms.

Definition tag_ok s : Prop := 0 <= g_tag s < 4294967296.

(** ** The wrapper the driver builds *)

Definition rw_cbw s (opcode flags lba chunk : Z) : list Z :=
  cbw_bytes (mk_cbw (g_tag s) (512 * chunk) flags 10 (cb_of (rw_cdb opcode lba chunk))).

Lemma be32_value a b c d : 0 <= a < 256 → 0 <= b < 256 → 0 <= c < 256 → 0 <= d < 256 →
  Z.lor (Z.shiftl a 24) (Z.lor (Z.shiftl b 16) (Z.lor (Z.shiftl c 8) d)) = 16777216 * a + 65536 * b + 256 * c + d.
Proof.
  intros. rewrite !Z.shiftl_mul_pow2 by lia.
  rewrite (lor_low_bits 8 (c * 2 ^ 8)), (lor_low_bits 16 (b * 2 ^ 16)), (lor_low_bits 24 (a * 2 ^ 24)); first [lia | by apply Z.mod_mul].
Qed.

Lemma rw_cbw_fields s opcode flags lba chunk :
  tag_ok s → 0 <= opcode < 256 → 0 <= flags < 256 → 0 <= lba < 4294967296 → 0 < chunk <= 32 →
  let cbw := rw_cbw s opcode flags lba chunk in
  command cbw opcode flags ∧ cbw_lba cbw = lba ∧ cbw_blocks cbw = chunk ∧ word32 cbw 4 = g_tag s.
Proof.
  intros Ht Ho Hf Hl Hc cbw. unfold tag_ok in Ht.
  assert (∀ n, 0 <= n → Z.land (Z.shiftr lba n) 0xFF = lba / 2 ^ n mod 256) as Hb.
  { intros n Hn. change 0xFF with (Z.ones 8). by rewrite Z.land_ones, Z.shiftr_div_pow2 by lia. }
  assert (cbw_blocks cbw = chunk) as Hblocks.
  { change (cbw_blocks cbw) with (256 * Z.land (Z.shiftr chunk 8) 0xFF + Z.land chunk 0xFF). change 0xFF with (Z.ones 8).
    rewrite !Z.land_ones, Z.shiftr_div_pow2 by lia. rewrite (Z.div_small chunk) by lia. rewrite (Z.mod_small chunk) by lia. done. }
  assert (word32 cbw 4 = g_tag s) as Htag by (apply (word32_le32 (le32 kCbwSignature)); lia).
  assert (word32 cbw 8 = 512 * chunk) as Hlen by (apply (word32_le32 (le32 kCbwSignature ++ le32 (g_tag s))); lia).
  split_and!; [|..|done].
  - split_and!; [done|apply (word32_le32 []); unfold kCbwSignature; lia|by apply u8_small|done|lia|by rewrite Hblocks].
  - change (cbw_lba cbw) with (Z.lor (Z.shiftl (Z.land (Z.shiftr lba 24) 0xFF) 24) (Z.lor (Z.shiftl (Z.land (Z.shiftr lba 16) 0xFF) 16)
      (Z.lor (Z.shiftl (Z.land (Z.shiftr lba 8) 0xFF) 8) (Z.land lba 0xFF)))).
    rewrite !Hb by lia. change (Z.land lba 0xFF) with (Z.land lba (Z.ones 8)). rewrite Z.land_ones by lia.
    rewrite be32_value by (apply Z.mod_pos_bound; lia). change (2 ^ 24) with 16777216. change (2 ^ 16) with 65536. change (2 ^ 8) with 256.
    Z.div_mod_to_equations. lia.
  - done.
Qed.

(** ** One command *)

Record ready s : Prop := {
  rd_tag : tag_ok s;
  rd_idle : sd_idle (um_x s);
  rd_size : g_block_size s = 512;
  rd_init : g_initialized s = true;
}.

Definition sectors_of s (lba n : Z) : list Z := concat (sd_block (um_x s) <$> seqZ lba n).

Lemma status_good s opcode flags lba chunk :
  tag_ok s → 0 <= opcode < 256 → 0 <= flags < 256 → 0 <= lba < 4294967296 → 0 < chunk <= 32 →
  let csw := good_status (rw_cbw s opcode flags lba chunk) in
  negb (word32 csw 0 =? kCswSignature) || negb (word32 csw 4 =? g_tag s) || negb (zget csw 12 =? 0) = false.
Proof.
  intros Ht Ho Hf Hl Hc csw. destruct (rw_cbw_fields s opcode flags lba chunk Ht Ho Hf Hl Hc) as (_ & _ & _ & Htag).
  assert (word32 csw 0 = kCswSignature) as -> by (apply (word32_le32 []); unfold kCswSignature; lia).
  assert (word32 csw 4 = g_tag s) as ->.
  { unfold csw, good_status. rewrite Htag. apply (word32_le32 (le32 kCswSignature)). unfold tag_ok in Ht. lia. }
  rewrite !Z.eqb_refl. done.
Qed.

Lemma xfer_reads s lba chunk :
  ready s → 0 <= lba → lba + chunk <= 4294967296 → 0 < chunk <= 32 →
  ∃ s', scsi_xfer s (rw_cdb 0x28 lba chunk) (DataIn (512 * chunk)) = (true, sectors_of s lba chunk, s') ∧ ready s' ∧
    ∀ l, sd_block (um_x s') l = sd_block (um_x s) l.
Proof.
  intros Hr Hl Hlim Hc. pose proof Hr as [Ht Hi _ _].
  destruct (rw_cbw_fields s 0x28 0x80 lba chunk Ht ltac:(lia) ltac:(lia) ltac:(lia) Hc) as (Hcmd & Hlba & Hn & _).
  destruct (sd_reads (um_x s) _ Hi Hcmd) as (x1 & x2 & x3 & E1 & E2 & E3 & Hx & Hb). rewrite Hlba, Hn in E2.
  exists (with_x (with_x (with_x (next_tag s) x1) x2) x3). split_and!; [|destruct Hr; split; [apply u32_range|done..]|done].
  unfold scsi_xfer. cbn [data_len dir_in]. change (Z.of_nat (length (rw_cdb 0x28 lba chunk))) with 10.
  change (um_x (next_tag s)) with (um_x s). change (cbw_bytes _) with (rw_cbw s 0x28 0x80 lba chunk). rewrite E1. cbn [negb].
  unfold data_transfer. cbn [data_len]. rewrite (proj2 (Z.ltb_lt 0 _)) by lia.
  change (um_x (with_x (next_tag s) x1)) with x1. rewrite E2. cbn [negb].
  change (um_x (with_x (with_x (next_tag s) x1) x2)) with x2. rewrite E3. cbn [negb cbw_tag].
  by rewrite (status_good s 0x28 0x80 lba chunk Ht) by lia.
Qed.

Lemma xfer_writes s lba chunk data :
  ready s → 0 <= lba → lba + chunk <= 4294967296 → 0 < chunk <= 32 → Z.of_nat (length data) = 512 * chunk → Forall (λ b, 0 <= b < 256) data →
  ∃ bs s', scsi_xfer s (rw_cdb 0x2A lba chunk) (DataOut data) = (true, bs, s') ∧ ready s' ∧ sectors_of s' lba chunk = data ∧
    ∀ l, l < lba ∨ lba + chunk <= l → sd_block (um_x s') l = sd_block (um_x s) l.
Proof.
  intros Hr Hl Hlim Hc Hd Hby. pose proof Hr as [Ht Hi _ _].
  destruct (rw_cbw_fields s 0x2A 0 lba chunk Ht ltac:(lia) ltac:(lia) ltac:(lia) Hc) as (Hcmd & Hlba & Hn & _).
  destruct (sd_writes (um_x s) _ data Hi Hcmd ltac:(by rewrite Hn) Hby) as (x1 & x2 & x3 & E1 & E2 & E3 & Hx & Hb & Hf). rewrite Hlba, Hn in Hb, Hf.
  exists [], (with_x (with_x (with_x (next_tag s) x1) x2) x3). split_and!; [|destruct Hr; split; [apply u32_range|done..]|done|done].
  unfold scsi_xfer. cbn [data_len dir_in]. change (Z.of_nat (length (rw_cdb 0x2A lba chunk))) with 10. rewrite Hd.
  change (um_x (next_tag s)) with (um_x s). change (cbw_bytes _) with (rw_cbw s 0x2A 0 lba chunk). rewrite E1. cbn [negb].
  unfold data_transfer. cbn [data_len]. rewrite Hd, (proj2 (Z.ltb_lt 0 _)) by lia.
  change (um_x (with_x (next_tag s) x1)) with x1. rewrite E2. cbn [negb].
  change (um_x (with_x (with_x (next_tag s) x1) x2)) with x2. rewrite E3. cbn [negb cbw_tag].
  by rewrite (status_good s 0x2A 0 lba chunk Ht) by lia.
Qed.

(** ** Requests *)

Lemma chunk_bounds r : 0 < r → 0 < chunk_of r <= 32 ∧ chunk_of r <= r.
Proof. intros. unfold chunk_of. destruct (32 <? r) eqn:E; zbool; lia. Qed.

Lemma seqZ_app_concat {A} (f : Z → list A) lba n m : 0 <= n → 0 <= m →
  concat (f <$> seqZ lba (n + m)) = concat (f <$> seqZ lba n) ++ concat (f <$> seqZ (lba + n) m).
Proof. intros. rewrite seqZ_app by lia. by rewrite fmap_app, concat_app. Qed.

Lemma read_chunks_spec turns : ∀ s remaining lba out,
  ready s → 0 <= lba → 0 <= remaining <= Z.of_nat turns → lba + remaining <= 4294967296 →
  ∃ s', read_chunks turns s remaining lba out = (true, out ++ sectors_of s lba remaining, s') ∧ ready s' ∧
    ∀ l, sd_block (um_x s') l = sd_block (um_x s) l.
Proof.
  induction turns as [|turns IH]; intros s remaining lba out Hr Hl Hrem Hlim; cbn [read_chunks].
  { replace remaining with 0 by lia. exists s. split_and!; [|done|done]. unfold sectors_of. cbn. by rewrite app_nil_r. }
  destruct (remaining =? 0) eqn:E; zbool.
  { subst. exists s. split_and!; [|done|done]. unfold sectors_of. cbn. by rewrite app_nil_r. }
  destruct (chunk_bounds remaining ltac:(lia)) as [Hc1 Hc2]. set (c := chunk_of remaining) in *.
  rewrite (u32_small (c * 512)) by lia. replace (c * 512) with (512 * c) by lia.
  destruct (xfer_reads s lba c Hr Hl ltac:(lia) Hc1) as (s1 & -> & Hr1 & Hb1). cbn [negb].
  rewrite u32_small by lia. unfold u64. rewrite Z.mod_small by lia.
  destruct (IH s1 (remaining - c) (lba + c) (out ++ sectors_of s lba c) Hr1) as (s2 & -> & Hr2 & Hb2); [lia..|].
  exists s2. split_and!; [|done|intros l; by rewrite Hb2]. rewrite <- app_assoc. unfold sectors_of. do 3 f_equal.
  replace remaining with (c + (remaining - c)) at 2 by lia. rewrite seqZ_app_concat by lia. do 2 f_equal.
  apply list_fmap_ext. intros i l _. apply Hb1.
Qed.

Lemma write_chunks_spec turns : ∀ s remaining lba data,
  ready s → 0 <= lba → 0 <= remaining <= Z.of_nat turns → lba + remaining <= 4294967296 → Z.of_nat (length data) = 512 * remaining →
  Forall (λ b, 0 <= b < 256) data →
  ∃ s', wrapper_write turns s remaining lba data = (true, s') ∧ ready s' ∧ sectors_of s' lba remaining = data ∧
    ∀ l, l < lba ∨ lba + remaining <= l → sd_block (um_x s') l = sd_block (um_x s) l.
Proof.
  induction turns as [|turns IH]; intros s remaining lba data Hr Hl Hrem Hlim Hd Hby; cbn [wrapper_write].
  { replace remaining with 0 in * by lia. exists s. destruct data; done. }
  destruct (remaining =? 0) eqn:E; zbool; [subst; exists s; by destruct data|].
  destruct (chunk_bounds remaining ltac:(lia)) as [Hc1 Hc2]. set (c := chunk_of remaining) in *.
  rewrite (rd_size s Hr), (u32_small (c * 512)) by lia.
  destruct (xfer_writes s lba c (take (Z.to_nat (c * 512)) data) Hr Hl ltac:(lia) Hc1) as (bs & s1 & -> & Hr1 & Hs1 & Hf1); [rewrite length_take; lia|by apply Forall_take|]. cbn [negb].
  rewrite u32_small by lia. unfold u64. rewrite Z.mod_small by lia.
  destruct (IH s1 (remaining - c) (lba + c) (drop (Z.to_nat (c * 512)) data) Hr1) as (s2 & -> & Hr2 & Hs2 & Hf2); [lia..|rewrite length_drop; lia|by apply Forall_drop|].
  exists s2. split_and!; [done|done| |intros l Hl'; rewrite Hf2, Hf1 by lia; done].
  unfold sectors_of in *. replace remaining with (c + (remaining - c)) by lia. rewrite seqZ_app_concat, Hs2 by lia.
  rewrite <- (take_drop (Z.to_nat (c * 512)) data) at 2. f_equal. rewrite <- Hs1. f_equal. apply list_fmap_ext.
  intros i l Hi. apply lookup_seqZ in Hi as [-> Hi]. apply Hf2. lia.
Qed.

End spec.

(** The reading function of the registered device does not look at the
    address. *)
Lemma wrapper_ignores_address {X} `{Bulk X} turns : ∀ (s : @usbms X) remaining lba lba' out,
  wrapper_read turns s remaining lba out = wrapper_read turns s remaining lba' out.
Proof.
  induction turns as [|turns IH]; intros s remaining lba lba' out; cbn [wrapper_read]; [done|]. destruct (remaining =? 0); [done|].
  destruct (scsi_xfer s _ _) as [[ok bs] s']. destruct ok; [|done]. apply IH.
Qed.

(** ** A disk *)

Inductive stage := NoCommand | SendData (bs : list Z) (tag : Z) | TakeData (lba tag : Z) | SendStatus (tag : Z).
Record scsi := mk_scsi { sc_stage : stage; sc_blocks : ramdisk }.

Definition scsi_block (x : scsi) (l : Z) : list Z := ram_sector (sc_blocks x) 0 l.

Definition scsi_out (x : scsi) (bs : list Z) : bool * scsi :=
  match sc_stage x with
  | NoCommand =>
      let tag := word32 bs 4 in
      if zget bs 15 =? 0x28 then
        (true, mk_scsi (SendData (concat (scsi_block x <$> seqZ (cbw_lba bs) (cbw_blocks bs))) tag) (sc_blocks x))
      else if zget bs 15 =? 0x2A then (true, mk_scsi (TakeData (cbw_lba bs) tag) (sc_blocks x))
      else (false, x)
  | TakeData lba tag => (true, mk_scsi (SendStatus tag) (ram_put (length bs / 512) (sc_blocks x) 0 lba bs))
  | _ => (false, x)
  end.

Definition scsi_in (x : scsi) (n : Z) : bool * list Z * scsi :=
  match sc_stage x with
  | SendData bs tag => (true, take (Z.to_nat n) bs, mk_scsi (SendStatus tag) (sc_blocks x))
  | SendStatus tag => (true, le32 kCswSignature ++ le32 tag ++ le32 0 ++ [0], mk_scsi NoCommand (sc_blocks x))
  | _ => (false, [], x)
  end.

#[export] Instance scsi_bulk : Bulk scsi := {|
  xhci_init x := (true, x); get_mass_storage_device x := (true, x); bulk_out := scsi_out; bulk_in := scsi_in |}.

#[export] Program Instance scsi_disk : ScsiDisk scsi := {| sd_idle x := sc_stage x = NoCommand; sd_block := scsi_block |}.
Next Obligation. intros x l. apply as_sector_ok. Qed.
Next Obligation.
  intros x cbw Hi (_ & _ & _ & Ho & Hn & _). cbn. unfold scsi_out. rewrite Hi, Ho.
  assert (∀ ls, length (concat (scsi_block x <$> ls)) = (512 * length ls)%nat) as Hlen.
  { intros ls. induction ls as [|l ls IH]; [done|]. cbn [fmap list_fmap concat]. rewrite length_app. unfold fmap in *. rewrite IH.
    pose proof (as_sector_ok (default blank (sc_blocks x !! (0%nat, l)))) as [Hl _]. unfold scsi_block, ram_sector. rewrite Hl. cbn [length]. lia. }
  eexists _, _, _. split; [reflexivity|]. unfold scsi_in at 1. cbn [sc_stage sc_blocks]. rewrite take_ge by (rewrite Hlen, length_seqZ; lia).
  split; [reflexivity|]. split; [reflexivity|done].
Qed.
Next Obligation.
  intros x cbw data Hi (_ & _ & _ & Ho & Hn & _) Hd Hby. cbn. unfold scsi_out at 1. rewrite Hi, Ho. eexists _, _, _. split; [reflexivity|]. split; [reflexivity|]. split; [reflexivity|]. split; [reflexivity|]. split.
  - cbn [sc_blocks]. unfold scsi_block. cbn [sc_blocks]. replace (cbw_blocks cbw) with (Z.of_nat (length data / 512)).
    + apply ram_put_range; [|done]. assert (length data = 512 * Z.to_nat (cbw_blocks cbw))%nat as -> by lia. rewrite Nat.mul_comm, Nat.div_mul by lia. lia.
    + assert (length data = 512 * Z.to_nat (cbw_blocks cbw))%nat as -> by lia. rewrite Nat.mul_comm, Nat.div_mul by lia. lia.
  - intros l Hl. unfold scsi_block. cbn [sc_blocks]. apply ram_put_ne. right.
    assert (length data = 512 * Z.to_nat (cbw_blocks cbw))%nat as -> by lia. rewrite Nat.mul_comm, Nat.div_mul by lia. lia.
Qed.

Definition demo_usb : @usbms scsi := mk_usbms (mk_scsi NoCommand ∅) (mk_serial false []) 4294967295 true 512 1000.
Definition demo_bytes : list Z := replicate (40 * 512) 7.

