(* ===== verification/Nvme.v ===== *)
(** * The NVMe driver ([kernel/nvme.cpp])

    Submission and completion queues in memory shared with the controller,
    descriptor lists for transfers, the mapping of the registers in the 64-bit
    build, and the initialisation.  The class [NvmeHw] is the machine: memory
    byte by byte, the 32-bit registers at the addresses they are mapped to, and
    [hw_pause], while which the controller goes on. *)

From S2P Require Import Prelude CText Serial Bytes Block Pci.

Definition kPageSize : Z := 4096.
Definition kQueueDepth : Z := 32.
Definition kPrpListEntries : Z := 512.
Definition kNvmeHeapSize : Z := 262144.
Definition kAdminQueueId : Z := 0.
Definition kIoQueueId : Z := 1.

Class NvmeHw (M : Type) := {
  hw_load : M → Z → Z;
  hw_store : M → Z → list Z → M;
  hw_read : M → Z → Z * M;
  hw_write : M → Z → Z → M;
  hw_pause : M → M;
}.

Definition le64 (v : Z) : list Z := le32 (u32 v) ++ le32 (u32 (Z.shiftr v 32)).

Record NvmeCommand := mk_command {
  opcode : Z; cid : Z; nsid : Z; prp1 : Z; prp2 : Z; cdw10 : Z; cdw11 : Z; cdw12 : Z;
}.

(** The 64 bytes of a command; the fields the driver leaves at zero are not
    in the record. *)
Definition command_bytes (c : NvmeCommand) : list Z :=
  [u8 (opcode c); 0] ++ le16 (cid c) ++ le32 (nsid c) ++ replicate 16 0 ++ le64 (prp1 c) ++ le64 (prp2 c) ++
  le32 (cdw10 c) ++ le32 (cdw11 c) ++ le32 (cdw12 c) ++ replicate 12 0.

Definition no_command : NvmeCommand := mk_command 0 0 0 0 0 0 0 0.
Definition with_cid (c : NvmeCommand) (n : Z) : NvmeCommand :=
  mk_command (opcode c) n (nsid c) (prp1 c) (prp2 c) (cdw10 c) (cdw11 c) (cdw12 c).

(** Addresses, 0 for null. *)
Record NvmeQueue := mk_queue {
  q_sq : Z; q_cq : Z; q_depth : Z; q_sq_tail : Z; q_cq_head : Z; q_cq_phase : bool; q_next_cid : Z;
}.
Definition no_queue : NvmeQueue := mk_queue 0 0 0 0 0 false 0.

Definition align_down (value alignment : Z) : Z := Z.land value (u64 (Z.lnot (alignment - 1))).

Definition align_up (value alignment : Z) : Z := Z.land (u64 (value + alignment - 1)) (u64 (Z.lnot (alignment - 1))).

(** [(g_nvme_heap_used + mask) & ~mask], far below the width of [size_t]. *)
Definition align_used (used alignment : Z) : Z := Z.land (used + (alignment - 1)) (Z.lnot (alignment - 1)).

(** The page tables of the register window of the 64-bit build. *)
Record mmio := mk_mmio { g_mmio_pdpt : Z; g_mmio_pd : Z; g_mmio_next : Z }.
Definition no_mmio : mmio := mk_mmio 0 0 0xFFFF800000000000.

Section driver.
Context {M : Type} `{NvmeHw M}.
(** Where the static buffers are, and the translation of an address: the
    identity in the 64-bit build, [Vmm.virt_to_phys] in the 32-bit one. *)
Context (heap_base prp_list : Z) (phys_of : Z → Z).

Record nvme := mk_nvme {
  nv_m : M;
  nv_tx : serial;
  g_nvme_heap_used : Z;
  g_mmio : mmio;
  g_regs : Z;
  g_doorbells : Z;
  g_doorbell_stride : Z;
  g_cap : Z;
  nv_block_size : Z;
  nv_block_count : Z;
  g_nsid : Z;
  g_ready : bool;
  g_admin : NvmeQueue;
  g_io : NvmeQueue;
}.

Definition set_m (s : nvme) (m : M) : nvme :=
  mk_nvme m (nv_tx s) (g_nvme_heap_used s) (g_mmio s) (g_regs s) (g_doorbells s) (g_doorbell_stride s) (g_cap s) (nv_block_size s)
    (nv_block_count s) (g_nsid s) (g_ready s) (g_admin s) (g_io s).
Definition set_tx (s : nvme) (t : serial) : nvme :=
  mk_nvme (nv_m s) t (g_nvme_heap_used s) (g_mmio s) (g_regs s) (g_doorbells s) (g_doorbell_stride s) (g_cap s) (nv_block_size s)
    (nv_block_count s) (g_nsid s) (g_ready s) (g_admin s) (g_io s).
Definition set_used (s : nvme) (n : Z) : nvme :=
  mk_nvme (nv_m s) (nv_tx s) n (g_mmio s) (g_regs s) (g_doorbells s) (g_doorbell_stride s) (g_cap s) (nv_block_size s)
    (nv_block_count s) (g_nsid s) (g_ready s) (g_admin s) (g_io s).
Definition set_mmio (s : nvme) (t : mmio) : nvme :=
  mk_nvme (nv_m s) (nv_tx s) (g_nvme_heap_used s) t (g_regs s) (g_doorbells s) (g_doorbell_stride s) (g_cap s) (nv_block_size s)
    (nv_block_count s) (g_nsid s) (g_ready s) (g_admin s) (g_io s).
Definition set_queues (s : nvme) (admin io : NvmeQueue) : nvme :=
  mk_nvme (nv_m s) (nv_tx s) (g_nvme_heap_used s) (g_mmio s) (g_regs s) (g_doorbells s) (g_doorbell_stride s) (g_cap s) (nv_block_size s)
    (nv_block_count s) (g_nsid s) (g_ready s) admin io.
Definition say (s : nvme) (t : string) : nvme := set_tx s (Serial.write (nv_tx s) (Some (txt t ++ ["010"%char]))).

(** ** Memory *)

Definition load_bytes (m : M) (a n : Z) : list Z := (λ i, hw_load m (a + i)) <$> seqZ 0 n.
Definition zero_mem (m : M) (a size : Z) : M := hw_store m a (replicate (Z.to_nat size) 0).

(** The address, 0 when the buffer is used up. *)
Definition nvme_alloc (s : nvme) (size alignment : Z) : Z * nvme :=
  if size =? 0 then (0, s)
  else
    let alignment := if alignment =? 0 then 1 else alignment in
    let aligned := align_used (g_nvme_heap_used s) alignment in
    if kNvmeHeapSize <? aligned + size then (0, s) else (heap_base + aligned, set_used s (aligned + size)).

(** The queue, not yet stored in its global. *)
Definition queue_init (s : nvme) (depth : Z) : NvmeQueue * nvme :=
  let '(sq, s) := nvme_alloc s (depth * 64) kPageSize in
  let '(cq, s) := nvme_alloc s (depth * 16) kPageSize in
  let s := if negb (sq =? 0) then set_m s (zero_mem (nv_m s) sq (depth * 64)) else s in
  let s := if negb (cq =? 0) then set_m s (zero_mem (nv_m s) cq (depth * 16)) else s in
  (mk_queue sq cq (u16 depth) 0 0 true 1, s).

(** [while (remaining > 0 && entry < kPrpListEntries)], with what remains. *)
Fixpoint prp_loop (entries : nat) (m : M) (entry cursor remaining : Z) : Z * M :=
  match entries with
  | O => (remaining, m)
  | S entries' =>
      if 0 <? remaining then
        let m := hw_store m (prp_list + 8 * entry) (le64 (phys_of cursor)) in
        let chunk := if kPageSize <? remaining then kPageSize else remaining in
        prp_loop entries' m (entry + 1) (cursor + chunk) (remaining - chunk)
      else (remaining, m)
  end.

Definition build_prps (m : M) (buffer bytes : Z) : option (Z * Z) * M :=
  if buffer =? 0 then (None, m)
  else if bytes =? 0 then (Some (0, 0), m)
  else
    let first_phys := phys_of buffer in
    let first_span := kPageSize - Z.land first_phys (kPageSize - 1) in
    if bytes <=? first_span then (Some (first_phys, 0), m)
    else
      let remaining := bytes - first_span in
      let cursor := buffer + first_span in
      if remaining <=? kPageSize then (Some (first_phys, phys_of cursor), m)
      else
        let '(remaining, m) := prp_loop (Z.to_nat kPrpListEntries) m 0 cursor remaining in
        if negb (remaining =? 0) then (None, m) else (Some (first_phys, phys_of prp_list), m).

(** ** Queues *)

(** [g_doorbells] and [g_doorbell_stride]. *)
Record bells := mk_bells { bell_base : Z; bell_stride : Z }.
Definition bells_of (s : nvme) : bells := mk_bells (g_doorbells s) (g_doorbell_stride s).

Definition doorbell (d : bells) (queue_id : Z) (completion : bool) : Z :=
  bell_base d + 4 * ((queue_id *u 2 +u (if completion then 1 else 0)) *u bell_stride d).
Definition ring_doorbell (m : M) (d : bells) (queue_id : Z) (completion : bool) (value : Z) : M :=
  hw_write m (doorbell d queue_id completion) value.

(** [None]: the loop has not ended within the fuel. *)
Fixpoint wait_for_cqe (fuel : nat) (m : M) (d : bells) (q : NvmeQueue) (queue_id cid : Z) : option (bool * NvmeQueue * M) :=
  match fuel with
  | O => None
  | S fuel' =>
      let slot := q_cq q + 16 * q_cq_head q in
      let dw3 := word32 (load_bytes m slot 16) 12 in
      let cqe_status := Z.shiftr dw3 16 in
      let phase := negb (Z.land cqe_status 1 =? 0) in
      if negb (Bool.eqb phase (q_cq_phase q)) || negb (Z.land dw3 0xFFFF =? cid) then wait_for_cqe fuel' (hw_pause m) d q queue_id cid
      else
        let status_code := Z.land (Z.shiftr cqe_status 1) 0x7F in
        let m := hw_store m slot (replicate 16 0) in
        let head := (q_cq_head q + 1) mod q_depth q in
        let q := mk_queue (q_sq q) (q_cq q) (q_depth q) (q_sq_tail q) head (if head =? 0 then negb (q_cq_phase q) else q_cq_phase q) (q_next_cid q) in
        Some (status_code =? 0, q, ring_doorbell m d queue_id true head)
  end.

Definition submit_command (fuel : nat) (m : M) (d : bells) (q : NvmeQueue) (queue_id : Z) (command : NvmeCommand)
    : option (bool * NvmeQueue * M) :=
  if (q_sq q =? 0) || (q_cq q =? 0) then Some (false, q, m)
  else
    let cid := if q_next_cid q =? 0 then 1 else q_next_cid q in
    let m := hw_store m (q_sq q + 64 * q_sq_tail q) (command_bytes (with_cid command cid)) in
    let tail := (q_sq_tail q + 1) mod q_depth q in
    let q := mk_queue (q_sq q) (q_cq q) (q_depth q) tail (q_cq_head q) (q_cq_phase q) (u16 (cid + 1)) in
    wait_for_cqe fuel (ring_doorbell m d queue_id false tail) d q queue_id cid.


Definition submit_admin (fuel : nat) (s : nvme) (command : NvmeCommand) : option (bool * nvme) :=
  '(ok, q, m) ← submit_command fuel (nv_m s) (bells_of s) (g_admin s) kAdminQueueId command;
  Some (ok, set_queues (set_m s m) q (g_io s)).
Definition submit_io (fuel : nat) (s : nvme) (command : NvmeCommand) : option (bool * nvme) :=
  '(ok, q, m) ← submit_command fuel (nv_m s) (bells_of s) (g_io s) kIoQueueId command;
  Some (ok, set_queues (set_m s m) (g_admin s) q).

(** ** Transfers *)

Definition submit_io_transfer (fuel : nat) (s : nvme) (opcode lba buffer count : Z) : option (bool * nvme) :=
  if negb (g_ready s) || (q_sq (g_io s) =? 0) || (q_cq (g_io s) =? 0) || (buffer =? 0) || (count =? 0) then Some (false, s)
  else
    let bytes := u64 (count * nv_block_size s) in
    let '(prps, m) := build_prps (nv_m s) buffer (u32 bytes) in
    let s := set_m s m in
    match prps with
    | None => Some (false, s)
    | Some (prp1, prp2) =>
        submit_io fuel s (mk_command opcode 0 (g_nsid s) prp1 prp2 (Z.land lba 0xFFFFFFFF) (u32 (Z.shiftr lba 32)) (count -u 1))
    end.
Definition nvme_read_sectors (fuel : nat) (s : nvme) (lba buf count : Z) : option (bool * nvme) :=
  submit_io_transfer fuel s 0x02 lba buf count.
Definition nvme_write_sectors (fuel : nat) (s : nvme) (lba buf count : Z) : option (bool * nvme) :=
  submit_io_transfer fuel s 0x01 lba buf count.

(** ** Initialisation *)

Definition write_reg (s : nvme) (off v : Z) : nvme := set_m s (hw_write (nv_m s) (g_regs s + off) v).
Definition read_reg (s : nvme) (off : Z) : Z * nvme := let '(v, m) := hw_read (nv_m s) (g_regs s + off) in (v, set_m s m).

(** The loop after the controller is enabled goes on while CSTS.RDY is set. *)
Fixpoint csts_wait (spins : nat) (s : nvme) : nvme :=
  match spins with
  | O => s
  | S spins' =>
      let '(csts, s) := read_reg s 0x1C in
      if negb (Z.land csts 1 =? 0) then csts_wait spins' (set_m s (hw_pause (nv_m s))) else s
  end.
Definition kSpins : nat := Z.to_nat 2000000.

Definition program_admin_queue (s : nvme) (depth : Z) : nvme :=
  let sq := phys_of (q_sq (g_admin s)) in
  let cq := phys_of (q_cq (g_admin s)) in
  let s := write_reg s 0x24 (Z.lor (u32 (Z.shiftl (depth -u 1) 16)) (depth -u 1)) in
  let s := write_reg s 0x28 (u32 sq) in
  let s := write_reg s 0x2C (u32 (Z.shiftr sq 32)) in
  let s := write_reg s 0x30 (u32 cq) in
  let s := write_reg s 0x34 (u32 (Z.shiftr cq 32)) in
  let s := write_reg s 0x14 (Z.lor (Z.lor (Z.shiftl 6 16) (Z.shiftl 4 20)) 1) in
  csts_wait kSpins s.

(** From the page the identify command filled: the number of blocks, and the
    block size; the processor takes a shift count modulo 32. *)
Definition identified_count (idb : list Z) : Z :=
  fold_left (λ nsze i, Z.lor nsze (u64 (Z.shiftl (zget idb i) (i * 8)))) (seqZ 0 8) 0.
Definition identified_size (idb : list Z) : Z :=
  let lbaf := Z.land (zget idb 26) 0x0F in
  let lbads := Z.land (word32 idb (128 + lbaf * 4)) 0xFF in
  u32 (Z.shiftl 1 (lbads mod 32)).

Definition create_cq (s : nvme) (depth : Z) : NvmeCommand :=
  mk_command 0x05 0 0 (phys_of (q_cq (g_io s))) 0 (Z.lor (Z.land kIoQueueId 0xFFFF) (u32 (Z.shiftl (depth -u 1) 16))) 1 0.
Definition create_sq (s : nvme) (depth : Z) : NvmeCommand :=
  mk_command 0x01 0 0 (phys_of (q_sq (g_io s))) 0 (Z.lor (Z.land kIoQueueId 0xFFFF) (u32 (Z.shiftl (depth -u 1) 16)))
    (Z.lor (Z.shiftl kIoQueueId 16) 1) 0.

Definition set_ready (s : nvme) (size count nsid : Z) : nvme :=
  mk_nvme (nv_m s) (nv_tx s) (g_nvme_heap_used s) (g_mmio s) (g_regs s) (g_doorbells s) (g_doorbell_stride s) (g_cap s) size count nsid true
    (g_admin s) (g_io s).
Definition block_device (s : nvme) : BlockDevice := mk_device (Some (txt "nvme0")) (nv_block_size s) (nv_block_count s) true true.

(** The I/O queues are created once the namespace is identified.  The block
    device is what [block_register_device] gets just before the last line. *)
Definition create_queues (fuel : nat) (s : nvme) (nsid depth : Z) (idb : list Z) : option (option BlockDevice * nvme) :=
  '(ok, s) ← submit_admin fuel s (create_cq s depth);
  if negb (ok : bool) then Some (None, say s "nvme: create cq failed")
  else
    '(ok, s) ← submit_admin fuel s (create_sq s depth);
    if negb (ok : bool) then Some (None, say s "nvme: create sq failed")
    else
      let s := set_ready s (identified_size idb) (identified_count idb) nsid in
      Some (Some (block_device s), say s "nvme: controller ready").

(** What [init_namespace] does, and [init] for a controller it has mapped:
    [init] reports two more of the failures. *)
Definition start_controller (fuel : nat) (loud : bool) (s : nvme) (nsid depth : Z) : option (option BlockDevice * nvme) :=
  let '(admin, s) := queue_init s depth in
  let '(io, s) := queue_init s depth in
  let s := set_queues s admin io in
  if (q_sq admin =? 0) || (q_cq admin =? 0) || (q_sq io =? 0) || (q_cq io =? 0) then
    Some (None, if loud then say s "nvme: queue allocation failed" else s)
  else
    let s := program_admin_queue s depth in
    let '(identify_buf, s) := nvme_alloc s kPageSize kPageSize in
    if identify_buf =? 0 then Some (None, s)
    else
      let s := set_m s (zero_mem (nv_m s) identify_buf kPageSize) in
      let '(prps, m) := build_prps (nv_m s) identify_buf kPageSize in
      let s := set_m s m in
      match prps with
      | None => Some (None, s)
      | Some (prp1, prp2) =>
          '(ok, s) ← submit_admin fuel s (mk_command 0x06 0 nsid prp1 prp2 0 0 0);
          if negb (ok : bool) then Some (None, if loud then say s "nvme: identify failed" else s)
          else create_queues fuel s nsid depth (load_bytes (nv_m s) identify_buf kPageSize)
      end.
Definition init_namespace (fuel : nat) (s : nvme) (namespace_id depth : Z) : option (bool * nvme) :=
  '(dev, s) ← start_controller fuel false s namespace_id depth;
  Some (bool_decide (is_Some dev), s).

(** The first memory BAR; 0 when there is none. *)
Fixpoint first_mmio_bar (i : Z) (bars : list Z) : Z :=
  match bars with
  | [] => 0
  | value :: bars' =>
      if (value =? 0) || negb (Z.land value 1 =? 0) then first_mmio_bar (i + 1) bars'
      else if (Z.land value 0x6 =? 0x4) && (i + 1 <? 6) then
        Z.lor (u64 (Z.shiftl (zget bars' 0) 32)) (Z.land value (u32 (Z.lnot 0xF)))
      else Z.land value (u32 (Z.lnot 0xF))
  end.
Definition read_mmio_bar (dev : Device) : Z := first_mmio_bar 0 (bar dev).

Definition queue_depth (cap : Z) : Z :=
  let depth := Z.land cap 0xFFFF + 1 in
  let depth := if kQueueDepth <? depth then kQueueDepth else depth in
  if depth <? 2 then 2 else depth.

(** [g_regs] and what is read from CAP; the heap starts again. *)
Definition attach (s : nvme) (base : Z) : nvme :=
  let s := mk_nvme (nv_m s) (nv_tx s) (g_nvme_heap_used s) (g_mmio s) base (g_doorbells s) (g_doorbell_stride s) (g_cap s) (nv_block_size s)
             (nv_block_count s) (g_nsid s) (g_ready s) (g_admin s) (g_io s) in
  let '(low, s) := read_reg s 0 in
  let '(high, s) := read_reg s 4 in
  let cap := Z.lor low (Z.shiftl high 32) in
  mk_nvme (nv_m s) (nv_tx s) 0 (g_mmio s) base (base + 0x1000) (u32 (Z.shiftl 1 (Z.land (Z.shiftr cap 32) 0xF))) cap (nv_block_size s)
    (nv_block_count s) (g_nsid s) false (g_admin s) (g_io s).

(** [map_region] is [map_physical_region] of the build. *)
Fixpoint init_loop (fuel : nat) (map_region : nvme → Z → Z → Z * nvme) (devs : list Device) (s : nvme) : option (option BlockDevice * nvme) :=
  match devs with
  | [] => Some (None, s)
  | dev :: devs' =>
      if negb (class_code dev =? 0x01) || negb (subclass dev =? 0x08) then init_loop fuel map_region devs' s
      else
        let mmio := read_mmio_bar dev in
        if mmio =? 0 then init_loop fuel map_region devs' s
        else
          let '(base, s) := map_region s mmio 0x1000 in
          if base =? 0 then init_loop fuel map_region devs' (say s "nvme: MMIO map failed")
          else
            let s := attach s base in
            '(registered, s) ← start_controller fuel true s 1 (queue_depth (g_cap s));
            match registered with
            | Some dev => Some (Some dev, s)
            | None => init_loop fuel map_region devs' s
            end
  end.
Definition init {B} `{ConfigSpace B} (fuel : nat) (map_region : nvme → Z → Z → Z * nvme) (b : B) (s : nvme)
    : option (bool * option BlockDevice * nvme) :=
  if g_ready s then Some (true, None, s)
  else
    '(dev, s) ← init_loop fuel map_region (scan_devices b 64) s;
    Some (bool_decide (is_Some dev), dev, s).

(** ** The register window of the 64-bit build *)

Definition load64 (m : M) (a : Z) : Z := let bs := load_bytes m a 8 in Z.lor (word32 bs 0) (Z.shiftl (word32 bs 4) 32).
Definition store64 (s : nvme) (a v : Z) : nvme := set_m s (hw_store (nv_m s) a (le64 v)).
Definition page_mask : Z := u64 (Z.lnot 0xFFF).

(** [pml4] is the address of the top table. *)
Definition ensure_pdpt (pml4 : Z) (s : nvme) : bool * nvme :=
  let slot := pml4 + 8 * Z.land (Z.shiftr (g_mmio_next (g_mmio s)) 39) 0x1FF in
  let entry := load64 (nv_m s) slot in
  if Z.land entry 1 =? 0 then
    let '(pdpt, s) := nvme_alloc s kPageSize kPageSize in
    let s := set_mmio s (mk_mmio pdpt (g_mmio_pd (g_mmio s)) (g_mmio_next (g_mmio s))) in
    if pdpt =? 0 then (false, s)
    else
      let s := set_m s (zero_mem (nv_m s) pdpt kPageSize) in
      (true, store64 s slot (Z.lor (Z.land pdpt page_mask) 3))
  else (true, set_mmio s (mk_mmio (Z.land entry page_mask) (g_mmio_pd (g_mmio s)) (g_mmio_next (g_mmio s)))).
Definition ensure_pd (s : nvme) : bool * nvme :=
  if g_mmio_pd (g_mmio s) =? 0 then
    let '(pd, s) := nvme_alloc s kPageSize kPageSize in
    let s := set_mmio s (mk_mmio (g_mmio_pdpt (g_mmio s)) pd (g_mmio_next (g_mmio s))) in
    if pd =? 0 then (false, s)
    else
      let s := set_m s (zero_mem (nv_m s) pd kPageSize) in
      (true, store64 s (g_mmio_pdpt (g_mmio s)) (Z.lor (Z.land pd page_mask) 3))
  else (true, s).
Definition ensure_mmio_tables (pml4 : Z) (s : nvme) : bool * nvme :=
  let '(ok, s) := ensure_pdpt pml4 s in
  if negb ok then (false, s) else ensure_pd s.

(** The entries of [pages] large pages. *)
Definition map_large_pages (s : nvme) (pd_base_index phys_base pages : Z) : nvme :=
  fold_left (λ s i,
    store64 s (g_mmio_pd (g_mmio s) + 8 * (pd_base_index + i)) (Z.lor (Z.land (phys_base + i * 0x200000) (u64 (Z.lnot 0x1FFFFF))) 0x183))
    (seqZ 0 pages) s.

(** The address the region is seen at, 0 when it is not mapped. *)
Definition map_physical_region (pml4 : Z) (s : nvme) (phys size : Z) : Z * nvme :=
  let '(ok, s) := ensure_mmio_tables pml4 s in
  if negb ok then (0, s)
  else
    let phys_base := align_down phys 0x200000 in
    let offset := phys - phys_base in
    let pages := (size + offset + 0x200000 - 1) / 0x200000 in
    let vbase := align_up (g_mmio_next (g_mmio s)) 0x200000 in
    let s := set_mmio s (mk_mmio (g_mmio_pdpt (g_mmio s)) (g_mmio_pd (g_mmio s)) (u64 (vbase + pages * 0x200000))) in
    let pd_base_index := Z.land (Z.shiftr vbase 21) 0x1FF in
    if 512 <? pd_base_index + pages then (0, s)
    else (vbase + offset, map_large_pages s pd_base_index phys_base pages).
End driver.
