(* ===== verification/NvmeSpec.v ===== *)
(** * What the NVMe driver does on a controller

    The pages a transfer names are those of the buffer, and the commands
    given to a queue are executed once each, in order, with their status
    returned, as long as the driver runs. *)

From S2P Require Import Prelude CText Serial Bytes Block Pci Nvme.

(** Memory as bytes: [phys_load] is what the controller reads at a physical
    address, and the two views agree through the page tables. *)
Class NvmeMem (M : Type) `{NvmeHw M} (phys_of : Z → Z) := {
  phys_load : M → Z → Z;
  load_store m a bs x : hw_load (hw_store m a bs) x = if (a <=? x) && (x <? a + Z.of_nat (length bs)) then zget bs (x - a) else hw_load m x;
  mmu m a : phys_load m (phys_of a) = hw_load m a;
  in_page a i : 0 <= i → a mod kPageSize + i < kPageSize → phys_of (a + i) = phys_of a + i;
  page_offset a : phys_of a mod kPageSize = a mod kPageSize;
  phys_width a : 0 <= a < 2 ^ 64 → 0 <= phys_of a < 2 ^ 64;
}.

(** ** The pages of a transfer *)

Definition le_value (bs : list Z) : Z := word32 bs 0 + 4294967296 * word32 bs 4.

Lemma length_le64 v : length (le64 v) = 8%nat.
Proof. done. Qed.

Lemma le_value_le64 v : 0 <= v < 2 ^ 64 → le_value (le64 v) = v.
Proof.
  intros Hv. unfold le_value, le64. rewrite Z.shiftr_div_pow2 by lia.
  assert (0 <= v / 2 ^ 32 < 4294967296) as Hh by (Z.div_mod_to_equations; lia). rewrite (u32_small (v / 2 ^ 32)) by done.
  pose proof (word32_le32 [] (u32 v) (le32 (v / 2 ^ 32)) (u32_range v)) as E1. change (Z.of_nat (length [])) with 0 in E1. cbn [app] in E1.
  pose proof (word32_le32 (le32 (u32 v)) (v / 2 ^ 32) [] Hh) as E2. rewrite app_nil_r in E2. change (Z.of_nat (length (le32 (u32 v)))) with 4 in E2.
  rewrite E1, E2. unfold u32. change 4294967296 with (2 ^ 32). Z.div_mod_to_equations. lia.
Qed.

(** Which physical byte a controller moves as the [i]th of a transfer: the
    second entry is the second page, or a list of all the further ones. *)
Definition dma_addr (mem : Z → Z) (prps : Z * Z) (bytes i : Z) : Z :=
  let first := kPageSize - prps.1 mod kPageSize in
  if i <? first then prps.1 + i
  else if bytes - first <=? kPageSize then prps.2 + (i - first)
  else le_value ((λ j, mem (prps.2 + 8 * ((i - first) / kPageSize) + j)) <$> seqZ 0 8) + (i - first) mod kPageSize.

Section prps.
Context {M : Type} `{NM : NvmeMem M phys_of} (prp_list : Z).
Implicit Type m : M.

Lemma load_stored m a bs : load_bytes (hw_store m a bs) a (Z.of_nat (length bs)) = bs.
Proof.
  unfold load_bytes. apply list_eq. intros i. rewrite list_lookup_fmap. destruct (decide (i < length bs)%nat) as [Hi|Hi].
  - rewrite lookup_seqZ_lt by lia. cbn [fmap option_fmap option_map]. rewrite load_store.
    rewrite (proj2 (Z.leb_le a _)), (proj2 (Z.ltb_lt (a + _) _)) by lia. cbn [andb]. unfold zget.
    replace (Z.to_nat (a + (0 + Z.of_nat i) - a)) with i by lia. symmetry. by apply list_lookup_lookup_total_lt.
  - rewrite lookup_seqZ_ge, lookup_ge_None_2 by lia. done.
Qed.

Lemma load_outside m a bs x : x < a ∨ a + Z.of_nat (length bs) <= x → hw_load (hw_store m a bs) x = hw_load m x.
Proof.
  intros Hx. rewrite load_store. destruct (a <=? x) eqn:E1; [|done]. destruct (x <? _) eqn:E2; [|done]. zbool. lia.
Qed.

Lemma loads_agree m1 m2 a n : (∀ x, a <= x < a + n → hw_load m1 x = hw_load m2 x) → load_bytes m1 a n = load_bytes m2 a n.
Proof. intros Hx. unfold load_bytes. apply list_fmap_ext. intros k i Hi. apply lookup_seqZ in Hi. apply Hx. lia. Qed.

(** The entries the loop stores, and what it leaves alone. *)
Lemma prp_loop_ok n : ∀ m e c r, 0 <= r →
  let '(r', m') := prp_loop prp_list phys_of n m e c r in
  r' = Z.max 0 (r - kPageSize * Z.of_nat n) ∧
  (∀ k, 0 <= k < Z.of_nat n → kPageSize * k < r → load_bytes m' (prp_list + 8 * (e + k)) 8 = le64 (phys_of (c + kPageSize * k))) ∧
  ∀ x, x < prp_list + 8 * e ∨ prp_list + 8 * (e + Z.of_nat n) <= x → hw_load m' x = hw_load m x.
Proof.
  unfold kPageSize. induction n as [|n IH]; intros m e c r Hr; cbn [prp_loop].
  { split_and!; intros; [lia|lia|done]. }
  destruct (0 <? r) eqn:E; zbool; [|split_and!; intros; [lia|lia|done]].
  change kPageSize with 4096. set (chunk := if 4096 <? r then 4096 else r).
  assert (chunk = Z.min 4096 r) as Hc by (subst chunk; destruct (4096 <? r) eqn:E2; zbool; lia).
  specialize (IH (hw_store m (prp_list + 8 * e) (le64 (phys_of c))) (e + 1) (c + chunk) (r - chunk) ltac:(lia)).
  destruct (prp_loop _ _ _ _ _ _) as [r' m']. destruct IH as (IH1 & IH2 & IH3). split_and!.
  - lia.
  - intros k Hk Hk2. destruct (decide (k = 0)) as [->|Hne].
    + rewrite !Z.add_0_r. pose proof (load_stored m (prp_list + 8 * e) (le64 (phys_of c))) as Hl. rewrite length_le64 in Hl.
      change (Z.of_nat 8) with 8 in Hl. rewrite <- Hl at 1. apply loads_agree. intros x Hx. apply IH3. lia.
    + specialize (IH2 (k - 1) ltac:(lia) ltac:(lia)). rewrite (ltac:(lia) : e + 1 + (k - 1) = e + k) in IH2. rewrite IH2. do 2 f_equal. lia.
  - intros x Hx. rewrite IH3 by lia. apply load_outside. rewrite length_le64. lia.
Qed.

Lemma phys_entry m k : prp_list mod kPageSize = 0 → 0 <= k < kPrpListEntries →
  (λ j, phys_load m (phys_of prp_list + 8 * k + j)) <$> seqZ 0 8 = load_bytes m (prp_list + 8 * k) 8.
Proof.
  unfold kPrpListEntries. intros Ha Hk. apply list_fmap_ext. intros i j Hj. apply lookup_seqZ in Hj.
  rewrite <- mmu, <- Z.add_assoc, <- (in_page prp_list) by (rewrite ?Ha; unfold kPageSize; lia). f_equal. f_equal. lia.
Qed.

(** How many bytes the entries can name. *)
Definition transfer_limit (buffer : Z) : Z := kPageSize - buffer mod kPageSize + kPageSize * kPrpListEntries.

Lemma second_pages buffer i : let first := kPageSize - buffer mod kPageSize in
  first <= i → phys_of (buffer + i) = phys_of (buffer + first + kPageSize * ((i - first) / kPageSize)) + (i - first) mod kPageSize.
Proof.
  intros first Hi. subst first. unfold kPageSize in *. rewrite <- (in_page (buffer + _ + _)).
  - f_equal. Z.div_mod_to_equations. lia.
  - apply Z.mod_pos_bound. lia.
  - unfold kPageSize. rewrite (ltac:(Z.div_mod_to_equations; lia) : (buffer + (4096 - buffer mod 4096) + 4096 * ((i - (4096 - buffer mod 4096)) / 4096)) mod 4096 = 0).
    apply Z.mod_pos_bound. lia.
Qed.

(** C37: [build_prps] accepts every buffer that 513 pages can hold, and the
    descriptors it makes name for each byte of the buffer the physical byte
    behind it, also where the pages of the buffer are scattered; only the list
    page is written. *)
Theorem prps_name_buffer m buffer bytes :
  0 < buffer → buffer + bytes <= 2 ^ 64 → 0 < bytes <= transfer_limit buffer → prp_list mod kPageSize = 0 →
  ∃ prps m', build_prps prp_list phys_of m buffer bytes = (Some prps, m') ∧
    (∀ i, 0 <= i < bytes → dma_addr (phys_load m') prps bytes i = phys_of (buffer + i)) ∧
    ∀ x, x < prp_list ∨ prp_list + kPageSize <= x → hw_load m' x = hw_load m x.
Proof.
  intros Hb Hw Hn Hl. unfold build_prps. rewrite (proj2 (Z.eqb_neq buffer 0)), (proj2 (Z.eqb_neq bytes 0)) by lia.
  change (kPageSize - 1) with (Z.ones 12). rewrite Z.land_ones by lia. change (2 ^ 12) with kPageSize. rewrite page_offset.
  pose proof (Z.mod_pos_bound buffer kPageSize ltac:(done)) as Hbm.
  assert (∀ i, 0 <= i < kPageSize - buffer mod kPageSize → phys_of buffer + i = phys_of (buffer + i)) as Hfirst
    by (intros i Hi; symmetry; apply in_page; lia).
  destruct (bytes <=? _) eqn:E1; zbool.
  { eexists (_, _), m. split; [done|]. split; [|done]. intros i Hi. unfold dma_addr. cbn [fst]. rewrite page_offset.
    rewrite (proj2 (Z.ltb_lt i _)) by lia. apply Hfirst. lia. }
  destruct (bytes - _ <=? _) eqn:E2; zbool.
  { eexists (_, _), m. split; [done|]. split; [|done]. intros i Hi. unfold dma_addr. cbn [fst snd]. rewrite page_offset.
    destruct (i <? _) eqn:E3; zbool; [apply Hfirst; lia|]. rewrite (proj2 (Z.leb_le (bytes - _) _)) by lia.
    rewrite (second_pages buffer i) by lia. rewrite Z.div_small, (Z.mod_small (i - _)) by lia. by rewrite Z.mul_0_r, Z.add_0_r. }
  pose proof (prp_loop_ok (Z.to_nat kPrpListEntries) m 0 (buffer + (kPageSize - buffer mod kPageSize))
    (bytes - (kPageSize - buffer mod kPageSize)) ltac:(lia)) as HL.
  destruct (prp_loop _ _ _ _ _ _ _) as [r' m']. destruct HL as (Hr & Hin & Hout). unfold transfer_limit in Hn.
  change (Z.of_nat (Z.to_nat kPrpListEntries)) with 512 in *. change kPrpListEntries with 512 in *. unfold kPageSize in Hn, Hr.
  assert (r' = 0) as -> by (unfold kPageSize in *; lia). cbn [negb Z.eqb]. eexists (_, _), m'. split; [done|]. split.
  2: { intros x Hx. apply Hout. unfold kPageSize in *. lia. }
  intros i Hi. unfold dma_addr. cbn [fst snd]. rewrite page_offset. destruct (i <? _) eqn:E3; zbool; [apply Hfirst; lia|].
  rewrite (proj2 (Z.leb_gt (bytes - _) _)) by lia. rewrite (second_pages buffer i) by (unfold kPageSize in *; lia). f_equal.
  unfold kPageSize in *. rewrite phys_entry; [|done|unfold kPrpListEntries; Z.div_mod_to_equations; lia].
  specialize (Hin ((i - (4096 - buffer mod 4096)) / 4096) ltac:(Z.div_mod_to_equations; lia) ltac:(Z.div_mod_to_equations; lia)).
  rewrite Z.add_0_l in Hin. rewrite Hin. apply le_value_le64, phys_width. Z.div_mod_to_equations. lia.
Qed.

Lemma prps_too_long m buffer bytes :
  buffer ≠ 0 → transfer_limit buffer < bytes → (build_prps prp_list phys_of m buffer bytes).1 = None.
Proof.
  intros Hb Hn. unfold transfer_limit in Hn. change kPrpListEntries with 512 in Hn. unfold build_prps.
  pose proof (Z.mod_pos_bound buffer kPageSize ltac:(done)) as Hbm. unfold kPageSize in Hbm, Hn.
  rewrite (proj2 (Z.eqb_neq buffer 0)), (proj2 (Z.eqb_neq bytes 0)) by lia.
  change (kPageSize - 1) with (Z.ones 12). rewrite Z.land_ones by lia. change (2 ^ 12) with kPageSize. rewrite page_offset. unfold kPageSize.
  rewrite (proj2 (Z.leb_gt bytes _)), (proj2 (Z.leb_gt (bytes - _) _)) by lia.
  pose proof (prp_loop_ok (Z.to_nat kPrpListEntries) m 0 (buffer + (4096 - buffer mod 4096)) (bytes - (4096 - buffer mod 4096)) ltac:(lia)) as HL.
  destruct (prp_loop _ _ _ _ _ _ _) as [r' m']. destruct HL as (Hr & _). change (Z.of_nat (Z.to_nat kPrpListEntries)) with 512 in *. unfold kPageSize in Hr.
  rewrite (proj2 (Z.eqb_neq r' 0)) by lia. done.
Qed.
End prps.

(** ** Commands *)

(** A queue and its doorbells. *)
Record place := mk_place { pl_sq : Z; pl_cq : Z; pl_depth : Z; pl_bells : bells; pl_id : Z }.

Definition in_cq (pl : place) (x : Z) : Prop := pl_cq pl <= x < pl_cq pl + 16 * pl_depth pl.
(** Where the [n]th command of the queue goes, and the phase of its round. *)
Definition slot (pl : place) (n : nat) : Z := Z.of_nat n mod pl_depth pl.
Definition round_phase (pl : place) (n : nat) : bool := Z.even (Z.of_nat n / pl_depth pl).

(** A controller executing the commands of a queue: [ctl_idle m log taken]
    after executing [log], the commands with their status, of which the host
    has [taken] the completions; [ctl_busy m n c log] for [n] more pauses with
    the command [c].  The rest of a completion is not said. *)
Class NvmeCtl (M : Type) `{NvmeHw M} (pl : place) := {
  ctl_idle : M → list (list Z * Z) → nat → Prop;
  ctl_busy : M → nat → list Z → list (list Z * Z) → Prop;
  ctl_memory m a bs log taken : ctl_idle m log taken → ctl_idle (hw_store m a bs) log taken;
  ctl_fetches m log : ctl_idle m log (length log) →
    let m' := hw_write m (doorbell (pl_bells pl) (pl_id pl) false) (slot pl (S (length log))) in
    (∃ n, ctl_busy m' n (load_bytes m (pl_sq pl + 64 * slot pl (length log)) 64) log) ∧ ∀ x, in_cq pl x → hw_load m' x = hw_load m x;
  ctl_works m n c log : ctl_busy m (S n) c log → ctl_busy (hw_pause m) n c log ∧ ∀ x, in_cq pl x → hw_load (hw_pause m) x = hw_load m x;
  ctl_completes m c log : ctl_busy m 0 c log → 0 <= word16 c 2 < 65536 → ∃ status, 0 <= status < 32768 ∧ ctl_idle (hw_pause m) (log ++ [(c, status)]) (length log) ∧
    word32 (load_bytes (hw_pause m) (pl_cq pl + 16 * slot pl (length log)) 16) 12
      = word16 c 2 + 65536 * (Z.b2z (round_phase pl (length log)) + 2 * status) ∧
    ∀ x, in_cq pl x → x < pl_cq pl + 16 * slot pl (length log) ∨ pl_cq pl + 16 * slot pl (length log) + 16 <= x →
      hw_load (hw_pause m) x = hw_load m x;
  ctl_released m log taken : ctl_idle m log taken →
    let m' := hw_write m (doorbell (pl_bells pl) (pl_id pl) true) (slot pl (length log)) in
    ctl_idle m' log (length log) ∧ ∀ x, in_cq pl x → hw_load m' x = hw_load m x;
}.

Lemma command_cid c n : 0 <= n < 65536 → word16 (command_bytes (with_cid c n)) 2 = n.
Proof.
  intros Hn. change (u8 n + 256 * u8 (Z.shiftr n 8) = n). unfold u8. rewrite Z.shiftr_div_pow2 by lia.
  change (2 ^ 8) with 256. Z.div_mod_to_equations. lia.
Qed.

Section commands.
Context {M : Type} `{NM : NvmeMem M phys_of} (pl : place) `{NC : !NvmeCtl M pl}.
Context (Hdepth : 2 <= pl_depth pl < 65536) (Hsq : pl_sq pl ≠ 0) (Hcq : pl_cq pl ≠ 0).
(** The two rings do not overlap. *)
Context (Hapart : pl_sq pl + 64 * pl_depth pl <= pl_cq pl ∨ pl_cq pl + 16 * pl_depth pl <= pl_sq pl).
Implicit Type m : M.

Definition cq_clear m : Prop := ∀ x, in_cq pl x → hw_load m x = 0.

(** The driver's indices, phase and free completion ring go with what the
    controller has executed. *)
Definition in_step m (q : NvmeQueue) (log : list (list Z * Z)) : Prop :=
  ctl_idle m log (length log) ∧ cq_clear m ∧ 0 <= q_next_cid q < 65536 ∧
  q = mk_queue (pl_sq pl) (pl_cq pl) (pl_depth pl) (slot pl (length log)) (slot pl (length log)) (round_phase pl (length log)) (q_next_cid q).

Lemma slot_range n : 0 <= slot pl n < pl_depth pl.
Proof. apply Z.mod_pos_bound. lia. Qed.

Lemma slot_next n : (slot pl n + 1) mod pl_depth pl = slot pl (S n).
Proof. unfold slot. rewrite Zplus_mod_idemp_l. f_equal. lia. Qed.

Lemma round_next n : round_phase pl (S n) = if slot pl (S n) =? 0 then negb (round_phase pl n) else round_phase pl n.
Proof.
  unfold round_phase, slot. destruct (_ =? 0) eqn:E; zbool.
  - rewrite (ltac:(Z.div_mod_to_equations; nia) : Z.of_nat (S n) / pl_depth pl = Z.of_nat n / pl_depth pl + 1).
    rewrite Z.add_1_r, Z.even_succ. by rewrite <- Z.negb_even.
  - f_equal. Z.div_mod_to_equations. nia.
Qed.

Lemma slot_in_cq n x : pl_cq pl + 16 * slot pl n <= x < pl_cq pl + 16 * slot pl n + 16 → in_cq pl x.
Proof. pose proof (slot_range n). unfold in_cq. lia. Qed.

Lemma clear_slot m n : cq_clear m → word32 (load_bytes m (pl_cq pl + 16 * slot pl n) 16) 12 = 0.
Proof.
  intros Hc. rewrite (loads_agree m (hw_store m (pl_cq pl + 16 * slot pl n) (replicate 16 0))).
  - change 16 with (Z.of_nat (length (replicate 16 0%Z))) at 2. by rewrite load_stored.
  - intros x Hx. rewrite Hc by (apply (slot_in_cq n); lia). rewrite load_store, length_replicate.
    rewrite (proj2 (Z.leb_le _ x)), (proj2 (Z.ltb_lt x _)) by lia. cbn [andb]. unfold zget.
    rewrite lookup_total_replicate_2 by lia. done.
Qed.

(** The fields of the last word of a completion. *)
Lemma completion_fields (cid p status : Z) : 0 <= cid < 65536 → 0 <= p < 2 → 0 <= status < 32768 →
  let dw3 := cid + 65536 * (p + 2 * status) in
  Z.land dw3 0xFFFF = cid ∧ Z.land (Z.shiftr dw3 16) 1 = p ∧ Z.shiftr (Z.shiftr dw3 16) 1 = status.
Proof.
  intros Hc Hp Hs dw3. subst dw3. change 0xFFFF with (Z.ones 16). change 1 with (Z.ones 1) at 1. rewrite !Z.land_ones, !Z.shiftr_div_pow2 by lia.
  change (2 ^ 16) with 65536. change (2 ^ 1) with 2. split_and!; Z.div_mod_to_equations; lia.
Qed.

Lemma store_completion m n : cq_clear (hw_store m (pl_cq pl + 16 * slot pl n) (replicate 16 0)) ↔
  ∀ x, in_cq pl x → x < pl_cq pl + 16 * slot pl n ∨ pl_cq pl + 16 * slot pl n + 16 <= x → hw_load m x = 0.
Proof.
  split.
  - intros Hc x Hx Ho. rewrite <- (Hc x Hx). symmetry. apply load_outside. by rewrite length_replicate.
  - intros Ho x Hx. rewrite load_store, length_replicate. destruct (_ <=? x) eqn:E1; [|apply Ho; [done|zbool; lia]].
    destruct (x <? _) eqn:E2; cbn [andb]; zbool; [|apply Ho; [done|lia]]. unfold zget. by rewrite lookup_total_replicate_2 by lia.
Qed.

(** The queue while the command after [n] others is at work. *)
Definition waiting_queue (n : nat) (next : Z) : NvmeQueue :=
  mk_queue (pl_sq pl) (pl_cq pl) (pl_depth pl) (slot pl (S n)) (slot pl n) (round_phase pl n) next.

Lemma wait_goes_on m c n next fuel : cq_clear m → 0 < c →
  wait_for_cqe (S fuel) m (pl_bells pl) (waiting_queue n next) (pl_id pl) c
    = wait_for_cqe fuel (hw_pause m) (pl_bells pl) (waiting_queue n next) (pl_id pl) c.
Proof.
  intros Hclr Hc. cbn [wait_for_cqe waiting_queue q_cq q_cq_head]. rewrite clear_slot by done.
  change (Z.land 0 0xFFFF) with 0. rewrite (proj2 (Z.eqb_neq 0 c)) by lia. cbn [negb]. by rewrite orb_true_r.
Qed.

(** Waiting takes the completion of the command at work, and no other word
    of the ring is mistaken for it. *)
Lemma wait_takes_completion k : ∀ m c log next,
  ctl_busy m k c log → cq_clear m → 0 < word16 c 2 < 65536 → 0 <= next < 65536 →
  ∃ status q' m', 0 <= status < 32768 ∧ in_step m' q' (log ++ [(c, status)]) ∧
    ∀ fuel, (k + 2 <= fuel)%nat →
      wait_for_cqe fuel m (pl_bells pl) (waiting_queue (length log) next) (pl_id pl) (word16 c 2) = Some (Z.land status 0x7F =? 0, q', m').
Proof.
  induction k as [|k IH]; intros m c log next Hbusy Hclr Hcid Hnext.
  - destruct (ctl_completes m c log Hbusy ltac:(lia)) as (status & Hst & Hidle & Hw & Hsame).
    set (sl := pl_cq pl + 16 * slot pl (length log)) in *. set (m1 := hw_pause m) in *.
    set (m2 := hw_store m1 sl (replicate 16 0)).
    assert (length (log ++ [(c, status)]) = S (length log)) as Hlen by (rewrite length_app; cbn; lia).
    pose proof (ctl_released m2 (log ++ [(c, status)]) (length log) ltac:(by apply ctl_memory)) as Hr. cbn zeta in Hr.
    rewrite Hlen in Hr. destruct Hr as [Hidle' Hmem].
    exists status, (mk_queue (pl_sq pl) (pl_cq pl) (pl_depth pl) (slot pl (S (length log))) (slot pl (S (length log)))
      (round_phase pl (S (length log))) next).
    eexists. split; [done|]. split.
    + unfold in_step. rewrite Hlen. split; [exact Hidle'|]. split; [|done].
      intros x Hx. rewrite Hmem by done. revert x Hx. apply store_completion. intros x Hx Ho. rewrite Hsame by done. by apply Hclr.
    + intros [|[|fuel]] Hf; [lia..|]. rewrite wait_goes_on by (done || lia). fold m1. cbn [wait_for_cqe waiting_queue q_cq q_cq_head q_cq_phase q_sq q_depth q_sq_tail q_next_cid].
      fold sl. rewrite Hw.
      destruct (completion_fields (word16 c 2) (Z.b2z (round_phase pl (length log))) status) as (F1 & F2 & F3); [lia|by destruct (round_phase _ _)|done|].
      rewrite F1, F2, F3, Z.eqb_refl, slot_next, <- round_next.
      assert (negb (Z.b2z (round_phase pl (length log)) =? 0) = round_phase pl (length log)) as -> by (by destruct (round_phase _ _)).
      rewrite eqb_reflx. cbn [negb orb]. done.
  - destruct (ctl_works m k c log Hbusy) as [Hb Hsame].
    destruct (IH (hw_pause m) c log next Hb) as (status & q' & m' & Hst & Hin & Hrun); [intros x Hx; rewrite Hsame by done; by apply Hclr|done..|].
    exists status, q', m'. split; [done|]. split; [done|]. intros [|fuel] Hf; [lia|]. rewrite wait_goes_on by (done || lia). apply Hrun. lia.
Qed.

Lemma length_command c : length (command_bytes c) = 64%nat.
Proof. done. Qed.

(** What the driver hands over and what the controller executed. *)
Definition carried_out (c : NvmeCommand) (e : list Z * Z) : Prop :=
  ∃ cid, 0 < cid < 65536 ∧ e.1 = command_bytes (with_cid c cid) ∧ 0 <= e.2 < 32768.

Lemma submit_executes m q log c : in_step m q log →
  ∃ e n q' m', carried_out c e ∧ in_step m' q' (log ++ [e]) ∧
    ∀ fuel, (n <= fuel)%nat → submit_command fuel m (pl_bells pl) q (pl_id pl) c = Some (Z.land e.2 0x7F =? 0, q', m').
Proof.
  intros (Hidle & Hclr & Hnext & ->). cbn [q_next_cid] in Hnext. destruct q as [sq cq dep tail head ph next]. cbn [q_next_cid] in *.
  set (cid := if next =? 0 then 1 else next). assert (0 < cid < 65536) as Hcid by (subst cid; destruct (next =? 0) eqn:E; zbool; lia).
  set (cb := command_bytes (with_cid c cid)). set (m1 := hw_store m (pl_sq pl + 64 * slot pl (length log)) cb).
  pose proof (slot_range (length log)) as Hsl.
  assert (load_bytes m1 (pl_sq pl + 64 * slot pl (length log)) 64 = cb) as Hcb.
  { change 64 with (Z.of_nat (length cb)) at 2. apply load_stored. }
  destruct (ctl_fetches m1 log ltac:(by apply ctl_memory)) as [[n Hbusy] Hsame]. rewrite Hcb in Hbusy.
  destruct (wait_takes_completion n _ cb log (u16 (cid + 1)) Hbusy) as (status & q' & m' & Hst & Hin & Hrun).
  - intros x Hx. rewrite Hsame by done. unfold m1. rewrite load_outside; [by apply Hclr|]. unfold cb. rewrite length_command.
    unfold in_cq in Hx. lia.
  - unfold cb. rewrite command_cid; lia.
  - apply u16_range.
  - exists (cb, status), (n + 2)%nat, q', m'. split; [by exists cid|]. split; [done|]. intros fuel Hf. unfold submit_command.
    cbn [q_sq q_cq q_next_cid q_sq_tail q_depth q_cq_head q_cq_phase].
    rewrite (proj2 (Z.eqb_neq (pl_sq pl) 0)), (proj2 (Z.eqb_neq (pl_cq pl) 0)) by done. cbn [orb]. fold cid cb m1. rewrite slot_next.
    specialize (Hrun fuel Hf). unfold cb in Hrun at 1. rewrite command_cid in Hrun by lia. exact Hrun.
Qed.

(** Commands one after the other. *)
Fixpoint run_commands (fuel : nat) m (q : NvmeQueue) (cs : list NvmeCommand) : option (list bool * NvmeQueue * M) :=
  match cs with
  | [] => Some ([], q, m)
  | c :: cs' =>
      '(ok, q, m) ← submit_command fuel m (pl_bells pl) q (pl_id pl) c;
      '(oks, q, m) ← run_commands fuel m q cs';
      Some (ok :: oks, q, m)
  end.

(** C36: Any number of commands given to a queue one after the other return,
    and the controller has then executed exactly these, once each and in
    order, also when the rings wrap around and the command numbers start
    again: every result is the low seven bits of the status of its own
    command being zero. *)
Theorem commands_execute_in_order cs : ∀ m q log, in_step m q log →
  ∃ es n q' m', Forall2 carried_out cs es ∧ in_step m' q' (log ++ es) ∧
    ∀ fuel, (n <= fuel)%nat → run_commands fuel m q cs = Some ((λ e, Z.land e.2 0x7F =? 0) <$> es, q', m').
Proof.
  induction cs as [|c cs IH]; intros m q log Hs.
  - exists [], 0%nat, q, m. split; [done|]. split; [by rewrite app_nil_r|]. done.
  - destruct (submit_executes m q log c Hs) as (e & n1 & q1 & m1 & He & Hs1 & Hr1).
    destruct (IH m1 q1 _ Hs1) as (es & n2 & q2 & m2 & Hes & Hs2 & Hr2).
    exists (e :: es), (n1 + n2)%nat, q2, m2. split; [by constructor|]. split; [by rewrite cons_middle, app_assoc|].
    intros fuel Hf. cbn [run_commands]. rewrite Hr1 by lia. cbn. rewrite Hr2 by lia. done.
Qed.
End commands.

(** ** The queues and the page tables of the 64-bit build *)

Section tables.
Context {M : Type} `{NM : NvmeMem M phys_of} (heap_base pml4 : Z).

Lemma align_used_page n : 0 < n <= kPageSize → align_used n kPageSize = kPageSize.
Proof.
  unfold align_used, kPageSize. intros Hn. change 4096 with (2 ^ 12) at 2. change (4096 - 1) with 4095.
  rewrite land_lnot_pow2 by lia. Z.div_mod_to_equations. lia.
Qed.

(** The first two pieces taken from the heap are its first two pages. *)
Lemma alloc_first (s : nvme (M := M)) size : g_nvme_heap_used s = 0 → 0 < size <= kPageSize →
  nvme_alloc heap_base s size kPageSize = (heap_base, set_used s size).
Proof.
  intros Hu Hn. unfold nvme_alloc, kPageSize, kNvmeHeapSize in *. rewrite Hu, (proj2 (Z.eqb_neq size 0)) by lia.
  change (align_used 0 (if 4096 =? 0 then 1 else 4096)) with 0. rewrite (proj2 (Z.ltb_ge 262144 _)) by lia. by rewrite Z.add_0_r, Z.add_0_l.
Qed.

Lemma alloc_second (s : nvme (M := M)) size : 0 < g_nvme_heap_used s <= kPageSize → 0 < size <= kPageSize →
  nvme_alloc heap_base s size kPageSize = (heap_base + kPageSize, set_used s (kPageSize + size)).
Proof.
  intros Hu Hn. unfold nvme_alloc, kNvmeHeapSize in *. rewrite (proj2 (Z.eqb_neq size 0)) by lia.
  change (if kPageSize =? 0 then 1 else kPageSize) with kPageSize. rewrite align_used_page by done. unfold kPageSize in *.
  by rewrite (proj2 (Z.ltb_ge 262144 _)) by lia.
Qed.

Lemma map_large_pages_mmio (s : nvme (M := M)) i b n : g_mmio (map_large_pages s i b n) = g_mmio s.
Proof.
  unfold map_large_pages. generalize (seqZ 0 n). intros l. revert s. induction l as [|x l IH]; intros s; [done|]. cbn [fold_left]. by rewrite IH.
Qed.

Lemma mapped_tables (s : nvme (M := M)) phys :
  heap_base ≠ 0 → heap_base + kPageSize ≠ 0 → g_nvme_heap_used s = 0 → g_mmio s = no_mmio → Z.land (load64 (nv_m s) (pml4 + 8 * 256)) 1 = 0 →
  let '(_, s1) := map_physical_region heap_base pml4 s phys 0x1000 in
  g_mmio_pdpt (g_mmio s1) = heap_base ∧ g_mmio_pd (g_mmio s1) = heap_base + kPageSize.
Proof.
  intros Hh Hh2 Hu Hm Hp. unfold map_physical_region, ensure_mmio_tables, ensure_pdpt. rewrite Hm. cbn [no_mmio g_mmio_next g_mmio_pd].
  change (Z.land (Z.shiftr 0xFFFF800000000000 39) 0x1FF) with 256. rewrite Hp. cbn [Z.eqb].
  rewrite alloc_first by (done || (unfold kPageSize; lia)). rewrite (proj2 (Z.eqb_neq heap_base 0)) by done. cbn [negb].
  unfold ensure_pd. cbn [set_m set_mmio store64 set_used g_mmio g_mmio_pd g_mmio_pdpt g_mmio_next]. rewrite Hm. cbn [no_mmio g_mmio_pd g_mmio_pdpt g_mmio_next Z.eqb].
  rewrite alloc_second by (cbn [set_m set_mmio store64 set_used g_nvme_heap_used]; unfold kPageSize; lia).
  rewrite (proj2 (Z.eqb_neq (heap_base + _) 0)) by done. cbn [negb].
  destruct (512 <? _); [done|]. by rewrite map_large_pages_mmio.
Qed.

Lemma attach_mmio (s : nvme (M := M)) base : g_mmio (attach s base) = g_mmio s ∧ g_nvme_heap_used (attach s base) = 0.
Proof. unfold attach, read_reg. destruct (hw_read _ _) as [v m]. cbn. by destruct (hw_read _ _) as [v' m']. Qed.

Lemma queue_init_first (s : nvme (M := M)) depth :
  heap_base ≠ 0 → heap_base + kPageSize ≠ 0 → g_nvme_heap_used s = 0 → 2 <= depth <= kQueueDepth →
  let '(q, s') := queue_init heap_base s depth in
  q_sq q = heap_base ∧ q_cq q = heap_base + kPageSize ∧ g_mmio s' = g_mmio s ∧ load64 (nv_m s') heap_base = 0.
Proof.
  intros Hh Hh2 Hu Hd. unfold kQueueDepth in Hd. unfold queue_init. rewrite alloc_first by (done || (unfold kPageSize; lia)).
  rewrite alloc_second by (cbn [set_used g_nvme_heap_used]; unfold kPageSize; lia).
  rewrite (proj2 (Z.eqb_neq heap_base 0)), (proj2 (Z.eqb_neq (heap_base + _) 0)) by done. cbn [negb].
  split; [done|]. split; [done|]. split; [done|]. cbn [set_m nv_m set_used]. unfold load64, zero_mem.
  assert (∀ m, load_bytes (hw_store (hw_store m heap_base (replicate (Z.to_nat (depth * 64)) 0)) (heap_base + kPageSize)
    (replicate (Z.to_nat (depth * 16)) 0)) heap_base 8 = replicate 8 0) as ->; [|done].
  intros m. unfold load_bytes. change (replicate 8 0) with ((λ _ : Z, 0) <$> seqZ 0 8). apply list_fmap_ext.
  intros i x Hx. apply lookup_seqZ in Hx. rewrite load_outside by (unfold kPageSize; lia). rewrite load_store, length_replicate.
  rewrite (proj2 (Z.leb_le _ _)), (proj2 (Z.ltb_lt _ _)) by lia. cbn [andb]. unfold zget. by rewrite lookup_total_replicate_2 by lia.
Qed.

(** Mapping the registers takes two pages of the heap for tables, [init] then
    starts the heap again, and the admin queue is placed on these pages and
    cleared: the entry that leads to the registers is gone. *)
Lemma queues_overwrite_tables (s : nvme (M := M)) phys depth :
  heap_base ≠ 0 → heap_base + kPageSize ≠ 0 → g_nvme_heap_used s = 0 → g_mmio s = no_mmio → 2 <= depth <= kQueueDepth →
  Z.land (load64 (nv_m s) (pml4 + 8 * 256)) 1 = 0 →
  let '(base, s1) := map_physical_region heap_base pml4 s phys 0x1000 in
  let '(admin, s2) := queue_init heap_base (attach s1 base) depth in
  q_sq admin = g_mmio_pdpt (g_mmio s2) ∧ q_cq admin = g_mmio_pd (g_mmio s2) ∧ load64 (nv_m s2) (g_mmio_pdpt (g_mmio s2)) = 0.
Proof.
  intros Hh Hh2 Hu Hm Hd Hp. pose proof (mapped_tables s phys Hh Hh2 Hu Hm Hp) as HT. destruct (map_physical_region _ _ _ _ _) as [base s1].
  destruct HT as [HT1 HT2]. destruct (attach_mmio s1 base) as [Ha1 Ha2].
  pose proof (queue_init_first (attach s1 base) depth Hh Hh2 Ha2 Hd) as HQ. destruct (queue_init _ _ _) as [admin s2].
  destruct HQ as (Hq1 & Hq2 & Hq3 & Hq4). rewrite Hq3, Ha1, HT1, HT2. done.
Qed.
End tables.

(** ** A machine with a controller on one queue *)

(** Memory, the command at work with the pauses left, what was executed, and
    how many completions were taken. *)
Record desk := mk_desk { dk_mem : Z → Z; dk_work : option (nat * list Z); dk_log : list (list Z * Z); dk_taken : nat }.

Definition desk_place : place := mk_place 4096 8192 2 (mk_bells 0x10000 1) 1.
Definition swap_page (a : Z) : Z := if Z.even (a / kPageSize) then a + kPageSize else a - kPageSize.
(** Reads fail with "LBA out of range", everything else succeeds. *)
Definition desk_status (c : list Z) : Z := if zget c 0 =? 2 then 0x80 else 0.
Definition desk_store (f : Z → Z) (a : Z) (bs : list Z) (x : Z) : Z :=
  if (a <=? x) && (x <? a + Z.of_nat (length bs)) then zget bs (x - a) else f x.

Definition desk_write (m : desk) (a v : Z) : desk :=
  if (a =? 0x10008) && (v =? slot desk_place (S (length (dk_log m)))) then
    let c := (λ i, dk_mem m (4096 + 64 * slot desk_place (length (dk_log m)) + i)) <$> seqZ 0 64 in
    mk_desk (dk_mem m) (Some (3%nat, c)) (dk_log m) (dk_taken m)
  else if (a =? 0x1000C) && (v =? slot desk_place (length (dk_log m))) then
    mk_desk (dk_mem m) (dk_work m) (dk_log m) (length (dk_log m))
  else m.
Definition desk_pause (m : desk) : desk :=
  match dk_work m with
  | None => m
  | Some (S n, c) => mk_desk (dk_mem m) (Some (n, c)) (dk_log m) (dk_taken m)
  | Some (O, c) =>
      let n := length (dk_log m) in
      let dw3 := word16 c 2 + 65536 * (Z.b2z (round_phase desk_place n) + 2 * desk_status c) in
      mk_desk (desk_store (dk_mem m) (8192 + 16 * slot desk_place n) (replicate 12 0 ++ le32 dw3)) None (dk_log m ++ [(c, desk_status c)]) (dk_taken m)
  end.
#[export] Instance desk_hw : NvmeHw desk := {|
  hw_load m := dk_mem m;
  hw_store m a bs := mk_desk (desk_store (dk_mem m) a bs) (dk_work m) (dk_log m) (dk_taken m);
  hw_read m a := (0, m);
  hw_write := desk_write;
  hw_pause := desk_pause;
|}.

Lemma swap_page_twice a : swap_page (swap_page a) = a.
Proof.
  unfold swap_page, kPageSize. destruct (Z.even (a / 4096)) eqn:E.
  - rewrite (ltac:(Z.div_mod_to_equations; lia) : (a + 4096) / 4096 = a / 4096 + 1), Z.add_1_r, Z.even_succ, <- Z.negb_even, E. cbn [negb]. lia.
  - rewrite (ltac:(Z.div_mod_to_equations; lia) : (a - 4096) / 4096 = a / 4096 - 1), Z.sub_1_r, Z.even_pred, <- Z.negb_even, E. cbn [negb]. lia.
Qed.

#[export] Program Instance desk_mem : NvmeMem desk swap_page := {| phys_load m a := dk_mem m (swap_page a) |}.
Next Obligation. done. Qed.
Next Obligation. intros m a. cbn. by rewrite swap_page_twice. Qed.
Next Obligation.
  intros a i Hi Ha. unfold swap_page, kPageSize in *.
  rewrite (ltac:(Z.div_mod_to_equations; lia) : (a + i) / 4096 = a / 4096). destruct (Z.even _); lia.
Qed.
Next Obligation. intros a. unfold swap_page, kPageSize. destruct (Z.even _); Z.div_mod_to_equations; lia. Qed.
Next Obligation.
  intros a Ha. unfold swap_page, kPageSize. change (2 ^ 64) with (4096 * 4503599627370496) in *.
  destruct (Z.even (a / 4096)) eqn:E.
  - apply Z.even_spec in E as [k E]. Z.div_mod_to_equations. lia.
  - rewrite <- Z.negb_odd in E. apply negb_false_iff, Z.odd_spec in E as [k E]. Z.div_mod_to_equations. lia.
Qed.

#[export] Program Instance desk_ctl : NvmeCtl desk desk_place := {|
  ctl_idle m log taken := dk_work m = None ∧ dk_log m = log ∧ dk_taken m = taken;
  ctl_busy m n c log := dk_work m = Some (n, c) ∧ dk_log m = log ∧ dk_taken m = length log;
|}.
Next Obligation. done. Qed.
Next Obligation.
  intros m log (Hw & Hl & Ht). cbn [hw_write desk_hw]. unfold desk_write.
  change (doorbell (pl_bells desk_place) (pl_id desk_place) false) with 0x10008. rewrite Hl, !Z.eqb_refl. cbn [andb].
  split; [|done]. exists 3%nat. split; [done|]. by rewrite Ht.
Qed.
Next Obligation. intros m n c log (Hw & Hl & Ht). cbn. unfold desk_pause. by rewrite Hw. Qed.
Next Obligation.
  intros m c log (Hw & Hl & Ht) Hc. exists (desk_status c). pose proof (slot_range desk_place ltac:(cbn; lia) (length log)) as Hs. cbn [pl_depth desk_place] in Hs.
  cbn [hw_pause desk_hw]. unfold desk_pause. rewrite Hw, Hl. cbn [dk_work dk_log dk_taken dk_mem pl_cq desk_place].
  split; [unfold desk_status; by destruct (_ =? _)|]. split; [done|]. split.
  - set (bs := replicate 12 0 ++ _). set (a := 8192 + _). pose proof (load_stored (NM := desk_mem) m a bs) as E.
    change (load_bytes (hw_store m a bs) a 16 = bs) in E. unfold load_bytes in *. cbn [hw_load hw_store desk_hw dk_mem] in *. rewrite E.
    apply (word32_le32 (replicate 12 0) _ []). unfold desk_status. destruct (round_phase _ _), (_ =? 2); cbn; lia.
  - intros x Hx Ho. unfold desk_store. cbn [hw_load desk_hw]. cbn [dk_mem]. destruct (_ <=? x) eqn:E1; [|done]. destruct (x <? _) eqn:E2; [|done]. zbool. cbn in E2. lia.
Qed.
Next Obligation.
  intros m log taken (Hw & Hl & Ht). cbn [hw_write desk_hw]. unfold desk_write.
  change (doorbell (pl_bells desk_place) (pl_id desk_place) true) with 0x1000C. rewrite Hl, !Z.eqb_refl. by cbn [andb Z.eqb Pos.eqb].
Qed.

Definition desk_start : desk := mk_desk (λ _, 0) None [] 0.
Definition desk_queue : NvmeQueue := mk_queue 4096 8192 2 0 0 true 65535.
(** Two writes and a read: the ring of two entries wraps around, and so do the
    command numbers. *)
Definition desk_commands : list NvmeCommand :=
  [mk_command 1 0 1 0x5000 0 7 0 0; mk_command 1 0 1 0x5000 0 8 0 0; mk_command 2 0 1 0x5000 0 9 0 0].

Lemma prps_name_buffer_witness : ∃ prps m', build_prps 0x3000 swap_page desk_start 0x5010 10000 = (Some prps, m') ∧
  dma_addr (phys_load m') prps 10000 9999 = swap_page (0x5010 + 9999).
Proof.
  destruct (prps_name_buffer 0x3000 desk_start 0x5010 10000) as (prps & m' & E & Ha & _); [done..|by vm_compute|done|].
  exists prps, m'. split; [exact E|]. apply Ha. done.
Defined.

Lemma desk_in_step : in_step desk_place desk_start desk_queue [].
Proof. split; [done|]. split; [by intros x _|]. done. Qed.

Lemma commands_execute_in_order_witness : ∃ es n q' m', Forall2 carried_out desk_commands es ∧ in_step desk_place m' q' es ∧
  ∀ fuel, (n <= fuel)%nat → run_commands desk_place fuel desk_start desk_queue desk_commands = Some ((λ e, Z.land e.2 0x7F =? 0) <$> es, q', m').
Proof.
  exact (commands_execute_in_order (NM := desk_mem) desk_place ltac:(cbn; lia) ltac:(done) ltac:(done) ltac:(cbn; lia)
    desk_commands desk_start desk_queue [] desk_in_step).
Defined.

(** A command the controller refuses with status 80h, "LBA out of range", is
    reported as done: the mask drops the upper bit of the status code. *)
Lemma out_of_range_reported_as_done :
  (λ r, (r.1.1, snd <$> dk_log r.2)) <$> submit_command 10 desk_start (pl_bells desk_place) desk_queue 1 (mk_command 2 0 1 0x5000 0 9 0 0)
    = Some (true, [0x80]).
Proof. vm_compute. reflexivity. Qed.
