(* ===== verification/Ahci.v ===== *)
(** * The AHCI driver ([kernel/ahci.cpp])

    The 32-bit build; in the 64-bit one no controller is ever mapped.  The
    machine is [NvmeHw]'s: memory, registers at the addresses they are mapped
    to, and [hw_pause] for the scheduler's [sleep_current], while which the
    controller goes on.  The kernel heap and the page tables are the functions
    of the class [KernelMem]. *)

From S2P Require Import Prelude CText Serial Bytes Block Pci Nvme.

Class KernelMem (M : Type) := {
  heap_alloc : M → Z → Z → Z * M;
  map_page : M → Z → Z → bool * M;
  virt_to_phys : M → Z → Z;
}.

(** Addresses, 0 for null. *)
Record PortState := mk_port { p_regs : Z; p_clb : Z; p_fis : Z; p_cmd_tables : Z; p_present : bool }.
#[export] Instance PortState_inhabited : Inhabited PortState := populate (mk_port 0 0 0 0 false).

Section ahci.
Context {M : Type} `{NvmeHw M} `{KernelMem M}.

Record ahci := mk_ahci { ah_m : M; ah_tx : serial; g_hba_regs : Z; g_ports : list PortState }.

Definition with_mem (s : ahci) (m : M) : ahci := mk_ahci m (ah_tx s) (g_hba_regs s) (g_ports s).
Definition print (s : ahci) (t : string) : ahci := mk_ahci (ah_m s) (Serial.write (ah_tx s) (Some (txt t))) (g_hba_regs s) (g_ports s).
Definition print_hex (s : ahci) (v : Z) : ahci := mk_ahci (ah_m s) (Serial.write_hex (ah_tx s) v) (g_hba_regs s) (g_ports s).
Definition newline (s : ahci) : ahci := mk_ahci (ah_m s) (Serial.write (ah_tx s) (Some ["010"%char])) (g_hba_regs s) (g_ports s).
Definition reg_in (s : ahci) (a : Z) : Z * ahci := let '(v, m) := hw_read (ah_m s) a in (v, with_mem s m).
Definition reg_out (s : ahci) (a v : Z) : ahci := with_mem s (hw_write (ah_m s) a v).
Definition store (s : ahci) (a : Z) (bs : list Z) : ahci := with_mem s (hw_store (ah_m s) a bs).
Definition fill_zero (s : ahci) (a n : Z) : ahci := store s a (replicate (Z.to_nat n) 0).

(** ** Finding the controller *)

Fixpoint map_pages (n : nat) (m : M) (v p : Z) : bool * M :=
  match n with
  | O => (true, m)
  | S n' => let '(ok, m) := map_page m v p in if negb ok then (false, m) else map_pages n' m (v +u 4096) (p +u 4096)
  end.

(** The address, 0 when it fails. *)
Definition map_physical_region (s : ahci) (phys size : Z) : Z * ahci :=
  let pages := (size +u 4096 -u 1) / 4096 in
  let '(virt, m) := heap_alloc (ah_m s) (pages *u 4096) 4096 in
  if virt =? 0 then (0, with_mem s m)
  else
    let '(ok, m) := map_pages (Z.to_nat pages) m virt (Z.land phys 0xFFFFF000) in
    (if ok then virt else 0, with_mem s m).

(** The first BAR in memory, without its flags. *)
Fixpoint first_bar (bars : list Z) : Z :=
  match bars with
  | [] => 0
  | b :: bars' => if negb (b =? 0) && (Z.land b 1 =? 0) then Z.land b (u32 (Z.lnot 0xF)) else first_bar bars'
  end.
Definition is_ahci (d : Device) : bool := (class_code d =? 0x01) && (subclass d =? 0x06).
Definition port_base (regs port : Z) : Z := regs + 0x100 + port * 0x80.
Definition implemented (pi port : Z) : bool := negb (Z.land pi (u32 (Z.shiftl 1 port)) =? 0).

Definition show_port (indent : string) (s : ahci) (regs port : Z) : ahci :=
  let '(sig, s) := reg_in s (port_base regs port + 0x24) in
  let '(ssts, s) := reg_in s (port_base regs port + 0x28) in
  newline (print_hex (print (print_hex (print (print_hex (print s indent) port) ": SIG=0x") sig) " SSTS=0x") ssts).
Definition show_caps (prefix : string) (s : ahci) (regs : Z) : Z * ahci :=
  let '(cap, s) := reg_in s regs in
  let '(pi, s) := reg_in s (regs + 0x0C) in
  (pi, newline (print_hex (print (print_hex (print s prefix) cap) " PI=0x") pi)).

Definition print_controller (s : ahci) (d : Device) : ahci :=
  if negb (is_ahci d) then s
  else
    let s := print_hex (print s "AHCI controller at ") (d_bus d) in
    let s := print_hex (print s ":") (d_slot d) in
    let s := print_hex (print s ":") (d_func d) in
    let s := print_hex (print s " vendor=0x") (vendor_id d) in
    let s := newline (print_hex (print s " device=0x") (device_id d)) in
    let mmio := first_bar (bar d) in
    if mmio =? 0 then newline (print s "  no MMIO BAR found")
    else
      let '(base, s) := map_physical_region s mmio 0x8000 in
      if base =? 0 then newline (print s "  failed to map AHCI MMIO")
      else
        let '(pi, s) := show_caps "  CAP=0x" s base in
        fold_left (λ s port, if implemented pi port then show_port "    port " s base port else s) (seqZ 0 32) s.
Definition print_info {B} `{ConfigSpace B} (b : B) (s : ahci) : ahci :=
  match scan_devices b 64 with
  | [] => newline (print s "ahci: no PCI devices found")
  | devs => fold_left print_controller devs s
  end.

(** ** Ports *)

Definition set_bits (s : ahci) (a bits : Z) : ahci := let '(v, s) := reg_in s a in reg_out s a (Z.lor v bits).

Definition start_port (s : ahci) (port : Z) : ahci :=
  if 32 <=? port then s
  else
    let p := zget (g_ports s) port in
    if negb (p_present p) || (p_regs p =? 0) then s
    else
      let regs := p_regs p in
      let s := reg_out s regs (virt_to_phys (ah_m s) (p_clb p)) in
      let s := reg_out s (regs + 0x04) 0 in
      let s := reg_out s (regs + 0x08) (virt_to_phys (ah_m s) (p_fis p)) in
      let s := reg_out s (regs + 0x0C) 0 in
      let '(pxis, s) := reg_in s (regs + 0x10) in
      let s := reg_out s (regs + 0x10) pxis in
      let s := set_bits s (regs + 0x18) (Z.shiftl 1 4) in
      let s := set_bits s (regs + 0x18) 0x1 in
      with_mem s (hw_pause (ah_m s)).

Definition add_port (pi : Z) (s : ahci) (port : Z) : ahci :=
  if negb (implemented pi port) then s
  else
    let s := show_port "ahci: port " s (g_hba_regs s) port in
    let '(clb, m) := heap_alloc (ah_m s) 1024 1024 in
    let '(fis, m) := heap_alloc m 256 256 in
    let '(cmd_tables, m) := heap_alloc m (256 * 32) 1024 in
    let ports := zset (g_ports s) port (mk_port (port_base (g_hba_regs s) port) clb fis cmd_tables true) in
    start_port (mk_ahci m (ah_tx s) (g_hba_regs s) ports) port.

Definition ahci_block : BlockDevice := mk_device (Some (txt "ahci0")) 512 0 true true.

Fixpoint init_loop (devs : list Device) (s : ahci) : option BlockDevice * ahci :=
  match devs with
  | [] => (None, s)
  | d :: devs' =>
      let mmio := first_bar (bar d) in
      if negb (is_ahci d) || (mmio =? 0) then init_loop devs' s
      else
        let '(base, s) := map_physical_region s mmio 0x8000 in
        if base =? 0 then init_loop devs' s
        else
          let s := mk_ahci (ah_m s) (ah_tx s) base (g_ports s) in
          let '(pi, s) := show_caps "ahci: CAP=0x" s base in
          (Some ahci_block, fold_left (add_port pi) (seqZ 0 32) s)
  end.
(** Also the device given to [block_register_device]. *)
Definition init {B} `{ConfigSpace B} (b : B) (s : ahci) : bool * option BlockDevice * ahci :=
  let '(dev, s) := init_loop (scan_devices b 64) s in (bool_decide (is_Some dev), dev, s).

(** ** Transfers *)

(** [HbaCmdHeader] and [HbaPrdtEntry] as they lie in memory. *)
Definition header_bytes (dw0 prdtl prdbc ctba_low ctba_high : Z) : list Z :=
  le32 dw0 ++ le32 prdtl ++ le32 prdbc ++ le32 ctba_low ++ le32 ctba_high.
Definition prdt_bytes (dba_low dba_high dbc : Z) : list Z := le32 dba_low ++ le32 dba_high ++ le32 dbc ++ le32 0.

(** The entries from [prdt]; what remains and how many were made. *)
Fixpoint prdt_loop (entries : nat) (s : ahci) (prdt cur remaining prdt_count : Z) : Z * Z * ahci :=
  match entries with
  | O => (remaining, prdt_count, s)
  | S entries' =>
      if 0 <? remaining then
        let chunk := if 0x100000 <? remaining then 0x100000 else remaining in
        let dbc := Z.land (chunk -u 1) 0x3FFFFF in
        let dbc := if remaining <=? chunk then Z.lor dbc (Z.shiftl 1 31) else dbc in
        let s := store s (prdt + 16 * prdt_count) (prdt_bytes (virt_to_phys (ah_m s) cur) 0 dbc) in
        prdt_loop entries' s prdt (cur +u chunk) (remaining -u chunk) (prdt_count + 1)
      else (remaining, prdt_count, s)
  end.

(** The first 14 bytes of the command FIS, and the bytes after them. *)
Definition cfis_bytes (command lba count : Z) : list Z :=
  [0x27; Z.shiftl 1 7; command; 0;
   Z.land lba 0xFF; Z.land (Z.shiftr lba 8) 0xFF; Z.land (Z.shiftr lba 16) 0xFF; Z.land (Z.shiftr lba 24) 0xFF;
   Z.land (Z.shiftr lba 32) 0xFF; Z.land (Z.shiftr lba 40) 0xFF; 0; 0;
   Z.land (u16 count) 0xFF; Z.land (Z.shiftr (u16 count) 8) 0xFF] ++ replicate 50 0.

(** [None]: PxCI has not cleared within the fuel. *)
Fixpoint ci_wait (fuel : nat) (s : ahci) (regs : Z) : option ahci :=
  match fuel with
  | O => None
  | S fuel' =>
      let '(ci, s) := reg_in s (regs + 0x38) in
      if negb (Z.land ci 1 =? 0) then ci_wait fuel' (with_mem s (hw_pause (ah_m s))) regs else Some s
  end.

Definition issue (fuel : nat) (s : ahci) (regs : Z) : option (bool * ahci) :=
  s ← ci_wait fuel (reg_out s (regs + 0x38) 1) regs;
  let '(tfd, s) := reg_in s (regs + 0x20) in
  Some (Z.land tfd 1 =? 0, s).

(** [ahci_submit_read_port] with the command 0x25, [ahci_submit_write_port]
    with 0x35: nothing else differs. *)
Definition ahci_submit_port (command : Z) (fuel : nat) (s : ahci) (port lba buf count : Z) : option (bool * ahci) :=
  let p := zget (g_ports s) port in
  if (32 <=? port) || negb (p_present p) || (buf =? 0) || (count =? 0) || (p_regs p =? 0) then Some (false, s)
  else
    let s := fill_zero s (p_clb p) 1024 in
    let ct := p_cmd_tables p in
    let s := fill_zero s ct 256 in
    let '(remaining, prdt_count, s) := prdt_loop 256 s (ct + 128) buf (count *u 512) 0 in
    if negb (remaining =? 0) then Some (false, s)
    else
      let s := store s ct (cfis_bytes command lba count) in
      let s := store s (p_clb p) (header_bytes (Z.land 5 0x1F) prdt_count 0 (virt_to_phys (ah_m s) ct) 0) in
      issue fuel s (p_regs p).
Definition ahci_submit_read_port : nat → ahci → Z → Z → Z → Z → option (bool * ahci) := ahci_submit_port 0x25.
Definition ahci_submit_write_port : nat → ahci → Z → Z → Z → Z → option (bool * ahci) := ahci_submit_port 0x35.

(** The first port in use. *)
Definition ahci_first_port (s : ahci) : option Z :=
  List.find (λ port, p_present (zget (g_ports s) port) && negb (p_regs (zget (g_ports s) port) =? 0)) (seqZ 0 32).
Definition ahci_read_sectors (fuel : nat) (s : ahci) (lba buf count : Z) : option (bool * ahci) :=
  if (buf =? 0) || (count =? 0) then Some (false, s)
  else match ahci_first_port s with Some port => ahci_submit_read_port fuel s port lba buf count | None => Some (false, s) end.
Definition ahci_write_sectors (fuel : nat) (s : ahci) (lba buf count : Z) : option (bool * ahci) :=
  if (buf =? 0) || (count =? 0) then Some (false, s)
  else match ahci_first_port s with Some port => ahci_submit_write_port fuel s port lba buf count | None => Some (false, s) end.
End ahci.

(** ** What the structures say *)

Section meaning.
Context {M : Type} `{NvmeHw M} `{KernelMem M}.

(** The command FIS names sectors of 48 bits and up to 65535 of them. *)
Lemma cfis_names_sectors command lba count :
  0 <= lba < 2 ^ 48 → 0 <= count < 65536 →
  let f := cfis_bytes command lba count in
  length f = 64%nat ∧ zget f 2 = command ∧
  zget f 4 + 256 * zget f 5 + 65536 * zget f 6 + 16777216 * zget f 7 + 4294967296 * zget f 8 + 1099511627776 * zget f 9 = lba ∧
  word16 f 12 = count.
Proof.
  intros Hl Hc f. split; [done|]. split; [done|]. subst f. unfold word16.
  change (zget (cfis_bytes command lba count) 4) with (Z.land lba 0xFF). change (zget (cfis_bytes command lba count) 5) with (Z.land (Z.shiftr lba 8) 0xFF).
  change (zget (cfis_bytes command lba count) 6) with (Z.land (Z.shiftr lba 16) 0xFF). change (zget (cfis_bytes command lba count) 7) with (Z.land (Z.shiftr lba 24) 0xFF).
  change (zget (cfis_bytes command lba count) 8) with (Z.land (Z.shiftr lba 32) 0xFF). change (zget (cfis_bytes command lba count) 9) with (Z.land (Z.shiftr lba 40) 0xFF).
  change (zget (cfis_bytes command lba count) 12) with (Z.land (u16 count) 0xFF). change (zget (cfis_bytes command lba count) (12 + 1)) with (Z.land (Z.shiftr (u16 count) 8) 0xFF).
  rewrite (u16_small count) by lia. change 0xFF with (Z.ones 8). rewrite !Z.land_ones, !Z.shiftr_div_pow2 by lia.
  change (2 ^ 8) with 256. change (2 ^ 16) with 65536. change (2 ^ 24) with 16777216. change (2 ^ 32) with 4294967296. change (2 ^ 40) with 1099511627776.
  change (2 ^ 48) with 281474976710656 in Hl. split; Z.div_mod_to_equations; lia.
Qed.

(** Larger counts lose their upper bits. *)
Lemma cfis_count_wraps command lba : word16 (cfis_bytes command lba 65537) 12 = 1.
Proof. reflexivity. Qed.

(** The loop makes an entry for every started MiB, up to 256 of them. *)
Lemma prdt_loop_count n : ∀ (s : ahci (M := M)) prdt cur r k, 0 <= r < 4294967296 →
  let '(r', k', _) := prdt_loop n s prdt cur r k in
  r' = Z.max 0 (r - 1048576 * Z.of_nat n) ∧ k' = k + Z.min (Z.of_nat n) ((r + 1048575) / 1048576).
Proof.
  induction n as [|n IH]; intros s prdt cur r k Hr; cbn [prdt_loop]; [split; [lia|Z.div_mod_to_equations; lia]|].
  destruct (0 <? r) eqn:E; zbool; [|assert (r = 0) as -> by lia; split; [lia|change ((0 + 1048575) / 1048576) with 0; lia]].
  set (chunk := if 0x100000 <? r then 0x100000 else r).
  assert (chunk = Z.min 1048576 r) as Hc by (subst chunk; destruct (0x100000 <? r) eqn:E2; zbool; lia).
  rewrite (u32_small (r - chunk)) by lia.
  specialize (IH (store s (prdt + 16 * k) (prdt_bytes (virt_to_phys (ah_m s) cur) 0
    (if r <=? chunk then Z.lor (Z.land (chunk -u 1) 4194303) (Z.shiftl 1 31) else Z.land (chunk -u 1) 4194303))) prdt (cur +u chunk) (r - chunk) (k + 1) ltac:(lia)).
  destruct (prdt_loop _ _ _ _ _ _) as [[r' k'] s']. destruct IH as [-> ->]. split; [lia|].
  rewrite Hc. destruct (decide (r <= 1048576)).
  - rewrite (Z.min_r 1048576) by lia. rewrite Z.sub_diag. change ((0 + 1048575) / 1048576) with 0. Z.div_mod_to_equations. lia.
  - rewrite (Z.min_l 1048576) by lia. rewrite (ltac:(Z.div_mod_to_equations; lia) : (r + 1048575) / 1048576 = (r - 1048576 + 1048575) / 1048576 + 1). lia.
Qed.

(** Where a controller looks in a command header: the number of entries in
    the upper half of the first word, the command table in the third, and the
    direction in bit 6. *)
Definition hba_prdtl (h : list Z) : Z := Z.shiftr (word32 h 0) 16.
Definition hba_ctba (h : list Z) : Z := word32 h 8.
Definition hba_write (h : list Z) : bool := Z.testbit (word32 h 0) 6.

(** The header the driver writes says: no entries, a table at address 0, and
    never a write. *)
Lemma header_read_by_controller prdtl ctba :
  let h := header_bytes (Z.land 5 0x1F) prdtl 0 ctba 0 in hba_prdtl h = 0 ∧ hba_ctba h = 0 ∧ hba_write h = false.
Proof. done. Qed.

(** The wait for PxCI ends when the controller clears it, and only then. *)
Lemma ci_wait_endless (s : ahci (M := M)) regs fuel :
  (∀ m : M, Z.land (hw_read m (regs + 0x38)).1 1 ≠ 0) → ci_wait fuel s regs = None.
Proof.
  intros Hci. revert s. induction fuel as [|fuel IH]; intros s; [done|]. cbn [ci_wait]. unfold reg_in.
  specialize (Hci (ah_m s)). destruct (hw_read _ _) as [v m]. cbn [fst] in Hci. rewrite (proj2 (Z.eqb_neq _ 0) Hci). apply IH.
Qed.
End meaning.
