(* ===== verification/Xhci.v ===== *)
(** * The xHCI host controller driver ([kernel/xhci.cpp])

    Rings of transfer request blocks (TRBs) shared with the controller, the
    event ring with the table of completions, device enumeration and control
    and bulk transfers, as the 64-bit build has them: addresses are physical.
    The machine is [NvmeHw]'s: memory, registers where they are mapped, and
    [hw_pause].  Calls of [handle_irq] from elsewhere while one of these
    functions runs are not modelled. *)

From S2P Require Import Prelude CText Serial Bytes Pci Nvme.

Definition kPageSize : Z := 4096.
Definition kMmioVirtBase : Z := 0xFFFF800000000000.
Definition kMmioPageSize : Z := 2 * 1024 * 1024.
Definition kPtePresent : Z := Z.shiftl 1 0.
Definition kPteWrite : Z := Z.shiftl 1 1.
Definition kPtePwt : Z := Z.shiftl 1 3.
Definition kPtePcd : Z := Z.shiftl 1 4.
Definition kPtePs : Z := Z.shiftl 1 7.
Definition kTrbTypeLink : Z := 6.
Definition kTrbTypeEnableSlot : Z := 9.
Definition kTrbTypeAddressDevice : Z := 11.
Definition kTrbTypeConfigureEndpoint : Z := 12.
Definition kTrbTypeSetupStage : Z := 2.
Definition kTrbTypeDataStage : Z := 3.
Definition kTrbTypeStatusStage : Z := 4.
Definition kTrbTypeNormal : Z := 1.
Definition kTrbTypeCommandCompletion : Z := 33.
Definition kTrbTypeTransferEvent : Z := 32.
Definition kTrbCycle : Z := Z.shiftl 1 0.
Definition kTrbCh : Z := Z.shiftl 1 4.
Definition kTrbIoc : Z := Z.shiftl 1 5.
Definition kTrbIdt : Z := Z.shiftl 1 6.
Definition kTrbDirIn : Z := Z.shiftl 1 16.
Definition kTrbLinkTc : Z := Z.shiftl 1 1.
Definition kPortscCcs : Z := Z.shiftl 1 0.
Definition kPortscPed : Z := Z.shiftl 1 1.
Definition kPortscPr : Z := Z.shiftl 1 4.
Definition kPortscCsc : Z := Z.shiftl 1 17.
Definition kPortscPrc : Z := Z.shiftl 1 21.
Definition kUsbcmdRun : Z := Z.shiftl 1 0.
Definition kUsbcmdHcrst : Z := Z.shiftl 1 1.
Definition kUsbcmdInth : Z := Z.shiftl 1 2.
Definition kUsbstsHch : Z := Z.shiftl 1 0.
Definition kUsbstsCnr : Z := Z.shiftl 1 11.
Definition kUsbClassMassStorage : Z := 0x08.
Definition kUsbSubclassScsi : Z := 0x06.
Definition kUsbProtoBulk : Z := 0x50.
Definition kRingSize : Z := 256.
Definition kXhciHeapSize : Z := 256 * 1024.
Definition kCompletions : nat := 128.

(** Addresses, 0 for null.  [cycle] is 0 or 1 in the code. *)
Record Trb := mk_trb { parameter : Z; status : Z; control : Z }.
Record Ring := mk_ring { trbs : Z; r_size : Z; r_index : Z; r_cycle : bool; has_link : bool }.
Definition no_ring : Ring := mk_ring 0 0 0 false false.

(** The part of [Controller] that [controller_init] reads from the registers. *)
Record regs := mk_regs {
  r_base : Z; r_op : Z; r_rt : Z; r_db : Z; caplen : Z; dboff : Z; rtsoff : Z; max_slots : Z; max_ports : Z; ctx_size : Z;
}.
Record Controller := mk_controller {
  c_regs : regs; cmd_ring : Ring; evt_ring : Ring; evt_trbs : Z; evt_index : Z; evt_cycle : bool; dcbaa : Z; c_ready : bool;
}.
Record UsbSetupPacket := mk_setup { bm_request_type : Z; b_request : Z; w_value : Z; w_index : Z; w_length : Z }.
Record Endpoint := mk_endpoint { dci : Z; max_packet : Z; ep_in : bool }.
Record usb_device := mk_usb { slot_id : Z; port_id : Z; speed : Z; ep0 : Endpoint; bulk_in_ep : Endpoint; bulk_out_ep : Endpoint }.
Definition no_endpoint : Endpoint := mk_endpoint 0 0 false.
Definition no_usb : usb_device := mk_usb 0 0 0 no_endpoint no_endpoint no_endpoint.
Record DeviceState := mk_dstate {
  ds_dev : usb_device; ep0_ring : Ring; bulk_in_ring : Ring; bulk_out_ring : Ring; dev_ctx : Z; input_ctx : Z; configured : bool;
}.
Record CompletionEntry := mk_completion { ce_ptr : Z; ce_code : Z; ce_ev : Trb }.
Definition no_trb : Trb := mk_trb 0 0 0.
Definition no_completion : CompletionEntry := mk_completion 0 0 no_trb.

Definition trb_bytes (t : Trb) : list Z := le64 (parameter t) ++ le32 (status t) ++ le32 (control t).
Definition cycle_bit (c : bool) : Z := if c then kTrbCycle else 0.
Definition link_control (c : bool) : Z := Z.lor (Z.lor (Z.shiftl kTrbTypeLink 10) kTrbLinkTc) (cycle_bit c).

Definition port_speed (portsc : Z) : Z := Z.land (Z.shiftr portsc 10) 0x0F.
Definition default_max_packet (speed : Z) : Z :=
  if speed =? 1 then 8 else if speed =? 2 then 8 else if speed =? 3 then 64 else if speed =? 4 then 512 else 8.

(** The words of a slot and of an endpoint context the driver stores. *)
Definition slot_context (speed port ctx_entries : Z) : list Z :=
  le32 (Z.lor (Z.shiftl speed 20) (u32 (Z.shiftl ctx_entries 27))) ++ le32 (Z.shiftl port 16).
Definition ep_context (tr_deq mps ep_type : Z) : list Z :=
  le32 0 ++ le32 (Z.lor (Z.lor (Z.shiftl 3 1) (Z.shiftl ep_type 3)) (Z.shiftl mps 16)) ++
  le32 (Z.land tr_deq 0xFFFFFFFF) ++ le32 (Z.lor (u32 (Z.shiftr tr_deq 32)) 1) ++ le32 8.

(** ** State *)

Section state.
Context (M B : Type).
Record xhci := mk_xhci {
  xh_m : M;
  xh_bus : B;
  xh_tx : serial;
  g_xhci_heap_used : Z;
  xh_mmio : mmio;
  g_ctrl : Controller;
  g_dev : DeviceState;
  g_completions : list CompletionEntry;
}.

(** [None]: the fuel of [handle_irq] was used up. *)
Definition Xh (A : Type) : Type := xhci → option (A * xhci).
End state.
Arguments mk_xhci {M B}. Arguments xh_m {M B}. Arguments xh_bus {M B}. Arguments xh_tx {M B}. Arguments g_xhci_heap_used {M B}.
Arguments xh_mmio {M B}. Arguments g_ctrl {M B}. Arguments g_dev {M B}. Arguments g_completions {M B}.
#[export] Instance Xh_ret M B : MRet (Xh M B) := λ A a s, Some (a, s).
#[export] Instance Xh_bind M B : MBind (Xh M B) := λ A C f m s, match m s with Some (a, s) => f a s | None => None end.

Section driver.
Context {M B : Type} `{NvmeHw M} `{ConfigSpace B}.
Abbreviation X := (Xh M B).

Definition get {A} (f : xhci M B → A) : X A := λ s, Some (f s, s).
Definition set_mem (m : M) : X unit := λ s,
  Some (tt, mk_xhci m (xh_bus s) (xh_tx s) (g_xhci_heap_used s) (xh_mmio s) (g_ctrl s) (g_dev s) (g_completions s)).
Definition set_bus (b : B) : X unit := λ s,
  Some (tt, mk_xhci (xh_m s) b (xh_tx s) (g_xhci_heap_used s) (xh_mmio s) (g_ctrl s) (g_dev s) (g_completions s)).
Definition on_tx (f : serial → serial) : X unit := λ s,
  Some (tt, mk_xhci (xh_m s) (xh_bus s) (f (xh_tx s)) (g_xhci_heap_used s) (xh_mmio s) (g_ctrl s) (g_dev s) (g_completions s)).
Definition set_heap (n : Z) : X unit := λ s,
  Some (tt, mk_xhci (xh_m s) (xh_bus s) (xh_tx s) n (xh_mmio s) (g_ctrl s) (g_dev s) (g_completions s)).
Definition set_tables (t : mmio) : X unit := λ s,
  Some (tt, mk_xhci (xh_m s) (xh_bus s) (xh_tx s) (g_xhci_heap_used s) t (g_ctrl s) (g_dev s) (g_completions s)).
Definition set_ctrl (c : Controller) : X unit := λ s,
  Some (tt, mk_xhci (xh_m s) (xh_bus s) (xh_tx s) (g_xhci_heap_used s) (xh_mmio s) c (g_dev s) (g_completions s)).
Definition set_dev (d : DeviceState) : X unit := λ s,
  Some (tt, mk_xhci (xh_m s) (xh_bus s) (xh_tx s) (g_xhci_heap_used s) (xh_mmio s) (g_ctrl s) d (g_completions s)).
Definition set_completions (l : list CompletionEntry) : X unit := λ s,
  Some (tt, mk_xhci (xh_m s) (xh_bus s) (xh_tx s) (g_xhci_heap_used s) (xh_mmio s) (g_ctrl s) (g_dev s) l).

Definition print (t : string) : X unit := on_tx (λ x, Serial.write x (Some (txt t))).
Definition println (t : string) : X unit := on_tx (λ x, Serial.write x (Some (txt t ++ ["010"%char]))).
Definition print_hex (v : Z) : X unit := on_tx (λ x, Serial.write_hex x v).
(** A report and [return false]. *)
Definition fail (t : string) : X bool := println t ;; mret false.

Definition mem_store (a : Z) (bs : list Z) : X unit := m ← get xh_m; set_mem (hw_store m a bs).
Definition reg_in (a : Z) : X Z := λ s,
  let '(v, m) := hw_read (xh_m s) a in (set_mem m ;; mret v) s.
Definition reg_out (a v : Z) : X unit := m ← get xh_m; set_mem (hw_write m a v).
Definition cpu_pause : X unit := m ← get xh_m; set_mem (hw_pause m).
Definition zero (a n : Z) : X unit := m ← get xh_m; set_mem (zero_mem m a n).
Definition load_trb (m : M) (a : Z) : Trb :=
  let bs := load_bytes m a 16 in mk_trb (Z.lor (word32 bs 0) (Z.shiftl (word32 bs 4) 32)) (word32 bs 8) (word32 bs 12).

(** ** Memory and the register window *)

Context (heap_base pml4 : Z).

Definition xhci_alloc (size alignment : Z) : X Z :=
  if size =? 0 then mret 0
  else
    used ← get g_xhci_heap_used;
    let alignment := if alignment =? 0 then 1 else alignment in
    let aligned := align_used used alignment in
    if kXhciHeapSize <? aligned + size then mret 0 else set_heap (aligned + size) ;; mret (heap_base + aligned).

Definition ensure_pdpt : X bool :=
  m ← get xh_m; t ← get xh_mmio;
  let slot := pml4 + 8 * Z.land (Z.shiftr kMmioVirtBase 39) 0x1FF in
  let entry := load64 m slot in
  if Z.land entry kPtePresent =? 0 then
    pdpt ← xhci_alloc kPageSize kPageSize;
    set_tables (mk_mmio pdpt (g_mmio_pd t) (g_mmio_next t)) ;;
    if pdpt =? 0 then mret false
    else zero pdpt kPageSize ;; mem_store slot (le64 (Z.lor (Z.lor (Z.land pdpt page_mask) kPtePresent) kPteWrite)) ;; mret true
  else set_tables (mk_mmio (Z.land entry page_mask) (g_mmio_pd t) (g_mmio_next t)) ;; mret true.
Definition ensure_pd : X bool :=
  t ← get xh_mmio;
  if g_mmio_pd t =? 0 then
    pd ← xhci_alloc kPageSize kPageSize;
    set_tables (mk_mmio (g_mmio_pdpt t) pd (g_mmio_next t)) ;;
    if pd =? 0 then mret false
    else zero pd kPageSize ;; mem_store (g_mmio_pdpt t) (le64 (Z.lor (Z.lor (Z.land pd page_mask) kPtePresent) kPteWrite)) ;; mret true
  else mret true.
Definition ensure_mmio_tables : X bool := ok ← ensure_pdpt; if negb (ok : bool) then mret false else ensure_pd.

Definition mmio_flags : Z := Z.lor (Z.lor (Z.lor (Z.lor kPtePresent kPteWrite) kPtePwt) kPtePcd) kPtePs.
Fixpoint map_large_pages (n : nat) (entry paddr : Z) : X unit :=
  match n with
  | O => mret tt
  | S n' => mem_store entry (le64 (Z.lor (Z.land paddr (u64 (Z.lnot 0x1FFFFF))) mmio_flags)) ;; map_large_pages n' (entry + 8) (paddr + kMmioPageSize)
  end.

(** The address, 0 when it fails. *)
Definition map_physical_region (phys size : Z) : X Z :=
  ok ← ensure_mmio_tables;
  if negb (ok : bool) then mret 0
  else
    t ← get xh_mmio;
    let phys_base := align_down phys kMmioPageSize in
    let offset := phys - phys_base in
    let pages := (size + offset + kMmioPageSize - 1) / kMmioPageSize in
    let vbase := align_up (g_mmio_next t) kMmioPageSize in
    set_tables (mk_mmio (g_mmio_pdpt t) (g_mmio_pd t) (u64 (vbase + pages * kMmioPageSize))) ;;
    let pd_base_index := Z.land (Z.shiftr vbase 21) 0x1FF in
    if 512 <? pd_base_index + pages then mret 0
    else map_large_pages (Z.to_nat pages) (g_mmio_pd t + 8 * pd_base_index) phys_base ;; mret (vbase + offset).

(** ** Rings *)

Definition ring_init (count : Z) (link : bool) : X Ring :=
  t ← xhci_alloc (16 * count) 16;
  (if t =? 0 then mret tt
   else
     zero t (16 * count) ;;
     if link then mem_store (t + 16 * (count - 1)) (trb_bytes (mk_trb t 0 (link_control true))) else mret tt) ;;
  mret (mk_ring t count 0 true link).

(** The rings the driver puts TRBs on. *)
Inductive ring_id := CmdRing | Ep0Ring | BulkInRing | BulkOutRing.
Definition ring (i : ring_id) : X Ring :=
  get (λ s, match i with
    | CmdRing => cmd_ring (g_ctrl s) | Ep0Ring => ep0_ring (g_dev s) | BulkInRing => bulk_in_ring (g_dev s) | BulkOutRing => bulk_out_ring (g_dev s)
    end).
Definition set_ring (i : ring_id) (r : Ring) : X unit :=
  c ← get g_ctrl; d ← get g_dev;
  match i with
  | CmdRing => set_ctrl (mk_controller (c_regs c) r (evt_ring c) (evt_trbs c) (evt_index c) (evt_cycle c) (dcbaa c) (c_ready c))
  | Ep0Ring => set_dev (mk_dstate (ds_dev d) r (bulk_in_ring d) (bulk_out_ring d) (dev_ctx d) (input_ctx d) (configured d))
  | BulkInRing => set_dev (mk_dstate (ds_dev d) (ep0_ring d) r (bulk_out_ring d) (dev_ctx d) (input_ctx d) (configured d))
  | BulkOutRing => set_dev (mk_dstate (ds_dev d) (ep0_ring d) (bulk_in_ring d) r (dev_ctx d) (input_ctx d) (configured d))
  end.

(** The TRB after the one at the index, behind the link; 0 for null. *)
Definition ring_wrap (r : Ring) : X Ring :=
  if has_link r && (r_size r -u 1 <=? r_index r) then
    mem_store (trbs r + 16 * (r_size r - 1) + 12) (le32 (link_control (r_cycle r))) ;;
    mret (mk_ring (trbs r) (r_size r) 0 (negb (r_cycle r)) (has_link r))
  else mret r.
Definition ring_alloc_trb (i : ring_id) : X Z :=
  r ← ring i;
  if trbs r =? 0 then mret 0
  else
    r ← ring_wrap r;
    let trb := trbs r + 16 * r_index r in
    set_ring i (mk_ring (trbs r) (r_size r) (r_index r + 1) (r_cycle r) (has_link r)) ;;
    zero trb 16 ;; mret trb.
Definition ring_cycle (i : ring_id) : X Z := r ← ring i; mret (cycle_bit (r_cycle r)).

Definition set_parameter (trb v : Z) : X unit := mem_store trb (le64 v).
Definition set_status (trb v : Z) : X unit := mem_store (trb + 8) (le32 v).
Definition set_control (trb v : Z) : X unit := mem_store (trb + 12) (le32 v).

Definition ring_doorbell (slot target : Z) : X unit := c ← get g_ctrl; reg_out (r_db (c_regs c) + 4 * slot) target.

Fixpoint wait_reg (spins : nat) (reg mask : Z) (set : bool) : X bool :=
  match spins with
  | O => mret false
  | S spins' =>
      val ← reg_in reg;
      if Bool.eqb (negb (Z.land val mask =? 0)) set then mret true else cpu_pause ;; wait_reg spins' reg mask set
  end.

(** ** Events *)

Definition event_ready : X bool :=
  c ← get g_ctrl; m ← get xh_m;
  mret (Bool.eqb (negb (Z.land (control (load_trb m (evt_trbs c + 16 * evt_index c))) kTrbCycle =? 0)) (evt_cycle c)).

Definition interrupter (c : Controller) : Z := r_rt (c_regs c) + 0x20.
Definition next_event : X Trb :=
  c ← get g_ctrl; m ← get xh_m;
  let trb := load_trb m (evt_trbs c + 16 * evt_index c) in
  let wraps := r_size (evt_ring c) <=? evt_index c +u 1 in
  let index := if wraps then 0 else evt_index c +u 1 in
  let cycle := if wraps then negb (evt_cycle c) else evt_cycle c in
  set_ctrl (mk_controller (c_regs c) (cmd_ring c) (evt_ring c) (evt_trbs c) index cycle (dcbaa c) (c_ready c)) ;;
  let erdp := evt_trbs c + 16 * index in
  reg_out (interrupter c + 0x18) (Z.lor (u32 erdp) 8) ;;
  reg_out (interrupter c + 0x1C) (u32 (Z.shiftr erdp 32)) ;;
  mret trb.

Definition free_slot (l : list CompletionEntry) : option nat := fst <$> list_find (λ e, ce_ptr e = 0) l.
Definition record_event (ev : Trb) : X unit :=
  l ← get g_completions;
  match free_slot l with
  | Some i => set_completions (<[i := mk_completion (parameter ev) (Z.land (Z.shiftr (status ev) 24) 0xFF) ev]> l)
  | None => println "[xhci]: completion table full"
  end.
Definition log_event (ev : Trb) : X unit :=
  let ev_type := Z.land (Z.shiftr (control ev) 10) 0x3F in
  if ev_type =? kTrbTypeTransferEvent then println "[xhci]: irq transfer event recorded"
  else if ev_type =? kTrbTypeCommandCompletion then println "[xhci]: irq command completion recorded"
  else print "[xhci]: irq event type=" ;; print_hex ev_type ;; on_tx (λ x, Serial.write x (Some ["010"%char])).

(** [while (event_ready())]: the fuel is the number of events waiting plus
    one. *)
Fixpoint drain (fuel : nat) : X unit :=
  match fuel with
  | O => λ _, None
  | S fuel' =>
      r ← event_ready;
      if r : bool then ev ← next_event; record_event ev ;; log_event ev ;; drain fuel' else mret tt
  end.
Definition handle_irq (fuel : nat) : X unit :=
  c ← get g_ctrl;
  if negb (c_ready c) then mret tt else drain fuel ;; reg_out (interrupter c) 1.

Definition kWaitSpins : nat := Z.to_nat 50000000.
Definition find_completion (ptr : Z) (l : list CompletionEntry) : option (nat * CompletionEntry) := list_find (λ e, ce_ptr e = ptr) l.

(** [wait_for_event]: success, the event and its code, zero after a timeout. *)
Fixpoint wait_loop (fuel : nat) (spins : nat) (ptr : Z) : X (bool * Trb * Z) :=
  match spins with
  | O => mret (false, no_trb, 0)
  | S spins' =>
      l ← get g_completions;
      match find_completion ptr l with
      | Some (i, e) => set_completions (<[i := mk_completion 0 0 (ce_ev e)]> l) ;; mret (ce_code e =? 1, ce_ev e, ce_code e)
      | None =>
          handle_irq fuel ;; cpu_pause ;;
          match spins' with
          | O => println "[xhci]: wait timeout" ;; mret (false, no_trb, 0)
          | _ => wait_loop fuel spins' ptr
          end
      end
  end.
Definition wait_for_event (fuel : nat) (ptr : Z) : X (bool * Trb * Z) := wait_loop fuel kWaitSpins ptr.
Definition wait_for_completion (fuel : nat) (ptr : Z) : X (bool * Z) := '(ok, _, code) ← wait_loop fuel kWaitSpins ptr; mret (ok, code).

Definition submit_command (fuel : nat) (trb : Z) : X (bool * Trb * Z) :=
  println "[xhci]: cmd doorbell" ;; ring_doorbell 0 0 ;; wait_for_event fuel trb.
Definition submit_transfer (fuel : nat) (slot dci trb : Z) : X (bool * Z) :=
  print "[xhci]: xfer doorbell slot=" ;; print_hex slot ;; print " dci=" ;; print_hex dci ;; on_tx (λ x, Serial.write x (Some ["010"%char])) ;;
  ring_doorbell slot dci ;;
  '(ok, _, code) ← wait_for_event fuel trb; mret (ok, code).

(** ** Transfers *)

Definition setup_parameter (p : UsbSetupPacket) : Z :=
  Z.lor (Z.lor (Z.lor (Z.lor (bm_request_type p) (Z.shiftl (b_request p) 8)) (Z.shiftl (w_value p) 16)) (Z.shiftl (w_index p) 32)) (Z.shiftl (w_length p) 48).
Definition device_to_host (p : UsbSetupPacket) : bool := negb (Z.land (bm_request_type p) 0x80 =? 0).

(** A TRB with the cycle bit of its ring. *)
Definition put_trb (i : ring_id) (param st ctl : Z) : X Z :=
  trb ← ring_alloc_trb i; cycle ← ring_cycle i;
  set_parameter trb param ;; set_status trb st ;; set_control trb (Z.lor ctl cycle) ;; mret trb.

Definition setup_stage (p : UsbSetupPacket) (length : Z) : X Z :=
  let trt := if length =? 0 then 0 else if device_to_host p then 3 else 2 in
  put_trb Ep0Ring (setup_parameter p) 8
    (Z.lor (Z.lor (Z.lor (Z.shiftl kTrbTypeSetupStage 10) kTrbIdt) (Z.shiftl trt 16)) (if length =? 0 then 0 else kTrbCh)).
Definition data_stage (p : UsbSetupPacket) (data length : Z) : X Z :=
  put_trb Ep0Ring data length (Z.lor (Z.lor (Z.shiftl kTrbTypeDataStage 10) kTrbCh) (if device_to_host p then kTrbDirIn else 0)).
Definition status_stage (p : UsbSetupPacket) : X Z :=
  put_trb Ep0Ring 0 0 (Z.lor (Z.lor (Z.shiftl kTrbTypeStatusStage 10) kTrbIoc) (if device_to_host p then 0 else kTrbDirIn)).

Definition control_transfer (fuel : nat) (dev : usb_device) (p : UsbSetupPacket) (data length : Z) : X bool :=
  c ← get g_ctrl; r ← ring Ep0Ring;
  if negb (c_ready c) || (trbs r =? 0) then mret false
  else
    setup_stage p length ;;
    (if 0 <? length then data_stage p data length ;; mret tt else mret tt) ;;
    status_trb ← status_stage p;
    '(ok, cc) ← submit_transfer fuel (slot_id dev) (dci (ep0 dev)) status_trb;
    (if ok : bool then mret tt
     else print "[xhci]: control transfer failed cc=" ;; print_hex cc ;; print " dci=" ;; print_hex (dci (ep0 dev)) ;;
       on_tx (λ x, Serial.write x (Some ["010"%char]))) ;;
    mret ok.

Definition bulk_ring (d : DeviceState) (ep : Endpoint) : option ring_id :=
  if dci ep =? dci (bulk_in_ep (ds_dev d)) then Some BulkInRing
  else if dci ep =? dci (bulk_out_ep (ds_dev d)) then Some BulkOutRing
  else None.
Definition bulk_transfer (fuel : nat) (dev : usb_device) (ep : Endpoint) (data length : Z) : X bool :=
  c ← get g_ctrl; d ← get g_dev;
  if negb (c_ready c) then mret false
  else match bulk_ring d ep with
  | None => mret false
  | Some i =>
      r ← ring i;
      if trbs r =? 0 then mret false
      else
        trb ← put_trb i data length (Z.lor (Z.shiftl kTrbTypeNormal 10) kTrbIoc);
        '(ok, _) ← submit_transfer fuel (slot_id dev) (dci ep) trb; mret ok
  end.
End driver.
