(* ===== verification/XhciDevice.v ===== *)
(** * Controller start and device enumeration ([kernel/xhci.cpp])

    [controller_init], [init], and the way from a connected port to a
    configured mass storage device. *)

From S2P Require Import Prelude CText Serial Bytes Pci Nvme Xhci.

Definition kMaxCtx : Z := 32.
Definition kMapSize : Z := 0x10000.
Definition kHaltSpins : nat := Z.to_nat 1000000.
Definition kResetSpins : nat := Z.to_nat 2000000.

(** ** The configuration descriptor *)

(** [cfg] reads the buffer; [total] is [total_len].  The result so far is the
    pair of endpoint numbers. *)
Section descriptors.
Context (cfg : Z → Z) (total : Z).

Definition is_mass_storage (idx : Z) : bool :=
  (cfg (idx + 5) =? kUsbClassMassStorage) && (cfg (idx + 6) =? kUsbSubclassScsi) && (cfg (idx + 7) =? kUsbProtoBulk).
Definition endpoint_at (eidx : Z) (eps : Z * Z) : Z * Z :=
  let addr := cfg (eidx + 2) in
  if Z.land (cfg (eidx + 3)) 0x3 =? 2 then
    if negb (Z.land addr 0x80 =? 0) then (Z.land addr 0x0F, eps.2) else (eps.1, Z.land addr 0x0F)
  else eps.

Fixpoint scan_endpoints (fuel : nat) (eidx : Z) (eps : Z * Z) : Z * Z :=
  match fuel with
  | O => eps
  | S fuel' =>
      if eidx + 1 <? total then
        let elen := cfg eidx in
        let etype := cfg (eidx + 1) in
        if elen =? 0 then eps
        else if (etype =? 5) && (eidx + elen <=? total) then scan_endpoints fuel' (u16 (eidx + elen)) (endpoint_at eidx eps)
        else if etype =? 4 then eps
        else scan_endpoints fuel' (u16 (eidx + elen)) eps
      else eps
  end.

Fixpoint scan_config (fuel : nat) (idx : Z) (eps : Z * Z) : Z * Z :=
  match fuel with
  | O => eps
  | S fuel' =>
      if idx + 1 <? total then
        let len := cfg idx in
        let type := cfg (idx + 1) in
        if len =? 0 then eps
        else
          let eps := if (type =? 4) && (idx + len <=? total) && is_mass_storage idx then scan_endpoints 512 (u16 (idx + len)) eps else eps in
          scan_config fuel' (u16 (idx + len)) eps
      else eps
  end.
(** At most 512 bytes, and every turn takes at least one. *)
Definition find_endpoints : Z * Z := scan_config 512 0 (0, 0).
End descriptors.

Section device.
Context {M B : Type} `{NvmeHw M} `{ConfigSpace B}.
(** The static heap, the top page table, and the buffers on the stack. *)
Context (heap_base pml4 dev_desc cfg_hdr cfg_buf : Z).
Abbreviation X := (Xh M B).

Definition ready : X bool := get (λ s, c_ready (g_ctrl s)).

(** ** The controller *)

Definition set_regs (r : regs) : X unit :=
  c ← get g_ctrl; set_ctrl (mk_controller r (cmd_ring c) (evt_ring c) (evt_trbs c) (evt_index c) (evt_cycle c) (dcbaa c) (c_ready c)).
Definition set_evt_ring (r : Ring) : X unit :=
  c ← get g_ctrl; set_ctrl (mk_controller (c_regs c) (cmd_ring c) r (trbs r) 0 true (dcbaa c) (c_ready c)).
Definition set_dcbaa (a : Z) : X unit :=
  c ← get g_ctrl; set_ctrl (mk_controller (c_regs c) (cmd_ring c) (evt_ring c) (evt_trbs c) (evt_index c) (evt_cycle c) a (c_ready c)).
Definition set_ready : X unit :=
  c ← get g_ctrl; set_ctrl (mk_controller (c_regs c) (cmd_ring c) (evt_ring c) (evt_trbs c) (evt_index c) (evt_cycle c) (dcbaa c) true).

(** HCSPARAMS2 is needed later. *)
Definition read_regs (base : Z) : X Z :=
  cap ← reg_in base;
  let caplen := Z.land cap 0xFF in
  hcs1 ← reg_in (base + 0x04); hcs2 ← reg_in (base + 0x08); hcc1 ← reg_in (base + 0x10);
  println "[xhci]: regs read" ;;
  dboff ← reg_in (base + 0x14); rtsoff ← reg_in (base + 0x18);
  set_regs (mk_regs base (base + caplen) (base + Z.land rtsoff (u32 (Z.lnot 0x1F))) (base + Z.land dboff (u32 (Z.lnot 0x3))) caplen dboff rtsoff
    (Z.land hcs1 0xFF) (Z.land (Z.shiftr hcs1 24) 0xFF) (if negb (Z.land hcc1 (Z.shiftl 1 2) =? 0) then 64 else 32)) ;;
  mret hcs2.

Definition update_reg (a : Z) (f : Z → Z) : X unit := v ← reg_in a; reg_out a (f v).

Definition reset_controller : X bool :=
  c ← get g_ctrl;
  let op := r_op (c_regs c) in
  update_reg op (λ v, Z.land v (u32 (Z.lnot kUsbcmdRun))) ;;
  wait_reg kHaltSpins (op + 0x04) kUsbstsHch true ;;
  update_reg op (λ v, Z.lor v kUsbcmdHcrst) ;;
  println "[xhci]: controller reset" ;;
  done ← wait_reg kResetSpins op kUsbcmdHcrst false;
  if negb (done : bool) then fail "[xhci]: reset timeout"
  else
    ready ← wait_reg kResetSpins (op + 0x04) kUsbstsCnr false;
    if negb (ready : bool) then fail "[xhci]: controller not ready" else mret true.

Fixpoint scratch_pages (n : nat) (slot : Z) : X bool :=
  match n with
  | O => mret true
  | S n' =>
      buf ← xhci_alloc heap_base kPageSize kPageSize;
      if buf =? 0 then mret false else mem_store slot (le64 buf) ;; scratch_pages n' (slot + 8)
  end.
Definition scratch_buffers (hcs2 : Z) : X bool :=
  c ← get g_ctrl;
  let scratch_cnt := Z.lor (Z.land hcs2 0x1F) (Z.shiftl (Z.land (Z.shiftr hcs2 21) 0x1F) 5) in
  if 0 <? scratch_cnt then
    scratch_array ← xhci_alloc heap_base (8 * scratch_cnt) 64;
    if scratch_array =? 0 then mret false
    else
      ok ← scratch_pages (Z.to_nat scratch_cnt) scratch_array;
      if negb (ok : bool) then mret false else mem_store (dcbaa c) (le64 scratch_array) ;; mret true
  else mret true.

(** The rings and the device context array. *)
Definition controller_memory (hcs2 : Z) : X bool :=
  r ← ring_init heap_base kRingSize true;
  set_ring CmdRing r ;;
  if trbs r =? 0 then mret false
  else
    r ← ring_init heap_base kRingSize false;
    set_evt_ring r ;;
    c ← get g_ctrl;
    let bytes := 8 * (max_slots (c_regs c) + 1) in
    a ← xhci_alloc heap_base bytes 64;
    set_dcbaa a ;;
    if a =? 0 then mret false else zero a bytes ;; scratch_buffers hcs2.

Definition reg_out64 (a v : Z) : X unit := reg_out a (u32 v) ;; reg_out (a + 4) (u32 (Z.shiftr v 32)).
Definition program_rings : X bool :=
  c ← get g_ctrl;
  let op := r_op (c_regs c) in
  let cmd := trbs (cmd_ring c) in
  reg_out (op + 0x18) (Z.lor (u32 cmd) (Z.b2z (r_cycle (cmd_ring c)))) ;; reg_out (op + 0x1C) (u32 (Z.shiftr cmd 32)) ;;
  reg_out64 (op + 0x30) (dcbaa c) ;;
  erst ← xhci_alloc heap_base 16 64;
  if erst =? 0 then mret false
  else
    mem_store erst (le64 (evt_trbs c) ++ le32 (r_size (evt_ring c)) ++ le32 0) ;;
    reg_out (interrupter c + 0x08) 1 ;;
    reg_out64 (interrupter c + 0x10) erst ;;
    reg_out64 (interrupter c + 0x18) (evt_trbs c) ;;
    reg_out (interrupter c) 1 ;;
    reg_out (op + 0x38) (Z.land (max_slots (c_regs c)) 0xFF) ;;
    update_reg op (λ v, Z.lor v (Z.lor kUsbcmdRun kUsbcmdInth)) ;;
    ok ← wait_reg kHaltSpins (op + 0x04) kUsbstsHch false;
    if negb (ok : bool) then fail "[xhci]: failed to start" else mret true.

Definition controller_init (mmio : Z) : X bool :=
  println "[xhci]: controller init" ;;
  base ← map_physical_region heap_base pml4 mmio kMapSize;
  if base =? 0 then fail "[xhci]: failed to map MMIO"
  else
    println "[xhci]: mmio mapped" ;;
    hcs2 ← read_regs base;
    ok ← reset_controller;
    if negb (ok : bool) then mret false
    else
      ok ← controller_memory hcs2;
      if negb (ok : bool) then mret false
      else
        ok ← program_rings;
        if negb (ok : bool) then mret false else set_ready ;; println "[xhci]: controller ready" ;; mret true.

Definition is_xhci (d : Device) : bool := (class_code d =? 0x0C) && (subclass d =? 0x03) && (prog_if d =? 0x30).
Definition print_device (d : Device) : X unit :=
  print "[xhci]: pci " ;; print_hex (d_bus d) ;; print ":" ;; print_hex (d_slot d) ;; print "." ;; print_hex (d_func d) ;;
  print " class=" ;; print_hex (class_code d) ;; print " sub=" ;; print_hex (subclass d) ;; print " pi=" ;; print_hex (prog_if d) ;;
  print " bars=" ;; foldr (λ b next, print_hex b ;; print " " ;; next) (mret tt) (bar d) ;; on_tx (λ x, Serial.write x (Some ["010"%char])).
Definition enable_device (d : Device) : X unit :=
  b ← get xh_bus;
  let cmd := Z.lor (config_read16 b (d_bus d) (d_slot d) (d_func d) 0x04) 0x6 in
  set_bus (config_write16 b (d_bus d) (d_slot d) (d_func d) 0x04 cmd).

(** The first controller with a memory BAR decides. *)
Fixpoint init_loop (devs : list Device) : X bool :=
  match devs with
  | [] => fail "[xhci]: no xHCI controller found"
  | d :: devs' =>
      if negb (is_xhci d) then init_loop devs'
      else
        print_device d ;; enable_device d ;;
        let mmio := read_mmio_bar d in
        if mmio =? 0 then println "[xhci]: no MMIO BAR found" ;; init_loop devs'
        else print "[xhci]: MMIO=0x" ;; print_hex (u32 mmio) ;; on_tx (λ x, Serial.write x (Some ["010"%char])) ;; controller_init mmio
  end.
Definition init : X bool :=
  r ← ready;
  if r : bool then mret true
  else
    b ← get xh_bus;
    match scan_devices b 64 with
    | [] => fail "[xhci]: no PCI devices found"
    | devs => init_loop devs
    end.
Definition print_info : X unit := init ;; mret tt.

(** ** Ports *)

Definition portsc (c : Controller) (port : Z) : Z := r_op (c_regs c) + 0x400 + (port -u 1) * 0x10.

Fixpoint reset_wait (spins : nat) (a : Z) : X unit :=
  match spins with
  | O => mret tt
  | S spins' => v ← reg_in a; if Z.land v kPortscPr =? 0 then mret tt else cpu_pause ;; reset_wait spins' a
  end.
Definition reset_port (port : Z) : X bool :=
  if port =? 0 then mret false
  else
    c ← get g_ctrl;
    let a := portsc c port in
    v ← reg_in a;
    if Z.land v kPortscCcs =? 0 then mret false
    else
      reg_out a (Z.lor v kPortscPr) ;;
      reset_wait kHaltSpins a ;;
      v ← reg_in a;
      reg_out a (Z.lor (Z.lor v kPortscPrc) kPortscCsc) ;;
      mret (negb (Z.land v kPortscPed =? 0)).

(** The first connected port from [p] on, 0 if there is none. *)
Fixpoint connected_port (ports : list Z) : X Z :=
  match ports with
  | [] => mret 0
  | p :: ports' =>
      c ← get g_ctrl;
      v ← reg_in (portsc c p);
      if negb (Z.land v kPortscCcs =? 0) then mret (u8 p) else connected_port ports'
  end.

(** ** Enumeration *)

Definition set_contexts (dctx ictx : Z) : X unit :=
  d ← get g_dev; set_dev (mk_dstate (ds_dev d) (ep0_ring d) (bulk_in_ring d) (bulk_out_ring d) dctx ictx (configured d)).
Definition set_device (dev : usb_device) (conf : bool) : X unit :=
  d ← get g_dev; set_dev (mk_dstate dev (ep0_ring d) (bulk_in_ring d) (bulk_out_ring d) (dev_ctx d) (input_ctx d) conf).

(** The slot number, 0 when the command fails or the number is not valid. *)
Definition enable_slot (fuel : nat) : X Z :=
  cmd ← ring_alloc_trb CmdRing;
  if cmd =? 0 then mret 0
  else
    cycle ← ring_cycle CmdRing;
    set_control cmd (Z.lor (Z.shiftl kTrbTypeEnableSlot 10) cycle) ;;
    '(ok, ev, _) ← submit_command fuel cmd;
    c ← get g_ctrl;
    let slot := Z.land (Z.shiftr (control ev) 24) 0xFF in
    if negb (ok : bool) || (max_slots (c_regs c) <? slot) then mret 0 else mret slot.

(** The contexts for the address command: the speed and the packet size. *)
Definition input_contexts (slot port : Z) : X (option (Z * Z)) :=
  c ← get g_ctrl;
  let ctx_bytes := ctx_size (c_regs c) in
  dctx ← xhci_alloc heap_base (ctx_bytes * kMaxCtx) 64;
  ictx ← xhci_alloc heap_base (ctx_bytes * (kMaxCtx + 1)) 64;
  set_contexts dctx ictx ;;
  if (dctx =? 0) || (ictx =? 0) then mret None
  else
    zero dctx (ctx_bytes * kMaxCtx) ;; zero ictx (ctx_bytes * (kMaxCtx + 1)) ;;
    mem_store (dcbaa c + 8 * slot) (le64 dctx) ;;
    mem_store (ictx + 4) (le32 0x3) ;;
    v ← reg_in (portsc c port);
    let speed := port_speed v in
    let mps := default_max_packet speed in
    mem_store (ictx + ctx_bytes) (slot_context speed port 1) ;;
    r ← ring_init heap_base kRingSize true;
    set_ring Ep0Ring r ;;
    if trbs r =? 0 then mret None
    else mem_store (ictx + ctx_bytes * 2) (ep_context (trbs r) mps 4) ;; mret (Some (speed, mps)).

Definition command_trb (type slot ictx : Z) : X Z :=
  trb ← ring_alloc_trb CmdRing;
  if trb =? 0 then mret 0
  else
    cycle ← ring_cycle CmdRing;
    set_parameter trb ictx ;;
    set_control trb (Z.lor (Z.lor (Z.shiftl type 10) (Z.shiftl slot 24)) cycle) ;;
    mret trb.

Definition address_device (fuel : nat) (port : Z) : X (option usb_device) :=
  slot ← enable_slot fuel;
  if slot =? 0 then mret None
  else
    r ← input_contexts slot port;
    match r with
    | None => mret None
    | Some (speed, mps) =>
        d ← get g_dev;
        addr ← command_trb kTrbTypeAddressDevice slot (input_ctx d);
        if addr =? 0 then mret None
        else
          '(ok, _, cc) ← submit_command fuel addr;
          if negb (ok : bool) then mret None
          else
            print "[xhci]: address slot=" ;; print_hex slot ;; print " cc=" ;; print_hex cc ;; on_tx (λ x, Serial.write x (Some ["010"%char])) ;;
            d ← get g_dev;
            let dev := mk_usb slot port speed (mk_endpoint 1 mps true) (bulk_in_ep (ds_dev d)) (bulk_out_ep (ds_dev d)) in
            set_device dev false ;; mret (Some dev)
    end.

Definition get_descriptor (kind len : Z) : UsbSetupPacket := mk_setup 0x80 6 (Z.shiftl kind 8) 0 len.

(** The value of the configuration and the endpoint numbers. *)
Definition read_configuration (fuel : nat) (dev : usb_device) : X (option (Z * Z * Z)) :=
  zero dev_desc 18 ;;
  ok ← control_transfer fuel dev (get_descriptor 1 18) dev_desc 18;
  if negb (ok : bool) then println "[xhci]: get device descriptor failed" ;; mret None
  else
    zero cfg_hdr 9 ;;
    ok ← control_transfer fuel dev (get_descriptor 2 9) cfg_hdr 9;
    if negb (ok : bool) then println "[xhci]: get config header failed" ;; mret None
    else
      m ← get xh_m;
      let total_len := word16 (load_bytes m cfg_hdr 9) 2 in
      if (total_len <? 9) || (512 <? total_len) then println "[xhci]: invalid config length" ;; mret None
      else
        zero cfg_buf 512 ;;
        ok ← control_transfer fuel dev (get_descriptor 2 total_len) cfg_buf total_len;
        if negb (ok : bool) then println "[xhci]: get config failed" ;; mret None
        else
          m ← get xh_m;
          let '(ein, eout) := find_endpoints (λ i, hw_load m (cfg_buf + i)) total_len in
          if (ein =? 0) || (eout =? 0) then println "[xhci]: bulk endpoints not found" ;; mret None
          else mret (Some (hw_load m (cfg_buf + 5), ein, eout)).

(** The Configure Endpoint command for the two bulk endpoints. *)
Definition configure_endpoints (fuel : nat) (dev : usb_device) (out_dci in_dci : Z) : X bool :=
  c ← get g_ctrl;
  let ctx_bytes := ctx_size (c_regs c) in
  ictx ← xhci_alloc heap_base (ctx_bytes * (kMaxCtx + 1)) 64;
  if ictx =? 0 then mret false
  else
    zero ictx (ctx_bytes * (kMaxCtx + 1)) ;;
    mem_store (ictx + 4) (le32 (Z.lor (u32 (Z.shiftl 1 out_dci)) (u32 (Z.shiftl 1 in_dci)))) ;;
    rout ← ring_init heap_base kRingSize true; set_ring BulkOutRing rout ;;
    rin ← ring_init heap_base kRingSize true; set_ring BulkInRing rin ;;
    if (trbs rout =? 0) || (trbs rin =? 0) then mret false
    else
      mem_store (ictx + ctx_bytes * (out_dci + 1)) (ep_context (trbs rout) 512 2) ;;
      mem_store (ictx + ctx_bytes * (in_dci + 1)) (ep_context (trbs rin) 512 6) ;;
      cfg ← command_trb kTrbTypeConfigureEndpoint (slot_id dev) ictx;
      if cfg =? 0 then mret false
      else
        '(ok, _, _) ← submit_command fuel cfg;
        if negb (ok : bool) then fail "[xhci]: configure endpoints failed" else mret true.

(** [*out], [None] for false. *)
Definition configure_device (fuel : nat) (dev : usb_device) : X (option usb_device) :=
  r ← read_configuration fuel dev;
  match r with
  | None => mret None
  | Some (cfg_value, ein, eout) =>
      ok ← control_transfer fuel dev (mk_setup 0 9 cfg_value 0 0) 0 0;
      if negb (ok : bool) then println "[xhci]: set configuration failed" ;; mret None
      else
        let out_dci := u8 (eout * 2) in
        let in_dci := u8 (ein * 2 + 1) in
        ok ← configure_endpoints fuel dev out_dci in_dci;
        if negb (ok : bool) then mret None
        else
          let dev := mk_usb (slot_id dev) (port_id dev) (speed dev) (ep0 dev) (mk_endpoint in_dci 512 true) (mk_endpoint out_dci 512 false) in
          set_device dev true ;; mret (Some dev)
  end.
Definition get_mass_storage_device (fuel : nat) : X (option usb_device) :=
  r ← ready;
  ok ← (if r : bool then mret true else init);
  if negb (ok : bool) then mret None
  else
    c ← get g_ctrl;
    found_port ← connected_port (seqZ 1 (max_ports (c_regs c)));
    if found_port =? 0 then println "[xhci]: no connected ports" ;; mret None
    else
      ok ← reset_port found_port;
      if negb (ok : bool) then println "[xhci]: port reset failed" ;; mret None
      else
        dev ← address_device fuel found_port;
        match dev with
        | None => println "[xhci]: address device failed" ;; mret None
        | Some dev => configure_device fuel dev
        end.
End device.
