(* ===== verification/XhciSpec.v ===== *)
(** * What the xHCI driver's rings and descriptors mean

    A ring is a queue between the driver and the controller, through the link
    at its end and the turning cycle bit, and the walk over a configuration
    descriptor finds the bulk endpoints of its mass storage interface. *)

From S2P Require Import Prelude CText Serial Bytes Pci Nvme NvmeSpec Xhci XhciDevice.

(** ** TRBs in memory *)

Section memory.
Context {M : Type} `{NM : NvmeMem M phys_of}.
Implicit Type m : M.

Lemma load_bytes_app m a n k : 0 <= n → 0 <= k → load_bytes m a (n + k) = load_bytes m a n ++ load_bytes m (a + n) k.
Proof.
  intros Hn Hk. unfold load_bytes. rewrite seqZ_app, fmap_app by lia. f_equal. rewrite Z.add_0_l.
  rewrite <- (Z.add_0_r n) at 1. rewrite <- fmap_add_seqZ, <- list_fmap_compose. apply list_fmap_ext. intros i x _. cbn. f_equal. lia.
Qed.

Definition trb_ok (t : Trb) : Prop := 0 <= parameter t < 2 ^ 64 ∧ 0 <= status t < 2 ^ 32 ∧ 0 <= control t < 2 ^ 32.

Lemma load_trb_bytes m a t : trb_ok t → load_bytes m a 16 = trb_bytes t → load_trb m a = t.
Proof.
  destruct t as [p st ct]. intros (Hp & Hs & Hc) E. cbn [parameter status control] in *. change (2 ^ 32) with 4294967296 in *. unfold load_trb. rewrite E. unfold trb_bytes, le64. cbn [parameter status control].
  assert (0 <= Z.shiftr p 32 < 4294967296) as Hh by (rewrite Z.shiftr_div_pow2 by lia; Z.div_mod_to_equations; lia).
  rewrite (u32_small (Z.shiftr p 32)) by done. rewrite <- !app_assoc.
  pose proof (word32_le32 [] (u32 p) (le32 (Z.shiftr p 32) ++ le32 st ++ le32 ct) (u32_range p)) as E1.
  pose proof (word32_le32 (le32 (u32 p)) (Z.shiftr p 32) (le32 st ++ le32 ct) Hh) as E2.
  pose proof (word32_le32 (le32 (u32 p) ++ le32 (Z.shiftr p 32)) st (le32 ct) Hs) as E3.
  pose proof (word32_le32 (le32 (u32 p) ++ le32 (Z.shiftr p 32) ++ le32 st) ct [] Hc) as E4.
  rewrite <- app_assoc in E3. rewrite app_nil_r, <- ?app_assoc in E4. cbn [app] in E1.
  change (Z.of_nat (length [])) with 0 in E1. change (Z.of_nat (length (le32 (u32 p)))) with 4 in E2.
  change (Z.of_nat (length (le32 (u32 p) ++ le32 (Z.shiftr p 32)))) with 8 in E3.
  change (Z.of_nat (length (le32 (u32 p) ++ le32 (Z.shiftr p 32) ++ le32 st))) with 12 in E4. rewrite E1, E2, E3, E4. f_equal.
  rewrite Z.lor_comm, (lor_low_bits 32 (Z.shiftl (Z.shiftr p 32) 32)); [|lia|rewrite Z.shiftl_mul_pow2 by lia; by apply Z.mod_mul|apply u32_range].
  rewrite Z.shiftl_mul_pow2, Z.shiftr_div_pow2 by lia. unfold u32. change 4294967296 with (2 ^ 32). Z.div_mod_to_equations. lia.
Qed.

Lemma load_trb_ext m1 m2 a : (∀ x, a <= x < a + 16 → hw_load m1 x = hw_load m2 x) → load_trb m1 a = load_trb m2 a.
Proof. intros Hx. unfold load_trb. by rewrite (loads_agree m1 m2). Qed.

Lemma word32_app_l (l1 l2 : list Z) k : 0 <= k → k + 4 <= Z.of_nat (length l1) → word32 (l1 ++ l2) k = word32 l1 k.
Proof. intros Hk Hl. unfold word32, zget. rewrite !lookup_total_app_l by lia. done. Qed.

(** A store of the last word alone. *)
Lemma load_trb_control m a v : 0 <= v < 4294967296 →
  load_trb (hw_store m (a + 12) (le32 v)) a = mk_trb (parameter (load_trb m a)) (status (load_trb m a)) v.
Proof.
  intros Hv. unfold load_trb. cbn [parameter status]. change 16 with (12 + 4). rewrite !load_bytes_app by lia.
  rewrite (loads_agree (hw_store m (a + 12) (le32 v)) m a 12) by (intros x Hx; apply load_outside; lia).
  assert (load_bytes (hw_store m (a + 12) (le32 v)) (a + 12) 4 = le32 v) as -> by apply (load_stored m (a + 12) (le32 v)).
  assert (length (load_bytes m a 12) = 12%nat) as Hl by done. rewrite !word32_app_l by (rewrite ?Hl; lia). f_equal.
  pose proof (word32_le32 (load_bytes m a 12) v [] Hv) as E. rewrite app_nil_r, Hl in E. exact E.
Qed.

(** The stores that make a TRB. *)
Definition trb_stored m (a p st ct : Z) : M :=
  hw_store (hw_store (hw_store (zero_mem m a 16) a (le64 p)) (a + 8) (le32 st)) (a + 12) (le32 ct).

Lemma trb_stored_outside m a p st ct x : x < a ∨ a + 16 <= x → hw_load (trb_stored m a p st ct) x = hw_load m x.
Proof. intros Hx. unfold trb_stored, zero_mem. rewrite !load_outside; [done|..]; rewrite ?length_replicate; cbn; lia. Qed.

Lemma load_trb_stored m a p st ct : trb_ok (mk_trb p st ct) → load_trb (trb_stored m a p st ct) a = mk_trb p st ct.
Proof.
  intros Hok. apply load_trb_bytes; [done|]. unfold trb_stored. change 16 with (8 + (4 + 4)) at 2. rewrite !load_bytes_app by lia.
  rewrite <- Z.add_assoc. change (8 + 4) with 12. unfold trb_bytes. cbn [parameter status control]. f_equal; [|f_equal].
  - etransitivity; [|apply (load_stored (zero_mem m a 16) a (le64 p))]. apply loads_agree. intros x Hx. rewrite (load_outside _ (a + 12)), (load_outside _ (a + 8)); [done|cbn in *; lia..].
  - etransitivity; [|apply (load_stored (hw_store (zero_mem m a 16) a (le64 p)) (a + 8) (le32 st))]. apply loads_agree. intros x Hx.
    change (Z.of_nat (length (le32 st))) with 4 in Hx. apply load_outside. lia.
  - apply (load_stored _ (a + 12) (le32 ct)).
Qed.
End memory.

(** ** A ring as a queue *)

(** The controller's side: the next TRB is taken when its cycle bit is the
    expected one; a link leads to the address it names, and its toggle bit
    turns the expected one. *)
Record consumer := mk_consumer { k_addr : Z; k_cycle : bool }.
Definition trb_cycle (t : Trb) : bool := Z.odd (control t).
Definition trb_type (t : Trb) : Z := Z.land (Z.shiftr (control t) 10) 0x3F.
Definition toggles (t : Trb) : bool := Z.testbit (control t) 1.

Definition plain (t : Trb) : Trb := mk_trb (parameter t) (status t) (control t - Z.b2z (trb_cycle t)).
Definition stamp (t : Trb) (c : bool) : Trb := mk_trb (parameter t) (status t) (Z.lor (control t) (cycle_bit c)).

Definition take {M} `{NvmeHw M} (m : M) (k : consumer) : option Trb * consumer :=
  let t := load_trb m (k_addr k) in
  if Bool.eqb (trb_cycle t) (k_cycle k) then (Some (plain t), mk_consumer (k_addr k + 16) (k_cycle k)) else (None, k).
Definition fetch {M} `{NvmeHw M} (m : M) (k : consumer) : option Trb * consumer :=
  let t := load_trb m (k_addr k) in
  if Bool.eqb (trb_cycle t) (k_cycle k) && (trb_type t =? kTrbTypeLink)
  then take m (mk_consumer (parameter t) (if toggles t then negb (k_cycle k) else k_cycle k))
  else take m k.

(** What the driver puts on a ring: not a link, and without a cycle bit. *)
Definition request (t : Trb) : Prop := trb_ok t ∧ trb_cycle t = false ∧ trb_type t ≠ kTrbTypeLink.

Lemma stamp_control t c : request t → control (stamp t c) = control t + Z.b2z c.
Proof.
  intros (_ & Hc & _). cbn [stamp control]. unfold cycle_bit. change kTrbCycle with 1. destruct c; [|by rewrite Z.lor_0_r, Z.add_0_r].
  cbn [Z.b2z]. apply (lor_low_bits 1); [lia| |done]. unfold trb_cycle in Hc. rewrite Zmod_odd, Hc. done.
Qed.

Lemma stamp_request t c : request t → trb_ok (stamp t c) ∧ trb_cycle (stamp t c) = c ∧ trb_type (stamp t c) ≠ kTrbTypeLink ∧ plain (stamp t c) = t.
Proof.
  intros Ht. pose proof (stamp_control t c Ht) as Hs. destruct Ht as ((Hp & Hst & Hct) & Hc & Hty).
  assert (control t mod 2 = 0) as Hm by (unfold trb_cycle in Hc; by rewrite Zmod_odd, Hc).
  assert (trb_cycle (stamp t c) = c) as Hcy.
  { unfold trb_cycle in *. rewrite Hs, Z.odd_add, Hc. by destruct c. }
  split; [|split; [done|split]].
  - unfold trb_ok. rewrite Hs. split; [done|]. split; [done|]. change (2 ^ 32) with 4294967296 in *. destruct c; cbn [Z.b2z]; Z.div_mod_to_equations; lia.
  - unfold trb_type in *. rewrite Hs. rewrite Z.shiftr_div_pow2 in * by lia. change (2 ^ 10) with 1024 in *.
    rewrite (ltac:(destruct c; cbn [Z.b2z]; Z.div_mod_to_equations; lia) : (control t + Z.b2z c) / 1024 = control t / 1024). done.
  - unfold plain. rewrite Hcy, Hs. destruct t; cbn. f_equal. lia.
Qed.

(** Rings of 256 entries, the last of them the link: 255 places.  The [j]th
    request ever put lies at place [j mod 255] in round [j / 255]. *)
Definition kPlaces : Z := 255.
Definition place_of (base j : Z) : Z := base + 16 * (j mod 255).
Definition round_of (p : Z) : Z := if p =? 0 then 0 else (p - 1) / 255.

Record ring_holds {M} `{NvmeHw M} (m : M) (r : Ring) (k : consumer) (pend : list Trb) (base p q ci cq : Z) : Prop := {
  rh_base : 0 < base ∧ base + 4096 <= 2 ^ 64;
  rh_count : 0 <= q ∧ p = q + Z.of_nat (length pend) ∧ p <= q + 255;
  rh_ring : r = mk_ring base kRingSize (p - 255 * round_of p) (Z.even (round_of p)) true;
  rh_link : load_trb m (base + 16 * 255) = mk_trb base 0 (link_control (Z.even (Z.max 0 (round_of p - 1))));
  rh_consumer : k = mk_consumer (base + 16 * ci) (Z.even cq) ∧ q = ci + 255 * cq ∧ 0 <= ci <= 255 ∧ 0 <= cq;
  rh_pending j t : 0 <= j → pend !! Z.to_nat j = Some t → load_trb m (place_of base (q + j)) = stamp t (Z.even ((q + j) / 255));
  rh_free j : p <= j < q + 255 → trb_cycle (load_trb m (place_of base j)) = negb (Z.even (j / 255));
  rh_requests : Forall request pend;
}.

Lemma round_range p : 0 <= p → 0 <= p - 255 * round_of p <= 255 ∧ 0 <= round_of p ∧ (0 < p → 0 < p - 255 * round_of p).
Proof. intros Hp. unfold round_of. destruct (p =? 0) eqn:E; zbool; [lia|]. Z.div_mod_to_equations. lia. Qed.

Lemma link_trb base c : let t := mk_trb base 0 (link_control c) in trb_cycle t = c ∧ trb_type t = kTrbTypeLink ∧ toggles t = true.
Proof. by destruct c. Qed.

Section queue.
Context {M B : Type} `{NM : NvmeMem M phys_of}.
Implicit Types (m : M) (s : xhci M B).

(** A request at the consumer's place is taken, a free place is not. *)
Lemma take_place m r k pend base p q ci cq : ring_holds m r k pend base p q ci cq → ci < 255 →
  match pend with
  | [] => take m k = (None, k)
  | t :: pend' => take m k = (Some t, mk_consumer (base + 16 * (ci + 1)) (Z.even cq)) ∧
      ring_holds m r (mk_consumer (base + 16 * (ci + 1)) (Z.even cq)) pend' base p (q + 1) (ci + 1) cq
  end.
Proof.
  intros [] Hci. destruct rh_consumer0 as (-> & Hq & Hci2 & Hcq). destruct rh_count0 as (Hq0 & Hp & Hle).
  assert (place_of base q = base + 16 * ci) as Hpl by (unfold place_of; f_equal; f_equal; Z.div_mod_to_equations; lia).
  assert (q / 255 = cq) as Hround by (Z.div_mod_to_equations; lia).
  unfold take. cbn [k_addr k_cycle]. rewrite <- Hpl. destruct pend as [|t pend'].
  - cbn in Hp. rewrite (rh_free0 q) by lia. rewrite Hround. by destruct (Z.even cq).
  - apply Forall_cons in rh_requests0 as [Ht Hts]. destruct (stamp_request t (Z.even cq) Ht) as (_ & Hs2 & _ & Hs4).
    pose proof (rh_pending0 0 t ltac:(lia) ltac:(done)) as Hl. rewrite Z.add_0_r, Hround in Hl. rewrite Hl, Hs2, Hs4, eqb_reflx. cbn [length] in Hp.
    split; [rewrite Hpl; f_equal; f_equal; lia|]. split; try done.
    + lia.
    + split; [done|]. lia.
    + intros j t' Hj Hj'. rewrite <- Z.add_assoc. rewrite (rh_pending0 (1 + j) t'); [done|lia|]. replace (Z.to_nat (1 + j)) with (S (Z.to_nat j)) by lia. done.
    + intros j Hj. destruct (decide (j = q + 255)) as [->|Hne]; [|apply rh_free0; lia].
      assert (place_of base (q + 255) = place_of base q) as -> by (unfold place_of; f_equal; f_equal; Z.div_mod_to_equations; lia).
      rewrite Hl, Hs2. rewrite (ltac:(Z.div_mod_to_equations; lia) : (q + 255) / 255 = cq + 1), Z.add_1_r, Z.even_succ, <- Z.negb_even.
      by rewrite negb_involutive.
Qed.

(** A consumer at the link has passed it, or it is still closed and nothing
    is pending. *)
Lemma fetch_turns m r k pend base p q cq : ring_holds m r k pend base p q 255 cq →
  fetch m k = (None, k) ∧ pend = [] ∨
  fetch m k = take m (mk_consumer (base + 16 * 0) (Z.even (cq + 1))) ∧ ring_holds m r (mk_consumer (base + 16 * 0) (Z.even (cq + 1))) pend base p q 0 (cq + 1).
Proof.
  intros HR. pose proof HR as []. destruct rh_consumer0 as (-> & Hq & Hci2 & Hcq). destruct rh_count0 as (Hq0 & Hp & Hle).
  unfold fetch. cbn [k_addr k_cycle]. rewrite rh_link0. destruct (link_trb base (Z.even (Z.max 0 (round_of p - 1)))) as (L1 & L2 & L3). cbn zeta in *.
  rewrite L1, L2, L3. cbn [parameter]. destruct (Bool.eqb _ _) eqn:E; cbn [andb].
  - right. rewrite Z.eqb_refl, Z.mul_0_r, Z.add_0_r, Z.add_1_r, Z.even_succ, <- Z.negb_even. split; [done|]. split; try done.
    rewrite Z.mul_0_r, Z.add_0_r, Z.even_succ, <- Z.negb_even. split; [done|]. lia.
  - left. unfold take. cbn [k_addr k_cycle]. rewrite rh_link0, L1, E. split; [done|]. destruct pend as [|t pend]; [done|]. exfalso. cbn [length] in Hp.
    pose proof (round_range p ltac:(lia)) as (Hr1 & Hr2 & Hr3). assert (round_of p = cq + 1) as Hround by lia.
    rewrite Hround, (ltac:(lia) : Z.max 0 (cq + 1 - 1) = cq), eqb_reflx in E. done.
Qed.

Lemma not_a_link m r k pend base p q ci cq : ring_holds m r k pend base p q ci cq → ci < 255 → fetch m k = take m k.
Proof.
  intros HR Hci. pose proof HR as []. destruct rh_consumer0 as (-> & Hq & Hci2 & Hcq). destruct rh_count0 as (Hq0 & Hp & Hle).
  unfold fetch. destruct (Bool.eqb _ _) eqn:E; [|done]. cbn [andb k_addr k_cycle] in *.
  assert (place_of base q = base + 16 * ci) as Hpl by (unfold place_of; f_equal; f_equal; Z.div_mod_to_equations; lia).
  assert (q / 255 = cq) as Hround by (Z.div_mod_to_equations; lia). rewrite <- Hpl in *. destruct pend as [|t pend'].
  - cbn in Hp. rewrite (rh_free0 q), Hround in E by lia. by destruct (Z.even cq).
  - apply Forall_cons in rh_requests0 as [Ht Hts]. destruct (stamp_request t (Z.even cq) Ht) as (_ & _ & Hs3 & _).
    pose proof (rh_pending0 0 t ltac:(lia) ltac:(done)) as Hl. rewrite Z.add_0_r, Hround in Hl. rewrite Hl. by rewrite (proj2 (Z.eqb_neq _ _) Hs3).
Qed.

(** The controller gets the oldest request, and nothing from an empty ring. *)
Lemma fetch_oldest m r k pend base p q ci cq : ring_holds m r k pend base p q ci cq →
  ∃ k' q' ci' cq', fetch m k = (head pend, k') ∧ ring_holds m r k' (tail pend) base p q' ci' cq'.
Proof.
  intros HR. destruct (decide (ci = 255)) as [->|Hci].
  - destruct (fetch_turns _ _ _ _ _ _ _ _ HR) as [[-> ->]|[-> HR']]; [by eexists _, _, _, _|].
    pose proof (take_place _ _ _ _ _ _ _ _ _ HR' ltac:(lia)) as HT. destruct pend as [|t pend']; [rewrite HT; by eexists _, _, _, _|].
    destruct HT as [-> HT]. by eexists _, _, _, _.
  - assert (ci < 255) as Hlt by (destruct (rh_consumer _ _ _ _ _ _ _ _ _ HR); lia). rewrite (not_a_link _ _ _ _ _ _ _ _ _ HR Hlt).
    pose proof (take_place _ _ _ _ _ _ _ _ _ HR Hlt) as HT. destruct pend as [|t pend']; [rewrite HT; by eexists _, _, _, _|].
    destruct HT as [-> HT]. by eexists _, _, _, _.
Qed.

Definition the_ring (i : ring_id) s : Ring :=
  match i with
  | CmdRing => cmd_ring (g_ctrl s) | Ep0Ring => ep0_ring (g_dev s) | BulkInRing => bulk_in_ring (g_dev s) | BulkOutRing => bulk_out_ring (g_dev s)
  end.

(** What putting a TRB does to the ring and to memory. *)
Definition turned (r : Ring) : Ring :=
  if has_link r && (r_size r -u 1 <=? r_index r) then mk_ring (trbs r) (r_size r) 0 (negb (r_cycle r)) (has_link r) else r.
Definition link_stored m (r : Ring) : M :=
  if has_link r && (r_size r -u 1 <=? r_index r) then hw_store m (trbs r + 16 * (r_size r - 1) + 12) (le32 (link_control (r_cycle r))) else m.

Lemma put_runs i s p st ct : trbs (the_ring i s) ≠ 0 →
  let r := turned (the_ring i s) in
  let a := trbs r + 16 * r_index r in
  ∃ s', put_trb i p st ct s = Some (a, s') ∧ the_ring i s' = mk_ring (trbs r) (r_size r) (r_index r + 1) (r_cycle r) (has_link r) ∧
    xh_m s' = trb_stored (link_stored (xh_m s) (the_ring i s)) a p st (Z.lor ct (cycle_bit (r_cycle r))).
Proof.
  intros Hb. unfold put_trb, ring_alloc_trb, ring_wrap, turned, link_stored.
  destruct s as [m bus tx hu tb c d l], c as [rg [ctr csz cix ccy clk] er et ei ec dc cr], d as [dv [etr esz eix ecy elk] [itr isz iix icy ilk] [otr osz oix ocy olk] dx ix cf].
  destruct i; cbn [the_ring g_ctrl g_dev cmd_ring ep0_ring bulk_in_ring bulk_out_ring trbs r_size r_index r_cycle has_link xh_m] in *;
  cbv [mbind Xh_bind mret Xh_ret ring get ring_cycle set_ring set_ctrl set_dev zero set_mem set_parameter set_status set_control mem_store
    g_ctrl g_dev cmd_ring ep0_ring bulk_in_ring bulk_out_ring trbs r_size r_index r_cycle has_link xh_m xh_bus xh_tx g_xhci_heap_used xh_mmio g_completions
    c_regs evt_ring evt_trbs evt_index evt_cycle dcbaa c_ready ds_dev dev_ctx input_ctx configured];
  rewrite (proj2 (Z.eqb_neq _ 0) Hb); destruct (_ && _).
  all: eexists; split; [apply eq_refl|]; split; apply eq_refl.
Qed.

(** Places of the ring other than the one written keep their TRB. *)
Lemma place_apart base j p : p - 255 < j < p + 255 → j ≠ p → place_of base j + 16 <= place_of base p ∨ place_of base p + 16 <= place_of base j.
Proof. intros Hj Hne. unfold place_of. Z.div_mod_to_equations. lia. Qed.
Lemma place_before_link base j : base <= place_of base j ∧ place_of base j + 16 <= base + 16 * 255.
Proof. unfold place_of. Z.div_mod_to_equations. lia. Qed.


Lemma link_control_range c : 0 <= link_control c < 4294967296.
Proof. by destruct c. Qed.

(** Memory and ring while a request is put: turning only touches the link. *)
Lemma turn_ok m r k pend base p q ci cq : ring_holds m r k pend base p q ci cq → (length pend < 255)%nat →
  turned r = mk_ring base kRingSize (p mod 255) (Z.even (p / 255)) true ∧
  load_trb (link_stored m r) (base + 16 * 255) = mk_trb base 0 (link_control (Z.even (Z.max 0 (p / 255 - 1)))) ∧
  (∀ j, load_trb (link_stored m r) (place_of base j) = load_trb m (place_of base j)).
Proof.
  intros HR Hlen. pose proof HR as []. destruct rh_consumer0 as (-> & Hq & Hci2 & Hcq). destruct rh_count0 as (Hq0 & Hp & Hle).
  pose proof (round_range p ltac:(lia)) as (Hr1 & Hr2 & Hr3). subst r. unfold turned, link_stored. cbn [has_link r_size r_index r_cycle trbs andb].
  change (kRingSize -u 1) with 255. destruct (255 <=? _) eqn:E; zbool.
  - assert (p = 255 * (round_of p + 1)) as Hp2 by lia.
    assert (p mod 255 = 0) as -> by (Z.div_mod_to_equations; lia). assert (p / 255 = round_of p + 1) as -> by (Z.div_mod_to_equations; lia).
    rewrite Z.add_1_r, Z.even_succ, <- Z.negb_even. split; [done|]. change (kRingSize - 1) with 255. split.
    + rewrite load_trb_control by apply link_control_range. rewrite rh_link0. cbn [parameter status]. do 3 f_equal. lia.
    + intros j. apply load_trb_ext. intros x Hx. apply load_outside. pose proof (place_before_link base j). lia.
  - assert (p mod 255 = p - 255 * round_of p) as -> by (Z.div_mod_to_equations; lia). assert (p / 255 = round_of p) as -> by (Z.div_mod_to_equations; lia).
    done.
Qed.

(** A request put on a ring with room is the newest one. *)
Lemma put_newest i s k pend base p q ci cq t : ring_holds (xh_m s) (the_ring i s) k pend base p q ci cq → request t → (length pend < 255)%nat →
  ∃ s', put_trb i (parameter t) (status t) (control t) s = Some (place_of base p, s') ∧
    ring_holds (xh_m s') (the_ring i s') k (pend ++ [t]) base (p + 1) q ci cq.
Proof.
  intros HR Ht Hlen. destruct (turn_ok _ _ _ _ _ _ _ _ _ HR Hlen) as (Hturn & Hlink & Hplaces). pose proof HR as [].
  destruct rh_count0 as (Hq0 & Hp & Hle). assert (trbs (the_ring i s) ≠ 0) as Hb by (rewrite rh_ring0; cbn; lia).
  destruct (put_runs i s (parameter t) (status t) (control t) Hb) as (s' & E & Hr & Hm). rewrite Hturn in *. cbn [trbs r_size r_index r_cycle has_link] in *.
  change (base + 16 * (p mod 255)) with (place_of base p) in *. exists s'. split; [exact E|].
  destruct (stamp_request t (Z.even (p / 255)) Ht) as (Hs1 & Hs2 & Hs3 & Hs4).
  assert (load_trb (xh_m s') (place_of base p) = stamp t (Z.even (p / 255))) as Hnew by (rewrite Hm; by apply load_trb_stored).
  assert (∀ j, p - 255 < j < p + 255 → j ≠ p → load_trb (xh_m s') (place_of base j) = load_trb (xh_m s) (place_of base j)) as Hold.
  { intros j Hj Hne. rewrite <- Hplaces, Hm. apply load_trb_ext. intros x Hx. apply trb_stored_outside. pose proof (place_apart base j p Hj Hne). lia. }
  assert (round_of (p + 1) = p / 255) as Hround by (unfold round_of; rewrite (proj2 (Z.eqb_neq _ 0)) by lia; f_equal; lia).
  split; [done|rewrite length_app; cbn; lia| | |done| | |].
  - rewrite Hr, Hround. f_equal. Z.div_mod_to_equations. lia.
  - rewrite Hround, <- Hlink, Hm. apply load_trb_ext. intros x Hx. apply trb_stored_outside. pose proof (place_before_link base p). lia.
  - intros j t' Hj Hj'. destruct (decide (j = p - q)) as [->|Hne].
    + rewrite lookup_app_r, (ltac:(lia) : (Z.to_nat (p - q) - length pend)%nat = 0%nat) in Hj' by lia. injection Hj' as <-.
      rewrite (ltac:(lia) : q + (p - q) = p). exact Hnew.
    + assert (Z.to_nat j < length pend)%nat as Hlt. { apply lookup_lt_Some in Hj'. rewrite length_app in Hj'. cbn in Hj'. lia. }
      rewrite Hold by lia. apply rh_pending0; [done|]. by rewrite lookup_app_l in Hj'.
  - intros j Hj. rewrite Hold by lia. apply rh_free0. lia.
  - apply Forall_app. split; [done|]. by apply Forall_singleton.
Qed.

(** ** Sequences *)

Inductive ring_op := Put (t : Trb) | Fetch.

(** The requests the controller sees. *)
Fixpoint run_ring (i : ring_id) (ops : list ring_op) s (k : consumer) : option (list (option Trb) * xhci M B * consumer) :=
  match ops with
  | [] => Some ([], s, k)
  | Put t :: ops' => '(_, s) ← put_trb i (parameter t) (status t) (control t) s; run_ring i ops' s k
  | Fetch :: ops' => let '(t, k) := fetch (xh_m s) k in '(ts, s, k) ← run_ring i ops' s k; Some (t :: ts, s, k)
  end.
End queue.

(** A queue of at most 255 requests. *)
Fixpoint run_queue (ops : list ring_op) (pend : list Trb) : option (list (option Trb) * list Trb) :=
  match ops with
  | [] => Some ([], pend)
  | Put t :: ops' => if decide (length pend < 255)%nat then run_queue ops' (pend ++ [t]) else None
  | Fetch :: ops' => '(ts, pend') ← run_queue ops' (tail pend); Some (head pend :: ts, pend')
  end.
Definition op_ok (o : ring_op) : Prop := match o with Put t => request t | Fetch => True end.

Section rings.
Context {M B : Type} `{NM : NvmeMem M phys_of}.

(** The ring of a state and a consumer hold the requests of a queue. *)
Definition ring_queue (i : ring_id) (s : xhci M B) (k : consumer) (pend : list Trb) : Prop :=
  ∃ base p q ci cq, ring_holds (xh_m s) (the_ring i s) k pend base p q ci cq.

(** C38: A transfer or command ring is a queue: whatever the order of requests
    put by the driver and fetched by the controller, and however often the
    ring has been gone round, the controller gets every request once, in order
    and unchanged, and finds the ring empty when it has them all, provided no
    more than 255 requests are waiting. *)
Theorem ring_is_queue i ops : ∀ (s : xhci M B) k pend outs pend',
  ring_queue i s k pend → Forall op_ok ops → run_queue ops pend = Some (outs, pend') →
  ∃ s' k', run_ring i ops s k = Some (outs, s', k') ∧ ring_queue i s' k' pend'.
Proof.
  induction ops as [|[t|] ops IH]; intros s k pend outs pend' (base & p & q & ci & cq & HR) Hok Hq; cbn [run_queue run_ring] in *.
  - injection Hq as <- <-. exists s, k. split; [done|]. by exists base, p, q, ci, cq.
  - apply Forall_cons in Hok as [Ht Hok]. destruct (decide _) as [Hlen|]; [|done].
    destruct (put_newest i s k pend base p q ci cq t HR Ht Hlen) as (s1 & -> & HR1). cbn.
    apply (IH s1 k (pend ++ [t])); [by exists base, (p + 1), q, ci, cq|done|done].
  - apply Forall_cons in Hok as [_ Hok]. destruct (fetch_oldest _ _ _ _ _ _ _ _ _ HR) as (k1 & q1 & ci1 & cq1 & -> & HR1).
    apply bind_Some in Hq as ([ts pend1] & Hrun & Hq). injection Hq as <- <-.
    destruct (IH s k1 (tail pend) ts pend1) as (s' & k' & -> & HR'); [by exists base, p, q1, ci1, cq1|done|done|].
    exists s', k'. done.
Qed.
End rings.

(** ** New rings *)

Section fresh.
Context {M B : Type} `{NM : NvmeMem M phys_of}.
Implicit Types (m : M) (s : xhci M B).

Lemma load_zeroed m a n x : a <= x < a + n → hw_load (zero_mem m a n) x = 0.
Proof.
  intros Hx. unfold zero_mem. rewrite load_store, length_replicate. rewrite (proj2 (Z.leb_le a x)), (proj2 (Z.ltb_lt x _)) by lia. cbn [andb].
  unfold zget. by rewrite lookup_total_replicate_2 by lia.
Qed.

Lemma load_trb_zero m a : (∀ x, a <= x < a + 16 → hw_load m x = 0) → load_trb m a = no_trb.
Proof.
  intros Hx. rewrite (load_trb_ext m (zero_mem m a 16)) by (intros x Hx'; by rewrite load_zeroed, Hx).
  apply load_trb_bytes; [done|]. apply (load_stored m a (replicate 16 0)).
Qed.

(** [ring_init] leaves an empty ring, for a controller that starts at its
    first place and expects a set cycle bit. *)
Lemma new_ring_empty heap_base s r s' : ring_init heap_base kRingSize true s = Some (r, s') →
  0 < trbs r → trbs r + 4096 <= 2 ^ 64 → ring_holds (xh_m s') r (mk_consumer (trbs r) true) [] (trbs r) 0 0 0 0.
Proof.
  intros E Hb Hw. unfold ring_init in E. unfold mbind, Xh_bind in E. destruct (xhci_alloc _ _ _ _) as [[t s1]|]; [|done].
  destruct (t =? 0) eqn:Et; zbool; [injection E as <- <-; cbn in Hb; lia|]. injection E as <- <-. cbn [trbs xh_m] in *.
  set (link := mk_trb t 0 (link_control true)). change (kRingSize - 1) with 255. change (16 * kRingSize) with 4096.
  assert (∀ j, load_trb (hw_store (zero_mem (xh_m s1) t 4096) (t + 16 * 255) (trb_bytes link)) (place_of t j) = no_trb) as Hz.
  { intros j. apply load_trb_zero. intros x Hx. pose proof (place_before_link t j). rewrite load_outside by (change (length (trb_bytes link)) with 16%nat; lia).
    apply load_zeroed. lia. }
  split; cbn [length]; try done; [|split; [f_equal; lia|lia]|].
  - apply load_trb_bytes; [|apply (load_stored _ _ (trb_bytes link))]. split; [|done]. cbn. lia.
  - intros j Hj. rewrite Hz. by rewrite Z.div_small by lia.
Qed.
End fresh.

(** ** The configuration descriptor *)

(** A descriptor: its type and the bytes after the first two. *)
Record descriptor := mk_descriptor { d_type : Z; d_body : list Z }.
Definition descriptor_bytes (d : descriptor) : list Z := Z.of_nat (2 + length (d_body d)) :: d_type d :: d_body d.
Definition config_bytes (ds : list descriptor) : list Z := concat (descriptor_bytes <$> ds).

(** The class, subclass and protocol of an interface; the number and the
    attributes of an endpoint. *)
Definition is_msc (d : descriptor) : bool :=
  (d_type d =? 4) && (zget (d_body d) 3 =? kUsbClassMassStorage) && (zget (d_body d) 4 =? kUsbSubclassScsi) && (zget (d_body d) 5 =? kUsbProtoBulk).
Definition is_bulk (d : descriptor) : bool := Z.land (zget (d_body d) 1) 0x3 =? 2.
Definition bulk_update (d : descriptor) (eps : Z * Z) : Z * Z :=
  let addr := zget (d_body d) 0 in
  if is_bulk d then (if negb (Z.land addr 0x80 =? 0) then (Z.land addr 0x0F, eps.2) else (eps.1, Z.land addr 0x0F)) else eps.

(** Endpoints count while the interface they follow is a mass storage one. *)
Definition note (st : bool * (Z * Z)) (d : descriptor) : bool * (Z * Z) :=
  if d_type d =? 4 then (is_msc d, st.2)
  else (st.1, if st.1 && (d_type d =? 5) then bulk_update d st.2 else st.2).
Definition bulk_endpoints (ds : list descriptor) : Z * Z := (fold_left note ds (false, (0, 0))).2.

(** Interfaces have at least 8 bytes, endpoints at least 4. *)
Definition descriptor_ok (d : descriptor) : Prop :=
  Z.of_nat (2 + length (d_body d)) < 256 ∧ (d_type d = 4 → (6 <= length (d_body d))%nat) ∧ (d_type d = 5 → (2 <= length (d_body d))%nat).

(** The two nested walks over a list of descriptors. *)
Fixpoint until_interface (ds : list descriptor) (eps : Z * Z) : Z * Z :=
  match ds with
  | [] => eps
  | d :: ds' => if d_type d =? 4 then eps else until_interface ds' (if d_type d =? 5 then bulk_update d eps else eps)
  end.
Fixpoint interfaces (ds : list descriptor) (eps : Z * Z) : Z * Z :=
  match ds with
  | [] => eps
  | d :: ds' => interfaces ds' (if is_msc d then until_interface ds' eps else eps)
  end.

Lemma note_interfaces ds : ∀ b eps, (fold_left note ds (b, eps)).2 = interfaces ds (if b : bool then until_interface ds eps else eps).
Proof.
  induction ds as [|d ds IH]; intros b eps; [by destruct b|]. cbn [fold_left interfaces until_interface]. unfold note at 2. cbn [fst snd].
  destruct (d_type d =? 4) eqn:E4.
  - rewrite IH. by destruct b.
  - rewrite IH. unfold is_msc. rewrite E4. cbn [andb]. destruct b; [|done]. by destruct (d_type d =? 5).
Qed.

Lemma length_descriptor d : length (descriptor_bytes d) = (2 + length (d_body d))%nat.
Proof. done. Qed.

Section scan.
Context (cfg : Z → Z) (ds : list descriptor).
Context (Hcfg : ∀ i, 0 <= i < Z.of_nat (length (config_bytes ds)) → cfg i = zget (config_bytes ds) i).
Context (Htotal : (length (config_bytes ds) <= 512)%nat) (Hok : Forall descriptor_ok ds).
Local Definition total : Z := Z.of_nat (length (config_bytes ds)).

(** Where a descriptor lies after the ones in [pre]. *)
Definition offset (pre : list descriptor) : Z := Z.of_nat (length (config_bytes pre)).

Lemma config_bytes_app l1 l2 : config_bytes (l1 ++ l2) = config_bytes l1 ++ config_bytes l2.
Proof. unfold config_bytes. by rewrite fmap_app, concat_app. Qed.

Lemma offset_snoc pre d : offset (pre ++ [d]) = offset pre + Z.of_nat (2 + length (d_body d)).
Proof. unfold offset. rewrite config_bytes_app, length_app. unfold config_bytes at 2. cbn [fmap list_fmap concat]. rewrite app_nil_r, length_descriptor. lia. Qed.

Lemma offset_next pre d post : ds = pre ++ d :: post → offset pre + Z.of_nat (2 + length (d_body d)) <= total.
Proof.
  intros E. rewrite <- offset_snoc. unfold total. rewrite (ltac:(by rewrite E, <- app_assoc) : ds = (pre ++ [d]) ++ post), config_bytes_app, length_app.
  unfold offset. lia.
Qed.

Lemma cfg_at pre d post k : ds = pre ++ d :: post → 0 <= k < Z.of_nat (2 + length (d_body d)) → cfg (offset pre + k) = zget (descriptor_bytes d) k.
Proof.
  intros E Hk. pose proof (offset_next pre d post E) as Hn. rewrite Hcfg by (unfold total, offset in *; lia).
  rewrite E, config_bytes_app. unfold config_bytes at 2. cbn [fmap list_fmap concat]. unfold zget, offset.
  rewrite lookup_total_app_r by lia. rewrite lookup_total_app_l by (rewrite length_descriptor; lia). f_equal. lia.
Qed.

Lemma body_at pre d post k : ds = pre ++ d :: post → 0 <= k < Z.of_nat (length (d_body d)) → cfg (offset pre + (2 + k)) = zget (d_body d) k.
Proof.
  intros E Hk. rewrite (cfg_at pre d post) by (done || lia). unfold zget. replace (Z.to_nat (2 + k)) with (S (S (Z.to_nat k))) by lia. done.
Qed.

(** The first bytes of the descriptor reached. *)
Lemma header_at pre d post : ds = pre ++ d :: post →
  (offset pre + 1 <? total) = true ∧ cfg (offset pre) = Z.of_nat (2 + length (d_body d)) ∧ cfg (offset pre + 1) = d_type d ∧
  (offset pre + cfg (offset pre) <=? total) = true ∧ u16 (offset pre + cfg (offset pre)) = offset (pre ++ [d]) ∧ descriptor_ok d.
Proof.
  intros E. pose proof (offset_next pre d post E) as Hn. assert (cfg (offset pre) = Z.of_nat (2 + length (d_body d))) as Hl.
  { pose proof (cfg_at pre d post 0 E ltac:(lia)) as H0. by rewrite Z.add_0_r in H0. }
  rewrite Hl, offset_snoc. split; [apply Z.ltb_lt; lia|]. split; [done|]. split; [by apply (cfg_at pre d post 1 E ltac:(lia))|].
  split; [apply Z.leb_le; lia|]. split; [apply u16_small; unfold total, offset in *; lia|].
  rewrite E in Hok. apply Forall_app in Hok as [_ Hok']. by apply Forall_cons in Hok' as [? _].
Qed.

Lemma walk_done pre : ds = pre → (offset pre + 1 <? total) = false.
Proof. intros <-. apply Z.ltb_ge. unfold total, offset. lia. Qed.

Lemma scan_endpoints_ok post : ∀ pre fuel eps, ds = pre ++ post → (length post < fuel)%nat →
  scan_endpoints cfg total fuel (offset pre) eps = until_interface post eps.
Proof.
  induction post as [|d post IH]; intros pre fuel eps E Hf; (destruct fuel as [|fuel]; [lia|]); cbn [scan_endpoints until_interface].
  - rewrite app_nil_r in E. by rewrite walk_done.
  - destruct (header_at pre d post E) as (-> & Hl & -> & Hle & Hnext & Hd). rewrite Hnext, Hle, Hl, (proj2 (Z.eqb_neq (Z.of_nat _) 0)) by lia.
    assert (ds = (pre ++ [d]) ++ post) as E' by (by rewrite <- app_assoc). cbn [length] in Hf.
    destruct (d_type d =? 5) eqn:E5; cbn [andb].
    + rewrite (IH (pre ++ [d]) fuel _ E') by lia. zbool. rewrite E5. cbn [Z.eqb Pos.eqb]. f_equal. unfold endpoint_at, bulk_update, is_bulk.
      destruct Hd as (_ & _ & Hd). specialize (Hd E5).
      pose proof (body_at pre d post 0 E ltac:(lia)) as B0. pose proof (body_at pre d post 1 E ltac:(lia)) as B1. change (2 + 0) with 2 in B0. change (2 + 1) with 3 in B1. by rewrite B0, B1.
    + destruct (d_type d =? 4); [done|]. apply (IH (pre ++ [d])); [done|lia].
Qed.

Lemma is_msc_at pre d post : ds = pre ++ d :: post → (d_type d =? 4) && is_mass_storage cfg (offset pre) = is_msc d.
Proof.
  intros E. destruct (header_at pre d post E) as (_ & _ & _ & _ & _ & _ & Hd & _). unfold is_msc, is_mass_storage. destruct (d_type d =? 4) eqn:E4; [|done]. zbool. specialize (Hd E4).
  pose proof (body_at pre d post 3 E ltac:(lia)) as B3. pose proof (body_at pre d post 4 E ltac:(lia)) as B4. pose proof (body_at pre d post 5 E ltac:(lia)) as B5.
  change (2 + 3) with 5 in B3. change (2 + 4) with 6 in B4. change (2 + 5) with 7 in B5. by rewrite B3, B4, B5.
Qed.

Lemma scan_config_ok post : ∀ pre fuel eps, ds = pre ++ post → (length post < fuel)%nat → (length post < 512)%nat →
  scan_config cfg total fuel (offset pre) eps = interfaces post eps.
Proof.
  induction post as [|d post IH]; intros pre fuel eps E Hf H5; (destruct fuel as [|fuel]; [lia|]); cbn [scan_config interfaces].
  - rewrite app_nil_r in E. by rewrite walk_done.
  - pose proof (is_msc_at pre d post E) as Hm. destruct (header_at pre d post E) as (-> & Hl & -> & Hle & Hnext & Hd).
    rewrite Hnext, Hle, Hl, (proj2 (Z.eqb_neq (Z.of_nat _) 0)), andb_true_r, Hm by lia.
    assert (ds = (pre ++ [d]) ++ post) as E' by (by rewrite <- app_assoc). cbn [length] in Hf, H5.
    rewrite (scan_endpoints_ok post (pre ++ [d]) 512 eps E') by lia. apply (IH (pre ++ [d])); [done|lia..].
Qed.
End scan.

Lemma config_length ds : (2 * length ds <= length (config_bytes ds))%nat.
Proof. induction ds as [|d ds IH]; [cbn; lia|]. unfold config_bytes in *. cbn [fmap list_fmap concat]. rewrite length_app, length_descriptor. cbn [length]. lia. Qed.

(** C39: On the bytes of any list of descriptors, the walk of
    [get_mass_storage_device] finds the endpoints a reader of the list finds:
    of the bulk endpoints that follow an interface for SCSI over bulk-only
    mass storage, before the next interface, the last one of each direction. *)
Theorem endpoints_found cfg ds :
  (∀ i, 0 <= i < Z.of_nat (length (config_bytes ds)) → cfg i = zget (config_bytes ds) i) →
  (length (config_bytes ds) <= 512)%nat → Forall descriptor_ok ds →
  find_endpoints cfg (Z.of_nat (length (config_bytes ds))) = bulk_endpoints ds.
Proof.
  intros Hcfg Htot Hok. pose proof (config_length ds) as Hl. unfold find_endpoints, bulk_endpoints. rewrite note_interfaces.
  apply (scan_config_ok cfg ds Hcfg Htot Hok ds []); [done|lia..].
Qed.

(** A memory stick: configuration, interface, two bulk endpoints. *)
Definition stick : list descriptor := [
  mk_descriptor 2 [32; 0; 1; 1; 0; 0x80; 50];
  mk_descriptor 4 [0; 0; 2; 0x08; 0x06; 0x50; 0];
  mk_descriptor 5 [0x81; 2; 0; 2; 0];
  mk_descriptor 5 [0x02; 2; 0; 2; 0]].

Lemma endpoints_found_witness : find_endpoints (zget (config_bytes stick)) 32 = (1, 2).
Proof.
  apply (endpoints_found (zget (config_bytes stick)) stick); [done|by vm_compute; lia|].
  repeat (apply Forall_cons_2; [split_and!; cbn; intros; lia|]). apply Forall_nil_2.
Defined.

(** ** Instances and limits *)

Definition quiet : serial := mk_serial false [].
Definition no_regs : regs := mk_regs 0 0 0 0 0 0 0 0 0 0.
Definition no_controller : Controller := mk_controller no_regs no_ring no_ring 0 0 false 0 false.
Definition no_dstate : DeviceState := mk_dstate no_usb no_ring no_ring no_ring 0 0 false.
Definition desk_xhci : xhci desk unit := mk_xhci desk_start tt quiet 0 no_mmio no_controller no_dstate [].
(** With a new command ring. *)
Definition desk_ring : xhci desk unit :=
  default desk_xhci (snd <$> (r ← ring_init 0x100000 kRingSize true; set_ring CmdRing r : Xh desk unit unit) desk_xhci).
Definition enable_slot_trb : Trb := mk_trb 0 0 (Z.shiftl kTrbTypeEnableSlot 10).
Definition address_trb : Trb := mk_trb 0x101000 0 (Z.shiftl kTrbTypeAddressDevice 10).

Lemma desk_ring_empty : ring_queue CmdRing desk_ring (mk_consumer 0x100000 true) [].
Proof.
  exists 0x100000, 0, 0, 0, 0.
  exact (new_ring_empty (phys_of := swap_page) 0x100000 desk_xhci _ _ eq_refl ltac:(done) ltac:(done)).
Qed.

Lemma ring_is_queue_witness : ∃ s' k',
  run_ring CmdRing [Put enable_slot_trb; Put address_trb; Fetch; Fetch; Fetch] desk_ring (mk_consumer 0x100000 true)
    = Some ([Some enable_slot_trb; Some address_trb; None], s', k') ∧ ring_queue CmdRing s' k' [].
Proof.
  apply (ring_is_queue (NM := desk_mem) CmdRing _ desk_ring (mk_consumer 0x100000 true) []); [exact desk_ring_empty| |reflexivity].
  repeat (apply Forall_cons_2; [done || (split_and!; done)|]). apply Forall_nil_2.
Defined.

(** Bits 1, 17 and 21 of PORTSC (enabled, and the two change bits) are cleared
    by writing a one to them; a reset ends in the enabled state. *)
Definition port_write (old v : Z) : Z :=
  let cleared := Z.land v (Z.lor kPortscPed (Z.lor kPortscCsc kPortscPrc)) in
  Z.lor (Z.land old (Z.lnot cleared)) (Z.land v kPortscPr).
Definition port_reset (v : Z) : Z :=
  if Z.land v kPortscPr =? 0 then v else Z.lor (Z.lor (Z.land v (Z.lnot kPortscPr)) kPortscPed) kPortscPrc.
#[local] Instance port_hw : NvmeHw Z := {|
  hw_load m a := 0; hw_store m a bs := m; hw_read m a := (m, m); hw_write m a v := port_write m v; hw_pause := port_reset;
|}.

(** [reset_port] acknowledges the change bits with the value it has read, in
    which the port is enabled: it reports success for a port it has just
    disabled. *)
Lemma reset_port_disables :
  (λ r, (r.1, Z.land (xh_m r.2) kPortscPed)) <$>
    reset_port 1 (mk_xhci (Z.lor kPortscCcs kPortscCsc) tt quiet 0 no_mmio no_controller no_dstate []) = Some (true, 0).
Proof. vm_compute. reflexivity. Qed.

(** An endpoint context gives the dequeue pointer in the words at 8 and 12,
    with the cycle state in the lowest bit.  The driver sets bit 0 of the upper
    word: the ring is looked for 4 GiB higher, with the wrong cycle state. *)
Lemma endpoint_context_misread tr mps ty : 0 <= tr < 4294967296 → tr mod 16 = 0 →
  let c := ep_context tr mps ty in Z.odd (word32 c 8) = false ∧ word32 c 8 + 4294967296 * word32 c 12 = tr + 4294967296.
Proof.
  intros Ht Ha. cbn zeta. unfold ep_context. set (w1 := Z.lor _ (Z.shiftl mps 16)).
  change 0xFFFFFFFF with (Z.ones 32). rewrite Z.land_ones, (Z.shiftr_div_pow2 _ 32) by lia. change (2 ^ 32) with 4294967296.
  rewrite (Z.mod_small tr), (Z.div_small tr) by lia. change (Z.lor (u32 0) 1) with 1.
  pose proof (word32_le32 (le32 0 ++ le32 w1) tr (le32 1 ++ le32 8) Ht) as E1.
  pose proof (word32_le32 (le32 0 ++ le32 w1 ++ le32 tr) 1 (le32 8) ltac:(lia)) as E2. rewrite <- !app_assoc in E1. rewrite <- !app_assoc in E2.
  change (Z.of_nat (length (le32 0 ++ le32 w1))) with 8 in E1. change (Z.of_nat (length (le32 0 ++ le32 w1 ++ le32 tr))) with 12 in E2.
  rewrite E1, E2. split; [|lia]. rewrite <- Z.negb_even. apply negb_false_iff, Z.even_spec. exists (tr / 2). Z.div_mod_to_equations. lia.
Qed.
