(* ===== verification/Display.v ===== *)
(** * The text screen ([kernel/video.cpp])

    The 80 by 25 cells at 0xB8000 with the cursor, and what they show: the end
    of the paper on which everything written so far would be. *)

From S2P Require Import Prelude CText.

Definition kAttr : Z := 0x07.
Definition kCols : Z := 80.
Definition kRows : Z := 25.

Record video := mk_video { kVga : list Z; g_row : Z; g_col : Z }.

Definition blank : Z := Z.lor 32 (Z.shiftl kAttr 8).
Definition cell (ch : Z) : Z := Z.lor (u8 ch) (Z.shiftl kAttr 8).

Definition copy_rows (cells : list Z) : list Z :=
  for_up 1 kRows 1 (λ r cells,
    for_up 0 kCols 1 (λ c cells, zset cells ((r - 1) * kCols + c) (zget cells (r * kCols + c))) cells) cells.
Definition clear_row (r : Z) (cells : list Z) : list Z := for_up 0 kCols 1 (λ c cells, zset cells (r * kCols + c) blank) cells.

Definition scroll_up (v : video) : video :=
  mk_video (clear_row (kRows - 1) (copy_rows (kVga v))) (if 0 <? g_row v then kRows - 1 else g_row v) (g_col v).

Definition clear (v : video) : video := mk_video (for_up 0 kRows 1 clear_row (kVga v)) 0 0.
Definition init (v : video) : video := clear v.

(** [++g_row] with the column at 0. *)
Definition next_row (v : video) : video :=
  let v := mk_video (kVga v) (g_row v + 1) 0 in
  if kRows <=? g_row v then scroll_up v else v.

(** [ch] is a [char], signed. *)
Definition write_char (v : video) (ch : Z) : video :=
  if ch =? 13 then mk_video (kVga v) (g_row v) 0
  else if ch =? 10 then next_row v
  else if ch =? 8 then
    if 0 <? g_col v then mk_video (zset (kVga v) (g_row v * kCols + (g_col v - 1)) blank) (g_row v) (g_col v - 1) else v
  else if (ch <? 32) || (126 <? ch) then v
  else
    let v := mk_video (zset (kVga v) (g_row v * kCols + g_col v) (cell ch)) (g_row v) (g_col v + 1) in
    if kCols <=? g_col v then next_row v else v.

(** ** Escape sequences *)

Definition schar (c : ascii) : Z := let n := Z.of_nat (nat_of_ascii c) in if n <? 128 then n else n - 256.

Fixpoint number (s : text) (num : Z) (has : bool) : Z * bool * text :=
  match s with
  | c :: s' => if (48 <=? schar c) && (schar c <=? 57) then number s' (i32 (num * 10 + (schar c - 48))) true else (num, has, s)
  | [] => (num, has, [])
  end.

(** A turn of the loop takes at least one character. *)
Fixpoint write_loop (fuel : nat) (v : video) (s : text) : video :=
  match fuel, s with
  | S fuel', c :: s' =>
      if (schar c =? 27) && bool_decide (head s' = Some "["%char) then
        match number (tail s') 0 false with
        | (num, has, cmd :: rest) =>
            if Ascii.eqb cmd "J" && has && (num =? 2) then write_loop fuel' (clear v) rest
            else if Ascii.eqb cmd "K" && has && (num =? 2) then write_loop fuel' (mk_video (clear_row (g_row v) (kVga v)) (g_row v) 0) rest
            else if Ascii.eqb cmd "H" then write_loop fuel' (mk_video (kVga v) 0 0) rest
            else write_loop fuel' v s'
        | _ => write_loop fuel' v s'
        end
      else write_loop fuel' (write_char v (schar c)) s'
  | _, _ => v
  end.
Definition write (v : video) (s : option text) : video :=
  match s with None => v | Some s => write_loop (length s) v s end.

(** ** Cells and rows *)

Definition screen_ok (v : video) : Prop := length (kVga v) = 2000%nat ∧ 0 <= g_row v < kRows ∧ 0 <= g_col v < kCols.
Definition blank_row : list Z := replicate 80 blank.

(** Stores one after the other, each of a value that the earlier ones do not
    change. *)
Lemma fill_loop (g : Z → list Z → Z) (f : Z → Z) (base n : Z) (cells : list Z) : 0 <= base → 0 <= n → base + n <= Z.of_nat (length cells) →
  (∀ c l, 0 <= c < n → drop (Z.to_nat (base + c)) l = drop (Z.to_nat (base + c)) cells → g c l = f c) →
  for_up 0 n 1 (λ c l, zset l (base + c) (g c l)) cells = take (Z.to_nat base) cells ++ (f <$> seqZ 0 n) ++ drop (Z.to_nat (base + n)) cells.
Proof.
  intros Hb Hn Hl Hg.
  apply (for_up_inv1 0 n _ (λ i l, l = take (Z.to_nat base) cells ++ (f <$> seqZ 0 i) ++ drop (Z.to_nat (base + i)) cells)); [lia| |].
  - rewrite Z.add_0_r. change (f <$> seqZ 0 0) with (@nil Z). cbn [app]. by rewrite take_drop.
  - intros i l Hi ->. rewrite app_assoc.
    assert (length (take (Z.to_nat base) cells ++ (f <$> seqZ 0 i)) = Z.to_nat (base + i)) as Hlen.
    { rewrite length_app, length_take, length_fmap, length_seqZ. lia. }
    rewrite (Hg i) by (lia || (rewrite <- Hlen at 1; by rewrite drop_app_length)).
    rewrite seqZ_app, fmap_app, Z.add_0_l by lia. change (seqZ i 1) with [i]. cbn [fmap list_fmap].
    destruct (drop (Z.to_nat (base + i)) cells) as [|x rest] eqn:Ed.
    { apply (f_equal length) in Ed. rewrite length_drop in Ed. cbn in Ed. lia. }
    assert (drop (Z.to_nat (base + (i + 1))) cells = rest) as ->.
    { replace (Z.to_nat (base + (i + 1))) with (Z.to_nat (base + i) + 1)%nat by lia. by rewrite <- drop_drop, Ed. }
    unfold zset. rewrite <- Hlen, <- (Nat.add_0_r (length _)), insert_app_r. by rewrite <- !app_assoc.
Qed.

Lemma map_const {A} (x : A) n : 0 <= n → (λ _, x) <$> seqZ 0 n = replicate (Z.to_nat n) x.
Proof. intros Hn. apply list_eq. intros i. rewrite list_lookup_fmap. destruct (decide (i < Z.to_nat n)%nat).
  - rewrite lookup_seqZ_lt, lookup_replicate_2 by lia. done.
  - rewrite lookup_seqZ_ge by lia. symmetry. apply lookup_replicate_None. lia.
Qed.

Lemma clear_row_spec r cells : 0 <= r → (r + 1) * 80 <= Z.of_nat (length cells) →
  clear_row r cells = take (Z.to_nat (r * 80)) cells ++ blank_row ++ drop (Z.to_nat ((r + 1) * 80)) cells.
Proof.
  intros Hr Hl. unfold clear_row, kCols. rewrite (fill_loop (λ _ _, blank) (λ _, blank)) by (done || lia). rewrite map_const by lia.
  do 3 f_equal. lia.
Qed.

Lemma map_zget (l : list Z) k n : 0 <= k → 0 <= n → k + n <= Z.of_nat (length l) →
  (λ c, zget l (k + c)) <$> seqZ 0 n = take (Z.to_nat n) (drop (Z.to_nat k) l).
Proof.
  intros Hk Hn Hl. apply list_eq. intros i. rewrite list_lookup_fmap. destruct (decide (i < Z.to_nat n)%nat).
  - rewrite lookup_seqZ_lt, lookup_take_lt, lookup_drop by lia. cbn [fmap option_fmap option_map]. unfold zget.
    replace (Z.to_nat (k + (0 + Z.of_nat i))) with (Z.to_nat k + i)%nat by lia. symmetry. apply list_lookup_lookup_total_lt. lia.
  - rewrite lookup_seqZ_ge, lookup_take_ge by lia. done.
Qed.

Lemma zget_drop (l : list Z) a b : 0 <= a <= b → zget l b = zget (drop (Z.to_nat a) l) (b - a).
Proof. intros H. unfold zget. rewrite list_lookup_total_alt, list_lookup_total_alt, lookup_drop. do 3 f_equal. lia. Qed.

(** Scrolling drops the first row. *)
Lemma copy_rows_spec cells : length cells = 2000%nat → copy_rows cells = drop 80 cells ++ drop 1920 cells.
Proof.
  intros Hl. unfold copy_rows, kRows, kCols.
  set (body := λ r cells, _).
  assert (for_up 1 25 1 body cells = take (Z.to_nat ((25 - 1) * 80)) (drop 80 cells) ++ drop (Z.to_nat ((25 - 1) * 80)) cells) as ->.
  2: { change (Z.to_nat ((25 - 1) * 80)) with 1920%nat. rewrite take_ge; [done|]. rewrite length_drop, Hl. lia. }
  apply (for_up_inv1 1 25 body (λ r l, l = take (Z.to_nat ((r - 1) * 80)) (drop 80 cells) ++ drop (Z.to_nat ((r - 1) * 80)) cells) cells); [lia|done|].
  intros r l Hr ->. set (l := take _ _ ++ _). assert (length l = 2000%nat) as Hll.
  { subst l. rewrite length_app, length_take, !length_drop, Hl. lia. }
  subst body. cbn beta. rewrite (fill_loop (λ c l, zget l (r * 80 + c)) (λ c, zget l (r * 80 + c))); [|lia|lia|lia|].
  2: { intros c l' Hc E. rewrite (zget_drop l' ((r - 1) * 80 + c)), (zget_drop l ((r - 1) * 80 + c)) by lia. by rewrite E. }
  rewrite map_zget by lia.
  assert (∀ k, (Z.to_nat ((r - 1) * 80) <= k)%nat → drop k l = drop k cells) as Hd.
  { intros k Hk. subst l. rewrite drop_app_ge; rewrite length_take, length_drop, Hl; [|lia]. rewrite drop_drop. f_equal. lia. }
  rewrite !Hd by lia. replace (Z.to_nat ((r + 1 - 1) * 80)) with (Z.to_nat ((r - 1) * 80) + 80)%nat by lia.
  rewrite <- (take_take_drop (drop 80 cells)), drop_drop. rewrite <- app_assoc. f_equal; [|f_equal].
  - subst l. rewrite take_app_le; [|rewrite length_take, length_drop, Hl; lia]. apply take_idemp.
  - f_equal. f_equal. lia.
  - f_equal. lia.
Qed.

Lemma scroll_up_cells v : length (kVga v) = 2000%nat → kVga (scroll_up v) = drop 80 (kVga v) ++ blank_row.
Proof.
  intros Hl. unfold scroll_up. cbn [kVga]. rewrite copy_rows_spec by done.
  rewrite clear_row_spec by (unfold kRows; rewrite ?length_app, ?length_drop, ?Hl; lia).
  assert (length (drop 80 (kVga v)) = 1920%nat) as Hd by (rewrite length_drop, Hl; lia).
  change (Z.to_nat ((kRows - 1) * 80)) with 1920%nat. change (Z.to_nat ((kRows - 1 + 1) * 80)) with 2000%nat.
  rewrite <- Hd, take_app_length, (drop_ge (_ ++ _)); [by rewrite app_nil_r|]. rewrite length_app, !length_drop, Hl. lia.
Qed.

(** ** The paper *)

(** Everything written: the rows above, the row of the cursor, and its
    column. *)
Record paper := mk_paper { above : list (list Z); current : list Z; p_col : Z }.
Definition fresh_paper : paper := mk_paper [] blank_row 0.

Definition feed (p : paper) : paper := mk_paper (above p ++ [current p]) blank_row 0.
Definition type_char (p : paper) (ch : Z) : paper :=
  if ch =? 13 then mk_paper (above p) (current p) 0
  else if ch =? 10 then feed p
  else if ch =? 8 then
    if 0 <? p_col p then mk_paper (above p) (zset (current p) (p_col p - 1) blank) (p_col p - 1) else p
  else if (ch <? 32) || (126 <? ch) then p
  else
    let p := mk_paper (above p) (zset (current p) (p_col p) (cell ch)) (p_col p + 1) in
    if kCols <=? p_col p then feed p else p.

Definition paper_ok (p : paper) : Prop := Forall (λ r, length r = 80%nat) (above p) ∧ length (current p) = 80%nat ∧ 0 <= p_col p < 80.

(** The rows of [above] still on the screen, and the blank ones below. *)
Definition shown_above (p : paper) : list (list Z) := drop (length (above p) - 24) (above p).
Definition shows (v : video) (p : paper) : Prop :=
  kVga v = concat (shown_above p) ++ current p ++ replicate (80 * (24 - length (shown_above p))) blank ∧
  g_row v = Z.of_nat (length (shown_above p)) ∧ g_col v = p_col p.

Lemma concat_rows (l : list (list Z)) : Forall (λ r, length r = 80%nat) l → length (concat l) = (80 * length l)%nat.
Proof. induction 1 as [|r l Hr _ IH]; [done|]. cbn [concat length]. rewrite length_app, Hr, IH. lia. Qed.

Lemma shown_above_ok p : paper_ok p → Forall (λ r, length r = 80%nat) (shown_above p) ∧ (length (shown_above p) <= 24)%nat.
Proof. intros (Ha & _). split; [by apply Forall_drop|]. unfold shown_above. rewrite length_drop. lia. Qed.

Lemma shows_length v p : paper_ok p → shows v p → length (kVga v) = 2000%nat.
Proof.
  intros Hp (-> & _). destruct (shown_above_ok p Hp) as [H1 H2]. destruct Hp as (_ & Hc & _).
  rewrite !length_app, concat_rows, Hc, length_replicate by done. lia.
Qed.

(** A store at a column of the cursor's row. *)
Lemma shows_set v p col x : paper_ok p → shows v p → 0 <= col < 80 →
  zset (kVga v) (g_row v * kCols + col) x = concat (shown_above p) ++ zset (current p) col x ++ replicate (80 * (24 - length (shown_above p))) blank.
Proof.
  intros Hp (-> & -> & _) Hc. destruct (shown_above_ok p Hp) as [H1 H2]. destruct Hp as (_ & Hcur & _). unfold zset, kCols.
  replace (Z.to_nat (Z.of_nat (length (shown_above p)) * 80 + col)) with (length (concat (shown_above p)) + Z.to_nat col)%nat
    by (rewrite concat_rows by done; lia).
  rewrite insert_app_r, insert_app_l; [done|]. rewrite Hcur. lia.
Qed.

Lemma shows_next v p : paper_ok p → shows v p → shows (next_row v) (feed p) ∧ paper_ok (feed p).
Proof.
  intros Hp Hs. pose proof (shows_length v p Hp Hs) as Hl. pose proof Hs as (Hv & Hr & Hc). destruct (shown_above_ok p Hp) as [H1 H2].
  pose proof Hp as (Ha & Hcur & _). assert (paper_ok (feed p)) as Hf.
  { split_and!; [apply Forall_app; split; [done|by apply Forall_singleton]|by apply length_replicate|done|done]. }
  split; [|done]. unfold next_row. cbn [g_row]. unfold kRows.
  assert (shown_above (feed p) = drop (length (shown_above p) - 23) (shown_above p ++ [current p])) as Hsh.
  { unfold shown_above, feed. cbn [above]. rewrite length_app, length_drop. cbn [length]. destruct (decide (length (above p) <= 23)%nat).
    - by rewrite !(ltac:(lia) : (length (above p) - 24 = 0)%nat), (ltac:(lia) : (length (above p) + 1 - 24 = 0)%nat), (ltac:(lia) : (length (above p) - 0 - 23 = 0)%nat).
    - rewrite (drop_app_le _ [_]) by lia. rewrite (drop_app_le _ [_]) by (rewrite length_drop; lia). rewrite drop_drop. do 2 f_equal. lia. }
  destruct (25 <=? _) eqn:E; zbool.
  - assert (length (shown_above p) = 24%nat) as H24 by lia. split_and!.
    + rewrite scroll_up_cells by done. cbn [kVga]. rewrite Hsh, Hv, H24. change (24 - 23)%nat with 1%nat. cbn [feed current above].
      destruct (shown_above p) as [|r rest] eqn:Er; [done|]. apply Forall_cons in H1 as [Hr80 Hrest]. cbn [concat app drop].
      rewrite !drop_0, <- !app_assoc, (drop_app_length' r), concat_app, length_app by done. cbn [concat length] in *.
      rewrite (ltac:(lia) : (24 - (length rest + 1) = 0)%nat), (ltac:(lia) : (24 - 24 = 0)%nat), Nat.mul_0_r. cbn [replicate]. by rewrite !app_nil_r, <- !app_assoc.
    + unfold scroll_up. cbn [g_row]. rewrite (proj2 (Z.ltb_lt 0 _)) by lia. rewrite Hsh, length_drop, length_app, H24. done.
    + done.
  - assert (shown_above (feed p) = shown_above p ++ [current p]) as Hsh2 by (rewrite Hsh, (ltac:(lia) : (length (shown_above p) - 23 = 0)%nat); done).
    split_and!; [|cbn [g_row]; rewrite Hsh2, length_app, Hr; cbn; lia|done].
    cbn [kVga]. rewrite Hsh2, Hv, concat_app, length_app. cbn [concat length feed current]. rewrite app_nil_r, <- !app_assoc. do 2 f_equal.
    unfold blank_row. rewrite <- replicate_add. f_equal. lia.
Qed.

Lemma write_char_shows v p ch : paper_ok p → shows v p → shows (write_char v ch) (type_char p ch) ∧ paper_ok (type_char p ch).
Proof.
  intros Hp Hs. pose proof Hs as (Hv & Hr & Hc). pose proof Hp as (Ha & Hcur & Hcol). unfold write_char, type_char.
  destruct (ch =? 13); [by split_and!|]. destruct (ch =? 10); [by apply shows_next|]. destruct (ch =? 8).
  - rewrite Hc. destruct (0 <? p_col p) eqn:E; zbool; [|done]. split.
    + split_and!; [|done|done]. apply (shows_set v p (p_col p - 1) blank Hp Hs). lia.
    + split_and!; cbn [above current p_col]; [done|by rewrite length_zset|lia|lia].
  - destruct (_ || _); [done|]. rewrite Hc. cbn [g_col p_col]. unfold kCols.
    set (v1 := mk_video _ _ _). set (p1 := mk_paper _ _ _).
    assert (shows v1 p1) as Hs1 by (split_and!; [exact (shows_set v p (p_col p) (cell ch) Hp Hs Hcol)|done|done]).
    destruct (80 <=? p_col p + 1) eqn:E; zbool.
    + pose proof (shows_next (mk_video (kVga v1) (g_row v1) 0) (mk_paper (above p1) (current p1) 0)) as HN.
      apply HN; [split_and!; cbn; [done|by rewrite length_zset|lia|lia]|].
      destruct Hs1 as (Hs1 & Hs2 & _). by split_and!.
    + split; [done|]. split_and!; cbn [above current p_col p1]; [done|by rewrite length_zset|lia|lia].
Qed.

Lemma clear_shows v : length (kVga v) = 2000%nat → shows (clear v) fresh_paper.
Proof.
  intros Hl. unfold clear, kRows. split_and!; [|done|done]. cbn [kVga].
  assert (for_up 0 25 1 clear_row (kVga v) = replicate (Z.to_nat (25 * 80)) blank ++ drop (Z.to_nat (25 * 80)) (kVga v)) as ->.
  - apply (for_up_inv1 0 25 clear_row (λ r l, l = replicate (Z.to_nat (r * 80)) blank ++ drop (Z.to_nat (r * 80)) (kVga v))); [lia|done|].
    intros r l Hr ->. rewrite clear_row_spec; [|lia|rewrite length_app, length_replicate, length_drop, Hl; lia].
    rewrite take_app_length' by (by rewrite length_replicate). rewrite drop_app_ge by (rewrite length_replicate; lia).
    rewrite length_replicate, drop_drop, app_assoc. unfold blank_row. rewrite <- replicate_add. f_equal; f_equal; lia.
  - change (Z.to_nat (25 * 80)) with 2000%nat. rewrite (drop_ge (kVga v)) by lia. rewrite app_nil_r. unfold fresh_paper, shown_above, blank_row. cbn [above current].
    change (concat (drop (length (@nil (list Z)) - 24) [])) with (@nil Z). cbn [app]. rewrite <- replicate_add. done.
Qed.

Lemma fresh_paper_ok : paper_ok fresh_paper.
Proof. split_and!; [done|by apply length_replicate|done|done]. Qed.

(** Characters without the escape character are typed one by one. *)
Lemma write_plain v s : Forall (λ c, schar c ≠ 27) s → write v (Some s) = fold_left write_char (schar <$> s) v.
Proof.
  unfold write. intros Hs. revert v. induction Hs as [|c s Hc _ IH]; intros v; [done|]. cbn [length write_loop fmap list_fmap fold_left].
  rewrite (proj2 (Z.eqb_neq _ 27) Hc). cbn [andb]. apply IH.
Qed.

Lemma typed_shows chs : ∀ v p, paper_ok p → shows v p → shows (fold_left write_char chs v) (fold_left type_char chs p) ∧ paper_ok (fold_left type_char chs p).
Proof.
  induction chs as [|ch chs IH]; intros v p Hp Hs; [done|]. cbn [fold_left]. destruct (write_char_shows v p ch Hp Hs). by apply IH.
Qed.

(** The screen shows the end of the paper: the rows of the last 24 lines
    written, with the row of the cursor below them, whatever was written since
    it was cleared. *)
Lemma screen_shows_paper v s : length (kVga v) = 2000%nat → Forall (λ c, schar c ≠ 27) s →
  shows (write (clear v) (Some s)) (fold_left type_char (schar <$> s) fresh_paper).
Proof. intros Hl Hs. rewrite write_plain by done. apply typed_shows; [apply fresh_paper_ok|by apply clear_shows]. Qed.

(** Every store is to a cell of the screen. *)
Lemma screen_cursor_inside v p : paper_ok p → shows v p → screen_ok v.
Proof.
  intros Hp Hs. split; [by eapply shows_length|]. destruct Hs as (_ & -> & ->). destruct (shown_above_ok p Hp) as [_ H2]. destruct Hp as (_ & _ & Hc).
  unfold kRows, kCols. lia.
Qed.
