(* ===== verification/Framebuffer.v ===== *)
(** * The framebuffer console ([kernel/framebuffer.cpp])

    Pixels in byte memory, the 8 by 8 font, and the framebuffer tag of the
    boot information. *)

From S2P Require Import Prelude CText Memory.

Record Info := mk_info { i_addr : Z; i_width : Z; i_height : Z; i_pitch : Z; i_bpp : Z; i_available : bool }.
Definition no_info : Info := mk_info 0 0 0 0 0 false.

Definition cell_w : Z := 8.
Definition cell_h : Z := 8.
Definition g_fg : Z := 0x00FFFFFF.
Definition g_bg : Z := 0x00000000.

(** The glyphs that are given; the rest are blank. *)
Definition kFont8x8 : list (list Z) :=
  [[0; 0; 0; 0; 0; 0; 0; 0]; [0; 0; 94; 0; 0; 0; 0; 0]; [20; 8; 0; 0; 0; 0; 0; 0]; [36; 126; 36; 126; 36; 0; 0; 0]] ++ replicate 92 (replicate 8 0).

Record framebuffer := mk_fb { fb_mem : memory; g_info : Info; cursor_x : Z; cursor_y : Z }.

Definition init_manual (f : framebuffer) (addr width height pitch bpp : Z) : framebuffer :=
  mk_fb (fb_mem f) (mk_info addr width height pitch bpp (negb (addr =? 0) && (0 <? width) && (0 <? height) && (0 <? pitch) && (24 <=? bpp)))
    (cursor_x f) (cursor_y f).

(** Offsets are computed in 32 bits. *)
Definition pixel (i : Info) (x y : Z) : Z := i_addr i + (y *u i_pitch i) + (x *u (i_bpp i / 8)).

Definition plot_pixel (f : framebuffer) (x y color : Z) : framebuffer :=
  let i := g_info f in
  if negb (i_available i) || (i_width i <=? x) || (i_height i <=? y) then f
  else
    let px := pixel i x y in
    let m :=
      if i_bpp i =? 32 then store32 (fb_mem f) px color
      else if i_bpp i =? 24 then
        store8 (store8 (store8 (fb_mem f) px (Z.land color 0xFF)) (px + 1) (Z.land (Z.shiftr color 8) 0xFF)) (px + 2) (Z.land (Z.shiftr color 16) 0xFF)
      else fb_mem f in
    mk_fb m i (cursor_x f) (cursor_y f).

Definition clear (f : framebuffer) : framebuffer :=
  let i := g_info f in
  if negb (i_available i) then f
  else
    mk_fb (for_up 0 (i_height i) 1 (λ y, for_up 0 (i_pitch i) 1 (λ x m, store8 m (i_addr i + (y *u i_pitch i +u x)) 0)) (fb_mem f)) i (cursor_x f) (cursor_y f).

(** The next line, at the top again when it would not fit. *)
Definition line_feed (f : framebuffer) : framebuffer :=
  let y := cursor_y f +u cell_h in
  mk_fb (fb_mem f) (g_info f) 0 (if i_height (g_info f) <? y +u cell_h then 0 else y).

Definition draw_glyph (f : framebuffer) (glyph : list Z) : framebuffer :=
  for_up 0 cell_h 1 (λ row,
    for_up 0 cell_w 1 (λ col f,
      plot_pixel f (cursor_x f +u col) (cursor_y f +u row)
        (if negb (Z.land (zget glyph row) (Z.shiftl 1 (7 - col)) =? 0) then g_fg else g_bg))) f.

(** [ch] is a [char], signed. *)
Definition write_char (f : framebuffer) (ch : Z) : framebuffer :=
  if negb (i_available (g_info f)) then f
  else if ch =? 10 then line_feed f
  else if ch =? 13 then mk_fb (fb_mem f) (g_info f) 0 (cursor_y f)
  else
    let f := draw_glyph f (zget kFont8x8 (if 32 <=? ch then ch - 32 else 0)) in
    let x := cursor_x f +u cell_w in
    let f := mk_fb (fb_mem f) (g_info f) x (cursor_y f) in
    if i_width (g_info f) <? x +u cell_w then line_feed f else f.

Definition write (f : framebuffer) (s : option (list Z)) : framebuffer :=
  match s with None => f | Some s => fold_left write_char s f end.

(** ** The boot information *)

Inductive fb_search := Found (width height pitch bpp addr : Z) | Absent | Endless.

(** [cursor + 8 <= info_end] in turns; [Endless] when the fuel is used up. *)
Fixpoint find_tag (fuel : nat) (m : memory) (cursor info_end : Z) : fb_search :=
  match fuel with
  | O => Endless
  | S fuel' =>
      if cursor +u 8 <=? info_end then
        if load32 m cursor =? 0 then Absent
        else if load32 m cursor =? 8 then
          Found (load32 m (cursor + 20)) (load32 m (cursor + 24)) (load32 m (cursor + 16)) (load8 m (cursor + 28)) (u32 (load64 m (cursor + 8)))
        else find_tag fuel' m (Z.land (cursor +u load32 m (cursor + 4) +u 7) (u32 (Z.lnot 7))) info_end
      else Absent
  end.

(** Also the line reported. *)
Definition init_from_multiboot (fuel : nat) (f : framebuffer) (info : Z) : option (framebuffer * bool) :=
  if info =? 0 then Some (f, false)
  else
    match find_tag fuel (fb_mem f) (info +u 8) (info +u load32 (fb_mem f) info) with
    | Found width height pitch bpp addr => Some (init_manual f addr width height pitch bpp, true)
    | Absent => Some (f, false)
    | Endless => None
    end.

(** ** Where pixels go *)

(** A row holds its pixels, and the whole picture has 32-bit offsets. *)
Definition info_fits (i : Info) : Prop :=
  (i_bpp i = 24 ∨ i_bpp i = 32) ∧ 0 <= i_width i ∧ 0 <= i_height i ∧ i_width i * (i_bpp i / 8) <= i_pitch i ∧ i_height i * i_pitch i < 4294967296.
Definition outside (i : Info) (a : Z) : Prop := a < i_addr i ∨ i_addr i + i_height i * i_pitch i <= a.
Definition untouched (i : Info) (f f' : framebuffer) : Prop :=
  g_info f' = i ∧ ∀ a, outside i a → load8 (fb_mem f') a = load8 (fb_mem f) a.

Lemma pixel_inside i x y : info_fits i → 0 <= x < i_width i → 0 <= y < i_height i →
  i_addr i <= pixel i x y ∧ pixel i x y + i_bpp i / 8 <= i_addr i + i_height i * i_pitch i.
Proof.
  intros (Hb & Hw & Hh & Hp & Ht) Hx Hy. unfold pixel.
  assert (0 < i_bpp i / 8) as H2 by (destruct Hb as [E | E]; rewrite E; done).
  assert (x * (i_bpp i / 8) + i_bpp i / 8 <= i_pitch i) as H1 by nia.
  rewrite (u32_small (y * _)) by nia. rewrite (u32_small (x * _)) by nia. nia.
Qed.

Lemma plot_pixel_inside f x y c : info_fits (g_info f) → 0 <= x → 0 <= y → untouched (g_info f) f (plot_pixel f x y c).
Proof.
  intros Hf Hx Hy. unfold plot_pixel. destruct (_ || _) eqn:E; [done|]. zbool. destruct E as [[E1 E2] E3].
  destruct (pixel_inside (g_info f) x y Hf) as [P1 P2]; [lia|lia|]. split; [done|]. intros a Ha. cbn [fb_mem].
  destruct (proj1 Hf) as [Hb|Hb]; rewrite Hb in *; cbn [Z.eqb Pos.eqb]; [change (24 / 8) with 3 in P2 | change (32 / 8) with 4 in P2].
  - unfold outside in Ha. rewrite !load8_store8_ne by lia. done.
  - unfold outside in Ha. apply load8_store32_ne. lia.
Qed.

Lemma untouched_trans i f1 f2 f3 : untouched i f1 f2 → untouched i f2 f3 → untouched i f1 f3.
Proof. intros [_ H1] [H2 H3]. split; [done|]. intros a Ha. rewrite H3, H1; done. Qed.

Lemma draw_glyph_inside f glyph : info_fits (g_info f) → untouched (g_info f) f (draw_glyph f glyph).
Proof.
  intros Hf. unfold draw_glyph. apply (for_up_preserve _ _ _ _ (untouched (g_info f) f)); [done|done|]. intros row f1 _ H1.
  apply (for_up_preserve _ _ _ _ (untouched (g_info f) f)); [done|done|]. intros col f2 _ H2.
  apply (untouched_trans _ _ f2); [done|]. rewrite <- (proj1 H2). apply plot_pixel_inside; [by rewrite (proj1 H2)|apply u32_range..].
Qed.

Lemma write_char_inside f ch : info_fits (g_info f) → untouched (g_info f) f (write_char f ch).
Proof.
  intros Hf. unfold write_char. destruct (negb _); [done|]. destruct (ch =? 10); [done|]. destruct (ch =? 13); [done|].
  pose proof (draw_glyph_inside f (zget kFont8x8 (if 32 <=? ch then ch - 32 else 0)) Hf) as HU.
  set (g := draw_glyph f _) in *. clearbody g. destruct HU as [H1 H2]. destruct (_ <? _); (split; [exact H1|exact H2]).
Qed.

(** Text of any length is drawn inside the picture. *)
Lemma framebuffer_text_inside f s : info_fits (g_info f) → untouched (g_info f) f (write f (Some s)).
Proof.
  cbn [write]. revert f. induction s as [|c s IH]; intros f Hf; [done|]. cbn [fold_left].
  pose proof (write_char_inside f c Hf) as H1. apply (untouched_trans _ _ (write_char f c)); [done|].
  rewrite <- (proj1 H1). apply IH. by rewrite (proj1 H1).
Qed.

(** [init_manual] accepts rows too short for their pixels; the last of them
    are drawn behind the picture. *)
Lemma short_rows_overrun m : let f := init_manual (mk_fb m no_info 0 0) 0x1000 16 1 4 32 in
  i_available (g_info f) = true ∧ outside (g_info f) 0x103C ∧ load8 (fb_mem (plot_pixel f 15 0 0xFFFFFF)) 0x103C = 0xFF.
Proof.
  cbn zeta. split; [done|]. split; [right; cbn; lia|].
  change (fb_mem (plot_pixel _ _ _ _)) with (store32 m 0x103C 0xFFFFFF). unfold store32. change (store_le 4 m 0x103C 0xFFFFFF) with (store_le 3 (store8 m 0x103C 0xFFFFFF) 0x103D 0xFFFF). rewrite load8_store_le by lia. by rewrite load8_store8_eq.
Qed.

(** A tag of size 0 is never passed. *)
Lemma empty_tag_hangs m fuel : ∀ cursor info_end,
  0 <= cursor < 4294967280 → cursor mod 8 = 0 → cursor + 8 <= info_end →
  load32 m cursor ≠ 0 → load32 m cursor ≠ 8 → load32 m (cursor + 4) = 0 → find_tag fuel m cursor info_end = Endless.
Proof.
  intros cursor info_end Hc Ha He H0 H8 Hs. induction fuel as [|fuel IH]; [done|]. cbn [find_tag].
  rewrite (u32_small (cursor + 8)), (proj2 (Z.leb_le _ _) He), (proj2 (Z.eqb_neq _ 0) H0), (proj2 (Z.eqb_neq _ 8) H8), Hs, Z.add_0_r, (u32_small cursor), (u32_small (cursor + 7)) by lia.
  assert (Z.land (cursor + 7) (u32 (Z.lnot 7)) = cursor) as ->; [|done].
  rewrite land_u32_l by lia. change 7 with (2 ^ 3 - 1) at 2. rewrite land_lnot_pow2 by lia. change (2 ^ 3) with 8. Z.div_mod_to_equations. lia.
Qed.
