(* ===== verification/Platform.v ===== *)
(** * Tables and controllers of the machine

    [kernel/arch/x86]: segment and interrupt tables, the two 8259 interrupt
    controllers, the timer and the interrupt dispatch; [kernel/arch/x86_64]: the
    interrupt table and the two APICs; the serial port's registers
    ([kernel/serial.cpp]) and the memory routines ([kernel/memory.cpp]).  Ports
    and registers are classes; loading a table into the processor is left out. *)

From S2P Require Import Prelude CText Display Serial Memory Nvme.

Class Ports (P : Type) := { p_inb : P → Z → Z * P; p_outb : P → Z → Z → P }.

(** ** Memory routines *)

Definition memcpy (m : memory) (dst src n : Z) : memory := for_up 0 n 1 (λ i m, store8 m (dst + i) (load8 m (src + i))) m.
Definition memset (m : memory) (dst value n : Z) : memory := for_up 0 n 1 (λ i m, store8 m (dst + i) (u8 value)) m.

Section ports.
Context {P : Type} `{Ports P}.

Definition io_wait (p : P) : P := p_outb p 0x80 0.

(** ** Interrupt controllers *)

Definition kPic1Cmd : Z := 0x20.
Definition kPic1Data : Z := 0x21.
Definition kPic2Cmd : Z := 0xA0.
Definition kPic2Data : Z := 0xA1.
Definition kIcw1Init : Z := 0x10.
Definition kIcw1Icw4 : Z := 0x01.
Definition kIcw4_8086 : Z := 0x01.
Definition kPicEoi : Z := 0x20.

Definition out_wait (p : P) (port v : Z) : P := io_wait (p_outb p port v).
Definition remap (p : P) (master_offset slave_offset : Z) : P :=
  let '(master_mask, p) := p_inb p kPic1Data in
  let '(slave_mask, p) := p_inb p kPic2Data in
  let p := out_wait p kPic1Cmd (Z.lor kIcw1Init kIcw1Icw4) in
  let p := out_wait p kPic2Cmd (Z.lor kIcw1Init kIcw1Icw4) in
  let p := out_wait p kPic1Data master_offset in
  let p := out_wait p kPic2Data slave_offset in
  let p := out_wait p kPic1Data 4 in
  let p := out_wait p kPic2Data 2 in
  let p := out_wait p kPic1Data kIcw4_8086 in
  let p := out_wait p kPic2Data kIcw4_8086 in
  p_outb (p_outb p kPic1Data master_mask) kPic2Data slave_mask.

Definition pic_line (irq_line : Z) : Z * Z := if 8 <=? irq_line then (kPic2Data, irq_line - 8) else (kPic1Data, irq_line).
Definition set_irq_mask (p : P) (irq_line : Z) : P :=
  let '(port, line) := pic_line irq_line in
  let '(v, p) := p_inb p port in p_outb p port (Z.lor v (u8 (u32 (Z.shiftl 1 line)))).
Definition clear_irq_mask (p : P) (irq_line : Z) : P :=
  let '(port, line) := pic_line irq_line in
  let '(v, p) := p_inb p port in p_outb p port (Z.land v (u8 (Z.lnot (u32 (Z.shiftl 1 line))))).
Definition send_eoi (p : P) (irq : Z) : P := p_outb (if 8 <=? irq then p_outb p kPic2Cmd kPicEoi else p) kPic1Cmd kPicEoi.

(** ** Timer *)

Definition kPitInputHz : Z := 1193182.
Definition kPitChannel0 : Z := 0x40.
Definition kPitCommand : Z := 0x43.
Definition kCmdRateGeneratorLoHi : Z := 0x36.

Definition pit_divisor (frequency_hz : Z) : Z :=
  let frequency_hz := if frequency_hz =? 0 then 100 else frequency_hz in
  let divisor := kPitInputHz / frequency_hz in
  let divisor := if divisor =? 0 then 1 else divisor in
  if 0xFFFF <? divisor then 0xFFFF else divisor.
Definition pit_init (p : P) (frequency_hz : Z) : P :=
  let divisor := pit_divisor frequency_hz in
  let p := p_outb p kPitCommand kCmdRateGeneratorLoHi in
  p_outb (p_outb p kPitChannel0 (u8 (Z.land divisor 0xFF))) kPitChannel0 (u8 (Z.land (Z.shiftr divisor 8) 0xFF)).

(** ** The serial port *)

Definition kCom1Port : Z := 0x3F8.
Definition serial_init (p : P) (screen : Display.video) : P * Display.video :=
  (fold_left (λ p '(off, v), p_outb p (kCom1Port + off) v) [(1, 0x00); (3, 0x80); (0, 0x03); (1, 0x00); (3, 0x03); (2, 0xC7); (4, 0x0B)] p,
   Display.init screen).
Definition read_char_nonblocking (p : P) (out_null : bool) : option Z * P :=
  if out_null then (None, p)
  else
    let '(lsr, p) := p_inb p (kCom1Port + 5) in
    if Z.land lsr 0x01 =? 0 then (None, p) else let '(c, p) := p_inb p kCom1Port in (Some c, p).
(** [None]: nothing has come within the fuel; [hlt] is a pause. *)
Fixpoint read_char_blocking (fuel : nat) (hlt : P → P) (p : P) : option (Z * P) :=
  match fuel with
  | O => None
  | S fuel' => let '(c, p) := read_char_nonblocking p false in match c with Some c => Some (c, p) | None => read_char_blocking fuel' hlt (hlt p) end
  end.
End ports.

(** ** Segments *)

Definition kGdtEntries : Z := 6.
Definition kKernelDataSelector : Z := 0x10.

Record GdtEntry := mk_gdt { limit_low : Z; base_low : Z; base_middle : Z; access : Z; granularity : Z; base_high : Z }.
#[export] Instance GdtEntry_inhabited : Inhabited GdtEntry := populate (mk_gdt 0 0 0 0 0 0).
(** The fields of [TssEntry] the kernel sets; the others stay 0. *)
Record TssEntry := mk_tss { esp0 : Z; ss0 : Z; tss_cs : Z; tss_data : Z; iomap_base : Z }.
Record gdt := mk_gdt_state { g_gdt : list GdtEntry; g_tss : TssEntry }.
Definition kTssSize : Z := 104.

Definition gdt_entry (base limit acc gran : Z) : GdtEntry :=
  mk_gdt (u16 (Z.land limit 0xFFFF)) (u16 (Z.land base 0xFFFF)) (u8 (Z.land (Z.shiftr base 16) 0xFF)) acc
    (Z.lor (u8 (Z.land (Z.shiftr limit 16) 0x0F)) (u8 (Z.land gran 0xF0))) (u8 (Z.land (Z.shiftr base 24) 0xFF)).
Definition set_gdt_entry (g : gdt) (index base limit acc gran : Z) : gdt :=
  mk_gdt_state (zset (g_gdt g) index (gdt_entry base limit acc gran)) (g_tss g).
(** [tss_addr] is the address of [g_tss]. *)
Definition write_tss (tss_addr : Z) (g : gdt) (index ss0 esp0 : Z) : gdt :=
  let g := set_gdt_entry g index tss_addr (kTssSize - 1) 0x89 0x00 in
  mk_gdt_state (g_gdt g) (mk_tss esp0 ss0 0x0B 0x13 kTssSize).
Definition gdt_init (tss_addr : Z) (g : gdt) : gdt :=
  let g := set_gdt_entry g 0 0 0 0 0 in
  let g := set_gdt_entry g 1 0 0xFFFFFFFF 0x9A 0xCF in
  let g := set_gdt_entry g 2 0 0xFFFFFFFF 0x92 0xCF in
  let g := set_gdt_entry g 3 0 0xFFFFFFFF 0xFA 0xCF in
  let g := set_gdt_entry g 4 0 0xFFFFFFFF 0xF2 0xCF in
  write_tss tss_addr g 5 kKernelDataSelector 0.
Definition set_kernel_stack (g : gdt) (stack_top : Z) : gdt :=
  mk_gdt_state (g_gdt g) (mk_tss stack_top (ss0 (g_tss g)) (tss_cs (g_tss g)) (tss_data (g_tss g)) (iomap_base (g_tss g))).

(** ** Interrupt tables *)

Definition kKernelCodeSegment : Z := 0x08.
Definition kInterruptGatePresentRing0 : Z := 0x8E.
Definition kTrapGatePresentRing3 : Z := 0xEF.
Definition kIdtEntries : Z := 256.
Definition kBreakpointVector : Z := 3.
Definition kIrq0Vector : Z := 32.
Definition kSyscallVector : Z := 128.

Record IdtEntry := mk_idt { offset_low : Z; selector : Z; type_attr : Z; offset_high : Z }.
#[export] Instance IdtEntry_inhabited : Inhabited IdtEntry := populate (mk_idt 0 0 0 0).
Definition idt_entry (handler attr : Z) : IdtEntry :=
  mk_idt (u16 (Z.land handler 0xFFFF)) kKernelCodeSegment attr (u16 (Z.land (Z.shiftr handler 16) 0xFFFF)).
Definition set_entry (idt : list IdtEntry) (index handler attr : Z) : list IdtEntry := zset idt index (idt_entry handler attr).

(** The addresses of the stubs of [boot/interrupts.S]. *)
Record stubs := mk_stubs { isr_unhandled : Z; isr_breakpoint : Z; isr_gp : Z; isr_pf : Z; irq_stub : Z → Z; syscall_stub : Z }.
Definition idt_init (st : stubs) (idt : list IdtEntry) : list IdtEntry :=
  let idt := for_up 0 kIdtEntries 1 (λ i idt, set_entry idt i (isr_unhandled st) kInterruptGatePresentRing0) idt in
  let idt := set_entry idt kBreakpointVector (isr_breakpoint st) kInterruptGatePresentRing0 in
  let idt := set_entry idt 13 (isr_gp st) kInterruptGatePresentRing0 in
  let idt := set_entry idt 14 (isr_pf st) kInterruptGatePresentRing0 in
  let idt := for_up 0 16 1 (λ k idt, set_entry idt (kIrq0Vector + k) (irq_stub st k) kInterruptGatePresentRing0) idt in
  set_entry idt kSyscallVector (syscall_stub st) kTrapGatePresentRing3.

(** The 64-bit table. *)
Record IdtEntry64 := mk_idt64 { low64 : Z; selector64 : Z; attr64 : Z; mid64 : Z; high64 : Z }.
#[export] Instance IdtEntry64_inhabited : Inhabited IdtEntry64 := populate (mk_idt64 0 0 0 0 0).
Definition idt_entry64 (handler attr : Z) : IdtEntry64 :=
  mk_idt64 (u16 (Z.land handler 0xFFFF)) 0x08 attr (u16 (Z.land (Z.shiftr handler 16) 0xFFFF)) (u32 (Z.land (Z.shiftr handler 32) 0xFFFFFFFF)).
Definition idt_init64 (unhandled irq1 : Z) (idt : list IdtEntry64) : list IdtEntry64 :=
  let idt := for_up 0 256 1 (λ i idt, zset idt i (idt_entry64 unhandled 0x8E)) idt in
  zset idt 33 (idt_entry64 irq1 0x8E).

(** ** Dispatch *)

Section dispatch.
Context {P S : Type} `{Ports P}.
(** [scheduler::on_timer_interrupt] on the rest of the kernel. *)
Context (on_timer : S → Z → Z → Z * S).

Record irqs := mk_irqs { g_ticks : Z; g_irq_handlers : list (option (S → S)); iq_ports : P; iq_kernel : S }.

Definition register_irq_handler (s : irqs) (vector : Z) (h : option (S → S)) : irqs :=
  if vector <? 256 then mk_irqs (g_ticks s) (zset (g_irq_handlers s) vector h) (iq_ports s) (iq_kernel s) else s.
Definition irq0_handler (s : irqs) (current_esp : Z) : Z * irqs :=
  let ticks := g_ticks s +u 1 in
  let '(next_esp, k) := on_timer (iq_kernel s) current_esp ticks in
  (next_esp, mk_irqs ticks (g_irq_handlers s) (send_eoi (iq_ports s) 0) k).
Definition irq_generic_handler (s : irqs) (current_esp vector : Z) : Z * irqs :=
  if vector =? 32 then irq0_handler s current_esp
  else
    match (if vector <? 256 then zget (g_irq_handlers s) vector else None) with
    | Some h => (current_esp, mk_irqs (g_ticks s) (g_irq_handlers s) (send_eoi (iq_ports s) (u8 (vector -u 0x20))) (h (iq_kernel s)))
    | None =>
        if 0x20 <=? vector then (current_esp, mk_irqs (g_ticks s) (g_irq_handlers s) (send_eoi (iq_ports s) (u8 (vector -u 0x20))) (iq_kernel s))
        else (current_esp, s)
    end.
End dispatch.
Arguments irqs P S : clear implicits.

(** ** Exceptions: what is printed before the processor halts *)

Definition line_end : option text := Some ["010"%char].
Definition unhandled_interrupt_handler (tx : serial) (esp : Z) : serial :=
  let tx := Serial.write_hex (Serial.write tx (Some (txt "[wirth] unhandled interrupt (esp="))) esp in
  Serial.write tx (Some (txt ")" ++ ["010"%char])).
Definition exception_handler (tx : serial) (cr2 vector error_code : Z) : serial :=
  let tx := Serial.write_hex (Serial.write tx (Some (txt "[wirth] exception vec=0x"))) vector in
  let tx := Serial.write_hex (Serial.write tx (Some (txt " err=0x"))) error_code in
  let tx := if vector =? 14 then Serial.write_hex (Serial.write tx (Some (txt " cr2=0x"))) cr2 else tx in
  Serial.write tx line_end.
(** This one returns. *)
Definition breakpoint_handler (tx : serial) : serial := Serial.write tx (Some (txt "[wirth] breakpoint interrupt" ++ ["010"%char])).

Definition set_kernel_stack64 (tx : serial) (stack_top : Z) : serial :=
  Serial.write (Serial.write_hex64 (Serial.write tx (Some (txt "[wirth] set_kernel_stack=0x"))) stack_top) line_end.
Definition isr_unhandled_handler64 (tx : serial) : serial := Serial.write tx (Some (txt "[wirth] unhandled interrupt 64" ++ ["010"%char])).

(** ** The scheduler of the 64-bit build: no tasks *)

Definition create_task64 : Z := -1.
Definition on_timer_interrupt64 (current_esp tick_count : Z) : Z := current_esp.
Definition current_ids64 : Z := 0.
Definition is_current_sleeping64 (now_tick : Z) : bool := false.

(** ** APICs *)

Section apic.
Context {M : Type} `{NvmeHw M}.

Record ioapic := mk_ioapic { io_m : M; io_base : Z; g_gsi_base : Z; g_max_redir : Z; io_tx : serial }.

Definition io_write_reg (m : M) (base reg value : Z) : M := hw_write (hw_write m base reg) (base + 0x10) value.
Definition io_read_reg (m : M) (base reg : Z) : Z * M := hw_read (hw_write m base reg) (base + 0x10).

Definition ioapic_init (s : ioapic) (phys_addr gsi_base : Z) : ioapic :=
  let '(ver, m) := io_read_reg (io_m s) phys_addr 0x01 in
  let max_redir := Z.land (Z.shiftr ver 16) 0xFF + 1 in
  let tx := Serial.write_hex (Serial.write (io_tx s) (Some (txt "[ioapic] init at 0x"))) phys_addr in
  let tx := Serial.write_hex (Serial.write tx (Some (txt " gsi_base="))) gsi_base in
  let tx := Serial.write_hex (Serial.write tx (Some (txt " entries="))) max_redir in
  let tx := Serial.write tx (Some ["010"%char]) in
  let m := for_up 0 max_redir 1 (λ i m,
    io_write_reg (io_write_reg m phys_addr (0x10 + i * 2) (Z.shiftl 1 16)) phys_addr (0x10 + i * 2 + 1) 0) m in
  mk_ioapic m phys_addr gsi_base max_redir tx.

Definition gsi_write (s : ioapic) (gsi value : Z) : ioapic :=
  if (io_base s =? 0) || (gsi <? g_gsi_base s) then s
  else mk_ioapic (io_write_reg (io_m s) (io_base s) (0x10 +u (gsi -u g_gsi_base s) *u 2) value) (io_base s) (g_gsi_base s) (g_max_redir s) (io_tx s).
Definition mask_gsi (s : ioapic) (gsi : Z) : ioapic := gsi_write s gsi (Z.shiftl 1 16).
Definition unmask_gsi (s : ioapic) (gsi : Z) : ioapic := gsi_write s gsi 0.

Record lapic := mk_lapic { la_m : M; la_base : Z; la_tx : serial }.
Definition lapic_init (s : lapic) (phys_addr : Z) : lapic :=
  let '(svr, m) := hw_read (la_m s) (phys_addr + 0xF0) in
  mk_lapic (hw_write m (phys_addr + 0xF0) (Z.lor svr 0x100)) phys_addr (Serial.write (la_tx s) (Some (txt "[lapic] initialized" ++ ["010"%char]))).
Definition lapic_eoi (s : lapic) : lapic := mk_lapic (hw_write (la_m s) (la_base s + 0xB0) 0) (la_base s) (la_tx s).
Definition lapic_read (s : lapic) (reg : Z) : Z * lapic := let '(v, m) := hw_read (la_m s) (la_base s + reg) in (v, mk_lapic m (la_base s) (la_tx s)).
Definition lapic_write (s : lapic) (reg value : Z) : lapic := mk_lapic (hw_write (la_m s) (la_base s + reg) value) (la_base s) (la_tx s).
End apic.

(** * What the tables and controllers end up saying *)

(** ** Memory routines *)

Lemma memset_spec m dst v n a : 0 <= n → load8 (memset m dst v n) a = if (dst <=? a) && (a <? dst + n) then u8 v else load8 m a.
Proof.
  intros Hn. unfold memset.
  apply (for_up_inv1 0 n _ (λ i m', ∀ a, load8 m' a = if (dst <=? a) && (a <? dst + i) then u8 v else load8 m a)); [lia| |].
  - intros b. destruct (dst <=? b) eqn:E1, (b <? dst + 0) eqn:E2; zbool; try done. lia.
  - intros i m' Hi IH b. destruct (decide (b = dst + i)) as [->|Hne].
    + rewrite load8_store8_eq, (proj2 (Z.leb_le _ _)), (proj2 (Z.ltb_lt _ _)) by lia. cbn [andb]. unfold u8. apply Z.mod_mod. lia.
    + rewrite load8_store8_ne by done. rewrite IH. destruct (dst <=? b) eqn:E1; [|done]. cbn [andb].
      destruct (b <? dst + i) eqn:E2, (b <? dst + (i + 1)) eqn:E3; zbool; try done; lia.
Qed.

(** Copying upwards is right unless the source ends inside the destination. *)
Lemma memcpy_spec m dst src n a : 0 <= n → dst <= src ∨ src + n <= dst →
  load8 (memcpy m dst src n) a = if (dst <=? a) && (a <? dst + n) then load8 m (src + (a - dst)) else load8 m a.
Proof.
  intros Hn Ho. unfold memcpy.
  apply (for_up_inv1 0 n _ (λ i m', ∀ a, load8 m' a = if (dst <=? a) && (a <? dst + i) then load8 m (src + (a - dst)) else load8 m a)); [lia| |].
  - intros b. destruct (dst <=? b) eqn:E1, (b <? dst + 0) eqn:E2; zbool; try done. lia.
  - intros i m' Hi IH b. destruct (decide (b = dst + i)) as [->|Hne].
    + rewrite load8_store8_eq, IH, (proj2 (Z.leb_le dst (dst + i))), (proj2 (Z.ltb_lt (dst + i) _)) by lia. cbn [andb].
      assert ((dst <=? src + i) && (src + i <? dst + i) = false) as ->.
      { destruct (dst <=? src + i) eqn:E1; [|done]. destruct (src + i <? dst + i) eqn:E2; [|done]. zbool. lia. }
      rewrite (ltac:(lia) : src + (dst + i - dst) = src + i). apply u8_small, load8_range.
    + rewrite load8_store8_ne by done. rewrite IH. destruct (dst <=? b) eqn:E1; [|done]. cbn [andb].
      destruct (b <? dst + i) eqn:E2, (b <? dst + (i + 1)) eqn:E3; zbool; try done; lia.
Qed.

(** ** Interrupt controllers *)

(** An 8259: its mask, its first vector, its cascade word, and how many
    initialisation words it still expects on the data port. *)
Record i8259 := mk_8259 { imr : Z; vector_base : Z; cascade : Z; icw : Z }.
Record board := mk_board { master : i8259; slave : i8259 }.

Definition command_8259 (c : i8259) (v : Z) : i8259 := if Z.testbit v 4 then mk_8259 0 (vector_base c) (cascade c) 3 else c.
Definition data_8259 (c : i8259) (v : Z) : i8259 :=
  if icw c =? 3 then mk_8259 (imr c) v (cascade c) 2
  else if icw c =? 2 then mk_8259 (imr c) (vector_base c) v 1
  else if icw c =? 1 then mk_8259 (imr c) (vector_base c) (cascade c) 0
  else mk_8259 v (vector_base c) (cascade c) 0.
#[export] Instance board_ports : Ports board := {|
  p_inb b port := ((if port =? kPic1Data then imr (master b) else if port =? kPic2Data then imr (slave b) else 0), b);
  p_outb b port v :=
    if port =? kPic1Cmd then mk_board (command_8259 (master b) v) (slave b)
    else if port =? kPic2Cmd then mk_board (master b) (command_8259 (slave b) v)
    else if port =? kPic1Data then mk_board (data_8259 (master b) v) (slave b)
    else if port =? kPic2Data then mk_board (master b) (data_8259 (slave b) v)
    else b;
|}.

(** Remapping gives both controllers their vectors and their places in the
    cascade, and keeps what was masked. *)
Lemma remap_programs m1 v1 c1 m2 v2 c2 o1 o2 :
  remap (mk_board (mk_8259 m1 v1 c1 0) (mk_8259 m2 v2 c2 0)) o1 o2 = mk_board (mk_8259 m1 o1 4 0) (mk_8259 m2 o2 2 0).
Proof. done. Qed.

Definition line_masked (b : board) (irq : Z) : bool :=
  if irq <? 8 then Z.testbit (imr (master b)) irq else Z.testbit (imr (slave b)) (irq - 8).

Lemma set_bit_exact v l k : 0 <= l < 8 → 0 <= k < 8 → Z.testbit (Z.lor v (u8 (u32 (Z.shiftl 1 l)))) k = (k =? l) || Z.testbit v k.
Proof.
  intros Hl Hk. rewrite Z.lor_spec, Z.shiftl_1_l. assert (0 < 2 ^ l < 256) as Hp.
  { split; [apply Z.pow_pos_nonneg; lia|]. change 256 with (2 ^ 8). apply Z.pow_lt_mono_r; lia. }
  rewrite (u32_small (2 ^ l)), (u8_small (2 ^ l)), Z.pow2_bits_eqb, Z.eqb_sym by lia. apply orb_comm.
Qed.

Lemma clear_bit_exact v l k : 0 <= l < 8 → 0 <= k < 8 → Z.testbit (Z.land v (u8 (Z.lnot (u32 (Z.shiftl 1 l))))) k = negb (k =? l) && Z.testbit v k.
Proof.
  intros Hl Hk. rewrite Z.land_spec, Z.shiftl_1_l. assert (0 < 2 ^ l < 256) as Hp.
  { split; [apply Z.pow_pos_nonneg; lia|]. change 256 with (2 ^ 8). apply Z.pow_lt_mono_r; lia. }
  rewrite (u32_small (2 ^ l)) by lia. unfold u8. change 256 with (2 ^ 8). rewrite Z.mod_pow2_bits_low, Z.lnot_spec, Z.pow2_bits_eqb, (Z.eqb_sym l) by lia.
  apply andb_comm.
Qed.

(** Masking and unmasking a line changes that line only. *)
Lemma irq_mask_exact m1 v1 c1 m2 v2 c2 irq other : 0 <= irq < 16 → 0 <= other < 16 →
  let b := mk_board (mk_8259 m1 v1 c1 0) (mk_8259 m2 v2 c2 0) in
  line_masked (set_irq_mask b irq) other = (other =? irq) || line_masked b other ∧
  line_masked (clear_irq_mask b irq) other = negb (other =? irq) && line_masked b other.
Proof.
  intros Hi Ho b. unfold set_irq_mask, clear_irq_mask, pic_line. set (sb := λ l v, Z.lor v (u8 (u32 (Z.shiftl 1 l)))).
  set (cb := λ l v, Z.land v (u8 (Z.lnot (u32 (Z.shiftl 1 l))))). destruct (8 <=? irq) eqn:E1; zbool.
  - change (line_masked (mk_board (mk_8259 m1 v1 c1 0) (mk_8259 (sb (irq - 8) m2) v2 c2 0)) other = (other =? irq) || line_masked b other ∧
      line_masked (mk_board (mk_8259 m1 v1 c1 0) (mk_8259 (cb (irq - 8) m2) v2 c2 0)) other = negb (other =? irq) && line_masked b other).
    unfold line_masked, sb, cb. cbn [master slave imr b]. destruct (other <? 8) eqn:E2; zbool.
    + rewrite (proj2 (Z.eqb_neq other irq)) by lia. done.
    + rewrite set_bit_exact, clear_bit_exact by lia. assert ((other - 8 =? irq - 8) = (other =? irq)) as -> by (destruct (Z.eqb_spec (other - 8) (irq - 8)), (Z.eqb_spec other irq); lia || done). done.
  - change (line_masked (mk_board (mk_8259 (sb irq m1) v1 c1 0) (mk_8259 m2 v2 c2 0)) other = (other =? irq) || line_masked b other ∧
      line_masked (mk_board (mk_8259 (cb irq m1) v1 c1 0) (mk_8259 m2 v2 c2 0)) other = negb (other =? irq) && line_masked b other).
    unfold line_masked, sb, cb. cbn [master slave imr b]. destruct (other <? 8) eqn:E2; zbool.
    + rewrite set_bit_exact, clear_bit_exact by lia. done.
    + rewrite (proj2 (Z.eqb_neq other irq)) by lia. done.
Qed.

(** ** Timer *)

(** The divisor fits the 16-bit counter, and is the quotient wherever that
    does. *)
Lemma pit_divisor_range f : 0 <= f → 1 <= pit_divisor f <= 65535 ∧ (19 <= f <= 1193182 → pit_divisor f = 1193182 / f).
Proof.
  intros Hf. unfold pit_divisor, kPitInputHz. set (g := if f =? 0 then 100 else f).
  assert (0 < g) as Hg by (subst g; destruct (f =? 0) eqn:E; zbool; lia).
  assert (0 <= 1193182 / g) as Hq by (apply Z.div_pos; lia). split.
  - set (q := 1193182 / g) in *. destruct (q =? 0) eqn:E1; zbool; destruct (0xFFFF <? _) eqn:E2; zbool; lia.
  - intros Hr. assert (g = f) as -> by (subst g; destruct (f =? 0) eqn:E; zbool; lia).
    assert (1 <= 1193182 / f <= 65535) as Hb.
    { split; [apply Z.div_le_lower_bound; lia|]. apply Z.lt_succ_r, Z.div_lt_upper_bound; lia. }
    rewrite (proj2 (Z.eqb_neq _ 0)), (proj2 (Z.ltb_ge _ _)) by lia. done.
Qed.

(** ** Segments *)

Definition seg_base (e : GdtEntry) : Z := base_low e + 65536 * base_middle e + 16777216 * base_high e.
Definition seg_limit (e : GdtEntry) : Z := limit_low e + 65536 * (granularity e mod 16).

(** A descriptor carries its base, the low 20 bits of its limit, the access
    byte and the flags. *)
Lemma gdt_entry_fields base limit acc gran : 0 <= base < 4294967296 → 0 <= limit < 4294967296 → 0 <= gran < 256 →
  let e := gdt_entry base limit acc gran in
  seg_base e = base ∧ seg_limit e = limit mod 1048576 ∧ access e = acc ∧ granularity e / 16 = gran / 16.
Proof.
  intros Hb Hl Hg. unfold gdt_entry, seg_base, seg_limit. cbn [base_low base_middle base_high limit_low granularity access].
  change 0xFFFF with (Z.ones 16). change 0xFF with (Z.ones 8). change 0x0F with (Z.ones 4). rewrite !Z.land_ones, !Z.shiftr_div_pow2 by lia.
  change (2 ^ 16) with 65536. change (2 ^ 8) with 256. change (2 ^ 24) with 16777216. change (2 ^ 4) with 16.
  assert (Z.land gran 0xF0 = 16 * (gran / 16)) as ->.
  { assert (∀ i, i ∈ seqZ 0 256 → Z.land i 0xF0 = 16 * (i / 16)) as Hall by (apply Forall_forall, (bool_decide_unpack _); vm_compute; done).
    apply Hall, elem_of_seqZ. lia. }
  rewrite (u8_small (16 * _)) by (Z.div_mod_to_equations; lia).
  rewrite (u8_small (limit / 65536 mod 16)) by (Z.div_mod_to_equations; lia). rewrite Z.lor_comm, (lor_low_bits 4 (16 * _)); [|lia|rewrite Z.mul_comm; by apply Z.mod_mul|Z.div_mod_to_equations; lia].
  unfold u16, u8. split_and!; Z.div_mod_to_equations; lia.
Qed.

(** ** Interrupt tables *)

Definition handler_of (e : IdtEntry) : Z := offset_low e + 65536 * offset_high e.
Lemma idt_entry_handler h attr : 0 <= h < 4294967296 → handler_of (idt_entry h attr) = h.
Proof.
  intros Hh. unfold handler_of, idt_entry. cbn [offset_low offset_high]. change 0xFFFF with (Z.ones 16).
  rewrite !Z.land_ones, Z.shiftr_div_pow2 by lia. unfold u16. change (2 ^ 16) with 65536. Z.div_mod_to_equations. lia.
Qed.

Definition handler_of64 (e : IdtEntry64) : Z := low64 e + 65536 * mid64 e + 4294967296 * high64 e.
Lemma idt_entry64_handler h attr : 0 <= h < 2 ^ 64 → handler_of64 (idt_entry64 h attr) = h.
Proof.
  intros Hh. unfold handler_of64, idt_entry64. cbn [low64 mid64 high64]. change 0xFFFF with (Z.ones 16). change 0xFFFFFFFF with (Z.ones 32).
  rewrite !Z.land_ones, !Z.shiftr_div_pow2 by lia. unfold u16, u32. change (2 ^ 16) with 65536. change (2 ^ 32) with 4294967296. change (2 ^ 64) with 18446744073709551616 in Hh.
  Z.div_mod_to_equations. lia.
Qed.

(** Which stub serves a vector, and from which ring it may be called. *)
Definition route (st : stubs) (v : Z) : Z * Z :=
  if v =? 128 then (syscall_stub st, kTrapGatePresentRing3)
  else if (32 <=? v) && (v <? 48) then (irq_stub st (v - 32), kInterruptGatePresentRing0)
  else if v =? 14 then (isr_pf st, kInterruptGatePresentRing0)
  else if v =? 13 then (isr_gp st, kInterruptGatePresentRing0)
  else if v =? 3 then (isr_breakpoint st, kInterruptGatePresentRing0)
  else (isr_unhandled st, kInterruptGatePresentRing0).

Lemma set_loop {A} `{Inhabited A} (f : Z → A) base n (l : list A) v : 0 <= base → 0 <= n → 0 <= v < Z.of_nat (length l) →
  let l' := for_up 0 n 1 (λ i l, zset l (base + i) (f i)) l in
  length l' = length l ∧ zget l' v = if (base <=? v) && (v <? base + n) then f (v - base) else zget l v.
Proof.
  intros Hb Hn Hv.
  apply (for_up_inv1 0 n _ (λ i l', length l' = length l ∧ zget l' v = if (base <=? v) && (v <? base + i) then f (v - base) else zget l v)); [lia| |].
  - split; [done|]. destruct (base <=? v) eqn:E1, (v <? base + 0) eqn:E2; zbool; try done. lia.
  - intros i l' Hi [IH1 IH2]. split; [by rewrite length_zset|]. destruct (decide (v = base + i)) as [->|Hne].
    + rewrite zget_zset_eq, (proj2 (Z.leb_le _ _)), (proj2 (Z.ltb_lt _ _)) by lia. cbn [andb]. f_equal. lia.
    + rewrite zget_zset_ne by lia. rewrite IH2. destruct (base <=? v) eqn:E1; [|done]. cbn [andb].
      destruct (v <? base + i) eqn:E2, (v <? base + (i + 1)) eqn:E3; zbool; try done; lia.
Qed.

(** Every vector of the table [init] loads leads to its stub. *)
Lemma idt_routes st idt v : length idt = 256%nat → 0 <= v < 256 →
  zget (idt_init st idt) v = idt_entry (route st v).1 (route st v).2.
Proof.
  intros Hl Hv. unfold idt_init, set_entry, kIdtEntries, kBreakpointVector, kIrq0Vector, kSyscallVector.
  set (un := idt_entry (isr_unhandled st) kInterruptGatePresentRing0).
  set (l1 := for_up 0 256 1 (λ i idt, zset idt i un) idt).
  destruct (set_loop (λ _, un) 0 256 idt v) as [L1 G1]; [lia..|]. change (for_up 0 256 1 _ idt) with l1 in L1, G1.
  rewrite (proj2 (Z.leb_le 0 v)), (proj2 (Z.ltb_lt v (0 + 256))) in G1 by lia. cbn [andb] in G1.
  set (l2 := zset (zset (zset l1 3 _) 13 _) 14 _).
  destruct (set_loop (λ k, idt_entry (irq_stub st k) kInterruptGatePresentRing0) 32 16 l2 v) as [L3 G3]; [lia|lia|subst l2; rewrite !length_zset; lia|].
  set (l3 := for_up 0 16 1 _ l2) in *. assert (length l2 = 256%nat) as L2 by (subst l2; rewrite !length_zset; lia).
  unfold route. destruct (v =? 128) eqn:E128; zbool; [subst v; rewrite zget_zset_eq by lia; done|]. rewrite zget_zset_ne, G3 by lia.
  change (32 + 16) with 48. destruct (_ && _) eqn:E48; [done|]. subst l2.
  destruct (v =? 14) eqn:E14; zbool; [subst v; rewrite zget_zset_eq by (rewrite !length_zset; lia); done|]. rewrite zget_zset_ne by lia.
  destruct (v =? 13) eqn:E13; zbool; [subst v; rewrite zget_zset_eq by (rewrite !length_zset; lia); done|]. rewrite zget_zset_ne by lia.
  destruct (v =? 3) eqn:E3; zbool; [subst v; rewrite zget_zset_eq by lia; done|]. rewrite zget_zset_ne by lia. exact G1.
Qed.

(** ** I/O APIC *)

(** Registers behind a select register and a window. *)
Record apic_chip := mk_chip { chip_sel : Z; chip_regs : Z → Z }.
Definition apic_at : Z := 0xFEC00000.
#[local] Instance chip_hw : NvmeHw apic_chip := {|
  hw_load m a := 0; hw_store m a bs := m;
  hw_read m a := ((if a =? apic_at + 0x10 then chip_regs m (chip_sel m) else 0), m);
  hw_write m a v :=
    if a =? apic_at then mk_chip v (chip_regs m)
    else if a =? apic_at + 0x10 then mk_chip (chip_sel m) (λ r, if r =? chip_sel m then v else chip_regs m r)
    else m;
  hw_pause m := m;
|}.

Lemma chip_write m reg v : io_write_reg m apic_at reg v = mk_chip reg (λ r, if r =? reg then v else chip_regs m r).
Proof. done. Qed.

(** After initialisation every entry the version register announces is masked
    and empty. *)
Lemma ioapic_all_masked (c : apic_chip) tx gsi n : 0 <= n <= Z.land (Z.shiftr (chip_regs c 1) 16) 0xFF →
  let s := ioapic_init (mk_ioapic c 0 0 0 tx) apic_at gsi in
  chip_regs (io_m s) (0x10 + n * 2) = 65536 ∧ chip_regs (io_m s) (0x10 + n * 2 + 1) = 0.
Proof.
  intros Hn. unfold ioapic_init. cbn [io_m].
  assert (io_read_reg c apic_at 1 = (chip_regs c 1, mk_chip 1 (chip_regs c))) as -> by done. cbn [io_m]. set (k := Z.land _ _ + 1).
  pose proof (for_up_inv1 0 k (λ i m, io_write_reg (io_write_reg m apic_at (0x10 + i * 2) (Z.shiftl 1 16)) apic_at (0x10 + i * 2 + 1) 0)
    (λ i m, ∀ j, 0 <= j < i → chip_regs m (0x10 + j * 2) = 65536 ∧ chip_regs m (0x10 + j * 2 + 1) = 0) (mk_chip 1 (chip_regs c))) as HI.
  apply HI; [lia|lia| |lia]. clear HI. intros i m Hi IH j Hj. rewrite !chip_write. cbn [chip_regs].
  destruct (decide (j = i)) as [->|Hne].
  - rewrite (proj2 (Z.eqb_neq (16 + i * 2) (16 + i * 2 + 1))), !Z.eqb_refl by lia. done.
  - rewrite !(proj2 (Z.eqb_neq _ _)) by lia. apply IH. lia.
Qed.

(** Unmasking a line also clears the vector and the delivery mode an entry
    had. *)
Lemma unmask_clears_vector (c : apic_chip) tx gsi : 0 <= gsi < 1000 →
  chip_regs (io_m (unmask_gsi (mk_ioapic c apic_at 0 24 tx) gsi)) (0x10 + gsi * 2) = 0.
Proof.
  intros Hg. unfold unmask_gsi, gsi_write. cbn [io_base g_gsi_base io_m]. rewrite (proj2 (Z.ltb_ge gsi 0)) by lia. cbn [orb]. change (apic_at =? 0) with false. cbn [orb io_m].
  rewrite chip_write. cbn [chip_regs]. rewrite Z.sub_0_r, (u32_small gsi), (u32_small (gsi * 2)), (u32_small (0x10 + _)), Z.eqb_refl by lia. done.
Qed.

(** ** Dispatch *)

Section dispatch_spec.
Context {P S : Type} `{Ports P} (on_timer : S → Z → Z → Z * S).

(** A registered handler runs exactly when its interrupt comes, which is then
    acknowledged; the stack stays the interrupted task's. *)
Lemma registered_handler_runs (s : irqs P S) vector h esp : length (g_irq_handlers s) = 256%nat → 32 < vector < 256 →
  let s' := register_irq_handler s vector (Some h) in
  irq_generic_handler on_timer s' esp vector
    = (esp, mk_irqs (g_ticks s) (g_irq_handlers s') (send_eoi (iq_ports s) (vector - 32)) (h (iq_kernel s))).
Proof.
  intros Hl Hv. unfold register_irq_handler, irq_generic_handler. rewrite (proj2 (Z.ltb_lt vector 256)), (proj2 (Z.eqb_neq vector 32)) by lia.
  cbn [g_irq_handlers iq_ports iq_kernel g_ticks]. rewrite zget_zset_eq by lia. rewrite (u32_small (vector - 0x20)), (u8_small (vector - 0x20)) by lia. done.
Qed.
End dispatch_spec.
