(* ===== verification/ToolCli.v ===== *)
(** * The tool chain's command line

    [run_cli] of [tools/macroBuilder/main.cpp] with the functions that read and
    write files.  Files are a map from paths to texts; which paths can be
    written is a parameter, as the order of the macro arguments is.  [main]
    prints the message of an exception; here it is the result.  The lines that
    [PRINT] writes while a program runs are printed with its result, and
    creating the output directory is left out.

    The second half shows that building through files loses nothing: an object
    file holds the module the assembler computed and the image file the image
    the linker computed, so [build --run] prints the result of the linked
    program. *)

From Stdlib Require Import Ascii.
From S2P Require Import Prelude CText ToolText Json JsonSpec Macro Assembler AssemblerSpec Linker LinkerSpec.

Inductive cli_error := CUsage (t : string) | CUnknown (t : text) | COpen (p : text) | CWrite (p : text) | CTool (e : error).

Record tool := mk_tool { files : gmap text text; tool_macros : macros; printed_text : text }.

Inductive ran (A : Type) := Done (a : A) (s : tool) | Throws (e : cli_error) (s : tool) | Broken.
Arguments Done {A}. Arguments Throws {A}. Arguments Broken {A}.
Definition Cli (A : Type) : Type := tool → ran A.
#[export] Instance Cli_ret : MRet Cli := λ A a s, Done a s.
#[export] Instance Cli_bind : MBind Cli := λ A B f m s, match m s with Done a s => f a s | Throws e s => Throws e s | Broken => Broken end.

Definition throw {A} (e : cli_error) : Cli A := λ s, Throws e s.
Definition usage {A} (t : string) : Cli A := throw (CUsage t).
Definition lift {A} (r : res A) : Cli A := λ s, match r with Ok a => Done a s | Err e => Throws (CTool e) s | Undefined => Broken end.
Definition print (t : text) : Cli unit := λ s, Done tt (mk_tool (files s) (tool_macros s) (printed_text s ++ t)).

(** [fs::path]: the file name without its last extension, and [dir / name]. *)
Fixpoint after_last_slash (p name : text) : text :=
  match p with [] => name | c :: p' => if Ascii.eqb c "/" then after_last_slash p' p' else after_last_slash p' name end.
Definition filename (p : text) : text := after_last_slash p p.
Fixpoint last_dot (p : text) (i : nat) (best : option nat) : option nat :=
  match p with [] => best | c :: p' => last_dot p' (S i) (if Ascii.eqb c "." then Some i else best) end.
Definition stem (p : text) : text :=
  let f := filename p in
  if text_equal f (txt ".") || text_equal f (txt "..") then f
  else match last_dot f 0 None with None | Some O => f | Some i => take i f end.
Definition join_path (dir name : text) : text :=
  match last dir with None => name | Some c => if Ascii.eqb c "/" then dir ++ name else dir ++ ["/"%char] ++ name end.

Section cli.
Context {D : Type} (stod : text → res D) (show_double : D → text) (double_to_ll : D → Z).
Context (iter : list (text * text) → list (text * text)).
Context (writable : text → bool).

Definition read_text (path : text) : Cli text := λ s,
  match files s !! path with Some t => Done t s | None => Throws (COpen path) s end.
Definition write_text (path t : text) : Cli unit := λ s,
  if writable path then Done tt (mk_tool (<[path := t]> (files s)) (tool_macros s) (printed_text s)) else Throws (CWrite path) s.

Definition process_file (src dst : text) : Cli unit :=
  t ← read_text src;
  out ← (λ s, match Macro.process_file iter t (tool_macros s) with
              | Ok (out, ms) => Done out (mk_tool (files s) ms (printed_text s)) | Err e => Throws (CTool e) s | Undefined => Broken end);
  write_text dst out.

Definition assemble_file (src obj_out : text) : Cli unit :=
  t ← read_text src;
  v ← lift (assemble_lines (D := D) (read_lines t) (stem src));
  write_text obj_out (dump show_double v 0 2).

Definition load_module (path : text) : Cli ObjectFile :=
  t ← read_text path;
  lift (root ← parse_text stod t; parse_object double_to_ll root).
Fixpoint load_modules (paths : list text) : Cli (list ObjectFile) :=
  match paths with [] => mret [] | p :: ps => m ← load_module p; ms ← load_modules ps; mret (m :: ms) end.
Definition link_files (objs : list text) (output mode : text) (load_address : Z) (entry : option text) : Cli unit :=
  ms ← load_modules objs;
  v ← lift (link_modules (D := D) ms mode load_address entry);
  write_text output (dump show_double v 0 2).

Definition run_file (path : text) (load_address : option Z) (max_steps : Z) : Cli Result :=
  t ← read_text path;
  lift (v ← parse_text stod t; Linker.run_file double_to_ll v load_address max_steps).

Fixpoint commas (l : list Z) : text :=
  match l with [] => [] | [x] => to_string x | x :: l' => to_string x ++ txt ", " ++ commas l' end.
Definition newline : text := ["010"%char].
(** [PRINT] writes a line of its own as it is executed. *)
Definition print_result (r : Result) : Cli unit :=
  print (concat ((λ z, to_string z ++ newline) <$> printed r)) ;;
  print (txt "exit=" ++ to_string (exit_code r) ++ txt " steps=" ++ to_string (steps r) ++ txt " regs=[" ++ commas (registers r) ++ txt "]" ++ newline).

Definition parse_cli_number (t : text) : Cli Z := lift (parse_number t).

(** ** link *)

Record link_args := mk_link { l_objects : list text; l_output : text; l_mode : text; l_load : Z; l_entry : option text }.
Fixpoint parse_link (args : list text) (a : link_args) : Cli link_args :=
  match args with
  | [] => mret a
  | arg :: rest =>
      if text_equal arg (txt "-o") || text_equal arg (txt "--output") then
        match rest with [] => usage "-o/--output exige caminho" | v :: rest' => parse_link rest' (mk_link (l_objects a) v (l_mode a) (l_load a) (l_entry a)) end
      else if text_equal arg (txt "--mode") then
        match rest with [] => usage "--mode exige valor" | v :: rest' => parse_link rest' (mk_link (l_objects a) (l_output a) v (l_load a) (l_entry a)) end
      else if text_equal arg (txt "--load-address") then
        match rest with
        | [] => usage "--load-address exige valor"
        | v :: rest' => n ← parse_cli_number v; parse_link rest' (mk_link (l_objects a) (l_output a) (l_mode a) n (l_entry a))
        end
      else if text_equal arg (txt "--entry") then
        match rest with [] => usage "--entry exige simbolo" | v :: rest' => parse_link rest' (mk_link (l_objects a) (l_output a) (l_mode a) (l_load a) (Some v)) end
      else parse_link rest (mk_link (l_objects a ++ [arg]) (l_output a) (l_mode a) (l_load a) (l_entry a))
  end.
Definition run_link (args : list text) : Cli Z :=
  a ← parse_link args (mk_link [] [] (txt "absolute") 0 None);
  match l_output a with
  | [] => usage "uso: link <objetos...> -o <saida> [--mode absolute|relocatable] [--load-address N] [--entry sym]"
  | _ => link_files (l_objects a) (l_output a) (l_mode a) (l_load a) (l_entry a) ;; mret 0
  end.

(** ** exec *)

Definition kMaxSteps : Z := 200000.
Fixpoint parse_exec (args : list text) (load : option Z) (max_steps : Z) : Cli (option Z * Z) :=
  match args with
  | [] => mret (load, max_steps)
  | arg :: rest =>
      if text_equal arg (txt "--load-address") then
        match rest with [] => usage "--load-address exige valor" | v :: rest' => n ← parse_cli_number v; parse_exec rest' (Some n) max_steps end
      else if text_equal arg (txt "--max-steps") then
        match rest with [] => usage "--max-steps exige valor" | v :: rest' => n ← parse_cli_number v; parse_exec rest' load n end
      else throw (CUnknown arg)
  end.
Definition run_exec (args : list text) : Cli Z :=
  match args with
  | [] => usage "uso: exec <entrada> [--load-address N] [--max-steps N]"
  | input :: rest =>
      '(load, max_steps) ← parse_exec rest None kMaxSteps;
      r ← run_file input load max_steps; print_result r ;; mret 0
  end.

(** ** build *)

Record build_args := mk_build {
  b_sources : list text; b_out_dir : text; b_mode : text; b_load : Z; b_entry : option text; b_run : bool; b_max_steps : Z;
}.
Fixpoint parse_build (args : list text) (a : build_args) : Cli build_args :=
  match args with
  | [] => mret a
  | arg :: rest =>
      if text_equal arg (txt "--out-dir") then
        match rest with [] => usage "--out-dir exige diretorio"
        | v :: rest' => parse_build rest' (mk_build (b_sources a) v (b_mode a) (b_load a) (b_entry a) (b_run a) (b_max_steps a)) end
      else if text_equal arg (txt "--mode") then
        match rest with [] => usage "--mode exige valor"
        | v :: rest' => parse_build rest' (mk_build (b_sources a) (b_out_dir a) v (b_load a) (b_entry a) (b_run a) (b_max_steps a)) end
      else if text_equal arg (txt "--load-address") then
        match rest with [] => usage "--load-address exige valor"
        | v :: rest' => n ← parse_cli_number v; parse_build rest' (mk_build (b_sources a) (b_out_dir a) (b_mode a) n (b_entry a) (b_run a) (b_max_steps a)) end
      else if text_equal arg (txt "--entry") then
        match rest with [] => usage "--entry exige simbolo"
        | v :: rest' => parse_build rest' (mk_build (b_sources a) (b_out_dir a) (b_mode a) (b_load a) (Some v) (b_run a) (b_max_steps a)) end
      else if text_equal arg (txt "--run") then
        parse_build rest (mk_build (b_sources a) (b_out_dir a) (b_mode a) (b_load a) (b_entry a) true (b_max_steps a))
      else if text_equal arg (txt "--max-steps") then
        match rest with [] => usage "--max-steps exige valor"
        | v :: rest' => n ← parse_cli_number v; parse_build rest' (mk_build (b_sources a) (b_out_dir a) (b_mode a) (b_load a) (b_entry a) (b_run a) n) end
      else match arg with
      | "-"%char :: _ => throw (CUnknown arg)
      | _ => parse_build rest (mk_build (b_sources a ++ [arg]) (b_out_dir a) (b_mode a) (b_load a) (b_entry a) (b_run a) (b_max_steps a))
      end
  end.

Definition expanded_path (out_dir src : text) : text := join_path out_dir (stem src ++ txt ".mcr.asm").
Definition object_path (out_dir src : text) : text := join_path out_dir (stem src ++ txt ".obj.json").
Fixpoint build_objects (out_dir : text) (sources : list text) : Cli (list text) :=
  match sources with
  | [] => mret []
  | src :: rest =>
      process_file src (expanded_path out_dir src) ;;
      assemble_file (expanded_path out_dir src) (object_path out_dir src) ;;
      objs ← build_objects out_dir rest;
      mret (object_path out_dir src :: objs)
  end.
Definition run_build (args : list text) : Cli Z :=
  match args with
  | [] => usage "uso: build <fontes...> [--out-dir DIR] [--mode absolute|relocatable] [--load-address N] [--entry sym] [--run] [--max-steps N]"
  | _ =>
      a ← parse_build args (mk_build [] (txt "build/toolchain") (txt "absolute") 0 None false kMaxSteps);
      match b_sources a with
      | [] => usage "build requer ao menos um arquivo fonte"
      | _ =>
          objects ← build_objects (b_out_dir a) (b_sources a);
          let exe := join_path (b_out_dir a) (txt "a.out.json") in
          link_files objects exe (b_mode a) (b_load a) (b_entry a) ;;
          print (txt "gerado: " ++ exe ++ newline) ;;
          (if b_run a then r ← run_file exe (Some (b_load a)) (b_max_steps a); print_result r else mret tt) ;;
          mret 0
      end
  end.

(** The arguments after the name of the program. *)
Definition run_cli (argv : list text) : Cli Z :=
  match argv with
  | [] => usage "uso: macro|asm|link|exec|build ..."
  | cmd :: args =>
      if text_equal cmd (txt "macro") then
        match args with [src; dst] => process_file src dst ;; mret 0 | _ => usage "uso: macro <entrada> <saida>" end
      else if text_equal cmd (txt "asm") then
        match args with [src; dst] => assemble_file src dst ;; mret 0 | _ => usage "uso: asm <entrada> <saida>" end
      else if text_equal cmd (txt "link") then run_link args
      else if text_equal cmd (txt "exec") then run_exec args
      else if text_equal cmd (txt "build") then run_build args
      else throw (CUnknown cmd)
  end.
(** The exit status of the program. *)
Definition main (argv : list text) (s : tool) : option (Z * tool) :=
  match run_cli argv s with Done c s => Some (c, s) | Throws _ s => Some (1, s) | Broken => None end.
End cli.

(** * Building through files *)

(** ** Values of a map *)

Lemma map_set_values {V} (P : V → Prop) k v o : P v → Forall P o.*2 → Forall P (map_set k v o).*2.
Proof.
  intros Hv. induction o as [|[j w] o IH]; cbn; [by repeat constructor|]. intros [H1 H2]%Forall_cons.
  destruct (text_equal k j); [|destruct (text_lt k j)]; cbn; auto.
Qed.

(** ** Object files *)

Definition reloc_ok (r : Reloc) : Prop := int_ok (r_offset r) ∧ int_ok (r_size r) ∧ int_ok (r_addend r).

(** What an object file can hold: a map of symbols, bytes and 64-bit numbers. *)
Record object_ok (o : ObjectFile) : Prop := {
  ok_size : o_size o = Z.of_nat (length (o_code o));
  ok_length : int_ok (o_size o);
  ok_bytes : bytes_ok (o_code o);
  ok_sorted : keys_sorted (o_symbols o).*1;
  ok_symbols : Forall int_ok (o_symbols o).*2;
  ok_entry : int_ok (o_entry o);
  ok_relocs : Forall reloc_ok (o_relocations o);
}.

Section objects.
Context {D : Type} (stod : text → res D) (show_double : D → text) (double_to_ll : D → Z).
Abbreviation value := (Value D).

Definition as_value (kz : text * Z) : text * value := (kz.1, VInt kz.2).
Lemma as_value_keys syms : (as_value <$> syms).*1 = syms.*1.
Proof. by rewrite <- list_fmap_compose. Qed.

Lemma add_symbols syms : ∀ pre, keys_sorted (pre ++ syms).*1 →
  fold_left (λ o '(k, z), map_set k (VInt z) o) syms (as_value <$> pre) = as_value <$> pre ++ syms.
Proof.
  induction syms as [|[k z] syms IH]; intros pre; cbn [fold_left]; [by rewrite app_nil_r|].
  intros Hs. pose proof Hs as Hk. rewrite fmap_app in Hk. apply keys_sorted_app in Hk.
  destruct (map_set_last (as_value <$> pre) k (VInt z)) as [_ ->]; [by rewrite as_value_keys|].
  specialize (IH (pre ++ [(k, z)])). rewrite <- app_assoc, (fmap_app as_value pre) in IH. by apply IH.
Qed.
Lemma symbol_values_sorted syms : keys_sorted syms.*1 → symbol_values syms = as_value <$> syms.
Proof. apply (add_symbols syms []). Qed.

Lemma read_symbols syms : ∀ pre, keys_sorted (pre ++ syms).*1 →
  parse_symbols double_to_ll (as_value <$> syms) pre = Ok (pre ++ syms).
Proof.
  induction syms as [|[k z] syms IH]; intros pre; cbn; [by rewrite app_nil_r|].
  intros Hs. pose proof Hs as Hk. rewrite fmap_app in Hk. apply keys_sorted_app in Hk.
  destruct (map_set_last pre k z Hk) as [_ ->].
  specialize (IH (pre ++ [(k, z)])). rewrite <- app_assoc in IH. by apply IH.
Qed.
Lemma parse_symbols_back syms : keys_sorted syms.*1 → parse_symbols double_to_ll (as_value <$> syms) [] = Ok syms.
Proof. apply (read_symbols syms []). Qed.

Lemma parse_bytes_back bs : bytes_ok bs → res_map (parse_byte double_to_ll) (VInt <$> bs) = Ok bs.
Proof.
  induction 1 as [|b bs Hb _ IH]; [done|]. cbn. rewrite IH. cbn. unfold u8. by rewrite Z.mod_small.
Qed.

Lemma strings_back ss : res_map as_string (VString (D := D) <$> ss) = Ok ss.
Proof. induction ss as [|s ss IH]; [done|]. cbn. by rewrite IH. Qed.

Lemma relocs_back rs : res_map (parse_reloc double_to_ll) (reloc_value <$> rs) = Ok rs.
Proof. induction rs as [|[] rs IH]; [done|]. cbn. by rewrite IH. Qed.

(** The members of an object file, in the order of a [std::map]. *)
Lemma object_value_fields o : object_value (D := D) o = VObject
  [(txt "code", VArray (VInt <$> o_code o)); (txt "entry", VInt (o_entry o)); (txt "externs", VArray (VString <$> o_externs o));
   (txt "format", VString (txt "wirth-obj-v1")); (txt "globals", VArray (VString <$> o_globals o)); (txt "module", VString (o_module o));
   (txt "relocations", VArray (reloc_value <$> o_relocations o)); (txt "size", VInt (Z.of_nat (length (o_code o))));
   (txt "symbols", VObject (symbol_values (o_symbols o)))].
Proof. reflexivity. Qed.
Lemma reloc_value_fields r : reloc_value (D := D) r = VObject
  [(txt "addend", VInt (r_addend r)); (txt "offset", VInt (r_offset r)); (txt "size", VInt (r_size r)); (txt "symbol", VString (r_symbol r))].
Proof. reflexivity. Qed.

Lemma parse_object_back o : object_ok o → parse_object double_to_ll (object_value o) = Ok o.
Proof.
  intros []. rewrite object_value_fields, symbol_values_sorted by done. destruct o as [mo sz co sy gl ex en re].
  unfold parse_object, int_at, string_at, array_at, optional, map_at.
  cbn [o_size o_code o_symbols o_module o_globals o_externs o_entry o_relocations] in *.
  cbn -[res_map parse_symbols fmap]. 
  rewrite parse_bytes_back by done. cbn -[res_map parse_symbols fmap].
  rewrite parse_symbols_back by done. cbn -[res_map fmap]. rewrite !strings_back.
  cbn -[res_map fmap]. rewrite relocs_back. cbn. by rewrite ok_size0.
Qed.

Lemma reloc_value_ok r : reloc_ok r → json_ok (reloc_value (D := D) r).
Proof.
  intros (H1 & H2 & H3). rewrite reloc_value_fields. apply json_ok_object. split; [cbn; repeat split; repeat constructor|].
  by repeat apply Forall_cons_2; try apply Forall_nil_2.
Qed.

Lemma object_value_ok o : object_ok o → json_ok (object_value (D := D) o).
Proof.
  intros []. rewrite object_value_fields, symbol_values_sorted by done. apply json_ok_object. split.
  { cbn. repeat split; repeat constructor. }
  assert (∀ (f : text → value) l, (∀ x, json_ok (f x)) → json_ok (VArray (f <$> l))) as Hstr
    by (intros f l Hf; by apply json_ok_array, Forall_fmap, Forall_true).
  rewrite !fmap_cons, fmap_nil. cbn [snd]. repeat apply Forall_cons_2; try exact I; try apply Forall_nil_2; try (by apply Hstr).
  - apply json_ok_array, Forall_fmap. eapply Forall_impl; [exact ok_bytes0|]. intros z Hz. cbn in Hz |- *. unfold int_ok. lia.
  - done.
  - apply json_ok_array, Forall_fmap. eapply Forall_impl; [exact ok_relocs0|]. apply reloc_value_ok.
  - by rewrite <- ok_size0.
  - apply json_ok_object. rewrite as_value_keys, <- list_fmap_compose. split; [done|].
    apply Forall_fmap. exact (proj1 (Forall_fmap snd int_ok _) ok_symbols0).
Qed.

Definition object_text (o : ObjectFile) : text := dump show_double (object_value o) 0 2.
Lemma object_text_back o : object_ok o →
  (root ← parse_text stod (object_text o); parse_object double_to_ll root) = Ok o.
Proof. intros Ho. unfold object_text. rewrite parse_dumped by (by apply object_value_ok). by apply parse_object_back. Qed.
End objects.

(** ** What the assembler computes fits an object file *)

Definition fits (s : pass1_state) : Prop := 0 <= pc1 s <= 9223372036854775807 ∧ keys_sorted (symbols s).*1 ∧ Forall int_ok (symbols s).*2.

Lemma pass1_fits lines : ∀ no s s', pass1 no lines s = Ok s' → sizes_ok (bodies no lines) → fits s → fits s'.
Proof.
  induction lines as [|raw lines IH]; intros no s s'; cbn [pass1 bodies]; [by intros [= <-]|].
  intros (s1 & H1 & H2)%res_bind_Ok Hb ([Hlo Hhi] & Hk & Hv). pose proof (pass1_line_effect _ _ _ _ H1 Hhi) as He.
  destruct (split_line raw) as [label body]. destruct He as (Hs & _ & _ & Hpc & Hm). cbn [snd] in Hb.
  assert (0 <= body_size body ∧ sizes_ok (bodies (no + 1) lines)) as [Hbody Hrest].
  { destruct body; [inversion Hb as [|? ? Hx ?]; subst; by split|by split]. }
  apply (IH _ _ _ H2 Hrest). split; [lia|]. rewrite Hs. destruct label as [l|]; [|done].
  split; [by apply map_set_sorted|]. apply map_set_values; [unfold int_ok; lia|done].
Qed.

Definition plain_reloc (r : Reloc) : Prop := r_size r = 2 ∧ r_addend r = 0.

Lemma enc_value_plain st1 no addr v bs rs : enc_value st1 no addr v = Ok (bs, rs) → Forall plain_reloc rs.
Proof.
  unfold enc_value. destruct (is_number v) as [[]| |]; [|destruct (map_find v _); [|destruct (existsb _ _)]|..]; try done.
  - by intros (n & _ & [= _ <-])%res_bind_Ok.
  - intros [= _ <-]. by repeat constructor.
  - intros [= _ <-]. by repeat constructor.
Qed.

Lemma enc_args_plain st1 no addr op s args bs rs : enc_args st1 no addr op s args = Ok (bs, rs) → Forall plain_reloc rs.
Proof.
  destruct s, args as [|a [|b [|c args]]]; cbn [enc_args]; try done; intros H;
    repeat match goal with
    | H : Ok _ = Ok _ |- _ => injection H as _ <-
    | H : mbind _ _ = Ok _ |- _ => let x := fresh "x" in apply res_bind_Ok in H as (x & ? & H); try destruct x as [? ?]
    | H : enc_value _ _ _ _ = Ok _ |- _ => by apply enc_value_plain in H
    end; done.
Qed.

Lemma find_value {V} (P : V → Prop) k v o : map_find k o = Some v → Forall P o.*2 → P v.
Proof.
  intros H%map_find_elem Hf. apply (proj1 (Forall_forall _ _) Hf), list_elem_of_fmap. by exists (k, v).
Qed.

Lemma enc_line_fits st1 no addr ent line bs rs ent' : enc_line st1 no addr ent line = Ok (bs, rs, ent') →
  Forall int_ok (symbols st1).*2 → int_ok ent → int_ok ent' ∧ Forall plain_reloc rs.
Proof.
  unfold enc_line. intros H Hs He. revert H. destruct (tokenize line) as [|t0 tk]; [by intros [= _ <- <-]|].
  destruct (_ || _); [by intros [= _ <- <-]|]. destruct (is_op _ ".ENTRY").
  { intros (sym & _ & H)%res_bind_Ok. destruct (map_find sym _) eqn:E; [|done]. injection H as _ <- <-. split; [|done]. by eapply find_value. }
  destruct (is_op _ ".BYTE"). { by intros (v & _ & (n & _ & [= _ <- <-])%res_bind_Ok)%res_bind_Ok. }
  destruct (is_op _ ".WORD").
  { intros (v & _ & ([b r] & H & [= _ <- <-])%res_bind_Ok)%res_bind_Ok. by apply enc_value_plain in H. }
  destruct (is_op _ ".SPACE"). { by intros (v & _ & (n & _ & [= _ <- <-])%res_bind_Ok)%res_bind_Ok. }
  intros ([b r] & H & [= _ <- <-])%res_bind_Ok. split; [done|]. unfold enc_instr in H.
  destruct (map_find _ instructions) as [[c s]|]; [|done]. apply res_bind_Ok in H as ([b' r'] & H & [= _ <-]).
  by eapply enc_args_plain.
Qed.

Lemma enc_lines_fits st1 lines : ∀ addr ent bs rs ent', enc_lines st1 addr ent lines = Ok (bs, rs, ent') →
  Forall int_ok (symbols st1).*2 → int_ok ent → int_ok ent' ∧ Forall plain_reloc rs.
Proof.
  induction lines as [|[no line] lines IH]; intros addr ent bs rs ent'; cbn [enc_lines]; [by intros [= _ <- <-]|].
  intros ([[b1 r1] e1] & H1 & ([[b2 r2] e2] & H2 & [= _ <- <-])%res_bind_Ok)%res_bind_Ok Hs He.
  destruct (enc_line_fits _ _ _ _ _ _ _ _ H1 Hs He) as [He1 Hr1]. destruct (IH _ _ _ _ _ H2 Hs He1) as [He2 Hr2].
  split; [done|]. by apply Forall_app.
Qed.

Lemma assembled_object_ok lines m o : sizes_ok (bodies 1 lines) → assemble lines m = Ok o → object_ok o.
Proof.
  intros Hs Ha. destruct (assemble_wf _ _ _ Hs Ha) as [Hsz Hby _ Hin]. rewrite (assemble_ref _ _ Hs) in Ha.
  apply ref_assemble_Ok in Ha as (ent & H1 & H2 & Ho). rewrite Ho in *. cbn [o_size o_code o_relocations] in *. destruct (pass1_fits _ _ _ _ H1 Hs) as (Hpc & Hk & Hv); [by repeat constructor|].
  assert (pc1 (environment lines) = total_size (bodies 1 lines)) as Hpc' by done. rewrite Hpc' in Hpc.
  destruct (enc_lines_fits _ _ _ _ _ _ _ H2 Hv) as [He Hr]; [done|].
  split; cbn; try done.
  - unfold int_ok. lia.
  - apply Forall_forall. intros r Hr'. rewrite Forall_forall in Hin, Hr. specialize (Hin r Hr') as [? ?]. specialize (Hr r Hr') as [E1 E2]. unfold reloc_ok, int_ok. rewrite E1, E2.
    repeat split; try done; lia.
Qed.

(** ** Images *)

Definition table_ok (g : list (text * Z)) : Prop := keys_sorted g.*1 ∧ Forall int_ok g.*2.

Lemma i64_int z w : i64 z = Ok w → int_ok w.
Proof. intros [-> H]%i64_Ok. exact H. Qed.

Lemma place_modules_total objs : ∀ c ms total, place_modules objs c = Ok (ms, total) → int_ok c → int_ok total.
Proof.
  induction objs as [|o objs IH]; intros c ms total; cbn; [by intros [= _ <-]|].
  intros (n & Hn%i64_int & ([ms' t] & H & [= _ <-])%res_bind_Ok)%res_bind_Ok _. by eapply IH.
Qed.

Lemma add_globals_ok m names : ∀ g g', add_globals m names g = Ok g' → table_ok g → table_ok g'.
Proof.
  induction names as [|n names IH]; intros g g'; cbn; [by intros [= <-]|].
  destruct (map_find n _); [|done]. intros (a & Ha%i64_int & H)%res_bind_Ok [Hk Hv]. destruct (map_find n g); [done|].
  apply (IH _ _ H). split; [by apply map_set_sorted|by apply map_set_values].
Qed.

Lemma collect_globals_ok ms : ∀ g g', collect_globals ms g = Ok g' → table_ok g → table_ok g'.
Proof.
  induction ms as [|m ms IH]; intros g g'; cbn; [by intros [= <-]|].
  intros (g1 & H1 & H2)%res_bind_Ok Hg. apply (IH _ _ H2). by eapply add_globals_ok.
Qed.

Lemma shift_symbols_ok g off : ∀ g', shift_symbols g off = Ok g' → table_ok g → table_ok g'.
Proof.
  assert (∀ g', shift_symbols g off = Ok g' → g'.*1 = g.*1 ∧ Forall int_ok g'.*2) as H.
  { induction g as [|[k v] g IH]; intros g'; cbn; [by intros [= <-]|].
    intros (w & Hw%i64_int & (r & Hr & [= <-])%res_bind_Ok)%res_bind_Ok. destruct (IH _ Hr) as [Hk Hv]. cbn. rewrite Hk. by auto. }
  intros g' [Hk Hv]%H [Hs _]. split; [by rewrite Hk|done].
Qed.

Lemma apply_relocs_pending g m rs : ∀ st st', apply_relocs g m rs st = Ok st' → Forall int_ok st.2 → Forall int_ok st'.2.
Proof.
  induction rs as [|r rs IH]; intros st st'; cbn; [by intros [= <-]|].
  intros (st1 & H1 & H2)%res_bind_Ok Hp. apply (IH _ _ H2). unfold apply_reloc in H1. destruct st as [l p]. destruct (negb _); [done|].
  apply res_bind_Ok in H1 as (pp & Hpp%i64_int & (a & _ & (t & _ & (l' & _ & [= <-])%res_bind_Ok)%res_bind_Ok)%res_bind_Ok).
  apply Forall_app. by auto.
Qed.

Lemma relocate_all_pending g ms : ∀ st st', relocate_all g ms st = Ok st' → Forall int_ok st.2 → Forall int_ok st'.2.
Proof.
  induction ms as [|m ms IH]; intros st st'; cbn; [by intros [= <-]|].
  intros (st1 & H1 & H2)%res_bind_Ok Hp. apply (IH _ _ H2). by eapply apply_relocs_pending.
Qed.

Lemma patch_all_length sites : ∀ code code', patch_all sites code = Ok code' → length code' = length code.
Proof.
  induction sites as [|[p n] sites IH]; intros code code'; cbn; [by intros [= <-]|].
  intros (c & Hp%patch_Ok & H)%res_bind_Ok. rewrite (IH _ _ H). apply Hp.
Qed.

Lemma module_codes_data ms : module_codes ms = concat (o_code <$> (m_data <$> ms)).
Proof. unfold module_codes. by rewrite <- list_fmap_compose. Qed.

Record image_ok (i : image) : Prop := {
  img_length : int_ok (Z.of_nat (length (i_code i)));
  img_bytes : bytes_ok (i_code i);
  img_entry : int_ok (i_entry i);
  img_load : int_ok (i_load_address i);
  img_relocs : Forall int_ok (i_relocs i);
  img_symbols : table_ok (i_symbols i);
}.

Lemma linked_image_ok objs mode la es i : Forall wf_object objs → int_ok la → link objs mode la es = Ok i → image_ok i.
Proof.
  intros Hw Hla Hl. destruct (link_Ok _ _ _ _ _ Hw Hl) as (ms & g & sites & Hobjs & Hp & Hg & Hpatch & _).
  assert (Forall (λ m, wf_object (m_data m)) ms) as Hms by (rewrite <- Hobjs, Forall_fmap in Hw; exact Hw).
  unfold link in Hl. destruct (is_absolute mode) as [absolute| |]; [|done..].
  apply res_bind_Ok in Hl as ([ms' total] & Hplace & H). apply res_bind_Ok in H as (g' & Hg' & H).
  pose proof (place_modules_total _ _ _ _ Hplace ltac:(done)) as Htot. apply place_modules_Ok in Hplace as [Hobjs' Hp'].
  assert (Forall (λ m, wf_object (m_data m)) ms') as Hms' by (rewrite <- Hobjs', Forall_fmap in Hw; exact Hw).
  apply collect_globals_ok in Hg'; [|by split]. destruct (total <? 0); [done|].
  apply res_bind_Ok in H as (l1 & Hc & H). apply res_bind_Ok in H as ([l2 pending] & Hr & H).
  apply relocate_all_pending in Hr as Hpend; [|done]. apply res_bind_Ok in H as (ent & _ & H).
  apply res_bind_Ok in H as (ie & Hie%i64_int & H). apply res_bind_Ok in H as (sy & Hsy & [= <-]). cbn in *.
  split; cbn.
  - rewrite (patch_all_length _ _ _ Hpatch), module_codes_data, Hobjs, <- Hobjs', <- module_codes_data.
    by rewrite <- (Z.add_0_l (Z.of_nat _)), <- (placed_total _ _ _ Hp' Hms').
  - eapply patch_all_bytes; [exact Hpatch|]. by apply module_codes_bytes.
  - done.
  - by destruct absolute.
  - by destruct absolute.
  - by eapply shift_symbols_ok.
Qed.

(** ** The tool *)

Section cli.
Context {D : Type} (stod : text → res D) (show_double : D → text) (double_to_ll : D → Z).
Context (iter : list (text * text) → list (text * text)) (writable : text → bool).

Abbreviation object_text := (object_text show_double).
Definition image_text (i : image) : text := dump show_double (image_value i) 0 2.

Lemma image_value_fields i : image_value (D := D) i = VObject
  [(txt "code", VArray (VInt <$> i_code i)); (txt "entry", VInt (i_entry i)); (txt "format", VString (txt "wirth-exe-v1"));
   (txt "load_address", VInt (i_load_address i)); (txt "mode", VString (if i_absolute i then txt "absolute" else txt "relocatable"));
   (txt "relocations", VArray ((λ off, VObject [(txt "offset", VInt off); (txt "size", VInt 2)]) <$> i_relocs i));
   (txt "size", VInt (Z.of_nat (length (i_code i)))); (txt "symbols", VObject (symbol_values (i_symbols i)))].
Proof. reflexivity. Qed.

Lemma image_value_ok i : image_ok i → json_ok (image_value (D := D) i).
Proof.
  intros []. destruct img_symbols0 as [Hk Hv]. rewrite image_value_fields, symbol_values_sorted by done.
  apply json_ok_object. split; [cbn; repeat split; repeat constructor|].
  rewrite !fmap_cons, fmap_nil. cbn [snd]. repeat apply Forall_cons_2; try exact I; try apply Forall_nil_2; try done.
  - apply json_ok_array, Forall_fmap. eapply Forall_impl; [exact img_bytes0|]. intros z Hz. cbn in Hz |- *. unfold int_ok. lia.
  - apply json_ok_array, Forall_fmap. eapply Forall_impl; [exact img_relocs0|]. intros z Hz.
    apply json_ok_object. split; [cbn; repeat split; repeat constructor|]. cbn [fmap list_fmap snd]. repeat apply Forall_cons_2; done.
  - apply json_ok_object. rewrite as_value_keys, <- list_fmap_compose. split; [done|].
    apply Forall_fmap. exact (proj1 (Forall_fmap snd int_ok _) Hv).
Qed.

Lemma image_text_back i : image_ok i → parse_text stod (image_text i) = Ok (image_value i).
Proof. intros Hi. unfold image_text. by rewrite parse_dumped by (by apply image_value_ok). Qed.

(** Stepping through a command. *)
Lemma bind_Done {A B} (m : Cli A) (k : A → Cli B) s a s' : m s = Done a s' → (m ≫= k) s = k a s'.
Proof. intros E. unfold mbind, Cli_bind. by rewrite E. Qed.
Lemma read_text_found path t s : files s !! path = Some t → read_text path s = Done t s.
Proof. intros E. unfold read_text. by rewrite E. Qed.
Lemma write_text_done path t s : writable path = true →
  write_text writable path t s = Done tt (mk_tool (<[path := t]> (files s)) (tool_macros s) (printed_text s)).
Proof. intros E. unfold write_text. by rewrite E. Qed.
Lemma lift_Ok {A} (r : res A) a s : r = Ok a → lift r s = Done a s.
Proof. by intros ->. Qed.

Lemma load_module_back path o s : object_ok o → files s !! path = Some (object_text o) → load_module stod double_to_ll path s = Done o s.
Proof.
  intros Ho E. unfold load_module. rewrite (bind_Done _ _ _ _ _ (read_text_found _ _ _ E)). apply lift_Ok, object_text_back, Ho.
Qed.

Lemma load_modules_back paths os s : Forall2 (λ p o, object_ok o ∧ files s !! p = Some (object_text o)) paths os →
  load_modules stod double_to_ll paths s = Done os s.
Proof.
  induction 1 as [|p o paths os [Ho E] _ IH]; [done|]. cbn [load_modules].
  rewrite (bind_Done _ _ _ _ _ (load_module_back _ _ _ Ho E)). by rewrite (bind_Done _ _ _ _ _ IH).
Qed.

(** ** Paths of generated files *)

Lemma join_path_inj dir a b : join_path dir a = join_path dir b → a = b.
Proof.
  unfold join_path. destruct (last dir); [|done]. destruct (Ascii.eqb _ _); intros H; repeat apply app_inv_head in H; done.
Qed.
Lemma expanded_not_object dir a b : expanded_path dir a ≠ object_path dir b.
Proof. intros H%join_path_inj%(f_equal last). rewrite !last_app in H. by vm_compute in H. Qed.
Lemma expanded_inj dir a b : expanded_path dir a = expanded_path dir b → stem a = stem b.
Proof. intros H%join_path_inj. by apply app_inv_tail in H. Qed.
Lemma object_inj dir a b : object_path dir a = object_path dir b → stem a = stem b.
Proof. intros H%join_path_inj. by apply app_inv_tail in H. Qed.

(** ** Building *)

(** The macro pass over all sources: definitions stay known to later ones. *)
Fixpoint expansions (texts : list text) (ms : macros) : res (list text * macros) :=
  match texts with
  | [] => Ok ([], ms)
  | t :: texts' => '(out, ms) ← Macro.process_file iter t ms; '(outs, ms) ← expansions texts' ms; Ok (out :: outs, ms)
  end.
Definition assemble_source (dir : text) (st : text * text) : res ObjectFile :=
  assemble (read_lines st.2) (stem (expanded_path dir st.1)).
Definition sized (t : text) : Prop := sizes_ok (bodies 1 (read_lines t)).

(** The sources exist, have different stems, are not themselves generated, and
    the generated files can be written. *)
Record sources_ok (dir : text) (sources texts : list text) (fs : gmap text text) : Prop := {
  src_texts : Forall2 (λ src t, fs !! src = Some t) sources texts;
  src_stems : NoDup (stem <$> sources);
  src_apart : ∀ a b, a ∈ sources → b ∈ sources → a ≠ expanded_path dir b ∧ a ≠ object_path dir b;
  src_writable : Forall (λ src, writable (expanded_path dir src) = true ∧ writable (object_path dir src) = true) sources;
}.

Lemma process_file_done src dst t out ms s : files s !! src = Some t → writable dst = true →
  Macro.process_file iter t (tool_macros s) = Ok (out, ms) →
  process_file iter writable src dst s = Done tt (mk_tool (<[dst := out]> (files s)) ms (printed_text s)).
Proof.
  intros Et Hw E. unfold process_file. rewrite (bind_Done _ _ _ _ _ (read_text_found _ _ _ Et)).
  erewrite bind_Done; [|by rewrite E]. by apply write_text_done.
Qed.

Lemma assemble_file_done src dst t o s : files s !! src = Some t → writable dst = true → assemble (read_lines t) (stem src) = Ok o →
  assemble_file show_double writable src dst s = Done tt (mk_tool (<[dst := object_text o]> (files s)) (tool_macros s) (printed_text s)).
Proof.
  intros Et Hw E. unfold assemble_file. rewrite (bind_Done _ _ _ _ _ (read_text_found _ _ _ Et)).
  erewrite bind_Done; [by apply write_text_done|]. apply lift_Ok. unfold assemble_lines. by rewrite E.
Qed.

Lemma build_objects_done dir sources : ∀ texts outs ms modules s,
  sources_ok dir sources texts (files s) → expansions texts (tool_macros s) = Ok (outs, ms) →
  res_map (assemble_source dir) (zip sources outs) = Ok modules →
  ∃ s', build_objects show_double iter writable dir sources s = Done (object_path dir <$> sources) s' ∧ printed_text s' = printed_text s ∧
    Forall2 (λ p o, files s' !! p = Some (object_text o)) (object_path dir <$> sources) modules ∧
    ∀ p, (∀ src, src ∈ sources → p ≠ expanded_path dir src ∧ p ≠ object_path dir src) → files s' !! p = files s !! p.
Proof.
  induction sources as [|src sources IH]; intros texts outs ms modules s [Ht Hn Ha Hw]; inversion Ht as [|? t ? texts' Et Ht' E1 E2]; subst.
  { intros [= <- <-] [= <-]. by exists s. }
  cbn [expansions]. intros ([out ms1] & Hout & ([outs1 ms2] & Houts & [= <- <-])%res_bind_Ok)%res_bind_Ok. cbn [zip zip_with res_map].
  intros (o & Ho & (os & Hos & [= <-])%res_bind_Ok)%res_bind_Ok. cbn in Hn. apply NoDup_cons in Hn as [Hni Hn].
  apply Forall_cons in Hw as [[Hw1 Hw2] Hw].
  assert (∀ b, b ∈ sources → stem b ≠ stem src) as Hst by (intros b Hb E; apply Hni; rewrite <- E; by apply list_elem_of_fmap_2).
  pose proof (process_file_done _ _ _ _ _ _ Et Hw1 Hout) as Hp. set (s1 := mk_tool _ _ _) in Hp.
  pose proof (assemble_file_done (expanded_path dir src) (object_path dir src) out o s1 (lookup_insert_eq _ _ _) Hw2 Ho) as Has.
  set (s2 := mk_tool _ _ _) in Has.
  destruct (IH texts' outs1 ms2 os s2) as (s' & Hb & Hpr & HF & Hfr); [|done|done|].
  { split; [|done|set_solver|done]. apply Forall2_same_length_lookup. split; [by eapply Forall2_length|].
    intros i a t' Hi Hti. pose proof (Forall2_lookup_lr _ _ _ _ _ _ Ht' Hi Hti) as Hf. apply list_elem_of_lookup_2 in Hi.
    destruct (Ha a src) as [N1 N2]; [by right|by left|]. cbn. by rewrite !lookup_insert_ne by done. }
  exists s'. split_and!.
  - cbn [build_objects]. rewrite (bind_Done _ _ _ _ _ Hp), (bind_Done _ _ _ _ _ Has), (bind_Done _ _ _ _ _ Hb). done.
  - by rewrite Hpr.
  - cbn. constructor; [|done]. rewrite Hfr; [apply lookup_insert_eq|]. intros b Hb'. split.
    + intros E. symmetry in E. by apply expanded_not_object in E.
    + intros E%object_inj. by apply (Hst b).
  - intros p Hp'. rewrite Hfr by (intros b Hb'; apply Hp'; by right). destruct (Hp' src) as [N1 N2]; [by left|]. cbn.
    by rewrite !lookup_insert_ne by done.
Qed.

Lemma modules_ok dir sources : ∀ outs modules, Forall sized outs → res_map (assemble_source dir) (zip sources outs) = Ok modules →
  Forall (λ o, object_ok o ∧ wf_object o) modules.
Proof.
  induction sources as [|src sources IH]; intros outs modules Hs; [by intros [= <-]|]. destruct outs as [|t outs]; [by intros [= <-]|].
  cbn [zip zip_with res_map]. apply Forall_cons in Hs as [Ht Hs].
  intros (o & Ho & (os & Hos & [= <-])%res_bind_Ok)%res_bind_Ok. constructor; [|by eapply IH].
  split; [by eapply assembled_object_ok|by eapply assemble_wf].
Qed.

Definition result_text (r : Result) : text :=
  concat ((λ z, to_string z ++ newline) <$> printed r) ++
  (txt "exit=" ++ to_string (exit_code r) ++ txt " steps=" ++ to_string (steps r) ++ txt " regs=[" ++ commas (registers r) ++ txt "]" ++ newline).

Lemma bind_bind {A B C} (m : Cli A) (f : A → Cli B) (g : B → Cli C) s : ((m ≫= f) ≫= g) s = (m ≫= λ x, f x ≫= g) s.
Proof. unfold mbind, Cli_bind. by destruct (m s). Qed.

Lemma print_result_done r s : print_result r s = Done tt (mk_tool (files s) (tool_macros s) (printed_text s ++ result_text r)).
Proof. unfold print_result, result_text. erewrite bind_Done by reflexivity. unfold print. cbn [files tool_macros printed_text]. by rewrite <- app_assoc. Qed.

Lemma link_files_done paths modules exe mode la es i s : Forall2 (λ p o, files s !! p = Some (object_text o)) paths modules →
  Forall object_ok modules → link modules mode la es = Ok i → writable exe = true →
  link_files stod show_double double_to_ll writable paths exe mode la es s
  = Done tt (mk_tool (<[exe := image_text i]> (files s)) (tool_macros s) (printed_text s)).
Proof.
  intros HF Ho Hl Hw. unfold link_files. rewrite (bind_Done _ _ s modules s).
  2: { apply load_modules_back. clear Hl. induction HF; constructor; inversion Ho; subst; [by split|by apply IHHF]. }
  erewrite bind_Done; [by apply write_text_done|]. apply lift_Ok. unfold link_modules. by rewrite Hl.
Qed.

Lemma run_file_done exe i la n r s : parse_text stod (image_text i) = Ok (image_value i) →
  Linker.run_file double_to_ll (image_value i) la n = Ok r → files s !! exe = Some (image_text i) →
  run_file stod double_to_ll exe la n s = Done r s.
Proof.
  intros Hp Hr E. unfold run_file. rewrite (bind_Done _ _ _ _ _ (read_text_found _ _ _ E)). apply lift_Ok. by rewrite Hp.
Qed.

(** C40: building and running.  [build] with [--run] prints the result of
    running the image linked from the modules assembled from the macro
    expansions of its sources, as computed without any file in between: the
    object files and the image that go through the disk as JSON lose nothing.
    It holds when the sources have different stems and no [.SPACE] in an
    expansion is negative. *)
Theorem build_runs_program args a s texts outs ms modules i r :
  parse_build args (mk_build [] (txt "build/toolchain") (txt "absolute") 0 None false kMaxSteps) s = Done a s →
  b_run a = true → b_sources a ≠ [] → int_ok (b_load a) →
  sources_ok (b_out_dir a) (b_sources a) texts (files s) → writable (join_path (b_out_dir a) (txt "a.out.json")) = true →
  expansions texts (tool_macros s) = Ok (outs, ms) → Forall sized outs →
  res_map (assemble_source (b_out_dir a)) (zip (b_sources a) outs) = Ok modules →
  link modules (b_mode a) (b_load a) (b_entry a) = Ok i →
  Linker.run_file double_to_ll (image_value i) (Some (b_load a)) (b_max_steps a) = Ok r →
  ∃ s', run_cli stod show_double double_to_ll iter writable (txt "build" :: args) s = Done 0 s' ∧
    printed_text s' = printed_text s ++ (txt "gerado: " ++ join_path (b_out_dir a) (txt "a.out.json") ++ newline) ++ result_text r ∧
    files s' !! join_path (b_out_dir a) (txt "a.out.json") = Some (image_text i).
Proof.
  intros Hargs Hrun Hne Hla Hsrc Hw Hex Hsz Hmod Hlink Hres. set (exe := join_path _ _) in *.
  destruct (build_objects_done _ _ _ _ _ _ _ Hsrc Hex Hmod) as (s1 & Hb & Hpr & HF & _).
  pose proof (modules_ok _ _ _ _ Hsz Hmod) as Hok. apply Forall_and in Hok as [Hobj Hwf].
  pose proof (image_text_back _ (linked_image_ok _ _ _ _ _ Hwf Hla Hlink)) as Hback.
  pose proof (link_files_done _ _ _ _ _ _ _ _ HF Hobj Hlink Hw) as Hlf.
  destruct args as [|arg args]; [by injection Hargs as <-|].
  change (run_cli _ _ _ _ _ _ s) with (run_build stod show_double double_to_ll iter writable (arg :: args) s).
  unfold run_build. rewrite (bind_Done _ _ _ _ _ Hargs). destruct (b_sources a) as [|x l] eqn:Es; [done|]. rewrite <- Es in *.
  rewrite (bind_Done _ _ _ _ _ Hb), (bind_Done _ _ _ _ _ Hlf), Hrun. eexists. split.
  { erewrite bind_Done by reflexivity. rewrite bind_bind. rewrite (bind_Done _ _ _ r _ (run_file_done _ _ _ _ _ _ Hback Hres (lookup_insert_eq _ _ _))).
    by rewrite (bind_Done _ _ _ _ _ (print_result_done _ _)). }
  cbn. rewrite Hpr, <- app_assoc. split; [done|]. apply lookup_insert_eq.
Qed.
End cli.

(** ** A program of two files *)

Definition line_of (t : string) : text := txt t ++ newline.
Definition demo_main : text :=
  concat (line_of <$> ["MACRO SHOW r"; "PRINT $r"; "MEND"; ".EXTERN six"; ".ENTRY start"; "start: LOAD R1, six"; "SHOW R1"; "HALT"]%string).
Definition demo_lib : text := concat (line_of <$> [".GLOBAL six"; "six: .WORD 6"]%string).
Definition demo_args : list text := [txt "main.s"; txt "lib/six.s"; txt "--out-dir"; txt "out"; txt "--run"].
Definition demo_build : build_args := mk_build [txt "main.s"; txt "lib/six.s"] (txt "out") (txt "absolute") 0 None true kMaxSteps.
Definition demo_tool : tool := mk_tool (<[txt "main.s" := demo_main]> {[txt "lib/six.s" := demo_lib]}) [] [].
Definition demo_expansions : list text * macros :=
  Eval vm_compute in match expansions (λ l, l) [demo_main; demo_lib] [] with Ok x => x | _ => ([], []) end.
Definition demo_modules : list ObjectFile :=
  Eval vm_compute in match res_map (assemble_source (txt "out")) (zip (b_sources demo_build) demo_expansions.1) with Ok x => x | _ => [] end.
Definition demo_image : image :=
  Eval vm_compute in match link demo_modules (txt "absolute") 0 None with Ok x => x | _ => mk_image true 0 0 [] [] [] end.
Definition demo_result : Result :=
  Eval vm_compute in match Linker.run_file (D := unit) (λ _, 0) (image_value demo_image) (Some 0) kMaxSteps with Ok x => x | _ => mk_result 0 0 [] [] end.


Lemma demo_sources_ok : sources_ok (λ _, true) (txt "out") (b_sources demo_build) [demo_main; demo_lib] (files demo_tool).
Proof.
  split.
  - repeat constructor.
  - apply (bool_decide_unpack _). by vm_compute.
  - intros a b Ha Hb. repeat (apply elem_of_cons in Ha as [->|Ha]); try (by apply elem_of_nil in Ha);
      repeat (apply elem_of_cons in Hb as [->|Hb]); try (by apply elem_of_nil in Hb); by vm_compute.
  - by repeat constructor.
Qed.

Lemma build_runs_program_witness :
  ∃ s', run_cli (λ _, Undefined) (λ _ : unit, []) (λ _, 0) (λ l, l) (λ _, true) (txt "build" :: demo_args) demo_tool = Done 0 s' ∧
    printed_text s' = txt "gerado: out/a.out.json" ++ newline ++ txt "6" ++ newline ++ txt "exit=0 steps=3 regs=[0, 6, 0, 0, 0, 0, 0, 0]" ++ newline.
Proof.
  assert (int_ok (b_load demo_build)) as H0 by (by vm_compute).
  assert (parse_build demo_args (mk_build [] (txt "build/toolchain") (txt "absolute") 0 None false kMaxSteps) demo_tool
    = Done demo_build demo_tool) as H1 by reflexivity.
  assert (expansions (λ l, l) [demo_main; demo_lib] (tool_macros demo_tool) = Ok (demo_expansions.1, demo_expansions.2)) as H2 by (vm_compute; reflexivity).
  assert (Forall sized demo_expansions.1) as H3 by (repeat constructor; by vm_compute).
  assert (res_map (assemble_source (b_out_dir demo_build)) (zip (b_sources demo_build) demo_expansions.1) = Ok demo_modules) as H4 by (vm_compute; reflexivity).
  assert (link demo_modules (b_mode demo_build) (b_load demo_build) (b_entry demo_build) = Ok demo_image) as H5 by (vm_compute; reflexivity).
  assert (Linker.run_file (D := unit) (λ _, 0) (image_value demo_image) (Some (b_load demo_build)) (b_max_steps demo_build) = Ok demo_result) as H6 by (vm_compute; reflexivity).
  destruct (build_runs_program (λ _, Undefined) (λ _ : unit, []) (λ _, 0) (λ l, l) (λ _, true) demo_args demo_build demo_tool
    [demo_main; demo_lib] _ _ _ _ _ H1 eq_refl ltac:(discriminate) H0 demo_sources_ok eq_refl H2 H3 H4 H5 H6) as (s' & Hr & Ho & _).
  exists s'. split; [exact Hr|]. rewrite Ho. vm_compute. reflexivity.
Defined.

(** Two sources with the same stem share their generated files: both modules
    that reach the linker are the second one. *)
Lemma same_stem_overwrites :
  match (objs ← build_objects (λ _ : unit, []) (λ l, l) (λ _, true) (txt "out") [txt "a/x.s"; txt "b/x.s"];
         load_modules (λ _, Undefined) (λ _ : unit, 0) objs)
    (mk_tool (<[txt "a/x.s" := line_of "NOP"]> {[txt "b/x.s" := line_of "HALT"]}) [] []) with
  | Done ms _ => o_code <$> ms = [[1]; [1]]
  | _ => False
  end.
Proof. vm_compute. reflexivity. Qed.
